(* ===== verification/_CoqProject ===== *)
-Q . S2P
Prelude.v
Int128.v
FlatView.v
FlatViewFacts.v
FlatViewRefine.v
Topology.v
PhysMap.v
PhysMapFacts.v
PhysMapCompact.v
Dispatch.v
HostUtils.v
Gic.v
GicFacts.v
Ftintc020.v
QemuTimer.v
Fttmr010.v
Bitops.v
Ftdmac020.v
Bitmap.v
HBitmap.v
HBitmapIter.v
Xbzrle.v
XbzrleFacts.v
PageCache.v
Fifo8.v
ArmMmu.v
ArmMmuFacts.v
Cputlb.v
CputlbFacts.v
SoftMmu.v
SoftMmuFacts.v
SoftMmuRefine.v
SoftMmuClaims.v
RamList.v
RamListFacts.v
DirtyTracking.v
DirtyClaims.v
MemRegion.v
MemRegionFacts.v
PhysAccess.v
PhysAccessFacts.v
PhysAccessClaims.v
Tcg.v
TcgOptimize.v
TcgFacts.v
TcgCopies.v
TcgKnown.v
TcgStep.v
TcgPropagate.v
TcgBlock.v
TcgTotal.v
TcgTyping.v
TcgOptimizeClaims.v
TcgLiveness.v
TcgLivenessFacts.v
TcgLivenessClaims.v
TcgLivenessExact.v
TcgPipeline.v
Qdict.v
QdictFacts.v
QdictClaims.v
JsonLexer.v
Json.v
JsonParser.v
JsonText.v
JsonGrammar.v
JsonSound.v
JsonLex.v
JsonPrint.v
JsonScan.v
JsonRound.v
JsonClaims.v
Iov.v
IovFacts.v
IovClone.v
IovSend.v
IovClaims.v
Ptimer.v
Ftwdt010.v
Ftrtc011.v
