(* ===== verification/Prelude.v ===== *)
(** * Verification of the QEMU system-emulation core

    The repository is QEMU with board and device models for Faraday ARM SoCs.
    This development models the parts of it that carry state and arithmetic of
    their own - how guest memory is laid out, translated, cached and looked up,
    the interrupt controllers, timers, clocks and the DMA controller, the
    optimizer of translated code, the text that management commands come in, the
    data structures under migration and the block layer, the bit and
    wide-integer arithmetic they all use - and proves what each of them promises
    to its callers.

    ** How the parts fit together

    A guest's address space is a tree of memory regions ([memory.c]).  The tree
    is rendered into a flat view, the difference between two flat views is sent
    to listeners, and the listener of [exec.c] enters the sections of the view
    into a radix tree over page numbers, through which every guest access is
    dispatched to a device or to RAM.  Sizes are 128-bit integers
    ([include/qemu/int128.h]).  A guest load or store has a virtual address: the
    MMU of the CPU ([target-arm/helper.c]) walks the guest's page tables, and
    the software TLB ([cputlb.c], [softmmu_template.h]) caches where a page
    leads, host memory or the section of the dispatch.  Guest RAM is a list of
    blocks with three dirty bitmaps ([exec.c], [ram_addr.h]); stores to pages
    that are not dirty go through a callback that marks them.  Devices access
    the address space by physical addresses ([exec.c]), and accesses to devices
    are split and byte-swapped for their callbacks ([memory.c]).  A device such as the
    interrupt controller is a register file whose handlers run on such accesses
    and drive output lines; a device that must act later enters a timer in a
    list that the main loop runs ([qemu-timer.c]).
    Guest code runs by translation: a decoder turns it into operations on
    temporaries ([tcg/tcg-opc.h]), the optimizer rewrites a block of them
    ([tcg/optimize.c]), the liveness analysis removes what is dead and marks
    the last uses ([tcg/tcg.c]), and the rest of TCG makes host code of it.
    Migration tracks dirty blocks in hierarchical bitmaps, keeps sent pages in a
    page cache and sends the XBZRLE difference of a page.  Block and network
    requests describe their data by scatter-gather vectors ([util/iov.c]).
    Management commands arrive as JSON: a lexer ([json-lexer.c]) makes tokens of
    the bytes, a splitter ([json-streamer.c]) makes messages of the tokens, a
    parser ([json-parser.c]) makes values of a message, with dictionaries as
    hash tables ([qdict.c]), and a printer ([qjson.c]) makes the text of the
    answer.

    ** Conventions

    A [w]-bit integer is a [Z] with its wrap-around written out ([uwrap],
    [swrap]).  Code that may stop the process or leave its arrays returns
    [res]: a fault is an assertion or [abort] ([AssertFailed]), an index outside
    an array ([OutOfBounds]), an undefined shift or division, or [OutOfFuel] in
    a loop that is not structural.  A theorem that a function returns [Ok] thus
    says that no assertion fails, no array is left and every loop ends.  Pointer
    parameters are passed by value and returned.  A field written by a handler
    is a field of a [Record]; [let*] sequences the steps of a handler.

    ** Files

    - [Prelude]: faults, machine integers, arrays, loops, byte buffers, the
      tactics ([dlia], [zcases], [zbits], [res_inv]) and the hint database
      [zbits].
    - [Int128] ([int128.h]): the struct operations are two's complement
      arithmetic; the class [Int128Ops] is what the memory core uses, with the
      struct and the integers as instances.
    - [FlatView], [FlatViewFacts], [FlatViewRefine] ([memory.c]): rendering of a
      region tree.  The flat view maps every address to the region, offset and
      attributes that the tree resolves it to (priority, aliases, clipping);
      merging ranges keeps the mapping; a region of 2^64 bytes behind another
      one trips an assertion.
    - [Topology] ([memory.c]): insertion of subregions by priority, and the
      listener passes: replaying the events leads from the old view to the new.
    - [PhysMap], [PhysMapFacts], [PhysMapCompact] ([exec.c], with
      [TARGET_PAGE_BITS] = 10, hence six levels): a mapping succeeds within the
      reserved nodes and maps exactly its range; compaction changes no lookup.
    - [Dispatch] ([exec.c], [memory.c]): a topology change from the region tree
      to the dispatch.  After the listener has run, a lookup of any address of
      the 64-bit space finds what the tree resolves it to, also in pages that
      several regions share.
    - [ArmMmu], [ArmMmuFacts] ([target-arm/helper.c]): the walks of ARMv5, ARMv6
      and long-descriptor tables and of the protection unit.  A walk by tables
      is total, uniform in a page if the process identifier is page-aligned, and
      exact in the protection that it returns; its frame does not depend on the
      mode.
    - [Cputlb], [CputlbFacts] ([cputlb.c]), [SoftMmu], [SoftMmuFacts],
      [SoftMmuRefine], [SoftMmuClaims] ([softmmu_template.h], [op_helper.c]):
      the TLB and the load and store helpers.  A TLB whose entries agree with
      the page tables is transparent: lookups agree with walks, fills, flushes
      and dirty tracking keep the agreement, loads return the bytes that the
      walks lead to, and stores put them there, or store nothing when a byte
      faults.  The class [StoreLaws] has what stores ask of the callback for
      clean pages; that it changes the TLB too is in [DirtyTracking].  The
      conditions are [machine_ok] (page-aligned sections), [has_tables] and
      [env_ok] (an aligned process identifier), and four defects show what is
      lost without them: invalidation under the fast context switch extension,
      process identifiers with low bits, stores to read-only regions of the
      protection unit, devices that do not start on a page boundary.
    - [RamList], [RamListFacts] ([exec.c], [ram_addr.h]): RAM blocks and dirty
      bitmaps.  An allocation takes the smallest gap behind a block that fits,
      never the space before the lowest block, and keeps blocks disjoint and the
      bitmaps long enough; host pointers lead back to their addresses.
    - [DirtyTracking], [DirtyClaims] ([exec.c], [cputlb.c]): the bitmaps and the
      TLBs together.  A step relation over both; no reachable TLB entry lets a
      store past a clean bit.  Resets of ranges that do not start on a page, and
      frames that differ between the modes (which a coherent TLB does not have),
      are not steps, and lose writes.
    - [MemRegion], [MemRegionFacts] ([memory.c]): accesses to the callbacks of a
      region.  Splitting and byte order keep the bytes; accesses narrower than
      the callback are broken.
    - [PhysAccess], [PhysAccessFacts], [PhysAccessClaims] ([exec.c]): reads, writes and mappings by physical address.  On RAM that
      the map has in whole pages they
      reach the bytes that the memory map leads to and mark the pages; the sizes
      of device accesses are legal; lengths that are not limited to a section
      and unmapping across pages are defects.
    - [Tcg] ([tcg-opc.h], [tcg.h], [tci.c], [tcg/README]): the operations of TCG,
      their descriptions and what they do on a 64-bit host, after the
      interpreter [tci.c] (32-bit results are zero-extended) and, for operations
      that it lacks, the README, over an
      interface [TcgWorld] of host memory, guest memory and helpers.
    - [TcgOptimize] ([tcg/optimize.c]): the optimizer.  [TcgCopies] has the
      invariant of the lists of copies, [TcgKnown] folding and the masks
      of bits known to be zero, [TcgStep], [TcgPropagate] and [TcgBlock] the
      simulation of each rewriting, [TcgTotal] that the pass ends and which
      code faults it.  [TcgFacts] and [TcgTyping] have the typing of code, under
      which a run is never stuck.  [TcgOptimizeClaims]: the optimized code does
      what the code does; 64-bit high products and dead divisions are defects.
    - [TcgLiveness], [TcgLivenessFacts], [TcgLivenessClaims], [TcgLivenessExact]
      ([tcg_liveness_analysis] of [tcg.c]): the code that is left agrees with
      the code on what is needed, and the bits for the register allocator are
      those of a reference that looks at the code behind.  [TcgPipeline] composes
      the passes: the optimizer leaves code that the analysis may work on, and
      the two keep the effects, the exit and the globals of every run.
    - [HostUtils] ([host-utils.h], [host-utils.c]): the portable 128-bit
      multiplication and division and the bit counters against the compiler's.
    - [Bitops], [Bitmap] ([bitops.h], [bitops.c], [bitmap.c]): bit searches, bit
      fields, ranges and areas of bitmaps.
    - [HBitmap], [HBitmapIter] ([hbitmap.c]): seven levels of summary bits; set,
      reset, count and iteration keep and use the level invariant.
    - [Gic], [GicFacts] ([arm_gic.c], [gic_internal.h], [arm_gic_common.c]): the
      ARM interrupt controller; what its outputs show, that accesses keep the
      invariant (all but software interrupts above 15), acknowledge and end of interrupt, and three guest-reachable
      defects.
    - [Ftintc020] ([hw/arm/ftintc020.c]): the Faraday interrupt controller.
    - [QemuTimer] ([qemu-timer.c]): the sorted lists of pending timers, their
      deadlines, and the loop that runs the expired ones, for callbacks that
      remove timers and enter timers for later (the class [TimerCallback]).
    - [Fttmr010] ([hw/arm/fttmr010.c]), on top of it: the Faraday timer; memory
      safety, the period of its interrupts, and what polling and a zero reload
      value do.
    - [Ftdmac020] ([hw/arm/ftdmac020.c]): the Faraday DMA controller; a channel
      performs the transfers of its descriptor list, and a count that is not a
      multiple of the burst never ends.
    - [Ptimer] ([hw/core/ptimer.c]): the countdown timers of other devices.  The
      count against exact division, ticks without drift; the count can go
      backwards, and large limits and fast clocks are mishandled.
    - [Ftwdt010], [Ftrtc011] ([hw/arm/ftwdt010.c], [hw/arm/ftrtc011.c]): the
      Faraday watchdog and clock.  An enabled watchdog fires at its deadline, but
      never again after it has reset the machine; the clock keeps time, and its
      alarm can be missed.
    - [Xbzrle], [XbzrleFacts] ([xbzrle.c], [cutils.c]): decoding an encoded
      difference restores the page; the decoder is safe on any input.
    - [PageCache] ([page_cache.c]) and [Fifo8] ([fifo8.c]).
    - [Qdict], [QdictFacts], [QdictClaims] ([qobject/qdict.c]): dictionaries as
      hash tables; every operation is that of a finite map.
    - [JsonLexer] ([json-lexer.c], [json-streamer.c]), [Json] (values,
      [util/unicode.c]), [JsonParser] ([json-parser.c]), [JsonText]
      ([qjson.c]): JSON from bytes to values and back.  [JsonGrammar] has the
      grammar, [JsonSound] that the parser decides it, [JsonLex] the lexer and
      the bounds of the splitter, [JsonPrint], [JsonScan] and [JsonRound] what the
      lexer and the splitter make of printed text.  [JsonClaims]: a printed value
      is read back as itself; any input within limits is handled without a
      fault, and one bracket more aborts; what is kept between bytes is bounded.
      The printer's and the parser's doubles ([strtod], the format [%f]) are
      parameters.
    - [Iov], [IovFacts], [IovClone], [IovSend], [IovClaims] ([util/iov.c]):
      scatter-gather vectors as sequences of addresses.  Copying in and out,
      slices, transfers over any socket (an interface with laws), and clones,
      which keep overlaps, for any [qsort].

    ** Bounds and fuel

    The loops that are not structural take fuel: the merging loops of a flat
    view as many turns as there are ranges; a pass over two views the sum of
    their lengths; the end-of-interrupt search one turn per interrupt number
    (and a theorem shows a cycle that no fuel suffices for); the run loops of
    XBZRLE one turn per byte; page-map recursion and lookup the six levels of
    the tree; [mem_add] three turns (head, pages, tail); a long-descriptor walk
    three levels; the widening of the large-page area 33 turns (the mask has 32
    bits); the load helper two levels, since the halves of an unaligned load are
    aligned; an access by physical address one turn per byte, since every turn
    handles at least one; running timers one turn per timer that can expire, and
    a DMA channel one per burst of its list; a walk
    around a list of copies one turn per temporary of the block; the lexer two
    passes per byte, since a byte that ends a token is looked at twice; the
    parser one level per token; the extraction of a prefix one turn per entry;
    a transfer one turn per byte, and one per signal that interrupts it.  The fuel of a
    run of TCG code is the number of operations executed: a block may loop, so
    the theorems speak of the runs that end.  Each other theorem that
    states a result shows that the fuel is enough.  Words are 64 bits (a 64-bit
    host); XBZRLE pages are below 16 KiB, the limit of its length fields.

    ** Not modelled

    Register allocation, host code and the instruction decoders of the CPU
    targets generate code, and what it means would need a model of the hosts;
    floating point is a library from elsewhere.  The block layer and its image
    formats, sockets, user interfaces, threads, clocks, user-mode emulation and
    accelerators drive the host; the monitor and the object model dispatch to
    generated code.  The other devices of the boards (network, storage, display,
    pin and memory controllers) are register files of the kind of those that are
    modelled.  Of [memory.c] the ioeventfds, coalescing, transactions and
    reference counts; of [exec.c] IOMMU translation, map clients, names and files
    behind RAM blocks and Xen; of the TLB the code caches, big-endian targets and
    the instruction fetch that looks for code pages; of [qdict.c] the typed
    getters, flattening and arrays; memory release everywhere. *)

From stdpp Require Import base list numbers.
From Stdlib Require Import ZArith Lia.

(** ** Scopes and notations *)

Declare Scope qemu_scope.
Delimit Scope qemu_scope with qemu.
Open Scope Z_scope.

(** ** Faulting computations

    The C code stops the process with [assert]/[abort], and an access outside
    an array has no defined behaviour.  A computation that may do either
    returns a [res]. *)
Inductive fault : Type :=
| AssertFailed
| OutOfBounds
| UndefinedShift
| DivisionByZero
| OutOfFuel.

Inductive res (A : Type) : Type :=
| Ok (a : A)
| Err (f : fault).
Arguments Ok {A} a.
Arguments Err {A} f.

#[export] Instance fault_eq_dec : EqDecision fault.
Proof. solve_decision. Defined.

Definition res_bind {A B} (c : res A) (k : A -> res B) : res B :=
  match c with Ok a => k a | Err f => Err f end.

Notation "'let*' x ':=' c 'in' k" := (res_bind c (fun x => k))
  (at level 10, x pattern, c at level 100, k at level 200) : qemu_scope.
Open Scope qemu_scope.

(** [assert(b)]. *)
Definition c_assert (b : bool) : res unit :=
  if b then Ok tt else Err AssertFailed.

(** A shift of a [w]-bit operand by [n]: the count must be below the width. *)
Definition c_shift (w n : Z) : res unit :=
  if (0 <=? n) && (n <? w) then Ok tt else Err UndefinedShift.

(** The divisor of an unsigned division or remainder must not be zero. *)
Definition c_div (a b : Z) : res Z := if b =? 0 then Err DivisionByZero else Ok (a / b).
Definition c_mod (a b : Z) : res Z := if b =? 0 then Err DivisionByZero else Ok (a mod b).

(** Array read: an index outside the array is a fault. *)
Definition aget {A} (l : list A) (i : Z) : res A :=
  if (i <? 0) then Err OutOfBounds
  else match l !! Z.to_nat i with Some x => Ok x | None => Err OutOfBounds end.

(** Array write. *)
Definition aset {A} (l : list A) (i : Z) (x : A) : res (list A) :=
  if (0 <=? i) && (i <? Z.of_nat (length l))
  then Ok (<[Z.to_nat i := x]> l) else Err OutOfBounds.

(** ** Machine integers

    A [w]-bit integer is a [Z]; conversion to an unsigned type reduces modulo
    [2^w], conversion to a signed type picks the two's complement
    representative. *)
Definition uwrap (w z : Z) : Z := z mod 2 ^ w.
Definition swrap (w z : Z) : Z := (z + 2 ^ (w - 1)) mod 2 ^ w - 2 ^ (w - 1).

Abbreviation u8 := (uwrap 8).
Abbreviation u16 := (uwrap 16).
Abbreviation u32 := (uwrap 32).
Abbreviation u64 := (uwrap 64).
Abbreviation s32 := (swrap 32).
Abbreviation s64 := (swrap 64).

Definition b2z (b : bool) : Z := if b then 1 else 0.

(** ** Tactics *)

(** Linear arithmetic with [/] and [mod] turned into their equations. *)
Ltac dlia := Z.div_mod_to_equations; lia.

(** Case split on the boolean comparisons of the goal. *)
Ltac zcase :=
  match goal with
  | |- context [?c ?a ?b] =>
      match c with
      | Z.ltb => destruct (Z.ltb_spec a b)
      | Z.leb => destruct (Z.leb_spec a b)
      | Z.eqb => destruct (Z.eqb_spec a b)
      | Z.gtb => rewrite (Z.gtb_ltb a b)
      | Z.geb => rewrite (Z.geb_leb a b)
      end
  end.
Ltac zcases := repeat (zcase; cbn [andb orb negb]).

(** ** Faulting computations: inversion *)

Lemma bind_Ok {A B} (c : res A) (k : A -> res B) b :
  res_bind c k = Ok b <-> exists a, c = Ok a /\ k a = Ok b.
Proof. destruct c; cbn; naive_solver. Qed.

Lemma aget_Ok {A} (l : list A) i x :
  aget l i = Ok x <-> 0 <= i /\ l !! Z.to_nat i = Some x.
Proof.
  unfold aget. destruct (Z.ltb_spec i 0); [split; [done|lia]|].
  destruct (l !! Z.to_nat i); naive_solver.
Qed.

Lemma aset_Ok {A} (l : list A) i x l' :
  aset l i x = Ok l' <->
  0 <= i < Z.of_nat (length l) /\ l' = <[Z.to_nat i := x]> l.
Proof.
  unfold aset. destruct ((0 <=? i) && (i <? Z.of_nat (length l))) eqn:E.
  - split; [intros [= <-]; split; [lia|done]|intros [_ ->]; done].
  - split; [done|lia].
Qed.

Lemma c_assert_Ok b u : c_assert b = Ok u <-> b = true.
Proof. destruct b, u; cbn; naive_solver. Qed.

Lemma c_shift_ok w n : 0 <= n < w -> c_shift w n = Ok tt.
Proof. intros. unfold c_shift. destruct ((0 <=? n) && (n <? w)) eqn:E; [done|lia]. Qed.

(** Break a hypothesis [c = Ok x] into the steps of [c]. *)
Ltac res_inv :=
  repeat match goal with
  | H : res_bind _ _ = Ok _ |- _ => apply bind_Ok in H as (? & ? & ?)
  | H : aget _ _ = Ok _ |- _ => apply aget_Ok in H as [? ?]
  | H : aset _ _ _ = Ok _ |- _ => apply aset_Ok in H as [? ->]
  | H : c_assert _ = Ok _ |- _ => apply c_assert_Ok in H
  | H : Ok _ = Ok _ |- _ => injection H as H; subst
  | H : Err _ = Ok _ |- _ => discriminate H
  end.

(** ** Machine integers: ranges *)

Lemma pow2_pos w : 0 <= w -> 0 < 2 ^ w.
Proof. lia. Qed.

Lemma uwrap_range w z : 0 <= w -> 0 <= uwrap w z < 2 ^ w.
Proof. intros. apply Z.mod_pos_bound. lia. Qed.

Lemma uwrap_small w z : 0 <= z < 2 ^ w -> uwrap w z = z.
Proof. apply Z.mod_small. Qed.

Lemma uwrap_idem w z : 0 <= w -> uwrap w (uwrap w z) = uwrap w z.
Proof. intros. apply uwrap_small, uwrap_range. done. Qed.

Lemma swrap_range w z : 0 < w -> - 2 ^ (w - 1) <= swrap w z < 2 ^ (w - 1).
Proof.
  intros. unfold swrap.
  assert (2 ^ w = 2 * 2 ^ (w - 1)) as E
    by (rewrite <- Z.pow_succ_r by lia; f_equal; lia).
  pose proof (Z.mod_pos_bound (z + 2 ^ (w - 1)) (2 ^ w) ltac:(lia)). lia.
Qed.

Lemma swrap_small w z : 0 < w -> - 2 ^ (w - 1) <= z < 2 ^ (w - 1) -> swrap w z = z.
Proof.
  intros. unfold swrap.
  assert (2 ^ w = 2 * 2 ^ (w - 1)) as E
    by (rewrite <- Z.pow_succ_r by lia; f_equal; lia).
  rewrite Z.mod_small; lia.
Qed.

(** Two integers with the same residue have the same signed reading. *)
Lemma swrap_eq_mod w a b : (a - b) mod 2 ^ w = 0 -> 0 <= w -> swrap w a = swrap w b.
Proof.
  intros H Hw. unfold swrap. f_equal.
  apply Z.mod_divide in H as [k Hk]; [|lia].
  replace (a + 2 ^ (w - 1)) with (b + 2 ^ (w - 1) + k * 2 ^ w) by lia.
  apply Z.mod_add. lia.
Qed.

Lemma swrap_sub_multiple w z : 0 < w -> exists k, swrap w z = z + k * 2 ^ w.
Proof.
  intros. unfold swrap. exists (- ((z + 2 ^ (w - 1)) / 2 ^ w)).
  pose proof (Z.div_mod (z + 2 ^ (w - 1)) (2 ^ w) ltac:(lia)). lia.
Qed.

Lemma uwrap_sub_multiple w z : 0 <= w -> exists k, uwrap w z = z + k * 2 ^ w.
Proof.
  intros. unfold uwrap. exists (- (z / 2 ^ w)).
  pose proof (Z.div_mod z (2 ^ w) ltac:(lia)). lia.
Qed.

Lemma uwrap_eq_mod w a b k : 0 <= w -> a = b + k * 2 ^ w -> uwrap w a = uwrap w b.
Proof. intros Hw ->. unfold uwrap. apply Z.mod_add. lia. Qed.

(** ** Bits *)

Lemma testbit_high n w i : 0 <= n < 2 ^ w -> 0 <= w <= i -> Z.testbit n i = false.
Proof.
  intros Hn Hi. destruct (Z.eq_dec n 0) as [->|]; [apply Z.testbit_0_l|].
  apply Z.bits_above_log2; [lia|].
  enough (Z.log2 n < w) by lia. apply Z.log2_lt_pow2; lia.
Qed.

(** Bits determine membership in the unsigned range. *)
Lemma bits_range n w :
  0 <= w -> (forall i, w <= i -> Z.testbit n i = false) -> 0 <= n < 2 ^ w.
Proof.
  intros Hw H. assert (n = n mod 2 ^ w) as ->; [|apply Z.mod_pos_bound; lia].
  apply Z.bits_inj'. intros i Hi. destruct (Z.ltb_spec i w).
  - rewrite Z.mod_pow2_bits_low; done.
  - rewrite Z.mod_pow2_bits_high by lia. apply H. done.
Qed.

Lemma uwrap_testbit w z i :
  0 <= w -> 0 <= i -> Z.testbit (uwrap w z) i = (i <? w) && Z.testbit z i.
Proof.
  intros Hw Hi. unfold uwrap. destruct (Z.ltb_spec i w); cbn [andb].
  - apply Z.mod_pow2_bits_low. done.
  - apply Z.mod_pow2_bits_high. lia.
Qed.

Lemma ones_testbit n i : 0 <= n -> 0 <= i -> Z.testbit (Z.ones n) i = (i <? n).
Proof.
  intros. destruct (Z.ltb_spec i n).
  - apply Z.ones_spec_low. lia.
  - apply Z.ones_spec_high. lia.
Qed.

Lemma one_testbit i : Z.testbit 1 i = (i =? 0).
Proof.
  destruct (Z.eqb_spec i 0) as [->|]; [done|].
  destruct (Z.ltb_spec i 0); [by apply Z.testbit_neg_r|].
  apply (testbit_high 1 1); lia.
Qed.

Lemma pow2_testbit n i : 0 <= n -> Z.testbit (2 ^ n) i = (i =? n).
Proof.
  intros. destruct (Z.eqb_spec i n) as [->|].
  - apply Z.pow2_bits_true. done.
  - apply Z.pow2_bits_false. lia.
Qed.

Lemma shiftl1_testbit n i : 0 <= n -> Z.testbit (Z.shiftl 1 n) i = (i =? n).
Proof. intros. rewrite Z.shiftl_1_l. by apply pow2_testbit. Qed.

Lemma land_range w a b : 0 <= w -> 0 <= a < 2 ^ w -> 0 <= Z.land a b < 2 ^ w.
Proof.
  intros Hw Ha. apply bits_range; [done|]. intros i Hi.
  rewrite Z.land_spec, (testbit_high a w) by lia. done.
Qed.

Lemma lor_range w a b :
  0 <= w -> 0 <= a < 2 ^ w -> 0 <= b < 2 ^ w -> 0 <= Z.lor a b < 2 ^ w.
Proof.
  intros Hw Ha Hb. apply bits_range; [done|]. intros i Hi.
  rewrite Z.lor_spec, (testbit_high a w), (testbit_high b w) by lia. done.
Qed.

Lemma lxor_range w a b :
  0 <= w -> 0 <= a < 2 ^ w -> 0 <= b < 2 ^ w -> 0 <= Z.lxor a b < 2 ^ w.
Proof.
  intros Hw Ha Hb. apply bits_range; [done|]. intros i Hi.
  rewrite Z.lxor_spec, (testbit_high a w), (testbit_high b w) by lia. done.
Qed.

Create Rewrite HintDb zbits.
#[export] Hint Rewrite Z.land_spec Z.lor_spec Z.lxor_spec Z.ldiff_spec : zbits.
#[export] Hint Rewrite Z.lnot_spec Z.shiftr_spec Z.shiftl_spec uwrap_testbit
  ones_testbit pow2_testbit shiftl1_testbit using lia : zbits.
#[export] Hint Rewrite one_testbit Z.testbit_0_l : zbits.

(** Prove an equality of integers bit by bit. *)
Ltac zbits :=
  apply Z.bits_inj'; intros ?i ?Hi; autorewrite with zbits.

(** Concatenation: a high part above a [w]-bit low part. *)
Lemma concat_testbit h l w i :
  0 <= w -> 0 <= l < 2 ^ w -> 0 <= i ->
  Z.testbit (h * 2 ^ w + l) i = if i <? w then Z.testbit l i else Z.testbit h (i - w).
Proof.
  intros Hw Hl Hi. rewrite <- Z.shiftl_mul_pow2 by lia.
  rewrite Z.add_nocarry_lxor.
  - rewrite Z.lxor_spec, Z.shiftl_spec by lia. zcases.
    + rewrite Z.testbit_neg_r by lia. apply xorb_false_l.
    + rewrite (testbit_high l w) by lia. apply xorb_false_r.
  - zbits. destruct (Z.ltb_spec i0 w).
    + rewrite Z.testbit_neg_r by lia. done.
    + rewrite (testbit_high l w) by lia. apply andb_false_r.
Qed.

Lemma lor_concat h l w :
  0 <= w -> 0 <= l < 2 ^ w -> Z.lor (Z.shiftl h w) l = h * 2 ^ w + l.
Proof.
  intros Hw Hl. zbits. rewrite concat_testbit by done.
  zcases; [by rewrite Z.testbit_neg_r by lia|].
  rewrite (testbit_high l w) by lia. apply orb_false_r.
Qed.

(** ** Arrays *)

Lemma aget_total {A} (l : list A) i :
  0 <= i < Z.of_nat (length l) -> exists x, aget l i = Ok x.
Proof.
  intros H. destruct (lookup_lt_is_Some_2 l (Z.to_nat i)) as [x Hx]; [lia|].
  exists x. apply aget_Ok. split; [lia|done].
Qed.

Lemma aset_total {A} (l : list A) i x :
  0 <= i < Z.of_nat (length l) -> aset l i x = Ok (<[Z.to_nat i := x]> l).
Proof. intros. apply aset_Ok. done. Qed.

Lemma aget_insert_eq {A} (l : list A) i x :
  0 <= i < Z.of_nat (length l) -> aget (<[Z.to_nat i := x]> l) i = Ok x.
Proof. intros. apply aget_Ok. split; [lia|]. apply list_lookup_insert_eq. lia. Qed.

Lemma aget_insert_ne {A} (l : list A) i j x :
  0 <= i -> i <> j -> aget (<[Z.to_nat i := x]> l) j = aget l j.
Proof.
  intros. unfold aget. destruct (Z.ltb_spec j 0); [done|].
  rewrite list_lookup_insert_ne by lia. done.
Qed.

(** An array of [n] elements that satisfy [P]. *)
Definition arr {A} (n : Z) (P : A -> Prop) (l : list A) : Prop :=
  Z.of_nat (length l) = n /\ Forall P l.

Lemma arr_get {A} n (P : A -> Prop) l i : arr n P l -> 0 <= i < n ->
  exists x, aget l i = Ok x /\ P x.
Proof.
  intros [<- H] Hi. destruct (aget_total l i Hi) as [x E]. exists x. split; [done|].
  apply aget_Ok in E as [_ E]. by apply (Forall_lookup_1 _ _ _ _ H E).
Qed.

Lemma arr_set {A} n (P : A -> Prop) l i x : arr n P l -> 0 <= i < n -> P x ->
  exists l', aset l i x = Ok l' /\ arr n P l' /\
    forall j, aget l' j = if j =? i then Ok x else aget l j.
Proof.
  intros [<- H] Hi Hx. exists (<[Z.to_nat i := x]> l). split; [by apply aset_total|]. split.
  - split; [by rewrite length_insert|by apply Forall_insert].
  - intros j. destruct (Z.eqb_spec j i) as [->|]; [by apply aget_insert_eq|apply aget_insert_ne; lia].
Qed.

Lemma arr_replicate {A} (P : A -> Prop) n x : 0 <= n -> P x -> arr n P (replicate (Z.to_nat n) x).
Proof. intros. split; [rewrite length_replicate; lia|by apply Forall_replicate]. Qed.

(** [for (i = 0; i < n; i++) s = body(i, s)]. *)
Fixpoint for_loop {S} (n : nat) (i : Z) (body : Z -> S -> res S) (s : S) : res S :=
  match n with
  | O => Ok s
  | S n => let* s := body i s in for_loop n (i + 1) body s
  end.

(** Invariant rule for [for_loop]: the loop ends without a fault and the
    invariant holds at the bound. *)
Lemma for_loop_inv {S} (I : Z -> S -> Prop) (body : Z -> S -> res S) n : forall i s,
  I i s ->
  (forall k s, i <= k < i + Z.of_nat n -> I k s ->
     exists s', body k s = Ok s' /\ I (k + 1) s') ->
  exists s', for_loop n i body s = Ok s' /\ I (i + Z.of_nat n) s'.
Proof.
  induction n as [|n IH]; intros i s Hi Hb.
  - exists s. rewrite Z.add_0_r. done.
  - destruct (Hb i s) as (s1 & E1 & H1); [lia|done|].
    destruct (IH (i + 1) s1 H1) as (s2 & E2 & H2).
    + intros k s' Hk. apply Hb. lia.
    + exists s2. cbn. rewrite E1. cbn. split; [done|].
      replace (i + Z.of_nat (Datatypes.S n)) with (i + 1 + Z.of_nat n) by lia. done.
Qed.

(** [for (k = ...; k < lim; ++k) if (hit(k)) return ...]: whether some
    iteration returned early. *)
Fixpoint scan (n : nat) (k : Z) (hit : Z -> res bool) : res bool :=
  match n with
  | O => Ok false
  | S n => let* h := hit k in if h then Ok true else scan n (k + 1) hit
  end.

Lemma scan_spec (P : Z -> bool) hit n : forall k,
  (forall j, k <= j < k + Z.of_nat n -> hit j = Ok (P j)) ->
  exists b, scan n k hit = Ok b /\
    (b = true <-> exists j, k <= j < k + Z.of_nat n /\ P j = true).
Proof.
  induction n as [|n IH]; intros k H; cbn [scan].
  - exists false. split; [done|]. split; [done|]. intros (j & Hj & _). lia.
  - rewrite H by lia. cbn [res_bind]. destruct (P k) eqn:Pk.
    + exists true. split; [done|]. split; [|done]. intros _. exists k. split; [lia|done].
    + destruct (IH (k + 1)) as (b & -> & Hb); [intros; apply H; lia|].
      exists b. split; [done|]. rewrite Hb. split; intros (j & Hj & Pj); exists j.
      * split; [lia|done].
      * destruct (Z.eq_dec j k); [congruence|]. split; [lia|done].
Qed.

(** ** Results under a function *)
Definition res_map {A B} (f : A -> B) (r : res A) : res B :=
  match r with Ok a => Ok (f a) | Err e => Err e end.

Lemma res_map_bind {A B C} (f : B -> C) (c : res A) (k : A -> res B) :
  res_map f (res_bind c k) = res_bind c (fun a => res_map f (k a)).
Proof. by destruct c. Qed.

Lemma aget_fmap {A B} (f : A -> B) (l : list A) i : aget (f <$> l) i = res_map f (aget l i).
Proof.
  unfold aget. destruct (i <? 0); [done|]. rewrite list_lookup_fmap.
  by destruct (l !! Z.to_nat i).
Qed.

(** ** Buffers of bytes *)

Definition byte_at (l : list Z) (j : Z) : Z := default 0 (l !! Z.to_nat j).

Lemma byte_at_get l j : 0 <= j < Z.of_nat (length l) -> aget l j = Ok (byte_at l j).
Proof.
  intros Hj. destruct (aget_total l j Hj) as [x E]. rewrite E. apply aget_Ok in E as [_ E].
  unfold byte_at. by rewrite E.
Qed.

Lemma byte_at_insert l i x j : 0 <= i < Z.of_nat (length l) -> 0 <= j ->
  byte_at (<[Z.to_nat i := x]> l) j = if j =? i then x else byte_at l j.
Proof.
  intros Hi Hj. unfold byte_at. destruct (Z.eqb_spec j i) as [->|].
  - by rewrite list_lookup_insert_eq by lia.
  - by rewrite list_lookup_insert_ne by lia.
Qed.

Lemma byte_at_ext l l' : length l = length l' ->
  (forall j, 0 <= j < Z.of_nat (length l) -> byte_at l j = byte_at l' j) -> l = l'.
Proof.
  intros L H. apply list_eq. intros k. destruct (decide (k < length l)%nat) as [Hk|Hk].
  - destruct (lookup_lt_is_Some_2 l k Hk) as [x Ex]. destruct (lookup_lt_is_Some_2 l' k) as [y Ey]; [lia|].
    pose proof (H (Z.of_nat k) ltac:(lia)) as E. unfold byte_at in E. rewrite Nat2Z.id, Ex, Ey in E. cbn in E. congruence.
  - by rewrite !lookup_ge_None_2 by lia.
Qed.

(** [memcpy(&dst[d], &src[s], n)] *)
Definition memcpy (dst : list Z) (d : Z) (src : list Z) (s n : Z) : res (list Z) :=
  for_loop (Z.to_nat n) 0 (fun k dst => let* b := aget src (s + k) in aset dst (d + k) b) dst.

Lemma memcpy_spec dst d src s n : 0 <= n -> 0 <= d -> d + n <= Z.of_nat (length dst) ->
  0 <= s -> s + n <= Z.of_nat (length src) ->
  exists dst', memcpy dst d src s n = Ok dst' /\ length dst' = length dst /\
    forall j, 0 <= j -> byte_at dst' j = if (d <=? j) && (j <? d + n) then byte_at src (s + (j - d)) else byte_at dst j.
Proof.
  intros Hn Hd Hl Hs Hsl. unfold memcpy.
  destruct (for_loop_inv (fun k dst' => length dst' = length dst /\
    forall j, 0 <= j -> byte_at dst' j = if (d <=? j) && (j <? d + k) then byte_at src (s + (j - d)) else byte_at dst j)
    (fun k dst => let* b := aget src (s + k) in aset dst (d + k) b) (Z.to_nat n) 0 dst) as (dst' & E & L & H).
  - split; [done|]. intros j Hj. destruct ((d <=? j) && (j <? d + 0)) eqn:C; [lia|done].
  - intros k t Hk [L H]. rewrite byte_at_get by lia. cbn [res_bind]. rewrite aset_total by lia.
    eexists. split; [done|]. split; [by rewrite length_insert|]. intros j Hj. rewrite byte_at_insert, H by lia.
    destruct (Z.eqb_spec j (d + k)) as [->|].
    + destruct ((d <=? d + k) && (d + k <? d + (k + 1))) eqn:C; [|lia]. f_equal. lia.
    + destruct ((d <=? j) && (j <? d + k)) eqn:C1, ((d <=? j) && (j <? d + (k + 1))) eqn:C2; done || lia.
  - exists dst'. split; [done|]. split; [done|]. intros j Hj. rewrite H by done.
    by replace (d + (0 + Z.of_nat (Z.to_nat n))) with (d + n) by lia.
Qed.
