(* ===== verification/Int128.v ===== *)
(** * 128-bit integers

    [include/qemu/int128.h] implements signed 128-bit arithmetic on a pair of
    64-bit halves.  The struct operations are translated literally (with the carries
    and borrows the code computes) and shown to be two's complement 128-bit
    arithmetic.  [Int128Ops] is the interface the memory core is written
    against; the struct implements it, and so do the mathematical integers,
    which the proofs about the memory core use. *)

From stdpp Require Import base list numbers.
From S2P Require Import Prelude.

Module Int128.

(** [uint64_t lo; int64_t hi;] *)
Record Int128 : Type := mk { lo : Z; hi : Z }.

#[export] Instance Int128_eq_dec : EqDecision Int128.
Proof. solve_decision. Defined.

Definition int128_make64 (a : Z) : Int128 := mk (u64 a) 0.

Definition int128_get64 (a : Int128) : res Z :=
  let* _ := c_assert (hi a =? 0) in Ok (lo a).

Definition int128_zero : Int128 := int128_make64 0.
Definition int128_one : Int128 := int128_make64 1.
Definition int128_2_64 : Int128 := mk 0 1.

Definition int128_and (a b : Int128) : Int128 :=
  mk (Z.land (lo a) (lo b)) (Z.land (hi a) (hi b)).

(** [a.hi << (64 - n)] is on a signed operand and keeps the low 64 bits when
    it is or-ed into the unsigned half. *)
Definition int128_rshift (a : Int128) (n : Z) : Int128 :=
  if n =? 0 then a else
  let h := Z.shiftr (hi a) (Z.land n 63) in
  if 64 <=? n then mk (u64 h) (Z.shiftr h 63)
  else mk (Z.lor (Z.shiftr (lo a) n) (u64 (Z.shiftl (hi a) (64 - n)))) h.

Definition int128_add (a b : Int128) : Int128 :=
  let l := u64 (lo a + lo b) in
  mk l (s64 (u64 (u64 (hi a) + hi b + b2z (l <? lo a)))).

Definition int128_neg (a : Int128) : Int128 :=
  let l := u64 (- lo a) in
  mk l (s64 (u64 (Z.lnot (u64 (hi a)) + b2z (l =? 0)))).

Definition int128_sub (a b : Int128) : Int128 :=
  mk (u64 (lo a - lo b)) (s64 (hi a - hi b - b2z (lo a <? lo b))).

Definition int128_nonneg (a : Int128) : bool := 0 <=? hi a.

Definition int128_eq (a b : Int128) : bool := (lo a =? lo b) && (hi a =? hi b).
Definition int128_ne (a b : Int128) : bool := negb (int128_eq a b).

Definition int128_ge (a b : Int128) : bool :=
  (hi b <? hi a) || ((hi a =? hi b) && (lo b <=? lo a)).
Definition int128_lt (a b : Int128) : bool := negb (int128_ge a b).
Definition int128_le (a b : Int128) : bool := int128_ge b a.
Definition int128_gt (a b : Int128) : bool := negb (int128_le a b).

Definition int128_nz (a : Int128) : bool := negb (lo a =? 0) || negb (hi a =? 0).

Definition int128_min (a b : Int128) : Int128 := if int128_le a b then a else b.
Definition int128_max (a b : Int128) : Int128 := if int128_ge a b then a else b.

(** [int128_addto(&a, b)] and [int128_subfrom(&a, b)] return the new value of
    the variable. *)
Definition int128_addto (a b : Int128) : Int128 := int128_add a b.
Definition int128_subfrom (a b : Int128) : Int128 := int128_sub a b.

(** ** The value of a pair of halves *)

Definition wf (a : Int128) : Prop := 0 <= lo a < 2 ^ 64 /\ - 2 ^ 63 <= hi a < 2 ^ 63.
Definition val (a : Int128) : Z := hi a * 2 ^ 64 + lo a.

(** The representation of [z] (exact when [z] fits in 128 bits). *)
Definition of_Z (z : Z) : Int128 := mk (z mod 2 ^ 64) (s64 (z / 2 ^ 64)).

Abbreviation in128 z := (- 2 ^ 127 <= z < 2 ^ 127).

(** A well-formed pair congruent to [z] modulo [2^128] is [swrap 128 z]. *)
Lemma val_unique a z k : wf a -> val a = z + k * 2 ^ 128 -> val a = swrap 128 z.
Proof.
  intros [Hl Hh] E. rewrite <- (swrap_small 128 (val a)).
  - apply swrap_eq_mod; [|lia]. rewrite E.
    replace (z + k * 2 ^ 128 - z) with (k * 2 ^ 128) by lia. apply Z.mod_mul. lia.
  - lia.
  - unfold val. lia.
Qed.

Lemma val_range a : wf a -> in128 (val a).
Proof. unfold wf, val. lia. Qed.

Lemma val_inj a b : wf a -> wf b -> val a = val b -> a = b.
Proof.
  destruct a as [la ha], b as [lb hb]. unfold wf, val. cbn. intros ?? E.
  assert (ha = hb) by lia. subst. f_equal. lia.
Qed.

Lemma of_Z_wf z : wf (of_Z z).
Proof.
  split; cbn.
  - apply Z.mod_pos_bound. lia.
  - apply (swrap_range 64). lia.
Qed.

Lemma val_of_Z z : in128 z -> val (of_Z z) = z.
Proof.
  intros. unfold val, of_Z. cbn [lo hi].
  pose proof (Z.div_mod z (2 ^ 64) ltac:(lia)).
  pose proof (Z.mod_pos_bound z (2 ^ 64) ltac:(lia)).
  rewrite (swrap_small 64) by lia. lia.
Qed.

Lemma of_Z_val a : wf a -> of_Z (val a) = a.
Proof.
  intros H. apply val_inj; [apply of_Z_wf|done|]. apply val_of_Z, val_range, H.
Qed.

(** ** The struct operations are 128-bit arithmetic *)

Lemma int128_add_wf a b : wf (int128_add a b).
Proof. split; [apply (uwrap_range 64)|apply (swrap_range 64)]; lia. Qed.

Lemma int128_sub_wf a b : wf (int128_sub a b).
Proof. split; [apply (uwrap_range 64)|apply (swrap_range 64)]; lia. Qed.

Lemma int128_neg_wf a : wf (int128_neg a).
Proof. split; [apply (uwrap_range 64)|apply (swrap_range 64)]; lia. Qed.

(** The carry test [lo < a.lo] detects the overflow of the low half. *)
Lemma add_carry a b :
  0 <= a < 2 ^ 64 -> 0 <= b < 2 ^ 64 ->
  a + b = u64 (a + b) + b2z (u64 (a + b) <? a) * 2 ^ 64.
Proof. intros. unfold uwrap, b2z. zcases; dlia. Qed.

Lemma int128_add_val a b :
  wf a -> wf b -> val (int128_add a b) = swrap 128 (val a + val b).
Proof.
  intros Ha Hb. unfold int128_add.
  pose proof (add_carry (lo a) (lo b) (proj1 Ha) (proj1 Hb)) as C.
  set (l := u64 (lo a + lo b)) in *. set (c := b2z (l <? lo a)) in *.
  destruct (uwrap_sub_multiple 64 (hi a)) as [k1 E1]; [lia|].
  destruct (uwrap_sub_multiple 64 (u64 (hi a) + hi b + c)) as [k2 E2]; [lia|].
  destruct (swrap_sub_multiple 64 (u64 (u64 (hi a) + hi b + c))) as [k3 E3]; [lia|].
  apply val_unique with (k := k1 + k2 + k3).
  - split; [apply (uwrap_range 64)|apply (swrap_range 64)]; lia.
  - unfold val. cbn [lo hi]. rewrite E3, E2, E1. lia.
Qed.

Lemma int128_sub_val a b :
  wf a -> wf b -> val (int128_sub a b) = swrap 128 (val a - val b).
Proof.
  intros Ha Hb.
  assert (lo a - lo b = u64 (lo a - lo b) - b2z (lo a <? lo b) * 2 ^ 64) as C
    by (destruct Ha, Hb; unfold uwrap, b2z; zcases; dlia).
  destruct (swrap_sub_multiple 64 (hi a - hi b - b2z (lo a <? lo b))) as [k E]; [lia|].
  apply val_unique with (k := k); [apply int128_sub_wf|].
  unfold int128_sub, val. cbn [lo hi]. rewrite E. lia.
Qed.

Lemma int128_neg_val a : wf a -> val (int128_neg a) = swrap 128 (- val a).
Proof.
  intros Ha. unfold int128_neg.
  assert (- lo a = u64 (- lo a) + (b2z (u64 (- lo a) =? 0) - 1) * 2 ^ 64) as C
    by (destruct Ha; unfold uwrap, b2z; zcases; dlia).
  set (l := u64 (- lo a)) in *. set (c := b2z (l =? 0)) in *.
  destruct (uwrap_sub_multiple 64 (hi a)) as [k1 E1]; [lia|].
  destruct (uwrap_sub_multiple 64 (Z.lnot (u64 (hi a)) + c)) as [k2 E2]; [lia|].
  destruct (swrap_sub_multiple 64 (u64 (Z.lnot (u64 (hi a)) + c))) as [k3 E3]; [lia|].
  apply val_unique with (k := - k1 + k2 + k3).
  - split; [apply (uwrap_range 64)|apply (swrap_range 64)]; lia.
  - unfold val. cbn [lo hi]. rewrite E3, E2.
    pose proof (Z.add_lnot_diag (u64 (hi a))). lia.
Qed.

Lemma int128_ge_val a b : wf a -> wf b -> int128_ge a b = (val b <=? val a).
Proof. unfold wf, int128_ge, val. intros. zcases; lia. Qed.

Lemma int128_eq_val a b : wf a -> wf b -> int128_eq a b = (val a =? val b).
Proof. unfold wf, int128_eq, val. intros. zcases; lia. Qed.

Lemma int128_nz_val a : wf a -> int128_nz a = negb (val a =? 0).
Proof. unfold wf, int128_nz, val. intros. zcases; lia. Qed.

(** Shifting right keeps the halves in range. *)
Lemma int128_rshift_wf a n : wf a -> 0 <= n < 128 -> wf (int128_rshift a n).
Proof.
  intros [Hl Hh] Hn. unfold int128_rshift. zcases; [done| |].
  - split; cbn [lo hi]; [apply (uwrap_range 64); lia|].
    assert (0 <= Z.land n 63) by (apply Z.land_nonneg; lia).
    rewrite Z.shiftr_shiftr, Z.shiftr_div_pow2 by lia.
    pose proof (pow2_pos (Z.land n 63 + 63) ltac:(lia)).
    split; [apply Z.div_le_lower_bound|apply Z.div_lt_upper_bound]; nia.
  - change 63 with (Z.ones 6). rewrite Z.land_ones, Z.mod_small by lia.
    split; cbn [lo hi].
    + apply (lor_range 64); [lia| |apply (uwrap_range 64); lia].
      rewrite Z.shiftr_div_pow2 by lia. pose proof (pow2_pos n ltac:(lia)).
      split; [apply Z.div_pos|apply Z.div_lt_upper_bound]; nia.
    + rewrite Z.shiftr_div_pow2 by lia. pose proof (pow2_pos n ltac:(lia)).
      split; [apply Z.div_le_lower_bound|apply Z.div_lt_upper_bound]; nia.
Qed.

(** The bits of the value are the bits of the two halves. *)
Lemma val_testbit a i :
  wf a -> 0 <= i ->
  Z.testbit (val a) i = if i <? 64 then Z.testbit (lo a) i else Z.testbit (hi a) (i - 64).
Proof.
  intros [Hl _] Hi. apply concat_testbit; [lia|done|done].
Qed.

(** Bit [i >= 63] of a 64-bit signed integer is its sign bit. *)
Lemma sign_testbit h i : - 2 ^ 63 <= h < 2 ^ 63 -> 63 <= i -> Z.testbit h i = (h <? 0).
Proof.
  intros Hh Hi. destruct (Z.ltb_spec h 0) as [Hn|Hn].
  - rewrite <- (Z.lnot_involutive h), Z.lnot_spec by lia.
    rewrite (testbit_high (Z.lnot h) 63); [done| |lia]. unfold Z.lnot. lia.
  - apply (testbit_high h 63); lia.
Qed.

(** The shift of the pair is the arithmetic shift of the value, across the
    boundary at 64. *)
Lemma int128_rshift_val a n :
  wf a -> 0 <= n < 128 -> val (int128_rshift a n) = Z.shiftr (val a) n.
Proof.
  intros Hw Hn. apply Z.bits_inj'. intros i Hi.
  rewrite val_testbit by (try apply int128_rshift_wf; done).
  rewrite Z.shiftr_spec, val_testbit by (done || lia).
  destruct Hw as [Hl Hh]. unfold int128_rshift.
  destruct (Z.eqb_spec n 0) as [->|Hn0]; [rewrite Z.add_0_r; done|].
  assert (Z.land n 63 = n mod 2 ^ 6) as -> by (apply (Z.land_ones n 6); lia).
  destruct (Z.leb_spec 64 n); cbn [lo hi].
  - replace (n mod 2 ^ 6) with (n - 64) by dlia.
    rewrite (proj2 (Z.ltb_ge (i + n) 64)) by lia.
    autorewrite with zbits. zcases; [f_equal; lia|].
    autorewrite with zbits. rewrite !(sign_testbit (hi a)) by lia. done.
  - rewrite (Z.mod_small n) by lia.
    destruct (Z.ltb_spec i 64); autorewrite with zbits.
    + rewrite (proj2 (Z.ltb_lt i 64)) by lia. cbn [andb].
      destruct (Z.ltb_spec (i + n) 64).
      * rewrite (Z.testbit_neg_r (hi a)) by lia. apply orb_false_r.
      * rewrite (testbit_high (lo a) 64) by lia. cbn [orb]. f_equal. lia.
    + rewrite (proj2 (Z.ltb_ge (i + n) 64)) by lia. f_equal. lia.
Qed.

Lemma int128_and_val a b : wf a -> wf b -> val (int128_and a b) = Z.land (val a) (val b).
Proof.
  intros Ha Hb. apply Z.bits_inj'. intros i Hi. rewrite Z.land_spec, (val_testbit a), (val_testbit b) by done.
  unfold val, int128_and. cbn [lo hi]. rewrite concat_testbit; [|lia|apply land_range; [lia|apply Ha]|done].
  destruct (i <? 64); apply Z.land_spec.
Qed.

(** ** Claims *)

(** Adding, subtracting and negating the pairs of halves is arithmetic
    modulo [2^128] in two's complement, for all well-formed operands: the
    carries and borrows computed by comparing the low halves are right.
    Comparison, conjunction and every right shift from 0 to 127 are those of
    the 128-bit value. *)
Theorem int128_arith_correct a b :
  wf a -> wf b ->
  val (int128_add a b) = swrap 128 (val a + val b) /\
  val (int128_sub a b) = swrap 128 (val a - val b) /\
  val (int128_neg a) = swrap 128 (- val a) /\
  int128_ge a b = (val b <=? val a) /\ int128_lt a b = (val a <? val b) /\
  int128_eq a b = (val a =? val b) /\ val (int128_and a b) = Z.land (val a) (val b) /\
  (forall n, 0 <= n < 128 -> val (int128_rshift a n) = Z.shiftr (val a) n).
Proof.
  intros Ha Hb. split_and!;
    [by apply int128_add_val|by apply int128_sub_val|by apply int128_neg_val
    |by apply int128_ge_val| |by apply int128_eq_val|by apply int128_and_val
    |intros; by apply int128_rshift_val].
  unfold int128_lt. rewrite int128_ge_val by done. lia.
Qed.

Lemma int128_arith_correct_witness :
  wf (mk (2 ^ 64 - 1) 5) /\
  val (int128_add (mk (2 ^ 64 - 1) 5) (mk 1 0)) = 6 * 2 ^ 64.
Proof.
  split; [unfold wf; cbn; lia|].
  rewrite (proj1 (int128_arith_correct (mk (2 ^ 64 - 1) 5) (mk 1 0)
    ltac:(unfold wf; cbn; lia) ltac:(unfold wf; cbn; lia))).
  vm_compute. reflexivity.
Defined.

End Int128.

(** ** The interface the memory core uses *)

(** The operations of [int128.h] that [memory.c] calls.  [int128_get64] is
    the only one that can fail (its [assert]). *)
Class Int128Ops (T : Type) : Type := {
  i_make64 : Z -> T;
  i_get64 : T -> res Z;
  i_2_64 : T;
  i_add : T -> T -> T;
  i_sub : T -> T -> T;
  i_ge : T -> T -> bool;
  i_eq : T -> T -> bool;
  i_nz : T -> bool;
}.

Section Derived.
Context {T : Type} `{Int128Ops T}.
Definition i_zero : T := i_make64 0.
Definition i_lt (a b : T) : bool := negb (i_ge a b).
Definition i_le (a b : T) : bool := i_ge b a.
Definition i_gt (a b : T) : bool := negb (i_le a b).
Definition i_min (a b : T) : T := if i_le a b then a else b.
Definition i_max (a b : T) : T := if i_ge a b then a else b.
End Derived.

(** The struct implementation. *)
#[export] Instance Int128_struct : Int128Ops Int128.Int128 := {
  i_make64 := Int128.int128_make64;
  i_get64 := Int128.int128_get64;
  i_2_64 := Int128.int128_2_64;
  i_add := Int128.int128_add;
  i_sub := Int128.int128_sub;
  i_ge := Int128.int128_ge;
  i_eq := Int128.int128_eq;
  i_nz := Int128.int128_nz;
}.

(** Mathematical integers: no wrap-around. *)
#[export] Instance Z_ideal : Int128Ops Z := {
  i_make64 := u64;
  i_get64 := fun a => let* _ := c_assert ((0 <=? a) && (a <? 2 ^ 64)) in Ok a;
  i_2_64 := 2 ^ 64;
  i_add := Z.add;
  i_sub := Z.sub;
  i_ge := fun a b => b <=? a;
  i_eq := Z.eqb;
  i_nz := fun a => negb (a =? 0);
}.

(** The struct agrees with the mathematical integers as long as every value
    fits in 128 bits. *)
Section Agreement.
Import Int128.

Lemma agree_make64 a : i_make64 a = of_Z (i_make64 a).
Proof.
  cbn. unfold int128_make64. apply val_inj.
  - split; cbn; [apply (uwrap_range 64)|]; lia.
  - apply of_Z_wf.
  - rewrite val_of_Z; [done|]. pose proof (uwrap_range 64 a). lia.
Qed.

Lemma agree_get64 a : in128 a -> i_get64 (of_Z a) = i_get64 a.
Proof.
  intros. cbn. unfold int128_get64, of_Z. cbn [lo hi].
  rewrite (swrap_small 64) by (try lia; dlia).
  destruct (Z.eqb_spec (a / 2 ^ 64) 0) as [E|E].
  - rewrite (proj2 (Z.leb_le 0 a)), (proj2 (Z.ltb_lt a (2 ^ 64))) by dlia.
    cbn. rewrite Z.mod_small by dlia. done.
  - destruct ((0 <=? a) && (a <? 2 ^ 64)) eqn:E2; [|done].
    destruct E. apply Z.div_small. lia.
Qed.

Lemma agree_2_64 : i_2_64 = of_Z i_2_64.
Proof. reflexivity. Qed.

Lemma agree_add a b :
  in128 a -> in128 b -> in128 (a + b) -> i_add (of_Z a) (of_Z b) = of_Z (i_add a b).
Proof.
  intros. cbn. apply val_inj; [apply int128_add_wf|apply of_Z_wf|].
  rewrite int128_add_val, !val_of_Z by (apply of_Z_wf || lia).
  apply swrap_small; lia.
Qed.

Lemma agree_sub a b :
  in128 a -> in128 b -> in128 (a - b) -> i_sub (of_Z a) (of_Z b) = of_Z (i_sub a b).
Proof.
  intros. cbn. apply val_inj; [apply int128_sub_wf|apply of_Z_wf|].
  rewrite int128_sub_val, !val_of_Z by (apply of_Z_wf || lia).
  apply swrap_small; lia.
Qed.

Lemma agree_ge a b : in128 a -> in128 b -> i_ge (of_Z a) (of_Z b) = i_ge a b.
Proof. intros. cbn. rewrite int128_ge_val, !val_of_Z by (apply of_Z_wf || lia). done. Qed.

Lemma agree_eq a b : in128 a -> in128 b -> i_eq (of_Z a) (of_Z b) = i_eq a b.
Proof. intros. cbn. rewrite int128_eq_val, !val_of_Z by (apply of_Z_wf || lia). done. Qed.

Lemma agree_nz a : in128 a -> i_nz (of_Z a) = i_nz a.
Proof. intros. cbn. rewrite int128_nz_val, !val_of_Z by (apply of_Z_wf || lia). done. Qed.

Lemma agree_lt a b : in128 a -> in128 b -> i_lt (of_Z a) (of_Z b) = i_lt a b.
Proof. intros. unfold i_lt. by rewrite agree_ge. Qed.

Lemma agree_min a b : in128 a -> in128 b -> i_min (of_Z a) (of_Z b) = of_Z (i_min a b).
Proof. intros. unfold i_min, i_le. rewrite agree_ge by done. by destruct (i_ge b a). Qed.

Lemma agree_max a b : in128 a -> in128 b -> i_max (of_Z a) (of_Z b) = of_Z (i_max a b).
Proof. intros. unfold i_max. rewrite agree_ge by done. by destruct (i_ge a b). Qed.
End Agreement.

(** On the mathematical integers the derived operations are the usual ones. *)
Lemma Z_lt_spec (a b : Z) : i_lt a b = (a <? b).
Proof. unfold i_lt. cbn. lia. Qed.
Lemma Z_min_spec (a b : Z) : i_min a b = Z.min a b.
Proof. unfold i_min, i_le. cbn. destruct (Z.leb_spec a b); lia. Qed.
Lemma Z_max_spec (a b : Z) : i_max a b = Z.max a b.
Proof. unfold i_max. cbn. destruct (Z.leb_spec b a); lia. Qed.
