(* ===== verification/FlatView.v ===== *)
(** * The memory core: regions, address ranges and flat views ([memory.c])

    A tree of memory regions is rendered into a flat view, a sorted list of
    disjoint absolute ranges; the view is then simplified by merging adjacent
    ranges, and the difference between two views is reported to the memory
    listeners.  Everything is written against [Int128Ops]; at the struct
    instance the definitions are the code of [memory.c]. *)

From stdpp Require Import base list numbers sorting.
#[local] Set Warnings "-register-all".
From S2P Require Import Prelude Int128.

(** ** Address ranges *)

Record AddrRange (T : Type) : Type := addrrange_make { start : T; size : T }.
Arguments addrrange_make {T} start size.
Arguments start {T} a.
Arguments size {T} a.

Section AddrRangeOps.
Context {T : Type} `{Int128Ops T}.

Definition addrrange_equal (r1 r2 : AddrRange T) : bool :=
  i_eq (start r1) (start r2) && i_eq (size r1) (size r2).

Definition addrrange_end (r : AddrRange T) : T := i_add (start r) (size r).

Definition addrrange_shift (range : AddrRange T) (delta : T) : AddrRange T :=
  addrrange_make (i_add (start range) delta) (size range).

Definition addrrange_contains (range : AddrRange T) (addr : T) : bool :=
  i_ge addr (start range) && i_lt addr (addrrange_end range).

Definition addrrange_intersects (r1 r2 : AddrRange T) : bool :=
  addrrange_contains r1 (start r2) || addrrange_contains r2 (start r1).

Definition addrrange_intersection (r1 r2 : AddrRange T) : AddrRange T :=
  let start := i_max (start r1) (start r2) in
  let end_ := i_min (addrrange_end r1) (addrrange_end r2) in
  addrrange_make start (i_sub end_ start).
End AddrRangeOps.

(** ** Memory regions

    The fields of [struct MemoryRegion] that the renderer reads.  [mr_id]
    stands for the identity of the region (its address); the alias and the
    subregion queue are the two ways a region refers to others. *)
Record MRInfo (T : Type) : Type := {
  mr_id : Z;
  mr_addr : Z;
  mr_size : T;
  mr_enabled : bool;
  mr_readonly : bool;
  mr_terminates : bool;
  mr_romd_mode : bool;
  mr_dirty_log_mask : Z;
  mr_alias_offset : Z;
  mr_priority : Z;
  mr_may_overlap : bool;
}.
Arguments mr_id {T} m.
Arguments mr_addr {T} m.
Arguments mr_size {T} m.
Arguments mr_enabled {T} m.
Arguments mr_readonly {T} m.
Arguments mr_terminates {T} m.
Arguments mr_romd_mode {T} m.
Arguments mr_dirty_log_mask {T} m.
Arguments mr_alias_offset {T} m.
Arguments mr_priority {T} m.
Arguments mr_may_overlap {T} m.

Inductive MemoryRegion (T : Type) : Type :=
| MR (info : MRInfo T) (alias : option (MemoryRegion T))
     (subregions : list (MemoryRegion T)).
Arguments MR {T} info alias subregions.

Definition mr_info {T} (mr : MemoryRegion T) : MRInfo T :=
  let 'MR i _ _ := mr in i.
Definition mr_subregions {T} (mr : MemoryRegion T) : list (MemoryRegion T) :=
  let 'MR _ _ s := mr in s.

(** ** Flat views *)

Record FlatRange (T : Type) : Type := mkFR {
  fr_mr : Z;
  fr_offset_in_region : Z;
  fr_addr : AddrRange T;
  fr_dirty_log_mask : Z;
  fr_romd_mode : bool;
  fr_readonly : bool;
}.
Arguments mkFR {T} _ _ _ _ _ _.
Arguments fr_mr {T} f.
Arguments fr_offset_in_region {T} f.
Arguments fr_addr {T} f.
Arguments fr_dirty_log_mask {T} f.
Arguments fr_romd_mode {T} f.
Arguments fr_readonly {T} f.

(** [nr] is the length of [fv_ranges]; [fv_nr_allocated] is the capacity of
    the array behind it. *)
Record FlatView (T : Type) : Type := mkFV {
  fv_ref : Z;
  fv_ranges : list (FlatRange T);
  fv_nr_allocated : Z;
}.
Arguments mkFV {T} _ _ _.
Arguments fv_ref {T} f.
Arguments fv_ranges {T} f.
Arguments fv_nr_allocated {T} f.

Definition fv_nr {T} (v : FlatView T) : Z := Z.of_nat (length (fv_ranges v)).

Section FlatViewOps.
Context {T : Type} `{Int128Ops T}.

Definition flatrange_equal (a b : FlatRange T) : bool :=
  (fr_mr a =? fr_mr b)
  && addrrange_equal (fr_addr a) (fr_addr b)
  && (fr_offset_in_region a =? fr_offset_in_region b)
  && Bool.eqb (fr_romd_mode a) (fr_romd_mode b)
  && Bool.eqb (fr_readonly a) (fr_readonly b).

Definition flatview_init : FlatView T := mkFV 1 [] 0.

(** The array grows when it is full; [memmove] opens a gap at [pos]. *)
Definition flatview_insert (view : FlatView T) (pos : nat) (range : FlatRange T)
  : FlatView T :=
  let nr_allocated :=
    if fv_nr view =? fv_nr_allocated view
    then Z.max (2 * fv_nr view) 10 else fv_nr_allocated view in
  mkFV (fv_ref view)
    (take pos (fv_ranges view) ++ [range] ++ drop pos (fv_ranges view))
    nr_allocated.

Definition can_merge (r1 r2 : FlatRange T) : bool :=
  i_eq (addrrange_end (fr_addr r1)) (start (fr_addr r2))
  && (fr_mr r1 =? fr_mr r2)
  && i_eq (i_add (i_make64 (fr_offset_in_region r1)) (size (fr_addr r1)))
          (i_make64 (fr_offset_in_region r2))
  && (fr_dirty_log_mask r1 =? fr_dirty_log_mask r2)
  && Bool.eqb (fr_romd_mode r1) (fr_romd_mode r2)
  && Bool.eqb (fr_readonly r1) (fr_readonly r2).

Definition fr_set_size (fr : FlatRange T) (s : T) : FlatRange T :=
  mkFR (fr_mr fr) (fr_offset_in_region fr) (addrrange_make (start (fr_addr fr)) s)
    (fr_dirty_log_mask fr) (fr_romd_mode fr) (fr_readonly fr).

(** The inner loop of [flatview_simplify]: merge [ranges[j]] into
    [ranges[i]] while it continues [ranges[j-1]]. *)
Fixpoint simplify_inner (fuel : nat) (ranges : list (FlatRange T)) (i j : nat)
  : list (FlatRange T) * nat :=
  match fuel with
  | O => (ranges, j)
  | S fuel =>
      match ranges !! (j - 1)%nat, ranges !! j, ranges !! i with
      | Some rp, Some rj, Some ri =>
          if can_merge rp rj then
            simplify_inner fuel
              (<[i := fr_set_size ri (i_add (size (fr_addr ri)) (size (fr_addr rj)))]> ranges)
              i (S j)
          else (ranges, j)
      | _, _, _ => (ranges, j)
      end
  end.

Fixpoint simplify_outer (fuel : nat) (ranges : list (FlatRange T)) (i : nat)
  : list (FlatRange T) :=
  match fuel with
  | O => ranges
  | S fuel =>
      if (i <? length ranges)%nat then
        let '(ranges, j) := simplify_inner (length ranges) ranges i (S i) in
        let i := S i in
        simplify_outer fuel (take i ranges ++ drop j ranges) i
      else ranges
  end.

(** Each turn of the outer loop advances [i], so [nr] turns are enough. *)
Definition flatview_simplify (view : FlatView T) : FlatView T :=
  mkFV (fv_ref view)
    (simplify_outer (length (fv_ranges view)) (fv_ranges view) 0)
    (fv_nr_allocated view).

(** *** Rendering *)

(** The loop of [render_memory_region] that fills the gaps the view leaves
    in [base, base + remain).  [n] is the number of ranges from index [i]
    to the end of the view: every turn consumes one of them, whether or
    not it inserted a range before it. *)
Fixpoint render_loop (n : nat) (view : FlatView T) (i : nat) (fr : FlatRange T)
  (base : T) (offset_in_region : Z) (remain : T)
  : res (FlatView T * nat * T * Z * T) :=
  match n with
  | O => Ok (view, i, base, offset_in_region, remain)
  | S n =>
      if negb (i_nz remain) then Ok (view, i, base, offset_in_region, remain) else
      let* ri := aget (fv_ranges view) (Z.of_nat i) in
      if i_ge base (addrrange_end (fr_addr ri)) then
        render_loop n view (S i) fr base offset_in_region remain
      else
        let* (view, i, base, offset_in_region, remain) :=
          if i_lt base (start (fr_addr ri)) then
            let now := i_min remain (i_sub (start (fr_addr ri)) base) in
            let view := flatview_insert view i
              (mkFR (fr_mr fr) offset_in_region (addrrange_make base now)
                 (fr_dirty_log_mask fr) (fr_romd_mode fr) (fr_readonly fr)) in
            let base := i_add base now in
            let* n64 := i_get64 now in
            Ok (view, S i, base, u64 (offset_in_region + n64), i_sub remain now)
          else Ok (view, i, base, offset_in_region, remain) in
        let* ri := aget (fv_ranges view) (Z.of_nat i) in
        let now := i_sub (i_min (i_add base remain) (addrrange_end (fr_addr ri))) base in
        let base := i_add base now in
        let* n64 := i_get64 now in
        render_loop n view (S i) fr base (u64 (offset_in_region + n64)) (i_sub remain now)
  end.

(** The part of [render_memory_region] after the subregions: the region
    itself goes into the gaps. *)
Definition render_self (view : FlatView T) (info : MRInfo T) (base : T)
  (clip : AddrRange T) (readonly : bool) : res (FlatView T) :=
  let* offset_in_region := i_get64 (i_sub (start clip) base) in
  let base := start clip in
  let remain := size clip in
  let fr := mkFR (mr_id info) offset_in_region clip (mr_dirty_log_mask info)
              (mr_romd_mode info) readonly in
  let* (view, i, base, offset_in_region, remain) :=
    render_loop (length (fv_ranges view)) view 0 fr base offset_in_region remain in
  if i_nz remain then
    Ok (flatview_insert view i
          (mkFR (fr_mr fr) offset_in_region (addrrange_make base remain)
             (fr_dirty_log_mask fr) (fr_romd_mode fr) (fr_readonly fr)))
  else Ok view.

Fixpoint render_memory_region (view : FlatView T) (mr : MemoryRegion T) (base : T)
  (clip : AddrRange T) (readonly : bool) {struct mr} : res (FlatView T) :=
  let 'MR info alias subregions := mr in
  if negb (mr_enabled info) then Ok view else
  let base := i_add base (i_make64 (mr_addr info)) in
  let readonly := readonly || mr_readonly info in
  let tmp := addrrange_make base (mr_size info) in
  if negb (addrrange_intersects tmp clip) then Ok view else
  let clip := addrrange_intersection tmp clip in
  match alias with
  | Some al =>
      let base := i_sub base (i_make64 (mr_addr (mr_info al))) in
      let base := i_sub base (i_make64 (mr_alias_offset info)) in
      render_memory_region view al base clip readonly
  | None =>
      let* view :=
        (fix render_subregions (l : list (MemoryRegion T)) (view : FlatView T) :=
           match l with
           | [] => Ok view
           | subregion :: l =>
               let* view := render_memory_region view subregion base clip readonly in
               render_subregions l view
           end) subregions view in
      if negb (mr_terminates info) then Ok view
      else render_self view info base clip readonly
  end.

Definition generate_memory_topology (mr : option (MemoryRegion T)) : res (FlatView T) :=
  let* view :=
    match mr with
    | Some mr => render_memory_region flatview_init mr i_zero
                   (addrrange_make i_zero i_2_64) false
    | None => Ok flatview_init
    end in
  Ok (flatview_simplify view).
End FlatViewOps.
