(* ===== verification/FlatViewFacts.v ===== *)
(** * What rendering computes

    An abstract specification of the memory core: [resolve] says which region
    an address reaches, by the priority rules the documentation gives, with
    no flat view in sight; [view_lookup] says what a flat view maps an address
    to.  Rendering and simplification are shown to implement it. *)

From stdpp Require Import base list numbers sorting.
From S2P Require Import Prelude Int128 FlatView.

(** ** Induction on the region tree *)
Section RegionInd.
Context {T : Type} (P : MemoryRegion T -> Prop).
Hypothesis HMR : forall info alias subs,
  (forall al, alias = Some al -> P al) -> Forall P subs -> P (MR info alias subs).

Fixpoint MemoryRegion_tree_ind (mr : MemoryRegion T) : P mr :=
  let 'MR info alias subs := mr in
  HMR info alias subs
    (match alias with
     | None => fun al E => ltac:(discriminate E)
     | Some al0 => fun al E => eq_ind al0 P (MemoryRegion_tree_ind al0) al (f_equal (default al0) E)
     end)
    ((fix go (l : list (MemoryRegion T)) : Forall P l :=
        match l with
        | [] => Forall_nil_2 P
        | m :: l => Forall_cons_2 P m l (MemoryRegion_tree_ind m) (go l)
        end) subs).
End RegionInd.

(** ** Specification *)

(** What an access is routed to: a region, the offset within it and the
    attributes the access has there. *)
Record Target : Type := mkT {
  t_mr : Z; t_offset : Z; t_dirty_log_mask : Z; t_romd_mode : bool; t_readonly : bool }.

#[export] Instance Target_eq_dec : EqDecision Target.
Proof. solve_decision. Defined.

(** The region tree as a function of the address: a disabled region and an
    address outside the region give nothing; an alias redirects to its target
    at an offset; otherwise the first subregion (they are kept in priority
    order) that resolves the address wins, and the region itself backs what
    they leave if it terminates. *)
Fixpoint resolve (mr : MemoryRegion Z) (base : Z) (readonly : bool) (a : Z) : option Target :=
  let 'MR info alias subregions := mr in
  if negb (mr_enabled info) then None else
  let base := base + mr_addr info in
  let readonly := readonly || mr_readonly info in
  if negb ((base <=? a) && (a <? base + mr_size info)) then None else
  match alias with
  | Some al => resolve al (base - mr_addr (mr_info al) - mr_alias_offset info) readonly a
  | None =>
      match (fix first (l : list (MemoryRegion Z)) : option Target :=
               match l with
               | [] => None
               | m :: l => match resolve m base readonly a with
                           | Some t => Some t
                           | None => first l
                           end
               end) subregions with
      | Some t => Some t
      | None =>
          if mr_terminates info
          then Some (mkT (mr_id info) (a - base) (mr_dirty_log_mask info)
                       (mr_romd_mode info) readonly)
          else None
      end
  end.

Fixpoint resolve_first (l : list (MemoryRegion Z)) (base : Z) (readonly : bool) (a : Z)
  : option Target :=
  match l with
  | [] => None
  | m :: l => match resolve m base readonly a with
              | Some t => Some t
              | None => resolve_first l base readonly a
              end
  end.

(** [resolve] unfolded one level, with the search named. *)
Lemma resolve_eq info alias subs base ro a :
  resolve (MR info alias subs) base ro a =
  if negb (mr_enabled info) then None else
  let base := base + mr_addr info in
  let ro := ro || mr_readonly info in
  if negb ((base <=? a) && (a <? base + mr_size info)) then None else
  match alias with
  | Some al => resolve al (base - mr_addr (mr_info al) - mr_alias_offset info) ro a
  | None =>
      match resolve_first subs base ro a with
      | Some t => Some t
      | None =>
          if mr_terminates info
          then Some (mkT (mr_id info) (a - base) (mr_dirty_log_mask info)
                       (mr_romd_mode info) ro)
          else None
      end
  end.
Proof.
  cbn [resolve]. destruct (negb (mr_enabled info)); [done|].
  destruct (negb _); [done|]. destruct alias; [done|].
  assert (forall l b r,
    (fix first (l : list (MemoryRegion Z)) : option Target :=
       match l with
       | [] => None
       | m :: l => match resolve m b r a with Some t => Some t | None => first l end
       end) l = resolve_first l b r a) as ->; [|done].
  intros l b r. induction l as [|m l IH]; [done|]. cbn. by rewrite IH.
Qed.

(** ** Flat views as functions of the address *)

Definition fr_lo (r : FlatRange Z) : Z := start (fr_addr r).
Definition fr_hi (r : FlatRange Z) : Z := start (fr_addr r) + size (fr_addr r).
Definition fr_contains (r : FlatRange Z) (a : Z) : bool := (fr_lo r <=? a) && (a <? fr_hi r).

Definition fr_target (r : FlatRange Z) (a : Z) : Target :=
  mkT (fr_mr r) (fr_offset_in_region r + (a - fr_lo r)) (fr_dirty_log_mask r)
    (fr_romd_mode r) (fr_readonly r).

Fixpoint view_lookup (l : list (FlatRange Z)) (a : Z) : option Target :=
  match l with
  | [] => None
  | r :: l => if fr_contains r a then Some (fr_target r a) else view_lookup l a
  end.

(** Sorted, disjoint, non-empty ranges between [lo] and [hi], none of which
    runs past the end of its region's offsets. *)
Fixpoint view_ok (lo : Z) (l : list (FlatRange Z)) (hi : Z) : Prop :=
  match l with
  | [] => lo <= hi
  | r :: l =>
      lo <= fr_lo r /\ 0 < size (fr_addr r) /\
      0 <= fr_offset_in_region r /\
      fr_offset_in_region r + size (fr_addr r) < 2 ^ 64 /\
      view_ok (fr_hi r) l hi
  end.

Lemma view_ok_le lo l hi : view_ok lo l hi -> lo <= hi.
Proof.
  revert lo. induction l as [|r l IH]; intros lo; cbn; [done|].
  intros (?&?&?&?&Hl). apply IH in Hl. unfold fr_hi, fr_lo in *. lia.
Qed.

Lemma view_ok_weaken lo lo' l hi : lo' <= lo -> view_ok lo l hi -> view_ok lo' l hi.
Proof.
  destruct l as [|r l]; cbn; [lia|]. intros ? (?&?&?&?&?). split_and!; done || lia.
Qed.

(** Below its lower bound a view maps nothing. *)
Lemma view_lookup_below lo l hi a : view_ok lo l hi -> a < lo -> view_lookup l a = None.
Proof.
  revert lo. induction l as [|r l IH]; intros lo; cbn; [done|].
  intros (?&?&?&?&Hl) Ha. unfold fr_contains. unfold fr_hi, fr_lo in *.
  destruct (Z.leb_spec (start (fr_addr r)) a); cbn [andb]; [lia|].
  eapply IH; [exact Hl|lia].
Qed.

(** ** Filling the gaps of a sorted list

    The loop of [render_memory_region] on the list of ranges that lie ahead. *)
Section Fill.
Context (fr : FlatRange Z).

Definition piece (off base len : Z) : FlatRange Z :=
  mkFR (fr_mr fr) off (addrrange_make base len) (fr_dirty_log_mask fr)
    (fr_romd_mode fr) (fr_readonly fr).

(** Skipping the part of [base, base + remain) that [r] hides. *)
Definition hidden (base remain : Z) (r : FlatRange Z) : Z :=
  Z.min (base + remain) (fr_hi r) - base.

Fixpoint fill (rs : list (FlatRange Z)) (base off remain : Z) : list (FlatRange Z) :=
  match rs with
  | [] => if remain =? 0 then [] else [piece off base remain]
  | r :: rs =>
      if remain =? 0 then r :: rs
      else if fr_hi r <=? base then r :: fill rs base off remain
      else if base <? fr_lo r then
        let now := Z.min remain (fr_lo r - base) in
        let h := hidden (base + now) (remain - now) r in
        piece off base now :: r :: fill rs (base + now + h) (off + now + h) (remain - now - h)
      else
        let h := hidden base remain r in
        r :: fill rs (base + h) (off + h) (remain - h)
  end.

(** The address [a] of the part still to be rendered. *)
Definition covers (base off remain a : Z) : option Target :=
  if (base <=? a) && (a <? base + remain)
  then Some (mkT (fr_mr fr) (off + (a - base)) (fr_dirty_log_mask fr)
               (fr_romd_mode fr) (fr_readonly fr))
  else None.

Lemma fill_ok rs : forall lo hi base off remain,
  view_ok lo rs hi -> (lo <= base \/ remain = 0) -> 0 <= remain -> base + remain <= hi ->
  0 <= off -> off + remain < 2 ^ 64 ->
  view_ok lo (fill rs base off remain) hi.
Proof.
  induction rs as [|r rs IH]; intros lo hi base off remain Hv Hb Hr Hhi Ho Hs; cbn [fill].
  - destruct (Z.eqb_spec remain 0); [done|]. cbn. unfold fr_hi, fr_lo. cbn. lia.
  - destruct (Z.eqb_spec remain 0); [done|].
    cbn in Hv. destruct Hv as (H1 & H2 & H3 & H4 & Hv). pose proof (view_ok_le _ _ _ Hv).
    unfold hidden. unfold fr_hi, fr_lo in *.
    zcases; cbn; unfold fr_hi, fr_lo; cbn; split_and!; try lia; apply IH; try done; lia.
Qed.

Lemma fill_lookup rs : forall lo hi base off remain a,
  view_ok lo rs hi -> (lo <= base \/ remain = 0) -> 0 <= remain ->
  view_lookup (fill rs base off remain) a =
  match view_lookup rs a with
  | Some t => Some t
  | None => covers base off remain a
  end.
Proof.
  induction rs as [|r rs IH]; intros lo hi base off remain a Hv Hb Hr; cbn [fill].
  - unfold covers. destruct (Z.eqb_spec remain 0); cbn.
    + destruct ((base <=? a) && (a <? base + remain)) eqn:E; [lia|done].
    + unfold fr_contains, fr_lo, fr_hi, fr_target, fr_lo. cbn.
      destruct ((base <=? a) && (a <? base + remain)); done.
  - destruct (Z.eqb_spec remain 0) as [->|].
    { unfold covers. rewrite Z.add_0_r.
      destruct ((base <=? a) && (a <? base)) eqn:E; [lia|]. destruct (view_lookup _ a); done. }
    cbn in Hv. destruct Hv as (H1 & H2 & H3 & H4 & Hv).
    assert (forall b o m, (fr_hi r <= b \/ m = 0) -> 0 <= m ->
      view_lookup (fill rs b o m) a =
      match view_lookup rs a with Some t => Some t | None => covers b o m a end) as IH'
      by (intros; eapply IH; done).
    assert (a < fr_hi r -> view_lookup rs a = None) as Hlow
      by (intros; eapply view_lookup_below; done).
    unfold hidden. unfold fr_hi, fr_lo in *.
    destruct (Z.ltb_spec a (start (fr_addr r) + size (fr_addr r))) as [Ha|Ha];
      [rewrite (Hlow Ha) in IH'|clear Hlow].
    all: zcase; [|zcase]; cbn [view_lookup]; try (rewrite IH' by lia);
      unfold fr_contains, covers, fr_target, fr_lo, fr_hi;
      cbn [fr_mr fr_dirty_log_mask fr_romd_mode fr_readonly fr_offset_in_region fr_addr
           start size piece].
    all: try rewrite (Hlow Ha).
    all: destruct (view_lookup rs a); zcases; try lia; try done; do 2 f_equal; lia.
Qed.
End Fill.

(** ** The renderer over the mathematical integers *)

Lemma Z_get64_ok (a : Z) : 0 <= a < 2 ^ 64 -> i_get64 a = Ok a.
Proof. intros. cbn. rewrite (proj2 (Z.leb_le _ _)), (proj2 (Z.ltb_lt _ _)) by lia. done. Qed.

Lemma Z_get64_inv (a x : Z) : i_get64 a = Ok x -> x = a /\ 0 <= a < 2 ^ 64.
Proof. cbn. intros. res_inv. lia. Qed.

(** The array behind the view is large enough, and rendering keeps it so. *)
Definition capacity_ok {T} (v : FlatView T) : Prop := fv_nr v <= fv_nr_allocated v.

Lemma flatview_insert_capacity {T} (v : FlatView T) pos r :
  capacity_ok v -> capacity_ok (flatview_insert v pos r).
Proof.
  unfold capacity_ok, flatview_insert, fv_nr. cbn [fv_ranges fv_nr_allocated].
  rewrite !length_app, length_take, length_drop. cbn [length].
  intros. destruct (Z.eqb_spec (Z.of_nat (length (fv_ranges v))) (fv_nr_allocated v)); lia.
Qed.

(** Inserting in front of the part of the list that lies ahead. *)
Lemma flatview_insert_at {T} (v : FlatView T) done rs r :
  fv_ranges v = done ++ rs ->
  fv_ranges (flatview_insert v (length done) r) = done ++ r :: rs.
Proof.
  intros E. unfold flatview_insert. cbn [fv_ranges].
  rewrite E, take_app_length, drop_app_length. done.
Qed.

Lemma aget_app_length {A} (l1 l2 : list A) x :
  aget (l1 ++ x :: l2) (Z.of_nat (length l1)) = Ok x.
Proof.
  apply aget_Ok. split; [lia|]. rewrite Nat2Z.id, lookup_app_r, Nat.sub_diag by lia. done.
Qed.

(** The final step of [render_self], after the loop. *)
Definition render_rest (fr : FlatRange Z) (s : FlatView Z * nat * Z * Z * Z) : FlatView Z :=
  let '(view, i, base, off, remain) := s in
  if remain =? 0 then view else flatview_insert view i (piece fr off base remain).

(** One iteration of the loop, at the range [r] that lies ahead. *)
Lemma render_loop_step fr n v done r rs base off remain :
  fv_ranges v = done ++ r :: rs -> 0 <= size (fr_addr r) ->
  0 < remain < 2 ^ 64 -> 0 <= off -> off + remain < 2 ^ 64 ->
  render_loop (S n) v (length done) fr base off remain =
  if fr_hi r <=? base then render_loop n v (S (length done)) fr base off remain
  else if base <? fr_lo r then
    let now := Z.min remain (fr_lo r - base) in
    let h := hidden (base + now) (remain - now) r in
    render_loop n (flatview_insert v (length done) (piece fr off base now)) (S (S (length done)))
      fr (base + now + h) (off + now + h) (remain - now - h)
  else
    let h := hidden base remain r in
    render_loop n v (S (length done)) fr (base + h) (off + h) (remain - h).
Proof.
  intros Ev Hsz Hr Ho Hs. cbn [render_loop i_nz Z_ideal].
  destruct (Z.eqb_spec remain 0); [lia|]. cbn [negb].
  rewrite Ev, aget_app_length. cbn [res_bind].
  change (i_ge base (addrrange_end (fr_addr r))) with (fr_hi r <=? base).
  rewrite Z_lt_spec. change (start (fr_addr r)) with (fr_lo r).
  destruct (Z.leb_spec (fr_hi r) base); [done|].
  destruct (Z.ltb_spec base (fr_lo r)); cbv zeta.
  - rewrite Z_min_spec. change (i_sub (fr_lo r) base) with (fr_lo r - base).
    set (now := Z.min remain (fr_lo r - base)). rewrite Z_get64_ok by lia. cbn [res_bind].
    fold (piece fr off base now). rewrite (flatview_insert_at v done (r :: rs)) by done.
    replace (S (length done)) with (length (done ++ [piece fr off base now])) at 1
      by (rewrite length_app; cbn; lia).
    rewrite (cons_middle _ done), app_assoc, aget_app_length. cbn [res_bind].
    rewrite Z_min_spec. unfold i_add, i_sub. cbn [Z_ideal].
    change (addrrange_end (fr_addr r)) with (fr_hi r).
    fold (hidden (base + now) (remain - now) r). set (h := hidden _ _ _).
    assert (0 <= h <= remain - now) by (unfold h, hidden, fr_hi, fr_lo in *; lia).
    rewrite Z_get64_ok by lia. cbn [res_bind]. 
    by rewrite (uwrap_small 64 (off + now)), uwrap_small by lia.
  - cbn [res_bind]. rewrite Ev, aget_app_length. cbn [res_bind].
    rewrite Z_min_spec. unfold i_add, i_sub. cbn [Z_ideal].
    change (addrrange_end (fr_addr r)) with (fr_hi r).
    fold (hidden base remain r). set (h := hidden _ _ _).
    assert (0 <= h <= remain) by (unfold h, hidden, fr_hi, fr_lo in *; lia).
    rewrite Z_get64_ok by lia. cbn [res_bind]. by rewrite uwrap_small by lia.
Qed.

(** The loop, followed by the final step, fills the gaps. *)
Lemma render_loop_fill fr rs : forall done v base off remain,
  fv_ranges v = done ++ rs -> capacity_ok v ->
  Forall (fun r => 0 <= size (fr_addr r)) rs ->
  0 <= remain < 2 ^ 64 -> 0 <= off -> off + remain < 2 ^ 64 ->
  exists s, render_loop (length rs) v (length done) fr base off remain = Ok s /\
    fv_ranges (render_rest fr s) = done ++ fill fr rs base off remain /\
    capacity_ok (render_rest fr s).
Proof.
  induction rs as [|r rs IH]; intros done v base off remain Ev Hc Hsz Hr Ho Hs.
  - eexists. split; [done|]. cbn [render_rest fill]. rewrite app_nil_r in Ev.
    destruct (Z.eqb_spec remain 0); [by rewrite app_nil_r|].
    split; [|by apply flatview_insert_capacity].
    rewrite (flatview_insert_at v done []) by (by rewrite app_nil_r). done.
  - cbn [length fill]. inversion Hsz as [|?? Hr0 Hsz']; subst.
    destruct (Z.eqb_spec remain 0) as [->|]; [by eexists|].
    rewrite (render_loop_step fr _ v done r rs) by done || lia.
    assert (forall v' d b o m, fv_ranges v' = (done ++ d) ++ r :: rs -> capacity_ok v' ->
      0 <= m < 2 ^ 64 -> 0 <= o -> o + m < 2 ^ 64 ->
      exists s, render_loop (length rs) v' (length (done ++ d ++ [r])) fr b o m = Ok s /\
        fv_ranges (render_rest fr s) = done ++ d ++ r :: fill fr rs b o m /\
        capacity_ok (render_rest fr s)) as IH'.
    { intros v' d b o m E' ????. destruct (IH (done ++ d ++ [r]) v' b o m) as (s & E1 & E2 & E3);
        [by rewrite E', <- !app_assoc|done..|].
      exists s. rewrite E2, <- !app_assoc. by split_and!. }
    assert (length (done ++ [] ++ [r]) = S (length done)) as L1 by (rewrite length_app; cbn; lia).
    destruct (Z.leb_spec (fr_hi r) base).
    { rewrite <- L1. apply (IH' v []); [by rewrite app_nil_r|done..]. }
    destruct (Z.ltb_spec base (fr_lo r)); cbv zeta; unfold hidden, fr_lo, fr_hi in *.
    + set (now := Z.min _ _). replace (S (S (length done)))
        with (length (done ++ [piece fr off base now] ++ [r])) by (rewrite length_app; cbn; lia).
      apply (IH' _ [_]); [|by apply flatview_insert_capacity|lia..].
      by rewrite (flatview_insert_at v done (r :: rs)), <- app_assoc by done.
    + rewrite <- L1. apply (IH' v []); [by rewrite app_nil_r|done|lia..].
Qed.

Lemma view_ok_sizes lo l hi :
  view_ok lo l hi -> Forall (fun r => 0 <= size (fr_addr r)) l.
Proof.
  revert lo. induction l as [|r l IH]; intros lo; cbn; [constructor|].
  intros (?&?&?&?&?). constructor; [lia|by eapply IH].
Qed.

Lemma render_self_spec v info base clip ro hi :
  view_ok 0 (fv_ranges v) hi -> capacity_ok v ->
  0 <= start clip -> 0 <= size clip -> start clip + size clip <= hi ->
  base <= start clip -> start clip + size clip <= base + mr_size info ->
  mr_size info < 2 ^ 64 ->
  exists v', render_self v info base clip ro = Ok v' /\ capacity_ok v' /\
    view_ok 0 (fv_ranges v') hi /\
    forall a, view_lookup (fv_ranges v') a =
      match view_lookup (fv_ranges v) a with
      | Some t => Some t
      | None =>
          if (start clip <=? a) && (a <? start clip + size clip)
          then Some (mkT (mr_id info) (a - base) (mr_dirty_log_mask info) (mr_romd_mode info) ro)
          else None
      end.
Proof.
  intros Hv Hc H1 H2 H3 H4 H5 H6. unfold render_self.
  change (i_sub (start clip) base) with (start clip - base).
  rewrite Z_get64_ok by lia. cbn [res_bind].
  set (fr := mkFR _ _ _ _ _ _).
  destruct (render_loop_fill fr (fv_ranges v) [] v (start clip) (start clip - base) (size clip))
    as ([[[[v' i'] b'] o'] m'] & E1 & E2 & E3);
    [done|done|by eapply view_ok_sizes|lia..|].
  cbn [length] in E1. rewrite E1. cbn [res_bind].
  exists (render_rest fr (v', i', b', o', m')). split_and!.
  - cbn. destruct (Z.eqb_spec m' 0); done.
  - done.
  - rewrite E2. apply fill_ok; [done|lia..].
  - intros a. rewrite E2. cbn [app]. erewrite fill_lookup; [|exact Hv|lia|lia].
    destruct (view_lookup (fv_ranges v) a); [done|]. unfold covers.
    destruct (_ && _); [|done]. cbn. do 2 f_equal. lia.
Qed.

(** A region tree the renderer handles: addresses and offsets are 64-bit, a
    region is at most [2^64] bytes, and a region that terminates the search
    is smaller (the offset of its last byte plus one must be representable,
    see [render_full_region_faults]). *)
Fixpoint region_ok (mr : MemoryRegion Z) : Prop :=
  let 'MR info alias subregions := mr in
  0 <= mr_addr info < 2 ^ 64 /\ 0 <= mr_alias_offset info < 2 ^ 64 /\
  0 <= mr_size info <= 2 ^ 64 /\
  match alias with
  | Some al => region_ok al
  | None =>
      (mr_terminates info = true -> mr_size info < 2 ^ 64) /\
      (fix all (l : list (MemoryRegion Z)) : Prop :=
         match l with [] => True | m :: l => region_ok m /\ all l end) subregions
  end.

Fixpoint render_subregions {T} `{Int128Ops T} (l : list (MemoryRegion T)) (view : FlatView T)
  (base : T) (clip : AddrRange T) (readonly : bool) : res (FlatView T) :=
  match l with
  | [] => Ok view
  | m :: l => let* view := render_memory_region view m base clip readonly in
              render_subregions l view base clip readonly
  end.

(** The renderer unfolded one level, with the loop over subregions named. *)
Lemma render_eq {T} `{Int128Ops T} view info alias subs base clip ro :
  render_memory_region view (MR info alias subs) base clip ro =
  if negb (mr_enabled info) then Ok view else
  let base := i_add base (i_make64 (mr_addr info)) in
  let ro := ro || mr_readonly info in
  let tmp := addrrange_make base (mr_size info) in
  if negb (addrrange_intersects tmp clip) then Ok view else
  let clip := addrrange_intersection tmp clip in
  match alias with
  | Some al =>
      render_memory_region view al
        (i_sub (i_sub base (i_make64 (mr_addr (mr_info al)))) (i_make64 (mr_alias_offset info)))
        clip ro
  | None =>
      let* view := render_subregions subs view base clip ro in
      if negb (mr_terminates info) then Ok view else render_self view info base clip ro
  end.
Proof.
  cbn [render_memory_region]. destruct (negb (mr_enabled info)); [done|]. cbn zeta.
  destruct (negb _); [done|]. destruct alias; [done|]. f_equal.
  generalize (i_add base (i_make64 (mr_addr info))). intros b.
  generalize (addrrange_intersection (addrrange_make b (mr_size info)) clip). intros c.
  revert view. induction subs as [|m subs IH]; intros view; [done|].
  cbn [render_subregions]. destruct (render_memory_region view m b c _); cbn; [|done].
  apply IH.
Qed.

Definition in_range (r : AddrRange Z) (a : Z) : bool :=
  (start r <=? a) && (a <? start r + size r).

(** Clipping is intersection of the address sets, and a region that is
    skipped has no address in the clip. *)
Lemma addrrange_intersection_spec (r1 r2 : AddrRange Z) a :
  in_range (addrrange_intersection r1 r2) a = in_range r1 a && in_range r2 a.
Proof.
  unfold in_range, addrrange_intersection, addrrange_end.
  rewrite Z_max_spec, Z_min_spec. cbn. lia.
Qed.

Lemma addrrange_intersects_spec (r1 r2 : AddrRange Z) :
  0 <= size r1 -> 0 <= size r2 ->
  if addrrange_intersects r1 r2
  then 0 <= size (addrrange_intersection r1 r2)
  else forall a, in_range r1 a && in_range r2 a = false.
Proof.
  intros. unfold addrrange_intersects, addrrange_contains, addrrange_intersection, addrrange_end.
  rewrite !Z_lt_spec, Z_max_spec, Z_min_spec. cbn [i_ge i_add i_sub Z_ideal size start].
  destruct (_ || _) eqn:E; [lia|]. intros a. unfold in_range. lia.
Qed.

(** A view with the mapping [f] added behind what it already maps. *)
Definition extends (l : list (FlatRange Z)) (f : Z -> option Target) (l' : list (FlatRange Z))
  : Prop :=
  forall a, view_lookup l' a =
    match view_lookup l a with Some t => Some t | None => f a end.

Definition clipped (clip : AddrRange Z) (f : Z -> option Target) (a : Z) : option Target :=
  if in_range clip a then f a else None.

(** Rendering keeps the view well formed and adds the region's mapping
    within the clip, behind what was there. *)
Definition renders (hi : Z) (v : FlatView Z) (r : res (FlatView Z))
  (f : Z -> option Target) : Prop :=
  exists v', r = Ok v' /\ capacity_ok v' /\ view_ok 0 (fv_ranges v') hi /\
    extends (fv_ranges v) f (fv_ranges v').

Lemma renders_same hi v f :
  capacity_ok v -> view_ok 0 (fv_ranges v) hi -> (forall a, f a = None) ->
  renders hi v (Ok v) f.
Proof.
  intros ?? Hf. exists v. split_and!; try done.
  intros a. rewrite Hf. by destruct (view_lookup _ a).
Qed.

Definition rendered_ok (hi : Z) (mr : MemoryRegion Z) : Prop :=
  forall v base clip ro,
    region_ok mr -> view_ok 0 (fv_ranges v) hi -> capacity_ok v ->
    0 <= start clip -> 0 <= size clip -> start clip + size clip <= hi ->
    renders hi v (render_memory_region v mr base clip ro) (clipped clip (resolve mr base ro)).

Lemma render_subregions_spec hi subs : Forall (rendered_ok hi) subs ->
  forall v base clip ro,
    (fix all (l : list (MemoryRegion Z)) : Prop :=
       match l with [] => True | m :: l => region_ok m /\ all l end) subs ->
    view_ok 0 (fv_ranges v) hi -> capacity_ok v ->
    0 <= start clip -> 0 <= size clip -> start clip + size clip <= hi ->
    renders hi v (render_subregions subs v base clip ro)
      (clipped clip (resolve_first subs base ro)).
Proof.
  induction 1 as [|m subs Hm _ IH]; intros v base clip ro Hok Hv Hc H1 H2 H3.
  - apply renders_same; [done..|]. intros a. unfold clipped. by destruct (in_range clip a).
  - destruct Hok as [Hm' Hok].
    destruct (Hm v base clip ro) as (v1 & E1 & Hc1 & Hv1 & X1); [done..|].
    destruct (IH v1 base clip ro) as (v2 & E2 & Hc2 & Hv2 & X2); [done..|].
    exists v2. cbn. rewrite E1. cbn. split_and!; [done..|].
    intros a. rewrite X2, X1. destruct (view_lookup (fv_ranges v) a); [done|].
    unfold clipped. destruct (in_range clip a); [|done]. by destruct (resolve m base ro a).
Qed.

(** The window a region occupies when its container starts at [base]. *)
Definition window (info : MRInfo Z) (base : Z) : AddrRange Z :=
  addrrange_make (base + mr_addr info) (mr_size info).

Lemma resolve_window info alias subs base ro a :
  resolve (MR info alias subs) base ro a =
  if mr_enabled info && in_range (window info base) a
  then resolve (MR info alias subs) base ro a else None.
Proof.
  rewrite resolve_eq. unfold in_range, window. cbn [start size].
  destruct (mr_enabled info); [|done]. by destruct (_ && _).
Qed.

(** An enabled alias resolves as its target, shifted, within the window. *)
Lemma clipped_alias info al subs base ro clip a : mr_enabled info = true ->
  clipped clip (resolve (MR info (Some al) subs) base ro) a =
  clipped (addrrange_intersection (window info base) clip)
    (resolve al (base + mr_addr info - mr_addr (mr_info al) - mr_alias_offset info)
       (ro || mr_readonly info)) a.
Proof.
  intros Een. unfold clipped. rewrite addrrange_intersection_spec, resolve_eq, Een.
  cbn [negb]. cbn zeta. fold (in_range (window info base) a).
  change ((base + mr_addr info <=? a) && (a <? base + mr_addr info + mr_size info))
    with (in_range (window info base) a).
  destruct (in_range (window info base) a), (in_range clip a); done.
Qed.

(** An enabled container resolves as its first subregion that maps the
    address, and as itself behind them when it terminates. *)
Lemma clipped_container info subs base ro clip a : mr_enabled info = true ->
  clipped clip (resolve (MR info None subs) base ro) a =
  match clipped (addrrange_intersection (window info base) clip)
          (resolve_first subs (base + mr_addr info) (ro || mr_readonly info)) a with
  | Some t => Some t
  | None => if in_range (addrrange_intersection (window info base) clip) a && mr_terminates info
            then Some (mkT (mr_id info) (a - (base + mr_addr info)) (mr_dirty_log_mask info)
                         (mr_romd_mode info) (ro || mr_readonly info))
            else None
  end.
Proof.
  intros Een. unfold clipped. rewrite addrrange_intersection_spec, resolve_eq, Een.
  cbn [negb]. cbn zeta.
  change ((base + mr_addr info <=? a) && (a <? base + mr_addr info + mr_size info))
    with (in_range (window info base) a).
  destruct (in_range (window info base) a), (in_range clip a), (mr_terminates info);
    cbn; try done; by destruct (resolve_first _ _ _ _).
Qed.

Lemma window_clip_bounds info base clip hi : 0 <= mr_addr info -> 0 <= start clip ->
  start clip + size clip <= hi ->
  let c := addrrange_intersection (window info base) clip in
  base + mr_addr info <= start c /\ 0 <= start c /\
  start c + size c <= base + mr_addr info + mr_size info /\ start c + size c <= hi.
Proof.
  intros. unfold c, window, addrrange_intersection, addrrange_end.
  rewrite Z_max_spec, Z_min_spec. cbn. lia.
Qed.

(** The renderer implements the specification, for every region tree. *)
Lemma render_spec hi mr : rendered_ok hi mr.
Proof.
  induction mr as [info alias subs IHa IHs] using MemoryRegion_tree_ind.
  intros v base clip ro Hok Hv Hc H1 H2 H3. rewrite render_eq.
  cbn [region_ok] in Hok. destruct Hok as (Ha & Hao & Hsz & Hok).
  destruct (mr_enabled info) eqn:Een; cbn [negb].
  2: { apply renders_same; [done..|]. intros a. unfold clipped.
       rewrite resolve_window, Een. by destruct (in_range clip a). }
  cbn zeta. change (i_add base (i_make64 (mr_addr info))) with (base + u64 (mr_addr info)).
  rewrite (uwrap_small 64 (mr_addr info)) by lia. fold (window info base).
  pose proof (addrrange_intersects_spec (window info base) clip ltac:(cbn; lia) H2) as Hint.
  destruct (addrrange_intersects (window info base) clip); cbn [negb].
  2: { apply renders_same; [done..|]. intros a. unfold clipped. rewrite resolve_window, Een.
       specialize (Hint a). destruct (in_range clip a); [|done].
       rewrite andb_true_r in Hint. by rewrite Hint. }
  destruct (window_clip_bounds info base clip hi) as (B1 & B2 & B3 & B4); [lia..|].
  set (clip' := addrrange_intersection (window info base) clip) in *.
  destruct alias as [al|].
  - destruct (IHa al eq_refl v
        (base + mr_addr info - mr_addr (mr_info al) - mr_alias_offset info) clip'
        (ro || mr_readonly info)) as (v' & E & Hc' & Hv' & X); [done..|].
    assert (0 <= mr_addr (mr_info al) < 2 ^ 64) by (destruct al; cbn in Hok |- *; tauto).
    exists v'. unfold i_sub, i_make64. cbn [Z_ideal].
    rewrite !(uwrap_small 64) by lia. split_and!; [done..|].
    intros a. by rewrite X, clipped_alias.
  - destruct Hok as [Ht Hall].
    destruct (render_subregions_spec hi subs IHs v (base + mr_addr info) clip'
                (ro || mr_readonly info)) as (v1 & E1 & Hc1 & Hv1 & X1); [done..|].
    rewrite E1. cbn [res_bind]. destruct (mr_terminates info) eqn:Et; cbn [negb].
    + destruct (render_self_spec v1 info (base + mr_addr info) clip' (ro || mr_readonly info) hi)
        as (v2 & E2 & Hc2 & Hv2 & X2); try done; [tauto|].
      exists v2. split_and!; [done..|]. intros a.
      rewrite X2, X1, clipped_container, Et by done. fold clip'.
      destruct (view_lookup (fv_ranges v) a); [done|].
      destruct (clipped _ _ a); [done|]. fold (in_range clip' a). by destruct (in_range clip' a).
    + exists v1. split_and!; [done..|]. intros a. rewrite X1, clipped_container, Et by done.
      fold clip'. destruct (view_lookup (fv_ranges v) a); [done|].
      rewrite andb_false_r. by destruct (clipped _ _ a).
Qed.

(** ** Simplification *)

(** Two ranges that continue each other and end at the same place: the merged
    range [acc] and the last range [rp] that went into it. *)
Definition same_end (rp acc : FlatRange Z) : Prop :=
  fr_hi rp = fr_hi acc /\ fr_mr rp = fr_mr acc /\
  fr_offset_in_region rp + size (fr_addr rp) = fr_offset_in_region acc + size (fr_addr acc) /\
  fr_dirty_log_mask rp = fr_dirty_log_mask acc /\
  fr_romd_mode rp = fr_romd_mode acc /\ fr_readonly rp = fr_readonly acc.

Definition offsets_ok (r : FlatRange Z) : Prop :=
  0 <= fr_offset_in_region r /\ 0 < size (fr_addr r) /\
  fr_offset_in_region r + size (fr_addr r) < 2 ^ 64.

Lemma can_merge_spec (r1 r2 : FlatRange Z) :
  offsets_ok r1 -> offsets_ok r2 ->
  can_merge r1 r2 = true <->
  fr_hi r1 = fr_lo r2 /\ fr_mr r1 = fr_mr r2 /\
  fr_offset_in_region r1 + size (fr_addr r1) = fr_offset_in_region r2 /\
  fr_dirty_log_mask r1 = fr_dirty_log_mask r2 /\
  fr_romd_mode r1 = fr_romd_mode r2 /\ fr_readonly r1 = fr_readonly r2.
Proof.
  intros (?&?&?) (?&?&?). unfold can_merge, addrrange_end, fr_hi, fr_lo.
  cbn [i_eq i_add i_make64 Z_ideal]. rewrite !(uwrap_small 64) by lia.
  rewrite !andb_true_iff, !Z.eqb_eq, !Bool.eqb_true_iff. tauto.
Qed.

Lemma can_merge_same_end rp acc r :
  offsets_ok rp -> offsets_ok acc -> offsets_ok r -> same_end rp acc ->
  can_merge rp r = can_merge acc r.
Proof.
  intros H1 H2 H3 (E1 & E2 & E3 & E4 & E5 & E6).
  apply Bool.eq_iff_eq_true. rewrite !can_merge_spec by done.
  rewrite E1, E2, E3, E4, E5, E6. done.
Qed.

Definition merged (acc r : FlatRange Z) : FlatRange Z :=
  fr_set_size acc (i_add (size (fr_addr acc)) (size (fr_addr r))).

(** The inner loop on the list of ranges after [acc]. *)
Fixpoint absorb (rp acc : FlatRange Z) (rest : list (FlatRange Z))
  : FlatRange Z * list (FlatRange Z) :=
  match rest with
  | [] => (acc, [])
  | r :: rest' => if can_merge rp r then absorb r (merged acc r) rest' else (acc, rest)
  end.

Lemma lookup_after {A} (pre mid rest : list A) x y :
  (pre ++ x :: mid ++ y :: rest) !! (length pre + S (length mid))%nat = Some y.
Proof.
  rewrite lookup_app_r by lia.
  replace (length pre + S (length mid) - length pre)%nat with (S (length mid)) by lia.
  change ((mid ++ y :: rest) !! length mid = Some y). by apply list_lookup_middle.
Qed.

Lemma simplify_inner_absorb fuel : forall pre acc mid rest rp,
  (length rest <= fuel)%nat ->
  (pre ++ acc :: mid ++ rest) !! (length pre + length mid)%nat = Some rp ->
  exists mid',
    mid ++ rest = mid' ++ snd (absorb rp acc rest) /\
    simplify_inner fuel (pre ++ acc :: mid ++ rest) (length pre)
      (length pre + S (length mid)) =
    (pre ++ fst (absorb rp acc rest) :: mid ++ rest, length pre + S (length mid'))%nat.
Proof.
  induction fuel as [|fuel IH]; intros pre acc mid rest rp Hf Hrp.
  { exists mid. destruct rest; cbn in *; [done|lia]. }
  destruct rest as [|r rest].
  { exists mid. cbn [absorb fst snd simplify_inner]. rewrite app_nil_r. split; [done|].
    rewrite app_nil_r in Hrp.
    replace (length pre + S (length mid) - 1)%nat with (length pre + length mid)%nat by lia.
    rewrite Hrp, (lookup_ge_None_2 _ (length pre + S (length mid)))
      by (rewrite length_app; cbn; lia). done. }
  pose proof (lookup_after pre mid rest acc r) as Hr.
  assert ((pre ++ acc :: mid ++ r :: rest) !! length pre = Some acc) as Ha
    by (by apply list_lookup_middle).
  cbn [simplify_inner absorb].
  replace (length pre + S (length mid) - 1)%nat with (length pre + length mid)%nat by lia.
  rewrite Hrp, Hr, Ha. destruct (can_merge rp r); [|by exists mid].
  fold (merged acc r).
  rewrite insert_app_r_alt, Nat.sub_diag by lia. cbn [insert list_insert].
  destruct (IH pre (merged acc r) (mid ++ [r]) rest r) as (mid' & E1 & E2).
  - cbn in Hf. lia.
  - rewrite length_app, <- app_assoc, Nat.add_1_r. apply lookup_after.
  - rewrite <- app_assoc in E1, E2. exists mid'. split; [exact E1|].
    rewrite length_app in E2. cbn [length app] in E2.
    replace (S (length pre + S (length mid)))
      with (length pre + S (length mid + 1))%nat by lia. exact E2.
Qed.

(** Merging [r] into [acc] changes neither what the view maps nor its order. *)
Lemma merged_spec lo acc r rest hi a :
  view_ok lo (acc :: r :: rest) hi -> can_merge acc r = true ->
  view_ok lo (merged acc r :: rest) hi /\ same_end r (merged acc r) /\
  view_lookup (merged acc r :: rest) a = view_lookup (acc :: r :: rest) a.
Proof.
  cbn [view_ok]. intros (?&?&?&?&?&?&?&?&Hv) Hm.
  apply can_merge_spec in Hm as (E1 & E2 & E3 & E4 & E5 & E6); [|done..].
  unfold merged, same_end, fr_set_size.
  unfold i_add. cbn [Z_ideal view_lookup].
  unfold fr_hi, fr_lo, fr_contains, fr_target, fr_hi, fr_lo in *.
  cbn [fr_addr start size fr_mr fr_offset_in_region fr_dirty_log_mask fr_romd_mode fr_readonly].
  split_and!; try lia; try congruence.
  - eapply view_ok_weaken; [|exact Hv]. lia.
  - zcases; try lia; try done. rewrite <- E2, <- E4, <- E5, <- E6. do 2 f_equal. lia.
Qed.

(** Where [absorb] stops, the next range cannot be merged. *)
Lemma absorb_spec rest : forall lo rp acc hi,
  view_ok lo (acc :: rest) hi -> offsets_ok rp -> same_end rp acc ->
  let '(acc', rest') := absorb rp acc rest in
  view_ok lo (acc' :: rest') hi /\
  (forall a, view_lookup (acc' :: rest') a = view_lookup (acc :: rest) a) /\
  (length rest' <= length rest)%nat /\ (forall x, can_merge x acc' = can_merge x acc) /\
  match rest' with [] => True | r :: _ => can_merge acc' r = false end.
Proof.
  induction rest as [|r rest IH]; intros lo rp acc hi Hv Hrp He; cbn [absorb]; [done|].
  assert (offsets_ok acc /\ offsets_ok r) as [Hacc Hr]
    by (cbn in Hv; unfold offsets_ok; tauto).
  rewrite (can_merge_same_end rp acc) by done.
  destruct (can_merge acc r) eqn:Hm; [|done].
  destruct (merged_spec lo acc r rest hi 0 Hv Hm) as (Hv' & He' & _).
  specialize (IH lo r (merged acc r) hi Hv' Hr He').
  destruct (absorb r (merged acc r) rest) as [acc' rest'].
  destruct IH as (I1 & I2 & I3 & I4 & I5). split_and!; [done| |cbn; lia|exact I4|done].
  intros a. rewrite I2. by apply (merged_spec lo acc r rest hi a Hv Hm).
Qed.

(** No two neighbours of the list can be merged. *)
Fixpoint compact (l : list (FlatRange Z)) : Prop :=
  match l with
  | [] => True
  | r :: l' => match l' with [] => True | r' :: _ => can_merge r r' = false end /\ compact l'
  end.

(** The head of a list keeps where it starts. *)
Definition same_head (l l' : list (FlatRange Z)) : Prop :=
  match l, l' with
  | [], [] => True
  | r :: _, r' :: _ => forall x, can_merge x r' = can_merge x r
  | _, _ => False
  end.

Lemma simplify_outer_spec fuel : forall pre l lo hi,
  (length l <= fuel)%nat -> view_ok lo l hi ->
  exists l', simplify_outer fuel (pre ++ l) (length pre) = pre ++ l' /\
    view_ok lo l' hi /\ compact l' /\ (length l' <= length l)%nat /\ same_head l l' /\
    (forall a, view_lookup l' a = view_lookup l a).
Proof.
  induction fuel as [|fuel IH]; intros pre l lo hi Hf Hv.
  { exists []. destruct l; cbn in *; [done|lia]. }
  destruct l as [|r rest].
  { exists []. cbn [simplify_outer]. rewrite app_nil_r, (proj2 (Nat.ltb_ge _ _)) by lia. done. }
  cbn [simplify_outer]. rewrite (proj2 (Nat.ltb_lt _ _)) by (rewrite length_app; cbn; lia).
  destruct (simplify_inner_absorb (length (pre ++ r :: rest)) pre r [] rest r) as (mid & E1 & E2).
  { rewrite length_app. cbn. lia. }
  { rewrite Nat.add_0_r. by apply list_lookup_middle. }
  cbn [app length] in E1, E2.
  replace (length pre + 1)%nat with (S (length pre)) in E2 by lia. rewrite E2.
  assert (offsets_ok r) as Hr by (cbn in Hv; unfold offsets_ok; tauto).
  pose proof (absorb_spec rest lo r r hi Hv Hr ltac:(done)) as Ha.
  destruct (absorb r r rest) as [acc' rest']. cbn [fst snd] in *. subst rest.
  destruct Ha as (Hv' & Hl & Hlen & Hst & Hstop).
  replace (take (S (length pre)) (pre ++ acc' :: mid ++ rest')) with (pre ++ [acc'])
    by (rewrite take_app, firstn_all2, Nat.sub_succ_l, Nat.sub_diag by lia; done).
  replace (drop (length pre + S (length mid)) (pre ++ acc' :: mid ++ rest')) with rest'
    by (rewrite drop_app_add; cbn; by rewrite drop_app_length).
  cbn [view_ok] in Hv'. destruct Hv' as (V1 & V2 & V3 & V4 & Hv').
  destruct (IH (pre ++ [acc']) rest' (fr_hi acc') hi) as (l' & I1 & I2 & I3 & I4 & I5 & I6);
    [cbn in Hf; lia|done|].
  rewrite length_app in I1. cbn [length] in I1. replace (length pre + 1)%nat with (S (length pre)) in I1 by lia.
  exists (acc' :: l'). cbn [view_ok compact length same_head].
  split_and!; [|done..| |done|lia|exact Hst|].
  - rewrite I1, <- app_assoc. done.
  - destruct l', rest'; try done. by rewrite I5.
  - intros a. rewrite <- Hl. cbn [view_lookup]. by rewrite I6.
Qed.

Lemma flatview_simplify_spec v hi :
  view_ok 0 (fv_ranges v) hi ->
  view_ok 0 (fv_ranges (flatview_simplify v)) hi /\ compact (fv_ranges (flatview_simplify v)) /\
  (capacity_ok v -> capacity_ok (flatview_simplify v)) /\
  forall a, view_lookup (fv_ranges (flatview_simplify v)) a = view_lookup (fv_ranges v) a.
Proof.
  intros Hv.
  destruct (simplify_outer_spec (length (fv_ranges v)) [] (fv_ranges v) 0 hi)
    as (l' & E & H1 & H2 & H3 & _ & H4); [lia|done|].
  unfold flatview_simplify, capacity_ok, fv_nr. cbn [fv_ranges fv_nr_allocated].
  cbn [app length] in E. rewrite E. split_and!; [done|done|lia|done].
Qed.
