(* ===== verification/FlatViewRefine.v ===== *)
(** * The memory core on the 128-bit struct

    The theorems of [FlatViewFacts] are about the renderer over the
    mathematical integers.  Here the renderer at the struct instance, which is
    the code of [memory.c], is shown to compute exactly the same view as long
    as the nesting of the region tree keeps every intermediate base address
    within 128 bits. *)

From stdpp Require Import base list numbers.
From S2P Require Import Prelude Int128 FlatView FlatViewFacts.

(** ** Change of representation *)

Section Map.
Context {A B : Type} (f : A -> B).

Definition ar_map (r : AddrRange A) : AddrRange B :=
  addrrange_make (f (start r)) (f (size r)).

Definition fr_map (r : FlatRange A) : FlatRange B :=
  mkFR (fr_mr r) (fr_offset_in_region r) (ar_map (fr_addr r)) (fr_dirty_log_mask r)
    (fr_romd_mode r) (fr_readonly r).

Definition fv_map (v : FlatView A) : FlatView B :=
  mkFV (fv_ref v) (fr_map <$> fv_ranges v) (fv_nr_allocated v).

Definition info_map (i : MRInfo A) : MRInfo B :=
  {| mr_id := mr_id i; mr_addr := mr_addr i; mr_size := f (mr_size i);
     mr_enabled := mr_enabled i; mr_readonly := mr_readonly i;
     mr_terminates := mr_terminates i; mr_romd_mode := mr_romd_mode i;
     mr_dirty_log_mask := mr_dirty_log_mask i; mr_alias_offset := mr_alias_offset i;
     mr_priority := mr_priority i; mr_may_overlap := mr_may_overlap i |}.

Fixpoint mr_map (mr : MemoryRegion A) : MemoryRegion B :=
  let 'MR info alias subs := mr in
  MR (info_map info)
     (match alias with Some al => Some (mr_map al) | None => None end)
     ((fix go (l : list (MemoryRegion A)) :=
         match l with [] => [] | m :: l => mr_map m :: go l end) subs).

Lemma mr_map_eq info alias subs :
  mr_map (MR info alias subs) = MR (info_map info) (mr_map <$> alias) (mr_map <$> subs).
Proof.
  cbn [mr_map].
  assert (forall l, (fix go (l : list (MemoryRegion A)) :=
            match l with [] => [] | m :: l => mr_map m :: go l end) l = mr_map <$> l) as ->.
  { intros l. induction l as [|m l IH]; [done|]. cbn. by rewrite IH. }
  by destruct alias.
Qed.

Lemma mr_addr_map mr : mr_addr (mr_info (mr_map mr)) = mr_addr (mr_info mr).
Proof. by destruct mr. Qed.

Definition loop_map (s : FlatView A * nat * A * Z * A) : FlatView B * nat * B * Z * B :=
  let '(v, i, b, o, m) := s in (fv_map v, i, f b, o, f m).

Lemma flatview_insert_map v pos r :
  flatview_insert (fv_map v) pos (fr_map r) = fv_map (flatview_insert v pos r).
Proof.
  unfold flatview_insert, fv_map, fv_nr. cbn [fv_ranges fv_ref fv_nr_allocated].
  rewrite length_fmap, !fmap_app, fmap_take, fmap_drop. done.
Qed.
End Map.

Abbreviation I := Int128.of_Z.
Abbreviation in128 z := (- 2 ^ 127 <= z < 2 ^ 127).

(** The operations of the struct on representations, as rewrite rules. *)
Create Rewrite HintDb i128.
#[export] Hint Rewrite agree_add agree_sub agree_ge agree_eq agree_nz agree_lt agree_min
  agree_max agree_get64 using lia : i128.
#[export] Hint Rewrite (agree_make64 : forall a, @i_make64 _ Int128_struct a = _) : i128.

(** ** The gap-filling loop *)

Definition bounded (r : FlatRange Z) : Prop :=
  0 <= fr_lo r <= 2 ^ 64 /\ 0 <= size (fr_addr r) <= 2 ^ 64.

Lemma addrrange_end_map r :
  in128 (start r) -> in128 (size r) -> in128 (start r + size r) ->
  addrrange_end (ar_map I r) = I (addrrange_end r).
Proof. intros. unfold addrrange_end, ar_map. cbn [start size]. by rewrite agree_add. Qed.

Lemma bounded_get v i r :
  Forall bounded (fv_ranges v) -> aget (fv_ranges v) i = Ok r -> bounded r.
Proof.
  intros Hv E. apply aget_Ok in E as [_ E]. by eapply Forall_lookup_1.
Qed.

Lemma bounded_insert v pos r :
  Forall bounded (fv_ranges v) -> bounded r -> Forall bounded (fv_ranges (flatview_insert v pos r)).
Proof.
  intros Hv Hr. cbn [flatview_insert fv_ranges]. apply Forall_app. split; [by apply Forall_take|].
  constructor; [done|by apply Forall_drop].
Qed.

(** One turn of the loop after the optional insertion: skip what the range
    at [i] hides and go on. *)
Definition render_skip {T} `{Int128Ops T} n (fr : FlatRange T)
  (s : FlatView T * nat * T * Z * T) : res (FlatView T * nat * T * Z * T) :=
  let '(v, i, base, off, remain) := s in
  let* ri := aget (fv_ranges v) (Z.of_nat i) in
  let now := i_sub (i_min (i_add base remain) (addrrange_end (fr_addr ri))) base in
  let* n64 := i_get64 now in
  render_loop n v (S i) fr (i_add base now) (u64 (off + n64)) (i_sub remain now).

Definition render_gap {T} `{Int128Ops T} (v : FlatView T) i (fr : FlatRange T)
  (ri : FlatRange T) base off remain : res (FlatView T * nat * T * Z * T) :=
  let now := i_min remain (i_sub (start (fr_addr ri)) base) in
  let* n64 := i_get64 now in
  Ok (flatview_insert v i (mkFR (fr_mr fr) off (addrrange_make base now)
        (fr_dirty_log_mask fr) (fr_romd_mode fr) (fr_readonly fr)),
      S i, i_add base now, u64 (off + n64), i_sub remain now).

Lemma render_loop_S {T} `{Int128Ops T} n v i (fr : FlatRange T) base off remain :
  render_loop (S n) v i fr base off remain =
  if negb (i_nz remain) then Ok (v, i, base, off, remain) else
  let* ri := aget (fv_ranges v) (Z.of_nat i) in
  if i_ge base (addrrange_end (fr_addr ri)) then render_loop n v (S i) fr base off remain
  else
    let* s := if i_lt base (start (fr_addr ri)) then render_gap v i fr ri base off remain
              else Ok (v, i, base, off, remain) in
    render_skip n fr s.
Proof.
  cbn [render_loop]. destruct (negb _); [done|]. destruct (aget _ _); [|done]. cbn [res_bind].
  destruct (i_ge _ _); [done|]. destruct (i_lt _ _); [|done].
  unfold render_gap. by destruct (i_get64 _).
Qed.

(** The loop's state while it runs. *)
Definition loop_ok (s : FlatView Z * nat * Z * Z * Z) : Prop :=
  let '(v, _, base, _, remain) := s in
  Forall bounded (fv_ranges v) /\ 0 <= base /\ 0 <= remain /\ base + remain <= 2 ^ 64.

Lemma render_gap_refines v i fr r base off remain :
  loop_ok (v, i, base, off, remain) -> bounded r -> base < fr_lo r ->
  render_gap (fv_map I v) i (fr_map I fr) (fr_map I r) (I base) off (I remain) =
  res_map (loop_map I) (render_gap v i fr r base off remain) /\
  forall s, render_gap v i fr r base off remain = Ok s -> loop_ok s.
Proof.
  intros (Hv & H1 & H2 & H3) [Hr1 Hr2] Hlt. unfold fr_lo in *. unfold render_gap.
  cbn [fr_map fr_addr ar_map start].
  rewrite agree_sub, agree_min by (cbn; lia).
  set (now := i_min remain (i_sub (start (fr_addr r)) base)).
  assert (0 <= now <= remain) as Hn by (unfold now; rewrite Z_min_spec; cbn; lia).
  rewrite agree_get64 by lia. split.
  - destruct (i_get64 now); [|done]. cbn [res_bind res_map loop_map].
    rewrite agree_add, agree_sub by lia. rewrite <- flatview_insert_map. done.
  - intros s E. apply bind_Ok in E as (x & _ & [= <-]). cbn [loop_ok].
    split_and!; [|cbn; lia..]. apply bounded_insert; [done|].
    unfold bounded, fr_lo. cbn. lia.
Qed.

Lemma render_loop_refines n : forall v i fr base off remain,
  loop_ok (v, i, base, off, remain) ->
  render_loop n (fv_map I v) i (fr_map I fr) (I base) off (I remain) =
  res_map (loop_map I) (render_loop n v i fr base off remain).
Proof.
  induction n as [|n IH]; intros v i fr base off remain Hok; [done|].
  assert (forall s, loop_ok s ->
    render_skip n (fr_map I fr) (loop_map I s) = res_map (loop_map I) (render_skip n fr s)) as Hskip.
  { intros [[[[v1 i1] b1] o1] m1] (Hv & H1 & H2 & H3). cbn [loop_map render_skip fv_map fv_ranges].
    rewrite aget_fmap. destruct (aget (fv_ranges v1) (Z.of_nat i1)) as [r|] eqn:Er; [|done].
    destruct (bounded_get _ _ _ Hv Er) as [Hr1 Hr2]. unfold fr_lo in *.
    cbn [res_map res_bind fr_map fr_addr]. rewrite addrrange_end_map by lia.
    assert (in128 (addrrange_end (fr_addr r))) by (unfold addrrange_end; cbn; lia).
    rewrite agree_add, agree_min, agree_sub by (rewrite ?Z_min_spec; unfold addrrange_end; cbn; lia).
    set (now := i_sub (i_min (i_add b1 m1) (addrrange_end (fr_addr r))) b1).
    assert (now <= m1) by (unfold now; rewrite Z_min_spec; cbn; lia).
    rewrite agree_get64
      by (unfold now; rewrite Z_min_spec; unfold addrrange_end; cbn; lia).
    destruct (i_get64 now) eqn:E64; [|done]. clearbody now.
    apply Z_get64_inv in E64 as [-> ?]. cbn [res_bind].
    rewrite agree_add, agree_sub by lia. rewrite <- IH; [done|].
    split_and!; [done|cbn; lia..]. }
  destruct Hok as (Hv & H1 & H2 & H3). rewrite !render_loop_S.
  rewrite agree_nz by lia. destruct (negb (i_nz remain)); [done|].
  cbn [fv_map fv_ranges]. rewrite aget_fmap.
  destruct (aget (fv_ranges v) (Z.of_nat i)) as [r|] eqn:Er; [|done]. cbn [res_map res_bind].
  pose proof (bounded_get _ _ _ Hv Er) as Hb. pose proof Hb as [Hr1 Hr2]. unfold fr_lo in *.
  change (fr_addr (fr_map I r)) with (ar_map I (fr_addr r)).
  rewrite addrrange_end_map, agree_ge by (unfold addrrange_end; cbn; lia).
  destruct (i_ge base _); [by apply IH|].
  change (start (ar_map I (fr_addr r))) with (I (start (fr_addr r))).
  rewrite agree_lt by lia. rewrite Z_lt_spec.
  destruct (Z.ltb_spec base (start (fr_addr r))) as [Hlt|].
  - destruct (render_gap_refines v i fr r base off remain) as [E Hg]; [done..|].
    change (mkFV _ _ _) with (fv_map I v). rewrite E.
    destruct (render_gap v i fr r base off remain); [|done]. cbn. apply Hskip. by apply Hg.
  - cbn [res_bind]. apply (Hskip (v, i, base, off, remain)). done.
Qed.

Lemma render_loop_ok n : forall v i fr base off remain s,
  loop_ok (v, i, base, off, remain) -> render_loop n v i fr base off remain = Ok s -> loop_ok s.
Proof.
  induction n as [|n IH]; intros v i fr base off remain s Hok E; [by injection E as <-|].
  rewrite render_loop_S in E. destruct (negb (i_nz remain)); [by injection E as <-|].
  apply bind_Ok in E as (r & Er & E). destruct (i_ge base _); [by apply (IH v (S i) fr base off remain)|].
  pose proof (bounded_get _ _ _ (proj1 Hok) Er) as Hb.
  apply bind_Ok in E as ([[[[v1 i1] b1] o1] m1] & Eg & E).
  assert (loop_ok (v1, i1, b1, o1, m1)) as (Hv1 & H1 & H2 & H3).
  { rewrite Z_lt_spec in Eg. destruct (Z.ltb_spec base (start (fr_addr r))).
    - destruct (render_gap_refines v i fr r base off remain) as [_ Hg]; [done..|]. by apply Hg.
    - by injection Eg as <- <- <- <- <-. }
  cbn [render_skip] in E. apply bind_Ok in E as (r1 & _ & E). apply bind_Ok in E as (x & Ex & E).
  apply Z_get64_inv in Ex as [-> Hx]. eapply IH; [|exact E].
  rewrite Z_min_spec in *. cbn in *. split_and!; [done|lia..].
Qed.

(** ** The renderer *)

Lemma render_self_refines v info base clip ro :
  Forall bounded (fv_ranges v) -> 0 <= start clip -> 0 <= size clip ->
  start clip + size clip <= 2 ^ 64 -> in128 base -> in128 (start clip - base) ->
  render_self (fv_map I v) (info_map I info) (I base) (ar_map I clip) ro =
  res_map (fv_map I) (render_self v info base clip ro).
Proof.
  intros Hv H1 H2 H3 H4 H5. unfold render_self.
  cbn [ar_map start size]. rewrite agree_sub, agree_get64 by (cbn; lia).
  destruct (i_get64 (i_sub (start clip) base)) as [off|]; [|done]. cbn [res_bind].
  cbn [fv_map fv_ranges]. rewrite length_fmap. change (mkFV _ _ _) with (fv_map I v).
  change (mkFR (mr_id (info_map I info)) off _ _ _ ro)
    with (fr_map I (mkFR (mr_id info) off clip (mr_dirty_log_mask info) (mr_romd_mode info) ro)).
  set (fr := mkFR _ _ _ _ _ _).
  rewrite (render_loop_refines _ v 0 fr (start clip) off (size clip)) by done.
  destruct (render_loop _ v 0 fr _ _ _) as [[[[[v' i'] b'] o'] m']|] eqn:E; [|done].
  apply render_loop_ok in E as (_ & ? & ? & ?); [|done].
  cbn [res_map res_bind loop_map]. rewrite agree_nz by lia.
  destruct (i_nz m'); [|done]. cbn [res_map]. rewrite <- flatview_insert_map. done.
Qed.

(** Nesting of a region tree. *)
Fixpoint depth (mr : MemoryRegion Z) : Z :=
  let 'MR _ alias subs := mr in
  1 + Z.max (match alias with Some al => depth al | None => 0 end)
        ((fix go (l : list (MemoryRegion Z)) : Z :=
            match l with [] => 0 | m :: l => Z.max (depth m) (go l) end) subs).

(** The widest base address at a given nesting stays within 128 bits. *)
Definition base_fits (mr : MemoryRegion Z) (base : Z) : Prop :=
  Z.abs base + depth mr * 2 ^ 66 < 2 ^ 120.

Lemma depth_nonneg mr : 0 <= depth mr.
Proof.
  induction mr as [info alias subs IHa _] using MemoryRegion_tree_ind. cbn.
  destruct alias as [al|]; [specialize (IHa al eq_refl)|]; lia.
Qed.

Lemma depth_alias info al subs : depth al < depth (MR info (Some al) subs).
Proof. cbn. lia. Qed.

Lemma depth_sub info subs m : m ∈ subs -> depth m < depth (MR info None subs).
Proof.
  cbn. induction 1 as [m l|m m' l _ IH]; cbn; [lia|]. lia.
Qed.

Lemma view_ok_bounded lo l hi : 0 <= lo -> hi <= 2 ^ 64 -> view_ok lo l hi -> Forall bounded l.
Proof.
  revert lo. induction l as [|r l IH]; intros lo Hlo Hhi; cbn; [constructor|].
  intros (?&?&?&?&Hv). pose proof (view_ok_le _ _ _ Hv).
  constructor; [unfold bounded, fr_hi, fr_lo in *; lia|].
  eapply IH; [|done|exact Hv]. unfold fr_hi, fr_lo in *. lia.
Qed.

Definition refined (mr : MemoryRegion Z) : Prop :=
  forall v base clip ro,
    region_ok mr -> base_fits mr base -> view_ok 0 (fv_ranges v) (2 ^ 64) -> capacity_ok v ->
    0 <= start clip -> 0 <= size clip -> start clip + size clip <= 2 ^ 64 ->
    render_memory_region (fv_map I v) (mr_map I mr) (I base) (ar_map I clip) ro =
    res_map (fv_map I) (render_memory_region v mr base clip ro).

Lemma render_subregions_refines subs : Forall refined subs ->
  forall v base clip ro,
    Forall region_ok subs -> Forall (fun m => base_fits m base) subs ->
    view_ok 0 (fv_ranges v) (2 ^ 64) -> capacity_ok v ->
    0 <= start clip -> 0 <= size clip -> start clip + size clip <= 2 ^ 64 ->
    render_subregions (mr_map I <$> subs) (fv_map I v) (I base) (ar_map I clip) ro =
    res_map (fv_map I) (render_subregions subs v base clip ro).
Proof.
  induction 1 as [|m subs Hm _ IH]; intros v base clip ro Hok Hf Hv Hc H1 H2 H3; [done|].
  inversion Hok; inversion Hf; subst. cbn [fmap list_fmap render_subregions].
  rewrite Hm by done.
  destruct (render_spec (2 ^ 64) m v base clip ro) as (v1 & E1 & Hc1 & Hv1 & _); [done..|].
  rewrite E1. cbn [res_map res_bind]. by apply IH.
Qed.

Lemma intersects_refines r1 r2 :
  in128 (start r1) -> in128 (size r1) -> in128 (start r1 + size r1) ->
  in128 (start r2) -> in128 (size r2) -> in128 (start r2 + size r2) ->
  addrrange_intersects (ar_map I r1) (ar_map I r2) = addrrange_intersects r1 r2 /\
  (in128 (size (addrrange_intersection r1 r2)) ->
   addrrange_intersection (ar_map I r1) (ar_map I r2)
   = ar_map I (addrrange_intersection r1 r2)).
Proof.
  intros. unfold addrrange_intersects, addrrange_contains, addrrange_intersection.
  rewrite !addrrange_end_map by lia. unfold addrrange_end. cbn [ar_map start size].
  rewrite !agree_ge, !agree_lt by (cbn; lia). split; [done|].
  rewrite agree_max, agree_min by (cbn; lia). intros Hs.
  unfold ar_map. cbn [start size]. f_equal.
  apply agree_sub; [| |exact Hs]; rewrite ?Z_max_spec, ?Z_min_spec; cbn; lia.
Qed.

Lemma region_ok_subs subs :
  (fix all (l : list (MemoryRegion Z)) : Prop :=
     match l with [] => True | m :: l => region_ok m /\ all l end) subs <-> Forall region_ok subs.
Proof.
  induction subs as [|m subs IH]; [done|]. rewrite Forall_cons_iff, <- IH. done.
Qed.

Lemma base_fits_sub info subs base base' :
  base_fits (MR info None subs) base -> Z.abs base' <= Z.abs base + 2 ^ 65 ->
  Forall (fun m => base_fits m base') subs.
Proof.
  intros Hf Hb. apply Forall_forall. intros m Hm. apply list_elem_of_In in Hm.
  pose proof (depth_sub info subs m Hm). unfold base_fits in *. lia.
Qed.

Lemma render_refines mr : refined mr.
Proof.
  induction mr as [info alias subs IHa IHs] using MemoryRegion_tree_ind.
  intros v base clip ro Hok Hf Hv Hc H1 H2 H3. rewrite mr_map_eq, !render_eq.
  cbn [region_ok] in Hok. destruct Hok as (Ha & Hao & Hsz & Hok).
  pose proof (depth_nonneg (MR info alias subs)) as Hd.
  assert (Z.abs base < 2 ^ 120) by (unfold base_fits in Hf; lia).
  cbn [info_map mr_enabled]. destruct (negb (mr_enabled info)); [done|]. cbn zeta.
  cbn [info_map mr_addr mr_size mr_readonly mr_terminates mr_alias_offset].
  rewrite agree_make64. cbn [i_make64 Z_ideal].
  rewrite (uwrap_small 64 (mr_addr info)), agree_add by lia.
  change (i_add base (mr_addr info)) with (base + mr_addr info).
  set (base1 := base + mr_addr info) in *.
  change (addrrange_make (I base1) (I (mr_size info)))
    with (ar_map I (addrrange_make base1 (mr_size info))).
  set (tmp := addrrange_make base1 (mr_size info)).
  destruct (intersects_refines tmp clip) as [E1 E2]; [cbn; lia..|]. rewrite E1.
  pose proof (addrrange_intersects_spec tmp clip ltac:(cbn; lia) H2) as Hint.
  destruct (addrrange_intersects tmp clip); cbn [negb]; [|done].
  assert (0 <= start (addrrange_intersection tmp clip) /\
    start (addrrange_intersection tmp clip) + size (addrrange_intersection tmp clip) <= 2 ^ 64)
    as [B1 B2].
  { unfold addrrange_intersection, addrrange_end. rewrite Z_max_spec, Z_min_spec. cbn. lia. }
  rewrite E2 by lia. set (clip' := addrrange_intersection tmp clip) in *.
  destruct alias as [al|]; cbn [fmap option_fmap option_map].
  - rewrite mr_addr_map, !agree_make64. cbn [i_make64 Z_ideal].
    assert (0 <= mr_addr (mr_info al) < 2 ^ 64) by (destruct al; cbn in Hok |- *; tauto).
    rewrite !(uwrap_small 64), !agree_sub by (cbn; lia).
    pose proof (depth_alias info al subs). apply (IHa al eq_refl); try done.
    unfold base_fits in *. cbn; lia.
  - destruct Hok as [Ht Hall]. pose proof Hall as Hall'. apply region_ok_subs in Hall'.
    rewrite render_subregions_refines; try done.
    2: { eapply base_fits_sub; [exact Hf|]. lia. }
    destruct (render_subregions_spec (2 ^ 64) subs) with (v := v) (base := base1)
      (clip := clip') (ro := ro || mr_readonly info) as (v1 & Er & Hc1 & Hv1 & _);
      try done; [apply Forall_forall; intros; apply render_spec|].
    rewrite Er. cbn [res_map res_bind]. destruct (negb (mr_terminates info)); [done|].
    change (Build_MRInfo _ _ _ _ _ _ _ _ _ _ _ _) with (info_map I info).
    apply render_self_refines; try done; try lia.
    by apply (view_ok_bounded 0 _ (2 ^ 64)).
Qed.

(** ** Simplification *)

Lemma can_merge_refines r1 r2 :
  bounded r1 -> bounded r2 -> offsets_ok r1 -> offsets_ok r2 ->
  can_merge (fr_map I r1) (fr_map I r2) = can_merge r1 r2.
Proof.
  intros [? ?] [? ?] (?&?&?) (?&?&?). unfold fr_lo in *. unfold can_merge.
  cbn [fr_map fr_addr fr_mr fr_offset_in_region fr_dirty_log_mask fr_romd_mode fr_readonly].
  rewrite !agree_make64, addrrange_end_map by lia.
  cbn [i_make64 Z_ideal ar_map start size]. rewrite !(uwrap_small 64) by lia.
  rewrite agree_add, !agree_eq by (unfold addrrange_end; cbn; lia). done.
Qed.

Lemma simplify_inner_refines fuel : forall pre acc mid rest rp lo,
  (pre ++ acc :: mid ++ rest) !! (length pre + length mid)%nat = Some rp ->
  0 <= lo -> view_ok lo (acc :: rest) (2 ^ 64) -> bounded rp -> offsets_ok rp -> same_end rp acc ->
  simplify_inner fuel (fr_map I <$> (pre ++ acc :: mid ++ rest)) (length pre)
    (length pre + S (length mid)) =
  (fun p => (fr_map I <$> fst p, snd p))
    (simplify_inner fuel (pre ++ acc :: mid ++ rest) (length pre) (length pre + S (length mid))).
Proof.
  induction fuel as [|fuel IH]; intros pre acc mid rest rp lo Hrp Hlo Hv Hb Ho He; [done|].
  cbn [simplify_inner].
  replace (length pre + S (length mid) - 1)%nat with (length pre + length mid)%nat by lia.
  rewrite !list_lookup_fmap, Hrp. cbn [fmap option_fmap option_map].
  rewrite (list_lookup_middle pre (mid ++ rest) acc (length pre)) by done. cbn [fmap option_fmap option_map].
  destruct rest as [|r rest].
  { rewrite app_nil_r, (lookup_ge_None_2 _ (length pre + S (length mid)))
      by (rewrite length_app; cbn; lia). done. }
  rewrite (lookup_after pre mid rest acc r). cbn [fmap option_fmap option_map].
  pose proof (view_ok_bounded lo _ (2 ^ 64) Hlo ltac:(lia) Hv) as Hbs.
  inversion Hbs as [|?? Hba Hbr]; subst. inversion Hbr as [|?? Hbr0 _]; subst.
  assert (offsets_ok acc /\ offsets_ok r) as [Hoa Hor] by (cbn in Hv; unfold offsets_ok; tauto).
  rewrite can_merge_refines by done.
  rewrite (can_merge_same_end rp acc) by done.
  destruct (can_merge acc r) eqn:Hm; [|done].
  destruct (merged_spec lo acc r rest (2 ^ 64) 0 Hv Hm) as (Hv' & He' & _).
  assert (fr_set_size (fr_map I acc)
            (i_add (size (fr_addr (fr_map I acc))) (size (fr_addr (fr_map I r))))
          = fr_map I (merged acc r)) as ->.
  { unfold merged. cbn [fr_map fr_addr ar_map size].
    destruct Hba, Hbr0. rewrite agree_add by lia. done. }
  fold (merged acc r). rewrite <- list_fmap_insert, insert_app_r_alt, Nat.sub_diag by lia.
  cbn [insert list_insert].
  specialize (IH pre (merged acc r) (mid ++ [r]) rest r lo).
  rewrite <- !app_assoc, length_app in IH. cbn [app length] in IH.
  replace (S (length pre + S (length mid)))
    with (length pre + S (length mid + 1))%nat by lia.
  apply IH; try done. rewrite Nat.add_1_r. apply lookup_after.
Qed.

Lemma simplify_outer_refines fuel : forall pre l lo,
  0 <= lo -> view_ok lo l (2 ^ 64) ->
  simplify_outer fuel (fr_map I <$> (pre ++ l)) (length pre) =
  fr_map I <$> simplify_outer fuel (pre ++ l) (length pre).
Proof.
  induction fuel as [|fuel IH]; intros pre l lo Hlo Hv; [done|].
  cbn [simplify_outer]. rewrite length_fmap.
  destruct l as [|r rest].
  { rewrite app_nil_r, (proj2 (Nat.ltb_ge _ _)) by lia. done. }
  rewrite (proj2 (Nat.ltb_lt _ _)) by (rewrite length_app; cbn; lia).
  assert (offsets_ok r) as Hr by (cbn in Hv; unfold offsets_ok; tauto).
  pose proof (view_ok_bounded lo _ (2 ^ 64) Hlo ltac:(lia) Hv) as Hbs. inversion Hbs; subst.
  pose proof (simplify_inner_refines (length (pre ++ r :: rest)) pre r [] rest r lo) as E.
  cbn [app length] in E. replace (length pre + 1)%nat with (S (length pre)) in E by lia.
  rewrite E; try done; [|by rewrite Nat.add_0_r; apply list_lookup_middle].
  destruct (simplify_inner_absorb (length (pre ++ r :: rest)) pre r [] rest r) as (mid & E1 & E2).
  { rewrite length_app. cbn. lia. }
  { rewrite Nat.add_0_r. by apply list_lookup_middle. }
  cbn [app length] in E1, E2.
  replace (length pre + 1)%nat with (S (length pre)) in E2 by lia. rewrite E2. cbn [fst snd].
  pose proof (absorb_spec rest lo r r (2 ^ 64) Hv Hr ltac:(done)) as Ha.
  destruct (absorb r r rest) as [acc' rest']. cbn [fst snd] in *. subst rest.
  destruct Ha as (Hv' & _).
  rewrite <- fmap_take, <- fmap_drop, <- fmap_app.
  replace (take (S (length pre)) (pre ++ acc' :: mid ++ rest')) with (pre ++ [acc'])
    by (rewrite take_app, firstn_all2, Nat.sub_succ_l, Nat.sub_diag by lia; done).
  replace (drop (length pre + S (length mid)) (pre ++ acc' :: mid ++ rest')) with rest'
    by (rewrite drop_app_add; cbn; by rewrite drop_app_length).
  replace (S (length pre)) with (length (pre ++ [acc'])) by (rewrite length_app; cbn; lia).
  cbn in Hv'. destruct Hv' as (?&?&?&?&Hv'). apply (IH (pre ++ [acc']) rest' (fr_hi acc')); [|done].
  unfold fr_hi, fr_lo in *. lia.
Qed.

Lemma flatview_simplify_refines v :
  view_ok 0 (fv_ranges v) (2 ^ 64) ->
  flatview_simplify (fv_map I v) = fv_map I (flatview_simplify v).
Proof.
  intros Hv. unfold flatview_simplify, fv_map. cbn [fv_ranges fv_ref fv_nr_allocated].
  rewrite length_fmap. f_equal.
  by apply (simplify_outer_refines _ [] (fv_ranges v) 0).
Qed.

(** ** Claims *)

Definition empty_view : FlatView Z := flatview_init.

Lemma empty_view_capacity : capacity_ok empty_view.
Proof. unfold capacity_ok, fv_nr. reflexivity. Qed.

(** Rendering a region tree with [render_memory_region] on the 128-bit
    struct, into a view that already maps some ranges, ends without an
    assertion failure; the view stays sorted, disjoint and within its
    allocation; and every address is mapped to what the view mapped it to
    before, or else (inside the clip) to what the priority rules of the
    region tree resolve it to. *)
Theorem render_memory_region_correct mr v base clip ro :
  region_ok mr -> base_fits mr base -> view_ok 0 (fv_ranges v) (2 ^ 64) -> capacity_ok v ->
  0 <= start clip -> 0 <= size clip -> start clip + size clip <= 2 ^ 64 ->
  exists v',
    render_memory_region (fv_map I v) (mr_map I mr) (I base) (ar_map I clip) ro
      = Ok (fv_map I v') /\
    view_ok 0 (fv_ranges v') (2 ^ 64) /\ capacity_ok v' /\
    forall a, view_lookup (fv_ranges v') a =
      match view_lookup (fv_ranges v) a with
      | Some t => Some t
      | None => if in_range clip a then resolve mr base ro a else None
      end.
Proof.
  intros Hr Hf Hv Hc H1 H2 H3.
  destruct (render_spec (2 ^ 64) mr v base clip ro) as (v' & E & Hc' & Hv' & X); [done..|].
  exists v'. rewrite render_refines, E by done. done.
Qed.

(** C21: [flatview_simplify] never changes what a flat view maps: the merged
    view is sorted and disjoint, routes every address as before, and no two
    neighbours in it could be merged further. *)
Theorem flatview_simplify_correct v :
  view_ok 0 (fv_ranges v) (2 ^ 64) ->
  exists v', flatview_simplify (fv_map I v) = fv_map I v' /\
    view_ok 0 (fv_ranges v') (2 ^ 64) /\ compact (fv_ranges v') /\
    forall a, view_lookup (fv_ranges v') a = view_lookup (fv_ranges v) a.
Proof.
  intros Hv. exists (flatview_simplify v). split; [by apply flatview_simplify_refines|].
  destruct (flatview_simplify_spec v (2 ^ 64) Hv) as (?&?&?&?). done.
Qed.

(** Rendering and merging, on the struct. *)
Lemma generate_topology_spec mr :
  region_ok mr -> depth mr < 2 ^ 50 ->
  exists v, generate_memory_topology (Some (mr_map I mr)) = Ok (fv_map I v) /\
    view_ok 0 (fv_ranges v) (2 ^ 64) /\ compact (fv_ranges v) /\ capacity_ok v /\
    forall a, 0 <= a < 2 ^ 64 -> view_lookup (fv_ranges v) a = resolve mr 0 false a.
Proof.
  intros Hr Hd. set (clip := addrrange_make 0 (2 ^ 64)).
  destruct (render_spec (2 ^ 64) mr empty_view 0 clip false) as (v & E & Hc & Hv & X);
    [done|cbn; lia|apply empty_view_capacity|cbn; lia..|].
  exists (flatview_simplify v).
  destruct (flatview_simplify_spec v (2 ^ 64) Hv) as (S1 & S2 & S3 & S4).
  split_and!; [|done|done|by apply S3|].
  - unfold generate_memory_topology.
    pose proof (render_refines mr empty_view 0 clip false) as R. rewrite E in R.
    change (@flatview_init Int128.Int128) with (fv_map I empty_view).
    change (addrrange_make (@i_zero Int128.Int128 _) i_2_64) with (ar_map I clip).
    change (@i_zero Int128.Int128 _) with (I 0).
    rewrite R; [|done|unfold base_fits; lia|cbn; lia|apply empty_view_capacity|cbn; lia..].
    cbn [res_map res_bind]. by rewrite flatview_simplify_refines.
  - intros a Ha. rewrite S4, X. cbn [view_lookup empty_view flatview_init fv_ranges].
    unfold clipped, in_range. cbn [start size clip].
    rewrite (proj2 (Z.leb_le 0 a)), (proj2 (Z.ltb_lt a (0 + 2 ^ 64))) by lia. done.
Qed.

(** C26: [generate_memory_topology] is total on well-formed region trees of
    bounded nesting and its flat view is the region tree: an address below
    [2^64] is in the view exactly when the tree resolves it, with the same
    region, offset and attributes. *)
Theorem generate_memory_topology_correct mr :
  region_ok mr -> depth mr < 2 ^ 50 ->
  exists v, generate_memory_topology (Some (mr_map I mr)) = Ok (fv_map I v) /\
    view_ok 0 (fv_ranges v) (2 ^ 64) /\ compact (fv_ranges v) /\ capacity_ok v /\
    forall a, 0 <= a < 2 ^ 64 -> view_lookup (fv_ranges v) a = resolve mr 0 false a.
Proof. apply generate_topology_spec. Qed.

(** ** Witnesses *)

Definition sample_info (id addr size : Z) (terminates : bool) (alias_offset : Z) : MRInfo Z :=
  {| mr_id := id; mr_addr := addr; mr_size := size; mr_enabled := true; mr_readonly := false;
     mr_terminates := terminates; mr_romd_mode := false; mr_dirty_log_mask := 0;
     mr_alias_offset := alias_offset; mr_priority := 0; mr_may_overlap := false |}.

Definition sample_ram : MemoryRegion Z := MR (sample_info 2 0 0x4000 true 0) None [].

(** A device over RAM, and an alias of part of the RAM further up. *)
Definition sample_tree : MemoryRegion Z :=
  MR (sample_info 0 0 (2 ^ 64) false 0) None
    [MR (sample_info 1 0x1000 0x100 true 0) None []; sample_ram;
     MR (sample_info 3 0x8000 0x200 false 0x80) (Some sample_ram) []].

Lemma sample_tree_ok : region_ok sample_tree.
Proof. cbn. repeat split; lia. Qed.

Lemma generate_memory_topology_witness :
  exists v, generate_memory_topology (Some (mr_map I sample_tree)) = Ok (fv_map I v) /\
    view_lookup (fv_ranges v) 0x1004 = Some (mkT 1 4 0 false false) /\
    view_lookup (fv_ranges v) 0x8010 = Some (mkT 2 0x90 0 false false) /\
    view_lookup (fv_ranges v) 0x9000 = None.
Proof.
  destruct (generate_memory_topology_correct sample_tree sample_tree_ok ltac:(cbn; lia))
    as (v & E & _ & _ & _ & L).
  exists v. split; [exact E|]. rewrite !L by lia. repeat split.
Defined.

Lemma render_memory_region_witness :
  exists v', render_memory_region (fv_map I empty_view) (mr_map I sample_tree) (I 0)
               (ar_map I (addrrange_make 0 0x3000)) false = Ok (fv_map I v') /\
    view_lookup (fv_ranges v') 0x2fff = Some (mkT 2 0x2fff 0 false false) /\
    view_lookup (fv_ranges v') 0x3000 = None.
Proof.
  destruct (render_memory_region_correct sample_tree empty_view 0 (addrrange_make 0 0x3000) false
    sample_tree_ok ltac:(unfold base_fits; cbn; lia) ltac:(cbn; lia) empty_view_capacity
    ltac:(cbn; lia) ltac:(cbn; lia) ltac:(cbn; lia)) as (v' & E & _ & _ & L).
  exists v'. split; [exact E|]. rewrite !L. split; reflexivity.
Defined.

Definition sample_view : FlatView Z :=
  mkFV 1 [mkFR 7 0 (addrrange_make 0 0x100) 0 false false;
          mkFR 7 0x100 (addrrange_make 0x100 0x80) 0 false false;
          mkFR 8 0 (addrrange_make 0x200 0x100) 0 false false] 10.

Lemma flatview_simplify_witness :
  exists v', flatview_simplify (fv_map I sample_view) = fv_map I v' /\
    view_lookup (fv_ranges v') 0x17f = Some (mkT 7 0x17f 0 false false).
Proof.
  destruct (flatview_simplify_correct sample_view
    ltac:(cbn; unfold fr_hi, fr_lo; cbn; lia)) as (v' & E & _ & _ & L).
  exists v'. split; [exact E|]. rewrite L. reflexivity.
Defined.

(** ** A region of the full address space *)

Definition full_region (id : Z) : MemoryRegion Z := MR (sample_info id 0 (2 ^ 64) true 0) None [].

(** Rendering a terminating region of [2^64] bytes that another region
    hides completely stops with an assertion failure: the length of the
    hidden part, [2^64], does not fit [int128_get64]. *)
Theorem render_full_region_faults :
  generate_memory_topology
    (Some (mr_map I (MR (sample_info 0 0 (2 ^ 64) false 0) None [full_region 1; full_region 2])))
  = Err AssertFailed.
Proof. vm_compute. reflexivity. Qed.
