(* ===== verification/Topology.v ===== *)
(** * Region tree updates and listener notification ([memory.c])

    Inserting a subregion by priority, and reporting the difference between
    two flat views (and between two sets of ioeventfds) to the memory
    listeners. *)

From stdpp Require Import base list numbers gmap.
From S2P Require Import Prelude Int128 FlatView FlatViewFacts FlatViewRefine.

(** ** Subregions in priority order *)

Section Subregions.
Context {T : Type}.

Definition set_addr (i : MRInfo T) (addr priority : Z) (may_overlap : bool) : MRInfo T :=
  {| mr_id := mr_id i; mr_addr := addr; mr_size := mr_size i; mr_enabled := mr_enabled i;
     mr_readonly := mr_readonly i; mr_terminates := mr_terminates i;
     mr_romd_mode := mr_romd_mode i; mr_dirty_log_mask := mr_dirty_log_mask i;
     mr_alias_offset := mr_alias_offset i; mr_priority := priority;
     mr_may_overlap := may_overlap |}.

Definition prio (m : MemoryRegion T) : Z := mr_priority (mr_info m).

(** [QTAILQ_INSERT_BEFORE] the first subregion whose priority is not higher,
    at the tail if there is none. *)
Fixpoint insert_by_priority (subregion : MemoryRegion T) (l : list (MemoryRegion T))
  : list (MemoryRegion T) :=
  match l with
  | [] => [subregion]
  | other :: l' =>
      if prio other <=? prio subregion then subregion :: other :: l'
      else other :: insert_by_priority subregion l'
  end.

(** The region and the update-pending flag.  The overlap test of the C code
    has no effect (its report is compiled out). *)
Definition memory_region_add_subregion_common (mr : MemoryRegion T) (offset : Z)
  (subregion : MemoryRegion T) (update_pending : bool) : MemoryRegion T * bool :=
  let 'MR info alias subs := mr in
  let 'MR sinfo salias ssubs := subregion in
  let subregion := MR (set_addr sinfo offset (mr_priority sinfo) (mr_may_overlap sinfo)) salias ssubs in
  (MR info alias (insert_by_priority subregion subs),
   update_pending || (mr_enabled info && mr_enabled sinfo)).

Definition memory_region_add_subregion mr offset (subregion : MemoryRegion T) update_pending :=
  let 'MR sinfo salias ssubs := subregion in
  memory_region_add_subregion_common mr offset
    (MR (set_addr sinfo (mr_addr sinfo) 0 false) salias ssubs) update_pending.

Definition memory_region_add_subregion_overlap mr offset (subregion : MemoryRegion T)
  (priority : Z) update_pending :=
  let 'MR sinfo salias ssubs := subregion in
  memory_region_add_subregion_common mr offset
    (MR (set_addr sinfo (mr_addr sinfo) priority true) salias ssubs) update_pending.
End Subregions.

(** ** Listener events *)

Inductive ListenerDirection := Forward | Reverse.
Inductive callback := region_add | region_del | region_nop | log_start | log_stop.

Record MemoryRegionSection (T : Type) : Type := mkSec {
  sec_mr : Z;
  sec_offset_within_region : Z;
  sec_size : T;
  sec_offset_within_address_space : Z;
  sec_readonly : bool;
}.
Arguments mkSec {T} _ _ _ _ _.
Arguments sec_mr {T} m.
Arguments sec_offset_within_region {T} m.
Arguments sec_size {T} m.
Arguments sec_offset_within_address_space {T} m.
Arguments sec_readonly {T} m.

(** A callback made on every registered listener, in the given direction. *)
Definition Event (T : Type) : Type := ListenerDirection * callback * MemoryRegionSection T.

Section Pass.
Context {T : Type} `{Int128Ops T}.

Definition update_region (fr : FlatRange T) (d : ListenerDirection) (c : callback) : res (Event T) :=
  let* s := i_get64 (start (fr_addr fr)) in
  Ok (d, c, mkSec (fr_mr fr) (fr_offset_in_region fr) (size (fr_addr fr)) s (fr_readonly fr)).

(** The events for a range that is in both views. *)
Definition update_both (frold frnew : FlatRange T) : res (list (Event T)) :=
  let* e := update_region frnew Forward region_nop in
  if negb (fr_dirty_log_mask frold =? 0) && (fr_dirty_log_mask frnew =? 0) then
    let* e' := update_region frnew Reverse log_stop in Ok [e; e']
  else if negb (fr_dirty_log_mask frnew =? 0) && (fr_dirty_log_mask frold =? 0) then
    let* e' := update_region frnew Forward log_start in Ok [e; e']
  else Ok [e].

(** One pass over both views; the lists are what lies ahead of [iold] and
    [inew].  Each turn advances one of them. *)
Fixpoint address_space_update_topology_pass (fuel : nat) (old_view new_view : list (FlatRange T))
  (adding : bool) : res (list (Event T)) :=
  match fuel with
  | O => match old_view, new_view with [], [] => Ok [] | _, _ => Err OutOfFuel end
  | S fuel =>
      match old_view, new_view with
      | [], [] => Ok []
      | frold :: old', [] =>
          let* es := if adding then Ok [] else
                       let* e := update_region frold Reverse region_del in Ok [e] in
          let* rest := address_space_update_topology_pass fuel old' new_view adding in
          Ok (es ++ rest)
      | [], frnew :: new' =>
          let* es := if adding then
                       let* e := update_region frnew Forward region_add in Ok [e] else Ok [] in
          let* rest := address_space_update_topology_pass fuel old_view new' adding in
          Ok (es ++ rest)
      | frold :: old', frnew :: new' =>
          if i_lt (start (fr_addr frold)) (start (fr_addr frnew))
             || (i_eq (start (fr_addr frold)) (start (fr_addr frnew))
                 && negb (flatrange_equal frold frnew)) then
            let* es := if adding then Ok [] else
                         let* e := update_region frold Reverse region_del in Ok [e] in
            let* rest := address_space_update_topology_pass fuel old' new_view adding in
            Ok (es ++ rest)
          else if flatrange_equal frold frnew then
            let* es := if adding then update_both frold frnew else Ok [] in
            let* rest := address_space_update_topology_pass fuel old' new' adding in
            Ok (es ++ rest)
          else
            let* es := if adding then
                         let* e := update_region frnew Forward region_add in Ok [e] else Ok [] in
            let* rest := address_space_update_topology_pass fuel old_view new' adding in
            Ok (es ++ rest)
      end
  end.

(** The notifications of [address_space_update_topology]: the pass that
    deletes, then the pass that adds. *)
Definition topology_events (old_view new_view : list (FlatRange T))
  : res (list (Event T)) :=
  let fuel := (length old_view + length new_view)%nat in
  let* dels := address_space_update_topology_pass fuel old_view new_view false in
  let* adds := address_space_update_topology_pass fuel old_view new_view true in
  Ok (dels ++ adds).
End Pass.

(** ** Specification of the notifications *)

Definition event (fr : FlatRange Z) (d : ListenerDirection) (c : callback) : Event Z :=
  (d, c, mkSec (fr_mr fr) (fr_offset_in_region fr) (size (fr_addr fr)) (fr_lo fr) (fr_readonly fr)).

(** What is in the old view and not in the new one. *)
Definition dels_spec (old new : list (FlatRange Z)) : list (Event Z) :=
  flat_map (fun o => if existsb (flatrange_equal o) new then [] else [event o Reverse region_del]) old.

Definition both_spec (o n : FlatRange Z) : list (Event Z) :=
  event n Forward region_nop ::
  (if negb (fr_dirty_log_mask o =? 0) && (fr_dirty_log_mask n =? 0)
   then [event n Reverse log_stop]
   else if negb (fr_dirty_log_mask n =? 0) && (fr_dirty_log_mask o =? 0)
        then [event n Forward log_start] else []).

(** What is in the new view, with its relation to the old one. *)
Definition adds_spec (old new : list (FlatRange Z)) : list (Event Z) :=
  flat_map (fun n => match find (fun o => flatrange_equal o n) old with
                     | None => [event n Forward region_add]
                     | Some o => both_spec o n
                     end) new.

Lemma dels_spec_cons o old new :
  dels_spec (o :: old) new =
  (if existsb (flatrange_equal o) new then [] else [event o Reverse region_del])
  ++ dels_spec old new.
Proof. done. Qed.

Lemma adds_spec_cons old n new :
  adds_spec old (n :: new) =
  match find (fun o => flatrange_equal o n) old with
  | None => [event n Forward region_add]
  | Some o => both_spec o n
  end ++ adds_spec old new.
Proof. done. Qed.

(** Start addresses strictly increase and are 64-bit. *)
Fixpoint increasing (lo : Z) (l : list (FlatRange Z)) : Prop :=
  match l with
  | [] => True
  | r :: l => lo <= fr_lo r < 2 ^ 64 /\ increasing (fr_lo r + 1) l
  end.

Lemma increasing_weaken lo lo' l : lo' <= lo -> increasing lo l -> increasing lo' l.
Proof. destruct l; cbn; [done|]. intros ? [??]. split; [lia|done]. Qed.

Lemma view_ok_increasing lo l : view_ok lo l (2 ^ 64) -> increasing lo l.
Proof.
  revert lo. induction l as [|r l IH]; intros lo; cbn; [done|].
  intros (?&?&?&?&Hv). pose proof (view_ok_le _ _ _ Hv). unfold fr_hi, fr_lo in *.
  split; [lia|]. eapply increasing_weaken; [|by apply IH]. lia.
Qed.

Lemma flatrange_equal_lo (a b : FlatRange Z) : flatrange_equal a b = true -> fr_lo a = fr_lo b.
Proof.
  unfold flatrange_equal, addrrange_equal. rewrite !andb_true_iff. cbn.
  intros [[[[_ [H _]] _] _] _]. by apply Z.eqb_eq in H.
Qed.

(** A range is not equal to any range that starts later. *)
Lemma not_equal_later r l : increasing (fr_lo r + 1) l ->
  existsb (flatrange_equal r) l = false /\ find (fun o => flatrange_equal o r) l = None.
Proof.
  intros Hl. assert (forall lo, fr_lo r < lo -> increasing lo l ->
    existsb (flatrange_equal r) l = false /\ find (fun o => flatrange_equal o r) l = None) as H.
  { clear Hl. induction l as [|x l IH]; [done|]. cbn. intros lo Hlo [Hx Hl].
    destruct (IH (fr_lo x + 1)) as [-> ->]; [lia|done|].
    destruct (flatrange_equal r x) eqn:E; [apply flatrange_equal_lo in E; lia|].
    destruct (flatrange_equal x r) eqn:E'; [apply flatrange_equal_lo in E'; lia|]. done. }
  by apply (H (fr_lo r + 1)); [lia|].
Qed.

(** Ranges that start later do not see an earlier range. *)
Lemma dels_spec_drop n old new : increasing (fr_lo n + 1) old ->
  dels_spec old (n :: new) = dels_spec old new.
Proof.
  intros Ho. unfold dels_spec.
  assert (forall lo, fr_lo n < lo -> increasing lo old ->
    flat_map (fun o => if existsb (flatrange_equal o) (n :: new) then []
                       else [event o Reverse region_del]) old
    = flat_map (fun o => if existsb (flatrange_equal o) new then []
                         else [event o Reverse region_del]) old) as H.
  { clear Ho. induction old as [|o old IH]; [done|]. cbn. intros lo Hlo [Ho Hi].
    cbn in IH. rewrite (IH (fr_lo o + 1)) by (lia || done).
    destruct (flatrange_equal o n) eqn:E; [apply flatrange_equal_lo in E; lia|]. done. }
  by apply (H (fr_lo n + 1)); [lia|].
Qed.

Lemma adds_spec_drop o old new : (forall n, n ∈ new -> flatrange_equal o n = false) ->
  adds_spec (o :: old) new = adds_spec old new.
Proof.
  unfold adds_spec. induction new as [|n new IH]; intros H; [done|]. cbn.
  rewrite (H n) by constructor. cbn in IH. rewrite IH; [done|].
  intros x Hx. apply H. by constructor.
Qed.

Lemma increasing_elem lo l x : increasing lo l -> x ∈ l -> lo <= fr_lo x.
Proof.
  intros Hl Hx. revert lo Hl. induction Hx as [x l|x y l _ IH]; cbn; intros lo [? Hl]; [lia|].
  apply IH in Hl. lia.
Qed.

Lemma update_region_ok (fr : FlatRange Z) d c :
  0 <= fr_lo fr < 2 ^ 64 -> update_region fr d c = Ok (event fr d c).
Proof. intros. unfold update_region. rewrite Z_get64_ok by done. done. Qed.

Lemma update_both_ok (o n : FlatRange Z) :
  0 <= fr_lo n < 2 ^ 64 -> update_both o n = Ok (both_spec o n).
Proof.
  intros. unfold update_both, both_spec. rewrite !update_region_ok by done. cbn [res_bind].
  destruct (_ && _); [done|]. destruct (_ && _); done.
Qed.

(** The pass produces exactly the specified events. *)
Lemma pass_spec fuel : forall old new lo adding,
  0 <= lo -> increasing lo old -> increasing lo new -> (length old + length new <= fuel)%nat ->
  address_space_update_topology_pass fuel old new adding =
  Ok (if adding then adds_spec old new else dels_spec old new).
Proof.
  induction fuel as [|fuel IH]; intros old new lo adding Hlo Ho Hn Hf.
  { destruct old, new; cbn in Hf; try lia. by destruct adding. }
  cbn [address_space_update_topology_pass].
  destruct old as [|o old], new as [|n new]; cbn [length] in Hf.
  - by destruct adding.
  - cbn in Hn. destruct Hn as [Hn Hn']. rewrite (IH [] new (fr_lo n + 1)) by (done || (cbn; lia)).
    rewrite update_region_ok by lia. by destruct adding.
  - cbn in Ho. destruct Ho as [Ho Ho']. rewrite (IH old [] (fr_lo o + 1)) by (done || (cbn; lia)).
    rewrite update_region_ok by lia. by destruct adding.
  - cbn in Ho, Hn. destruct Ho as [Ho Ho'], Hn as [Hn Hn'].
    rewrite Z_lt_spec. cbn [i_eq Z_ideal].
    change (start (fr_addr o)) with (fr_lo o). change (start (fr_addr n)) with (fr_lo n).
    rewrite !update_region_ok, update_both_ok by lia.
    destruct (_ || _) eqn:E1; [|destruct (flatrange_equal o n) eqn:E2].
    + (* in the old view only *)
      assert (flatrange_equal o n = false /\ fr_lo o <= fr_lo n) as [Hne Hle].
      { destruct (flatrange_equal o n) eqn:E; [apply flatrange_equal_lo in E as E'|];
          split; try done; lia. }
      assert (increasing (fr_lo o + 1) new) by (eapply increasing_weaken; [|exact Hn']; lia).
      rewrite (IH old (n :: new) lo); [|done|by eapply increasing_weaken; [|exact Ho']; lia|done|cbn; lia].
      destruct adding; cbn [res_bind app].
      * f_equal. symmetry. apply adds_spec_drop. intros x Hx. apply elem_of_cons in Hx as [->|Hx]; [done|].
        destruct (flatrange_equal o x) eqn:E; [|done]. apply flatrange_equal_lo in E.
        apply (increasing_elem (fr_lo o + 1)) in Hx; [lia|done].
      * rewrite dels_spec_cons. cbn [existsb]. rewrite Hne.
        rewrite (proj1 (not_equal_later o new ltac:(done))). done.
    + (* in both *)
      apply flatrange_equal_lo in E2 as El. rewrite (IH old new (fr_lo o + 1)); [|lia|done| |lia].
      2: { by rewrite El. }
      destruct adding; cbn [res_bind app].
      * rewrite adds_spec_cons. cbn [find]. rewrite E2. f_equal. f_equal.
        symmetry. apply adds_spec_drop. intros x Hx.
        destruct (flatrange_equal o x) eqn:E; [|done]. apply flatrange_equal_lo in E.
        apply (increasing_elem (fr_lo n + 1)) in Hx; [lia|done].
      * rewrite dels_spec_cons. cbn [existsb]. rewrite E2. cbn [orb app].
        rewrite dels_spec_drop by (by rewrite <- El). done.
    + (* in the new view only *)
      rewrite (IH (o :: old) new lo); [|done|done|by eapply increasing_weaken; [|exact Hn']; lia|cbn; lia].
      assert (fr_lo n < fr_lo o) as Hlt by lia.
      assert (increasing (fr_lo n + 1) (o :: old)) as Hinc by (cbn; split; [lia|done]).
      destruct adding; cbn [res_bind app].
      * rewrite adds_spec_cons.
        rewrite (proj2 (not_equal_later n (o :: old) Hinc)). done.
      * by rewrite dels_spec_drop.
Qed.

(** ** The struct instance *)

Definition ev_map (e : Event Z) : Event Int128.Int128 :=
  let '(d, c, s) := e in
  (d, c, mkSec (sec_mr s) (sec_offset_within_region s) (I (sec_size s))
           (sec_offset_within_address_space s) (sec_readonly s)).

Lemma flatrange_equal_refines a b :
  bounded a -> bounded b -> flatrange_equal (fr_map I a) (fr_map I b) = flatrange_equal a b.
Proof.
  intros [??] [??]. unfold fr_lo in *. unfold flatrange_equal, addrrange_equal.
  cbn [fr_map fr_addr fr_mr fr_offset_in_region fr_romd_mode fr_readonly ar_map start size].
  by rewrite !agree_eq by lia.
Qed.

Lemma update_region_refines fr d c :
  bounded fr -> update_region (fr_map I fr) d c = res_map ev_map (update_region fr d c).
Proof.
  intros [??]. unfold fr_lo in *. unfold update_region.
  cbn [fr_map fr_addr ar_map start]. rewrite agree_get64 by lia. by destruct (i_get64 _).
Qed.

Lemma update_both_refines o n :
  bounded n -> update_both (fr_map I o) (fr_map I n) = res_map (fmap ev_map) (update_both o n).
Proof.
  intros Hn. unfold update_both. rewrite !update_region_refines by done.
  unfold update_region. destruct (i_get64 _); cbn; [|done].
  destruct (_ && _); [done|]. destruct (_ && _); done.
Qed.

Lemma emit_refines (es rest : res (list (Event Z))) es' rest' :
  es' = res_map (fmap ev_map) es -> rest' = res_map (fmap ev_map) rest ->
  (let* a := es' in let* b := rest' in Ok (a ++ b)) =
  res_map (fmap ev_map) (let* a := es in let* b := rest in Ok (a ++ b)).
Proof. intros -> ->. destruct es, rest; cbn; try done. by rewrite fmap_app. Qed.

Lemma single_refines (u : res (Event Z)) :
  (let* e := res_map ev_map u in Ok [e]) = res_map (fmap ev_map) (let* e := u in Ok [e]).
Proof. by destruct u. Qed.

Lemma pass_refines fuel : forall old new adding,
  Forall bounded old -> Forall bounded new ->
  address_space_update_topology_pass fuel (fr_map I <$> old) (fr_map I <$> new) adding =
  res_map (fmap ev_map) (address_space_update_topology_pass fuel old new adding).
Proof.
  induction fuel as [|fuel IH]; intros old new adding Ho Hn; [by destruct old, new|].
  destruct Ho as [|o old Ho Hos], Hn as [|n new Hn Hns]; [done| | |];
    rewrite ?fmap_cons; cbn [address_space_update_topology_pass fmap list_fmap].
  - apply emit_refines; [|by apply (IH [])].
    destruct adding; [|done]. rewrite update_region_refines by done. apply single_refines.
  - apply emit_refines; [|by apply (IH old [])].
    destruct adding; [done|]. rewrite update_region_refines by done. apply single_refines.
  - rewrite flatrange_equal_refines by done.
    change (start (fr_addr (fr_map I o))) with (I (fr_lo o)).
    change (start (fr_addr (fr_map I n))) with (I (fr_lo n)).
    change (start (fr_addr o)) with (fr_lo o). change (start (fr_addr n)) with (fr_lo n).
    rewrite agree_lt, agree_eq by (destruct Ho, Hn; lia).
    destruct (_ || _); [|destruct (flatrange_equal o n)]; apply emit_refines.
    + destruct adding; [done|]. rewrite update_region_refines by done. apply single_refines.
    + apply (IH old (n :: new)); by try constructor.
    + destruct adding; [|done]. by apply update_both_refines.
    + by apply IH.
    + destruct adding; [|done]. rewrite update_region_refines by done. apply single_refines.
    + apply (IH (o :: old) new); by try constructor.
Qed.

(** ** What a listener sees

    A listener keeps the sections it was told about, by start address.  A
    deletion must name a section it has, an addition must not collide with
    one, and a nop must name a section that did not change. *)
Abbreviation Listener := (gmap Z (MemoryRegionSection Z)).

#[export] Instance section_eq_dec : EqDecision (MemoryRegionSection Z).
Proof. solve_decision. Defined.

Definition notify (m : Listener) (e : Event Z) : option Listener :=
  let '(_, c, s) := e in
  let k := sec_offset_within_address_space s in
  match c with
  | region_add => match m !! k with None => Some (<[k := s]> m) | Some _ => None end
  | region_del => if decide (m !! k = Some s) then Some (delete k m) else None
  | region_nop => if decide (m !! k = Some s) then Some m else None
  | log_start | log_stop => Some m
  end.

Fixpoint notify_all (m : Listener) (es : list (Event Z)) : option Listener :=
  match es with
  | [] => Some m
  | e :: es => match notify m e with Some m => notify_all m es | None => None end
  end.

Definition sec (r : FlatRange Z) : MemoryRegionSection Z :=
  mkSec (fr_mr r) (fr_offset_in_region r) (size (fr_addr r)) (fr_lo r) (fr_readonly r).

Definition sections (l : list (FlatRange Z)) : Listener :=
  list_to_map ((fun r => (fr_lo r, sec r)) <$> l).

Lemma notify_all_app m es1 es2 :
  notify_all m (es1 ++ es2) =
  match notify_all m es1 with Some m => notify_all m es2 | None => None end.
Proof.
  revert m. induction es1 as [|e es1 IH]; intros m; [done|]. cbn.
  destruct (notify m e); [apply IH|done].
Qed.

Lemma sections_lookup lo l r : increasing lo l -> r ∈ l -> sections l !! fr_lo r = Some (sec r).
Proof.
  intros Hl Hr. revert lo Hl. unfold sections.
  induction Hr as [r l|r x l Hr IH]; intros lo [Hx Hl]; cbn.
  - by rewrite lookup_insert_eq.
  - rewrite lookup_insert_ne; [by eapply IH|].
    apply (increasing_elem _ _ _ Hl) in Hr. lia.
Qed.

Lemma sections_lookup_None l k : (forall r, r ∈ l -> fr_lo r <> k) -> sections l !! k = None.
Proof.
  unfold sections. induction l as [|x l IH]; intros H; cbn; [done|].
  rewrite lookup_insert_ne by (apply H; constructor). apply IH. intros. apply H. by constructor.
Qed.

Lemma flatrange_equal_sec a b : flatrange_equal a b = true -> sec a = sec b.
Proof.
  unfold flatrange_equal, addrrange_equal, sec, fr_lo. cbn [i_eq Z_ideal].
  rewrite !andb_true_iff, !Z.eqb_eq, !Bool.eqb_true_iff.
  intros [[[[? [??]] ?] ?] ?]. congruence.
Qed.

Lemma existsb_elem {A} (f : A -> bool) l : existsb f l = true <-> exists x, x ∈ l /\ f x = true.
Proof. rewrite existsb_exists. by setoid_rewrite <- list_elem_of_In. Qed.

(** Elements of a strictly increasing list are determined by their start. *)
Lemma increasing_inj lo l a b :
  increasing lo l -> a ∈ l -> b ∈ l -> fr_lo a = fr_lo b -> a = b.
Proof.
  revert lo. induction l as [|x l IH]; intros lo Hl Ha Hb E; [by apply elem_of_nil in Ha|].
  destruct Hl as [_ Hl].
  apply elem_of_cons in Ha as [->|Ha], Hb as [->|Hb]; [done| | |by eapply IH].
  - apply (increasing_elem _ _ _ Hl) in Hb. lia.
  - apply (increasing_elem _ _ _ Hl) in Ha. lia.
Qed.

(** Is [o] reported as deleted? *)
Definition gone (new : list (FlatRange Z)) (o : FlatRange Z) : bool :=
  negb (existsb (flatrange_equal o) new).

Lemma notify_dels new old : forall lo m,
  increasing lo old -> (forall o, o ∈ old -> m !! fr_lo o = Some (sec o)) ->
  exists m', notify_all m (dels_spec old new) = Some m' /\
    forall k, m' !! k = if existsb (fun o => (fr_lo o =? k) && gone new o) old
                        then None else m !! k.
Proof.
  induction old as [|o old IH]; intros lo m Hl Hm; [by exists m|].
  destruct Hl as [_ Hl]. rewrite dels_spec_cons, notify_all_app.
  assert (forall x, x ∈ old -> fr_lo o <> fr_lo x) as Hne
    by (intros x Hx; apply (increasing_elem _ _ _ Hl) in Hx; lia).
  cbn [existsb]. assert (gone new o = negb (existsb (flatrange_equal o) new)) as -> by done.
  destruct (existsb (flatrange_equal o) new).
  - destruct (IH (fr_lo o + 1) m Hl) as (m' & E' & Hm').
    { intros x Hx. apply Hm. by constructor. }
    exists m'. split; [done|]. intros k. by rewrite Hm', andb_false_r.
  - cbn [notify_all notify event]. cbn [sec_offset_within_address_space].
    fold (sec o). rewrite decide_True by (apply Hm; constructor).
    destruct (IH (fr_lo o + 1) (delete (fr_lo o) m) Hl) as (m' & E' & Hm').
    { intros x Hx. rewrite lookup_delete_ne by auto. apply Hm. by constructor. }
    exists m'. split; [done|]. intros k. rewrite Hm', andb_true_r.
    destruct (Z.eqb_spec (fr_lo o) k) as [->|]; cbn [orb].
    + rewrite lookup_delete_eq. by destruct (existsb _ old).
    + by rewrite lookup_delete_ne.
Qed.

Lemma notify_adds old new : forall lo m,
  increasing lo new ->
  (forall n, n ∈ new -> m !! fr_lo n = if existsb (fun o => flatrange_equal o n) old
                                       then Some (sec n) else None) ->
  exists m', notify_all m (adds_spec old new) = Some m' /\
    (forall n, n ∈ new -> m' !! fr_lo n = Some (sec n)) /\
    forall k, (forall n, n ∈ new -> fr_lo n <> k) -> m' !! k = m !! k.
Proof.
  induction new as [|n new IH]; intros lo m Hl Hm.
  { exists m. split_and!; [done| |done]. intros n Hn. by apply elem_of_nil in Hn. }
  destruct Hl as [_ Hl]. rewrite adds_spec_cons, notify_all_app.
  assert (forall x, x ∈ new -> fr_lo n <> fr_lo x) as Hne
    by (intros x Hx; apply (increasing_elem _ _ _ Hl) in Hx; lia).
  pose proof (Hm n ltac:(constructor)) as Hn.
  assert (exists m1, notify_all m (match find (fun o => flatrange_equal o n) old with
            | None => [event n Forward region_add] | Some o => both_spec o n end) = Some m1 /\
          m1 = <[fr_lo n := sec n]> m) as (m1 & E1 & ->).
  { destruct (find _ old) as [o|] eqn:Ef.
    - apply find_some in Ef as [Hin Heq].
      rewrite (proj2 (existsb_elem _ _)) in Hn
        by (exists o; split; [by apply list_elem_of_In|done]).
      exists m. split; [|by rewrite insert_id]. unfold both_spec.
      cbn [notify_all notify event sec_offset_within_address_space]. fold (sec n).
      rewrite decide_True by done. destruct (_ && _); [done|]. by destruct (_ && _).
    - exists (<[fr_lo n := sec n]> m). split; [|done].
      cbn [notify_all notify event sec_offset_within_address_space]. fold (sec n).
      destruct (existsb _ old) eqn:Ex; [|by rewrite Hn].
      apply existsb_exists in Ex as (o & Hin & Heq). by rewrite (find_none _ _ Ef o Hin) in Heq. }
  rewrite E1. destruct (IH (fr_lo n + 1) (<[fr_lo n := sec n]> m) Hl) as (m' & E' & H1 & H2).
  { intros x Hx. rewrite lookup_insert_ne by auto. apply Hm. by constructor. }
  exists m'. split_and!; [done| |].
  - intros x Hx. apply elem_of_cons in Hx as [->|Hx]; [|by apply H1].
    rewrite H2 by (intros; apply not_eq_sym; auto). by rewrite lookup_insert_eq.
  - intros k Hk. rewrite H2 by (intros; apply Hk; by constructor).
    rewrite lookup_insert_ne by (apply Hk; constructor). done.
Qed.

(** Priorities do not increase along the queue. *)
Fixpoint by_priority {T} (l : list (MemoryRegion T)) : Prop :=
  match l with
  | [] => True
  | m :: l => Forall (fun m' => prio m' <= prio m) l /\ by_priority l
  end.

Lemma existsb_false {A} (f : A -> bool) l :
  existsb f l = false -> forall x, x ∈ l -> f x = false.
Proof.
  intros H x Hx. apply not_true_iff_false. intros E. apply not_true_iff_false in H.
  apply H, existsb_elem. eauto.
Qed.

(** After the deletions the listener has, of the new view, exactly the ranges
    that were in the old view too. *)
Lemma kept_after_dels old new n :
  increasing 0 old -> increasing 0 new -> n ∈ new ->
  (if existsb (fun o => (fr_lo o =? fr_lo n) && gone new o) old
   then None else sections old !! fr_lo n) =
  if existsb (fun o => flatrange_equal o n) old then Some (sec n) else None.
Proof.
  intros Ho Hn Hx.
  assert (forall o, fr_lo o = fr_lo n -> gone new o = negb (flatrange_equal o n)) as Hgone.
  { intros o E. unfold gone. f_equal. apply Bool.eq_iff_eq_true. rewrite existsb_elem.
    split; [|by exists n]. intros (n' & Hn' & E'). apply flatrange_equal_lo in E' as E2.
    by rewrite <- (increasing_inj 0 new n' n) by (done || lia). }
  destruct (existsb (fun o => flatrange_equal o n) old) eqn:E2.
  - apply existsb_elem in E2 as (o & Hy & E2). pose proof (flatrange_equal_lo _ _ E2) as El.
    destruct (existsb (fun o => (fr_lo o =? fr_lo n) && gone new o) old) eqn:E1.
    + apply existsb_elem in E1 as (o' & Hy' & [E1%Z.eqb_eq Eg]%andb_true_iff).
      assert (o' = o) as -> by (apply (increasing_inj 0 old); done || lia).
      rewrite Hgone, E2 in Eg by done. done.
    + rewrite <- El, <- (flatrange_equal_sec _ _ E2). by apply (sections_lookup 0).
  - destruct (existsb (fun o => (fr_lo o =? fr_lo n) && gone new o) old) eqn:E1; [done|]. apply sections_lookup_None. intros o Hy E.
    pose proof (existsb_false _ _ E1 o Hy) as E3. cbn in E3.
    pose proof (existsb_false _ _ E2 o Hy) as E4. cbn in E4.
    rewrite E, Z.eqb_refl, Hgone, E4 in E3 by done. done.
Qed.

(** ... and nothing at an address the new view does not use. *)
Lemma gone_after_dels old new k :
  (forall n, n ∈ new -> fr_lo n <> k) ->
  (if existsb (fun o => (fr_lo o =? k) && gone new o) old
   then None else sections old !! k) = None.
Proof.
  intros Hk. destruct (existsb _ old) eqn:E1; [done|]. apply sections_lookup_None. intros o Hy E.
  pose proof (existsb_false _ _ E1 o Hy) as E3. cbn in E3. rewrite E, Z.eqb_refl in E3.
  unfold gone in E3. destruct (existsb (flatrange_equal o) new) eqn:E2; [|done].
  apply existsb_elem in E2 as (n & Hx & E2). apply flatrange_equal_lo in E2.
  destruct (Hk n Hx). lia.
Qed.

(** The notifications on the struct, as the specification gives them. *)
Lemma topology_events_spec old new :
  view_ok 0 old (2 ^ 64) -> view_ok 0 new (2 ^ 64) ->
  topology_events (fr_map I <$> old) (fr_map I <$> new) =
    Ok (ev_map <$> dels_spec old new ++ adds_spec old new).
Proof.
  intros Ho Hn. unfold topology_events. rewrite !length_fmap.
  rewrite !pass_refines by (by eapply view_ok_bounded).
  apply view_ok_increasing in Ho, Hn. rewrite !(pass_spec _ old new 0) by done. cbn.
  by rewrite fmap_app.
Qed.

(** ** Claims *)

(** C36: the two passes of [address_space_update_topology_pass] turn any
    listener that tracks the old flat view into one that tracks the new flat
    view.  On the way no deletion names a section the listener does not have,
    no addition lands on a start address in use, and unchanged ranges are
    reported as such. *)
Theorem topology_events_correct old new :
  view_ok 0 old (2 ^ 64) -> view_ok 0 new (2 ^ 64) ->
  exists es,
    topology_events (fr_map I <$> old) (fr_map I <$> new) = Ok (ev_map <$> es) /\
    notify_all (sections old) es = Some (sections new).
Proof.
  intros Ho Hn. exists (dels_spec old new ++ adds_spec old new).
  split; [by apply topology_events_spec|].
  apply view_ok_increasing in Ho, Hn. rewrite notify_all_app.
  destruct (notify_dels new old 0 (sections old) Ho) as (m1 & -> & H1).
  { intros o Hx. by apply (sections_lookup 0). }
  destruct (notify_adds old new 0 m1 Hn) as (m2 & -> & H2 & H3).
  { intros n Hx. rewrite H1. by apply (kept_after_dels old new n Ho Hn). }
  f_equal. apply map_eq. intros k.
  destruct (existsb (fun n => fr_lo n =? k) new) eqn:Ek.
  - apply existsb_elem in Ek as (n & Hx & <-%Z.eqb_eq). rewrite H2 by done.
    symmetry. by apply (sections_lookup 0).
  - assert (forall n, n ∈ new -> fr_lo n <> k) as Hk
      by (intros n Hx; pose proof (existsb_false _ _ Ek n Hx); cbn in *; lia).
    rewrite H3, sections_lookup_None, H1 by done. by apply gone_after_dels.
Qed.

(** Adding a subregion keeps the queue in priority order, and the new
    subregion goes in front of every subregion of the same or lower priority
    and behind every one of higher priority. *)
Theorem add_subregion_priority {T} (sub : MemoryRegion T) l :
  by_priority l ->
  by_priority (insert_by_priority sub l) /\
  exists before after, l = before ++ after /\
    insert_by_priority sub l = before ++ sub :: after /\
    Forall (fun m => prio sub < prio m) before /\ Forall (fun m => prio m <= prio sub) after.
Proof.
  induction l as [|m l IH]; intros Hl; cbn.
  - split; [by repeat constructor|]. by exists [], [].
  - destruct Hl as [Hm Hl]. destruct (Z.leb_spec (prio m) (prio sub)).
    + assert (Forall (fun m' => prio m' <= prio sub) (m :: l)).
      { constructor; [done|]. eapply Forall_impl; [exact Hm|]. cbn. lia. }
      split; [by repeat split|]. by exists [], (m :: l).
    + destruct (IH Hl) as [Hs (before & after & -> & E & Hb & Ha)]. rewrite E in *. split.
      * split; [|done]. apply Forall_app in Hm as [??].
        apply Forall_app. split; [done|]. constructor; [lia|done].
      * exists (m :: before), after. split_and!; [done|done|by constructor|done].
Qed.

(** ** Witnesses *)

Definition witness_old : list (FlatRange Z) :=
  [mkFR 1 0 (addrrange_make 0 0x1000) 0 false false;
   mkFR 2 0 (addrrange_make 0x1000 0x100) 0 false false].
Definition witness_new : list (FlatRange Z) :=
  [mkFR 1 0 (addrrange_make 0 0x1000) 4 false false;
   mkFR 3 0 (addrrange_make 0x1000 0x200) 0 false false].

Lemma topology_events_witness :
  exists es,
    topology_events (fr_map I <$> witness_old) (fr_map I <$> witness_new) = Ok (ev_map <$> es) /\
    notify_all (sections witness_old) es = Some (sections witness_new).
Proof.
  apply (topology_events_correct witness_old witness_new);
    cbn; unfold fr_hi, fr_lo; cbn; lia.
Defined.

Definition witness_sub (id p : Z) : MemoryRegion Z :=
  MR (set_addr (sample_info id 0 16 true 0) 0 p true) None [].

Lemma add_subregion_priority_witness :
  by_priority (insert_by_priority (witness_sub 9 1) [witness_sub 1 2; witness_sub 2 1; witness_sub 3 0]).
Proof.
  apply (add_subregion_priority (witness_sub 9 1)
    [witness_sub 1 2; witness_sub 2 1; witness_sub 3 0]).
  cbn. repeat constructor; unfold prio; cbn; lia.
Defined.
