(* ===== verification/PhysMap.v ===== *)
(** * The physical page map of an address space ([exec.c])

    The dispatch of an address space is a radix tree over page numbers whose
    leaves are numbers of memory region sections: [phys_page_set] maps a range
    of pages, [phys_page_compact] shortens chains of nodes with one child when
    the map is committed, [phys_page_find] walks the tree.  Pages shared by
    several sections are subpages, with a section number per byte.  The target
    is ARM system emulation: [TARGET_PAGE_BITS] is 10.

    A parameter [PhysPageEntry *lp] is the entry it points to, passed by value
    and returned; the caller stores it back. *)

From stdpp Require Import base list numbers.
From S2P Require Import Prelude Int128.
Import Int128.

Definition TARGET_PAGE_BITS : Z := 10.
Definition TARGET_PAGE_SIZE : Z := 1024.
(** [addr & TARGET_PAGE_MASK] and [addr & ~TARGET_PAGE_MASK]. *)
Definition page_base (addr : Z) : Z := Z.land addr (u64 (Z.lnot (TARGET_PAGE_SIZE - 1))).
Definition page_offset (addr : Z) : Z := Z.land addr (TARGET_PAGE_SIZE - 1).
Definition TARGET_PAGE_ALIGN (addr : Z) : Z := page_base (u64 (addr + TARGET_PAGE_SIZE - 1)).

Definition P_L2_BITS : Z := 9.
Definition P_L2_SIZE : Z := 512.
(** [((ADDR_SPACE_BITS - TARGET_PAGE_BITS - 1) / P_L2_BITS) + 1]. *)
Definition P_L2_LEVELS : Z := (64 - TARGET_PAGE_BITS - 1) / P_L2_BITS + 1.

(** [uint32_t skip : 6; uint32_t ptr : 26]. *)
Record PhysPageEntry : Type := mkEntry { skip : Z; ptr : Z }.
Definition PHYS_MAP_NODE_NIL : Z := Z.shiftr (u32 (-1)) 6.

Definition PHYS_SECTION_UNASSIGNED : Z := 0.
Definition PHYS_SECTION_NOTDIRTY : Z := 1.
Definition PHYS_SECTION_ROM : Z := 2.
Definition PHYS_SECTION_WATCH : Z := 3.

(** The memory region of a section: the regions of [io_mem_init], the region
    of a subpage (a number in [subpages]), or a region of the guest. *)
Inductive mref : Type :=
| io_mem_unassigned | io_mem_notdirty | io_mem_rom | io_mem_watch
| SubpageMR (n : Z) | GuestMR (id : Z).

#[export] Instance mref_eq_dec : EqDecision mref.
Proof. solve_decision. Defined.

Record MemoryRegionSection : Type := mkSection {
  sec_mr : mref; offset_within_region : Z; sec_size : Int128;
  offset_within_address_space : Z; sec_readonly : bool
}.
Definition no_section : MemoryRegionSection := mkSection io_mem_unassigned 0 int128_zero 0 false.

Record subpage_t : Type := mkSubpage { sp_base : Z; sub_section : list Z }.

(** [sections] and [nodes] are arrays of [.._nb_alloc] elements. *)
Record PhysPageMap : Type := mkMap {
  sections_nb : Z; sections_nb_alloc : Z; nodes_nb : Z; nodes_nb_alloc : Z;
  nodes : list (list PhysPageEntry); sections : list MemoryRegionSection
}.

(** [subpages] is the store of the [subpage_t] objects. *)
Record AddressSpaceDispatch : Type := mkDispatch {
  phys_map : PhysPageEntry; map : PhysPageMap; subpages : list subpage_t
}.

Definition put_nodes (n : list (list PhysPageEntry)) (m : PhysPageMap) : PhysPageMap :=
  mkMap (sections_nb m) (sections_nb_alloc m) (nodes_nb m) (nodes_nb_alloc m) n (sections m).

(** [nodes[n][i]] *)
Definition node_get (ns : list (list PhysPageEntry)) (n i : Z) : res PhysPageEntry :=
  let* p := aget ns n in aget p i.
Definition node_set (ns : list (list PhysPageEntry)) (n i : Z) (e : PhysPageEntry) :
    res (list (list PhysPageEntry)) :=
  let* p := aget ns n in let* p := aset p i e in aset ns n p.

(** ** Nodes *)

Definition blank_node : list PhysPageEntry := replicate 512 (mkEntry 0 0).

(** [g_renew]: the array has the new size and keeps its contents. *)
Definition grow {A} (l : list A) (x : A) (n : Z) : list A :=
  take (Z.to_nat n) l ++ replicate (Z.to_nat n - length l) x.

Definition phys_map_node_reserve (m : PhysPageMap) (n : Z) : PhysPageMap :=
  if nodes_nb_alloc m <? u32 (nodes_nb m + n) then
    let a := Z.max (u32 (nodes_nb_alloc m * 2)) 16 in
    let a := Z.max a (u32 (nodes_nb m + n)) in
    mkMap (sections_nb m) (sections_nb_alloc m) (nodes_nb m) a (grow (nodes m) blank_node a) (sections m)
  else m.

Definition phys_map_node_alloc (m : PhysPageMap) : res (Z * PhysPageMap) :=
  let ret := nodes_nb m in
  let m := mkMap (sections_nb m) (sections_nb_alloc m) (u32 (nodes_nb m + 1)) (nodes_nb_alloc m)
             (nodes m) (sections m) in
  let* _ := c_assert (negb (ret =? PHYS_MAP_NODE_NIL)) in
  let* _ := c_assert (negb (ret =? nodes_nb_alloc m)) in
  let* ns := for_loop (Z.to_nat P_L2_SIZE) 0 (fun i ns => node_set ns ret i (mkEntry 1 PHYS_MAP_NODE_NIL)) (nodes m) in
  Ok (ret, put_nodes ns m).

(** ** Mapping pages *)

(** The state of [phys_page_set_level]: the map, [*index] and [*nb]. *)
Abbreviation set_state := (PhysPageMap * Z * Z)%type.

(** The body of the loop, for the entry [i] of the node [p]; [sub] is the
    recursive call. *)
Definition set_entry (sub : PhysPageMap -> PhysPageEntry -> Z -> Z -> res (set_state * PhysPageEntry))
    (step leaf p i : Z) (m : PhysPageMap) (index nb : Z) : res set_state :=
  let* lp := node_get (nodes m) p i in
  let* (m, index, nb, lp) :=
    if (Z.land index (step - 1) =? 0) && (step <=? nb)
    then Ok (m, u64 (index + step), nb - step, mkEntry 0 (uwrap 26 leaf))
    else sub m lp index nb in
  let* ns := node_set (nodes m) p i lp in
  Ok (put_nodes ns m, index, nb).

(** [while ( *nb && lp < &p[P_L2_SIZE])], from the entry [P_L2_SIZE - n]. *)
Fixpoint set_entries (sub : PhysPageMap -> PhysPageEntry -> Z -> Z -> res (set_state * PhysPageEntry))
    (step leaf p : Z) (n : nat) (m : PhysPageMap) (index nb : Z) : res set_state :=
  match n with
  | O => Ok (m, index, nb)
  | S n' =>
      if nb =? 0 then Ok (m, index, nb) else
      let* (m, index, nb) := set_entry sub step leaf p (P_L2_SIZE - Z.of_nat n) m index nb in
      set_entries sub step leaf p n' m index nb
  end.

(** The node of an entry, allocated when the entry has none. *)
Definition level_node (level : nat) (m : PhysPageMap) (lp : PhysPageEntry) :
    res (PhysPageMap * PhysPageEntry) :=
  if negb (skip lp =? 0) && (ptr lp =? PHYS_MAP_NODE_NIL) then
    let* (n, m) := phys_map_node_alloc m in
    let lp := mkEntry (skip lp) (uwrap 26 n) in
    match level with
    | O =>
        let* ns := for_loop (Z.to_nat P_L2_SIZE) 0 (fun i ns =>
          node_set ns (ptr lp) i (mkEntry 0 PHYS_SECTION_UNASSIGNED)) (nodes m) in
        Ok (put_nodes ns m, lp)
    | _ => Ok (m, lp)
    end
  else Ok (m, lp).

(** At level 0 every page is set in the loop, so there is no recursive call. *)
Fixpoint phys_page_set_level (level : nat) (leaf : Z) (m : PhysPageMap) (lp : PhysPageEntry) (index nb : Z) :
    res (set_state * PhysPageEntry) :=
  let shift := Z.of_nat level * P_L2_BITS in
  let step := Z.shiftl 1 shift in
  let* (m, lp) := level_node level m lp in
  let first := Z.land (Z.shiftr index shift) (P_L2_SIZE - 1) in
  let sub := match level with
             | O => fun _ _ _ _ => Err UndefinedShift
             | S level' => phys_page_set_level level' leaf
             end in
  let* st := set_entries sub step leaf (ptr lp) (Z.to_nat (P_L2_SIZE - first)) m index nb in
  Ok (st, lp).

Definition phys_page_set (d : AddressSpaceDispatch) (index nb leaf : Z) : res AddressSpaceDispatch :=
  let m := phys_map_node_reserve (map d) (3 * P_L2_LEVELS) in
  let* (m, _, _, lp) := phys_page_set_level (Z.to_nat (P_L2_LEVELS - 1)) leaf m (phys_map d) index nb in
  Ok (mkDispatch lp m (subpages d)).

(** ** Compaction *)

(** The entry after its children have been compacted. *)
Definition compact_entry (lp : PhysPageEntry) (ns : list (list PhysPageEntry)) (valid valid_ptr : Z) :
    res PhysPageEntry :=
  if negb (valid =? 1) then Ok lp else
  let* _ := c_assert (valid_ptr <? P_L2_SIZE) in
  let* c := node_get ns (ptr lp) valid_ptr in
  if Z.shiftl 1 3 <=? skip lp + skip c then Ok lp
  else Ok (mkEntry (if skip c =? 0 then 0 else uwrap 6 (skip lp + skip c)) (ptr c)).

(** The depth of the tree bounds the recursion. *)
Fixpoint phys_page_compact (fuel : nat) (lp : PhysPageEntry) (ns : list (list PhysPageEntry)) :
    res (PhysPageEntry * list (list PhysPageEntry)) :=
  match fuel with
  | O => Err OutOfFuel
  | S fuel =>
      if ptr lp =? PHYS_MAP_NODE_NIL then Ok (lp, ns) else
      let* (ns, valid_ptr, valid) :=
        for_loop (Z.to_nat P_L2_SIZE) 0 (fun i '(ns, valid_ptr, valid) =>
          let* e := node_get ns (ptr lp) i in
          if ptr e =? PHYS_MAP_NODE_NIL then Ok (ns, valid_ptr, valid)
          else if skip e =? 0 then Ok (ns, i, valid + 1)
          else let* (e, ns) := phys_page_compact fuel e ns in
               let* ns := node_set ns (ptr lp) i e in
               Ok (ns, i, valid + 1))
          (ns, P_L2_SIZE, 0) in
      let* lp := compact_entry lp ns valid valid_ptr in
      Ok (lp, ns)
  end.

Definition phys_page_compact_all (d : AddressSpaceDispatch) : res AddressSpaceDispatch :=
  if skip (phys_map d) =? 0 then Ok d else
  let* (lp, ns) := phys_page_compact (Z.to_nat P_L2_LEVELS) (phys_map d) (nodes (map d)) in
  Ok (mkDispatch lp (put_nodes ns (map d)) (subpages d)).

(** ** Lookup *)

(** The loop of [phys_page_find] from level [i]: the section number it ends
    with.  [i] decreases in every round. *)
Fixpoint find_loop (fuel : nat) (ns : list (list PhysPageEntry)) (index i : Z) (lp : PhysPageEntry) : res Z :=
  if skip lp =? 0 then Ok (ptr lp) else
  let i := i - skip lp in
  if i <? 0 then Ok (ptr lp) else
  if ptr lp =? PHYS_MAP_NODE_NIL then Ok PHYS_SECTION_UNASSIGNED else
  match fuel with
  | O => Err OutOfFuel
  | S fuel =>
      let* lp := node_get ns (ptr lp) (Z.land (Z.shiftr index (i * P_L2_BITS)) (P_L2_SIZE - 1)) in
      find_loop fuel ns index i lp
  end.

Definition range_get_last (offset len : Z) : Z := u64 (offset + len - 1).
Definition range_covers_byte (offset len byte : Z) : bool :=
  (offset <=? byte) && (byte <=? range_get_last offset len).

(** The section number of the address: [&sections[n]]. *)
Definition phys_page_find (lp : PhysPageEntry) (addr : Z) (ns : list (list PhysPageEntry))
    (secs : list MemoryRegionSection) : res Z :=
  let index := Z.shiftr addr TARGET_PAGE_BITS in
  let* n := find_loop (Z.to_nat P_L2_LEVELS) ns index P_L2_LEVELS lp in
  let* s := aget secs n in
  if negb (hi (sec_size s) =? 0) || range_covers_byte (offset_within_address_space s) (lo (sec_size s)) addr
  then Ok n else Ok PHYS_SECTION_UNASSIGNED.

Definition address_space_lookup_region (d : AddressSpaceDispatch) (addr : Z) (resolve_subpage : bool) : res Z :=
  let* n := phys_page_find (phys_map d) addr (nodes (map d)) (sections (map d)) in
  let* s := aget (sections (map d)) n in
  match sec_mr s with
  | SubpageMR k => if resolve_subpage then let* sp := aget (subpages d) k in aget (sub_section sp) (page_offset addr)
                   else Ok n
  | _ => Ok n
  end.

(** The size of a region; [guest_size] gives that of the guest's regions. *)
Definition mref_size (guest_size : Z -> Int128) (r : mref) : Int128 :=
  match r with
  | SubpageMR _ => int128_make64 TARGET_PAGE_SIZE
  | GuestMR id => guest_size id
  | _ => int128_2_64
  end.

(** The section number, [*xlat] and [*plen]. *)
Definition address_space_translate_internal (guest_size : Z -> Int128) (d : AddressSpaceDispatch)
    (addr plen : Z) (resolve_subpage : bool) : res (Z * Z * Z) :=
  let* n := address_space_lookup_region d addr resolve_subpage in
  let* s := aget (sections (map d)) n in
  let addr := u64 (addr - offset_within_address_space s) in
  let xlat := u64 (addr + offset_within_region s) in
  let diff := int128_sub (mref_size guest_size (sec_mr s)) (int128_make64 addr) in
  let* plen := int128_get64 (int128_min diff (int128_make64 plen)) in
  Ok (n, xlat, plen).

(** ** Sections *)

Definition phys_section_add (m : PhysPageMap) (s : MemoryRegionSection) : res (Z * PhysPageMap) :=
  let* _ := c_assert (sections_nb m <? TARGET_PAGE_SIZE) in
  let (a, secs) :=
    if sections_nb m =? sections_nb_alloc m then
      let a := Z.max (u32 (sections_nb_alloc m * 2)) 16 in (a, grow (sections m) no_section a)
    else (sections_nb_alloc m, sections m) in
  let* secs := aset secs (sections_nb m) s in
  Ok (u16 (sections_nb m), mkMap (sections_nb m + 1) a (nodes_nb m) (nodes_nb_alloc m) (nodes m) secs).

(** ** Subpages *)

(** The new [sub_section] array; [-1] is the error return. *)
Definition subpage_register (sub : list Z) (start end_ section : Z) : res (Z * list Z) :=
  if (TARGET_PAGE_SIZE <=? start) || (TARGET_PAGE_SIZE <=? end_) then Ok (-1, sub) else
  let idx := page_offset start in
  let eidx := page_offset end_ in
  let* sub := for_loop (Z.to_nat (eidx + 1 - idx)) idx (fun i sub => aset sub i section) sub in
  Ok (0, sub).

Definition subpage_init (base : Z) : res subpage_t :=
  let* (_, sub) := subpage_register (replicate 1024 0) 0 (TARGET_PAGE_SIZE - 1) PHYS_SECTION_UNASSIGNED in
  Ok (mkSubpage base sub).

Definition register_subpage (d : AddressSpaceDispatch) (s : MemoryRegionSection) : res AddressSpaceDispatch :=
  let base := page_base (offset_within_address_space s) in
  let* n := phys_page_find (phys_map d) base (nodes (map d)) (sections (map d)) in
  let* existing := aget (sections (map d)) n in
  let* (k, d) :=
    match sec_mr existing with
    | SubpageMR k => Ok (k, d)
    | mr =>
        let* _ := c_assert (bool_decide (mr = io_mem_unassigned)) in
        let* sp := subpage_init base in
        let k := Z.of_nat (length (subpages d)) in
        let subsection := mkSection (SubpageMR k) 0 (int128_make64 TARGET_PAGE_SIZE) base false in
        let* (idx, m) := phys_section_add (map d) subsection in
        let* d := phys_page_set (mkDispatch (phys_map d) m (subpages d ++ [sp]))
                    (Z.shiftr base TARGET_PAGE_BITS) 1 idx in
        Ok (k, d)
    end in
  let start := page_offset (offset_within_address_space s) in
  let* size := int128_get64 (sec_size s) in
  let end_ := u64 (start + size - 1) in
  let* (idx, m) := phys_section_add (map d) s in
  let* sp := aget (subpages d) k in
  let* (_, sub) := subpage_register (sub_section sp) (u32 start) (u32 end_) idx in
  let* sps := aset (subpages d) k (mkSubpage (sp_base sp) sub) in
  Ok (mkDispatch (phys_map d) m sps).

Definition register_multipage (d : AddressSpaceDispatch) (s : MemoryRegionSection) : res AddressSpaceDispatch :=
  let start_addr := offset_within_address_space s in
  let* (idx, m) := phys_section_add (map d) s in
  let* num_pages := int128_get64 (int128_rshift (sec_size s) TARGET_PAGE_BITS) in
  let* _ := c_assert (negb (num_pages =? 0)) in
  phys_page_set (mkDispatch (phys_map d) m (subpages d)) (Z.shiftr start_addr TARGET_PAGE_BITS) num_pages idx.

(** ** The listener *)

Definition with_size (s : MemoryRegionSection) (sz : Int128) : MemoryRegionSection :=
  mkSection (sec_mr s) (offset_within_region s) sz (offset_within_address_space s) (sec_readonly s).

(** The loop of [mem_add]; it runs at most twice after the first part: whole
    pages, then the rest of the last page. *)
Fixpoint mem_add_loop (fuel : nat) (d : AddressSpaceDispatch) (now remain : MemoryRegionSection) :
    res AddressSpaceDispatch :=
  if int128_ne (sec_size remain) (sec_size now) then
    match fuel with
    | O => Err OutOfFuel
    | S fuel =>
        let page_size := int128_make64 TARGET_PAGE_SIZE in
        let* ns := int128_get64 (sec_size now) in
        let remain := mkSection (sec_mr remain) (u64 (offset_within_region remain + ns))
          (int128_sub (sec_size remain) (sec_size now))
          (u64 (offset_within_address_space remain + ns)) (sec_readonly remain) in
        let now := remain in
        if int128_lt (sec_size remain) page_size then
          let* d := register_subpage d now in mem_add_loop fuel d now remain
        else if negb (page_offset (offset_within_address_space remain) =? 0) then
          let now := with_size now page_size in
          let* d := register_subpage d now in mem_add_loop fuel d now remain
        else
          let now := with_size now (int128_and (sec_size now) (int128_neg page_size)) in
          let* d := register_multipage d now in mem_add_loop fuel d now remain
    end
  else Ok d.

Definition mem_add (d : AddressSpaceDispatch) (s : MemoryRegionSection) : res AddressSpaceDispatch :=
  if negb (page_offset (offset_within_address_space s) =? 0) then
    let left := u64 (TARGET_PAGE_ALIGN (offset_within_address_space s) - offset_within_address_space s) in
    let now := with_size s (int128_min (int128_make64 left) (sec_size s)) in
    let* d := register_subpage d now in
    mem_add_loop 3 d now s
  else mem_add_loop 3 d (with_size s int128_zero) s.

Definition dummy_section (m : PhysPageMap) (mr : mref) : res (Z * PhysPageMap) :=
  phys_section_add m (mkSection mr 0 int128_2_64 0 false).

(** The dispatch under construction. *)
Definition mem_begin : res AddressSpaceDispatch :=
  let* (n, m) := dummy_section (mkMap 0 0 0 0 [] []) io_mem_unassigned in
  let* _ := c_assert (n =? PHYS_SECTION_UNASSIGNED) in
  let* (n, m) := dummy_section m io_mem_notdirty in
  let* _ := c_assert (n =? PHYS_SECTION_NOTDIRTY) in
  let* (n, m) := dummy_section m io_mem_rom in
  let* _ := c_assert (n =? PHYS_SECTION_ROM) in
  let* (n, m) := dummy_section m io_mem_watch in
  let* _ := c_assert (n =? PHYS_SECTION_WATCH) in
  Ok (mkDispatch (mkEntry 1 PHYS_MAP_NODE_NIL) m []).

Definition mem_commit (d : AddressSpaceDispatch) : res AddressSpaceDispatch := phys_page_compact_all d.
