(* ===== verification/PhysMapFacts.v ===== *)
(** * The physical page map: mapping and lookup

    Every node of an uncompacted map has a position: the level of its entries
    and the number of the block of pages it covers.  [map_ok] says that the
    entries of a node point to nodes one level down at the right block, which
    makes the map a tree; the functions on the map change only nodes below the
    entry they are called on. *)

From stdpp Require Import base list numbers.
From S2P Require Import Prelude Int128 PhysMap.

(** ** Blocks of pages *)

(** The pages an entry of level [l] covers. *)
Definition span (l : nat) : Z := 512 ^ Z.of_nat l.
(** The entry for page [idx] in a node of level [l]. *)
Definition slot (l : nat) (idx : Z) : Z := (idx / span l) mod 512.

Lemma span_pos l : 0 < span l.
Proof. unfold span. lia. Qed.

Lemma span_S l : span (S l) = span l * 512.
Proof. unfold span. rewrite Nat2Z.inj_succ, Z.pow_succ_r by lia. lia. Qed.

Lemma div_span_S l idx : idx / span (S l) = idx / span l / 512.
Proof. rewrite span_S, Z.div_div; [done| |lia]. pose proof (span_pos l). lia. Qed.

Lemma div_span l idx : idx / span l = idx / span (S l) * 512 + slot l idx.
Proof. rewrite div_span_S. unfold slot. pose proof (Z.div_mod (idx / span l) 512). lia. Qed.

Lemma slot_range l idx : 0 <= slot l idx < 512.
Proof. unfold slot. apply Z.mod_pos_bound. lia. Qed.

(** The pages of a block. *)
Lemma block l idx q : idx / span l = q <-> q * span l <= idx < (q + 1) * span l.
Proof.
  pose proof (span_pos l). split.
  - intros <-. pose proof (Z.div_mod idx (span l)). pose proof (Z.mod_pos_bound idx (span l)). lia.
  - intros Hi. symmetry. apply (Z.div_unique idx (span l) q (idx - q * span l)); lia.
Qed.

Lemma span_pow l : span l = 2 ^ (Z.of_nat l * P_L2_BITS).
Proof.
  unfold span, P_L2_BITS. rewrite Z.mul_comm, Z.pow_mul_r by lia. done.
Qed.

Lemma step_span l : Z.shiftl 1 (Z.of_nat l * P_L2_BITS) = span l.
Proof. rewrite Z.shiftl_1_l, span_pow. done. Qed.

Lemma land_slot l idx : Z.land (Z.shiftr idx (Z.of_nat l * P_L2_BITS)) (P_L2_SIZE - 1) = slot l idx.
Proof.
  change (P_L2_SIZE - 1) with (Z.ones 9).
  rewrite Z.land_ones, Z.shiftr_div_pow2 by (unfold P_L2_BITS; lia). unfold slot. by rewrite span_pow.
Qed.

Lemma land_aligned l idx : Z.land idx (span l - 1) = idx mod span l.
Proof.
  rewrite span_pow. replace (2 ^ (Z.of_nat l * P_L2_BITS) - 1) with (Z.ones (Z.of_nat l * P_L2_BITS)).
  - apply Z.land_ones. unfold P_L2_BITS. lia.
  - rewrite Z.ones_equiv. lia.
Qed.

(** ** Arrays of nodes *)

Abbreviation node_array := (list (list PhysPageEntry)).

Definition ent (ns : node_array) (n i : Z) : PhysPageEntry :=
  match node_get ns n i with Ok e => e | Err _ => mkEntry 0 0 end.
Definition shaped (ns : node_array) : Prop := Forall (fun p => length p = 512%nat) ns.

Lemma node_get_ent ns n i : shaped ns -> 0 <= n < Z.of_nat (length ns) -> 0 <= i < 512 ->
  node_get ns n i = Ok (ent ns n i).
Proof.
  intros Hs Hn Hi. unfold ent. destruct (aget_total ns n Hn) as [p Ep].
  assert (length p = 512%nat) as Lp.
  { apply aget_Ok in Ep as [_ Ep]. apply (Forall_lookup_1 _ _ _ _ Hs Ep). }
  destruct (aget_total p i) as [e Ee]; [lia|].
  unfold node_get. rewrite Ep. cbn [res_bind]. by rewrite Ee.
Qed.

Lemma node_set_spec ns n i e : shaped ns -> 0 <= n < Z.of_nat (length ns) -> 0 <= i < 512 ->
  exists ns', node_set ns n i e = Ok ns' /\ shaped ns' /\ length ns' = length ns /\
    (forall m, m <> Z.to_nat n -> ns' !! m = ns !! m) /\
    (forall m j, ent ns' m j = if (m =? n) && (j =? i) then e else ent ns m j).
Proof.
  intros Hs Hn Hi. destruct (aget_total ns n Hn) as [p Ep].
  pose proof (proj2 (proj1 (aget_Ok _ _ _) Ep)) as Lk.
  assert (length p = 512%nat) as Lp by (exact (Forall_lookup_1 _ _ _ _ Hs Lk)).
  exists (<[Z.to_nat n := <[Z.to_nat i := e]> p]> ns). split.
  { unfold node_set. rewrite Ep. cbn [res_bind]. rewrite aset_total by lia. cbn [res_bind].
    by apply aset_total. }
  split; [apply Forall_insert; [done|by rewrite length_insert]|].
  split; [by rewrite length_insert|].
  split; [intros m Hm; by rewrite list_lookup_insert_ne|].
  intros m j. unfold ent, node_get. destruct (Z.eqb_spec m n) as [->|]; cbn [andb].
  - rewrite aget_insert_eq by done. cbn [res_bind]. rewrite Ep. cbn [res_bind].
    destruct (Z.eqb_spec j i) as [->|]; [rewrite aget_insert_eq by lia; done|by rewrite aget_insert_ne by lia].
  - by rewrite aget_insert_ne by lia.
Qed.

Lemma ent_agree ns ns' n i : 0 <= n -> ns' !! Z.to_nat n = ns !! Z.to_nat n -> ent ns' n i = ent ns n i.
Proof. intros Hn E. unfold ent, node_get, aget. destruct (n <? 0); [done|]. by rewrite E. Qed.

(** A loop that fills a node. *)
Lemma fill_node_spec ns n e : shaped ns -> 0 <= n < Z.of_nat (length ns) ->
  exists ns', for_loop (Z.to_nat P_L2_SIZE) 0 (fun i ns => node_set ns n i e) ns = Ok ns' /\
    shaped ns' /\ length ns' = length ns /\ (forall m, m <> Z.to_nat n -> ns' !! m = ns !! m) /\
    (forall j, 0 <= j < 512 -> ent ns' n j = e).
Proof.
  intros Hs Hn.
  destruct (for_loop_inv (fun k ns' => shaped ns' /\ length ns' = length ns /\
    (forall m, m <> Z.to_nat n -> ns' !! m = ns !! m) /\ (forall j, 0 <= j < k -> ent ns' n j = e))
    (fun i ns => node_set ns n i e) (Z.to_nat P_L2_SIZE) 0 ns) as (ns' & E & S & L & O & A).
  - split; [done|]. split; [done|]. split; [done|]. intros; lia.
  - intros k s Hk (S & L & O & A). change P_L2_SIZE with 512 in Hk.
    destruct (node_set_spec s n k e S ltac:(lia) ltac:(lia)) as (s' & E & S' & L' & O' & A').
    exists s'. split; [done|]. split; [done|]. split; [congruence|].
    split; [intros; rewrite O', O by done; done|]. intros j Hj. rewrite A', Z.eqb_refl. cbn [andb].
    destruct (Z.eqb_spec j k); [done|]. apply A. lia.
  - exists ns'. split; [done|]. split; [done|]. split; [done|]. split; [done|]. intros j Hj. apply A.
    change P_L2_SIZE with 512. lia.
Qed.

(** ** The tree *)

(** The position of a node: the level of its entries and its block number. *)
Abbreviation position := (Z -> nat * Z).

(** An entry of level [l] for the block [q]: a leaf, or one step down. *)
Definition entry_ok (nb : Z) (pos : position) (l : nat) (q : Z) (e : PhysPageEntry) : Prop :=
  (skip e = 0 /\ 0 <= ptr e < 2 ^ 16) \/
  (skip e = 1 /\ (0 < l)%nat /\
   (ptr e = PHYS_MAP_NODE_NIL \/ 0 <= ptr e < nb /\ pos (ptr e) = (pred l, q))).

Record map_ok (ns : node_array) (nb : Z) (pos : position) : Prop := {
  map_shaped : shaped ns;
  map_nb : 0 <= nb <= Z.of_nat (length ns);
  map_nil : nb <= PHYS_MAP_NODE_NIL;
  map_entries : forall n i, 0 <= n < nb -> 0 <= i < 512 ->
    entry_ok nb pos (pos n).1 ((pos n).2 * 512 + i) (ent ns n i)
}.

(** What the entry [e] of level [l] says about page [idx]: the section number,
    and whether the page can be mapped on its own. *)
Fixpoint look (ns : node_array) (l : nat) (e : PhysPageEntry) (idx : Z) : Z * bool :=
  match l with
  | O => (ptr e, true)
  | S l =>
      if skip e =? 0 then (ptr e, false)
      else if ptr e =? PHYS_MAP_NODE_NIL then (0, true)
      else look ns l (ent ns (ptr e) (slot l idx)) idx
  end.

Lemma entry_ok_mono nb pos nb' pos' l q e : entry_ok nb pos l q e ->
  nb <= nb' -> (forall n, 0 <= n < nb -> pos' n = pos n) -> entry_ok nb' pos' l q e.
Proof.
  intros [H|(E & L & H)] Hn Hp; [by left|right]. split; [done|]. split; [done|].
  destruct H as [H|[R P]]; [by left|right]. split; [lia|]. by rewrite Hp.
Qed.

(** Node [n] is not below the entry of level [l] for the block [q]. *)
Definition outside (pos : position) (l : nat) (q n : Z) : Prop :=
  (l <= (pos n).1)%nat \/ exists idx, idx / span (S (pos n).1) = (pos n).2 /\ idx / span l <> q.

Definition frame (ns ns' : node_array) (nb : Z) (pos : position) (l : nat) (q : Z) : Prop :=
  forall n, 0 <= n < nb -> outside pos l q n -> ns' !! Z.to_nat n = ns !! Z.to_nat n.

(** The lookup of a page reads only nodes that cover it. *)
Lemma look_agree ns ns' nb pos l : map_ok ns nb pos -> forall e q idx,
  entry_ok nb pos l q e -> idx / span l = q ->
  (forall n, 0 <= n < nb -> ((pos n).1 < l)%nat -> idx / span (S (pos n).1) = (pos n).2 ->
     ns' !! Z.to_nat n = ns !! Z.to_nat n) ->
  look ns' l e idx = look ns l e idx.
Proof.
  intros M. induction l as [|l IH]; intros e q idx He Hq Ha; [done|]. cbn [look].
  destruct (Z.eqb_spec (skip e) 0); [done|]. destruct (Z.eqb_spec (ptr e) PHYS_MAP_NODE_NIL); [done|].
  destruct He as [[? _]|(_ & _ & [?|[R P]])]; [done|done|]. cbn [pred] in P.
  rewrite (ent_agree ns ns') by (lia || (apply Ha; rewrite ?P; cbn [fst snd]; done || lia)).
  apply (IH _ (idx / span l)).
  - pose proof (map_entries _ _ _ M (ptr e) (slot l idx) R (slot_range l idx)) as H.
    rewrite P in H. cbn [fst snd] in H. by rewrite <- Hq, <- div_span in H.
  - done.
  - intros k Hk Hl. apply Ha; [done|lia].
Qed.

Lemma look_frame ns ns' nb pos l q l0 q0 e idx : map_ok ns nb pos -> entry_ok nb pos l q e ->
  idx / span l = q -> frame ns ns' nb pos l0 q0 -> idx / span l0 <> q0 -> look ns' l e idx = look ns l e idx.
Proof.
  intros M He Hq Hf Hne. apply (look_agree _ _ nb pos _ M _ q); [done|done|].
  intros k Hk _ Hc. apply Hf; [done|]. right. by exists idx.
Qed.

(** ** The node of an entry *)

Definition same_rest (m m' : PhysPageMap) : Prop :=
  sections_nb m' = sections_nb m /\ sections_nb_alloc m' = sections_nb_alloc m /\
  sections m' = sections m /\ nodes_nb_alloc m' = nodes_nb_alloc m /\ length (nodes m') = length (nodes m).

Lemma same_rest_trans m1 m2 m3 : same_rest m1 m2 -> same_rest m2 m3 -> same_rest m1 m3.
Proof. unfold same_rest. intuition congruence. Qed.

Lemma same_rest_put m m' ns : same_rest m m' -> length ns = length (nodes m) -> same_rest m (put_nodes ns m').
Proof. unfold same_rest. cbn. intuition congruence. Qed.

(** The array is allocated in full and has [k] free nodes below the limit. *)
Definition room (m : PhysPageMap) (k : Z) : Prop :=
  Z.of_nat (length (nodes m)) = nodes_nb_alloc m /\
  nodes_nb m + k <= nodes_nb_alloc m /\ nodes_nb m + k <= PHYS_MAP_NODE_NIL.

Definition fresh_entry (level : nat) : PhysPageEntry :=
  match level with O => mkEntry 0 PHYS_SECTION_UNASSIGNED | _ => mkEntry 1 PHYS_MAP_NODE_NIL end.

(** A new node at [(level, q)] keeps the map a tree. *)
Lemma map_ok_new ns ns' nb pos level q : map_ok ns nb pos -> shaped ns' -> length ns' = length ns ->
  nb + 1 <= Z.of_nat (length ns) -> nb + 1 <= PHYS_MAP_NODE_NIL ->
  (forall n, n <> Z.to_nat nb -> ns' !! n = ns !! n) ->
  (forall j, 0 <= j < 512 -> ent ns' nb j = fresh_entry level) ->
  map_ok ns' (nb + 1) (fun n => if n =? nb then (level, q) else pos n).
Proof.
  intros M S L H1 H2 O F. pose proof (map_nb _ _ _ M). split; [done|lia|done|].
  intros n i Hn Hi. destruct (Z.eqb_spec n nb) as [->|]; cbn [fst snd].
  - rewrite F by done. destruct level; [by left|right]. split; [done|]. split; [lia|by left].
  - rewrite (ent_agree ns ns') by (lia || (apply O; lia)).
    eapply entry_ok_mono; [apply (map_entries _ _ _ M); lia|lia|].
    intros k Hk. destruct (Z.eqb_spec k nb); [lia|done].
Qed.

Lemma level_node_spec level m e q pos :
  map_ok (nodes m) (nodes_nb m) pos -> entry_ok (nodes_nb m) pos (S level) q e -> skip e = 1 -> room m 1 ->
  exists m1 p pos1, level_node level m e = Ok (m1, mkEntry 1 p) /\
    map_ok (nodes m1) (nodes_nb m1) pos1 /\ 0 <= p < nodes_nb m1 /\ pos1 p = (level, q) /\
    nodes_nb m <= nodes_nb m1 <= nodes_nb m + 1 /\ (forall n, 0 <= n < nodes_nb m -> pos1 n = pos n) /\
    same_rest m m1 /\ (forall n, 0 <= n < nodes_nb m -> nodes m1 !! Z.to_nat n = nodes m !! Z.to_nat n) /\
    (forall idx, look (nodes m1) (S level) (mkEntry 1 p) idx = look (nodes m) (S level) e idx).
Proof.
  intros M He Hs (La & R1 & R2). pose proof (map_nb _ _ _ M) as Hnb. pose proof (map_shaped _ _ _ M) as Sh.
  unfold level_node. rewrite Hs. cbn [Z.eqb negb andb].
  destruct (Z.eqb_spec (ptr e) PHYS_MAP_NODE_NIL) as [En|En].
  - unfold phys_map_node_alloc. cbn [nodes nodes_nb_alloc].
    destruct (Z.eqb_spec (nodes_nb m) PHYS_MAP_NODE_NIL); [lia|].
    destruct (Z.eqb_spec (nodes_nb m) (nodes_nb_alloc m)); [lia|]. cbn [negb c_assert res_bind].
    change PHYS_MAP_NODE_NIL with (2 ^ 26 - 1) in R2.
    destruct (fill_node_spec (nodes m) (nodes_nb m) (mkEntry 1 PHYS_MAP_NODE_NIL) Sh ltac:(lia))
      as (ns1 & -> & S1 & L1 & O1 & F1). cbn [res_bind].
    assert (uwrap 26 (nodes_nb m) = nodes_nb m) as E26 by (apply uwrap_small; lia).
    assert (u32 (nodes_nb m + 1) = nodes_nb m + 1) as E32 by (apply uwrap_small; lia).
    rewrite E26, E32. cbn [ptr nodes put_nodes].
    assert (exists ns2, (match level with
      | O => let* ns := for_loop (Z.to_nat P_L2_SIZE) 0 (fun i ns =>
               node_set ns (nodes_nb m) i (mkEntry 0 PHYS_SECTION_UNASSIGNED)) ns1 in Ok ns
      | S _ => Ok ns1 end) = Ok ns2 /\ shaped ns2 /\ length ns2 = length (nodes m) /\
      (forall n, n <> Z.to_nat (nodes_nb m) -> ns2 !! n = nodes m !! n) /\
      (forall j, 0 <= j < 512 -> ent ns2 (nodes_nb m) j = fresh_entry level)) as (ns2 & E2 & S2 & L2 & O2 & F2).
    { destruct level; [|by exists ns1].
      destruct (fill_node_spec ns1 (nodes_nb m) (mkEntry 0 PHYS_SECTION_UNASSIGNED) S1 ltac:(lia))
        as (ns2 & -> & S2 & L2 & O2 & F2). exists ns2. split; [done|]. split; [done|]. split; [congruence|].
      split; [|done]. intros k Hk. by rewrite O2, O1. }
    exists (mkMap (sections_nb m) (sections_nb_alloc m) (nodes_nb m + 1) (nodes_nb_alloc m) ns2 (sections m)),
      (nodes_nb m), (fun n => if n =? nodes_nb m then (level, q) else pos n).
    split.
    { destruct level; [|by injection E2 as <-]. apply bind_Ok in E2 as (ns & E2 & [= ->]).
      rewrite E2. done. }
    cbn [nodes nodes_nb]. split; [apply (map_ok_new (nodes m)); done || lia|]. split; [lia|].
    split; [by rewrite Z.eqb_refl|]. split; [lia|].
    split; [intros n' Hn'; destruct (Z.eqb_spec n' (nodes_nb m)); [lia|done]|]. split; [done|].
    split; [intros; apply O2; lia|]. intros idx. cbn [look skip ptr]. rewrite Hs, En.
    destruct (Z.eqb_spec (nodes_nb m) PHYS_MAP_NODE_NIL); [done|]. cbn [Z.eqb].
    rewrite F2 by apply slot_range. by destruct level.
  - exists m, (ptr e), pos. destruct He as [[? _]|(_ & _ & [?|[Rp Pp]])]; [lia|done|].
    split; [by destruct e; cbn in *; subst|]. split; [done|]. split; [done|]. split; [done|]. split; [lia|].
    split; [done|]. split; [done|]. split; [done|]. intros idx. cbn [look skip ptr].
    by rewrite Hs.
Qed.

(** ** Mapping *)

(** Page [idx] in the node [p] of level [level]. *)
Definition node_look (ns : node_array) (level : nat) (p idx : Z) : Z * bool :=
  look ns level (ent ns p (slot level idx)) idx.

Lemma write_entry_spec ns nb pos level q p i e : map_ok ns nb pos -> 0 <= p < nb -> pos p = (level, q) ->
  0 <= i < 512 -> entry_ok nb pos level (q * 512 + i) e ->
  exists ns', node_set ns p i e = Ok ns' /\ map_ok ns' nb pos /\ length ns' = length ns /\
    (forall n, n <> Z.to_nat p -> ns' !! n = ns !! n) /\
    forall idx, idx / span (S level) = q ->
      node_look ns' level p idx = if slot level idx =? i then look ns level e idx else node_look ns level p idx.
Proof.
  intros M Hp Pp Hi He. pose proof (map_nb _ _ _ M).
  destruct (node_set_spec ns p i e (map_shaped _ _ _ M) ltac:(lia) Hi) as (ns' & E & S' & L' & O' & A').
  exists ns'. split; [done|].
  assert (forall e' j idx, entry_ok nb pos level j e' -> idx / span level = j ->
    look ns' level e' idx = look ns level e' idx) as LA.
  { intros e' j idx He' Hj. apply (look_agree _ _ nb pos _ M _ j); [done|done|].
    intros n Hn Hl _. apply O'. intros Eq. assert (n = p) as -> by lia. rewrite Pp in Hl. cbn in Hl. lia. }
  split; [split; [done|lia|apply (map_nil _ _ _ M)|]|split; [done|split; [done|]]].
  - intros n j Hn Hj. rewrite A'. destruct (Z.eqb_spec n p) as [->|]; cbn [andb].
    + destruct (Z.eqb_spec j i) as [->|]; [by rewrite Pp|apply (map_entries _ _ _ M); done].
    + apply (map_entries _ _ _ M); done.
  - intros idx Hq. unfold node_look. rewrite A', Z.eqb_refl. cbn [andb].
    pose proof (div_span level idx) as D. rewrite Hq in D.
    destruct (Z.eqb_spec (slot level idx) i) as [Es|Es].
    + apply (LA _ (q * 512 + i)); [done|]. lia.
    + apply (LA _ (q * 512 + slot level idx)); [|done].
      pose proof (map_entries _ _ _ M p (slot level idx) Hp (slot_range _ _)) as H1.
      by rewrite Pp in H1.
Qed.

(** [new] maps the pages [lo .. hi - 1] of the block [q] of level [l] to [leaf]
    and the others as [old]. *)
Definition mapped (old new : Z -> Z * bool) (l : nat) (q lo hi leaf : Z) : Prop :=
  forall idx, idx / span l = q ->
    (lo <= idx < hi -> (new idx).1 = leaf) /\ (~ lo <= idx < hi -> new idx = old idx).

(** The nodes the loop over a node may allocate: below the first and below
    the last page of the range. *)
Definition cost (level : nat) (q index nb : Z) : Z :=
  (if index mod span level =? 0 then 0 else Z.of_nat level) +
  (if (q + 1) * span (S level) <=? index + nb then 0 else Z.of_nat level).

(** What a step that works below the entry [(l, q)] keeps. *)
Definition extends (m m' : PhysPageMap) (pos pos' : position) (l : nat) (q k : Z) : Prop :=
  map_ok (nodes m') (nodes_nb m') pos' /\ nodes_nb m <= nodes_nb m' <= nodes_nb m + k /\
  (forall n, 0 <= n < nodes_nb m -> pos' n = pos n) /\ same_rest m m' /\
  frame (nodes m) (nodes m') (nodes_nb m) pos l q.

(** The specification of [phys_page_set_level] on an entry of level [S level]. *)
Definition set_spec (level : nat) (leaf : Z)
    (f : PhysPageMap -> PhysPageEntry -> Z -> Z -> res (set_state * PhysPageEntry)) : Prop :=
  forall m e q index nb pos,
    map_ok (nodes m) (nodes_nb m) pos -> entry_ok (nodes_nb m) pos (S level) q e -> skip e = 1 ->
    0 < nb -> 0 <= q -> index / span (S level) = q -> (q + 1) * span (S level) <= 2 ^ 54 ->
    room m (1 + cost level q index nb) ->
    (forall idx, index <= idx < index + nb -> idx / span (S level) = q ->
       (look (nodes m) (S level) e idx).2 = true) ->
    exists m' pos' e', let cnt := Z.min nb ((q + 1) * span (S level) - index) in
      f m e index nb = Ok (m', index + cnt, nb - cnt, e') /\
      extends m m' pos pos' (S level) q (1 + cost level q index nb) /\
      entry_ok (nodes_nb m') pos' (S level) q e' /\ skip e' = 1 /\
      mapped (look (nodes m) (S level) e) (look (nodes m') (S level) e') (S level) q index (index + cnt) leaf.

Lemma frame_sub ns ns' nb pos level q i : frame ns ns' nb pos level (q * 512 + i) -> 0 <= i < 512 ->
  frame ns ns' nb pos (S level) q.
Proof.
  intros F Hi n Hn O. apply F; [done|]. destruct O as [O|(idx & C & N)]; [left; lia|right].
  exists idx. split; [done|]. intros E. apply N. rewrite div_span_S, E.
  symmetry. apply (Z.div_unique _ 512 q i); lia.
Qed.

(** Writing an entry of the node itself is a step below the entry above. *)
Lemma extends_write m m1 pos pos1 level q p k ns' :
  extends m m1 pos pos1 (S level) q k -> 0 <= p < nodes_nb m -> pos p = (level, q) ->
  map_ok ns' (nodes_nb m1) pos1 -> length ns' = length (nodes m1) ->
  (forall n, n <> Z.to_nat p -> ns' !! n = nodes m1 !! n) ->
  extends m (put_nodes ns' m1) pos pos1 (S level) q k.
Proof.
  intros (M1 & N1 & P1 & R1 & F1) Hp Pp M' L' O'. split; [done|]. split; [done|]. split; [done|].
  split; [apply same_rest_put; [done|]; destruct R1 as (_ & _ & _ & _ & ->) in L'; done|].
  intros n Hn Ho. cbn [nodes put_nodes]. rewrite O'; [by apply F1|].
  intros E. assert (n = p) as -> by lia. destruct Ho as [H|(idx & C & N)]; rewrite Pp in *; cbn in *; [lia|done].
Qed.

Lemma extends_refl m pos l q k : map_ok (nodes m) (nodes_nb m) pos -> 0 <= k -> extends m m pos pos l q k.
Proof. intros M Hk. split; [done|]. split; [lia|]. done. Qed.

(** The cost of an entry and of the rest of the loop. *)
Definition slot_cost (level : nat) (q index nb c : Z) : Z :=
  cost level q index nb - (if nb - c =? 0 then 0 else cost level q (index + c) (nb - c)).

Lemma node_end level q i : 0 <= i < 512 -> (q * 512 + i + 1) * span level <= (q + 1) * span (S level).
Proof. intros Hi. rewrite span_S. pose proof (span_pos level). nia. Qed.

Lemma direct_cost level q index nb : index mod span level = 0 -> span level <= nb ->
  0 <= slot_cost level q index nb (span level).
Proof.
  intros A L. unfold slot_cost, cost. pose proof (span_pos level).
  assert ((index + span level) mod span level = 0) as ->.
  { replace (index + span level) with (index + 1 * span level) by lia. rewrite Z.mod_add; [done|lia]. }
  rewrite A. replace (index + span level + (nb - span level)) with (index + nb) by lia. zcases; lia.
Qed.

Lemma sub_cost l q i index nb : 0 <= i < 512 -> 0 < nb -> index / span (S l) = q * 512 + i ->
  index mod span (S l) <> 0 \/ nb < span (S l) ->
  1 + cost l (q * 512 + i) index nb <=
  slot_cost (S l) q index nb (Z.min nb ((q * 512 + i + 1) * span (S l) - index)).
Proof.
  intros Hi Hn Hq Hor. apply block in Hq as Hb. pose proof (node_end (S l) q i Hi) as He.
  unfold slot_cost, cost. pose proof (span_pos (S l)).
  assert (index mod span (S l) = 0 -> index mod span l = 0 /\ index = (q * 512 + i) * span (S l)) as Al.
  { intros A. split.
    - apply Z.mod_divide in A as [k Hk]; [|lia]. rewrite Hk, span_S.
      replace (k * (span l * 512)) with (k * 512 * span l) by ring. apply Z.mod_mul. pose proof (span_pos l). lia.
    - pose proof (Z.div_mod index (span (S l))). rewrite A, Hq in *. lia. }
  set (c := Z.min nb ((q * 512 + i + 1) * span (S l) - index)) in *.
  assert (nb - c = 0 \/ (index + c = (q * 512 + i + 1) * span (S l) /\ (index + c) mod span (S l) = 0)) as Hc.
  { destruct (Z.le_gt_cases nb ((q * 512 + i + 1) * span (S l) - index)); [left; lia|right].
    assert (index + c = (q * 512 + i + 1) * span (S l)) as E by lia. split; [done|]. rewrite E.
    apply Z.mod_mul. lia. }
  replace (index + c + (nb - c)) with (index + nb) by lia.
  destruct (Z.eqb_spec (index mod span (S l)) 0) as [A|A].
  - destruct (Al A) as [-> ->]. cbn [Z.eqb].
    destruct Hc as [->|[Hc _]]; cbn [Z.eqb]; zcases; lia.
  - destruct Hc as [Hc|[Hc ->]].
    + rewrite Hc. cbn [Z.eqb]. zcases; lia.
    + cbn [Z.eqb]. zcases; lia.
Qed.

Lemma slot_cost_le level q index nb c : slot_cost level q index nb c <= cost level q index nb.
Proof. unfold slot_cost, cost. zcases; lia. Qed.

Lemma room_mono m k k' : room m k -> k' <= k -> room m k'.
Proof. unfold room. lia. Qed.

(** A page of block [q * 512 + i] is in slot [i] of block [q] one level up. *)
Lemma block_parent l idx q i : idx / span l = q * 512 + i -> 0 <= i < 512 -> idx / span (S l) = q.
Proof. intros H Hi. rewrite div_span_S, H. symmetry. apply (Z.div_unique _ 512 q i); lia. Qed.
Lemma slot_of_block l idx q i : idx / span l = q * 512 + i -> 0 <= i < 512 -> slot l idx = i.
Proof. intros H Hi. unfold slot. rewrite H. symmetry. apply (Z.mod_unique _ 512 q i); lia. Qed.

Section SetEntry.
Context (level : nat) (leaf : Z) (m : PhysPageMap) (q p i index nb : Z) (pos : Z -> nat * Z).
Context (sub : PhysPageMap -> PhysPageEntry -> Z -> Z -> res (set_state * PhysPageEntry)).
Context (Hleaf : 0 <= leaf < 2 ^ 16) (M : map_ok (nodes m) (nodes_nb m) pos).
Context (Hp : 0 <= p < nodes_nb m) (Pp : pos p = (level, q)) (Hi : 0 <= i < 512) (Hn : 0 < nb).
Context (Hq : 0 <= q) (Hix : index / span level = q * 512 + i) (H54 : (q + 1) * span (S level) <= 2 ^ 54).

(** What [set_entry] does to entry [i] of node [p]. *)
Definition entry_set : Prop :=
  exists m' pos', let c := Z.min nb ((q * 512 + i + 1) * span level - index) in
    set_entry sub (span level) leaf p i m index nb = Ok (m', index + c, nb - c) /\
    extends m m' pos pos' (S level) q (slot_cost level q index nb c) /\
    mapped (node_look (nodes m) level p) (node_look (nodes m') level p) (S level) q index (index + c) leaf.

(** A whole aligned block becomes a leaf. *)
Lemma set_entry_direct : index mod span level = 0 -> span level <= nb -> entry_set.
Proof.
  intros C1 C2. pose proof (map_nb _ _ _ M) as Hnb. pose proof (span_pos level) as Sp.
  apply block in Hix as Hb. pose proof (node_end level q i Hi) as He. unfold entry_set, set_entry.
  rewrite node_get_ent by (apply (map_shaped _ _ _ M) || lia). cbn [res_bind].
  rewrite land_aligned, (proj2 (Z.eqb_eq _ _) C1), (proj2 (Z.leb_le _ _) C2). cbn [andb].
  assert (index = (q * 512 + i) * span level) as Ei
    by (pose proof (Z.div_mod index (span level)); rewrite C1, Hix in *; lia).
  cbn [res_bind].
  assert (u64 (index + span level) = index + span level) as -> by (apply uwrap_small; lia).
  assert (uwrap 26 leaf = leaf) as -> by (apply uwrap_small; lia).
  destruct (write_entry_spec _ _ _ _ _ p i (mkEntry 0 leaf) M Hp Pp Hi) as (ns' & -> & M' & L' & O' & Lk);
    [by left|]. cbn [res_bind].
  exists (put_nodes ns' m), pos. cbv zeta.
  replace (Z.min nb ((q * 512 + i + 1) * span level - index)) with (span level) by lia.
  split; [done|]. split.
  { apply (extends_write m m _ _ _ _ p); [|done..]. apply extends_refl; [done|by apply direct_cost]. }
  intros idx Hidx. cbn [nodes put_nodes]. rewrite Lk by done. pose proof (div_span level idx) as D.
  rewrite Hidx in D. destruct (Z.eqb_spec (slot level idx) i) as [Es|Es].
  + rewrite Es in D. apply block in D. split; [by destruct level|lia].
  + split; [|done]. intros R. exfalso. apply Es.
    assert (idx / span level = q * 512 + i) as D2 by (apply block; lia). lia.
Qed.

(** Part of a block goes to the level below. *)
Lemma set_entry_sub l : level = S l -> set_spec l leaf sub ->
  index mod span level <> 0 \/ nb < span level ->
  room m (cost level q index nb) ->
  (forall idx, index <= idx < index + nb -> idx / span (S level) = q ->
     (node_look (nodes m) level p idx).2 = true) ->
  entry_set.
Proof.
  intros El Hsub C' Hroom Hfree. unfold entry_set. subst level.
  pose proof (map_nb _ _ _ M) as Hnb. pose proof (span_pos (S l)) as Sp.
  apply block in Hix as Hb. pose proof (node_end (S l) q i Hi) as He. unfold set_entry.
  rewrite node_get_ent by (apply (map_shaped _ _ _ M) || lia). cbn [res_bind].
  rewrite land_aligned. set (e := ent (nodes m) p i).
  assert (entry_ok (nodes_nb m) pos (S l) (q * 512 + i) e) as Eok.
  { pose proof (map_entries _ _ _ M p i Hp Hi) as H. by rewrite Pp in H. }
  replace ((index mod span (S l) =? 0) && (span (S l) <=? nb)) with false by lia.
  pose proof (Hsub m e (q * 512 + i) index nb pos M Eok) as Hs.
  assert (skip e = 1) as Hskip.
  { pose proof (Hfree index ltac:(lia) (block_parent _ _ _ _ Hix Hi)) as Hf. unfold node_look in Hf.
    rewrite (slot_of_block _ _ _ _ Hix Hi) in Hf. fold e in Hf. cbn [look] in Hf. destruct (Z.eqb_spec (skip e) 0); [done|].
    by destruct Eok as [[? _]|(? & _)]. }
  destruct Hs as (m1 & pos1 & e1 & E1 & X1 & Eok1 & Sk1 & Mp1); [done|done|lia|done|lia|..].
  + eapply room_mono; [exact Hroom|]. etransitivity; [apply sub_cost; done || lia|apply slot_cost_le].
  + intros idx Hr Hd. rewrite <- (Hfree idx Hr).
    * unfold node_look, e. by rewrite (slot_of_block _ _ _ _ Hd Hi).
    * apply (block_parent _ _ _ _ Hd Hi).
  + cbv zeta in E1, X1, Mp1. rewrite E1. cbn [res_bind].
    set (c := Z.min nb ((q * 512 + i + 1) * span (S l) - index)) in *.
    pose proof X1 as (M1 & N1 & P1 & R1 & F1).
    destruct (write_entry_spec (nodes m1) (nodes_nb m1) pos1 (S l) q p i e1 M1) as (ns' & -> & M' & L' & O' & Lk);
      [lia|by rewrite P1|done|done|]. cbn [res_bind].
    exists (put_nodes ns' m1), pos1. split; [done|]. split.
    { apply (extends_write m m1 _ _ _ _ p); [|done..]. split; [done|].
      split; [pose proof (sub_cost l q i index nb Hi Hn Hix C') as Hsc; fold c in Hsc; lia|]. split; [done|]. split; [done|].
      by apply (frame_sub _ _ _ _ _ _ i). }
    intros idx Hidx. cbn [nodes put_nodes]. rewrite Lk by done. pose proof (div_span (S l) idx) as D.
    rewrite Hidx in D. destruct (Z.eqb_spec (slot (S l) idx) i) as [Es|Es].
    * unfold node_look. rewrite Es in *. fold e. apply (Mp1 idx D).
    * split; [intros R; exfalso; apply Es; apply slot_of_block with q; [apply block; lia|done]|].
      intros _. unfold node_look. rewrite (ent_agree (nodes m) (nodes m1)).
      -- apply (look_frame _ _ (nodes_nb m) pos _ (q * 512 + slot (S l) idx) (S l) (q * 512 + i)); [done| |done|done|lia].
         pose proof (map_entries _ _ _ M p (slot (S l) idx) Hp (slot_range _ _)) as H1. by rewrite Pp in H1.
      -- lia.
      -- apply F1; [done|]. left. by rewrite Pp.
Qed.
End SetEntry.

Lemma set_entry_spec level leaf sub : 0 <= leaf < 2 ^ 16 ->
  (forall l, level = S l -> set_spec l leaf sub) ->
  forall m q p i index nb pos,
    map_ok (nodes m) (nodes_nb m) pos -> 0 <= p < nodes_nb m -> pos p = (level, q) -> 0 <= i < 512 ->
    0 < nb -> 0 <= q -> index / span level = q * 512 + i -> (q + 1) * span (S level) <= 2 ^ 54 ->
    room m (cost level q index nb) ->
    (forall idx, index <= idx < index + nb -> idx / span (S level) = q ->
       (node_look (nodes m) level p idx).2 = true) ->
    entry_set level leaf m q p i index nb pos sub.
Proof.
  intros Hleaf Hsub m q p i index nb pos M Hp Pp Hi Hn Hq Hix H54 Hroom Hfree.
  destruct ((index mod span level =? 0) && (span level <=? nb)) eqn:C.
  - apply set_entry_direct; done || lia.
  - destruct level as [|l]; [exfalso; change (span 0) with 1 in C; rewrite Z.mod_1_r in C; cbn in C; lia|].
    apply set_entry_sub with l; auto. lia.
Qed.

Lemma mapped_trans old mid new l q lo mi hi leaf : lo <= mi <= hi ->
  mapped old mid l q lo mi leaf -> mapped mid new l q mi hi leaf -> mapped old new l q lo hi leaf.
Proof.
  intros Hm A B idx Hidx. destruct (A idx Hidx) as [A1 A2], (B idx Hidx) as [B1 B2]. split.
  - intros R. destruct (Z.le_gt_cases mi idx); [apply B1; lia|]. rewrite B2 by lia. apply A1. lia.
  - intros R. rewrite B2 by lia. apply A2. lia.
Qed.

Lemma extends_trans m1 m2 m3 pos1 pos2 pos3 l q k1 k2 : 0 <= nodes_nb m1 ->
  extends m1 m2 pos1 pos2 l q k1 -> extends m2 m3 pos2 pos3 l q k2 -> extends m1 m3 pos1 pos3 l q (k1 + k2).
Proof.
  intros H0 (A1 & A2 & A3 & A4 & A5) (B1 & B2 & B3 & B4 & B5). split; [done|]. split; [lia|].
  split; [intros; rewrite B3, A3 by lia; done|]. split; [by eapply same_rest_trans|].
  intros n Hn O. rewrite B5; [by apply A5|lia|]. unfold outside. by rewrite A3.
Qed.

Lemma extends_mono m m' pos pos' l q k k' : extends m m' pos pos' l q k -> k <= k' -> extends m m' pos pos' l q k'.
Proof. intros (A & B & C & D & E) Hk. split; [done|]. split; [lia|]. done. Qed.

Lemma set_entries_nil sub step leaf p n m index : set_entries sub step leaf p n m index 0 = Ok (m, index, 0).
Proof. by destruct n. Qed.

Lemma cost_nonneg level q index nb : 0 <= cost level q index nb.
Proof. unfold cost. zcases; lia. Qed.

Lemma room_extends m m' pos pos' l q k j : room m (k + j) -> extends m m' pos pos' l q k -> room m' j.
Proof.
  intros (A & B & C) (_ & N & _ & (_ & _ & _ & R1 & R2) & _). unfold room. rewrite R1, R2. lia.
Qed.

Lemma set_entries_spec level leaf sub : 0 <= leaf < 2 ^ 16 ->
  (forall l, level = S l -> set_spec l leaf sub) ->
  forall n m q p index nb pos, (n <= 512)%nat ->
    map_ok (nodes m) (nodes_nb m) pos -> 0 <= p < nodes_nb m -> pos p = (level, q) -> 0 <= nb -> 0 <= q ->
    index <= (q + 1) * span (S level) -> (nb = 0 \/ index / span level = q * 512 + (512 - Z.of_nat n)) ->
    (q + 1) * span (S level) <= 2 ^ 54 -> room m (cost level q index nb) ->
    (forall idx, index <= idx < index + nb -> idx / span (S level) = q ->
       (node_look (nodes m) level p idx).2 = true) ->
    exists m' pos', let cnt := Z.min nb ((q + 1) * span (S level) - index) in
      set_entries sub (span level) leaf p n m index nb = Ok (m', index + cnt, nb - cnt) /\
      extends m m' pos pos' (S level) q (cost level q index nb) /\
      mapped (node_look (nodes m) level p) (node_look (nodes m') level p) (S level) q index (index + cnt) leaf.
Proof.
  intros Hleaf Hsub. induction n as [|n IH]; intros m q p index nb pos Hn M Hp Pp Hnb Hq Hend Hix H54 Hroom Hfree.
  - exists m, pos. cbv zeta.
    assert (Z.min nb ((q + 1) * span (S level) - index) = 0) as ->.
    { destruct Hix as [->|Hix]; [lia|]. apply block in Hix. rewrite span_S in *. lia. }
    rewrite Z.add_0_r, Z.sub_0_r. split; [done|].
    split; [apply extends_refl; [done|apply cost_nonneg]|]. intros idx _. split; [lia|done].
  - cbn [set_entries]. destruct (Z.eqb_spec nb 0) as [->|Nz].
    { exists m, pos. cbv zeta. replace (Z.min 0 _) with 0 by lia. rewrite Z.add_0_r. split; [done|].
      split; [apply extends_refl; [done|apply cost_nonneg]|]. intros idx _. split; [lia|done]. }
    destruct Hix as [?|Hix]; [done|]. change P_L2_SIZE with 512. set (i := 512 - Z.of_nat (S n)) in *.
    assert (0 <= i < 512) as Hi by lia.
    destruct (set_entry_spec level leaf sub Hleaf Hsub m q p i index nb pos M Hp Pp Hi ltac:(lia) Hq Hix H54 Hroom Hfree)
      as (m1 & pos1 & E1 & X1 & Mp1). cbv zeta in E1, X1, Mp1. rewrite E1. cbn [res_bind].
    set (c := Z.min nb ((q * 512 + i + 1) * span level - index)) in *.
    pose proof X1 as (M1 & N1 & P1 & _ & _). apply block in Hix as Hb. pose proof (node_end level q i Hi) as Hne.
    assert (0 < c <= nb) as Hc by lia. pose proof (span_pos level) as Sp.
    destruct (Z.eq_dec (nb - c) 0) as [E0|E0].
    + exists m1, pos1. cbv zeta. rewrite E0, set_entries_nil.
      assert (Z.min nb ((q + 1) * span (S level) - index) = c) as -> by lia. rewrite E0. split; [done|].
      split; [|done]. eapply extends_mono; [exact X1|apply slot_cost_le].
    + assert (index + c = (q * 512 + i + 1) * span level) as Ec by lia.
      assert (slot_cost level q index nb c + cost level q (index + c) (nb - c) = cost level q index nb) as Ecost.
      { unfold slot_cost. rewrite (proj2 (Z.eqb_neq _ _) E0). lia. }
      destruct (IH m1 q p (index + c) (nb - c) pos1) as (m2 & pos2 & E2 & X2 & Mp2);
        [lia|done|lia|by rewrite P1|lia|done|lia| |done| | |].
      * right. rewrite Ec, Z.div_mul; lia.
      * eapply room_extends; [|exact X1]. by rewrite Ecost.
      * intros idx Hr Hd. rewrite (proj2 (Mp1 idx Hd)) by lia. apply Hfree; [lia|done].
      * exists m2, pos2. cbv zeta in *.
        replace (Z.min nb ((q + 1) * span (S level) - index))
          with (c + Z.min (nb - c) ((q + 1) * span (S level) - (index + c))) by lia.
        split; [rewrite E2; do 2 f_equal; [f_equal|]; lia|].
        split; [rewrite <- Ecost; eapply extends_trans; [|exact X1|exact X2]; pose proof (map_nb _ _ _ M); lia|].
        rewrite Z.add_assoc. eapply mapped_trans; [|exact Mp1|exact Mp2]. lia.
Qed.

Lemma page_set_level_spec level leaf : 0 <= leaf < 2 ^ 16 -> set_spec level leaf (phys_page_set_level level leaf).
Proof.
  intros Hleaf. induction level as [level IH] using (well_founded_induction lt_wf).
  intros m e q index nb pos M He Hs Hn Hq Hix H54 Hroom Hfree.
  pose proof (cost_nonneg level q index nb) as Hc.
  destruct (level_node_spec level m e q pos M He Hs) as (m1 & p & pos1 & E1 & M1 & Hp & Pp & N1 & P1 & R1 & O1 & L1);
    [apply (room_mono m _ 1 Hroom); lia|].
  assert (ptr (mkEntry 1 p) <> PHYS_MAP_NODE_NIL) as Np by (pose proof (map_nil _ _ _ M1); cbn; lia).
  assert (forall ns idx, look ns (S level) (mkEntry 1 p) idx = node_look ns level p idx) as Ln.
  { intros ns idx. cbn [look]. cbn [skip Z.eqb]. by rewrite (proj2 (Z.eqb_neq _ _) Np). }
  assert (extends m m1 pos pos1 (S level) q 1) as X1.
  { split; [done|]. split; [done|]. split; [done|]. split; [done|]. intros n' Hn' _. by apply O1. }
  set (sub := match level with O => fun _ _ _ _ => Err UndefinedShift | S level' => phys_page_set_level level' leaf end).
  destruct (set_entries_spec level leaf sub Hleaf) with (n := Z.to_nat (512 - slot level index)) (m := m1) (q := q)
    (p := p) (index := index) (nb := nb) (pos := pos1) as (m2 & pos2 & E2 & X2 & Mp2);
    [..|exists m2, pos2, (mkEntry 1 p)].
  - intros l ->. apply IH. lia.
  - pose proof (slot_range level index). lia.
  - done.
  - done.
  - done.
  - lia.
  - done.
  - apply block in Hix. lia.
  - right. pose proof (slot_range level index). rewrite div_span, Hix. lia.
  - done.
  - by eapply room_extends.
  - intros idx Hr Hd. rewrite <- Ln, L1. by apply Hfree.
  - cbv zeta in *. split.
    { assert (phys_page_set_level level leaf m e index nb =
        let* st := set_entries sub (span level) leaf p (Z.to_nat (512 - slot level index)) m1 index nb in
        Ok (st, mkEntry 1 p)) as ->.
      { destruct level; cbn [phys_page_set_level]; rewrite E1; cbn [res_bind];
          by rewrite step_span, land_slot. }
      by rewrite E2. }
    split; [eapply extends_trans; [pose proof (map_nb _ _ _ M); lia|exact X1|exact X2]|].
    split; [right; split; [done|]; split; [lia|]; right; destruct X2 as (_ & N2 & P2 & _);
            cbn [ptr pred]; split; [lia|by rewrite P2]|].
    split; [done|]. intros idx Hd. rewrite Ln, <- L1, Ln. by apply Mp2.
Qed.

(** ** The dispatch *)

(** A dispatch under construction: an uncompacted tree. *)
Definition dispatch_at (d : AddressSpaceDispatch) (pos : position) : Prop :=
  map_ok (nodes (map d)) (nodes_nb (map d)) pos /\
  Z.of_nat (length (nodes (map d))) = nodes_nb_alloc (map d) /\
  entry_ok (nodes_nb (map d)) pos 6 0 (phys_map d) /\ skip (phys_map d) = 1.
Definition dispatch_wf (d : AddressSpaceDispatch) : Prop := exists pos, dispatch_at d pos.

(** The section number the lookup ends with, before the range check. *)
Definition page_lookup (d : AddressSpaceDispatch) (idx : Z) : res Z :=
  find_loop (Z.to_nat P_L2_LEVELS) (nodes (map d)) idx P_L2_LEVELS (phys_map d).
(** The page is not part of a block mapped above page granularity. *)
Definition page_free (d : AddressSpaceDispatch) (idx : Z) : bool :=
  (look (nodes (map d)) 6 (phys_map d) idx).2.

Lemma find_loop_look ns nb pos : map_ok ns nb pos -> forall l e q idx fuel,
  entry_ok nb pos l q e -> idx / span l = q -> (l <= fuel)%nat ->
  find_loop fuel ns idx (Z.of_nat l) e = Ok (look ns l e idx).1.
Proof.
  intros M. induction l as [|l IH]; intros e q idx fuel He Hq Hf.
  - destruct He as [[Hs _]|(_ & ? & _)]; [|lia]. destruct fuel; cbn; by rewrite Hs.
  - destruct fuel as [|fuel]; [lia|]. cbn [find_loop look].
    destruct He as [[Hs _]|(Hs & _ & He)]; rewrite Hs; [done|]. cbn [Z.eqb].
    replace (Z.of_nat (S l) - 1) with (Z.of_nat l) by lia.
    destruct (Z.ltb_spec (Z.of_nat l) 0); [lia|].
    destruct (Z.eqb_spec (ptr e) PHYS_MAP_NODE_NIL); [done|]. destruct He as [?|[R P]]; [done|].
    rewrite land_slot, node_get_ent; [|apply (map_shaped _ _ _ M)| |apply slot_range].
    2: { pose proof (map_nb _ _ _ M). lia. }
    cbn [res_bind]. apply (IH _ (idx / span l)); [|done|lia].
    pose proof (map_entries _ _ _ M (ptr e) (slot l idx) R (slot_range l idx)) as H1.
    rewrite P in H1. cbn [fst snd pred] in H1. by rewrite <- Hq, <- div_span in H1.
Qed.

Lemma page_block idx : 0 <= idx < 2 ^ 54 <-> idx / span 6 = 0.
Proof. rewrite block. change (span 6) with (2 ^ 54). lia. Qed.

Lemma page_lookup_look d pos idx : dispatch_at d pos -> 0 <= idx < 2 ^ 54 ->
  page_lookup d idx = Ok (look (nodes (map d)) 6 (phys_map d) idx).1.
Proof.
  intros (M & _ & He & _) Hi. unfold page_lookup.
  change P_L2_LEVELS with (Z.of_nat 6) at 2. apply (find_loop_look _ _ _ M 6 _ 0); [done|by apply page_block|].
  change (Z.to_nat P_L2_LEVELS) with 6%nat. lia.
Qed.

Lemma grow_spec {A} (l : list A) x n : 0 <= n -> Z.of_nat (length (grow l x n)) = n /\
  (forall i, (i < length l)%nat -> Z.of_nat i < n -> grow l x n !! i = l !! i).
Proof.
  intros Hn. unfold grow. split.
  - rewrite length_app, length_take, length_replicate. lia.
  - intros i Hi Hin. rewrite lookup_app_l by (rewrite length_take; lia). apply lookup_take_lt. lia.
Qed.

Lemma reserve_spec m k pos : map_ok (nodes m) (nodes_nb m) pos ->
  Z.of_nat (length (nodes m)) = nodes_nb_alloc m -> 0 <= k -> nodes_nb m + k <= PHYS_MAP_NODE_NIL ->
  let m' := phys_map_node_reserve m k in
  map_ok (nodes m') (nodes_nb m) pos /\ nodes_nb m' = nodes_nb m /\ room m' k /\
  sections m' = sections m /\ sections_nb m' = sections_nb m /\ sections_nb_alloc m' = sections_nb_alloc m /\
  forall n, 0 <= n < nodes_nb m -> nodes m' !! Z.to_nat n = nodes m !! Z.to_nat n.
Proof.
  intros M La Hk Hn. pose proof (map_nb _ _ _ M) as Hnb. unfold phys_map_node_reserve.
  change PHYS_MAP_NODE_NIL with (2 ^ 26 - 1) in *.
  assert (u32 (nodes_nb m + k) = nodes_nb m + k) as -> by (apply uwrap_small; lia).
  destruct (Z.ltb_spec (nodes_nb_alloc m) (nodes_nb m + k)) as [Lt|Ge]; cbv zeta.
  - set (a := Z.max (Z.max (u32 (nodes_nb_alloc m * 2)) 16) (nodes_nb m + k)). cbn [nodes nodes_nb].
    destruct (grow_spec (nodes m) blank_node a ltac:(lia)) as [Lg Gg].
    assert (forall n, 0 <= n < nodes_nb m -> grow (nodes m) blank_node a !! Z.to_nat n = nodes m !! Z.to_nat n) as Ag
      by (intros; apply Gg; lia).
    split; [split|].
    + unfold grow, shaped. apply Forall_app. split; [apply Forall_take, (map_shaped _ _ _ M)|].
      apply Forall_replicate. done.
    + lia.
    + done || (change PHYS_MAP_NODE_NIL with (2 ^ 26 - 1); lia).
    + intros n i H1 H2. rewrite (ent_agree (nodes m)) by (lia || by apply Ag). by apply (map_entries _ _ _ M).
    + split; [done|]. split; [|done]. unfold room. cbn [nodes nodes_nb nodes_nb_alloc].
      change PHYS_MAP_NODE_NIL with (2 ^ 26 - 1). lia.
  - split; [done|]. split; [done|]. split; [|done]. unfold room. change PHYS_MAP_NODE_NIL with (2 ^ 26 - 1). lia.
Qed.

(** Mapping pages, on a well-formed dispatch. *)
Lemma phys_page_set_spec d index nb leaf :
  dispatch_wf d -> 0 <= index -> 0 < nb -> index + nb <= 2 ^ 54 -> 0 <= leaf < 2 ^ 16 ->
  nodes_nb (map d) + 3 * P_L2_LEVELS <= PHYS_MAP_NODE_NIL ->
  (forall idx, index <= idx < index + nb -> page_free d idx = true) ->
  exists d', phys_page_set d index nb leaf = Ok d' /\ dispatch_wf d' /\
    subpages d' = subpages d /\ sections (map d') = sections (map d) /\
    sections_nb (map d') = sections_nb (map d) /\ sections_nb_alloc (map d') = sections_nb_alloc (map d) /\
    nodes_nb (map d') <= nodes_nb (map d) + 11 /\
    forall idx, 0 <= idx < 2 ^ 54 ->
      page_lookup d' idx = (if (index <=? idx) && (idx <? index + nb) then Ok leaf else page_lookup d idx) /\
      (~ index <= idx < index + nb -> page_free d' idx = page_free d idx).
Proof.
  intros [pos Hat] Hi Hn Hb Hl Hnodes Hfree. pose proof Hat as (M & La & He & Hs).
  destruct (reserve_spec (map d) (3 * P_L2_LEVELS) pos M La) as (M1 & N1 & R1 & S1 & Sn & Sa & O1); [done|done|].
  unfold phys_page_set. set (m1 := phys_map_node_reserve (map d) (3 * P_L2_LEVELS)) in *.
  change (Z.to_nat (P_L2_LEVELS - 1)) with 5%nat.
  assert (forall idx, 0 <= idx < 2 ^ 54 -> look (nodes m1) 6 (phys_map d) idx = look (nodes (map d)) 6 (phys_map d) idx) as L1.
  { intros idx Hidx. apply (look_agree _ _ _ pos 6 M _ 0); [done|by apply page_block|]. intros n Hn' _ _. by apply O1. }
  assert (cost 5 0 index nb <= 10) as Hc by (unfold cost; zcases; lia).
  change (3 * P_L2_LEVELS) with 18 in R1.
  destruct (page_set_level_spec 5 leaf Hl m1 (phys_map d) 0 index nb pos) as (m2 & pos2 & e2 & E2 & X2 & Eok & Sk & Mp);
    [by rewrite N1|by rewrite N1|done|done|done|apply page_block; lia|done|by apply (room_mono m1 18); [|lia]| |].
  { intros idx Hr Hd. rewrite L1 by (by apply page_block). by apply Hfree. }
  cbv zeta in *. rewrite E2. cbn [res_bind].
  replace (Z.min nb ((0 + 1) * span 6 - index)) with nb in Mp by (change (span 6) with (2 ^ 54); lia).
  destruct X2 as (M2 & N2 & P2 & (Rn & Rna & Rs & Ra & Rl) & _). destruct R1 as (R1 & _).
  exists (mkDispatch e2 m2 (subpages d)). split; [done|].
  assert (dispatch_at (mkDispatch e2 m2 (subpages d)) pos2) as At2.
  { split; [done|]. split; [cbn; congruence|]. done. }
  split; [by exists pos2|]. split; [done|]. split; [cbn; congruence|].
  split; [cbn; congruence|]. split; [cbn; congruence|]. split; [cbn; lia|].
  intros idx Hidx. rewrite (page_lookup_look _ _ _ At2 Hidx), (page_lookup_look _ _ _ Hat Hidx).
  destruct (Mp idx) as [A B]; [by apply page_block|]. unfold page_free. cbn [map phys_map].
  split.
  - destruct (Z.leb_spec index idx), (Z.ltb_spec idx (index + nb)); cbn [andb];
      [by rewrite A by lia|rewrite B, L1 by lia; done..].
  - intros Hr. by rewrite B, L1.
Qed.

(** Mapping a range of pages that are not inside larger mapped blocks
    succeeds: the nodes reserved are enough (eleven of eighteen at most are
    used), no assertion fails, exactly the pages of the range are mapped to the
    section, and every other page keeps its section. *)
Theorem phys_page_set_correct d index nb leaf :
  dispatch_wf d -> 0 <= index -> 0 < nb -> index + nb <= 2 ^ 54 -> 0 <= leaf < 2 ^ 16 ->
  nodes_nb (map d) + 3 * P_L2_LEVELS <= PHYS_MAP_NODE_NIL ->
  (forall idx, index <= idx < index + nb -> page_free d idx = true) ->
  exists d', phys_page_set d index nb leaf = Ok d' /\ dispatch_wf d' /\
    subpages d' = subpages d /\ sections (map d') = sections (map d) /\
    nodes_nb (map d') <= nodes_nb (map d) + 11 /\
    forall idx, 0 <= idx < 2 ^ 54 ->
      page_lookup d' idx = (if (index <=? idx) && (idx <? index + nb) then Ok leaf else page_lookup d idx) /\
      (~ index <= idx < index + nb -> page_free d' idx = page_free d idx).
Proof.
  intros Hw Hi Hn Hb Hl Hnodes Hfree.
  destruct (phys_page_set_spec d index nb leaf) as (d' & E & W & Sp & Se & _ & _ & N & H); [done..|].
  by exists d'.
Qed.

Lemma empty_dispatch_wf m sps : nodes m = [] -> nodes_nb m = 0 -> nodes_nb_alloc m = 0 ->
  dispatch_wf (mkDispatch (mkEntry 1 PHYS_MAP_NODE_NIL) m sps).
Proof.
  intros E1 E2 E3. exists (fun _ => (O, 0)). unfold dispatch_at. cbn [map phys_map]. rewrite E1, E2, E3.
  split; [split; [by constructor|done|done|lia]|]. split; [done|]. split; [|done].
  right. split; [done|]. split; [lia|by left].
Qed.

Lemma phys_page_set_witness :
  let d := mkDispatch (mkEntry 1 PHYS_MAP_NODE_NIL) (mkMap 0 0 0 0 [] []) [] in
  exists d', phys_page_set d 0x10007 0x1000 5 = Ok d' /\ page_lookup d' 0x10007 = Ok 5 /\
    page_lookup d' 0x10006 = Ok 0.
Proof.
  intros d. destruct (phys_page_set_correct d 0x10007 0x1000 5) as (d' & E & _ & _ & _ & _ & H).
  - by apply empty_dispatch_wf.
  - done.
  - done.
  - done.
  - done.
  - done.
  - intros. reflexivity.
  - exists d'. split; [done|]. split.
    + rewrite (proj1 (H 0x10007 ltac:(lia))). vm_compute. reflexivity.
    + rewrite (proj1 (H 0x10006 ltac:(lia))). vm_compute. reflexivity.
Defined.
