(* ===== verification/PhysMapCompact.v ===== *)
(** * The physical page map: compaction

    [phys_page_compact] makes an entry skip nodes with a single child.  A
    lookup in the compacted tree may then end at a section that does not map
    the page, and relies on the range check of [phys_page_find] to reject it. *)

From stdpp Require Import base list numbers.
From S2P Require Import Prelude Int128 PhysMap PhysMapFacts.
Import Int128.

(** Node [n] is below the entry of level [l] for the block [q]. *)
Definition under (pos : position) (l : nat) (q n : Z) : Prop :=
  ((pos n).1 < l)%nat /\ exists idx, idx / span (S (pos n).1) = (pos n).2 /\ idx / span l = q.

Lemma under_outside pos l q q' n : under pos l q n -> q <> q' -> outside pos l q' n.
Proof. intros (_ & idx & C & E) Ne. right. exists idx. split; [done|congruence]. Qed.

Lemma under_child pos l q i n : 0 <= i < 512 -> under pos l (q * 512 + i) n -> under pos (S l) q n.
Proof.
  intros Hi (L & idx & C & E). split; [lia|]. exists idx. split; [done|]. by apply (block_parent _ _ _ i).
Qed.

Lemma under_node pos l q p : pos p = (l, q) -> under pos (S l) q p.
Proof.
  intros E. split; rewrite E; cbn [fst snd]; [lia|]. exists (q * span (S l)).
  rewrite Z.div_mul by (pose proof (span_pos (S l)); lia). done.
Qed.

Section Compaction.
Context (ns0 : node_array) (nb : Z) (pos : position) (M0 : map_ok ns0 nb pos).

Definition agree_under (l : nat) (q : Z) (ns ns' : node_array) : Prop :=
  forall n, 0 <= n < nb -> under pos l q n -> ns' !! Z.to_nat n = ns !! Z.to_nat n.

(** A lookup from the compacted entry [e'] ends where a lookup from [e] in
    the original tree ends; or the page is unassigned there, and the lookup
    ends at the section of some page of the block.  [idx] stands for a page
    with the same low digits as the page [idx0] of the block. *)
Definition compact_ok (ns : node_array) (l : nat) (q : Z) (e e' : PhysPageEntry) : Prop :=
  forall ns' idx idx0 fuel, shaped ns' -> length ns' = length ns0 -> agree_under l q ns ns' ->
    idx0 / span l = q -> idx mod span l = idx0 mod span l -> (l <= fuel)%nat ->
    exists r, find_loop fuel ns' idx (Z.of_nat l) e' = Ok r /\
      (r = (look ns0 l e idx0).1 \/
       (look ns0 l e idx0).1 = 0 /\ exists idx2, idx2 / span l = q /\ r = (look ns0 l e idx2).1).

Lemma compact_ok_agree ns ns' l q e e' :
  compact_ok ns l q e e' -> agree_under l q ns ns' -> compact_ok ns' l q e e'.
Proof.
  intros C A ns'' idx idx0 fuel S L A' Hq Hm Hf. apply C; [done|done| |done|done|done].
  intros n Hn U. rewrite A' by done. by apply A.
Qed.

(** A leaf and an absent node stay as they are. *)
Lemma compact_ok_end ns l q e : entry_ok nb pos l q e -> skip e = 0 \/ ptr e = PHYS_MAP_NODE_NIL ->
  compact_ok ns l q e e.
Proof.
  intros He Hor ns' idx idx0 fuel S L A Hq Hm Hf. exists (look ns0 l e idx0).1. split; [|by left].
  destruct He as [[Hs _]|(Hs & Hl & _)].
  - destruct l, fuel; cbn [find_loop look]; rewrite Hs; done.
  - destruct Hor as [?|Hp]; [lia|]. destruct l as [|l]; [lia|]. destruct fuel as [|fuel]; [lia|].
    cbn [find_loop look]. rewrite Hs, Hp. cbn [Z.eqb]. destruct (Z.ltb_spec (Z.of_nat (Datatypes.S l) - 1) 0); [lia|].
    done.
Qed.

(** The low digits of a page: the slot and the digits below it. *)
Lemma same_digits l idx idx0 : idx mod span (S l) = idx0 mod span (S l) ->
  slot l idx = slot l idx0 /\ idx mod span l = idx0 mod span l.
Proof.
  intros E. pose proof (span_pos l). pose proof (span_pos (S l)).
  assert (idx = idx0 + (idx / span (S l) - idx0 / span (S l)) * 512 * span l) as ->.
  { pose proof (Z.div_mod idx (span (S l)) ltac:(lia)). pose proof (Z.div_mod idx0 (span (S l)) ltac:(lia)).
    rewrite span_S in *. nia. }
  split; [|apply Z.mod_add; lia]. unfold slot. rewrite Z.div_add by lia. apply Z.mod_add. lia.
Qed.

(** The children of the node [p] at [(l, q)], compacted up to entry [k]. *)
Definition child_ok (ns : node_array) (l : nat) (q p j : Z) : Prop :=
  (ptr (ent ns p j) = PHYS_MAP_NODE_NIL <-> ptr (ent ns0 p j) = PHYS_MAP_NODE_NIL) /\
  0 <= skip (ent ns p j) <= Z.of_nat l /\
  compact_ok ns l (q * 512 + j) (ent ns0 p j) (ent ns p j).

(** The entry that still goes through the node. *)
Lemma compact_ok_node ns l q p : 0 <= p < nb -> pos p = (l, q) ->
  (forall j, 0 <= j < 512 -> child_ok ns l q p j) ->
  compact_ok ns (S l) q (mkEntry 1 p) (mkEntry 1 p).
Proof.
  intros Hp Pp Hc ns' idx idx0 fuel Sh L A Hq Hm Hf. destruct fuel as [|fuel]; [lia|].
  pose proof (map_nb _ _ _ M0). pose proof (map_nil _ _ _ M0).
  destruct (same_digits l idx idx0 Hm) as [Es Em].
  cbn [find_loop look skip ptr]. cbn [Z.eqb].
  replace (Z.of_nat (S l) - 1) with (Z.of_nat l) by lia. destruct (Z.ltb_spec (Z.of_nat l) 0); [lia|].
  destruct (Z.eqb_spec p PHYS_MAP_NODE_NIL); [lia|].
  rewrite land_slot, node_get_ent by (done || lia || apply slot_range). cbn [res_bind].
  rewrite (ent_agree ns ns') by (lia || (apply A; [done|by apply under_node])).
  pose proof (div_span l idx0) as D. rewrite Hq in D. rewrite Es.
  destruct (Hc (slot l idx0) (slot_range _ _)) as (_ & _ & C).
  destruct (C ns' idx idx0 fuel Sh L) as (r & Er & Hr); [|done|done|lia|].
  { intros k Hk U. apply A; [done|]. eapply under_child, U. apply slot_range. }
  exists r. split; [done|]. destruct Hr as [Hr|(Z0 & idx2 & D2 & Hr)]; [by left|right]. split; [done|].
  exists idx2. split; [apply (block_parent _ _ _ _ D2), slot_range|].
  by rewrite (slot_of_block _ _ _ _ D2 (slot_range _ _)).
Qed.

(** The entry that skips the node, whose only child is [v]. *)
Lemma compact_ok_skip ns l q p v : 0 <= p < nb -> pos p = (l, q) -> 0 <= v < 512 ->
  (l < 7)%nat -> child_ok ns l q p v ->
  (forall j, 0 <= j < 512 -> j <> v -> ptr (ent ns0 p j) = PHYS_MAP_NODE_NIL) ->
  compact_ok ns (S l) q (mkEntry 1 p)
    (mkEntry (if skip (ent ns p v) =? 0 then 0 else uwrap 6 (1 + skip (ent ns p v))) (ptr (ent ns p v))).
Proof.
  intros Hp Pp Hv Hl (_ & Rs & C) Hj ns' idx idx0 fuel Sh L A Hq Hm Hf.
  pose proof (map_nil _ _ _ M0). pose proof (span_pos l).
  destruct (same_digits l idx idx0 Hm) as [_ Em]. set (c := ent ns p v) in *.
  assert (find_loop fuel ns' idx (Z.of_nat (S l))
    (mkEntry (if skip c =? 0 then 0 else uwrap 6 (1 + skip c)) (ptr c)) =
    find_loop fuel ns' idx (Z.of_nat l) c) as ->.
  { destruct (Z.eqb_spec (skip c) 0) as [E|E].
    - destruct fuel; cbn [find_loop skip ptr]; by rewrite E.
    - rewrite uwrap_small by lia.
      assert ((1 + skip c =? 0) = false) as F by lia. assert ((skip c =? 0) = false) as F' by lia.
      destruct fuel as [|fuel]; cbn [find_loop skip ptr]; rewrite F, F';
        (replace (Z.of_nat (S l) - (1 + skip c)) with (Z.of_nat l - skip c) by lia); done. }
  set (idx1 := (q * 512 + v) * span l + idx0 mod span l).
  assert (0 <= idx0 mod span l < span l) by (apply Z.mod_pos_bound; lia).
  assert (idx1 / span l = q * 512 + v) as D1 by (apply block; unfold idx1; lia).
  assert (forall i, i / span l = q * 512 + v ->
    look ns0 (S l) (mkEntry 1 p) i = look ns0 l (ent ns0 p v) i) as Lv.
  { intros i Di. cbn [look skip ptr]. cbn [Z.eqb]. destruct (Z.eqb_spec p PHYS_MAP_NODE_NIL); [lia|].
    by rewrite (slot_of_block _ _ _ _ Di Hv). }
  destruct (C ns' idx idx1 fuel Sh L) as (r & Er & Hr).
  { intros k Hk U. apply A; [done|]. by eapply under_child, U. }
  { done. }
  { unfold idx1. rewrite Z.add_comm, Z.mod_add, Z.mod_mod by lia. done. }
  { lia. }
  exists r. split; [done|].
  assert (exists idx2, idx2 / span l = q * 512 + v /\ r = (look ns0 l (ent ns0 p v) idx2).1) as (idx2 & D2 & Hr2).
  { destruct Hr as [Hr|(_ & idx2 & D2 & Hr)]; [by exists idx1|by exists idx2]. }
  pose proof (div_span l idx0) as D0. rewrite Hq in D0.
  destruct (Z.eq_dec (slot l idx0) v) as [Es|Es].
  - assert (idx1 = idx0) as E1.
    { rewrite Es in D0. unfold idx1. pose proof (Z.div_mod idx0 (span l) ltac:(lia)). rewrite D0 in *. lia. }
    rewrite E1 in *. rewrite Lv by done. destruct Hr as [Hr|(Z0 & _)]; [by left|right].
    split; [done|]. exists idx2. rewrite Lv by done. split; [by apply (block_parent _ _ _ v)|done].
  - right. split.
    + cbn [look skip ptr]. cbn [Z.eqb]. destruct (Z.eqb_spec p PHYS_MAP_NODE_NIL); [lia|].
      pose proof (map_entries _ _ _ M0 p (slot l idx0) Hp (slot_range _ _)) as He. rewrite Pp in He.
      pose proof (Hj (slot l idx0) (slot_range _ _) Es) as Hn.
      destruct He as [[_ He]|(Hs & Hl0 & _)]; [rewrite Hn in He; change PHYS_MAP_NODE_NIL with (2 ^ 26 - 1) in He; lia|].
      cbn [fst] in Hl0. destruct l as [|l]; [lia|]. cbn [look]. rewrite Hs, Hn. done.
    + exists idx2. rewrite Lv by done. split; [by apply (block_parent _ _ _ v)|done].
Qed.

(** ** The loop over the children *)

Lemma child_ok_agree ns ns' l q p j : child_ok ns l q p j -> agree_under l (q * 512 + j) ns ns' ->
  ent ns' p j = ent ns p j -> child_ok ns' l q p j.
Proof.
  intros (A & B & C) Ag E. unfold child_ok. rewrite E. split; [done|]. split; [done|].
  by apply (compact_ok_agree ns).
Qed.

(** The number of children seen and the last of them. *)
Definition counted (p k vp v : Z) : Prop :=
  (v = 0 /\ forall j, 0 <= j < k -> ptr (ent ns0 p j) = PHYS_MAP_NODE_NIL) \/
  (v = 1 /\ 0 <= vp < k /\ ptr (ent ns0 p vp) <> PHYS_MAP_NODE_NIL /\
   forall j, 0 <= j < k -> j <> vp -> ptr (ent ns0 p j) = PHYS_MAP_NODE_NIL) \/
  2 <= v.

Lemma counted_skip p k vp v : counted p k vp v -> ptr (ent ns0 p k) = PHYS_MAP_NODE_NIL -> counted p (k + 1) vp v.
Proof.
  intros [[-> H]|[(-> & R & N & H)|H]] E; [left|right; left|by right; right].
  - split; [done|]. intros j Hj. destruct (Z.eq_dec j k) as [->|]; [done|apply H; lia].
  - split; [done|]. split; [lia|]. split; [done|]. intros j Hj Nj.
    destruct (Z.eq_dec j k) as [->|]; [done|apply H; [lia|done]].
Qed.

Lemma counted_add p k vp v : 0 <= k -> counted p k vp v -> ptr (ent ns0 p k) <> PHYS_MAP_NODE_NIL ->
  counted p (k + 1) k (v + 1).
Proof.
  intros Hk [[-> H]|[(-> & _)|H]] E; [right; left|right; right; lia|right; right; lia].
  split; [done|]. split; [lia|]. split; [done|]. intros j Hj Nj. apply H. lia.
Qed.

(** The state of the loop before entry [k], started on [ns]. *)
Definition loop_inv (ns : node_array) (l : nat) (q p k : Z) (st : node_array * Z * Z) : Prop :=
  let '(ns', vp, v) := st in
  shaped ns' /\ length ns' = length ns0 /\ frame ns ns' nb pos (S l) q /\
  (forall j, 0 <= j < k -> child_ok ns' l q p j) /\
  (forall j, k <= j < 512 -> ent ns' p j = ent ns0 p j /\ agree_under l (q * 512 + j) ns0 ns') /\
  counted p k vp v.

(** A child that stays as it is. *)
Lemma loop_keep ns l q p k ns' vp v vp' v' : 0 <= k < 512 -> 0 <= p < nb -> pos p = (l, q) ->
  loop_inv ns l q p k (ns', vp, v) ->
  skip (ent ns0 p k) = 0 \/ ptr (ent ns0 p k) = PHYS_MAP_NODE_NIL ->
  counted p (k + 1) vp' v' -> loop_inv ns l q p (k + 1) (ns', vp', v').
Proof.
  intros Hk Hp Pp (S1 & L1 & F1 & C1 & R1 & N1) Hor Hc. split; [done|]. split; [done|]. split; [done|].
  pose proof (map_entries _ _ _ M0 p k Hp Hk) as He. rewrite Pp in He. cbn [fst snd] in He.
  split; [|split; [intros; apply R1; lia|done]]. intros j Hj.
  destruct (Z.eq_dec j k) as [->|]; [|apply C1; lia].
  destruct (R1 k ltac:(lia)) as [E _]. unfold child_ok. rewrite E. split; [done|].
  split; [destruct He as [[-> _]|(-> & ? & _)]; lia|]. by apply compact_ok_end.
Qed.

(** A child that is compacted. *)
Lemma loop_compact ns l q p k ns' vp v e1 ns1 : 0 <= k < 512 -> 0 <= p < nb -> pos p = (l, q) ->
  loop_inv ns l q p k (ns', vp, v) -> ptr (ent ns0 p k) <> PHYS_MAP_NODE_NIL ->
  shaped ns1 -> length ns1 = length ns0 -> frame ns' ns1 nb pos l (q * 512 + k) ->
  (ptr e1 = PHYS_MAP_NODE_NIL <-> ptr (ent ns0 p k) = PHYS_MAP_NODE_NIL) -> 0 <= skip e1 <= Z.of_nat l ->
  compact_ok ns1 l (q * 512 + k) (ent ns0 p k) e1 ->
  exists ns2, node_set ns1 p k e1 = Ok ns2 /\ loop_inv ns l q p (k + 1) (ns2, k, v + 1).
Proof.
  intros Hk Hp Pp (S' & L' & F' & C' & R' & N') Hv S1 L1 F1 P1 K1 C1. pose proof (map_nb _ _ _ M0).
  destruct (node_set_spec ns1 p k e1 S1 ltac:(lia) Hk) as (ns2 & E2 & S2 & L2 & O2 & A2).
  assert (forall n, 0 <= n < nb -> n <> p -> ns2 !! Z.to_nat n = ns1 !! Z.to_nat n) as O2'
    by (intros; apply O2; lia).
  assert (forall i, agree_under l i ns1 ns2) as Ag12.
  { intros i n Hn [Ln _]. apply O2'; [done|]. intros ->. rewrite Pp in Ln. cbn in Ln. lia. }
  assert (forall j, j <> k -> ent ns2 p j = ent ns' p j) as Ep.
  { intros j Nj. rewrite A2, Z.eqb_refl, (proj2 (Z.eqb_neq _ _) Nj). cbn [andb].
    apply ent_agree; [lia|]. apply F1; [done|]. left. by rewrite Pp. }
  assert (forall j, j <> k -> agree_under l (q * 512 + j) ns' ns2) as Ag2.
  { intros j Nj n Hn U. rewrite (Ag12 (q * 512 + j)) by done. apply F1; [done|].
    apply (under_outside _ _ (q * 512 + j)); [done|lia]. }
  exists ns2. split; [done|]. split; [done|]. split; [congruence|]. split; [|split; [|split]].
  - intros n Hn O. rewrite O2'.
    + rewrite (frame_sub _ _ _ _ _ _ k F1 Hk n Hn O). by apply F'.
    + done.
    + intros ->. destruct O as [O|(idx & C & N)]; rewrite Pp in *; cbn in *; [lia|done].
  - intros j Hj. destruct (Z.eq_dec j k) as [->|Nj].
    + unfold child_ok. rewrite A2, !Z.eqb_refl. cbn [andb]. split; [done|]. split; [done|].
      by apply (compact_ok_agree ns1).
    + apply (child_ok_agree ns'); [apply C'; lia|by apply Ag2|by apply Ep].
  - intros j Hj. destruct (R' j ltac:(lia)) as [Ej Aj]. rewrite Ep by lia. split; [done|].
    intros n Hn U. rewrite (Ag2 j) by (done || lia). by apply Aj.
  - apply counted_add with vp; [lia|done|done].
Qed.

(** ** The recursion *)

Lemma compact_spec l : forall fuel e q ns, entry_ok nb pos l q e -> skip e = 1 -> (l <= fuel)%nat -> (l <= 7)%nat ->
  shaped ns -> length ns = length ns0 -> agree_under l q ns0 ns ->
  exists e' ns', phys_page_compact fuel e ns = Ok (e', ns') /\ shaped ns' /\ length ns' = length ns0 /\
    frame ns ns' nb pos l q /\ (ptr e' = PHYS_MAP_NODE_NIL <-> ptr e = PHYS_MAP_NODE_NIL) /\
    0 <= skip e' <= Z.of_nat l /\ compact_ok ns' l q e e'.
Proof.
  induction l as [|l IH]; intros fuel e q ns He Hs Hf Hl Sh L Ag.
  { destruct He as [[? _]|(_ & ? & _)]; lia. }
  destruct fuel as [|fuel]; [lia|]. cbn [phys_page_compact].
  destruct (Z.eqb_spec (ptr e) PHYS_MAP_NODE_NIL) as [En|En].
  { exists e, ns. split; [done|]. split; [done|]. split; [done|]. split; [done|]. split; [done|].
    split; [lia|]. apply compact_ok_end; [done|by right]. }
  destruct He as [[? _]|(_ & _ & [?|[Rp Pp]])]; [lia|done|]. cbn [pred] in Pp. set (p := ptr e) in *.
  assert (e = mkEntry 1 p) as Ee by (unfold p; destruct e; cbn in *; by subst).
  pose proof (map_nb _ _ _ M0) as Hnb.
  match goal with |- context [for_loop _ 0 ?b _] => set (body := b) end.
  destruct (for_loop_inv (loop_inv ns l q p) body (Z.to_nat P_L2_SIZE) 0 (ns, P_L2_SIZE, 0))
    as ([[ns1 vp] v] & E1 & S1 & L1 & F1 & C1 & _ & N1).
  - split; [done|]. split; [done|]. split; [done|]. split; [lia|]. split; [|left; split; [done|lia]].
    intros j Hj. split; [apply ent_agree; [lia|]; apply Ag; [done|by apply under_node]|].
    intros n Hn U. apply Ag; [done|]. by eapply under_child, U.
  - intros k [[ns' vp] v] Hk Inv. change P_L2_SIZE with 512 in Hk.
    pose proof Inv as (S' & L' & F' & C' & R' & N'). destruct (R' k ltac:(lia)) as [Ek Agk].
    pose proof (map_entries _ _ _ M0 p k Rp ltac:(lia)) as Hek. rewrite Pp in Hek. cbn [fst snd] in Hek.
    unfold body. rewrite node_get_ent by (done || lia). cbn [res_bind]. rewrite Ek.
    destruct (Z.eqb_spec (ptr (ent ns0 p k)) PHYS_MAP_NODE_NIL) as [Ez|Nz].
    { eexists. split; [done|]. apply (loop_keep _ _ _ _ _ _ vp v); [lia|done|done|done|by right|].
      by apply counted_skip. }
    destruct (Z.eqb_spec (skip (ent ns0 p k)) 0) as [Es|Es].
    { eexists. split; [done|]. apply (loop_keep _ _ _ _ _ _ vp v); [lia|done|done|done|by left|].
      apply counted_add with vp; [lia|done|done]. }
    destruct (IH fuel (ent ns0 p k) (q * 512 + k) ns') as (e1 & ns1 & E1 & S1 & L1 & F1 & P1 & K1 & C1);
      [done|destruct Hek as [[? _]|(? & _)]; done|lia|lia|done|done|done|].
    rewrite E1. cbn [res_bind].
    destruct (loop_compact ns l q p k ns' vp v e1 ns1) as (ns2 & E2 & Inv2); [lia|done..|].
    rewrite E2. cbn [res_bind]. by exists (ns2, k, v + 1).
  - rewrite E1. cbn [res_bind]. change (0 + Z.of_nat (Z.to_nat P_L2_SIZE)) with 512 in *.
    assert (compact_ok ns1 (S l) q e e) as Ce by (rewrite Ee; by apply compact_ok_node).
    unfold compact_entry. destruct (Z.eqb_spec v 1) as [->|]; cbn [negb res_bind].
    2: { exists e, ns1. split; [done|]. split; [done|]. split; [done|]. split; [done|]. split; [done|].
         split; [lia|done]. }
    destruct N1 as [[? _]|[(_ & Rv & Nv & Hv)|?]]; [lia| |lia].
    change P_L2_SIZE with 512. destruct (Z.ltb_spec vp 512); [|lia]. cbn [c_assert res_bind]. fold p.
    rewrite node_get_ent by (done || lia). cbn [res_bind]. rewrite Hs.
    destruct (C1 vp Rv) as (Pv & Kv & Cv).
    destruct (Z.shiftl 1 3 <=? 1 + skip (ent ns1 p vp)).
    { exists e, ns1. split; [done|]. split; [done|]. split; [done|]. split; [done|]. split; [done|].
      split; [lia|done]. }
    cbn [res_bind]. eexists _, ns1. split; [done|]. split; [done|]. split; [done|]. split; [done|].
    split; [cbn [ptr]; rewrite Pv; done|]. split.
    { cbn [skip]. destruct (_ =? 0); [lia|]. rewrite uwrap_small; lia. }
    rewrite Ee. apply compact_ok_skip; done || lia || by apply C1.
Qed.

End Compaction.

(** ** The claims *)

(** Whether the range check of [phys_page_find] accepts section [n]. *)
Definition section_covers (secs : list MemoryRegionSection) (n addr : Z) : bool :=
  match aget secs n with
  | Ok s => negb (hi (sec_size s) =? 0)
            || range_covers_byte (offset_within_address_space s) (lo (sec_size s)) addr
  | Err _ => false
  end.

(** The sections the pages are mapped to exist, and a section that covers an
    address is the one the page of the address is mapped to. *)
Definition sections_fit (d : AddressSpaceDispatch) : Prop :=
  (exists s, aget (sections (map d)) 0 = Ok s) /\
  forall idx n, 0 <= idx < 2 ^ 54 -> page_lookup d idx = Ok n ->
    (exists s, aget (sections (map d)) n = Ok s) /\
    forall addr, 0 <= addr < 2 ^ 64 -> n <> 0 -> section_covers (sections (map d)) n addr = true ->
      page_lookup d (Z.shiftr addr TARGET_PAGE_BITS) = Ok n.

Definition find_in (d : AddressSpaceDispatch) (addr : Z) : res Z :=
  phys_page_find (phys_map d) addr (nodes (map d)) (sections (map d)).

Lemma find_in_lookup d addr n s : page_lookup d (Z.shiftr addr TARGET_PAGE_BITS) = Ok n ->
  aget (sections (map d)) n = Ok s ->
  find_in d addr = Ok (if section_covers (sections (map d)) n addr then n else 0).
Proof.
  intros E Es. unfold find_in, phys_page_find. unfold page_lookup in E. rewrite E. cbn [res_bind].
  unfold section_covers. rewrite Es. cbn [res_bind]. by destruct (_ || _).
Qed.

Lemma page_of addr : 0 <= addr < 2 ^ 64 -> 0 <= Z.shiftr addr TARGET_PAGE_BITS < 2 ^ 54.
Proof. intros H. unfold TARGET_PAGE_BITS. rewrite Z.shiftr_div_pow2 by lia. dlia. Qed.

Lemma compact_all_spec d :
  dispatch_wf d -> sections_fit d ->
  exists d', phys_page_compact_all d = Ok d' /\ sections (map d') = sections (map d) /\
    subpages d' = subpages d /\
    forall addr, 0 <= addr < 2 ^ 64 -> find_in d' addr = find_in d addr.
Proof.
  intros [pos Hat] [[s0 Hs0] Hfit]. pose proof Hat as (M & _ & He & Hs).
  unfold phys_page_compact_all. rewrite Hs. cbn [Z.eqb].
  destruct (compact_spec (nodes (map d)) (nodes_nb (map d)) pos M 6 (Z.to_nat P_L2_LEVELS) (phys_map d) 0
    (nodes (map d))) as (e' & ns' & -> & S' & L' & _ & _ & _ & C');
    [done|done|done|lia|apply (map_shaped _ _ _ M)|done|done|]. cbn [res_bind].
  eexists. split; [done|]. split; [done|]. split; [done|]. intros addr Ha. pose proof (page_of addr Ha) as Hp.
  set (idx := Z.shiftr addr TARGET_PAGE_BITS) in *. set (d' := mkDispatch e' _ _).
  destruct (C' ns' idx idx (Z.to_nat P_L2_LEVELS) S' L') as (r & Er & Hr);
    [done|by apply page_block|done|done|].
  change (Z.of_nat 6) with P_L2_LEVELS in Er. change (find_loop _ _ _ _ _) with (page_lookup d' idx) in Er.
  pose proof (page_lookup_look d pos idx Hat Hp) as En. set (n := (look _ 6 _ idx).1) in *.
  destruct (Hfit idx n Hp En) as [[sn Esn] _]. rewrite (find_in_lookup d addr n sn En Esn).
  destruct Hr as [->|(Z0 & idx2 & D2 & Hr)]; [by apply (find_in_lookup d' addr n sn)|].
  pose proof (proj2 (page_block idx2) D2) as Hp2.
  pose proof (page_lookup_look d pos idx2 Hat Hp2) as En2. rewrite <- Hr in En2.
  destruct (Hfit idx2 r Hp2 En2) as [[sr Esr] Hcov]. rewrite (find_in_lookup d' addr r sr Er Esr), Z0.
  destruct (Z.eq_dec r 0) as [->|Nr]; [by destruct (section_covers _ _ _)|].
  change (sections (map d')) with (sections (map d)).
  destruct (section_covers (sections (map d)) r addr) eqn:Cov; [|by case_match].
  pose proof (Hcov addr Ha Nr Cov) as F. fold idx in F. rewrite En in F. injection F as F. lia.
Qed.

(** C27: compaction of a map whose sections fit succeeds and changes no
    lookup: [phys_page_find] returns the same section for every address of the
    64-bit space. *)
Theorem phys_page_compact_correct d :
  dispatch_wf d -> sections_fit d ->
  exists d', phys_page_compact_all d = Ok d' /\ sections (map d') = sections (map d) /\
    subpages d' = subpages d /\
    forall addr, 0 <= addr < 2 ^ 64 -> find_in d' addr = find_in d addr.
Proof. apply compact_all_spec. Qed.

(** One block of [2^45] pages mapped to section 1. *)
Definition one_block : AddressSpaceDispatch :=
  mkDispatch (mkEntry 1 0)
    (mkMap 2 2 1 1 [mkEntry 0 1 :: replicate 511 (mkEntry 1 PHYS_MAP_NODE_NIL)]
       [mkSection io_mem_unassigned 0 int128_2_64 0 false;
        mkSection (GuestMR 7) 0 (int128_make64 (2 ^ 55)) 0 false]) [].

Lemma one_block_ent j : 0 <= j < 512 ->
  ent (nodes (map one_block)) 0 j = if j =? 0 then mkEntry 0 1 else mkEntry 1 PHYS_MAP_NODE_NIL.
Proof.
  intros Hj. unfold ent.
  change (node_get (nodes (map one_block)) 0 j) with
    (aget (mkEntry 0 1 :: replicate 511 (mkEntry 1 PHYS_MAP_NODE_NIL)) j).
  unfold aget. destruct (Z.ltb_spec j 0); [lia|].
  destruct (Z.eqb_spec j 0) as [->|]; [done|].
  rewrite lookup_cons_ne_0 by lia. rewrite lookup_replicate_2 by lia. done.
Qed.

Lemma one_block_at : dispatch_at one_block (fun _ => (5%nat, 0)).
Proof.
  split; [split|].
  - by constructor.
  - done.
  - done.
  - intros n i Hn Hi. assert (n = 0) as -> by (cbn in Hn; lia). rewrite one_block_ent by done.
    destruct (Z.eqb_spec i 0) as [->|]; [by left|right]. split; [done|]. split; [cbn; lia|by left].
  - split; [done|]. split; [|done]. right. split; [done|]. split; [lia|]. right. done.
Qed.

Lemma one_block_lookup idx : 0 <= idx < 2 ^ 54 ->
  page_lookup one_block idx = Ok (if idx <? 2 ^ 45 then 1 else 0).
Proof.
  intros Hi. rewrite (page_lookup_look _ _ _ one_block_at Hi).
  change (phys_map one_block) with (mkEntry 1 0). cbn [look skip ptr]. change (1 =? 0) with false.
  change (0 =? PHYS_MAP_NODE_NIL) with false. cbv iota. rewrite one_block_ent by apply slot_range.
  assert (slot 5 idx = idx / 2 ^ 45) as ->.
  { unfold slot. change (span 5) with (2 ^ 45). apply Z.mod_small. dlia. }
  destruct (Z.ltb_spec idx (2 ^ 45)).
  - rewrite Z.div_small by lia. done.
  - destruct (Z.eqb_spec (idx / 2 ^ 45) 0); [dlia|done].
Qed.

Lemma phys_page_compact_witness :
  exists d', phys_page_compact_all one_block = Ok d' /\ find_in d' (2 ^ 55 - 1) = Ok 1 /\ find_in d' (2 ^ 55) = Ok 0.
Proof.
  destruct (phys_page_compact_correct one_block) as (d' & E & _ & _ & H).
  - exact (ex_intro _ _ one_block_at).
  - split; [by eexists|]. intros idx n Hi En. rewrite one_block_lookup in En by done. injection En as <-.
    split; [destruct (_ <? _); by eexists|]. intros addr Ha Nz Cov.
    destruct (idx <? 2 ^ 45); [|done]. rewrite one_block_lookup by (by apply page_of).
    assert (addr <= 2 ^ 55 - 1) by
      (unfold section_covers in Cov; apply orb_true_iff in Cov as [Cov|Cov]; [done|];
       apply andb_true_iff in Cov as [_ Cov]; apply Z.leb_le in Cov; exact Cov).
    unfold TARGET_PAGE_BITS. rewrite Z.shiftr_div_pow2 by lia.
    destruct (Z.ltb_spec (addr / 2 ^ 10) (2 ^ 45)); [done|dlia].
  - exists d'. split; [done|]. rewrite !H by lia. split; vm_compute; reflexivity.
Defined.
