(* ===== verification/Dispatch.v ===== *)
(** * From the flat view to the dispatch ([exec.c], [memory.c])

    The listener of [exec.c] rebuilds the dispatch of an address space on every
    topology change: [mem_begin] starts an empty map, [mem_add] enters every
    section of the new view (the head and the tail of a section go into
    subpages, the whole pages between them into the page map) and [mem_commit]
    compacts it.  The theorems here compose the rendering of the region tree,
    the topology events and the page map: an address is dispatched to the
    region and the offset that the region tree resolves it to. *)

From stdpp Require Import base list numbers.
From S2P Require Import Prelude Int128 FlatView FlatViewFacts FlatViewRefine Topology PhysMap PhysMapFacts PhysMapCompact.
Import Int128.

(** ** Arithmetic of pages *)

Lemma page_offset_mod a : page_offset a = a mod 1024.
Proof. unfold page_offset. exact (Z.land_ones a 10 ltac:(lia)). Qed.

Lemma page_base_val a : 0 <= a < 2 ^ 64 -> page_base a = 1024 * (a / 1024).
Proof.
  intros Ha. unfold page_base. change (u64 (Z.lnot (TARGET_PAGE_SIZE - 1))) with (Z.shiftl (Z.ones 54) 10).
  apply Z.bits_inj'. intros i Hi. replace (1024 * (a / 1024)) with (Z.shiftl (Z.shiftr a 10) 10)
    by (rewrite Z.shiftl_mul_pow2, Z.shiftr_div_pow2 by lia; change (2 ^ 10) with 1024; lia).
  rewrite Z.land_spec, !Z.shiftl_spec by lia. destruct (Z.ltb_spec i 10).
  - rewrite !(Z.testbit_neg_r _ (i - 10)) by lia. apply andb_false_r.
  - rewrite ones_testbit, Z.shiftr_spec by lia. replace (i - 10 + 10) with i by lia.
    destruct (Z.ltb_spec (i - 10) 54); [apply andb_true_r|].
    rewrite (testbit_high a 64) by lia. done.
Qed.

Lemma shiftr_page a : Z.shiftr a TARGET_PAGE_BITS = a / 1024.
Proof. unfold TARGET_PAGE_BITS. by rewrite Z.shiftr_div_pow2 by lia. Qed.

Lemma get64_val a : wf a -> 0 <= val a < 2 ^ 64 -> int128_get64 a = Ok (val a).
Proof.
  intros [Hl Hh] Hv. unfold val in *. assert (hi a = 0) as E by lia. unfold int128_get64.
  rewrite E. done.
Qed.

Lemma make64_of_Z a : 0 <= a < 2 ^ 64 -> int128_make64 a = of_Z a.
Proof. intros Ha. unfold int128_make64, of_Z. rewrite (Z.div_small a) by done. done. Qed.

(** ** What an address is dispatched to *)

(** The region, the offset in it and the readonly flag a section gives an
    address. *)
Definition dest : Type := mref * Z * bool.
Definition dest_of (s : MemoryRegionSection) (a : Z) : dest :=
  (sec_mr s, u64 (a - offset_within_address_space s + offset_within_region s), sec_readonly s).

(** The mapping the dispatch is to implement. *)
Abbreviation amap := (Z -> option dest).

Definition in_section (s : MemoryRegionSection) (a : Z) : bool :=
  (offset_within_address_space s <=? a) && (a <? offset_within_address_space s + val (sec_size s)).
Definition map_section (s : MemoryRegionSection) (f : amap) : amap :=
  fun a => if in_section s a then Some (dest_of s a) else f a.

(** A section of the guest: not empty and inside the address space. *)
Record section_ok (s : MemoryRegionSection) : Prop := {
  so_guest : exists id, sec_mr s = GuestMR id;
  so_wf : wf (sec_size s);
  so_size : 0 < val (sec_size s);
  so_start : 0 <= offset_within_address_space s;
  so_end : offset_within_address_space s + val (sec_size s) <= 2 ^ 64
}.

(** Section number [n] gives address [a] the meaning [t]. *)
Definition serves (d : AddressSpaceDispatch) (n a : Z) (t : option dest) : Prop :=
  match t with
  | None => n = 0
  | Some t => 0 < n < sections_nb (map d) /\
              exists s, aget (sections (map d)) n = Ok s /\ section_ok s /\ in_section s a = true /\ dest_of s a = t
  end.

(** ** The invariant of a dispatch under construction *)

(** A page is unmapped, part of a section of whole pages, or a subpage. *)
Inductive page_state (d : AddressSpaceDispatch) (f : amap) (idx : Z) : Prop :=
| page_none : page_lookup d idx = Ok 0 -> page_free d idx = true ->
    (forall a, a / 1024 = idx -> f a = None) -> page_state d f idx
| page_whole n s : page_lookup d idx = Ok n -> 0 < n < sections_nb (map d) ->
    aget (sections (map d)) n = Ok s -> section_ok s ->
    (forall a, in_section s a = true -> page_lookup d (a / 1024) = Ok n) ->
    (forall a, a / 1024 = idx -> in_section s a = true /\ f a = Some (dest_of s a)) ->
    page_state d f idx
| page_sub n k sp : page_lookup d idx = Ok n -> 0 < n < sections_nb (map d) ->
    aget (sections (map d)) n =
      Ok (mkSection (SubpageMR k) 0 (int128_make64 TARGET_PAGE_SIZE) (1024 * idx) false) ->
    aget (subpages d) k = Ok sp -> sp_base sp = 1024 * idx -> length (sub_section sp) = 1024%nat ->
    (forall a, a / 1024 = idx -> exists m, aget (sub_section sp) (a mod 1024) = Ok m /\ serves d m a (f a)) ->
    (exists a, a / 1024 = idx /\ f a <> None) -> page_state d f idx.

(** The section array: the dummy sections first, within its allocation. *)
Record sections_ok (m : PhysPageMap) : Prop := {
  sk_len : Z.of_nat (length (sections m)) = sections_nb_alloc m;
  sk_nb : 4 <= sections_nb m <= sections_nb_alloc m;
  sk_alloc : sections_nb_alloc m <= 2048;
  sk_dummy : aget (sections m) 0 = Ok (mkSection io_mem_unassigned 0 int128_2_64 0 false);
  sk_nodes : nodes_nb m <= 11 * sections_nb m
}.

Record dispatches (d : AddressSpaceDispatch) (f : amap) : Prop := {
  dp_wf : dispatch_wf d;
  dp_sections : sections_ok (map d);
  dp_pages : forall idx, 0 <= idx < 2 ^ 54 -> page_state d f idx
}.

(** ** Steps that only add *)

(** [d'] has the sections, the mapped pages and the subpages of [d], except
    for the pages in [P]. *)
Record grows (d d' : AddressSpaceDispatch) (P : Z -> Prop) : Prop := {
  gr_nb : sections_nb (map d) <= sections_nb (map d');
  gr_sections : forall n, 0 <= n < sections_nb (map d) ->
    aget (sections (map d')) n = aget (sections (map d)) n;
  gr_mapped : forall idx n, 0 <= idx < 2 ^ 54 -> page_lookup d idx = Ok n -> n <> 0 -> page_lookup d' idx = Ok n;
  gr_pages : forall idx, 0 <= idx < 2 ^ 54 -> ~ P idx ->
    page_lookup d' idx = page_lookup d idx /\ page_free d' idx = page_free d idx;
  gr_subpages : forall k sp, aget (subpages d) k = Ok sp -> ~ P (sp_base sp / 1024) -> aget (subpages d') k = Ok sp
}.

Lemma serves_grows d d' P n a t : grows d d' P -> serves d n a t -> serves d' n a t.
Proof.
  intros G. destruct t as [t|]; [|done]. cbn. intros (Hn & s & Es & So & Hin & Et).
  pose proof (gr_nb _ _ _ G). split; [lia|]. exists s. by rewrite (gr_sections _ _ _ G) by lia.
Qed.

Lemma in_section_page s a : section_ok s -> in_section s a = true -> 0 <= a / 1024 < 2 ^ 54.
Proof. intros [_ _ _ ??] H. unfold in_section in H. dlia. Qed.

Lemma page_state_grows d d' P f f' idx : 0 <= idx < 2 ^ 54 -> grows d d' P -> ~ P idx ->
  (forall a, a / 1024 = idx -> f' a = f a) -> page_state d f idx -> page_state d' f' idx.
Proof.
  intros Hi G HP Hf. destruct (gr_pages _ _ _ G idx Hi HP) as [Gl Gf].
  pose proof (gr_nb _ _ _ G) as Gn. intros [L F N|n s L Hn Es So C A|n k sp L Hn Es Ek Eb El A (a & Ea & Na)].
  - apply page_none; [by rewrite Gl|by rewrite Gf|]. intros a Ha. rewrite Hf by done. by apply N.
  - apply (page_whole _ _ _ n s); [by rewrite Gl|lia|by rewrite (gr_sections _ _ _ G) by lia|done| |].
    + intros a Ha. apply (gr_mapped _ _ _ G); [by eapply in_section_page|by apply C|lia].
    + intros a Ha. rewrite Hf by done. by apply A.
  - apply (page_sub _ _ _ n k sp); [by rewrite Gl|lia|by rewrite (gr_sections _ _ _ G) by lia| |done|done| |].
    + apply (gr_subpages _ _ _ G); [done|]. rewrite Eb. by replace (1024 * idx / 1024) with idx by dlia.
    + intros x Hx. destruct (A x Hx) as (m & Em & Sm). exists m. split; [done|].
      rewrite Hf by done. by eapply serves_grows.
    + exists a. by rewrite Hf by done.
Qed.

(** ** Adding a section *)

Lemma phys_section_add_spec m s : sections_ok m -> sections_nb m < 1024 ->
  exists m', phys_section_add m s = Ok (sections_nb m, m') /\
    sections_nb m' = sections_nb m + 1 /\ sections_ok m' /\
    aget (sections m') (sections_nb m) = Ok s /\
    (forall n, 0 <= n < sections_nb m -> aget (sections m') n = aget (sections m) n) /\
    nodes m' = nodes m /\ nodes_nb m' = nodes_nb m /\ nodes_nb_alloc m' = nodes_nb_alloc m.
Proof.
  intros [Hl Hnb Ha H0 Hn] Hlt. unfold phys_section_add.
  change TARGET_PAGE_SIZE with 1024. destruct (Z.ltb_spec (sections_nb m) 1024); [|lia].
  cbn [c_assert res_bind].
  set (p := if sections_nb m =? sections_nb_alloc m then _ else _).
  assert (Z.of_nat (length p.2) = p.1 /\ sections_nb m < p.1 <= 2048 /\
    forall n, 0 <= n < sections_nb m -> aget p.2 n = aget (sections m) n) as (Lp & Bp & Gp).
  { unfold p. destruct (Z.eqb_spec (sections_nb m) (sections_nb_alloc m)) as [E|E]; cbn [fst snd].
    2: { split; [done|]. split; [lia|done]. }
    rewrite uwrap_small by lia. set (a := Z.max _ _).
    destruct (grow_spec (sections m) no_section a ltac:(lia)) as [Lg Gg].
    split; [done|]. split; [lia|]. intros n Hn'. unfold aget. destruct (n <? 0); [done|].
    by rewrite Gg by lia. }
  destruct p as [a secs]. cbn [fst snd] in *. rewrite aset_total by lia. cbn [res_bind].
  rewrite uwrap_small by lia. eexists. split; [done|]. cbn [sections_nb sections nodes nodes_nb nodes_nb_alloc].
  assert (forall n, 0 <= n < sections_nb m ->
    aget (<[Z.to_nat (sections_nb m) := s]> secs) n = aget (sections m) n) as Gn.
  { intros n Hn'. rewrite aget_insert_ne by lia. by apply Gp. }
  split; [done|]. split; [split; cbn [sections_nb sections nodes_nb sections_nb_alloc]|].
  - by rewrite length_insert.
  - lia.
  - lia.
  - by rewrite Gn by lia.
  - lia.
  - split; [rewrite aget_insert_eq by lia; done|]. done.
Qed.

(** Adding a section to the array changes no page. *)
Lemma with_map_pages d m' : nodes m' = nodes (map d) -> forall idx,
  page_lookup (mkDispatch (phys_map d) m' (subpages d)) idx = page_lookup d idx /\
  page_free (mkDispatch (phys_map d) m' (subpages d)) idx = page_free d idx.
Proof. intros E idx. unfold page_lookup, page_free. cbn [map phys_map]. by rewrite E. Qed.

Lemma with_map_wf d m' : nodes m' = nodes (map d) -> nodes_nb m' = nodes_nb (map d) ->
  nodes_nb_alloc m' = nodes_nb_alloc (map d) -> forall sps,
  dispatch_wf d -> dispatch_wf (mkDispatch (phys_map d) m' sps).
Proof. intros E1 E2 E3 sps [pos H]. exists pos. unfold dispatch_at in *. cbn [map phys_map]. by rewrite E1, E2, E3. Qed.

(** A section entered into a run of unmapped pages. *)
Definition unmapped (d : AddressSpaceDispatch) (idx : Z) : Prop :=
  page_lookup d idx = Ok 0 /\ page_free d idx = true.

Lemma enter_pages d s index nb sps : dispatch_wf d -> sections_ok (map d) -> sections_nb (map d) < 1024 ->
  0 <= index -> 0 < nb -> index + nb <= 2 ^ 54 ->
  (forall idx, index <= idx < index + nb -> unmapped d idx) ->
  (forall k sp, aget (subpages d) k = Ok sp -> aget sps k = Ok sp) ->
  let n := sections_nb (map d) in
  exists m' d', phys_section_add (map d) s = Ok (n, m') /\
    phys_page_set (mkDispatch (phys_map d) m' sps) index nb n = Ok d' /\
    dispatch_wf d' /\ sections_ok (map d') /\ sections_nb (map d') = n + 1 /\ subpages d' = sps /\
    aget (sections (map d')) n = Ok s /\
    grows d d' (fun idx => index <= idx < index + nb) /\
    (forall idx, index <= idx < index + nb -> page_lookup d' idx = Ok n).
Proof.
  intros W S L Hi Hn Hb Hu Hsp n.
  destruct (phys_section_add_spec (map d) s S L) as (m' & E & Nb & S' & Gs & Go & E1 & E2 & E3).
  set (d1 := mkDispatch (phys_map d) m' sps).
  assert (forall idx, page_lookup d1 idx = page_lookup d idx /\ page_free d1 idx = page_free d idx) as Hp
    by (exact (with_map_pages d m' E1)).
  destruct (phys_page_set_spec d1 index nb n) as (d' & Ed & W' & Sp & Ss & Sn & Sa & Nn & H);
    [by apply with_map_wf|done..| | | |].
  { pose proof (sk_nb _ S). unfold n. lia. }
  { pose proof (sk_nodes _ S'). cbn [d1 map]. rewrite E2. pose proof (sk_nodes _ S).
    change (3 * P_L2_LEVELS) with 18. change PHYS_MAP_NODE_NIL with (2 ^ 26 - 1). lia. }
  { intros idx Hidx. rewrite (proj2 (Hp idx)). by apply Hu. }
  exists m', d'. split; [done|]. split; [done|]. split; [done|]. cbn [d1 map subpages] in *.
  split; [split; rewrite ?Ss, ?Sn, ?Sa; try apply S'; pose proof (sk_nodes _ S); rewrite ?E2 in *; lia|].
  split; [lia|]. split; [done|]. split; [by rewrite Ss|]. split; [split|].
  - rewrite Sn. lia.
  - intros k Hk. rewrite Ss. by apply Go.
  - intros idx k Hidx Ek Nk. rewrite (proj1 (H idx Hidx)), (proj1 (Hp idx)).
    destruct (Z.leb_spec index idx), (Z.ltb_spec idx (index + nb)); cbn [andb]; try done.
    destruct (Hu idx ltac:(lia)) as [Z0 _]. congruence.
  - intros idx Hidx HP. destruct (H idx Hidx) as [H1 H2]. rewrite H1, H2 by done.
    destruct (Z.leb_spec index idx), (Z.ltb_spec idx (index + nb)); cbn [andb]; try lia; apply Hp.
  - intros k sp Ek _. rewrite Sp. by apply Hsp.
  - intros idx Hidx. rewrite (proj1 (H idx ltac:(lia))).
    destruct (Z.leb_spec index idx), (Z.ltb_spec idx (index + nb)); cbn [andb]; try lia; done.
Qed.

(** ** Whole pages *)

Lemma map_section_outside s f a : in_section s a = false -> map_section s f a = f a.
Proof. unfold map_section. by intros ->. Qed.

Lemma register_multipage_spec d f s : dispatches d f -> sections_nb (map d) < 1024 -> section_ok s ->
  offset_within_address_space s mod 1024 = 0 -> val (sec_size s) mod 1024 = 0 ->
  (forall a, in_section s a = true -> f a = None) ->
  exists d', register_multipage d s = Ok d' /\ dispatches d' (map_section s f) /\
    sections_nb (map d') = sections_nb (map d) + 1.
Proof.
  intros [W S P] L So A1 A2 Hf. pose proof So as [_ Wf Sz Hs He].
  set (o := offset_within_address_space s) in *. set (sz := val (sec_size s)) in *.
  assert (forall idx, o / 1024 <= idx < o / 1024 + sz / 1024 -> unmapped d idx) as Hu.
  { intros idx Hi. assert (in_section s (1024 * idx) = true) as H1 by (unfold in_section; dlia).
    assert (1024 * idx / 1024 = idx) as H2 by dlia. pose proof (Hf _ H1) as H3.
    destruct (P idx ltac:(dlia)) as [? ?|n t _ _ _ _ _ A|n k sp _ _ _ _ _ _ _ (a & Ea & Na)]; [done| |].
    - destruct (A _ H2). congruence.
    - exfalso. apply Na, Hf. unfold in_section. dlia. }
  destruct (enter_pages d s (o / 1024) (sz / 1024) (subpages d)) as (m' & d' & E1 & E2 & W' & S' & Nb & Sp & Es & G & Lk);
    [done|done|done|dlia|dlia|dlia|done|done|].
  exists d'. unfold register_multipage. rewrite E1. cbn [res_bind].
  assert (int128_get64 (int128_rshift (sec_size s) TARGET_PAGE_BITS) = Ok (sz / 1024)) as ->.
  { rewrite get64_val; rewrite ?int128_rshift_val by (done || lia); [|by apply int128_rshift_wf|];
      fold sz; rewrite shiftr_page; [done|dlia]. }
  cbn [res_bind]. destruct (Z.eqb_spec (sz / 1024) 0); [dlia|]. cbn [negb c_assert res_bind].
  rewrite shiftr_page. split; [done|]. split; [|done]. split; [done|done|]. intros idx Hi.
  destruct (Z.leb_spec (o / 1024) idx), (Z.ltb_spec idx (o / 1024 + sz / 1024)).
  2-4: apply (page_state_grows d d' _ f _ idx Hi G); [lia| |by apply P];
    intros a Ha; apply map_section_outside; unfold in_section; dlia.
  pose proof (sk_nb _ S).
  apply (page_whole _ _ _ (sections_nb (map d)) s); [by apply Lk|lia|done|done| |].
  - intros a Ha. apply Lk. unfold in_section in Ha. dlia.
  - intros a Ha. assert (in_section s a = true) as HS by (unfold in_section; dlia).
    split; [done|]. unfold map_section. by rewrite HS.
Qed.

(** ** Subpages *)

Lemma subpage_register_spec sub lo hi section : length sub = 1024%nat -> 0 <= lo <= hi -> hi < 1024 ->
  exists sub', subpage_register sub lo hi section = Ok (0, sub') /\ length sub' = 1024%nat /\
    forall j, 0 <= j < 1024 ->
      aget sub' j = if (lo <=? j) && (j <=? hi) then Ok section else aget sub j.
Proof.
  intros Hl Hlo Hhi. unfold subpage_register. change TARGET_PAGE_SIZE with 1024.
  destruct (Z.leb_spec 1024 lo), (Z.leb_spec 1024 hi); try lia. cbn [orb].
  rewrite !page_offset_mod, !Z.mod_small by lia.
  destruct (for_loop_inv (fun k sub' => length sub' = 1024%nat /\ forall j, 0 <= j < 1024 ->
      aget sub' j = if (lo <=? j) && (j <? k) then Ok section else aget sub j)
    (fun i sub => aset sub i section) (Z.to_nat (hi + 1 - lo)) lo sub) as (sub' & -> & L & A).
  - split; [done|]. intros j Hj. zcases; done || lia.
  - intros k s Hk (L & A). exists (<[Z.to_nat k := section]> s). split; [apply aset_total; lia|].
    split; [by rewrite length_insert|]. intros j Hj. destruct (Z.eq_dec j k) as [->|].
    + rewrite aget_insert_eq by lia. zcases; done || lia.
    + rewrite aget_insert_ne, A by lia. zcases; done || lia.
  - exists sub'. split; [done|]. split; [done|]. intros j Hj. rewrite A by done. zcases; done || lia.
Qed.

Lemma subpage_init_spec base : exists sub, subpage_init base = Ok (mkSubpage base sub) /\
  length sub = 1024%nat /\ forall j, 0 <= j < 1024 -> aget sub j = Ok 0.
Proof.
  unfold subpage_init. destruct (subpage_register_spec (replicate 1024 0) 0 (TARGET_PAGE_SIZE - 1)
    PHYS_SECTION_UNASSIGNED) as (sub & -> & L & A); [by rewrite length_replicate|done|done|].
  exists sub. split; [done|]. split; [done|]. intros j Hj. rewrite A by done.
  change TARGET_PAGE_SIZE with 1024. zcases; done || lia.
Qed.

(** The invariant on the page of a subpage, before anything is registered in
    it: only the last conjunct of [page_sub] is missing. *)
Definition sub_page (d : AddressSpaceDispatch) (f : amap) (idx k : Z) : Prop :=
  exists n sub, page_lookup d idx = Ok n /\ 0 < n < sections_nb (map d) /\
    aget (sections (map d)) n =
      Ok (mkSection (SubpageMR k) 0 (int128_make64 TARGET_PAGE_SIZE) (1024 * idx) false) /\
    aget (subpages d) k = Ok (mkSubpage (1024 * idx) sub) /\ length sub = 1024%nat /\
    forall a, a / 1024 = idx -> exists m, aget sub (a mod 1024) = Ok m /\ serves d m a (f a).

(** [register_subpage] before the section is added: the subpage of the page. *)
Definition open_subpage (d : AddressSpaceDispatch) (base : Z) : res (Z * AddressSpaceDispatch) :=
  let* n := phys_page_find (phys_map d) base (nodes (map d)) (sections (map d)) in
  let* existing := aget (sections (map d)) n in
  match sec_mr existing with
  | SubpageMR k => Ok (k, d)
  | mr =>
      let* _ := c_assert (bool_decide (mr = io_mem_unassigned)) in
      let* sp := subpage_init base in
      let k := Z.of_nat (length (subpages d)) in
      let subsection := mkSection (SubpageMR k) 0 (int128_make64 TARGET_PAGE_SIZE) base false in
      let* (idx, m) := phys_section_add (map d) subsection in
      let* d := phys_page_set (mkDispatch (phys_map d) m (subpages d ++ [sp]))
                  (Z.shiftr base TARGET_PAGE_BITS) 1 idx in
      Ok (k, d)
  end.

Lemma register_subpage_open d s : register_subpage d s =
  let* (k, d) := open_subpage d (page_base (offset_within_address_space s)) in
  let start := page_offset (offset_within_address_space s) in
  let* size := int128_get64 (sec_size s) in
  let end_ := u64 (start + size - 1) in
  let* (idx, m) := phys_section_add (map d) s in
  let* sp := aget (subpages d) k in
  let* (_, sub) := subpage_register (sub_section sp) (u32 start) (u32 end_) idx in
  let* sps := aset (subpages d) k (mkSubpage (sp_base sp) sub) in
  Ok (mkDispatch (phys_map d) m sps).
Proof.
  unfold register_subpage, open_subpage. destruct (phys_page_find _ _ _ _); [|done]. cbn [res_bind].
  destruct (aget _ _); done.
Qed.

Lemma find_unassigned d f idx : dispatches d f -> page_lookup d idx = Ok 0 -> 0 <= idx < 2 ^ 54 ->
  phys_page_find (phys_map d) (1024 * idx) (nodes (map d)) (sections (map d)) = Ok 0.
Proof.
  intros [_ S _] L Hi. fold (find_in d (1024 * idx)).
  rewrite (find_in_lookup d _ 0 _ ltac:(rewrite shiftr_page; by replace (1024 * idx / 1024) with idx by dlia) (sk_dummy _ S)).
  by destruct (section_covers _ _ _).
Qed.

Lemma subpage_covers idx k secs n : 0 <= idx < 2 ^ 54 ->
  aget secs n = Ok (mkSection (SubpageMR k) 0 (int128_make64 TARGET_PAGE_SIZE) (1024 * idx) false) ->
  forall a, section_covers secs n a = (a / 1024 =? idx).
Proof.
  intros Hi E a. unfold section_covers. rewrite E. cbn [sec_size hi lo int128_make64 offset_within_address_space].
  unfold range_covers_byte, range_get_last. change TARGET_PAGE_SIZE with 1024.
  rewrite (uwrap_small 64 1024) by lia. cbn [Z.eqb negb orb].
  apply eq_true_iff_eq. rewrite andb_true_iff, !Z.leb_le, Z.eqb_eq. rewrite uwrap_small by lia. dlia.
Qed.

Lemma open_subpage_spec d f idx : dispatches d f -> sections_nb (map d) < 1024 -> 0 <= idx < 2 ^ 54 ->
  (forall n s, page_lookup d idx = Ok n -> aget (sections (map d)) n = Ok s -> ~ section_ok s) ->
  exists k d', open_subpage d (1024 * idx) = Ok (k, d') /\ dispatch_wf d' /\ sections_ok (map d') /\
    sections_nb (map d') <= sections_nb (map d) + 1 /\
    grows d d' (eq idx) /\ sub_page d' f idx k.
Proof.
  intros D L Hi Hns. pose proof D as [W S P].
  destruct (P idx Hi) as [L0 F0 N0|n s Ln Hn Es So _ _|n k [b sub] Ln Hn Es Ek Eb El A _].
  - unfold open_subpage. rewrite (find_unassigned d f idx D L0 Hi). cbn [res_bind].
    rewrite (sk_dummy _ S). cbn [res_bind sec_mr]. rewrite bool_decide_true by done. cbn [c_assert res_bind].
    destruct (subpage_init_spec (1024 * idx)) as (sub & -> & Ls & As). cbn [res_bind].
    set (k := Z.of_nat (length (subpages d))). set (sec := mkSection _ _ _ _ _).
    rewrite shiftr_page. replace (1024 * idx / 1024) with idx by dlia.
    assert (forall j sp, aget (subpages d) j = Ok sp -> aget (subpages d ++ [mkSubpage (1024 * idx) sub]) j = Ok sp) as Hap.
    { intros j sp Ej. apply aget_Ok in Ej as [H1 H2]. apply aget_Ok. split; [done|]. by apply lookup_app_l_Some. }
    destruct (enter_pages d sec idx 1 (subpages d ++ [mkSubpage (1024 * idx) sub])) as (m' & d' & -> & E2 & W' & S' & Nb & Sp & Es & G & Lk);
      [done|done|done|lia|lia|lia| |done|].
    { intros j Hj. by replace j with idx by lia. }
    cbn [res_bind]. rewrite E2. cbn [res_bind]. exists k, d'. split; [done|]. split; [done|]. split; [done|].
    split; [lia|]. split.
    { destruct G as [G1 G2 G3 G4 G5]. split; [done|done|done| |].
      - intros j Hj N. apply G4; [done|lia].
      - intros j sp Ej N. apply G5; [done|lia]. }
    pose proof (sk_nb _ S). exists (sections_nb (map d)), sub.
    split; [apply Lk; lia|]. split; [lia|]. split; [done|].
    split; [rewrite Sp; apply aget_Ok; split; [lia|]; unfold k; rewrite Nat2Z.id; by apply list_lookup_middle|].
    split; [done|]. intros a Ha. exists 0. split; [apply As; dlia|]. by rewrite N0.
  - exfalso. by eapply Hns.
  - unfold open_subpage. fold (find_in d (1024 * idx)).
    rewrite (find_in_lookup d _ n _ ltac:(rewrite shiftr_page; by replace (1024 * idx / 1024) with idx by dlia) Es).
    rewrite (subpage_covers idx k _ _ Hi Es). replace (1024 * idx / 1024) with idx by dlia.
    rewrite Z.eqb_refl. cbn [res_bind]. rewrite Es. cbn [res_bind sec_mr].
    exists k, d. split; [done|]. split; [done|]. split; [done|]. split; [lia|]. split; [done|].
    cbn in Eb, El. subst b. exists n, sub. done.
Qed.

Lemma grows_trans d1 d2 d3 P : grows d1 d2 P -> grows d2 d3 P -> grows d1 d3 P.
Proof.
  intros [N1 S1 M1 P1 B1] [N2 S2 M2 P2 B2]. split.
  - lia.
  - intros n Hn. rewrite S2, S1 by lia. done.
  - intros idx n Hi E Nz. apply M2; [done| |done]. by apply M1.
  - intros idx Hi N. destruct (P1 idx Hi N) as [<- <-]. by apply P2.
  - intros k sp E N. apply B2; [|done]. by apply B1.
Qed.

(** The last part of [register_subpage]: the section is added and entered
    into the subpage [k] of the page. *)
Lemma fill_subpage d f idx k s : dispatch_wf d -> sections_ok (map d) -> sections_nb (map d) < 1024 ->
  sub_page d f idx k -> 0 <= idx < 2 ^ 54 -> section_ok s ->
  (forall a, in_section s a = true -> a / 1024 = idx) ->
  let lo := offset_within_address_space s mod 1024 in
  exists sub m' d', aget (subpages d) k = Ok (mkSubpage (1024 * idx) sub) /\
    phys_section_add (map d) s = Ok (sections_nb (map d), m') /\
    (let* (_, sub) := subpage_register sub lo (lo + val (sec_size s) - 1) (sections_nb (map d)) in
     let* sps := aset (subpages d) k (mkSubpage (1024 * idx) sub) in
     Ok (mkDispatch (phys_map d) m' sps)) = Ok d' /\
    dispatch_wf d' /\ sections_ok (map d') /\ sections_nb (map d') = sections_nb (map d) + 1 /\
    grows d d' (eq idx) /\ page_state d' (map_section s f) idx.
Proof.
  intros W S L (n & sub & Ln & Hn & Es & Ek & Ls & A) Hi So Hin lo.
  pose proof So as [_ _ Sz Hs He]. set (o := offset_within_address_space s) in *.
  set (sz := val (sec_size s)) in *.
  assert (o / 1024 = idx /\ (o + sz - 1) / 1024 = idx) as [Ho Ho'].
  { split; apply Hin; unfold in_section; fold o sz; lia. }
  destruct (phys_section_add_spec (map d) s S L) as (m' & E & Nb & S' & Gs & Go & E1 & E2 & E3).
  destruct (subpage_register_spec sub lo (lo + sz - 1) (sections_nb (map d))) as (sub' & Er & Ls' & As);
    [done|unfold lo; dlia|unfold lo; dlia|].
  assert (0 <= k < Z.of_nat (length (subpages d))) as Hk.
  { apply aget_Ok in Ek as [Hk Ek]. apply lookup_lt_Some in Ek. lia. }
  exists sub, m'. eexists. split; [done|]. split; [done|]. fold lo. rewrite Er. cbn [res_bind].
  rewrite aset_total by lia. cbn [res_bind]. split; [done|].
  split; [by apply with_map_wf|]. split; [done|]. split; [done|].
  set (d' := mkDispatch _ _ _).
  assert (grows d d' (eq idx)) as G.
  { split; cbn [d' map subpages].
    - lia.
    - done.
    - intros j m _ Ej _. unfold page_lookup in *. cbn [d' map phys_map]. by rewrite E1.
    - intros j _ _. exact (with_map_pages d m' E1 j).
    - intros j sp Ej N. assert (j <> k); [|pose proof (proj1 (aget_Ok _ _ _) Ej); by rewrite aget_insert_ne by lia].
      intros ->. rewrite Ek in Ej. injection Ej as <-. apply N. cbn. dlia. }
  split; [done|]. pose proof (sk_nb _ S).
  apply (page_sub _ _ _ n k (mkSubpage (1024 * idx) sub')); cbn [sp_base sub_section d' map subpages].
  - rewrite <- Ln. exact (proj1 (with_map_pages d m' E1 idx)).
  - lia.
  - by rewrite Go by lia.
  - by rewrite aget_insert_eq by lia.
  - done.
  - done.
  - intros a Ha. rewrite As by dlia. unfold map_section.
    assert ((lo <=? a mod 1024) && (a mod 1024 <=? lo + sz - 1) = in_section s a) as ->
      by (unfold in_section, lo; fold o sz; dlia).
    destruct (in_section s a) eqn:Ein; [|destruct (A a Ha) as (m & Em & Sm); exists m; split; [done|by eapply serves_grows]].
    eexists. split; [done|]. cbn [serves d' map]. split; [lia|]. by exists s.
  - exists o. split; [done|]. unfold map_section. destruct (in_section s o) eqn:Eo; [done|].
    unfold in_section in Eo. fold o sz in Eo. lia.
Qed.

Lemma register_subpage_spec d f s : dispatches d f -> sections_nb (map d) < 1023 -> section_ok s ->
  offset_within_address_space s mod 1024 + val (sec_size s) <= 1024 ->
  (forall a, in_section s a = true -> f a = None) ->
  exists d', register_subpage d s = Ok d' /\ dispatches d' (map_section s f) /\
    sections_nb (map d') <= sections_nb (map d) + 2.
Proof.
  intros D L So Hfit Hf. pose proof D as [_ _ P]. pose proof So as [_ Wf Sz Hs He].
  set (o := offset_within_address_space s) in *. set (sz := val (sec_size s)) in *. set (idx := o / 1024).
  assert (0 <= idx < 2 ^ 54) as Hi by (unfold idx; dlia).
  assert (in_section s o = true) as Io by (unfold in_section; fold o sz; lia).
  assert (forall a, in_section s a = true -> a / 1024 = idx) as Hin
    by (intros a Ha; unfold in_section in Ha; fold o sz in Ha; unfold idx; dlia).
  rewrite register_subpage_open. fold o. rewrite page_base_val by lia. fold idx.
  destruct (open_subpage_spec d f idx) as (k & d1 & -> & W1 & S1 & N1 & G1 & Sp1); [done|lia|done| |].
  { intros n s' En Es So'. pose proof (Hf o Io) as Fo.
    destruct (P idx Hi) as [L0 _ _|m t Lm _ _ _ _ A|m j sp Lm _ Em _ _ _ _ _].
    - rewrite L0 in En. injection En as <-. rewrite (sk_dummy _ (dp_sections _ _ D)) in Es. injection Es as <-.
      destruct (so_guest _ So') as [? ?]. done.
    - destruct (A o eq_refl). congruence.
    - rewrite Lm in En. injection En as <-. rewrite Em in Es. injection Es as <-.
      destruct (so_guest _ So') as [? ?]. done. }
  cbn [res_bind]. rewrite page_offset_mod, get64_val by (done || (fold sz; dlia)). fold sz. cbn [res_bind].
  destruct (fill_subpage d1 f idx k s) as (sub & m' & d' & E1 & E2 & E3 & W2 & S2 & N2 & G2 & P2);
    [done|done|lia|done|done|done|done|].
  rewrite E2. cbn [res_bind]. rewrite E1. cbn [res_bind sub_section sp_base]. fold o sz in E3.
  rewrite !(uwrap_small 64), !uwrap_small by dlia. rewrite E3. exists d'. split; [done|]. split; [|lia].
  split; [done|done|]. intros j Hj. destruct (Z.eq_dec idx j) as [<-|N]; [done|].
  apply (page_state_grows d d' (eq idx) f _ j Hj); [by eapply grows_trans|done| |by apply P].
  intros a Ha. apply map_section_outside. destruct (in_section s a) eqn:E; [|done]. apply Hin in E. lia.
Qed.

(** ** The listener *)

#[export] Instance page_state_proper d : Proper (pointwise_relation Z eq ==> eq ==> impl) (page_state d).
Proof.
  intros f g E idx _ <- [L F N|n s L Hn Es So C A|n k sp L Hn Es Ek Eb El A (a & Ea & Na)].
  - apply page_none; [done..|]. intros a Ha. rewrite <- E. by apply N.
  - apply (page_whole _ _ _ n s); [done..|]. intros a Ha. rewrite <- E. by apply A.
  - apply (page_sub _ _ _ n k sp); [done..| |].
    + intros x Hx. rewrite <- E. by apply A.
    + exists a. by rewrite <- E.
Qed.

#[export] Instance dispatches_proper d : Proper (pointwise_relation Z eq ==> impl) (dispatches d).
Proof. intros f g E [W S P]. split; [done|done|]. intros idx Hi. rewrite <- E. by apply P. Qed.

(** What is left of a section after its first [c] bytes. *)
Definition rest (s : MemoryRegionSection) (c : Z) : MemoryRegionSection :=
  mkSection (sec_mr s) (u64 (offset_within_region s + c)) (of_Z (val (sec_size s) - c))
    (offset_within_address_space s + c) (sec_readonly s).
(** Its first [c] bytes. *)
Definition first (s : MemoryRegionSection) (c : Z) : MemoryRegionSection := with_size s (of_Z c).

Section Split.
Context (s : MemoryRegionSection) (c : Z) (So : section_ok s) (Hc : 0 <= c < val (sec_size s)).

Lemma in64 x : 0 <= x <= 2 ^ 64 -> in128 x.
Proof. lia. Qed.

Lemma rest_size : val (sec_size (rest s c)) = val (sec_size s) - c.
Proof. apply val_of_Z, in64. pose proof (so_end _ So). pose proof (so_start _ So). lia. Qed.

Lemma first_size : val (sec_size (first s c)) = c.
Proof. apply val_of_Z, in64. pose proof (so_end _ So). pose proof (so_start _ So). lia. Qed.

Lemma rest_ok : section_ok (rest s c).
Proof.
  pose proof So as [G W P S E]. pose proof rest_size as R.
  split; [done|apply of_Z_wf|rewrite R; lia| |rewrite R]; cbn [offset_within_address_space rest]; lia.
Qed.

Lemma first_ok : 0 < c -> section_ok (first s c).
Proof.
  intros Hp. pose proof So as [G W P S E]. pose proof first_size as R.
  split; [done|apply of_Z_wf|rewrite R; lia|done|rewrite R]; cbn [offset_within_address_space first with_size]; lia.
Qed.

Lemma dest_rest a : dest_of (rest s c) a = dest_of s a.
Proof.
  unfold dest_of, rest. cbn [sec_mr offset_within_address_space offset_within_region sec_readonly].
  f_equal. f_equal. unfold uwrap. rewrite Zplus_mod_idemp_r. f_equal. lia.
Qed.

Lemma map_first_rest f : pointwise_relation Z eq (map_section (rest s c) (map_section (first s c) f)) (map_section s f).
Proof.
  intros a. unfold map_section. rewrite dest_rest. change (dest_of (first s c) a) with (dest_of s a).
  unfold in_section. rewrite rest_size, first_size. cbn [offset_within_address_space rest first with_size].
  zcases; done || lia.
Qed.

Lemma in_first a : in_section (first s c) a = true -> in_section s a = true.
Proof. unfold in_section. rewrite first_size. cbn [offset_within_address_space first with_size]. lia. Qed.

Lemma in_rest a : in_section (rest s c) a = true -> in_section s a = true /\ in_section (first s c) a = false.
Proof.
  unfold in_section. rewrite rest_size, first_size.
  cbn [offset_within_address_space rest first with_size]. lia.
Qed.

(** One turn of the loop of [mem_add] computes what is left. *)
Lemma advance now : wf (sec_size now) -> val (sec_size now) = c ->
  int128_ne (sec_size s) (sec_size now) = true /\
  int128_get64 (sec_size now) = Ok c /\
  mkSection (sec_mr s) (u64 (offset_within_region s + c)) (int128_sub (sec_size s) (sec_size now))
    (u64 (offset_within_address_space s + c)) (sec_readonly s) = rest s c.
Proof.
  intros W V. pose proof So as [_ Ws P S E]. split; [|split].
  - unfold int128_ne. rewrite int128_eq_val, V by done. lia.
  - rewrite get64_val by (done || lia). by rewrite V.
  - unfold rest. f_equal; [|apply uwrap_small; lia].
    apply val_inj; [apply int128_sub_wf|apply of_Z_wf|].
    rewrite int128_sub_val, V, val_of_Z by (done || (apply in64; lia)). apply swrap_small; lia.
Qed.
End Split.

Lemma mem_add_loop_done fuel d now s : sec_size now = sec_size s -> mem_add_loop fuel d now s = Ok d.
Proof.
  intros E. assert (int128_ne (sec_size s) (sec_size now) = false) as H.
  { rewrite E. unfold int128_ne, int128_eq. by rewrite !Z.eqb_refl. }
  destruct fuel; cbn [mem_add_loop]; by rewrite H.
Qed.

Lemma page_mask sz : wf sz -> 0 <= val sz <= 2 ^ 64 ->
  int128_and sz (int128_neg (int128_make64 TARGET_PAGE_SIZE)) = of_Z (val sz - val sz mod 1024).
Proof.
  intros W Hv. assert (val (int128_neg (int128_make64 TARGET_PAGE_SIZE)) = -1024) as Hn by done.
  apply val_inj; [|apply of_Z_wf|].
  - split; [apply land_range; [lia|apply W]|]. change (hi (int128_neg _)) with (-1).
    cbn [hi int128_and]. rewrite Z.land_m1_r. apply W.
  - rewrite int128_and_val, Hn, val_of_Z; [|dlia|done|apply int128_neg_wf].
    change (-1024) with (Z.lnot (Z.ones 10)). rewrite <- Z.ldiff_land, Z.ldiff_ones_r by lia.
    rewrite Z.shiftl_mul_pow2, Z.shiftr_div_pow2 by lia. change (2 ^ 10) with 1024. dlia.
Qed.

Lemma map_rest_0 s f : section_ok s -> pointwise_relation Z eq (map_section (rest s 0) f) (map_section s f).
Proof.
  intros So a. pose proof (so_size _ So). assert (0 <= 0 < val (sec_size s)) as H0 by lia.
  unfold map_section. rewrite dest_rest. unfold in_section. rewrite rest_size by done.
  cbn [offset_within_address_space rest]. by rewrite Z.add_0_r, Z.sub_0_r.
Qed.

(** The body of the loop once the rest of the section is known. *)
Definition add_rest (fuel : nat) (d : AddressSpaceDispatch) (remain : MemoryRegionSection) :
    res AddressSpaceDispatch :=
  let page_size := int128_make64 TARGET_PAGE_SIZE in
  if int128_lt (sec_size remain) page_size then
    let* d := register_subpage d remain in mem_add_loop fuel d remain remain
  else if negb (page_offset (offset_within_address_space remain) =? 0) then
    let now := with_size remain page_size in
    let* d := register_subpage d now in mem_add_loop fuel d now remain
  else
    let now := with_size remain (int128_and (sec_size remain) (int128_neg page_size)) in
    let* d := register_multipage d now in mem_add_loop fuel d now remain.

Lemma mem_add_loop_rest fuel d now s c : section_ok s -> 0 <= c < val (sec_size s) ->
  wf (sec_size now) -> val (sec_size now) = c -> mem_add_loop (S fuel) d now s = add_rest fuel d (rest s c).
Proof.
  intros So Hc W V. destruct (advance s c So Hc now W V) as (E1 & E2 & E3).
  cbn [mem_add_loop]. rewrite E1, E2. cbn [res_bind]. cbv zeta. by rewrite E3.
Qed.

Lemma page_size_lt sz : wf sz -> int128_lt sz (int128_make64 TARGET_PAGE_SIZE) = (val sz <? 1024).
Proof.
  intros W. unfold int128_lt. rewrite int128_ge_val by (done || (split; cbn; lia)).
  change (val (int128_make64 TARGET_PAGE_SIZE)) with 1024. lia.
Qed.

Lemma add_tail fuel d f s : dispatches d f -> sections_nb (map d) + 2 <= 1024 -> section_ok s ->
  offset_within_address_space s mod 1024 = 0 -> val (sec_size s) < 1024 ->
  (forall a, in_section s a = true -> f a = None) ->
  exists d', add_rest fuel d s = Ok d' /\ dispatches d' (map_section s f) /\
    sections_nb (map d') <= sections_nb (map d) + 2.
Proof.
  intros D L So A Hlt Hf. unfold add_rest. rewrite page_size_lt, (proj2 (Z.ltb_lt _ _) Hlt) by apply So.
  destruct (register_subpage_spec d f s) as (d' & -> & D' & N'); [done|lia|done|lia|done|].
  cbn [res_bind]. rewrite mem_add_loop_done by done. by exists d'.
Qed.

(** A section that starts on a page boundary: its pages, then its tail. *)
Lemma add_aligned fuel d f s : dispatches d f -> sections_nb (map d) + 3 <= 1024 -> section_ok s ->
  offset_within_address_space s mod 1024 = 0 -> (forall a, in_section s a = true -> f a = None) ->
  exists d', add_rest (S fuel) d s = Ok d' /\ dispatches d' (map_section s f) /\
    sections_nb (map d') <= sections_nb (map d) + 3.
Proof.
  intros D L So A Hf. destruct (Z.ltb_spec (val (sec_size s)) 1024) as [Hlt|Hge].
  { destruct (add_tail (S fuel) d f s) as (d' & E & D' & N'); [done|lia|done..|].
    exists d'. split; [done|]. split; [done|lia]. }
  pose proof So as [_ W P S E]. unfold add_rest. rewrite page_size_lt, (proj2 (Z.ltb_ge _ _) Hge) by done.
  rewrite page_offset_mod, A. cbn [Z.eqb negb]. cbv zeta.
  rewrite page_mask by (done || lia). fold (first s (val (sec_size s) - val (sec_size s) mod 1024)).
  set (z := val (sec_size s) - val (sec_size s) mod 1024).
  destruct (Z.eq_dec (val (sec_size s) mod 1024) 0) as [Z0|Nz].
  - assert (first s z = s) as ->.
    { unfold first, z. rewrite Z0, Z.sub_0_r, of_Z_val by done. by destruct s. }
    destruct (register_multipage_spec d f s) as (d' & -> & D' & N'); [done|lia|done..|].
    cbn [res_bind]. rewrite mem_add_loop_done by done. exists d'. split; [done|]. split; [done|lia].
  - assert (0 < z < val (sec_size s)) as Hz by (unfold z; dlia).
    assert (0 <= z < val (sec_size s)) as Hz' by lia.
    destruct (register_multipage_spec d f (first s z)) as (d1 & -> & D1 & N1);
      [done|lia|apply first_ok; done || lia|done|rewrite first_size by done; unfold z; dlia|
       intros a Ha; apply Hf; by eapply in_first|].
    cbn [res_bind]. rewrite (mem_add_loop_rest _ _ _ s z So Hz') by (apply of_Z_wf || by apply first_size).
    destruct (add_tail fuel d1 (map_section (first s z) f) (rest s z)) as (d' & E2 & D2 & N2);
      [done|lia|by apply rest_ok| |rewrite rest_size by done; unfold z; dlia| |].
    { cbn [offset_within_address_space rest]. unfold z. dlia. }
    { intros a Ha. apply in_rest in Ha as [Ha Ha']; [|done..]. rewrite map_section_outside by done. by apply Hf. }
    exists d'. split; [done|]. split; [by rewrite <- (map_first_rest s z So Hz' f)|lia].
Qed.

Lemma page_left o : 0 <= o < 2 ^ 64 -> o mod 1024 <> 0 -> u64 (TARGET_PAGE_ALIGN o - o) = 1024 - o mod 1024.
Proof.
  intros Ho A. unfold TARGET_PAGE_ALIGN. change TARGET_PAGE_SIZE with 1024.
  rewrite page_base_val by (apply (uwrap_range 64); lia).
  destruct (Z.ltb_spec (o + 1023) (2 ^ 64)).
  - rewrite (uwrap_small 64 (o + 1024 - 1)) by lia. rewrite uwrap_small by dlia. dlia.
  - replace (u64 (o + 1024 - 1)) with (o + 1023 - 2 ^ 64) by (unfold uwrap; dlia).
    replace ((o + 1023 - 2 ^ 64) / 1024) with 0 by dlia. unfold uwrap. dlia.
Qed.

(** [mem_add] enters a section whose addresses are free; at most five sections
    are used. *)
Lemma mem_add_spec d f s : dispatches d f -> sections_nb (map d) + 5 <= 1024 -> section_ok s ->
  (forall a, in_section s a = true -> f a = None) ->
  exists d', mem_add d s = Ok d' /\ dispatches d' (map_section s f) /\
    sections_nb (map d') <= sections_nb (map d) + 5.
Proof.
  intros D L So Hf. pose proof So as [_ W P S E]. unfold mem_add. rewrite page_offset_mod.
  set (o := offset_within_address_space s) in *. destruct (Z.eqb_spec (o mod 1024) 0) as [A|A]; cbn [negb].
  - rewrite (mem_add_loop_rest 2 d _ s 0 So ltac:(lia)) by (done || (split; cbn; lia)).
    destruct (add_aligned 1 d f (rest s 0)) as (d' & E' & D' & N'); [done|lia|apply rest_ok; done || lia| | |].
    { cbn [offset_within_address_space rest]. fold o. by rewrite Z.add_0_r. }
    { intros a Ha. apply in_rest in Ha as [Ha _]; [by apply Hf|done|lia]. }
    exists d'. split; [done|]. split; [|lia]. eapply dispatches_proper; [|exact D'].
    by apply map_rest_0.
  - assert (u64 (TARGET_PAGE_ALIGN o - o) = 1024 - o mod 1024) as ->.
    { apply page_left; lia. }
    set (l := 1024 - o mod 1024).
    assert (int128_min (int128_make64 l) (sec_size s) = of_Z (Z.min l (val (sec_size s)))) as ->.
    { unfold int128_min, int128_le. rewrite int128_ge_val by (done || (split; cbn; unfold uwrap; dlia)).
      rewrite make64_of_Z by (unfold l; dlia).
      rewrite val_of_Z by (unfold l; dlia). destruct (Z.leb_spec l (val (sec_size s))).
      - by rewrite Z.min_l by lia.
      - by rewrite Z.min_r, of_Z_val by (done || lia). }
    destruct (Z.leb_spec (val (sec_size s)) l) as [Hle|Hgt].
    + rewrite Z.min_r, of_Z_val by (done || lia).
      assert (with_size s (sec_size s) = s) as -> by (by destruct s).
      destruct (register_subpage_spec d f s) as (d' & -> & D' & N'); [done|lia|done|fold o; unfold l in *; lia|done|].
      cbn [res_bind]. rewrite mem_add_loop_done by done. exists d'. split; [done|]. split; [done|lia].
    + rewrite Z.min_l by lia. fold (first s l). assert (0 < l) as Hl by (unfold l; dlia).
      assert (0 <= l < val (sec_size s)) as Hl' by lia.
      destruct (register_subpage_spec d f (first s l)) as (d1 & -> & D1 & N1);
        [done|lia|by apply first_ok|rewrite first_size by done; change (offset_within_address_space (first s l)) with o; unfold l; lia
        |intros a Ha; apply Hf; by eapply in_first|].
      cbn [res_bind]. rewrite (mem_add_loop_rest 2 d1 _ s l So Hl') by (apply of_Z_wf || by apply first_size).
      destruct (add_aligned 1 d1 (map_section (first s l) f) (rest s l)) as (d' & E2 & D2 & N2);
        [done|lia|by apply rest_ok| | |].
      { cbn [offset_within_address_space rest]. fold o. unfold l. dlia. }
      { intros a Ha. apply in_rest in Ha as [Ha Ha']; [|done..]. rewrite map_section_outside by done. by apply Hf. }
      exists d'. split; [done|]. split; [by rewrite <- (map_first_rest s l So Hl' f)|lia].
Qed.

(** ** A topology change, from the region tree to the dispatch *)

(** The section of [memory.c] as the listener of [exec.c] receives it. *)
Definition listener_section (s : Topology.MemoryRegionSection Int128) : MemoryRegionSection :=
  mkSection (GuestMR (Topology.sec_mr s)) (sec_offset_within_region s) (Topology.sec_size s)
    (sec_offset_within_address_space s) (Topology.sec_readonly s).

(** [region_add] and [region_nop] of the dispatch listener are [mem_add]; it
    has no other region callbacks. *)
Fixpoint region_callbacks (es : list (Event Int128)) (d : AddressSpaceDispatch) : res AddressSpaceDispatch :=
  match es with
  | [] => Ok d
  | (_, c, s) :: es =>
      let* d := match c with
                | region_add | region_nop => mem_add d (listener_section s)
                | _ => Ok d
                end in
      region_callbacks es d
  end.

(** The update of one address space in a transaction: [begin], the topology
    passes, [commit]; the new view and the new dispatch. *)
Definition address_space_update (root : MemoryRegion Int128) (old : FlatView Int128) :
    res (FlatView Int128 * AddressSpaceDispatch) :=
  let* d := mem_begin in
  let* new := generate_memory_topology (Some root) in
  let* es := topology_events (fv_ranges old) (fv_ranges new) in
  let* d := region_callbacks es d in
  let* d := mem_commit d in
  Ok (new, d).

Definition target_dest (t : Target) : dest := (GuestMR (t_mr t), u64 (t_offset t), t_readonly t).

Definition range_section (r : FlatRange Z) : MemoryRegionSection :=
  mkSection (GuestMR (fr_mr r)) (fr_offset_in_region r) (of_Z (size (fr_addr r))) (fr_lo r) (fr_readonly r).

Lemma mem_begin_spec : exists d, mem_begin = Ok d /\ dispatches d (fun _ => None) /\ sections_nb (map d) = 4.
Proof.
  eexists. split; [vm_compute; reflexivity|]. split; [|done]. split.
  - apply empty_dispatch_wf; done.
  - split; cbn; done || lia.
  - intros idx Hi. by apply page_none.
Qed.

Fixpoint add_sections (ss : list MemoryRegionSection) (d : AddressSpaceDispatch) : res AddressSpaceDispatch :=
  match ss with [] => Ok d | s :: ss => let* d := mem_add d s in add_sections ss d end.

Lemma add_sections_app ss1 ss2 d :
  add_sections (ss1 ++ ss2) d = let* d := add_sections ss1 d in add_sections ss2 d.
Proof. revert d. induction ss1 as [|s ss IH]; intros d; cbn; [done|]. destruct (mem_add d s); cbn; [apply IH|done]. Qed.

Lemma region_callbacks_sections es d : region_callbacks es d =
  add_sections (flat_map (fun '(_, c, s) => match c with
    | region_add | region_nop => [listener_section s] | _ => [] end) es) d.
Proof.
  revert d. induction es as [|[[dir c] s] es IH]; intros d; [done|]. cbn [region_callbacks flat_map].
  destruct c; cbn [app res_bind add_sections]; try apply IH; destruct (mem_add _ _); cbn; done || apply IH.
Qed.

(** The listener enters the sections of the new view, in order. *)
Lemma topology_sections old new d :
  region_callbacks (ev_map <$> dels_spec old new ++ adds_spec old new) d = add_sections (range_section <$> new) d.
Proof.
  rewrite region_callbacks_sections. f_equal. rewrite fmap_app, flat_map_app.
  match goal with |- ?x ++ ?y = _ => assert (x = []) as ->; [|cbn [app]] end.
  - unfold dels_spec. induction old as [|o old IH]; [done|]. cbn [flat_map]. rewrite fmap_app, flat_map_app.
    destruct (existsb _ _); exact IH.
  - unfold adds_spec. induction new as [|n new IH]; [done|]. cbn [flat_map]. rewrite fmap_app, flat_map_app.
    rewrite fmap_cons, <- IH. destruct (find _ _) as [o|]; [|done]. unfold both_spec.
    destruct (_ && _); [done|]. by destruct (_ && _).
Qed.

Lemma range_section_ok r lo hi l : 0 <= lo -> hi <= 2 ^ 64 -> view_ok lo (r :: l) hi -> section_ok (range_section r).
Proof.
  intros Hlo Hhi (H1 & H2 & H3 & H4 & Hv). pose proof (view_ok_le _ _ _ Hv).
  unfold fr_hi, fr_lo in *. assert (val (of_Z (size (fr_addr r))) = size (fr_addr r)) as V by (apply val_of_Z; lia).
  split; [by eexists|apply of_Z_wf|..]; cbn [range_section sec_size offset_within_address_space]; unfold fr_lo;
    rewrite ?V; lia.
Qed.

Lemma map_range_section r lo hi l f a : 0 <= lo -> hi <= 2 ^ 64 -> view_ok lo (r :: l) hi ->
  map_section (range_section r) f a = if fr_contains r a then Some (target_dest (fr_target r a)) else f a.
Proof.
  intros Hlo Hhi (H1 & H2 & H3 & H4 & Hv). pose proof (view_ok_le _ _ _ Hv).
  unfold map_section, in_section, fr_contains, fr_hi, fr_lo in *.
  cbn [range_section sec_size offset_within_address_space]. rewrite val_of_Z by lia.
  change (fr_lo r) with (start (fr_addr r)). destruct (_ && _); [|done]. unfold dest_of, target_dest, fr_target.
  cbn [range_section sec_mr offset_within_address_space offset_within_region sec_readonly t_mr t_offset t_readonly].
  do 4 f_equal. lia.
Qed.

Lemma add_view l : forall lo d f, 0 <= lo -> view_ok lo l (2 ^ 64) -> dispatches d f ->
  (forall a, lo <= a -> f a = None) -> sections_nb (map d) + 5 * Z.of_nat (length l) <= 1024 ->
  exists d', add_sections (range_section <$> l) d = Ok d' /\
    dispatches d' (fun a => match view_lookup l a with Some t => Some (target_dest t) | None => f a end) /\
    sections_nb (map d') <= sections_nb (map d) + 5 * Z.of_nat (length l).
Proof.
  induction l as [|r l IH]; intros lo d f Hlo Hv D Hf Hn; [exists d; split; [done|split; [done|cbn; lia]]|].
  pose proof (range_section_ok _ _ _ _ Hlo ltac:(done) Hv) as So. pose proof Hv as (H1 & H2 & _ & _ & Hv').
  assert (forall g a, map_section (range_section r) g a =
    if fr_contains r a then Some (target_dest (fr_target r a)) else g a) as Hm
    by (intros; by eapply (map_range_section r lo (2 ^ 64) l)).
  assert (forall a, fr_contains r a = in_section (range_section r) a) as Hc.
  { intros a. pose proof (Hm (fun _ => None) a) as E. unfold map_section in E.
    by destruct (in_section _ a), (fr_contains r a). }
  cbn [length] in Hn. destruct (mem_add_spec d f (range_section r)) as (d1 & E1 & D1 & N1); [done|lia|done| |].
  { intros a Ha. apply Hf. rewrite <- Hc in Ha. unfold fr_contains in Ha. lia. }
  rewrite fmap_cons. cbn [add_sections]. rewrite E1. cbn [res_bind].
  destruct (IH (fr_hi r) d1 (map_section (range_section r) f)) as (d' & E2 & D2 & N2);
    [unfold fr_hi, fr_lo in *; lia|done|done| |lia|].
  { intros a Ha. rewrite Hm. unfold fr_contains, fr_hi, fr_lo in *. zcases; try lia; apply Hf; lia. }
  exists d'. split; [done|]. split; [|cbn [length]; lia]. eapply dispatches_proper; [|exact D2]. intros a. cbn [view_lookup].
  rewrite Hm. destruct (fr_contains r a) eqn:Ec; [|done].
  rewrite (view_lookup_below _ _ _ _ Hv'); [done|]. unfold fr_contains in Ec. lia.
Qed.

(** ** Lookups *)

Lemma section_covers_val secs n s a : aget secs n = Ok s -> section_ok s -> 0 <= a < 2 ^ 64 ->
  section_covers secs n a = in_section s a.
Proof.
  intros E [_ [Hl Hh] P S L] Ha. unfold section_covers, in_section, range_covers_byte, range_get_last. rewrite E.
  unfold val in *. destruct (Z.eqb_spec (hi (sec_size s)) 0) as [Z0|N]; cbn [negb orb].
  - rewrite uwrap_small by lia. lia.
  - assert (hi (sec_size s) = 1) by lia. lia.
Qed.

Lemma dispatches_fit d f : dispatches d f -> sections_fit d.
Proof.
  intros [_ S P]. split; [eexists; apply (sk_dummy _ S)|]. intros idx n Hi En.
  destruct (P idx Hi) as [L0 _ _|m s Lm Hm Es So C _|m k sp Lm Hm Es _ _ _ _ _].
  - rewrite L0 in En. injection En as <-. split; [eexists; apply (sk_dummy _ S)|intros a _ Nz; by destruct Nz].
  - rewrite Lm in En. injection En as <-. split; [by exists s|]. intros a Ha _.
    rewrite (section_covers_val _ _ _ _ Es So Ha), shiftr_page. apply C.
  - rewrite Lm in En. injection En as <-. split; [by eexists|]. intros a Ha _.
    rewrite (subpage_covers idx k _ _ Hi Es), shiftr_page. by intros ->%Z.eqb_eq.
Qed.

(** The section an address is dispatched to gives it its meaning. *)
Definition looks_up (d : AddressSpaceDispatch) (a : Z) (t : option dest) : Prop :=
  exists n s, address_space_lookup_region d a true = Ok n /\ aget (sections (map d)) n = Ok s /\
    match t with
    | Some t => section_ok s /\ in_section s a = true /\ dest_of s a = t
    | None => sec_mr s = io_mem_unassigned
    end.

Lemma dispatches_lookup d d' f a : dispatches d f -> sections (map d') = sections (map d) ->
  subpages d' = subpages d -> find_in d' a = find_in d a -> 0 <= a < 2 ^ 64 -> looks_up d' a (f a).
Proof.
  intros [_ S P] Es Esp Ef Ha. unfold looks_up, address_space_lookup_region.
  fold (find_in d' a). rewrite Ef, Es, Esp. assert (0 <= a / 1024 < 2 ^ 54) as Hi by dlia.
  destruct (P (a / 1024) Hi) as [L0 _ N|n s L Hn E So _ A|n k sp L Hn E Ek _ _ A _];
    rewrite <- shiftr_page in L || rewrite <- shiftr_page in L0.
  - rewrite (find_in_lookup d a 0 _ L0 (sk_dummy _ S)), N by done.
    exists 0. eexists. rewrite (sk_dummy _ S).
    split; [|done]. destruct (section_covers _ _ _); cbn [res_bind]; by rewrite (sk_dummy _ S).
  - destruct (A a eq_refl) as [Hin ->]. destruct (so_guest _ So) as [id Hid].
    rewrite (find_in_lookup d a n s L E), (section_covers_val _ _ s _ E So Ha), Hin. cbn [res_bind].
    rewrite E. cbn [res_bind]. rewrite Hid. by exists n, s.
  - rewrite (find_in_lookup d a n _ L E), (subpage_covers (a / 1024) k _ _ Hi E), Z.eqb_refl. cbn [res_bind].
    rewrite E. cbn [res_bind sec_mr]. rewrite Ek. cbn [res_bind]. rewrite page_offset_mod.
    destruct (A a eq_refl) as (m & Em & Sm). rewrite Em. exists m. destruct (f a) as [t|]; cbn [serves] in Sm.
    + destruct Sm as (_ & s & Es' & So & Hin & Et). by exists s.
    + subst m. eexists. split; [done|]. split; [apply (sk_dummy _ S)|done].
Qed.

(** The section of the page [p], without resolving subpages: none, a section
    that covers the page, or a subpage. *)
Inductive page_section (p : Z) : Z -> MemoryRegionSection -> Prop :=
| ps_none : page_section p 0 (mkSection io_mem_unassigned 0 int128_2_64 0 false)
| ps_whole n s : section_ok s -> (forall a, a / 1024 = p / 1024 -> in_section s a = true) -> page_section p n s
| ps_sub n k : page_section p n (mkSection (SubpageMR k) 0 (int128_make64 TARGET_PAGE_SIZE) p false).

Definition looks_up_page (d : AddressSpaceDispatch) (p nb : Z) : Prop :=
  exists n s, address_space_lookup_region d p false = Ok n /\ aget (sections (map d)) n = Ok s /\ 0 <= n < nb /\
    page_section p n s.

Lemma dispatches_page d d' f p : dispatches d f -> sections (map d') = sections (map d) ->
  find_in d' p = find_in d p -> 0 <= p < 2 ^ 64 -> p mod 1024 = 0 -> looks_up_page d' p (sections_nb (map d)).
Proof.
  intros [_ S P] Es Ef Hp Hp0. unfold looks_up_page, address_space_lookup_region.
  fold (find_in d' p). rewrite Ef, Es. assert (0 <= p / 1024 < 2 ^ 54) as Hi by dlia. pose proof (sk_nb _ S) as Nb.
  destruct (P (p / 1024) Hi) as [L0 _ N|n s L Hn E So _ A|n k sp L Hn E Ek _ _ A _];
    rewrite <- shiftr_page in L || rewrite <- shiftr_page in L0.
  - rewrite (find_in_lookup d p 0 _ L0 (sk_dummy _ S)). exists 0. eexists. rewrite (sk_dummy _ S).
    split; [|split; [done|split; [lia|apply ps_none]]].
    destruct (section_covers _ _ _); cbn [res_bind]; by rewrite (sk_dummy _ S).
  - destruct (A p eq_refl) as [Hin _]. destruct (so_guest _ So) as [id Hid].
    rewrite (find_in_lookup d p n s L E), (section_covers_val _ _ s _ E So Hp), Hin. cbn [res_bind].
    rewrite E. cbn [res_bind]. rewrite Hid. exists n, s. do 2 (split; [done|]). split; [lia|].
    apply ps_whole; [done|]. intros a Ha. apply A. done.
  - rewrite (find_in_lookup d p n _ L E), (subpage_covers (p / 1024) k _ _ Hi E), Z.eqb_refl. cbn [res_bind].
    rewrite E. cbn [res_bind sec_mr]. exists n. eexists. do 2 (split; [done|]). split; [lia|].
    replace (1024 * (p / 1024)) with p by dlia. apply ps_sub.
Qed.

Lemma mem_commit_spec d f : dispatches d f ->
  exists d', mem_commit d = Ok d' /\ (forall a, 0 <= a < 2 ^ 64 -> looks_up d' a (f a)) /\
    forall p, 0 <= p < 2 ^ 64 -> p mod 1024 = 0 -> looks_up_page d' p (sections_nb (map d)).
Proof.
  intros D. destruct (compact_all_spec d (dp_wf _ _ D) (dispatches_fit _ _ D)) as (d' & E & Es & Esp & Ef).
  exists d'. split; [done|]. split; intros a Ha.
  - eapply dispatches_lookup; [exact D|done|done|by apply Ef|done].
  - intros Ha0. eapply dispatches_page; [exact D|done|by apply Ef|done|done].
Qed.

Lemma address_space_update_spec mr old : region_ok mr -> depth mr < 2 ^ 50 -> view_ok 0 (fv_ranges old) (2 ^ 64) ->
  exists v, generate_memory_topology (Some (mr_map of_Z mr)) = Ok (fv_map of_Z v) /\
    (4 + 5 * Z.of_nat (length (fv_ranges v)) <= 1024 ->
     exists d, address_space_update (mr_map of_Z mr) (fv_map of_Z old) = Ok (fv_map of_Z v, d) /\
       (forall a, 0 <= a < 2 ^ 64 -> looks_up d a (target_dest <$> resolve mr 0 false a)) /\
       forall p, 0 <= p < 2 ^ 64 -> p mod 1024 = 0 -> looks_up_page d p 1024).
Proof.
  intros Hr Hd Ho. destruct (generate_topology_spec mr Hr Hd) as (v & Ev & Hv & _ & _ & X).
  exists v. split; [done|]. intros Hn. unfold address_space_update.
  destruct mem_begin_spec as (d0 & -> & D0 & N0). cbn [res_bind]. rewrite Ev. cbn [res_bind].
  change (fv_ranges (fv_map of_Z ?v)) with (fr_map of_Z <$> fv_ranges v).
  rewrite topology_events_spec by done. cbn [res_bind]. rewrite topology_sections.
  destruct (add_view (fv_ranges v) 0 d0 (fun _ => None)) as (d1 & -> & D1 & N1); [done|done|done|done|lia|].
  cbn [res_bind]. destruct (mem_commit_spec _ _ D1) as (d & -> & L & Pg). exists d. split; [done|]. split.
  - intros a Ha. rewrite <- X by done. pose proof (L a Ha) as La. cbn beta in La.
    by destruct (view_lookup (fv_ranges v) a).
  - intros p Hp Hp0. destruct (Pg p Hp Hp0) as (n & s & E1 & E2 & Hnn & Ps). exists n, s. do 2 (split; [done|]). split; [lia|done].
Qed.

(** ** Claims *)

(** C2: a topology change, from the region tree to the dispatch.  The tree is
    rendered, the listeners are told, and the listener of [exec.c] rebuilds the
    dispatch: it is total as long as the view has at most 204 ranges (each
    takes at most five of the 1024 sections), and a lookup with
    [resolve_subpage] finds for every address of the 64-bit space the region,
    the offset and the readonly flag that the tree resolves the address to, or
    the unassigned region when the tree has nothing there. *)
Theorem guest_addresses_resolved mr old :
  region_ok mr -> depth mr < 2 ^ 50 -> view_ok 0 (fv_ranges old) (2 ^ 64) ->
  exists v, generate_memory_topology (Some (mr_map of_Z mr)) = Ok (fv_map of_Z v) /\
    (4 + 5 * Z.of_nat (length (fv_ranges v)) <= 1024 ->
     exists d, address_space_update (mr_map of_Z mr) (fv_map of_Z old) = Ok (fv_map of_Z v, d) /\
       forall a, 0 <= a < 2 ^ 64 -> looks_up d a (target_dest <$> resolve mr 0 false a)).
Proof.
  intros Hr Hd Ho. destruct (address_space_update_spec mr old Hr Hd Ho) as (v & Ev & X). exists v. split; [done|].
  intros Hn. destruct (X Hn) as (d & E & L & _). by exists d.
Qed.

(** A board: RAM with a device over part of a page, and an alias of the RAM
    that starts and ends inside pages. *)
Definition sample_board : MemoryRegion Z :=
  MR (sample_info 0 0 (2 ^ 64) false 0) None
    [MR (sample_info 1 0x1040 0x20 true 0) None []; sample_ram;
     MR (sample_info 3 0x8100 0xa00 false 0x80) (Some sample_ram) []].

Lemma guest_addresses_resolved_witness :
  exists d, address_space_update (mr_map of_Z sample_board) flatview_init = Ok d /\
    looks_up d.2 0x1041 (Some (GuestMR 1, 1, false)) /\ looks_up d.2 0x1061 (Some (GuestMR 2, 0x1061, false)) /\
    looks_up d.2 0x8105 (Some (GuestMR 2, 0x85, false)) /\ looks_up d.2 0x8b00 None.
Proof.
  destruct (guest_addresses_resolved sample_board empty_view) as (v & Ev & H);
    [cbn; repeat split; lia|vm_compute; reflexivity|cbn; lia|].
  destruct H as (d & E & L).
  { assert (match generate_memory_topology (Some (mr_map of_Z sample_board)) with
      | Ok w => Nat.leb (length (fv_ranges w)) 204 | Err _ => false end = true) as Hl by (vm_compute; reflexivity).
    rewrite Ev in Hl. cbn [fv_map fv_ranges] in Hl. rewrite length_fmap in Hl. apply Nat.leb_le in Hl. lia. }
  exists (fv_map of_Z v, d). split; [exact E|].
  split_and!; [exact (L 0x1041 ltac:(lia))|exact (L 0x1061 ltac:(lia))|exact (L 0x8105 ltac:(lia))|exact (L 0x8b00 ltac:(lia))].
Defined.

(** Sixteen bytes of a 4 KiB region, followed by another region. *)
Definition clipped_section : MemoryRegionSection := mkSection (GuestMR 7) 0 (int128_make64 16) 0 false.
Definition next_section : MemoryRegionSection := mkSection (GuestMR 8) 0 (int128_make64 16) 16 false.

Definition two_sections : res AddressSpaceDispatch :=
  let* d := mem_begin in let* d := mem_add d clipped_section in
  let* d := mem_add d next_section in mem_commit d.

(** C2: [address_space_translate_internal] limits the length to what is left
    of the region, not of the section: at byte 8 of a section of 16 bytes of a
    larger region, an access of 64 bytes is allowed in full, although the next
    section belongs to another region. *)
Theorem translate_overruns_section :
  exists d n m, two_sections = Ok d /\
    address_space_translate_internal (fun _ => int128_make64 4096) d 8 64 true = Ok (n, 8, 64) /\
    aget (sections (map d)) n = Ok clipped_section /\
    address_space_lookup_region d 16 true = Ok m /\ aget (sections (map d)) m = Ok next_section.
Proof.
  assert (match two_sections with
    | Ok d => (address_space_translate_internal (fun _ => int128_make64 4096) d 8 64 true,
               aget (sections (map d)) 5, address_space_lookup_region d 16 true, aget (sections (map d)) 6)
    | Err f => (Err f, Err f, Err f, Err f) end = (Ok (5, 8, 64), Ok clipped_section, Ok 6, Ok next_section)) as H
    by (vm_compute; reflexivity).
  destruct two_sections as [d|]; [|done]. injection H as E1 E2 E3 E4. by exists d, 5, 6.
Qed.
