(* ===== verification/HostUtils.v ===== *)
(** * Host utility arithmetic

    [include/qemu/host-utils.h] and [util/host-utils.c]: 64x64->128 bit
    multiplication, 128/64 bit division, bit counting.  Each routine exists
    twice in the source, as a use of a compiler facility ([__int128],
    [__builtin_clz]) and as portable code.  Both are translated; the portable
    code is in [Module Fallback].  The theorems relate the two and find where
    they disagree. *)

From stdpp Require Import base list numbers.
From S2P Require Import Prelude.

(** ** Compiler builtins *)

(** [__builtin_ctz] on a non-zero argument. *)
Fixpoint pos_ctz (p : positive) : Z :=
  match p with xO p => 1 + pos_ctz p | _ => 0 end.

Definition builtin_ctz (v : Z) : Z :=
  match v with Zpos p => pos_ctz p | _ => 0 end.

(** [__builtin_clz] of a non-zero [w]-bit argument. *)
Definition builtin_clz (w v : Z) : Z := w - 1 - Z.log2 v.

Fixpoint pos_popcount (p : positive) : Z :=
  match p with xH => 1 | xO p => pos_popcount p | xI p => 1 + pos_popcount p end.

Definition builtin_popcount (v : Z) : Z :=
  match v with Zpos p => pos_popcount p | _ => 0 end.

(** ** The routines as compiled with GCC on a 64-bit host *)

(** [mulu64] with [__uint128_t]: the pair is [( *plow, *phigh)]. *)
Definition mulu64 (a b : Z) : Z * Z :=
  let r := uwrap 128 (a * b) in (u64 r, u64 (Z.shiftr r 64)).

Definition muls64 (a b : Z) : Z * Z :=
  let r := swrap 128 (a * b) in (u64 r, u64 (Z.shiftr r 64)).

(** The triple is [(return value, *plow, *phigh)]. *)
Definition divu128 (plow phigh divisor : Z) : Z * Z * Z :=
  if divisor =? 0 then (1, plow, phigh) else
  let dividend := Z.lor (uwrap 128 (Z.shiftl phigh 64)) plow in
  let result := dividend / divisor in
  (b2z (2 ^ 64 - 1 <? result), u64 result, u64 (dividend mod divisor)).

(** [*plow] is an [int64_t]: the [|] sees it sign-extended to 128 bits. *)
Definition divs128 (plow phigh divisor : Z) : Z * Z * Z :=
  if divisor =? 0 then (1, plow, phigh) else
  let dividend := Z.lor (swrap 128 (Z.shiftl phigh 64)) plow in
  let result := Z.quot dividend divisor in
  let plow := s64 result in
  (b2z (negb (result =? plow)), plow, s64 (Z.rem dividend divisor)).

Definition clz32 (val : Z) : Z := if val =? 0 then 32 else builtin_clz 32 val.
Definition clz64 (val : Z) : Z := if val =? 0 then 64 else builtin_clz 64 val.
Definition ctz32 (val : Z) : Z := if val =? 0 then 32 else builtin_ctz val.
Definition ctz64 (val : Z) : Z := if val =? 0 then 64 else builtin_ctz val.
Definition clo32 (val : Z) : Z := clz32 (u32 (Z.lnot val)).
Definition clo64 (val : Z) : Z := clz64 (u64 (Z.lnot val)).
Definition cto32 (val : Z) : Z := ctz32 (u32 (Z.lnot val)).
Definition cto64 (val : Z) : Z := ctz64 (u64 (Z.lnot val)).
Definition ctpop8 (val : Z) : Z := builtin_popcount val.
Definition ctpop16 (val : Z) : Z := builtin_popcount val.
Definition ctpop32 (val : Z) : Z := builtin_popcount val.
Definition ctpop64 (val : Z) : Z := builtin_popcount val.

(** [is_power_of_2] of [include/qemu-common.h]. *)
Definition is_power_of_2 (value : Z) : bool :=
  if value =? 0 then false
  else negb (negb (Z.land value (u64 (value - 1)) =? 0)).

(** [pow2floor] of [util/cutils.c], on an [int64_t]. *)
Definition pow2floor (value : Z) : Z :=
  let value := if negb (is_power_of_2 (u64 value))
               then s64 (Z.shiftr (Z.shiftl 1 63) (clz64 (u64 value))) else value in
  value.

(** ** The portable code *)
Module Fallback.

(** The [LL] union: the low and the high 32-bit half of a 64-bit value. *)
Definition lo32 (v : Z) : Z := u32 v.
Definition hi32 (v : Z) : Z := u32 (Z.shiftr v 32).
Definition LL (low high : Z) : Z := Z.lor (Z.shiftl high 32) low.

Definition mul64 (a b : Z) : Z * Z :=
  let rl := u64 (lo32 a * lo32 b) in
  let rm := u64 (lo32 a * hi32 b) in
  let rn := u64 (hi32 a * lo32 b) in
  let rh := u64 (hi32 a * hi32 b) in
  let c := u64 (hi32 rl + lo32 rm + lo32 rn) in
  let rl := LL (lo32 rl) (u32 c) in
  let c := Z.shiftr c 32 in
  let c := u64 (c + hi32 rm + hi32 rn + lo32 rh) in
  let rh := LL (u32 c) (hi32 rh) in
  let rh := LL (lo32 rh) (u32 (hi32 rh + u32 (Z.shiftr c 32))) in
  (rl, rh).

Definition mulu64 (a b : Z) : Z * Z := mul64 a b.

Definition muls64 (a b : Z) : Z * Z :=
  let (plow, rh) := mul64 (u64 a) (u64 b) in
  let rh := if b <? 0 then u64 (rh - a) else rh in
  let rh := if a <? 0 then u64 (rh - b) else rh in
  (plow, rh).

(** One iteration of the shift-and-subtract loop. *)
Definition div_step (divisor : Z) (st : Z * Z) : Z * Z :=
  let (dhi, dlo) := st in
  let carry := Z.shiftr dhi 63 in
  let dhi := Z.lor (u64 (Z.shiftl dhi 1)) (Z.shiftr dlo 63) in
  if negb (carry =? 0) || (divisor <=? dhi)
  then (u64 (dhi - divisor), Z.lor (u64 (Z.shiftl dlo 1)) 1)
  else (dhi, Z.lor (u64 (Z.shiftl dlo 1)) 0).

Definition divu128 (plow phigh divisor : Z) : Z * Z * Z :=
  let dhi := phigh in
  let dlo := plow in
  if divisor =? 0 then (1, plow, phigh)
  else if dhi =? 0 then (0, dlo / divisor, dlo mod divisor)
  else if divisor <? dhi then (1, plow, phigh)
  else let (dhi, dlo) := Nat.iter 64 (div_step divisor) (dhi, dlo) in (0, dlo, dhi).

Definition divs128 (plow phigh divisor : Z) : Z * Z * Z :=
  let sgn_dvdnd := phigh <? 0 in
  let sgn_divsr := divisor <? 0 in
  let '(plow, phigh) :=
    if sgn_dvdnd then
      let plow := Z.lnot plow in
      let phigh := Z.lnot phigh in
      if plow =? -1 then (0, s64 (phigh + 1)) else (s64 (plow + 1), phigh)
    else (plow, phigh) in
  let divisor := if sgn_divsr then s64 (0 - divisor) else divisor in
  let '(overflow, ulow, uhigh) := divu128 (u64 plow) (u64 phigh) (u64 divisor) in
  let plow := s64 ulow in
  let phigh := s64 uhigh in
  let plow := if xorb sgn_dvdnd sgn_divsr then s64 (0 - plow) else plow in
  let overflow :=
    if overflow =? 0 then
      if xorb (plow <? 0) (xorb sgn_dvdnd sgn_divsr) then 1 else 0
    else overflow in
  (overflow, plow, phigh).

(** One probe of the binary search for the leading one bit. *)
Definition clz_step (mask k : Z) (st : Z * Z) : Z * Z :=
  let (cnt, val) := st in
  if Z.land val mask =? 0 then (cnt + k, u32 (Z.shiftl val k)) else (cnt, val).

Definition clz32 (val : Z) : Z :=
  let st := clz_step 0xFFFF0000 16 (0, val) in
  let st := clz_step 0xFF000000 8 st in
  let st := clz_step 0xF0000000 4 st in
  let st := clz_step 0xC0000000 2 st in
  let (cnt, val) := clz_step 0x80000000 1 st in
  if Z.land val 0x80000000 =? 0 then cnt + 1 else cnt.

Definition clz64 (val : Z) : Z :=
  if Z.shiftr val 32 =? 0 then 32 + clz32 (u32 val)
  else 0 + clz32 (u32 (Z.shiftr val 32)).

Definition ctz_step (mask k : Z) (st : Z * Z) : Z * Z :=
  let (cnt, val) := st in
  if Z.land val mask =? 0 then (cnt + k, Z.shiftr val k) else (cnt, val).

Definition ctz32 (val : Z) : Z :=
  let st := ctz_step 0x0000FFFF 16 (0, val) in
  let st := ctz_step 0x000000FF 8 st in
  let st := ctz_step 0x0000000F 4 st in
  let st := ctz_step 0x00000003 2 st in
  let (cnt, val) := ctz_step 0x00000001 1 st in
  if Z.land val 0x00000001 =? 0 then cnt + 1 else cnt.

Definition ctz64 (val : Z) : Z :=
  if u32 val =? 0 then 32 + ctz32 (u32 (Z.shiftr val 32)) else 0 + ctz32 (u32 val).

(** [val ^ ((int32_t)val >> 1)] with the sign bit copied. *)
Definition clrsb32 (val : Z) : Z :=
  clz32 (u32 (Z.lxor val (Z.shiftr (s32 val) 1))) - 1.
Definition clrsb64 (val : Z) : Z :=
  clz64 (u64 (Z.lxor val (Z.shiftr (s64 val) 1))) - 1.

(** [(val & m) + ((val >> k) & m)]. *)
Definition pop_step (k m val : Z) : Z := Z.land val m + Z.land (Z.shiftr val k) m.

Definition ctpop8 (val : Z) : Z :=
  let val := u8 (pop_step 1 0x55 val) in
  let val := u8 (pop_step 2 0x33 val) in
  u8 (pop_step 4 0x0f val).

Definition ctpop16 (val : Z) : Z :=
  let val := u16 (pop_step 1 0x5555 val) in
  let val := u16 (pop_step 2 0x3333 val) in
  let val := u16 (pop_step 4 0x0f0f val) in
  u16 (pop_step 8 0x00ff val).

Definition ctpop32 (val : Z) : Z :=
  let val := u32 (pop_step 1 0x55555555 val) in
  let val := u32 (pop_step 2 0x33333333 val) in
  let val := u32 (pop_step 4 0x0f0f0f0f val) in
  let val := u32 (pop_step 8 0x00ff00ff val) in
  u32 (pop_step 16 0x0000ffff val).

Definition ctpop64 (val : Z) : Z :=
  let val := u64 (pop_step 1 0x5555555555555555 val) in
  let val := u64 (pop_step 2 0x3333333333333333 val) in
  let val := u64 (pop_step 4 0x0f0f0f0f0f0f0f0f val) in
  let val := u64 (pop_step 8 0x00ff00ff00ff00ff val) in
  let val := u64 (pop_step 16 0x0000ffff0000ffff val) in
  u64 (pop_step 32 0x00000000ffffffff val).

End Fallback.

(** ** Multiplication *)

Module MulFacts.
Import Fallback.

Lemma halves v : 0 <= v < 2 ^ 64 -> v = hi32 v * 2 ^ 32 + lo32 v.
Proof.
  intros Hv. unfold hi32, lo32, uwrap. rewrite Z.shiftr_div_pow2 by lia.
  rewrite (Z.mod_small (v / 2 ^ 32)) by dlia. dlia.
Qed.

Lemma lo32_range v : 0 <= lo32 v < 2 ^ 32.
Proof. apply uwrap_range. lia. Qed.

Lemma hi32_range v : 0 <= hi32 v < 2 ^ 32.
Proof. apply uwrap_range. lia. Qed.

Lemma LL_val l h : 0 <= l < 2 ^ 32 -> LL l h = h * 2 ^ 32 + l.
Proof. apply lor_concat. lia. Qed.

(** The schoolbook product of two pairs of halves, with the carries the code
    propagates. *)
Lemma mul64_exact a b :
  0 <= a < 2 ^ 64 -> 0 <= b < 2 ^ 64 ->
  let (l, h) := mul64 a b in
  0 <= l < 2 ^ 64 /\ 0 <= h < 2 ^ 64 /\ a * b = h * 2 ^ 64 + l.
Proof.
  intros Ha Hb. pose proof (halves a Ha) as Ea. pose proof (halves b Hb) as Eb.
  pose proof (lo32_range a). pose proof (hi32_range a).
  pose proof (lo32_range b). pose proof (hi32_range b).
  set (al := lo32 a) in *. set (ah := hi32 a) in *.
  set (bl := lo32 b) in *. set (bh := hi32 b) in *.
  assert (forall x y, 0 <= x < 2 ^ 32 -> 0 <= y < 2 ^ 32 ->
            0 <= x * y <= (2 ^ 32 - 1) * (2 ^ 32 - 1)) as P by (intros; nia).
  unfold mul64. fold al ah bl bh.
  pose proof (P al bl). pose proof (P al bh). pose proof (P ah bl). pose proof (P ah bh).
  rewrite !(uwrap_small 64 (_ * _)) by lia.
  assert (a * b = ah * bh * 2 ^ 64 + (al * bh + ah * bl) * 2 ^ 32 + al * bl) as -> by nia.
  set (p := al * bl) in *. set (q := al * bh) in *.
  set (r := ah * bl) in *. set (s := ah * bh) in *. clearbody p q r s. clear P Ea Eb.
  unfold hi32, lo32. rewrite !Z.shiftr_div_pow2, !LL_val by (apply uwrap_range; lia) || lia.
  unfold uwrap. dlia.
Qed.

(** A pair of 64-bit halves is determined by its value modulo [2^128]. *)
Lemma halves_unique l h l' h' k :
  0 <= l < 2 ^ 64 -> 0 <= h < 2 ^ 64 -> 0 <= l' < 2 ^ 64 -> 0 <= h' < 2 ^ 64 ->
  h * 2 ^ 64 + l = h' * 2 ^ 64 + l' + k * 2 ^ 128 -> (l, h) = (l', h').
Proof. intros. assert (k = 0) by lia. subst. f_equal; lia. Qed.

(** Splitting a 128-bit value in two 64-bit halves. *)
Lemma split128 r : exists k,
  u64 (Z.shiftr r 64) * 2 ^ 64 + u64 r = r + k * 2 ^ 128.
Proof.
  rewrite Z.shiftr_div_pow2 by lia.
  destruct (uwrap_sub_multiple 64 (r / 2 ^ 64)) as [k ->]; [lia|].
  exists k. unfold uwrap. dlia.
Qed.

Lemma u64_range z : 0 <= u64 z < 2 ^ 64.
Proof. apply uwrap_range. lia. Qed.
#[local] Hint Resolve u64_range : core.

Lemma mul64_mulu64 a b :
  0 <= a < 2 ^ 64 -> 0 <= b < 2 ^ 64 -> mul64 a b = HostUtils.mulu64 a b.
Proof.
  intros Ha Hb. pose proof (mul64_exact a b Ha Hb) as H.
  destruct (mul64 a b) as [l h], H as (Hl & Hh & E). unfold HostUtils.mulu64.
  destruct (split128 (uwrap 128 (a * b))) as [k Hk].
  destruct (uwrap_sub_multiple 128 (a * b)) as [k' Hk']; [lia|].
  apply (halves_unique _ _ _ _ (- k - k')); auto. lia.
Qed.

(** The sign correction of [muls64]: each subtraction removes the [2^64] that
    reading a negative operand as unsigned added. *)
Lemma muls64_agree a b :
  - 2 ^ 63 <= a < 2 ^ 63 -> - 2 ^ 63 <= b < 2 ^ 63 -> muls64 a b = HostUtils.muls64 a b.
Proof.
  intros Ha Hb. unfold muls64.
  pose proof (mul64_exact (u64 a) (u64 b) (u64_range _) (u64_range _)) as H.
  destruct (mul64 (u64 a) (u64 b)) as [l h], H as (Hl & Hh & E). unfold HostUtils.muls64.
  destruct (split128 (swrap 128 (a * b))) as [k Hk].
  destruct (swrap_sub_multiple 128 (a * b)) as [k' Hk']; [lia|].
  assert (forall z, - 2 ^ 63 <= z < 2 ^ 63 -> u64 z = z + b2z (z <? 0) * 2 ^ 64) as U.
  { intros z Hz. unfold uwrap, b2z. zcases; dlia. }
  rewrite (U a Ha), (U b Hb) in E.
  destruct (uwrap_sub_multiple 64 (h - a)) as [k1 Hk1]; [lia|].
  destruct (uwrap_sub_multiple 64 (h - b)) as [k2 Hk2]; [lia|].
  destruct (uwrap_sub_multiple 64 (u64 (h - a) - b)) as [k3 Hk3]; [lia|].
  unfold b2z in E. destruct (b <? 0), (a <? 0).
  - apply (halves_unique _ _ _ _ (1 + k1 + k3 - k - k')); auto. lia.
  - apply (halves_unique _ _ _ _ (k1 - k - k')); auto. lia.
  - apply (halves_unique _ _ _ _ (k2 - k - k')); auto. lia.
  - apply (halves_unique _ _ _ _ (- k - k')); auto. lia.
Qed.

End MulFacts.

(** ** Division *)

Module DivFacts.
Import Fallback.

(** Invariant of the loop after [i] of the 64 iterations on the dividend
    [dhi0 * 2^64 + dlo0]: the top of [dlo] holds the dividend bits still to be
    consumed, the bottom the quotient bits so far, [dhi] the partial
    remainder. *)
Definition div_inv (d dhi0 dlo0 i : Z) (st : Z * Z) : Prop :=
  let (dhi, dlo) := st in
  0 <= dhi < d /\
  exists q, 0 <= q < 2 ^ i /\
    dlo = (dlo0 mod 2 ^ (64 - i)) * 2 ^ i + q /\
    dhi0 * 2 ^ i + dlo0 / 2 ^ (64 - i) = q * d + dhi.

(** The next dividend bit. *)
Lemma next_bit x j : 0 < j -> 0 <= x ->
  exists b, 0 <= b < 2 /\
    x / 2 ^ (j - 1) = 2 * (x / 2 ^ j) + b /\
    x mod 2 ^ j = b * 2 ^ (j - 1) + x mod 2 ^ (j - 1).
Proof.
  intros Hj Hx.
  assert (2 ^ j = 2 ^ (j - 1) * 2) as E
    by (rewrite Z.mul_comm, <- Z.pow_succ_r by lia; f_equal; lia).
  exists (x / 2 ^ (j - 1) mod 2). split; [apply Z.mod_pos_bound; lia|]. rewrite E.
  split.
  - rewrite <- Z.div_div by lia. pose proof (Z.div_mod (x / 2 ^ (j - 1)) 2). lia.
  - rewrite Z.rem_mul_r by lia. lia.
Qed.

(** One step on the top bit [b] of [dlo]. *)
Lemma div_step_val d dhi b l :
  0 < d < 2 ^ 64 -> 0 <= dhi < d -> 0 <= b < 2 -> 0 <= l < 2 ^ 63 ->
  div_step d (dhi, b * 2 ^ 63 + l) =
    if d <=? 2 * dhi + b then (2 * dhi + b - d, 2 * l + 1) else (2 * dhi + b, 2 * l).
Proof.
  intros Hd Hdhi Hb Hl. unfold div_step.
  assert (Z.shiftr (b * 2 ^ 63 + l) 63 = b) as -> by (rewrite Z.shiftr_div_pow2 by lia; dlia).
  assert (forall x y, 0 <= y < 2 -> Z.lor (u64 (Z.shiftl x 1)) y = u64 (2 * x + y)) as L.
  { intros x y Hy. replace (u64 (Z.shiftl x 1)) with (Z.shiftl (uwrap 63 x) 1).
    - rewrite lor_concat by lia. unfold uwrap. dlia.
    - rewrite !Z.shiftl_mul_pow2 by lia. unfold uwrap. dlia. }
  rewrite !L by lia.
  assert ((Z.shiftr dhi 63 =? 0) = (2 * dhi <? 2 ^ 64)) as ->.
  { rewrite Z.shiftr_div_pow2 by lia. zcases; dlia. }
  unfold uwrap. zcases; try (f_equal; dlia); exfalso; dlia.
Qed.

Lemma div_step_inv d dhi0 dlo0 i st :
  0 < d < 2 ^ 64 -> 0 <= dlo0 -> 0 <= i < 64 ->
  div_inv d dhi0 dlo0 i st -> div_inv d dhi0 dlo0 (i + 1) (div_step d st).
Proof.
  intros Hd Hlo Hi. destruct st as [dhi dlo]. intros (Hr & q & Hq & -> & E).
  destruct (next_bit dlo0 (64 - i)) as (b & Hb & E1 & E2); [lia|done|].
  replace (64 - i - 1) with (64 - (i + 1)) in * by lia.
  set (m := dlo0 mod 2 ^ (64 - (i + 1))) in *.
  assert (0 <= m < 2 ^ (64 - (i + 1))) as Hm by (apply Z.mod_pos_bound; lia).
  assert (2 ^ (64 - (i + 1)) * 2 ^ i = 2 ^ 63) as P by (rewrite <- Z.pow_add_r by lia; f_equal; lia).
  assert (2 ^ (i + 1) = 2 * 2 ^ i) as P1 by (rewrite Z.pow_add_r by lia; lia).
  rewrite E2.
  replace ((b * 2 ^ (64 - (i + 1)) + m) * 2 ^ i + q) with (b * 2 ^ 63 + (m * 2 ^ i + q)) by nia.
  rewrite div_step_val; [|done|done|done|nia].
  unfold div_inv. rewrite E1. fold m. rewrite P1.
  destruct (Z.leb_spec d (2 * dhi + b)).
  - split; [lia|]. exists (2 * q + 1). split; [lia|]. split; nia.
  - split; [lia|]. exists (2 * q). split; [lia|]. split; nia.
Qed.

Lemma div_iter_inv d dhi0 dlo0 st (n : nat) :
  0 < d < 2 ^ 64 -> 0 <= dlo0 -> Z.of_nat n <= 64 ->
  div_inv d dhi0 dlo0 0 st -> div_inv d dhi0 dlo0 (Z.of_nat n) (Nat.iter n (div_step d) st).
Proof.
  intros Hd Hlo Hn H0. induction n as [|n IH]; [done|].
  rewrite Nat2Z.inj_succ, <- Z.add_1_r. cbn [Nat.iter nat_rect].
  apply div_step_inv; [done|done|lia|]. apply IH. lia.
Qed.

(** The loop divides when the high half is below the divisor. *)
Lemma div_loop_correct d dhi dlo :
  0 <= dhi < d -> d < 2 ^ 64 -> 0 <= dlo < 2 ^ 64 ->
  Nat.iter 64 (div_step d) (dhi, dlo) =
    ((dhi * 2 ^ 64 + dlo) mod d, (dhi * 2 ^ 64 + dlo) / d).
Proof.
  intros Hh Hd Hl.
  assert (div_inv d dhi dlo (Z.of_nat 64) (Nat.iter 64 (div_step d) (dhi, dlo))) as H.
  { apply div_iter_inv; [lia|lia|lia|]. split; [done|]. exists 0.
    rewrite Z.sub_0_r, Z.mod_small, (Z.div_small dlo) by lia. lia. }
  destruct (Nat.iter 64 (div_step d) (dhi, dlo)) as [r q'].
  destruct H as (Hr & q & Hq & -> & E).
  change (64 - Z.of_nat 64) with 0 in *. change (Z.of_nat 64) with 64 in *.
  rewrite Z.pow_0_r, Z.div_1_r in E.
  rewrite Z.pow_0_r, Z.mod_1_r.
  rewrite (Z.div_unique (dhi * 2 ^ 64 + dlo) d q r), (Z.mod_unique (dhi * 2 ^ 64 + dlo) d q r) by lia.
  f_equal; lia.
Qed.

End DivFacts.

(** ** Bit counting *)

Module CountFacts.
Import Fallback.

(** [pos_ctz] is the index of the lowest set bit. *)
Lemma pos_ctz_nonneg p : 0 <= pos_ctz p.
Proof. induction p; cbn [pos_ctz]; lia. Qed.

Lemma builtin_ctz_nonneg v : 0 <= builtin_ctz v.
Proof. destruct v; cbn; [lia|apply pos_ctz_nonneg|lia]. Qed.

Lemma pos_ctz_bit p : Z.testbit (Zpos p) (pos_ctz p) = true.
Proof.
  induction p; cbn [pos_ctz]; [done| |done].
  pose proof (pos_ctz_nonneg p).
  rewrite Pos2Z.inj_xO, Z.add_comm, Z.add_1_r, Z.double_bits_succ. done.
Qed.

Lemma pos_ctz_low p i : 0 <= i < pos_ctz p -> Z.testbit (Zpos p) i = false.
Proof.
  revert i. induction p; intros i Hi; cbn [pos_ctz] in Hi; try lia.
  rewrite Pos2Z.inj_xO. destruct (Z.eq_dec i 0) as [->|]; [apply Z.testbit_even_0|].
  replace i with (Z.succ (i - 1)) by lia. rewrite Z.double_bits_succ. apply IHp. lia.
Qed.

Lemma builtin_ctz_bit v : 0 < v -> Z.testbit v (builtin_ctz v) = true.
Proof. destruct v; [done|intros _; apply pos_ctz_bit|done]. Qed.

Lemma builtin_ctz_low v i : 0 < v -> 0 <= i < builtin_ctz v -> Z.testbit v i = false.
Proof. destruct v; [done|intros _; apply pos_ctz_low|done]. Qed.

Lemma builtin_ctz_unique v n :
  0 < v -> 0 <= n -> Z.testbit v n = true ->
  (forall i, 0 <= i < n -> Z.testbit v i = false) -> builtin_ctz v = n.
Proof.
  intros Hv Hn Hb Hl. pose proof (builtin_ctz_bit v Hv) as B.
  pose proof (builtin_ctz_nonneg v).
  destruct (Z.lt_trichotomy (builtin_ctz v) n) as [?|[?|?]]; [|done|].
  - rewrite Hl in B; [done|lia].
  - rewrite builtin_ctz_low in Hb; [done|done|lia].
Qed.

Lemma builtin_ctz_lt v w : 0 < v < 2 ^ w -> 0 <= w -> builtin_ctz v < w.
Proof.
  intros Hv Hw. destruct (Z.lt_ge_cases (builtin_ctz v) w) as [|H]; [done|].
  pose proof (builtin_ctz_bit v ltac:(lia)) as B.
  rewrite (testbit_high v w) in B; [done|lia|lia].
Qed.

Lemma land_ones_zero v k : 0 <= k -> Z.land v (Z.ones k) = 0 ->
  forall i, 0 <= i < k -> Z.testbit v i = false.
Proof.
  intros Hk H i Hi. assert (Z.testbit (Z.land v (Z.ones k)) i = false) as E
    by (rewrite H; apply Z.testbit_0_l).
  autorewrite with zbits in E. destruct (Z.ltb_spec i k); [|lia].
  by rewrite andb_true_r in E.
Qed.

(** A probe of [ctz]: the count plus the trailing zeros left are kept, and
    fewer than [k] are left. *)
Lemma ctz_probe k cnt v :
  0 <= k -> 0 < v -> builtin_ctz v < 2 * k ->
  let (cnt', v') := ctz_step (Z.ones k) k (cnt, v) in
  0 < v' /\ builtin_ctz v' < k /\ cnt' + builtin_ctz v' = cnt + builtin_ctz v.
Proof.
  intros Hk Hv Hb. unfold ctz_step. pose proof (builtin_ctz_bit v Hv) as B.
  destruct (Z.eqb_spec (Z.land v (Z.ones k)) 0) as [E|E].
  - pose proof (land_ones_zero v k Hk E) as L.
    assert (k <= builtin_ctz v) as Hle.
    { destruct (Z.le_gt_cases k (builtin_ctz v)) as [|G]; [done|].
      rewrite L in B; [done|]. pose proof (builtin_ctz_nonneg v). lia. }
    assert (Z.testbit (Z.shiftr v k) (builtin_ctz v - k) = true) as B'.
    { rewrite Z.shiftr_spec by lia. by replace (builtin_ctz v - k + k) with (builtin_ctz v) by lia. }
    assert (0 < Z.shiftr v k) as Hp.
    { destruct (Z.eq_dec (Z.shiftr v k) 0) as [Z0|]; [rewrite Z0, Z.testbit_0_l in B'; done|].
      pose proof (proj2 (Z.shiftr_nonneg v k)). lia. }
    assert (builtin_ctz (Z.shiftr v k) = builtin_ctz v - k) as ->; [|lia].
    apply builtin_ctz_unique; [done|lia|done|]. intros i Hi.
    rewrite Z.shiftr_spec by lia. apply builtin_ctz_low; lia.
  - split; [done|]. split; [|done].
    destruct (Z.lt_ge_cases (builtin_ctz v) k) as [|G]; [done|].
    destruct E. zbits. zcases; [|apply andb_false_r].
    rewrite builtin_ctz_low by lia. done.
Qed.

Lemma ctz32_agree v : 0 <= v < 2 ^ 32 -> ctz32 v = HostUtils.ctz32 v.
Proof.
  intros Hv. unfold HostUtils.ctz32. destruct (Z.eqb_spec v 0) as [->|]; [done|].
  unfold ctz32. pose proof (builtin_ctz_lt v 32 ltac:(lia) ltac:(lia)) as H.
  pose proof (ctz_probe 16 0 v ltac:(lia) ltac:(lia) ltac:(lia)) as P.
  change (Z.ones 16) with 0x0000FFFF in P.
  destruct (ctz_step _ 16 _) as [c1 v1], P as (H1 & B1 & E1).
  pose proof (ctz_probe 8 c1 v1 ltac:(lia) ltac:(lia) ltac:(lia)) as P.
  change (Z.ones 8) with 0x000000FF in P.
  destruct (ctz_step _ 8 _) as [c2 v2], P as (H2 & B2 & E2).
  pose proof (ctz_probe 4 c2 v2 ltac:(lia) ltac:(lia) ltac:(lia)) as P.
  change (Z.ones 4) with 0x0000000F in P.
  destruct (ctz_step _ 4 _) as [c3 v3], P as (H3 & B3 & E3).
  pose proof (ctz_probe 2 c3 v3 ltac:(lia) ltac:(lia) ltac:(lia)) as P.
  change (Z.ones 2) with 0x00000003 in P.
  destruct (ctz_step _ 2 _) as [c4 v4], P as (H4 & B4 & E4).
  pose proof (ctz_probe 1 c4 v4 ltac:(lia) ltac:(lia) ltac:(lia)) as P.
  change (Z.ones 1) with 0x00000001 in P.
  destruct (ctz_step _ 1 _) as [c5 v5], P as (H5 & B5 & E5).
  pose proof (builtin_ctz_nonneg v5). assert (builtin_ctz v5 = 0) as Z5 by lia.
  pose proof (builtin_ctz_bit v5 H5) as B. rewrite Z5 in B.
  destruct (Z.eqb_spec (Z.land v5 0x00000001) 0) as [E|E]; [|lia].
  pose proof (land_ones_zero v5 1 ltac:(lia) E 0 ltac:(lia)). congruence.
Qed.

(** A probe of [clz]: the high [k] bits are tested by [v < 2^(32-k)]. *)
Lemma clz_probe k cnt v :
  0 < k <= 16 -> 0 < v < 2 ^ 32 -> 32 - 2 * k <= Z.log2 v ->
  let (cnt', v') := clz_step (Z.shiftl (Z.ones k) (32 - k)) k (cnt, v) in
  0 < v' < 2 ^ 32 /\ 32 - k <= Z.log2 v' /\ cnt' - Z.log2 v' = cnt - Z.log2 v.
Proof.
  intros Hk Hv Hl. unfold clz_step.
  assert (Z.land v (Z.shiftl (Z.ones k) (32 - k)) = Z.shiftl (Z.shiftr v (32 - k)) (32 - k)) as ->.
  { zbits. destruct (Z.ltb_spec i (32 - k)).
    - rewrite (Z.testbit_neg_r (Z.ones k)), (Z.testbit_neg_r (Z.shiftr v _)) by lia.
      apply andb_false_r.
    - autorewrite with zbits. replace (i - (32 - k) + (32 - k)) with i by lia.
      zcases; [apply andb_true_r|]. rewrite (testbit_high v 32) by lia. done. }
  assert ((Z.shiftl (Z.shiftr v (32 - k)) (32 - k) =? 0) = (v <? 2 ^ (32 - k))) as ->.
  { rewrite Z.shiftl_mul_pow2, Z.shiftr_div_pow2 by lia.
    destruct (Z.ltb_spec v (2 ^ (32 - k))).
    - rewrite Z.div_small by lia. done.
    - assert (1 <= v / 2 ^ (32 - k)) by (apply Z.div_le_lower_bound; lia).
      apply Z.eqb_neq. nia. }
  destruct (Z.ltb_spec v (2 ^ (32 - k))) as [H|H].
  - assert (2 ^ 32 = 2 ^ (32 - k) * 2 ^ k) as P by (rewrite <- Z.pow_add_r by lia; f_equal; lia).
    rewrite Z.shiftl_mul_pow2 by lia. rewrite uwrap_small by nia.
    rewrite Z.log2_mul_pow2 by lia. nia.
  - split; [done|]. split; [|done]. apply Z.log2_le_pow2; lia.
Qed.

Lemma clz32_agree v : 0 <= v < 2 ^ 32 -> clz32 v = HostUtils.clz32 v.
Proof.
  intros Hv. unfold HostUtils.clz32, builtin_clz.
  destruct (Z.eqb_spec v 0) as [->|]; [done|].
  unfold clz32. pose proof (Z.log2_nonneg v).
  pose proof (clz_probe 16 0 v ltac:(lia) ltac:(lia) ltac:(lia)) as P.
  change (Z.shiftl (Z.ones 16) (32 - 16)) with 0xFFFF0000 in P.
  destruct (clz_step _ 16 _) as [c1 v1], P as (H1 & B1 & E1).
  pose proof (clz_probe 8 c1 v1 ltac:(lia) ltac:(lia) ltac:(lia)) as P.
  change (Z.shiftl (Z.ones 8) (32 - 8)) with 0xFF000000 in P.
  destruct (clz_step _ 8 _) as [c2 v2], P as (H2 & B2 & E2).
  pose proof (clz_probe 4 c2 v2 ltac:(lia) ltac:(lia) ltac:(lia)) as P.
  change (Z.shiftl (Z.ones 4) (32 - 4)) with 0xF0000000 in P.
  destruct (clz_step _ 4 _) as [c3 v3], P as (H3 & B3 & E3).
  pose proof (clz_probe 2 c3 v3 ltac:(lia) ltac:(lia) ltac:(lia)) as P.
  change (Z.shiftl (Z.ones 2) (32 - 2)) with 0xC0000000 in P.
  destruct (clz_step _ 2 _) as [c4 v4], P as (H4 & B4 & E4).
  pose proof (clz_probe 1 c4 v4 ltac:(lia) ltac:(lia) ltac:(lia)) as P.
  change (Z.shiftl (Z.ones 1) (32 - 1)) with 0x80000000 in P.
  destruct (clz_step _ 1 _) as [c5 v5], P as (H5 & B5 & E5).
  assert (Z.log2 v5 = 31) as L5.
  { assert (Z.log2 v5 < 32) by (apply Z.log2_lt_pow2; lia). lia. }
  assert (Z.testbit v5 31 = true) as T by (rewrite <- L5; apply Z.bit_log2; lia).
  destruct (Z.eqb_spec (Z.land v5 0x80000000) 0) as [E|E]; [|lia].
  assert (Z.testbit (Z.land v5 (2 ^ 31)) 31 = false) as F
    by (change (2 ^ 31) with 0x80000000; rewrite E; apply Z.testbit_0_l).
  rewrite Z.land_spec, T, pow2_testbit in F by lia. done.
Qed.

Lemma ctz64_agree v : 0 <= v < 2 ^ 64 -> ctz64 v = HostUtils.ctz64 v.
Proof.
  intros Hv. unfold ctz64. rewrite !ctz32_agree by (apply uwrap_range; lia).
  unfold HostUtils.ctz32, HostUtils.ctz64.
  rewrite (uwrap_small 32 (Z.shiftr v 32)) by (rewrite Z.shiftr_div_pow2 by lia; dlia).
  destruct (Z.eqb_spec v 0) as [->|N]; [done|].
  assert (forall i, 0 <= i < 32 -> Z.testbit (u32 v) i = Z.testbit v i) as L.
  { intros. autorewrite with zbits. zcases; [done|lia]. }
  destruct (Z.eqb_spec (u32 v) 0) as [E|E].
  - assert (0 < Z.shiftr v 32) as Hp.
    { rewrite Z.shiftr_div_pow2 by lia. unfold uwrap in E. dlia. }
    destruct (Z.eqb_spec (Z.shiftr v 32) 0); [lia|]. symmetry.
    pose proof (builtin_ctz_nonneg (Z.shiftr v 32)).
    apply builtin_ctz_unique; [lia|lia| |].
    + pose proof (builtin_ctz_bit _ Hp) as B. rewrite Z.shiftr_spec in B by done.
      by rewrite Z.add_comm.
    + intros i Hi. destruct (Z.ltb_spec i 32).
      * rewrite <- L, E, Z.testbit_0_l by lia. done.
      * pose proof (builtin_ctz_low (Z.shiftr v 32) (i - 32) Hp ltac:(lia)) as B.
        rewrite Z.shiftr_spec in B by lia. by replace (i - 32 + 32) with i in B by lia.
  - pose proof (uwrap_range 32 v ltac:(lia)).
    pose proof (builtin_ctz_lt (u32 v) 32 ltac:(lia) ltac:(lia)).
    pose proof (builtin_ctz_nonneg (u32 v)). symmetry. rewrite Z.add_0_l.
    apply builtin_ctz_unique; [lia|lia| |].
    + rewrite <- L by lia. apply builtin_ctz_bit. lia.
    + intros i Hi. rewrite <- L by lia. apply builtin_ctz_low; lia.
Qed.

Lemma clz64_agree v : 0 <= v < 2 ^ 64 -> clz64 v = HostUtils.clz64 v.
Proof.
  intros Hv. unfold clz64. rewrite !clz32_agree by (apply uwrap_range; lia).
  assert (0 <= Z.shiftr v 32 < 2 ^ 32) as Hs by (rewrite Z.shiftr_div_pow2 by lia; dlia).
  rewrite (uwrap_small 32 (Z.shiftr v 32)) by done.
  unfold HostUtils.clz32, HostUtils.clz64, builtin_clz.
  destruct (Z.eqb_spec v 0) as [->|N]; [done|].
  destruct (Z.eqb_spec (Z.shiftr v 32) 0) as [E|E].
  - assert (u32 v = v) as ->.
    { apply uwrap_small. rewrite Z.shiftr_div_pow2 in E by lia. dlia. }
    destruct (Z.eqb_spec v 0); lia.
  - rewrite Z.log2_shiftr by lia.
    assert (32 <= Z.log2 v).
    { apply Z.log2_le_pow2; [lia|]. rewrite Z.shiftr_div_pow2 in E by lia. dlia. }
    lia.
Qed.

End CountFacts.

(** ** Population count *)

Module PopFacts.
Import Fallback.

(** Sum of the [n] lowest [k]-bit fields of [v]. *)
Fixpoint fields (k : Z) (n : nat) (v : Z) : Z :=
  match n with
  | O => 0
  | S n => v mod 2 ^ k + fields k n (v / 2 ^ k)
  end.

(** The mask that keeps the lower [k]-bit half of each of [n] fields. *)
Fixpoint half_mask (k : Z) (n : nat) : Z :=
  match n with
  | O => 0
  | S n => half_mask k n * 2 ^ (2 * k) + Z.ones k
  end.

Lemma half_mask_land k n v :
  0 < k -> Z.land v (half_mask k (S n)) =
    Z.land (v / 2 ^ (2 * k)) (half_mask k n) * 2 ^ (2 * k) + v mod 2 ^ k.
Proof.
  intros Hk. cbn [half_mask].
  assert (2 ^ k < 2 ^ (2 * k)) by (apply Z.pow_lt_mono_r; lia).
  pose proof (Z.mod_pos_bound v (2 ^ k) ltac:(lia)).
  zbits. rewrite !concat_testbit; try lia.
  - autorewrite with zbits. destruct (Z.ltb_spec i (2 * k)).
    + zcases; [rewrite Z.mod_pow2_bits_low by done; apply andb_true_r|].
      rewrite Z.mod_pow2_bits_high by lia. apply andb_false_r.
    + rewrite Z.div_pow2_bits by lia. f_equal. f_equal. lia.
  - rewrite Z.ones_equiv. lia.
Qed.

Lemma pop_step_field k n v :
  0 < k -> pop_step k (half_mask k (S n)) v =
    pop_step k (half_mask k n) (v / 2 ^ (2 * k)) * 2 ^ (2 * k)
    + (v mod 2 ^ k + v / 2 ^ k mod 2 ^ k).
Proof.
  intros Hk. unfold pop_step. rewrite !half_mask_land, !Z.shiftr_div_pow2 by lia.
  rewrite !Z.div_div by lia. rewrite (Z.mul_comm (2 ^ k) (2 ^ (2 * k))). lia.
Qed.

(** One line of the routine halves the number of fields and keeps their sum. *)
Lemma pop_step_fields k n v :
  0 < k -> fields (2 * k) n (pop_step k (half_mask k n) v) = fields k (n + n) v.
Proof.
  intros Hk. revert v. induction n as [|n IH]; intros v; [done|].
  rewrite pop_step_field by done. rewrite Nat.add_succ_r. cbn [Nat.add fields].
  pose proof (Z.mod_pos_bound v (2 ^ k) ltac:(lia)).
  pose proof (Z.mod_pos_bound (v / 2 ^ k) (2 ^ k) ltac:(lia)).
  assert (2 ^ (2 * k) = 2 ^ k * 2 ^ k) as E by (rewrite <- Z.pow_add_r by lia; f_equal; lia).
  assert (2 <= 2 ^ k) by (rewrite <- (Z.pow_1_r 2) at 1; apply Z.pow_le_mono_r; lia).
  rewrite Z.div_add_l by lia. rewrite (Z.div_small (_ + _)) by nia.
  rewrite Z.add_0_r, IH, (Z.add_comm (_ * _) (_ + _)), Z.mod_add by lia.
  rewrite Z.mod_small by nia. rewrite E, Z.div_div by lia. lia.
Qed.

Lemma pop_step_range k n v :
  0 < k -> 0 <= pop_step k (half_mask k n) v < 2 ^ (2 * k * Z.of_nat n).
Proof.
  intros Hk. revert v. induction n as [|n IH]; intros v.
  - unfold pop_step. cbn [half_mask]. rewrite !Z.land_0_r. lia.
  - rewrite pop_step_field by done. pose proof (IH (v / 2 ^ (2 * k))).
    pose proof (Z.mod_pos_bound v (2 ^ k) ltac:(lia)).
    pose proof (Z.mod_pos_bound (v / 2 ^ k) (2 ^ k) ltac:(lia)).
    assert (2 ^ (2 * k) = 2 ^ k * 2 ^ k) by (rewrite <- Z.pow_add_r by lia; f_equal; lia).
    assert (2 <= 2 ^ k) by (rewrite <- (Z.pow_1_r 2) at 1; apply Z.pow_le_mono_r; lia).
    replace (2 * k * Z.of_nat (S n)) with (2 * k * Z.of_nat n + 2 * k) by lia.
    rewrite Z.pow_add_r by lia. nia.
Qed.

Lemma fields1_popcount n v : 0 <= v < 2 ^ Z.of_nat n -> fields 1 n v = builtin_popcount v.
Proof.
  revert v. induction n as [|n IH]; intros v Hv.
  - assert (v = 0) as -> by lia. done.
  - cbn [fields]. change (2 ^ 1) with 2.
    assert (2 ^ Z.of_nat (S n) = 2 * 2 ^ Z.of_nat n)
      by (rewrite Nat2Z.inj_succ, Z.pow_succ_r by lia; done).
    rewrite IH by dlia. rewrite <- Z.div2_div, Zmod_odd.
    destruct v as [|[p|p|]|]; [done|done|done|done|lia].
Qed.

(** [fields] of one field is the value itself. *)
Lemma fields_one k v : 0 <= v < 2 ^ k -> fields k 1 v = v.
Proof. intros. cbn [fields]. rewrite Z.mod_small by done. lia. Qed.

(** A line of the routine, the truncation to its type included. *)
Lemma pop_line w k n m v :
  m = half_mask k n -> 0 < k -> w = 2 * k * Z.of_nat n ->
  0 <= uwrap w (pop_step k m v) < 2 ^ w /\
  fields (2 * k) n (uwrap w (pop_step k m v)) = fields k (n + n) v.
Proof.
  intros -> Hk ->. pose proof (pop_step_range k n v Hk).
  rewrite uwrap_small by done. split; [done|]. apply pop_step_fields. done.
Qed.

Ltac pop_line w k n :=
  match goal with |- context [uwrap w (pop_step k ?m ?v)] =>
    let R := fresh "R" in let F := fresh "F" in
    destruct (pop_line w k n m v) as [R F];
      [reflexivity|lia|reflexivity|];
    let k2 := eval compute in (2 * k) in change (2 * k) with k2 in F;
    set (uwrap w (pop_step k m v)) in *
  end.

Lemma ctpop8_agree v : 0 <= v < 2 ^ 8 -> ctpop8 v = HostUtils.ctpop8 v.
Proof.
  intros Hv. unfold ctpop8, HostUtils.ctpop8. rewrite <- (fields1_popcount 8) by done.
  pop_line 8 1 4%nat. pop_line 8 2 2%nat. pop_line 8 4 1%nat.
  rewrite fields_one in F1 by done. cbn [Nat.add] in *. congruence.
Qed.

Lemma ctpop16_agree v : 0 <= v < 2 ^ 16 -> ctpop16 v = HostUtils.ctpop16 v.
Proof.
  intros Hv. unfold ctpop16, HostUtils.ctpop16. rewrite <- (fields1_popcount 16) by done.
  pop_line 16 1 8%nat. pop_line 16 2 4%nat. pop_line 16 4 2%nat. pop_line 16 8 1%nat.
  rewrite fields_one in F2 by done. cbn [Nat.add] in *. congruence.
Qed.

Lemma ctpop32_agree v : 0 <= v < 2 ^ 32 -> ctpop32 v = HostUtils.ctpop32 v.
Proof.
  intros Hv. unfold ctpop32, HostUtils.ctpop32. rewrite <- (fields1_popcount 32) by done.
  pop_line 32 1 16%nat. pop_line 32 2 8%nat. pop_line 32 4 4%nat. pop_line 32 8 2%nat.
  pop_line 32 16 1%nat.
  rewrite fields_one in F3 by done. cbn [Nat.add] in *. congruence.
Qed.

Lemma ctpop64_agree v : 0 <= v < 2 ^ 64 -> ctpop64 v = HostUtils.ctpop64 v.
Proof.
  intros Hv. unfold ctpop64, HostUtils.ctpop64. rewrite <- (fields1_popcount 64) by done.
  pop_line 64 1 32%nat. pop_line 64 2 16%nat. pop_line 64 4 8%nat. pop_line 64 8 4%nat.
  pop_line 64 16 2%nat. pop_line 64 32 1%nat.
  rewrite fields_one in F4 by done. cbn [Nat.add] in *. congruence.
Qed.

End PopFacts.

(** ** Claims *)

(** The portable 64x64->128 multiplications compute the exact product.
    [mulu64] built from four 32x32 products and [muls64] with its sign
    corrections return the same halves as the [__int128] versions, and those
    halves are the product. *)
Theorem mul64_portable_correct a b :
  (0 <= a < 2 ^ 64 -> 0 <= b < 2 ^ 64 ->
     Fallback.mulu64 a b = mulu64 a b /\
     let (l, h) := mulu64 a b in h * 2 ^ 64 + l = a * b) /\
  (- 2 ^ 63 <= a < 2 ^ 63 -> - 2 ^ 63 <= b < 2 ^ 63 ->
     Fallback.muls64 a b = muls64 a b /\
     let (l, h) := muls64 a b in s64 h * 2 ^ 64 + l = a * b).
Proof.
  split; intros Ha Hb.
  - split; [by apply MulFacts.mul64_mulu64|].
    rewrite <- MulFacts.mul64_mulu64 by done. pose proof (MulFacts.mul64_exact a b Ha Hb) as H.
    destruct (Fallback.mul64 a b). lia.
  - split; [by apply MulFacts.muls64_agree|]. unfold muls64.
    assert (- 2 ^ 126 <= a * b <= 2 ^ 126) as H by nia.
    cbv zeta. rewrite (swrap_small 128 (a * b)) by lia. rewrite Z.shiftr_div_pow2 by lia.
    unfold swrap, uwrap. generalize (a * b) H. intros. dlia.
Qed.

Lemma mul64_portable_witness :
  Fallback.mulu64 (2 ^ 64 - 1) (2 ^ 64 - 1) = mulu64 (2 ^ 64 - 1) (2 ^ 64 - 1) /\
  Fallback.muls64 (-5) 7 = muls64 (-5) 7.
Proof.
  split.
  - refine (proj1 (proj1 (mul64_portable_correct (2 ^ 64 - 1) (2 ^ 64 - 1)) _ _)); lia.
  - refine (proj1 (proj2 (mul64_portable_correct (-5) 7) _ _)); lia.
Defined.

(** 128/64 bit unsigned division.  When the quotient fits in 64 bits
    (the high half is below the divisor) the shift-and-subtract loop and the
    [__uint128_t] version both return 0, the quotient and the remainder; when
    the high half is above the divisor, or the divisor is zero, both report
    overflow. *)
Theorem divu128_portable_correct lo hi d :
  0 <= lo < 2 ^ 64 -> 0 <= hi < 2 ^ 64 -> 0 <= d < 2 ^ 64 ->
  (hi < d ->
     Fallback.divu128 lo hi d = divu128 lo hi d /\
     divu128 lo hi d = (0, (hi * 2 ^ 64 + lo) / d, (hi * 2 ^ 64 + lo) mod d)) /\
  (d < hi \/ d = 0 -> (Fallback.divu128 lo hi d).1.1 = 1 /\ (divu128 lo hi d).1.1 = 1).
Proof.
  intros Hl Hh Hd. unfold Fallback.divu128, divu128.
  rewrite uwrap_small, lor_concat by (rewrite ?Z.shiftl_mul_pow2 by lia; lia).
  destruct (Z.eqb_spec d 0) as [->|Hd0]; [split; [lia|done]|]. split.
  - intros Hlt.
    assert (0 <= (hi * 2 ^ 64 + lo) / d < 2 ^ 64).
    { split; [apply Z.div_pos; lia|apply Z.div_lt_upper_bound; nia]. }
    pose proof (Z.mod_pos_bound (hi * 2 ^ 64 + lo) d ltac:(lia)).
    rewrite !(uwrap_small 64) by lia.
    destruct (Z.ltb_spec (2 ^ 64 - 1) ((hi * 2 ^ 64 + lo) / d)); [lia|]. split; [|done].
    destruct (Z.eqb_spec hi 0) as [->|]; [done|].
    destruct (Z.ltb_spec d hi); [lia|].
    rewrite DivFacts.div_loop_correct by lia. done.
  - intros [Hlt|]; [|done].
    destruct (Z.eqb_spec hi 0); [lia|]. destruct (Z.ltb_spec d hi); [|lia]. split; [done|].
    cbn. assert (2 ^ 64 <= (hi * 2 ^ 64 + lo) / d) by (apply Z.div_le_lower_bound; nia).
    destruct (Z.ltb_spec (2 ^ 64 - 1) ((hi * 2 ^ 64 + lo) / d)); [done|lia].
Qed.

Lemma divu128_portable_witness :
  Fallback.divu128 5 3 7 = divu128 5 3 7 /\ (Fallback.divu128 5 7 3).1.1 = 1.
Proof.
  split.
  - refine (proj1 (proj1 (divu128_portable_correct 5 3 7 _ _ _) _)); lia.
  - refine (proj1 (proj2 (divu128_portable_correct 5 7 3 _ _ _) _)); lia.
Defined.

(** The portable [divu128] misses the overflow at the boundary.  When
    the high half equals the divisor the quotient needs more than 64 bits; the
    [__uint128_t] version returns 1 as documented, the portable one, which
    tests [dhi > divisor], returns 0. *)
Theorem divu128_portable_misses_overflow lo d :
  0 <= lo < 2 ^ 64 -> 0 < d < 2 ^ 64 ->
  (Fallback.divu128 lo d d).1.1 = 0 /\ (divu128 lo d d).1.1 = 1.
Proof.
  intros Hl Hd. unfold Fallback.divu128, divu128.
  rewrite uwrap_small, lor_concat by (rewrite ?Z.shiftl_mul_pow2 by lia; lia).
  destruct (Z.eqb_spec d 0); [lia|]. rewrite Z.ltb_irrefl. split.
  - by destruct (Nat.iter _ _ _).
  - cbn. assert (2 ^ 64 <= (d * 2 ^ 64 + lo) / d) by (apply Z.div_le_lower_bound; nia).
    destruct (Z.ltb_spec (2 ^ 64 - 1) ((d * 2 ^ 64 + lo) / d)); [done|lia].
Qed.

Lemma divu128_portable_misses_witness : (Fallback.divu128 0 3 3).1.1 = 0.
Proof. apply (divu128_portable_misses_overflow 0 3); lia. Defined.

(** The [__int128] version of the signed division takes the low half
    with its sign.  Whenever bit 63 of the low half of the dividend is set,
    the high half is or-ed with ones and lost: the routine divides the low
    half alone, whatever the high half. *)
Theorem divs128_loses_high_half lo hi d :
  - 2 ^ 63 <= lo < 0 -> - 2 ^ 63 <= hi < 2 ^ 63 -> d <> 0 ->
  (divs128 lo hi d).1.2 = s64 (Z.quot lo d) /\ (divs128 lo hi d).2 = s64 (Z.rem lo d).
Proof.
  intros Hlo Hhi Hd. unfold divs128. destruct (Z.eqb_spec d 0); [done|].
  assert (Z.lor (swrap 128 (Z.shiftl hi 64)) lo = lo) as ->; [|done].
  rewrite swrap_small by (rewrite ?Z.shiftl_mul_pow2 by lia; lia).
  zbits. destruct (Z.ltb_spec i 64).
  - rewrite Z.testbit_neg_r by lia. done.
  - rewrite <- (Z.lnot_involutive lo), Z.lnot_spec by lia.
    rewrite (testbit_high (Z.lnot lo) 63); [apply orb_true_r| |lia]. unfold Z.lnot. lia.
Qed.

Lemma divs128_loses_high_half_witness :
  (divs128 (-1) 5 3).1.2 = (divs128 (-1) 0 3).1.2.
Proof.
  transitivity (s64 (Z.quot (-1) 3)).
  - apply (divs128_loses_high_half (-1) 5 3); lia.
  - symmetry. apply (divs128_loses_high_half (-1) 0 3); lia.
Defined.

(** The portable bit counters (binary searches for the leading and
    trailing one bit, and the field-summing population count) agree with the
    compiler builtins on every value of their type, zero included. *)
Theorem bit_counters_portable_correct v :
  (0 <= v < 2 ^ 64 ->
     Fallback.clz64 v = clz64 v /\ Fallback.ctz64 v = ctz64 v /\ Fallback.ctpop64 v = ctpop64 v) /\
  (0 <= v < 2 ^ 32 ->
     Fallback.clz32 v = clz32 v /\ Fallback.ctz32 v = ctz32 v /\ Fallback.ctpop32 v = ctpop32 v) /\
  (0 <= v < 2 ^ 16 -> Fallback.ctpop16 v = ctpop16 v) /\
  (0 <= v < 2 ^ 8 -> Fallback.ctpop8 v = ctpop8 v).
Proof.
  repeat split; auto using CountFacts.clz64_agree, CountFacts.ctz64_agree,
    PopFacts.ctpop64_agree, CountFacts.clz32_agree, CountFacts.ctz32_agree,
    PopFacts.ctpop32_agree, PopFacts.ctpop16_agree, PopFacts.ctpop8_agree.
Qed.

Lemma bit_counters_portable_witness :
  Fallback.clz64 0x00ff0100 = clz64 0x00ff0100 /\ Fallback.ctpop8 0xa5 = 4.
Proof.
  split.
  - refine (proj1 (proj1 (bit_counters_portable_correct 0x00ff0100) _)); lia.
  - transitivity (ctpop8 0xa5); [|reflexivity].
    refine (proj2 (proj2 (proj2 (bit_counters_portable_correct 0xa5))) _); lia.
Defined.

(** The portable signed division reports an overflow for a zero quotient when
    the signs differ: -1 / 2 is in range, and the [__int128] version agrees. *)
Lemma divs128_portable_zero_quotient :
  (Fallback.divs128 (-1) (-1) 2).1.1 = 1 /\ divs128 (-1) (-1) 2 = (0, 0, -1).
Proof. split; vm_compute; reflexivity. Qed.
