(* ===== verification/Gic.v ===== *)
(** * The ARM generic interrupt controller

    [hw/intc/arm_gic.c], [hw/intc/gic_internal.h] and the state and reset of
    [hw/intc/arm_gic_common.c]: the distributor and CPU interfaces of the GIC
    (revision 0 for the 11MPCore, 1 and 2 for the architecture versions,
    [REV_NVIC] for the NVIC).  The output lines are the field [parent_irq].
    [current_cpu], the index of the CPU that performs an access, is an argument
    of the register handlers.  A register access outside an array of the state
    is a fault of the model; in the program it is memory corruption. *)

From stdpp Require Import base list numbers.
From S2P Require Import Prelude HostUtils.

Definition GIC_MAXIRQ : Z := 1020.
Definition GIC_INTERNAL : Z := 32.
Definition GIC_NR_SGIS : Z := 16.
Definition GIC_NCPU : Z := 8.
Definition ALL_CPU_MASK : Z := Z.shiftl 1 GIC_NCPU - 1.
Definition REV_11MPCORE : Z := 0.
Definition REV_NVIC : Z := 0xffffffff.

Record gic_irq_state : Type := mkIrq {
  ienabled : Z; ipending : Z; iactive : Z; ilevel : Z; imodel : bool; iedge_trigger : bool
}.

Record GICState : Type := mkGIC {
  parent_irq : list Z;
  enabled : bool;
  cpu_enabled : list bool;
  irq_state : list gic_irq_state;
  irq_target : list Z;
  priority1 : list (list Z);
  priority2 : list Z;
  last_active : list (list Z);
  sgi_pending : list (list Z);
  priority_mask : list Z;
  running_irq : list Z;
  running_priority : list Z;
  current_pending : list Z;
  bpr : list Z;
  abpr : list Z;
  apr : list (list Z);
  num_cpu : Z;
  num_irq : Z;
  revision : Z
}.

(** ** Field updates *)

Definition put_parent_irq v s := mkGIC v (enabled s) (cpu_enabled s) (irq_state s) (irq_target s)
  (priority1 s) (priority2 s) (last_active s) (sgi_pending s) (priority_mask s) (running_irq s)
  (running_priority s) (current_pending s) (bpr s) (abpr s) (apr s) (num_cpu s) (num_irq s) (revision s).
Definition put_enabled v s := mkGIC (parent_irq s) v (cpu_enabled s) (irq_state s) (irq_target s)
  (priority1 s) (priority2 s) (last_active s) (sgi_pending s) (priority_mask s) (running_irq s)
  (running_priority s) (current_pending s) (bpr s) (abpr s) (apr s) (num_cpu s) (num_irq s) (revision s).
Definition put_cpu_enabled v s := mkGIC (parent_irq s) (enabled s) v (irq_state s) (irq_target s)
  (priority1 s) (priority2 s) (last_active s) (sgi_pending s) (priority_mask s) (running_irq s)
  (running_priority s) (current_pending s) (bpr s) (abpr s) (apr s) (num_cpu s) (num_irq s) (revision s).
Definition put_irq_state v s := mkGIC (parent_irq s) (enabled s) (cpu_enabled s) v (irq_target s)
  (priority1 s) (priority2 s) (last_active s) (sgi_pending s) (priority_mask s) (running_irq s)
  (running_priority s) (current_pending s) (bpr s) (abpr s) (apr s) (num_cpu s) (num_irq s) (revision s).
Definition put_irq_target v s := mkGIC (parent_irq s) (enabled s) (cpu_enabled s) (irq_state s) v
  (priority1 s) (priority2 s) (last_active s) (sgi_pending s) (priority_mask s) (running_irq s)
  (running_priority s) (current_pending s) (bpr s) (abpr s) (apr s) (num_cpu s) (num_irq s) (revision s).
Definition put_priority1 v s := mkGIC (parent_irq s) (enabled s) (cpu_enabled s) (irq_state s) (irq_target s)
  v (priority2 s) (last_active s) (sgi_pending s) (priority_mask s) (running_irq s)
  (running_priority s) (current_pending s) (bpr s) (abpr s) (apr s) (num_cpu s) (num_irq s) (revision s).
Definition put_priority2 v s := mkGIC (parent_irq s) (enabled s) (cpu_enabled s) (irq_state s) (irq_target s)
  (priority1 s) v (last_active s) (sgi_pending s) (priority_mask s) (running_irq s)
  (running_priority s) (current_pending s) (bpr s) (abpr s) (apr s) (num_cpu s) (num_irq s) (revision s).
Definition put_last_active v s := mkGIC (parent_irq s) (enabled s) (cpu_enabled s) (irq_state s) (irq_target s)
  (priority1 s) (priority2 s) v (sgi_pending s) (priority_mask s) (running_irq s)
  (running_priority s) (current_pending s) (bpr s) (abpr s) (apr s) (num_cpu s) (num_irq s) (revision s).
Definition put_sgi_pending v s := mkGIC (parent_irq s) (enabled s) (cpu_enabled s) (irq_state s) (irq_target s)
  (priority1 s) (priority2 s) (last_active s) v (priority_mask s) (running_irq s)
  (running_priority s) (current_pending s) (bpr s) (abpr s) (apr s) (num_cpu s) (num_irq s) (revision s).
Definition put_priority_mask v s := mkGIC (parent_irq s) (enabled s) (cpu_enabled s) (irq_state s) (irq_target s)
  (priority1 s) (priority2 s) (last_active s) (sgi_pending s) v (running_irq s)
  (running_priority s) (current_pending s) (bpr s) (abpr s) (apr s) (num_cpu s) (num_irq s) (revision s).
Definition put_running_irq v s := mkGIC (parent_irq s) (enabled s) (cpu_enabled s) (irq_state s) (irq_target s)
  (priority1 s) (priority2 s) (last_active s) (sgi_pending s) (priority_mask s) v
  (running_priority s) (current_pending s) (bpr s) (abpr s) (apr s) (num_cpu s) (num_irq s) (revision s).
Definition put_running_priority v s := mkGIC (parent_irq s) (enabled s) (cpu_enabled s) (irq_state s) (irq_target s)
  (priority1 s) (priority2 s) (last_active s) (sgi_pending s) (priority_mask s) (running_irq s)
  v (current_pending s) (bpr s) (abpr s) (apr s) (num_cpu s) (num_irq s) (revision s).
Definition put_current_pending v s := mkGIC (parent_irq s) (enabled s) (cpu_enabled s) (irq_state s) (irq_target s)
  (priority1 s) (priority2 s) (last_active s) (sgi_pending s) (priority_mask s) (running_irq s)
  (running_priority s) v (bpr s) (abpr s) (apr s) (num_cpu s) (num_irq s) (revision s).
Definition put_bpr v s := mkGIC (parent_irq s) (enabled s) (cpu_enabled s) (irq_state s) (irq_target s)
  (priority1 s) (priority2 s) (last_active s) (sgi_pending s) (priority_mask s) (running_irq s)
  (running_priority s) (current_pending s) v (abpr s) (apr s) (num_cpu s) (num_irq s) (revision s).
Definition put_abpr v s := mkGIC (parent_irq s) (enabled s) (cpu_enabled s) (irq_state s) (irq_target s)
  (priority1 s) (priority2 s) (last_active s) (sgi_pending s) (priority_mask s) (running_irq s)
  (running_priority s) (current_pending s) (bpr s) v (apr s) (num_cpu s) (num_irq s) (revision s).

(** [a[i][j]] and [a[i][j] = v]. *)
Definition aget2 (a : list (list Z)) (i j : Z) : res Z := let* r := aget a i in aget r j.
Definition aset2 (a : list (list Z)) (i j v : Z) : res (list (list Z)) :=
  let* r := aget a i in let* r := aset r j v in aset a i r.

(** ** The macros of [gic_internal.h] *)

Definition GIC_BASE_IRQ (s : GICState) : Z := if revision s =? REV_NVIC then 32 else 0.

(** Update of one [irq_state] element. *)
Definition irq_modify (f : gic_irq_state -> gic_irq_state) (irq : Z) (s : GICState) : res GICState :=
  let* x := aget (irq_state s) irq in
  let* l := aset (irq_state s) irq (f x) in Ok (put_irq_state l s).

Definition GIC_SET_ENABLED irq cm := irq_modify (fun x =>
  mkIrq (u8 (Z.lor (ienabled x) cm)) (ipending x) (iactive x) (ilevel x) (imodel x) (iedge_trigger x)) irq.
Definition GIC_CLEAR_ENABLED irq cm := irq_modify (fun x =>
  mkIrq (u8 (Z.land (ienabled x) (Z.lnot cm))) (ipending x) (iactive x) (ilevel x) (imodel x) (iedge_trigger x)) irq.
Definition GIC_SET_PENDING irq cm := irq_modify (fun x =>
  mkIrq (ienabled x) (u8 (Z.lor (ipending x) cm)) (iactive x) (ilevel x) (imodel x) (iedge_trigger x)) irq.
Definition GIC_CLEAR_PENDING irq cm := irq_modify (fun x =>
  mkIrq (ienabled x) (u8 (Z.land (ipending x) (Z.lnot cm))) (iactive x) (ilevel x) (imodel x) (iedge_trigger x)) irq.
Definition GIC_SET_LEVEL irq cm := irq_modify (fun x =>
  mkIrq (ienabled x) (ipending x) (iactive x) (u8 (Z.lor (ilevel x) cm)) (imodel x) (iedge_trigger x)) irq.
Definition GIC_CLEAR_LEVEL irq cm := irq_modify (fun x =>
  mkIrq (ienabled x) (ipending x) (iactive x) (u8 (Z.land (ilevel x) (Z.lnot cm))) (imodel x) (iedge_trigger x)) irq.
Definition GIC_PUT_MODEL irq b := irq_modify (fun x =>
  mkIrq (ienabled x) (ipending x) (iactive x) (ilevel x) b (iedge_trigger x)) irq.
Definition GIC_PUT_EDGE_TRIGGER irq b := irq_modify (fun x =>
  mkIrq (ienabled x) (ipending x) (iactive x) (ilevel x) (imodel x) b) irq.

Definition irq_query {A} (f : gic_irq_state -> A) (irq : Z) (s : GICState) : res A :=
  let* x := aget (irq_state s) irq in Ok (f x).
Definition GIC_TEST_ENABLED irq cm := irq_query (fun x => negb (Z.land (ienabled x) cm =? 0)) irq.
Definition GIC_TEST_ACTIVE irq cm := irq_query (fun x => negb (Z.land (iactive x) cm =? 0)) irq.
Definition GIC_TEST_LEVEL irq cm := irq_query (fun x => negb (Z.land (ilevel x) cm =? 0)) irq.
Definition GIC_TEST_MODEL irq := irq_query imodel irq.
Definition GIC_TEST_EDGE_TRIGGER irq := irq_query iedge_trigger irq.
Definition GIC_GET_PRIORITY (irq cpu : Z) (s : GICState) : res Z :=
  if irq <? GIC_INTERNAL then aget2 (priority1 s) irq cpu
  else aget (priority2 s) (irq - GIC_INTERNAL).
Definition GIC_TARGET (irq : Z) (s : GICState) : res Z := aget (irq_target s) irq.

(** Revisions with the legacy pending behaviour. *)
Definition legacy (s : GICState) : bool := (revision s =? REV_11MPCORE) || (revision s =? REV_NVIC).

Definition gic_test_pending (irq cm : Z) (s : GICState) : res bool :=
  irq_query (fun x =>
    if legacy s then negb (Z.land (ipending x) cm =? 0)
    else negb (Z.land (ipending x) cm =? 0)
         || (negb (iedge_trigger x) && negb (Z.land (ilevel x) cm =? 0))) irq s.

Definition gic_get_current_cpu (current_cpu : Z) (s : GICState) : Z :=
  if 1 <? num_cpu s then current_cpu else 0.

(** ** Update of the outputs *)

(** One round of the search for the best pending interrupt. *)
Definition best_step (cpu cm : Z) (s : GICState) (irq : Z) (best : Z * Z) : res (Z * Z) :=
  let* e := GIC_TEST_ENABLED irq cm s in
  if e then
    let* p := gic_test_pending irq cm s in
    if p then
      let* prio := GIC_GET_PRIORITY irq cpu s in
      if prio <? best.1 then Ok (prio, irq) else Ok best
    else Ok best
  else Ok best.

(** The body of the loop over the CPUs; [true] when it returns. *)
Definition gic_update_cpu (cpu : Z) (s : GICState) : res (bool * GICState) :=
  let cm := Z.shiftl 1 cpu in
  let* l := aset (current_pending s) cpu 1023 in
  let s := put_current_pending l s in
  let* ce := aget (cpu_enabled s) cpu in
  if negb (enabled s) || negb ce then
    let* l := aset (parent_irq s) cpu 0 in Ok (true, put_parent_irq l s)
  else
  let* (best_prio, best_irq) :=
    for_loop (Z.to_nat (num_irq s)) 0 (best_step cpu cm s) (0x100, 1023) in
  let* mask := aget (priority_mask s) cpu in
  let* (level, s) :=
    if best_prio <? mask then
      let* l := aset (current_pending s) cpu best_irq in
      let s := put_current_pending l s in
      let* rp := aget (running_priority s) cpu in
      Ok (if best_prio <? rp then 1 else 0, s)
    else Ok (0, s) in
  let* l := aset (parent_irq s) cpu level in
  Ok (false, put_parent_irq l s).

Fixpoint gic_update_from (n : nat) (cpu : Z) (s : GICState) : res GICState :=
  match n with
  | O => Ok s
  | S n =>
      let* (stop, s) := gic_update_cpu cpu s in
      if stop then Ok s else gic_update_from n (cpu + 1) s
  end.

Definition gic_update (s : GICState) : res GICState :=
  gic_update_from (Z.to_nat (num_cpu s)) 0 s.

(** ** Inputs *)

Definition gic_set_pending_private (cpu irq : Z) (s : GICState) : res GICState :=
  let cm := Z.shiftl 1 cpu in
  let* p := gic_test_pending irq cm s in
  if p then Ok s else
  let* s := GIC_SET_PENDING irq cm s in gic_update s.

Definition gic_set_irq_11mpcore (irq level cm target : Z) (s : GICState) : res GICState :=
  if negb (level =? 0) then
    let* s := GIC_SET_LEVEL irq cm s in
    let* edge := GIC_TEST_EDGE_TRIGGER irq s in
    let* en := GIC_TEST_ENABLED irq cm s in
    if edge || en then GIC_SET_PENDING irq target s else Ok s
  else GIC_CLEAR_LEVEL irq cm s.

Definition gic_set_irq_generic (irq level cm target : Z) (s : GICState) : res GICState :=
  if negb (level =? 0) then
    let* s := GIC_SET_LEVEL irq cm s in
    let* edge := GIC_TEST_EDGE_TRIGGER irq s in
    if edge then GIC_SET_PENDING irq target s else Ok s
  else GIC_CLEAR_LEVEL irq cm s.

Definition gic_set_irq (irq level : Z) (s : GICState) : res GICState :=
  let* (irq, cm, target) :=
    if irq <? num_irq s - GIC_INTERNAL then
      let irq := irq + GIC_INTERNAL in
      let* t := GIC_TARGET irq s in Ok (irq, ALL_CPU_MASK, t)
    else
      let irq := irq - (num_irq s - GIC_INTERNAL) in
      let cpu := irq / GIC_INTERNAL in
      let cm := Z.shiftl 1 cpu in Ok (irq mod GIC_INTERNAL, cm, cm) in
  let* _ := c_assert (GIC_NR_SGIS <=? irq) in
  let* lv := GIC_TEST_LEVEL irq cm s in
  if level =? b2z lv then Ok s else
  let* s := if legacy s then gic_set_irq_11mpcore irq level cm target s
            else gic_set_irq_generic irq level cm target s in
  gic_update s.

(** ** Acknowledge and end of interrupt *)

Definition gic_set_running_irq (cpu irq : Z) (s : GICState) : res GICState :=
  let* l := aset (running_irq s) cpu irq in
  let s := put_running_irq l s in
  let* p := if irq =? 1023 then Ok 0x100 else GIC_GET_PRIORITY irq cpu s in
  let* l := aset (running_priority s) cpu p in
  gic_update (put_running_priority l s).

(** [GIC_CLEAR_PENDING(irq, GIC_TEST_MODEL(irq) ? ALL_CPU_MASK : cm)]. *)
Definition clear_acked (irq cm : Z) (s : GICState) : res GICState :=
  let* m := GIC_TEST_MODEL irq s in
  GIC_CLEAR_PENDING irq (if m then ALL_CPU_MASK else cm) s.

(** The bookkeeping of an acknowledge: the value returned, and the pending
    state of the interrupt cleared. *)
Definition ack_clear (cpu irq : Z) (s : GICState) : res (Z * GICState) :=
  let cm := Z.shiftl 1 cpu in
  if legacy s then let* s := clear_acked irq cm s in Ok (irq, s)
  else if irq <? GIC_NR_SGIS then
    let* sp := aget2 (sgi_pending s) irq cpu in
    let* _ := c_assert (negb (sp =? 0)) in
    let src := ctz32 sp in
    let sp := u8 (Z.land sp (Z.lnot (Z.shiftl 1 src))) in
    let* m := aset2 (sgi_pending s) irq cpu sp in
    let s := put_sgi_pending m s in
    let* s := if sp =? 0 then clear_acked irq cm s else Ok s in
    Ok (Z.lor irq (Z.shiftl (Z.land src 7) 10), s)
  else let* s := clear_acked irq cm s in Ok (irq, s).

Definition gic_acknowledge_irq (cpu : Z) (s : GICState) : res (Z * GICState) :=
  let* irq := aget (current_pending s) cpu in
  let* none :=
    if irq =? 1023 then Ok true
    else let* p := GIC_GET_PRIORITY irq cpu s in
         let* rp := aget (running_priority s) cpu in Ok (rp <=? p) in
  if none then Ok (1023, s) else
  let* ri := aget (running_irq s) cpu in
  let* la := aset2 (last_active s) irq cpu ri in
  let s := put_last_active la s in
  let* (ret, s) := ack_clear cpu irq s in
  let* s := gic_set_running_irq cpu irq s in
  Ok (ret, s).

Definition gic_set_priority (cpu irq val : Z) (s : GICState) : res GICState :=
  if irq <? GIC_INTERNAL then
    let* p := aset2 (priority1 s) irq cpu (u8 val) in Ok (put_priority1 p s)
  else let* p := aset (priority2 s) (irq - GIC_INTERNAL) (u8 val) in Ok (put_priority2 p s).

(** [while (s->last_active[tmp][cpu] != 1023)] of [gic_complete_irq]. *)
Fixpoint unlink_active (fuel : nat) (cpu irq tmp : Z) (la : list (list Z)) : res (list (list Z)) :=
  match fuel with
  | O => Err OutOfFuel
  | S fuel =>
      let* n := aget2 la tmp cpu in
      if n =? 1023 then Ok la
      else if n =? irq then
        let* m := aget2 la irq cpu in aset2 la tmp cpu m
      else unlink_active fuel cpu irq n la
  end.

(** A chain without a repetition has at most [GIC_MAXIRQ] links. *)
Definition eoi_fuel : nat := Z.to_nat (GIC_MAXIRQ + 1).

Definition gic_complete_irq (cpu irq : Z) (s : GICState) : res GICState :=
  let cm := Z.shiftl 1 cpu in
  if num_irq s <=? irq then Ok s else
  let* ri := aget (running_irq s) cpu in
  if ri =? 1023 then Ok s else
  let* (update, s) :=
    if legacy s then
      let* edge := GIC_TEST_EDGE_TRIGGER irq s in
      let* en := GIC_TEST_ENABLED irq cm s in
      let* lv := GIC_TEST_LEVEL irq cm s in
      let* t := GIC_TARGET irq s in
      if negb edge && en && lv && negb (Z.land t cm =? 0)
      then let* s := GIC_SET_PENDING irq cm s in Ok (true, s)
      else Ok (false, s)
    else Ok (false, s) in
  if negb (irq =? ri) then
    let* la := unlink_active eoi_fuel cpu irq ri (last_active s) in
    let s := put_last_active la s in
    if update then gic_update s else Ok s
  else
    let* prev := aget2 (last_active s) ri cpu in
    gic_set_running_irq cpu prev s.

(** ** The distributor *)

Definition gic_id : list Z := [0x90; 0x13; 0x04; 0x00; 0x0d; 0xf0; 0x05; 0xb1].

(** [for (i = 0; i < 8; i++) if (test(irq + i)) res |= 1 << i]. *)
Definition collect8 (test : Z -> res bool) (irq : Z) : res Z :=
  for_loop 8 0 (fun i r => let* b := test (irq + i) in
                           Ok (if b then Z.lor r (Z.shiftl 1 i) else r)) 0.

Definition gic_dist_readb (current_cpu offset : Z) (s : GICState) : res Z :=
  let cpu := gic_get_current_cpu current_cpu s in
  let cm := Z.shiftl 1 cpu in
  let bad_reg := Ok 0 in
  if offset <? 0x100 then
    if offset =? 0 then Ok (b2z (enabled s))
    else if offset =? 4 then
      Ok (u32 (Z.lor (num_irq s / 32 - 1) (Z.shiftl (num_cpu s - 1) 5)))
    else if offset <? 0x08 then Ok 0
    else if 0x80 <=? offset then Ok 0
    else bad_reg
  else if offset <? 0x200 then
    let irq := if offset <? 0x180 then (offset - 0x100) * 8 else (offset - 0x180) * 8 in
    let irq := irq + GIC_BASE_IRQ s in
    if num_irq s <=? irq then bad_reg
    else collect8 (fun j => GIC_TEST_ENABLED j cm s) irq
  else if offset <? 0x300 then
    let irq := if offset <? 0x280 then (offset - 0x200) * 8 else (offset - 0x280) * 8 in
    let irq := irq + GIC_BASE_IRQ s in
    if num_irq s <=? irq then bad_reg
    else
      let mask := if irq <? GIC_INTERNAL then cm else ALL_CPU_MASK in
      collect8 (fun j => gic_test_pending j mask s) irq
  else if offset <? 0x400 then
    let irq := (offset - 0x300) * 8 + GIC_BASE_IRQ s in
    if num_irq s <=? irq then bad_reg
    else
      let mask := if irq <? GIC_INTERNAL then cm else ALL_CPU_MASK in
      collect8 (fun j => GIC_TEST_ACTIVE j mask s) irq
  else if offset <? 0x800 then
    let irq := (offset - 0x400) + GIC_BASE_IRQ s in
    if num_irq s <=? irq then bad_reg else GIC_GET_PRIORITY irq cpu s
  else if offset <? 0xc00 then
    if (num_cpu s =? 1) && negb (revision s =? REV_11MPCORE) then Ok 0
    else
      let irq := (offset - 0x800) + GIC_BASE_IRQ s in
      if num_irq s <=? irq then bad_reg
      else if (29 <=? irq) && (irq <=? 31) then Ok cm
      else GIC_TARGET irq s
  else if offset <? 0xf00 then
    let irq := (offset - 0xc00) * 2 + GIC_BASE_IRQ s in
    if num_irq s <=? irq then bad_reg
    else
      for_loop 4 0 (fun i r =>
        let* m := GIC_TEST_MODEL (irq + i) s in
        let r := if m then Z.lor r (Z.shiftl 1 (i * 2)) else r in
        let* e := GIC_TEST_EDGE_TRIGGER (irq + i) s in
        Ok (if e then Z.lor r (Z.shiftl 2 (i * 2)) else r)) 0
  else if offset <? 0xf10 then bad_reg
  else if offset <? 0xf30 then
    if legacy s then bad_reg
    else
      let irq := if offset <? 0xf20 then offset - 0xf10 else offset - 0xf20 in
      aget2 (sgi_pending s) irq cpu
  else if offset <? 0xfe0 then bad_reg
  else if negb (Z.land offset 3 =? 0) then Ok 0
  else aget gic_id (Z.shiftr (offset - 0xfe0) 2).

Definition gic_dist_readw (current_cpu offset : Z) (s : GICState) : res Z :=
  let* a := gic_dist_readb current_cpu offset s in
  let* b := gic_dist_readb current_cpu (offset + 1) s in
  Ok (Z.lor a (u32 (Z.shiftl b 8))).

Definition gic_dist_readl (current_cpu offset : Z) (s : GICState) : res Z :=
  let* a := gic_dist_readw current_cpu offset s in
  let* b := gic_dist_readw current_cpu (offset + 2) s in
  Ok (Z.lor a (u32 (Z.shiftl b 16))).

(** [for (i = 0; i < 8; i++) if (value & (1 << i)) s = f(i, s)]. *)
Definition each_bit8 (value : Z) (f : Z -> GICState -> res GICState) (s : GICState) : res GICState :=
  for_loop 8 0 (fun i s => if negb (Z.land value (Z.shiftl 1 i) =? 0) then f i s else Ok s) s.

(** Interrupt Set Enable. *)
Definition write_set_enable (cpu irq value : Z) (s : GICState) : res GICState :=
  let value := if irq <? GIC_NR_SGIS then 0xff else value in
  each_bit8 value (fun i s =>
    let* mask := if irq <? GIC_INTERNAL then Ok (Z.shiftl 1 cpu) else GIC_TARGET (irq + i) s in
    let cm := if irq <? GIC_INTERNAL then Z.shiftl 1 cpu else ALL_CPU_MASK in
    let* s := GIC_SET_ENABLED (irq + i) cm s in
    let* lv := GIC_TEST_LEVEL (irq + i) mask s in
    let* edge := GIC_TEST_EDGE_TRIGGER (irq + i) s in
    if lv && negb edge then GIC_SET_PENDING (irq + i) mask s else Ok s) s.

(** Interrupt Clear Enable. *)
Definition write_clear_enable (cpu irq value : Z) (s : GICState) : res GICState :=
  let value := if irq <? GIC_NR_SGIS then 0 else value in
  each_bit8 value (fun i s =>
    let cm := if irq <? GIC_INTERNAL then Z.shiftl 1 cpu else ALL_CPU_MASK in
    GIC_CLEAR_ENABLED (irq + i) cm s) s.

(** Interrupt Set Pending. *)
Definition write_set_pending (irq value : Z) (s : GICState) : res GICState :=
  let value := if irq <? GIC_NR_SGIS then 0 else value in
  each_bit8 value (fun i s =>
    let* t := GIC_TARGET (irq + i) s in GIC_SET_PENDING (irq + i) t s) s.

(** Interrupt Clear Pending. *)
Definition write_clear_pending (irq value : Z) (s : GICState) : res GICState :=
  let value := if irq <? GIC_NR_SGIS then 0 else value in
  each_bit8 value (fun i s => GIC_CLEAR_PENDING (irq + i) ALL_CPU_MASK s) s.

(** Interrupt CPU Target. *)
Definition write_target (irq value : Z) (s : GICState) : res GICState :=
  let value := if irq <? 29 then 0 else if irq <? GIC_INTERNAL then ALL_CPU_MASK else value in
  let* l := aset (irq_target s) irq (Z.land value ALL_CPU_MASK) in Ok (put_irq_target l s).

(** Interrupt Configuration. *)
Definition write_config (irq value : Z) (s : GICState) : res GICState :=
  let value := if irq <? GIC_INTERNAL then Z.lor value 0xaa else value in
  for_loop 4 0 (fun i s =>
    let* s := GIC_PUT_MODEL (irq + i) (negb (Z.land value (Z.shiftl 1 (i * 2)) =? 0)) s in
    GIC_PUT_EDGE_TRIGGER (irq + i) (negb (Z.land value (Z.shiftl 2 (i * 2)) =? 0)) s) s.

(** GICD_CPENDSGIRn and GICD_SPENDSGIRn. *)
Definition write_cpendsgir (cpu irq value : Z) (s : GICState) : res GICState :=
  let* sp := aget2 (sgi_pending s) irq cpu in
  let sp := u8 (Z.land sp (Z.lnot value)) in
  let* m := aset2 (sgi_pending s) irq cpu sp in
  let s := put_sgi_pending m s in
  if sp =? 0 then GIC_CLEAR_PENDING irq (Z.shiftl 1 cpu) s else Ok s.
Definition write_spendsgir (cpu irq value : Z) (s : GICState) : res GICState :=
  let* s := GIC_SET_PENDING irq (Z.shiftl 1 cpu) s in
  let* sp := aget2 (sgi_pending s) irq cpu in
  let* m := aset2 (sgi_pending s) irq cpu (u8 (Z.lor sp value)) in
  Ok (put_sgi_pending m s).

(** The register decoding: [None] is [bad_reg], which leaves the state alone
    and skips [gic_update]. *)
Definition dist_decode (cpu offset value : Z) (s : GICState) : option (res GICState) :=
  let irq_or_bad (irq : Z) (k : Z -> res GICState) :=
    if num_irq s <=? irq then None else Some (k irq) in
  if offset <? 0x100 then
    if offset =? 0 then Some (Ok (put_enabled (negb (Z.land value 1 =? 0)) s))
    else if offset <? 4 then Some (Ok s)
    else if 0x80 <=? offset then Some (Ok s)
    else None
  else if offset <? 0x180 then
    irq_or_bad ((offset - 0x100) * 8 + GIC_BASE_IRQ s) (fun irq => write_set_enable cpu irq value s)
  else if offset <? 0x200 then
    irq_or_bad ((offset - 0x180) * 8 + GIC_BASE_IRQ s) (fun irq => write_clear_enable cpu irq value s)
  else if offset <? 0x280 then
    irq_or_bad ((offset - 0x200) * 8 + GIC_BASE_IRQ s) (fun irq => write_set_pending irq value s)
  else if offset <? 0x300 then
    irq_or_bad ((offset - 0x280) * 8 + GIC_BASE_IRQ s) (fun irq => write_clear_pending irq value s)
  else if offset <? 0x400 then None
  else if offset <? 0x800 then
    irq_or_bad ((offset - 0x400) + GIC_BASE_IRQ s) (fun irq => gic_set_priority cpu irq value s)
  else if offset <? 0xc00 then
    if negb (num_cpu s =? 1) || (revision s =? REV_11MPCORE)
    then irq_or_bad ((offset - 0x800) + GIC_BASE_IRQ s) (fun irq => write_target irq value s)
    else Some (Ok s)
  else if offset <? 0xf00 then
    irq_or_bad ((offset - 0xc00) * 4 + GIC_BASE_IRQ s) (fun irq => write_config irq value s)
  else if offset <? 0xf10 then None
  else if offset <? 0xf20 then
    if legacy s then None else Some (write_cpendsgir cpu (offset - 0xf10) value s)
  else if offset <? 0xf30 then
    if legacy s then None else Some (write_spendsgir cpu (offset - 0xf20) value s)
  else None.

Definition gic_dist_writeb (current_cpu offset value : Z) (s : GICState) : res GICState :=
  let cpu := gic_get_current_cpu current_cpu s in
  match dist_decode cpu offset value s with
  | Some r => let* s := r in gic_update s
  | None => Ok s
  end.

Definition gic_dist_writew (current_cpu offset value : Z) (s : GICState) : res GICState :=
  let* s := gic_dist_writeb current_cpu offset (Z.land value 0xff) s in
  gic_dist_writeb current_cpu (offset + 1) (Z.shiftr value 8) s.

(** [while (target_cpu < GIC_NCPU)] of the software-interrupt register. *)
Fixpoint sgi_targets (fuel : nat) (cpu irq mask : Z) (m : list (list Z)) : res (list (list Z)) :=
  let target_cpu := ctz32 mask in
  if target_cpu <? GIC_NCPU then
    match fuel with
    | O => Err OutOfFuel
    | S fuel =>
        let* sp := aget2 m irq target_cpu in
        let* m := aset2 m irq target_cpu (u8 (Z.lor sp (Z.shiftl 1 cpu))) in
        sgi_targets fuel cpu irq (u32 (Z.land mask (Z.lnot (Z.shiftl 1 target_cpu)))) m
    end
  else Ok m.

Definition gic_dist_writel (current_cpu offset value : Z) (s : GICState) : res GICState :=
  if offset =? 0xf00 then
    let cpu := gic_get_current_cpu current_cpu s in
    let irq := Z.land value 0x3ff in
    let mask :=
      match Z.land (Z.shiftr value 24) 3 with
      | 0 => Z.land (Z.shiftr value 16) ALL_CPU_MASK
      | 1 => Z.lxor ALL_CPU_MASK (Z.shiftl 1 cpu)
      | 2 => Z.shiftl 1 cpu
      | _ => ALL_CPU_MASK
      end in
    let* s := GIC_SET_PENDING irq mask s in
    let* m := sgi_targets 8 cpu irq mask (sgi_pending s) in
    gic_update (put_sgi_pending m s)
  else
    let* s := gic_dist_writew current_cpu offset (Z.land value 0xffff) s in
    gic_dist_writew current_cpu (offset + 2) (Z.shiftr value 16) s.

(** ** The CPU interface *)

Definition gic_cpu_read (cpu offset : Z) (s : GICState) : res (Z * GICState) :=
  let get c := let* v := c in Ok (v, s) in
  match offset with
  | 0x00 => get (let* b := aget (cpu_enabled s) cpu in Ok (b2z b))
  | 0x04 => get (aget (priority_mask s) cpu)
  | 0x08 => get (aget (bpr s) cpu)
  | 0x0c => gic_acknowledge_irq cpu s
  | 0x14 => get (aget (running_priority s) cpu)
  | 0x18 => get (aget (current_pending s) cpu)
  | 0x1c => get (aget (abpr s) cpu)
  | 0xd0 | 0xd4 | 0xd8 | 0xdc => get (aget2 (apr s) ((offset - 0xd0) / 4) cpu)
  | _ => Ok (0, s)
  end.

Definition gic_cpu_write (cpu offset value : Z) (s : GICState) : res GICState :=
  match offset with
  | 0x00 => let* l := aset (cpu_enabled s) cpu (negb (Z.land value 1 =? 0)) in
            gic_update (put_cpu_enabled l s)
  | 0x04 => let* l := aset (priority_mask s) cpu (Z.land value 0xff) in
            gic_update (put_priority_mask l s)
  | 0x08 => let* l := aset (bpr s) cpu (Z.land value 7) in gic_update (put_bpr l s)
  | 0x10 => gic_complete_irq cpu (Z.land value 0x3ff) s
  | 0x1c => let* s := if 2 <=? revision s
                      then let* l := aset (abpr s) cpu (Z.land value 7) in Ok (put_abpr l s)
                      else Ok s in
            gic_update s
  | 0xd0 | 0xd4 | 0xd8 | 0xdc => gic_update s
  | _ => Ok s
  end.

Definition gic_thiscpu_read (current_cpu addr : Z) (s : GICState) : res (Z * GICState) :=
  gic_cpu_read (gic_get_current_cpu current_cpu s) addr s.
Definition gic_thiscpu_write (current_cpu addr value : Z) (s : GICState) : res GICState :=
  gic_cpu_write (gic_get_current_cpu current_cpu s) addr value s.

(** The per-CPU regions name their CPU by the region that is accessed. *)
Definition gic_do_cpu_read (id addr : Z) (s : GICState) : res (Z * GICState) := gic_cpu_read id addr s.
Definition gic_do_cpu_write (id addr value : Z) (s : GICState) : res GICState := gic_cpu_write id addr value s.

(** ** Realize and reset *)

(** The errors of [arm_gic_common_realize]. *)
Inductive realize_error := TooManyCpus | TooManyIrqs | IrqsNotMultipleOf32.

Definition arm_gic_common_realize (s : GICState) : realize_error + GICState :=
  if GIC_NCPU <? num_cpu s then inl TooManyCpus else
  let n := u32 (num_irq s + GIC_BASE_IRQ s) in
  if GIC_MAXIRQ <? n then inl TooManyIrqs
  else if (n <? 32) || negb (n mod 32 =? 0) then inl IrqsNotMultipleOf32
  else inr (mkGIC (parent_irq s) (enabled s) (cpu_enabled s) (irq_state s) (irq_target s)
    (priority1 s) (priority2 s) (last_active s) (sgi_pending s) (priority_mask s) (running_irq s)
    (running_priority s) (current_pending s) (bpr s) (abpr s) (apr s) (num_cpu s) n (revision s)).

Definition irq_zero : gic_irq_state := mkIrq 0 0 0 0 false false.

(** The per-CPU part of the reset. *)
Definition reset_cpu (i : Z) (s : GICState) : res GICState :=
  let* l := aset (priority_mask s) i (if revision s =? REV_11MPCORE then 0xf0 else 0) in
  let s := put_priority_mask l s in
  let* l := aset (current_pending s) i 1023 in
  let s := put_current_pending l s in
  let* l := aset (running_irq s) i 1023 in
  let s := put_running_irq l s in
  let* l := aset (running_priority s) i 0x100 in
  let s := put_running_priority l s in
  let* l := aset (cpu_enabled s) i false in
  Ok (put_cpu_enabled l s).

Definition arm_gic_common_reset (s : GICState) : res GICState :=
  let s := put_irq_state (replicate (Z.to_nat GIC_MAXIRQ) irq_zero) s in
  let* s := for_loop (Z.to_nat (num_cpu s)) 0 reset_cpu s in
  let* s := for_loop 16 0 (fun i s =>
    let* s := GIC_SET_ENABLED i ALL_CPU_MASK s in GIC_PUT_EDGE_TRIGGER i true s) s in
  let* l := if num_cpu s =? 1
            then for_loop (Z.to_nat GIC_MAXIRQ) 0 (fun i l => aset l i 1) (irq_target s)
            else Ok (irq_target s) in
  Ok (put_enabled false (put_irq_target l s)).
