(* ===== verification/GicFacts.v ===== *)
(** * The interrupt controller: invariant and claims

    [gic_wf] bounds the arrays of the state and the values in them.  The facts
    show that every register access keeps it; [gic_update_correct] says what
    the outputs are after an update; the remaining claims are about the
    acknowledge / end-of-interrupt protocol and about accesses by which a guest
    leaves the invariant. *)

From stdpp Require Import base list numbers.
From S2P Require Import Prelude HostUtils Gic.

(** ** The invariant *)

Definition byte_ok (z : Z) : Prop := 0 <= z < 256.
Definition irq_ok (x : gic_irq_state) : Prop :=
  byte_ok (ienabled x) /\ byte_ok (ipending x) /\ byte_ok (iactive x) /\ byte_ok (ilevel x).

(** An interrupt number of a GIC with [n] interrupts, or 1023 for none. *)
Definition irq_num (n z : Z) : Prop := 0 <= z < n \/ z = 1023.

Record gic_wf (s : GICState) : Prop := {
  wf_parent : arr 8 (fun z => z = 0 \/ z = 1) (parent_irq s);
  wf_cpu_enabled : arr 8 (fun _ => True) (cpu_enabled s);
  wf_irq_state : arr 1020 irq_ok (irq_state s);
  wf_target : arr 1020 byte_ok (irq_target s);
  wf_priority1 : arr 32 (arr 8 byte_ok) (priority1 s);
  wf_priority2 : arr 988 byte_ok (priority2 s);
  wf_last_active : arr 1020 (arr 8 (irq_num (num_irq s))) (last_active s);
  wf_sgi : arr 16 (arr 8 byte_ok) (sgi_pending s);
  wf_mask : arr 8 byte_ok (priority_mask s);
  wf_running : arr 8 (irq_num (num_irq s)) (running_irq s);
  wf_running_priority : arr 8 (fun z => 0 <= z <= 256) (running_priority s);
  wf_pending : arr 8 (irq_num (num_irq s)) (current_pending s);
  wf_bpr : arr 8 (fun z => 0 <= z < 8) (bpr s);
  wf_abpr : arr 8 (fun z => 0 <= z < 8) (abpr s);
  wf_apr : arr 4 (arr 8 (fun _ => True)) (apr s);
  wf_num_cpu : 1 <= num_cpu s <= 8;
  wf_num_irq : 32 <= num_irq s <= 1020 /\ num_irq s mod 32 = 0
}.

Ltac wf_put := intros []; split; cbn; done || auto.

Lemma wf_put_parent v s : gic_wf s -> arr 8 (fun z => z = 0 \/ z = 1) v -> gic_wf (put_parent_irq v s).
Proof. wf_put. Qed.
Lemma wf_put_enabled v s : gic_wf s -> gic_wf (put_enabled v s).
Proof. wf_put. Qed.
Lemma wf_put_cpu_enabled v s : gic_wf s -> arr 8 (fun _ => True) v -> gic_wf (put_cpu_enabled v s).
Proof. wf_put. Qed.
Lemma wf_put_irq_state v s : gic_wf s -> arr 1020 irq_ok v -> gic_wf (put_irq_state v s).
Proof. wf_put. Qed.
Lemma wf_put_target v s : gic_wf s -> arr 1020 byte_ok v -> gic_wf (put_irq_target v s).
Proof. wf_put. Qed.
Lemma wf_put_priority1 v s : gic_wf s -> arr 32 (arr 8 byte_ok) v -> gic_wf (put_priority1 v s).
Proof. wf_put. Qed.
Lemma wf_put_priority2 v s : gic_wf s -> arr 988 byte_ok v -> gic_wf (put_priority2 v s).
Proof. wf_put. Qed.
Lemma wf_put_last_active v s :
  gic_wf s -> arr 1020 (arr 8 (irq_num (num_irq s))) v -> gic_wf (put_last_active v s).
Proof. wf_put. Qed.
Lemma wf_put_sgi v s : gic_wf s -> arr 16 (arr 8 byte_ok) v -> gic_wf (put_sgi_pending v s).
Proof. wf_put. Qed.
Lemma wf_put_mask v s : gic_wf s -> arr 8 byte_ok v -> gic_wf (put_priority_mask v s).
Proof. wf_put. Qed.
Lemma wf_put_running v s : gic_wf s -> arr 8 (irq_num (num_irq s)) v -> gic_wf (put_running_irq v s).
Proof. wf_put. Qed.
Lemma wf_put_running_priority v s :
  gic_wf s -> arr 8 (fun z => 0 <= z <= 256) v -> gic_wf (put_running_priority v s).
Proof. wf_put. Qed.
Lemma wf_put_pending v s : gic_wf s -> arr 8 (irq_num (num_irq s)) v -> gic_wf (put_current_pending v s).
Proof. wf_put. Qed.
Lemma wf_put_bpr v s : gic_wf s -> arr 8 (fun z => 0 <= z < 8) v -> gic_wf (put_bpr v s).
Proof. wf_put. Qed.
Lemma wf_put_abpr v s : gic_wf s -> arr 8 (fun z => 0 <= z < 8) v -> gic_wf (put_abpr v s).
Proof. wf_put. Qed.

Create HintDb gic.
#[export] Hint Resolve wf_put_parent wf_put_enabled wf_put_cpu_enabled wf_put_irq_state wf_put_target
  wf_put_priority1 wf_put_priority2 wf_put_last_active wf_put_sgi wf_put_mask wf_put_running
  wf_put_running_priority wf_put_pending wf_put_bpr wf_put_abpr : gic.

(** ** Safety of a computation on the state *)

(** [f] succeeds on [s] and keeps the invariant and the configuration. *)
Definition same_config (s s' : GICState) : Prop :=
  num_cpu s' = num_cpu s /\ num_irq s' = num_irq s /\ revision s' = revision s.
Definition safe (c : res GICState) (s : GICState) : Prop :=
  exists s', c = Ok s' /\ gic_wf s' /\ same_config s s'.
(** A query succeeds with a value that satisfies [P]. *)
Definition gives {A} (c : res A) (P : A -> Prop) : Prop := exists x, c = Ok x /\ P x.

Lemma same_config_refl s : same_config s s.
Proof. done. Qed.
Lemma same_config_trans s1 s2 s3 : same_config s1 s2 -> same_config s2 s3 -> same_config s1 s3.
Proof. unfold same_config. intuition congruence. Qed.
#[export] Hint Extern 1 (same_config _ _) => (repeat split) : gic.

Lemma safe_ok s s' : gic_wf s' -> same_config s s' -> safe (Ok s') s.
Proof. by exists s'. Qed.

Lemma safe_bind c k s :
  safe c s -> (forall s', gic_wf s' -> same_config s s' -> safe (k s') s') -> safe (res_bind c k) s.
Proof.
  intros (s1 & -> & W1 & C1) Hk. destruct (Hk s1 W1 C1) as (s2 & E & W2 & C2).
  exists s2. split; [done|]. split; [done|]. by eapply same_config_trans.
Qed.

Lemma safe_query {A} (c : res A) (P : A -> Prop) k s :
  gives c P -> (forall x, P x -> safe (k x) s) -> safe (res_bind c k) s.
Proof. intros (x & -> & Hx) Hk. by apply Hk. Qed.

Lemma gives_bind {A B} (c : res A) (P : A -> Prop) (k : A -> res B) Q :
  gives c P -> (forall x, P x -> gives (k x) Q) -> gives (res_bind c k) Q.
Proof. intros (x & -> & Hx) Hk. by apply Hk. Qed.

Lemma gives_ok {A} (x : A) (P : A -> Prop) : P x -> gives (Ok x) P.
Proof. by exists x. Qed.

Lemma gives_get {A} n (P : A -> Prop) l i : arr n P l -> 0 <= i < n -> gives (aget l i) P.
Proof. intros H Hi. destruct (arr_get n P l i H Hi) as (x & E & Hx). by exists x. Qed.

Lemma gives_get2 n m P a i j : arr n (arr m P) a -> 0 <= i < n -> 0 <= j < m -> gives (aget2 a i j) P.
Proof. intros H Hi Hj. eapply gives_bind; [by eapply gives_get|]. intros. by eapply gives_get. Qed.

Lemma gives_set {A} n (P : A -> Prop) l i x : arr n P l -> 0 <= i < n -> P x -> gives (aset l i x) (arr n P).
Proof. intros H Hi Hx. destruct (arr_set n P l i x H Hi Hx) as (l' & E & Hl & _). by exists l'. Qed.

Lemma gives_set2 n m P a i j x : arr n (arr m P) a -> 0 <= i < n -> 0 <= j < m -> P x ->
  gives (aset2 a i j x) (arr n (arr m P)).
Proof.
  intros H Hi Hj Hx. eapply gives_bind; [by eapply gives_get|]. intros r Hr.
  eapply gives_bind; [by eapply gives_set|]. intros r' Hr'. by eapply gives_set.
Qed.

(** A loop of safe steps. *)
Lemma safe_loop (body : Z -> GICState -> res GICState) n : forall i s,
  gic_wf s ->
  (forall k s', i <= k < i + Z.of_nat n -> gic_wf s' -> same_config s s' -> safe (body k s') s') ->
  safe (for_loop n i body s) s.
Proof.
  intros i s W Hb.
  destruct (for_loop_inv (fun _ s' => gic_wf s' /\ same_config s s') body n i s) as (s' & E & W' & C');
    [done| |by exists s'].
  intros k s1 Hk [W1 C1]. destruct (Hb k s1 Hk W1 C1) as (s2 & E & W2 & C2). exists s2.
  split; [done|]. split; [done|]. by eapply same_config_trans.
Qed.

Lemma gives_loop {A} (P : A -> Prop) (body : Z -> A -> res A) n : forall i x,
  P x -> (forall k y, i <= k < i + Z.of_nat n -> P y -> gives (body k y) P) ->
  gives (for_loop n i body x) P.
Proof.
  intros i x Hx Hb. destruct (for_loop_inv (fun _ => P) body n i x) as (y & E & Hy); [done| |by exists y].
  intros k y Hk Hy. destruct (Hb k y Hk Hy) as (z & E & Hz). by exists z.
Qed.

Lemma u8_ok z : byte_ok (u8 z).
Proof. apply uwrap_range. lia. Qed.
#[export] Hint Resolve u8_ok : gic.

Lemma aset2_get a i j x a' : aset2 a i j x = Ok a' -> aget2 a' i j = Ok x.
Proof.
  unfold aset2, aget2. intros E. res_inv. rewrite aget_insert_eq by done. cbn [res_bind].
  by rewrite aget_insert_eq.
Qed.

Lemma irq_modify_safe f irq s : gic_wf s -> 0 <= irq < 1020 ->
  (forall x, irq_ok x -> irq_ok (f x)) -> safe (irq_modify f irq s) s.
Proof.
  intros W Hi Hf. eapply safe_query; [eapply gives_get; [apply (wf_irq_state _ W)|done]|]. intros x Hx.
  eapply safe_query; [eapply gives_set; [apply (wf_irq_state _ W)|done|by apply Hf]|]. intros l Hl.
  apply safe_ok; auto with gic.
Qed.

Lemma irq_query_gives {A} (f : gic_irq_state -> A) irq s :
  gic_wf s -> 0 <= irq < 1020 -> gives (irq_query f irq s) (fun _ => True).
Proof.
  intros W Hi. eapply gives_bind; [eapply gives_get; [apply (wf_irq_state _ W)|done]|]. intros. by apply gives_ok.
Qed.

(** The state-changing macros are safe on a valid interrupt number. *)
Ltac irq_safe := intros; apply irq_modify_safe; [done|lia|];
  intros ? (? & ? & ? & ?); (split; [|split; [|split]]); cbn; auto with gic.

Lemma set_enabled_safe irq cm s : gic_wf s -> 0 <= irq < 1020 -> safe (GIC_SET_ENABLED irq cm s) s.
Proof. irq_safe. Qed.
Lemma clear_enabled_safe irq cm s : gic_wf s -> 0 <= irq < 1020 -> safe (GIC_CLEAR_ENABLED irq cm s) s.
Proof. irq_safe. Qed.
Lemma set_pending_safe irq cm s : gic_wf s -> 0 <= irq < 1020 -> safe (GIC_SET_PENDING irq cm s) s.
Proof. irq_safe. Qed.
Lemma clear_pending_safe irq cm s : gic_wf s -> 0 <= irq < 1020 -> safe (GIC_CLEAR_PENDING irq cm s) s.
Proof. irq_safe. Qed.
Lemma set_level_safe irq cm s : gic_wf s -> 0 <= irq < 1020 -> safe (GIC_SET_LEVEL irq cm s) s.
Proof. irq_safe. Qed.
Lemma clear_level_safe irq cm s : gic_wf s -> 0 <= irq < 1020 -> safe (GIC_CLEAR_LEVEL irq cm s) s.
Proof. irq_safe. Qed.
Lemma put_model_safe irq b s : gic_wf s -> 0 <= irq < 1020 -> safe (GIC_PUT_MODEL irq b s) s.
Proof. irq_safe. Qed.
Lemma put_edge_safe irq b s : gic_wf s -> 0 <= irq < 1020 -> safe (GIC_PUT_EDGE_TRIGGER irq b s) s.
Proof. irq_safe. Qed.

Lemma priority_gives irq cpu s : gic_wf s -> 0 <= irq < 1020 -> 0 <= cpu < 8 ->
  gives (GIC_GET_PRIORITY irq cpu s) byte_ok.
Proof.
  intros W Hi Hc. unfold GIC_GET_PRIORITY, GIC_INTERNAL. destruct (Z.ltb_spec irq 32).
  - eapply gives_get2; [apply (wf_priority1 _ W)|lia|done].
  - eapply gives_get; [apply (wf_priority2 _ W)|lia].
Qed.

Lemma target_gives irq s : gic_wf s -> 0 <= irq < 1020 -> gives (GIC_TARGET irq s) byte_ok.
Proof. intros W Hi. eapply gives_get; [apply (wf_target _ W)|done]. Qed.

(** ** The update of the outputs *)

Lemma cpu_bit cpu : 0 <= cpu < 8 -> 0 < Z.shiftl 1 cpu < 256.
Proof.
  intros. rewrite Z.shiftl_1_l. split; [lia|]. change 256 with (2 ^ 8). apply Z.pow_lt_mono_r; lia.
Qed.

Definition st_of (s : GICState) (irq : Z) : gic_irq_state := default irq_zero (irq_state s !! Z.to_nat irq).
Definition prio_of (s : GICState) (irq cpu : Z) : Z :=
  match GIC_GET_PRIORITY irq cpu s with Ok p => p | Err _ => 0 end.

Definition pending_for (s : GICState) (irq cm : Z) : bool :=
  let x := st_of s irq in
  negb (Z.land (ipending x) cm =? 0)
  || (negb (legacy s) && negb (iedge_trigger x) && negb (Z.land (ilevel x) cm =? 0)).

(** An interrupt that may be signalled to [cpu]: enabled and pending there. *)
Definition candidate (s : GICState) (cpu irq : Z) : bool :=
  negb (Z.land (ienabled (st_of s irq)) (Z.shiftl 1 cpu) =? 0) && pending_for s irq (Z.shiftl 1 cpu).

(** [(p, i)] is the best of the candidates below [n]: the smallest priority
    value, the smallest number among equals; [(0x100, 1023)] for none. *)
Definition best_below (s : GICState) (cpu n : Z) (best : Z * Z) : Prop :=
  (best = (0x100, 1023) /\ forall j, 0 <= j < n -> candidate s cpu j = false) \/
  (0 <= best.2 < n /\ candidate s cpu best.2 = true /\ best.1 = prio_of s best.2 cpu /\
   forall j, 0 <= j < n -> candidate s cpu j = true ->
     best.1 <= prio_of s j cpu /\ (j < best.2 -> best.1 < prio_of s j cpu)).

Lemma irq_query_val {A} (f : gic_irq_state -> A) irq s : gic_wf s -> 0 <= irq < 1020 ->
  irq_query f irq s = Ok (f (st_of s irq)).
Proof.
  intros W Hi. unfold irq_query. destruct (arr_get _ _ _ irq (wf_irq_state _ W) Hi) as (x & E & _).
  rewrite E. cbn. f_equal. f_equal. apply aget_Ok in E as [_ E]. unfold st_of. by rewrite E.
Qed.

Lemma priority_val irq cpu s : gic_wf s -> 0 <= irq < 1020 -> 0 <= cpu < 8 ->
  GIC_GET_PRIORITY irq cpu s = Ok (prio_of s irq cpu) /\ 0 <= prio_of s irq cpu < 256.
Proof.
  intros W Hi Hc. destruct (priority_gives irq cpu s W Hi Hc) as (p & E & Hp).
  unfold prio_of. rewrite E. done.
Qed.

Lemma best_loop_spec cpu s : gic_wf s -> 0 <= cpu < 8 ->
  exists best, for_loop (Z.to_nat (num_irq s)) 0 (best_step cpu (Z.shiftl 1 cpu) s) (0x100, 1023) = Ok best /\
    best_below s cpu (num_irq s) best.
Proof.
  intros W Hc. pose proof (wf_num_irq _ W) as [Hn _].
  destruct (for_loop_inv (best_below s cpu) (best_step cpu (Z.shiftl 1 cpu) s) (Z.to_nat (num_irq s)) 0
    (0x100, 1023)) as (best & E & H).
  - left. split; [done|]. intros; lia.
  - intros k [p i] Hk Hb. unfold best_step, GIC_TEST_ENABLED, gic_test_pending.
    rewrite !irq_query_val by (done || lia). cbn [res_bind].
    destruct (priority_val k cpu s W ltac:(lia) Hc) as [-> Rp].
    assert (candidate s cpu k = negb (Z.land (ienabled (st_of s k)) (Z.shiftl 1 cpu) =? 0) &&
      (if legacy s then negb (Z.land (ipending (st_of s k)) (Z.shiftl 1 cpu) =? 0)
       else negb (Z.land (ipending (st_of s k)) (Z.shiftl 1 cpu) =? 0)
            || negb (iedge_trigger (st_of s k)) && negb (Z.land (ilevel (st_of s k)) (Z.shiftl 1 cpu) =? 0)))
      as Ec by (unfold candidate, pending_for; destruct (legacy s); cbn; rewrite ?orb_false_r; done).
    assert (candidate s cpu k = false -> best_below s cpu (k + 1) (p, i)) as Keep.
    { intros F. destruct Hb as [[-> N]|(R & C & P & M)]; [left|right].
      - split; [done|]. intros j Hj. destruct (Z.eq_dec j k) as [->|]; [done|apply N; lia].
      - split; [lia|]. split; [done|]. split; [done|]. intros j Hj Cj.
        destruct (Z.eq_dec j k) as [->|]; [congruence|apply M; [lia|done]]. }
    destruct (negb (Z.land (ienabled (st_of s k)) (Z.shiftl 1 cpu) =? 0)); cbn [andb] in Ec;
      [|exists (p, i); split; [done|by apply Keep]].
    rewrite <- Ec. destruct (candidate s cpu k) eqn:Ck; [|exists (p, i); split; [done|by apply Keep]].
    cbn [res_bind fst]. destruct (Z.ltb_spec (prio_of s k cpu) p) as [Lt|Ge]; (eexists; split; [done|]).
    + right. cbn [fst snd]. split; [lia|]. split; [done|]. split; [done|]. intros j Hj Cj.
      destruct (Z.eq_dec j k) as [->|]; [lia|].
      destruct Hb as [[_ N]|(R & C & P & M)]; [rewrite N in Cj; [done|lia]|].
      destruct (M j ltac:(lia) Cj). cbn [fst snd] in *. split; lia.
    + destruct Hb as [[[= -> ->] N]|(R & C & P & M)]; [lia|]. right. cbn [fst snd] in *.
      split; [lia|]. split; [done|]. split; [done|]. intros j Hj Cj.
      destruct (Z.eq_dec j k) as [->|]; [lia|]. apply M; [lia|done].
  - exists best. split; [done|]. by replace (num_irq s) with (0 + Z.of_nat (Z.to_nat (num_irq s))) by lia.
Qed.

(** The outputs of one CPU: the pending interrupt its interface shows and the
    level of its line. *)
Definition outputs (s : GICState) (cpu : Z) : res Z * res Z :=
  (aget (current_pending s) cpu, aget (parent_irq s) cpu).
Definition active_cpu (s : GICState) (cpu : Z) : bool :=
  enabled s && match aget (cpu_enabled s) cpu with Ok b => b | Err _ => false end.
Definition cpu_field (l : list Z) (cpu : Z) : Z := default 0 (l !! Z.to_nat cpu).

(** What an update must show for [cpu]. *)
Definition shows (s : GICState) (cpu : Z) (out : res Z * res Z) : Prop :=
  if active_cpu s cpu then
    exists best, best_below s cpu (num_irq s) best /\
      out = if best.1 <? cpu_field (priority_mask s) cpu
            then (Ok best.2, Ok (if best.1 <? cpu_field (running_priority s) cpu then 1 else 0))
            else (Ok 1023, Ok 0)
  else out = (Ok 1023, Ok 0).

(** An update changes nothing but the outputs. *)
Definition only_outputs (s s' : GICState) : Prop :=
  s' = put_parent_irq (parent_irq s') (put_current_pending (current_pending s') s).

Lemma only_outputs_trans s1 s2 s3 : only_outputs s1 s2 -> only_outputs s2 s3 -> only_outputs s1 s3.
Proof. unfold only_outputs. intros E1 E2. rewrite E2. rewrite E1. done. Qed.

Lemma only_outputs_same s s' : only_outputs s s' -> same_config s s'.
Proof. intros ->. done. Qed.

Lemma cpu_field_get P l cpu : arr 8 P l -> 0 <= cpu < 8 -> aget l cpu = Ok (cpu_field l cpu) /\ P (cpu_field l cpu).
Proof.
  intros H Hc. destruct (arr_get _ _ _ cpu H Hc) as (x & E & Hx).
  assert (cpu_field l cpu = x) as ->; [|done].
  apply aget_Ok in E as [_ E]. unfold cpu_field. by rewrite E.
Qed.

(** What [shows] asks depends only on the fields an update leaves alone. *)
Lemma best_below_ext s s' cpu n best : only_outputs s s' -> best_below s cpu n best -> best_below s' cpu n best.
Proof. intros ->. done. Qed.

Lemma gic_update_cpu_spec cpu s : gic_wf s -> 0 <= cpu < 8 ->
  exists s', gic_update_cpu cpu s = Ok (negb (active_cpu s cpu), s') /\ gic_wf s' /\ only_outputs s s' /\
    shows s cpu (outputs s' cpu) /\ forall c, c <> cpu -> outputs s' c = outputs s c.
Proof.
  intros W Hc. unfold gic_update_cpu, shows.
  destruct (arr_set _ _ _ cpu 1023 (wf_pending _ W) Hc) as (l1 & -> & A1 & G1); [by right|]. cbn [res_bind].
  set (s1 := put_current_pending l1 s). assert (gic_wf s1) as W1 by (by apply wf_put_pending).
  destruct (arr_get _ _ _ cpu (wf_cpu_enabled _ W) Hc) as (ce & Ece & _).
  change (cpu_enabled s1) with (cpu_enabled s). unfold active_cpu. rewrite Ece. cbn [res_bind].
  change (enabled s1) with (enabled s).
  destruct (enabled s && ce) eqn:En.
  - apply andb_true_iff in En as [-> ->]. cbn [negb orb].
    destruct (best_loop_spec cpu s1 W1 Hc) as ([bp bi] & -> & Hb). cbn [res_bind].
    destruct (cpu_field_get _ _ cpu (wf_mask _ W1) Hc) as [-> _]. cbn [res_bind].
    change (priority_mask s1) with (priority_mask s). change (num_irq s1) with (num_irq s) in Hb.
    change (best_below s cpu (num_irq s) (bp, bi)) in Hb.
    destruct (Z.ltb_spec bp (cpu_field (priority_mask s) cpu)) as [Lt|Ge].
    + assert (irq_num (num_irq s) bi) as Hbi.
      { destruct Hb as [[[= -> ->] _]|(R & _)]; [by right|left; done]. }
      destruct (arr_set _ _ _ cpu bi (wf_pending _ W1) Hc) as (l2 & -> & A2 & G2); [done|]. cbn [res_bind].
      set (s2 := put_current_pending l2 s1). assert (gic_wf s2) as W2 by (by apply wf_put_pending).
      destruct (cpu_field_get _ _ cpu (wf_running_priority _ W2) Hc) as [-> _]. cbn [res_bind].
      change (running_priority s2) with (running_priority s).
      set (lvl := if bp <? _ then 1 else 0).
      destruct (arr_set _ _ _ cpu lvl (wf_parent _ W2) Hc) as (l3 & -> & A3 & G3);
        [unfold lvl; destruct (_ <? _); auto|]. cbn [res_bind].
      eexists. split; [done|]. split; [by apply wf_put_parent|]. split; [done|]. split.
      * exists (bp, bi). split; [done|]. cbn [fst snd].
        destruct (Z.ltb_spec bp (cpu_field (priority_mask s) cpu)); [|lia].
        unfold outputs. cbn [put_parent_irq put_current_pending current_pending parent_irq].
        by rewrite G2, G3, Z.eqb_refl.
      * intros c Hne. unfold outputs. cbn [put_parent_irq put_current_pending current_pending parent_irq].
        rewrite G2, G3. destruct (Z.eqb_spec c cpu); [done|].
        change (current_pending s1) with l1. rewrite G1. by destruct (Z.eqb_spec c cpu).
    + cbn [res_bind].
      destruct (arr_set _ _ _ cpu 0 (wf_parent _ W1) Hc) as (l3 & -> & A3 & G3); [auto|]. cbn [res_bind].
      eexists. split; [done|]. split; [by apply wf_put_parent|]. split; [done|]. split.
      * exists (bp, bi). split; [done|]. cbn [fst snd].
        destruct (Z.ltb_spec bp (cpu_field (priority_mask s) cpu)); [lia|].
        unfold outputs. cbn [put_parent_irq put_current_pending current_pending parent_irq].
        by rewrite G3, G1, Z.eqb_refl.
      * intros c Hne. unfold outputs. cbn [put_parent_irq put_current_pending current_pending parent_irq].
        rewrite G3, G1. by destruct (Z.eqb_spec c cpu).
  - assert (negb (enabled s) || negb ce = true) as -> by (destruct (enabled s), ce; done).
    destruct (arr_set _ _ _ cpu 0 (wf_parent _ W1) Hc) as (l3 & -> & A3 & G3); [auto|]. cbn [res_bind].
    eexists. split; [done|]. split; [by apply wf_put_parent|]. split; [done|]. split.
    + unfold outputs. cbn [put_parent_irq put_current_pending current_pending parent_irq].
      by rewrite G3, G1, Z.eqb_refl.
    + intros c Hne. unfold outputs. cbn [put_parent_irq put_current_pending current_pending parent_irq].
      rewrite G3, G1. by destruct (Z.eqb_spec c cpu).
Qed.

Lemma shows_ext s s' cpu out : only_outputs s s' -> shows s' cpu out -> shows s cpu out.
Proof. intros ->. done. Qed.

Lemma active_ext s s' cpu : only_outputs s s' -> active_cpu s' cpu = active_cpu s cpu.
Proof. intros ->. done. Qed.

Lemma gic_update_from_spec n : forall cpu s, gic_wf s -> 0 <= cpu -> cpu + Z.of_nat n <= 8 ->
  exists s', gic_update_from n cpu s = Ok s' /\ gic_wf s' /\ only_outputs s s' /\
    forall c, 0 <= c ->
      (cpu <= c < cpu + Z.of_nat n -> (forall d, cpu <= d < c -> active_cpu s d = true) ->
         shows s c (outputs s' c)) /\
      (c < cpu \/ cpu + Z.of_nat n <= c \/ (exists d, cpu <= d < c /\ active_cpu s d = false) ->
         outputs s' c = outputs s c).
Proof.
  induction n as [|n IH]; intros cpu s W Hc Hn; cbn [gic_update_from].
  - exists s. split; [done|]. split; [done|]. split; [by destruct s|]. intros c Hc0. split; [lia|done].
  - destruct (gic_update_cpu_spec cpu s W ltac:(lia)) as (s1 & -> & W1 & O1 & S1 & K1). cbn [res_bind].
    destruct (active_cpu s cpu) eqn:A; cbn [negb].
    + destruct (IH (cpu + 1) s1 W1) as (s2 & -> & W2 & O2 & H2); [lia|lia|].
      exists s2. split; [done|]. split; [done|]. split; [by eapply only_outputs_trans|].
      intros c Hc0. destruct (H2 c Hc0) as [Ha Hb]. split.
      * intros Hr Hd. destruct (Z.eq_dec c cpu) as [->|].
        -- rewrite Hb by lia. done.
        -- apply (shows_ext _ _ _ _ O1), Ha; [lia|]. intros d Hd'. rewrite (active_ext _ _ _ O1).
           apply Hd. lia.
      * intros Ho. destruct (Z.eq_dec c cpu) as [->|].
        -- destruct Ho as [?|[?|(d & ? & _)]]; lia.
        -- rewrite Hb; [by apply K1|]. destruct Ho as [?|[?|(d & Hd & Ad)]]; [lia|lia|].
           right. right. exists d. rewrite (active_ext _ _ _ O1).
           destruct (Z.eq_dec d cpu) as [->|]; [congruence|]. split; [lia|done].
    + exists s1. split; [done|]. split; [done|]. split; [done|]. intros c Hc0. split.
      * intros Hr Hd. destruct (Z.eq_dec c cpu) as [->|]; [done|].
        rewrite Hd in A; [done|lia].
      * intros Ho. apply K1. destruct Ho as [?|[?|(d & Hd & _)]]; lia.
Qed.

Lemma gic_update_safe s : gic_wf s -> safe (gic_update s) s.
Proof.
  intros W. pose proof (wf_num_cpu _ W).
  destruct (gic_update_from_spec (Z.to_nat (num_cpu s)) 0 s W) as (s' & E & W' & O & _); [lia|lia|].
  exists s'. split; [done|]. split; [done|]. by apply only_outputs_same.
Qed.

(** ** Safety of the accesses *)

#[export] Hint Resolve gic_update_safe : gic.

Lemma test_gives irq s {A} (f : gic_irq_state -> A) : gic_wf s -> 0 <= irq < 1020 ->
  gives (irq_query f irq s) (fun _ => True).
Proof. apply irq_query_gives. Qed.

(** One step of a safety proof: a state change, a query, or an array access. *)
Ltac gic_step :=
  match goal with
  | |- safe (Ok _) _ => apply safe_ok; [auto with gic|auto with gic]
  | |- safe (gic_update _) _ => apply gic_update_safe; auto with gic
  | |- safe (if ?b then _ else _) _ => destruct b eqn:?
  | |- safe (res_bind (if ?b then _ else _) _) _ => destruct b eqn:?
  | |- safe (res_bind (Ok _) _) _ => cbn [res_bind]
  | |- safe (res_bind (irq_query _ _ _) _) _ =>
      eapply safe_query; [apply irq_query_gives; [done|lia]|intros ? _]
  | |- safe (res_bind (GIC_TARGET _ _) _) _ =>
      eapply safe_query; [apply target_gives; [done|lia]|intros ? ?]
  | |- safe (res_bind (GIC_GET_PRIORITY _ _ _) _) _ =>
      eapply safe_query; [apply priority_gives; [done|lia|done]|intros ? ?]
  | |- safe (GIC_SET_ENABLED _ _ _) _ => apply set_enabled_safe; [done|lia]
  | |- safe (GIC_CLEAR_ENABLED _ _ _) _ => apply clear_enabled_safe; [done|lia]
  | |- safe (GIC_SET_PENDING _ _ _) _ => apply set_pending_safe; [done|lia]
  | |- safe (GIC_CLEAR_PENDING _ _ _) _ => apply clear_pending_safe; [done|lia]
  | |- safe (GIC_SET_LEVEL _ _ _) _ => apply set_level_safe; [done|lia]
  | |- safe (GIC_CLEAR_LEVEL _ _ _) _ => apply clear_level_safe; [done|lia]
  | |- safe (GIC_PUT_MODEL _ _ _) _ => apply put_model_safe; [done|lia]
  | |- safe (GIC_PUT_EDGE_TRIGGER _ _ _) _ => apply put_edge_safe; [done|lia]
  | |- safe (res_bind (GIC_SET_ENABLED _ _ _) _) _ => eapply safe_bind; [gic_step|intros ? ? ?]
  | |- safe (res_bind (GIC_SET_PENDING _ _ _) _) _ => eapply safe_bind; [gic_step|intros ? ? ?]
  | |- safe (res_bind (GIC_SET_LEVEL _ _ _) _) _ => eapply safe_bind; [gic_step|intros ? ? ?]
  | |- safe (res_bind (GIC_PUT_MODEL _ _ _) _) _ => eapply safe_bind; [gic_step|intros ? ? ?]
  end.

Lemma each_bit8_safe value f s : gic_wf s ->
  (forall i s', 0 <= i < 8 -> gic_wf s' -> same_config s s' -> safe (f i s') s') -> safe (each_bit8 value f s) s.
Proof.
  intros W Hf. apply safe_loop; [done|]. intros k s' Hk W' C'.
  destruct (negb _); [by apply Hf; [lia|done|]|apply safe_ok; auto with gic].
Qed.

(** An interrupt number that a register selects, with the ones after it in the
    same byte. *)
Lemma irq_group k s off : gic_wf s -> (k | 32) -> 0 < k -> 0 <= off -> (k | off) -> off < num_irq s ->
  off + k <= num_irq s.
Proof.
  intros W K32 Hk Ho [a ->] Hlt. destruct K32 as [b Hb]. pose proof (wf_num_irq _ W) as [_ M].
  apply Z.mod_divide in M as [c M]; [|lia]. rewrite Hb, Z.mul_assoc in M. rewrite M in *.
  assert (a < c * b) by (apply (Z.mul_lt_mono_pos_r k); lia). nia.
Qed.

Section Writes.
Context (cpu irq value : Z) (s : GICState) (W : gic_wf s) (Hc : 0 <= cpu < 8).

Lemma write_set_enable_safe : 0 <= irq -> irq + 8 <= num_irq s -> safe (write_set_enable cpu irq value s) s.
Proof.
  intros Hi Hn. pose proof (wf_num_irq _ W). apply each_bit8_safe; [done|]. intros i s' Hr W' C'.
  unfold GIC_TEST_LEVEL, GIC_TEST_EDGE_TRIGGER. repeat (cbv beta zeta; gic_step).
Qed.

Lemma write_clear_enable_safe : 0 <= irq -> irq + 8 <= num_irq s -> safe (write_clear_enable cpu irq value s) s.
Proof.
  intros Hi Hn. pose proof (wf_num_irq _ W). apply each_bit8_safe; [done|]. intros i s' Hr W' C'.
  repeat (cbv beta zeta; gic_step).
Qed.

Lemma write_set_pending_safe : 0 <= irq -> irq + 8 <= num_irq s -> safe (write_set_pending irq value s) s.
Proof.
  intros Hi Hn. pose proof (wf_num_irq _ W). apply each_bit8_safe; [done|]. intros i s' Hr W' C'.
  repeat (cbv beta zeta; gic_step).
Qed.

Lemma write_clear_pending_safe : 0 <= irq -> irq + 8 <= num_irq s -> safe (write_clear_pending irq value s) s.
Proof.
  intros Hi Hn. pose proof (wf_num_irq _ W). apply each_bit8_safe; [done|]. intros i s' Hr W' C'.
  repeat (cbv beta zeta; gic_step).
Qed.

Lemma land_mask_ok z : byte_ok (Z.land z ALL_CPU_MASK).
Proof.
  unfold byte_ok. change ALL_CPU_MASK with (Z.ones 8). rewrite Z.land_ones by lia.
  apply Z.mod_pos_bound. lia.
Qed.

Lemma write_target_safe : 0 <= irq < num_irq s -> safe (write_target irq value s) s.
Proof.
  intros Hi. pose proof (wf_num_irq _ W).
  eapply safe_query; [eapply gives_set; [apply (wf_target _ W)|lia|apply land_mask_ok]|].
  intros l Hl. gic_step.
Qed.

Lemma write_config_safe : 0 <= irq -> irq + 4 <= num_irq s -> safe (write_config irq value s) s.
Proof.
  intros Hi Hn. pose proof (wf_num_irq _ W). apply safe_loop; [done|]. intros i s' Hr W' C'.
  repeat (cbv beta zeta; gic_step).
Qed.

Lemma gic_set_priority_safe : 0 <= irq < num_irq s -> safe (gic_set_priority cpu irq value s) s.
Proof.
  intros Hi. pose proof (wf_num_irq _ W). unfold gic_set_priority, GIC_INTERNAL.
  destruct (Z.ltb_spec irq 32).
  - eapply safe_query; [eapply gives_set2; [apply (wf_priority1 _ W)|lia|done|apply u8_ok]|].
    intros l Hl. gic_step.
  - eapply safe_query; [eapply gives_set; [apply (wf_priority2 _ W)|lia|apply u8_ok]|].
    intros l Hl. gic_step.
Qed.

Lemma write_cpendsgir_safe : 0 <= irq < 16 -> safe (write_cpendsgir cpu irq value s) s.
Proof.
  intros Hi. eapply safe_query; [eapply gives_get2; [apply (wf_sgi _ W)|done|done]|]. intros sp Hsp.
  eapply safe_query; [eapply gives_set2; [apply (wf_sgi _ W)|done|done|apply u8_ok]|]. intros m Hm.
  assert (gic_wf (put_sgi_pending m s)) as W1 by auto with gic.
  cbv zeta. destruct (_ =? 0).
  - destruct (clear_pending_safe irq (Z.shiftl 1 cpu) _ W1 ltac:(lia)) as (s2 & E & W2 & C2). by exists s2.
  - gic_step.
Qed.

Lemma write_spendsgir_safe : 0 <= irq < 16 -> safe (write_spendsgir cpu irq value s) s.
Proof.
  intros Hi. unfold write_spendsgir. eapply safe_bind; [apply set_pending_safe; [done|lia]|].
  intros s1 W1 C1. eapply safe_query; [eapply gives_get2; [apply (wf_sgi _ W1)|done|done]|]. intros sp Hsp.
  eapply safe_query; [eapply gives_set2; [apply (wf_sgi _ W1)|done|done|apply u8_ok]|]. intros m Hm.
  gic_step.
Qed.
End Writes.

Lemma base_irq s : GIC_BASE_IRQ s = 32 \/ GIC_BASE_IRQ s = 0.
Proof. unfold GIC_BASE_IRQ. destruct (_ =? _); auto. Qed.

Lemma dist_decode_safe cpu offset value s r : gic_wf s -> 0 <= cpu < 8 -> 0 <= offset ->
  dist_decode cpu offset value s = Some r -> safe r s.
Proof.
  intros W Hc Ho. unfold dist_decode. pose proof (base_irq s) as Hb.
  assert (forall k off, (k | 32) -> (k | off) -> 0 < k -> 0 <= off -> off + GIC_BASE_IRQ s < num_irq s ->
    off + GIC_BASE_IRQ s + k <= num_irq s) as G.
  { intros k off K32 Koff Hk Hoff Hlt. apply irq_group; [done|done|done|lia| |done].
    destruct Hb as [-> | ->]; [by apply Z.divide_add_r|by rewrite Z.add_0_r]. }
  repeat match goal with
  | |- context [if ?b then _ else _] =>
      lazymatch b with
      | (num_irq s <=? ?i) => destruct (Z.leb_spec (num_irq s) i); [done|]
      | _ => let E := fresh "B" in destruct b eqn:E
      end
  end; try done; intros [= <-]; try (apply safe_ok; auto with gic; done).
  - apply write_set_enable_safe; [done|lia|]. apply (G 8); [exists 4; lia|apply Z.divide_factor_r|lia|lia|lia].
  - apply write_clear_enable_safe; [done|lia|]. apply (G 8); [exists 4; lia|apply Z.divide_factor_r|lia|lia|lia].
  - apply write_set_pending_safe; [done|lia|]. apply (G 8); [exists 4; lia|apply Z.divide_factor_r|lia|lia|lia].
  - apply write_clear_pending_safe; [done|lia|]. apply (G 8); [exists 4; lia|apply Z.divide_factor_r|lia|lia|lia].
  - apply gic_set_priority_safe; [done|done|lia].
  - apply write_target_safe; [done|lia].
  - apply write_config_safe; [done|lia|]. apply (G 4); [exists 8; lia|apply Z.divide_factor_r|lia|lia|lia].
  - apply write_cpendsgir_safe; [done|done|lia].
  - apply write_spendsgir_safe; [done|done|lia].
Qed.

Lemma current_cpu_ok c s : gic_wf s -> 0 <= c < num_cpu s -> 0 <= gic_get_current_cpu c s < 8.
Proof. intros W Hc. pose proof (wf_num_cpu _ W). unfold gic_get_current_cpu. destruct (_ <? _); lia. Qed.

Lemma gic_dist_writeb_safe c offset value s : gic_wf s -> 0 <= c < num_cpu s -> 0 <= offset ->
  safe (gic_dist_writeb c offset value s) s.
Proof.
  intros W Hc Ho. unfold gic_dist_writeb. pose proof (current_cpu_ok c s W Hc).
  destruct (dist_decode _ _ _ _) as [r|] eqn:E; [|apply safe_ok; auto with gic].
  eapply safe_bind; [by eapply dist_decode_safe|]. intros. by apply gic_update_safe.
Qed.

Lemma gic_dist_writew_safe c offset value s : gic_wf s -> 0 <= c < num_cpu s -> 0 <= offset ->
  safe (gic_dist_writew c offset value s) s.
Proof.
  intros W Hc Ho. eapply safe_bind; [by apply gic_dist_writeb_safe|]. intros s1 W1 (C1 & _).
  apply gic_dist_writeb_safe; [done|lia|lia].
Qed.

Lemma land_low z b m : m = Z.ones b -> 0 <= b -> 0 <= Z.land z m < 2 ^ b.
Proof. intros -> Hb. rewrite Z.land_ones by done. apply Z.mod_pos_bound. lia. Qed.

(** One round of the loop over the targets of a software interrupt: a bit of the
    mask goes, and the bits below it are zero. *)
Definition target_round (k mask : Z) : bool :=
  let t := ctz32 mask in
  let next := u32 (Z.land mask (Z.lnot (Z.shiftl 1 t))) in
  negb (mask mod 2 ^ k =? 0) || negb (t <? 8) || ((k <? 8) && (0 <=? t) && (0 <=? next) && (next <? 256) && (next mod 2 ^ (k + 1) =? 0)).

Lemma target_rounds : forallb (fun k => forallb (target_round k) (seqZ 0 256)) (seqZ 0 9) = true.
Proof. vm_compute. reflexivity. Qed.

Lemma target_round_ok k mask : 0 <= k <= 8 -> 0 <= mask < 256 -> target_round k mask = true.
Proof.
  intros Hk Hm. pose proof target_rounds as T. rewrite forallb_forall in T.
  specialize (T k ltac:(apply list_elem_of_In, elem_of_seqZ; lia)). cbv beta in T. rewrite forallb_forall in T.
  apply T, list_elem_of_In, elem_of_seqZ. lia.
Qed.

Lemma next_targets k mask : 0 <= k <= 8 -> 0 <= mask < 256 -> mask mod 2 ^ k = 0 -> ctz32 mask < 8 ->
  let next := u32 (Z.land mask (Z.lnot (Z.shiftl 1 (ctz32 mask)))) in
  k < 8 /\ 0 <= ctz32 mask /\ 0 <= next < 256 /\ next mod 2 ^ (k + 1) = 0.
Proof.
  intros Hk Hm Hz Ht. pose proof (target_round_ok k mask Hk Hm) as R. unfold target_round in R. rewrite Hz in R.
  rewrite (proj2 (Z.ltb_lt (ctz32 mask) 8) Ht) in R. cbn [Z.eqb negb orb] in R. rewrite !andb_true_iff, !Z.ltb_lt, !Z.leb_le, Z.eqb_eq in R.
  cbv zeta. tauto.
Qed.

Lemma sgi_targets_gives cpu irq n : forall mask m, (n <= 8)%nat -> 0 <= irq < 16 -> 0 <= mask < 256 -> mask mod 2 ^ (8 - Z.of_nat n) = 0 ->
  arr 16 (arr 8 byte_ok) m -> gives (sgi_targets n cpu irq mask m) (arr 16 (arr 8 byte_ok)).
Proof.
  induction n as [|n IH]; intros mask m Hn Hi Hm Hz Ha; cbn [sgi_targets]; change GIC_NCPU with 8;
    destruct (Z.ltb_spec (ctz32 mask) 8) as [Ht|Ht]; try (by apply gives_ok).
  - destruct (next_targets 8 mask) as [? _]; [lia|done|done|done|lia].
  - destruct (next_targets (8 - Z.of_nat (S n)) mask) as (R1 & R2 & R3 & R4); [lia|done|done|done|].
    eapply gives_bind; [eapply gives_get2; [exact Ha|done|lia]|]. intros sp _.
    eapply gives_bind; [eapply gives_set2; [exact Ha|done|lia|apply u8_ok]|]. intros m' Hm'.
    apply IH; [lia|done|lia| |done]. replace (8 - Z.of_nat n) with (8 - Z.of_nat (S n) + 1) by lia. done.
Qed.

(** The word accesses; the software-interrupt register takes 16 interrupts. *)
Lemma gic_dist_writel_safe c offset value s : gic_wf s -> 0 <= c < num_cpu s -> 0 <= offset ->
  (offset = 0xf00 -> Z.land value 0x3ff < 16) -> safe (gic_dist_writel c offset value s) s.
Proof.
  intros W Hc Ho Hs. unfold gic_dist_writel. destruct (Z.eqb_spec offset 0xf00) as [E|].
  - specialize (Hs E). pose proof (land_low value 10 0x3ff eq_refl ltac:(lia)) as Hr. pose proof (current_cpu_ok c s W Hc) as Hcpu. cbv zeta.
    set (cpu := gic_get_current_cpu c s) in *. match goal with |- context [GIC_SET_PENDING _ ?x _] => set (mask := x) end.
    assert (0 <= mask < 256) as Hm.
    { assert (0 <= Z.shiftl 1 cpu < 2 ^ 8 /\ 0 <= Z.lxor ALL_CPU_MASK (Z.shiftl 1 cpu) < 2 ^ 8) as [M1 M2].
      { assert (cpu = 0 \/ cpu = 1 \/ cpu = 2 \/ cpu = 3 \/ cpu = 4 \/ cpu = 5 \/ cpu = 6 \/ cpu = 7) as D by lia.
        clearbody cpu. destruct D as [->|[->|[->|[->|[->|[->|[->| ->]]]]]]]; vm_compute; intuition congruence. }
      pose proof (land_low (Z.shiftr value 16) 8 ALL_CPU_MASK eq_refl ltac:(lia)).
      change ALL_CPU_MASK with 255 in *. unfold mask. repeat case_match; lia. }
    clearbody mask. eapply safe_bind; [apply set_pending_safe; [done|lia]|]. intros s1 W1 C1.
    eapply safe_query; [apply (sgi_targets_gives cpu (Z.land value 0x3ff) 8 mask _ ltac:(lia) ltac:(lia) Hm); [apply Z.mod_1_r|apply (wf_sgi _ W1)]|].
    intros m Hm'. destruct (gic_update_safe (put_sgi_pending m s1)) as (s2 & E2 & W2 & C2); [by apply wf_put_sgi|].
    exists s2. split; [done|]. split; [done|]. eapply same_config_trans; [|exact C2]. auto with gic.
  - eapply safe_bind; [by apply gic_dist_writew_safe|]. intros s1 W1 (C1 & _). apply gic_dist_writew_safe; [done|lia|lia].
Qed.

(** ** Safety of the reads *)

Lemma collect8_gives (test : Z -> res bool) irq :
  (forall i, 0 <= i < 8 -> gives (test (irq + i)) (fun _ => True)) -> gives (collect8 test irq) (fun _ => True).
Proof.
  intros Ht. apply gives_loop; [done|]. intros k r Hk _.
  eapply gives_bind; [apply Ht; lia|]. intros. by apply gives_ok.
Qed.

Lemma gic_dist_readb_gives c offset s : gic_wf s -> 0 <= c < num_cpu s -> 0 <= offset < 0x1000 ->
  gives (gic_dist_readb c offset s) (fun _ => True).
Proof.
  intros W Hc Ho. unfold gic_dist_readb. pose proof (base_irq s) as Hb.
  pose proof (current_cpu_ok c s W Hc) as Hcpu. pose proof (wf_num_irq _ W) as [Hn _].
  set (cpu := gic_get_current_cpu c s) in *.
  assert (forall k off, (k | 32) -> (k | off) -> 0 < k -> 0 <= off -> off + GIC_BASE_IRQ s < num_irq s ->
    off + GIC_BASE_IRQ s + k <= num_irq s) as G.
  { intros k off K32 Koff Hk Hoff Hlt. apply irq_group; [done|done|done|lia| |done].
    destruct Hb as [-> | ->]; [by apply Z.divide_add_r|by rewrite Z.add_0_r]. }
  assert (forall A (x : A), gives (Ok x) (fun _ => True)) as T by (intros; by apply gives_ok).
  assert (forall off (test : Z -> res bool), 0 <= off -> (8 | off) -> off + GIC_BASE_IRQ s < num_irq s ->
    (forall j, 0 <= j < 1020 -> gives (test j) (fun _ => True)) ->
    gives (collect8 test (off + GIC_BASE_IRQ s)) (fun _ => True)) as C8.
  { intros off test Hoff H8 Hlt Ht. pose proof (G 8 off ltac:(exists 4; lia) H8 ltac:(lia) Hoff Hlt).
    apply collect8_gives. intros i Hi. apply Ht. lia. }
  cbv zeta.
  repeat match goal with
  | |- gives (if ?b then _ else _) _ =>
      lazymatch b with
      | (num_irq s <=? ?i) => destruct (Z.leb_spec (num_irq s) i); [by apply T|]
      | _ => let E := fresh "B" in destruct b eqn:E
      end
  end; try by apply T.
  - apply C8; [destruct (offset <? 0x180) eqn:?; lia|destruct (offset <? 0x180); apply Z.divide_factor_r|done|].
    intros. by apply irq_query_gives.
  - apply C8; [destruct (offset <? 0x280) eqn:?; lia|destruct (offset <? 0x280); apply Z.divide_factor_r|done|].
    intros. by apply irq_query_gives.
  - apply C8; [lia|apply Z.divide_factor_r|done|]. intros. by apply irq_query_gives.
  - destruct (priority_gives (offset - 0x400 + GIC_BASE_IRQ s) cpu s W ltac:(lia) Hcpu) as (p & -> & _).
    by apply T.
  - destruct (target_gives (offset - 0x800 + GIC_BASE_IRQ s) s W ltac:(lia)) as (p & -> & _). by apply T.
  - apply gives_loop; [done|]. intros k r Hk _.
    pose proof (G 2 ((offset - 0xc00) * 2) ltac:(exists 16; lia) ltac:(apply Z.divide_factor_r)
      ltac:(lia) ltac:(lia) ltac:(lia)).
    assert (num_irq s <= 992).
    { pose proof (wf_num_irq _ W) as [_ M]. dlia. }
    eapply gives_bind; [apply irq_query_gives; [done|lia]|]. intros.
    eapply gives_bind; [apply irq_query_gives; [done|lia]|]. intros. by apply gives_ok.
  - destruct (gives_get2 _ _ _ _ (if offset <? 0xf20 then offset - 0xf10 else offset - 0xf20) cpu
      (wf_sgi _ W)) as (p & -> & _); [destruct (offset <? 0xf20) eqn:?; lia|done|]. by apply T.
  - rewrite Z.shiftr_div_pow2 by lia. change (2 ^ 2) with 4.
    destruct (aget_total gic_id ((offset - 0xfe0) / 4)) as [x ->]; [cbn [gic_id length]; dlia|]. by apply T.
Qed.

(** ** Inputs, acknowledge and end of interrupt *)

Lemma gic_set_irq_safe irq level s : gic_wf s ->
  0 <= irq < num_irq s - 32 + 32 * num_cpu s ->
  (irq < num_irq s - 32 \/ 16 <= (irq - (num_irq s - 32)) mod 32) -> safe (gic_set_irq irq level s) s.
Proof.
  intros W Hi Hp. pose proof (wf_num_irq _ W) as [Hn M]. pose proof (wf_num_cpu _ W).
  unfold gic_set_irq, GIC_INTERNAL, GIC_NR_SGIS.
  assert (forall j cm t, 16 <= j < 1020 -> safe
    (let* _ := c_assert (16 <=? j) in let* lv := GIC_TEST_LEVEL j cm s in
     if level =? b2z lv then Ok s else
     let* s := if legacy s then gic_set_irq_11mpcore j level cm t s else gic_set_irq_generic j level cm t s in
     gic_update s) s) as Main.
  { intros j cm t Hj. destruct (Z.leb_spec 16 j); [|lia]. cbn [c_assert res_bind].
    eapply safe_query; [apply irq_query_gives; [done|lia]|]. intros lv _.
    destruct (_ =? _); [gic_step|]. eapply safe_bind; [|intros; by apply gic_update_safe].
    unfold gic_set_irq_11mpcore, gic_set_irq_generic, GIC_TEST_EDGE_TRIGGER, GIC_TEST_ENABLED.
    destruct (legacy s); repeat (cbv beta zeta; gic_step). }
  destruct (Z.ltb_spec irq (num_irq s - 32)).
  - eapply safe_query; [|intros x Hx; exact Hx].
    eapply gives_bind; [apply target_gives; [done|lia]|]. intros t _. apply gives_ok. apply Main. lia.
  - cbn [res_bind]. apply Main. dlia.
Qed.

Lemma gic_set_running_irq_safe cpu irq s : gic_wf s -> 0 <= cpu < 8 -> irq_num (num_irq s) irq ->
  safe (gic_set_running_irq cpu irq s) s.
Proof.
  intros W Hc Hi. pose proof (wf_num_irq _ W) as [Hn _].
  eapply safe_query; [eapply gives_set; [apply (wf_running _ W)|done|done]|]. intros l Hl. cbv zeta.
  assert (gic_wf (put_running_irq l s)) as W1 by auto with gic.
  assert (gives (if irq =? 1023 then Ok 0x100 else GIC_GET_PRIORITY irq cpu (put_running_irq l s))
    (fun z => 0 <= z <= 256)) as Gp.
  { destruct (Z.eqb_spec irq 1023); [apply gives_ok; lia|]. destruct Hi as [Hi|]; [|done].
    destruct (priority_gives irq cpu _ W1 ltac:(lia) Hc) as (p & E & Hp). exists p. split; [done|].
    unfold byte_ok in Hp. lia. }
  eapply safe_query; [exact Gp|]. intros p Hp.
  eapply safe_query; [eapply gives_set; [apply (wf_running_priority _ W1)|done|exact Hp]|]. intros l2 Hl2.
  destruct (gic_update_safe (put_running_priority l2 (put_running_irq l s))) as (s2 & E & W2 & C2);
    [auto with gic|]. by exists s2.
Qed.

Lemma clear_acked_safe irq cm s : gic_wf s -> 0 <= irq < 1020 -> safe (clear_acked irq cm s) s.
Proof.
  intros W Hi. eapply safe_query; [by apply irq_query_gives|]. intros. by apply clear_pending_safe.
Qed.

(** What [gic_set_running_irq] leaves. *)
Lemma set_running_spec cpu irq s : gic_wf s -> 0 <= cpu < 8 -> irq_num (num_irq s) irq ->
  exists s', gic_set_running_irq cpu irq s = Ok s' /\ gic_wf s' /\ same_config s s' /\
    last_active s' = last_active s /\ (forall i c, prio_of s' i c = prio_of s i c) /\
    aget (running_irq s') cpu = Ok irq /\
    aget (running_priority s') cpu = Ok (if irq =? 1023 then 0x100 else prio_of s irq cpu).
Proof.
  intros W Hc Hi. pose proof (wf_num_irq _ W) as [Hn _]. unfold gic_set_running_irq.
  destruct (arr_set _ _ _ cpu irq (wf_running _ W) Hc Hi) as (l & -> & Hl & Gl). cbn [res_bind].
  set (s1 := put_running_irq l s). assert (gic_wf s1) as W1 by (by apply wf_put_running).
  assert ((if irq =? 1023 then Ok 0x100 else GIC_GET_PRIORITY irq cpu s1) =
    Ok (if irq =? 1023 then 0x100 else prio_of s irq cpu) /\
    0 <= (if irq =? 1023 then 0x100 else prio_of s irq cpu) <= 256) as [-> Rp].
  { destruct (Z.eqb_spec irq 1023); [split; [done|lia]|]. destruct Hi as [Hi|]; [|done].
    destruct (priority_val irq cpu s1 W1 ltac:(lia) Hc) as [-> R].
    change (prio_of s1 irq cpu) with (prio_of s irq cpu) in *. split; [done|lia]. }
  cbn [res_bind].
  destruct (arr_set _ _ _ cpu (if irq =? 1023 then 0x100 else prio_of s irq cpu)
    (wf_running_priority _ W1) Hc Rp) as (l2 & -> & Hl2 & Gl2). cbn [res_bind].
  set (s2 := put_running_priority l2 s1). assert (gic_wf s2) as W2 by (by apply wf_put_running_priority).
  pose proof (wf_num_cpu _ W2).
  destruct (gic_update_from_spec (Z.to_nat (num_cpu s2)) 0 s2 W2) as (s3 & E & W3 & O & _); [lia|lia|].
  exists s3. split; [done|]. split; [done|]. split; [by apply (only_outputs_same _ _ O)|].
  rewrite O. cbn. rewrite Gl, Gl2, Z.eqb_refl. done.
Qed.

(** End of the running interrupt. *)
Lemma complete_running_spec cpu irq prev s : gic_wf s -> 0 <= cpu < 8 -> 0 <= irq < num_irq s ->
  aget (running_irq s) cpu = Ok irq -> aget2 (last_active s) irq cpu = Ok prev ->
  exists s', gic_complete_irq cpu irq s = Ok s' /\ gic_wf s' /\ aget (running_irq s') cpu = Ok prev /\
    aget (running_priority s') cpu = Ok (if prev =? 1023 then 0x100 else prio_of s prev cpu).
Proof.
  intros W Hc Hi Hr Hl. pose proof (wf_num_irq _ W) as [Hn _]. unfold gic_complete_irq. cbv zeta.
  destruct (Z.leb_spec (num_irq s) irq); [lia|]. rewrite Hr. cbn [res_bind].
  destruct (Z.eqb_spec irq 1023); [lia|].
  assert (irq_num (num_irq s) prev) as Np.
  { destruct (gives_get2 _ _ _ _ irq cpu (wf_last_active _ W)) as (x & E & Hx); [lia|done|]. congruence. }
  assert (forall u s1, gic_wf s1 -> last_active s1 = last_active s -> num_irq s1 = num_irq s ->
    (forall i c, prio_of s1 i c = prio_of s i c) ->
    exists s', (let* (update, s) := Ok (u : bool, s1) in
      if negb (irq =? irq) then
        let* la := unlink_active eoi_fuel cpu irq irq (last_active s) in
        let s := put_last_active la s in if update then gic_update s else Ok s
      else let* prev := aget2 (last_active s) irq cpu in gic_set_running_irq cpu prev s) = Ok s' /\
      gic_wf s' /\ aget (running_irq s') cpu = Ok prev /\
      aget (running_priority s') cpu = Ok (if prev =? 1023 then 0x100 else prio_of s prev cpu)) as Fin.
  { intros u s1 W1 L1 N1 P1. cbn [res_bind]. rewrite Z.eqb_refl. cbn [negb]. rewrite L1, Hl. cbn [res_bind].
    destruct (set_running_spec cpu prev s1 W1 Hc) as (s2 & E2 & W2 & _ & _ & _ & R2 & Q2); [by rewrite N1|].
    rewrite P1 in Q2. by exists s2. }
  destruct (legacy s); [|by apply Fin].
  unfold GIC_TEST_EDGE_TRIGGER, GIC_TEST_ENABLED, GIC_TEST_LEVEL.
  rewrite !irq_query_val by (done || lia). cbn [res_bind].
  destruct (target_gives irq s W ltac:(lia)) as (t & -> & _). cbn [res_bind].
  destruct (_ && _); [|by apply Fin].
  destruct (set_pending_safe irq (Z.shiftl 1 cpu) s W ltac:(lia)) as (s1 & E1 & W1 & _). rewrite E1.
  unfold GIC_SET_PENDING, irq_modify in E1. res_inv. by apply Fin.
Qed.

(** Clearing the pending bit touches only [irq_state]. *)
Lemma clear_acked_frame irq cm s : gic_wf s -> 0 <= irq < 1020 ->
  exists l, clear_acked irq cm s = Ok (put_irq_state l s) /\ arr 1020 irq_ok l.
Proof.
  intros W Hi. destruct (clear_acked_safe irq cm s W Hi) as (s' & E & W' & _).
  unfold clear_acked, GIC_TEST_MODEL, GIC_CLEAR_PENDING, irq_modify, irq_query in E |- *.
  destruct (aget (irq_state s) irq) as [x|]; [|done]. cbn [res_bind] in *.
  destruct (aset (irq_state s) irq _) as [l|]; [|done]. cbn [res_bind] in *.
  injection E as <-. exists l. split; [done|]. apply (wf_irq_state _ W').
Qed.

(** The bookkeeping part of an acknowledge: which interrupt number is
    returned, with [irq_state] and [sgi_pending] updated. *)
Lemma ack_clear_spec cpu irq s : gic_wf s -> 0 <= cpu < 8 -> 0 <= irq < num_irq s ->
  (legacy s = false -> irq < 16 -> exists sp, aget2 (sgi_pending s) irq cpu = Ok sp /\ sp <> 0) ->
  exists ret l m,
    ack_clear cpu irq s = Ok (ret, put_irq_state l (put_sgi_pending m s)) /\
    arr 1020 irq_ok l /\ arr 16 (arr 8 byte_ok) m /\ Z.land ret 0x3ff = irq.
Proof.
  intros W Hc Hi Hsgi. pose proof (wf_num_irq _ W) as [Hn _]. unfold ack_clear. cbv zeta.
  assert (Z.land irq 0x3ff = irq) as Eirq.
  { change 0x3ff with (Z.ones 10). rewrite Z.land_ones by lia. apply Z.mod_small. lia. }
  assert (exists l, clear_acked irq (Z.shiftl 1 cpu) s = Ok (put_irq_state l (put_sgi_pending (sgi_pending s) s))
    /\ arr 1020 irq_ok l) as (l0 & E0 & Hl0).
  { destruct (clear_acked_frame irq (Z.shiftl 1 cpu) s W ltac:(lia)) as (l & E & Hl). exists l.
    split; [|done]. rewrite E. by destruct s. }
  destruct (legacy s) eqn:Lg.
  { exists irq, l0, (sgi_pending s). rewrite E0. split; [done|]. split; [done|].
    split; [apply (wf_sgi _ W)|done]. }
  unfold GIC_NR_SGIS. destruct (Z.ltb_spec irq 16) as [Ls|Ls].
  - destruct (Hsgi eq_refl Ls) as (sp & Esp & Nz). rewrite Esp. cbn [res_bind].
    destruct (Z.eqb_spec sp 0); [done|]. cbn [negb c_assert res_bind]. cbv zeta.
    destruct (gives_set2 _ _ _ _ irq cpu (u8 (Z.land sp (Z.lnot (Z.shiftl 1 (ctz32 sp)))))
      (wf_sgi _ W)) as (m & -> & Hm); [lia|done|apply u8_ok|]. cbn [res_bind].
    assert (gic_wf (put_sgi_pending m s)) as W1 by (by apply wf_put_sgi).
    assert (Z.land (Z.lor irq (Z.shiftl (Z.land (ctz32 sp) 7) 10)) 0x3ff = irq) as Er.
    { rewrite Z.land_lor_distr_l, Eirq. change 0x3ff with (Z.ones 10).
      rewrite (Z.land_ones (Z.shiftl _ _)), Z.shiftl_mul_pow2, Z.mod_mul, Z.lor_0_r by lia. done. }
    destruct (_ =? 0).
    + destruct (clear_acked_frame irq (Z.shiftl 1 cpu) _ W1 ltac:(lia)) as (l & -> & Hl). cbn [res_bind].
      eexists _, l, m. split; [done|]. done.
    + cbn [res_bind]. eexists _, (irq_state s), m. split; [by destruct s|].
      split; [apply (wf_irq_state _ W)|]. done.
  - exists irq, l0, (sgi_pending s). rewrite E0. split; [done|]. split; [done|].
    split; [apply (wf_sgi _ W)|done].
Qed.

(** ** The CPU interface *)

Lemma set_then_update {A} n (P : A -> Prop) (l : list A) i x (put : list A -> GICState -> GICState) s :
  arr n P l -> 0 <= i < n -> P x ->
  (forall v, arr n P v -> gic_wf (put v s)) -> (forall v, same_config s (put v s)) ->
  safe (let* l := aset l i x in gic_update (put l s)) s.
Proof.
  intros Hl Hi Hx Hp Hs. eapply safe_query; [by eapply gives_set|]. intros v Hv.
  destruct (gic_update_safe (put v s) (Hp v Hv)) as (s' & E & W & C). exists s'. split; [done|].
  split; [done|]. by eapply same_config_trans.
Qed.

Lemma gic_cpu_write_safe cpu offset value s :
  gic_wf s -> 0 <= cpu < 8 -> offset <> 0x10 -> safe (gic_cpu_write cpu offset value s) s.
Proof.
  intros W Hc Ne. unfold gic_cpu_write.
  repeat case_match; try done; try (apply safe_ok; auto with gic; done); try by apply gic_update_safe.
  - apply (set_then_update 8 _ _ _ _ put_cpu_enabled _ (wf_cpu_enabled _ W)); auto with gic.
  - eapply safe_bind; [|intros; by apply gic_update_safe].
    eapply safe_query; [apply (gives_set 8 _ _ cpu (Z.land value 7) (wf_abpr _ W));
      [done|by apply (land_low value 3)]|]. intros l Hl. apply safe_ok; auto with gic.
  - apply (set_then_update 8 _ _ _ _ put_bpr _ (wf_bpr _ W)); auto with gic. by apply (land_low value 3).
  - apply (set_then_update 8 _ _ _ _ put_priority_mask _ (wf_mask _ W)); auto with gic.
    by apply (land_low value 8).
Qed.

Lemma read_gives {A} (c : res A) P (f : A -> Z) s : gives c P ->
  exists v, (let* v := (let* x := c in Ok (f x)) in Ok (v, s)) = Ok (v : Z, s : GICState).
Proof. intros (x & -> & _). by exists (f x). Qed.

Lemma gic_cpu_read_safe cpu offset s :
  gic_wf s -> 0 <= cpu < 8 -> offset <> 0x0c -> exists v, gic_cpu_read cpu offset s = Ok (v, s).
Proof.
  intros W Hc Ne. unfold gic_cpu_read.
  assert (forall (c : res Z) P, gives c P -> exists v, (let* v := c in Ok (v, s)) = Ok (v, s)) as G
    by (intros c P (x & -> & _); by exists x).
  repeat case_match; try done; subst; try (by exists 0);
    first [ eapply read_gives; eapply gives_get; [apply (wf_cpu_enabled _ W)|done]
          | eapply G; first [ eapply gives_get2; [apply (wf_apr _ W)|done|done]
                            | eapply gives_get; [|done];
                              first [apply (wf_mask _ W)|apply (wf_bpr _ W)|apply (wf_running_priority _ W)
                                    |apply (wf_pending _ W)|apply (wf_abpr _ W)]]].
Qed.

(** ** Realize and reset *)

(** The state the object is allocated with: zeroed, with its properties set. *)
Definition gic_zero (ncpu nirq rev : Z) : GICState :=
  mkGIC (replicate 8 0) false (replicate 8 false) (replicate 1020 irq_zero) (replicate 1020 0)
    (replicate 32 (replicate 8 0)) (replicate 988 0) (replicate 1020 (replicate 8 0))
    (replicate 16 (replicate 8 0)) (replicate 8 0) (replicate 8 0) (replicate 8 0) (replicate 8 0)
    (replicate 8 0) (replicate 8 0) (replicate 4 (replicate 8 0)) ncpu nirq rev.

Lemma zero_arr {A} n (P : A -> Prop) x : P x -> arr (Z.of_nat n) P (replicate n x).
Proof. intros. split; [by rewrite length_replicate|by apply Forall_replicate]. Qed.

Lemma gic_zero_wf ncpu nirq rev :
  1 <= ncpu <= 8 -> 32 <= nirq <= 1020 -> nirq mod 32 = 0 -> gic_wf (gic_zero ncpu nirq rev).
Proof.
  intros Hc Hn Hm. assert (irq_num nirq 0) as H0 by (left; lia).
  constructor.
  1: by apply (zero_arr 8); left. 1: by apply (zero_arr 8). 1: by apply (zero_arr 1020).
  1: by apply (zero_arr 1020). 1: by apply (zero_arr 32), (zero_arr 8). 1: by apply (zero_arr 988).
  1: by apply (zero_arr 1020), (zero_arr 8). 1: by apply (zero_arr 16), (zero_arr 8).
  1: by apply (zero_arr 8). 1: by apply (zero_arr 8). 1: by apply (zero_arr 8).
  1: by apply (zero_arr 8). 1: by apply (zero_arr 8). 1: by apply (zero_arr 8).
  1: by apply (zero_arr 4), (zero_arr 8). 1: done. done.
Qed.

Lemma reset_cpu_safe i s : gic_wf s -> 0 <= i < num_cpu s -> safe (reset_cpu i s) s.
Proof.
  intros W Hi. pose proof (wf_num_cpu _ W).
  eapply safe_query; [apply (gives_set 8 _ _ i _ (wf_mask _ W)); [lia|by destruct (_ =? _)]|].
  intros l1 H1. cbv zeta.
  eapply safe_query; [apply (gives_set 8 _ _ i _ (wf_pending _ W)); [lia|by right]|]. intros l2 H2.
  eapply safe_query; [apply (gives_set 8 _ _ i _ (wf_running _ W)); [lia|by right]|]. intros l3 H3.
  eapply safe_query; [apply (gives_set 8 _ _ i _ (wf_running_priority _ W)); [lia|lia]|]. intros l4 H4.
  eapply safe_query; [apply (gives_set 8 _ _ i _ (wf_cpu_enabled _ W)); [lia|done]|]. intros l5 H5.
  apply safe_ok; [|done].
  apply wf_put_cpu_enabled, H5. apply wf_put_running_priority, H4. apply wf_put_running, H3.
  apply wf_put_pending, H2. by apply wf_put_mask.
Qed.

Lemma reset_safe s : gic_wf s -> safe (arm_gic_common_reset s) s.
Proof.
  intros W. unfold arm_gic_common_reset. pose proof (wf_num_cpu _ W).
  set (s0 := put_irq_state _ s). assert (gic_wf s0) as W0.
  { apply wf_put_irq_state; [done|]. by apply arr_replicate. }
  change (safe (let* s1 := for_loop (Z.to_nat (num_cpu s0)) 0 reset_cpu s0 in
    let* s2 := for_loop 16 0 (fun i s =>
      let* s := GIC_SET_ENABLED i ALL_CPU_MASK s in GIC_PUT_EDGE_TRIGGER i true s) s1 in
    let* l := if num_cpu s2 =? 1
              then for_loop (Z.to_nat GIC_MAXIRQ) 0 (fun i l => aset l i 1) (irq_target s2)
              else Ok (irq_target s2) in
    Ok (put_enabled false (put_irq_target l s2))) s0).
  eapply safe_bind.
  { apply safe_loop; [done|]. intros k s1 Hk W1 (C1 & _). apply reset_cpu_safe; [done|].
    rewrite C1. change (num_cpu s0) with (num_cpu s). change (num_cpu s0) with (num_cpu s) in Hk. lia. }
  intros s1 W1 _. eapply safe_bind.
  { apply safe_loop; [done|]. intros k s2 Hk W2 _.
    eapply safe_bind; [apply set_enabled_safe; [done|lia]|]. intros. apply put_edge_safe; [done|lia]. }
  intros s2 W2 _. eapply (safe_query _ (arr 1020 byte_ok)).
  { destruct (_ =? 1); [|apply gives_ok, (wf_target _ W2)].
    apply gives_loop; [apply (wf_target _ W2)|]. intros k l Hk Hl. by apply gives_set. }
  intros l Hl. apply safe_ok; auto with gic.
Qed.

(** What the reset leaves in the per-CPU registers. *)
Definition cpu_fresh (s : GICState) (cpu : Z) : Prop :=
  aget (current_pending s) cpu = Ok 1023 /\ aget (running_irq s) cpu = Ok 1023 /\
  aget (running_priority s) cpu = Ok 0x100 /\ aget (cpu_enabled s) cpu = Ok false.

(** The per-CPU registers [cpu_fresh] looks at are the same in both states. *)
Definition same_cpus (s s' : GICState) : Prop :=
  current_pending s' = current_pending s /\ running_irq s' = running_irq s /\
  running_priority s' = running_priority s /\ cpu_enabled s' = cpu_enabled s.

Lemma reset_cpu_spec i s : gic_wf s -> 0 <= i < num_cpu s ->
  exists s', reset_cpu i s = Ok s' /\ gic_wf s' /\ same_config s s' /\ cpu_fresh s' i /\
    forall j, j <> i -> cpu_fresh s j -> cpu_fresh s' j.
Proof.
  intros W Hi. pose proof (wf_num_cpu _ W). destruct (reset_cpu_safe i s W Hi) as (s' & E & W' & C).
  exists s'. split; [done|]. split; [done|]. split; [done|]. clear W' C. unfold reset_cpu in E.
  destruct (arr_set 8 _ _ i (if revision s =? REV_11MPCORE then 0xf0 else 0) (wf_mask _ W))
    as (l1 & E1 & _ & _); [lia|by destruct (_ =? _)|]. rewrite E1 in E. cbn [res_bind] in E. cbv zeta in E.
  destruct (arr_set 8 _ _ i 1023 (wf_pending _ W)) as (l2 & E2 & _ & G2); [lia|by right|].
  change (current_pending (put_priority_mask _ _)) with (current_pending s) in E.
  rewrite E2 in E. cbn [res_bind] in E.
  destruct (arr_set 8 _ _ i 1023 (wf_running _ W)) as (l3 & E3 & _ & G3); [lia|by right|].
  change (running_irq (put_current_pending _ _)) with (running_irq s) in E.
  rewrite E3 in E. cbn [res_bind] in E.
  destruct (arr_set 8 _ _ i 0x100 (wf_running_priority _ W)) as (l4 & E4 & _ & G4); [lia|lia|].
  change (running_priority (put_running_irq _ _)) with (running_priority s) in E.
  rewrite E4 in E. cbn [res_bind] in E.
  destruct (arr_set 8 _ _ i false (wf_cpu_enabled _ W)) as (l5 & E5 & _ & G5); [lia|done|].
  change (cpu_enabled (put_running_priority _ _)) with (cpu_enabled s) in E.
  rewrite E5 in E. injection E as <-. unfold cpu_fresh. cbn. split.
  - rewrite G2, G3, G4, G5, Z.eqb_refl. done.
  - intros j Hj F. rewrite G2, G3, G4, G5. by destruct (Z.eqb_spec j i).
Qed.

Lemma irq_modify_cpus f irq s s' : irq_modify f irq s = Ok s' -> same_cpus s s'.
Proof. unfold irq_modify. intros E. res_inv. done. Qed.

Lemma reset_fresh s : gic_wf s ->
  exists s', arm_gic_common_reset s = Ok s' /\ gic_wf s' /\ same_config s s' /\ enabled s' = false /\
    forall cpu, 0 <= cpu < num_cpu s -> cpu_fresh s' cpu.
Proof.
  intros W. destruct (reset_safe s W) as (s' & E & W' & C). exists s'.
  split; [done|]. split; [done|]. split; [done|]. unfold arm_gic_common_reset in E.
  set (s0 := put_irq_state _ s) in E. assert (gic_wf s0) as W0.
  { apply wf_put_irq_state; [done|]. by apply arr_replicate. }
  change (num_cpu s) with (num_cpu s0). pose proof (wf_num_cpu _ W0).
  destruct (for_loop_inv (fun i t => gic_wf t /\ same_config s0 t /\ forall c, 0 <= c < i -> cpu_fresh t c)
    reset_cpu (Z.to_nat (num_cpu s0)) 0 s0) as (s1 & E1 & W1 & _ & F1).
  { split; [done|]. split; [done|]. lia. }
  { intros k t Hk (Wt & Ct & Ft). destruct (reset_cpu_spec k t Wt) as (t' & -> & Wt' & Ct' & Fk & Fo).
    { destruct Ct as (-> & _). lia. }
    exists t'. split; [done|]. split; [done|]. split; [by eapply same_config_trans|]. intros c Hc.
    destruct (Z.eq_dec c k) as [->|]; [done|]. apply Fo; [done|apply Ft; lia]. }
  cbv zeta in E. rewrite E1 in E. cbn [res_bind] in E. apply bind_Ok in E as (s2 & E2 & E).
  apply bind_Ok in E as (l & _ & E). injection E as <-. split; [done|]. intros cpu Hc.
  destruct (for_loop_inv (fun _ t => gic_wf t /\ same_cpus s1 t) (fun i s =>
    let* s := GIC_SET_ENABLED i ALL_CPU_MASK s in GIC_PUT_EDGE_TRIGGER i true s) 16 0 s1)
    as (s2' & E2' & W2 & S2); [done| |].
  { intros k t Hk [Wt St].
    destruct (set_enabled_safe k ALL_CPU_MASK t Wt ltac:(lia)) as (t1 & T1 & Wt1 & _).
    destruct (put_edge_safe k true t1 Wt1 ltac:(lia)) as (t2 & T2 & Wt2 & _). rewrite T1. cbn [res_bind].
    exists t2. split; [done|]. split; [done|]. apply irq_modify_cpus in T1, T2.
    unfold same_cpus in *. intuition congruence. }
  rewrite E2 in E2'. injection E2' as <-. destruct S2 as (A & B & D & F).
  unfold cpu_fresh. cbn. rewrite A, B, D, F. apply F1. lia.
Qed.

Lemma realize_zero ncpu nirq rev s : 1 <= ncpu -> 0 <= nirq < 2 ^ 31 ->
  arm_gic_common_realize (gic_zero ncpu nirq rev) = inr s ->
  let n := nirq + (if rev =? REV_NVIC then 32 else 0) in
  s = gic_zero ncpu n rev /\ 1 <= ncpu <= 8 /\ 32 <= n <= 1020 /\ n mod 32 = 0.
Proof.
  intros Hc Hn E n. unfold arm_gic_common_realize in E.
  change (num_cpu (gic_zero ncpu nirq rev)) with ncpu in E.
  change (num_irq (gic_zero ncpu nirq rev) + GIC_BASE_IRQ (gic_zero ncpu nirq rev)) with n in E.
  assert (u32 n = n) as En. { apply uwrap_small. unfold n. destruct (rev =? REV_NVIC); lia. }
  rewrite En in E. unfold GIC_NCPU, GIC_MAXIRQ in E.
  destruct (Z.ltb_spec 8 ncpu); [done|]. cbv zeta in E. destruct (Z.ltb_spec 1020 n); [done|].
  destruct (Z.ltb_spec n 32); [done|]. cbn [orb] in E.
  destruct (Z.eqb_spec (n mod 32) 0) as [M|]; [|done]. injection E as <-. split; [done|].
  split; [lia|]. split; [lia|done].
Qed.

(** ** Runs of a guest program *)

(** A guest access. *)
Inductive access :=
| DistWriteB (offset value : Z) | DistWriteL (offset value : Z)
| CpuRead (offset : Z) | CpuWrite (offset value : Z).

(** A sequence of accesses by CPU [c]; the values read are dropped. *)
Fixpoint run (c : Z) (l : list access) (s : GICState) : res GICState :=
  match l with
  | [] => Ok s
  | a :: l =>
      let* s :=
        match a with
        | DistWriteB o v => gic_dist_writeb c o v s
        | DistWriteL o v => gic_dist_writel c o v s
        | CpuRead o => let* (_, s) := gic_thiscpu_read c o s in Ok s
        | CpuWrite o v => gic_thiscpu_write c o v s
        end in
      run c l s
  end.

(** A reset controller of the architecture version 2 with one CPU and 64
    interrupts. *)
Definition gic_v2 : GICState :=
  match arm_gic_common_reset (gic_zero 1 64 2) with Ok s => s | Err _ => gic_zero 1 64 2 end.
Definition enable_all : list access := [DistWriteB 0 1; CpuWrite 0 1; CpuWrite 4 0xff].
Definition spendsgir0 : list access := enable_all ++ [DistWriteB 0xf20 0; CpuRead 0x0c].
Definition cycle5 : list access := enable_all ++
  [DistWriteB 0x405 0x80; DistWriteL 0xf00 0x02000005; CpuRead 0x0c;
   DistWriteB 0x405 0x10; DistWriteL 0xf00 0x02000005; CpuRead 0x0c].

(** A wait for 1023 along a cycle of [last_active] never ends. *)
Lemma unlink_self fuel : forall cpu irq tmp la,
  aget2 la tmp cpu = Ok tmp -> tmp <> 1023 -> tmp <> irq -> unlink_active fuel cpu irq tmp la = Err OutOfFuel.
Proof.
  induction fuel as [|fuel IH]; intros cpu irq tmp la E N1 N2; [done|]. cbn. rewrite E. cbn.
  rewrite (proj2 (Z.eqb_neq _ _) N1), (proj2 (Z.eqb_neq _ _) N2). by apply IH.
Qed.

(** ** Claims *)

(** C37: [gic_update] succeeds on a well-formed state, changes nothing but the
    outputs, and up to and including the first CPU whose interface is off it
    shows the highest-priority enabled pending interrupt that passes the
    priority mask (and raises the line exactly when it also beats the running
    priority).  The outputs of the CPUs after that one stay as they were. *)
Theorem gic_update_correct s :
  gic_wf s ->
  exists s', gic_update s = Ok s' /\ gic_wf s' /\ only_outputs s s' /\
    forall cpu, 0 <= cpu < num_cpu s ->
      ((forall c, 0 <= c < cpu -> active_cpu s c = true) -> shows s cpu (outputs s' cpu)) /\
      ((exists c, 0 <= c < cpu /\ active_cpu s c = false) -> outputs s' cpu = outputs s cpu).
Proof.
  intros W. pose proof (wf_num_cpu _ W).
  destruct (gic_update_from_spec (Z.to_nat (num_cpu s)) 0 s W) as (s' & E & W' & O & Hs); [lia|lia|].
  exists s'. split; [done|]. split; [done|]. split; [done|]. intros cpu Hc.
  destruct (Hs cpu ltac:(lia)) as [Ha Hb]. split; [intros; apply Ha; [lia|done]|].
  intros (c & Hc0 & A). apply Hb. right. right. by exists c.
Qed.

Lemma gic_update_correct_witness :
  exists s', gic_update (put_enabled true (gic_zero 2 64 2)) = Ok s' /\ outputs s' 0 = (Ok 1023, Ok 0).
Proof.
  destruct (gic_update_correct (put_enabled true (gic_zero 2 64 2))) as (s' & E & _ & _ & H).
  - apply wf_put_enabled, gic_zero_wf; done || lia.
  - exists s'. split; [done|]. refine (proj1 (H 0 _) _); [done|]. intros; lia.
Defined.

(** C38: accesses by the guest and the input lines stay inside the arrays.  In a
    well-formed state every access of one, two or four bytes to the distributor
    inside its region, every access to the CPU interface and every change of an
    input line (SGIs have none) succeeds and leaves a well-formed state, with these exceptions:
    a write to the software-interrupt register that names an interrupt above 15
    (which is out of bounds), reads of the acknowledge register and writes of
    the end-of-interrupt register. *)
Theorem gic_access_safe s c offset value irq level :
  gic_wf s -> 0 <= c < num_cpu s -> 0 <= offset < 0x1000 ->
  (exists v, gic_dist_readb c offset s = Ok v) /\
  (offset + 1 < 0x1000 -> exists v, gic_dist_readw c offset s = Ok v) /\
  (offset + 3 < 0x1000 -> exists v, gic_dist_readl c offset s = Ok v) /\
  safe (gic_dist_writeb c offset value s) s /\
  safe (gic_dist_writew c offset value s) s /\
  ((offset = 0xf00 -> Z.land value 0x3ff < 16) -> safe (gic_dist_writel c offset value s) s) /\
  (offset <> 0x10 -> safe (gic_cpu_write c offset value s) s) /\
  (offset <> 0x0c -> exists v, gic_cpu_read c offset s = Ok (v, s)) /\
  (0 <= irq < num_irq s - 32 \/
   num_irq s - 32 <= irq < num_irq s - 32 + 32 * num_cpu s /\ 16 <= (irq - (num_irq s - 32)) mod 32 ->
   safe (gic_set_irq irq level s) s).
Proof.
  intros W Hc Ho. pose proof (wf_num_cpu _ W) as Hn.
  assert (forall o, 0 <= o < 0x1000 -> exists v, gic_dist_readb c o s = Ok v) as Rb
    by (intros o Hr; destruct (gic_dist_readb_gives c o s W Hc Hr) as (v & E & _); by exists v).
  assert (forall o, 0 <= o -> o + 1 < 0x1000 -> exists v, gic_dist_readw c o s = Ok v) as Rw.
  { intros o H0 H1. unfold gic_dist_readw. destruct (Rb o ltac:(lia)) as [a ->]. destruct (Rb (o + 1) ltac:(lia)) as [b ->]. by eexists. }
  split; [by apply Rb|]. split; [intros; apply Rw; lia|].
  split; [intros; unfold gic_dist_readl; destruct (Rw offset ltac:(lia) ltac:(lia)) as [a ->]; destruct (Rw (offset + 2) ltac:(lia) ltac:(lia)) as [b ->]; by eexists|].
  split; [apply gic_dist_writeb_safe; done || lia|]. split; [apply gic_dist_writew_safe; done || lia|].
  split; [intros; apply gic_dist_writel_safe; done || lia|].
  split; [intros; apply gic_cpu_write_safe; done || lia|].
  split; [intros; apply gic_cpu_read_safe; done || lia|].
  intros Hi. pose proof (wf_num_irq _ W) as [Hq _]. apply gic_set_irq_safe; [done|lia|]. destruct Hi as [Hi|[_ Hi]]; [left; lia|by right].
Qed.

(** Two CPUs; the first sends itself the software interrupt 3. *)
Lemma gic_access_safe_witness : safe (gic_dist_writel 0 0xf00 0x02000003 (gic_zero 2 64 2)) (gic_zero 2 64 2).
Proof.
  destruct (gic_access_safe (gic_zero 2 64 2) 0 0xf00 0x02000003 0 1) as (_ & _ & _ & _ & _ & S & _); [|done|done|by apply S].
  apply gic_zero_wf; done || lia.
Defined.

(** A controller that [arm_gic_common_realize] accepts has a well-formed
    state after reset, with its interrupts counted from the base of its
    revision, the distributor and every CPU interface disabled, nothing running
    and nothing pending. *)
Theorem gic_boot_wf ncpu nirq rev s :
  1 <= ncpu -> 0 <= nirq < 2 ^ 31 ->
  arm_gic_common_realize (gic_zero ncpu nirq rev) = inr s ->
  num_irq s = nirq + GIC_BASE_IRQ s /\
  exists s', arm_gic_common_reset s = Ok s' /\ gic_wf s' /\ same_config s s' /\
    enabled s' = false /\ forall cpu, 0 <= cpu < num_cpu s -> cpu_fresh s' cpu.
Proof.
  intros Hc Hn E. destruct (realize_zero ncpu nirq rev s Hc Hn E) as (-> & Hc8 & Hi & M).
  split; [done|]. by apply reset_fresh, gic_zero_wf.
Qed.

Lemma gic_boot_wf_witness : exists s', arm_gic_common_reset (gic_zero 2 96 REV_NVIC) = Ok s' /\ gic_wf s'.
Proof.
  destruct (gic_boot_wf 2 64 REV_NVIC (gic_zero 2 96 REV_NVIC)) as (_ & s' & E & W & _);
    [lia|lia|vm_compute; reflexivity|exact (ex_intro _ s' (conj E W))].
Defined.

(** C39: an end of interrupt right behind the acknowledge is its inverse.  The
    state is well formed, and if the interrupt that is shown as pending is an
    SGI it has a recorded source (a guest can reach a state where it has none,
    and the acknowledge then fails an assertion).  The acknowledge returns 1023
    and changes nothing when no interrupt is pending that beats the running
    priority; otherwise the low ten bits of its result are the pending
    interrupt, which becomes the running one, and writing that number to the
    end-of-interrupt register next makes the interrupt that ran before run
    again, at its current priority. *)
Theorem gic_ack_eoi cpu s irq ri :
  gic_wf s -> 0 <= cpu < num_cpu s ->
  aget (current_pending s) cpu = Ok irq -> aget (running_irq s) cpu = Ok ri ->
  (legacy s = false -> irq < 16 -> exists sp, aget2 (sgi_pending s) irq cpu = Ok sp /\ sp <> 0) ->
  (irq = 1023 \/ cpu_field (running_priority s) cpu <= prio_of s irq cpu) /\
    gic_acknowledge_irq cpu s = Ok (1023, s) \/
  exists ret s1 s2, gic_acknowledge_irq cpu s = Ok (ret, s1) /\ gic_wf s1 /\
    Z.land ret 0x3ff = irq /\ prio_of s irq cpu < cpu_field (running_priority s) cpu /\
    aget (running_irq s1) cpu = Ok irq /\ aget (running_priority s1) cpu = Ok (prio_of s irq cpu) /\
    gic_complete_irq cpu (Z.land ret 0x3ff) s1 = Ok s2 /\ gic_wf s2 /\
    aget (running_irq s2) cpu = Ok ri /\
    aget (running_priority s2) cpu = Ok (if ri =? 1023 then 0x100 else prio_of s ri cpu).
Proof.
  intros W Hc Hp Hr Hsgi. pose proof (wf_num_cpu _ W). pose proof (wf_num_irq _ W) as [Hn _].
  destruct (arr_get _ _ _ cpu (wf_pending _ W) ltac:(lia)) as (irq' & E' & Ri). rewrite Hp in E'. injection E' as <-.
  destruct (arr_get _ _ _ cpu (wf_running _ W) ltac:(lia)) as (ri' & E' & Rr). rewrite Hr in E'. injection E' as <-.
  destruct (arr_get _ _ _ cpu (wf_running_priority _ W) ltac:(lia)) as (rp & Erp & Rrp).
  assert (cpu_field (running_priority s) cpu = rp) as ->.
  { apply aget_Ok in Erp as [_ Erp]. unfold cpu_field. by rewrite Erp. }
  unfold gic_acknowledge_irq. rewrite Hp. cbn [res_bind].
  destruct Ri as [Ri| ->]; [|by left; split; [left|]].
  destruct (Z.eqb_spec irq 1023); [lia|].
  destruct (priority_val irq cpu s W ltac:(lia) ltac:(lia)) as [-> Pr]. cbn [res_bind]. rewrite Erp. cbn [res_bind].
  destruct (Z.leb_spec rp (prio_of s irq cpu)) as [Le|Lt]; [left; split; [by right|done]|]. right.
  rewrite Hr. cbn [res_bind].
  destruct (gives_set2 _ _ _ _ irq cpu ri (wf_last_active _ W)) as (la & Ela & Hla); [lia|lia|done|].
  rewrite Ela. cbn [res_bind]. set (s0 := put_last_active la s).
  assert (gic_wf s0) as W0 by (by apply wf_put_last_active).
  destruct (ack_clear_spec cpu irq s0 W0 ltac:(lia) Ri Hsgi) as (ret & l & m & -> & Hl & Hm & Er).
  cbn [res_bind]. set (s0' := put_irq_state l _).
  assert (gic_wf s0') as W0' by (by apply wf_put_irq_state; [apply wf_put_sgi|]).
  destruct (set_running_spec cpu irq s0' W0' ltac:(lia) ltac:(by left))
    as (s1 & -> & W1 & C1 & L1 & Q1 & R1 & P1). cbn [res_bind].
  change (prio_of s0' irq cpu) with (prio_of s irq cpu) in P1.
  rewrite (proj2 (Z.eqb_neq irq 1023)) in P1 by done.
  destruct (complete_running_spec cpu irq ri s1 W1 ltac:(lia)) as (s2 & E2 & W2 & R2 & P2).
  { destruct C1 as (_ & -> & _). done. }
  { done. }
  { rewrite L1. by apply (aset2_get _ _ _ _ _ Ela). }
  exists ret, s1, s2. rewrite Er. rewrite Q1 in P2. change (prio_of s0' ri cpu) with (prio_of s ri cpu) in P2. done.
Qed.

Lemma gic_ack_eoi_witness :
  let s := put_running_priority (replicate 8 0x100) (put_running_irq (replicate 8 1023)
    (put_current_pending (replicate 8 40) (gic_zero 2 64 2))) in
  exists ret s1 s2, gic_acknowledge_irq 1 s = Ok (ret, s1) /\ gic_complete_irq 1 (Z.land ret 0x3ff) s1 = Ok s2 /\
    aget (running_irq s2) 1 = Ok 1023.
Proof.
  intros s. assert (gic_wf s) as W.
  { apply wf_put_running_priority; [apply wf_put_running; [apply wf_put_pending; [apply gic_zero_wf|]|]|].
    all: done || lia || (apply (zero_arr 8); done || lia || (left; cbn; lia) || by right). }
  destruct (gic_ack_eoi 1 s 40 1023 W) as [[[F|F] _]|(ret & s1 & s2 & E1 & _ & _ & _ & _ & _ & E2 & _ & R & _)].
  - done.
  - reflexivity.
  - reflexivity.
  - intros _ F. lia.
  - done.
  - by destruct F.
  - by exists ret, s1, s2.
Defined.

(** The software-interrupt register takes its interrupt number from ten
    bits of the value written, but only 16 software-generated interrupts have
    a pending record: a write that names any other interrupt for a CPU accesses
    [sgi_pending] out of bounds. *)
Theorem sgir_out_of_bounds c value s :
  gic_wf s -> 0 <= c < num_cpu s -> 16 <= Z.land value 0x3ff -> Z.land (Z.shiftr value 24) 3 = 2 ->
  gic_dist_writel c 0xf00 value s = Err OutOfBounds.
Proof.
  intros W Hc Hv Hf. pose proof (wf_num_cpu _ W).
  unfold gic_dist_writel. rewrite Z.eqb_refl. cbv zeta. rewrite Hf.
  set (cpu := gic_get_current_cpu c s).
  assert (0 <= cpu < 8) as Hcpu by (unfold cpu, gic_get_current_cpu; destruct (_ <? _); lia).
  clearbody cpu. pose proof (land_low value 10 0x3ff eq_refl ltac:(lia)) as Hr. set (irq := Z.land value 0x3ff) in *.
  assert (forall m, arr 16 (arr 8 byte_ok) m -> sgi_targets 8 cpu irq (Z.shiftl 1 cpu) m = Err OutOfBounds) as T.
  { intros m [Lm _]. cbn [sgi_targets]. assert ((ctz32 (Z.shiftl 1 cpu) <? GIC_NCPU) = true) as ->.
    { apply Z.ltb_lt.
      assert (cpu = 0 \/ cpu = 1 \/ cpu = 2 \/ cpu = 3 \/ cpu = 4 \/ cpu = 5 \/ cpu = 6 \/ cpu = 7) by lia.
      destruct_or!; by subst. }
    unfold aget2, aget. destruct (Z.ltb_spec irq 0); [done|]. rewrite lookup_ge_None_2 by lia. done. }
  destruct (Z.ltb_spec irq 1020) as [Hi|Hi].
  - destruct (set_pending_safe irq (Z.shiftl 1 cpu) s W ltac:(lia)) as (s1 & -> & W1 & _). cbn [res_bind].
    rewrite (T _ (wf_sgi _ W1)). done.
  - unfold GIC_SET_PENDING, irq_modify, aget. destruct (Z.ltb_spec irq 0); [done|].
    pose proof (wf_irq_state _ W) as [L _]. rewrite lookup_ge_None_2 by lia. done.
Qed.

Lemma sgir_out_of_bounds_witness : gic_dist_writel 0 0xf00 0x02000010 (gic_zero 2 64 2) = Err OutOfBounds.
Proof. apply sgir_out_of_bounds; [apply gic_zero_wf; done || lia|done|done|done]. Defined.

(** A guest can stop the emulator by an assertion: after a write of 0 to
    the set-pending register of SGI 0 the interrupt is pending without a source,
    and the acknowledge asserts that there is one. *)
Theorem spendsgir_aborts : run 0 spendsgir0 gic_v2 = Err AssertFailed.
Proof. vm_compute. reflexivity. Qed.

(** A guest can make the end-of-interrupt loop run forever: an interrupt
    acknowledged again while it runs, at a higher priority, becomes its own
    predecessor in [last_active], and a write of another number to the
    end-of-interrupt register then searches the chain without an end. *)
Theorem eoi_can_loop_forever :
  exists s, run 0 cycle5 gic_v2 = Ok s /\ aget (running_irq s) 0 = Ok 5 /\
    forall fuel, unlink_active fuel 0 6 5 (last_active s) = Err OutOfFuel.
Proof.
  destruct (run 0 cycle5 gic_v2) as [s|] eqn:E; [|by vm_compute in E]. exists s. split; [done|].
  assert (res_map (fun s => (aget (running_irq s) 0, aget2 (last_active s) 5 0)) (run 0 cycle5 gic_v2) =
    Ok (Ok 5, Ok 5)) as F by (vm_compute; reflexivity).
  rewrite E in F. injection F as F1 F2. split; [done|]. intros fuel. by apply unlink_self.
Qed.
