(* ===== verification/Ftintc020.v ===== *)
(** * The Faraday FTINTC020 interrupt controller

    [hw/arm/ftintc020.c]: 64 input lines, each routed to an IRQ and to an FIQ
    bank with its own trigger mode (edge or level), polarity, enable and source
    bits; the two output lines are high when an enabled source bit is set.
    Accesses are 32-bit and aligned ([mmio_ops]). *)

From stdpp Require Import base list numbers sets.
From S2P Require Import Prelude.

Module Ftintc020.

Record Ftintc020State : Type := mkState {
  irq : Z; fiq : Z; irq_ps : list Z; fiq_ps : list Z; regs : list Z
}.

Definition REG_IRQ32SRC : Z := 0x00.
Definition REG_IRQ32ENA : Z := 0x04.
Definition REG_IRQ32SCR : Z := 0x08.
Definition REG_IRQ32MDR : Z := 0x0C.
Definition REG_IRQ32SR : Z := 0x14.
Definition REG_FIQ32SRC : Z := 0x20.
Definition REG_FIQ32ENA : Z := 0x24.
Definition REG_FIQ32SCR : Z := 0x28.
Definition REG_FIQ32MDR : Z := 0x2C.
Definition REG_FIQ32SR : Z := 0x34.
Definition REG_IRQ64SRC : Z := 0x60.
Definition REG_IRQ64ENA : Z := 0x64.
Definition REG_IRQ64SCR : Z := 0x68.
Definition REG_IRQ64MDR : Z := 0x6C.
Definition REG_IRQ64SR : Z := 0x74.
Definition REG_FIQ64SRC : Z := 0x80.
Definition REG_FIQ64ENA : Z := 0x84.
Definition REG_FIQ64SCR : Z := 0x88.
Definition REG_FIQ64MDR : Z := 0x8C.
Definition REG_FIQ64SR : Z := 0x94.
Definition REG_SRC : Z := 0x00.
Definition REG_ENA : Z := 0x04.
Definition REG_MDR : Z := 0x0C.
Definition REG_LVR : Z := 0x10.
Definition REG_MASK : Z := 0x1f.
Definition REG_IRQ (n : Z) : Z := if n <? 32 then REG_IRQ32SRC else REG_IRQ64SRC.
Definition REG_FIQ (n : Z) : Z := if n <? 32 then REG_FIQ32SRC else REG_FIQ64SRC.

Definition put_regs (r : list Z) (s : Ftintc020State) : Ftintc020State :=
  mkState (irq s) (fiq s) (irq_ps s) (fiq_ps s) r.

Definition PIC_REG32 (s : Ftintc020State) (off : Z) : res Z := aget (regs s) (off / 4).
(** [PIC_REG32(s, off) = v] *)
Definition set_reg (s : Ftintc020State) (off v : Z) : res Ftintc020State :=
  let* r := aset (regs s) (off / 4) v in Ok (put_regs r s).

(** [IRQ_REG32] and [FIQ_REG32]: [bank] is [REG_IRQ] or [REG_FIQ]. *)
Definition bank_off (bank : Z -> Z) (n off : Z) : Z := bank n + Z.land off REG_MASK.

Definition ftintc020_update_irq (s : Ftintc020State) : res Ftintc020State :=
  let* s32 := PIC_REG32 s REG_FIQ32SRC in let* e32 := PIC_REG32 s REG_FIQ32ENA in
  let* s64 := PIC_REG32 s REG_FIQ64SRC in let* e64 := PIC_REG32 s REG_FIQ64ENA in
  let f := b2z (negb (Z.land s32 e32 =? 0) || negb (Z.land s64 e64 =? 0)) in
  let* s32 := PIC_REG32 s REG_IRQ32SRC in let* e32 := PIC_REG32 s REG_IRQ32ENA in
  let* s64 := PIC_REG32 s REG_IRQ64SRC in let* e64 := PIC_REG32 s REG_IRQ64ENA in
  let i := b2z (negb (Z.land s32 e32 =? 0) || negb (Z.land s64 e64 =? 0)) in
  Ok (mkState i f (irq_ps s) (fiq_ps s) (regs s)).

(** The update of the source bit in one bank; [ps] is the pin state word. *)
Definition update_source (bank : Z -> Z) (n mask level ps : Z) (s : Ftintc020State) : res Ftintc020State :=
  let* mdr := PIC_REG32 s (bank_off bank n REG_MDR) in
  let* lvr := PIC_REG32 s (bank_off bank n REG_LVR) in
  let* src := PIC_REG32 s (bank_off bank n REG_SRC) in
  let set := set_reg s (bank_off bank n REG_SRC) (Z.lor src mask) in
  let clear := set_reg s (bank_off bank n REG_SRC) (Z.land src (u32 (Z.lnot mask))) in
  if negb (Z.land mdr mask =? 0) then
    if negb (Z.land lvr mask =? 0) then
      if negb (Z.land ps mask =? 0) && (level =? 0) then set else Ok s
    else
      if (Z.land ps mask =? 0) && negb (level =? 0) then set else Ok s
  else
    if negb (Z.land lvr mask =? 0) then if negb (level =? 0) then clear else set
    else if negb (level =? 0) then set else clear.

Definition ftintc020_set_irq (n level : Z) (s : Ftintc020State) : res Ftintc020State :=
  let i := n / 32 in
  let mask := Z.shiftl 1 (Z.land n 0x1f) in
  if (0 <=? n) && (n <=? 63) then
    let* ips := aget (irq_ps s) i in
    let* s := update_source REG_IRQ n mask level ips s in
    let* fps := aget (fiq_ps s) i in
    let* s := update_source REG_FIQ n mask level fps s in
    let upd ps := if negb (level =? 0) then Z.lor ps mask else Z.land ps (u32 (Z.lnot mask)) in
    let* ips := aset (irq_ps s) i (upd ips) in
    let* fps := aset (fiq_ps s) i (upd fps) in
    ftintc020_update_irq (mkState (irq s) (fiq s) ips fps (regs s))
  else Err AssertFailed.

Definition ftintc020_mem_read (addr : Z) (s : Ftintc020State) : res Z :=
  let status src ena := let* a := PIC_REG32 s src in let* b := PIC_REG32 s ena in Ok (Z.land a b) in
  if REG_FIQ64SR <? addr then Ok 0
  else if addr =? REG_IRQ32SR then status REG_IRQ32SRC REG_IRQ32ENA
  else if addr =? REG_IRQ64SR then status REG_IRQ64SRC REG_IRQ64ENA
  else if addr =? REG_FIQ32SR then status REG_FIQ32SRC REG_FIQ32ENA
  else if addr =? REG_FIQ64SR then status REG_FIQ64SRC REG_FIQ64ENA
  else aget (regs s) (addr / 4).

Definition ftintc020_mem_write (addr value : Z) (s : Ftintc020State) : res Ftintc020State :=
  let clear mdr src :=
    let* m := PIC_REG32 s mdr in
    let value := u64 (Z.lnot (Z.land value m)) in
    let* v := PIC_REG32 s src in set_reg s src (Z.land v (u32 value)) in
  if REG_FIQ64SR <? addr then Ok s else
  let* s :=
    if addr =? REG_IRQ32SCR then clear REG_IRQ32MDR REG_IRQ32SRC
    else if addr =? REG_IRQ64SCR then clear REG_IRQ64MDR REG_IRQ64SRC
    else if addr =? REG_FIQ32SCR then clear REG_FIQ32MDR REG_FIQ32SRC
    else if addr =? REG_FIQ64SCR then clear REG_FIQ64MDR REG_FIQ64SRC
    else let* r := aset (regs s) (addr / 4) (u32 value) in Ok (put_regs r s) in
  ftintc020_update_irq s.

Definition ftintc020_reset (s : Ftintc020State) : res Ftintc020State :=
  ftintc020_update_irq (mkState (irq s) (fiq s) [0; 0] [0; 0] (replicate 64 0)).

(** ** What the registers mean *)

Record wf (s : Ftintc020State) : Prop := {
  wf_irq_ps : arr 2 (fun z => 0 <= z < 2 ^ 32) (irq_ps s);
  wf_fiq_ps : arr 2 (fun z => 0 <= z < 2 ^ 32) (fiq_ps s);
  wf_regs : arr 64 (fun z => 0 <= z < 2 ^ 32) (regs s)
}.

Definition word (l : list Z) (i : Z) : Z := default 0 (l !! Z.to_nat i).

(** Bit [n] of the register at [off] in a bank. *)
Definition reg_bit (s : Ftintc020State) (bank : Z -> Z) (off n : Z) : bool :=
  Z.testbit (word (regs s) ((bank n + off) / 4)) (n mod 32).
Definition pin_bit (ps : list Z) (n : Z) : bool := Z.testbit (word ps (n / 32)) (n mod 32).

(** Some enabled source bit of the bank is set. *)
Definition asserted (s : Ftintc020State) (bank : Z -> Z) : Prop :=
  exists n, 0 <= n < 64 /\ reg_bit s bank REG_SRC n = true /\ reg_bit s bank REG_ENA n = true.

Definition outputs_ok (s : Ftintc020State) : Prop :=
  (irq s = 0 \/ irq s = 1) /\ (fiq s = 0 \/ fiq s = 1) /\
  (irq s = 1 <-> asserted s REG_IRQ) /\ (fiq s = 1 <-> asserted s REG_FIQ).

(** The source bit of a line when its pin goes from [pin] to [level]. *)
Definition next_source (edge low pin level src : bool) : bool :=
  if edge then src || (if low then pin && negb level else negb pin && level)
  else xorb level low.
(** ** Facts *)

Lemma word_get l n P i : arr n P l -> 0 <= i < n -> aget l i = Ok (word l i) /\ P (word l i).
Proof.
  intros H Hi. destruct (arr_get n P l i H Hi) as (x & E & Hx). rewrite E.
  apply aget_Ok in E as [_ E]. unfold word. by rewrite E.
Qed.

Lemma word_set l n P i x : arr n P l -> 0 <= i < n -> P x ->
  exists l', aset l i x = Ok l' /\ arr n P l' /\ forall j, 0 <= j -> word l' j = if j =? i then x else word l j.
Proof.
  intros H Hi Hx. destruct (arr_set n P l i x H Hi Hx) as (l' & E & A & G). exists l'. split; [done|]. split; [done|].
  intros j Hj. pose proof (G j) as Gj. unfold word. unfold aget in Gj. destruct (Z.ltb_spec j 0); [lia|].
  destruct (Z.eqb_spec j i), (l' !! Z.to_nat j), (l !! Z.to_nat j); cbn; congruence.
Qed.

Lemma reg_get s off : wf s -> 0 <= off < 256 -> PIC_REG32 s off = Ok (word (regs s) (off / 4)) /\
  0 <= word (regs s) (off / 4) < 2 ^ 32.
Proof. intros W Ho. apply (word_get _ 64 _ _ (wf_regs s W)). dlia. Qed.

Lemma land_bit x k : 0 <= k -> (Z.land x (Z.shiftl 1 k) =? 0) = negb (Z.testbit x k).
Proof.
  intros Hk. destruct (Z.testbit x k) eqn:T; cbn [negb].
  - apply Z.eqb_neq. intros E. assert (Z.testbit (Z.land x (Z.shiftl 1 k)) k = false) as F by (rewrite E; apply Z.testbit_0_l).
    rewrite Z.land_spec, shiftl1_testbit, Z.eqb_refl, T in F by done. done.
  - apply Z.eqb_eq. zbits. destruct (Z.eqb_spec i k) as [->|]; [by rewrite T|apply andb_false_r].
Qed.

Lemma land_nonzero a b : 0 <= a < 2 ^ 32 ->
  negb (Z.land a b =? 0) = true <-> exists k, 0 <= k < 32 /\ Z.testbit a k = true /\ Z.testbit b k = true.
Proof.
  intros Ha. rewrite negb_true_iff, Z.eqb_neq. split.
  - intros N. assert (0 <= Z.land a b < 2 ^ 32) as R by (apply land_range; lia).
    pose proof (Z.bit_log2 (Z.land a b) ltac:(lia)) as T. pose proof (Z.log2_nonneg (Z.land a b)).
    assert (Z.log2 (Z.land a b) < 32) by (apply Z.log2_lt_pow2; lia).
    rewrite Z.land_spec in T. apply andb_true_iff in T. by exists (Z.log2 (Z.land a b)).
  - intros (k & Hk & T1 & T2) E. assert (Z.testbit (Z.land a b) k = false) as F by (rewrite E; apply Z.testbit_0_l).
    rewrite Z.land_spec, T1, T2 in F. done.
Qed.

(** A bank: the registers of lines 0 - 31 at [lo], those of 32 - 63 at [hi]. *)
Definition bank_at (bank : Z -> Z) (lo hi : Z) : Prop := forall n, bank n = if n <? 32 then lo else hi.

Lemma asserted_spec s bank lo hi : wf s -> bank_at bank lo hi ->
  0 <= lo < 192 -> 0 <= hi < 192 -> lo mod 4 = 0 -> hi mod 4 = 0 ->
  (negb (Z.land (word (regs s) (lo / 4)) (word (regs s) ((lo + REG_ENA) / 4)) =? 0)
   || negb (Z.land (word (regs s) (hi / 4)) (word (regs s) ((hi + REG_ENA) / 4)) =? 0)) = true <-> asserted s bank.
Proof.
  intros W B Hlo Hhi Mlo Mhi. rewrite orb_true_iff.
  rewrite !land_nonzero by (apply (word_get _ 64 _ _ (wf_regs s W)); dlia).
  unfold asserted, reg_bit, REG_SRC. split.
  - intros [(k & Hk & T)|(k & Hk & T)].
    + exists k. split; [lia|]. rewrite B, Z.add_0_r. destruct (Z.ltb_spec k 32); [|lia].
      by rewrite Z.mod_small by lia.
    + exists (k + 32). split; [lia|]. rewrite B, Z.add_0_r. destruct (Z.ltb_spec (k + 32) 32); [lia|].
      replace ((k + 32) mod 32) with k by dlia. done.
  - intros (n & Hn & T). rewrite B, Z.add_0_r in T. destruct (Z.ltb_spec n 32); [left|right]; exists (n mod 32).
    all: split; [dlia|done].
Qed.

Lemma update_irq_spec s : wf s -> exists s', ftintc020_update_irq s = Ok s' /\ wf s' /\ outputs_ok s' /\
  regs s' = regs s /\ irq_ps s' = irq_ps s /\ fiq_ps s' = fiq_ps s.
Proof.
  intros W. unfold ftintc020_update_irq.
  rewrite !(fun off H => proj1 (reg_get s off W H)) by done. cbn [res_bind]. eexists. split; [done|].
  split; [by destruct W; split|]. split; [|done].
  assert (forall b, b2z b = 0 \/ b2z b = 1) as Hb by (intros []; auto).
  assert (forall b, b2z b = 1 <-> b = true) as Hb1 by (intros []; done).
  split; [apply Hb|]. split; [apply Hb|]. cbn [irq fiq]. rewrite !Hb1.
  split; [apply (asserted_spec s REG_IRQ REG_IRQ32SRC REG_IRQ64SRC)|apply (asserted_spec s REG_FIQ REG_FIQ32SRC REG_FIQ64SRC)];
    done.
Qed.

(** [c] only changes bit [k] of register word [i], to [b]. *)
Definition bit_update (s : Ftintc020State) (i k : Z) (b : bool) (c : res Ftintc020State) : Prop :=
  exists r, c = Ok (put_regs r s) /\ arr 64 (fun z => 0 <= z < 2 ^ 32) r /\
    (forall j, 0 <= j -> j <> i -> word r j = word (regs s) j) /\
    (forall m, 0 <= m < 32 -> Z.testbit (word r i) m = if m =? k then b else Z.testbit (word (regs s) i) m).

Lemma bit_update_put s off k b v : wf s -> 0 <= off < 256 -> 0 <= v < 2 ^ 32 ->
  (forall m, 0 <= m < 32 -> Z.testbit v m = if m =? k then b else Z.testbit (word (regs s) (off / 4)) m) ->
  bit_update s (off / 4) k b (set_reg s off v).
Proof.
  intros W Ho Rv Hv. unfold set_reg.
  destruct (word_set _ 64 _ (off / 4) v (wf_regs s W)) as (r & -> & A & G); [dlia|done|]. cbn [res_bind].
  exists r. split; [done|]. split; [done|].
  split; [intros j Hj Nj; rewrite G by done; by rewrite (proj2 (Z.eqb_neq _ _) Nj)|].
  intros m Hm. rewrite G, Z.eqb_refl by dlia. by apply Hv.
Qed.

Lemma bit_update_set s off k : wf s -> 0 <= off < 256 -> 0 <= k < 32 ->
  bit_update s (off / 4) k true (set_reg s off (Z.lor (word (regs s) (off / 4)) (Z.shiftl 1 k))).
Proof.
  intros W Ho Hk. apply bit_update_put; [done|done| |].
  - apply lor_range; [lia|by apply (reg_get s off W)|]. rewrite Z.shiftl_1_l. split; [lia|]. apply Z.pow_lt_mono_r; lia.
  - intros m Hm. rewrite Z.lor_spec, shiftl1_testbit by lia. destruct (m =? k); [apply orb_true_r|apply orb_false_r].
Qed.

Lemma bit_update_clear s off k : wf s -> 0 <= off < 256 -> 0 <= k < 32 ->
  bit_update s (off / 4) k false (set_reg s off (Z.land (word (regs s) (off / 4)) (u32 (Z.lnot (Z.shiftl 1 k))))).
Proof.
  intros W Ho Hk. apply bit_update_put; [done|done|apply land_range; [lia|by apply (reg_get s off W)]|].
  intros m Hm. rewrite Z.land_spec, uwrap_testbit, Z.lnot_spec, shiftl1_testbit by lia.
  destruct (Z.ltb_spec m 32); [|lia]. destruct (m =? k); [apply andb_false_r|apply andb_true_r].
Qed.

Lemma bit_update_keep s i k : wf s -> bit_update s i k (Z.testbit (word (regs s) i) k) (Ok s).
Proof.
  intros W. exists (regs s). split; [by destruct s|]. split; [apply (wf_regs s W)|]. split; [done|].
  intros m Hm. by destruct (Z.eqb_spec m k) as [->|].
Qed.

(** The new source word of one bank. *)
Lemma update_source_spec s bank lo hi n level ps : wf s -> bank_at bank lo hi ->
  0 <= lo < 192 -> 0 <= hi < 192 -> 0 <= n < 64 ->
  bit_update s (bank n / 4) (n mod 32)
    (next_source (reg_bit s bank REG_MDR n) (reg_bit s bank REG_LVR n) (Z.testbit ps (n mod 32))
       (negb (level =? 0)) (reg_bit s bank REG_SRC n))
    (update_source bank n (Z.shiftl 1 (n mod 32)) level ps s).
Proof.
  intros W B Hlo Hhi Hn. unfold update_source, bank_off.
  assert (0 <= bank n < 192) as Rb by (rewrite B; destruct (_ <? _); lia). assert (0 <= n mod 32 < 32) as Rm by dlia.
  change (Z.land REG_MDR REG_MASK) with REG_MDR. change (Z.land REG_LVR REG_MASK) with REG_LVR.
  change (Z.land REG_SRC REG_MASK) with 0. rewrite Z.add_0_r.
  rewrite !(fun off H => proj1 (reg_get s off W H)) by (unfold REG_MDR, REG_LVR; lia). cbn [res_bind]. cbv zeta.
  rewrite !land_bit by lia. rewrite !negb_involutive.
  change (Z.testbit (word (regs s) ((bank n + REG_MDR) / 4)) (n mod 32)) with (reg_bit s bank REG_MDR n).
  change (Z.testbit (word (regs s) ((bank n + REG_LVR) / 4)) (n mod 32)) with (reg_bit s bank REG_LVR n).
  assert (reg_bit s bank REG_SRC n = Z.testbit (word (regs s) (bank n / 4)) (n mod 32)) as ->
    by (unfold reg_bit, REG_SRC; by rewrite Z.add_0_r).
  pose proof (bit_update_set s (bank n) (n mod 32) W ltac:(lia) Rm) as Set_.
  pose proof (bit_update_clear s (bank n) (n mod 32) W ltac:(lia) Rm) as Clear.
  pose proof (bit_update_keep s (bank n / 4) (n mod 32) W) as Keep. unfold next_source.
  destruct (reg_bit s bank REG_MDR n), (reg_bit s bank REG_LVR n), (Z.testbit ps (n mod 32)), (level =? 0);
    cbn [negb andb orb xorb]; rewrite ?orb_true_r, ?orb_false_r; done.
Qed.

(** The effect of [bit_update] on the register bits of both banks. *)
Lemma reg_bit_update s s' bank lo hi n b c : wf s -> bank_at bank lo hi -> 0 <= n < 64 ->
  bit_update s (bank n / 4) (n mod 32) b c -> c = Ok s' ->
  wf s' /\ irq_ps s' = irq_ps s /\ fiq_ps s' = fiq_ps s /\
  forall bank' off m, 0 <= m < 64 -> 0 <= (bank' m + off) / 4 ->
    reg_bit s' bank' off m =
    if ((bank' m + off) / 4 =? bank n / 4) && (m mod 32 =? n mod 32) then b else reg_bit s bank' off m.
Proof.
  intros W B Hn (r & E & A & O & T) Ec. rewrite Ec in E. injection E as ->.
  split; [destruct W; by split|]. split; [done|]. split; [done|]. intros bank' off m Hm Hp. unfold reg_bit. cbn [regs put_regs].
  destruct (Z.eqb_spec ((bank' m + off) / 4) (bank n / 4)) as [->|Ne]; cbn [andb]; [apply T; dlia|by rewrite O].
Qed.
(** The two banks. *)
Definition bank_of (fast : bool) : Z -> Z := if fast then REG_FIQ else REG_IRQ.
Definition pins (s : Ftintc020State) (fast : bool) : list Z := if fast then fiq_ps s else irq_ps s.

Lemma bank_layout fast : exists lo hi, bank_at (bank_of fast) lo hi /\ 0 <= lo < 192 /\ 0 <= hi < 192.
Proof.
  destruct fast; [exists REG_FIQ32SRC, REG_FIQ64SRC|exists REG_IRQ32SRC, REG_IRQ64SRC]; done.
Qed.

(** Source words are shared neither between the banks nor with the other registers. *)
Lemma same_word fast fast' n m off : 0 <= n < 64 -> 0 <= m < 64 -> off ∈ [REG_SRC; REG_ENA; REG_MDR; REG_LVR] ->
  ((bank_of fast' m + off) / 4 =? bank_of fast n / 4) && (m mod 32 =? n mod 32) =
  bool_decide (fast' = fast) && (off =? 0) && (m =? n).
Proof.
  intros Hn Hm Ho. unfold REG_SRC, REG_ENA, REG_MDR, REG_LVR in Ho.
  assert (off = 0 \/ off = 4 \/ off = 12 \/ off = 16) as Ho' by (set_unfold; lia).
  unfold bank_of, REG_IRQ, REG_FIQ, REG_IRQ32SRC, REG_IRQ64SRC, REG_FIQ32SRC, REG_FIQ64SRC.
  destruct Ho' as [->|[->|[->| ->]]], fast, fast', (Z.ltb_spec n 32), (Z.ltb_spec m 32); cbn;
    rewrite ?andb_true_r, ?andb_false_r; try done.
  all: destruct (Z.eqb_spec m n) as [->|]; rewrite ?Z.eqb_refl; try done; try lia.
  all: apply Z.eqb_neq; dlia.
Qed.

Lemma bank_update s fast n level ps : wf s -> 0 <= n < 64 ->
  exists s', update_source (bank_of fast) n (Z.shiftl 1 (n mod 32)) level ps s = Ok s' /\ wf s' /\
    irq_ps s' = irq_ps s /\ fiq_ps s' = fiq_ps s /\
    forall fast' off m, 0 <= m < 64 -> off ∈ [REG_SRC; REG_ENA; REG_MDR; REG_LVR] ->
      reg_bit s' (bank_of fast') off m =
      if bool_decide (fast' = fast) && (off =? 0) && (m =? n)
      then next_source (reg_bit s (bank_of fast) REG_MDR n) (reg_bit s (bank_of fast) REG_LVR n)
             (Z.testbit ps (n mod 32)) (negb (level =? 0)) (reg_bit s (bank_of fast) REG_SRC n)
      else reg_bit s (bank_of fast') off m.
Proof.
  intros W Hn. destruct (bank_layout fast) as (lo & hi & B & Hlo & Hhi).
  pose proof (update_source_spec s (bank_of fast) lo hi n level ps W B Hlo Hhi Hn) as U.
  pose proof U as (r & E & _). exists (put_regs r s). split; [done|].
  destruct (reg_bit_update s (put_regs r s) (bank_of fast) lo hi n _ _ W B Hn U E) as (W' & P1 & P2 & R).
  split; [done|]. split; [done|]. split; [done|]. intros fast' off m Hm Ho. rewrite <- (same_word fast fast' n m off Hn Hm Ho).
  apply R; [done|]. destruct (bank_layout fast') as (lo' & hi' & B' & Hlo' & Hhi'). rewrite B'.
  assert (0 <= off) by (unfold REG_SRC, REG_ENA, REG_MDR, REG_LVR in Ho; set_unfold; lia).
  destruct (_ <? _); dlia.
Qed.

(** The pin word after a change of line [n]. *)
Lemma pin_update ps n level : arr 2 (fun z => 0 <= z < 2 ^ 32) ps -> 0 <= n < 64 ->
  exists w ps', aget ps (n / 32) = Ok w /\ Z.testbit w (n mod 32) = pin_bit ps n /\
    aset ps (n / 32) (if negb (level =? 0) then Z.lor w (Z.shiftl 1 (n mod 32))
                      else Z.land w (u32 (Z.lnot (Z.shiftl 1 (n mod 32))))) = Ok ps' /\
    arr 2 (fun z => 0 <= z < 2 ^ 32) ps' /\
    forall m, 0 <= m < 64 -> pin_bit ps' m = if m =? n then negb (level =? 0) else pin_bit ps m.
Proof.
  intros A Hn. destruct (word_get ps 2 _ (n / 32) A) as [E R]; [dlia|]. assert (0 <= n mod 32 < 32) as Rm by dlia.
  set (v := if negb (level =? 0) then Z.lor (word ps (n / 32)) (Z.shiftl 1 (n mod 32))
            else Z.land (word ps (n / 32)) (u32 (Z.lnot (Z.shiftl 1 (n mod 32))))).
  assert (0 <= v < 2 ^ 32) as Rv.
  { unfold v. destruct (negb _); [|by apply land_range; [lia|]]. apply lor_range; [lia|done|].
    rewrite Z.shiftl_1_l. split; [lia|]. apply Z.pow_lt_mono_r; lia. }
  destruct (word_set ps 2 _ (n / 32) v A ltac:(dlia) Rv) as (ps' & Es & A' & G).
  exists (word ps (n / 32)), ps'. split; [done|]. split; [done|]. split; [done|]. split; [done|].
  intros m Hm. unfold pin_bit. rewrite G by dlia. destruct (Z.eqb_spec (m / 32) (n / 32)) as [Ew|Nw].
  - assert ((m =? n) = (m mod 32 =? n mod 32)) as -> by (destruct (Z.eqb_spec m n), (Z.eqb_spec (m mod 32) (n mod 32)); try done; dlia).
    unfold v. rewrite Ew. destruct (negb (level =? 0)).
    + rewrite Z.lor_spec, shiftl1_testbit by lia. destruct (m mod 32 =? n mod 32); [apply orb_true_r|apply orb_false_r].
    + rewrite Z.land_spec, uwrap_testbit, Z.lnot_spec, shiftl1_testbit by dlia.
      destruct (Z.ltb_spec (m mod 32) 32); [|dlia]. destruct (m mod 32 =? n mod 32); [apply andb_false_r|apply andb_true_r].
  - destruct (Z.eqb_spec m n); [congruence|done].
Qed.

(** A change of input line [n] updates, in the IRQ and in the FIQ bank,
    exactly the source bit of that line as its trigger mode and polarity say
    (an edge sets it and a level copies it), records the pin state, leaves the
    enable, mode and polarity registers alone, and leaves the two output lines
    high exactly when some enabled source bit of their bank is set.  A line
    number outside 0 - 63 stops the emulator. *)
Theorem ftintc020_set_irq_correct s n level :
  wf s ->
  if (0 <=? n) && (n <=? 63) then
    exists s', ftintc020_set_irq n level s = Ok s' /\ wf s' /\ outputs_ok s' /\
      forall fast m, 0 <= m < 64 ->
        reg_bit s' (bank_of fast) REG_SRC m =
          (if m =? n then next_source (reg_bit s (bank_of fast) REG_MDR n) (reg_bit s (bank_of fast) REG_LVR n)
                            (pin_bit (pins s fast) n) (negb (level =? 0)) (reg_bit s (bank_of fast) REG_SRC n)
           else reg_bit s (bank_of fast) REG_SRC m) /\
        pin_bit (pins s' fast) m = (if m =? n then negb (level =? 0) else pin_bit (pins s fast) m) /\
        forall off, off ∈ [REG_ENA; REG_MDR; REG_LVR] -> reg_bit s' (bank_of fast) off m = reg_bit s (bank_of fast) off m
  else ftintc020_set_irq n level s = Err AssertFailed.
Proof.
  intros W. unfold ftintc020_set_irq. destruct ((0 <=? n) && (n <=? 63)) eqn:C; [|done].
  assert (0 <= n < 64) as Hn by lia. change 0x1f with (Z.ones 5). rewrite Z.land_ones by lia. change (2 ^ 5) with 32.
  destruct (pin_update (irq_ps s) n level (wf_irq_ps s W) Hn) as (wi & pi & -> & Ti & Ei & Ai & Gi). cbn [res_bind].
  destruct (bank_update s false n level wi W Hn) as (s1 & E1 & W1 & I1 & F1 & R1).
  change (bank_of false) with REG_IRQ in E1. rewrite E1. cbn [res_bind]. rewrite F1.
  destruct (pin_update (fiq_ps s) n level (wf_fiq_ps s W) Hn) as (wf_ & pf & -> & Tf & Ef & Af & Gf). cbn [res_bind].
  destruct (bank_update s1 true n level wf_ W1 Hn) as (s2 & E2 & W2 & I2 & F2 & R2).
  change (bank_of true) with REG_FIQ in E2. rewrite E2. cbn [res_bind]. cbv zeta. rewrite I2, F2, I1, F1, Ei, Ef.
  cbn [res_bind]. set (s3 := mkState _ _ _ _ _).
  assert (wf s3) as W3 by (split; [done|done|apply (wf_regs s2 W2)]).
  destruct (update_irq_spec s3 W3) as (s4 & -> & W4 & O4 & Rg & Pi & Pf). exists s4.
  split; [done|]. split; [done|]. split; [done|]. intros fast m Hm.
  assert (forall off, off ∈ [REG_SRC; REG_ENA; REG_MDR; REG_LVR] ->
    reg_bit s4 (bank_of fast) off m = reg_bit s2 (bank_of fast) off m) as R4
    by (intros; unfold reg_bit; by rewrite Rg).
  assert (forall off, off ∈ [REG_ENA; REG_MDR; REG_LVR] -> (off =? 0) = false /\ off ∈ [REG_SRC; REG_ENA; REG_MDR; REG_LVR]) as Off
    by (intros off Ho; split; [unfold REG_ENA, REG_MDR, REG_LVR in Ho; set_unfold; lia|by constructor]).
  split; [|split].
  - rewrite R4, R2, !R1 by (done || by repeat constructor).
    destruct fast; cbn [pins]; rewrite <- ?Ti, <- ?Tf; cbn;
      by destruct (m =? n).
  - destruct fast; cbn [pins]; [rewrite Pf; by apply Gf|rewrite Pi; by apply Gi].
  - intros off Ho. destruct (Off off Ho) as [Z0 In]. rewrite R4, R2, Z0, andb_false_r by done. cbn [andb].
    by rewrite R1, Z0, andb_false_r by done.
Qed.

Lemma ftintc020_witness :
  let s := mkState 0 0 [0; 0] [0; 0] (<[1%nat := 0x20]> (replicate 64 0)) in
  exists s', ftintc020_set_irq 5 1 s = Ok s' /\ reg_bit s' REG_IRQ REG_SRC 5 = true.
Proof.
  intros s. assert (wf s) as W.
  { split; (split; [done|]).
    - by repeat (constructor; [lia|]).
    - by repeat (constructor; [lia|]).
    - apply Forall_insert; [apply Forall_replicate; lia|lia]. }
  destruct (ftintc020_set_irq_correct s 5 1 W) as (s' & E & _ & _ & H). exists s'. split; [done|].
  exact (proj1 (H false 5 ltac:(lia))).
Defined.
End Ftintc020.
