(* ===== verification/QemuTimer.v ===== *)
(** * Timer lists ([qemu-timer.c])

    A timer list keeps its pending timers in a linked list ordered by expiry
    time.  [timer_mod_ns] enters a timer, [timer_del] takes it out,
    [timerlist_run_timers] removes the expired timers one after the other and
    calls their callbacks, which may change the list.

    A timer is a number; [expire_time] is the field of its struct, [-1] when it
    is not pending.  A callback acts on the list and on the state [W] of the
    devices.  The locks and the notification of the event loop are not part of
    the state; the return value that asks for the notification is. *)

From stdpp Require Import base list gmap numbers sorting.
From S2P Require Import Prelude.

Record QEMUTimerList : Type := mkTL {
  enabled : bool; active_timers : list Z; expire_times : gmap Z Z
}.

(** [ts->expire_time]; [timer_init] sets it to [-1]. *)
Definition expire_time (tl : QEMUTimerList) (ts : Z) : Z := default (-1) (expire_times tl !! ts).
Definition set_expire (tl : QEMUTimerList) (ts t : Z) : QEMUTimerList :=
  mkTL (enabled tl) (active_timers tl) (<[ts := t]> (expire_times tl)).
Definition set_active (tl : QEMUTimerList) (l : list Z) : QEMUTimerList :=
  mkTL (enabled tl) l (expire_times tl).

(** The head of a list and its expiry, as [timer_expired_ns] tests it. *)
Definition timer_expired_ns (tl : QEMUTimerList) (head : option Z) (current_time : Z) : bool :=
  match head with Some t => expire_time tl t <=? current_time | None => false end.

Definition timerlist_has_timers (tl : QEMUTimerList) : bool :=
  match active_timers tl with [] => false | _ => true end.

Definition timerlist_expired (tl : QEMUTimerList) (now : Z) : bool :=
  match active_timers tl with [] => false | t :: _ => expire_time tl t <? now end.

Definition timerlist_deadline_ns (tl : QEMUTimerList) (now : Z) : Z :=
  if negb (enabled tl) then -1 else
  match active_timers tl with
  | [] => -1
  | t :: _ => let delta := s64 (expire_time tl t - now) in if delta <=? 0 then 0 else delta
  end.

Definition SCALE_MS : Z := 1000000.
Definition qemu_timeout_ns_to_ms (ns : Z) : Z :=
  if ns <? 0 then -1 else if ns =? 0 then 0 else
  let ms := Z.quot (s64 (ns + SCALE_MS - 1)) SCALE_MS in
  if 2 ^ 31 - 1 <? ms then 2 ^ 31 - 1 else ms.

(** [((uint64_t) timeout1 < (uint64_t) timeout2) ? timeout1 : timeout2] *)
Definition qemu_soonest_timeout (timeout1 timeout2 : Z) : Z :=
  if u64 timeout1 <? u64 timeout2 then timeout1 else timeout2.

(** The soonest deadline of the lists of a clock. *)
Definition qemu_clock_deadline_ns_all (lists : list QEMUTimerList) (now : Z) : Z :=
  fold_left (fun deadline tl => qemu_soonest_timeout deadline (timerlist_deadline_ns tl now)) lists (-1).

Fixpoint remove_first (ts : Z) (l : list Z) : list Z :=
  match l with [] => [] | t :: l => if t =? ts then l else t :: remove_first ts l end.

Definition timer_del_locked (tl : QEMUTimerList) (ts : Z) : QEMUTimerList :=
  let tl := set_expire tl ts (-1) in set_active tl (remove_first ts (active_timers tl)).

(** The walk along [next]; [true] when the timer became the head. *)
Fixpoint insert_before (tl : QEMUTimerList) (ts expire : Z) (l : list Z) : list Z :=
  if timer_expired_ns tl (head l) expire
  then match l with [] => [ts] | t :: l => t :: insert_before tl ts expire l end
  else ts :: l.

Definition timer_mod_ns_locked (tl : QEMUTimerList) (ts expire : Z) : QEMUTimerList * bool :=
  let l := insert_before tl ts expire (active_timers tl) in
  let rearm := negb (timer_expired_ns tl (head (active_timers tl)) expire) in
  (set_active (set_expire tl ts (Z.max expire 0)) l, rearm).

Definition timer_del (tl : QEMUTimerList) (ts : Z) : QEMUTimerList := timer_del_locked tl ts.

Definition timer_mod_ns (tl : QEMUTimerList) (ts expire : Z) : QEMUTimerList * bool :=
  timer_mod_ns_locked (timer_del_locked tl ts) ts expire.

Definition timer_mod_anticipate_ns (tl : QEMUTimerList) (ts expire : Z) : QEMUTimerList * bool :=
  if (expire_time tl ts =? -1) || (expire <? expire_time tl ts) then
    let tl := if negb (expire_time tl ts =? -1) then timer_del_locked tl ts else tl in
    timer_mod_ns_locked tl ts expire
  else (tl, false).

Definition timer_mod (tl : QEMUTimerList) (scale ts expire : Z) : QEMUTimerList * bool :=
  timer_mod_ns tl ts (s64 (expire * scale)).
Definition timer_mod_anticipate (tl : QEMUTimerList) (scale ts expire : Z) : QEMUTimerList * bool :=
  timer_mod_anticipate_ns tl ts (s64 (expire * scale)).

Definition timer_pending (tl : QEMUTimerList) (ts : Z) : bool := 0 <=? expire_time tl ts.
Definition timer_expire_time_ns (tl : QEMUTimerList) (ts : Z) : Z :=
  u64 (if timer_pending tl ts then expire_time tl ts else -1).

(** The loop of [timerlist_run_timers] at [current_time]; [cb] runs the
    callback of a timer.  The result has the callbacks run, in order. *)
Fixpoint run_loop {W} (fuel : nat) (cb : Z -> QEMUTimerList * W -> QEMUTimerList * W)
    (current_time : Z) (tl : QEMUTimerList) (w : W) : res (QEMUTimerList * W * list Z) :=
  match fuel with
  | O => Err OutOfFuel
  | S fuel =>
      if negb (timer_expired_ns tl (head (active_timers tl)) current_time) then Ok (tl, w, []) else
      match active_timers tl with
      | [] => Ok (tl, w, [])
      | ts :: next =>
          let tl := set_expire (set_active tl next) ts (-1) in
          let (tl, w) := cb ts (tl, w) in
          let* (tl, w, ran) := run_loop fuel cb current_time tl w in
          Ok (tl, w, ts :: ran)
      end
  end.

Definition timerlist_run_timers {W} (fuel : nat) (cb : Z -> QEMUTimerList * W -> QEMUTimerList * W)
    (current_time : Z) (tl : QEMUTimerList) (w : W) : res (QEMUTimerList * W * list Z * bool) :=
  if negb (enabled tl) then Ok (tl, w, [], false) else
  let* (tl, w, ran) := run_loop fuel cb current_time tl w in
  Ok (tl, w, ran, match ran with [] => false | _ => true end).

(** ** The invariant *)

(** The pending timers are in the list once, in order of expiry; the others
    have [-1]. *)
Record timers_ok (tl : QEMUTimerList) : Prop := {
  ok_nodup : NoDup (active_timers tl);
  ok_sorted : StronglySorted Z.le (expire_time tl <$> active_timers tl);
  ok_pending : forall ts, ts ∈ active_timers tl -> 0 <= expire_time tl ts;
  ok_idle : forall ts, ts ∉ active_timers tl -> expire_time tl ts = -1
}.

Lemma pending_active tl ts : timers_ok tl -> timer_pending tl ts = true <-> ts ∈ active_timers tl.
Proof.
  intros H. unfold timer_pending. rewrite Z.leb_le. split.
  - intros Hp. destruct (decide (ts ∈ active_timers tl)); [done|]. rewrite (ok_idle _ H ts) in Hp by done. lia.
  - apply (ok_pending _ H).
Qed.

Lemma expire_set tl ts t x : expire_time (set_expire tl ts t) x = if x =? ts then t else expire_time tl x.
Proof.
  unfold expire_time. cbn. destruct (Z.eqb_spec x ts) as [->|].
  - by rewrite lookup_insert_eq.
  - by rewrite lookup_insert_ne.
Qed.

Lemma remove_first_elem ts l x : NoDup l -> x ∈ remove_first ts l <-> x ∈ l /\ x <> ts.
Proof.
  induction 1 as [|t l Hn Hd IH]; cbn; [set_solver|].
  destruct (Z.eqb_spec t ts) as [->|]; [set_solver|]. rewrite !elem_of_cons, IH. set_solver.
Qed.

Lemma remove_first_idle ts l : ts ∉ l -> remove_first ts l = l.
Proof.
  induction l as [|t l IH]; intros H; cbn; [done|].
  destruct (Z.eqb_spec t ts) as [->|]; [set_solver|]. rewrite IH; [done|set_solver].
Qed.

(** The order only depends on the expiry of the timers in the list. *)
Lemma sorted_ext (f g : Z -> Z) l : (forall x, x ∈ l -> f x = g x) ->
  StronglySorted Z.le (f <$> l) -> StronglySorted Z.le (g <$> l).
Proof.
  intros E. assert (f <$> l = g <$> l) as ->; [|done].
  induction l as [|x l IH]; [done|]. rewrite !fmap_cons, IH, E by set_solver. done.
Qed.

Lemma remove_first_sublist ts l : remove_first ts l `sublist_of` l.
Proof.
  induction l as [|t l IH]; cbn; [done|]. destruct (t =? ts); [by apply sublist_cons|by apply sublist_skip].
Qed.

Lemma StronglySorted_sublist {A} (R : A -> A -> Prop) l l' :
  l' `sublist_of` l -> StronglySorted R l -> StronglySorted R l'.
Proof.
  induction 1 as [|x l' l S IH|x l' l S IH]; intros Hs; [done| |].
  - inversion Hs as [|?? Hs' Hf]; subst. constructor; [by apply IH|].
    rewrite Forall_forall in *. intros y Hy. apply Hf. eapply elem_of_submseteq; [exact Hy|by apply sublist_submseteq].
  - inversion Hs; subst. by apply IH.
Qed.

(** ** Entering and removing timers *)

Lemma timer_del_spec tl ts : timers_ok tl ->
  timers_ok (timer_del tl ts) /\
  (forall x, expire_time (timer_del tl ts) x = if x =? ts then -1 else expire_time tl x) /\
  active_timers (timer_del tl ts) = remove_first ts (active_timers tl).
Proof.
  intros [Hd Hs Hp Hi]. unfold timer_del, timer_del_locked.
  assert (forall x, expire_time (set_active (set_expire tl ts (-1)) (remove_first ts (active_timers tl))) x =
    if x =? ts then -1 else expire_time tl x) as E by (intros; apply expire_set).
  split; [|done]. split; cbn [active_timers set_active set_expire].
  - eapply sublist_NoDup; [exact Hd|apply remove_first_sublist].
  - apply (sorted_ext (expire_time tl)).
    + intros x Hx. rewrite E. apply remove_first_elem in Hx as [_ N]; [|done].
      by destruct (Z.eqb_spec x ts).
    + eapply StronglySorted_sublist; [|exact Hs]. apply fmap_sublist, remove_first_sublist.
  - intros x Hx. rewrite E. apply remove_first_elem in Hx as [Hx N]; [|done].
    destruct (Z.eqb_spec x ts); [done|by apply Hp].
  - intros x Hx. rewrite E. destruct (Z.eqb_spec x ts); [done|]. apply Hi. intros Hx'. apply Hx.
    by apply remove_first_elem.
Qed.

Section Insert.
Context (tl : QEMUTimerList) (ts expire : Z).

(** The timer goes behind the timers that do not expire later. *)
Lemma insert_before_split l : StronglySorted Z.le (expire_time tl <$> l) ->
  exists l1 l2, l = l1 ++ l2 /\ insert_before tl ts expire l = l1 ++ ts :: l2 /\
    (forall x, x ∈ l1 -> expire_time tl x <= expire) /\ (forall x, x ∈ l2 -> expire < expire_time tl x).
Proof.
  induction l as [|t l IH]; intros Hs; [exists [], []; split_and!; done || set_solver|].
  rewrite fmap_cons in Hs. inversion Hs as [|?? Hs' Hf]; subst. cbn [insert_before head timer_expired_ns].
  destruct (Z.leb_spec (expire_time tl t) expire) as [Hle|Hgt].
  - destruct (IH Hs') as (l1 & l2 & -> & -> & H1 & H2). exists (t :: l1), l2.
    split; [done|]. split; [done|]. split; [|done]. intros x Hx. apply elem_of_cons in Hx as [->|Hx]; [done|by apply H1].
  - exists [], (t :: l). split; [done|]. split; [done|]. split; [by intros x Hx%elem_of_nil|].
    intros x Hx. apply elem_of_cons in Hx as [->|Hx]; [done|].
    rewrite Forall_fmap, Forall_forall in Hf. specialize (Hf x Hx). cbn in Hf. lia.
Qed.
End Insert.

Lemma sorted_app (f : Z -> Z) l1 t l2 : StronglySorted Z.le (f <$> l1 ++ l2) ->
  (forall x, x ∈ l1 -> f x <= f t) -> (forall x, x ∈ l2 -> f t <= f x) ->
  StronglySorted Z.le (f <$> l1 ++ t :: l2).
Proof.
  induction l1 as [|a l1 IH]; intros Hs H1 H2.
  - cbn [app] in *. rewrite fmap_cons. constructor; [done|]. rewrite Forall_fmap, Forall_forall. done.
  - cbn [app] in *. rewrite fmap_cons in *. inversion Hs as [|?? Hs' Hf]; subst. constructor.
    + apply IH; [done| |done]. intros; apply H1; set_solver.
    + rewrite Forall_fmap, Forall_forall in *. intros x Hx. cbn in *.
      apply elem_of_app in Hx as [Hx|Hx]; [apply Hf; set_solver|].
      apply elem_of_cons in Hx as [->|Hx]; [apply H1; set_solver|apply Hf; set_solver].
Qed.

(** Entering a timer that is not pending. *)
Lemma timer_mod_locked_spec tl ts expire : timers_ok tl -> ts ∉ active_timers tl ->
  let tl' := (timer_mod_ns_locked tl ts expire).1 in
  timers_ok tl' /\
  (forall x, expire_time tl' x = if x =? ts then Z.max expire 0 else expire_time tl x) /\
  exists l1 l2, active_timers tl = l1 ++ l2 /\ active_timers tl' = l1 ++ ts :: l2 /\
    (forall x, x ∈ l1 -> expire_time tl x <= expire) /\ (forall x, x ∈ l2 -> expire < expire_time tl x) /\
    ((timer_mod_ns_locked tl ts expire).2 = true <-> head (active_timers tl') = Some ts).
Proof.
  intros [Hd Hs Hp Hi] Hn tl'. destruct (insert_before_split tl ts expire _ Hs) as (l1 & l2 & El & Ei & H1 & H2).
  assert (forall x, expire_time tl' x = if x =? ts then Z.max expire 0 else expire_time tl x) as E
    by (intros; apply expire_set).
  assert (active_timers tl' = l1 ++ ts :: l2) as Ea by done.
  assert (forall x, x ∈ l1 ++ l2 -> expire_time tl' x = expire_time tl x) as Eo.
  { intros x Hx. rewrite E. destruct (Z.eqb_spec x ts) as [->|]; [|done]. by rewrite <- El in Hx. }
  assert (expire_time tl' ts = Z.max expire 0) as Et by (by rewrite E, Z.eqb_refl).
  rewrite El in *. split; [split; rewrite Ea|split; [done|]].
  - rewrite <- Permutation_middle. by constructor.
  - apply sorted_app; [eapply sorted_ext; [|exact Hs]; intros; symmetry; by apply Eo| |];
      intros x Hx; rewrite Et, Eo by set_solver.
    + pose proof (H1 x Hx). lia.
    + pose proof (H2 x Hx). pose proof (Hp x ltac:(set_solver)). lia.
  - intros x Hx. rewrite E. destruct (Z.eqb_spec x ts); [lia|]. apply Hp. set_solver.
  - intros x Hx. rewrite E. destruct (Z.eqb_spec x ts) as [->|]; [set_solver|]. apply Hi. set_solver.
  - exists l1, l2. split; [done|]. split; [done|]. split; [done|]. split; [done|].
    cbn [timer_mod_ns_locked snd]. rewrite El, Ea. destruct l1 as [|a l1]; cbn [app head].
    + split; [done|]. intros _. destruct l2 as [|b l2]; [done|]. cbn.
      pose proof (H2 b ltac:(set_solver)). lia.
    + cbn. pose proof (H1 a ltac:(set_solver)). rewrite (proj2 (Z.leb_le _ _)) by done.
      split; [done|]. intros [= ->]. set_solver.
Qed.

Lemma timer_mod_spec tl ts expire : timers_ok tl ->
  let tl' := (timer_mod_ns tl ts expire).1 in
  timers_ok tl' /\
  (forall x, expire_time tl' x = if x =? ts then Z.max expire 0 else expire_time tl x) /\
  exists l1 l2, remove_first ts (active_timers tl) = l1 ++ l2 /\ active_timers tl' = l1 ++ ts :: l2 /\
    (forall x, x ∈ l1 -> expire_time tl x <= expire) /\ (forall x, x ∈ l2 -> expire < expire_time tl x) /\
    ((timer_mod_ns tl ts expire).2 = true <-> head (active_timers tl') = Some ts).
Proof.
  intros Hok. destruct (timer_del_spec tl ts Hok) as (H1 & H2 & H3). unfold timer_mod_ns. fold (timer_del tl ts).
  assert (forall x, x ∈ remove_first ts (active_timers tl) -> x <> ts) as Hne.
  { intros x Hx. apply remove_first_elem in Hx as [_ ?]; [done|]. apply Hok. }
  destruct (timer_mod_locked_spec (timer_del tl ts) ts expire H1) as (K1 & K2 & l1 & l2 & K3 & K4 & K5 & K6 & K7).
  { rewrite H3. intros Hx. by apply Hne in Hx. }
  split; [done|]. split; [intros x; rewrite K2, H2; by destruct (x =? ts)|].
  rewrite H3 in K3. exists l1, l2. split; [done|]. split; [done|].
  assert (forall x, x ∈ l1 ++ l2 -> expire_time (timer_del tl ts) x = expire_time tl x) as Eo.
  { intros x Hx. rewrite H2. destruct (Z.eqb_spec x ts) as [->|]; [|done]. rewrite <- K3 in Hx. by apply Hne in Hx. }
  split; [|split; [|done]]; intros x Hx; rewrite <- Eo by set_solver; [by apply K5|by apply K6].
Qed.

(** ** Running the expired timers *)

Definition expired (tl : QEMUTimerList) (now : Z) : list Z :=
  filter (fun x => expire_time tl x <= now) (active_timers tl).

(** [tl'] has no timer that expires by [now] but those of [tl]: timers may have
    been removed, or moved or entered to a time after [now]. *)
Definition only_later (now : Z) (tl tl' : QEMUTimerList) : Prop :=
  timers_ok tl -> timers_ok tl' /\
  forall x, 0 <= expire_time tl' x <= now -> expire_time tl' x = expire_time tl x.

#[export] Instance only_later_preorder now : PreOrder (only_later now).
Proof.
  split; [by intros tl H|]. intros tl1 tl2 tl3 H12 H23 H1. destruct (H12 H1) as [H2 E2]. destruct (H23 H2) as [H3 E3].
  split; [done|]. intros x Hx. rewrite E3 in * by done. by apply E2.
Qed.

Lemma timer_del_later now tl ts : only_later now tl (timer_del tl ts).
Proof.
  intros H. destruct (timer_del_spec tl ts H) as (K1 & K2 & _). split; [done|]. intros x. rewrite K2.
  destruct (Z.eqb_spec x ts); [lia|done].
Qed.

Lemma timer_mod_later now tl ts expire : now < expire -> only_later now tl (timer_mod_ns tl ts expire).1.
Proof.
  intros He H. destruct (timer_mod_spec tl ts expire H) as (K1 & K2 & _). split; [done|]. intros x. rewrite K2.
  destruct (Z.eqb_spec x ts); [lia|done].
Qed.

(** What a callback run at [now], with the devices in a state of [I], may do:
    remove timers, also expired ones, and enter timers for later. *)
Class TimerCallback {W} (cb : Z -> QEMUTimerList * W -> QEMUTimerList * W) (I : W -> Prop) (now : Z) : Prop := {
  cb_later ts tl w : I w -> only_later now tl (cb ts (tl, w)).1;
  cb_inv ts tl w : I w -> I (cb ts (tl, w)).2
}.

Lemma expired_elem tl now x : timers_ok tl -> x ∈ expired tl now <-> 0 <= expire_time tl x <= now.
Proof.
  intros H. unfold expired. rewrite list_elem_of_filter, <- (pending_active tl x H).
  unfold timer_pending. rewrite Z.leb_le. lia.
Qed.

Lemma expired_NoDup tl now : timers_ok tl -> NoDup (expired tl now).
Proof. intros H. apply NoDup_filter, H. Qed.

Lemma head_soonest tl ts next : timers_ok tl -> active_timers tl = ts :: next ->
  forall x, x ∈ ts :: next -> expire_time tl ts <= expire_time tl x.
Proof.
  intros H E x Hx. pose proof (ok_sorted _ H) as Hs. rewrite E, fmap_cons in Hs.
  inversion Hs as [|?? _ Hf]; subst. apply elem_of_cons in Hx as [->|Hx]; [lia|].
  rewrite Forall_fmap, Forall_forall in Hf. by apply Hf.
Qed.

(** The head is due exactly when some timer is. *)
Lemma head_expired tl now : timers_ok tl ->
  timer_expired_ns tl (head (active_timers tl)) now = true <-> expired tl now <> [].
Proof.
  intros H. pose proof (head_soonest tl) as Hh. unfold expired.
  destruct (active_timers tl) as [|ts next] eqn:E; [done|]. cbn [head timer_expired_ns]. rewrite Z.leb_le. split.
  - intros Hle. rewrite filter_cons_True by done. done.
  - intros Hn. destruct (filter _ (ts :: next)) as [|x l] eqn:Ef; [done|].
    assert (x ∈ filter (fun x => expire_time tl x <= now) (ts :: next)) as Hx by (rewrite Ef; by left).
    apply list_elem_of_filter in Hx as [Hx Hx']. pose proof (Hh ts next H eq_refl x Hx'). lia.
Qed.

Section Run.
Context {W : Type} (cb : Z -> QEMUTimerList * W -> QEMUTimerList * W) (I : W -> Prop) (now : Z) `{!TimerCallback cb I now}.

(** A callback changed the time of [x] while it was still [t]. *)
Definition changed_by (ran : list Z) (x t : Z) : Prop :=
  exists ts tl w, ts ∈ ran /\ timers_ok tl /\ I w /\ expire_time tl x = t /\ expire_time (cb ts (tl, w)).1 x <> t.

Lemma run_loop_spec fuel : forall tl w, timers_ok tl -> I w -> (length (expired tl now) < fuel)%nat ->
  exists tl' w' ran, run_loop fuel cb now tl w = Ok (tl', w', ran) /\ timers_ok tl' /\ I w' /\
    expired tl' now = [] /\ NoDup ran /\ ran ⊆ expired tl now /\ StronglySorted Z.le (expire_time tl <$> ran) /\
    (expired tl now <> [] -> ran <> []) /\
    forall x, x ∈ expired tl now -> x ∈ ran \/ changed_by ran x (expire_time tl x).
Proof.
  induction fuel as [|fuel IH]; intros tl w H Hw Hf; [lia|]. cbn [run_loop].
  pose proof (head_expired tl now H) as Hh. pose proof (head_soonest tl) as Hm.
  destruct (timer_expired_ns tl (head (active_timers tl)) now) eqn:Eh; cbn [negb].
  2: { exists tl, w, []. destruct (expired tl now) eqn:Ee; [|discriminate (proj2 Hh ltac:(done))].
       split_and!; try done; [constructor|constructor|]. by intros x Hx%elem_of_nil. }
  destruct (active_timers tl) as [|ts next] eqn:Ea; [done|].
  assert (ts ∈ expired tl now) as Hts.
  { apply expired_elem; [done|]. split; [apply (ok_pending _ H); rewrite Ea; by left|]. cbn in Eh. lia. }
  set (tl1 := set_expire (set_active tl next) ts (-1)).
  assert (tl1 = timer_del tl ts) as E1
    by (unfold tl1, timer_del, timer_del_locked, set_expire, set_active; cbn; rewrite Ea; cbn; by rewrite Z.eqb_refl).
  destruct (timer_del_spec tl ts H) as (K1 & K2 & _). rewrite <- E1 in K1, K2.
  pose proof (cb_later ts tl1 w Hw K1) as [O2 L2]. pose proof (cb_inv ts tl1 w Hw) as I2.
  destruct (cb ts (tl1, w)) as [tl2 w2] eqn:E2. cbn [fst snd] in *.
  assert (forall x, x ∈ expired tl2 now -> x ∈ expired tl now /\ x <> ts /\ expire_time tl2 x = expire_time tl x) as Sub.
  { intros x. rewrite !expired_elem by done. intros Hx. pose proof (L2 x Hx) as Ex. rewrite K2 in Ex.
    destruct (Z.eqb_spec x ts); [lia|]. split; [lia|done]. }
  assert (length (expired tl2 now) < length (expired tl now))%nat as Hlt.
  { assert (ts :: expired tl2 now ⊆+ expired tl now) as S%submseteq_length; [|cbn in S; lia].
    apply NoDup_submseteq; [constructor; [|by apply expired_NoDup]|].
    - intros Hx. by destruct (Sub ts Hx) as (_ & [] & _).
    - intros x [->|Hx]%elem_of_cons; [done|by apply Sub]. }
  destruct (IH tl2 w2 O2 I2 ltac:(lia)) as (tl' & w' & ran & -> & O' & I' & X' & N' & S' & T' & _ & C').
  cbn [res_bind]. exists tl', w', (ts :: ran). split; [done|]. split; [done|]. split; [done|]. split; [done|].
  split; [constructor; [intros Hx%S'%Sub; tauto|done]|].
  split; [intros x [->|Hx]%elem_of_cons; [done|by apply S', Sub in Hx as [? _]]|].
  split; [|split; [done|]].
  - rewrite fmap_cons. constructor.
    + apply (sorted_ext (expire_time tl2)); [|done]. intros x Hx. by apply S', Sub in Hx as (_ & _ & ?).
    + rewrite Forall_fmap, Forall_forall. intros x Hx. cbn. apply (Hm ts next H eq_refl).
      apply S', Sub in Hx as [Hx _]. unfold expired in Hx. apply list_elem_of_filter in Hx as [_ Hx]. by rewrite Ea in Hx.
  - intros x Hx. destruct (decide (x = ts)) as [->|N]; [left; by left|].
    assert (expire_time tl1 x = expire_time tl x) as Ex by (rewrite K2; by destruct (Z.eqb_spec x ts)).
    destruct (decide (expire_time tl2 x = expire_time tl x)) as [Ek|Nk].
    + destruct (C' x) as [Hr|(ts' & tl'' & w'' & Hr & Z)]; [|left; by right|].
      * apply expired_elem; [done|]. rewrite Ek. by apply expired_elem.
      * right. exists ts', tl'', w''. rewrite <- Ek. split; [by right|done].
    + right. exists ts, tl1, w. rewrite E2. split; [by left|done].
Qed.
End Run.

(** The time to the first timer, or [-1]. *)
Lemma timeout_ms_spec t : -1 <= t < 2 ^ 63 -> t < 2 ^ 63 - SCALE_MS -> let ms := qemu_timeout_ns_to_ms t in
  if t =? -1 then ms = -1
  else 0 <= ms < 2 ^ 31 /\ (ms = 2 ^ 31 - 1 \/ t <= ms * SCALE_MS) /\ ms * SCALE_MS < t + SCALE_MS.
Proof.
  intros Ht Hs. cbv zeta. unfold qemu_timeout_ns_to_ms, SCALE_MS in *. destruct (Z.eqb_spec t (-1)) as [->|]; [done|].
  rewrite swrap_small by lia. rewrite Z.quot_div_nonneg by lia.
  pose proof (Z.div_mod (t + 1000000 - 1) 1000000 ltac:(lia)).
  pose proof (Z.mod_pos_bound (t + 1000000 - 1) 1000000 ltac:(lia)).
  zcases; lia.
Qed.

Lemma deadline_spec tl now : timers_ok tl -> enabled tl = true -> 0 <= now < 2 ^ 63 ->
  (forall x, expire_time tl x < 2 ^ 63) ->
  (active_timers tl = [] -> timerlist_deadline_ns tl now = -1) /\
  (forall ts, ts ∈ active_timers tl -> 0 <= timerlist_deadline_ns tl now <= Z.max 0 (expire_time tl ts - now)) /\
  (active_timers tl <> [] -> exists ts, ts ∈ active_timers tl /\
     timerlist_deadline_ns tl now = Z.max 0 (expire_time tl ts - now)).
Proof.
  intros H En Hn Hb. unfold timerlist_deadline_ns. rewrite En. cbn [negb].
  pose proof (head_soonest tl) as Hm. pose proof (ok_pending _ H) as Hp.
  destruct (active_timers tl) as [|t l] eqn:E.
  - split; [done|]. split; [intros ts Hts; by apply elem_of_nil in Hts|done].
  - pose proof (Hp t ltac:(by left)). pose proof (Hb t).
    cbv zeta. rewrite swrap_small by lia. split; [done|]. split.
    + intros ts Hts. pose proof (Hm t l H eq_refl ts Hts). zcases; lia.
    + intros _. exists t. split; [by left|]. zcases; lia.
Qed.

Lemma anticipate_spec tl ts expire : timers_ok tl ->
  let tl' := (timer_mod_anticipate_ns tl ts expire).1 in
  timers_ok tl' /\
  (forall x, expire_time tl' x = if x =? ts then
     if timer_pending tl ts then Z.min (expire_time tl ts) (Z.max expire 0) else Z.max expire 0
   else expire_time tl x).
Proof.
  intros H. unfold timer_mod_anticipate_ns. pose proof (pending_active tl ts H) as Hp. unfold timer_pending in *.
  destruct (Z.leb_spec 0 (expire_time tl ts)) as [Hpos|Hneg].
  - destruct (Z.eqb_spec (expire_time tl ts) (-1)); [lia|]. cbn [orb negb].
    destruct (Z.ltb_spec expire (expire_time tl ts)); cbv zeta.
    + destruct (timer_mod_spec tl ts expire H) as (K1 & K2 & _). split; [done|]. intros x.
      unfold timer_mod_ns in K2. rewrite K2. destruct (Z.eqb_spec x ts); [lia|done].
    + cbn [fst]. split; [done|]. intros x. destruct (Z.eqb_spec x ts) as [->|]; [lia|done].
  - assert (ts ∉ active_timers tl) as Hn by (intros Hx; by apply Hp in Hx).
    rewrite (ok_idle _ H ts Hn). cbn [Z.eqb Pos.eqb orb negb]. cbv zeta.
    destruct (timer_mod_locked_spec tl ts expire H Hn) as (K1 & K2 & _). done.
Qed.

(** A callback that arms its own timer for the time the loop runs at, while
    the devices satisfy [I]. *)
Lemma run_loop_storm {W} (cb : Z -> QEMUTimerList * W -> QEMUTimerList * W) (I : W -> Prop) now ts fuel :
  (forall tl w, timers_ok tl -> active_timers tl = [] -> I w -> let '(tl', w') := cb ts (tl, w) in
     timers_ok tl' /\ active_timers tl' = [ts] /\ expire_time tl' ts <= now /\ I w') ->
  forall tl w, timers_ok tl -> active_timers tl = [ts] -> expire_time tl ts <= now -> I w ->
  run_loop fuel cb now tl w = Err OutOfFuel.
Proof.
  intros Hcb. induction fuel as [|fuel IH]; intros tl w H Ea Ee Hw; [done|]. cbn [run_loop].
  rewrite Ea. cbn [head timer_expired_ns]. rewrite (proj2 (Z.leb_le _ _) Ee). cbn [negb].
  set (tl1 := set_expire (set_active tl []) ts (-1)).
  assert (tl1 = timer_del tl ts) as E1
    by (unfold tl1, timer_del, timer_del_locked, set_expire, set_active; cbn; rewrite Ea; cbn; by rewrite Z.eqb_refl).
  destruct (timer_del_spec tl ts H) as (K1 & _ & _). rewrite <- E1 in K1.
  pose proof (Hcb tl1 w K1 eq_refl Hw) as C. destruct (cb ts (tl1, w)) as [tl2 w2].
  destruct C as (C1 & C2 & C3 & C4). by rewrite (IH tl2 w2).
Qed.

(** ** Claims *)

(** C28: the timer list is a priority queue.  Entering a timer makes it pending
    at its time (negative times count as zero), removing it makes it idle, the
    anticipating variant keeps an earlier pending time; no operation changes
    another timer, the list stays sorted without duplicates, timers of equal
    time stay in the order in which they were entered, and a notification is
    asked for exactly when the timer became the first. *)
Theorem timer_queue_correct tl ts expire : timers_ok tl ->
  (let tl' := (timer_mod_ns tl ts expire).1 in
   timers_ok tl' /\
   (forall x, expire_time tl' x = if x =? ts then Z.max expire 0 else expire_time tl x) /\
   (exists l1 l2, remove_first ts (active_timers tl) = l1 ++ l2 /\ active_timers tl' = l1 ++ ts :: l2 /\
      (forall x, x ∈ l1 -> expire_time tl x <= expire) /\ (forall x, x ∈ l2 -> expire < expire_time tl x)) /\
   ((timer_mod_ns tl ts expire).2 = true <-> head (active_timers tl') = Some ts)) /\
  (let tl' := timer_del tl ts in
   timers_ok tl' /\ (forall x, expire_time tl' x = if x =? ts then -1 else expire_time tl x) /\
   active_timers tl' = remove_first ts (active_timers tl)) /\
  (let tl' := (timer_mod_anticipate_ns tl ts expire).1 in
   timers_ok tl' /\
   forall x, expire_time tl' x = if x =? ts then
     if timer_pending tl ts then Z.min (expire_time tl ts) (Z.max expire 0) else Z.max expire 0
   else expire_time tl x).
Proof.
  intros H. split; [|split; [by apply timer_del_spec|by apply anticipate_spec]].
  destruct (timer_mod_spec tl ts expire H) as (K1 & K2 & l1 & l2 & K3 & K4 & K5 & K6 & K7).
  split; [done|]. split; [done|]. split; [by exists l1, l2|done].
Qed.

(** C29: no expired timer is forgotten.  The callbacks may remove timers, also
    expired ones, and enter timers, also their own, for a time after the one the
    loop runs at ([TimerCallback]).  Then [timerlist_run_timers] ends, and
    leaves the list well formed with no expired timer.  The timers that ran had
    expired; each ran once, in the order of expiry, and a timer that had expired
    and did not run was removed or moved by a callback that ran.  Progress is
    reported exactly when a timer had expired. *)
Theorem run_timers_correct {W} (cb : Z -> QEMUTimerList * W -> QEMUTimerList * W) (I : W -> Prop) now tl w :
  TimerCallback cb I now -> timers_ok tl -> I w -> enabled tl = true ->
  exists tl' w' ran,
    timerlist_run_timers (S (length (expired tl now))) cb now tl w =
      Ok (tl', w', ran, match expired tl now with [] => false | _ => true end) /\
    timers_ok tl' /\ I w' /\ expired tl' now = [] /\
    NoDup ran /\ ran ⊆ expired tl now /\ StronglySorted Z.le (expire_time tl <$> ran) /\
    forall x, x ∈ expired tl now -> x ∈ ran \/ changed_by cb I ran x (expire_time tl x).
Proof.
  intros Hcb H Hw En. unfold timerlist_run_timers. rewrite En. cbn [negb].
  destruct (run_loop_spec cb I now (S (length (expired tl now))) tl w H Hw ltac:(lia))
    as (tl' & w' & ran & -> & O & I' & X & N & S & T & P & C). cbn [res_bind].
  exists tl', w', ran. split; [|done]. do 2 f_equal. destruct ran as [|x ran]; destruct (expired tl now); try done.
  - by destruct (P ltac:(done)).
  - by specialize (S x ltac:(by left)) as ?%elem_of_nil.
Qed.

(** The deadline handed to the event loop is the time to the first
    pending timer (0 when it is overdue, -1 when there is none), the soonest of
    two deadlines treats -1 as infinite, and a deadline in milliseconds is
    rounded up, so that the loop does not wake up before it, and saturates at
    [INT32_MAX]. *)
Theorem timer_deadline_correct tl now t1 t2 :
  timers_ok tl -> enabled tl = true -> 0 <= now < 2 ^ 63 -> (forall x, expire_time tl x < 2 ^ 63) ->
  -1 <= t1 < 2 ^ 63 -> -1 <= t2 < 2 ^ 63 ->
  (active_timers tl = [] -> timerlist_deadline_ns tl now = -1) /\
  (forall ts, ts ∈ active_timers tl -> 0 <= timerlist_deadline_ns tl now <= Z.max 0 (expire_time tl ts - now)) /\
  (active_timers tl <> [] -> exists ts, ts ∈ active_timers tl /\
     timerlist_deadline_ns tl now = Z.max 0 (expire_time tl ts - now)) /\
  qemu_soonest_timeout t1 t2 =
    (if t1 =? -1 then t2 else if t2 =? -1 then t1 else Z.min t1 t2) /\
  (t1 < 2 ^ 63 - SCALE_MS -> let ms := qemu_timeout_ns_to_ms t1 in
     if t1 =? -1 then ms = -1
     else 0 <= ms < 2 ^ 31 /\ (ms = 2 ^ 31 - 1 \/ t1 <= ms * SCALE_MS) /\ ms * SCALE_MS < t1 + SCALE_MS).
Proof.
  intros H En Hn Hb H1 H2. destruct (deadline_spec tl now H En Hn Hb) as (D1 & D2 & D3).
  split; [done|]. split; [done|]. split; [done|]. unfold qemu_soonest_timeout.
  assert (forall t, -1 <= t < 2 ^ 63 -> u64 t = if t =? -1 then 2 ^ 64 - 1 else t) as U.
  { intros t Ht. destruct (Z.eqb_spec t (-1)) as [->|]; [done|]. apply uwrap_small. lia. }
  split; [|by apply timeout_ms_spec].
  rewrite !U by done. destruct (Z.eqb_spec t1 (-1)), (Z.eqb_spec t2 (-1)); zcases; lia.
Qed.

(** ** Witnesses *)

Definition sample_timers : QEMUTimerList :=
  mkTL true [5; 7; 6] {[5 := 10; 7 := 20; 6 := 20]}.

Lemma sample_timers_ok : timers_ok sample_timers.
Proof.
  split.
  - by apply (bool_decide_unpack _).
  - repeat constructor; cbn; vm_compute; done.
  - intros ts Hts. cbn in Hts. set_unfold. destruct Hts as [->|[->|[->|[]]]]; vm_compute; done.
  - intros ts Hts. unfold expire_time. cbn [expire_times sample_timers]. cbn in Hts.
    rewrite !lookup_insert_ne by set_solver. rewrite lookup_singleton_ne; [done|set_solver].
Qed.

Lemma timer_queue_witness : active_timers (timer_mod_ns sample_timers 5 20).1 = [7; 6; 5].
Proof.
  destruct (timer_queue_correct sample_timers 5 20 sample_timers_ok) as ((_ & _ & (l1 & l2 & E1 & E2 & H1 & H2) & _) & _).
  vm_compute. reflexivity.
Defined.

(** A device with a periodic timer 5, which arms itself again, and whose
    callback cancels the timer 6; the callbacks are counted. *)
Definition device_callback (period now ts : Z) (st : QEMUTimerList * nat) : QEMUTimerList * nat :=
  (if ts =? 5 then (timer_mod_ns (timer_del st.1 6) 5 (now + period)).1 else st.1, S st.2).

Lemma device_callback_ok period now : 0 < period -> TimerCallback (device_callback period now) (fun _ => True) now.
Proof.
  intros Hp. split; [|done]. intros ts tl n _. unfold device_callback. cbn [fst]. destruct (ts =? 5); [|done].
  transitivity (timer_del tl 6); [apply timer_del_later|apply timer_mod_later; lia].
Qed.

Lemma run_timers_witness : exists tl',
  timerlist_run_timers 4 (device_callback 8 20) 20 sample_timers O = Ok (tl', 2%nat, [5; 7], true) /\ timers_ok tl' /\
  active_timers tl' = [5] /\ expire_time tl' 5 = 28.
Proof.
  destruct (run_timers_correct (device_callback 8 20) (fun _ => True) 20 sample_timers O
    (device_callback_ok 8 20 ltac:(lia)) sample_timers_ok ltac:(constructor) eq_refl) as (tl' & w & ran & E & O & _).
  exists tl'. vm_compute in E. injection E as <- <- <-. split; [vm_compute; reflexivity|]. split; [exact O|].
  split; vm_compute; reflexivity.
Defined.

Lemma timer_deadline_witness : timerlist_deadline_ns sample_timers 4 = 6 /\ qemu_soonest_timeout (-1) 6 = 6.
Proof.
  destruct (timer_deadline_correct sample_timers 4 (-1) 6 sample_timers_ok eq_refl) as (_ & _ & _ & E & _); try lia.
  - intros x. unfold expire_time. cbn [expire_times sample_timers].
    repeat (rewrite lookup_insert; case_decide; [cbn; lia|]). rewrite lookup_singleton. case_decide; cbn; lia.
  - split; [vm_compute; reflexivity|exact E].
Defined.
