(* ===== verification/Fttmr010.v ===== *)
(** * The Faraday FTTMR010 timer ([hw/arm/fttmr010.c])

    Three 32-bit counters that count up or down, each with two match values and
    a reload value.  The counter is not stored while the timer runs: a QEMU
    timer is armed for the next match, overflow or underflow, and the counter
    is brought up to date from the clock when it fires or when the guest reads
    it.  Accesses are 32-bit ([mmio_ops]).

    [qtimer] is the expiry the timer was last armed for ([timer_mod]), [None]
    when it is not pending.  Interrupt lines are pulsed; [irqs] is the record
    of the pulses, newest first, with [None] for the line of the chip and
    [Some i] for the line of timer [i].  [now] is the virtual clock. *)

From stdpp Require Import base list gmap numbers.
From S2P Require Import Prelude QemuTimer.

Module Fttmr010.

Record Fttmr010Timer : Type := mkTimer {
  id : Z; up : bool; start : Z; intr_match1 : bool; intr_match2 : bool;
  counter : Z; reload : Z; match1 : Z; match2 : Z; qtimer : option Z
}.

Record Fttmr010State : Type := mkState {
  timer : list Fttmr010Timer; freq : Z; step : Z; cr : Z; isr : Z; imr : Z; irqs : list (option Z)
}.

Definition REG_TMR_ID (off : Z) : Z := Z.shiftr off 4.
Definition REG_TMR_BASE (id : Z) : Z := 0x00 + Z.shiftl id 4.
Definition REG_TMR_COUNTER : Z := 0x00.
Definition REG_TMR_RELOAD : Z := 0x04.
Definition REG_TMR_MATCH1 : Z := 0x08.
Definition REG_TMR_MATCH2 : Z := 0x0C.
Definition REG_CR : Z := 0x30.
Definition REG_ISR : Z := 0x34.
Definition REG_IMR : Z := 0x38.
Definition REG_REVR : Z := 0x3C.
Definition CR_TMR_EN (id : Z) : Z := Z.shiftl 0x01 (id * 3).
Definition CR_TMR_OFEN (id : Z) : Z := Z.shiftl 0x04 (id * 3).
Definition CR_TMR_COUNTUP (id : Z) : Z := Z.shiftl 0x01 (9 + id).
Definition ISR_MATCH1 (id : Z) : Z := Z.shiftl 0x01 (id * 3).
Definition ISR_MATCH2 (id : Z) : Z := Z.shiftl 0x02 (id * 3).
Definition ISR_OF (id : Z) : Z := Z.shiftl 0x04 (id * 3).

Definition is_set (x bits : Z) : bool := negb (Z.land x bits =? 0).

(** ** Field updates *)

Definition set_isr (s : Fttmr010State) (v : Z) : Fttmr010State :=
  mkState (timer s) (freq s) (step s) (cr s) v (imr s) (irqs s).
Definition set_timers (s : Fttmr010State) (l : list Fttmr010Timer) : Fttmr010State :=
  mkState l (freq s) (step s) (cr s) (isr s) (imr s) (irqs s).
(** [qemu_irq_pulse(s->irq); qemu_irq_pulse(t->irq)] *)
Definition pulse (s : Fttmr010State) (t : Fttmr010Timer) : Fttmr010State :=
  mkState (timer s) (freq s) (step s) (cr s) (isr s) (imr s) (Some (id t) :: None :: irqs s).
Definition set_match (t : Fttmr010Timer) (m1 m2 : bool) : Fttmr010Timer :=
  mkTimer (id t) (up t) (start t) m1 m2 (counter t) (reload t) (match1 t) (match2 t) (qtimer t).
Definition set_counter (t : Fttmr010Timer) (c : Z) : Fttmr010Timer :=
  mkTimer (id t) (up t) (start t) (intr_match1 t) (intr_match2 t) c (reload t) (match1 t) (match2 t) (qtimer t).
Definition set_start (t : Fttmr010Timer) (v : Z) : Fttmr010Timer :=
  mkTimer (id t) (up t) v (intr_match1 t) (intr_match2 t) (counter t) (reload t) (match1 t) (match2 t) (qtimer t).
Definition set_qtimer (t : Fttmr010Timer) (q : option Z) : Fttmr010Timer :=
  mkTimer (id t) (up t) (start t) (intr_match1 t) (intr_match2 t) (counter t) (reload t) (match1 t) (match2 t) q.
(** [timer_mod(t->qtimer, expire)]: the argument is an [int64_t]. *)
Definition arm (t : Fttmr010Timer) (expire : Z) : Fttmr010Timer := set_qtimer t (Some (s64 expire)).

(** ** The counter *)

(** The delay to the next event, as [fttmr010_timer_restart] computes it. *)
Definition restart_interval (t : Fttmr010Timer) : Z :=
  if up t then
    if (counter t <? match1 t) && (counter t <? match2 t) then u64 (Z.min (match1 t) (match2 t) - counter t)
    else if counter t <? match1 t then u64 (match1 t - counter t)
    else if reload t <? match2 t then u64 (match2 t - counter t)
    else u64 (0xffffffff - counter t)
  else
    if (match1 t <? counter t) && (match2 t <? counter t) then u64 (counter t - Z.max (match1 t) (match2 t))
    else if match1 t <? reload t then u64 (counter t - match1 t)
    else if match2 t <? reload t then u64 (counter t - match2 t)
    else counter t.

Definition fttmr010_timer_restart (now : Z) (s : Fttmr010State) (t : Fttmr010Timer) : Fttmr010State * Fttmr010Timer :=
  let m1 := if up t then match1 t <=? counter t else counter t <=? match1 t in
  let m2 := if up t then match2 t <=? counter t else counter t <=? match2 t in
  let t := set_match t m1 m2 in
  let p1 := match1 t =? counter t in
  let s := if p1 then set_isr s (Z.lor (isr s) (ISR_MATCH1 (id t))) else s in
  let p2 := match2 t =? counter t in
  let s := if p2 then set_isr s (Z.lor (isr s) (ISR_MATCH2 (id t))) else s in
  let interval := restart_interval t in
  let s := if p1 || p2 then pulse s t else s in
  let t := set_start t (u64 now) in
  (s, arm t (u64 (start t + u64 (interval * step s)))).

(** One match comparator: the new flag and whether it was raised. *)
Definition check_match (t : Fttmr010Timer) (flag : bool) (m : Z) : bool * bool :=
  if flag then (true, false)
  else let hit := if up t then m <=? counter t else counter t <=? m in (hit, hit).

Definition fttmr010_update_counter (now : Z) (s : Fttmr010State) (t : Fttmr010Timer) :
    res (Fttmr010State * Fttmr010Timer * Z) :=
  let* (s, t, pending) :=
    if is_set (cr s) (CR_TMR_EN (id t)) then
      let* elapsed := c_div (u64 (u64 now - start t)) (step s) in
      let t := if up t then set_counter t (u64 (counter t + elapsed))
               else if elapsed <? counter t then set_counter t (counter t - elapsed) else set_counter t 0 in
      let t := set_start t (u64 now) in
      let (m1, p1) := check_match t (intr_match1 t) (match1 t) in
      let s := if p1 then set_isr s (Z.lor (isr s) (ISR_MATCH1 (id t))) else s in
      let t := set_match t m1 (intr_match2 t) in
      let (m2, p2) := check_match t (intr_match2 t) (match2 t) in
      let s := if p2 then set_isr s (Z.lor (isr s) (ISR_MATCH2 (id t))) else s in
      let t := set_match t (intr_match1 t) m2 in
      let over := if up t then 0xffffffff <=? counter t else counter t =? 0 in
      let p3 := over && is_set (cr s) (CR_TMR_OFEN (id t)) in
      let s := if p3 then set_isr s (Z.lor (isr s) (ISR_OF (id t))) else s in
      let (s, t) := if over then fttmr010_timer_restart now s (set_counter t (reload t)) else (s, t) in
      Ok (s, t, p1 || p2 || p3)
    else Ok (s, t, false) in
  Ok (if pending then pulse s t else s, t, counter t).

(** ** The registers *)

(** [s->timer + i] is a pointer into the array. *)
Definition put_timer (s : Fttmr010State) (i : Z) (t : Fttmr010Timer) : res Fttmr010State :=
  let* l := aset (timer s) i t in Ok (set_timers s l).

(** [REG_TMR_BASE(0) ... REG_TMR_BASE(2) + 0x0C] *)
Definition in_timers (addr : Z) : bool := (REG_TMR_BASE 0 <=? addr) && (addr <=? REG_TMR_BASE 2 + 0x0C).

Definition fttmr010_mem_read (now addr : Z) (s : Fttmr010State) : res (Fttmr010State * Z) :=
  if in_timers addr then
    let i := REG_TMR_ID addr in
    let* t := aget (timer s) i in
    let r := Z.land addr 0x0f in
    if r =? REG_TMR_COUNTER then
      let* (s, t, v) := fttmr010_update_counter now s t in let* s := put_timer s i t in Ok (s, v)
    else if r =? REG_TMR_RELOAD then Ok (s, reload t)
    else if r =? REG_TMR_MATCH1 then Ok (s, match1 t)
    else if r =? REG_TMR_MATCH2 then Ok (s, match2 t)
    else Ok (s, 0)
  else if addr =? REG_CR then Ok (s, cr s)
  else if addr =? REG_ISR then Ok (s, isr s)
  else if addr =? REG_IMR then Ok (s, imr s)
  else if addr =? REG_REVR then Ok (s, 0x00010801)
  else Ok (s, 0).

(** The body of the loop over the timers in the write to [REG_CR]. *)
Definition cr_timer (now : Z) (i : Z) (s : Fttmr010State) : res Fttmr010State :=
  let* t := aget (timer s) i in
  let t := mkTimer (id t) (is_set (cr s) (CR_TMR_COUNTUP (id t))) (start t) (intr_match1 t) (intr_match2 t)
             (counter t) (reload t) (match1 t) (match2 t) (qtimer t) in
  if is_set (cr s) (CR_TMR_EN (id t)) then
    let (s, t) := fttmr010_timer_restart now s t in put_timer s i t
  else put_timer s i (set_qtimer t None).

Definition fttmr010_mem_write (now addr val : Z) (s : Fttmr010State) : res Fttmr010State :=
  if in_timers addr then
    let i := REG_TMR_ID addr in
    let* t := aget (timer s) i in
    let r := Z.land addr 0x0f in
    if r =? REG_TMR_COUNTER then put_timer s i (set_counter t (u32 val))
    else if r =? REG_TMR_RELOAD then
      put_timer s i (mkTimer (id t) (up t) (start t) (intr_match1 t) (intr_match2 t) (counter t) (u32 val)
                       (match1 t) (match2 t) (qtimer t))
    else if r =? REG_TMR_MATCH1 then
      put_timer s i (mkTimer (id t) (up t) (start t) (intr_match1 t) (intr_match2 t) (counter t) (reload t)
                       (u32 val) (match2 t) (qtimer t))
    else if r =? REG_TMR_MATCH2 then
      put_timer s i (mkTimer (id t) (up t) (start t) (intr_match1 t) (intr_match2 t) (counter t) (reload t)
                       (match1 t) (u32 val) (qtimer t))
    else Ok s
  else if addr =? REG_CR then
    for_loop 3 0 (cr_timer now)
      (mkState (timer s) (freq s) (step s) (u32 val) (isr s) (imr s) (irqs s))
  else if addr =? REG_ISR then Ok (set_isr s (Z.land (isr s) (u32 (Z.lnot (u32 val)))))
  else if addr =? REG_IMR then
    Ok (mkState (timer s) (freq s) (step s) (cr s) (isr s) (u32 val) (irqs s))
  else Ok s.

(** The callback of the timer [i]; the QEMU timer is not pending when it runs. *)
Definition fttmr010_timer_tick (now i : Z) (s : Fttmr010State) : res Fttmr010State :=
  let* t := aget (timer s) i in
  let t := set_qtimer t None in
  if negb (is_set (cr s) (CR_TMR_EN (id t))) then put_timer s i t else
  let* (s, t, _) := fttmr010_update_counter now s t in
  if reload t =? counter t then put_timer s i t else
  let wait d := put_timer s i (arm t (u64 (u64 now + u64 (d * step s)))) in
  if up t then
    if negb (intr_match1 t) && (counter t <? match1 t) then wait (match1 t - counter t)
    else if negb (intr_match2 t) && (counter t <? match2 t) then wait (match2 t - counter t)
    else wait (u64 (0xffffffff - counter t))
  else
    if negb (intr_match1 t) && (match1 t <? counter t) then wait (counter t - match1 t)
    else if negb (intr_match2 t) && (match2 t <? counter t) then wait (counter t - match2 t)
    else wait (counter t).

(** The lines that reset lowers are the chip's and those of the timers; a
    pulsed line is low already. *)
Definition reset_timer (t : Fttmr010Timer) : Fttmr010Timer :=
  mkTimer (id t) (up t) (start t) (intr_match1 t) (intr_match2 t) 0 0 0 0 None.
Definition fttmr010_reset (s : Fttmr010State) : Fttmr010State :=
  mkState (reset_timer <$> timer s) (freq s) (step s) 0 0 0 (irqs s).

Definition get_ticks_per_sec : Z := 1000000000.
(** Instance memory is zeroed before. *)
Definition fttmr010_realize (freq : Z) : res Fttmr010State :=
  let* step := c_div get_ticks_per_sec freq in
  Ok (mkState ((fun i => mkTimer i false 0 false false 0 0 0 0 None) <$> [0; 1; 2]) freq step 0 0 0 []).

(** ** The registers stay within their width *)

Definition u32_ok (x : Z) : Prop := 0 <= x < 2 ^ 32.

Record timer_ok (i : Z) (t : Fttmr010Timer) : Prop := {
  to_id : id t = i;
  to_start : 0 <= start t < 2 ^ 64;
  to_counter : u32_ok (counter t);
  to_reload : u32_ok (reload t);
  to_match1 : u32_ok (match1 t);
  to_match2 : u32_ok (match2 t)
}.

(** The part of the state other than the timers. *)
Record core_ok (s : Fttmr010State) : Prop := {
  cc_step : 0 < step s < 2 ^ 32; cc_cr : u32_ok (cr s); cc_isr : u32_ok (isr s); cc_imr : u32_ok (imr s)
}.

(** What a function on the timer [t] may change of the chip. *)
Definition same_chip (s s' : Fttmr010State) : Prop :=
  timer s' = timer s /\ freq s' = freq s /\ step s' = step s /\ cr s' = cr s /\ imr s' = imr s.

Lemma isr_bits_range i : 0 <= i < 3 ->
  u32_ok (ISR_MATCH1 i) /\ u32_ok (ISR_MATCH2 i) /\ u32_ok (ISR_OF i).
Proof.
  intros Hi. unfold u32_ok. assert (i = 0 \/ i = 1 \/ i = 2) as [->|[->| ->]] by lia; repeat split; vm_compute; done.
Qed.

Lemma u32_lor a b : u32_ok a -> u32_ok b -> u32_ok (Z.lor a b).
Proof. intros. apply (lor_range 32); unfold u32_ok in *; lia. Qed.

(** Setting an interrupt status bit, or not. *)
Lemma isr_step (b : bool) s v : core_ok s -> u32_ok v ->
  let s' := if b then set_isr s (Z.lor (isr s) v) else s in core_ok s' /\ same_chip s s'.
Proof.
  intros [? ? ? ?] Hv. destruct b; [|done]. split; [|done]. split; cbn; try done. by apply u32_lor.
Qed.

Lemma pulse_step (b : bool) s t : core_ok s ->
  let s' := if b then pulse s t else s in core_ok s' /\ same_chip s s'.
Proof. intros [? ? ? ?]. by destruct b. Qed.

Lemma same_chip_trans s1 s2 s3 : same_chip s1 s2 -> same_chip s2 s3 -> same_chip s1 s3.
Proof. unfold same_chip. intuition congruence. Qed.

Lemma restart_ok now s t i : core_ok s -> timer_ok i t -> 0 <= i < 3 ->
  let '(s', t') := fttmr010_timer_restart now s t in
  core_ok s' /\ same_chip s s' /\ timer_ok i t' /\
  counter t' = counter t /\ reload t' = reload t /\ up t' = up t /\ match1 t' = match1 t /\ match2 t' = match2 t /\
  start t' = u64 now /\
  qtimer t' = Some (s64 (u64 (u64 now + u64 (restart_interval t * step s)))).
Proof.
  intros Hs [H1 H2 H3 H4 H5 H6] Hi. unfold fttmr010_timer_restart.
  set (t1 := set_match _ _ _). destruct (isr_bits_range i Hi) as (B1 & B2 & _).
  change (id t1) with (id t). change (match1 t1) with (match1 t). change (match2 t1) with (match2 t).
  change (counter t1) with (counter t). rewrite H1.
  destruct (isr_step (match1 t =? counter t) s _ Hs B1) as [C1 S1].
  set (s1 := if match1 t =? counter t then _ else s) in *.
  destruct (isr_step (match2 t =? counter t) s1 _ C1 B2) as [C2 S2].
  set (s2 := if match2 t =? counter t then _ else s1) in *.
  destruct (pulse_step ((match1 t =? counter t) || (match2 t =? counter t)) s2 t1 C2) as [C3 S3].
  set (s3 := if _ || _ then pulse s2 t1 else s2) in *.
  pose proof (same_chip_trans _ _ _ S1 (same_chip_trans _ _ _ S2 S3)) as Sa.
  split; [done|]. split; [done|]. split.
  - split; cbn; try done. apply (uwrap_range 64). lia.
  - cbn. split_and!; try done. do 4 f_equal. unfold same_chip in Sa. f_equal. f_equal. tauto.
Qed.

Lemma check_match_flags t flag m : (check_match t flag m).2 = true -> flag = false /\ (check_match t flag m).1 = true.
Proof. unfold check_match. destruct flag; cbn; [done|]. by intros ->. Qed.

Lemma update_ok now s t i : core_ok s -> timer_ok i t -> 0 <= i < 3 ->
  exists s' t' v, fttmr010_update_counter now s t = Ok (s', t', v) /\
    core_ok s' /\ same_chip s s' /\ timer_ok i t' /\ v = counter t'.
Proof.
  intros Hs Ht Hi. pose proof Ht as [H1 H2 H3 H4 H5 H6]. pose proof Hs as [Hst _ _ _].
  destruct (isr_bits_range i Hi) as (B1 & B2 & B3). unfold fttmr010_update_counter.
  destruct (is_set (cr s) (CR_TMR_EN (id t))); cbn [res_bind]; [|by eexists _, _, _].
  unfold c_div. destruct (Z.eqb_spec (step s) 0); [lia|]. cbn [res_bind].
  set (e := u64 (u64 now - start t) / step s). assert (0 <= e).
  { apply Z.div_pos; [apply (uwrap_range 64)|]; lia. }
  set (t1 := set_start _ _).
  assert (id t1 = i /\ 0 <= counter t1 < 2 ^ 64 /\ (up t1 = false -> u32_ok (counter t1)) /\
    reload t1 = reload t /\ match1 t1 = match1 t /\ match2 t1 = match2 t /\ start t1 = u64 now)
    as (K1 & K2 & K3 & K4 & K5 & K6 & K7).
  { unfold t1, u32_ok in *. destruct (up t) eqn:U; [|destruct (Z.ltb_spec e (counter t))]; cbn; rewrite ?U;
      split_and!; try done; try lia; apply (uwrap_range 64); lia. }
  clearbody t1.
  destruct (check_match t1 _ _) as [m1 p1]. rewrite !K1.
  destruct (isr_step p1 s _ Hs B1) as [C1 S1]. set (s1 := if p1 then _ else s) in *.
  destruct (check_match (set_match t1 m1 _) _ _) as [m2 p2].
  change (id (set_match t1 m1 (intr_match2 t1))) with (id t1). rewrite K1.
  destruct (isr_step p2 s1 _ C1 B2) as [C2 S2]. set (s2 := if p2 then _ else s1) in *.
  set (t2 := set_match (set_match t1 m1 _) _ m2). change (id t2) with (id t1). rewrite K1.
  set (over := if up t2 then _ else _). set (p3 := over && _).
  destruct (isr_step p3 s2 _ C2 B3) as [C3 S3]. set (s3 := if p3 then _ else s2) in *.
  pose proof (same_chip_trans _ _ _ S1 (same_chip_trans _ _ _ S2 S3)) as Sa.
  assert (forall s4 t4 (p : bool), core_ok s4 -> same_chip s s4 -> timer_ok i t4 ->
    exists s' t' v, Ok (if p then pulse s4 t4 else s4, t4, counter t4) = Ok (s', t', v) /\
      core_ok s' /\ same_chip s s' /\ timer_ok i t' /\ v = counter t') as Fin.
  { intros s4 t4 p Hc4 Hsc4 Ht4. destruct (pulse_step p s4 t4 Hc4) as [Cp Sp].
    eexists _, _, _. split; [done|]. split; [done|]. split; [by eapply same_chip_trans|done]. }
  destruct over eqn:Eo.
  - assert (timer_ok i (set_counter t2 (reload t2))) as T2.
    { split; cbn; try done; rewrite ?K7, ?K5, ?K6, ?K4; try done. apply (uwrap_range 64); lia. }
    pose proof (restart_ok now s3 _ i C3 T2 Hi) as R.
    destruct (fttmr010_timer_restart now s3 _) as [s4 t4]. cbn [res_bind].
    destruct R as (R1 & R2 & R3 & _). apply Fin; [done|by eapply same_chip_trans|done].
  - cbn [res_bind]. apply Fin; [done|done|].
    split; cbn; try done; rewrite ?K7, ?K5, ?K6, ?K4; try done; [apply (uwrap_range 64); lia|].
    unfold over in Eo. cbn in Eo. unfold u32_ok in *. destruct (up t1) eqn:U; [|by apply K3]. lia.
Qed.

Definition timers_wf (s : Fttmr010State) : Prop :=
  length (timer s) = 3%nat /\ forall i t, aget (timer s) i = Ok t -> timer_ok i t.

Definition wf (s : Fttmr010State) : Prop := core_ok s /\ timers_wf s.

Lemma wf_get s i : wf s -> 0 <= i < 3 -> exists t, aget (timer s) i = Ok t /\ timer_ok i t.
Proof.
  intros [_ [L T]] Hi. destruct (aget_total (timer s) i) as [t E]; [lia|]. exists t. split; [done|by apply T].
Qed.

(** A handler works on a timer and stores it back. *)
Lemma wf_put s s' i t : wf s -> core_ok s' -> same_chip s s' -> timer_ok i t -> 0 <= i < 3 ->
  put_timer s' i t = Ok (set_timers s' (<[Z.to_nat i := t]> (timer s))) /\
  wf (set_timers s' (<[Z.to_nat i := t]> (timer s))).
Proof.
  intros [_ [L T]] C (E & _) Ht Hi. unfold put_timer. rewrite E, aset_total by lia. split; [done|].
  split; [by destruct C|]. split; cbn; [by rewrite length_insert|]. intros j x Hx.
  destruct (Z.eq_dec j i) as [->|N].
  - rewrite aget_insert_eq in Hx by (rewrite L; lia). injection Hx as <-. done.
  - apply T. by rewrite aget_insert_ne in Hx by lia.
Qed.

Lemma timer_index addr : in_timers addr = true -> 0 <= REG_TMR_ID addr < 3.
Proof.
  unfold in_timers, REG_TMR_ID. change (REG_TMR_BASE 0) with 0. change (REG_TMR_BASE 2 + 0x0C) with 44.
  rewrite andb_true_iff, !Z.leb_le.
  rewrite Z.shiftr_div_pow2 by lia. intros. dlia.
Qed.

Lemma core_refl s : core_ok s -> core_ok s /\ same_chip s s.
Proof. done. Qed.

Lemma mem_read_wf now addr s : wf s ->
  exists s' v, fttmr010_mem_read now addr s = Ok (s', v) /\ wf s' /\ u32_ok v.
Proof.
  intros Hw. pose proof Hw as [Hc _]. pose proof Hc as [_ ? ? ?].
  assert (u32_ok 0) by (unfold u32_ok; lia). unfold fttmr010_mem_read.
  destruct (in_timers addr) eqn:Ei.
  - apply timer_index in Ei. destruct (wf_get s _ Hw Ei) as (t & -> & Ht). cbn [res_bind].
    pose proof Ht as [_ _ ? ? ? ?]. destruct (_ =? REG_TMR_COUNTER).
    + destruct (update_ok now s t _ Hc Ht Ei) as (s' & t' & v & -> & C' & S' & T' & ->). cbn [res_bind].
      destruct (wf_put s s' _ t' Hw C' S' T' Ei) as [-> W]. cbn [res_bind]. eexists _, _.
      split; [done|]. split; [done|]. by destruct T'.
    + repeat case_match; by eexists _, _.
  - repeat case_match; try (by eexists _, _).
Qed.

Lemma u32_wrap v : u32_ok (u32 v).
Proof. apply (uwrap_range 32). lia. Qed.

Lemma cr_loop_wf now s : wf s -> exists s', for_loop 3 0 (cr_timer now) s = Ok s' /\ wf s'.
Proof.
  intros Hw. destruct (for_loop_inv (fun _ s => wf s) (cr_timer now) 3 0 s Hw) as (s' & E & W); [|by exists s'].
  intros k s1 Hk W1. assert (0 <= k < 3) as Hk' by lia. pose proof W1 as [C1 _].
  unfold cr_timer. destruct (wf_get s1 k W1 Hk') as (t & -> & [H1 H2 H3 H4 H5 H6]). cbn [res_bind].
  set (t1 := mkTimer _ _ _ _ _ _ _ _ _ _). assert (timer_ok k t1) as T1 by (by split).
  destruct (is_set (cr s1) (CR_TMR_EN (id t1))).
  - pose proof (restart_ok now s1 t1 k C1 T1 Hk') as R. destruct (fttmr010_timer_restart now s1 t1) as [s2 t2].
    destruct R as (R1 & R2 & R3 & _). destruct (wf_put s1 s2 k t2 W1 R1 R2 R3 Hk') as [-> W]. by eexists.
  - destruct (wf_put s1 s1 k (set_qtimer t1 None) W1 C1) as [-> W]; [done|by split|done|]. by eexists.
Qed.

Lemma mem_write_wf now addr val s : wf s -> exists s', fttmr010_mem_write now addr val s = Ok s' /\ wf s'.
Proof.
  intros Hw. pose proof Hw as [Hc Hts]. pose proof Hc as [Hst Hcr Hisr Himr]. pose proof (u32_wrap val) as Hv.
  unfold fttmr010_mem_write. destruct (in_timers addr) eqn:Ei.
  - apply timer_index in Ei. destruct (wf_get s _ Hw Ei) as (t & -> & [H1 H2 H3 H4 H5 H6]). cbn [res_bind].
    assert (forall t', timer_ok (REG_TMR_ID addr) t' ->
      exists s', put_timer s (REG_TMR_ID addr) t' = Ok s' /\ wf s') as Put.
    { intros t' T'. destruct (wf_put s s (REG_TMR_ID addr) t' Hw Hc) as [-> W]; [done..|]. by eexists. }
    repeat case_match; first [by apply Put; split|by exists s].
  - destruct (_ =? REG_CR); [apply cr_loop_wf; split; [by split|done]|].
    destruct (_ =? REG_ISR); [|destruct (_ =? REG_IMR)]; eexists; (split; [done|]);
      try (split; [by split|done]); try done.
    split; [|done]. split; cbn; try done. unfold u32_ok in *. apply land_range; lia.
Qed.

Lemma tick_wf now i s : wf s -> 0 <= i < 3 -> exists s', fttmr010_timer_tick now i s = Ok s' /\ wf s'.
Proof.
  intros Hw Hi. pose proof Hw as [Hc _]. unfold fttmr010_timer_tick.
  destruct (wf_get s i Hw Hi) as (t & -> & [H1 H2 H3 H4 H5 H6]). cbn [res_bind].
  set (t0 := set_qtimer t None). assert (timer_ok i t0) as T0 by (by split).
  assert (forall s' t', core_ok s' -> same_chip s s' -> timer_ok i t' ->
    exists s'', put_timer s' i t' = Ok s'' /\ wf s'') as Put.
  { intros s' t' C' S' T'. destruct (wf_put s s' i t' Hw C' S' T' Hi) as [-> W]. by eexists. }
  destruct (is_set _ _); cbn [negb]; [|by apply Put].
  destruct (update_ok now s t0 i Hc T0 Hi) as (s' & t' & v & -> & C' & S' & T' & ->). cbn [res_bind].
  destruct (reload t' =? counter t'); [by apply Put|].
  assert (forall e, timer_ok i (arm t' e)) as Arm by (intros e; destruct T'; by split).
  destruct (up t'); repeat (destruct (_ && _); [by apply Put|]); by apply Put.
Qed.

(** ** Counting down periodically *)

(** A timer that counts down from [r] to 0 and starts again, whose match
    values do not fall strictly between. *)
Record counts_down (r : Z) (s : Fttmr010State) (t : Fttmr010Timer) : Prop := {
  cd_down : up t = false;
  cd_counter : counter t = r;
  cd_reload : reload t = r;
  cd_pos : 0 < r < 2 ^ 32;
  cd_match1 : match1 t = 0 \/ r <= match1 t;
  cd_match2 : match2 t = 0 \/ r <= match2 t;
  cd_en : is_set (cr s) (CR_TMR_EN (id t)) = true;
  cd_ofen : is_set (cr s) (CR_TMR_OFEN (id t)) = true
}.

Lemma down_interval r s t : counts_down r s t -> restart_interval t = r.
Proof.
  intros [U C R P M1 M2 _ _]. unfold restart_interval. rewrite U, C, R.
  assert (u64 (r - 0) = r) as E by (rewrite uwrap_small; lia).
  destruct M1 as [->|M1], M2 as [->|M2]; zcases; try lia; change (Z.max 0 0) with 0; exact E.
Qed.

Lemma isr_keeps (b : bool) s v k : Z.testbit (isr s) k = true ->
  Z.testbit (isr (if b then set_isr s (Z.lor (isr s) v) else s)) k = true.
Proof. intros H. destruct b; [|done]. cbn. by rewrite Z.lor_spec, H. Qed.

Lemma irqs_isr (b : bool) s v : irqs (if b then set_isr s v else s) = irqs s.
Proof. by destruct b. Qed.

Lemma restart_keeps now s t k : Z.testbit (isr s) k = true ->
  Z.testbit (isr (fttmr010_timer_restart now s t).1) k = true /\
  exists l, irqs (fttmr010_timer_restart now s t).1 = l ++ irqs s.
Proof.
  intros H. unfold fttmr010_timer_restart. cbv zeta. cbn [fst]. set (t1 := set_match _ _ _).
  set (s1 := if match1 t1 =? counter t1 then _ else s). set (s2 := if match2 t1 =? counter t1 then _ else s1).
  assert (Z.testbit (isr s2) k = true) by (apply isr_keeps, isr_keeps, H).
  assert (irqs s2 = irqs s) by (unfold s2, s1; by rewrite !irqs_isr).
  destruct (_ || _); cbn; (split; [done|]); [exists [Some (id t1); None]|exists []]; cbn; congruence.
Qed.

(** The tick that finds the counter run down: the overflow status is set, the
    lines are pulsed, the counter is reloaded and the timer armed again. *)
Lemma update_underflow now s t r : core_ok s -> timer_ok (id t) t -> 0 <= id t < 3 -> counts_down r s t ->
  0 <= now < 2 ^ 63 -> start t + r * step s <= now -> now + r * step s < 2 ^ 63 ->
  exists s' t', fttmr010_update_counter now s t = Ok (s', t', r) /\
    core_ok s' /\ same_chip s s' /\ timer_ok (id t) t' /\ counts_down r s' t' /\
    start t' = now /\ qtimer t' = Some (now + r * step s) /\
    Z.testbit (isr s') (id t * 3 + 2) = true /\
    exists l, irqs s' = Some (id t) :: None :: l ++ irqs s.
Proof.
  intros Hs Ht Hi Hd Hn Hlate Hb. pose proof Hd as [U C R P M1 M2 En Of]. pose proof Hs as [Hst _ _ _].
  pose proof Ht as [_ H2 H3 H4 H5 H6]. destruct (isr_bits_range (id t) Hi) as (B1 & B2 & B3).
  unfold fttmr010_update_counter. rewrite En. unfold c_div. destruct (Z.eqb_spec (step s) 0); [lia|]. cbn [res_bind].
  rewrite U, C, (uwrap_small 64 now), (uwrap_small 64 (now - start t)) by nia.
  destruct (Z.ltb_spec ((now - start t) / step s) r) as [Hlt|_].
  { exfalso. assert (r <= (now - start t) / step s); [|lia]. apply Z.div_le_lower_bound; nia. }
  set (t1 := set_start (set_counter t 0) now).
  destruct (check_match t1 _ _) as [m1 p1]. destruct (check_match (set_match t1 m1 _) _ _) as [m2 p2].
  destruct (isr_step p1 s _ Hs B1) as [C1 S1]. set (s1 := if p1 then _ else s) in *.
  destruct (isr_step p2 s1 _ C1 B2) as [C2 S2].
  change (id (set_match t1 m1 (intr_match2 t1))) with (id t).
  change (id (set_match (set_match t1 m1 (intr_match2 t1)) (intr_match1 (set_match t1 m1 (intr_match2 t1))) m2)) with (id t).
  set (s2 := if p2 then _ else s1) in *. set (t2 := set_match (set_match t1 m1 _) _ m2).
  change (up t2) with (up t). rewrite U. change (counter t2 =? 0) with true. cbn [andb].
  pose proof (same_chip_trans _ _ _ S1 S2) as S12.
  assert (is_set (cr s2) (CR_TMR_OFEN (id t)) = true) as -> by (destruct S12 as (_ & _ & _ & -> & _); done).
  destruct (isr_step true s2 _ C2 B3) as [C3 S3]. set (s3 := set_isr s2 _) in *.
  change (reload t2) with (reload t). rewrite R. set (t3 := set_counter t2 r).
  assert (timer_ok (id t) t3) as T3.
  { split; unfold t3, t2, t1, u32_ok; cbn [id start counter reload match1 match2 set_counter set_match set_start];
      unfold u32_ok in *; done || lia. }
  assert (counts_down r s3 t3) as D3.
  { pose proof (same_chip_trans _ _ _ S12 S3) as (_ & _ & _ & E & _). split; try done; rewrite E; done. }
  pose proof (restart_ok now s3 t3 (id t) C3 T3 Hi) as Rs.
  assert (Z.testbit (isr s3) (id t * 3 + 2) = true) as Tb.
  { cbn [isr s3 set_isr]. rewrite Z.lor_spec. unfold ISR_OF. change 4 with (2 ^ 2).
    rewrite <- Z.shiftl_1_l, Z.shiftl_shiftl, shiftl1_testbit by lia.
    replace (id t * 3 + 2 =? 2 + id t * 3) with true by lia. apply orb_true_r. }
  pose proof (restart_keeps now s3 t3 _ Tb) as Rk.
  destruct (fttmr010_timer_restart now s3 t3) as [s4 t4]. cbn [fst snd res_bind] in *.
  destruct Rs as (R1 & R2 & R3 & R4 & R5 & R6 & R7 & R8 & R9 & R10). destruct Rk as (K1 & l & K2).
  pose proof (same_chip_trans _ _ _ S12 (same_chip_trans _ _ _ S3 R2)) as (Sa & Sb & Sc & Sd & Se).
  rewrite orb_true_r. destruct (pulse_step true s4 t4 R1) as [Cp _]. pose proof (to_id _ _ R3) as Eid.
  eexists _, _. split; [rewrite R4; done|]. split; [done|]. split; [done|]. split; [done|]. split.
  { split; rewrite ?R4, ?R5, ?R6, ?R7, ?R8, ?Eid; try done; cbn [cr pulse]; by rewrite Sd. }
  split; [rewrite R9; apply uwrap_small; lia|]. split.
  { rewrite R10, (down_interval r s3 t3 D3). assert (step s3 = step s) as -> by (destruct S12 as (_ & _ & E1 & _), S3 as (_ & _ & E2 & _); congruence).
    f_equal. rewrite (uwrap_small 64 now), (uwrap_small 64 (r * step s)), uwrap_small by nia.
    apply swrap_small; nia. }
  split; [done|]. exists l. cbn. rewrite Eid, K2. do 3 f_equal. cbn [irqs s3 set_isr]. unfold s2, s1. by rewrite !irqs_isr.
Qed.

(** ** Reads and ticks over time *)

(** The callbacks of timer [i] at the times [ns]. *)
Fixpoint ticks (i : Z) (ns : list Z) (s : Fttmr010State) : res Fttmr010State :=
  match ns with [] => Ok s | now :: ns => let* s := fttmr010_timer_tick now i s in ticks i ns s end.

(** Each time is at least [period] after the one before, however late. *)
Fixpoint spaced (t0 period : Z) (ns : list Z) : Prop :=
  match ns with [] => True | n :: ns => t0 + period <= n /\ n + period < 2 ^ 63 /\ spaced n period ns end.

Definition last_time (t0 : Z) (ns : list Z) : Z := List.last ns t0.

Lemma last_time_cons t0 n ns : last_time t0 (n :: ns) = last_time n ns.
Proof. unfold last_time. revert n. induction ns as [|m ns IH]; intros n; [done|]. cbn in *. by destruct ns. Qed.

(** Reads of the counter of timer [i] at the times [ns]. *)
Fixpoint polls (i : Z) (ns : list Z) (s : Fttmr010State) : res (list Z) :=
  match ns with
  | [] => Ok []
  | now :: ns => let* (s, v) := fttmr010_mem_read now (REG_TMR_BASE i) s in
                 let* vs := polls i ns s in Ok (v :: vs)
  end.

(** Each time is less than [period] after the one before. *)
Fixpoint close_by (t0 period : Z) (ns : list Z) : Prop :=
  match ns with [] => True | n :: ns => t0 <= n < t0 + period /\ n < 2 ^ 63 /\ close_by n period ns end.

(** The event loop's view of a callback: the timer runs and what it armed is
    entered into the timer list. *)
Definition tick_callback (now ts : Z) (st : QEMUTimerList * Fttmr010State) : QEMUTimerList * Fttmr010State :=
  match fttmr010_timer_tick now ts st.2 with
  | Ok s' => (match aget (timer s') ts with
              | Ok t => match qtimer t with Some e => (timer_mod_ns st.1 ts e).1 | None => st.1 end
              | Err _ => st.1
              end, s')
  | Err _ => st
  end.

Lemma tick_underflow now i s t r : wf s -> 0 <= i < 3 -> aget (timer s) i = Ok t -> counts_down r s t ->
  0 <= now < 2 ^ 63 -> start t + r * step s <= now -> now + r * step s < 2 ^ 63 ->
  exists s' t', fttmr010_timer_tick now i s = Ok s' /\ wf s' /\ aget (timer s') i = Ok t' /\ counts_down r s' t' /\
    step s' = step s /\ start t' = now /\ qtimer t' = Some (now + r * step s) /\
    Z.testbit (isr s') (i * 3 + 2) = true /\ exists l, irqs s' = Some i :: None :: l ++ irqs s.
Proof.
  intros Hw Hi Et Hd Hn Hlate Hb. pose proof Hw as [Hc [L T]]. pose proof (T i t Et) as Ht.
  pose proof (to_id _ _ Ht) as Eid. unfold fttmr010_timer_tick. rewrite Et. cbn [res_bind].
  set (t0 := set_qtimer t None). change (id t0) with (id t). rewrite (cd_en _ _ _ Hd). cbn [negb].
  destruct (update_underflow now s t0 r) as (s' & t' & -> & C' & S' & T' & D' & St & Q & B & l & Irq);
    [done|destruct Ht; by split|by rewrite <- Eid in Hi|destruct Hd; by split|done..|].
  cbn [res_bind]. rewrite (cd_reload _ _ _ D'), (cd_counter _ _ _ D'), Z.eqb_refl.
  change (id t0) with (id t) in *. rewrite Eid in *.
  destruct (wf_put s s' i t' Hw C' S' T' Hi) as [-> W]. eexists _, t'. split; [done|]. split; [done|].
  split; [cbn; apply aget_insert_eq; rewrite L; lia|]. split; [destruct D'; by split|].
  split; [cbn; by destruct S' as (_ & _ & ? & _)|]. split; [done|]. split; [done|]. split; [done|]. by exists l.
Qed.

Lemma poll_frozen now i s t : wf s -> 0 <= i < 3 -> aget (timer s) i = Ok t ->
  is_set (cr s) (CR_TMR_EN i) = true -> 0 < counter t < 0xffffffff ->
  start t <= now < start t + step s -> 0 <= now < 2 ^ 63 ->
  exists s' t', fttmr010_mem_read now (REG_TMR_BASE i) s = Ok (s', counter t) /\ wf s' /\
    aget (timer s') i = Ok t' /\ cr s' = cr s /\ step s' = step s /\ counter t' = counter t /\ start t' = now.
Proof.
  intros Hw Hi Et En Hcn Hnow Hn. pose proof Hw as [Hc [L T]]. pose proof (T i t Et) as Ht.
  pose proof (to_id _ _ Ht) as Eid. pose proof Hc as [Hst _ _ _]. pose proof Ht as [_ Hs0 Hc0 Hr0 Hm1 Hm2].
  assert (in_timers (REG_TMR_BASE i) = true /\ REG_TMR_ID (REG_TMR_BASE i) = i /\
    Z.land (REG_TMR_BASE i) 0x0f = REG_TMR_COUNTER) as (E1 & E2 & E3)
    by (assert (i = 0 \/ i = 1 \/ i = 2) as [->|[->| ->]] by lia; done).
  unfold fttmr010_mem_read. rewrite E1, E2, Et. cbn [res_bind]. rewrite E3. cbn [Z.eqb REG_TMR_COUNTER].
  unfold fttmr010_update_counter. rewrite Eid, En. unfold c_div. destruct (Z.eqb_spec (step s) 0); [lia|]. cbn [res_bind].
  rewrite (uwrap_small 64 now), (uwrap_small 64 (now - start t)), (Z.div_small (now - start t)) by lia.
  rewrite Z.add_0_r, Z.sub_0_r, (uwrap_small 64 (counter t)) by lia. destruct (Z.ltb_spec 0 (counter t)); [|lia].
  set (t1 := set_start _ _). assert (t1 = set_start t now) as -> by (unfold t1, set_counter, set_start; by destruct (up t), t).
  destruct (check_match _ _ _) as [m1 p1]. set (t2 := set_match (set_start t now) _ _).
  destruct (check_match t2 _ _) as [m2 p2]. set (t3 := set_match t2 _ m2). change (id (set_start t now)) with (id t).
  change (id t2) with (id t). change (id t3) with (id t). rewrite Eid.
  destruct (isr_bits_range i Hi) as (B1 & B2 & _).
  destruct (isr_step p1 s _ Hc B1) as [C1 S1]. set (s1 := if p1 then _ else s) in *.
  destruct (isr_step p2 s1 _ C1 B2) as [C2 S2]. set (s2 := if p2 then _ else s1) in *.
  assert ((if up t3 then 0xffffffff <=? counter t3 else counter t3 =? 0) = false) as ->
    by (change (counter t3) with (counter t); destruct (up t3); lia).
  cbn [andb orb]. rewrite orb_false_r. cbn [res_bind].
  destruct (pulse_step (p1 || p2) s2 t3 C2) as [C3 S3]. set (s3 := if p1 || p2 then _ else _) in *.
  pose proof (same_chip_trans _ _ _ S1 (same_chip_trans _ _ _ S2 S3)) as Sa.
  assert (timer_ok i t3) as T3.
  { split; unfold t3, t2; cbn [id start counter reload match1 match2 set_match set_start]; done || lia. }
  destruct (wf_put s s3 i t3 Hw C3 Sa T3 Hi) as [-> W]. cbn [res_bind]. eexists _, t3.
  split; [done|]. split; [done|]. split; [cbn; apply aget_insert_eq; rewrite L; lia|].
  cbn. destruct Sa as (_ & _ & ? & ? & _). done.
Qed.

(** An enabled timer that counts down from 0 to 0. *)
Definition stuck (now i : Z) (s : Fttmr010State) : Prop :=
  wf s /\ is_set (cr s) (CR_TMR_EN i) = true /\
  exists t, aget (timer s) i = Ok t /\ up t = false /\ counter t = 0 /\ reload t = 0 /\ start t <= now.

Lemma tick_stuck now i s : 0 <= now < 2 ^ 63 -> 0 <= i < 3 -> stuck now i s ->
  exists s' t', fttmr010_timer_tick now i s = Ok s' /\ stuck now i s' /\
    aget (timer s') i = Ok t' /\ qtimer t' = Some now.
Proof.
  intros Hn Hi (Hw & En & t & Et & U & C & R & Hs). pose proof Hw as [Hc [L T]]. pose proof (T i t Et) as Ht.
  pose proof Hc as [Hst _ _ _]. pose proof Ht as [Eid Hs0 _ _ Hm1 Hm2]. destruct (isr_bits_range i Hi) as (B1 & B2 & B3).
  unfold fttmr010_timer_tick. rewrite Et. cbn [res_bind]. set (t0 := set_qtimer t None).
  change (id t0) with (id t). rewrite Eid, En. cbn [negb]. unfold fttmr010_update_counter.
  change (id t0) with (id t). change (up t0) with (up t). change (counter t0) with (counter t).
  change (start t0) with (start t). rewrite Eid, En, U, C. unfold c_div.
  destruct (Z.eqb_spec (step s) 0); [lia|]. cbn [res_bind].
  assert (0 <= u64 (u64 now - start t) / step s) by (apply Z.div_pos; [apply (uwrap_range 64)|]; lia).
  destruct (Z.ltb_spec (u64 (u64 now - start t) / step s) 0); [lia|].
  set (t1 := set_start (set_counter t0 0) (u64 now)).
  destruct (check_match t1 _ _) as [m1 p1]. destruct (check_match (set_match t1 m1 _) _ _) as [m2 p2].
  destruct (isr_step p1 s _ Hc B1) as [C1 S1]. change (id t1) with (id t). rewrite Eid. set (s1 := if p1 then _ else s) in *.
  destruct (isr_step p2 s1 _ C1 B2) as [C2 S2].
  change (id (set_match t1 m1 (intr_match2 t1))) with (id t). rewrite Eid. set (s2 := if p2 then _ else s1) in *.
  set (t2 := set_match (set_match t1 m1 _) _ m2). change (id t2) with (id t). rewrite Eid.
  change (up t2) with (up t). rewrite U. change (counter t2 =? 0) with true. cbn [andb].
  set (p3 := is_set _ _). destruct (isr_step p3 s2 _ C2 B3) as [C3 S3]. set (s3 := if p3 then _ else s2) in *.
  change (reload t2) with (reload t). rewrite R. set (t3 := set_counter t2 0).
  assert (timer_ok i t3) as T3.
  { split; unfold t3, t2, t1, t0, u32_ok; cbn [id start counter reload match1 match2 set_counter set_match set_start set_qtimer];
      rewrite ?R; unfold u32_ok in *; try done; try lia. apply (uwrap_range 64). lia. }
  pose proof (restart_ok now s3 t3 i C3 T3 Hi) as Rs.
  destruct (fttmr010_timer_restart now s3 t3) as [s4 t4]. cbn [res_bind].
  destruct Rs as (R1 & R2 & R3 & R4 & R5 & R6 & R7 & R8 & R9 & R10).
  assert (reload t4 = 0) as R5' by (rewrite R5; exact R). assert (counter t4 = 0) as R4' by (by rewrite R4).
  destruct (pulse_step (p1 || p2 || p3) s4 t4 R1) as [C5 S5]. set (s5 := if _ || _ || _ then _ else s4) in *.
  rewrite R5', R4'. cbn [Z.eqb].
  pose proof (same_chip_trans _ _ _ S1 (same_chip_trans _ _ _ S2 (same_chip_trans _ _ _ S3 (same_chip_trans _ _ _ R2 S5)))) as Sa.
  destruct (wf_put s s5 i t4 Hw C5 Sa R3 Hi) as [-> W]. eexists _, t4. split; [done|].
  assert (aget (timer (set_timers s5 (<[Z.to_nat i:=t4]> (timer s)))) i = Ok t4) as G
    by (cbn; apply aget_insert_eq; rewrite L; lia).
  split; [|split; [done|]].
  - split; [done|]. split; [cbn; by destruct Sa as (_ & _ & _ & -> & _)|]. exists t4. split; [done|].
    split; [rewrite R6; exact U|]. split; [done|]. split; [done|]. rewrite R9, uwrap_small; lia.
  - rewrite R10. assert (restart_interval t3 = 0) as ->.
    { unfold restart_interval. change (up t3) with (up t). change (counter t3) with 0. change (reload t3) with (reload t).
      change (match1 t3) with (match1 t). change (match2 t3) with (match2 t). rewrite U, R. unfold u32_ok in *.
      zcases; lia. }
    f_equal. rewrite Z.mul_0_l, (uwrap_small 64 0), Z.add_0_r, (uwrap_small 64 now), uwrap_small by lia.
    apply swrap_small; lia.
Qed.

(** ** Claims *)

(** The registers stay within their width.  In every well-formed state a
    guest read, a guest write, a timer callback and reset succeed (no division
    by zero, no access outside the timer array), keep every register within 32
    bits and give a 32-bit value; realize establishes the invariant for every
    clock between 1 Hz and 1 GHz. *)
Theorem fttmr010_accesses_safe now addr val i s : wf s -> 0 <= i < 3 ->
  (exists s' v, fttmr010_mem_read now addr s = Ok (s', v) /\ wf s' /\ 0 <= v < 2 ^ 32) /\
  (exists s', fttmr010_mem_write now addr val s = Ok s' /\ wf s') /\
  (exists s', fttmr010_timer_tick now i s = Ok s' /\ wf s') /\
  wf (fttmr010_reset s) /\
  (forall f, 0 < f <= get_ticks_per_sec -> exists s0, fttmr010_realize f = Ok s0 /\ wf s0).
Proof.
  intros Hw Hi. split; [by apply mem_read_wf|]. split; [by apply mem_write_wf|]. split; [by apply tick_wf|].
  split.
  - destruct Hw as [[? ? ? ?] [L T]]. split; [split; cbn; unfold u32_ok; done || lia|]. split; cbn; [by rewrite length_fmap|].
    intros j t Hj. rewrite aget_fmap in Hj. destruct (aget (timer s) j) as [t0|] eqn:E; [|done]. injection Hj as <-.
    destruct (T j t0 E). split; cbn; unfold u32_ok; done || lia.
  - intros f Hf. unfold fttmr010_realize, c_div, get_ticks_per_sec in *. destruct (Z.eqb_spec f 0); [lia|]. cbn [res_bind].
    eexists. split; [done|]. split; [split; cbn; unfold u32_ok; try lia|split; [done|]].
    + split; [apply Z.div_str_pos; lia|]. apply Z.div_lt_upper_bound; nia.
    + intros j t Hj. apply aget_Ok in Hj as [H0 Hj]. assert (j = 0 \/ j = 1 \/ j = 2) as Hj3.
      { apply lookup_lt_Some in Hj. cbn in Hj. lia. }
      destruct Hj3 as [->|[->| ->]]; injection Hj as <-; split; cbn; unfold u32_ok; done || lia.
Qed.


(** Reading the counter throws away the part of a count that has elapsed:
    a guest that reads an enabled timer more often than once per count sees it
    stand still, for as long as it keeps reading. *)
Theorem polling_freezes_counter i ns s t :
  wf s -> 0 <= i < 3 -> aget (timer s) i = Ok t -> is_set (cr s) (CR_TMR_EN i) = true ->
  0 < counter t < 0xffffffff -> close_by (start t) (step s) ns ->
  polls i ns s = Ok (replicate (length ns) (counter t)).
Proof.
  revert s t. induction ns as [|now ns IH]; intros s t Hw Hi Et En Hc Hcl; [done|].
  cbn [close_by] in Hcl. destruct Hcl as (H1 & H2 & H3). pose proof Hw as [_ [_ T]]. pose proof (to_start _ _ (T i t Et)).
  destruct (poll_frozen now i s t) as (s1 & t1 & E1 & W1 & G1 & C1 & St1 & K1 & S1); [done|done|done|done|done|lia|lia|].
  cbn [polls]. rewrite E1. cbn [res_bind]. rewrite (IH s1 t1); [|done|done|done|by rewrite C1|by rewrite K1|by rewrite S1, St1].
  cbn [res_bind length replicate]. by rewrite K1.
Qed.

(** Enabling a timer that counts down from 0 (the state after reset) hangs
    the timer loop: its callback arms the timer for the same instant, so at a
    standing clock [timerlist_run_timers] does not return, however often it
    goes round. *)
Theorem zero_reload_storms fuel now i tl s :
  0 <= now < 2 ^ 63 -> 0 <= i < 3 -> stuck now i s ->
  timers_ok tl -> enabled tl = true -> active_timers tl = [i] -> expire_time tl i <= now ->
  timerlist_run_timers fuel (tick_callback now) now tl s = Err OutOfFuel.
Proof.
  intros Hn Hi Hs Hok En Ea Ee. unfold timerlist_run_timers. rewrite En. cbn [negb].
  rewrite (run_loop_storm (tick_callback now) (stuck now i) now i fuel); [done| |done..].
  intros tl0 w Ok0 Ea0 Hw. unfold tick_callback. cbn [fst snd].
  destruct (tick_stuck now i w Hn Hi Hw) as (s' & t' & -> & Hs' & -> & ->).
  destruct (timer_mod_spec tl0 i now Ok0) as (K1 & K2 & l1 & l2 & K3 & K4 & _).
  rewrite Ea0 in K3. cbn in K3. symmetry in K3. apply app_eq_nil in K3 as [-> ->].
  split; [done|]. split; [done|]. split; [rewrite K2, Z.eqb_refl; lia|done].
Qed.

(** ** Witnesses *)

(** The chip at 66 MHz after a sequence of register writes at time 0. *)
Fixpoint program (ws : list (Z * Z)) (s : Fttmr010State) : res Fttmr010State :=
  match ws with [] => Ok s | (a, v) :: ws => let* s := fttmr010_mem_write 0 a v s in program ws s end.
Definition boot (ws : list (Z * Z)) : res Fttmr010State :=
  let* s := fttmr010_realize 66000000 in program ws (fttmr010_reset s).

(** A match value equal to the reload value stops the timer.  Counting
    down from 10 with a match and a reload at 5, the callback of the match
    takes the counter for freshly reloaded and does not arm the timer again:
    nothing is pending, and the underflow is never reported. *)
Theorem match_at_reload_stops_timer :
  exists s t, (let* s := boot [(REG_TMR_COUNTER, 10); (REG_TMR_RELOAD, 5); (REG_TMR_MATCH1, 5); (REG_CR, 5)] in
               fttmr010_timer_tick 75 0 s) = Ok s /\
    aget (timer s) 0 = Ok t /\ is_set (cr s) (CR_TMR_EN 0) = true /\ counter t = 5 /\ qtimer t = None /\
    Z.testbit (isr s) 2 = false.
Proof. eexists _, _. split; [vm_compute; reflexivity|]. split; [reflexivity|]. done. Qed.

Definition or_blank (r : res Fttmr010State) : Fttmr010State :=
  match r with Ok s => s | Err _ => mkState [] 0 0 0 0 0 [] end.
Definition running : Fttmr010State :=
  or_blank (boot [(REG_TMR_COUNTER, 100); (REG_TMR_RELOAD, 100); (REG_CR, 5)]).

Lemma boot_wf ws s : boot ws = Ok s -> wf s.
Proof.
  unfold boot. destruct (fttmr010_realize 66000000) as [s0|] eqn:E; [|done]. cbn [res_bind].
  assert (wf (fttmr010_reset s0)) as W.
  { vm_compute in E. injection E as <-. split; [split; cbn; unfold u32_ok; lia|split; [done|]].
    intros j t Hj. apply aget_Ok in Hj as [H0 Hj]. assert (j = 0 \/ j = 1 \/ j = 2) as Hj3.
    { apply lookup_lt_Some in Hj. cbn in Hj. lia. }
    destruct Hj3 as [->|[->| ->]]; injection Hj as <-; split; cbn; unfold u32_ok; done || lia. }
  clear E. revert W. generalize (fttmr010_reset s0). induction ws as [|[a v] ws IH]; intros s1 W1 E; [by injection E as <-|].
  cbn [program] in E. destruct (mem_write_wf 0 a v s1 W1) as (s2 & E2 & W2). rewrite E2 in E. cbn [res_bind] in E. by apply (IH s2).
Qed.

Lemma running_wf : wf running.
Proof. apply (boot_wf [(REG_TMR_COUNTER, 100); (REG_TMR_RELOAD, 100); (REG_CR, 5)]). vm_compute. reflexivity. Qed.

Lemma fttmr010_accesses_safe_witness : exists s, fttmr010_mem_write 7 REG_CR 0 running = Ok s /\ wf s.
Proof. exact (proj1 (proj2 (fttmr010_accesses_safe 7 REG_CR 0 0 running running_wf ltac:(lia)))). Defined.


Lemma polling_freezes_counter_witness : polls 0 [14; 28; 42] running = Ok [100; 100; 100].
Proof.
  exact (polling_freezes_counter 0 [14; 28; 42] running (mkTimer 0 false 0 false false 100 100 0 0 (Some 1500))
    running_wf ltac:(lia) eq_refl eq_refl ltac:(cbn; lia) ltac:(vm_compute; repeat split; done)).
Defined.

Definition stuck_state : Fttmr010State := or_blank (boot [(REG_CR, 1)]).
Definition stuck_list : QEMUTimerList := mkTL true [0] {[0 := 0]}.

Lemma stuck_list_ok : timers_ok stuck_list.
Proof.
  split.
  - by apply (bool_decide_unpack _).
  - repeat constructor.
  - intros ts Hts. cbn in Hts. set_unfold. destruct Hts as [->|[]]. vm_compute. done.
  - intros ts Hts. unfold expire_time. cbn [expire_times stuck_list]. cbn in Hts. rewrite lookup_singleton_ne; [done|set_solver].
Qed.

Lemma stuck_state_ok now : 0 <= now -> stuck now 0 stuck_state.
Proof.
  intros Hn. split; [apply (boot_wf [(REG_CR, 1)]); vm_compute; reflexivity|]. split; [vm_compute; reflexivity|].
  eexists. split; [vm_compute; reflexivity|]. split_and!; done.
Qed.

Lemma zero_reload_storms_witness :
  timerlist_run_timers 1000 (tick_callback 0) 0 stuck_list stuck_state = Err OutOfFuel.
Proof.
  exact (zero_reload_storms 1000 0 0 stuck_list stuck_state ltac:(lia) ltac:(lia) (stuck_state_ok 0 ltac:(lia))
    stuck_list_ok eq_refl eq_refl ltac:(vm_compute; done)).
Defined.

End Fttmr010.
