(* ===== verification/Bitops.v ===== *)
(** * Bit operations and bitmaps

    [include/qemu/bitops.h], [util/bitops.c], [include/qemu/bitmap.h] and
    [util/bitmap.c] on a host whose [unsigned long] has 64 bits.  A bitmap is a
    list of 64-bit words; an access outside it is a fault.  [bit l i] is the
    abstract view of a bitmap as a set of bit numbers, and the claims state
    what each routine does to that set. *)

From stdpp Require Import base list numbers.
From S2P Require Import Prelude HostUtils.

Definition BITS_PER_LONG : Z := 64.
Definition BIT_MASK (nr : Z) : Z := u64 (Z.shiftl 1 (nr mod BITS_PER_LONG)).
Definition BIT_WORD (nr : Z) : Z := nr / BITS_PER_LONG.
Definition BITS_TO_LONGS (nr : Z) : Z := (nr + 63) / 64.
(** [~0UL] and [~w]. *)
Definition ALL_ONES : Z := 2 ^ 64 - 1.
Definition lnot64 (w : Z) : Z := u64 (Z.lnot w).

(** ** Single bits *)

Definition set_bit (nr : Z) (addr : list Z) : res (list Z) :=
  let* w := aget addr (BIT_WORD nr) in aset addr (BIT_WORD nr) (Z.lor w (BIT_MASK nr)).

Definition clear_bit (nr : Z) (addr : list Z) : res (list Z) :=
  let* w := aget addr (BIT_WORD nr) in
  aset addr (BIT_WORD nr) (Z.land w (lnot64 (BIT_MASK nr))).

Definition change_bit (nr : Z) (addr : list Z) : res (list Z) :=
  let* w := aget addr (BIT_WORD nr) in aset addr (BIT_WORD nr) (Z.lxor w (BIT_MASK nr)).

Definition test_and_set_bit (nr : Z) (addr : list Z) : res (bool * list Z) :=
  let* old := aget addr (BIT_WORD nr) in
  let* addr := aset addr (BIT_WORD nr) (Z.lor old (BIT_MASK nr)) in
  Ok (negb (Z.land old (BIT_MASK nr) =? 0), addr).

Definition test_and_clear_bit (nr : Z) (addr : list Z) : res (bool * list Z) :=
  let* old := aget addr (BIT_WORD nr) in
  let* addr := aset addr (BIT_WORD nr) (Z.land old (lnot64 (BIT_MASK nr))) in
  Ok (negb (Z.land old (BIT_MASK nr) =? 0), addr).

Definition test_and_change_bit (nr : Z) (addr : list Z) : res (bool * list Z) :=
  let* old := aget addr (BIT_WORD nr) in
  let* addr := aset addr (BIT_WORD nr) (Z.lxor old (BIT_MASK nr)) in
  Ok (negb (Z.land old (BIT_MASK nr) =? 0), addr).

Definition test_bit (nr : Z) (addr : list Z) : res Z :=
  let* w := aget addr (BIT_WORD nr) in
  Ok (Z.land 1 (Z.shiftr w (Z.land nr (BITS_PER_LONG - 1)))).

(** ** Searches

    The labels [found_first] and [found_middle] are functions; a pointer into
    the bitmap is a word index.  [size] never wraps: each subtraction follows
    the comparison that bounds it. *)

Definition found_middle (result tmp : Z) : res Z := Ok (result + ctz64 tmp).

Definition found_first (size result tmp : Z) : res Z :=
  let* _ := c_shift 64 (BITS_PER_LONG - size) in
  let tmp := Z.land tmp (Z.shiftr ALL_ONES (BITS_PER_LONG - size)) in
  if tmp =? 0 then Ok (result + size) else found_middle result tmp.

(** The second loop and the tail. *)
Fixpoint find_next_bit_loop1 (fuel : nat) (addr : list Z) (p size result : Z) : res Z :=
  match fuel with
  | O => Err OutOfFuel
  | S fuel =>
      if BITS_PER_LONG <=? size then
        let* tmp := aget addr p in
        if negb (tmp =? 0) then found_middle result tmp
        else find_next_bit_loop1 fuel addr (p + 1) (size - BITS_PER_LONG) (result + BITS_PER_LONG)
      else if size =? 0 then Ok result
      else let* tmp := aget addr p in found_first size result tmp
  end.

(** The unrolled loop over four words. *)
Fixpoint find_next_bit_loop4 (fuel : nat) (addr : list Z) (p size result : Z) : res Z :=
  match fuel with
  | O => Err OutOfFuel
  | S fuel' =>
      if 4 * BITS_PER_LONG <=? size then
        let* tmp := aget addr p in
        let* d1 := aget addr (p + 1) in
        let* d2 := aget addr (p + 2) in
        let* d3 := aget addr (p + 3) in
        if negb (tmp =? 0) then found_middle result tmp
        else if negb (Z.lor (Z.lor d1 d2) d3 =? 0)
        then find_next_bit_loop1 fuel addr p size result
        else find_next_bit_loop4 fuel' addr (p + 4) (size - 4 * BITS_PER_LONG)
               (result + 4 * BITS_PER_LONG)
      else find_next_bit_loop1 fuel addr p size result
  end.

(** Iterations that suffice for a search over [size] bits: one per word, and
    one to leave the loop. *)
Definition search_fuel (size : Z) : nat := S (S (Z.to_nat (size / 64))).

Definition find_next_bit (addr : list Z) (size offset : Z) : res Z :=
  let p := BIT_WORD offset in
  let result := Z.land offset (lnot64 (BITS_PER_LONG - 1)) in
  if size <=? offset then Ok size else
  let fuel := search_fuel size in
  let size := size - result in
  let offset := offset mod BITS_PER_LONG in
  if negb (offset =? 0) then
    let* tmp := aget addr p in
    let tmp := Z.land tmp (u64 (Z.shiftl ALL_ONES offset)) in
    if size <? BITS_PER_LONG then found_first size result tmp
    else if negb (tmp =? 0) then found_middle result tmp
    else find_next_bit_loop4 fuel addr (p + 1) (size - BITS_PER_LONG) (result + BITS_PER_LONG)
  else find_next_bit_loop4 fuel addr p size result.

Definition find_first_bit (addr : list Z) (size : Z) : res Z := find_next_bit addr size 0.

Definition zero_found_middle (result tmp : Z) : res Z := Ok (result + ctz64 (lnot64 tmp)).

Definition zero_found_first (size result tmp : Z) : res Z :=
  let* _ := c_shift 64 size in
  let tmp := Z.lor tmp (u64 (Z.shiftl ALL_ONES size)) in
  if tmp =? ALL_ONES then Ok (result + size) else zero_found_middle result tmp.

Fixpoint find_next_zero_bit_loop (fuel : nat) (addr : list Z) (p size result : Z) : res Z :=
  match fuel with
  | O => Err OutOfFuel
  | S fuel =>
      if negb (Z.land size (lnot64 (BITS_PER_LONG - 1)) =? 0) then
        let* tmp := aget addr p in
        if negb (lnot64 tmp =? 0) then zero_found_middle result tmp
        else find_next_zero_bit_loop fuel addr (p + 1) (size - BITS_PER_LONG) (result + BITS_PER_LONG)
      else if size =? 0 then Ok result
      else let* tmp := aget addr p in zero_found_first size result tmp
  end.

Definition find_next_zero_bit (addr : list Z) (size offset : Z) : res Z :=
  let p := BIT_WORD offset in
  let result := Z.land offset (lnot64 (BITS_PER_LONG - 1)) in
  if size <=? offset then Ok size else
  let fuel := search_fuel size in
  let size := size - result in
  let offset := offset mod BITS_PER_LONG in
  if negb (offset =? 0) then
    let* tmp := aget addr p in
    let tmp := Z.lor tmp (Z.shiftr ALL_ONES (BITS_PER_LONG - offset)) in
    if size <? BITS_PER_LONG then zero_found_first size result tmp
    else if negb (lnot64 tmp =? 0) then zero_found_middle result tmp
    else find_next_zero_bit_loop fuel addr (p + 1) (size - BITS_PER_LONG) (result + BITS_PER_LONG)
  else find_next_zero_bit_loop fuel addr p size result.

Definition find_first_zero_bit (addr : list Z) (size : Z) : res Z :=
  find_next_zero_bit addr size 0.

(** The label [found] of [find_last_bit]. *)
Definition last_found (words tmp : Z) : Z :=
  words * BITS_PER_LONG + BITS_PER_LONG - 1 - clz64 tmp.

(** [while (words)], over the number of words left. *)
Fixpoint find_last_bit_loop (words : nat) (addr : list Z) (size : Z) : res Z :=
  match words with
  | O => Ok size
  | S words =>
      let* tmp := aget addr (Z.of_nat words) in
      if negb (tmp =? 0) then Ok (last_found (Z.of_nat words) tmp)
      else find_last_bit_loop words addr size
  end.

Definition find_last_bit (addr : list Z) (size : Z) : res Z :=
  let words := size / BITS_PER_LONG in
  let part := Z.land size (BITS_PER_LONG - 1) in
  if negb (part =? 0) then
    let* w := aget addr words in
    let tmp := Z.land w (Z.shiftr ALL_ONES (BITS_PER_LONG - part)) in
    if negb (tmp =? 0) then Ok (last_found words tmp)
    else find_last_bit_loop (Z.to_nat words) addr size
  else find_last_bit_loop (Z.to_nat words) addr size.

(** [for (count = 0; w; w >>= 1) count += w & 1;], at most 64 rounds. *)
Fixpoint hweight_loop (fuel : nat) (w count : Z) : res Z :=
  if w =? 0 then Ok count else
  match fuel with
  | O => Err OutOfFuel
  | S fuel => hweight_loop fuel (Z.shiftr w 1) (count + Z.land w 1)
  end.
Definition hweight_long (w : Z) : res Z := hweight_loop 64 w 0.

(** ** Rotations, bit fields, reversal *)

(** 8- and 16-bit operands are promoted to [int]: a shift by the full operand
    width is defined.  For 32 and 64 bits it is not. *)
Definition rol8 (word shift : Z) : res Z :=
  let* _ := c_shift 32 shift in let* _ := c_shift 32 (8 - shift) in
  Ok (u8 (Z.lor (Z.shiftl word shift) (Z.shiftr word (8 - shift)))).
Definition ror8 (word shift : Z) : res Z :=
  let* _ := c_shift 32 shift in let* _ := c_shift 32 (8 - shift) in
  Ok (u8 (Z.lor (Z.shiftr word shift) (Z.shiftl word (8 - shift)))).
Definition rol16 (word shift : Z) : res Z :=
  let* _ := c_shift 32 shift in let* _ := c_shift 32 (16 - shift) in
  Ok (u16 (Z.lor (Z.shiftl word shift) (Z.shiftr word (16 - shift)))).
Definition ror16 (word shift : Z) : res Z :=
  let* _ := c_shift 32 shift in let* _ := c_shift 32 (16 - shift) in
  Ok (u16 (Z.lor (Z.shiftr word shift) (Z.shiftl word (16 - shift)))).
Definition rol32 (word shift : Z) : res Z :=
  let* _ := c_shift 32 shift in let* _ := c_shift 32 (32 - shift) in
  Ok (Z.lor (u32 (Z.shiftl word shift)) (Z.shiftr word (32 - shift))).
Definition ror32 (word shift : Z) : res Z :=
  let* _ := c_shift 32 shift in let* _ := c_shift 32 (32 - shift) in
  Ok (Z.lor (Z.shiftr word shift) (u32 (Z.shiftl word (32 - shift)))).
Definition rol64 (word shift : Z) : res Z :=
  let* _ := c_shift 64 shift in let* _ := c_shift 64 (64 - shift) in
  Ok (Z.lor (u64 (Z.shiftl word shift)) (Z.shiftr word (64 - shift))).
Definition ror64 (word shift : Z) : res Z :=
  let* _ := c_shift 64 shift in let* _ := c_shift 64 (64 - shift) in
  Ok (Z.lor (Z.shiftr word shift) (u64 (Z.shiftl word (64 - shift)))).

(** The assertion of the bit-field functions on a [w]-bit word. *)
Definition field_ok (w start length : Z) : bool :=
  (0 <=? start) && (0 <? length) && (length <=? w - start).

Definition extract32 (value start length : Z) : res Z :=
  let* _ := c_assert (field_ok 32 start length) in
  Ok (Z.land (Z.shiftr value start) (Z.shiftr (2 ^ 32 - 1) (32 - length))).
Definition extract64 (value start length : Z) : res Z :=
  let* _ := c_assert (field_ok 64 start length) in
  Ok (Z.land (Z.shiftr value start) (Z.shiftr (2 ^ 64 - 1) (64 - length))).
Definition sextract32 (value start length : Z) : res Z :=
  let* _ := c_assert (field_ok 32 start length) in
  Ok (Z.shiftr (s32 (u32 (Z.shiftl value (32 - length - start)))) (32 - length)).
(** The declared result type is [uint64_t]. *)
Definition sextract64 (value start length : Z) : res Z :=
  let* _ := c_assert (field_ok 64 start length) in
  Ok (u64 (Z.shiftr (s64 (u64 (Z.shiftl value (64 - length - start)))) (64 - length))).
Definition deposit32 (value start length fieldval : Z) : res Z :=
  let* _ := c_assert (field_ok 32 start length) in
  let mask := u32 (Z.shiftl (Z.shiftr (2 ^ 32 - 1) (32 - length)) start) in
  Ok (Z.lor (Z.land value (u32 (Z.lnot mask))) (Z.land (u32 (Z.shiftl fieldval start)) mask)).
Definition deposit64 (value start length fieldval : Z) : res Z :=
  let* _ := c_assert (field_ok 64 start length) in
  let mask := u64 (Z.shiftl (Z.shiftr (2 ^ 64 - 1) (64 - length)) start) in
  Ok (Z.lor (Z.land value (u64 (Z.lnot mask))) (Z.land (u64 (Z.shiftl fieldval start)) mask)).

Definition bitrev8 (value : Z) : Z :=
  let value := u8 (Z.lor (Z.shiftr (Z.land value 0xF0) 4) (Z.shiftl (Z.land value 0x0F) 4)) in
  let value := u8 (Z.lor (Z.shiftr (Z.land value 0xCC) 2) (Z.shiftl (Z.land value 0x33) 2)) in
  u8 (Z.lor (Z.shiftr (Z.land value 0xAA) 1) (Z.shiftl (Z.land value 0x55) 1)).
Definition bitrev16 (value : Z) : Z :=
  u16 (Z.lor (Z.shiftl (bitrev8 (Z.land value 0xff)) 8) (bitrev8 (u8 (Z.shiftr value 8)))).
Definition bitrev32 (value : Z) : Z :=
  u32 (Z.lor (Z.shiftl (bitrev16 (Z.land value 0xffff)) 16) (bitrev16 (u16 (Z.shiftr value 16)))).
Definition bitrev64 (value : Z) : Z :=
  u64 (Z.lor (Z.shiftl (bitrev32 (Z.land value 0xffffffff)) 32)
             (bitrev32 (u32 (Z.shiftr value 32)))).

(** ** The abstract view *)

Definition words_ok (l : list Z) : Prop := Forall (fun w => 0 <= w < 2 ^ 64) l.

(** Bit [i] of the bitmap; false outside it. *)
Definition bit (l : list Z) (i : Z) : bool :=
  match l !! Z.to_nat (i / 64) with
  | Some w => Z.testbit w (i mod 64)
  | None => false
  end.

(** [r] is the first position of [from, size) where [P] holds, or [size]. *)
Definition first_in (P : Z -> bool) (from size r : Z) : Prop :=
  from <= r <= size /\ (forall i, from <= i < r -> P i = false) /\ (r < size -> P r = true).

Lemma words_lookup l k w : words_ok l -> l !! k = Some w -> 0 <= w < 2 ^ 64.
Proof. intros H Hk. by apply (Forall_lookup_1 _ _ _ _ H Hk). Qed.

Lemma words_insert l k w : words_ok l -> 0 <= w < 2 ^ 64 -> words_ok (<[k := w]> l).
Proof. intros. by apply Forall_insert. Qed.

Lemma bit_word l k w j :
  l !! Z.to_nat k = Some w -> 0 <= k -> 0 <= j < 64 -> bit l (64 * k + j) = Z.testbit w j.
Proof.
  intros H Hk Hj. unfold bit.
  replace ((64 * k + j) / 64) with k by dlia. rewrite H. f_equal. dlia.
Qed.

Lemma bit_insert l k w i :
  0 <= k < Z.of_nat (length l) -> 0 <= i ->
  bit (<[Z.to_nat k := w]> l) i = if i / 64 =? k then Z.testbit w (i mod 64) else bit l i.
Proof.
  intros Hk Hi. unfold bit. destruct (Z.eqb_spec (i / 64) k) as [->|N].
  - rewrite list_lookup_insert_eq by lia. done.
  - rewrite list_lookup_insert_ne by dlia. done.
Qed.

Lemma bit_mask_testbit nr j :
  0 <= nr -> 0 <= j < 64 -> Z.testbit (BIT_MASK nr) j = (j =? nr mod 64).
Proof.
  intros. unfold BIT_MASK, BITS_PER_LONG. pose proof (Z.mod_pos_bound nr 64).
  autorewrite with zbits; try lia; zcases; try done; lia.
Qed.

Lemma bit_mask_range nr : 0 <= BIT_MASK nr < 2 ^ 64.
Proof. apply uwrap_range. lia. Qed.

Lemma lnot64_range w : 0 <= lnot64 w < 2 ^ 64.
Proof. apply uwrap_range. lia. Qed.

Lemma lnot64_testbit w j : 0 <= j < 64 -> Z.testbit (lnot64 w) j = negb (Z.testbit w j).
Proof. intros. unfold lnot64. autorewrite with zbits; try lia. zcases; [done|lia]. Qed.

Create HintDb bitops.
#[export] Hint Resolve bit_mask_range lnot64_range words_insert : bitops.

(** Reading the word that holds bit [nr]. *)
Lemma word_of_bit l nr :
  0 <= nr < 64 * Z.of_nat (length l) ->
  exists w, aget l (BIT_WORD nr) = Ok w /\ l !! Z.to_nat (nr / 64) = Some w /\
    bit l nr = Z.testbit w (nr mod 64) /\ 0 <= nr / 64 < Z.of_nat (length l).
Proof.
  intros H. assert (0 <= nr / 64 < Z.of_nat (length l)) as B by dlia.
  destruct (aget_total l (nr / 64) B) as [w Hw]. exists w. split; [done|].
  apply aget_Ok in Hw as [_ Hw]. unfold bit. rewrite Hw. done.
Qed.

(** A read-modify-write of the word that holds bit [nr] with an operation that
    acts bitwise. *)
Lemma rmw_bit (f : Z -> Z) (g : bool -> bool) l nr :
  words_ok l -> 0 <= nr < 64 * Z.of_nat (length l) ->
  (forall w, 0 <= w < 2 ^ 64 -> 0 <= f w < 2 ^ 64) ->
  (forall w j, 0 <= j < 64 ->
     Z.testbit (f w) j = if j =? nr mod 64 then g (Z.testbit w j) else Z.testbit w j) ->
  exists w l', aget l (BIT_WORD nr) = Ok w /\ Z.testbit w (nr mod 64) = bit l nr /\
    0 <= w < 2 ^ 64 /\
    aset l (BIT_WORD nr) (f w) = Ok l' /\ words_ok l' /\ length l' = length l /\
    forall i, 0 <= i -> bit l' i = if i =? nr then g (bit l nr) else bit l i.
Proof.
  intros Hl Hn Hr Hf. destruct (word_of_bit l nr Hn) as (w & E & Hw & Hb & B).
  pose proof (words_lookup _ _ _ Hl Hw) as Rw.
  exists w, (<[Z.to_nat (BIT_WORD nr) := f w]> l). split; [done|]. split; [done|]. split; [done|].
  split; [by apply aset_total|]. split; [apply words_insert; auto|].
  split; [apply length_insert|]. intros i Hi. unfold BIT_WORD, BITS_PER_LONG.
  rewrite bit_insert by done. pose proof (Z.mod_pos_bound i 64).
  destruct (Z.eqb_spec (i / 64) (nr / 64)) as [D|D].
  - rewrite Hf by lia. destruct (Z.eqb_spec (i mod 64) (nr mod 64)) as [M|M].
    + assert (i = nr) as -> by dlia. rewrite Z.eqb_refl. by rewrite Hb.
    + destruct (Z.eqb_spec i nr); [congruence|]. unfold bit. rewrite D, Hw. done.
  - destruct (Z.eqb_spec i nr); [congruence|done].
Qed.

Lemma set_word_bits nr w j : 0 <= nr -> 0 <= j < 64 ->
  Z.testbit (Z.lor w (BIT_MASK nr)) j = if j =? nr mod 64 then true else Z.testbit w j.
Proof.
  intros. rewrite Z.lor_spec, bit_mask_testbit by lia.
  destruct (j =? nr mod 64); [apply orb_true_r|apply orb_false_r].
Qed.

Lemma clear_word_bits nr w j : 0 <= nr -> 0 <= j < 64 ->
  Z.testbit (Z.land w (lnot64 (BIT_MASK nr))) j = if j =? nr mod 64 then false else Z.testbit w j.
Proof.
  intros. rewrite Z.land_spec, lnot64_testbit, bit_mask_testbit by lia.
  destruct (j =? nr mod 64); [apply andb_false_r|apply andb_true_r].
Qed.

Lemma change_word_bits nr w j : 0 <= nr -> 0 <= j < 64 ->
  Z.testbit (Z.lxor w (BIT_MASK nr)) j = if j =? nr mod 64 then negb (Z.testbit w j) else Z.testbit w j.
Proof.
  intros. rewrite Z.lxor_spec, bit_mask_testbit by lia.
  destruct (j =? nr mod 64); [apply xorb_true_r|apply xorb_false_r].
Qed.

(** [(old & mask) != 0] tests the bit. *)
Lemma old_bit_test nr w : 0 <= nr -> 0 <= w < 2 ^ 64 ->
  negb (Z.land w (BIT_MASK nr) =? 0) = Z.testbit w (nr mod 64).
Proof.
  intros Hn Hw. pose proof (Z.mod_pos_bound nr 64).
  destruct (Z.eqb_spec (Z.land w (BIT_MASK nr)) 0) as [E|E]; cbn.
  - assert (Z.testbit (Z.land w (BIT_MASK nr)) (nr mod 64) = false) as F
      by (rewrite E; apply Z.testbit_0_l).
    rewrite Z.land_spec, bit_mask_testbit, Z.eqb_refl, andb_true_r in F by lia. done.
  - destruct (Z.testbit w (nr mod 64)) eqn:T; [done|]. destruct E. zbits.
    destruct (Z.ltb_spec i 64); [|rewrite (testbit_high w 64) by lia; done].
    rewrite bit_mask_testbit by lia.
    destruct (Z.eqb_spec i (nr mod 64)) as [->|]; [by rewrite T|apply andb_false_r].
Qed.

Lemma test_bit_spec l nr :
  0 <= nr < 64 * Z.of_nat (length l) -> test_bit nr l = Ok (b2z (bit l nr)).
Proof.
  intros H. destruct (word_of_bit l nr H) as (w & E & _ & -> & _).
  unfold test_bit. rewrite E. cbn [res_bind]. f_equal.
  change (BITS_PER_LONG - 1) with (Z.ones 6). rewrite Z.land_ones by lia.
  change (2 ^ 6) with 64. rewrite Z.land_comm. change 1 with (Z.ones 1) at 1.
  rewrite Z.land_ones by lia. change (2 ^ 1) with 2.
  pose proof (Z.mod_pos_bound nr 64). rewrite <- Z.bit0_mod, Z.shiftr_spec by lia.
  rewrite Z.add_0_l. by destruct (Z.testbit w (nr mod 64)).
Qed.

(** The effect of an update on the set of bits. *)
Definition updates (f : bool -> bool) (nr : Z) (l l' : list Z) : Prop :=
  words_ok l' /\ length l' = length l /\
  forall i, 0 <= i -> bit l' i = if i =? nr then f (bit l nr) else bit l i.

Lemma set_bit_spec l nr : words_ok l -> 0 <= nr < 64 * Z.of_nat (length l) ->
  exists l', set_bit nr l = Ok l' /\ test_and_set_bit nr l = Ok (bit l nr, l') /\
    updates (fun _ => true) nr l l'.
Proof.
  intros Hl Hn.
  destruct (rmw_bit (fun w => Z.lor w (BIT_MASK nr)) (fun _ => true) l nr Hl Hn)
    as (w & l' & E & Hb & Hw & E' & Hl' & Hlen & H).
  - intros. apply lor_range; auto using bit_mask_range. lia.
  - intros. apply set_word_bits; lia.
  - exists l'. unfold set_bit, test_and_set_bit. rewrite E. cbn [res_bind].
    rewrite E', old_bit_test, Hb by lia. done.
Qed.

Lemma clear_bit_spec l nr : words_ok l -> 0 <= nr < 64 * Z.of_nat (length l) ->
  exists l', clear_bit nr l = Ok l' /\ test_and_clear_bit nr l = Ok (bit l nr, l') /\
    updates (fun _ => false) nr l l'.
Proof.
  intros Hl Hn.
  destruct (rmw_bit (fun w => Z.land w (lnot64 (BIT_MASK nr))) (fun _ => false) l nr Hl Hn)
    as (w & l' & E & Hb & Hw & E' & Hl' & Hlen & H).
  - intros. apply land_range; auto. lia.
  - intros. apply clear_word_bits; lia.
  - exists l'. unfold clear_bit, test_and_clear_bit. rewrite E. cbn [res_bind].
    rewrite E', old_bit_test, Hb by lia. done.
Qed.

Lemma change_bit_spec l nr : words_ok l -> 0 <= nr < 64 * Z.of_nat (length l) ->
  exists l', change_bit nr l = Ok l' /\ test_and_change_bit nr l = Ok (bit l nr, l') /\
    updates negb nr l l'.
Proof.
  intros Hl Hn.
  destruct (rmw_bit (fun w => Z.lxor w (BIT_MASK nr)) negb l nr Hl Hn)
    as (w & l' & E & Hb & Hw & E' & Hl' & Hlen & H).
  - intros. apply lxor_range; auto using bit_mask_range. lia.
  - intros. apply change_word_bits; lia.
  - exists l'. unfold change_bit, test_and_change_bit. rewrite E. cbn [res_bind].
    rewrite E', old_bit_test, Hb by lia. done.
Qed.

(** ** Searches: facts on one word *)

Lemma all_ones_ones : ALL_ONES = Z.ones 64.
Proof. done. Qed.

Lemma low_mask_testbit n j : 0 <= n <= 64 -> 0 <= j < 64 ->
  Z.testbit (Z.shiftr ALL_ONES (64 - n)) j = (j <? n).
Proof.
  intros. rewrite all_ones_ones. autorewrite with zbits; lia.
Qed.

Lemma low_mask_range n : 0 <= n <= 64 -> 0 <= Z.shiftr ALL_ONES (64 - n) < 2 ^ 64.
Proof.
  intros. rewrite all_ones_ones. apply bits_range; [lia|]. intros i Hi.
  autorewrite with zbits; lia.
Qed.

Lemma high_mask_testbit n j : 0 <= n < 64 -> 0 <= j < 64 ->
  Z.testbit (u64 (Z.shiftl ALL_ONES n)) j = (n <=? j).
Proof.
  intros. rewrite all_ones_ones. autorewrite with zbits; try lia.
  destruct (Z.leb_spec n j).
  - autorewrite with zbits. zcases; lia || done.
  - rewrite Z.testbit_neg_r by lia. apply andb_false_r.
Qed.

Lemma word_down offset : 0 <= offset < 2 ^ 64 ->
  Z.land offset (lnot64 (BITS_PER_LONG - 1)) = 64 * (offset / 64).
Proof.
  intros H. transitivity (Z.ldiff offset (Z.ones 6)).
  - zbits. destruct (Z.ltb_spec i 64).
    + rewrite lnot64_testbit by lia. change (BITS_PER_LONG - 1) with (Z.ones 6). autorewrite with zbits. done.
    + rewrite (testbit_high offset 64) by lia. done.
  - rewrite Z.ldiff_ones_r, Z.shiftr_div_pow2, Z.shiftl_mul_pow2 by lia. dlia.
Qed.

Lemma ctz64_spec tmp : 0 < tmp < 2 ^ 64 ->
  0 <= ctz64 tmp < 64 /\ Z.testbit tmp (ctz64 tmp) = true /\
  forall j, 0 <= j < ctz64 tmp -> Z.testbit tmp j = false.
Proof.
  intros H. unfold ctz64. destruct (Z.eqb_spec tmp 0); [lia|].
  pose proof (CountFacts.builtin_ctz_nonneg tmp).
  pose proof (CountFacts.builtin_ctz_lt tmp 64 ltac:(lia) ltac:(lia)).
  split; [lia|]. split; [apply CountFacts.builtin_ctz_bit; lia|].
  intros. apply CountFacts.builtin_ctz_low; lia.
Qed.

Lemma word_zero w : 0 <= w < 2 ^ 64 -> (forall j, 0 <= j < 64 -> Z.testbit w j = false) -> w = 0.
Proof.
  intros Hw H. zbits. destruct (Z.ltb_spec i 64); [apply H; lia|].
  apply (testbit_high w 64); lia.
Qed.

Section Search.
Context (P : Z -> bool) (from size : Z).

(** [tmp] holds the candidates of the word at [base]. *)
Definition candidates (base tmp : Z) : Prop :=
  0 <= tmp < 2 ^ 64 /\
  forall j, 0 <= j < 64 ->
    Z.testbit tmp j = (from <=? base + j) && (base + j <? size) && P (base + j).

Definition none_below (base : Z) : Prop :=
  forall i, from <= i < base -> i < size -> P i = false.

Lemma candidates_found base tmp :
  candidates base tmp -> none_below base -> tmp <> 0 ->
  first_in P from size (base + ctz64 tmp).
Proof.
  intros [Ht Hc] Hb Hz. destruct (ctz64_spec tmp ltac:(lia)) as (Hr & H1 & H0).
  rewrite Hc in H1 by lia. apply andb_true_iff in H1 as [H1 HP].
  apply andb_true_iff in H1 as [Hf Hs].
  split; [lia|]. split; [|done]. intros i Hi.
  destruct (Z.ltb_spec i base); [apply Hb; lia|].
  specialize (H0 (i - base) ltac:(lia)). rewrite Hc in H0 by lia.
  replace (base + (i - base)) with i in H0 by lia.
  destruct (Z.leb_spec from i), (Z.ltb_spec i size); [done|lia|lia|lia].
Qed.

Lemma candidates_none base : candidates base 0 -> none_below base -> none_below (base + 64).
Proof.
  intros [_ Hc] Hb i Hi Hs. destruct (Z.ltb_spec i base); [apply Hb; lia|].
  specialize (Hc (i - base) ltac:(lia)). rewrite Z.testbit_0_l in Hc.
  replace (base + (i - base)) with i in Hc by lia.
  destruct (Z.leb_spec from i), (Z.ltb_spec i size); [done|lia|lia|lia].
Qed.

Lemma none_first base :
  from <= size -> size <= base -> none_below base -> first_in P from size size.
Proof.
  intros Hf Hs Hb. split; [lia|]. split; [|lia]. intros. apply Hb; lia.
Qed.
End Search.

(** ** [find_next_bit] *)

Section FindNextBit.
Context (l : list Z) (from size : Z).
Context (Hl : words_ok l) (Hsize : size <= 64 * Z.of_nat (length l)).
Context (Hfrom : 0 <= from < size) (Hsz : size < 2 ^ 64).

(** The word at index [p], restricted by the masks. *)
Lemma word_candidates p w tmp :
  0 <= p -> l !! Z.to_nat p = Some w -> 0 <= tmp < 2 ^ 64 ->
  (forall j, 0 <= j < 64 -> Z.testbit tmp j =
     (from <=? 64 * p + j) && (64 * p + j <? size) && Z.testbit w j) ->
  candidates (bit l) from size (64 * p) tmp.
Proof.
  intros Hp Hw Ht H. split; [done|]. intros j Hj. rewrite H, (bit_word l p w) by done. done.
Qed.

Lemma read_word p : 0 <= p -> 64 * p < size ->
  exists w, aget l p = Ok w /\ l !! Z.to_nat p = Some w /\ 0 <= w < 2 ^ 64.
Proof.
  intros Hp Hs. destruct (aget_total l p ltac:(lia)) as [w Hw]. exists w. split; [done|].
  apply aget_Ok in Hw as [_ Hw]. eauto using words_lookup.
Qed.

Lemma found_first_spec p w tmp :
  0 <= p -> 64 * p < size -> size - 64 * p < 64 -> l !! Z.to_nat p = Some w ->
  0 <= tmp < 2 ^ 64 ->
  (forall j, 0 <= j < 64 -> Z.testbit tmp j = (from <=? 64 * p + j) && Z.testbit w j) ->
  none_below (bit l) from size (64 * p) ->
  exists r, found_first (size - 64 * p) (64 * p) tmp = Ok r /\ first_in (bit l) from size r.
Proof.
  intros Hp Hs Hr Hw Ht Hc Hb. unfold found_first, BITS_PER_LONG.
  rewrite c_shift_ok by lia. cbn [res_bind].
  set (t := Z.land tmp _).
  assert (candidates (bit l) from size (64 * p) t) as C.
  { apply (word_candidates p w); [done|done|apply land_range; lia|]. intros j Hj. subst t.
    rewrite Z.land_spec, low_mask_testbit, Hc by lia.
    zcases; rewrite ?andb_true_r, ?andb_false_r; done || lia. }
  destruct (Z.eqb_spec t 0) as [E|E].
  - exists (64 * p + (size - 64 * p)). split; [done|]. rewrite E in C.
    replace (64 * p + (size - 64 * p)) with size by lia.
    eapply none_first; [lia| |by apply candidates_none]. lia.
  - exists (64 * p + ctz64 t). split; [done|]. by apply candidates_found.
Qed.

(** A whole word that lies in the range. *)
Lemma full_word p w : 0 <= p -> from <= 64 * p -> 64 * p + 64 <= size ->
  l !! Z.to_nat p = Some w -> candidates (bit l) from size (64 * p) w.
Proof.
  intros Hp Hf Hs Hw. apply (word_candidates p w); [done|done|by eapply words_lookup|].
  intros j Hj. zcases; done || lia.
Qed.

Lemma loop1_spec : forall fuel p,
  0 <= p -> from <= 64 * p -> 64 * p <= size -> (size - 64 * p) / 64 < Z.of_nat fuel ->
  none_below (bit l) from size (64 * p) ->
  exists r, find_next_bit_loop1 fuel l p (size - 64 * p) (64 * p) = Ok r /\
    first_in (bit l) from size r.
Proof.
  induction fuel as [|fuel IH]; intros p Hp Hf Hs Hfuel Hb; [dlia|].
  cbn [find_next_bit_loop1]. unfold BITS_PER_LONG.
  destruct (Z.leb_spec 64 (size - 64 * p)).
  - destruct (read_word p) as (w & E & Hw & Rw); [done|lia|]. rewrite E. cbn [res_bind].
    pose proof (full_word p w ltac:(lia) ltac:(lia) ltac:(lia) Hw) as C.
    destruct (Z.eqb_spec w 0) as [->|N]; cbn [negb].
    + replace (size - 64 * p - 64) with (size - 64 * (p + 1)) by lia.
      replace (64 * p + 64) with (64 * (p + 1)) by lia.
      apply IH; [lia|lia|lia|dlia|].
      replace (64 * (p + 1)) with (64 * p + 64) by lia. by apply candidates_none.
    + exists (64 * p + ctz64 w). split; [done|]. by apply candidates_found.
  - destruct (Z.eqb_spec (size - 64 * p) 0) as [Z0|].
    + exists (64 * p). split; [done|]. replace (64 * p) with size by lia.
      apply (none_first _ _ _ (64 * p)); [lia|lia|done].
    + destruct (read_word p) as (w & E & Hw & Rw); [done|lia|]. rewrite E. cbn [res_bind].
      apply (found_first_spec p w); [done|lia|lia|done|done| |done].
      intros j Hj. zcases; done || lia.
Qed.

(** Four zero words advance the search. *)
Lemma loop4_spec : forall fuel p,
  0 <= p -> from <= 64 * p -> 64 * p <= size -> (size - 64 * p) / 64 < Z.of_nat fuel ->
  none_below (bit l) from size (64 * p) ->
  exists r, find_next_bit_loop4 fuel l p (size - 64 * p) (64 * p) = Ok r /\
    first_in (bit l) from size r.
Proof.
  induction fuel as [|fuel IH]; intros p Hp Hf Hs Hfuel Hb; [dlia|].
  cbn [find_next_bit_loop4]. unfold BITS_PER_LONG. change (4 * 64) with 256.
  destruct (Z.leb_spec 256 (size - 64 * p)); [|by apply loop1_spec].
  destruct (read_word p) as (w0 & -> & Hw0 & R0); [done|lia|].
  destruct (read_word (p + 1)) as (w1 & -> & Hw1 & R1); [lia|lia|].
  destruct (read_word (p + 2)) as (w2 & -> & Hw2 & R2); [lia|lia|].
  destruct (read_word (p + 3)) as (w3 & -> & Hw3 & R3); [lia|lia|]. cbn [res_bind].
  pose proof (full_word p w0 ltac:(lia) ltac:(lia) ltac:(lia) Hw0) as C0.
  destruct (Z.eqb_spec w0 0) as [->|N]; cbn [negb];
    [|exists (64 * p + ctz64 w0); split; [done|by apply candidates_found]].
  destruct (Z.eqb_spec (Z.lor (Z.lor w1 w2) w3) 0) as [E|E]; cbn [negb]; [|by apply loop1_spec].
  apply Z.lor_eq_0_iff in E as [E ->]. apply Z.lor_eq_0_iff in E as [-> ->].
  replace (size - 64 * p - 256) with (size - 64 * (p + 4)) by lia.
  replace (64 * p + 256) with (64 * (p + 4)) by lia.
  apply IH; [lia|lia|lia|dlia|].
  pose proof (full_word (p + 1) 0 ltac:(lia) ltac:(lia) ltac:(lia) Hw1) as C1.
  pose proof (full_word (p + 2) 0 ltac:(lia) ltac:(lia) ltac:(lia) Hw2) as C2.
  pose proof (full_word (p + 3) 0 ltac:(lia) ltac:(lia) ltac:(lia) Hw3) as C3.
  pose proof (candidates_none _ _ _ _ C0 Hb) as B.
  replace (64 * p + 64) with (64 * (p + 1)) in B by lia.
  pose proof (candidates_none _ _ _ _ C1 B) as B1.
  replace (64 * (p + 1) + 64) with (64 * (p + 2)) in B1 by lia.
  pose proof (candidates_none _ _ _ _ C2 B1) as B2.
  replace (64 * (p + 2) + 64) with (64 * (p + 3)) in B2 by lia.
  pose proof (candidates_none _ _ _ _ C3 B2) as B3.
  replace (64 * (p + 3) + 64) with (64 * (p + 4)) in B3 by lia. done.
Qed.

Lemma find_next_bit_in : exists r,
  find_next_bit l size from = Ok r /\ first_in (bit l) from size r.
Proof.
  unfold find_next_bit. rewrite word_down by lia. unfold BIT_WORD, BITS_PER_LONG.
  destruct (Z.leb_spec size from); [lia|].
  assert (none_below (bit l) from size (64 * (from / 64))) as B by (intros i ?; dlia).
  destruct (Z.eqb_spec (from mod 64) 0) as [M|M]; cbn [negb].
  { apply loop4_spec; [dlia|dlia|dlia| |done]. unfold search_fuel. dlia. }
  destruct (read_word (from / 64)) as (w & -> & Hw & Rw); [dlia|dlia|]. cbn [res_bind].
  pose proof (Z.mod_pos_bound from 64).
  assert (forall j, 0 <= j < 64 ->
    Z.testbit (Z.land w (u64 (Z.shiftl ALL_ONES (from mod 64)))) j
    = (from <=? 64 * (from / 64) + j) && Z.testbit w j) as T.
  { intros j Hj. rewrite Z.land_spec, high_mask_testbit, andb_comm by lia. f_equal.
    zcases; done || dlia. }
  destruct (Z.ltb_spec (size - 64 * (from / 64)) 64).
  { apply (found_first_spec _ w); [dlia|dlia|done|done| |done|done]. apply land_range; lia. }
  set (t := Z.land w _) in *.
  assert (candidates (bit l) from size (64 * (from / 64)) t) as C.
  { apply (word_candidates _ w); [dlia|done|apply land_range; lia|].
    intros j Hj. rewrite T by done. zcases; rewrite ?andb_true_r; done || lia. }
  destruct (Z.eqb_spec t 0) as [E|E]; cbn [negb].
  - rewrite E in C. replace (size - 64 * (from / 64) - 64) with (size - 64 * (from / 64 + 1)) by lia.
    replace (64 * (from / 64) + 64) with (64 * (from / 64 + 1)) by lia.
    apply loop4_spec; [dlia|dlia|lia|unfold search_fuel; dlia|].
    replace (64 * (from / 64 + 1)) with (64 * (from / 64) + 64) by lia. by apply candidates_none.
  - exists (64 * (from / 64) + ctz64 t). split; [done|]. by apply candidates_found.
Qed.
End FindNextBit.

(** ** [find_next_zero_bit]: the same search on the complemented words *)

Definition zbit (l : list Z) (i : Z) : bool := negb (bit l i).

Section FindNextZeroBit.
Context (l : list Z) (from size : Z).
Context (Hl : words_ok l) (Hsize : size <= 64 * Z.of_nat (length l)).
Context (Hfrom : 0 <= from < size) (Hsz : size < 2 ^ 64).

Lemma zero_candidates p w tmp :
  0 <= p -> l !! Z.to_nat p = Some w ->
  (forall j, 0 <= j < 64 -> negb (Z.testbit tmp j) =
     (from <=? 64 * p + j) && (64 * p + j <? size) && negb (Z.testbit w j)) ->
  candidates (zbit l) from size (64 * p) (lnot64 tmp).
Proof.
  intros Hp Hw H. split; [apply lnot64_range|]. intros j Hj.
  rewrite lnot64_testbit, H by done. unfold zbit. by rewrite (bit_word l p w).
Qed.

Lemma all_ones_test tmp : 0 <= tmp < 2 ^ 64 -> (tmp =? ALL_ONES) = (lnot64 tmp =? 0).
Proof. intros. unfold lnot64, uwrap, Z.lnot, ALL_ONES. zcases; done || dlia. Qed.

Lemma zero_found_first_spec p w tmp :
  0 <= p -> 64 * p < size -> size - 64 * p < 64 -> l !! Z.to_nat p = Some w ->
  0 <= tmp < 2 ^ 64 ->
  (forall j, 0 <= j < 64 ->
     negb (Z.testbit tmp j) = (from <=? 64 * p + j) && negb (Z.testbit w j)) ->
  none_below (zbit l) from size (64 * p) ->
  exists r, zero_found_first (size - 64 * p) (64 * p) tmp = Ok r /\
    first_in (zbit l) from size r.
Proof.
  intros Hp Hs Hr Hw Ht Hc Hb. unfold zero_found_first. rewrite c_shift_ok by lia. cbn [res_bind].
  set (t := Z.lor tmp _).
  assert (0 <= t < 2 ^ 64) as Rt by (apply lor_range; [lia|lia|apply uwrap_range; lia]).
  assert (candidates (zbit l) from size (64 * p) (lnot64 t)) as C.
  { apply (zero_candidates p w); [done|done|]. intros j Hj. subst t.
    rewrite Z.lor_spec, high_mask_testbit, negb_orb, Hc by lia.
    zcases; rewrite ?andb_true_r, ?andb_false_r; done || lia. }
  rewrite all_ones_test by done. destruct (Z.eqb_spec (lnot64 t) 0) as [E|E].
  - exists (64 * p + (size - 64 * p)). split; [done|]. rewrite E in C.
    replace (64 * p + (size - 64 * p)) with size by lia.
    eapply none_first; [lia| |by apply candidates_none]. lia.
  - exists (64 * p + ctz64 (lnot64 t)). split; [done|]. by apply candidates_found.
Qed.

Lemma zero_loop_spec : forall fuel p,
  0 <= p -> from <= 64 * p -> 64 * p <= size -> (size - 64 * p) / 64 < Z.of_nat fuel ->
  none_below (zbit l) from size (64 * p) ->
  exists r, find_next_zero_bit_loop fuel l p (size - 64 * p) (64 * p) = Ok r /\
    first_in (zbit l) from size r.
Proof.
  induction fuel as [|fuel IH]; intros p Hp Hf Hs Hfuel Hb; [dlia|].
  cbn [find_next_zero_bit_loop]. rewrite word_down by lia. unfold BITS_PER_LONG.
  destruct (Z.eqb_spec (64 * ((size - 64 * p) / 64)) 0); cbn [negb].
  - destruct (Z.eqb_spec (size - 64 * p) 0) as [Z0|].
    + exists (64 * p). split; [done|]. replace (64 * p) with size by lia.
      apply (none_first _ _ _ (64 * p)); [lia|lia|done].
    + destruct (read_word l size Hl Hsize p) as (w & E & Hw & Rw); [done|lia|].
      rewrite E. cbn [res_bind].
      apply (zero_found_first_spec p w); [done|lia|dlia|done|done| |done].
      intros j Hj. zcases; done || lia.
  - destruct (read_word l size Hl Hsize p) as (w & E & Hw & Rw); [done|dlia|].
    rewrite E. cbn [res_bind].
    assert (candidates (zbit l) from size (64 * p) (lnot64 w)) as C.
    { apply (zero_candidates p w); [done|done|]. intros j Hj. zcases; done || dlia. }
    destruct (Z.eqb_spec (lnot64 w) 0) as [Ew|N]; cbn [negb].
    + rewrite Ew in C. replace (size - 64 * p - 64) with (size - 64 * (p + 1)) by lia.
      replace (64 * p + 64) with (64 * (p + 1)) by lia.
      apply IH; [lia|lia|dlia|dlia|].
      replace (64 * (p + 1)) with (64 * p + 64) by lia. by apply candidates_none.
    + exists (64 * p + ctz64 (lnot64 w)). split; [done|]. by apply candidates_found.
Qed.

Lemma find_next_zero_bit_in : exists r,
  find_next_zero_bit l size from = Ok r /\ first_in (zbit l) from size r.
Proof.
  unfold find_next_zero_bit. rewrite word_down by lia. unfold BIT_WORD, BITS_PER_LONG.
  destruct (Z.leb_spec size from); [lia|].
  assert (none_below (zbit l) from size (64 * (from / 64))) as B by (intros i ?; dlia).
  destruct (Z.eqb_spec (from mod 64) 0) as [M|M]; cbn [negb].
  { apply zero_loop_spec; [dlia|dlia|dlia| |done]. unfold search_fuel. dlia. }
  destruct (read_word l size Hl Hsize (from / 64)) as (w & -> & Hw & Rw); [dlia|dlia|].
  cbn [res_bind]. pose proof (Z.mod_pos_bound from 64).
  set (t := Z.lor w _).
  assert (0 <= t < 2 ^ 64) as Rt.
  { apply lor_range; [lia|lia|]. apply low_mask_range. lia. }
  assert (forall j, 0 <= j < 64 ->
    negb (Z.testbit t j) = (from <=? 64 * (from / 64) + j) && negb (Z.testbit w j)) as T.
  { intros j Hj. subst t. rewrite Z.lor_spec, low_mask_testbit, negb_orb, andb_comm by lia.
    f_equal. zcases; done || dlia. }
  destruct (Z.ltb_spec (size - 64 * (from / 64)) 64).
  { apply (zero_found_first_spec _ w); [dlia|dlia|done|done|done|done|done]. }
  assert (candidates (zbit l) from size (64 * (from / 64)) (lnot64 t)) as C.
  { apply (zero_candidates _ w); [dlia|done|].
    intros j Hj. rewrite T by done. zcases; rewrite ?andb_true_r; done || lia. }
  destruct (Z.eqb_spec (lnot64 t) 0) as [E|E]; cbn [negb].
  - rewrite E in C. replace (size - 64 * (from / 64) - 64) with (size - 64 * (from / 64 + 1)) by lia.
    replace (64 * (from / 64) + 64) with (64 * (from / 64 + 1)) by lia.
    apply zero_loop_spec; [dlia|dlia|lia|unfold search_fuel; dlia|].
    replace (64 * (from / 64 + 1)) with (64 * (from / 64) + 64) by lia. by apply candidates_none.
  - exists (64 * (from / 64) + ctz64 (lnot64 t)). split; [done|]. by apply candidates_found.
Qed.
End FindNextZeroBit.

(** The search results for any offset, those past the end included. *)
Definition search_result (P : Z -> bool) (from size r : Z) : Prop :=
  if size <=? from then r = size else first_in P from size r.

Lemma find_next_bit_total l size from :
  words_ok l -> size <= 64 * Z.of_nat (length l) -> 0 <= from -> size < 2 ^ 64 ->
  exists r, find_next_bit l size from = Ok r /\ search_result (bit l) from size r.
Proof.
  intros. unfold search_result. destruct (Z.leb_spec size from) as [H3|].
  - exists size. split; [|done]. unfold find_next_bit. apply Z.leb_le in H3. by rewrite H3.
  - apply find_next_bit_in; done || lia.
Qed.

Lemma find_next_zero_bit_total l size from :
  words_ok l -> size <= 64 * Z.of_nat (length l) -> 0 <= from -> size < 2 ^ 64 ->
  exists r, find_next_zero_bit l size from = Ok r /\ search_result (zbit l) from size r.
Proof.
  intros. unfold search_result. destruct (Z.leb_spec size from) as [H3|].
  - exists size. split; [|done]. unfold find_next_zero_bit. apply Z.leb_le in H3. by rewrite H3.
  - apply find_next_zero_bit_in; done || lia.
Qed.

(** ** [find_last_bit] and [hweight_long] *)

(** [r] is the last set position below [size], or [size] when there is none. *)
Definition last_in (P : Z -> bool) (size r : Z) : Prop :=
  (0 <= r < size /\ P r = true /\ forall i, r < i < size -> P i = false) \/
  (r = size /\ forall i, 0 <= i < size -> P i = false).

Lemma clz64_top tmp : 0 < tmp < 2 ^ 64 ->
  0 <= 63 - clz64 tmp < 64 /\ Z.testbit tmp (63 - clz64 tmp) = true /\
  forall j, 63 - clz64 tmp < j -> Z.testbit tmp j = false.
Proof.
  intros H. unfold clz64, builtin_clz. destruct (Z.eqb_spec tmp 0); [lia|].
  replace (63 - (64 - 1 - Z.log2 tmp)) with (Z.log2 tmp) by lia.
  pose proof (Z.log2_nonneg tmp). assert (Z.log2 tmp < 64) by (apply Z.log2_lt_pow2; lia).
  split; [lia|]. split; [apply Z.bit_log2; lia|]. intros. apply Z.bits_above_log2; lia.
Qed.

(** The highest candidate of the word at [64 * k]. *)
Lemma last_found_spec l size k tmp :
  0 <= k -> 0 < tmp < 2 ^ 64 -> 
  (forall j, 0 <= j < 64 -> Z.testbit tmp j = (64 * k + j <? size) && bit l (64 * k + j)) ->
  (forall i, 64 * (k + 1) <= i < size -> bit l i = false) ->
  last_in (bit l) size (last_found k tmp).
Proof.
  intros Hk Ht Hc Ha. destruct (clz64_top tmp Ht) as (Hr & H1 & H0). unfold last_found, BITS_PER_LONG.
  replace (k * 64 + 64 - 1 - clz64 tmp) with (64 * k + (63 - clz64 tmp)) by lia.
  rewrite Hc in H1 by lia. apply andb_true_iff in H1 as [Hs HP].
  left. split; [lia|]. split; [done|]. intros i Hi.
  destruct (Z.ltb_spec i (64 * (k + 1))); [|apply Ha; lia].
  specialize (H0 (i - 64 * k) ltac:(lia)). rewrite Hc in H0 by lia.
  replace (64 * k + (i - 64 * k)) with i in H0 by lia.
  destruct (Z.ltb_spec i size); [done|lia].
Qed.

Lemma find_last_loop_spec l size : words_ok l -> forall words,
  64 * Z.of_nat words <= size -> Z.of_nat words <= Z.of_nat (length l) ->
  (forall i, 64 * Z.of_nat words <= i < size -> bit l i = false) ->
  exists r, find_last_bit_loop words l size = Ok r /\ last_in (bit l) size r.
Proof.
  intros Hl. induction words as [|words IH]; intros Hs Hlen Ha; cbn [find_last_bit_loop].
  - exists size. split; [done|]. right. split; [done|]. intros. apply Ha. lia.
  - destruct (aget_total l (Z.of_nat words) ltac:(lia)) as [w E]. rewrite E. cbn [res_bind].
    apply aget_Ok in E as [_ Hw]. pose proof (words_lookup _ _ _ Hl Hw) as Rw.
    assert (forall j, 0 <= j < 64 -> Z.testbit w j =
      (64 * Z.of_nat words + j <? size) && bit l (64 * Z.of_nat words + j)) as C.
    { intros j Hj. rewrite (bit_word l _ w) by (done || lia). zcases; done || lia. }
    destruct (Z.eqb_spec w 0) as [->|]; cbn [negb].
    + apply IH; [lia|lia|]. intros i Hi.
      destruct (Z.ltb_spec i (64 * Z.of_nat (S words))); [|apply Ha; lia].
      specialize (C (i - 64 * Z.of_nat words) ltac:(lia)). rewrite Z.testbit_0_l in C.
      replace (64 * Z.of_nat words + (i - 64 * Z.of_nat words)) with i in C by lia.
      destruct (Z.ltb_spec i size); [done|lia].
    + eexists. split; [done|]. apply last_found_spec; [lia|lia|done|].
      intros. apply Ha. lia.
Qed.

Lemma find_last_bit_spec l size :
  words_ok l -> 0 <= size <= 64 * Z.of_nat (length l) ->
  exists r, find_last_bit l size = Ok r /\ last_in (bit l) size r.
Proof.
  intros Hl Hs. unfold find_last_bit.
  assert (Z.land size (BITS_PER_LONG - 1) = size mod 64) as ->.
  { change (BITS_PER_LONG - 1) with (Z.ones 6). by rewrite Z.land_ones by lia. }
  unfold BITS_PER_LONG. pose proof (Z.mod_pos_bound size 64).
  destruct (Z.eqb_spec (size mod 64) 0); cbn [negb].
  { apply find_last_loop_spec; [done|dlia|dlia|dlia]. }
  destruct (aget_total l (size / 64) ltac:(dlia)) as [w E]. rewrite E. cbn [res_bind].
  apply aget_Ok in E as [_ Hw]. pose proof (words_lookup _ _ _ Hl Hw) as Rw.
  set (t := Z.land w _).
  assert (0 <= t < 2 ^ 64) as Rt by (apply land_range; lia).
  assert (forall j, 0 <= j < 64 -> Z.testbit t j =
    (64 * (size / 64) + j <? size) && bit l (64 * (size / 64) + j)) as C.
  { intros j Hj. rewrite (bit_word l _ w) by (done || dlia). subst t.
    rewrite Z.land_spec, low_mask_testbit, andb_comm by lia. f_equal. zcases; done || dlia. }
  destruct (Z.eqb_spec t 0) as [T|T]; cbn [negb].
  - apply find_last_loop_spec; [done|dlia|dlia|]. intros i Hi.
    specialize (C (i - 64 * (size / 64)) ltac:(dlia)). rewrite T, Z.testbit_0_l in C.
    replace (64 * (size / 64) + (i - 64 * (size / 64))) with i in C by lia.
    destruct (Z.ltb_spec i size); [done|lia].
  - eexists. split; [done|]. apply last_found_spec; [dlia|lia|done|dlia].
Qed.

Lemma hweight_loop_spec fuel : forall w count, 0 <= w < 2 ^ Z.of_nat fuel ->
  hweight_loop fuel w count = Ok (count + builtin_popcount w).
Proof.
  induction fuel as [|fuel IH]; intros w count Hw; cbn [hweight_loop].
  - assert (w = 0) as -> by lia. cbn. f_equal. lia.
  - destruct (Z.eqb_spec w 0) as [->|]; [cbn; f_equal; lia|].
    assert (2 ^ Z.of_nat (S fuel) = 2 * 2 ^ Z.of_nat fuel)
      by (rewrite Nat2Z.inj_succ, Z.pow_succ_r by lia; done).
    rewrite IH by (rewrite Z.shiftr_div_pow2 by lia; change (2 ^ 1) with 2; dlia). f_equal.
    rewrite <- Z.div2_spec. change 1 with (Z.ones 1) at 1. rewrite Z.land_ones by lia.
    change (2 ^ 1) with 2. rewrite Zmod_odd.
    destruct w as [|[p|p|]|]; [done| | | |lia];
      cbn [Z.div2 Pos.div2 Z.odd builtin_popcount pos_popcount]; lia.
Qed.

(** ** Bit fields, rotations, reversal *)

Lemma field_ok_true w s n : 0 <= s -> 0 < n -> s + n <= w -> field_ok w s n = true.
Proof. intros. unfold field_ok. zcases; done || lia. Qed.

Lemma ones_shiftr w n : 0 <= n <= w -> Z.shiftr (2 ^ w - 1) (w - n) = Z.ones n.
Proof.
  intros. replace (2 ^ w - 1) with (Z.ones w) by (rewrite Z.ones_equiv; lia).
  zbits; lia.
Qed.

Lemma extract_val v s n : 0 <= n -> Z.land (Z.shiftr v s) (Z.ones n) = Z.shiftr v s mod 2 ^ n.
Proof. intros. by rewrite Z.land_ones. Qed.

(** The bits of a [w]-bit deposit. *)
Lemma deposit_bits w v s n f j :
  0 <= s -> 0 < n -> s + n <= w -> 0 <= v < 2 ^ w -> 0 <= j ->
  let mask := uwrap w (Z.shiftl (Z.ones n) s) in
  Z.testbit (Z.lor (Z.land v (uwrap w (Z.lnot mask)))
                   (Z.land (uwrap w (Z.shiftl f s)) mask)) j
  = if (s <=? j) && (j <? s + n) then Z.testbit f (j - s) else Z.testbit v j.
Proof.
  intros Hs Hn Hw Hv Hj mask. subst mask. autorewrite with zbits; try lia.
  destruct (Z.ltb_spec j w) as [L|L].
  - cbn [andb]. destruct (Z.leb_spec s j); cbn [andb].
    + autorewrite with zbits; try lia.
      replace (j - s <? n) with (j <? s + n) by lia.
      destruct (j <? s + n); cbn [negb andb]; rewrite ?andb_true_r, ?andb_false_r, ?orb_false_r; done.
    + rewrite !(Z.testbit_neg_r _ (j - s)) by lia. cbn. rewrite andb_true_r, orb_false_r. done.
  - rewrite (testbit_high v w) by lia.
    destruct (Z.leb_spec s j), (Z.ltb_spec j (s + n)); cbn; done || lia.
Qed.

(** Reading a field of a [w]-bit word with its sign: shift it to the top and
    back. *)
Lemma sextract_val w v s n :
  0 <= s -> 0 < n -> s + n <= w ->
  Z.shiftr (swrap w (uwrap w (Z.shiftl v (w - n - s)))) (w - n) = swrap n (Z.shiftr v s).
Proof.
  intros Hs Hn Hw.
  assert (swrap w (uwrap w (Z.shiftl v (w - n - s))) = swrap n (Z.shiftr v s) * 2 ^ (w - n)
          + v mod 2 ^ s * 2 ^ (w - n - s)) as ->.
  { assert (2 ^ w = 2 ^ n * 2 ^ (w - n)) as Ew by (rewrite <- Z.pow_add_r by lia; f_equal; lia).
    assert (2 ^ (w - n) = 2 ^ s * 2 ^ (w - n - s)) as En
      by (rewrite <- Z.pow_add_r by lia; f_equal; lia).
    destruct (swrap_sub_multiple n (Z.shiftr v s)) as [k Hk]; [lia|].
    pose proof (swrap_range n (Z.shiftr v s) Hn) as R.
    assert (2 ^ (w - 1) = 2 ^ (n - 1) * 2 ^ (w - n)) as Ew1
      by (rewrite <- Z.pow_add_r by lia; f_equal; lia).
    pose proof (Z.mod_pos_bound v (2 ^ s) ltac:(lia)).
    rewrite <- (swrap_small w (_ + _)); [|lia|].
    - destruct (uwrap_sub_multiple w (Z.shiftl v (w - n - s))) as [k' Hk']; [lia|].
      apply swrap_eq_mod; [|lia]. rewrite Hk', Hk.
      rewrite Z.shiftl_mul_pow2, Z.shiftr_div_pow2 by lia.
      pose proof (Z.div_mod v (2 ^ s) ltac:(lia)).
      replace (_ - _) with ((k' - k) * 2 ^ w); [apply Z.mod_mul; lia|].
      rewrite Ew, En. nia.
    - rewrite Ew1, En in *. nia. }
  rewrite Z.shiftr_div_pow2, Z.div_add_l by lia.
  rewrite Z.div_small; [lia|]. pose proof (Z.mod_pos_bound v (2 ^ s) ltac:(lia)).
  replace (2 ^ (w - n)) with (2 ^ s * 2 ^ (w - n - s)) by (rewrite <- Z.pow_add_r by lia; f_equal; lia).
  nia.
Qed.

(** The bits of a rotation of a [w]-bit word to the left by [0 < k < w]. *)
Lemma rol_bits w v k j : 0 < k < w -> 0 <= v < 2 ^ w -> 0 <= j < w ->
  Z.testbit (Z.lor (uwrap w (Z.shiftl v k)) (Z.shiftr v (w - k))) j
  = Z.testbit v ((j - k) mod w).
Proof.
  intros Hk Hv Hj. autorewrite with zbits; try lia.
  destruct (Z.ltb_spec j w); [|lia]. cbn [andb]. destruct (Z.ltb_spec j k).
  - rewrite Z.testbit_neg_r by lia. cbn. f_equal.
    replace (j - k) with (j - k + w + (-1) * w) by lia.
    rewrite Z.mod_add, Z.mod_small by lia. lia.
  - rewrite (Z.mod_small (j - k)) by lia.
    rewrite (testbit_high v w (j + (w - k))) by lia. apply orb_false_r.
Qed.

Lemma bitrev8_bits v : 0 <= v < 2 ^ 8 -> 0 <= bitrev8 v < 2 ^ 8 /\
  forall j, 0 <= j < 8 -> Z.testbit (bitrev8 v) j = Z.testbit v (7 - j).
Proof.
  intros Hv. split; [apply uwrap_range; lia|].
  assert (forallb (fun v => forallb (fun j =>
     Bool.eqb (Z.testbit (bitrev8 (Z.of_nat v)) (Z.of_nat j)) (Z.testbit (Z.of_nat v) (7 - Z.of_nat j)))
     (seq 0 8)) (seq 0 256) = true) as H by (vm_compute; reflexivity).
  intros j Hj. rewrite forallb_forall in H. specialize (H (Z.to_nat v)).
  rewrite forallb_forall in H. rewrite Z2Nat.id in H by lia.
  specialize (H ltac:(apply in_seq; lia) (Z.to_nat j) ltac:(apply in_seq; lia)).
  rewrite Z2Nat.id in H by lia. by apply Bool.eqb_prop.
Qed.

(** Reversing a word of two [h]-bit halves: reverse each and swap them. *)
Lemma bitrev_halves h (f : Z -> Z) v :
  0 < h ->
  (forall v, 0 <= v < 2 ^ h -> 0 <= f v < 2 ^ h /\
     forall j, 0 <= j < h -> Z.testbit (f v) j = Z.testbit v (h - 1 - j)) ->
  0 <= v < 2 ^ (2 * h) ->
  let r := uwrap (2 * h) (Z.lor (Z.shiftl (f (Z.land v (Z.ones h))) h)
                                (f (uwrap h (Z.shiftr v h)))) in
  0 <= r < 2 ^ (2 * h) /\
  forall j, 0 <= j < 2 * h -> Z.testbit r j = Z.testbit v (2 * h - 1 - j).
Proof.
  intros Hh Hf Hv r. split; [apply uwrap_range; lia|]. intros j Hj. subst r.
  destruct (Hf (Z.land v (Z.ones h))) as [Rl Bl].
  { rewrite Z.land_ones by lia. apply Z.mod_pos_bound. lia. }
  destruct (Hf (uwrap h (Z.shiftr v h))) as [Rh Bh]; [apply uwrap_range; lia|].
  autorewrite with zbits; try lia. destruct (Z.ltb_spec j (2 * h)); [|lia]. cbn [andb].
  destruct (Z.ltb_spec j h).
  - rewrite Z.testbit_neg_r by lia. rewrite Bh by lia. autorewrite with zbits; try lia.
    destruct (Z.ltb_spec (h - 1 - j) h); [|lia]. cbn. f_equal. lia.
  - rewrite (testbit_high (f (uwrap _ _)) h) by lia. rewrite Bl, orb_false_r by lia.
    autorewrite with zbits; try lia.
    destruct (Z.ltb_spec (h - 1 - (j - h)) h); [|lia]. rewrite andb_true_r. f_equal. lia.
Qed.

Lemma bitrev16_bits v : 0 <= v < 2 ^ 16 -> 0 <= bitrev16 v < 2 ^ 16 /\
  forall j, 0 <= j < 16 -> Z.testbit (bitrev16 v) j = Z.testbit v (15 - j).
Proof. apply (bitrev_halves 8 bitrev8 v); [lia|apply bitrev8_bits]. Qed.

Lemma bitrev32_bits v : 0 <= v < 2 ^ 32 -> 0 <= bitrev32 v < 2 ^ 32 /\
  forall j, 0 <= j < 32 -> Z.testbit (bitrev32 v) j = Z.testbit v (31 - j).
Proof. apply (bitrev_halves 16 bitrev16 v); [lia|apply bitrev16_bits]. Qed.

Lemma bitrev64_bits v : 0 <= v < 2 ^ 64 -> 0 <= bitrev64 v < 2 ^ 64 /\
  forall j, 0 <= j < 64 -> Z.testbit (bitrev64 v) j = Z.testbit v (63 - j).
Proof. apply (bitrev_halves 32 bitrev32 v); [lia|apply bitrev32_bits]. Qed.

(** ** Claims *)

(** The single-bit operations on a bitmap.  For a bit number inside the
    bitmap, [set_bit], [clear_bit] and [change_bit] change exactly that bit and
    keep the words in range, the [test_and_] variants do the same and return
    the old bit, and [test_bit] reads it. *)
Theorem bit_ops_correct l nr :
  words_ok l -> 0 <= nr < 64 * Z.of_nat (length l) ->
  test_bit nr l = Ok (b2z (bit l nr)) /\
  (exists l', set_bit nr l = Ok l' /\ test_and_set_bit nr l = Ok (bit l nr, l') /\
     updates (fun _ => true) nr l l') /\
  (exists l', clear_bit nr l = Ok l' /\ test_and_clear_bit nr l = Ok (bit l nr, l') /\
     updates (fun _ => false) nr l l') /\
  (exists l', change_bit nr l = Ok l' /\ test_and_change_bit nr l = Ok (bit l nr, l') /\
     updates negb nr l l').
Proof.
  auto 10 using test_bit_spec, set_bit_spec, clear_bit_spec, change_bit_spec.
Qed.

Lemma bit_ops_witness : test_bit 70 [0; 64] = Ok 1.
Proof.
  refine (proj1 (bit_ops_correct [0; 64] 70 _ _)); [|cbn; lia].
  repeat constructor; lia.
Defined.

(** The bitmap searches terminate, stay inside the bitmap and find what
    they look for: [find_next_bit] and [find_next_zero_bit] return the first
    set (clear) bit at or after the offset and [size] when there is none (or
    the offset is past the end), [find_last_bit] the last set bit below
    [size], whatever the unused bits of the last word are. *)
Theorem bit_searches_correct l size offset :
  words_ok l -> 0 <= size <= 64 * Z.of_nat (length l) -> size < 2 ^ 64 -> 0 <= offset ->
  (exists r, find_next_bit l size offset = Ok r /\ search_result (bit l) offset size r) /\
  (exists r, find_next_zero_bit l size offset = Ok r /\
     search_result (fun i => negb (bit l i)) offset size r) /\
  (exists r, find_last_bit l size = Ok r /\ last_in (bit l) size r).
Proof.
  intros Hl Hs Hb Ho. split; [apply find_next_bit_total; done || lia|].
  split; [apply find_next_zero_bit_total; done || lia|]. by apply find_last_bit_spec.
Qed.

Lemma bit_searches_witness :
  exists r, find_next_bit [0; 0; 0; 0; 16] 300 3 = Ok r /\ r = 260.
Proof.
  destruct (bit_searches_correct [0; 0; 0; 0; 16] 300 3) as [(r & E & _) _];
    [repeat constructor; lia|cbn; lia|lia|lia|].
  exists r. split; [exact E|]. vm_compute in E. injection E as <-. reflexivity.
Defined.

(** Bit fields.  [deposit] replaces exactly the field and [extract] reads
    it back, [sextract] reads it as a two's complement number; a field outside
    the word trips the assertion. *)
Theorem bit_fields_correct v s n f :
  (forall w ext dep sext, (w, ext, dep, sext) ∈
     [(32, extract32, deposit32, fun v s n => res_map u32 (sextract32 v s n));
      (64, extract64, deposit64, sextract64)] ->
   (0 <= s /\ 0 < n /\ s + n <= w -> 0 <= v < 2 ^ w -> 0 <= f ->
      ext v s n = Ok (Z.shiftr v s mod 2 ^ n) /\
      sext v s n = Ok (uwrap w (swrap n (Z.shiftr v s))) /\
      exists v', dep v s n f = Ok v' /\ ext v' s n = Ok (f mod 2 ^ n) /\
        forall j, 0 <= j -> Z.testbit v' j =
          if (s <=? j) && (j <? s + n) then Z.testbit f (j - s) else Z.testbit v j) /\
   (~ (0 <= s /\ 0 < n /\ s + n <= w) ->
      ext v s n = Err AssertFailed /\ dep v s n f = Err AssertFailed /\
      sext v s n = Err AssertFailed)).
Proof.
  intros w ext dep sext Hin. split.
  - intros (Hs & Hn & Hw) Hv Hf. pose proof (field_ok_true w s n Hs Hn Hw) as F.
    assert (forall j, 0 <= j -> _) as D by exact (fun j => deposit_bits w v s n f j Hs Hn Hw Hv).
    cbv zeta in D.
    assert (forall v', (forall j, 0 <= j -> Z.testbit v' j =
        if (s <=? j) && (j <? s + n) then Z.testbit f (j - s) else Z.testbit v j) ->
        Z.land (Z.shiftr v' s) (Z.ones n) = f mod 2 ^ n) as X.
    { intros v' Hv'. rewrite <- (Z.land_ones f) by lia. zbits; try lia.
      destruct (Z.ltb_spec i n); [|by rewrite !andb_false_r]. rewrite !andb_true_r.
      rewrite Hv' by lia. destruct (Z.leb_spec s (i + s)), (Z.ltb_spec (i + s) (s + n)); try lia.
      cbn. f_equal. lia. }
    pose proof (ones_shiftr w n ltac:(lia)) as O.
    pose proof (sextract_val w v s n Hs Hn Hw) as S.
    apply elem_of_cons in Hin as [[= -> -> -> ->]|Hin];
      [|apply list_elem_of_singleton in Hin as [= -> -> -> ->]];
      unfold extract32, extract64, deposit32, deposit64, sextract32, sextract64;
      rewrite F; cbn [c_assert res_bind res_map]; rewrite ?O, ?S, extract_val by lia;
      (split; [done|]; split; [done|]); eexists; (split; [done|]);
      (split; [by rewrite X|done]).
  - intros N. assert (field_ok w s n = false) as F by (unfold field_ok; zcases; done || lia).
    apply elem_of_cons in Hin as [[= -> -> -> ->]|Hin];
      [|apply list_elem_of_singleton in Hin as [= -> -> -> ->]];
      unfold extract32, extract64, deposit32, deposit64, sextract32, sextract64; rewrite F; done.
Qed.

Lemma bit_fields_witness :
  extract32 0xabcd1234 8 12 = Ok 0xd12 /\ extract32 1 31 2 = Err AssertFailed.
Proof.
  split.
  - refine (proj1 (proj1 (bit_fields_correct 0xabcd1234 8 12 0 32 extract32 deposit32 _ _) _ _ _));
      [apply list_elem_of_here|lia|lia|lia].
  - refine (proj1 (proj2 (bit_fields_correct 1 31 2 0 32 extract32 deposit32 _ _) _));
      [apply list_elem_of_here|lia].
Defined.

(** C31: [bitrev8/16/32/64] reverse the order of the bits of their argument. *)
Theorem bitrev_correct v j :
  (0 <= v < 2 ^ 8 -> 0 <= j < 8 -> Z.testbit (bitrev8 v) j = Z.testbit v (7 - j)) /\
  (0 <= v < 2 ^ 16 -> 0 <= j < 16 -> Z.testbit (bitrev16 v) j = Z.testbit v (15 - j)) /\
  (0 <= v < 2 ^ 32 -> 0 <= j < 32 -> Z.testbit (bitrev32 v) j = Z.testbit v (31 - j)) /\
  (0 <= v < 2 ^ 64 -> 0 <= j < 64 -> Z.testbit (bitrev64 v) j = Z.testbit v (63 - j)).
Proof.
  repeat split; intros Hv; [apply bitrev8_bits|apply bitrev16_bits
    |apply bitrev32_bits|apply bitrev64_bits]; done.
Qed.

Lemma bitrev_witness : Z.testbit (bitrev32 0x80000001) 31 = true.
Proof.
  transitivity (Z.testbit 0x80000001 (31 - 31)); [|reflexivity].
  refine (proj1 (proj2 (proj2 (bitrev_correct 0x80000001 31))) _ _); lia.
Defined.
