(* ===== verification/Ftdmac020.v ===== *)
(** * The Faraday FTDMAC020 DMA controller ([hw/arm/ftdmac020.c])

    Eight channels that copy between addresses in bursts, follow linked lists
    of descriptors in guest memory and pace themselves by request lines of the
    devices.  Accesses are 32-bit ([mmio_ops]).

    What a channel moves data through is an interface: the class [Bus] has the
    guest address space and the devices on the acknowledge lines.  [ack w line
    level req] drives an acknowledge line; the device behind it may change its
    request lines at once, so the result has the request lines afterwards and
    whether one of them was raised.  Guest RAM is an instance.  The bottom half is run by the event loop when
    [bh] is set; the three interrupt lines are [irq]. *)

From stdpp Require Import base list numbers.
From S2P Require Import Prelude Bitops.

(** The local buffer of a transfer is on the stack: its contents before the
    first load are those of the argument [buf]. *)
Definition BUF_SIZE : Z := 4096.

Class Bus (W : Type) : Type := {
  is_io : W -> Z -> bool;
  dma_memory_read : W -> Z -> Z -> W * list Z;
  dma_memory_write : W -> Z -> list Z -> W;
  ack : W -> Z -> bool -> Z -> W * Z * bool
}.

Module Ftdmac020.

Record Ftdmac020LLD : Type := mkLLD { d_src : Z; d_dst : Z; d_next : Z; d_ctrl : Z; d_size : Z }.

Record Ftdmac020Chan : Type := mkChan {
  id : Z; burst : Z; llp_cnt : Z; src_bw : Z; src_stride : Z; dst_bw : Z; dst_stride : Z;
  ccr : Z; cfg : Z; src : Z; dst : Z; llp : Z; len : Z
}.

Record Ftdmac020State : Type := mkState {
  irq : bool * bool * bool; chan : list Ftdmac020Chan; req : Z; busy : Z; bh_owner : Z; bh : bool;
  tcisr : Z; eaisr : Z; tcsr : Z; easr : Z; cesr : Z; cbsr : Z; csr : Z; sync : Z
}.

Definition REG_ISR : Z := 0x00.
Definition REG_TCISR : Z := 0x04.
Definition REG_TCCLR : Z := 0x08.
Definition REG_EAISR : Z := 0x0c.
Definition REG_EACLR : Z := 0x10.
Definition REG_TCSR : Z := 0x14.
Definition REG_EASR : Z := 0x18.
Definition REG_CESR : Z := 0x1c.
Definition REG_CBSR : Z := 0x20.
Definition REG_CSR : Z := 0x24.
Definition REG_SYNC : Z := 0x28.
Definition REG_REVISION : Z := 0x30.
Definition REG_FEATURE : Z := 0x34.
Definition REG_CHAN_ID (addr : Z) : Z := Z.shiftr (addr - 0x100) 5.
Definition REG_CHAN_BASE (ch : Z) : Z := 0x100 + Z.shiftl ch 5.
Definition REG_CHAN_CCR : Z := 0x00.
Definition REG_CHAN_CFG : Z := 0x04.
Definition REG_CHAN_SRC : Z := 0x08.
Definition REG_CHAN_DST : Z := 0x0C.
Definition REG_CHAN_LLP : Z := 0x10.
Definition REG_CHAN_LEN : Z := 0x14.
Definition BIT (n : Z) : Z := Z.shiftl 1 n.
Definition CCR_START : Z := BIT 0.
Definition CCR_MASK_TC : Z := BIT 31.
Definition CFG_MASK_TCI : Z := BIT 0.
Definition CFG_SRC_HANDSHAKE_EN : Z := BIT 7.
Definition CFG_DST_HANDSHAKE_EN : Z := BIT 13.

Definition is_set (x bits : Z) : bool := negb (Z.land x bits =? 0).
(** [x &= ~bits] on 32 bits. *)
Definition clear (x bits : Z) : Z := Z.land x (u32 (Z.lnot (u32 bits))).

(** [extract32] of [bitops.h]; the fields used are inside the word. *)
Definition field (x start length : Z) : Z := Z.land (Z.shiftr x start) (Z.ones length).

(** ** Field updates *)

Definition set_tc (s : Ftdmac020State) (tcsr' tcisr' : Z) : Ftdmac020State :=
  mkState (irq s) (chan s) (req s) (busy s) (bh_owner s) (bh s) tcisr' (eaisr s) tcsr' (easr s) (cesr s) (cbsr s)
    (csr s) (sync s).
Definition set_req (s : Ftdmac020State) (r : Z) : Ftdmac020State :=
  mkState (irq s) (chan s) r (busy s) (bh_owner s) (bh s) (tcisr s) (eaisr s) (tcsr s) (easr s) (cesr s) (cbsr s)
    (csr s) (sync s).
Definition set_busy (s : Ftdmac020State) (b : Z) : Ftdmac020State :=
  mkState (irq s) (chan s) (req s) b (bh_owner s) (bh s) (tcisr s) (eaisr s) (tcsr s) (easr s) (cesr s) (cbsr s)
    (csr s) (sync s).
Definition set_chans (s : Ftdmac020State) (l : list Ftdmac020Chan) : Ftdmac020State :=
  mkState (irq s) l (req s) (busy s) (bh_owner s) (bh s) (tcisr s) (eaisr s) (tcsr s) (easr s) (cesr s) (cbsr s)
    (csr s) (sync s).
Definition set_bh (s : Ftdmac020State) (owner : Z) (b : bool) : Ftdmac020State :=
  mkState (irq s) (chan s) (req s) (busy s) owner b (tcisr s) (eaisr s) (tcsr s) (easr s) (cesr s) (cbsr s)
    (csr s) (sync s).
Definition set_ccr (c : Ftdmac020Chan) (v : Z) : Ftdmac020Chan :=
  mkChan (id c) (burst c) (llp_cnt c) (src_bw c) (src_stride c) (dst_bw c) (dst_stride c) v (cfg c) (src c) (dst c)
    (llp c) (len c).
Definition set_len (c : Ftdmac020Chan) (v : Z) : Ftdmac020Chan :=
  mkChan (id c) (burst c) (llp_cnt c) (src_bw c) (src_stride c) (dst_bw c) (dst_stride c) (ccr c) (cfg c) (src c)
    (dst c) (llp c) v.
Definition set_addrs (c : Ftdmac020Chan) (a b : Z) : Ftdmac020Chan :=
  mkChan (id c) (burst c) (llp_cnt c) (src_bw c) (src_stride c) (dst_bw c) (dst_stride c) (ccr c) (cfg c) a b
    (llp c) (len c).

Definition ftdmac020_update_irq (s : Ftdmac020State) : Ftdmac020State :=
  let tc := is_set (tcisr s) 0xff in
  let err := is_set (eaisr s) 0x00ff00ff in
  mkState (tc || err, tc, err) (chan s) (req s) (busy s) (bh_owner s) (bh s) (tcisr s) (eaisr s) (tcsr s) (easr s)
    (cesr s) (cbsr s) (csr s) (sync s).

Definition ftdmac020_chan_ccr_decode (c : Ftdmac020Chan) : Ftdmac020Chan :=
  let tmp := field (ccr c) 16 3 in
  let burst := Z.shiftl 1 (if tmp =? 0 then 0 else tmp + 1) in
  let src_bw := Z.shiftl 8 (field (ccr c) 11 2) in
  let dst_bw := Z.shiftl 8 (field (ccr c) 8 2) in
  let src_stride := if field (ccr c) 5 2 =? 2 then 0 else Z.shiftr src_bw 3 in
  let dst_stride := if field (ccr c) 3 2 =? 2 then 0 else Z.shiftr dst_bw 3 in
  mkChan (id c) burst (llp_cnt c) src_bw src_stride dst_bw dst_stride (ccr c) (cfg c) (src c) (dst c) (llp c) (len c).

Section Transfer.
Context {W : Type} `{Bus W}.

(** [buf + i] gets [data]. *)
Definition buf_put (buf : list Z) (i : Z) (data : list Z) : list Z :=
  take (Z.to_nat i) buf ++ data ++ drop (Z.to_nat i + length data) buf.
Definition buf_get (buf : list Z) (i n : Z) : list Z := take (Z.to_nat n) (drop (Z.to_nat i) buf).

(** The rounds of [for (i = 0; i < len; i += stride)]. *)
Definition rounds (len stride : Z) : nat := Z.to_nat ((len + stride - 1) / stride).

(** Repeated accesses to a fixed address. *)
Fixpoint load_fixed (n : nat) (w : W) (src stride i : Z) (buf : list Z) : W * list Z :=
  match n with
  | O => (w, buf)
  | S n => let (w, data) := dma_memory_read w src stride in load_fixed n w src stride (i + stride) (buf_put buf i data)
  end.
Fixpoint store_fixed (n : nat) (w : W) (dst stride i : Z) (buf : list Z) : W :=
  match n with
  | O => w
  | S n => store_fixed n (dma_memory_write w dst (buf_get buf i stride)) dst stride (i + stride) buf
  end.

(** Loading and storing [len] bytes; the address after it. *)
Definition load (w : W) (c : Ftdmac020Chan) (src len : Z) (buf : list Z) : W * list Z * Z :=
  if negb (src_stride c =? 0) then
    let (w, data) := dma_memory_read w src len in (w, buf_put buf 0 data, u64 (src + len))
  else
    let stride := Z.shiftr (src_bw c) 3 in
    let (w, buf) := load_fixed (rounds len stride) w src stride 0 buf in (w, buf, src).

Definition store (w : W) (c : Ftdmac020Chan) (dst len : Z) (buf : list Z) : W * Z :=
  if negb (dst_stride c =? 0) then (dma_memory_write w dst (buf_get buf 0 len), u64 (dst + len))
  else
    let stride := Z.shiftr (dst_bw c) 3 in
    (store_fixed (rounds len stride) w dst stride 0 buf, dst).

Definition le32 (b : list Z) (i : Z) : Z :=
  byte_at b i + 2 ^ 8 * byte_at b (i + 1) + 2 ^ 16 * byte_at b (i + 2) + 2 ^ 24 * byte_at b (i + 3).
Definition lld_of_bytes (b : list Z) : Ftdmac020LLD :=
  mkLLD (le32 b 0) (le32 b 4) (le32 b 8) (le32 b 12) (le32 b 16).

(** The next descriptor, entered into the channel. *)
Definition lld_load (c : Ftdmac020Chan) (desc : Ftdmac020LLD) : Ftdmac020Chan :=
  let ccr' := Z.lor (Z.lor (Z.lor (Z.lor (Z.lor (Z.lor (Z.lor (Z.land (ccr c) 0x78f8c081)
    (Z.shiftl (field (d_ctrl desc) 29 3) 24))
    (if is_set (d_ctrl desc) (BIT 28) then CCR_MASK_TC else 0))
    (Z.shiftl (field (d_ctrl desc) 25 3) 11)) (Z.shiftl (field (d_ctrl desc) 22 3) 8))
    (Z.shiftl (field (d_ctrl desc) 20 2) 5)) (Z.shiftl (field (d_ctrl desc) 18 2) 3))
    (Z.shiftl (field (d_ctrl desc) 16 2) 1) in
  ftdmac020_chan_ccr_decode
    (mkChan (id c) (burst c) (s32 (llp_cnt c + 1)) (src_bw c) (src_stride c) (dst_bw c) (dst_stride c) ccr' (cfg c)
       (d_src desc) (d_dst desc) (Z.land (d_next desc) 0xfffffffc) (Z.land (d_size desc) 0x003fffff)).

(** What the channel does when its count reaches zero: the status and the
    interrupt, then the next descriptor or the end. *)
Definition chan_done (w : W) (s : Ftdmac020State) (c : Ftdmac020Chan) (a b : Z) :
    W * Ftdmac020State * Ftdmac020Chan * Z * Z :=
  let s := if negb (is_set (ccr c) CCR_MASK_TC) then
             let tcsr' := Z.lor (tcsr s) (BIT (id c)) in
             let tcisr' := if negb (is_set (cfg c) CFG_MASK_TCI) then Z.lor (tcisr s) (BIT (id c)) else tcisr s in
             ftdmac020_update_irq (set_tc s tcsr' tcisr')
           else s in
  if negb (llp c =? 0) then
    let (w, bytes) := dma_memory_read w (llp c) 20 in
    let c := lld_load c (lld_of_bytes bytes) in
    (w, s, c, src c, dst c)
  else (w, s, set_ccr c (clear (ccr c) CCR_START), a, b).

(** Whether the request line of a handshake is there; and the acknowledge,
    during which the bottom half is running ([bh_owner]), so that a request it
    raises does not schedule it. *)
Definition requested (s : Ftdmac020State) (hs : Z) : bool := (hs <? 0) || is_set (req s) (BIT hs).
Definition acknowledge (w : W) (s : Ftdmac020State) (hs : Z) : W * Ftdmac020State :=
  if 0 <=? hs then let '(w, r, _) := ack w hs true (req s) in (w, set_req s r) else (w, s).

(** [while (c->len > 0)]; [a] and [b] are the local [src] and [dst]. *)
Fixpoint chan_loop (fuel : nat) (w : W) (s : Ftdmac020State) (c : Ftdmac020Chan) (buf : list Z)
    (src_hs dst_hs a b : Z) : res (W * Ftdmac020State * Ftdmac020Chan * Z * Z) :=
  if len c <=? 0 then Ok (w, s, c, a, b) else
  if negb (requested s src_hs) || negb (requested s dst_hs) then Ok (w, s, c, a, b) else
  match fuel with
  | O => Err OutOfFuel
  | S fuel =>
      let n := Z.min BUF_SIZE (burst c * Z.shiftr (src_bw c) 3) in
      let '(w, buf, a) := load w c a n buf in
      let (w, s) := acknowledge w s src_hs in
      let (w, b) := store w c b n buf in
      let (w, s) := acknowledge w s dst_hs in
      let* k := c_div n (Z.shiftr (src_bw c) 3) in
      let c := set_len c (u32 (len c - k)) in
      let '(w, s, c, a, b) := if len c =? 0 then chan_done w s c a b else (w, s, c, a, b) in
      chan_loop fuel w s c buf src_hs dst_hs a b
  end.

(** The sanity checks end in [abort]. *)
Definition ftdmac020_chan_start (fuel : nat) (buf : list Z) (w : W) (s : Ftdmac020State) (c : Ftdmac020Chan) :
    res (W * Ftdmac020State * Ftdmac020Chan) :=
  if negb (is_set (ccr c) CCR_START) then Ok (w, s, c) else
  let s := set_busy s (id c) in
  let src_hs := if is_set (cfg c) CFG_SRC_HANDSHAKE_EN then field (cfg c) 3 4 else -1 in
  let dst_hs := if is_set (cfg c) CFG_DST_HANDSHAKE_EN then field (cfg c) 9 4 else -1 in
  let* _ := c_assert (negb (is_io w (src c) && negb (src_stride c =? 0))) in
  let* _ := c_assert (negb (is_io w (dst c) && negb (dst_stride c =? 0))) in
  let* (w, s, c, a, b) := chan_loop fuel w s c buf src_hs dst_hs (src c) (dst c) in
  Ok (w, set_busy s (-1), set_addrs c (u32 a) (u32 b)).

(** ** The bottom half and the request lines *)

(** The loop over the channels: jobs and those that finished. *)
Fixpoint bh_loop (fuel : nat) (buf : list Z) (n : nat) (i : Z) (w : W) (s : Ftdmac020State) (jobs done : Z) :
    res (W * Ftdmac020State * Z * Z) :=
  match n with
  | O => Ok (w, s, jobs, done)
  | S n =>
      let* c := aget (chan s) i in
      if is_set (ccr c) CCR_START then
        let* (w, s, c) := ftdmac020_chan_start fuel buf w s c in
        let* l := aset (chan s) i c in
        bh_loop fuel buf n (i + 1) w (set_chans s l) (jobs + 1)
          (if negb (is_set (ccr c) CCR_START) then done + 1 else done)
      else bh_loop fuel buf n (i + 1) w s jobs done
  end.

Definition ftdmac020_bh (fuel : nat) (buf : list Z) (w : W) (s : Ftdmac020State) : res (W * Ftdmac020State) :=
  let s := set_bh s (s32 (bh_owner s + 1)) false in
  let* (w, s, jobs, done) := bh_loop fuel buf 8 0 w s 0 0 in
  let s := set_bh s (s32 (bh_owner s - 1)) (bh s) in
  Ok (w, if negb (jobs - done =? 0) && negb (req s =? 0) then set_bh s (bh_owner s) true else s).

Definition ftdmac020_handle_req (w : W) (s : Ftdmac020State) (line level : Z) : W * Ftdmac020State :=
  if negb (level =? 0) then
    let s := if negb (is_set (req s) (BIT line)) && (bh_owner s =? 0) then set_bh s (bh_owner s) true else s in
    (w, set_req s (Z.lor (req s) (BIT line)))
  else
    let s := set_req s (clear (req s) (BIT line)) in
    let '(w, r, kick) := ack w line false (req s) in
    (w, set_bh (set_req s r) (bh_owner s) (bh s || (kick && (bh_owner s =? 0)))).

Definition ftdmac020_chan_reset (c : Ftdmac020Chan) : Ftdmac020Chan :=
  mkChan (id c) (burst c) (llp_cnt c) (src_bw c) (src_stride c) (dst_bw c) (dst_stride c) 0 0 0 0 0 0.

(** All acknowledge lines are lowered; the request lines are cleared last. *)
Fixpoint lower_acks (n : nat) (i : Z) (w : W) (r : Z) (kick : bool) : W * Z * bool :=
  match n with O => (w, r, kick) | S n => let '(w, r, k) := ack w i false r in lower_acks n (i + 1) w r (kick || k) end.
Definition ftdmac020_chip_reset (w : W) (s : Ftdmac020State) : W * Ftdmac020State :=
  let '(w, _, kick) := lower_acks 16 0 w (req s) false in
  (w, mkState (irq s) (ftdmac020_chan_reset <$> chan s) 0 (busy s) (bh_owner s)
        (bh s || (kick && (bh_owner s =? 0))) 0 0 0 0 0 0 0 0).
End Transfer.

(** ** The registers *)

(** The bits of the channels that are started. *)
Definition enabled_channels (s : Ftdmac020State) : res Z :=
  for_loop 8 0 (fun i ret => let* c := aget (chan s) i in
    Ok (Z.lor ret (if is_set (ccr c) CCR_START then BIT i else 0))) 0.

(** [REG_CHAN_BASE(0) ... REG_CHAN_BASE(7) + 0x14] *)
Definition in_channels (addr : Z) : bool := (REG_CHAN_BASE 0 <=? addr) && (addr <=? REG_CHAN_BASE 7 + 0x14).

Definition ftdmac020_mem_read (addr : Z) (s : Ftdmac020State) : res Z :=
  if addr =? REG_ISR then
    Ok (Z.lor (Z.lor (Z.land (tcisr s) 0xff) (Z.land (eaisr s) 0xff)) (Z.land (Z.shiftr (eaisr s) 16) 0xff))
  else if addr =? REG_TCISR then Ok (tcisr s)
  else if addr =? REG_EAISR then Ok (eaisr s)
  else if addr =? REG_TCSR then Ok (tcsr s)
  else if addr =? REG_EASR then Ok (easr s)
  else if addr =? REG_CESR then enabled_channels s
  else if addr =? REG_CBSR then Ok (if 0 <? busy s then BIT (busy s) else 0)
  else if addr =? REG_CSR then Ok (csr s)
  else if addr =? REG_SYNC then Ok (sync s)
  else if addr =? REG_REVISION then Ok 0x00011300
  else if addr =? REG_FEATURE then Ok 0x00008105
  else if in_channels addr then
    let* c := aget (chan s) (REG_CHAN_ID addr) in
    let r := Z.land addr 0x1f in
    if r =? REG_CHAN_CCR then Ok (ccr c)
    else if r =? REG_CHAN_CFG then
      Ok (Z.lor (Z.lor (cfg c) (if busy s =? id c then Z.shiftl 1 8 else 0)) (Z.shiftl (Z.land (llp_cnt c) 0x0f) 16))
    else if r =? REG_CHAN_SRC then Ok (src c)
    else if r =? REG_CHAN_DST then Ok (dst c)
    else if r =? REG_CHAN_LLP then Ok (llp c)
    else if r =? REG_CHAN_LEN then Ok (len c)
    else Ok 0
  else Ok 0.

(** The write of a channel register; [true] starts the bottom half. *)
Definition chan_write (c : Ftdmac020Chan) (r val : Z) : Ftdmac020Chan * bool :=
  let put cnt ccr cfg src dst llp len :=
    mkChan (id c) (burst c) cnt (src_bw c) (src_stride c) (dst_bw c) (dst_stride c) ccr cfg src dst llp len in
  if r =? REG_CHAN_CCR then
    let cnt := if negb (is_set (ccr c) CCR_START) && is_set val CCR_START then 0 else llp_cnt c in
    let c := put cnt (Z.land (u32 val) 0x87FFBFFF) (cfg c) (src c) (dst c) (llp c) (len c) in
    if is_set (ccr c) CCR_START then (ftdmac020_chan_ccr_decode c, true) else (c, false)
  else if r =? REG_CHAN_CFG then (put (llp_cnt c) (ccr c) (Z.land (u32 val) 0x3eff) (src c) (dst c) (llp c) (len c), false)
  else if r =? REG_CHAN_SRC then (put (llp_cnt c) (ccr c) (cfg c) (u32 val) (dst c) (llp c) (len c), false)
  else if r =? REG_CHAN_DST then (put (llp_cnt c) (ccr c) (cfg c) (src c) (u32 val) (llp c) (len c), false)
  else if r =? REG_CHAN_LLP then
    (put (llp_cnt c) (ccr c) (cfg c) (src c) (dst c) (Z.land (u32 val) 0xfffffffc) (len c), false)
  else if r =? REG_CHAN_LEN then
    (put (llp_cnt c) (ccr c) (cfg c) (src c) (dst c) (llp c) (Z.land (u32 val) 0x003fffff), false)
  else (c, false).

Definition ftdmac020_mem_write (addr val : Z) (s : Ftdmac020State) : res Ftdmac020State :=
  if addr =? REG_TCCLR then Ok (ftdmac020_update_irq (set_tc s (clear (tcsr s) val) (clear (tcisr s) val)))
  else if addr =? REG_EACLR then
    Ok (ftdmac020_update_irq
      (mkState (irq s) (chan s) (req s) (busy s) (bh_owner s) (bh s) (tcisr s) (clear (eaisr s) val) (tcsr s)
         (clear (easr s) val) (cesr s) (cbsr s) (csr s) (sync s)))
  else if addr =? REG_CSR then
    Ok (mkState (irq s) (chan s) (req s) (busy s) (bh_owner s) (bh s) (tcisr s) (eaisr s) (tcsr s) (easr s)
          (cesr s) (cbsr s) (u32 val) (sync s))
  else if addr =? REG_SYNC then
    Ok (mkState (irq s) (chan s) (req s) (busy s) (bh_owner s) (bh s) (tcisr s) (eaisr s) (tcsr s) (easr s)
          (cesr s) (cbsr s) (csr s) (u32 val))
  else if in_channels addr then
    let* c := aget (chan s) (REG_CHAN_ID addr) in
    let (c, kick) := chan_write c (Z.land addr 0x1f) val in
    let* l := aset (chan s) (REG_CHAN_ID addr) c in
    let s := set_chans s l in
    Ok (if kick then set_bh s (bh_owner s) true else s)
  else Ok s.

(** Instance memory is zeroed before. *)
Definition ftdmac020_realize : Ftdmac020State :=
  mkState (false, false, false) ((fun i => mkChan i 0 0 0 0 0 0 0 0 0 0 0 0) <$> [0; 1; 2; 3; 4; 5; 6; 7])
    0 (-1) 0 false 0 0 0 0 0 0 0 0.
(** ** Guest RAM *)

Definition ram : Type := Z -> Z.
Definition ram_read (m : ram) (a n : Z) : list Z := (fun i => m (a + Z.of_nat i)) <$> seq 0 (Z.to_nat n).
Definition ram_write (m : ram) (a : Z) (data : list Z) : ram :=
  fun x => if (a <=? x) && (x <? a + Z.of_nat (length data)) then byte_at data (x - a) else m x.

#[export] Instance ram_bus : Bus ram := {
  is_io := fun _ _ => false;
  dma_memory_read := fun m a n => (m, ram_read m a n);
  dma_memory_write := ram_write;
  ack := fun m _ _ r => (m, r, false)
}.

(** ** Bursts *)

(** What the decoder makes of a control register. *)
Record chan_decoded (c : Ftdmac020Chan) : Prop := {
  cd_burst : exists j, 0 <= j <= 8 /\ burst c = 2 ^ j;
  cd_src : exists j, 0 <= j <= 3 /\ src_bw c = 8 * 2 ^ j;
  cd_dst : exists j, 0 <= j <= 3 /\ dst_bw c = 8 * 2 ^ j
}.

Lemma field_range x k n : 0 <= n -> 0 <= field x k n < 2 ^ n.
Proof. intros Hn. unfold field. rewrite Z.land_ones by done. apply Z.mod_pos_bound, pow2_pos. done. Qed.

(** [field] is [extract32]. *)
Lemma extract32_field x k n : 0 <= x < 2 ^ 32 -> 0 <= k -> 0 < n -> n <= 32 - k -> extract32 x k n = Ok (field x k n).
Proof.
  intros Hx Hk Hn Hs. unfold extract32, field_ok. zcases; try lia. cbn [c_assert res_bind].
  unfold field. do 2 f_equal. change (2 ^ 32 - 1) with (Z.ones 32). rewrite Z.shiftr_div_pow2, Z.ones_div_pow2 by lia.
  f_equal. lia.
Qed.

Lemma decode_ok c : chan_decoded (ftdmac020_chan_ccr_decode c).
Proof.
  assert (forall k, exists j, 0 <= j <= 3 /\ Z.shiftl 8 (field (ccr c) k 2) = 8 * 2 ^ j) as Bw.
  { intros k. pose proof (field_range (ccr c) k 2 ltac:(lia)). exists (field (ccr c) k 2).
    split; [lia|]. by rewrite Z.shiftl_mul_pow2 by lia. }
  split; cbn [burst src_bw dst_bw ftdmac020_chan_ccr_decode]; [|apply Bw|apply Bw].
  pose proof (field_range (ccr c) 16 3 ltac:(lia)). rewrite Z.shiftl_1_l. eexists. split; [|done].
  destruct (_ =? 0); lia.
Qed.

(** Bytes and units of a burst. *)
Definition width (c : Ftdmac020Chan) : Z := Z.shiftr (src_bw c) 3.
Lemma decoded_units c : chan_decoded c ->
  1 <= width c <= 8 /\ 1 <= burst c <= 256 /\ Z.min BUF_SIZE (burst c * width c) = burst c * width c /\
  c_div (burst c * width c) (width c) = Ok (burst c) /\ (burst c | 2 ^ 32).
Proof.
  intros [(j & Hj & Ej) (k & Hk & Ek) _]. unfold width.
  assert (Z.shiftr (src_bw c) 3 = 2 ^ k) as ->.
  { rewrite Ek, Z.shiftr_div_pow2 by lia. change (2 ^ 3) with 8. rewrite Z.mul_comm. apply Z.div_mul. lia. }
  rewrite Ej. assert (1 <= 2 ^ k <= 8).
  { pose proof (Z.pow_le_mono_r 2 0 k). pose proof (Z.pow_le_mono_r 2 k 3). lia. }
  assert (1 <= 2 ^ j <= 256).
  { pose proof (Z.pow_le_mono_r 2 0 j). pose proof (Z.pow_le_mono_r 2 j 8). lia. }
  split; [done|]. split; [done|]. unfold BUF_SIZE. split; [nia|]. split.
  - unfold c_div. destruct (Z.eqb_spec (2 ^ k) 0); [lia|]. f_equal. apply Z.div_mul. lia.
  - exists (2 ^ (32 - j)). rewrite <- Z.pow_add_r by lia. f_equal. lia.
Qed.

(** A transfer whose count is not a whole number of bursts: the count passes
    over zero. *)
Lemma chan_loop_overruns {W} `{Bus W} fuel : forall w s c buf a b, chan_decoded c ->
  0 <= len c < 2 ^ 32 -> len c mod burst c <> 0 -> chan_loop fuel w s c buf (-1) (-1) a b = Err OutOfFuel.
Proof.
  induction fuel as [|fuel IH]; intros w s c buf a b Hd Hl Hm;
    destruct (decoded_units c Hd) as (Hw & Hb & Em & Ed & Dv); unfold width in *;
    assert (len c <> 0) by (intros E; rewrite E in Hm; by apply Hm);
    cbn [chan_loop]; destruct (Z.leb_spec (len c) 0); try lia; cbn [requested Z.ltb orb negb]; [done|].
  rewrite Em. destruct (load w c a _ buf) as [[w1 buf1] a1]. change (acknowledge w1 s (-1)) with (w1, s). cbv iota.
  destruct (store w1 c b _ buf1) as [w2 b1]. change (acknowledge w2 s (-1)) with (w2, s). cbv iota. rewrite Ed. cbn [res_bind].
  set (l := u32 (len c - burst c)). assert (l mod burst c = len c mod burst c) as El.
  { unfold l, uwrap. destruct Dv as [q Dv]. rewrite Dv.
    rewrite (Z.mul_comm q), Z.rem_mul_r by (destruct (Z.eq_dec q 0); lia).
    rewrite <- Z.add_mod_idemp_r by lia. rewrite Z.mul_comm, Z.mod_mul, Z.add_0_r, Z.mod_mod by lia.
    replace (len c - burst c) with (len c + (-1) * burst c) by lia. apply Z.mod_add. lia. }
  change (len (set_len c l)) with l. destruct (Z.eqb_spec l 0) as [E|_].
  { exfalso. apply Hm. rewrite <- El, E. done. }
  apply IH; [by destruct Hd| |by rewrite <- El in Hm]. apply (uwrap_range 32). lia.
Qed.

(** ** Copying in RAM *)

Lemma ram_read_length m a n : 0 <= n -> Z.of_nat (length (ram_read m a n)) = n.
Proof. intros. unfold ram_read. rewrite length_fmap, length_seq. lia. Qed.

Lemma ram_read_byte m a n i : 0 <= i < n -> byte_at (ram_read m a n) i = m (a + i).
Proof.
  intros Hi. unfold byte_at, ram_read. rewrite list_lookup_fmap, lookup_seq_lt by lia. cbn. f_equal. lia.
Qed.

Lemma buf_put_get buf data n : length data = Z.to_nat n -> buf_get (buf_put buf 0 data) 0 n = data.
Proof.
  intros E. unfold buf_get, buf_put. rewrite <- E. apply (take_app_length data).
Qed.

(** The memory after copying [n] bytes from [a] to [b] at once. *)
Definition copied (m : ram) (a b n : Z) : ram := fun x => if (b <=? x) && (x <? b + n) then m (a + (x - b)) else m x.

Lemma write_read m a b n x : 0 <= n -> ram_write m b (ram_read m a n) x = copied m a b n x.
Proof.
  intros Hn. unfold ram_write, copied. rewrite ram_read_length by done.
  destruct ((b <=? x) && (x <? b + n)) eqn:E; [|done]. apply ram_read_byte. lia.
Qed.

(** [k] bursts of [n] bytes. *)
Fixpoint bursts (m : ram) (a b n : Z) (k : nat) : ram :=
  match k with O => m | S k => bursts (ram_write m b (ram_read m a n)) (a + n) (b + n) n k end.

(** Bursts copy the whole, when the destination does not overtake the source. *)
Lemma bursts_copied n k : 0 <= n -> forall m a b x, b <= a \/ a + Z.of_nat k * n <= b ->
  bursts m a b n k x = copied m a b (Z.of_nat k * n) x.
Proof.
  intros Hn. induction k as [|k IH]; intros m a b x Ho.
  - unfold copied. cbn. zcases; done || lia.
  - cbn [bursts]. rewrite IH by nia. unfold copied. rewrite !write_read by done. unfold copied.
    replace (Z.of_nat (S k) * n) with (n + Z.of_nat k * n) by lia.
    assert (0 <= Z.of_nat k * n) by nia. set (kn := Z.of_nat k * n) in *.
    zcases; try lia; try (f_equal; lia).
Qed.

(** The rounds of the loop up to the end of a transfer that is a whole number
    of bursts, both addresses counting up, without handshake. *)
Lemma chan_segment k : forall fuel (m : ram) s c buf a b, chan_decoded c ->
  src_stride c <> 0 -> dst_stride c <> 0 -> (0 < k <= fuel)%nat -> len c = Z.of_nat k * burst c -> len c < 2 ^ 32 ->
  0 <= a -> a + len c * width c < 2 ^ 64 -> 0 <= b -> b + len c * width c < 2 ^ 64 ->
  exists buf', chan_loop fuel m s c buf (-1) (-1) a b =
    let '(w, s, c', a, b) := chan_done (bursts m a b (burst c * width c) k) s (set_len c 0)
                               (a + len c * width c) (b + len c * width c) in
    chan_loop (fuel - k) w s c' buf' (-1) (-1) a b.
Proof.
  induction k as [|k IH]; intros fuel m s c buf a b Hd Hs Ht Hk Hl H32 Ha0 Ha Hb0 Hb; [lia|].
  destruct (decoded_units c Hd) as (Hw & Hbu & Em & Ed & _). destruct fuel as [|fuel]; [lia|].
  cbn [chan_loop]. destruct (Z.leb_spec (len c) 0); [nia|].
  change (requested s (-1)) with true. cbn [negb orb]. cbv zeta. fold (width c). rewrite Em.
  set (n := burst c * width c) in *. assert (len c * width c = Z.of_nat (S k) * n) as Et by (unfold n; nia).
  rewrite Et in *. assert (0 <= n) by (unfold n; nia).
  unfold load. destruct (Z.eqb_spec (src_stride c) 0); [done|]. cbn [negb dma_memory_read ram_bus].
  change (acknowledge m s (-1)) with (m, s). cbv iota. unfold store.
  destruct (Z.eqb_spec (dst_stride c) 0); [done|]. cbn [negb dma_memory_write ram_bus].
  rewrite buf_put_get by (pose proof (ram_read_length m a n); lia).
  set (m1 := ram_write m b (ram_read m a n)). change (acknowledge m1 s (-1)) with (m1, s). cbv iota.
  rewrite Ed. cbn [res_bind]. rewrite (uwrap_small 64 (a + n)), (uwrap_small 64 (b + n)) by nia.
  rewrite uwrap_small by nia. set (l := len c - burst c).
  change (len (set_len c l)) with l. destruct (Z.eqb_spec l 0) as [El|Nl].
  - assert (k = O) as -> by (unfold l in El; nia). exists (buf_put buf 0 (ram_read m a n)).
    rewrite El. cbn [bursts]. fold m1. replace (Z.of_nat 1 * n) with n by lia.
    replace (S fuel - 1)%nat with fuel by lia. done.
  - destruct (IH fuel m1 s (set_len c l) (buf_put buf 0 (ram_read m a n)) (a + n) (b + n)) as [buf' E];
      try done; try (by destruct Hd); change (burst (set_len c l)) with (burst c);
      change (width (set_len c l)) with (width c); change (len (set_len c l)) with l.
    + unfold l in Nl. nia.
    + unfold l. nia.
    + unfold l. lia.
    + nia.
    + replace (l * width c) with (Z.of_nat k * n) by (unfold l, n; nia). nia.
    + nia.
    + replace (l * width c) with (Z.of_nat k * n) by (unfold l, n; nia). nia.
    + exists buf'. rewrite E. change (burst (set_len c l)) with (burst c). change (width (set_len c l)) with (width c).
      change (len (set_len c l)) with l. replace (l * width c) with (Z.of_nat k * n) by (unfold l, n; nia).
      fold n. cbn [bursts]. fold m1. change (set_len (set_len c l) 0) with (set_len c 0).
      replace (a + n + Z.of_nat k * n) with (a + Z.of_nat (S k) * n) by lia.
      replace (b + n + Z.of_nat k * n) with (b + Z.of_nat (S k) * n) by lia. done.
Qed.

(** ** Linked lists of transfers *)

(** A transfer that counts up on both sides, is a whole number of bursts and
    does not overtake itself. *)
Record job_ok (c : Ftdmac020Chan) : Prop := {
  jo_decoded : chan_decoded c;
  jo_src : src_stride c <> 0;
  jo_dst : dst_stride c <> 0;
  jo_len : 0 < len c < 2 ^ 22;
  jo_whole : len c mod burst c = 0;
  jo_addrs : 0 <= src c < 2 ^ 32 /\ 0 <= dst c < 2 ^ 32;
  jo_order : dst c <= src c \/ src c + len c * width c <= dst c
}.

Definition bytes (c : Ftdmac020Chan) : Z := len c * width c.
Definition after (m : ram) (c : Ftdmac020Chan) : ram :=
  bursts m (src c) (dst c) (burst c * width c) (Z.to_nat (len c / burst c)).

(** The status after a transfer, as [chan_done] leaves it. *)
Definition tc_status (s : Ftdmac020State) (c : Ftdmac020Chan) : Ftdmac020State :=
  if negb (is_set (ccr c) CCR_MASK_TC) then
    ftdmac020_update_irq (set_tc s (Z.lor (tcsr s) (BIT (id c)))
      (if negb (is_set (cfg c) CFG_MASK_TCI) then Z.lor (tcisr s) (BIT (id c)) else tcisr s))
  else s.

(** The channel as the descriptor at its link pointer loads it. *)
Definition next_job (m : ram) (c : Ftdmac020Chan) : Ftdmac020Chan :=
  lld_load (set_len c 0) (lld_of_bytes (ram_read m (llp c) 20)).

(** [cs] are the transfers a channel goes through, from its registers through
    the descriptors it finds in memory, to the one without a link. *)
Fixpoint linked (m : ram) (c : Ftdmac020Chan) (cs : list Ftdmac020Chan) : Prop :=
  job_ok c /\
  match cs with
  | [] => llp c = 0
  | c' :: cs => llp c <> 0 /\ c' = next_job (after m c) c /\ linked (after m c) c' cs
  end.

(** The copies of a list of transfers, in order. *)
Definition copies (m : ram) (cs : list Ftdmac020Chan) : ram :=
  fold_left (fun m c => copied m (src c) (dst c) (bytes c)) cs m.

Lemma job_units c : job_ok c -> exists k, Z.to_nat (len c / burst c) = k /\ (0 < k)%nat /\
  len c = Z.of_nat k * burst c /\ Z.of_nat k * (burst c * width c) = bytes c /\
  bytes c < 2 ^ 25 /\ Z.of_nat k <= len c.
Proof.
  intros [Hd _ _ Hl Hm _ _]. destruct (decoded_units c Hd) as (Hw & Hb & _).
  pose proof (Z.div_mod (len c) (burst c) ltac:(lia)) as E. rewrite Hm in E.
  assert (0 < len c / burst c) by nia. exists (Z.to_nat (len c / burst c)).
  unfold bytes. split; [done|]. split; [lia|]. rewrite Z2Nat.id by lia. split; [lia|]. split; [nia|]. split; nia.
Qed.

Lemma after_copied m c x : job_ok c -> after m c x = copied m (src c) (dst c) (bytes c) x.
Proof.
  intros H. destruct (job_units c H) as (k & Ek & _ & El & Eb & _). unfold after. rewrite Ek.
  destruct (decoded_units c (jo_decoded _ H)) as (Hw & Hb & _).
  rewrite bursts_copied; [by rewrite Eb|nia|]. rewrite Eb. exact (jo_order _ H).
Qed.

Lemma copied_ext m m' a b n x : (forall y, m y = m' y) -> copied m a b n x = copied m' a b n x.
Proof. intros E. unfold copied. by rewrite !E. Qed.

Lemma copies_ext cs : forall m m' x, (forall y, m y = m' y) -> copies m cs x = copies m' cs x.
Proof.
  induction cs as [|c cs IH]; intros m m' x E; [by apply E|]. cbn. apply IH. intros y. by apply copied_ext.
Qed.

(** The transfer a channel ends with. *)
Fixpoint final (c : Ftdmac020Chan) (cs : list Ftdmac020Chan) : Ftdmac020Chan :=
  match cs with [] => c | c' :: cs => final c' cs end.

(** Enough rounds for a list of transfers. *)
Definition enough (cs : list Ftdmac020Chan) : nat := sum_list_with (fun c => Z.to_nat (len c / burst c)) cs.

Lemma chan_list cs : forall c fuel (m : ram) s buf, linked m c cs -> (enough (c :: cs) <= fuel)%nat ->
  let z := final c cs in
  exists m', chan_loop fuel m s c buf (-1) (-1) (src c) (dst c) =
    Ok (m', fold_left tc_status (c :: cs) s, set_ccr (set_len z 0) (clear (ccr z) CCR_START),
        src z + bytes z, dst z + bytes z) /\
    forall x, m' x = copies m (c :: cs) x.
Proof.
  induction cs as [|c' cs IH]; intros c fuel m s buf Hlk Hf z; cbn [linked] in Hlk; destruct Hlk as [Hj Hn];
    destruct (job_units c Hj) as (k & Ek & Kp & El & Eb & Hb & Hk);
    pose proof Hj as [Hd Hs Ht Hl _ [Hsa Hda] _];
    (destruct (chan_segment k fuel m s c buf (src c) (dst c)) as [buf' E];
      [done|done|done|cbn [enough sum_list_with] in Hf; lia|done|lia|lia|fold (bytes c); lia|lia|fold (bytes c); lia|]);
    fold (bytes c) in E; rewrite E; unfold chan_done; fold (bytes c);
    assert (bursts m (src c) (dst c) (burst c * width c) k = after m c) as -> by (unfold after; by rewrite Ek).
  - change (llp (set_len c 0)) with (llp c). rewrite Hn. cbn [Z.eqb negb].
    exists (after m c). split.
    + destruct (fuel - k)%nat; done.
    + intros x. by apply after_copied.
  - destruct Hn as (Hn & Ec & Hlk). change (llp (set_len c 0)) with (llp c).
    destruct (Z.eqb_spec (llp c) 0); [done|]. cbn [negb dma_memory_read ram_bus]. fold (next_job (after m c) c).
    rewrite <- Ec.
    destruct (IH c' (fuel - k)%nat (after m c) (tc_status s c) buf' Hlk) as (m' & E' & Hm').
    { cbn [enough sum_list_with] in *. lia. }
    exists m'. split.
    + fold (tc_status s (set_len c 0)). change (tc_status s (set_len c 0)) with (tc_status s c). by rewrite E'.
    + intros x. rewrite Hm'. apply (copies_ext (c' :: cs)). intros y. by apply after_copied.
Qed.

(** ** Claims *)

Definition no_handshake (c : Ftdmac020Chan) : Prop :=
  is_set (cfg c) CFG_SRC_HANDSHAKE_EN = false /\ is_set (cfg c) CFG_DST_HANDSHAKE_EN = false.

(** C31: a started channel works through its descriptor list, between addresses
    that are RAM.  From its registers through the descriptors that it finds in
    RAM (as the earlier transfers left it) to the one without a link, every
    transfer is a whole number of bursts, counts up on both sides, does not
    write over bytes that it has still to read, and uses no handshake
    ([linked], [job_ok], [no_handshake]): then the channel ends, the memory
    afterwards is that of copying the transfers one after the other, the
    terminal-count status of each is recorded with its interrupt, and the
    channel is stopped, empty and not busy. *)
Theorem dma_list_correct c cs fuel m s buf :
  is_set (ccr c) CCR_START = true -> no_handshake c -> linked m c cs -> (enough (c :: cs) <= fuel)%nat ->
  exists m' s' c', ftdmac020_chan_start fuel buf m s c = Ok (m', s', c') /\
    (forall x, m' x = copies m (c :: cs) x) /\
    s' = set_busy (fold_left tc_status (c :: cs) (set_busy s (id c))) (-1) /\
    is_set (ccr c') CCR_START = false /\ len c' = 0.
Proof.
  intros St [H1 H2] Hlk Hf. unfold ftdmac020_chan_start. rewrite St, H1, H2. cbn [negb is_io ram_bus andb c_assert res_bind].
  destruct (chan_list cs c fuel m (set_busy s (id c)) buf Hlk Hf) as (m' & -> & Hm). cbn [res_bind].
  eexists _, _, _. split; [done|]. split; [done|]. split; [done|]. split; [|done].
  cbn [ccr set_addrs set_ccr]. unfold is_set, clear. rewrite <- Z.land_assoc.
  replace (Z.land (u32 (Z.lnot (u32 CCR_START))) CCR_START) with 0 by done. by rewrite Z.land_0_r.
Qed.

(** A byte-wide channel with four units to copy and a link to a second
    descriptor, of two units. *)
Definition example_ram : ram := fun x =>
  if x =? 0x3001 then 0x18 else if x =? 0x3005 then 0x28 else if x =? 0x3010 then 2
  else if 0x3000 <=? x then 0 else x mod 0x100.
Definition example_chan : Ftdmac020Chan := mkChan 3 1 0 8 1 8 1 CCR_START 0 0x1000 0x2000 0x3000 4.
Definition example_next : Ftdmac020Chan := next_job (after example_ram example_chan) example_chan.

Lemma dma_list_correct_witness :
  src example_next = 0x1800 /\ dst example_next = 0x2800 /\ len example_next = 2 /\ example_ram 0x1801 = 1 /\
  forall s, exists m' s' c',
  ftdmac020_chan_start 6 (repeat 0 4096) example_ram s example_chan = Ok (m', s', c') /\
  (forall x, m' x = copies example_ram [example_chan; example_next] x) /\
  s' = set_busy (fold_left tc_status [example_chan; example_next] (set_busy s 3)) (-1) /\
  is_set (ccr c') CCR_START = false /\ len c' = 0.
Proof.
  do 4 (split; [by vm_compute|]). intros s.
  assert (forall c, chan_decoded c -> (src_stride c, dst_stride c, burst c, width c) = (1, 1, 1, 1) ->
    0 < len c < 2 ^ 22 -> 0 <= src c < 2 ^ 32 /\ 0 <= dst c < 2 ^ 32 -> src c + len c <= dst c -> job_ok c) as J.
  { intros c Hd [= E1 E2 E3 E4] Hl Ha Ho. split; rewrite ?E1, ?E2, ?E3, ?E4; try done; [apply Z.mod_1_r|lia]. }
  apply (dma_list_correct example_chan [example_next] 6 example_ram s); [done|by split|..|by vm_compute; lia].
  split.
  - apply J; [apply (decode_ok example_chan)|done|done|done|done].
  - split; [done|]. split; [done|]. split; [|by vm_compute].
    apply J; [apply decode_ok|by vm_compute|by vm_compute|by vm_compute|by vm_compute].
Defined.

(** A count that is not a whole number of bursts is never reached.  The
    count is decremented by a full burst, passes below zero and, being
    unsigned, goes round for ever without becoming zero: for every bus, every
    such channel without handshake never ends its transfer, and keeps reading
    and writing beyond its buffers. *)
Theorem partial_burst_never_ends {W} `{Bus W} fuel buf (w : W) s c :
  is_set (ccr c) CCR_START = true -> no_handshake c -> chan_decoded c ->
  0 <= len c < 2 ^ 32 -> len c mod burst c <> 0 ->
  is_io w (src c) = false -> is_io w (dst c) = false ->
  ftdmac020_chan_start fuel buf w s c = Err OutOfFuel.
Proof.
  intros St [H1 H2] Hd Hl Hm Hs Ht. unfold ftdmac020_chan_start. rewrite St, H1, H2, Hs, Ht. cbn [negb andb c_assert res_bind].
  by rewrite chan_loop_overruns.
Qed.

Lemma partial_burst_never_ends_witness :
  ftdmac020_chan_start 1000 (repeat 0 4096) example_ram ftdmac020_realize
    (ftdmac020_chan_ccr_decode (mkChan 0 0 0 0 0 0 0 0x10001 0 0x1000 0x2000 0 1)) = Err OutOfFuel.
Proof. by apply partial_burst_never_ends; [..|apply decode_ok| | | |]. Defined.

End Ftdmac020.
