(* ===== verification/Bitmap.v ===== *)
(** * Bitmaps

    [util/bitmap.c] and the inline functions of [include/qemu/bitmap.h].  A
    destination that is also a source is harmless in the word-by-word loops
    (word [k] is written after it is read and not read again), so source and
    destination are separate arguments. *)

From stdpp Require Import base list numbers.
From S2P Require Import Prelude HostUtils Bitops.

Definition BITMAP_LAST_WORD_MASK (nbits : Z) : Z :=
  if negb (nbits mod BITS_PER_LONG =? 0)
  then u64 (Z.shiftl 1 (nbits mod BITS_PER_LONG)) - 1 else ALL_ONES.

Definition small_nbits (nbits : Z) : bool := nbits <=? BITS_PER_LONG.

(** ** Predicates

    The shape shared by the source's five comparison loops: whole words, then
    the partial last word. *)
Definition any_word (bits : Z) (whole part : Z -> res bool) : res bool :=
  let lim := bits / BITS_PER_LONG in
  let* hit := scan (Z.to_nat lim) 0 whole in
  if hit then Ok true
  else if negb (bits mod BITS_PER_LONG =? 0) then part lim else Ok false.

Definition slow_bitmap_empty (bitmap : list Z) (bits : Z) : res bool :=
  let* hit := any_word bits
    (fun k => let* w := aget bitmap k in Ok (negb (w =? 0)))
    (fun k => let* w := aget bitmap k in
              Ok (negb (Z.land w (BITMAP_LAST_WORD_MASK bits) =? 0))) in
  Ok (negb hit).

Definition slow_bitmap_full (bitmap : list Z) (bits : Z) : res bool :=
  let* hit := any_word bits
    (fun k => let* w := aget bitmap k in Ok (negb (lnot64 w =? 0)))
    (fun k => let* w := aget bitmap k in
              Ok (negb (Z.land (lnot64 w) (BITMAP_LAST_WORD_MASK bits) =? 0))) in
  Ok (negb hit).

Definition slow_bitmap_equal (bitmap1 bitmap2 : list Z) (bits : Z) : res bool :=
  let* hit := any_word bits
    (fun k => let* a := aget bitmap1 k in let* b := aget bitmap2 k in Ok (negb (a =? b)))
    (fun k => let* a := aget bitmap1 k in let* b := aget bitmap2 k in
              Ok (negb (Z.land (Z.lxor a b) (BITMAP_LAST_WORD_MASK bits) =? 0))) in
  Ok (negb hit).

Definition slow_bitmap_intersects (bitmap1 bitmap2 : list Z) (bits : Z) : res bool :=
  any_word bits
    (fun k => let* a := aget bitmap1 k in let* b := aget bitmap2 k in Ok (negb (Z.land a b =? 0)))
    (fun k => let* a := aget bitmap1 k in let* b := aget bitmap2 k in
              Ok (negb (Z.land (Z.land a b) (BITMAP_LAST_WORD_MASK bits) =? 0))).

Definition bitmap_empty (src : list Z) (nbits : Z) : res bool :=
  if small_nbits nbits
  then let* w := aget src 0 in Ok (Z.land w (BITMAP_LAST_WORD_MASK nbits) =? 0)
  else slow_bitmap_empty src nbits.

Definition bitmap_full (src : list Z) (nbits : Z) : res bool :=
  if small_nbits nbits
  then let* w := aget src 0 in Ok (Z.land (lnot64 w) (BITMAP_LAST_WORD_MASK nbits) =? 0)
  else slow_bitmap_full src nbits.

Definition bitmap_equal (src1 src2 : list Z) (nbits : Z) : res bool :=
  if small_nbits nbits
  then let* a := aget src1 0 in let* b := aget src2 0 in
       Ok (Z.land (Z.lxor a b) (BITMAP_LAST_WORD_MASK nbits) =? 0)
  else slow_bitmap_equal src1 src2 nbits.

Definition bitmap_intersects (src1 src2 : list Z) (nbits : Z) : res bool :=
  if small_nbits nbits
  then let* a := aget src1 0 in let* b := aget src2 0 in
       Ok (negb (Z.land (Z.land a b) (BITMAP_LAST_WORD_MASK nbits) =? 0))
  else slow_bitmap_intersects src1 src2 nbits.

(** ** Word-wise operations *)

Definition slow_bitmap_complement (dst src : list Z) (bits : Z) : res (list Z) :=
  let lim := bits / BITS_PER_LONG in
  let* dst := for_loop (Z.to_nat lim) 0
    (fun k dst => let* w := aget src k in aset dst k (lnot64 w)) dst in
  if negb (bits mod BITS_PER_LONG =? 0) then
    let* w := aget src lim in
    aset dst lim (Z.land (lnot64 w) (BITMAP_LAST_WORD_MASK bits))
  else Ok dst.

(** [dst[k] = op(bitmap1[k], bitmap2[k])] for every word; the pair is the
    or of the words written, and [dst]. *)
Definition word_loop (op : Z -> Z -> Z) (dst bitmap1 bitmap2 : list Z) (bits : Z) : res (Z * list Z) :=
  for_loop (Z.to_nat (BITS_TO_LONGS bits)) 0
    (fun k (st : Z * list Z) =>
       let (result, dst) := st in
       let* a := aget bitmap1 k in
       let* b := aget bitmap2 k in
       let* dst := aset dst k (op a b) in
       Ok (Z.lor result (op a b), dst)) (0, dst).

Definition slow_bitmap_and (dst bitmap1 bitmap2 : list Z) (bits : Z) : res (bool * list Z) :=
  let* (result, dst) := word_loop Z.land dst bitmap1 bitmap2 bits in
  Ok (negb (result =? 0), dst).
Definition slow_bitmap_or (dst bitmap1 bitmap2 : list Z) (bits : Z) : res (list Z) :=
  let* (_, dst) := word_loop Z.lor dst bitmap1 bitmap2 bits in Ok dst.
Definition slow_bitmap_xor (dst bitmap1 bitmap2 : list Z) (bits : Z) : res (list Z) :=
  let* (_, dst) := word_loop Z.lxor dst bitmap1 bitmap2 bits in Ok dst.
Definition slow_bitmap_andnot (dst bitmap1 bitmap2 : list Z) (bits : Z) : res (bool * list Z) :=
  let* (result, dst) := word_loop (fun a b => Z.land a (lnot64 b)) dst bitmap1 bitmap2 bits in
  Ok (negb (result =? 0), dst).

Definition bitmap_and (dst src1 src2 : list Z) (nbits : Z) : res (bool * list Z) :=
  if small_nbits nbits then
    let* a := aget src1 0 in let* b := aget src2 0 in
    let* dst := aset dst 0 (Z.land a b) in Ok (negb (Z.land a b =? 0), dst)
  else slow_bitmap_and dst src1 src2 nbits.
Definition bitmap_or (dst src1 src2 : list Z) (nbits : Z) : res (list Z) :=
  if small_nbits nbits then
    let* a := aget src1 0 in let* b := aget src2 0 in aset dst 0 (Z.lor a b)
  else slow_bitmap_or dst src1 src2 nbits.
Definition bitmap_xor (dst src1 src2 : list Z) (nbits : Z) : res (list Z) :=
  if small_nbits nbits then
    let* a := aget src1 0 in let* b := aget src2 0 in aset dst 0 (Z.lxor a b)
  else slow_bitmap_xor dst src1 src2 nbits.
Definition bitmap_andnot (dst src1 src2 : list Z) (nbits : Z) : res (bool * list Z) :=
  if small_nbits nbits then
    let* a := aget src1 0 in let* b := aget src2 0 in
    let* dst := aset dst 0 (Z.land a (lnot64 b)) in
    Ok (negb (Z.land a (lnot64 b) =? 0), dst)
  else slow_bitmap_andnot dst src1 src2 nbits.
Definition bitmap_complement (dst src : list Z) (nbits : Z) : res (list Z) :=
  if small_nbits nbits then
    let* w := aget src 0 in aset dst 0 (Z.land (lnot64 w) (BITMAP_LAST_WORD_MASK nbits))
  else slow_bitmap_complement dst src nbits.

(** ** Filling *)

Definition bitmap_new (nbits : Z) : list Z := replicate (Z.to_nat (BITS_TO_LONGS nbits)) 0.

(** [memset]/[memcpy] of [n] words at the start of [dst]. *)
Definition fill_words (dst : list Z) (n w : Z) : res (list Z) :=
  for_loop (Z.to_nat n) 0 (fun k dst => aset dst k w) dst.

Definition bitmap_zero (dst : list Z) (nbits : Z) : res (list Z) :=
  if small_nbits nbits then aset dst 0 0 else fill_words dst (BITS_TO_LONGS nbits) 0.

Definition bitmap_fill (dst : list Z) (nbits : Z) : res (list Z) :=
  let nlongs := BITS_TO_LONGS nbits in
  let* dst := if negb (small_nbits nbits) then fill_words dst (nlongs - 1) ALL_ONES else Ok dst in
  aset dst (nlongs - 1) (BITMAP_LAST_WORD_MASK nbits).

Definition bitmap_copy (dst src : list Z) (nbits : Z) : res (list Z) :=
  if small_nbits nbits then let* w := aget src 0 in aset dst 0 w
  else for_loop (Z.to_nat (BITS_TO_LONGS nbits)) 0
         (fun k dst => let* w := aget src k in aset dst k w) dst.

(** ** Ranges of bits *)

Definition BITMAP_FIRST_WORD_MASK (start : Z) : Z := u64 (Z.shiftl ALL_ONES (start mod BITS_PER_LONG)).

(** The loop of [bitmap_set] and [bitmap_clear]: [op w mask] is [w | mask] in
    one and [w & ~mask] in the other. *)
Fixpoint range_loop (op : Z -> Z -> Z) (fuel : nat) (map : list Z) (p nr bits mask size : Z)
  : res (list Z) :=
  match fuel with
  | O => Err OutOfFuel
  | S fuel =>
      if 0 <=? nr - bits then
        let* w := aget map p in
        let* map := aset map p (op w mask) in
        range_loop op fuel map (p + 1) (nr - bits) BITS_PER_LONG ALL_ONES size
      else if negb (nr =? 0) then
        let mask := Z.land mask (BITMAP_LAST_WORD_MASK size) in
        let* w := aget map p in aset map p (op w mask)
      else Ok map
  end.

Definition range_fuel (nr : Z) : nat := S (S (Z.to_nat (nr / 64))).

Definition bitmap_set (map : list Z) (start nr : Z) : res (list Z) :=
  range_loop Z.lor (range_fuel nr) map (BIT_WORD start) nr
    (BITS_PER_LONG - start mod BITS_PER_LONG) (BITMAP_FIRST_WORD_MASK start) (start + nr).

Definition bitmap_clear (map : list Z) (start nr : Z) : res (list Z) :=
  range_loop (fun w mask => Z.land w (lnot64 mask)) (range_fuel nr) map (BIT_WORD start) nr
    (BITS_PER_LONG - start mod BITS_PER_LONG) (BITMAP_FIRST_WORD_MASK start) (start + nr).

(** [g_realloc] keeps the words that fit; the ones it adds are unspecified and
    are given by [fresh]. *)
Definition bitmap_zero_extend (fresh old : list Z) (old_nbits new_nbits : Z) : res (list Z) :=
  let n := Z.to_nat (BITS_TO_LONGS new_nbits) in
  let new := take n (old ++ fresh) in
  bitmap_clear new old_nbits (new_nbits - old_nbits).

(** ** Allocation of an area *)

Definition ALIGN_MASK (x mask : Z) : Z := Z.land (u64 (x + mask)) (lnot64 mask).

(** The [again] loop; each round starts after a bit found set. *)
Fixpoint next_zero_area (fuel : nat) (map : list Z) (size start nr align_mask : Z) : res Z :=
  match fuel with
  | O => Err OutOfFuel
  | S fuel =>
      let* index := find_next_zero_bit map size start in
      let index := ALIGN_MASK index align_mask in
      let endp := u64 (index + nr) in
      if size <? endp then Ok endp else
      let* i := find_next_bit map endp index in
      if i <? endp then next_zero_area fuel map size (i + 1) nr align_mask
      else Ok index
  end.

Definition bitmap_find_next_zero_area (map : list Z) (size start nr align_mask : Z) : res Z :=
  next_zero_area (S (Z.to_nat (size - start))) map size start nr align_mask.

(** ** Facts: masks and words *)

Lemma last_mask_testbit bits j : 0 <= j < 64 ->
  Z.testbit (BITMAP_LAST_WORD_MASK bits) j = (bits mod 64 =? 0) || (j <? bits mod 64).
Proof.
  intros Hj. unfold BITMAP_LAST_WORD_MASK, BITS_PER_LONG.
  pose proof (Z.mod_pos_bound bits 64 ltac:(lia)) as B.
  destruct (Z.eqb_spec (bits mod 64) 0); cbn [negb orb].
  - rewrite all_ones_ones, ones_testbit by lia. zcases; done || lia.
  - assert (2 ^ (bits mod 64) < 2 ^ 64) by (apply Z.pow_lt_mono_r; lia).
    rewrite Z.shiftl_1_l, uwrap_small by lia.
    replace (2 ^ (bits mod 64) - 1) with (Z.ones (bits mod 64)) by (rewrite Z.ones_equiv; lia).
    apply ones_testbit; lia.
Qed.

Lemma last_mask_range bits : 0 <= BITMAP_LAST_WORD_MASK bits < 2 ^ 64.
Proof.
  unfold BITMAP_LAST_WORD_MASK, ALL_ONES, BITS_PER_LONG. destruct (bits mod 64 =? 0); cbn [negb]; [lia|].
  pose proof (Z.mod_pos_bound bits 64 ltac:(lia)) as B.
  assert (2 ^ (bits mod 64) < 2 ^ 64) by (apply Z.pow_lt_mono_r; lia).
  rewrite Z.shiftl_1_l, uwrap_small by lia. lia.
Qed.

(** A word is non-zero exactly when one of its bits is set. *)
Lemma word_nonzero w : 0 <= w < 2 ^ 64 ->
  negb (w =? 0) = true <-> exists j, 0 <= j < 64 /\ Z.testbit w j = true.
Proof.
  intros Hw. rewrite negb_true_iff, Z.eqb_neq. split.
  - intros N. destruct (ctz64_spec w ltac:(lia)) as (Hr & H1 & _). eauto.
  - intros (j & Hj & T) ->. by rewrite Z.testbit_0_l in T.
Qed.

(** The common loop decides whether some bit below [bits] satisfies [Q]. *)
Lemma any_word_spec (Q : Z -> bool) (f : Z -> Z) bits whole part :
  0 <= bits ->
  (forall k, 0 <= k -> 64 * k < bits ->
     0 <= f k < 2 ^ 64 /\ (forall j, 0 <= j < 64 -> Z.testbit (f k) j = Q (64 * k + j)) /\
     whole k = Ok (negb (f k =? 0)) /\
     part k = Ok (negb (Z.land (f k) (BITMAP_LAST_WORD_MASK bits) =? 0))) ->
  exists b, any_word bits whole part = Ok b /\
    (b = true <-> exists i, 0 <= i < bits /\ Q i = true).
Proof.
  intros Hb H. unfold any_word, BITS_PER_LONG.
  destruct (scan_spec (fun k => negb (f k =? 0)) whole (Z.to_nat (bits / 64)) 0) as (b & -> & Hs).
  { intros k Hk. apply H; dlia. }
  cbn [res_bind]. destruct b.
  - exists true. split; [done|]. split; [|done]. intros _.
    destruct (proj1 Hs eq_refl) as (k & Hk & N).
    destruct (H k) as (R & B & _); [lia|dlia|].
    apply (word_nonzero _ R) in N as (j & Hj & T).
    exists (64 * k + j). rewrite <- B by done. split; [dlia|done].
  - assert (forall i, 0 <= i < 64 * (bits / 64) -> Q i = false) as Low.
    { intros i Hi. destruct (Q i) eqn:Qi; [|done]. exfalso.
      enough (false = true) by done. apply Hs. exists (i / 64). split; [dlia|].
      destruct (H (i / 64)) as (R & B & _); [dlia|dlia|].
      apply word_nonzero; [done|]. exists (i mod 64). split; [dlia|].
      rewrite B by dlia. by replace (64 * (i / 64) + i mod 64) with i by dlia. }
    destruct (Z.eqb_spec (bits mod 64) 0) as [M|M]; cbn [negb].
    + exists false. split; [done|]. split; [done|]. intros (i & Hi & Qi).
      rewrite Low in Qi; [done|dlia].
    + destruct (H (bits / 64)) as (R & B & _ & ->); [dlia|dlia|].
      eexists. split; [done|]. rewrite word_nonzero by (apply land_range; [lia|done]).
      split.
      * intros (j & Hj & T). rewrite Z.land_spec, last_mask_testbit, B in T by done.
        apply andb_true_iff in T as [T L]. exists (64 * (bits / 64) + j). split; [|done].
        destruct (Z.eqb_spec (bits mod 64) 0); [done|]. cbn in L. dlia.
      * intros (i & Hi & Qi). destruct (Z.ltb_spec i (64 * (bits / 64))); [by rewrite Low in Qi by lia|].
        exists (i mod 64). split; [dlia|]. rewrite Z.land_spec, last_mask_testbit, B by dlia.
        replace (64 * (bits / 64) + i mod 64) with i by dlia. rewrite Qi. cbn.
        apply orb_true_iff. right. dlia.
Qed.

(** Reading a word of a bitmap that holds [bits] bits. *)
Lemma bitmap_word l bits k :
  words_ok l -> bits <= 64 * Z.of_nat (length l) -> 0 <= k -> 64 * k < bits ->
  exists w, aget l k = Ok w /\ 0 <= w < 2 ^ 64 /\
    forall j, 0 <= j < 64 -> Z.testbit w j = bit l (64 * k + j).
Proof.
  intros Hl Hb Hk Hlt. destruct (aget_total l k ltac:(lia)) as [w E]. exists w.
  split; [done|]. apply aget_Ok in E as [_ Hw]. split; [by eapply words_lookup|].
  intros. symmetry. by apply bit_word.
Qed.

(** The word at [k], as a total function. *)
Definition word_at (l : list Z) (k : Z) : Z := default 0 (l !! Z.to_nat k).

Lemma bitmap_word_at l bits k :
  words_ok l -> bits <= 64 * Z.of_nat (length l) -> 0 <= k -> 64 * k < bits ->
  aget l k = Ok (word_at l k) /\ 0 <= word_at l k < 2 ^ 64 /\
  forall j, 0 <= j < 64 -> Z.testbit (word_at l k) j = bit l (64 * k + j).
Proof.
  intros Hl Hb Hk Hlt. destruct (bitmap_word l bits k) as (w & E & H); try done.
  assert (word_at l k = w) as ->; [|done].
  apply aget_Ok in E as [_ E]. unfold word_at. by rewrite E.
Qed.

(** A small bitmap goes through one masked word, which is what the loops do
    on it too. *)
Lemma small_any (Q : Z -> bool) w bits :
  0 < bits <= 64 -> 0 <= w < 2 ^ 64 -> (forall j, 0 <= j < 64 -> Z.testbit w j = Q j) ->
  negb (Z.land w (BITMAP_LAST_WORD_MASK bits) =? 0) = true <->
  exists i, 0 <= i < bits /\ Q i = true.
Proof.
  intros Hb Hw B. rewrite word_nonzero by (apply land_range; [lia|done]).
  assert (forall j, 0 <= j < 64 -> (bits mod 64 =? 0) || (j <? bits mod 64) = (j <? bits)) as M.
  { intros. zcases; done || dlia. }
  split; intros (j & Hj & T).
  - rewrite Z.land_spec, last_mask_testbit, M, B in T by lia.
    apply andb_true_iff in T as [T L]. exists j. split; [lia|done].
  - exists j. split; [lia|]. rewrite Z.land_spec, last_mask_testbit, M, B, T by lia.
    cbn. lia.
Qed.

Lemma no_bit_iff (Q : Z -> bool) bits (b : bool) :
  (b = true <-> exists i, 0 <= i < bits /\ Q i = true) ->
  negb b = true <-> forall i, 0 <= i < bits -> Q i = false.
Proof.
  intros H. rewrite negb_true_iff. destruct b; split; try done.
  - destruct (proj1 H eq_refl) as (i & Hi & Qi). intros N. by rewrite N in Qi.
  - intros _ i Hi. destruct (Q i) eqn:E; [|done]. enough (false = true) by done. apply H. eauto.
Qed.

Section Predicates.
Context (l1 l2 : list Z) (bits : Z) (H1 : words_ok l1) (H2 : words_ok l2).
Context (B1 : 0 < bits <= 64 * Z.of_nat (length l1)) (B2 : bits <= 64 * Z.of_nat (length l2)).

Lemma bitmap_empty_spec : exists b, bitmap_empty l1 bits = Ok b /\
  (b = true <-> forall i, 0 <= i < bits -> bit l1 i = false).
Proof.
  unfold bitmap_empty, small_nbits, BITS_PER_LONG. destruct (Z.leb_spec bits 64).
  - destruct (bitmap_word_at l1 bits 0) as (-> & R & B); [done|lia|lia|lia|]. cbn [res_bind].
    eexists. split; [done|]. rewrite <- (negb_involutive (_ =? 0)).
    apply no_bit_iff, small_any; [lia|done|done].
  - unfold slow_bitmap_empty. destruct (any_word_spec (bit l1) (word_at l1) bits
      (fun k => let* w := aget l1 k in Ok (negb (w =? 0)))
      (fun k => let* w := aget l1 k in Ok (negb (Z.land w (BITMAP_LAST_WORD_MASK bits) =? 0))))
      as (b & -> & Hb); [lia| |].
    + intros k Hk Hlt. destruct (bitmap_word_at l1 bits k) as (-> & R & B); [done|lia|lia|lia|]. done.
    + eexists. split; [done|]. by apply no_bit_iff.
Qed.

Lemma bitmap_full_spec : exists b, bitmap_full l1 bits = Ok b /\
  (b = true <-> forall i, 0 <= i < bits -> bit l1 i = true).
Proof.
  assert (forall b : bool, (b = true <-> forall i, 0 <= i < bits -> negb (bit l1 i) = false) ->
    (b = true <-> forall i, 0 <= i < bits -> bit l1 i = true)) as N.
  { intros b ->. setoid_rewrite negb_false_iff. done. }
  assert (forall k w, (forall j, 0 <= j < 64 -> Z.testbit w j = bit l1 (64 * k + j)) ->
    forall j, 0 <= j < 64 -> Z.testbit (lnot64 w) j = negb (bit l1 (64 * k + j))) as T.
  { intros k w B j Hj. by rewrite lnot64_testbit, B. }
  unfold bitmap_full, small_nbits, BITS_PER_LONG. destruct (Z.leb_spec bits 64).
  - destruct (bitmap_word_at l1 bits 0) as (-> & R & B); [done|lia|lia|lia|]. cbn [res_bind].
    eexists. split; [done|]. rewrite <- (negb_involutive (_ =? 0)).
    apply N, no_bit_iff, small_any; [lia|apply lnot64_range|]. exact (T 0 _ B).
  - unfold slow_bitmap_full.
    destruct (any_word_spec (fun i => negb (bit l1 i)) (fun k => lnot64 (word_at l1 k)) bits
      (fun k => let* w := aget l1 k in Ok (negb (lnot64 w =? 0)))
      (fun k => let* w := aget l1 k in Ok (negb (Z.land (lnot64 w) (BITMAP_LAST_WORD_MASK bits) =? 0))))
      as (b & -> & Hb); [lia| |].
    + intros k Hk Hlt. destruct (bitmap_word_at l1 bits k) as (-> & R & B); [done|lia|lia|lia|].
      split; [apply lnot64_range|]. split; [by apply T|done].
    + eexists. split; [done|]. by apply N, no_bit_iff.
Qed.

Lemma xor_words k : 0 <= k -> 64 * k < bits ->
  0 <= Z.lxor (word_at l1 k) (word_at l2 k) < 2 ^ 64 /\
  forall j, 0 <= j < 64 -> Z.testbit (Z.lxor (word_at l1 k) (word_at l2 k)) j
    = xorb (bit l1 (64 * k + j)) (bit l2 (64 * k + j)).
Proof.
  intros Hk Hlt. destruct (bitmap_word_at l1 bits k) as (_ & R & B); [done|lia|lia|lia|].
  destruct (bitmap_word_at l2 bits k) as (_ & R' & B'); [done|lia|lia|lia|].
  split; [apply lxor_range; lia|]. intros j Hj. by rewrite Z.lxor_spec, B, B'.
Qed.

Lemma and_words k : 0 <= k -> 64 * k < bits ->
  0 <= Z.land (word_at l1 k) (word_at l2 k) < 2 ^ 64 /\
  forall j, 0 <= j < 64 -> Z.testbit (Z.land (word_at l1 k) (word_at l2 k)) j
    = bit l1 (64 * k + j) && bit l2 (64 * k + j).
Proof.
  intros Hk Hlt. destruct (bitmap_word_at l1 bits k) as (_ & R & B); [done|lia|lia|lia|].
  destruct (bitmap_word_at l2 bits k) as (_ & R' & B'); [done|lia|lia|lia|].
  split; [apply land_range; lia|]. intros j Hj. by rewrite Z.land_spec, B, B'.
Qed.

Lemma read_both k : 0 <= k -> 64 * k < bits ->
  aget l1 k = Ok (word_at l1 k) /\ aget l2 k = Ok (word_at l2 k).
Proof.
  intros Hk Hlt. split; [eapply (bitmap_word_at l1 bits)|eapply (bitmap_word_at l2 bits)]; done || lia.
Qed.

Lemma bitmap_equal_spec : exists b, bitmap_equal l1 l2 bits = Ok b /\
  (b = true <-> forall i, 0 <= i < bits -> bit l1 i = bit l2 i).
Proof.
  assert (forall b : bool,
    (b = true <-> forall i, 0 <= i < bits -> xorb (bit l1 i) (bit l2 i) = false) ->
    (b = true <-> forall i, 0 <= i < bits -> bit l1 i = bit l2 i)) as N.
  { intros b ->. split; intros H i Hi; [by apply xorb_eq, H|]. rewrite H by done. apply xorb_nilpotent. }
  unfold bitmap_equal, small_nbits, BITS_PER_LONG. destruct (Z.leb_spec bits 64).
  - destruct (read_both 0) as [-> ->]; [lia|lia|]. cbn [res_bind].
    destruct (xor_words 0) as [R B]; [lia|lia|].
    eexists. split; [done|]. rewrite <- (negb_involutive (_ =? 0)).
    apply N, no_bit_iff, small_any; [lia|done|exact B].
  - unfold slow_bitmap_equal.
    destruct (any_word_spec (fun i => xorb (bit l1 i) (bit l2 i))
      (fun k => Z.lxor (word_at l1 k) (word_at l2 k)) bits
      (fun k => let* a := aget l1 k in let* b := aget l2 k in Ok (negb (a =? b)))
      (fun k => let* a := aget l1 k in let* b := aget l2 k in
                Ok (negb (Z.land (Z.lxor a b) (BITMAP_LAST_WORD_MASK bits) =? 0))))
      as (b & -> & Hb); [lia| |].
    + intros k Hk Hlt. destruct (read_both k) as [-> ->]; [lia|lia|].
      destruct (xor_words k) as [R B]; [lia|lia|]. split; [done|]. split; [done|].
      split; [|done]. cbn [res_bind]. do 2 f_equal. apply eq_bool_prop_intro.
      rewrite !Is_true_true, !Z.eqb_eq. symmetry. apply Z.lxor_eq_0_iff.
    + eexists. split; [done|]. by apply N, no_bit_iff.
Qed.

Lemma bitmap_intersects_spec : exists b, bitmap_intersects l1 l2 bits = Ok b /\
  (b = true <-> exists i, 0 <= i < bits /\ bit l1 i && bit l2 i = true).
Proof.
  unfold bitmap_intersects, small_nbits, BITS_PER_LONG. destruct (Z.leb_spec bits 64).
  - destruct (read_both 0) as [-> ->]; [lia|lia|]. cbn [res_bind].
    destruct (and_words 0) as [R B]; [lia|lia|].
    eexists. split; [done|]. apply (small_any (fun i => bit l1 i && bit l2 i)); [lia|done|exact B].
  - unfold slow_bitmap_intersects.
    apply (any_word_spec _ (fun k => Z.land (word_at l1 k) (word_at l2 k))); [lia|].
    intros k Hk Hlt. destruct (read_both k) as [-> ->]; [lia|lia|].
    destruct (and_words k) as [R B]; [lia|lia|]. done.
Qed.
End Predicates.

(** ** Facts: word-wise operations *)

(** A loop that writes [f k] to word [k], for [k] below [n]. *)
Lemma write_words (f : Z -> Z) (body : Z -> list Z -> res (list Z)) dst n :
  0 <= n <= Z.of_nat (length dst) -> words_ok dst ->
  (forall k d, 0 <= k < n -> length d = length dst ->
     body k d = aset d k (f k) /\ 0 <= f k < 2 ^ 64) ->
  exists d, for_loop (Z.to_nat n) 0 body dst = Ok d /\ words_ok d /\ length d = length dst /\
    forall i, 0 <= i -> bit d i =
      if i <? 64 * n then Z.testbit (f (i / 64)) (i mod 64) else bit dst i.
Proof.
  intros Hn Hd Hb.
  destruct (for_loop_inv (fun k d => words_ok d /\ length d = length dst /\
     forall i, 0 <= i -> bit d i =
       if i <? 64 * k then Z.testbit (f (i / 64)) (i mod 64) else bit dst i)
     body (Z.to_nat n) 0 dst) as (d & E & Hw & Hl & H).
  - split; [done|]. split; [done|]. intros i Hi. destruct (Z.ltb_spec i (64 * 0)); [lia|done].
  - intros k d Hk (Hw & Hl & H). destruct (Hb k d) as [-> R]; [lia|done|].
    exists (<[Z.to_nat k := f k]> d). split; [apply aset_total; lia|].
    split; [by apply words_insert|]. split; [by rewrite length_insert|].
    intros i Hi. rewrite bit_insert, H by lia. destruct (Z.eqb_spec (i / 64) k) as [<-|N].
    + destruct (Z.ltb_spec i (64 * (i / 64 + 1))); [done|dlia].
    + destruct (Z.ltb_spec i (64 * k)), (Z.ltb_spec i (64 * (k + 1))); done || dlia.
  - exists d. split; [done|]. split; [done|]. split; [done|]. intros i Hi. rewrite H by done.
    by replace (0 + Z.of_nat (Z.to_nat n)) with n by lia.
Qed.

(** The [dst] part of the accumulating loop, and its accumulator. *)
Lemma word_loop_spec op (bop : bool -> bool -> bool) dst l1 l2 bits :
  words_ok dst -> words_ok l1 -> words_ok l2 -> 0 <= bits ->
  bits <= 64 * Z.of_nat (length dst) ->
  bits <= 64 * Z.of_nat (length l1) -> bits <= 64 * Z.of_nat (length l2) ->
  (forall a b, 0 <= a < 2 ^ 64 -> 0 <= b < 2 ^ 64 -> 0 <= op a b < 2 ^ 64 /\
     forall j, 0 <= j < 64 -> Z.testbit (op a b) j = bop (Z.testbit a j) (Z.testbit b j)) ->
  exists r d, word_loop op dst l1 l2 bits = Ok (r, d) /\ words_ok d /\ length d = length dst /\
    (negb (r =? 0) = true <->
       exists i, 0 <= i < 64 * BITS_TO_LONGS bits /\ bop (bit l1 i) (bit l2 i) = true) /\
    forall i, 0 <= i -> bit d i =
      if i <? 64 * BITS_TO_LONGS bits then bop (bit l1 i) (bit l2 i) else bit dst i.
Proof.
  intros Hd H1 H2 Hb Bd B1 B2 Hop. unfold word_loop.
  set (n := BITS_TO_LONGS bits).
  assert (0 <= n /\ forall k, k < n -> 64 * k < bits) as [Hn Hk] by (unfold n, BITS_TO_LONGS; split; intros; dlia).
  edestruct (for_loop_inv (fun k (st : Z * list Z) => 0 <= st.1 < 2 ^ 64 /\
     (st.1 <> 0 <-> exists i, 0 <= i < 64 * k /\ bop (bit l1 i) (bit l2 i) = true) /\
     words_ok st.2 /\ length st.2 = length dst /\
     forall i, 0 <= i -> bit st.2 i =
       if i <? 64 * k then bop (bit l1 i) (bit l2 i) else bit dst i))
    as ([r d] & E & Rr & Hr & Hw & Hl & H); [| |eexists r, d; split; [exact E|]].
  - cbn. split; [lia|]. split; [split; [done|intros (i & Hi & _); lia]|].
    split; [done|]. split; [done|]. intros i Hi. destruct (Z.ltb_spec i (64 * 0)); [lia|done].
  - intros k [r d] Hkn (Rr & Hr & Hw & Hl & H). cbn [fst snd] in *.
    destruct (bitmap_word_at l1 bits k) as (-> & R1 & T1); [done|lia|lia|apply Hk; lia|].
    destruct (bitmap_word_at l2 bits k) as (-> & R2 & T2); [done|lia|lia|apply Hk; lia|].
    cbn [res_bind]. destruct (Hop _ _ R1 R2) as [Ro To].
    set (x := op (word_at l1 k) (word_at l2 k)) in *.
    assert (64 * k < bits) by (apply Hk; lia). assert (k < Z.of_nat (length d)) by lia.
    rewrite aset_total by lia. cbn [res_bind]. eexists. split; [done|]. cbn [fst snd].
    assert (forall i, 64 * k <= i < 64 * (k + 1) ->
      Z.testbit x (i mod 64) = bop (bit l1 i) (bit l2 i)) as Tx.
    { intros i Hi. rewrite To, T1, T2 by dlia.
      by replace (64 * k + i mod 64) with i by dlia. }
    split; [apply lor_range; lia|]. split; [|split; [by apply words_insert|split; [by rewrite length_insert|]]].
    + split.
      * intros N. destruct (Z.eq_dec r 0) as [->|Nr].
        -- rewrite Z.lor_0_l in N. destruct (proj1 (word_nonzero x Ro)) as (j & Hj & T).
           { apply negb_true_iff, Z.eqb_neq. done. }
           exists (64 * k + j). split; [lia|]. rewrite <- Tx by lia. by replace ((64 * k + j) mod 64) with j by dlia.
        -- apply Hr in Nr as (i & Hi & Bi). exists i. split; [lia|done].
      * intros (i & Hi & Bi). rewrite Z.lor_eq_0_iff. intros [Zr Zx].
        destruct (Z.ltb_spec i (64 * k)).
        -- apply Hr; [|done]. exists i. split; [lia|done].
        -- rewrite <- Tx, Zx, Z.testbit_0_l in Bi by lia. done.
    + intros i Hi. rewrite bit_insert, H by lia. destruct (Z.eqb_spec (i / 64) k) as [D|N].
      * destruct (Z.ltb_spec i (64 * (k + 1))); [|dlia]. apply Tx. dlia.
      * destruct (Z.ltb_spec i (64 * k)), (Z.ltb_spec i (64 * (k + 1))); done || dlia.
  - replace (0 + Z.of_nat (Z.to_nat n)) with n in * by lia. cbn [fst snd] in *.
    split; [done|]. split; [done|]. split; [|done]. by rewrite negb_true_iff, Z.eqb_neq.
Qed.

(** ** Facts: ranges *)

Section Ranges.
Context (op : Z -> Z -> Z) (v : bool).
Context (op_ok : forall w mask, 0 <= w < 2 ^ 64 -> 0 <= mask < 2 ^ 64 ->
  0 <= op w mask < 2 ^ 64 /\
  forall j, 0 <= j < 64 ->
    Z.testbit (op w mask) j = if Z.testbit mask j then v else Z.testbit w j).

(** Updating the word at [p] under a mask that selects [cur, lim). *)
Lemma update_word map p mask cur lim :
  words_ok map -> 0 <= p < Z.of_nat (length map) -> 0 <= mask < 2 ^ 64 ->
  64 * p <= cur -> lim <= 64 * (p + 1) ->
  (forall j, 0 <= j < 64 -> Z.testbit mask j = (cur <=? 64 * p + j) && (64 * p + j <? lim)) ->
  exists w, aget map p = Ok w /\
    let map' := <[Z.to_nat p := op w mask]> map in
    aset map p (op w mask) = Ok map' /\ words_ok map' /\ length map' = length map /\
    forall i, 0 <= i -> bit map' i = if (cur <=? i) && (i <? lim) then v else bit map i.
Proof.
  intros Hm Hp Hmask Hc Hlim T. destruct (aget_total map p Hp) as [w E]. exists w.
  split; [done|]. apply aget_Ok in E as [_ Hw]. pose proof (words_lookup _ _ _ Hm Hw) as Rw.
  destruct (op_ok w mask Rw Hmask) as [Ro To].
  split; [by apply aset_total|]. split; [by apply words_insert|]. split; [by rewrite length_insert|].
  intros i Hi. rewrite bit_insert by done. destruct (Z.eqb_spec (i / 64) p) as [D|D].
  - rewrite To, T by dlia. replace (64 * p + i mod 64) with i by dlia.
    destruct ((cur <=? i) && (i <? lim)); [done|].
    unfold bit. rewrite D, Hw. done.
  - destruct (Z.leb_spec cur i), (Z.ltb_spec i lim); try done. dlia.
Qed.

Lemma range_loop_spec : forall fuel map p nr bits mask cur,
  words_ok map -> cur + nr <= 64 * Z.of_nat (length map) -> 0 <= nr -> 0 <= p ->
  bits = 64 * (p + 1) - cur -> 0 < bits <= 64 ->
  0 <= mask < 2 ^ 64 -> (forall j, 0 <= j < 64 -> Z.testbit mask j = (cur <=? 64 * p + j)) ->
  (nr + 64 - bits) / 64 < Z.of_nat fuel ->
  exists map', range_loop op fuel map p nr bits mask (cur + nr) = Ok map' /\
    words_ok map' /\ length map' = length map /\
    forall i, 0 <= i -> bit map' i = if (cur <=? i) && (i <? cur + nr) then v else bit map i.
Proof.
  induction fuel as [|fuel IH]; intros map p nr bits mask cur Hm Hlen Hnr Hp Hbits Hb Hmask T Hf;
    [dlia|].
  cbn [range_loop]. unfold BITS_PER_LONG. destruct (Z.leb_spec 0 (nr - bits)).
  - destruct (update_word map p mask cur (64 * (p + 1))) as (w & -> & E & Hm1 & Hl1 & B1);
      [done|lia|done|lia|lia| |].
    { intros j Hj. rewrite T by done. zcases; rewrite ?andb_true_r; done || lia. }
    cbn [res_bind]. rewrite E. cbn [res_bind].
    destruct (IH (<[Z.to_nat p := op w mask]> map) (p + 1) (nr - bits) 64 ALL_ONES (64 * (p + 1)))
      as (map' & E' & Hm' & Hl' & B'); [done|lia|lia|lia|lia|lia|done| |dlia|].
    { intros j Hj. rewrite all_ones_ones, ones_testbit by lia. zcases; done || lia. }
    exists map'. replace (64 * (p + 1) + (nr - bits)) with (cur + nr) in * by lia.
    split; [done|]. split; [done|]. split; [lia|]. intros i Hi. rewrite B', B1 by done.
    zcases; done || lia.
  - destruct (Z.eqb_spec nr 0) as [->|N]; cbn [negb].
    + exists map. split; [done|]. split; [done|]. split; [done|]. intros i Hi. zcases; done || lia.
    + set (m := Z.land mask _).
      destruct (update_word map p m cur (cur + nr)) as (w & -> & E & R);
        [done|lia|apply land_range; lia|lia|lia| |].
      { intros j Hj. subst m. rewrite Z.land_spec, T, last_mask_testbit by done.
        assert ((cur + nr) mod 64 = cur + nr - 64 * p) as -> by dlia.
        f_equal. zcases; done || lia. }
      cbn [res_bind]. eauto.
Qed.

Lemma range_spec map start nr :
  words_ok map -> 0 <= start -> 0 <= nr -> start + nr <= 64 * Z.of_nat (length map) ->
  exists map',
    range_loop op (range_fuel nr) map (BIT_WORD start) nr
      (BITS_PER_LONG - start mod BITS_PER_LONG) (BITMAP_FIRST_WORD_MASK start) (start + nr) = Ok map' /\
    words_ok map' /\ length map' = length map /\
    forall i, 0 <= i -> bit map' i = if (start <=? i) && (i <? start + nr) then v else bit map i.
Proof.
  intros Hm Hs Hn Hlen. unfold BIT_WORD, BITMAP_FIRST_WORD_MASK, BITS_PER_LONG.
  apply range_loop_spec; [done|done|done|dlia|dlia|dlia|apply uwrap_range; lia| |].
  - intros j Hj. rewrite high_mask_testbit by dlia. zcases; done || dlia.
  - unfold range_fuel. dlia.
Qed.
End Ranges.

Lemma set_op_ok w mask : 0 <= w < 2 ^ 64 -> 0 <= mask < 2 ^ 64 ->
  0 <= Z.lor w mask < 2 ^ 64 /\
  forall j, 0 <= j < 64 -> Z.testbit (Z.lor w mask) j = if Z.testbit mask j then true else Z.testbit w j.
Proof.
  intros. split; [apply lor_range; lia|]. intros. rewrite Z.lor_spec.
  destruct (Z.testbit mask j); [apply orb_true_r|apply orb_false_r].
Qed.

Lemma clear_op_ok w mask : 0 <= w < 2 ^ 64 -> 0 <= mask < 2 ^ 64 ->
  0 <= Z.land w (lnot64 mask) < 2 ^ 64 /\
  forall j, 0 <= j < 64 ->
    Z.testbit (Z.land w (lnot64 mask)) j = if Z.testbit mask j then false else Z.testbit w j.
Proof.
  intros. split; [apply land_range; lia|]. intros. rewrite Z.land_spec, lnot64_testbit by done.
  destruct (Z.testbit mask j); [apply andb_false_r|apply andb_true_r].
Qed.

(** ** Facts: areas *)

Lemma align_mask_val x a :
  0 <= a < 64 -> 0 <= x -> x + 2 ^ a < 2 ^ 64 ->
  ALIGN_MASK x (2 ^ a - 1) = 2 ^ a * ((x + 2 ^ a - 1) / 2 ^ a).
Proof.
  intros Ha Hx Hb. unfold ALIGN_MASK. rewrite uwrap_small by lia.
  transitivity (Z.ldiff (x + (2 ^ a - 1)) (Z.ones a)).
  - zbits; try lia. destruct (Z.ltb_spec i 64).
    + rewrite lnot64_testbit by lia. replace (2 ^ a - 1) with (Z.ones a) by (rewrite Z.ones_equiv; lia).
      rewrite ones_testbit by lia. done.
    + rewrite (testbit_high (x + (2 ^ a - 1)) 64) by lia. done.
  - rewrite Z.ldiff_ones_r, Z.shiftr_div_pow2, Z.shiftl_mul_pow2 by lia.
    rewrite Z.add_sub_assoc. lia.
Qed.

(** [r] is a free aligned area of [nr] bits below [size]. *)
Definition free_area (map : list Z) (size nr align r : Z) : Prop :=
  r mod align = 0 /\ r + nr <= size /\ forall i, r <= i < r + nr -> bit map i = false.

(** The least aligned position at or above [x]. *)
Lemma align_least x a y : 0 < a -> x <= y -> y mod a = 0 ->
  let r := a * ((x + a - 1) / a) in x <= r /\ r mod a = 0 /\ r <= y.
Proof.
  intros Ha Hxy Hm r. subst r. pose proof (Z.div_mod (x + a - 1) a ltac:(lia)) as D.
  pose proof (Z.mod_pos_bound (x + a - 1) a Ha).
  split; [lia|]. split; [rewrite Z.mul_comm; apply Z.mod_mul; lia|].
  apply Z.mod_divide in Hm as [k ->]; [|lia].
  assert ((x + a - 1) / a <= k); [|nia].
  apply Z.lt_succ_r, Z.div_lt_upper_bound; lia.
Qed.

Section Area.
Context (map : list Z) (size nr a : Z).
Context (Hm : words_ok map) (Hs : 0 <= size <= 64 * Z.of_nat (length map)).
Context (Ha : 0 <= a < 64) (Hnr : 0 < nr) (Hov : size + 2 ^ a + nr < 2 ^ 64).

Definition area_result (start r : Z) : Prop :=
  (start <= r /\ free_area map size nr (2 ^ a) r /\
   forall r', start <= r' < r -> ~ free_area map size nr (2 ^ a) r') \/
  (size < r /\ forall r', start <= r' -> ~ free_area map size nr (2 ^ a) r').

Lemma next_zero_area_spec : forall fuel start,
  0 <= start <= size -> size - start < Z.of_nat fuel ->
  exists r, next_zero_area fuel map size start nr (2 ^ a - 1) = Ok r /\ area_result start r.
Proof.
  induction fuel as [|fuel IH]; intros start Hst Hf; [lia|].
  cbn [next_zero_area].
  destruct (find_next_zero_bit_total map size start) as (z & -> & Hz); [done|lia|lia|lia|].
  cbn [res_bind].
  assert (start <= z <= size /\ forall i, start <= i < z -> bit map i = true) as [Bz Lz].
  { unfold search_result in Hz. destruct (Z.leb_spec size start).
    - split; [lia|]. intros; lia.
    - destruct Hz as (? & Hz & _). split; [done|]. intros i Hi.
      specialize (Hz i Hi). by apply negb_false_iff in Hz. }
  assert (0 < 2 ^ a) by lia.
  rewrite align_mask_val by lia. set (index := 2 ^ a * _).
  destruct (align_least z (2 ^ a) (2 ^ a * ((z + 2 ^ a - 1) / 2 ^ a)) ltac:(lia)) as (I1 & I2 & _).
  { pose proof (Z.div_mod (z + 2 ^ a - 1) (2 ^ a) ltac:(lia)).
    pose proof (Z.mod_pos_bound (z + 2 ^ a - 1) (2 ^ a)). lia. }
  { rewrite Z.mul_comm. apply Z.mod_mul. lia. }
  fold index in I1, I2.
  assert (index < z + 2 ^ a) as I3.
  { subst index. pose proof (Z.mul_div_le (z + 2 ^ a - 1) (2 ^ a) ltac:(lia)). lia. }
  (* no free area starts in [start, index) *)
  assert (forall r', start <= r' < index -> ~ free_area map size nr (2 ^ a) r') as No.
  { intros r' Hr (M & _ & Fr). destruct (Z.ltb_spec r' z).
    - specialize (Fr r' ltac:(lia)). rewrite Lz in Fr; [done|lia].
    - pose proof (align_least z (2 ^ a) r' ltac:(lia) ltac:(lia) M) as (_ & _ & L).
      fold index in L. lia. }
  rewrite uwrap_small by lia. destruct (Z.ltb_spec size (index + nr)).
  { exists (index + nr). split; [done|]. right. split; [lia|]. intros r' Hr Fr.
    destruct (Z.ltb_spec r' index); [by apply (No r'); [lia|]|]. destruct Fr as (_ & ? & _). lia. }
  destruct (find_next_bit_total map (index + nr) index) as (i & -> & Hi); [done|lia|lia|lia|].
  cbn [res_bind]. unfold search_result in Hi.
  destruct (Z.leb_spec (index + nr) index); [lia|]. destruct Hi as (Bi & Li & Ti).
  destruct (Z.ltb_spec i (index + nr)).
  - destruct (IH (i + 1)) as (r & E & Hr); [lia|lia|]. exists r. split; [done|].
    assert (forall r', start <= r' < i + 1 -> ~ free_area map size nr (2 ^ a) r') as No'.
    { intros r' Hr' Fr. destruct (Z.ltb_spec r' index); [by apply (No r'); [lia|]|].
      destruct Fr as (_ & _ & Fr). specialize (Ti ltac:(lia)). rewrite Fr in Ti; [done|lia]. }
    destruct Hr as [(L & F & Mn)|(L & Mn)]; [left|right].
    + split; [lia|]. split; [done|]. intros r' Hr'.
      destruct (Z.ltb_spec r' (i + 1)); [apply No'; lia|apply Mn; lia].
    + split; [done|]. intros r' Hr'.
      destruct (Z.ltb_spec r' (i + 1)); [apply No'; lia|apply Mn; lia].
  - exists index. split; [done|]. left. split; [lia|]. split; [|done].
    split; [done|]. split; [lia|]. intros; apply Li; lia.
Qed.
End Area.

(** ** Claims *)

(** The bitmap predicates decide the property of the first [bits] bits
    and nothing else: [bitmap_empty], [bitmap_full], [bitmap_equal] and
    [bitmap_intersects], through the inline one-word path or the word loop with
    its masked last word. *)
Theorem bitmap_predicates_correct l1 l2 bits :
  words_ok l1 -> words_ok l2 ->
  0 < bits <= 64 * Z.of_nat (length l1) -> bits <= 64 * Z.of_nat (length l2) ->
  (exists b, bitmap_empty l1 bits = Ok b /\
     (b = true <-> forall i, 0 <= i < bits -> bit l1 i = false)) /\
  (exists b, bitmap_full l1 bits = Ok b /\
     (b = true <-> forall i, 0 <= i < bits -> bit l1 i = true)) /\
  (exists b, bitmap_equal l1 l2 bits = Ok b /\
     (b = true <-> forall i, 0 <= i < bits -> bit l1 i = bit l2 i)) /\
  (exists b, bitmap_intersects l1 l2 bits = Ok b /\
     (b = true <-> exists i, 0 <= i < bits /\ bit l1 i && bit l2 i = true)).
Proof.
  intros. auto 10 using bitmap_empty_spec, bitmap_full_spec, bitmap_equal_spec,
    bitmap_intersects_spec.
Qed.

Lemma bitmap_predicates_witness :
  exists b, bitmap_empty [0; 2 ^ 40] 100 = Ok b /\ b = true.
Proof.
  destruct (bitmap_predicates_correct [0; 2 ^ 40] [0; 0] 100) as [(b & E & _) _];
    [repeat constructor; lia|repeat constructor; lia|cbn; lia|cbn; lia|].
  exists b. split; [exact E|]. vm_compute in E. injection E as <-. reflexivity.
Defined.

(** C36: [bitmap_set] and [bitmap_clear] change exactly the bits of
    [start, start + nr), whatever the alignment of the two ends, and stay inside
    the bitmap. *)
Theorem bitmap_ranges_correct map start nr :
  words_ok map -> 0 <= start -> 0 <= nr -> start + nr <= 64 * Z.of_nat (length map) ->
  (exists m, bitmap_set map start nr = Ok m /\ words_ok m /\ length m = length map /\
     forall i, 0 <= i -> bit m i = if (start <=? i) && (i <? start + nr) then true else bit map i) /\
  (exists m, bitmap_clear map start nr = Ok m /\ words_ok m /\ length m = length map /\
     forall i, 0 <= i -> bit m i = if (start <=? i) && (i <? start + nr) then false else bit map i).
Proof.
  intros. split; apply range_spec; auto using set_op_ok, clear_op_ok.
Qed.

Lemma bitmap_ranges_witness :
  exists m, bitmap_set [0; 0; 0] 60 70 = Ok m /\ m = [0xf000000000000000; 0xffffffffffffffff; 3].
Proof.
  destruct (bitmap_ranges_correct [0; 0; 0] 60 70) as [(m & E & _) _];
    [repeat constructor; lia|lia|lia|cbn; lia|].
  exists m. split; [exact E|]. vm_compute in E. injection E as <-. reflexivity.
Defined.

(** C39: [bitmap_find_next_zero_area] terminates and returns the first aligned
    run of [nr] clear bits at or after [start], and a value above [size]
    exactly when there is no such run. *)
Theorem zero_area_correct map size start nr a :
  words_ok map -> 0 <= size <= 64 * Z.of_nat (length map) -> 0 <= start <= size ->
  0 <= a < 64 -> 0 < nr -> size + 2 ^ a + nr < 2 ^ 64 ->
  exists r, bitmap_find_next_zero_area map size start nr (2 ^ a - 1) = Ok r /\
    area_result map size nr a start r.
Proof. intros. apply next_zero_area_spec; done || lia. Qed.

Lemma zero_area_witness :
  exists r, bitmap_find_next_zero_area [0x0f0f; 0] 128 0 8 (2 ^ 2 - 1) = Ok r /\ r = 12.
Proof.
  destruct (zero_area_correct [0x0f0f; 0] 128 0 8 2) as (r & E & _);
    [repeat constructor; lia|cbn; lia|lia|lia|lia|lia|].
  exists r. split; [exact E|]. vm_compute in E. injection E as <-. reflexivity.
Defined.

(** The word-wise operations.  [slow_bitmap_and], [_or], [_xor] and
    [_andnot] compute the bitwise operation on whole words and leave the words
    after them alone; the result of [_and] and [_andnot] says whether some bit
    of those words is set. *)
Theorem bitmap_logic_correct dst l1 l2 bits :
  words_ok dst -> words_ok l1 -> words_ok l2 -> 0 <= bits ->
  bits <= 64 * Z.of_nat (length dst) ->
  bits <= 64 * Z.of_nat (length l1) -> bits <= 64 * Z.of_nat (length l2) ->
  let wrote (bop : bool -> bool -> bool) d :=
    words_ok d /\ length d = length dst /\
    forall i, 0 <= i -> bit d i =
      if i <? 64 * BITS_TO_LONGS bits then bop (bit l1 i) (bit l2 i) else bit dst i in
  let some bop b := b = true <->
    exists i, 0 <= i < 64 * BITS_TO_LONGS bits /\ bop (bit l1 i) (bit l2 i) = true in
  (exists b d, slow_bitmap_and dst l1 l2 bits = Ok (b, d) /\ wrote andb d /\ some andb b) /\
  (exists d, slow_bitmap_or dst l1 l2 bits = Ok d /\ wrote orb d) /\
  (exists d, slow_bitmap_xor dst l1 l2 bits = Ok d /\ wrote xorb d) /\
  (exists b d, slow_bitmap_andnot dst l1 l2 bits = Ok (b, d) /\
     wrote (fun x y => x && negb y) d /\ some (fun x y => x && negb y) b).
Proof.
  intros Hd H1 H2 Hb Bd B1 B2 wrote some.
  unfold slow_bitmap_and, slow_bitmap_or, slow_bitmap_xor, slow_bitmap_andnot.
  destruct (word_loop_spec Z.land andb dst l1 l2 bits) as (r1 & d1 & -> & ? & ? & ? & ?); try done.
  { intros. split; [apply land_range; lia|]. intros. apply Z.land_spec. }
  destruct (word_loop_spec Z.lor orb dst l1 l2 bits) as (r2 & d2 & -> & ? & ? & ? & ?); try done.
  { intros. split; [apply lor_range; lia|]. intros. apply Z.lor_spec. }
  destruct (word_loop_spec Z.lxor xorb dst l1 l2 bits) as (r3 & d3 & -> & ? & ? & ? & ?); try done.
  { intros. split; [apply lxor_range; lia|]. intros. apply Z.lxor_spec. }
  destruct (word_loop_spec (fun a b => Z.land a (lnot64 b)) (fun x y => x && negb y) dst l1 l2 bits)
    as (r4 & d4 & -> & ? & ? & ? & ?); try done.
  { intros. split; [apply land_range; lia|]. intros. by rewrite Z.land_spec, lnot64_testbit. }
  cbn [res_bind]. subst wrote some. cbn beta.
  split; [eexists _, _; done|]. split; [eexists; done|]. split; [eexists; done|]. eexists _, _; done.
Qed.

Lemma bitmap_logic_witness : exists d, slow_bitmap_or [7; 7] [1; 9] [2; 9] 10 = Ok d /\ d = [3; 7].
Proof.
  destruct (bitmap_logic_correct [7; 7] [1; 9] [2; 9] 10) as (_ & (d & E & _) & _);
    try (repeat constructor; lia); try (cbn; lia).
  exists d. split; [exact E|]. vm_compute in E. injection E as <-. reflexivity.
Defined.

(** The result of [bitmap_and] depends on the unused bits of the last word:
    the two maps share no bit below [nbits]. *)
Lemma bitmap_and_unused_bits :
  bitmap_and [0] [2] [2] 1 = Ok (true, [2]) /\ bit [2] 0 = false.
Proof. split; reflexivity. Qed.
