(* ===== verification/HBitmap.v ===== *)
(** * Hierarchical bitmaps

    [util/hbitmap.c] and [include/qemu/hbitmap.h] on a 64-bit host: seven
    levels of bitmaps, bit [n] of a level set when word [n] of the next level
    is non-zero, a sentinel in the top level, an iterator that walks the set
    bits, and the running count of set bits.  The invariant [hb_wf] relates the
    levels, [hbit] is the abstract set of bits, and the claims are that every
    operation keeps the invariant and acts on that set. *)

From stdpp Require Import base list numbers.
From S2P Require Import Prelude HostUtils Bitops Bitmap.

Definition BITS_PER_LEVEL : Z := 6.
Definition HBITMAP_LOG_MAX_SIZE : Z := 41.
(** [HBITMAP_LOG_MAX_SIZE / BITS_PER_LEVEL + 1]. *)
Definition HBITMAP_LEVELS : nat := 7.

Record HBitmap : Type := mkHBitmap {
  hb_size : Z;
  hb_count : Z;
  hb_granularity : Z;
  levels : list (list Z)
}.

Record HBitmapIter : Type := mkIter {
  it_granularity : Z;
  it_pos : Z;
  it_cur : list Z
}.

Definition with_levels (hb : HBitmap) (lv : list (list Z)) : HBitmap :=
  mkHBitmap (hb_size hb) (hb_count hb) (hb_granularity hb) lv.
Definition with_count (hb : HBitmap) (c : Z) : HBitmap :=
  mkHBitmap (hb_size hb) c (hb_granularity hb) (levels hb).

(** [hb->levels[i][k]]. *)
Definition level_word (lv : list (list Z)) (i k : Z) : res Z :=
  let* l := aget lv i in aget l k.

Definition popcountl (l : Z) : Z := ctpop64 l.

(** ** Iteration *)

(** [do { cur = hbi->cur[--i]; pos >>= BITS_PER_LEVEL; } while (cur == 0)];
    reading below [cur[0]] is a fault. *)
Fixpoint skip_up (i : nat) (cur : list Z) (pos : Z) : res (nat * Z * Z) :=
  match i with
  | O => Err OutOfBounds
  | S i =>
      let* c := aget cur (Z.of_nat i) in
      let pos := Z.shiftr pos BITS_PER_LEVEL in
      if c =? 0 then skip_up i cur pos else Ok (i, c, pos)
  end.

(** [for (; i < HBITMAP_LEVELS - 1; i++)]: [n] levels are left to descend. *)
Fixpoint skip_down (n : nat) (lv : list (list Z)) (i : Z) (cur pos : Z) (curs : list Z)
  : res (Z * Z * list Z) :=
  match n with
  | O => Ok (cur, pos, curs)
  | S n =>
      let* _ := c_assert (negb (cur =? 0)) in
      let pos := u64 (Z.shiftl pos BITS_PER_LEVEL + ctz64 cur) in
      let* curs := aset curs i (Z.land cur (u64 (cur - 1))) in
      let* cur := level_word lv (i + 1) pos in
      skip_down n lv (i + 1) cur pos curs
  end.

Definition hbitmap_iter_skip_words (hb : HBitmap) (hbi : HBitmapIter) : res (Z * HBitmapIter) :=
  let* (i, cur, pos) := skip_up (HBITMAP_LEVELS - 1) (it_cur hbi) (it_pos hbi) in
  if (Nat.eqb i 0) && (cur =? Z.shiftl 1 (BITS_PER_LONG - 1)) then Ok (0, hbi) else
  let* (cur, pos, curs) :=
    skip_down (HBITMAP_LEVELS - 1 - i) (levels hb) (Z.of_nat i) cur pos (it_cur hbi) in
  let* _ := c_assert (negb (cur =? 0)) in
  Ok (cur, mkIter (it_granularity hbi) pos curs).

(** [for (i = HBITMAP_LEVELS; i-- > 0; )] of [hbitmap_iter_init]. *)
Fixpoint iter_init_loop (i : nat) (lv : list (list Z)) (pos : Z) (cur : list Z) : res (list Z) :=
  match i with
  | O => Ok cur
  | S i =>
      let bit := Z.land pos (BITS_PER_LONG - 1) in
      let pos := Z.shiftr pos BITS_PER_LEVEL in
      let* w := level_word lv (Z.of_nat i) pos in
      let c := Z.land w (lnot64 (Z.shiftl 1 bit - 1)) in
      let c := if negb (Nat.eqb i (HBITMAP_LEVELS - 1))
               then Z.land c (lnot64 (Z.shiftl 1 bit)) else c in
      let* cur := aset cur (Z.of_nat i) c in
      iter_init_loop i lv pos cur
  end.

Definition hbitmap_iter_init (hb : HBitmap) (first : Z) : res HBitmapIter :=
  let* _ := c_shift 64 (hb_granularity hb) in
  let pos := Z.shiftr first (hb_granularity hb) in
  let* _ := c_assert (pos <? hb_size hb) in
  let* cur := iter_init_loop HBITMAP_LEVELS (levels hb) pos (replicate HBITMAP_LEVELS 0) in
  Ok (mkIter (hb_granularity hb) (Z.shiftr pos BITS_PER_LEVEL) cur).

(** [hbi->cur[HBITMAP_LEVELS - 1] = c]. *)
Definition set_last_cur (hbi : HBitmapIter) (c : Z) : res HBitmapIter :=
  let* cur := aset (it_cur hbi) 6 c in
  Ok (mkIter (it_granularity hbi) (it_pos hbi) cur).

(** The common head of the two [next] functions: the current word, or the
    next non-zero one, or zero at the end. *)
Definition iter_cur_word (hb : HBitmap) (hbi : HBitmapIter) : res (Z * HBitmapIter) :=
  let* cur := aget (it_cur hbi) 6 in
  if cur =? 0 then hbitmap_iter_skip_words hb hbi else Ok (cur, hbi).

Definition hbitmap_iter_next (hb : HBitmap) (hbi : HBitmapIter) : res (Z * HBitmapIter) :=
  let* (cur, hbi) := iter_cur_word hb hbi in
  if cur =? 0 then Ok (-1, hbi) else
  let* hbi := set_last_cur hbi (Z.land cur (u64 (cur - 1))) in
  let item := u64 (Z.shiftl (it_pos hbi) BITS_PER_LEVEL) + ctz64 cur in
  Ok (s64 (Z.shiftl item (it_granularity hbi)), hbi).

(** The triple is the position ([size_t], -1 at the end), [*p_cur], and the
    iterator. *)
Definition hbitmap_iter_next_word (hb : HBitmap) (hbi : HBitmapIter) : res (Z * Z * HBitmapIter) :=
  let* (cur, hbi) := iter_cur_word hb hbi in
  if cur =? 0 then Ok (2 ^ 64 - 1, 0, hbi) else
  let* hbi := set_last_cur hbi 0 in
  Ok (it_pos hbi, cur, hbi).

(** ** Queries *)

Definition hbitmap_empty (hb : HBitmap) : bool := hb_count hb =? 0.
Definition hbitmap_granularity (hb : HBitmap) : Z := hb_granularity hb.
Definition hbitmap_count (hb : HBitmap) : Z := u64 (Z.shiftl (hb_count hb) (hb_granularity hb)).

Definition hbitmap_get (hb : HBitmap) (item : Z) : res bool :=
  let pos := Z.shiftr item (hb_granularity hb) in
  let bit := Z.shiftl 1 (Z.land pos (BITS_PER_LONG - 1)) in
  let* w := level_word (levels hb) 6 (Z.shiftr pos BITS_PER_LEVEL) in
  Ok (negb (Z.land w bit =? 0)).

(** The [for (;;)] of [hb_count_between]. *)
Fixpoint count_loop (fuel : nat) (hb : HBitmap) (hbi : HBitmapIter) (endp count : Z)
  : res (Z * Z * Z) :=
  match fuel with
  | O => Err OutOfFuel
  | S fuel =>
      let* (pos, cur, hbi) := hbitmap_iter_next_word hb hbi in
      if Z.shiftr endp BITS_PER_LEVEL <=? pos then Ok (pos, cur, count)
      else count_loop fuel hb hbi endp (u64 (count + popcountl cur))
  end.

Definition hb_count_between (hb : HBitmap) (start last : Z) : res Z :=
  let endp := u64 (last + 1) in
  let* hbi := hbitmap_iter_init hb (u64 (Z.shiftl start (hb_granularity hb))) in
  let fuel := S (S (Z.to_nat (Z.shiftr endp BITS_PER_LEVEL))) in
  let* (pos, cur, count) := count_loop fuel hb hbi endp 0 in
  if pos =? Z.shiftr endp BITS_PER_LEVEL then
    let bit := Z.land endp (BITS_PER_LONG - 1) in
    let cur := Z.land cur (Z.shiftl 1 bit - 1) in
    Ok (u64 (count + popcountl cur))
  else Ok count.

(** ** Updates *)

(** [2UL << (last & 63)] minus [1UL << (start & 63)]. *)
Definition elem_mask (start last : Z) : Z :=
  u64 (u64 (Z.shiftl 2 (Z.land last (BITS_PER_LONG - 1)))
       - u64 (Z.shiftl 1 (Z.land start (BITS_PER_LONG - 1)))).

Definition hb_set_elem (elem start last : Z) : res (bool * Z) :=
  let* _ := c_assert (Z.shiftr last BITS_PER_LEVEL =? Z.shiftr start BITS_PER_LEVEL) in
  let* _ := c_assert (start <=? last) in
  Ok (elem =? 0, Z.lor elem (elem_mask start last)).

Definition hb_reset_elem (elem start last : Z) : res (bool * Z) :=
  let* _ := c_assert (Z.shiftr last BITS_PER_LEVEL =? Z.shiftr start BITS_PER_LEVEL) in
  let* _ := c_assert (start <=? last) in
  let rest := Z.land elem (lnot64 (elem_mask start last)) in
  Ok (negb (elem =? 0) && (rest =? 0), rest).

(** [changed |= hb_set_elem(&hb->levels[level][i], start, last)]. *)
Definition set_elem_at (l : list Z) (i start last : Z) : res (bool * list Z) :=
  let* w := aget l i in
  let* (c, w) := hb_set_elem w start last in
  let* l := aset l i w in Ok (c, l).
Definition reset_elem_at (l : list Z) (i start last : Z) : res (bool * list Z) :=
  let* w := aget l i in
  let* (c, w) := hb_reset_elem w start last in
  let* l := aset l i w in Ok (c, l).

(** The [for (;;)] over the words strictly between the first and the last: it
    writes [value] and reports whether some word satisfied [test]. *)
Fixpoint middle_loop (fuel : nat) (value : Z) (test : Z -> bool) (l : list Z)
    (i lastpos next : Z) (changed : bool) : res (bool * list Z * Z * Z) :=
  match fuel with
  | O => Err OutOfFuel
  | S fuel =>
      let start := next in
      let next := u64 (next + BITS_PER_LONG) in
      let i := i + 1 in
      if i =? lastpos then Ok (changed, l, i, start) else
      let* w := aget l i in
      let changed := changed || test w in
      let* l := aset l i value in
      middle_loop fuel value test l i lastpos next changed
  end.

(** The part of [hb_set_between] that works on one level. *)
Definition set_level (l : list Z) (start last : Z) : res (bool * list Z) :=
  let pos := Z.shiftr start BITS_PER_LEVEL in
  let lastpos := Z.shiftr last BITS_PER_LEVEL in
  let* (changed, l, i, start) :=
    if pos <? lastpos then
      let next := u64 (Z.lor start (BITS_PER_LONG - 1) + 1) in
      let* (c, l) := set_elem_at l pos start (u64 (next - 1)) in
      middle_loop (Z.to_nat (lastpos - pos)) ALL_ONES (fun w => w =? 0) l pos lastpos next c
    else Ok (false, l, pos, start) in
  let* (c, l) := set_elem_at l i start last in
  Ok (changed || c, l).

(** [level] counts the levels above; the levels are updated in place. *)
Fixpoint hb_set_between (level : nat) (lv : list (list Z)) (start last : Z) : res (list (list Z)) :=
  let pos := Z.shiftr start BITS_PER_LEVEL in
  let lastpos := Z.shiftr last BITS_PER_LEVEL in
  let* l := aget lv (Z.of_nat level) in
  let* (changed, l) := set_level l start last in
  let* lv := aset lv (Z.of_nat level) l in
  match level with
  | O => Ok lv
  | S up => if changed then hb_set_between up lv pos lastpos else Ok lv
  end.

(** The part of [hb_reset_between] that works on one level; [pos] and
    [lastpos] come back narrowed to the words that became zero. *)
Definition reset_level (l : list Z) (start last : Z) : res (bool * list Z * Z * Z) :=
  let pos := Z.shiftr start BITS_PER_LEVEL in
  let lastpos := Z.shiftr last BITS_PER_LEVEL in
  let* (changed, l, i, start, pos) :=
    if pos <? lastpos then
      let next := u64 (Z.lor start (BITS_PER_LONG - 1) + 1) in
      let* (c, l) := reset_elem_at l pos start (u64 (next - 1)) in
      let* (changed, l, i, start) :=
        middle_loop (Z.to_nat (lastpos - pos)) 0 (fun w => negb (w =? 0)) l pos lastpos next c in
      Ok (changed, l, i, start, if c then pos else u64 (pos + 1))
    else Ok (false, l, pos, start, pos) in
  let* (c, l) := reset_elem_at l i start last in
  Ok (changed || c, l, pos, if c then lastpos else u64 (lastpos - 1)).

Fixpoint hb_reset_between (level : nat) (lv : list (list Z)) (start last : Z) : res (list (list Z)) :=
  let* l := aget lv (Z.of_nat level) in
  let* (changed, l, pos, lastpos) := reset_level l start last in
  let* lv := aset lv (Z.of_nat level) l in
  match level with
  | O => Ok lv
  | S up => if changed then hb_reset_between up lv pos lastpos else Ok lv
  end.

Definition hbitmap_set (hb : HBitmap) (start count : Z) : res HBitmap :=
  let last := u64 (start + count - 1) in
  let start := Z.shiftr start (hb_granularity hb) in
  let last := Z.shiftr last (hb_granularity hb) in
  let count := u64 (last - start + 1) in
  let* n := hb_count_between hb start last in
  let hb := with_count hb (u64 (hb_count hb + (count - n))) in
  let* lv := hb_set_between (HBITMAP_LEVELS - 1) (levels hb) start last in
  Ok (with_levels hb lv).

Definition hbitmap_reset (hb : HBitmap) (start count : Z) : res HBitmap :=
  let last := u64 (start + count - 1) in
  let start := Z.shiftr start (hb_granularity hb) in
  let last := Z.shiftr last (hb_granularity hb) in
  let* n := hb_count_between hb start last in
  let hb := with_count hb (u64 (hb_count hb - n)) in
  let* lv := hb_reset_between (HBITMAP_LEVELS - 1) (levels hb) start last in
  Ok (with_levels hb lv).

(** ** Allocation *)

(** [for (i = HBITMAP_LEVELS; i-- > 0; )] of [hbitmap_alloc]: the levels from
    the last to the first, and the final [size]. *)
Fixpoint alloc_levels (i : nat) (size : Z) (lv : list (list Z)) : list (list Z) * Z :=
  match i with
  | O => (lv, size)
  | S i =>
      let size := Z.max (Z.shiftr (u64 (size + BITS_PER_LONG - 1)) BITS_PER_LEVEL) 1 in
      alloc_levels i size (replicate (Z.to_nat size) 0 :: lv)
  end.

Definition hbitmap_alloc (size granularity : Z) : res HBitmap :=
  let* _ := c_assert ((0 <=? granularity) && (granularity <? 64)) in
  let size := Z.shiftr (u64 (u64 (size + Z.shiftl 1 granularity) - 1)) granularity in
  let* _ := c_assert (size <=? Z.shiftl 1 HBITMAP_LOG_MAX_SIZE) in
  let (lv, n) := alloc_levels HBITMAP_LEVELS size [] in
  let* _ := c_assert (n =? 1) in
  let* l0 := aget lv 0 in
  let* w := aget l0 0 in
  let* l0 := aset l0 0 (Z.lor w (Z.shiftl 1 (BITS_PER_LONG - 1))) in
  let* lv := aset lv 0 l0 in
  Ok (mkHBitmap size 0 granularity lv).

(** ** Facts: one level *)

Lemma shiftr6 x : Z.shiftr x BITS_PER_LEVEL = x / 64.
Proof. unfold BITS_PER_LEVEL. by rewrite Z.shiftr_div_pow2. Qed.

Lemma land63 x : Z.land x (BITS_PER_LONG - 1) = x mod 64.
Proof. change (BITS_PER_LONG - 1) with (Z.ones 6). by rewrite Z.land_ones. Qed.

(** [start | 63] is the last bit of the word. *)
Lemma lor63 x : 0 <= x -> Z.lor x (BITS_PER_LONG - 1) = 64 * (x / 64) + 63.
Proof.
  intros Hx. change (BITS_PER_LONG - 1) with 63. rewrite (Z.div_mod x 64) at 1 by lia.
  pose proof (Z.mod_pos_bound x 64 ltac:(lia)).
  change 64 with (2 ^ 6) in *. rewrite (Z.mul_comm (2 ^ 6) (x / 2 ^ 6)).
  zbits. rewrite !concat_testbit by lia. change 63 with (Z.ones 6).
  rewrite ones_testbit by lia. destruct (i <? 6); [apply orb_true_r|apply orb_false_r].
Qed.

Lemma elem_mask_testbit start last j :
  start mod 64 <= last mod 64 -> 0 <= j < 64 ->
  Z.testbit (elem_mask start last) j = (start mod 64 <=? j) && (j <=? last mod 64).
Proof.
  intros Hsl Hj. unfold elem_mask. rewrite !land63.
  pose proof (Z.mod_pos_bound start 64 ltac:(lia)). pose proof (Z.mod_pos_bound last 64 ltac:(lia)).
  set (s := start mod 64) in *. set (e := last mod 64) in *. clearbody s e.
  assert (u64 (u64 (Z.shiftl 2 e) - u64 (Z.shiftl 1 s)) = Z.shiftl (Z.ones (e + 1 - s)) s) as ->.
  { rewrite !Z.shiftl_mul_pow2, Z.ones_equiv by lia.
    assert (2 ^ (e + 1 - s) * 2 ^ s = 2 * 2 ^ e) as E
      by (rewrite <- Z.pow_add_r, <- Z.pow_succ_r by lia; f_equal; lia).
    replace (Z.pred (2 ^ (e + 1 - s)) * 2 ^ s) with (2 * 2 ^ e - 2 ^ s) by lia.
    assert (2 ^ s <= 2 ^ e) by (apply Z.pow_le_mono_r; lia).
    assert (2 ^ e <= 2 ^ 63) by (apply Z.pow_le_mono_r; lia).
    destruct (uwrap_sub_multiple 64 (2 * 2 ^ e)) as [k ->]; [lia|].
    rewrite (uwrap_small 64 (1 * 2 ^ s)) by lia.
    rewrite (uwrap_eq_mod 64 _ (2 * 2 ^ e - 2 ^ s) k) by lia.
    apply uwrap_small. lia. }
  autorewrite with zbits; try lia. destruct (Z.leb_spec s j); cbn [andb].
  - autorewrite with zbits; try lia.
  - apply Z.testbit_neg_r. lia.
Qed.

Lemma elem_mask_range start last : 0 <= elem_mask start last < 2 ^ 64.
Proof. apply uwrap_range. lia. Qed.

Lemma word_at_insert l k w i : 0 <= k < Z.of_nat (length l) -> 0 <= i ->
  word_at (<[Z.to_nat k := w]> l) i = if i =? k then w else word_at l i.
Proof.
  intros Hk Hi. unfold word_at. destruct (Z.eqb_spec i k) as [->|].
  - by rewrite list_lookup_insert_eq by lia.
  - by rewrite list_lookup_insert_ne by lia.
Qed.

Lemma word_at_get l k : 0 <= k < Z.of_nat (length l) -> aget l k = Ok (word_at l k).
Proof.
  intros Hk. destruct (aget_total l k Hk) as [w E]. rewrite E. f_equal.
  apply aget_Ok in E as [_ E]. unfold word_at. by rewrite E.
Qed.

Lemma word_at_range l k : words_ok l -> 0 <= word_at l k < 2 ^ 64.
Proof.
  intros Hl. unfold word_at. destruct (l !! Z.to_nat k) eqn:E; cbn; [|lia].
  by eapply words_lookup.
Qed.

Lemma word_at_testbit l k j : 0 <= k -> 0 <= j < 64 -> Z.testbit (word_at l k) j = bit l (64 * k + j).
Proof.
  intros Hk Hj. unfold word_at, bit. replace ((64 * k + j) / 64) with k by dlia.
  replace ((64 * k + j) mod 64) with j by dlia.
  destruct (l !! Z.to_nat k); cbn; [done|apply Z.testbit_0_l].
Qed.

Lemma word_at_zero l k : words_ok l -> 0 <= k ->
  word_at l k = 0 <-> forall j, 0 <= j < 64 -> bit l (64 * k + j) = false.
Proof.
  intros Hl Hk. split.
  - intros E j Hj. rewrite <- word_at_testbit, E by done. apply Z.testbit_0_l.
  - intros H. apply word_zero; [by apply word_at_range|]. intros. rewrite word_at_testbit by done. auto.
Qed.

Lemma bit_word_at l x : 0 <= x -> bit l x = Z.testbit (word_at l (x / 64)) (x mod 64).
Proof. intros. rewrite word_at_testbit by dlia. f_equal. dlia. Qed.

(** The effect of writing [v] to the bits [start..last]. *)
Definition range_set (v : bool) (start last : Z) (l l' : list Z) : Prop :=
  words_ok l' /\ length l' = length l /\
  forall x, 0 <= x -> bit l' x = if (start <=? x) && (x <=? last) then v else bit l x.

Lemma elem_checks start last :
  start <= last -> start / 64 = last / 64 ->
  c_assert (Z.shiftr last BITS_PER_LEVEL =? Z.shiftr start BITS_PER_LEVEL) = Ok tt /\
  c_assert (start <=? last) = Ok tt.
Proof.
  intros Hle Hp. rewrite !shiftr6, Hp, Z.eqb_refl. split; [done|].
  destruct (Z.leb_spec start last); [done|lia].
Qed.

Lemma elem_mask_bits start last j :
  start <= last -> start / 64 = last / 64 -> 0 <= j < 64 ->
  Z.testbit (elem_mask start last) j =
    (start <=? 64 * (start / 64) + j) && (64 * (start / 64) + j <? last + 1).
Proof. intros. rewrite elem_mask_testbit by dlia. f_equal; zcases; done || dlia. Qed.

Lemma set_elem_spec l start last :
  words_ok l -> 0 <= start <= last -> start / 64 = last / 64 -> last < 64 * Z.of_nat (length l) ->
  exists l', set_elem_at l (start / 64) start last = Ok (word_at l (start / 64) =? 0, l') /\
    range_set true start last l l'.
Proof.
  intros Hl Hs Hp Hlen. unfold set_elem_at, hb_set_elem.
  destruct (elem_checks start last) as [-> ->]; [lia|done|]. cbn [res_bind].
  destruct (update_word Z.lor true set_op_ok l (start / 64) (elem_mask start last) start (last + 1))
    as (w & E & Es & Hl' & Hlen' & B);
    [done|dlia|apply elem_mask_range|dlia|dlia|intros; apply elem_mask_bits; lia|].
  rewrite word_at_get in E by dlia. injection E as <-. rewrite word_at_get by dlia. cbn [res_bind].
  rewrite Es. cbn [res_bind]. eexists. split; [done|]. split; [done|]. split; [done|]. intros x Hx. rewrite B by done.
  by replace (x <? last + 1) with (x <=? last) by lia.
Qed.

Lemma reset_elem_spec l start last :
  words_ok l -> 0 <= start <= last -> start / 64 = last / 64 -> last < 64 * Z.of_nat (length l) ->
  exists l', range_set false start last l l' /\
    reset_elem_at l (start / 64) start last =
      Ok (negb (word_at l (start / 64) =? 0) && (word_at l' (start / 64) =? 0), l').
Proof.
  intros Hl Hs Hp Hlen. unfold reset_elem_at, hb_reset_elem.
  destruct (elem_checks start last) as [-> ->]; [lia|done|]. cbn [res_bind].
  destruct (update_word (fun w mask => Z.land w (lnot64 mask)) false clear_op_ok l
    (start / 64) (elem_mask start last) start (last + 1))
    as (w & E & Es & Hl' & Hlen' & B);
    [done|dlia|apply elem_mask_range|dlia|dlia|intros; apply elem_mask_bits; lia|].
  rewrite word_at_get in E by dlia. injection E as <-. rewrite word_at_get by dlia. cbn [res_bind].
  rewrite Es. cbn [res_bind]. eexists. split.
  - split; [done|]. split; [done|]. intros x Hx. rewrite B by done.
    by replace (x <? last + 1) with (x <=? last) by lia.
  - by rewrite word_at_insert, Z.eqb_refl by dlia.
Qed.

(** The words between the first and the last one. *)
Lemma middle_loop_spec value test v lastpos :
  0 <= value < 2 ^ 64 -> (forall j, 0 <= j < 64 -> Z.testbit value j = v) ->
  forall fuel l i changed,
  words_ok l -> 0 <= i < lastpos -> Z.of_nat fuel = lastpos - i -> 
  lastpos < Z.of_nat (length l) -> 64 * (lastpos + 1) < 2 ^ 64 ->
  exists c l', middle_loop fuel value test l i lastpos (64 * (i + 1)) changed
      = Ok (c, l', lastpos, 64 * lastpos) /\
    range_set v (64 * (i + 1)) (64 * lastpos - 1) l l' /\
    (c = true <-> changed = true \/ exists k, i < k < lastpos /\ test (word_at l k) = true).
Proof.
  intros Hv Tv. induction fuel as [|fuel IH]; intros l i changed Hl Hi Hf Hlen Hov; [lia|].
  cbn [middle_loop]. destruct (Z.eqb_spec (i + 1) lastpos) as [<-|N].
  - exists changed, l. split; [done|]. split.
    + split; [done|]. split; [done|]. intros x Hx. zcases; done || lia.
    + split; [auto|]. intros [?|(k & Hk & _)]; [done|lia].
  - rewrite word_at_get by lia. cbn [res_bind]. rewrite aset_total by lia. cbn [res_bind].
    unfold BITS_PER_LONG. rewrite uwrap_small by lia.
    replace (64 * (i + 1) + 64) with (64 * (i + 1 + 1)) by lia.
    set (l1 := <[Z.to_nat (i + 1) := value]> l).
    assert (length l1 = length l) as Hl1 by apply length_insert.
    destruct (IH l1 (i + 1) (changed || test (word_at l (i + 1)))) as (c & l' & -> & (W & L & B) & Hc);
      [by apply words_insert|lia|lia|lia|lia|].
    exists c, l'. split; [done|]. split.
    + split; [done|]. split; [lia|]. intros x Hx. rewrite B by done. subst l1.
      rewrite bit_insert by lia. destruct (Z.eqb_spec (x / 64) (i + 1)).
      * rewrite Tv by dlia. zcases; done || dlia.
      * zcases; done || dlia.
    + rewrite Hc, orb_true_iff. subst l1. split.
      * intros [[?|?]|(k & Hk & T)]; [auto|right; exists (i + 1); split; [lia|done]|].
        rewrite word_at_insert in T by lia. destruct (Z.eqb_spec k (i + 1)); [lia|].
        right. exists k. split; [lia|done].
      * intros [?|(k & Hk & T)]; [auto|]. destruct (Z.eq_dec k (i + 1)) as [->|]; [auto|].
        right. exists k. split; [lia|]. rewrite word_at_insert by lia.
        destruct (Z.eqb_spec k (i + 1)); [lia|done].
Qed.

Lemma word_at_same l l' k : words_ok l -> words_ok l' -> 0 <= k ->
  (forall j, 0 <= j < 64 -> bit l' (64 * k + j) = bit l (64 * k + j)) -> word_at l' k = word_at l k.
Proof.
  intros Hl Hl' Hk H. zbits. destruct (Z.ltb_spec i 64).
  - rewrite !word_at_testbit by lia. apply H. lia.
  - rewrite (testbit_high (word_at l' k) 64), (testbit_high (word_at l k) 64); auto using word_at_range; lia.
Qed.

(** Words outside the range are untouched. *)
Lemma range_set_other v start last l l' k : words_ok l -> range_set v start last l l' -> 0 <= k ->
  (k < start / 64 \/ last / 64 < k) -> word_at l' k = word_at l k.
Proof.
  intros Hl (W & _ & B) Hk Hout. apply word_at_same; [done|done|done|]. intros j Hj.
  rewrite B by lia. zcases; done || dlia.
Qed.

Lemma range_set_trans v a b c l l1 l2 :
  a <= b + 1 -> b <= c -> range_set v a b l l1 -> range_set v (b + 1) c l1 l2 -> range_set v a c l l2.
Proof.
  intros Hab Hbc (W1 & L1 & B1) (W2 & L2 & B2). split; [done|]. split; [lia|].
  intros x Hx. rewrite B2, B1 by done. zcases; done || lia.
Qed.

Lemma range_set_words v start last l l' k : words_ok l -> range_set v start last l l' ->
  0 <= k -> start <= 64 * k -> 64 * k + 63 <= last ->
  word_at l' k = if v then ALL_ONES else 0.
Proof.
  intros Hl (W & _ & B) Hk Hs He.
  assert (forall j, 0 <= j < 64 -> bit l' (64 * k + j) = v) as T.
  { intros j Hj. rewrite B by lia. zcases; done || lia. }
  zbits. destruct (Z.ltb_spec i 64).
  - rewrite word_at_testbit, T by lia. destruct v; [|by rewrite Z.testbit_0_l].
    rewrite all_ones_ones, ones_testbit by lia. zcases; done || lia.
  - rewrite (testbit_high (word_at l' k) 64) by (auto using word_at_range || lia).
    destruct v; [|by rewrite Z.testbit_0_l]. rewrite all_ones_ones, ones_testbit by lia.
    zcases; done || lia.
Qed.

Section Level.
Context (l : list Z) (start last : Z).
Context (Hl : words_ok l) (Hs : 0 <= start <= last) (Hlen : last < 64 * Z.of_nat (length l)).
Context (Hov : last < 2 ^ 63).

Lemma set_level_spec : exists c l', set_level l start last = Ok (c, l') /\
  range_set true start last l l' /\
  (c = true <-> exists k, start / 64 <= k <= last / 64 /\ word_at l k = 0).
Proof.
  unfold set_level. rewrite !shiftr6. destruct (Z.ltb_spec (start / 64) (last / 64)) as [Lt|Ge].
  - rewrite lor63 by lia. rewrite (uwrap_small 64 (64 * (start / 64) + 63 + 1)) by dlia.
    rewrite uwrap_small by dlia.
    replace (64 * (start / 64) + 63 + 1) with (64 * (start / 64 + 1)) by lia.
    replace (64 * (start / 64 + 1) - 1) with (64 * (start / 64) + 63) by lia.
    destruct (set_elem_spec l start (64 * (start / 64) + 63)) as (l1 & -> & R1);
      [done|dlia|dlia|dlia|]. pose proof R1 as (W1 & L1 & _). cbn [res_bind].
    destruct (middle_loop_spec ALL_ONES (fun w => w =? 0) true (last / 64)) with
      (fuel := Z.to_nat (last / 64 - start / 64)) (l := l1) (i := start / 64)
      (changed := word_at l (start / 64) =? 0) as (c2 & l2 & -> & R2 & C2);
      [done| |done|dlia|dlia|dlia|dlia|].
    { intros j Hj. rewrite all_ones_ones, ones_testbit by lia. zcases; done || lia. }
    pose proof R2 as (W2 & L2 & _). cbn [res_bind].
    destruct (set_elem_spec l2 (64 * (last / 64)) last) as (l3 & E3 & R3); [done|dlia|dlia|dlia|].
    replace (64 * (last / 64) / 64) with (last / 64) in E3 by dlia. rewrite E3. cbn [res_bind].
    replace (64 * (start / 64 + 1)) with (64 * (start / 64) + 63 + 1) in R2 by lia.
    replace (64 * (last / 64)) with (64 * (last / 64) - 1 + 1) in R3 by lia.
    eexists _, _. split; [done|]. split.
    { eapply range_set_trans; [| |eapply range_set_trans; [| |exact R1|exact R2]|exact R3]; dlia. }
    rewrite orb_true_iff, C2, !Z.eqb_eq.
    rewrite (range_set_other _ _ _ _ _ _ W1 R2), (range_set_other _ _ _ _ _ _ Hl R1) by dlia.
    split.
    + intros [[E|(k & Hk & E)]|E]; [exists (start / 64)|exists k|exists (last / 64)];
        (split; [dlia|]); try done.
      rewrite Z.eqb_eq, (range_set_other _ _ _ _ _ _ Hl R1) in E by dlia. done.
    + intros (k & Hk & E). destruct (Z.eq_dec k (start / 64)) as [->|]; [auto|].
      destruct (Z.eq_dec k (last / 64)) as [->|]; [auto|]. left. right. exists k. split; [dlia|].
      rewrite Z.eqb_eq, (range_set_other _ _ _ _ _ _ Hl R1) by dlia. done.
  - cbn [res_bind]. destruct (set_elem_spec l start last) as (l1 & -> & R1); [done|lia|dlia|done|].
    cbn [res_bind orb]. eexists _, _. split; [done|]. split; [done|]. rewrite Z.eqb_eq. split.
    + intros E. exists (start / 64). split; [dlia|done].
    + intros (k & Hk & E). by replace (start / 64) with k by dlia.
Qed.

(** [hb_reset_elem] reports whether a word that was not zero is zero now. *)
Definition blanked (m m' : list Z) (k : Z) : bool :=
  negb (word_at m k =? 0) && (word_at m' k =? 0).

Lemma blanked_zero m m' k : blanked m m' k = true -> word_at m' k = 0.
Proof. unfold blanked. rewrite andb_true_iff, Z.eqb_eq. by intros [_ ?]. Qed.

Lemma not_blanked s e m m' k : words_ok m -> range_set false s e m m' -> 0 <= k ->
  blanked m m' k = false -> word_at m' k = 0 <-> word_at m k = 0.
Proof.
  intros Hm (W & _ & B) Hk. unfold blanked.
  assert (word_at m k = 0 -> word_at m' k = 0).
  { intros E. apply word_at_zero; [done|done|]. intros j Hj. rewrite B by lia.
    destruct ((s <=? _) && _); [done|]. by apply word_at_zero. }
  destruct (Z.eqb_spec (word_at m k) 0), (Z.eqb_spec (word_at m' k) 0); cbn; intuition congruence.
Qed.

(** The three passes of the loop over a range that spans several words, as
    the successive contents [l1], [l2] and [l3] of the level. *)
Lemma reset_level_passes : start / 64 < last / 64 -> exists l1 c2 l2 l3,
  let c1 := blanked l l1 (start / 64) in let c3 := blanked l2 l3 (last / 64) in
  reset_level l start last =
    Ok (c2 || c3, l3, if c1 then start / 64 else start / 64 + 1,
        if c3 then last / 64 else last / 64 - 1) /\
  range_set false start (64 * (start / 64) + 63) l l1 /\
  range_set false (64 * (start / 64) + 63 + 1) (64 * (last / 64) - 1) l1 l2 /\
  range_set false (64 * (last / 64) - 1 + 1) last l2 l3 /\
  (c2 = true <-> c1 = true \/ exists k, start / 64 < k < last / 64 /\ word_at l k <> 0).
Proof.
  intros Lt. unfold reset_level. rewrite !shiftr6, (proj2 (Z.ltb_lt _ _) Lt).
  rewrite lor63 by lia. rewrite (uwrap_small 64 (64 * (start / 64) + 63 + 1)) by dlia.
  rewrite uwrap_small by dlia.
  replace (64 * (start / 64) + 63 + 1) with (64 * (start / 64 + 1)) by lia.
  replace (64 * (start / 64 + 1) - 1) with (64 * (start / 64) + 63) by lia.
  destruct (reset_elem_spec l start (64 * (start / 64) + 63)) as (l1 & R1 & ->);
    [done|dlia|dlia|dlia|]. pose proof R1 as (W1 & L1 & _). cbn [res_bind].
  fold (blanked l l1 (start / 64)).
  destruct (middle_loop_spec 0 (fun w => negb (w =? 0)) false (last / 64)) with
    (fuel := Z.to_nat (last / 64 - start / 64)) (l := l1) (i := start / 64)
    (changed := blanked l l1 (start / 64)) as (c2 & l2 & -> & R2 & C2);
    [lia|intros; apply Z.testbit_0_l|done|dlia|dlia|dlia|dlia|].
  pose proof R2 as (W2 & L2 & _). cbn [res_bind].
  destruct (reset_elem_spec l2 (64 * (last / 64)) last) as (l3 & R3 & E3); [done|dlia|dlia|dlia|].
  replace (64 * (last / 64) / 64) with (last / 64) in E3 by dlia. rewrite E3. cbn [res_bind].
  fold (blanked l2 l3 (last / 64)).
  exists l1, c2, l2, l3. cbv zeta. split; [by rewrite !uwrap_small by dlia|].
  split; [done|]. split; [done|].
  split; [by replace (64 * (last / 64) - 1 + 1) with (64 * (last / 64)) by lia|].
  rewrite C2. apply or_iff_compat_l. split; intros (k & Hk & E); exists k; (split; [lia|]); revert E;
    rewrite (range_set_other _ _ _ _ _ _ Hl R1), negb_true_iff, Z.eqb_neq by dlia; done.
Qed.

(** A word the first and the last pass leave alone, and the inner words. *)
Section Passes.
Context (l1 l2 l3 : list Z) (Lt : start / 64 < last / 64).
Context (R1 : range_set false start (64 * (start / 64) + 63) l l1).
Context (R2 : range_set false (64 * (start / 64) + 63 + 1) (64 * (last / 64) - 1) l1 l2).
Context (R3 : range_set false (64 * (last / 64) - 1 + 1) last l2 l3).

Lemma passes_range : range_set false start last l l3.
Proof. eapply range_set_trans; [| |eapply range_set_trans; [| |exact R1|exact R2]|exact R3]; dlia. Qed.

Lemma passes_first : if blanked l l1 (start / 64) then word_at l3 (start / 64) = 0
  else word_at l3 (start / 64) = 0 <-> word_at l (start / 64) = 0.
Proof.
  pose proof R1 as (W1 & _). pose proof R2 as (W2 & _).
  rewrite (range_set_other _ _ _ _ _ _ W2 R3), (range_set_other _ _ _ _ _ _ W1 R2) by dlia.
  destruct (blanked l l1 (start / 64)) eqn:E; [by eapply blanked_zero|].
  eapply not_blanked; [done|exact R1|dlia|done].
Qed.

Lemma passes_last : if blanked l2 l3 (last / 64) then word_at l3 (last / 64) = 0
  else word_at l3 (last / 64) = 0 <-> word_at l (last / 64) = 0.
Proof.
  pose proof R1 as (W1 & _). pose proof R2 as (W2 & _).
  rewrite <- (range_set_other _ _ _ _ _ (last / 64) Hl R1) by dlia.
  rewrite <- (range_set_other _ _ _ _ _ (last / 64) W1 R2) by dlia.
  destruct (blanked l2 l3 (last / 64)) eqn:E; [by eapply blanked_zero|].
  eapply not_blanked; [done|exact R3|dlia|done].
Qed.

Lemma passes_inner k : start / 64 < k < last / 64 -> word_at l3 k = 0.
Proof. intros. apply (range_set_words false start last l l3); [done|exact passes_range|dlia..]. Qed.
End Passes.

(** Which words of the level became zero. *)
Lemma reset_level_spec : exists c l' pos lastpos, reset_level l start last = Ok (c, l', pos, lastpos) /\
  range_set false start last l l' /\
  (c = false -> forall k, start / 64 <= k <= last / 64 -> word_at l' k = 0 <-> word_at l k = 0) /\
  (c = true -> start / 64 <= pos <= lastpos /\ lastpos <= last / 64 /\
     forall k, start / 64 <= k <= last / 64 ->
       if (pos <=? k) && (k <=? lastpos) then word_at l' k = 0
       else word_at l' k = 0 <-> word_at l k = 0).
Proof.
  destruct (Z.ltb_spec (start / 64) (last / 64)) as [Lt|Ge].
  - destruct (reset_level_passes Lt) as (l1 & c2 & l2 & l3 & -> & R1 & R2 & R3 & C2).
    pose proof (passes_first l1 l2 l3 Lt R1 R2 R3) as F. pose proof (passes_last l1 l2 l3 Lt R1 R2 R3) as E.
    pose proof (passes_inner l1 l2 l3 Lt R1 R2 R3) as I.
    eexists _, _, _, _. split; [done|]. split; [exact (passes_range l1 l2 l3 Lt R1 R2 R3)|].
    set (c1 := blanked l l1 _) in *. set (c3 := blanked l2 l3 _) in *. split.
    + rewrite orb_false_iff. intros [-> E3] k Hk. rewrite E3 in E.
      assert (c1 = false) as E1 by (destruct c1; [enough (false = true) by done; apply C2; by left|done]).
      rewrite E1 in F. destruct (Z.eq_dec k (start / 64)) as [->|]; [done|].
      destruct (Z.eq_dec k (last / 64)) as [->|]; [done|].
      destruct (Z.eq_dec (word_at l k) 0) as [|N]; [split; [done|intros; apply I; lia]|].
      enough (false = true) by done. apply C2. right. exists k. split; [lia|done].
    + rewrite orb_true_iff. intros Hc.
      assert ((if c1 then start / 64 else start / 64 + 1) <= (if c3 then last / 64 else last / 64 - 1)).
      { destruct c1, c3; try lia. destruct Hc as [Hc|]; [|done].
        apply C2 in Hc as [?|(k & Hk & _)]; [done|lia]. }
      split; [destruct c1; lia|]. split; [destruct c3; lia|]. intros k Hk.
      destruct (Z.eq_dec k (start / 64)) as [->|]; [|destruct (Z.eq_dec k (last / 64)) as [->|]];
        destruct c1, c3; zcases; try lia; try done; apply I; lia.
  - unfold reset_level. rewrite !shiftr6, (proj2 (Z.ltb_ge _ _) Ge).
    cbn [res_bind]. destruct (reset_elem_spec l start last) as (l1 & R1 & ->); [done|lia|dlia|done|].
    cbn [res_bind orb]. fold (blanked l l1 (start / 64)).
    eexists _, _, _, _. split; [done|]. split; [done|].
    assert (last / 64 = start / 64) as Eq by dlia. rewrite Eq.
    destruct (blanked l l1 (start / 64)) eqn:E; (split; [intros ?|intros ?]; try done).
    + split; [lia|]. split; [lia|]. intros k Hk. replace k with (start / 64) by lia.
      rewrite Z.leb_refl. by eapply blanked_zero.
    + intros k Hk. replace k with (start / 64) by lia. eapply not_blanked; [done|exact R1|dlia|done].
Qed.
End Level.

(** ** Facts: the hierarchy *)

Definition lev (lv : list (list Z)) (i : nat) : list Z := default [] (lv !! i).

Definition sentinel (i : nat) (k : Z) : bool := Nat.eqb i 0 && (k =? 63).

(** Level [i] summarises level [i + 1]. *)
Definition linked (lv : list (list Z)) (i : nat) : Prop :=
  forall k, 0 <= k -> bit (lev lv i) k = negb (word_at (lev lv (S i)) k =? 0) || sentinel i k.

Record shape (lv : list (list Z)) : Prop := {
  shape_length : length lv = HBITMAP_LEVELS;
  shape_words i : (i < 7)%nat -> words_ok (lev lv i);
  shape_bound i : (i < 7)%nat -> 0 < Z.of_nat (length (lev lv i)) <= 2 ^ 56;
  shape_fanout i : (i < 6)%nat -> Z.of_nat (length (lev lv (S i))) <= 64 * Z.of_nat (length (lev lv i));
  shape_top : length (lev lv 0) = 1%nat;
  shape_sentinel : Z.of_nat (length (lev lv 1)) <= 63
}.

Lemma lev_get lv i : shape lv -> (i < 7)%nat -> aget lv (Z.of_nat i) = Ok (lev lv i).
Proof.
  intros H Hi. pose proof (shape_length _ H) as L. unfold HBITMAP_LEVELS in L.
  destruct (aget_total lv (Z.of_nat i) ltac:(lia)) as [l E]. rewrite E. f_equal.
  apply aget_Ok in E as [_ E]. rewrite Nat2Z.id in E. unfold lev. by rewrite E.
Qed.

Lemma lev_insert lv i l j : (i < length lv)%nat ->
  lev (<[i := l]> lv) j = if Nat.eqb j i then l else lev lv j.
Proof.
  intros Hi. unfold lev. destruct (Nat.eqb_spec j i) as [->|].
  - by rewrite list_lookup_insert_eq.
  - by rewrite list_lookup_insert_ne.
Qed.

Lemma shape_insert lv i l : shape lv -> (i < 7)%nat -> words_ok l ->
  length l = length (lev lv i) -> shape (<[i := l]> lv).
Proof.
  intros H Hi Hw Hl. pose proof (shape_length _ H) as L. unfold HBITMAP_LEVELS in L.
  assert (forall j, length (lev (<[i := l]> lv) j) = length (lev lv j)) as E.
  { intros j. rewrite lev_insert by lia. destruct (Nat.eqb_spec j i) as [->|]; done. }
  split.
  - by rewrite length_insert.
  - intros j Hj. rewrite lev_insert by lia. destruct (Nat.eqb_spec j i); [done|].
    by apply shape_words.
  - intros j Hj. rewrite E. by apply shape_bound.
  - intros j Hj. rewrite !E. by apply shape_fanout.
  - rewrite E. by apply shape_top.
  - rewrite E. by apply shape_sentinel.
Qed.

(** The bits of level [i] that stand for words of level [i + 1] are not the
    sentinel. *)
Lemma no_sentinel lv i k : shape lv -> k < Z.of_nat (length (lev lv (S i))) -> sentinel i k = false.
Proof.
  intros H Hk. unfold sentinel. destruct (Nat.eqb_spec i 0) as [->|]; [|done].
  pose proof (shape_sentinel _ H). destruct (Z.eqb_spec k 63); [lia|done].
Qed.

Lemma range_set_nonzero start last l l' k : words_ok l -> range_set true start last l l' ->
  0 <= start <= last -> start / 64 <= k <= last / 64 -> word_at l' k <> 0.
Proof.
  intros Hl (W & _ & B) Hs Hk E. 
  pose proof (proj1 (word_at_zero l' k W ltac:(dlia)) E (Z.max start (64 * k) - 64 * k) ltac:(dlia)) as N.
  rewrite B in N by dlia.
  replace (64 * k + (Z.max start (64 * k) - 64 * k)) with (Z.max start (64 * k)) in N by lia.
  destruct (Z.leb_spec start (Z.max start (64 * k))), (Z.leb_spec (Z.max start (64 * k)) last);
    done || dlia.
Qed.

(** What an update of [level] does to the whole hierarchy. *)
Definition level_update (v : bool) (level : nat) (start last : Z) (lv lv' : list (list Z)) : Prop :=
  shape lv' /\ range_set v start last (lev lv level) (lev lv' level) /\
  (forall i, (i < level)%nat -> linked lv' i) /\
  (forall i, (level < i)%nat -> lev lv' i = lev lv i) /\
  (forall i, length (lev lv' i) = length (lev lv i)).

Section Between.
Context (v : bool).

(** Preconditions of an update at [level]. *)
Definition can_update (level : nat) (lv : list (list Z)) (start last : Z) : Prop :=
  (level < 7)%nat /\ shape lv /\ 0 <= start <= last /\
  last < 64 * Z.of_nat (length (lev lv level)) /\
  (level = O -> last < 63) /\ (forall i, (i < level)%nat -> linked lv i).

(** The precondition one level up, after the level was rewritten. *)
Lemma can_update_up up lv l start last pos lastpos :
  can_update (S up) lv start last -> words_ok l -> length l = length (lev lv (S up)) ->
  start / 64 <= pos <= lastpos -> lastpos <= last / 64 ->
  can_update up (<[S up := l]> lv) pos lastpos.
Proof.
  intros (Hlv & H & Hs & Hlen & _ & Hlk) Hw Hl Hp Hlp.
  pose proof (shape_length _ H) as L. unfold HBITMAP_LEVELS in L.
  assert (forall i, (i <= up)%nat -> lev (<[S up := l]> lv) i = lev lv i) as E.
  { intros i Hi. rewrite lev_insert by lia. destruct (Nat.eqb_spec i (S up)); [lia|done]. }
  split; [lia|]. split; [apply shape_insert; [done|lia|done|done]|]. split; [dlia|].
  rewrite E by lia. pose proof (shape_fanout _ H up ltac:(lia)).
  split; [dlia|]. split.
  - intros ->. pose proof (shape_sentinel _ H). dlia.
  - intros i Hi k Hk. rewrite !E by lia. apply Hlk; [lia|done].
Qed.

(** Rewriting [S up] and then updating [up], or leaving it alone. *)
Lemma level_update_up up lv l start last lv' :
  can_update (S up) lv start last -> range_set v start last (lev lv (S up)) l ->
  shape lv' -> (forall i, (i < up)%nat -> linked lv' i) ->
  (forall i, (up < i)%nat -> lev lv' i = lev (<[S up := l]> lv) i) ->
  (forall i, length (lev lv' i) = length (lev lv i)) ->
  (forall k, 0 <= k -> bit (lev lv' up) k = negb (word_at l k =? 0) || sentinel up k) ->
  level_update v (S up) start last lv lv'.
Proof.
  intros (Hlv & H & Hs & Hlen & _ & Hlk) R H' Hlk' Hab Hl' Hup.
  pose proof (shape_length _ H) as L. unfold HBITMAP_LEVELS in L.
  assert (lev lv' (S up) = l) as El.
  { rewrite Hab, lev_insert by lia. by rewrite Nat.eqb_refl. }
  split; [done|]. split; [by rewrite El|]. split.
  - intros i Hi. destruct (Nat.eq_dec i up) as [->|]; [|apply Hlk'; lia].
    intros k Hk. rewrite El. by apply Hup.
  - split; [|done]. intros i Hi. rewrite Hab, lev_insert by lia.
    destruct (Nat.eqb_spec i (S up)); [lia|done].
Qed.
End Between.

Lemma hb_set_between_spec : forall level lv start last,
  can_update level lv start last ->
  exists lv', hb_set_between level lv start last = Ok lv' /\ level_update true level start last lv lv'.
Proof.
  induction level as [|up IH]; intros lv start last Hc;
    pose proof Hc as (Hlv & H & Hs & Hlen & Hsen & Hlk);
    pose proof (shape_length _ H) as L; unfold HBITMAP_LEVELS in L;
    cbn [hb_set_between]; rewrite lev_get by done; cbn [res_bind];
    (match goal with |- context [set_level ?l start last] =>
       destruct (set_level_spec l start last) as (c & l' & -> & R & C) end;
      [by apply shape_words|done|done|pose proof (shape_bound _ H _ Hlv); lia|]);
    cbn [res_bind]; pose proof R as (W & Ll & B);
    rewrite aset_total by lia; cbn [res_bind]; rewrite Nat2Z.id.
  - exists (<[0%nat := l']> lv). split; [done|].
    split; [by apply shape_insert|]. split; [by rewrite lev_insert by lia|]. split; [lia|].
    split; intros i; [intros Hi|]; rewrite lev_insert by lia; destruct (Nat.eqb_spec i 0); subst; done || lia.
  - assert (forall k, 0 <= k -> start / 64 <= k <= last / 64 -> word_at l' k <> 0) as Nz.
    { intros k _ Hk. eapply range_set_nonzero; [|exact R|done|done]. by apply shape_words. }
    assert (forall k, 0 <= k -> ~ (start / 64 <= k <= last / 64) ->
      word_at l' k = word_at (lev lv (S up)) k) as Ot.
    { intros k Hk Ho. eapply range_set_other; [by apply shape_words|exact R|done|lia]. }
    assert (forall k, k <= last / 64 -> sentinel up k = false) as Ns.
    { intros k Hk. apply (no_sentinel lv); [done|]. dlia. }
    assert (forall k, 0 <= k -> bit (lev lv up) k = negb (word_at (lev lv (S up)) k =? 0) || sentinel up k)
      as Hup by (intros; apply Hlk; [lia|done]).
    destruct c.
    + rewrite !shiftr6.
      destruct (IH (<[S up := l']> lv) (start / 64) (last / 64)) as (lv' & -> & (S' & R' & Lk' & Ab' & Le'));
        [eapply can_update_up; [exact Hc|done|done|dlia|dlia]|].
      exists lv'. split; [done|]. eapply level_update_up; [exact Hc|exact R|done|done|done| |].
      * intros i. rewrite Le', lev_insert by lia. destruct (Nat.eqb_spec i (S up)); subst; done.
      * intros k Hk. destruct R' as (_ & _ & B'). rewrite B', lev_insert by lia.
        destruct (Nat.eqb_spec up (S up)); [lia|]. rewrite Hup by done.
        destruct (Z.leb_spec (start / 64) k), (Z.leb_spec k (last / 64)); cbn [andb];
          try (rewrite Ot by lia; done).
        pose proof (Nz k ltac:(lia) ltac:(lia)). destruct (Z.eqb_spec (word_at l' k) 0); [done|]. done.
    + exists (<[S up := l']> lv). split; [done|].
      assert (forall i, length (lev (<[S up := l']> lv) i) = length (lev lv i)) as Le.
      { intros i. rewrite lev_insert by lia. destruct (Nat.eqb_spec i (S up)); subst; done. }
      eapply level_update_up; [exact Hc|exact R|by apply shape_insert| |done|done|].
      * intros i Hi k Hk. rewrite !lev_insert by lia.
        destruct (Nat.eqb_spec i (S up)), (Nat.eqb_spec (S i) (S up)); [lia|lia|lia|]. by apply Hlk; [lia|].
      * intros k Hk. rewrite lev_insert by lia. destruct (Nat.eqb_spec up (S up)); [lia|].
        rewrite Hup by done. destruct (Z.leb_spec (start / 64) k), (Z.leb_spec k (last / 64));
          try (rewrite Ot by lia; done).
        pose proof (Nz k ltac:(lia) ltac:(lia)).
        destruct (Z.eqb_spec (word_at l' k) 0), (Z.eqb_spec (word_at (lev lv (S up)) k) 0); try done.
        enough (false = true) by done. apply C. exists k. split; [lia|done].
Qed.

Lemma hb_reset_between_spec : forall level lv start last,
  can_update level lv start last ->
  exists lv', hb_reset_between level lv start last = Ok lv' /\ level_update false level start last lv lv'.
Proof.
  induction level as [|up IH]; intros lv start last Hc;
    pose proof Hc as (Hlv & H & Hs & Hlen & Hsen & Hlk);
    pose proof (shape_length _ H) as L; unfold HBITMAP_LEVELS in L;
    cbn [hb_reset_between]; rewrite lev_get by done; cbn [res_bind];
    (match goal with |- context [reset_level ?l start last] =>
       destruct (reset_level_spec l start last) as (c & l' & pos & lastpos & -> & R & Cf & Ct) end;
      [by apply shape_words|done|done|pose proof (shape_bound _ H _ Hlv); lia|]);
    cbn [res_bind]; pose proof R as (W & Ll & B);
    rewrite aset_total by lia; cbn [res_bind]; rewrite Nat2Z.id.
  - exists (<[0%nat := l']> lv). split; [done|].
    split; [by apply shape_insert|]. split; [by rewrite lev_insert by lia|]. split; [lia|].
    split; intros i; [intros Hi|]; rewrite lev_insert by lia; destruct (Nat.eqb_spec i 0); subst; done || lia.
  - assert (forall k, 0 <= k -> ~ (start / 64 <= k <= last / 64) ->
      word_at l' k = word_at (lev lv (S up)) k) as Ot.
    { intros k Hk Ho. eapply range_set_other; [by apply shape_words|exact R|done|lia]. }
    assert (forall k, 0 <= k -> bit (lev lv up) k = negb (word_at (lev lv (S up)) k =? 0) || sentinel up k)
      as Hup by (intros; apply Hlk; [lia|done]).
    assert (forall a b : Z, a = 0 <-> b = 0 -> (a =? 0) = (b =? 0)) as Eq.
    { intros a b Hab. destruct (Z.eqb_spec a 0), (Z.eqb_spec b 0); intuition. }
    destruct c.
    + destruct (Ct eq_refl) as (Hp & Hlp & Hk0).
      destruct (IH (<[S up := l']> lv) pos lastpos) as (lv' & -> & (S' & R' & Lk' & Ab' & Le'));
        [eapply can_update_up; [exact Hc|done|done|lia|lia]|].
      exists lv'. split; [done|]. eapply level_update_up; [exact Hc|exact R|done|done|done| |].
      * intros i. rewrite Le', lev_insert by lia. destruct (Nat.eqb_spec i (S up)); subst; done.
      * intros k Hk. destruct R' as (_ & _ & B'). rewrite B', lev_insert by lia.
        destruct (Nat.eqb_spec up (S up)); [lia|]. rewrite Hup by done.
        destruct (Z.leb_spec (start / 64) k), (Z.leb_spec k (last / 64));
          try (rewrite Ot by lia; zcases; done || lia).
        pose proof (Hk0 k ltac:(lia)) as Hk1. destruct ((pos <=? k) && (k <=? lastpos)).
        -- rewrite Hk1, (no_sentinel lv) by (done || dlia). done.
        -- by rewrite (Eq _ _ Hk1).
    + exists (<[S up := l']> lv). split; [done|].
      assert (forall i, length (lev (<[S up := l']> lv) i) = length (lev lv i)) as Le.
      { intros i. rewrite lev_insert by lia. destruct (Nat.eqb_spec i (S up)); subst; done. }
      eapply level_update_up; [exact Hc|exact R|by apply shape_insert| |done|done|].
      * intros i Hi k Hk. rewrite !lev_insert by lia.
        destruct (Nat.eqb_spec i (S up)), (Nat.eqb_spec (S i) (S up)); [lia|lia|lia|]. by apply Hlk; [lia|].
      * intros k Hk. rewrite lev_insert by lia. destruct (Nat.eqb_spec up (S up)); [lia|].
        rewrite Hup by done. destruct (Z.leb_spec (start / 64) k), (Z.leb_spec k (last / 64));
          try (rewrite Ot by lia; done).
        by rewrite (Eq _ _ (Cf eq_refl k ltac:(lia))).
Qed.
