(* ===== verification/HBitmapIter.v ===== *)
(** * Hierarchical bitmaps: iteration, counting and the claims

    The iterator of [util/hbitmap.c] keeps, for every level, the bits of the
    current path's word still to be visited.  [path] is its invariant;
    [skip_words_spec] shows that moving up to the first level with work left
    and down along lowest set bits reaches the next non-zero word.  Counting
    and iteration follow, and with them the contract of [hbitmap_set],
    [hbitmap_reset], [hbitmap_get] and [hbitmap_iter_next]. *)

From stdpp Require Import base list numbers.
From S2P Require Import Prelude HostUtils Bitops Bitmap HBitmap.

(** ** Ancestors *)

(** The index, [d] levels up, of the word that covers word [x]. *)
Definition anc (x : Z) (d : nat) : Z := x / 64 ^ Z.of_nat d.

Lemma anc_0 x : anc x 0 = x.
Proof. apply Z.div_1_r. Qed.

Lemma anc_S x d : anc x (S d) = anc x d / 64.
Proof.
  unfold anc. rewrite Nat2Z.inj_succ, Z.pow_succ_r, Z.mul_comm, Z.div_div by lia. done.
Qed.

Lemma anc_div x d : anc (x / 64) d = anc x (S d).
Proof.
  unfold anc. rewrite Nat2Z.inj_succ, Z.pow_succ_r, Z.div_div by lia. done.
Qed.

Lemma anc_mono x y d : x <= y -> anc x d <= anc y d.
Proof. intros. apply Z.div_le_mono; lia. Qed.

Lemma anc_nonneg x d : 0 <= x -> 0 <= anc x d.
Proof. intros. apply Z.div_pos; lia. Qed.

Lemma anc_lt x y d : anc x d < anc y d -> x < y.
Proof. intros H. destruct (Z.lt_ge_cases x y) as [|G]; [done|]. pose proof (anc_mono _ _ d G). lia. Qed.

(** Agreement on an ancestor is agreement further up. *)
Lemma anc_up x y d e : anc x d = anc y d -> (d <= e)%nat -> anc x e = anc y e.
Proof.
  intros H Hde. induction e as [|e IH]; [by replace d with 0%nat in H by lia|].
  destruct (Nat.eq_dec d (S e)) as [->|]; [done|]. rewrite !anc_S, IH by lia. done.
Qed.

Definition curw (cur : list Z) (i : nat) : Z := default 0 (cur !! i).

Lemma curw_get cur i : (i < length cur)%nat -> aget cur (Z.of_nat i) = Ok (curw cur i).
Proof.
  intros Hi. destruct (aget_total cur (Z.of_nat i) ltac:(lia)) as [w E]. rewrite E. f_equal.
  apply aget_Ok in E as [_ E]. rewrite Nat2Z.id in E. unfold curw. by rewrite E.
Qed.

Lemma curw_set cur i w : (i < length cur)%nat ->
  exists cur', aset cur (Z.of_nat i) w = Ok cur' /\ length cur' = length cur /\
    forall j, curw cur' j = if Nat.eqb j i then w else curw cur j.
Proof.
  intros Hi. exists (<[i := w]> cur). rewrite aset_total, Nat2Z.id by lia.
  split; [done|]. split; [apply length_insert|]. intros j. unfold curw.
  destruct (Nat.eqb_spec j i) as [->|]; [by rewrite list_lookup_insert_eq|by rewrite list_lookup_insert_ne].
Qed.

(** Subtracting one clears the lowest set bit and sets the ones below. *)
Lemma dec_testbit cur j : 0 < cur < 2 ^ 64 -> 0 <= j < 64 ->
  Z.testbit (u64 (cur - 1)) j = if j <? ctz64 cur then true else
    if j =? ctz64 cur then false else Z.testbit cur j.
Proof.
  intros Hc Hj. destruct (ctz64_spec cur Hc) as (R & T1 & T0).
  set (n := ctz64 cur) in *. clearbody n.
  assert (cur mod 2 ^ (n + 1) = 2 ^ n) as M.
  { zbits. destruct (Z.ltb_spec i (n + 1)).
    - rewrite Z.mod_pow2_bits_low by lia.
      destruct (Z.eqb_spec i n) as [->|]; [done|]. apply T0. lia.
    - rewrite Z.mod_pow2_bits_high by lia. zcases; done || lia. }
  assert (cur - 1 = cur / 2 ^ (n + 1) * 2 ^ (n + 1) + (2 ^ n - 1)) as ->.
  { pose proof (Z.div_mod cur (2 ^ (n + 1)) ltac:(lia)). lia. }
  assert (2 ^ n < 2 ^ (n + 1)) by (apply Z.pow_lt_mono_r; lia).
  rewrite uwrap_testbit, concat_testbit by lia.
  destruct (Z.ltb_spec j 64); [|lia]. cbn [andb].
  replace (2 ^ n - 1) with (Z.ones n) by (rewrite Z.ones_equiv; lia).
  destruct (Z.ltb_spec j (n + 1)).
  - rewrite ones_testbit by lia. zcases; done || lia.
  - zcases; try lia. rewrite Z.div_pow2_bits by lia. f_equal. lia.
Qed.

Section Iter.
Context (lv : list (list Z)) (H : shape lv) (Hlk : forall i, (i < 6)%nat -> linked lv i).

Abbreviation bottom k := (word_at (lev lv 6) k).

(** The fan-out bounds the depth: fewer than 63 subtrees hang off level 0. *)
Lemma shape_depth :
  Z.of_nat (length (lev lv 6)) <= 63 * (64 * (64 * (64 * (64 * 64)))).
Proof.
  pose proof (shape_sentinel _ H).
  pose proof (shape_fanout _ H 1 ltac:(lia)). pose proof (shape_fanout _ H 2 ltac:(lia)).
  pose proof (shape_fanout _ H 3 ltac:(lia)). pose proof (shape_fanout _ H 4 ltac:(lia)).
  pose proof (shape_fanout _ H 5 ltac:(lia)). lia.
Qed.

Lemma word_at_outside l k : Z.of_nat (length l) <= k -> word_at l k = 0.
Proof. intros Hk. unfold word_at. by rewrite lookup_ge_None_2 by lia. Qed.

(** A clear bit of level [i] stands for an empty subtree. *)
Lemma empty_subtree i : (i < 6)%nat -> forall k, 0 <= k ->
  bit (lev lv i) (anc k (5 - i)) = false -> bottom k = 0.
Proof.
  intros Hi. remember (5 - i)%nat as d eqn:Hd. revert i Hi Hd.
  induction d as [|d IH]; intros i Hi Hd k Hk Hb.
  - rewrite anc_0 in Hb. rewrite Hlk in Hb by (done || lia). apply orb_false_iff in Hb as [Hb _].
    apply negb_false_iff, Z.eqb_eq in Hb. by replace (S i) with 6%nat in Hb by lia.
  - rewrite anc_S, Hlk in Hb; [|done|apply Z.div_pos; [by apply anc_nonneg|lia]].
    apply orb_false_iff in Hb as [Hb _]. apply negb_false_iff, Z.eqb_eq in Hb.
    apply (IH (S i)); [lia|lia|done|].
    pose proof (anc_nonneg k d Hk).
    pose proof (proj1 (word_at_zero (lev lv (S i)) (anc k d / 64) (shape_words _ H (S i) ltac:(lia)) ltac:(dlia)) Hb
      (anc k d mod 64) ltac:(dlia)) as Z.
    by replace (64 * (anc k d / 64) + anc k d mod 64) with (anc k d) in Z by dlia.
Qed.

(** The bits of [cur[i]] are those of the path's word after the path. *)
Definition path_at (pos : Z) (cur : list Z) (i : nat) : Prop :=
  0 <= curw cur i < 2 ^ 64 /\
  forall j, 0 <= j < 64 -> Z.testbit (curw cur i) j =
    bit (lev lv i) (64 * anc pos (6 - i) + j) && (anc pos (5 - i) <? 64 * anc pos (6 - i) + j).

Definition path (pos : Z) (cur : list Z) : Prop :=
  length cur = 7%nat /\ 0 <= pos < Z.of_nat (length (lev lv 6)) /\
  forall i, (i < 6)%nat -> path_at pos cur i.

(** Ancestors of a valid position are valid. *)
Lemma anc_in_level x n : 0 <= x < 64 * Z.of_nat (length (lev lv 6)) -> (n <= 6)%nat ->
  0 <= anc x (7 - n) < Z.of_nat (length (lev lv n)).
Proof.
  intros Hx Hn. remember (6 - n)%nat as d eqn:Hd. revert n Hn Hd.
  induction d as [|d IH]; intros n Hn Hd.
  - assert (n = 6)%nat as -> by lia. change (7 - 6)%nat with 1%nat. rewrite anc_S, anc_0. dlia.
  - specialize (IH (S n) ltac:(lia) ltac:(lia)). pose proof (shape_fanout _ H n ltac:(lia)).
    replace (7 - n)%nat with (S (7 - S n)) by lia. rewrite anc_S. dlia.
Qed.

(** All the bottom words after [pos] under the ancestor at distance [d] are
    empty. *)
Definition clear_under (pos : Z) (d : nat) : Prop :=
  forall k, pos < k -> anc k d = anc pos d -> bottom k = 0.

Lemma clear_under_0 pos : clear_under pos 0.
Proof. intros k Hk E. rewrite !anc_0 in E. lia. Qed.

(** No work left at level [i]: the subtree of the path's word is done. *)
Lemma clear_under_up pos cur i : (i < 6)%nat -> 0 <= pos -> path_at pos cur i ->
  (forall j, 0 <= j < 64 -> sentinel i (64 * anc pos (6 - i) + j) = false -> Z.testbit (curw cur i) j = false) ->
  clear_under pos (5 - i) -> clear_under pos (6 - i).
Proof.
  intros Hi Hp [_ Hpath] Hz Hc k Hk E.
  destruct (Z.eq_dec (anc k (5 - i)) (anc pos (5 - i))) as [Eq|Ne]; [by apply Hc|].
  pose proof (anc_mono pos k (5 - i) ltac:(lia)). pose proof (anc_nonneg pos (5 - i) Hp).
  assert (anc k (5 - i) / 64 = anc pos (6 - i)) as Ek
    by (rewrite <- E; replace (6 - i)%nat with (S (5 - i)) by lia; by rewrite anc_S).
  destruct (bit (lev lv i) (anc k (5 - i))) eqn:Hb; [|apply (empty_subtree i); [lia|lia|done]].
  set (c := anc k (5 - i)) in *.
  destruct (sentinel i c) eqn:Hs.
  - (* only words outside the hierarchy hang below the sentinel *)
    unfold sentinel in Hs. apply andb_true_iff in Hs as [Hi0 Hc63].
    apply Nat.eqb_eq in Hi0 as ->. apply Z.eqb_eq in Hc63.
    apply word_at_outside. pose proof shape_depth.
    unfold c, anc in Hc63. change (64 ^ Z.of_nat (5 - 0)) with (64 * (64 * (64 * (64 * 64)))) in Hc63.
    dlia.
  - specialize (Hz (c mod 64) ltac:(dlia)). rewrite Hpath in Hz by dlia.
    replace (64 * anc pos (6 - i) + c mod 64) with c in Hz by (rewrite <- Ek; dlia).
    rewrite Hs, Hb in Hz. specialize (Hz eq_refl). cbn in Hz. lia.
Qed.

(** Going up: the first level, from the bottom, with work left. *)
Lemma skip_up_spec pos cur n : (n <= 6)%nat -> 0 <= pos -> length cur = 7%nat ->
  (forall i, (i < 6)%nat -> path_at pos cur i) -> curw cur 0 <> 0 -> (0 < n)%nat ->
  clear_under pos (6 - n) ->
  exists i, (i < n)%nat /\
    skip_up n cur (anc pos (6 - n)) = Ok (i, curw cur i, anc pos (6 - i)) /\
    curw cur i <> 0 /\ clear_under pos (5 - i).
Proof.
  intros Hn Hp Hlen Hpath Hs. induction n as [|n IH]; intros Hpos Hc; [lia|].
  cbn [skip_up]. rewrite curw_get by lia. cbn [res_bind]. rewrite shiftr6, <- anc_S.
  replace (S (6 - S n)) with (6 - n)%nat by lia.
  replace (6 - S n)%nat with (5 - n)%nat in Hc by lia.
  destruct (Z.eqb_spec (curw cur n) 0) as [E|E].
  - destruct (Nat.eq_dec n 0%nat) as [->|]; [done|].
    destruct IH as (i & Hi & -> & Hi'); [lia|lia| |exists i; split; [lia|done]].
    apply (clear_under_up pos cur); [lia|done|apply Hpath; lia| |done].
    intros j _ _. rewrite E. apply Z.testbit_0_l.
  - exists n. split; [lia|]. done.
Qed.

(** One step down: the lowest set bit of the word at [w] above [lo]. *)
Lemma lowest_child i p0 w lo cur :
  (i < 6)%nat -> 0 < cur < 2 ^ 64 -> 0 <= p0 -> 0 <= w ->
  (forall j, 0 <= j < 64 -> Z.testbit cur j = bit (lev lv i) (64 * w + j) && (lo <? 64 * w + j)) ->
  (forall k, p0 < k -> anc k (6 - i) < w -> bottom k = 0) ->
  (forall k, p0 < k -> anc k (6 - i) = w -> anc k (5 - i) <= lo -> bottom k = 0) ->
  sentinel i (64 * w + ctz64 cur) = false ->
  let c := 64 * w + ctz64 cur in
  lo < c /\ c / 64 = w /\ 0 <= c < Z.of_nat (length (lev lv (S i))) /\
  0 < word_at (lev lv (S i)) c < 2 ^ 64 /\
  (forall k, p0 < k -> anc k (5 - i) < c -> bottom k = 0) /\
  (forall j, 0 <= j < 64 -> Z.testbit (Z.land cur (u64 (cur - 1))) j =
     bit (lev lv i) (64 * w + j) && (c <? 64 * w + j)).
Proof.
  intros Hi Hcur Hp Hw Hb HA HB Hs c.
  destruct (ctz64_spec cur Hcur) as (R & T1 & T0). subst c. set (c := 64 * w + ctz64 cur) in *.
  pose proof T1 as T1'. rewrite Hb in T1' by done. apply andb_true_iff in T1' as [Bc Lc]. fold c in Bc, Lc.
  rewrite Hlk, Hs, orb_false_r in Bc by (done || lia). apply negb_true_iff, Z.eqb_neq in Bc.
  pose proof (word_at_range (lev lv (S i)) c (shape_words _ H (S i) ltac:(lia))).
  split; [lia|]. split; [subst c; dlia|]. split.
  { split; [lia|]. destruct (Z.lt_ge_cases c (Z.of_nat (length (lev lv (S i))))) as [|G]; [done|].
    by rewrite word_at_outside in Bc by done. }
  split; [lia|]. split.
  - intros k Hk Lk. set (a := anc k (5 - i)) in *.
    assert (anc k (6 - i) = a / 64) as Ea by (replace (6 - i)%nat with (S (5 - i)) by lia; by rewrite anc_S).
    destruct (Z.lt_ge_cases (a / 64) w); [apply HA; lia|].
    assert (a / 64 = w) as Ew by (subst c; dlia).
    destruct (Z.le_gt_cases a lo); [apply HB; lia|].
    apply (empty_subtree i); [lia|lia|]. fold a.
    specialize (T0 (a - 64 * w) ltac:(subst c; dlia)). rewrite Hb in T0 by (subst c; dlia).
    replace (64 * w + (a - 64 * w)) with a in T0 by lia.
    destruct (Z.ltb_spec lo a); [by rewrite andb_true_r in T0|lia].
  - intros j Hj. rewrite Z.land_spec.
    assert (Z.testbit (u64 (cur - 1)) j = if j <? ctz64 cur then true else
      if j =? ctz64 cur then false else Z.testbit cur j) as ->
      by (apply dec_testbit; done || lia).
    subst c. destruct (Z.ltb_spec j (ctz64 cur)).
    + rewrite T0 by lia. destruct (Z.ltb_spec (64 * w + ctz64 cur) (64 * w + j)); [lia|].
      by rewrite andb_false_r.
    + destruct (Z.eqb_spec j (ctz64 cur)) as [->|].
      * rewrite Z.ltb_irrefl, !andb_false_r. done.
      * rewrite andb_diag, Hb by done. f_equal. zcases; done || lia.
Qed.

Lemma level_get i k : (i < 7)%nat -> 0 <= k < Z.of_nat (length (lev lv i)) ->
  level_word lv (Z.of_nat i) k = Ok (word_at (lev lv i) k).
Proof. intros Hi Hk. unfold level_word. rewrite lev_get by done. by apply word_at_get. Qed.

(** Going down along lowest set bits, from a word at level [i = 6 - n] with
    the candidates [cur] above [lo]. *)
Lemma skip_down_spec p0 : 0 <= p0 -> forall n i w lo cur curs,
  (n <= 6)%nat -> i = (6 - n)%nat -> 0 < cur < 2 ^ 64 ->
  0 <= w < Z.of_nat (length (lev lv i)) -> length curs = 7%nat ->
  (n = O -> cur = bottom w) ->
  (forall j, 0 <= j < 64 -> Z.testbit cur j = bit (lev lv i) (64 * w + j) && (lo <? 64 * w + j)) ->
  (forall k, p0 < k -> anc k n < w -> bottom k = 0) ->
  (forall k, p0 < k -> (0 < n)%nat -> anc k n = w -> anc k (n - 1) <= lo -> bottom k = 0) ->
  sentinel i (64 * w + ctz64 cur) = false ->
  exists pos curs', skip_down n lv (Z.of_nat i) cur w curs = Ok (bottom pos, pos, curs') /\
    anc pos n = w /\ 0 <= pos < Z.of_nat (length (lev lv 6)) /\
    0 < bottom pos < 2 ^ 64 /\ length curs' = 7%nat /\
    (forall k, p0 < k < pos -> bottom k = 0) /\
    ((0 < n)%nat -> lo < anc pos (n - 1)) /\
    (forall l, (l < i)%nat \/ l = 6%nat -> curw curs' l = curw curs l) /\
    (forall l, (i <= l < 6)%nat -> path_at pos curs' l).
Proof.
  intros Hp0. induction n as [|n IH]; intros i w lo cur curs Hn -> Hcur Hw Hlen H0 Hb HA HB Hs.
  - cbn [skip_down]. rewrite (H0 eq_refl) in *. exists w, curs. split; [done|].
    split; [apply anc_0|]. split; [done|]. split; [done|]. split; [done|].
    split; [intros k Hk; apply HA; rewrite ?anc_0; lia|]. split; [lia|]. split; [done|lia].
  - set (i := (6 - S n)%nat) in *.
    destruct (lowest_child i p0 w lo cur) as (Lc & Dc & Rc & Wc & Kc & Tc); try done.
    { lia. } { lia. }
    { intros k. replace (6 - i)%nat with (S n) by lia. apply HA. }
    { intros k Hk. replace (6 - i)%nat with (S n) by lia. replace (5 - i)%nat with (S n - 1)%nat by lia.
      apply HB; [done|lia]. }
    set (c := 64 * w + ctz64 cur) in *. replace (5 - i)%nat with n in Kc by lia.
    cbn [skip_down]. destruct (Z.eqb_spec cur 0); [lia|]. cbn [negb c_assert res_bind].
    unfold BITS_PER_LEVEL. rewrite Z.shiftl_mul_pow2 by lia. change (2 ^ 6) with 64.
    replace (w * 64 + ctz64 cur) with c by (unfold c; lia).
    pose proof (shape_bound _ H (S i) ltac:(lia)). rewrite (uwrap_small 64 c) by lia.
    destruct (curw_set curs i (Z.land cur (u64 (cur - 1)))) as (curs1 & -> & Len1 & Cw1); [lia|].
    cbn [res_bind]. replace (Z.of_nat i + 1) with (Z.of_nat (S i)) by lia.
    rewrite level_get by (done || lia). cbn [res_bind].
    destruct (IH (S i) c (64 * c - 1) (word_at (lev lv (S i)) c) curs1)
      as (pos & curs' & -> & A' & P' & B' & L' & K' & _ & S' & T'); try done; try lia.
    { intros ->. by replace (S i) with 6%nat by lia. }
    { intros j Hj. rewrite word_at_testbit by lia. zcases; [by rewrite andb_true_r|lia]. }
    { intros k Hk Hn0 Ek. replace n with (S (n - 1)) in Ek at 1 by lia. rewrite anc_S in Ek. dlia. }
    exists pos, curs'. split; [done|]. split; [by rewrite anc_S, A'|]. split; [done|].
    split; [done|]. split; [done|]. split; [done|].
    split; [intros _; replace (S n - 1)%nat with n by lia; lia|]. split.
    + intros l Hl. rewrite S', Cw1 by lia. destruct (Nat.eqb_spec l i); [lia|done].
    + intros l Hl. destruct (Nat.eq_dec l i) as [->|]; [|apply T'; lia].
      unfold path_at. rewrite S', Cw1, Nat.eqb_refl by lia.
      replace (6 - i)%nat with (S n) by lia. replace (5 - i)%nat with n by lia.
      rewrite anc_S, A', Dc. split; [apply land_range; lia|done].
Qed.

(** The sentinel keeps [cur[0]] non-zero. *)
Lemma path_sentinel pos cur : path pos cur -> Z.testbit (curw cur 0) 63 = true.
Proof.
  intros (_ & Hpos & Hpath). destruct (Hpath 0%nat ltac:(lia)) as [_ T].
  assert (anc pos 6 = 0) as A6.
  { unfold anc. apply Z.div_small. change (64 ^ Z.of_nat 6) with (64 * (64 * (64 * (64 * (64 * 64))))).
    pose proof shape_depth. lia. }
  rewrite T by lia. change (6 - 0)%nat with 6%nat. change (5 - 0)%nat with 5%nat. rewrite A6.
  rewrite Hlk by lia. cbn. rewrite orb_true_r. cbn.
  assert (anc pos 5 < 63); [|lia].
  unfold anc. apply Z.div_lt_upper_bound; [lia|].
  change (64 ^ Z.of_nat 5) with (64 * (64 * (64 * (64 * 64)))).
  pose proof shape_depth. lia.
Qed.

(** At level 0 every bit after the path is gone or the sentinel: the end. *)
Lemma clear_under_all pos : 0 <= pos < Z.of_nat (length (lev lv 6)) -> clear_under pos 6 ->
  forall k, pos < k -> bottom k = 0.
Proof.
  intros Hp Hc k Hk. destruct (Z.lt_ge_cases k (Z.of_nat (length (lev lv 6)))); [|by apply word_at_outside].
  apply Hc; [done|]. unfold anc. change (64 ^ Z.of_nat 6) with (64 * (64 * (64 * (64 * (64 * 64))))).
  pose proof shape_depth. rewrite !Z.div_small by lia. done.
Qed.

Lemma top_word_63 w : 0 < w < 2 ^ 64 -> ctz64 w = 63 -> w = Z.shiftl 1 (BITS_PER_LONG - 1).
Proof.
  intros Hw E. destruct (ctz64_spec w Hw) as (_ & T1 & T0). rewrite E in T1, T0.
  change (BITS_PER_LONG - 1) with 63. zbits. destruct (Z.eqb_spec i 63) as [->|]; [done|].
  destruct (Z.ltb_spec i 63); [apply T0; lia|]. apply (testbit_high w 64); lia.
Qed.

Lemma top_word_ctz : ctz64 (Z.shiftl 1 (BITS_PER_LONG - 1)) = 63.
Proof. reflexivity. Qed.

(** [hbitmap_iter_skip_words]: the next non-zero word after [it_pos]. *)
Lemma skip_words_spec hb it : levels hb = lv -> path (it_pos it) (it_cur it) ->
  exists w it', hbitmap_iter_skip_words hb it = Ok (w, it') /\
    ((w = 0 /\ it' = it /\ forall k, it_pos it < k -> bottom k = 0) \/
     (w = bottom (it_pos it') /\ 0 < w < 2 ^ 64 /\ it_pos it < it_pos it' /\
      it_granularity it' = it_granularity it /\
      (forall k, it_pos it < k < it_pos it' -> bottom k = 0) /\
      path (it_pos it') (it_cur it'))).
Proof.
  intros Hhb Hpath. pose proof (path_sentinel _ _ Hpath) as Hsen. destruct Hpath as (Hlen & Hpos & Hp).
  unfold hbitmap_iter_skip_words. set (p := it_pos it) in *. set (cur := it_cur it) in *.
  destruct (skip_up_spec p cur 6) as (i & Hi & E & Ni & Ci); try done; try lia.
  { intros Z0. by rewrite Z0, Z.testbit_0_l in Hsen. }
  { apply clear_under_0. }
  change (6 - 6)%nat with 0%nat in E. rewrite anc_0 in E.
  change (HBITMAP_LEVELS - 1)%nat with 6%nat. rewrite E. cbn [res_bind].
  destruct (Hp i Hi) as [Rw Tw]. set (w := anc p (6 - i)) in *.
  assert (0 <= w < Z.of_nat (length (lev lv i))) as Rw'.
  { split; [apply anc_nonneg; lia|].
    destruct (Z.lt_ge_cases w (Z.of_nat (length (lev lv i)))) as [|G]; [done|].
    destruct (ctz64_spec (curw cur i) ltac:(lia)) as (Rz & T1 & _). rewrite Tw in T1 by done.
    apply andb_true_iff in T1 as [T1 _]. rewrite <- word_at_testbit in T1 by lia.
    rewrite word_at_outside, Z.testbit_0_l in T1 by done. done. }
  assert (sentinel i (64 * w + ctz64 (curw cur i)) = true <->
          (Nat.eqb i 0 && (curw cur i =? Z.shiftl 1 (BITS_PER_LONG - 1))) = true) as Send.
  { unfold sentinel. rewrite !andb_true_iff, !Z.eqb_eq. split; intros [E0 E1]; split; try done;
      apply Nat.eqb_eq in E0.
    - apply top_word_63; [lia|].
      assert (w = 0) as W0; [|lia]. rewrite E0 in Rw'. pose proof (shape_top _ H). lia.
    - rewrite E1, top_word_ctz. rewrite E0 in Rw'. pose proof (shape_top _ H). lia. }
  destruct (Nat.eqb i 0 && _) eqn:Eend.
  - exists 0, it. split; [done|]. left. split; [done|]. split; [done|].
    apply andb_true_iff in Eend as [E0 E1]. apply Nat.eqb_eq in E0 as ->. apply Z.eqb_eq in E1.
    apply clear_under_all; [done|]. change 6%nat with (6 - 0)%nat.
    apply (clear_under_up p cur); [lia|lia|by apply Hp| |done].
    intros j Hj Hs. rewrite E1. change (BITS_PER_LONG - 1) with 63. autorewrite with zbits.
    fold w in Hs. destruct (Z.eqb_spec j 63) as [->|]; [|done].
    unfold sentinel in Hs. cbn in Hs. pose proof (shape_top _ H). lia.
  - assert (sentinel i (64 * w + ctz64 (curw cur i)) = false) as Sf.
    { destruct (sentinel i (64 * w + ctz64 (curw cur i))); [|done]. by destruct (proj1 Send eq_refl). }
    change (6 - i)%nat with (6 - i)%nat. rewrite Hhb.
    destruct (skip_down_spec p ltac:(lia) (6 - i) i w (anc p (5 - i)) (curw cur i) cur)
      as (pos & curs' & -> & A' & P' & B' & L' & K' & Lo' & S' & T'); try done; try lia.
    { intros k Hk Hlt. pose proof (anc_mono p k (6 - i) ltac:(lia)). fold w in H0. lia. }
    { intros k Hk _ Ek. replace (6 - i - 1)%nat with (5 - i)%nat by lia. intros Hle.
      pose proof (anc_mono p k (5 - i) ltac:(lia)). apply Ci; [done|lia]. }
    cbn [res_bind]. destruct (Z.eqb_spec (bottom pos) 0); [lia|]. cbn [negb c_assert res_bind].
    eexists _, _. split; [done|]. right. cbn [it_pos it_granularity it_cur].
    split; [done|]. split; [done|]. split.
    { apply (anc_lt _ _ (5 - i)). replace (5 - i)%nat with (6 - i - 1)%nat at 2 by lia. apply Lo'. lia. }
    split; [done|]. split; [done|]. split; [done|]. split; [done|].
    intros l Hl. destruct (Nat.lt_ge_cases l i) as [Lt|Ge]; [|by apply T'].
    unfold path_at. rewrite S' by lia.
    rewrite !(anc_up pos p (6 - i)) by (done || lia). by apply Hp.
Qed.

(** ** Initialisation *)

Lemma init_word w b : 0 <= w < 2 ^ 64 -> 0 <= b < 64 ->
  let c := Z.land w (lnot64 (Z.shiftl 1 b - 1)) in
  0 <= c < 2 ^ 64 /\ (forall j, 0 <= j < 64 -> Z.testbit c j = Z.testbit w j && (b <=? j)) /\
  let d := Z.land c (lnot64 (Z.shiftl 1 b)) in
  0 <= d < 2 ^ 64 /\ (forall j, 0 <= j < 64 -> Z.testbit d j = Z.testbit w j && (b <? j)).
Proof.
  intros Hw Hb c. assert (0 <= c < 2 ^ 64) as Rc by (apply land_range; lia).
  assert (forall j, 0 <= j < 64 -> Z.testbit c j = Z.testbit w j && (b <=? j)) as Tc.
  { intros j Hj. subst c. rewrite Z.land_spec, lnot64_testbit by done. f_equal.
    rewrite Z.shiftl_1_l. replace (2 ^ b - 1) with (Z.ones b) by (rewrite Z.ones_equiv; lia).
    rewrite ones_testbit by lia. zcases; done || lia. }
  split; [done|]. split; [done|]. intros d. split; [apply land_range; lia|].
  intros j Hj. subst d. rewrite Z.land_spec, Tc, lnot64_testbit, shiftl1_testbit by lia.
  rewrite <- andb_assoc. f_equal. zcases; done || lia.
Qed.

Lemma iter_init_loop_spec x : 0 <= x < 64 * Z.of_nat (length (lev lv 6)) ->
  forall n cur, (n <= 7)%nat -> length cur = 7%nat ->
  exists cur', iter_init_loop n lv (anc x (7 - n)) cur = Ok cur' /\ length cur' = 7%nat /\
    (forall i, (n <= i)%nat -> curw cur' i = curw cur i) /\
    (forall i, (i < n)%nat -> (i < 6)%nat -> path_at (x / 64) cur' i) /\
    ((6 < n)%nat -> 0 <= curw cur' 6 < 2 ^ 64 /\ forall j, 0 <= j < 64 ->
       Z.testbit (curw cur' 6) j = bit (lev lv 6) (64 * (x / 64) + j) && (x <=? 64 * (x / 64) + j)).
Proof.
  intros Hx. induction n as [|n IH]; intros cur Hn Hlen.
  - exists cur. split; [done|]. split; [done|]. split; [done|]. split; lia.
  - cbn [iter_init_loop]. rewrite land63, shiftr6, <- anc_S.
    replace (S (7 - S n)) with (7 - n)%nat by lia.
    set (a := anc x (7 - S n)). assert (anc x (7 - n) = a / 64) as Ea
      by (replace (7 - n)%nat with (S (7 - S n)) by lia; by rewrite anc_S).
    assert (0 <= a) by (apply anc_nonneg; lia).
    assert (0 <= anc x (7 - n) < Z.of_nat (length (lev lv n))) as Rn by (apply anc_in_level; lia).
    rewrite level_get by (done || lia). cbn [res_bind].
    destruct (init_word (word_at (lev lv n) (anc x (7 - n))) (a mod 64)) as (Rc & Tc & Rd & Td);
      [apply word_at_range, shape_words; [done|lia]|dlia|].
    set (c := Z.land _ (lnot64 (Z.shiftl 1 (a mod 64) - 1))) in *.
    set (d := Z.land c _) in *. set (e := if negb _ then d else c).
    destruct (curw_set cur n e) as (cur1 & -> & L1 & C1); [lia|]. cbn [res_bind].
    destruct (IH cur1) as (cur' & -> & L' & K' & P' & _); [lia|lia|].
    exists cur'. split; [done|]. split; [done|]. split.
    { intros i Hi. rewrite K', C1 by lia. destruct (Nat.eqb_spec i n); [lia|done]. }
    split.
    + intros i Hi Hi6. destruct (Nat.eq_dec i n) as [->|]; [|apply P'; lia].
      unfold path_at. rewrite K', C1, Nat.eqb_refl by lia.
      assert (e = d) as -> by (unfold e, HBITMAP_LEVELS; destruct (Nat.eqb_spec n (7 - 1)%nat); [lia|done]).
      rewrite !(anc_div x) . replace (S (6 - n)) with (7 - n)%nat by lia.
      replace (S (5 - n)) with (7 - S n)%nat by lia. fold a. split; [done|]. intros j Hj.
      rewrite Td, word_at_testbit by lia. f_equal. rewrite Ea. zcases; done || dlia.
    + intros Hn6. assert (n = 6)%nat as -> by lia. rewrite K', C1 by lia. cbn [Nat.eqb].
      change e with c. split; [done|]. intros j Hj. rewrite Tc, word_at_testbit by lia.
      subst a. change (7 - 7)%nat with 0%nat in *. change (7 - 6)%nat with 1%nat in *.
      rewrite Ea, !anc_0. f_equal. zcases; done || dlia.
Qed.
End Iter.

(** ** Counting bits of a range *)

Fixpoint countb (P : Z -> bool) (a : Z) (n : nat) : Z :=
  match n with O => 0 | S n => b2z (P a) + countb P (a + 1) n end.

Definition count_range (P : Z -> bool) (a b : Z) : Z := countb P a (Z.to_nat (b - a)).

Lemma countb_app P a n m : countb P a (n + m) = countb P a n + countb P (a + Z.of_nat n) m.
Proof.
  revert a. induction n as [|n IH]; intros a; cbn [countb Nat.add].
  - by rewrite Z.add_0_r.
  - rewrite IH. replace (a + 1 + Z.of_nat n) with (a + Z.of_nat (S n)) by lia. lia.
Qed.

Lemma countb_ext P Q a n : (forall i, a <= i < a + Z.of_nat n -> P i = Q i) -> countb P a n = countb Q a n.
Proof.
  revert a. induction n as [|n IH]; intros a E; cbn [countb]; [done|].
  f_equal; [by rewrite E by lia|]. apply IH. intros. apply E. lia.
Qed.

Lemma countb_shift P a k n : countb P (a + k) n = countb (fun i => P (i + k)) a n.
Proof.
  revert a. induction n as [|n IH]; intros a; cbn [countb]; [done|].
  rewrite <- IH. do 2 f_equal. lia.
Qed.

Lemma countb_bounds P a n : 0 <= countb P a n <= Z.of_nat n.
Proof.
  revert a. induction n as [|n IH]; intros a; cbn [countb]; [lia|].
  pose proof (IH (a + 1)). destruct (P a); cbn [b2z]; lia.
Qed.

Lemma count_split P a b c : a <= b <= c -> count_range P a c = count_range P a b + count_range P b c.
Proof.
  intros Hb. unfold count_range. replace (Z.to_nat (c - a)) with (Z.to_nat (b - a) + Z.to_nat (c - b))%nat by lia.
  rewrite countb_app. do 2 f_equal. lia.
Qed.

Lemma count_ext P Q a b : (forall i, a <= i < b -> P i = Q i) -> count_range P a b = count_range Q a b.
Proof. intros E. apply countb_ext. intros. apply E. lia. Qed.

Lemma countb_const (v : bool) a n : countb (fun _ => v) a n = if v then Z.of_nat n else 0.
Proof.
  revert a. induction n as [|n IH]; intros a; cbn [countb]; [by destruct v|].
  rewrite IH. destruct v; cbn [b2z]; lia.
Qed.

Lemma count_const (v : bool) P a b : a <= b -> (forall i, a <= i < b -> P i = v) ->
  count_range P a b = if v then b - a else 0.
Proof.
  intros Hab E. rewrite (count_ext _ (fun _ => v)) by done. unfold count_range.
  rewrite countb_const. destruct v; lia.
Qed.

Lemma count_empty P a b : b <= a -> count_range P a b = 0.
Proof. intros. unfold count_range. by replace (Z.to_nat (b - a)) with 0%nat by lia. Qed.

Lemma count_bounds P a b : a <= b -> 0 <= count_range P a b <= b - a.
Proof. intros. unfold count_range. pose proof (countb_bounds P a (Z.to_nat (b - a))). lia. Qed.

Lemma fields_countb n : forall v, PopFacts.fields 1 n v = countb (Z.testbit v) 0 n.
Proof.
  induction n as [|n IH]; intros v; cbn [PopFacts.fields countb]; [done|].
  rewrite IH. change (2 ^ 1) with 2. rewrite <- Z.bit0_mod.
  rewrite (countb_shift (Z.testbit v) 0 1). f_equal. apply countb_ext. intros i Hi.
  change 2 with (2 ^ 1) at 1. rewrite Z.div_pow2_bits by lia. done.
Qed.

(** The population of a word that holds the bits of [64 p, 64 p + 64) at or
    above [x]. *)
Lemma popcount_word (P : Z -> bool) p x w hi :
  0 <= w < 2 ^ 64 -> 64 * p <= x <= hi -> hi <= 64 * p + 64 ->
  (forall j, 0 <= j < 64 -> Z.testbit w j = P (64 * p + j) && (x <=? 64 * p + j) && (64 * p + j <? hi)) ->
  popcountl w = count_range P x hi.
Proof.
  intros Hw Hx Hh T. unfold popcountl, ctpop64.
  rewrite <- (PopFacts.fields1_popcount 64), fields_countb by done.
  rewrite (countb_ext _ (fun i => (fun y => P y && (x <=? y) && (y <? hi)) (i + 64 * p))).
  2: { intros i Hi. cbn beta. replace (i + 64 * p) with (64 * p + i) by lia. apply T. lia. }
  rewrite <- (countb_shift (fun y => P y && (x <=? y) && (y <? hi)) 0 (64 * p)).
  transitivity (count_range (fun y => P y && (x <=? y) && (y <? hi)) (64 * p) (64 * p + 64)).
  { unfold count_range. by replace (64 * p + 64 - 64 * p) with 64 by lia. }
  rewrite (count_split _ _ x), (count_split _ x hi) by lia.
  rewrite (count_const false _ (64 * p)), (count_const false _ hi); [|lia| |lia|].
  - rewrite (count_ext _ P x hi); [lia|]. intros i Hi.
    destruct (Z.leb_spec x i), (Z.ltb_spec i hi); rewrite ?andb_true_r; done || lia.
  - intros i Hi. destruct (Z.ltb_spec i hi); [lia|]. apply andb_false_r.
  - intros i Hi. destruct (Z.leb_spec x i); [lia|]. by rewrite andb_false_r.
Qed.

(** ** The invariant of a bitmap *)

Definition bottom_bits (hb : HBitmap) : list Z := lev (levels hb) 6.

(** The abstract set. *)
Definition hbit (hb : HBitmap) (x : Z) : bool := bit (bottom_bits hb) x.

Record hb_wf (hb : HBitmap) : Prop := {
  wf_shape : shape (levels hb);
  wf_linked i : (i < 6)%nat -> linked (levels hb) i;
  wf_granularity : 0 <= hb_granularity hb < 64;
  wf_size : 0 <= hb_size hb <= 64 * Z.of_nat (length (bottom_bits hb));
  wf_beyond x : hb_size hb <= x -> hbit hb x = false;
  wf_count : hb_count hb = count_range (hbit hb) 0 (hb_size hb)
}.

(** The iterator stands before position [x]: what it has left to visit are
    the set bits at or after [x]. *)
Definition iter_at (hb : HBitmap) (it : HBitmapIter) (x : Z) : Prop :=
  path (levels hb) (it_pos it) (it_cur it) /\ it_granularity it = hb_granularity hb /\
  64 * it_pos it <= x <= 64 * it_pos it + 64 /\ 0 <= curw (it_cur it) 6 < 2 ^ 64 /\
  forall j, 0 <= j < 64 ->
    Z.testbit (curw (it_cur it) 6) j = hbit hb (64 * it_pos it + j) && (x <=? 64 * it_pos it + j).

Section Hbitmap.
Context (hb : HBitmap) (W : hb_wf hb).

Lemma bottom_zero_bits k x : word_at (bottom_bits hb) k = 0 -> x / 64 = k -> 0 <= x -> hbit hb x = false.
Proof. intros E D Hx. unfold hbit. rewrite bit_word_at, D, E by done. apply Z.testbit_0_l. Qed.

Lemma iter_init_spec x : 0 <= x < hb_size hb -> x * 2 ^ hb_granularity hb < 2 ^ 64 ->
  exists it, hbitmap_iter_init hb (u64 (Z.shiftl x (hb_granularity hb))) = Ok it /\ iter_at hb it x.
Proof.
  intros Hx Hov. pose proof (wf_granularity _ W) as Hg. pose proof (wf_size _ W) as Hs.
  unfold hbitmap_iter_init. rewrite c_shift_ok by done. cbn [res_bind].
  rewrite Z.shiftl_mul_pow2 by lia. rewrite uwrap_small by nia.
  rewrite Z.shiftr_div_pow2, Z.div_mul by lia.
  destruct (Z.ltb_spec x (hb_size hb)); [|lia]. cbn [c_assert res_bind].
  destruct (iter_init_loop_spec (levels hb) (wf_shape _ W) x) with
    (n := 7%nat) (cur := replicate HBITMAP_LEVELS 0) as (cur & E & L & _ & P & B);
    [unfold bottom_bits in *; lia|lia|done|].
  change (7 - 7)%nat with 0%nat in E. rewrite anc_0 in E. unfold HBITMAP_LEVELS at 1. rewrite E.
  cbn [res_bind]. eexists. split; [done|]. unfold iter_at. cbn [it_pos it_cur it_granularity].
  rewrite shiftr6. split.
  { split; [done|]. split; [unfold bottom_bits in *; dlia|]. intros i Hi. apply P; lia. }
  split; [done|]. split; [dlia|]. apply B. lia.
Qed.

(** The word the two [next] functions work on. *)
Lemma iter_cur_word_spec it x : iter_at hb it x ->
  exists w it', iter_cur_word hb it = Ok (w, it') /\
    ((w = 0 /\ it' = it /\ forall y, x <= y -> hbit hb y = false) \/
     (0 < w < 2 ^ 64 /\ path (levels hb) (it_pos it') (it_cur it') /\
      it_granularity it' = hb_granularity hb /\ x <= 64 * it_pos it' + 63 /\
      (forall y, x <= y < 64 * it_pos it' -> hbit hb y = false) /\
      forall j, 0 <= j < 64 -> Z.testbit w j =
        hbit hb (64 * it_pos it' + j) && (x <=? 64 * it_pos it' + j))).
Proof.
  intros (Hp & Hg & Hx & Hr & Hb). pose proof Hp as (Hlen & Hpos & _).
  unfold iter_cur_word. change 6 with (Z.of_nat 6) at 1. rewrite curw_get by lia. cbn [res_bind].
  destruct (Z.eqb_spec (curw (it_cur it) 6) 0) as [E|E].
  - assert (forall y, x <= y < 64 * it_pos it + 64 -> hbit hb y = false) as Done.
    { intros y Hy. specialize (Hb (y - 64 * it_pos it) ltac:(lia)). rewrite E, Z.testbit_0_l in Hb.
      replace (64 * it_pos it + (y - 64 * it_pos it)) with y in Hb by lia.
      destruct (Z.leb_spec x y); [|lia]. by rewrite andb_true_r in Hb. }
    destruct (skip_words_spec (levels hb) (wf_shape _ W) (wf_linked _ W) hb it eq_refl Hp)
      as (w & it' & -> & [(-> & -> & K)|(Ew & Rw & Lt & Gr & K & P')]);
      (eexists _, _; split; [done|]); [left|right].
    + split; [done|]. split; [done|]. intros y Hy.
      destruct (Z.lt_ge_cases y (64 * it_pos it + 64)); [apply Done; lia|].
      apply (bottom_zero_bits (y / 64)); [apply K; dlia|done|lia].
    + split; [done|]. split; [done|]. split; [congruence|]. split; [lia|]. split.
      * intros y Hy. destruct (Z.lt_ge_cases y (64 * it_pos it + 64)); [apply Done; lia|].
        apply (bottom_zero_bits (y / 64)); [apply K; dlia|done|lia].
      * intros j Hj. rewrite Ew, word_at_testbit by lia. unfold hbit, bottom_bits.
        destruct (Z.leb_spec x (64 * it_pos it' + j)); [by rewrite andb_true_r|lia].
  - exists (curw (it_cur it) 6), it. split; [done|]. right. split; [lia|]. split; [done|]. split; [done|].
    split; [|split; [intros; lia|done]].
    destruct (ctz64_spec (curw (it_cur it) 6) ltac:(lia)) as (Rz & T1 & _).
    rewrite Hb in T1 by done. apply andb_true_iff in T1 as [_ T1]. lia.
Qed.

(** Replacing [cur[6]]. *)
Lemma set_last_cur_spec it w x :
  path (levels hb) (it_pos it) (it_cur it) -> it_granularity it = hb_granularity hb ->
  64 * it_pos it <= x <= 64 * it_pos it + 64 -> 0 <= w < 2 ^ 64 ->
  (forall j, 0 <= j < 64 -> Z.testbit w j =
     hbit hb (64 * it_pos it + j) && (x <=? 64 * it_pos it + j)) ->
  exists it', set_last_cur it w = Ok it' /\ it_pos it' = it_pos it /\
    it_granularity it' = it_granularity it /\ iter_at hb it' x.
Proof.
  intros (Hlen & Hpos & Hp) Hg Hx Hw Hb. unfold set_last_cur.
  destruct (curw_set (it_cur it) 6 w) as (cur' & E & L & C); [lia|].
  change (Z.of_nat 6) with 6 in E. rewrite E. cbn [res_bind].
  eexists. split; [done|]. split; [done|]. split; [done|].
  unfold iter_at. cbn [it_pos it_cur it_granularity]. rewrite C. cbn [Nat.eqb].
  split; [|done]. split; [lia|]. split; [done|]. intros i Hi. unfold path_at. rewrite C.
  destruct (Nat.eqb_spec i 6); [lia|]. by apply Hp.
Qed.

Lemma iter_next_spec it x : iter_at hb it x ->
  exists r it', hbitmap_iter_next hb it = Ok (r, it') /\
    ((r = -1 /\ iter_at hb it' x /\ forall y, x <= y -> hbit hb y = false) \/
     exists y, x <= y /\ hbit hb y = true /\ (forall z, x <= z < y -> hbit hb z = false) /\
       r = s64 (Z.shiftl y (hb_granularity hb)) /\ iter_at hb it' (y + 1)).
Proof.
  intros Hat. unfold hbitmap_iter_next.
  destruct (iter_cur_word_spec it x Hat) as (w & it1 & -> & [(-> & -> & K)|(Rw & P & Hg & Hx & K & T)]);
    cbn [res_bind].
  - exists (-1), it. split; [done|]. left. done.
  - destruct (Z.eqb_spec w 0) as [|Nw]; [lia|].
    destruct (ctz64_spec w Rw) as (Rz & T1 & T0). set (n := ctz64 w) in *.
    pose proof P as (_ & Hpos & _).
    assert (it_pos it1 < 2 ^ 56) as Hb by (pose proof (shape_bound _ (wf_shape _ W) 6 ltac:(lia)); lia).
    pose proof T1 as T1'. rewrite T in T1' by done. apply andb_true_iff in T1' as [Hy Hxy].
    destruct (set_last_cur_spec it1 (Z.land w (u64 (w - 1))) (64 * it_pos it1 + n + 1))
      as (it' & -> & Ep & Eg & Hat'); [done|done|lia|apply land_range; lia| |].
    { intros j Hj. rewrite Z.land_spec, dec_testbit by lia. fold n.
      destruct (Z.ltb_spec j n).
      - rewrite T0 by lia. destruct (Z.leb_spec (64 * it_pos it1 + n + 1) (64 * it_pos it1 + j)); [lia|].
        by rewrite andb_false_r.
      - destruct (Z.eqb_spec j n) as [->|].
        + destruct (Z.leb_spec (64 * it_pos it1 + n + 1) (64 * it_pos it1 + n)); [lia|].
          by rewrite !andb_false_r.
        + rewrite andb_diag, T by done. f_equal. zcases; done || lia. }
    cbn [res_bind]. eexists _, _. split; [done|]. right. exists (64 * it_pos it1 + n).
    split; [lia|]. split; [done|]. split.
    + intros z Hz. destruct (Z.lt_ge_cases z (64 * it_pos it1)); [apply K; lia|].
      specialize (T0 (z - 64 * it_pos it1) ltac:(lia)). rewrite T in T0 by lia.
      replace (64 * it_pos it1 + (z - 64 * it_pos it1)) with z in T0 by lia.
      destruct (Z.leb_spec x z); [by rewrite andb_true_r in T0|lia].
    + split; [|done]. rewrite Ep, Eg, Hg. unfold BITS_PER_LEVEL.
      rewrite (Z.shiftl_mul_pow2 (it_pos it1)) by lia. change (2 ^ 6) with 64.
      rewrite uwrap_small by lia. do 2 f_equal. lia.
Qed.

Lemma iter_next_word_spec it x : iter_at hb it x ->
  exists p w it', hbitmap_iter_next_word hb it = Ok (p, w, it') /\
    ((p = 2 ^ 64 - 1 /\ forall y, x <= y -> hbit hb y = false) \/
     (x <= 64 * p + 63 /\ 0 <= p < 2 ^ 56 /\ 0 <= w < 2 ^ 64 /\
      (forall y, x <= y < 64 * p -> hbit hb y = false) /\
      (forall j, 0 <= j < 64 -> Z.testbit w j = hbit hb (64 * p + j) && (x <=? 64 * p + j)) /\
      iter_at hb it' (64 * p + 64))).
Proof.
  intros Hat. unfold hbitmap_iter_next_word.
  destruct (iter_cur_word_spec it x Hat) as (w & it1 & -> & [(-> & -> & K)|(Rw & P & Hg & Hx & K & T)]);
    cbn [res_bind].
  - eexists _, _, _. split; [done|]. left. done.
  - destruct (Z.eqb_spec w 0); [lia|]. pose proof P as (_ & Hpos & _).
    destruct (set_last_cur_spec it1 0 (64 * it_pos it1 + 64)) as (it' & -> & Ep & Eg & Hat');
      [done|done|lia|lia| |].
    { intros j Hj. rewrite Z.testbit_0_l.
      destruct (Z.leb_spec (64 * it_pos it1 + 64) (64 * it_pos it1 + j)); [lia|]. by rewrite andb_false_r. }
    cbn [res_bind]. eexists _, _, _. split; [done|]. right. rewrite Ep.
    pose proof (shape_bound _ (wf_shape _ W) 6 ltac:(lia)).
    split; [done|]. split; [lia|]. split; [lia|]. done.
Qed.

(** ** Counting *)

(** What [hb_count_between] does with the word the loop stopped at. *)
Definition count_finish (p w count endp : Z) : Z :=
  if p =? endp / 64
  then u64 (count + popcountl (Z.land w (Z.shiftl 1 (endp mod 64) - 1))) else count.

Lemma count_loop_spec start endp : 0 <= start -> endp <= 2 ^ 62 ->
  forall fuel it x, iter_at hb it x -> start <= x <= endp ->
  endp / 64 - x / 64 < Z.of_nat fuel ->
  exists p w count, count_loop fuel hb it endp (count_range (hbit hb) start x) = Ok (p, w, count) /\
    count_finish p w count endp = count_range (hbit hb) start endp.
Proof.
  intros Hs He. induction fuel as [|fuel IH]; intros it x Hat Hx Hf; [dlia|].
  cbn [count_loop]. rewrite shiftr6.
  assert (forall a b, a <= b <= endp -> 0 <= count_range (hbit hb) a b <= 2 ^ 62 - a) as Cb.
  { intros a b Hab. pose proof (count_bounds (hbit hb) a b ltac:(lia)). lia. }
  destruct (iter_next_word_spec it x Hat) as (p & w & it' & -> & [(-> & K)|(Hp & Rp & Rw & K & T & Hat')]);
    cbn [res_bind].
  - destruct (Z.leb_spec (endp / 64) (2 ^ 64 - 1)); [|dlia]. eexists _, _, _. split; [done|].
    unfold count_finish. destruct (Z.eqb_spec (2 ^ 64 - 1) (endp / 64)); [dlia|].
    rewrite (count_split _ start x endp) by lia.
    rewrite (count_const false _ x endp); [lia|lia|]. intros; apply K; lia.
  - destruct (Z.leb_spec (endp / 64) p).
    + eexists _, _, _. split; [done|]. unfold count_finish. destruct (Z.eqb_spec p (endp / 64)) as [->|].
      * set (m := Z.max x (64 * (endp / 64))).
        assert (m <= endp) by (unfold m; dlia).
        rewrite (popcount_word (hbit hb) (endp / 64) m _ endp); [|apply land_range; lia|lia|dlia|].
        -- rewrite (count_split _ start x endp), (count_split _ x m endp) by lia.
           rewrite (count_const false _ x m); [|lia|intros; apply K; unfold m in *; lia].
           pose proof (Cb start x ltac:(lia)). pose proof (Cb m endp ltac:(lia)).
           rewrite uwrap_small; lia.
        -- intros j Hj. rewrite Z.land_spec, T by done.
           replace (Z.shiftl 1 (endp mod 64) - 1) with (Z.ones (endp mod 64))
             by (rewrite Z.ones_equiv, Z.shiftl_1_l; lia).
           rewrite ones_testbit by dlia. unfold m.
           destruct (hbit hb (64 * (endp / 64) + j)); cbn [andb]; [|done].
           zcases; done || dlia.
      * rewrite (count_split _ start x endp) by lia.
        rewrite (count_const false _ x endp); [lia|lia|]. intros; apply K; dlia.
    + set (m := Z.max x (64 * p)).
      rewrite (popcount_word (hbit hb) p m _ (64 * p + 64)); [|done|lia|lia|].
      * replace (u64 (count_range (hbit hb) start x + count_range (hbit hb) m (64 * p + 64)))
          with (count_range (hbit hb) start (64 * p + 64)).
        -- apply IH; [done|dlia|dlia].
        -- pose proof (Cb start x ltac:(lia)). pose proof (Cb m (64 * p + 64) ltac:(unfold m; dlia)).
           rewrite (count_split _ start x), (count_split _ x m (64 * p + 64)) by (unfold m; lia).
           rewrite (count_const false _ x m); [|lia|intros; apply K; unfold m in *; lia].
           rewrite uwrap_small; lia.
      * intros j Hj. rewrite T by done. unfold m.
        destruct (hbit hb (64 * p + j)); cbn [andb]; [|done]. zcases; done || lia.
Qed.

Lemma hb_count_between_spec start last :
  0 <= start <= last -> last < hb_size hb -> start * 2 ^ hb_granularity hb < 2 ^ 64 ->
  hb_count_between hb start last = Ok (count_range (hbit hb) start (last + 1)).
Proof.
  intros Hs Hl Hov. unfold hb_count_between.
  pose proof (wf_size _ W) as Hsz. pose proof (shape_bound _ (wf_shape _ W) 6 ltac:(lia)) as Hb.
  unfold bottom_bits in Hsz. rewrite (uwrap_small 64 (last + 1)) by lia.
  destruct (iter_init_spec start) as (it & -> & Hat); [lia|done|]. cbn [res_bind].
  rewrite shiftr6, land63.
  destruct (count_loop_spec start (last + 1)) with
    (fuel := S (S (Z.to_nat ((last + 1) / 64)))) (it := it) (x := start)
    as (p & w & c & E & F); [lia|lia|done|lia|dlia|].
  rewrite count_empty in E by lia. rewrite E. cbn [res_bind].
  unfold count_finish in F. destruct (p =? (last + 1) / 64); by rewrite F.
Qed.
End Hbitmap.

(** ** Updates *)

(** What an update with value [v] of the groups [start..last] does. *)
Definition hb_updated (v : bool) (start last : Z) (hb hb' : HBitmap) : Prop :=
  hb_wf hb' /\ hb_size hb' = hb_size hb /\ hb_granularity hb' = hb_granularity hb /\
  forall x, 0 <= x -> hbit hb' x = if (start <=? x) && (x <=? last) then v else hbit hb x.

(** The count after writing a range. *)
Lemma count_after (P Q : Z -> bool) v start last size :
  0 <= start <= last -> last < size ->
  (forall x, 0 <= x -> Q x = if (start <=? x) && (x <=? last) then v else P x) ->
  count_range Q 0 size = count_range P 0 size - count_range P start (last + 1)
    + (if v then last + 1 - start else 0).
Proof.
  intros Hs Hl E.
  rewrite (count_split Q 0 start size), (count_split Q start (last + 1) size) by lia.
  rewrite (count_split P 0 start size), (count_split P start (last + 1) size) by lia.
  rewrite (count_const v Q start (last + 1)); [|lia|].
  - rewrite (count_ext Q P 0 start), (count_ext Q P (last + 1) size); [destruct v; lia| |];
      intros i Hi; rewrite E by lia; zcases; done || lia.
  - intros i Hi. rewrite E by lia. zcases; done || lia.
Qed.

(** An update of the levels with a matching new count keeps the invariant. *)
Lemma hb_update_wf hb lv v start last :
  hb_wf hb -> 0 <= start <= last -> last < hb_size hb ->
  level_update v 6 start last (levels hb) lv ->
  let n := count_range (hbit hb) start (last + 1) in
  hb_updated v start last hb
    (mkHBitmap (hb_size hb) (u64 (hb_count hb - n + (if v then last + 1 - start else 0)))
       (hb_granularity hb) lv).
Proof.
  intros W Hs Hl (S' & (Wd & Ln & B) & Lk & _ & _) n.
  assert (forall x, 0 <= x -> hbit (mkHBitmap (hb_size hb)
     (u64 (hb_count hb - n + (if v then last + 1 - start else 0))) (hb_granularity hb) lv) x =
     if (start <=? x) && (x <=? last) then v else hbit hb x) as E by (intros x Hx; by apply B).
  split; [|done]. pose proof (wf_size _ W) as Hsz.
  pose proof (shape_bound _ (wf_shape _ W) 6 ltac:(lia)) as Hb. unfold bottom_bits in Hsz.
  split; cbn [hb_size hb_count hb_granularity levels].
  - done.
  - intros i Hi. apply Lk. done.
  - apply (wf_granularity _ W).
  - unfold bottom_bits. cbn [levels]. rewrite Ln. done.
  - intros x Hx. destruct (Z.lt_ge_cases x 0).
    { lia. }
    rewrite E by done. zcases; try lia; apply (wf_beyond _ W); done.
  - rewrite (count_after (hbit hb) _ v start last) by done. rewrite <- (wf_count _ W).
    fold n. rewrite uwrap_small; [done|].
    pose proof (count_bounds (hbit hb) start (last + 1) ltac:(lia)) as C1. fold n in C1.
    assert (n <= hb_count hb) as C2.
    { rewrite (wf_count _ W), (count_split _ 0 start), (count_split _ start (last + 1)) by lia.
      pose proof (count_bounds (hbit hb) 0 start ltac:(lia)).
      pose proof (count_bounds (hbit hb) (last + 1) (hb_size hb) ltac:(lia)). unfold n. lia. }
    pose proof (count_bounds (hbit hb) 0 (hb_size hb) ltac:(lia)) as C3. rewrite <- (wf_count _ W) in C3.
    destruct v; lia.
Qed.

Lemma can_update_bottom hb start last :
  hb_wf hb -> 0 <= start <= last -> last < hb_size hb -> can_update 6 (levels hb) start last.
Proof.
  intros W Hs Hl. pose proof (wf_size _ W) as Hsz. unfold bottom_bits in Hsz.
  split; [lia|]. split; [apply (wf_shape _ W)|]. split; [done|]. split; [lia|]. split; [done|].
  apply (wf_linked _ W).
Qed.

Section Update.
Context (hb : HBitmap) (W : hb_wf hb) (start count : Z).
Context (Hs : 0 <= start) (Hc : 0 < count) (Hov : start + count <= 2 ^ 64).

Abbreviation first_group := (Z.shiftr start (hb_granularity hb)).
Abbreviation last_group := (Z.shiftr (start + count - 1) (hb_granularity hb)).
Context (Hl : last_group < hb_size hb).

Lemma groups_ok : 0 <= first_group <= last_group /\ first_group * 2 ^ hb_granularity hb < 2 ^ 64.
Proof.
  pose proof (wf_granularity _ W). rewrite !Z.shiftr_div_pow2 by lia.
  split; [split; [apply Z.div_pos; lia|apply Z.div_le_mono; lia]|].
  pose proof (Z.mul_div_le start (2 ^ hb_granularity hb) ltac:(lia)). lia.
Qed.

Lemma hbitmap_set_spec : exists hb', hbitmap_set hb start count = Ok hb' /\
  hb_updated true first_group last_group hb hb'.
Proof.
  destruct groups_ok as [G1 G2]. unfold hbitmap_set. rewrite (uwrap_small 64 (start + count - 1)) by lia.
  rewrite hb_count_between_spec by done. cbn [res_bind]. cbn [with_count levels].
  destruct (hb_set_between_spec 6 (levels hb) first_group last_group) as (lv & E & U);
    [by apply can_update_bottom|].
  change (HBITMAP_LEVELS - 1)%nat with 6%nat. rewrite E. cbn [res_bind].
  eexists. split; [done|]. pose proof (hb_update_wf hb lv true _ _ W G1 Hl U) as R.
  cbn beta iota zeta in R. unfold with_levels, with_count. cbn [hb_size hb_count hb_granularity].
  replace (u64 (hb_count hb + _)) with
    (u64 (hb_count hb - count_range (hbit hb) first_group (last_group + 1)
          + (last_group + 1 - first_group))); [done|].
  destruct (uwrap_sub_multiple 64 (last_group - first_group + 1)) as [k Hk]; [lia|].
  rewrite Hk. apply (uwrap_eq_mod 64 _ _ (- k)); lia.
Qed.

Lemma hbitmap_reset_spec : exists hb', hbitmap_reset hb start count = Ok hb' /\
  hb_updated false first_group last_group hb hb'.
Proof.
  destruct groups_ok as [G1 G2]. unfold hbitmap_reset. rewrite (uwrap_small 64 (start + count - 1)) by lia.
  rewrite hb_count_between_spec by done. cbn [res_bind]. cbn [with_count levels].
  destruct (hb_reset_between_spec 6 (levels hb) first_group last_group) as (lv & E & U);
    [by apply can_update_bottom|].
  change (HBITMAP_LEVELS - 1)%nat with 6%nat. rewrite E. cbn [res_bind].
  eexists. split; [done|]. pose proof (hb_update_wf hb lv false _ _ W G1 Hl U) as R.
  cbn beta iota zeta in R. rewrite Z.add_0_r in R. done.
Qed.
End Update.

Lemma hbitmap_get_spec hb item : hb_wf hb -> 0 <= item ->
  Z.shiftr item (hb_granularity hb) < hb_size hb ->
  hbitmap_get hb item = Ok (hbit hb (Z.shiftr item (hb_granularity hb))).
Proof.
  intros W Hi Hlt. set (x := Z.shiftr item _) in *.
  assert (0 <= x) by (apply Z.shiftr_nonneg; done).
  pose proof (wf_size _ W) as Hsz. unfold bottom_bits in Hsz.
  unfold hbitmap_get. fold x. rewrite shiftr6, land63. change 6 with (Z.of_nat 6) at 1.
  rewrite level_get; [|apply (wf_shape _ W)|lia|dlia]. cbn [res_bind]. f_equal.
  pose proof (word_at_range (lev (levels hb) 6) (x / 64) (shape_words _ (wf_shape _ W) 6 ltac:(lia))).
  pose proof (old_bit_test x (word_at (lev (levels hb) 6) (x / 64)) ltac:(lia) ltac:(lia)) as O.
  unfold BIT_MASK, BITS_PER_LONG in O. rewrite uwrap_small in O.
  - rewrite O. unfold hbit, bottom_bits. by rewrite bit_word_at.
  - rewrite Z.shiftl_1_l. split; [lia|]. apply Z.pow_lt_mono_r; dlia.
Qed.

(** ** Allocation *)

Definition level_size (s : Z) : Z := Z.max (Z.shiftr (u64 (s + BITS_PER_LONG - 1)) BITS_PER_LEVEL) 1.

Lemma level_size_val s : 0 <= s < 2 ^ 60 -> level_size s = Z.max ((s + 63) / 64) 1.
Proof. intros. unfold level_size, BITS_PER_LONG. rewrite shiftr6, uwrap_small by lia. do 2 f_equal. lia. Qed.

Lemma alloc_levels_S i s lv : alloc_levels (S i) s lv =
  alloc_levels i (level_size s) (replicate (Z.to_nat (level_size s)) 0 :: lv).
Proof. reflexivity. Qed.

Lemma alloc_levels_0 s lv : alloc_levels 0 s lv = (lv, s).
Proof. reflexivity. Qed.

Lemma bit_zero n x : bit (replicate n 0) x = false.
Proof.
  unfold bit. destruct (replicate n 0 !! Z.to_nat (x / 64)) as [w|] eqn:E; [|done].
  apply lookup_replicate in E as [-> _]. apply Z.testbit_0_l.
Qed.

Lemma word_zero_at n k : word_at (replicate n 0) k = 0.
Proof.
  unfold word_at. destruct (replicate n 0 !! Z.to_nat k) as [w|] eqn:E; [|done].
  by apply lookup_replicate in E as [-> _].
Qed.

Lemma words_zero n : words_ok (replicate n 0).
Proof. apply Forall_replicate. lia. Qed.

Lemma top_words_ok : words_ok [Z.shiftl 1 63].
Proof. apply Forall_cons; [|apply Forall_nil; done]. rewrite Z.shiftl_1_l. lia. Qed.

Lemma bit_top x : 0 <= x -> bit [Z.shiftl 1 63] x = (x =? 63).
Proof.
  intros Hx. rewrite bit_word_at by done. unfold word_at.
  destruct (Z.eq_dec (x / 64) 0) as [E|E].
  - rewrite E. change (Z.testbit (Z.shiftl 1 63) (x mod 64) = (x =? 63)).
    rewrite shiftl1_testbit by lia.
    zcases; done || dlia.
  - rewrite lookup_ge_None_2 by (cbn; dlia). cbn. rewrite Z.testbit_0_l. zcases; done || dlia.
Qed.

Section Alloc.
Context (size granularity : Z).
Context (Hs : 0 <= size) (Hg : 0 <= granularity < 64) (Hov : size + 2 ^ granularity < 2 ^ 64).

(** The number of groups. *)
Definition groups : Z := (size + 2 ^ granularity - 1) / 2 ^ granularity.

Context (Hmax : groups <= 2 ^ 41).

Lemma groups_nonneg : 0 <= groups.
Proof. unfold groups. assert (0 < 2 ^ granularity) by lia. apply Z.div_pos; lia. Qed.

(** The level sizes the allocation loop goes through, from [s6] words at the
    leaves to one at the root. *)
Definition sizes_ok (s1 s2 s3 s4 s5 s6 : Z) : Prop :=
  (s6 = Z.max ((groups + 63) / 64) 1 /\ 1 <= s6 <= 2 ^ 35) /\
  (s5 = Z.max ((s6 + 63) / 64) 1 /\ 1 <= s5 <= 2 ^ 29) /\
  (s4 = Z.max ((s5 + 63) / 64) 1 /\ 1 <= s4 <= 2 ^ 23) /\
  (s3 = Z.max ((s4 + 63) / 64) 1 /\ 1 <= s3 <= 2 ^ 17) /\
  (s2 = Z.max ((s3 + 63) / 64) 1 /\ 1 <= s2 <= 2 ^ 11) /\
  (s1 = Z.max ((s2 + 63) / 64) 1 /\ 1 <= s1 <= 2 ^ 5).

Lemma level_size_step n b : 0 <= n <= 64 * b -> 1 <= b <= 2 ^ 35 ->
  level_size n = Z.max ((n + 63) / 64) 1 /\ 1 <= level_size n <= b.
Proof. intros. rewrite level_size_val by lia. dlia. Qed.

Lemma alloc_levels_sizes : exists s1 s2 s3 s4 s5 s6, sizes_ok s1 s2 s3 s4 s5 s6 /\
  alloc_levels HBITMAP_LEVELS groups [] =
    (replicate 1 0 :: map (fun s => replicate (Z.to_nat s) 0) [s1; s2; s3; s4; s5; s6], 1).
Proof.
  pose proof groups_nonneg as Hn. change HBITMAP_LEVELS with 7%nat.
  rewrite !alloc_levels_S, alloc_levels_0.
  pose proof (level_size_step groups (2 ^ 35)) as [? B6]; [lia..|]. set (s6 := level_size groups) in *.
  pose proof (level_size_step s6 (2 ^ 29)) as [? B5]; [lia..|]. set (s5 := level_size s6) in *.
  pose proof (level_size_step s5 (2 ^ 23)) as [? B4]; [lia..|]. set (s4 := level_size s5) in *.
  pose proof (level_size_step s4 (2 ^ 17)) as [? B3]; [lia..|]. set (s3 := level_size s4) in *.
  pose proof (level_size_step s3 (2 ^ 11)) as [? B2]; [lia..|]. set (s2 := level_size s3) in *.
  pose proof (level_size_step s2 (2 ^ 5)) as [? B1]; [lia..|]. set (s1 := level_size s2) in *.
  pose proof (level_size_step s1 1) as [_ B0]; [lia..|].
  exists s1, s2, s3, s4, s5, s6. split; [done|].
  by replace (level_size s1) with 1 by lia.
Qed.

Lemma alloc_wf s1 s2 s3 s4 s5 s6 : sizes_ok s1 s2 s3 s4 s5 s6 ->
  hb_wf (mkHBitmap groups 0 granularity
    ([Z.shiftl 1 63] :: map (fun s => replicate (Z.to_nat s) 0) [s1; s2; s3; s4; s5; s6])).
Proof.
  pose proof groups_nonneg as Hn.
  intros ((E6 & B6) & (E5 & B5) & (E4 & B4) & (E3 & B3) & (E2 & B2) & (E1 & B1)).
  split; cbn [hb_size hb_count hb_granularity levels map].
  - split.
    + done.
    + intros i Hi. destruct i as [|i]; [apply top_words_ok|].
      do 6 (destruct i as [|i]; [apply words_zero|]). lia.
    + intros i Hi. do 7 (destruct i as [|i]; [cbn -[Z.of_nat Z.mul Z.pow Z.to_nat replicate];
        rewrite ?length_replicate; lia|]); lia.
    + intros i Hi. do 6 (destruct i as [|i]; [cbn -[Z.of_nat Z.mul Z.pow Z.to_nat replicate];
        rewrite ?length_replicate; dlia|]); lia.
    + done.
    + cbn -[Z.of_nat Z.to_nat replicate]. rewrite length_replicate. lia.
  - intros i Hi k Hk. destruct i as [|i].
    { cbn -[word_at bit replicate Z.shiftl]. rewrite word_zero_at. exact (bit_top k Hk). }
    do 5 (destruct i as [|i];
      [cbn -[word_at bit replicate]; rewrite word_zero_at; apply bit_zero|]). lia.
  - done.
  - cbn -[Z.of_nat Z.mul Z.to_nat replicate]. rewrite length_replicate. dlia.
  - intros x _. apply bit_zero.
  - rewrite (count_const false); [done|lia|]. intros; apply bit_zero.
Qed.

Lemma hbitmap_alloc_spec : exists hb, hbitmap_alloc size granularity = Ok hb /\
  hb_wf hb /\ hb_size hb = groups /\ hb_granularity hb = granularity /\
  forall x, hbit hb x = false.
Proof.
  pose proof groups_nonneg as Hn. assert (0 < 2 ^ granularity) as Hp by lia.
  unfold hbitmap_alloc. destruct (Z.leb_spec 0 granularity), (Z.ltb_spec granularity 64); try lia.
  cbn [andb c_assert res_bind]. rewrite Z.shiftl_1_l, (uwrap_small 64 (size + _)), uwrap_small by lia.
  rewrite Z.shiftr_div_pow2 by lia. fold groups.
  destruct (Z.leb_spec groups (Z.shiftl 1 HBITMAP_LOG_MAX_SIZE)) as [_|G];
    [|rewrite Z.shiftl_1_l in G; unfold HBITMAP_LOG_MAX_SIZE in G; lia]. cbn [c_assert res_bind].
  destruct alloc_levels_sizes as (s1 & s2 & s3 & s4 & s5 & s6 & Hss & ->).
  cbn [Z.eqb Pos.eqb c_assert res_bind].
  eexists. split; [reflexivity|]. split; [by apply alloc_wf|].
  split; [done|]. split; [done|]. intros x. apply bit_zero.
Qed.
End Alloc.

(** ** Claims *)

(** A bitmap allocated for [size] elements at a granularity is well
    formed, has one bit per group of [2^granularity] elements and every bit is
    clear; the final assertion on the number of top-level words cannot fail. *)
Theorem hbitmap_alloc_correct size granularity :
  0 <= size -> 0 <= granularity < 64 -> size + 2 ^ granularity < 2 ^ 64 ->
  groups size granularity <= 2 ^ 41 ->
  exists hb, hbitmap_alloc size granularity = Ok hb /\ hb_wf hb /\
    hb_size hb = groups size granularity /\ hb_granularity hb = granularity /\
    hbitmap_empty hb = true /\ forall x, hbit hb x = false.
Proof.
  intros Hs Hg Hov Hm. destruct (hbitmap_alloc_spec size granularity Hs Hg Hov Hm)
    as (hb & E & W & Es & Eg & B). exists hb. split; [done|]. split; [done|]. split; [done|].
  split; [done|]. split; [|done]. unfold hbitmap_empty. rewrite (wf_count _ W).
  rewrite (count_const false); [done| |auto]. pose proof (wf_size _ W). lia.
Qed.

Lemma hbitmap_alloc_witness : exists hb, hbitmap_alloc 10000 4 = Ok hb /\ hb_size hb = 625.
Proof.
  destruct (hbitmap_alloc_correct 10000 4) as (hb & E & _ & S & _); [lia|lia|lia|vm_compute; done|].
  exists hb. split; [exact E|]. rewrite S. reflexivity.
Defined.

(** C35: [hbitmap_set] and [hbitmap_reset] on a range inside a well-formed
    bitmap succeed, keep the invariant (the summary levels agree with the
    bottom one, the sentinel survives and the cached count is the number of set
    bits), and change exactly the groups the range touches. *)
Theorem hbitmap_update_correct hb start count :
  hb_wf hb -> 0 <= start -> 0 < count -> start + count <= 2 ^ 64 ->
  let first := Z.shiftr start (hb_granularity hb) in
  let last := Z.shiftr (start + count - 1) (hb_granularity hb) in
  last < hb_size hb ->
  (exists hb', hbitmap_set hb start count = Ok hb' /\ hb_updated true first last hb hb') /\
  (exists hb', hbitmap_reset hb start count = Ok hb' /\ hb_updated false first last hb hb').
Proof. intros. split; [apply hbitmap_set_spec|apply hbitmap_reset_spec]; done. Qed.

Lemma hbitmap_update_witness :
  exists hb hb', hbitmap_alloc 10000 4 = Ok hb /\ hbitmap_set hb 1000 3000 = Ok hb' /\
    hbitmap_get hb' 2000 = Ok true.
Proof.
  destruct (hbitmap_alloc_spec 10000 4) as (hb & E & W & S & G & _); [lia|lia|lia|vm_compute; done|].
  destruct (hbitmap_update_correct hb 1000 3000 W) as [(hb' & E' & W' & S' & G' & B) _];
    [lia|lia|lia|rewrite S, G; vm_compute; done|].
  exists hb, hb'. split; [exact E|]. split; [exact E'|].
  rewrite hbitmap_get_spec; [|exact W'|lia|rewrite S', S, G', G; vm_compute; reflexivity].
  rewrite B, G', G by (apply Z.shiftr_nonneg; lia). reflexivity.
Defined.

(** C9: [hbitmap_get] reads the bit of the element's group and
    [hbitmap_count] is the number of set groups, scaled. *)
Theorem hbitmap_query_correct hb item :
  hb_wf hb -> 0 <= item -> Z.shiftr item (hb_granularity hb) < hb_size hb ->
  hbitmap_get hb item = Ok (hbit hb (Z.shiftr item (hb_granularity hb))) /\
  hbitmap_count hb = u64 (count_range (hbit hb) 0 (hb_size hb) * 2 ^ hb_granularity hb).
Proof.
  intros W Hi Hlt. split; [by apply hbitmap_get_spec|].
  unfold hbitmap_count. pose proof (wf_granularity _ W).
  by rewrite (wf_count _ W), Z.shiftl_mul_pow2 by lia.
Qed.

Lemma hbitmap_query_witness :
  exists hb, hbitmap_alloc 10000 4 = Ok hb /\ hbitmap_get hb 77 = Ok false.
Proof.
  destruct (hbitmap_alloc_spec 10000 4) as (hb & E & W & S & G & B); [lia|lia|lia|vm_compute; done|].
  exists hb. split; [exact E|].
  rewrite (proj1 (hbitmap_query_correct hb 77 W ltac:(lia) ltac:(rewrite S, G; vm_compute; reflexivity))).
  by rewrite B.
Defined.

(** Iteration.  [hbitmap_iter_init] at a valid position gives an iterator
    that stands there; [hbitmap_iter_next] on an iterator that stands before
    [x] returns the first set group at or after [x] (scaled back to an element)
    and then stands after it, or -1 when there is none, without touching memory
    outside the levels and without tripping its assertions. *)
Theorem hbitmap_iter_correct hb :
  hb_wf hb ->
  (forall x, 0 <= x < hb_size hb -> x * 2 ^ hb_granularity hb < 2 ^ 64 ->
     exists it, hbitmap_iter_init hb (x * 2 ^ hb_granularity hb) = Ok it /\ iter_at hb it x) /\
  (forall it x, iter_at hb it x ->
     exists r it', hbitmap_iter_next hb it = Ok (r, it') /\
       ((r = -1 /\ iter_at hb it' x /\ forall y, x <= y -> hbit hb y = false) \/
        exists y, x <= y /\ hbit hb y = true /\ (forall z, x <= z < y -> hbit hb z = false) /\
          r = s64 (Z.shiftl y (hb_granularity hb)) /\ iter_at hb it' (y + 1))).
Proof.
  intros W. split.
  - intros x Hx Hov. pose proof (wf_granularity _ W).
    destruct (iter_init_spec hb W x Hx Hov) as (it & E & Hat). exists it. split; [|done].
    rewrite <- E, Z.shiftl_mul_pow2, uwrap_small by (lia || nia). done.
  - intros it x Hat. by apply iter_next_spec.
Qed.

Lemma hbitmap_iter_witness :
  exists hb it, hbitmap_alloc 10000 4 = Ok hb /\ hbitmap_iter_init hb 48 = Ok it /\ iter_at hb it 3.
Proof.
  destruct (hbitmap_alloc_spec 10000 4) as (hb & E & W & S & G & _); [lia|lia|lia|vm_compute; done|].
  destruct (proj1 (hbitmap_iter_correct hb W) 3) as (it & Ei & Hat);
    [rewrite S; vm_compute; split; done|rewrite G; vm_compute; reflexivity|].
  rewrite G in Ei. exists hb, it. split; [exact E|]. split; [exact Ei|exact Hat].
Defined.
