(* ===== verification/Xbzrle.v ===== *)
(** * XBZRLE page compression

    [xbzrle.c] encodes the difference between two versions of a page as runs
    of unchanged bytes and runs of new bytes, each with a ULEB128 length of at
    most 14 bits ([uleb128_encode_small] of [util/cutils.c]); the decoder
    applies the difference to the old page.  Buffers are lists of bytes, and
    the word-at-a-time loops read eight bytes as a little-endian [long]. *)

From stdpp Require Import base list numbers.
From S2P Require Import Prelude.

(** ** ULEB128 *)

(** The number of bytes written, and the buffer. *)
Definition uleb128_encode_small (out : list Z) (pos n : Z) : res (Z * list Z) :=
  let* _ := c_assert (n <=? 0x3fff) in
  if n <? 0x80 then
    let* out := aset out pos (u8 n) in Ok (1, out)
  else
    let* out := aset out pos (u8 (Z.lor (Z.land n 0x7f) 0x80)) in
    let* out := aset out (pos + 1) (u8 (Z.shiftr n 7)) in
    Ok (2, out).

(** The number of bytes read (or -1), and the value. *)
Definition uleb128_decode_small (src : list Z) (pos : Z) : res (Z * Z) :=
  let* b := aget src pos in
  if Z.land b 0x80 =? 0 then Ok (1, b)
  else
    let n := Z.land b 0x7f in
    let* b := aget src (pos + 1) in
    if negb (Z.land b 0x80 =? 0) then Ok (-1, n)
    else Ok (2, Z.lor n (Z.shiftl b 7)).

(** ** Encoder *)

Definition sizeof_long : Z := 8.

(** The bits of the [long] at [buf + i]. *)
Definition load_long (buf : list Z) (i : Z) : res Z :=
  for_loop 8 0 (fun k acc => let* b := aget buf (i + k) in Ok (acc + b * 256 ^ k)) 0.

Section Encode.
Context (old_buf new_buf : list Z) (slen : Z).

(** [while (res && (old_buf[i] == new_buf[i]) == same)], with the run length
    counted along. *)
Fixpoint run_prefix (same : bool) (fuel : nat) (res_ i run_len : Z) : res (Z * Z * Z) :=
  match fuel with
  | O => Err OutOfFuel
  | S fuel =>
      if res_ =? 0 then Ok (res_, i, run_len) else
      let* a := aget old_buf i in
      let* b := aget new_buf i in
      if Bool.eqb (a =? b) same then run_prefix same fuel (res_ - 1) (i + 1) (run_len + 1)
      else Ok (res_, i, run_len)
  end.

(** The word loop of the zero run. *)
Fixpoint zrun_words (fuel : nat) (i zrun_len : Z) : res (Z * Z) :=
  match fuel with
  | O => Err OutOfFuel
  | S fuel =>
      if i <? slen then
        let* a := load_long old_buf i in
        let* b := load_long new_buf i in
        if a =? b then zrun_words fuel (i + sizeof_long) (zrun_len + sizeof_long) else Ok (i, zrun_len)
      else Ok (i, zrun_len)
  end.

(** "go over the rest" *)
Fixpoint zrun_rest (fuel : nat) (i zrun_len : Z) : res (Z * Z) :=
  match fuel with
  | O => Err OutOfFuel
  | S fuel =>
      if i <? slen then
        let* a := aget old_buf i in
        let* b := aget new_buf i in
        if a =? b then zrun_rest fuel (i + 1) (zrun_len + 1) else Ok (i, zrun_len)
      else Ok (i, zrun_len)
  end.

Definition zrun (i : Z) : res (Z * Z) :=
  let fuel := S (Z.to_nat slen) in
  let* (res_, i, zrun_len) := run_prefix true fuel ((slen - i) mod sizeof_long) i 0 in
  if res_ =? 0 then
    let* (i, zrun_len) := zrun_words fuel i zrun_len in zrun_rest fuel i zrun_len
  else Ok (i, zrun_len).

(** [while (old_buf[i] != new_buf[i])], inside a word. *)
Fixpoint nzrun_tail (fuel : nat) (i nzrun_len : Z) : res (Z * Z) :=
  match fuel with
  | O => Err OutOfFuel
  | S fuel =>
      let* a := aget old_buf i in
      let* b := aget new_buf i in
      if a =? b then Ok (i, nzrun_len) else nzrun_tail fuel (i + 1) (nzrun_len + 1)
  end.

Definition mask : Z := 0x0101010101010101.
(** [(xor - mask) & ~xor & (mask << 7)], as a 64-bit word. *)
Definition zero_byte (xor : Z) : Z :=
  Z.land (Z.land (u64 (xor - mask)) (Z.lxor xor (Z.ones 64))) (Z.shiftl mask 7).

Fixpoint nzrun_words (fuel : nat) (i nzrun_len : Z) : res (Z * Z) :=
  match fuel with
  | O => Err OutOfFuel
  | S fuel' =>
      if i <? slen then
        let* a := load_long old_buf i in
        let* b := load_long new_buf i in
        let xor := Z.lxor a b in
        if negb (zero_byte xor =? 0) then nzrun_tail (S (Z.to_nat slen)) i nzrun_len
        else nzrun_words fuel' (i + sizeof_long) (nzrun_len + sizeof_long)
      else Ok (i, nzrun_len)
  end.

Definition nzrun (i : Z) : res (Z * Z) :=
  let fuel := S (Z.to_nat slen) in
  let* (res_, i, nzrun_len) := run_prefix false fuel ((slen - i) mod sizeof_long) i 0 in
  if res_ =? 0 then nzrun_words fuel i nzrun_len else Ok (i, nzrun_len).

(** The outer loop: the return value and the destination. *)
Fixpoint encode_loop (fuel : nat) (dlen d i : Z) (dst : list Z) : res (Z * list Z) :=
  match fuel with
  | O => Err OutOfFuel
  | S fuel =>
      if negb (i <? slen) then Ok (d, dst) else
      if dlen <? d + 2 then Ok (-1, dst) else
      let* (i, zrun_len) := zrun i in
      if zrun_len =? slen then Ok (0, dst) else
      if i =? slen then Ok (d, dst) else
      let* (n, dst) := uleb128_encode_small dst d zrun_len in
      let d := d + n in
      let nzrun_start := i in
      if dlen <? d + 2 then Ok (-1, dst) else
      let* (i, nzrun_len) := nzrun i in
      let* (n, dst) := uleb128_encode_small dst d nzrun_len in
      let d := d + n in
      if dlen <? u32 (d + nzrun_len) then Ok (-1, dst) else
      let* dst := memcpy dst d new_buf nzrun_start nzrun_len in
      encode_loop fuel dlen (d + nzrun_len) i dst
  end.
End Encode.

(** The buffers are aligned; [slen] must be a multiple of the word size. *)
Definition xbzrle_encode_buffer (old_buf new_buf : list Z) (slen : Z) (dst : list Z) (dlen : Z) :
    res (Z * list Z) :=
  let* _ := c_assert (slen mod sizeof_long =? 0) in
  encode_loop old_buf new_buf slen (S (Z.to_nat slen)) dlen 0 0 dst.

(** ** Decoder *)

Fixpoint decode_loop (fuel : nat) (src : list Z) (slen dlen i d : Z) (dst : list Z) : res (Z * list Z) :=
  match fuel with
  | O => Err OutOfFuel
  | S fuel =>
      if negb (i <? slen) then Ok (d, dst) else
      if slen - i <? 2 then Ok (-1, dst) else
      let* (ret, count) := uleb128_decode_small src i in
      if (ret <? 0) || (negb (i =? 0) && (count =? 0)) then Ok (-1, dst) else
      let i := i + ret in
      let d := d + count in
      if dlen <? d then Ok (-1, dst) else
      if slen - i <? 2 then Ok (-1, dst) else
      let* (ret, count) := uleb128_decode_small src i in
      if (ret <? 0) || (count =? 0) then Ok (-1, dst) else
      let i := i + ret in
      if (dlen <? u32 (d + count)) || (slen <? u32 (i + count)) then Ok (-1, dst) else
      let* dst := memcpy dst d src i count in
      decode_loop fuel src slen dlen (i + count) (d + count) dst
  end.

Definition xbzrle_decode_buffer (src : list Z) (slen : Z) (dst : list Z) (dlen : Z) : res (Z * list Z) :=
  decode_loop (S (Z.to_nat slen)) src slen dlen 0 0 dst.

(** ** The words *)

Definition bytes (l : list Z) : Prop := Forall (fun b => 0 <= b < 256) l.
