(* ===== verification/XbzrleFacts.v ===== *)
(** * XBZRLE: the claims

    The word-at-a-time loops find the same runs as a byte-wise scan; decoding
    an encoded difference restores the new page; and the decoder stays inside
    its buffers on any input. *)

From stdpp Require Import base list numbers.
From S2P Require Import Prelude Xbzrle.

Lemma Ok_pair {A B} (a a' : A) (b b' : B) : a = a' -> b = b' -> Ok (a, b) = Ok (a', b').
Proof. by intros -> ->. Qed.
Lemma Ok_triple {A B C} (a a' : A) (b b' : B) (c c' : C) : a = a' -> b = b' -> c = c' -> Ok (a, b, c) = Ok (a', b', c').
Proof. by intros -> -> ->. Qed.

(** ** Words *)

Fixpoint le (l : list Z) : Z :=
  match l with [] => 0 | b :: l => le l * 2 ^ 8 + b end.

Lemma le_range l : bytes l -> 0 <= le l < 2 ^ (8 * Z.of_nat (length l)).
Proof.
  induction 1 as [|b l Hb Hl IH]; [done|]. cbn [le length].
  rewrite Nat2Z.inj_succ, Z.mul_succ_r, Z.pow_add_r by lia. lia.
Qed.

Lemma le_testbit b l i : 0 <= b < 256 -> 0 <= i ->
  Z.testbit (le (b :: l)) i = if i <? 8 then Z.testbit b i else Z.testbit (le l) (i - 8).
Proof. intros Hb Hi. cbn [le]. apply (concat_testbit (le l) b 8); lia. Qed.

Lemma le_inj l l' : bytes l -> bytes l' -> length l = length l' -> le l = le l' -> l = l'.
Proof.
  intros H. revert l'. induction H as [|b l Hb Hl IH]; intros [|b' l'] H' L E; try done.
  inversion H'; subst. cbn [le] in E. assert (b = b') as -> by lia. f_equal. apply IH; [done|by injection L|lia].
Qed.

Lemma le_xor l : forall l', bytes l -> bytes l' -> length l = length l' ->
  Z.lxor (le l) (le l') = le (zip_with Z.lxor l l') /\ bytes (zip_with Z.lxor l l').
Proof.
  induction l as [|b l IH]; intros [|b' l'] H H' L; try done.
  inversion H; inversion H'; subst. destruct (IH l') as [E B]; [done|done|by injection L|].
  assert (0 <= Z.lxor b b' < 2 ^ 8) as Hx by (apply lxor_range; lia). cbn [zip_with]. split; [|by constructor].
  apply Z.bits_inj'. intros i Hi. rewrite Z.lxor_spec, !le_testbit by (done || lia).
  destruct (i <? 8); [by rewrite Z.lxor_spec|]. by rewrite <- Z.lxor_spec, E.
Qed.

(** [mask] for [n] bytes. *)
Fixpoint mask_n (n : nat) : Z := match n with O => 0 | S n => mask_n n * 2 ^ 8 + 1 end.

(** Bit 7 of byte [k] is set by the subtraction. *)
Definition borrowed (n : nat) (x : Z) : Prop :=
  exists k, 0 <= k < Z.of_nat n /\ Z.testbit (x - mask_n n) (8 * k + 7) = true /\ Z.testbit x (8 * k + 7) = false.

Lemma borrowed_zero l : bytes l -> borrowed (length l) (le l) <-> exists j, l !! j = Some 0.
Proof.
  induction 1 as [|b l Hb Hl IH].
  { split; [intros (k & Hk & _); cbn in Hk; lia|]. intros [j Hj]. done. }
  cbn [length]. destruct (Z.eq_dec b 0) as [->|Nb].
  - split; [by exists O|]. intros _. exists 0. split; [lia|]. split.
    + cbn [le mask_n].
      replace (le l * 2 ^ 8 + 0 - (mask_n (length l) * 2 ^ 8 + 1))
        with ((le l - mask_n (length l) - 1) * 2 ^ 8 + 255) by lia.
      by rewrite (concat_testbit _ 255 8).
    + by rewrite le_testbit.
  - assert (forall k, 0 <= k -> Z.testbit (le (b :: l) - mask_n (S (length l))) (8 * (k + 1) + 7) =
      Z.testbit (le l - mask_n (length l)) (8 * k + 7)) as Hi.
    { intros k Hk. cbn [le mask_n].
      replace (le l * 2 ^ 8 + b - (mask_n (length l) * 2 ^ 8 + 1))
        with ((le l - mask_n (length l)) * 2 ^ 8 + (b - 1)) by lia.
      rewrite (concat_testbit _ (b - 1) 8) by lia. destruct (Z.ltb_spec (8 * (k + 1) + 7) 8); [lia|]. f_equal. lia. }
    assert (forall k, 0 <= k -> Z.testbit (le (b :: l)) (8 * (k + 1) + 7) = Z.testbit (le l) (8 * k + 7)) as Hj.
    { intros k Hk. rewrite le_testbit by lia. destruct (Z.ltb_spec (8 * (k + 1) + 7) 8); [lia|]. f_equal. lia. }
    split.
    + intros (k & Hk & T & F). destruct (Z.eq_dec k 0) as [->|].
      * exfalso. cbn [le mask_n] in T.
        replace (le l * 2 ^ 8 + b - (mask_n (length l) * 2 ^ 8 + 1))
          with ((le l - mask_n (length l)) * 2 ^ 8 + (b - 1)) in T by lia.
        rewrite (concat_testbit _ (b - 1) 8) in T by lia. rewrite le_testbit in F by lia.
        cbn [Z.ltb Z.compare] in *. change (8 * 0 + 7) with 7 in *. change (7 <? 8) with true in *. cbv iota in *.
        assert (128 <= b - 1).
        { destruct (Z.lt_ge_cases (b - 1) 128); [|done]. rewrite (testbit_high (b - 1) 7) in T by lia. done. }
        assert (Z.testbit b 7 = true) as F'.
        { rewrite Z.testbit_true by lia. replace (b / 2 ^ 7) with 1 by dlia. done. }
        congruence.
      * destruct (proj1 IH) as [j Ej]; [|by exists (S j)]. exists (k - 1). split; [lia|].
        rewrite <- Hi, <- Hj by lia. replace (k - 1 + 1) with k by lia. done.
    + intros [[|j] Ej]; [cbn in Ej; congruence|]. destruct (proj2 IH) as (k & Hk & T & F); [by exists j|].
      exists (k + 1). split; [lia|]. rewrite Hi, Hj by lia. done.
Qed.

Lemma mask_bits i : 0 <= i -> Z.testbit (Z.shiftl mask 7) i = (i mod 8 =? 7) && (i <? 64).
Proof.
  intros Hi. destruct (Z.ltb_spec i 64).
  - rewrite andb_true_r.
    assert (forallb (fun i => Bool.eqb (Z.testbit (Z.shiftl mask 7) i) (i mod 8 =? 7)) (seqZ 0 64) = true) as F
      by (vm_compute; reflexivity).
    rewrite forallb_forall in F. apply Bool.eqb_prop, F, list_elem_of_In, elem_of_seqZ. lia.
  - rewrite andb_false_r. apply (testbit_high _ 64); [|lia]. by vm_compute.
Qed.

(** The test finds a zero byte. *)
Lemma zero_byte_spec l : bytes l -> length l = 8%nat -> zero_byte (le l) <> 0 <-> exists j, l !! j = Some 0.
Proof.
  intros H L. pose proof (le_range l H) as R. rewrite L in R. rewrite <- (borrowed_zero l H), L.
  set (x := le l) in *. change (8 * Z.of_nat 8) with 64 in R.
  assert (forall i, 0 <= i -> Z.testbit (zero_byte x) i =
    (i mod 8 =? 7) && (i <? 64) && Z.testbit (x - mask) i && negb (Z.testbit x i)) as B.
  { intros i Hi. unfold zero_byte. rewrite !Z.land_spec, Z.lxor_spec, mask_bits, uwrap_testbit, ones_testbit by lia.
    destruct (i <? 64); cbn [andb]; [|by rewrite !andb_false_r].
    destruct (Z.testbit x i), (Z.testbit (x - mask) i), (i mod 8 =? 7); done. }
  unfold borrowed. change (mask_n 8) with mask. split.
  - intros Nz. destruct (Z.eq_dec (zero_byte x) 0); [done|].
    assert (0 <= zero_byte x) as Pz by (unfold zero_byte; apply Z.land_nonneg; right; done).
    pose proof (Z.bit_log2 (zero_byte x) ltac:(lia)) as T. set (i := Z.log2 (zero_byte x)) in *.
    assert (0 <= i) as Hi by apply Z.log2_nonneg. rewrite B in T by done.
    repeat (apply andb_true_iff in T as [T ?]). exists (i / 8).
    assert (8 * (i / 8) + 7 = i) as -> by dlia. split; [dlia|].
    split; [done|]. by apply negb_true_iff.
  - intros (k & Hk & T & F) Z0. pose proof (B (8 * k + 7) ltac:(lia)) as Bk. rewrite Z0, Z.testbit_0_l, T, F in Bk.
    replace ((8 * k + 7) mod 8) with 7 in Bk by dlia.
    destruct (Z.ltb_spec (8 * k + 7) 64); [done|lia].
Qed.

(** ** Runs *)

Definition word (buf : list Z) (i : Z) : list Z := take 8 (drop (Z.to_nat i) buf).

Lemma word_length buf i : 0 <= i -> i + 8 <= Z.of_nat (length buf) -> length (word buf i) = 8%nat.
Proof. intros. unfold word. rewrite length_take, length_drop. lia. Qed.

Lemma word_lookup buf i k : 0 <= i -> (k < 8)%nat -> word buf i !! k = buf !! Z.to_nat (i + Z.of_nat k).
Proof.
  intros. unfold word. rewrite lookup_take_lt, lookup_drop by lia. f_equal. lia.
Qed.

Lemma word_bytes buf i : bytes buf -> bytes (word buf i).
Proof. intros. by apply Forall_take, Forall_drop. Qed.

Lemma load_long_le buf i : 0 <= i -> i + 8 <= Z.of_nat (length buf) -> load_long buf i = Ok (le (word buf i)).
Proof.
  intros Hi Hl. pose proof (word_length buf i Hi Hl) as L.
  assert (forall k b, word buf i !! k = Some b -> aget buf (i + Z.of_nat k) = Ok b) as G.
  { intros k b E. apply aget_Ok. split; [lia|]. rewrite <- word_lookup; [done|done|].
    apply lookup_lt_Some in E. lia. }
  destruct (word buf i) as [|b0 [|b1 [|b2 [|b3 [|b4 [|b5 [|b6 [|b7 [|]]]]]]]]]; try done.
  unfold load_long. cbn [for_loop]. change (0 + 1) with 1. change (1 + 1) with 2. change (2 + 1) with 3.
  change (3 + 1) with 4. change (4 + 1) with 5. change (5 + 1) with 6. change (6 + 1) with 7.
  pose proof (G 0%nat b0 eq_refl) as G0. pose proof (G 1%nat b1 eq_refl) as G1.
  pose proof (G 2%nat b2 eq_refl) as G2. pose proof (G 3%nat b3 eq_refl) as G3.
  pose proof (G 4%nat b4 eq_refl) as G4. pose proof (G 5%nat b5 eq_refl) as G5.
  pose proof (G 6%nat b6 eq_refl) as G6. pose proof (G 7%nat b7 eq_refl) as G7.
  change (Z.of_nat 0) with 0 in G0. change (Z.of_nat 1) with 1 in G1. change (Z.of_nat 2) with 2 in G2.
  change (Z.of_nat 3) with 3 in G3. change (Z.of_nat 4) with 4 in G4. change (Z.of_nat 5) with 5 in G5.
  change (Z.of_nat 6) with 6 in G6. change (Z.of_nat 7) with 7 in G7. rewrite G0, G1, G2, G3, G4, G5, G6, G7.
  cbn [res_bind le]. f_equal. lia.
Qed.

Section Runs.
Context (old new : list Z) (slen : Z).
Context (Lo : Z.of_nat (length old) = slen) (Ln : Z.of_nat (length new) = slen).
Context (Bo : bytes old) (Bn : bytes new).

Definition ob (j : Z) : Z := default 0 (old !! Z.to_nat j).
Definition nbyte (j : Z) : Z := default 0 (new !! Z.to_nat j).
(** Whether byte [j] is unchanged. *)
Definition unchanged (j : Z) : bool := ob j =? nbyte j.

Lemma get_old j : 0 <= j < slen -> aget old j = Ok (ob j).
Proof.
  intros Hj. destruct (aget_total old j ltac:(lia)) as [x E]. rewrite E. apply aget_Ok in E as [_ E].
  unfold ob. by rewrite E.
Qed.
Lemma get_new j : 0 <= j < slen -> aget new j = Ok (nbyte j).
Proof.
  intros Hj. destruct (aget_total new j ltac:(lia)) as [x E]. rewrite E. apply aget_Ok in E as [_ E].
  unfold nbyte. by rewrite E.
Qed.

(** The bytes from [i] to [j] are all (un)changed. *)
Definition all_run (same : bool) (i j : Z) : Prop := forall k, i <= k < j -> unchanged k = same.

Lemma all_run_cons same i j : unchanged i = same -> all_run same (i + 1) j -> all_run same i j.
Proof. intros H1 H2 k Hk. destruct (Z.eq_dec k i) as [->|]; [done|apply H2; lia]. Qed.
Lemma all_run_app same i j k : all_run same i j -> all_run same j k -> all_run same i k.
Proof. intros H1 H2 m Hm. destruct (Z.lt_ge_cases m j); [apply H1; lia|apply H2; lia]. Qed.

Lemma run_prefix_spec same fuel : forall res_ i n, 0 <= i -> 0 <= res_ < Z.of_nat fuel -> i + res_ <= slen ->
  exists i', run_prefix old new same fuel res_ i n = Ok (res_ - (i' - i), i', n + (i' - i)) /\
    i <= i' <= i + res_ /\ all_run same i i' /\ (i' = i + res_ \/ unchanged i' <> same).
Proof.
  induction fuel as [|fuel IH]; intros res_ i n Hi Hr Hs; [lia|]. cbn [run_prefix].
  destruct (Z.eqb_spec res_ 0) as [->|Nz].
  { exists i. split; [apply Ok_triple; lia|]. split; [lia|]. split; [intros ??; lia|left; lia]. }
  rewrite get_old, get_new by lia. cbn [res_bind].
  change (ob i =? nbyte i) with (unchanged i).
  destruct (Bool.eqb (unchanged i) same) eqn:E.
  - apply Bool.eqb_prop in E. destruct (IH (res_ - 1) (i + 1) (n + 1)) as (i' & -> & R & A & O); [lia|lia|lia|].
    exists i'. split; [apply Ok_triple; lia|]. split; [lia|]. split; [by apply all_run_cons|].
    destruct O; [left; lia|by right].
  - exists i. split; [apply Ok_triple; lia|]. split; [lia|]. split; [intros ??; lia|right].
    by apply Bool.eqb_false_iff.
Qed.

Lemma word_same i : 0 <= i -> i + 8 <= slen ->
  le (word old i) = le (word new i) <-> all_run true i (i + 8).
Proof.
  intros Hi Hs. split.
  - intros E. apply le_inj in E; [|by apply word_bytes..|rewrite !word_length by lia; done].
    intros k Hk. unfold unchanged, ob, nbyte. apply Z.eqb_eq.
    replace k with (i + Z.of_nat (Z.to_nat (k - i))) by lia.
    rewrite <- !word_lookup by lia. by rewrite E.
  - intros A. f_equal. apply list_eq. intros k. destruct (decide (k < 8)%nat) as [Hk|Hk].
    + rewrite !word_lookup by lia. pose proof (A (i + Z.of_nat k) ltac:(lia)) as E.
      apply Z.eqb_eq in E. unfold ob, nbyte in E.
      destruct (lookup_lt_is_Some_2 old (Z.to_nat (i + Z.of_nat k))) as [x Ex]; [lia|].
      destruct (lookup_lt_is_Some_2 new (Z.to_nat (i + Z.of_nat k))) as [y Ey]; [lia|].
      rewrite Ex, Ey in *. cbn in E. congruence.
    + rewrite !lookup_ge_None_2; [done|rewrite word_length; lia..].
Qed.

Lemma zrun_words_spec fuel : forall i n, 0 <= i <= slen -> (slen - i) mod 8 = 0 -> slen - i < Z.of_nat fuel ->
  exists i', zrun_words old new slen fuel i n = Ok (i', n + (i' - i)) /\ i <= i' <= slen /\ all_run true i i'.
Proof.
  induction fuel as [|fuel IH]; intros i n Hi Hm Hf; [lia|]. cbn [zrun_words].
  destruct (Z.ltb_spec i slen) as [Lt|Ge].
  2: { exists i. split; [apply Ok_pair; lia|]. split; [lia|]. intros ??; lia. }
  assert (i + 8 <= slen) by dlia. rewrite !load_long_le by lia. cbn [res_bind].
  destruct (Z.eqb_spec (le (word old i)) (le (word new i))) as [E|E].
  - apply word_same in E; [|lia|lia]. unfold sizeof_long.
    destruct (IH (i + 8) (n + 8)) as (i' & -> & R & A); [lia|dlia|lia|].
    exists i'. split; [apply Ok_pair; lia|]. split; [lia|]. by eapply all_run_app.
  - exists i. split; [apply Ok_pair; lia|]. split; [lia|]. intros ??; lia.
Qed.

Lemma zrun_rest_spec fuel : forall i n, 0 <= i <= slen -> slen - i < Z.of_nat fuel ->
  exists i', zrun_rest old new slen fuel i n = Ok (i', n + (i' - i)) /\ i <= i' <= slen /\ all_run true i i' /\
    (i' = slen \/ unchanged i' = false).
Proof.
  induction fuel as [|fuel IH]; intros i n Hi Hf; [lia|]. cbn [zrun_rest].
  destruct (Z.ltb_spec i slen) as [Lt|Ge].
  2: { exists i. split; [apply Ok_pair; lia|]. split; [lia|]. split; [intros ??; lia|left; lia]. }
  rewrite get_old, get_new by lia. cbn [res_bind]. change (ob i =? nbyte i) with (unchanged i).
  destruct (unchanged i) eqn:E.
  - destruct (IH (i + 1) (n + 1)) as (i' & -> & R & A & O); [lia|lia|].
    exists i'. split; [apply Ok_pair; lia|]. split; [lia|]. split; [by apply all_run_cons|done].
  - exists i. split; [apply Ok_pair; lia|]. split; [lia|]. split; [intros ??; lia|by right].
Qed.

(** The zero run ends at the first changed byte. *)
Lemma zrun_spec i : 0 <= i <= slen ->
  exists i', zrun old new slen i = Ok (i', i' - i) /\ i <= i' <= slen /\ all_run true i i' /\
    (i' = slen \/ unchanged i' = false).
Proof.
  intros Hi. unfold zrun. cbv zeta. unfold sizeof_long.
  assert (0 <= (slen - i) mod 8 <= slen - i) by dlia.
  destruct (run_prefix_spec true (S (Z.to_nat slen)) ((slen - i) mod 8) i 0) as (i1 & -> & R1 & A1 & O1);
    [lia|lia|lia|]. cbn [res_bind].
  destruct (Z.eqb_spec ((slen - i) mod 8 - (i1 - i)) 0).
  - destruct (zrun_words_spec (S (Z.to_nat slen)) i1 (0 + (i1 - i))) as (i2 & -> & R2 & A2); [lia|dlia|lia|].
    cbn [res_bind].
    destruct (zrun_rest_spec (S (Z.to_nat slen)) i2 (0 + (i1 - i) + (i2 - i1))) as (i3 & -> & R3 & A3 & O3); [lia|lia|].
    exists i3. split; [apply Ok_pair; lia|]. split; [lia|]. split; [|done].
    eapply all_run_app; [|exact A3]. by eapply all_run_app.
  - exists i1. split; [apply Ok_pair; lia|]. split; [lia|]. split; [done|].
    destruct O1 as [?|O1]; [lia|]. right. by destruct (unchanged i1).
Qed.

Lemma nzrun_tail_spec fuel : forall i n k, 0 <= i -> i <= k < slen -> unchanged k = true -> k - i < Z.of_nat fuel ->
  exists i', nzrun_tail old new fuel i n = Ok (i', n + (i' - i)) /\ i <= i' <= k /\ all_run false i i' /\
    unchanged i' = true.
Proof.
  induction fuel as [|fuel IH]; intros i n k Hi Hk Uk Hf; [lia|]. cbn [nzrun_tail].
  rewrite get_old, get_new by lia. cbn [res_bind]. change (ob i =? nbyte i) with (unchanged i).
  destruct (unchanged i) eqn:E.
  - exists i. split; [apply Ok_pair; lia|]. split; [lia|]. split; [intros ??; lia|done].
  - assert (i <> k) by congruence.
    destruct (IH (i + 1) (n + 1) k) as (i' & -> & R & A & O); [lia|lia|done|lia|].
    exists i'. split; [apply Ok_pair; lia|]. split; [lia|]. split; [by apply all_run_cons|done].
Qed.

(** The test on a word. *)
Lemma word_unchanged i : 0 <= i -> i + 8 <= slen ->
  zero_byte (Z.lxor (le (word old i)) (le (word new i))) <> 0 <-> exists k, i <= k < i + 8 /\ unchanged k = true.
Proof.
  intros Hi Hs. pose proof (word_length old i Hi ltac:(lia)) as L1. pose proof (word_length new i Hi ltac:(lia)) as L2.
  destruct (le_xor (word old i) (word new i)) as [-> Bx]; [by apply word_bytes..|congruence|].
  rewrite zero_byte_spec; [|done|rewrite length_zip_with; lia].
  assert (forall j, (j < 8)%nat -> zip_with Z.lxor (word old i) (word new i) !! j =
    Some (Z.lxor (ob (i + Z.of_nat j)) (nbyte (i + Z.of_nat j)))) as Lk.
  { intros j Hj. rewrite lookup_zip_with, !word_lookup by lia.
    destruct (lookup_lt_is_Some_2 old (Z.to_nat (i + Z.of_nat j))) as [x Ex]; [lia|].
    destruct (lookup_lt_is_Some_2 new (Z.to_nat (i + Z.of_nat j))) as [y Ey]; [lia|].
    unfold ob, nbyte. by rewrite Ex, Ey. }
  split.
  - intros [j Ej]. assert (j < 8)%nat as Hj.
    { apply lookup_lt_Some in Ej. rewrite length_zip_with in Ej. lia. }
    rewrite Lk in Ej by done. injection Ej as Ej. apply Z.lxor_eq in Ej.
    exists (i + Z.of_nat j). split; [lia|]. by apply Z.eqb_eq.
  - intros (k & Hk & U). apply Z.eqb_eq in U. exists (Z.to_nat (k - i)). rewrite Lk by lia.
    replace (i + Z.of_nat (Z.to_nat (k - i))) with k by lia. by rewrite U, Z.lxor_nilpotent.
Qed.

Lemma nzrun_words_spec fuel : forall i n, 0 <= i <= slen -> (slen - i) mod 8 = 0 -> slen - i < Z.of_nat fuel ->
  exists i', nzrun_words old new slen fuel i n = Ok (i', n + (i' - i)) /\ i <= i' <= slen /\ all_run false i i' /\
    (i' = slen \/ unchanged i' = true).
Proof.
  induction fuel as [|fuel IH]; intros i n Hi Hm Hf; [lia|]. cbn [nzrun_words].
  destruct (Z.ltb_spec i slen) as [Lt|Ge].
  2: { exists i. split; [apply Ok_pair; lia|]. split; [lia|]. split; [intros ??; lia|left; lia]. }
  assert (i + 8 <= slen) by dlia. rewrite !load_long_le by lia. cbn [res_bind]. cbv zeta.
  pose proof (word_unchanged i ltac:(lia) ltac:(lia)) as Wz.
  destruct (Z.eqb_spec (zero_byte (Z.lxor (le (word old i)) (le (word new i)))) 0) as [E|E]; cbn [negb].
  - unfold sizeof_long. assert (all_run false i (i + 8)) as A0.
    { intros k Hk. destruct (unchanged k) eqn:U; [|done]. exfalso. apply (proj2 Wz); [by exists k|done]. }
    destruct (IH (i + 8) (n + 8)) as (i' & -> & R & A & O); [lia|dlia|lia|].
    exists i'. split; [apply Ok_pair; lia|]. split; [lia|]. split; [by eapply all_run_app|done].
  - destruct (proj1 Wz E) as (k & Hk & U).
    destruct (nzrun_tail_spec (S (Z.to_nat slen)) i n k) as (i' & -> & R & A & O); [lia|lia|done|lia|].
    exists i'. split; [done|]. split; [lia|]. split; [done|by right].
Qed.

(** The other run ends at the first unchanged byte. *)
Lemma nzrun_spec i : 0 <= i < slen -> unchanged i = false ->
  exists i', nzrun old new slen i = Ok (i', i' - i) /\ i < i' <= slen /\ all_run false i i' /\
    (i' = slen \/ unchanged i' = true).
Proof.
  intros Hi U. unfold nzrun. cbv zeta. unfold sizeof_long.
  assert (0 <= (slen - i) mod 8 <= slen - i) by dlia.
  assert (forall i', i <= i' -> (i' = slen \/ unchanged i' = true) -> i < i') as Adv.
  { intros i' H1 [->|H2]; [lia|]. destruct (Z.eq_dec i' i) as [->|]; [congruence|lia]. }
  destruct (run_prefix_spec false (S (Z.to_nat slen)) ((slen - i) mod 8) i 0) as (i1 & -> & R1 & A1 & O1);
    [lia|lia|lia|]. cbn [res_bind].
  destruct (Z.eqb_spec ((slen - i) mod 8 - (i1 - i)) 0).
  - destruct (nzrun_words_spec (S (Z.to_nat slen)) i1 (0 + (i1 - i))) as (i2 & -> & R2 & A2 & O2); [lia|dlia|lia|].
    exists i2. split; [apply Ok_pair; lia|]. split; [split; [apply Adv; [lia|done]|lia]|].
    split; [by eapply all_run_app|done].
  - destruct O1 as [?|O1]; [lia|]. assert (unchanged i1 = true) as U1 by (by destruct (unchanged i1)).
    exists i1. split; [apply Ok_pair; lia|]. split; [split; [apply Adv; [lia|by right]|lia]|].
    split; [done|by right].
Qed.
End Runs.

(** ** ULEB128 *)

Lemma low7 n : 0 <= n <= 0x3fff -> 0x80 <= n ->
  u8 (Z.lor (Z.land n 0x7f) 0x80) = n mod 128 + 128 /\ u8 (Z.shiftr n 7) = n / 128 /\ 0 <= n / 128 < 128.
Proof.
  intros Hn Hb. change 0x7f with (Z.ones 7). rewrite Z.land_ones, Z.shiftr_div_pow2 by lia.
  change (2 ^ 7) with 128. assert (0 <= n / 128 < 128) by dlia.
  assert (Z.lor (n mod 128) 0x80 = n mod 128 + 128) as ->.
  { rewrite Z.lor_comm. change (Z.lor 0x80 (n mod 128)) with (Z.lor (Z.shiftl 1 7) (n mod 128)).
    rewrite lor_concat by (change (2 ^ 7) with 128; dlia). change (2 ^ 7) with 128. lia. }
  rewrite !uwrap_small by (change (2 ^ 8) with 256; dlia). done.
Qed.

Lemma high_bit b : 0 <= b < 256 -> (Z.land b 0x80 =? 0) = (b <? 128).
Proof.
  intros Hb.
  assert (forallb (fun b => Bool.eqb (Z.land b 0x80 =? 0) (b <? 128)) (seqZ 0 256) = true) as F
    by (vm_compute; reflexivity).
  rewrite forallb_forall in F. apply Bool.eqb_prop, F, list_elem_of_In, elem_of_seqZ. lia.
Qed.

(** A length is read back from any buffer that holds the bytes written. *)
Lemma uleb128_spec out pos n : 0 <= n <= 0x3fff -> 0 <= pos -> pos + 2 <= Z.of_nat (length out) ->
  exists k out', uleb128_encode_small out pos n = Ok (k, out') /\ 1 <= k <= 2 /\ length out' = length out /\
    (forall j, 0 <= j -> ~ pos <= j < pos + k -> byte_at out' j = byte_at out j) /\
    forall src, pos + k <= Z.of_nat (length src) ->
      (forall j, pos <= j < pos + k -> byte_at src j = byte_at out' j) ->
      uleb128_decode_small src pos = Ok (k, n).
Proof.
  intros Hn Hp Hl. unfold uleb128_encode_small. destruct (Z.leb_spec n 0x3fff); [|lia]. cbn [c_assert res_bind].
  destruct (Z.ltb_spec n 0x80) as [Lt|Ge].
  - rewrite aset_total by lia. cbn [res_bind]. eexists 1, _. split; [done|]. split; [lia|].
    split; [by rewrite length_insert|]. split.
    { intros j Hj Hr. rewrite byte_at_insert by lia. destruct (Z.eqb_spec j pos); [lia|done]. }
    intros src Ls Hs. unfold uleb128_decode_small. rewrite byte_at_get by lia. cbn [res_bind].
    rewrite Hs, byte_at_insert, Z.eqb_refl, uwrap_small by (change (2 ^ 8) with 256; lia).
    rewrite high_bit by lia. destruct (Z.ltb_spec n 128); [done|lia].
  - destruct (low7 n Hn Ge) as (-> & -> & Rh). rewrite aset_total by lia. cbn [res_bind].
    rewrite aset_total by (rewrite length_insert; lia). cbn [res_bind]. eexists 2, _. split; [done|].
    split; [lia|]. split; [by rewrite !length_insert|].
    assert (forall j, 0 <= j -> byte_at (<[Z.to_nat (pos + 1) := n / 128]>
      (<[Z.to_nat pos := n mod 128 + 128]> out)) j =
      if j =? pos + 1 then n / 128 else if j =? pos then n mod 128 + 128 else byte_at out j) as B.
    { intros j Hj. rewrite !byte_at_insert by (rewrite ?length_insert; lia). done. }
    split; [intros j Hj Hr; rewrite B by done; zcases; done || lia|].
    intros src Ls Hs. unfold uleb128_decode_small. rewrite byte_at_get by lia. cbn [res_bind].
    rewrite Hs, B by lia. destruct (Z.eqb_spec pos (pos + 1)); [lia|]. rewrite Z.eqb_refl.
    rewrite high_bit by dlia. destruct (Z.ltb_spec (n mod 128 + 128) 128); [dlia|].
    rewrite byte_at_get by lia. cbn [res_bind]. rewrite Hs, B, Z.eqb_refl by lia.
    rewrite high_bit by lia. destruct (Z.ltb_spec (n / 128) 128); [|lia]. cbn [negb].
    apply Ok_pair; [done|]. change 0x7f with (Z.ones 7). rewrite Z.land_ones, Z.lor_comm by lia.
    rewrite lor_concat by (change (2 ^ 7) with 128; dlia). change (2 ^ 7) with 128. dlia.
Qed.

(** ** Round trip *)

Section RoundTrip.
Context (old new : list Z) (slen : Z).
Context (Lo : Z.of_nat (length old) = slen) (Ln : Z.of_nat (length new) = slen).
Context (Bo : bytes old) (Bn : bytes new) (Hslen : slen <= 0x3fff).

(** The page with the new bytes up to [i]. *)
Definition patched (i : Z) (cur : list Z) : Prop :=
  Z.of_nat (length cur) = slen /\
  forall j, 0 <= j < slen -> byte_at cur j = if j <? i then byte_at new j else byte_at old j.

Lemma patched_equal i k cur : patched i cur -> all_run old new true i k -> patched k cur \/ k < i.
Proof.
  intros [L H] A. destruct (Z.le_gt_cases i k); [left|by right]. split; [done|]. intros j Hj. rewrite H by done.
  destruct (Z.ltb_spec j i), (Z.ltb_spec j k); try done; [lia|]. pose proof (A j ltac:(lia)) as E.
  apply Z.eqb_eq in E. exact E.
Qed.

Lemma patched_end cur : patched slen cur -> cur = new.
Proof.
  intros [L H]. apply byte_at_ext; [lia|]. intros j Hj. rewrite H by lia. destruct (Z.ltb_spec j slen); [done|lia].
Qed.

(** Decoding [src], from the source position [d] on, completes the page that
    is patched up to [i]. *)
Definition completes (d i r : Z) (dst : list Z) : Prop :=
  forall src cur fuel, Z.of_nat (length src) = r -> (forall j, d <= j < r -> byte_at src j = byte_at dst j) ->
    patched i cur -> r - d < Z.of_nat fuel ->
    exists n, decode_loop fuel src r slen d i cur = Ok (n, new) /\ i <= n <= slen.

Lemma completes_done d i dst : 0 <= i <= slen -> all_run old new true i slen -> completes d i d dst.
Proof.
  intros Hi A src cur fuel Ls _ P Hf. destruct fuel as [|fuel]; [lia|]. cbn [decode_loop].
  destruct (Z.ltb_spec d d); [lia|]. exists i. split; [|lia]. cbn [negb].
  destruct (patched_equal _ _ _ P A) as [P'|]; [|lia]. by rewrite (patched_end cur P').
Qed.

(** One round of the encoder is undone by one round of the decoder. *)
Lemma completes_round d i i1 i2 k1 k2 r dst' :
  0 <= d -> 0 <= i -> i <= i1 -> i1 < i2 <= slen -> (d <> 0 -> i < i1) -> 1 <= k1 <= 2 -> 1 <= k2 <= 2 ->
  d + k1 + k2 + (i2 - i1) <= r < 2 ^ 31 ->
  all_run old new true i i1 ->
  (forall src, Z.of_nat (length src) = r -> (forall j, d <= j < r -> byte_at src j = byte_at dst' j) ->
     uleb128_decode_small src d = Ok (k1, i1 - i) /\ uleb128_decode_small src (d + k1) = Ok (k2, i2 - i1)) ->
  (forall j, i1 <= j < i2 -> byte_at dst' (d + k1 + k2 + (j - i1)) = byte_at new j) ->
  completes (d + k1 + k2 + (i2 - i1)) i2 r dst' -> completes d i r dst'.
Proof.
  intros Hd Hi H1 H2 Hz K1 K2 Hr A Dec Data Rest src cur fuel Ls Hs P Hf.
  destruct fuel as [|fuel]; [lia|]. cbn [decode_loop]. destruct (Dec src Ls Hs) as [E1 E2].
  destruct (Z.ltb_spec d r); [|lia]. cbn [negb]. destruct (Z.ltb_spec (r - d) 2); [lia|].
  rewrite E1. cbn [res_bind]. destruct (Z.ltb_spec k1 0); [lia|]. cbn [orb].
  assert ((negb (d =? 0) && (i1 - i =? 0)) = false) as -> by lia.
  destruct (Z.ltb_spec slen (i + (i1 - i))); [lia|]. destruct (Z.ltb_spec (r - (d + k1)) 2); [lia|].
  rewrite E2. cbn [res_bind]. destruct (Z.ltb_spec k2 0); [lia|]. cbn [orb].
  destruct (Z.eqb_spec (i2 - i1) 0); [lia|].
  replace (i + (i1 - i)) with i1 by lia.
  rewrite (uwrap_small 32 (i1 + (i2 - i1))) by lia. rewrite (uwrap_small 32 (d + k1 + k2 + (i2 - i1))) by lia.
  destruct (Z.ltb_spec slen (i1 + (i2 - i1))); [lia|]. cbn [orb].
  destruct (Z.ltb_spec r (d + k1 + k2 + (i2 - i1))); [lia|].
  destruct (patched_equal _ _ _ P A) as [[Lc Hc]|]; [|lia].
  destruct (memcpy_spec cur i1 src (d + k1 + k2) (i2 - i1)) as (cur' & -> & L' & C'); [lia..|]. cbn [res_bind].
  replace (i1 + (i2 - i1)) with i2 by lia.
  destruct (Rest src cur' fuel Ls) as (m & E & Rm).
  { intros j Hj. apply Hs. lia. }
  { split; [lia|]. intros j Hj. rewrite C', Hc by lia. replace (i1 + (i2 - i1)) with i2 by lia.
    destruct (Z.leb_spec i1 j), (Z.ltb_spec j i2), (Z.ltb_spec j i1); cbn [andb]; try done; try lia.
    rewrite Hs by lia. apply Data. lia. }
  { lia. }
  exists m. split; [exact E|lia].
Qed.

(** Where a round of the encoder starts. *)
Definition round_start (d i : Z) : Prop :=
  (d = 0 /\ i = 0) \/ (0 < d /\ 0 < i /\ (i = slen \/ unchanged old new i = true)).

Lemma encode_loop_spec dlen : dlen < 2 ^ 31 -> forall fuel d i dst, Z.of_nat (length dst) = dlen ->
  0 <= i <= slen -> 0 <= d <= dlen -> slen - i < Z.of_nat fuel -> round_start d i ->
  exists r dst', encode_loop old new slen fuel dlen d i dst = Ok (r, dst') /\ length dst' = length dst /\
    (forall j, 0 <= j < d -> byte_at dst' j = byte_at dst j) /\
    (r = -1 \/ d <= r <= dlen /\ completes d i r dst').
Proof.
  intros Hdlen. induction fuel as [|fuel IH]; intros d i dst Ld Hi Hd Hf Hst; [lia|]. cbn [encode_loop].
  destruct (Z.ltb_spec i slen) as [Lt|Ge]; cbn [negb].
  2: { exists d, dst. split; [done|]. split; [done|]. split; [done|]. right. split; [lia|].
       apply completes_done; [lia|]. intros k Hk. lia. }
  destruct (Z.ltb_spec dlen (d + 2)); [by exists (-1), dst; split; [|split; [|split; [|left]]]|].
  destruct (zrun_spec old new slen Lo Ln Bo Bn i Hi) as (i1 & -> & R1 & A1 & O1). cbn [res_bind].
  destruct (Z.eqb_spec (i1 - i) slen) as [Ez|Nz].
  { exists 0, dst. assert (i = 0 /\ i1 = slen) as [-> ->] by lia. destruct Hst as [[-> _]|]; [|lia].
    split; [done|]. split; [done|]. split; [done|]. right. split; [lia|]. by apply completes_done. }
  destruct (Z.eqb_spec i1 slen) as [->|Ni].
  { exists d, dst. split; [done|]. split; [done|]. split; [done|]. right. split; [lia|]. by apply completes_done. }
  destruct O1 as [?|U1]; [done|].
  destruct (uleb128_spec dst d (i1 - i)) as (k1 & dst1 & -> & K1 & L1 & F1 & D1); [lia..|]. cbn [res_bind].
  destruct (Z.ltb_spec dlen (d + k1 + 2)).
  { exists (-1), dst1. split; [done|]. split; [done|]. split; [intros; apply F1; lia|by left]. }
  destruct (nzrun_spec old new slen Lo Ln Bo Bn i1 ltac:(lia) U1) as (i2 & -> & R2 & A2 & O2). cbn [res_bind].
  destruct (uleb128_spec dst1 (d + k1) (i2 - i1)) as (k2 & dst2 & -> & K2 & L2 & F2 & D2); [lia..|]. cbn [res_bind].
  rewrite (uwrap_small 32) by lia.
  destruct (Z.ltb_spec dlen (d + k1 + k2 + (i2 - i1))).
  { exists (-1), dst2. split; [done|]. split; [lia|].
    split; [intros; rewrite F2, F1 by lia; done|by left]. }
  destruct (memcpy_spec dst2 (d + k1 + k2) new i1 (i2 - i1)) as (dst3 & -> & L3 & C3); [lia..|]. cbn [res_bind].
  set (d3 := d + k1 + k2 + (i2 - i1)) in *.
  destruct (IH d3 i2 dst3) as (r & dst' & -> & L' & F' & Hr); [lia|lia|lia|lia| |].
  { right. split; [lia|]. split; [lia|done]. }
  exists r, dst'. split; [done|]. split; [lia|].
  assert (forall j, 0 <= j < d + k1 + k2 -> byte_at dst' j = byte_at dst2 j) as B2.
  { intros j Hj. rewrite F', C3 by lia. destruct (Z.leb_spec (d + k1 + k2) j); [lia|done]. }
  split; [intros j Hj; rewrite B2, F2, F1 by lia; done|].
  destruct Hr as [->|[Rr Hc]]; [by left|right]. split; [lia|].
  apply (completes_round d i i1 i2 k1 k2); try done; try lia.
  - intros Nd. destruct Hst as [[? _]|(_ & _ & [?|U])]; [lia|lia|].
    destruct (Z.eq_dec i i1) as [->|]; [congruence|lia].
  - intros src Ls Hs. split.
    + apply D1; [lia|]. intros j Hj. rewrite Hs, B2, F2 by lia. done.
    + apply D2; [lia|]. intros j Hj. rewrite Hs, B2 by lia. done.
  - intros j Hj. rewrite F', C3 by lia. replace (i1 + (d + k1 + k2 + (j - i1) - (d + k1 + k2))) with j by lia.
    destruct ((d + k1 + k2 <=? d + k1 + k2 + (j - i1)) && (d + k1 + k2 + (j - i1) <? d3)) eqn:C;
      [done|lia].
Qed.
End RoundTrip.

(** ** Decoding arbitrary input *)

Lemma uleb128_decode_range src pos : bytes src -> 0 <= pos -> pos + 2 <= Z.of_nat (length src) ->
  exists k n, uleb128_decode_small src pos = Ok (k, n) /\ (k = -1 \/ 1 <= k <= 2) /\ 0 <= n < 2 ^ 14.
Proof.
  intros B Hp Hl. unfold uleb128_decode_small.
  assert (forall j, 0 <= j < Z.of_nat (length src) -> 0 <= byte_at src j < 256) as R.
  { intros j Hj. unfold byte_at. destruct (lookup_lt_is_Some_2 src (Z.to_nat j)) as [x Ex]; [lia|].
    rewrite Ex. apply (Forall_lookup_1 _ _ _ _ B Ex). }
  rewrite byte_at_get by lia. cbn [res_bind]. pose proof (R pos ltac:(lia)) as R0.
  rewrite high_bit by done. destruct (Z.ltb_spec (byte_at src pos) 128).
  { eexists _, _. split; [done|]. lia. }
  rewrite byte_at_get by lia. cbn [res_bind]. pose proof (R (pos + 1) ltac:(lia)) as R1. rewrite high_bit by done.
  assert (0 <= Z.land (byte_at src pos) 0x7f < 2 ^ 7) as Rl.
  { rewrite Z.land_comm. apply land_range; lia. }
  destruct (Z.ltb_spec (byte_at src (pos + 1)) 128); cbn [negb]; (eexists _, _; split; [done|]).
  - split; [lia|]. apply lor_range; [lia|lia|]. rewrite Z.shiftl_mul_pow2 by lia. lia.
  - lia.
Qed.

Lemma decode_loop_safe src slen dlen : bytes src -> Z.of_nat (length src) = slen -> slen < 2 ^ 31 -> dlen < 2 ^ 31 ->
  forall fuel i d dst, 0 <= i <= slen -> 0 <= d <= dlen -> Z.of_nat (length dst) = dlen -> slen - i < Z.of_nat fuel ->
  exists r dst', decode_loop fuel src slen dlen i d dst = Ok (r, dst') /\ length dst' = length dst /\ -1 <= r <= dlen.
Proof.
  intros B Ls Hs Hd. induction fuel as [|fuel IH]; intros i d dst Hi Hdd Ld Hf; [lia|]. cbn [decode_loop].
  assert (exists r dst', Ok (-1, dst) = Ok (r, dst') /\ length dst' = length dst /\ -1 <= r <= dlen) as Bad
    by (exists (-1), dst; split; [done|]; split; [done|lia]).
  destruct (Z.ltb_spec i slen); cbn [negb]; [|exists d, dst; split; [done|]; split; [done|lia]].
  destruct (Z.ltb_spec (slen - i) 2); [done|].
  destruct (uleb128_decode_range src i B) as (k1 & c1 & -> & K1 & C1); [lia|lia|]. cbn [res_bind].
  destruct (Z.ltb_spec k1 0); [done|]. cbn [orb]. destruct (negb (i =? 0) && (c1 =? 0)); [done|].
  destruct (Z.ltb_spec dlen (d + c1)); [done|]. destruct (Z.ltb_spec (slen - (i + k1)) 2); [done|].
  destruct (uleb128_decode_range src (i + k1) B) as (k2 & c2 & -> & K2 & C2); [lia|lia|]. cbn [res_bind].
  destruct (Z.ltb_spec k2 0); [done|]. cbn [orb]. destruct (Z.eqb_spec c2 0); [done|].
  rewrite (uwrap_small 32 (d + c1 + c2)), (uwrap_small 32 (i + k1 + k2 + c2)) by lia.
  destruct (Z.ltb_spec dlen (d + c1 + c2)); [done|]. cbn [orb].
  destruct (Z.ltb_spec slen (i + k1 + k2 + c2)); [done|].
  destruct (memcpy_spec dst (d + c1) src (i + k1 + k2) c2) as (dst1 & -> & L1 & _); [lia..|]. cbn [res_bind].
  destruct (IH (i + k1 + k2 + c2) (d + c1 + c2) dst1) as (r & dst' & -> & L & R); [lia..|].
  exists r, dst'. split; [done|]. split; [congruence|done].
Qed.

(** ** Claims *)

(** C40: encoding the difference between two pages of the same size (a
    multiple of the word size, below 16 KiB) never faults; it writes only
    inside the destination and either reports overflow (-1) or returns a length
    [r] such that decoding the first [r] bytes onto the old page gives the new
    page. *)
Theorem xbzrle_roundtrip old new slen dst dlen :
  Z.of_nat (length old) = slen -> Z.of_nat (length new) = slen -> bytes old -> bytes new ->
  slen <= 0x3fff -> slen mod 8 = 0 -> Z.of_nat (length dst) = dlen -> dlen < 2 ^ 31 ->
  exists r dst', xbzrle_encode_buffer old new slen dst dlen = Ok (r, dst') /\ length dst' = length dst /\
    (r = -1 \/ 0 <= r <= dlen /\
     exists n, xbzrle_decode_buffer (take (Z.to_nat r) dst') r old slen = Ok (n, new) /\ 0 <= n <= slen).
Proof.
  intros Lo Ln Bo Bn Hs Hm Ld Hd. unfold xbzrle_encode_buffer, sizeof_long. rewrite Hm. cbn [Z.eqb c_assert res_bind].
  destruct (encode_loop_spec old new slen Lo Ln Bo Bn Hs dlen Hd (S (Z.to_nat slen)) 0 0 dst)
    as (r & dst' & E & L & _ & Hr); [done|lia|lia|lia|by left|].
  exists r, dst'. split; [done|]. split; [done|]. destruct Hr as [->|[Rr Hc]]; [by left|right]. split; [done|].
  apply Hc; [rewrite length_take; lia| | |lia].
  - intros j Hj. unfold byte_at. rewrite lookup_take_lt by lia. done.
  - split; [done|]. intros j Hj. destruct (Z.ltb_spec j 0); [lia|done].
Qed.

Lemma xbzrle_roundtrip_witness :
  let old := [1; 2; 3; 4; 5; 6; 7; 8] in let new := [1; 2; 9; 9; 5; 6; 7; 8] in
  exists n, xbzrle_decode_buffer [2; 2; 9; 9] 4 old 8 = Ok (n, new).
Proof.
  intros old new.
  destruct (xbzrle_roundtrip old new 8 (replicate 8 0) 8) as (r & dst' & E & _ & H);
    [done|done|repeat (constructor; [lia|]); constructor|repeat (constructor; [lia|]); constructor|done|done|done|done|].
  vm_compute in E. injection E as <- <-. destruct H as [H|(_ & n & H & _)]; [done|].
  exists n. exact H.
Defined.

(** The decoder is safe on any input: whatever bytes it is given, it ends
    without reading or writing outside its buffers and returns -1 or a length
    within the page. *)
Theorem xbzrle_decode_safe src slen dst dlen :
  bytes src -> Z.of_nat (length src) = slen -> Z.of_nat (length dst) = dlen -> slen < 2 ^ 31 -> dlen < 2 ^ 31 ->
  exists r dst', xbzrle_decode_buffer src slen dst dlen = Ok (r, dst') /\ length dst' = length dst /\ -1 <= r <= dlen.
Proof. intros B Ls Ld Hs Hd. by apply decode_loop_safe; [..|lia|lia|done|lia]. Qed.

Lemma xbzrle_decode_safe_witness :
  exists r dst', xbzrle_decode_buffer [0; 0xff; 0xff; 3] 4 [1; 2; 3] 3 = Ok (r, dst') /\ length dst' = 3%nat.
Proof.
  destruct (xbzrle_decode_safe [0; 0xff; 0xff; 3] 4 [1; 2; 3] 3) as (r & dst' & E & L & _);
    [repeat (constructor; [lia|]); constructor|done|done|done|done|].
  by exists r, dst'.
Defined.
