(* ===== verification/PageCache.v ===== *)
(** * The page cache of a migration

    [page_cache.c]: a direct-mapped cache of guest pages, indexed by the page
    number modulo the number of buckets (a power of two); an insertion evicts
    the page in the bucket, and a resize moves every page to its new bucket and
    keeps the most recently inserted of those that collide.  Whether an
    allocation succeeds is a parameter of the operations that allocate. *)

From stdpp Require Import base list numbers.
From S2P Require Import Prelude HostUtils.

(** [it_addr] is [(uint64_t)-1] and [it_data] is [NULL] in an empty bucket. *)
Record CacheItem : Type := mkItem { it_addr : Z; it_age : Z; it_data : option (list Z) }.

(** [page_cache] is [NULL] after [cache_fini]. *)
Record PageCache : Type := mkCache {
  page_cache : option (list CacheItem); page_size : Z; max_num_items : Z; max_item_age : Z; num_items : Z
}.

Definition no_addr : Z := u64 (-1).
Definition empty_item : CacheItem := mkItem no_addr 0 None.

(** [None] is the [NULL] return. *)
Definition cache_init (cache_ok items_ok : bool) (num_pages psize : Z) : option PageCache :=
  if num_pages <=? 0 then None
  else if negb cache_ok then None
  else
    let num_pages := if negb (is_power_of_2 (u64 num_pages)) then pow2floor num_pages else num_pages in
    if negb items_ok then None
    else Some (mkCache (Some (replicate (Z.to_nat num_pages) empty_item)) psize num_pages 0 0).

(** [g_assert(cache->page_cache)] *)
Definition cache_items (c : PageCache) : res (list CacheItem) :=
  match page_cache c with Some l => Ok l | None => Err AssertFailed end.

Definition cache_fini (c : PageCache) : res PageCache :=
  let* _ := cache_items c in
  Ok (mkCache None (page_size c) (max_num_items c) (max_item_age c) (num_items c)).

Definition cache_get_cache_pos (c : PageCache) (address : Z) : res Z :=
  let* _ := c_assert (negb (max_num_items c =? 0)) in
  let* n := c_div address (page_size c) in
  Ok (Z.land n (u64 (max_num_items c - 1))).

Definition cache_is_cached (c : PageCache) (addr : Z) : res bool :=
  let* items := cache_items c in
  let* pos := cache_get_cache_pos c addr in
  let* it := aget items pos in Ok (it_addr it =? addr).

Definition cache_get_by_addr (c : PageCache) (addr : Z) : res CacheItem :=
  let* items := cache_items c in
  let* pos := cache_get_cache_pos c addr in
  aget items pos.

Definition get_cached_data (c : PageCache) (addr : Z) : res (option (list Z)) :=
  let* it := cache_get_by_addr c addr in Ok (it_data it).

(** [memcpy(it->it_data, pdata, cache->page_size)]: the page read. *)
Definition copy_page (psize : Z) (pdata : list Z) : res (list Z) :=
  if Z.of_nat (length pdata) <? psize then Err OutOfBounds else Ok (take (Z.to_nat psize) pdata).

Definition cache_insert (alloc_ok : bool) (c : PageCache) (addr : Z) (pdata : list Z) : res (Z * PageCache) :=
  let* items := cache_items c in
  let* pos := cache_get_cache_pos c addr in
  let* it := aget items pos in
  if bool_decide (it_data it = None) && negb alloc_ok then Ok (-1, c) else
  let n := if bool_decide (it_data it = None) then num_items c + 1 else num_items c in
  let* data := copy_page (page_size c) pdata in
  let age := u64 (max_item_age c + 1) in
  let* items := aset items pos (mkItem addr age (Some data)) in
  Ok (0, mkCache (Some items) (page_size c) (max_num_items c) age n).

(** One round of the loop that moves the pages. *)
Definition move_item (old_items : list CacheItem) (i : Z) (new_cache : PageCache) : res PageCache :=
  let* old_it := aget old_items i in
  if it_addr old_it =? no_addr then Ok new_cache else
  let* items := cache_items new_cache in
  let* pos := cache_get_cache_pos new_cache (it_addr old_it) in
  let* new_it := aget items pos in
  if negb (bool_decide (it_data new_it = None)) && (it_age old_it <=? it_age new_it) then Ok new_cache else
  let n := if bool_decide (it_data new_it = None) then num_items new_cache + 1 else num_items new_cache in
  let* items := aset items pos (mkItem (it_addr old_it) (it_age old_it) (it_data old_it)) in
  Ok (mkCache (Some items) (page_size new_cache) (max_num_items new_cache) (max_item_age new_cache) n).

Definition cache_resize (cache_ok items_ok : bool) (c : PageCache) (new_num_pages : Z) : res (Z * PageCache) :=
  match page_cache c with
  | None => Ok (-1, c)
  | Some old_items =>
      if pow2floor new_num_pages =? max_num_items c then Ok (max_num_items c, c) else
      match cache_init cache_ok items_ok new_num_pages (page_size c) with
      | None => Ok (-1, c)
      | Some new_cache =>
          let* new_cache := for_loop (Z.to_nat (max_num_items c)) 0 (move_item old_items) new_cache in
          Ok (max_num_items new_cache,
              mkCache (page_cache new_cache) (page_size c) (max_num_items new_cache) (max_item_age c)
                (num_items new_cache))
      end
  end.

(** ** Powers of two *)

Lemma is_power_of_2_spec v : 0 < v < 2 ^ 64 -> is_power_of_2 v = (v =? 2 ^ Z.log2 v).
Proof.
  intros Hv. unfold is_power_of_2. destruct (Z.eqb_spec v 0); [lia|]. rewrite negb_involutive.
  rewrite uwrap_small by lia. pose proof (Z.log2_spec v ltac:(lia)) as [L1 L2]. pose proof (Z.log2_nonneg v).
  destruct (Z.eqb_spec v (2 ^ Z.log2 v)) as [E|E].
  - rewrite E at 1 2. apply Z.eqb_eq. zbits. rewrite Z.sub_1_r, <- Z.ones_equiv, ones_testbit by lia.
    zcases; done || lia.
  - apply Z.eqb_neq. intros Z0.
    assert (Z.testbit (Z.land v (v - 1)) (Z.log2 v) = false) as F by (rewrite Z0; apply Z.testbit_0_l).
    rewrite Z.land_spec, Z.bit_log2 in F by lia. cbn [andb] in F.
    assert (Z.log2 (v - 1) = Z.log2 v) as Lg by (apply Z.log2_unique; lia).
    rewrite <- Lg, Z.bit_log2 in F by lia. done.
Qed.

Lemma pow2floor_spec v : 0 < v < 2 ^ 63 -> pow2floor v = 2 ^ Z.log2 v.
Proof.
  intros Hv. unfold pow2floor. cbv zeta. rewrite uwrap_small by lia. rewrite is_power_of_2_spec by lia.
  destruct (Z.eqb_spec v (2 ^ Z.log2 v)) as [E|E]; cbn [negb]; [done|].
  pose proof (Z.log2_nonneg v). assert (Z.log2 v < 63) by (apply Z.log2_lt_pow2; lia).
  unfold clz64, builtin_clz. destruct (Z.eqb_spec v 0); [lia|].
  rewrite Z.shiftl_1_l, Z.shiftr_div_pow2, <- Z.pow_sub_r by lia.
  replace (63 - (64 - 1 - Z.log2 v)) with (Z.log2 v) by lia. apply swrap_small; [lia|].
  assert (2 ^ Z.log2 v < 2 ^ 63) by (apply Z.pow_lt_mono_r; lia). change (64 - 1) with 63. lia.
Qed.

(** ** The invariant *)

Definition bucket (psize max addr : Z) : Z := (addr / psize) mod max.

(** Item [i]: empty, or a page in its bucket no younger than [age]. *)
Definition item_ok (psize max age i : Z) (it : CacheItem) : Prop :=
  (it_data it = None /\ it_addr it = no_addr) \/
  (exists data, it_data it = Some data /\ 0 <= it_addr it < no_addr /\ bucket psize max (it_addr it) = i /\
     Z.of_nat (length data) = psize /\ 0 <= it_age it <= age).

(** The number of buckets in use. *)
Fixpoint used (l : list CacheItem) : Z :=
  match l with [] => 0 | it :: l => (if bool_decide (it_data it = None) then 0 else 1) + used l end.

Lemma used_insert l : forall i x it, l !! i = Some x ->
  used (<[i := it]> l) = used l - (if bool_decide (it_data x = None) then 0 else 1)
                               + (if bool_decide (it_data it = None) then 0 else 1).
Proof.
  induction l as [|y l IH]; intros [|i] x it H; try done.
  - injection H as ->. cbn. lia.
  - change (used (<[S i := it]> (y :: l)))
      with ((if bool_decide (it_data y = None) then 0 else 1) + used (<[i := it]> l)).
    cbn [used]. rewrite (IH i x it H). lia.
Qed.

Record items_ok (psize max age : Z) (items : list CacheItem) : Prop := {
  ok_length : Z.of_nat (length items) = max;
  ok_pow2 : exists k, 0 <= k <= 62 /\ max = 2 ^ k;
  ok_psize : 0 < psize;
  ok_items : forall i it, 0 <= i -> items !! Z.to_nat i = Some it -> item_ok psize max age i it
}.

Definition cache_wf (c : PageCache) : Prop :=
  exists items, page_cache c = Some items /\ num_items c = used items /\ 0 <= max_item_age c /\
    items_ok (page_size c) (max_num_items c) (max_item_age c) items.

Lemma bucket_range psize max age items addr : items_ok psize max age items -> 0 <= bucket psize max addr < max.
Proof. intros [_ (k & Hk & ->) _ _]. apply Z.mod_pos_bound. lia. Qed.

Lemma cache_pos_spec c age items addr : items_ok (page_size c) (max_num_items c) age items -> 0 <= addr ->
  cache_get_cache_pos c addr = Ok (bucket (page_size c) (max_num_items c) addr).
Proof.
  intros [_ (k & Hk & E) Hp _] Ha. unfold cache_get_cache_pos, c_div.
  assert (0 < 2 ^ k <= 2 ^ 62) as R by (split; [lia|apply Z.pow_le_mono_r; lia]).
  rewrite E. destruct (Z.eqb_spec (2 ^ k) 0); [lia|]. cbn [negb c_assert res_bind].
  destruct (Z.eqb_spec (page_size c) 0); [lia|]. cbn [res_bind]. f_equal.
  rewrite uwrap_small, Z.sub_1_r, <- Z.ones_equiv, Z.land_ones by lia. done.
Qed.

(** The item in the bucket of [addr]. *)
Definition item_at (items : list CacheItem) (psize max addr : Z) : CacheItem :=
  default empty_item (items !! Z.to_nat (bucket psize max addr)).

Lemma item_at_spec psize max age items addr : items_ok psize max age items ->
  items !! Z.to_nat (bucket psize max addr) = Some (item_at items psize max addr) /\
  aget items (bucket psize max addr) = Ok (item_at items psize max addr) /\
  item_ok psize max age (bucket psize max addr) (item_at items psize max addr).
Proof.
  intros W. pose proof (bucket_range _ _ _ _ addr W) as R. pose proof (ok_length _ _ _ _ W).
  destruct (lookup_lt_is_Some_2 items (Z.to_nat (bucket psize max addr))) as [it E]; [lia|].
  unfold item_at. rewrite E. cbn. split; [done|]. split; [apply aget_Ok; split; [lia|done]|].
  apply (ok_items _ _ _ _ W); [lia|done].
Qed.

(** The queries of a cache with these items. *)
Lemma queries_spec c items age addr : page_cache c = Some items ->
  items_ok (page_size c) (max_num_items c) age items -> 0 <= addr ->
  let it := item_at items (page_size c) (max_num_items c) addr in
  cache_get_by_addr c addr = Ok it /\ cache_is_cached c addr = Ok (it_addr it =? addr) /\
  get_cached_data c addr = Ok (it_data it).
Proof.
  intros E W Ha it. unfold get_cached_data, cache_get_by_addr, cache_is_cached, cache_items. rewrite E. cbn [res_bind].
  rewrite (cache_pos_spec c age items addr W Ha). cbn [res_bind].
  destruct (item_at_spec _ _ _ _ addr W) as (_ & -> & _). done.
Qed.

Lemma item_at_insert psize max age items addr x a : items_ok psize max age items ->
  item_at (<[Z.to_nat (bucket psize max addr) := x]> items) psize max a =
  if bucket psize max a =? bucket psize max addr then x else item_at items psize max a.
Proof.
  intros W. pose proof (bucket_range _ _ _ _ addr W). pose proof (bucket_range _ _ _ _ a W).
  pose proof (ok_length _ _ _ _ W). unfold item_at.
  destruct (Z.eqb_spec (bucket psize max a) (bucket psize max addr)) as [->|].
  - rewrite list_lookup_insert_eq by lia. done.
  - by rewrite list_lookup_insert_ne by lia.
Qed.

Lemma items_ok_insert psize max age age' items addr x : items_ok psize max age items -> age <= age' ->
  item_ok psize max age' (bucket psize max addr) x ->
  items_ok psize max age' (<[Z.to_nat (bucket psize max addr) := x]> items).
Proof.
  intros W Ha Hx. pose proof (bucket_range _ _ _ _ addr W) as R. pose proof W as [L P S I].
  split; [by rewrite length_insert|done|done|]. intros i it Hi E.
  destruct (Z.eq_dec i (bucket psize max addr)) as [->|Ne].
  - rewrite list_lookup_insert_eq in E by lia. by injection E as <-.
  - rewrite list_lookup_insert_ne in E by lia. destruct (I i it Hi E) as [?|(data & ? & ? & ? & ? & ?)]; [by left|right].
    exists data. split; [done|]. split; [done|]. split; [done|]. split; [done|lia].
Qed.

(** ** Insertion *)

(** Inserting a page (with memory available) stores it in its bucket: it
    is then cached with the data given, a page cached in the same bucket before
    is evicted, every other page stays as it was, and the count of pages and
    the ages stay right. *)
Theorem cache_insert_correct c addr pdata :
  cache_wf c -> 0 <= addr < no_addr -> page_size c <= Z.of_nat (length pdata) -> max_item_age c + 1 < 2 ^ 64 ->
  exists c', cache_insert true c addr pdata = Ok (0, c') /\ cache_wf c' /\
    cache_is_cached c' addr = Ok true /\
    get_cached_data c' addr = Ok (Some (take (Z.to_nat (page_size c)) pdata)) /\
    forall a, 0 <= a < no_addr -> a <> addr ->
      if bucket (page_size c) (max_num_items c) a =? bucket (page_size c) (max_num_items c) addr
      then cache_is_cached c' a = Ok false
      else cache_is_cached c' a = cache_is_cached c a /\ cache_get_by_addr c' a = cache_get_by_addr c a.
Proof.
  intros (items & Ec & En & H0 & W) Ha Hl Hage. unfold cache_insert, cache_items. rewrite Ec. cbn [res_bind].
  rewrite (cache_pos_spec c _ items addr W ltac:(lia)). cbn [res_bind].
  destruct (item_at_spec _ _ _ _ addr W) as (Lk & -> & _). cbn [res_bind]. rewrite andb_false_r.
  unfold copy_page. destruct (Z.ltb_spec (Z.of_nat (length pdata)) (page_size c)); [lia|]. cbn [res_bind].
  pose proof (bucket_range _ _ _ _ addr W) as R. pose proof (ok_length _ _ _ _ W) as L.
  rewrite aset_total by lia. cbn [res_bind]. rewrite uwrap_small by lia.
  set (x := mkItem addr (max_item_age c + 1) _). set (c' := mkCache _ _ _ _ _).
  assert (items_ok (page_size c) (max_num_items c) (max_item_age c + 1)
    (<[Z.to_nat (bucket (page_size c) (max_num_items c) addr) := x]> items)) as W'.
  { apply (items_ok_insert _ _ (max_item_age c)); [done|cbn; lia|]. right. eexists. split; [done|].
    split; [done|]. split; [done|]. split; [|cbn; lia].
    pose proof (ok_psize _ _ _ _ W). rewrite length_take. lia. }
  exists c'. split; [done|]. split.
  { eexists. split; [done|]. split; [|split; [cbn; lia|done]]. cbn [num_items c'].
    rewrite (used_insert _ _ _ _ Lk). destruct (bool_decide_reflect (it_data x = None)); [done|].
    destruct (bool_decide _); lia. }
  assert (forall a, 0 <= a -> let it := if bucket (page_size c) (max_num_items c) a =?
      bucket (page_size c) (max_num_items c) addr then x else item_at items (page_size c) (max_num_items c) a in
    cache_get_by_addr c' a = Ok it /\ cache_is_cached c' a = Ok (it_addr it =? a) /\
    get_cached_data c' a = Ok (it_data it)) as Q.
  { intros a Hna. rewrite <- (item_at_insert _ _ _ _ addr x a W). by apply (queries_spec c' _ (max_item_age c + 1)). }
  destruct (Q addr ltac:(lia)) as (_ & Q1 & Q2). rewrite Z.eqb_refl in Q1, Q2.
  split; [rewrite Q1; cbn; by rewrite Z.eqb_refl|]. split; [exact Q2|]. intros a Hna Ne.
  destruct (Q a ltac:(lia)) as (Q3 & Q4 & _). destruct (queries_spec c items _ a Ec W ltac:(lia)) as (Q5 & Q6 & _).
  destruct (_ =? bucket _ _ addr).
  - rewrite Q4. cbn. f_equal. by apply Z.eqb_neq.
  - by rewrite Q3, Q4, Q5, Q6.
Qed.

(** ** Resizing *)

Section Resize.
Context (psize max0 max1 age : Z) (olds : list CacheItem).
Context (W0 : items_ok psize max0 age olds).

(** The new cache after the first [k] pages have been moved. *)
Definition moved (k : Z) (c : PageCache) : Prop :=
  page_size c = psize /\ max_num_items c = max1 /\
  exists items, page_cache c = Some items /\ num_items c = used items /\ items_ok psize max1 age items /\
    (forall a, 0 <= a -> it_data (item_at items psize max1 a) <> None ->
       exists j, 0 <= j < k /\ olds !! Z.to_nat j = Some (item_at items psize max1 a)) /\
    (forall j it, 0 <= j < k -> olds !! Z.to_nat j = Some it -> it_data it <> None ->
       it_data (item_at items psize max1 (it_addr it)) <> None /\
       it_age it <= it_age (item_at items psize max1 (it_addr it))).

Lemma move_item_spec k c : 0 <= k < max0 -> moved k c ->
  exists c', move_item olds k c = Ok c' /\ moved (k + 1) c'.
Proof.
  intros Hk (Ep & Em & items & Ec & En & W & Src & Dst). unfold move_item. pose proof (ok_length _ _ _ _ W0).
  destruct (lookup_lt_is_Some_2 olds (Z.to_nat k)) as [old Eo]; [lia|].
  rewrite (proj2 (aget_Ok olds k old)) by (split; [lia|done]). cbn [res_bind].
  pose proof (ok_items _ _ _ _ W0 k old ltac:(lia) Eo) as Hold.
  destruct Hold as [[Dn An]|(data & Ed & Ra & Hb & Ld & Rg)].
  - rewrite An, Z.eqb_refl. exists c. split; [done|]. split; [done|]. split; [done|]. exists items.
    split; [done|]. split; [done|]. split; [done|]. split.
    + intros a Ha Nd. destruct (Src a Ha Nd) as (j & Hj & E). exists j. split; [lia|done].
    + intros j it Hj E Nd. destruct (Z.eq_dec j k) as [->|]; [congruence|]. apply (Dst j); [lia|done|done].
  - destruct (Z.eqb_spec (it_addr old) no_addr); [lia|]. unfold cache_items. rewrite Ec. cbn [res_bind].
    rewrite <- Ep, <- Em in W. rewrite (cache_pos_spec c _ items (it_addr old) W ltac:(lia)). cbn [res_bind].
    rewrite Ep, Em in *. destruct (item_at_spec _ _ _ _ (it_addr old) W) as (Lk & -> & _). cbn [res_bind].
    set (cur := item_at items psize max1 (it_addr old)) in *.
    destruct (negb (bool_decide (it_data cur = None)) && (it_age old <=? it_age cur)) eqn:C.
    + apply andb_true_iff in C as [C1 C2]. apply negb_true_iff, bool_decide_eq_false in C1. apply Z.leb_le in C2.
      exists c. split; [done|]. split; [done|]. split; [done|]. exists items.
      split; [done|]. split; [done|]. split; [done|]. split.
      * intros a Ha Nd. destruct (Src a Ha Nd) as (j & Hj & E). exists j. split; [lia|done].
      * intros j it Hj E Nd. destruct (Z.eq_dec j k) as [->|]; [|apply (Dst j); [lia|done|done]].
        assert (it = old) as -> by congruence. done.
    + pose proof (bucket_range _ _ _ _ (it_addr old) W). pose proof (ok_length _ _ _ _ W).
      rewrite aset_total by lia. cbn [res_bind]. set (x := mkItem _ _ _).
      assert (x = old) as Ex by (by destruct old). eexists. split; [done|].
      split; [done|]. split; [done|]. eexists. split; [done|].
      assert (items_ok psize max1 age (<[Z.to_nat (bucket psize max1 (it_addr old)) := x]> items)) as W'.
      { apply (items_ok_insert _ _ age); [done|lia|]. right. exists data. rewrite Ex. done. }
      split.
      { cbn [num_items]. rewrite (used_insert _ _ _ _ Lk), Ex, Ed. rewrite En.
        destruct (bool_decide (it_data cur = None)); cbn; lia. }
      split; [done|]. split.
      * intros a Ha. rewrite (item_at_insert _ _ age) by done. destruct (_ =? _).
        -- intros _. exists k. rewrite Ex. split; [lia|done].
        -- intros Nd. destruct (Src a Ha Nd) as (j & Hj & E). exists j. split; [lia|done].
      * intros j it Hj E Nd. rewrite (item_at_insert _ _ age) by done.
        destruct (Z.eqb_spec (bucket psize max1 (it_addr it)) (bucket psize max1 (it_addr old))) as [Eb|Nb].
        -- rewrite Ex. split; [by rewrite Ed|]. destruct (Z.eq_dec j k) as [->|]; [assert (it = old) as -> by congruence; lia|].
           destruct (Dst j it ltac:(lia) E Nd) as [D1 D2].
           assert (item_at items psize max1 (it_addr it) = cur) as Ei by (unfold cur, item_at; by rewrite Eb).
           rewrite Ei in D1, D2. rewrite bool_decide_eq_false_2 in C by done. cbn in C. apply Z.leb_gt in C. lia.
        -- destruct (Z.eq_dec j k) as [->|]; [assert (it = old) as -> by congruence; done|].
           apply (Dst j); [lia|done|done].
Qed.
End Resize.

Lemma used_empty n : used (replicate n empty_item) = 0.
Proof. by induction n. Qed.

Lemma cache_init_ok psize age n : 0 < n < 2 ^ 63 -> 0 < psize -> 0 <= age ->
  exists c, cache_init true true n psize = Some c /\ moved psize (2 ^ Z.log2 n) age [] 0 c.
Proof.
  intros Hn Hp Ha. unfold cache_init. destruct (Z.leb_spec n 0); [lia|]. cbn [negb].
  assert ((if negb (is_power_of_2 (u64 n)) then pow2floor n else n) = 2 ^ Z.log2 n) as ->.
  { rewrite uwrap_small, is_power_of_2_spec, pow2floor_spec by lia.
    destruct (Z.eqb_spec n (2 ^ Z.log2 n)); done. }
  assert (0 <= Z.log2 n <= 62) by (split; [apply Z.log2_nonneg|];
    enough (Z.log2 n < 63) by lia; apply Z.log2_lt_pow2; lia).
  eexists. split; [done|]. split; [done|]. split; [done|]. eexists. split; [done|]. split; [by rewrite used_empty|].
  assert (items_ok psize (2 ^ Z.log2 n) age (replicate (Z.to_nat (2 ^ Z.log2 n)) empty_item)) as W.
  { split; [rewrite length_replicate; lia|by exists (Z.log2 n)|done|].
    intros i it _ E. apply lookup_replicate in E as [-> _]. by left. }
  split; [done|]. split; [|intros; lia]. intros a _ Nd. exfalso. apply Nd.
  destruct (item_at_spec _ _ _ _ a W) as (E & _). apply lookup_replicate in E as [-> _]. done.
Qed.

(** Resizing a cache (with memory available) to [n] pages gives a
    well-formed cache of the largest power of two up to [n] buckets.  Every
    page cached afterwards was cached before, with the same age and data; and
    the bucket of every page that was cached holds a page at least as recent. *)
Theorem cache_resize_correct c n :
  cache_wf c -> 0 < n < 2 ^ 63 ->
  exists c', cache_resize true true c n = Ok (2 ^ Z.log2 n, c') /\ cache_wf c' /\
    max_num_items c' = 2 ^ Z.log2 n /\
    (forall a, 0 <= a < no_addr -> cache_is_cached c' a = Ok true ->
       cache_is_cached c a = Ok true /\ cache_get_by_addr c' a = cache_get_by_addr c a) /\
    (forall a it, 0 <= a < no_addr -> cache_is_cached c a = Ok true -> cache_get_by_addr c a = Ok it ->
       exists it', cache_get_by_addr c' a = Ok it' /\ it_data it' <> None /\ it_age it <= it_age it').
Proof.
  intros (items & Ec & En & H0 & W) Hn. unfold cache_resize. rewrite Ec, pow2floor_spec by done.
  pose proof (ok_psize _ _ _ _ W) as Hp. pose proof (ok_length _ _ _ _ W) as L.
  assert (forall a, 0 <= a < no_addr -> let it := item_at items (page_size c) (max_num_items c) a in
    it_addr it = a -> it_data it <> None /\ items !! Z.to_nat (bucket (page_size c) (max_num_items c) a) = Some it) as Cached.
  { intros a Ha it Ea. subst it. destruct (item_at_spec _ _ _ _ a W) as (Lk & _ & [[_ F]|(d & Ed & _)]).
    - lia.
    - split; [congruence|done]. }
  destruct (Z.eqb_spec (2 ^ Z.log2 n) (max_num_items c)) as [->|Ne].
  { exists c. split; [done|]. split; [by exists items|]. split; [done|]. split; [done|].
    intros a it Ha C E. destruct (queries_spec c items _ a Ec W ltac:(lia)) as (Q1 & Q2 & _).
    rewrite Q1 in E |- *. rewrite Q2 in C. injection E as <-. injection C as C. apply Z.eqb_eq in C.
    eexists. split; [done|]. split; [by apply Cached|lia]. }
  destruct (cache_init_ok (page_size c) (max_item_age c) n Hn Hp H0) as (c0 & -> & M0).
  destruct (for_loop_inv (moved (page_size c) (2 ^ Z.log2 n) (max_item_age c) items) (move_item items)
    (Z.to_nat (max_num_items c)) 0 c0) as (c1 & -> & Ep & Em & items1 & E1 & N1 & W1 & Src & Dst).
  { destruct M0 as (? & ? & it0 & ? & ? & ? & Src0 & _). split; [done|]. split; [done|]. exists it0.
    split; [done|]. split; [done|]. split; [done|]. split; [|intros; lia]. intros a Ha Nd.
    destruct (Src0 a Ha Nd) as (j & Hj & _). lia. }
  { intros k s Hk Hm. apply (move_item_spec _ (max_num_items c)); [done|lia|done]. }
  replace (0 + Z.of_nat (Z.to_nat (max_num_items c))) with (max_num_items c) in * by lia. cbn [res_bind].
  rewrite Em. set (c' := mkCache _ _ _ _ _). exists c'. split; [done|].
  split; [exists items1; split; [done|]; split; [done|]; split; done|]. split; [done|].
  assert (forall a, 0 <= a -> cache_get_by_addr c' a = Ok (item_at items1 (page_size c) (2 ^ Z.log2 n) a) /\
    cache_is_cached c' a = Ok (it_addr (item_at items1 (page_size c) (2 ^ Z.log2 n) a) =? a)) as Q'.
  { intros a Ha. destruct (queries_spec c' items1 (max_item_age c) a E1 W1 Ha) as (A & B & _). done. }
  split.
  - intros a Ha C. destruct (Q' a ltac:(lia)) as [Q1 Q2]. rewrite Q2 in C. injection C as C. apply Z.eqb_eq in C.
    destruct (item_at_spec _ _ _ _ a W1) as (_ & _ & [[_ F]|(d & Ed & Ra & _)]); [lia|].
    destruct (Src a ltac:(lia)) as (j & Hj & Ej); [congruence|].
    destruct (ok_items _ _ _ _ W j _ ltac:(lia) Ej) as [[F _]|(_ & _ & _ & Bj & _)]; [congruence|].
    destruct (queries_spec c items _ a Ec W ltac:(lia)) as (Q3 & Q4 & _). rewrite C in Bj.
    assert (item_at items (page_size c) (max_num_items c) a = item_at items1 (page_size c) (2 ^ Z.log2 n) a) as Ei
      by (unfold item_at at 1; rewrite Bj, Ej; done).
    rewrite Q1, Q3, Q4, Ei, C, Z.eqb_refl. done.
  - intros a it Ha C E. destruct (queries_spec c items _ a Ec W ltac:(lia)) as (Q1 & Q2 & _).
    rewrite Q1 in E. rewrite Q2 in C. injection E as <-. injection C as C. apply Z.eqb_eq in C.
    destruct (Cached a Ha C) as [Nd Lk]. pose proof (bucket_range _ _ _ _ a W) as Rb.
    destruct (Dst _ _ Rb Lk Nd) as [D1 D2]. rewrite C in D1, D2. destruct (Q' a ltac:(lia)) as [-> _].
    eexists. split; [done|]. done.
Qed.

(** ** Witnesses *)

Definition two_buckets : PageCache := mkCache (Some (replicate 2 empty_item)) 4 2 0 0.

Lemma two_buckets_wf : cache_wf two_buckets.
Proof.
  exists (replicate 2 empty_item). split; [done|]. split; [done|]. split; [done|].
  split; [done|by exists 1|done|]. intros i it _ E. apply lookup_replicate in E as [-> _]. by left.
Qed.

Lemma cache_insert_witness : exists c', cache_insert true two_buckets 8 [1; 2; 3; 4] = Ok (0, c') /\
  cache_is_cached c' 8 = Ok true.
Proof.
  destruct (cache_insert_correct two_buckets 8 [1; 2; 3; 4]) as (c' & E & _ & C & _);
    [apply two_buckets_wf|done|done|done|]. by exists c'.
Defined.

Lemma cache_resize_witness : exists c', cache_resize true true two_buckets 7 = Ok (4, c') /\ cache_wf c'.
Proof.
  destruct (cache_resize_correct two_buckets 7) as (c' & E & W & _); [apply two_buckets_wf|done|]. by exists c'.
Defined.
