(* ===== verification/Fifo8.v ===== *)
(** * The byte FIFO of the device models

    [util/fifo8.c]: a ring buffer of bytes.  Every operation refines the
    operation on the queue of bytes the ring holds; [abort] is a fault. *)

From stdpp Require Import base list numbers.
From S2P Require Import Prelude.

Record Fifo8 : Type := mkFifo { data : list Z; capacity : Z; head : Z; num : Z }.

(** The bytes of the new buffer are not initialised by [g_new]: [junk]. *)
Definition fifo8_create (junk : list Z) (cap : Z) : Fifo8 := mkFifo junk cap 0 0.

Definition fifo8_push (f : Fifo8) (b : Z) : res Fifo8 :=
  if num f =? capacity f then Err AssertFailed else
  let* i := c_mod (u32 (head f + num f)) (capacity f) in
  let* d := aset (data f) i b in
  Ok (mkFifo d (capacity f) (head f) (u32 (num f + 1))).

Definition fifo8_push_all (f : Fifo8) (src : list Z) (n : Z) : res Fifo8 :=
  if capacity f <? u32 (num f + n) then Err AssertFailed else
  let* start := c_mod (u32 (head f + num f)) (capacity f) in
  let* d :=
    if u32 (start + n) <=? capacity f then memcpy (data f) start src 0 n
    else
      let avail := u32 (capacity f - start) in
      let* d := memcpy (data f) start src 0 avail in
      memcpy d 0 src avail (u32 (n - avail)) in
  Ok (mkFifo d (capacity f) (head f) (u32 (num f + n))).

Definition fifo8_pop (f : Fifo8) : res (Z * Fifo8) :=
  if num f =? 0 then Err AssertFailed else
  let* ret := aget (data f) (head f) in
  let* h := c_mod (u32 (head f + 1)) (capacity f) in
  Ok (ret, mkFifo (data f) (capacity f) h (u32 (num f - 1))).

(** The position of the buffer returned, and [*num]. *)
Definition fifo8_pop_buf (f : Fifo8) (max : Z) : res (Z * Z * Fifo8) :=
  if (max =? 0) || (num f <? max) then Err AssertFailed else
  let n := Z.min (u32 (capacity f - head f)) max in
  let ret := head f in
  let* h := c_mod (u32 (head f + n)) (capacity f) in
  Ok (ret, n, mkFifo (data f) (capacity f) h (u32 (num f - n))).

Definition fifo8_reset (f : Fifo8) : Fifo8 := mkFifo (data f) (capacity f) 0 0.
Definition fifo8_is_empty (f : Fifo8) : bool := num f =? 0.
Definition fifo8_is_full (f : Fifo8) : bool := num f =? capacity f.
Definition fifo8_num_free (f : Fifo8) : Z := u32 (capacity f - num f).
Definition fifo8_num_used (f : Fifo8) : Z := num f.

(** ** The queue of a ring *)

Definition fifo_wf (f : Fifo8) : Prop :=
  Z.of_nat (length (data f)) = capacity f /\ 0 < capacity f < 2 ^ 31 /\
  0 <= head f < capacity f /\ 0 <= num f <= capacity f.

(** The position of element [k] of the queue. *)
Definition ring (f : Fifo8) (k : Z) : Z := (head f + k) mod capacity f.
Definition contents (f : Fifo8) : list Z := (fun k => byte_at (data f) (ring f k)) <$> seqZ 0 (num f).

Lemma contents_length f : fifo_wf f -> Z.of_nat (length (contents f)) = num f.
Proof. intros (_ & _ & _ & Hn). unfold contents. rewrite length_fmap, length_seqZ. lia. Qed.

(** A queue is given by its length and its elements. *)
Lemma contents_eq f l : fifo_wf f -> Z.of_nat (length l) = num f ->
  (forall k, 0 <= k < num f -> byte_at (data f) (ring f k) = byte_at l k) -> contents f = l.
Proof.
  intros W L H. apply list_eq. intros i. pose proof (contents_length f W) as Lc. destruct (decide (i < length l)%nat) as [Hi|Hi].
  - unfold contents. rewrite list_lookup_fmap, lookup_seqZ_lt by lia. cbn. rewrite H by lia.
    destruct (lookup_lt_is_Some_2 l i Hi) as [x Ex]. unfold byte_at.
    replace (Z.to_nat (0 + Z.of_nat i)) with i by lia. by rewrite Ex.
  - rewrite !lookup_ge_None_2 by lia. done.
Qed.

Lemma contents_at f k : fifo_wf f -> 0 <= k < num f -> byte_at (contents f) k = byte_at (data f) (ring f k).
Proof.
  intros (_ & _ & _ & Hn) Hk. unfold byte_at at 1, contents. rewrite list_lookup_fmap, lookup_seqZ_lt by lia.
  cbn. do 2 f_equal. lia.
Qed.

Lemma byte_at_app l l' k : 0 <= k ->
  byte_at (l ++ l') k = if k <? Z.of_nat (length l) then byte_at l k else byte_at l' (k - Z.of_nat (length l)).
Proof.
  intros Hk. unfold byte_at. destruct (Z.ltb_spec k (Z.of_nat (length l))).
  - by rewrite lookup_app_l by lia.
  - rewrite lookup_app_r by lia. do 2 f_equal. lia.
Qed.

Lemma byte_at_drop l n k : 0 <= n -> 0 <= k -> byte_at (drop (Z.to_nat n) l) k = byte_at l (n + k).
Proof. intros. unfold byte_at. rewrite lookup_drop. do 2 f_equal. lia. Qed.

(** A position of the ring. *)
Lemma ring_pos h k c : 0 <= h < c -> 0 <= k <= c -> (h + k) mod c = if h + k <? c then h + k else h + k - c.
Proof.
  intros Hh Hk. destruct (Z.ltb_spec (h + k) c); [apply Z.mod_small; lia|].
  symmetry. apply (Z.mod_unique _ c 1); lia.
Qed.

Lemma mod_ok a c : 0 < c -> c_mod a c = Ok (a mod c).
Proof. intros. unfold c_mod. destruct (Z.eqb_spec c 0); [lia|done]. Qed.

(** ** Operations *)

Lemma push_spec f b : fifo_wf f -> num f < capacity f ->
  exists f', fifo8_push f b = Ok f' /\ fifo_wf f' /\ capacity f' = capacity f /\ contents f' = contents f ++ [b].
Proof.
  intros W Hn. pose proof W as (L & C & H & N). unfold fifo8_push.
  destruct (Z.eqb_spec (num f) (capacity f)); [lia|].
  rewrite !uwrap_small, mod_ok by lia. cbn [res_bind].
  assert (0 <= (head f + num f) mod capacity f < capacity f) as R by (apply Z.mod_pos_bound; lia).
  rewrite aset_total by lia. cbn [res_bind]. set (f' := mkFifo _ _ _ _). exists f'. split; [done|].
  assert (fifo_wf f') as W'.
  { unfold fifo_wf. cbn [data capacity head num f']. rewrite length_insert. lia. }
  split; [done|]. split; [done|]. apply contents_eq; [done|rewrite length_app, Nat2Z.inj_add, contents_length; done|].
  intros k Hk. cbn [num data f'] in *. unfold ring. cbn [head capacity f'].
  rewrite byte_at_insert, byte_at_app, contents_length by (done || lia || (apply Z.mod_pos_bound; lia)).
  rewrite !ring_pos by lia. destruct (Z.ltb_spec k (num f)).
  - rewrite contents_at by (done || lia). unfold ring. rewrite ring_pos by lia.
    destruct (Z.ltb_spec (head f + k) (capacity f)), (Z.ltb_spec (head f + num f) (capacity f)); zcases; done || lia.
  - assert (k = num f) as -> by lia. rewrite Z.eqb_refl, Z.sub_diag. done.
Qed.

Lemma pop_buf_spec f max : fifo_wf f -> 0 < max <= num f ->
  exists n f', fifo8_pop_buf f max = Ok (head f, n, f') /\ n = Z.min (capacity f - head f) max /\
    fifo_wf f' /\ capacity f' = capacity f /\ contents f' = drop (Z.to_nat n) (contents f) /\
    forall k, 0 <= k < n -> byte_at (data f) (head f + k) = byte_at (contents f) k.
Proof.
  intros W Hm. pose proof W as (L & C & H & N). unfold fifo8_pop_buf.
  destruct (Z.eqb_spec max 0); [lia|]. destruct (Z.ltb_spec (num f) max); [lia|]. cbn [orb].
  rewrite (uwrap_small 32 (capacity f - head f)) by lia. set (n' := Z.min (capacity f - head f) max).
  rewrite !uwrap_small, mod_ok by lia. cbn [res_bind]. set (f' := mkFifo _ _ _ _).
  assert (fifo_wf f') as W'.
  { unfold fifo_wf. cbn [data capacity head num f']. pose proof (Z.mod_pos_bound (head f + n') (capacity f)). lia. }
  exists n', f'. split; [done|]. split; [done|]. split; [done|]. split; [done|]. split.
  - apply contents_eq; [done|rewrite length_drop; pose proof (contents_length f W); cbn [num f']; lia|].
    intros k Hk. cbn [num data f'] in *. rewrite byte_at_drop, contents_at by (done || lia).
    unfold ring. cbn [head capacity f']. f_equal. rewrite Z.add_mod_idemp_l by lia. f_equal. lia.
  - intros k Hk. rewrite contents_at by (done || lia). unfold ring. rewrite ring_pos by lia. zcases; done || lia.
Qed.

Lemma pop_spec f x l : fifo_wf f -> contents f = x :: l ->
  exists f', fifo8_pop f = Ok (x, f') /\ fifo_wf f' /\ capacity f' = capacity f /\ contents f' = l.
Proof.
  intros W E. pose proof W as (L & C & H & N). pose proof (contents_length f W) as Lc. rewrite E in Lc. cbn [length] in Lc.
  destruct (pop_buf_spec f 1 W ltac:(lia)) as (n & f' & E' & -> & W' & C' & D' & A').
  exists f'. assert (fifo8_pop f = Ok (byte_at (data f) (head f), f')) as ->.
  { unfold fifo8_pop, fifo8_pop_buf in *. destruct (Z.eqb_spec (num f) 0); [lia|].
    rewrite byte_at_get by lia. cbn [res_bind]. destruct (num f <? 1); [done|]. cbn [orb Z.eqb] in E'.
    rewrite (uwrap_small 32 (capacity f - head f)) in E' by lia. rewrite Z.min_r in E' by lia.
    destruct (c_mod _ _); [|done]. cbn [res_bind] in *. by injection E' as <-. }
  rewrite Z.min_r in * by lia. pose proof (A' 0 ltac:(lia)) as A0. rewrite Z.add_0_r, E in A0. rewrite A0.
  rewrite D', E. done.
Qed.

(** Two copies around the end of the ring. *)
Lemma push_all_copy f src : fifo_wf f -> num f + Z.of_nat (length src) <= capacity f ->
  let n := Z.of_nat (length src) in
  exists f', fifo8_push_all f src n = Ok f' /\ capacity f' = capacity f /\ head f' = head f /\ num f' = num f + n /\
    length (data f') = length (data f) /\
    forall j, 0 <= j < capacity f -> byte_at (data f') j =
      (if (ring f (num f) <=? j) && (j <? ring f (num f) + n) then byte_at src (j - ring f (num f))
       else if j <? ring f (num f) + n - capacity f then byte_at src (j + capacity f - ring f (num f))
       else byte_at (data f) j).
Proof.
  intros W Hn n. pose proof W as (L & C & H & N). unfold fifo8_push_all.
  rewrite (uwrap_small 32 (num f + n)) by lia. destruct (Z.ltb_spec (capacity f) (num f + n)); [lia|].
  rewrite (uwrap_small 32 (head f + num f)), mod_ok by lia. cbn [res_bind].
  change ((head f + num f) mod capacity f) with (ring f (num f)).
  assert (0 <= ring f (num f) < capacity f) as R by (apply Z.mod_pos_bound; lia).
  rewrite (uwrap_small 32 (ring f (num f) + n)) by lia.
  destruct (Z.leb_spec (ring f (num f) + n) (capacity f)) as [Le|Gt].
  - destruct (memcpy_spec (data f) (ring f (num f)) src 0 n) as (d & -> & Ld & Hd); [lia..|]. cbn [res_bind].
    eexists. split; [done|]. split; [done|]. split; [done|]. split; [done|]. split; [done|].
    intros j Hj. cbn [data]. rewrite Hd, Z.add_0_l by lia. destruct (Z.ltb_spec j (ring f (num f) + n - capacity f)); [lia|].
    done.
  - rewrite (uwrap_small 32 (capacity f - ring f (num f))) by lia. set (avail := capacity f - ring f (num f)) in *.
    rewrite (uwrap_small 32 (n - avail)) by lia.
    destruct (memcpy_spec (data f) (ring f (num f)) src 0 avail) as (d & -> & Ld & Hd); [lia..|]. cbn [res_bind].
    destruct (memcpy_spec d 0 src avail (n - avail)) as (d2 & -> & Ld2 & Hd2); [lia..|]. cbn [res_bind].
    eexists. split; [done|]. split; [done|]. split; [done|]. split; [done|]. split; [cbn; lia|].
    intros j Hj. cbn [data]. rewrite Hd2, Hd, Z.add_0_l by lia.
    zcases; try lia; try done; f_equal; lia.
Qed.

Lemma push_all_spec f src : fifo_wf f -> num f + Z.of_nat (length src) <= capacity f ->
  exists f', fifo8_push_all f src (Z.of_nat (length src)) = Ok f' /\ fifo_wf f' /\ capacity f' = capacity f /\
    contents f' = contents f ++ src.
Proof.
  intros W Hn. pose proof W as (L & C & H & N).
  destruct (push_all_copy f src W Hn) as (f' & -> & Ec & Eh & En & El & Hd). exists f'. split; [done|].
  assert (fifo_wf f') as W' by (unfold fifo_wf; rewrite Ec, Eh, En, El; lia).
  split; [done|]. split; [done|].
  apply contents_eq; [done|rewrite length_app, Nat2Z.inj_add, contents_length by done; lia|].
  intros k Hk. rewrite byte_at_app, contents_length by (done || lia).
  assert (ring f' k = ring f k) as -> by (unfold ring; by rewrite Eh, Ec).
  rewrite Hd by (apply Z.mod_pos_bound; lia).
  unfold ring. rewrite !ring_pos by lia.
  destruct (Z.ltb_spec (head f + k) (capacity f)), (Z.ltb_spec (head f + num f) (capacity f)), (Z.ltb_spec k (num f)).
  all: try (rewrite contents_at by (done || lia); unfold ring; rewrite ring_pos by lia); zcases; try lia; f_equal; lia.
Qed.

(** ** Claim *)

(** On a well-formed ring every operation of the FIFO is the operation on
    the queue of its bytes: a push appends one byte or many and aborts exactly
    when the ring has no room; a pop removes the first byte and aborts exactly
    when there is none; [fifo8_pop_buf] exposes and removes the longest prefix
    of at most [max] bytes that is contiguous in memory; a reset empties it. *)
Theorem fifo8_refines_queue f b src max :
  fifo_wf f -> 0 <= max -> num f + Z.of_nat (length src) < 2 ^ 32 ->
  (if fifo8_is_full f then fifo8_push f b = Err AssertFailed
   else exists f', fifo8_push f b = Ok f' /\ fifo_wf f' /\ contents f' = contents f ++ [b]) /\
  (if Z.of_nat (length src) <=? fifo8_num_free f
   then exists f', fifo8_push_all f src (Z.of_nat (length src)) = Ok f' /\ fifo_wf f' /\
          contents f' = contents f ++ src
   else fifo8_push_all f src (Z.of_nat (length src)) = Err AssertFailed) /\
  match contents f with
  | [] => fifo8_is_empty f = true /\ fifo8_pop f = Err AssertFailed
  | x :: l => fifo8_is_empty f = false /\
              exists f', fifo8_pop f = Ok (x, f') /\ fifo_wf f' /\ contents f' = l
  end /\
  (if (0 <? max) && (max <=? fifo8_num_used f)
   then exists pos n f', fifo8_pop_buf f max = Ok (pos, n, f') /\ n = Z.min (capacity f - pos) max /\
          fifo_wf f' /\ contents f' = drop (Z.to_nat n) (contents f) /\
          forall k, 0 <= k < n -> byte_at (data f) (pos + k) = byte_at (contents f) k
   else fifo8_pop_buf f max = Err AssertFailed) /\
  fifo8_num_used f = Z.of_nat (length (contents f)) /\
  fifo_wf (fifo8_reset f) /\ contents (fifo8_reset f) = [].
Proof.
  intros W Hm Hs. pose proof W as (L & C & H & N). pose proof (contents_length f W) as Lc.
  unfold fifo8_is_full, fifo8_num_free, fifo8_num_used, fifo8_is_empty.
  rewrite (uwrap_small 32 (capacity f - num f)) by lia. split; [|split; [|split; [|split; [|split; [|split]]]]].
  - destruct (Z.eqb_spec (num f) (capacity f)) as [E|E].
    + unfold fifo8_push. by rewrite (proj2 (Z.eqb_eq _ _) E).
    + destruct (push_spec f b W ltac:(lia)) as (f' & -> & W' & _ & E'). by exists f'.
  - destruct (Z.leb_spec (Z.of_nat (length src)) (capacity f - num f)).
    + destruct (push_all_spec f src W ltac:(lia)) as (f' & -> & W' & _ & E'). by exists f'.
    + unfold fifo8_push_all. rewrite uwrap_small by lia. destruct (Z.ltb_spec (capacity f) (num f + Z.of_nat (length src))); [done|lia].
  - destruct (contents f) as [|x l] eqn:E; cbn [length] in Lc.
    + unfold fifo8_pop. assert ((num f =? 0) = true) as -> by lia. done.
    + split; [lia|]. destruct (pop_spec f x l W E) as (f' & -> & W' & _ & E'). by exists f'.
  - destruct (Z.ltb_spec 0 max), (Z.leb_spec max (num f)); cbn [andb].
    2-4: unfold fifo8_pop_buf; destruct (Z.eqb_spec max 0), (Z.ltb_spec (num f) max); done || lia.
    destruct (pop_buf_spec f max W ltac:(lia)) as (n & f' & -> & -> & W' & _ & E' & A'). eexists _, _, f'. done.
  - done.
  - unfold fifo_wf, fifo8_reset. cbn. lia.
  - done.
Qed.

Lemma fifo8_witness :
  let f := mkFifo [7; 8; 9] 3 2 2 in
  exists f', fifo8_pop f = Ok (9, f') /\ contents f' = [7].
Proof.
  intros f. destruct (fifo8_refines_queue f 1 [] 0) as (_ & _ & P & _); [unfold fifo_wf; cbn; lia|lia|done|].
  change (contents f) with [9; 7] in P. destruct P as (_ & f' & E & _ & Ec). by exists f'.
Defined.
