(* ===== verification/ArmMmu.v ===== *)
(** * The ARM memory management unit ([target-arm/helper.c])

    [get_phys_addr] translates a virtual address: the fast context switch
    offset, then the short-descriptor tables of ARMv5 and ARMv6, the
    long-descriptor tables of LPAE, or the regions of a memory protection unit.
    A walk gives the physical address, the protection of the page and its size,
    or a fault status.  [access_type] is 0 for a read, 1 for a write and 2 for
    an instruction fetch.

    The table descriptors are loaded from guest memory, an interface of two
    loads ([ldl_phys] and [ldq_phys]); the coprocessor registers and the feature
    bits that the code uses are the record [CPUARMState].  The out parameters
    are only read by the callers when a walk succeeds, so they are arguments of
    the constructor [Translated]. *)

From stdpp Require Import base list numbers.
From S2P Require Import Prelude Bitops.

Class PhysMem (M : Type) : Type := {
  ldl_phys : M -> Z -> Z;
  ldq_phys : M -> Z -> Z
}.

Module ArmMmu.

(** The features that address translation depends on. *)
Inductive feature : Type :=
| ARM_FEATURE_XSCALE | ARM_FEATURE_V6 | ARM_FEATURE_V6K | ARM_FEATURE_V7
| ARM_FEATURE_MPU | ARM_FEATURE_PXN | ARM_FEATURE_LPAE.

#[export] Instance feature_eq_dec : EqDecision feature.
Proof. solve_decision. Defined.

Record CPUARMState : Type := mkEnv {
  features : list feature;
  c1_sys : Z; ttbr0_el1 : Z; ttbr1_el1 : Z; c2_control : Z; c2_mask : Z; c2_base_mask : Z; c3 : Z;
  c5_insn : Z; c5_data : Z; c6_region : list Z; c6_insn : Z; c6_data : Z;
  c7_par : Z; c7_par_hi : Z; c13_fcse : Z
}.

Definition arm_feature (env : CPUARMState) (f : feature) : bool := bool_decide (f ∈ features env).

Definition SCTLR_M : Z := Z.shiftl 1 0.
Definition SCTLR_S : Z := Z.shiftl 1 8.
Definition SCTLR_R : Z := Z.shiftl 1 9.
Definition SCTLR_XP : Z := Z.shiftl 1 23.
Definition SCTLR_AFE : Z := Z.shiftl 1 29.
Definition PAGE_READ : Z := 1.
Definition PAGE_WRITE : Z := 2.
Definition PAGE_EXEC : Z := 4.
Definition TARGET_PAGE_SIZE : Z := 1024.

Definition is_set (x bits : Z) : bool := negb (Z.land x bits =? 0).

(** The result of a walk: the address, the protection and the page size, or
    the fault status. *)
Inductive walk : Type :=
| Translated (phys_addr prot page_size : Z)
| Fault (code : Z).

(** ** Permissions *)

Definition check_ap (env : CPUARMState) (ap domain_prot access_type : Z) (is_user : bool) : res Z :=
  let rw := Z.lor PAGE_READ PAGE_WRITE in
  if domain_prot =? 3 then Ok rw else
  let prot_ro := if access_type =? 1 then 0 else PAGE_READ in
  match ap with
  | 0 =>
      if arm_feature env ARM_FEATURE_V7 then Ok 0
      else if access_type =? 1 then Ok 0
      else
        let sr := Z.land (c1_sys env) (Z.lor SCTLR_S SCTLR_R) in
        if sr =? SCTLR_S then Ok (if is_user then 0 else PAGE_READ)
        else if sr =? SCTLR_R then Ok PAGE_READ
        else Ok 0
  | 1 => Ok (if is_user then 0 else rw)
  | 2 => Ok (if is_user then prot_ro else rw)
  | 3 => Ok rw
  | 4 => Ok 0
  | 5 => Ok (if is_user then 0 else prot_ro)
  | 6 => Ok prot_ro
  | 7 => Ok (if negb (arm_feature env ARM_FEATURE_V6K) then 0 else prot_ro)
  | _ => Err AssertFailed
  end.

Definition get_level1_table_address (env : CPUARMState) (address : Z) : Z :=
  let table := if is_set address (c2_mask env) then u32 (Z.land (ttbr1_el1 env) 0xffffc000)
               else u32 (Z.land (ttbr0_el1 env) (c2_base_mask env)) in
  Z.lor table (Z.land (Z.shiftr address 18) 0x3ffc).

Section Walk.
Context {M : Type} `{PhysMem M} (m : M).

(** ** Short descriptors *)

Definition get_phys_addr_v5 (env : CPUARMState) (address access_type : Z) (is_user : bool) : res walk :=
  let desc := ldl_phys m (get_level1_table_address env address) in
  let type := Z.land desc 3 in
  let domain := Z.land (Z.shiftr desc 5) 0x0f in
  let domain_prot := Z.land (Z.shiftr (c3 env) (domain * 2)) 3 in
  let do_fault code := Ok (Fault (Z.lor code (Z.shiftl domain 4))) in
  let check phys_addr ap code page_size :=
    let* prot := check_ap env ap domain_prot access_type is_user in
    if prot =? 0 then do_fault code else Ok (Translated phys_addr (Z.lor prot PAGE_EXEC) page_size) in
  if type =? 0 then do_fault 5
  else if (domain_prot =? 0) || (domain_prot =? 2) then do_fault (if type =? 2 then 9 else 11)
  else if type =? 2 then
    check (Z.lor (Z.land desc 0xfff00000) (Z.land address 0x000fffff)) (Z.land (Z.shiftr desc 10) 3) 13 (1024 * 1024)
  else
    let table := if type =? 1 then Z.lor (Z.land desc 0xfffffc00) (Z.land (Z.shiftr address 10) 0x3fc)
                 else Z.lor (Z.land desc 0xfffff000) (Z.land (Z.shiftr address 8) 0xffc) in
    let desc := ldl_phys m table in
    match Z.land desc 3 with
    | 0 => do_fault 7
    | 1 => check (Z.lor (Z.land desc 0xffff0000) (Z.land address 0xffff))
             (Z.land (Z.shiftr desc (4 + Z.land (Z.shiftr address 13) 6)) 3) 15 0x10000
    | 2 => check (Z.lor (Z.land desc 0xfffff000) (Z.land address 0xfff))
             (Z.land (Z.shiftr desc (4 + Z.land (Z.shiftr address 9) 6)) 3) 15 0x1000
    | 3 =>
        let ap := Z.land (Z.shiftr desc 4) 3 in
        if type =? 1 then
          if arm_feature env ARM_FEATURE_XSCALE
          then check (Z.lor (Z.land desc 0xfffff000) (Z.land address 0xfff)) ap 15 0x400
          else do_fault 7
        else check (Z.lor (Z.land desc 0xfffffc00) (Z.land address 0x3ff)) ap 15 0x400
    | _ => Err AssertFailed
    end.

(** The end of the ARMv6 walk; [xn] and [pxn] are tested for being non-zero. *)
Definition v6_check (env : CPUARMState) (domain domain_prot phys_addr ap code page_size : Z) (xn pxn : bool)
    (access_type : Z) (is_user : bool) : res walk :=
  let do_fault code := Ok (Fault (Z.lor code (Z.shiftl domain 4))) in
  if domain_prot =? 3 then Ok (Translated phys_addr (Z.lor (Z.lor PAGE_READ PAGE_WRITE) PAGE_EXEC) page_size) else
  let xn := xn || (pxn && negb is_user) in
  if xn && (access_type =? 2) then do_fault code
  else if is_set (c1_sys env) SCTLR_AFE && (Z.land ap 1 =? 0) then do_fault (if code =? 15 then 6 else 3)
  else
    let* prot := check_ap env ap domain_prot access_type is_user in
    if prot =? 0 then do_fault code
    else Ok (Translated phys_addr (if xn then prot else Z.lor prot PAGE_EXEC) page_size).

Definition get_phys_addr_v6 (env : CPUARMState) (address access_type : Z) (is_user : bool) : res walk :=
  let desc := ldl_phys m (get_level1_table_address env address) in
  let type := Z.land desc 3 in
  let do_fault code domain := Ok (Fault (Z.lor code (Z.shiftl domain 4))) in
  if (type =? 0) || ((type =? 3) && negb (arm_feature env ARM_FEATURE_PXN)) then do_fault 5 0 else
  let domain := if (type =? 1) || negb (is_set desc (Z.shiftl 1 18)) then Z.land (Z.shiftr desc 5) 0x0f else 0 in
  let domain_prot := Z.land (Z.shiftr (c3 env) (domain * 2)) 3 in
  if (domain_prot =? 0) || (domain_prot =? 2) then do_fault (if negb (type =? 1) then 9 else 11) domain
  else if negb (type =? 1) then
    let (phys_addr, page_size) :=
      if is_set desc (Z.shiftl 1 18)
      then (Z.lor (Z.land desc 0xff000000) (Z.land address 0x00ffffff), 0x1000000)
      else (Z.lor (Z.land desc 0xfff00000) (Z.land address 0x000fffff), 0x100000) in
    let ap := Z.lor (Z.land (Z.shiftr desc 10) 3) (Z.land (Z.shiftr desc 13) 4) in
    v6_check env domain domain_prot phys_addr ap 13 page_size (is_set desc (Z.shiftl 1 4)) (is_set desc 1)
      access_type is_user
  else
    let pxn := arm_feature env ARM_FEATURE_PXN && negb (Z.land (Z.shiftr desc 2) 1 =? 0) in
    let desc := ldl_phys m (Z.lor (Z.land desc 0xfffffc00) (Z.land (Z.shiftr address 10) 0x3fc)) in
    let ap := Z.lor (Z.land (Z.shiftr desc 4) 3) (Z.land (Z.shiftr desc 7) 4) in
    match Z.land desc 3 with
    | 0 => do_fault 7 domain
    | 1 => v6_check env domain domain_prot (Z.lor (Z.land desc 0xffff0000) (Z.land address 0xffff)) ap 15 0x10000
             (is_set desc (Z.shiftl 1 15)) pxn access_type is_user
    | 2 | 3 => v6_check env domain domain_prot (Z.lor (Z.land desc 0xfffff000) (Z.land address 0xfff)) ap 15 0x1000
             (is_set desc 1) pxn access_type is_user
    | _ => Err AssertFailed
    end.

(** ** Long descriptors *)

Definition translation_fault : Z := 1.
Definition access_fault : Z := 2.
Definition permission_fault : Z := 3.

Definition lpae_fault (fault_type level : Z) : res walk :=
  Ok (Fault (Z.lor (Z.lor (Z.shiftl 1 9) (Z.shiftl fault_type 2)) level)).

(** The attributes of a block or page, merged with those of the tables. *)
Definition lpae_attrs (descriptor tableattrs : Z) : res Z :=
  let* lo := extract64 descriptor 2 10 in
  let* hi := extract64 descriptor 52 12 in
  let attrs := Z.lor lo (u32 (Z.shiftl hi 10)) in
  let* x := extract32 tableattrs 0 2 in
  let* w := extract32 tableattrs 3 1 in
  let attrs := Z.lor (Z.lor attrs (Z.shiftl x 11)) (Z.shiftl w 5) in
  let* p := extract32 tableattrs 2 1 in
  Ok (if negb (p =? 0) then Z.land attrs (u32 (Z.lnot (Z.shiftl 1 4))) else attrs).

(** The permission checks on the final descriptor. *)
Definition lpae_check (descaddr page_size level attrs access_type : Z) (is_user : bool) : res walk :=
  if Z.land attrs (Z.shiftl 1 8) =? 0 then lpae_fault access_fault level
  else if is_user && (Z.land attrs (Z.shiftl 1 4) =? 0) then lpae_fault permission_fault level
  else
    let xn := is_set attrs (Z.shiftl 1 12) || (negb is_user && is_set attrs (Z.shiftl 1 11)) in
    let ro := is_set attrs (Z.shiftl 1 5) in
    if xn && (access_type =? 2) then lpae_fault permission_fault level
    else if ro && (access_type =? 1) then lpae_fault permission_fault level
    else
      let prot := Z.lor (Z.lor PAGE_READ PAGE_WRITE) PAGE_EXEC in
      let prot := if xn then Z.land prot (Z.lnot PAGE_EXEC) else prot in
      let prot := if ro then Z.land prot (Z.lnot PAGE_WRITE) else prot in
      Ok (Translated descaddr prot page_size).

(** [for (;;)]: the levels of the tables, from [level] on. *)
Fixpoint lpae_loop (fuel : nat) (address level descaddr tableattrs access_type : Z) (is_user : bool) : res walk :=
  match fuel with
  | O => Err OutOfFuel
  | S fuel =>
      let descaddr := Z.lor descaddr (Z.land (Z.shiftr address (9 * (4 - level))) 0xff8) in
      let descriptor := ldq_phys m descaddr in
      if negb (is_set descriptor 1) || (negb (is_set descriptor 2) && (level =? 3))
      then lpae_fault translation_fault level else
      let descaddr := Z.land descriptor 0xfffffff000 in
      if is_set descriptor 2 && (level <? 3) then
        let* t := extract64 descriptor 59 5 in
        lpae_loop fuel address (level + 1) descaddr (Z.lor tableattrs t) access_type is_user
      else
        let page_size := Z.shiftl 1 (39 - 9 * level) in
        let descaddr := Z.lor descaddr (Z.land address (page_size - 1)) in
        let* attrs := lpae_attrs descriptor tableattrs in
        lpae_check descaddr page_size level attrs access_type is_user
  end.

(** The region of the address: 0 for TTBR0, 1 for TTBR1, or neither. *)
Definition lpae_select (t0sz t1sz address : Z) : res (option Z) :=
  let* in0 := if t0sz =? 0 then Ok false else let* x := extract32 address (32 - t0sz) t0sz in Ok (x =? 0) in
  if in0 then Ok (Some 0) else
  let* in1 := if t1sz =? 0 then Ok false
              else let* x := extract32 (u32 (Z.lnot address)) (32 - t1sz) t1sz in Ok (x =? 0) in
  Ok (if in1 then Some 1 else if t0sz =? 0 then Some 0 else if t1sz =? 0 then Some 1 else None).

Definition get_phys_addr_lpae (env : CPUARMState) (address access_type : Z) (is_user : bool) : res walk :=
  let* t0sz := extract32 (u32 (c2_control env)) 0 3 in
  let* t1sz := extract32 (u32 (c2_control env)) 16 3 in
  let* select := lpae_select t0sz t1sz address in
  match select with
  | None => lpae_fault translation_fault 1
  | Some ttbr_select =>
      let* epd := extract32 (u32 (c2_control env)) (if ttbr_select =? 0 then 7 else 23) 1 in
      let ttbr := if ttbr_select =? 0 then ttbr0_el1 env else ttbr1_el1 env in
      let tsz := if ttbr_select =? 0 then t0sz else t1sz in
      if negb (epd =? 0) then lpae_fault translation_fault 1 else
      let (level, n) := if 1 <? tsz then (2, 14 - tsz) else (1, 5 - tsz) in
      let address := Z.land address (Z.shiftr 0xffffffff tsz) in
      let* descaddr := extract64 ttbr 0 40 in
      let descaddr := Z.land descaddr (u64 (Z.lnot (Z.shiftl 1 n - 1))) in
      lpae_loop 3 address level descaddr 0 access_type is_user
  end.

(** ** The memory protection unit *)

(** The highest enabled region that contains the address: [n] is the number of
    regions left to try. *)
Fixpoint mpu_find (env : CPUARMState) (address : Z) (n : nat) : res (option Z) :=
  match n with
  | O => Ok None
  | S n =>
      let* base := aget (c6_region env) (Z.of_nat n) in
      if Z.land base 1 =? 0 then mpu_find env address n else
      let mask := u32 (Z.shiftl 1 (Z.land (Z.shiftr base 1) 0x1f)) in
      let mask := u32 (u32 (Z.shiftl mask 1) - 1) in
      if Z.land (Z.lxor base address) (u32 (Z.lnot mask)) =? 0 then Ok (Some (Z.of_nat n)) else mpu_find env address n
  end.

Definition get_phys_addr_mpu (env : CPUARMState) (address access_type : Z) (is_user : bool) : res walk :=
  let* n := mpu_find env address 8 in
  match n with
  | None => Ok (Fault 2)
  | Some n =>
      let mask := if access_type =? 2 then c5_insn env else c5_data env in
      let ok prot := Ok (Translated address (Z.lor prot PAGE_EXEC) TARGET_PAGE_SIZE) in
      match Z.land (Z.shiftr mask (n * 4)) 0xf with
      | 0 => Ok (Fault 1)
      | 1 => if is_user then Ok (Fault 1) else ok (Z.lor PAGE_READ PAGE_WRITE)
      | 2 => ok (if is_user then PAGE_READ else Z.lor PAGE_READ PAGE_WRITE)
      | 3 => ok (Z.lor PAGE_READ PAGE_WRITE)
      | 5 => if is_user then Ok (Fault 1) else ok PAGE_READ
      | 6 => ok PAGE_READ
      | _ => Ok (Fault 1)
      end
  end.

(** ** The entry point *)

Definition extended_addresses_enabled (env : CPUARMState) : bool :=
  arm_feature env ARM_FEATURE_LPAE && is_set (c2_control env) (Z.shiftl 1 31).

Definition get_phys_addr (env : CPUARMState) (address access_type : Z) (is_user : bool) : res walk :=
  let address := if address <? 0x02000000 then u32 (address + c13_fcse env) else address in
  if Z.land (c1_sys env) SCTLR_M =? 0 then
    Ok (Translated address (Z.lor (Z.lor PAGE_READ PAGE_WRITE) PAGE_EXEC) TARGET_PAGE_SIZE)
  else if arm_feature env ARM_FEATURE_MPU then get_phys_addr_mpu env address access_type is_user
  else if extended_addresses_enabled env then get_phys_addr_lpae env address access_type is_user
  else if is_set (c1_sys env) SCTLR_XP then get_phys_addr_v6 env address access_type is_user
  else get_phys_addr_v5 env address access_type is_user.

(** [-1] as a [hwaddr]. *)
Definition arm_cpu_get_phys_page_debug (env : CPUARMState) (addr : Z) : res Z :=
  let* w := get_phys_addr env (u32 addr) 0 false in
  Ok (match w with Translated phys_addr _ _ => phys_addr | Fault _ => u64 (-1) end).

(** The address translation operations write their result to the PAR. *)
Definition ats_write (env : CPUARMState) (opc2 value : Z) : res CPUARMState :=
  let* w := get_phys_addr env (u32 value) (Z.land opc2 1) (is_set opc2 2) in
  let par64 :=
    if extended_addresses_enabled env then
      Z.lor (Z.shiftl 1 11)
        match w with
        | Translated phys_addr _ _ => Z.land phys_addr (u64 (Z.lnot 0xfff))
        | Fault ret => Z.lor 1 (Z.shiftl (Z.land ret 0x3f) 1)
        end
    else
      match w with
      | Translated phys_addr _ page_size =>
          if (page_size =? Z.shiftl 1 24) && arm_feature env ARM_FEATURE_V7
          then Z.lor (Z.land phys_addr 0xff000000) (Z.shiftl 1 1) else Z.land phys_addr 0xfffff000
      | Fault ret =>
          Z.lor (Z.lor (Z.lor (Z.shiftr (Z.land ret (Z.shiftl 1 10)) 5) (Z.shiftr (Z.land ret (Z.shiftl 1 12)) 6))
            (Z.shiftl (Z.land ret 0xf) 1)) 1
      end in
  Ok (mkEnv (features env) (c1_sys env) (ttbr0_el1 env) (ttbr1_el1 env) (c2_control env) (c2_mask env)
        (c2_base_mask env) (c3 env) (c5_insn env) (c5_data env) (c6_region env) (c6_insn env) (c6_data env)
        (u32 par64) (if extended_addresses_enabled env then u32 (Z.shiftr par64 32) else 0) (c13_fcse env)).
End Walk.

(** ** Coprocessor registers of the translation *)

Definition set_ttbcr (env : CPUARMState) (value mask base_mask : Z) : CPUARMState :=
  mkEnv (features env) (c1_sys env) (ttbr0_el1 env) (ttbr1_el1 env) value mask base_mask (c3 env) (c5_insn env)
    (c5_data env) (c6_region env) (c6_insn env) (c6_data env) (c7_par env) (c7_par_hi env) (c13_fcse env).

Definition vmsa_ttbcr_raw_write (env : CPUARMState) (value : Z) : res CPUARMState :=
  let* maskshift := extract32 (u32 value) 0 3 in
  let value :=
    if arm_feature env ARM_FEATURE_LPAE && is_set value (u64 (- Z.shiftl 1 31))
    then Z.land value (u64 (Z.lnot (Z.lor (Z.lor (Z.shiftl 7 19) (Z.shiftl 3 14)) (Z.shiftl 0xf 3))))
    else Z.land value 7 in
  Ok (set_ttbcr env value (u32 (Z.lnot (Z.shiftr 0xffffffff maskshift))) (u32 (Z.lnot (Z.shiftr 0x3fff maskshift)))).

Definition vmsa_ttbcr_reset (env : CPUARMState) : CPUARMState := set_ttbcr env 0 0 0xffffc000.

(** The eight two-bit permissions of the basic format and the eight four-bit
    ones of the extended format; [n] permissions from bit [i] on. *)
Fixpoint mpu_ap_loop (n : nat) (i mask ret : Z) (step : Z -> Z -> Z) : Z :=
  match n with
  | O => ret
  | S n => mpu_ap_loop n (i + 2) (u32 (Z.shiftl mask 2)) (Z.lor ret (step i mask)) step
  end.
Definition simple_mpu_ap_bits (val : Z) : Z :=
  mpu_ap_loop 8 0 3 0 (fun i mask => Z.land (Z.shiftr val i) mask).
Definition extended_mpu_ap_bits (val : Z) : Z :=
  mpu_ap_loop 8 0 3 0 (fun i mask => u32 (Z.shiftl (Z.land val mask) i)).

Definition set_c5 (env : CPUARMState) (insn data : Z) : CPUARMState :=
  mkEnv (features env) (c1_sys env) (ttbr0_el1 env) (ttbr1_el1 env) (c2_control env) (c2_mask env) (c2_base_mask env)
    (c3 env) insn data (c6_region env) (c6_insn env) (c6_data env) (c7_par env) (c7_par_hi env) (c13_fcse env).
Definition pmsav5_data_ap_write (env : CPUARMState) (value : Z) : CPUARMState :=
  set_c5 env (c5_insn env) (extended_mpu_ap_bits (u32 value)).
Definition pmsav5_data_ap_read (env : CPUARMState) : Z := simple_mpu_ap_bits (c5_data env).
Definition pmsav5_insn_ap_write (env : CPUARMState) (value : Z) : CPUARMState :=
  set_c5 env (extended_mpu_ap_bits (u32 value)) (c5_data env).
Definition pmsav5_insn_ap_read (env : CPUARMState) : Z := simple_mpu_ap_bits (c5_insn env).

End ArmMmu.
