(* ===== verification/ArmMmuFacts.v ===== *)
(** * Address translation: pages and permissions

    What a TLB relies on: a walk is the same for all addresses of a 1 KiB page
    up to the offset in the page ([walk_page]), and the protection it returns
    says exactly which accesses a walk would allow ([walk_exact]).  Both hold
    for every table format; the protection unit breaks the second. *)

From stdpp Require Import base list numbers.
From S2P Require Import Prelude Bitops ArmMmu.
Import ArmMmu.

(** [address & ~(uint32_t)0x3ff] *)
Definition page_of (a : Z) : Z := Z.land a 0xfffffc00.

Lemma page_mask_testbit i : 0 <= i -> Z.testbit 0xfffffc00 i = (10 <=? i) && (i <? 32).
Proof.
  intros Hi. change 0xfffffc00 with (Z.ldiff (Z.ones 32) (Z.ones 10)).
  rewrite Z.ldiff_spec, !ones_testbit by lia. zcases; done || lia.
Qed.

Lemma low10_testbit i : 0 <= i -> Z.testbit 1023 i = (i <? 10).
Proof. apply (ones_testbit 10). lia. Qed.
#[local] Hint Rewrite page_mask_testbit low10_testbit using lia : zbits.

Lemma page_of_val a : 0 <= a < 2 ^ 32 -> page_of a = a - a mod 1024.
Proof.
  intros Ha. assert (a - a mod 1024 = Z.shiftl (Z.shiftr a 10) 10) as ->.
  { rewrite Z.shiftl_mul_pow2, Z.shiftr_div_pow2 by lia. change (2 ^ 10) with 1024. dlia. }
  unfold page_of. zbits. destruct (Z.leb_spec 10 i); cbn [andb].
  - rewrite Z.shiftr_spec by lia. replace (i - 10 + 10) with i by lia. destruct (Z.ltb_spec i 32).
    + apply andb_true_r.
    + by rewrite (testbit_high a 32) by lia.
  - rewrite andb_false_r, Z.testbit_neg_r by lia. done.
Qed.

Lemma page_of_range a : 0 <= a < 2 ^ 32 -> 0 <= page_of a < 2 ^ 32.
Proof. intros Ha. apply land_range; lia. Qed.

Lemma page_of_idem a : page_of (page_of a) = page_of a.
Proof. unfold page_of. by rewrite <- Z.land_assoc. Qed.

(** The bits above the offset in the page. *)
Lemma page_hi a k x : 0 <= a < 2 ^ 32 -> 0 <= k -> Z.land (Z.shiftr 1023 k) x = 0 ->
  Z.land (Z.shiftr (page_of a) k) x = Z.land (Z.shiftr a k) x.
Proof.
  intros Ha Hk Hx. zbits. unfold page_of. autorewrite with zbits. destruct (Z.leb_spec 10 (i + k)); cbn [andb].
  - destruct (Z.ltb_spec (i + k) 32); [by rewrite andb_true_r|by rewrite (testbit_high a 32) by lia].
  - assert (Z.testbit x i = false) as ->; [|by rewrite !andb_false_r].
    apply (f_equal (fun v => Z.testbit v i)) in Hx. rewrite Z.testbit_0_l, Z.land_spec, Z.shiftr_spec in Hx by lia.
    rewrite low10_testbit in Hx by lia. destruct (Z.ltb_spec (i + k) 10); [done|lia].
Qed.

Lemma page_hi0 a x : 0 <= a < 2 ^ 32 -> Z.land x 1023 = 0 -> Z.land (page_of a) x = Z.land a x.
Proof. intros Ha Hx. apply (page_hi a 0 x); [done|lia|]. by rewrite Z.land_comm. Qed.

(** The frame address with the offset in the page put in. *)
Lemma page_lo a x k : 0 <= a < 2 ^ 32 -> Z.land x 1023 = 0 -> 10 <= k ->
  Z.lor x (Z.land a (Z.ones k)) = Z.lor x (Z.land (page_of a) (Z.ones k)) + a mod 1024.
Proof.
  intros Ha Hx Hk. change 1024 with (2 ^ 10). rewrite <- Z.land_ones by lia.
  rewrite Z.add_nocarry_lxor.
  - zbits. unfold page_of. autorewrite with zbits.
    apply (f_equal (fun v => Z.testbit v i)) in Hx. rewrite Z.testbit_0_l, Z.land_spec, low10_testbit in Hx by lia.
    destruct (Z.ltb_spec i 10); destruct (Z.leb_spec 10 i); destruct (Z.ltb_spec i k); try lia; cbn [andb].
    + rewrite andb_true_r in Hx. rewrite Hx, !andb_false_r, andb_true_r. by destruct (Z.testbit a i).
    + rewrite !andb_true_r, andb_false_r, xorb_false_r. destruct (Z.ltb_spec i 32); [by rewrite andb_true_r|].
      by rewrite (testbit_high a 32) by lia.
    + by rewrite !andb_false_r, xorb_false_r.
  - zbits. unfold page_of. autorewrite with zbits.
    apply (f_equal (fun v => Z.testbit v i)) in Hx. rewrite Z.testbit_0_l, Z.land_spec, low10_testbit in Hx by lia.
    destruct (Z.ltb_spec i 10); [|by rewrite !andb_false_r].
    rewrite andb_true_r in Hx. rewrite Hx. destruct (Z.leb_spec 10 i); [lia|]. by rewrite andb_false_r.
Qed.

Lemma mask_low x y : Z.land y 1023 = 0 -> Z.land (Z.land x y) 1023 = 0.
Proof. intros E. by rewrite <- Z.land_assoc, E, Z.land_0_r. Qed.

(** ** The walk of a page *)

Definition relocate (off : Z) (w : walk) : walk :=
  match w with Translated p prot size => Translated (p + off) prot size | Fault c => Fault c end.
Definition at_offset (off : Z) (r : res walk) : res walk :=
  match r with Ok w => Ok (relocate off w) | Err f => Err f end.

(** Registers whose masks and process identifier do not reach into a page.
    The architecture has the low 25 bits of the process identifier zero, and
    [vmsa_ttbcr_raw_write] makes masks of at most the seven top bits; but [fcse_write]
    stores any value that the guest writes, and a guest that sets the low bits
    leaves [ok_fcse]. *)
Record env_ok (env : CPUARMState) : Prop := {
  ok_mask : Z.land (c2_mask env) 1023 = 0;
  ok_fcse : 0 <= c13_fcse env < 2 ^ 32 /\ c13_fcse env mod 1024 = 0;
  ok_ctrl : 0 <= c2_control env < 2 ^ 64;
  ok_ttbr : 0 <= ttbr0_el1 env < 2 ^ 64 /\ 0 <= ttbr1_el1 env < 2 ^ 64
}.

Section Facts.
Context {M : Type} `{PhysMem M} (m : M).

Lemma level1_page env a : env_ok env -> 0 <= a < 2 ^ 32 ->
  get_level1_table_address env (page_of a) = get_level1_table_address env a.
Proof.
  intros He Ha. unfold get_level1_table_address, is_set.
  rewrite (page_hi a 18), page_hi0 by (done || lia || apply ok_mask; done). done.
Qed.

Lemma check_at_offset env ap dp t u off p prot_of size code dom :
  (let* prot := check_ap env ap dp t u in
   if prot =? 0 then Ok (Fault (Z.lor code (Z.shiftl dom 4))) else Ok (Translated (p + off) (prot_of prot) size)) =
  at_offset off (let* prot := check_ap env ap dp t u in
   if prot =? 0 then Ok (Fault (Z.lor code (Z.shiftl dom 4))) else Ok (Translated p (prot_of prot) size)).
Proof. destruct (check_ap _ _ _ _ _) as [prot|]; [|done]. cbn [res_bind]. by destruct (prot =? 0). Qed.

Lemma v5_page env a t u : env_ok env -> 0 <= a < 2 ^ 32 ->
  get_phys_addr_v5 m env a t u = at_offset (a mod 1024) (get_phys_addr_v5 m env (page_of a) t u).
Proof.
  intros He Ha. unfold get_phys_addr_v5. rewrite (level1_page env a He Ha).
  rewrite !(page_hi a) by (done || lia).
  change 0x000fffff with (Z.ones 20). change 0xffff with (Z.ones 16). change 0xfff with (Z.ones 12).
  change 0x3ff with (Z.ones 10). rewrite !(page_lo a) by (done || lia || by apply mask_low).
  set (desc := ldl_phys m _). destruct (_ =? 0); [done|]. destruct (_ || _); [done|].
  destruct (_ =? 2); [by apply (check_at_offset env _ _ t u _ _ (fun p => Z.lor p PAGE_EXEC))|].
  set (desc2 := ldl_phys m _). destruct (Z.land desc2 3) as [|[[]|[]|]|]; try done; try by apply (check_at_offset env _ _ t u _ _ (fun p => Z.lor p PAGE_EXEC)).
  destruct (_ =? 1); [|by apply (check_at_offset env _ _ t u _ _ (fun p => Z.lor p PAGE_EXEC))]. destruct (arm_feature _ _); [by apply (check_at_offset env _ _ t u _ _ (fun p => Z.lor p PAGE_EXEC))|done].
Qed.

Lemma v6_check_page env dom dp p ap code size xn pxn t u off :
  v6_check env dom dp (p + off) ap code size xn pxn t u = at_offset off (v6_check env dom dp p ap code size xn pxn t u).
Proof.
  unfold v6_check. destruct (dp =? 3); [done|]. set (x := xn || _). cbv zeta. destruct (x && _); [done|].
  destruct (is_set _ _ && _); [done|].
  apply (check_at_offset env ap dp t u off p (fun prot => if x then prot else Z.lor prot PAGE_EXEC)).
Qed.

Lemma v6_page env a t u : env_ok env -> 0 <= a < 2 ^ 32 ->
  get_phys_addr_v6 m env a t u = at_offset (a mod 1024) (get_phys_addr_v6 m env (page_of a) t u).
Proof.
  intros He Ha. unfold get_phys_addr_v6. rewrite (level1_page env a He Ha).
  rewrite !(page_hi a) by (done || lia).
  change 0x00ffffff with (Z.ones 24). change 0x000fffff with (Z.ones 20). change 0xffff with (Z.ones 16).
  change 0xfff with (Z.ones 12). rewrite !(page_lo a) by (done || lia || by apply mask_low).
  set (desc := ldl_phys m _). destruct (_ || _); [done|]. destruct (_ || (_ =? 2)); [done|].
  destruct (negb (Z.land desc 3 =? 1)); [destruct (is_set desc (Z.shiftl 1 18)); apply v6_check_page|].
  set (desc2 := ldl_phys m _). destruct (Z.land desc2 3) as [|[[]|[]|]|]; try done; apply v6_check_page.
Qed.

(** ** Long descriptors *)

Lemma lpae_check_page p size l attrs t u off :
  lpae_check (p + off) size l attrs t u = at_offset off (lpae_check p size l attrs t u).
Proof.
  unfold lpae_check. destruct (_ =? 0); [done|]. destruct (_ && _); [done|]. destruct (_ && (t =? 2)); [done|].
  by destruct (_ && (t =? 1)).
Qed.

Lemma extract64_total x s n : 0 <= s -> 0 < n -> s + n <= 64 -> exists y, extract64 x s n = Ok y.
Proof. intros. unfold extract64, field_ok. zcases; try lia. by eexists. Qed.

Lemma extract32_total x s n : 0 <= s -> 0 < n -> s + n <= 32 -> exists y, extract32 x s n = Ok y.
Proof. intros. unfold extract32, field_ok. zcases; try lia. by eexists. Qed.

Lemma lpae_loop_page fuel : forall a l da ta t u, 0 <= a < 2 ^ 32 -> 1 <= l <= 3 ->
  lpae_loop m fuel a l da ta t u = at_offset (a mod 1024) (lpae_loop m fuel (page_of a) l da ta t u).
Proof.
  induction fuel as [|fuel IH]; intros a l da ta t u Ha Hl; [done|]. cbn [lpae_loop]. cbv zeta.
  rewrite page_hi; [|done|lia|assert (l = 1 \/ l = 2 \/ l = 3) as [->| [->| ->]] by lia; done].
  set (dd := ldq_phys m _). destruct (_ || _); [done|]. destruct (_ && _) eqn:Et.
  - destruct (extract64_total dd 59 5) as [y ->]; [lia..|]. cbn [res_bind]. apply IH; [done|lia].
  - assert (Z.shiftl 1 (39 - 9 * l) - 1 = Z.ones (39 - 9 * l)) as ->
      by (rewrite Z.ones_equiv, Z.shiftl_1_l; lia).
    rewrite (page_lo a) by (done || lia || by apply mask_low).
    destruct (lpae_attrs dd ta) as [attrs|]; [|done]. apply lpae_check_page.
Qed.

Lemma field3 x s : 0 <= s <= 29 -> exists t, extract32 x s 3 = Ok t /\ 0 <= t <= 7.
Proof.
  intros. unfold extract32, field_ok. zcases; try lia. eexists. split; [done|].
  change (Z.shiftr (2 ^ 32 - 1) (32 - 3)) with (Z.ones 3). rewrite Z.land_ones by lia.
  pose proof (Z.mod_pos_bound (Z.shiftr x s) (2 ^ 3)). lia.
Qed.

Lemma land_low_mod a k : 10 <= k -> Z.land a (Z.ones k) mod 1024 = a mod 1024.
Proof.
  intros Hk. change 1024 with (2 ^ 10). rewrite <- !Z.land_ones by lia. zbits.
  zcases; try lia; by rewrite ?andb_true_r, ?andb_false_r.
Qed.

Lemma select_page t0 t1 a : 0 <= t0 <= 7 -> 0 <= t1 <= 7 -> 0 <= a < 2 ^ 32 ->
  lpae_select t0 t1 (page_of a) = lpae_select t0 t1 a.
Proof.
  intros H0 H1 Ha.
  assert (forall k x, 1 <= k <= 7 -> Z.land (Z.shiftr 1023 (32 - k)) x = 0) as Hz.
  { intros k x Hk. assert (Z.shiftr 1023 (32 - k) = 0) as ->; [|apply Z.land_0_l].
    rewrite Z.shiftr_div_pow2 by lia. apply Z.div_small. pose proof (Z.pow_le_mono_r 2 25 (32 - k)). lia. }
  assert (forall k x, 10 <= k -> Z.land (Z.shiftr (u32 (Z.lnot (page_of a))) k) x =
      Z.land (Z.shiftr (u32 (Z.lnot a)) k) x) as Hn.
  { intros k x Hk. zbits. unfold page_of. autorewrite with zbits. zcases; try lia; done || by rewrite andb_true_r. }
  unfold lpae_select, extract32.
  destruct (Z.eqb_spec t0 0), (Z.eqb_spec t1 0); rewrite ?Hn, ?(page_hi a (32 - t0)) by (lia || apply Hz; lia); done.
Qed.

Lemma lpae_page env a t u : env_ok env -> 0 <= a < 2 ^ 32 ->
  get_phys_addr_lpae m env a t u = at_offset (a mod 1024) (get_phys_addr_lpae m env (page_of a) t u).
Proof.
  intros He Ha. unfold get_phys_addr_lpae.
  destruct (field3 (u32 (c2_control env)) 0) as (t0 & -> & H0); [lia|].
  destruct (field3 (u32 (c2_control env)) 16) as (t1 & -> & H1); [lia|]. cbn [res_bind].
  rewrite select_page by lia. destruct (lpae_select t0 t1 a) as [[sel|]|]; [|done|done]. cbn [res_bind].
  set (tsz := if sel =? 0 then t0 else t1). assert (0 <= tsz <= 7) by (unfold tsz; by destruct (sel =? 0)).
  destruct (extract32 _ _ 1) as [epd|]; [|done]. cbn [res_bind]. destruct (negb (epd =? 0)); [done|].
  assert (Z.shiftr 0xffffffff tsz = Z.ones (32 - tsz)) as ->.
  { change 0xffffffff with (Z.ones 32). rewrite Z.shiftr_div_pow2, Z.ones_div_pow2 by lia. done. }
  assert (Z.land (page_of a) (Z.ones (32 - tsz)) = page_of (Z.land a (Z.ones (32 - tsz)))) as ->.
  { unfold page_of. rewrite <- !Z.land_assoc. f_equal. apply Z.land_comm. }
  destruct (extract64 _ 0 40) as [da|]; [|by destruct (1 <? tsz)]. cbn [res_bind].
  pose proof (land_range 32 a (Z.ones (32 - tsz)) ltac:(lia) Ha).
  destruct (1 <? tsz); cbn iota; rewrite lpae_loop_page by lia; by rewrite land_low_mod by lia.
Qed.

(** ** The entry point *)

(** Translation by tables, or none: not by a protection unit. *)
Definition has_tables (env : CPUARMState) : Prop :=
  Z.land (c1_sys env) SCTLR_M = 0 \/ arm_feature env ARM_FEATURE_MPU = false.

Lemma fcse_page env a : env_ok env -> 0 <= a < 2 ^ 32 ->
  let va x := if x <? 0x02000000 then u32 (x + c13_fcse env) else x in
  0 <= va a < 2 ^ 32 /\ va (page_of a) = page_of (va a) /\ va a mod 1024 = a mod 1024.
Proof.
  intros He Ha va. destruct (ok_fcse env He) as [Hf Hm]. pose proof (page_of_val a Ha) as Ep.
  assert ((page_of a <? 0x02000000) = (a <? 0x02000000)) as Eb by (rewrite Ep; zcases; done || dlia).
  unfold va. rewrite Eb. destruct (Z.ltb_spec a 0x02000000) as [Hlt|_]; [|by split].
  pose proof (uwrap_range 32 (a + c13_fcse env) ltac:(lia)) as Hr. split; [done|].
  unfold uwrap in *. change (2 ^ 32) with (1024 * 2 ^ 22) in *. split.
  - rewrite Ep, page_of_val by done. change (1024 * 2 ^ 22) with 4294967296. dlia.
  - rewrite Z.rem_mul_r by lia. rewrite Z.mul_comm, Z.mod_add by lia.
    rewrite Z.mod_mod by lia. rewrite <- Z.add_mod_idemp_r, Hm, Z.add_0_r by lia. done.
Qed.

Lemma walk_page env a t u : env_ok env -> has_tables env -> 0 <= a < 2 ^ 32 ->
  get_phys_addr m env a t u = at_offset (a mod 1024) (get_phys_addr m env (page_of a) t u).
Proof.
  intros He Ht Ha. unfold get_phys_addr. destruct (fcse_page env a He Ha) as (Hr & -> & <-).
  set (va := if a <? _ then _ else _) in *. destruct (Z.eqb_spec (Z.land (c1_sys env) SCTLR_M) 0) as [|N].
  - cbn [at_offset relocate]. rewrite page_of_val by done. do 2 f_equal. lia.
  - destruct Ht as [|Em]; [done|]. rewrite Em.
    destruct (extended_addresses_enabled env); [by apply lpae_page|].
    destruct (is_set _ _); [by apply v6_page|by apply v5_page].
Qed.

(** ** Permissions *)

(** A walk, as a function of the access, tells in the protection it returns
    which accesses are allowed, and for those it does not depend on the
    access. *)
Definition exact (f : Z -> res walk) : Prop := forall t p prot size, 0 <= t <= 2 ->
  f t = Ok (Translated p prot size) -> Z.testbit prot t = true /\
  forall t', 0 <= t' <= 2 ->
    if Z.testbit prot t' then f t' = Ok (Translated p prot size) else exists c, c <> 0 /\ f t' = Ok (Fault c).

Lemma exact_fault r : (forall p prot size, r <> Ok (Translated p prot size)) -> exact (fun _ => r).
Proof. intros Hr t p prot size _ E. by apply Hr in E. Qed.

Lemma ap_exact env ap dp t u p : check_ap env ap dp t u = Ok p -> 0 <= t <= 2 -> p <> 0 ->
  (p = 3 \/ p = 1 /\ t <> 1) /\
  forall t', 0 <= t' <= 2 -> check_ap env ap dp t' u = Ok (if (t' =? 1) && (p =? 1) then 0 else p).
Proof.
  intros E Ht Hp. unfold check_ap in *. destruct (dp =? 3); [injection E as <-; split; [by left|]; intros t' _; by destruct (t' =? 1)|].
  cbv zeta in *.
  repeat (case_match; try done; try (injection E as <-));
    (split; [solve [by left | right; split; [done|intros ->; done]]|]);
    intros t' Ht'; destruct (t' =? 1); done.
Qed.

Lemma code_nonzero c d : c <> 0 -> Z.lor c d <> 0.
Proof. intros Hc E. by apply Z.lor_eq_0_iff in E as [? _]. Qed.

(** The end of a walk of short descriptors; [x] is execute-never. *)
Lemma check_exact env ap dp u p code size d (x : bool) : code <> 0 ->
  exact (fun t => if x && (t =? 2) then Ok (Fault (Z.lor code d)) else
    let* prot := check_ap env ap dp t u in
    if prot =? 0 then Ok (Fault (Z.lor code d))
    else Ok (Translated p (if x then prot else Z.lor prot PAGE_EXEC) size)).
Proof.
  intros Hc t q prot sz Ht E. assert (exists c, c <> 0 /\ Ok (Fault (Z.lor code d)) = Ok (Fault c)) as Hf
    by (eexists; split; [by apply code_nonzero|done]).
  destruct (x && (t =? 2)) eqn:Ex; [done|]. apply bind_Ok in E as (r & Er & E).
  destruct (Z.eqb_spec r 0); [done|]. injection E as <- <- <-. destruct (ap_exact env ap dp t u r Er Ht) as [Hr Hall]; [done|].
  split.
  - assert (t = 0 \/ t = 1 \/ t = 2) as [->| [->| ->]] by lia; destruct Hr as [->| [-> ?]], x; done.
  - intros t' Ht'. rewrite (Hall t' Ht'). cbn [res_bind].
    assert (t' = 0 \/ t' = 1 \/ t' = 2) as [->| [->| ->]] by lia; destruct Hr as [->| [-> ?]], x; done.
Qed.

Lemma v5_exact env a u : exact (fun t => get_phys_addr_v5 m env a t u).
Proof.
  unfold get_phys_addr_v5. set (desc := ldl_phys m _). destruct (_ =? 0); [by apply exact_fault|].
  destruct (_ || _); [by apply exact_fault|].
  destruct (_ =? 2); [by apply (check_exact env _ _ u _ _ _ _ false)|].
  set (desc2 := ldl_phys m _).
  destruct (Z.land desc2 3) as [|[[]|[]|]|]; try (by apply exact_fault); try by apply (check_exact env _ _ u _ _ _ _ false).
  destruct (_ =? 1); [|by apply (check_exact env _ _ u _ _ _ _ false)].
  destruct (arm_feature _ _); [by apply (check_exact env _ _ u _ _ _ _ false)|by apply exact_fault].
Qed.

Lemma v6_check_exact env dom dp p ap code size xn pxn u : code <> 0 ->
  exact (fun t => v6_check env dom dp p ap code size xn pxn t u).
Proof.
  intros Hc. unfold v6_check. destruct (dp =? 3).
  - intros t q prot sz Ht [= <- <- <-]. split; [|intros t' Ht'].
    + assert (t = 0 \/ t = 1 \/ t = 2) as [->| [->| ->]] by lia; done.
    + assert (t' = 0 \/ t' = 1 \/ t' = 2) as [->| [->| ->]] by lia; done.
  - set (x := xn || _). cbv zeta. destruct (is_set _ _ && _); [|by apply check_exact].
    intros t q prot sz Ht. by destruct (x && _).
Qed.

Lemma v6_exact env a u : exact (fun t => get_phys_addr_v6 m env a t u).
Proof.
  unfold get_phys_addr_v6. set (desc := ldl_phys m _). destruct (_ || _); [by apply exact_fault|].
  destruct (_ || (_ =? 2)); [by apply exact_fault|].
  destruct (negb (Z.land desc 3 =? 1)); [by destruct (is_set desc (Z.shiftl 1 18)); apply v6_check_exact|].
  set (desc2 := ldl_phys m _).
  destruct (Z.land desc2 3) as [|[[]|[]|]|]; try (by apply exact_fault); by apply v6_check_exact.
Qed.

Lemma lpae_check_exact p size l attrs u : exact (fun t => lpae_check p size l attrs t u).
Proof.
  unfold lpae_check. destruct (_ =? 0); [by apply exact_fault|]. destruct (_ && _); [by apply exact_fault|].
  set (x := _ || _). set (ro := is_set attrs (Z.shiftl 1 5)). cbv zeta. intros t q prot sz Ht E.
  assert (exists c, c <> 0 /\ lpae_fault permission_fault l = Ok (Fault c)) as Hf
    by (eexists; split; [|done]; rewrite <- Z.lor_assoc; by apply code_nonzero).
  destruct (x && (t =? 2)) eqn:E2; [done|]. destruct (ro && (t =? 1)) eqn:E1; [done|]. injection E as <- <- <-.
  split; [|intros t' Ht'].
  - assert (t = 0 \/ t = 1 \/ t = 2) as [->| [->| ->]] by lia; destruct x, ro; done.
  - assert (t' = 0 \/ t' = 1 \/ t' = 2) as [->| [->| ->]] by lia; destruct x, ro; done.
Qed.

Lemma lpae_loop_exact fuel : forall a l da ta u, exact (fun t => lpae_loop m fuel a l da ta t u).
Proof.
  induction fuel as [|fuel IH]; intros a l da ta u; [by apply (exact_fault (Err OutOfFuel))|]. cbn [lpae_loop]. cbv zeta.
  set (dd := ldq_phys m _). destruct (_ || _); [by apply exact_fault|]. destruct (_ && _).
  - destruct (extract64 dd 59 5); [apply IH|by apply (exact_fault (Err f))].
  - destruct (lpae_attrs dd ta); [apply lpae_check_exact|by apply (exact_fault (Err f))].
Qed.

Lemma lpae_exact env a u : exact (fun t => get_phys_addr_lpae m env a t u).
Proof.
  unfold get_phys_addr_lpae. destruct (extract32 _ 0 3) as [|f]; [|by apply (exact_fault (Err f))].
  destruct (extract32 _ 16 3) as [|f]; [|by apply (exact_fault (Err f))]. cbn [res_bind].
  destruct (lpae_select _ _ _) as [[sel|]|f]; [|by apply (exact_fault (lpae_fault translation_fault 1))|by apply (exact_fault (Err f))]. cbn [res_bind].
  destruct (extract32 _ _ 1) as [|f]; [|by apply (exact_fault (Err f))]. cbn [res_bind]. destruct (negb _); [by apply exact_fault|].
  destruct (extract64 _ 0 40) as [|f]; cbn [res_bind]; [|by destruct (1 <? _); apply (exact_fault (Err f))].
  destruct (1 <? _); apply lpae_loop_exact.
Qed.

Lemma walk_exact env a u : has_tables env -> exact (fun t => get_phys_addr m env a t u).
Proof.
  intros Ht. unfold get_phys_addr. set (va := if a <? _ then _ else _).
  destruct (Z.eqb_spec (Z.land (c1_sys env) SCTLR_M) 0) as [|N].
  - apply (v6_check_exact env 0 3 va 0 1 TARGET_PAGE_SIZE false false u). done.
  - destruct Ht as [|Em]; [done|]. rewrite Em.
    destruct (extended_addresses_enabled env); [apply lpae_exact|].
    destruct (is_set _ _); [apply v6_exact|apply v5_exact].
Qed.

(** ** Results *)

(** A walk that succeeds gives an address of the physical address space with
    the offset of the virtual one, and a page size that is a power of two. *)
Definition good (a : Z) (r : res walk) : Prop :=
  match r with
  | Ok (Translated p _ size) => 0 <= p < 2 ^ 40 /\ p mod 1024 = a mod 1024 /\ exists k, 10 <= k <= 30 /\ size = 2 ^ k
  | Ok (Fault c) => c <> 0
  | Err _ => False
  end.

Lemma frame_good a x y k : 0 <= a < 2 ^ 32 -> 0 <= y < 2 ^ 40 -> Z.land y 1023 = 0 -> 10 <= k ->
  let p := Z.lor (Z.land x y) (Z.land a (Z.ones k)) in 0 <= p < 2 ^ 40 /\ p mod 1024 = a mod 1024.
Proof.
  intros Ha Hy Hz Hk p. split.
  - apply lor_range; [lia| |pose proof (land_range 32 a (Z.ones k)); lia].
    rewrite Z.land_comm. apply land_range; lia.
  - unfold p. rewrite <- (land_low_mod a k) by done. change 1024 with (2 ^ 10). rewrite <- !Z.land_ones by lia.
    change (Z.ones 10) with 1023. by rewrite Z.land_lor_distr_l, (mask_low x y Hz), Z.lor_0_l.
Qed.

Lemma ap_total env ap dp t u : 0 <= ap <= 7 -> exists p, check_ap env ap dp t u = Ok p.
Proof.
  intros Ha. unfold check_ap. destruct (dp =? 3); [by eexists|]. cbv zeta.
  repeat (case_match; try lia); by eexists.
Qed.

Lemma land3 x : 0 <= Z.land x 3 <= 3.
Proof.
  pose proof (Z.land_ones x 2 ltac:(lia)) as E. change (Z.ones 2) with 3 in E. rewrite E.
  pose proof (Z.mod_pos_bound x (2 ^ 2)). lia.
Qed.

Lemma check_good env a ap dp t u p code k d prot_of : 0 <= ap <= 7 -> code <> 0 -> 10 <= k <= 30 ->
  0 <= p < 2 ^ 40 /\ p mod 1024 = a mod 1024 ->
  good a (let* prot := check_ap env ap dp t u in
    if prot =? 0 then Ok (Fault (Z.lor code d)) else Ok (Translated p (prot_of prot) (2 ^ k))).
Proof.
  intros Ha Hc Hk [Hp Hm]. destruct (ap_total env ap dp t u Ha) as [prot ->]. cbn [res_bind].
  destruct (prot =? 0); cbn [good]; [by apply code_nonzero|]. split; [done|]. split; [done|]. by exists k.
Qed.

Lemma v5_good env a t u : 0 <= a < 2 ^ 32 -> good a (get_phys_addr_v5 m env a t u).
Proof.
  intros Ha. unfold get_phys_addr_v5. set (desc := ldl_phys m _).
  assert (forall x, 0 <= Z.land x 3 <= 7) as H3 by (intros x; pose proof (land3 x); lia).
  destruct (_ =? 0); [by apply code_nonzero|]. destruct (_ || _); [by apply code_nonzero; destruct (_ =? 2)|].
  change 0x000fffff with (Z.ones 20). change 0xffff with (Z.ones 16). change 0xfff with (Z.ones 12).
  change 0x3ff with (Z.ones 10).
  destruct (_ =? 2);
    [apply (check_good env a _ _ t u _ 13 20 _ (fun p => Z.lor p PAGE_EXEC)); [done|lia|lia|by apply frame_good]|].
  set (desc2 := ldl_phys m _). pose proof (land3 desc2) as L.
  assert (forall y k j, (y, k) ∈ [(0xffff0000, 16); (0xfffff000, 12); (0xfffffc00, 10)] -> 10 <= j <= 30 -> forall ap, 0 <= ap <= 7 ->
    good a (let* prot := check_ap env ap (Z.land (Z.shiftr (c3 env) (Z.land (Z.shiftr desc 5) 15 * 2)) 3) t u in
      if prot =? 0 then Ok (Fault (Z.lor 15 (Z.shiftl (Z.land (Z.shiftr desc 5) 15) 4)))
      else Ok (Translated (Z.lor (Z.land desc2 y) (Z.land a (Z.ones k))) (Z.lor prot PAGE_EXEC) (2 ^ j)))) as C.
  { intros y k j Hin Hj ap Hap. apply (check_good env a _ _ t u _ 15 j _ (fun p => Z.lor p PAGE_EXEC)); [done|lia|lia|].
    rewrite !elem_of_cons in Hin. destruct Hin as [[= -> ->]|[[= -> ->]|[[= -> ->]|Hin]]]; [by apply frame_good..|].
    by apply elem_of_nil in Hin. }
  destruct (Z.land desc2 3) as [|[[]|[]|]|]; try lia; [by apply code_nonzero|..].
  - destruct (_ =? 1); [destruct (arm_feature _ _)|]; [|by apply code_nonzero|].
    + by apply (C 0xfffff000 12 10); [rewrite !elem_of_cons; naive_solver|lia|].
    + by apply (C 0xfffffc00 10 10); [rewrite !elem_of_cons; naive_solver|lia|].
  - by apply (C 0xfffff000 12 12); [rewrite !elem_of_cons; naive_solver|lia|].
  - by apply (C 0xffff0000 16 16); [rewrite !elem_of_cons; naive_solver|lia|].
Qed.

Lemma v6_check_good env a dom dp p ap code k xn pxn t u : 0 <= ap <= 7 -> code <> 0 -> 10 <= k <= 30 ->
  0 <= p < 2 ^ 40 /\ p mod 1024 = a mod 1024 ->
  good a (v6_check env dom dp p ap code (2 ^ k) xn pxn t u).
Proof.
  intros Ha Hc Hk Hp. unfold v6_check. destruct (dp =? 3).
  { cbn [good]. destruct Hp. split; [done|]. split; [done|]. by exists k. }
  set (x := xn || _). cbv zeta. destruct (x && _); [by apply code_nonzero|].
  destruct (is_set _ _ && _); [by apply code_nonzero; destruct (code =? 15)|].
  by apply (check_good env a ap dp t u p code k _ (fun prot => if x then prot else Z.lor prot PAGE_EXEC)).
Qed.

Lemma ap3_range x y : 0 <= Z.lor (Z.land x 3) (Z.land y 4) <= 7.
Proof.
  enough (0 <= Z.lor (Z.land x 3) (Z.land y 4) < 2 ^ 3) by lia.
  apply lor_range; [lia|pose proof (land3 x); lia|]. rewrite Z.land_comm. apply land_range; lia.
Qed.

Lemma v6_good env a t u : 0 <= a < 2 ^ 32 -> good a (get_phys_addr_v6 m env a t u).
Proof.
  intros Ha. unfold get_phys_addr_v6. set (desc := ldl_phys m _).
  destruct (_ || _); [by apply code_nonzero|].
  destruct (_ || (_ =? 2)); [by apply code_nonzero; destruct (negb _)|].
  change 0x00ffffff with (Z.ones 24). change 0x000fffff with (Z.ones 20). change 0xffff with (Z.ones 16).
  change 0xfff with (Z.ones 12).
  destruct (negb (Z.land desc 3 =? 1)).
  - destruct (is_set desc (Z.shiftl 1 18)).
    + apply (v6_check_good env a _ _ _ _ _ 24); [apply ap3_range|lia|lia|by apply frame_good].
    + apply (v6_check_good env a _ _ _ _ _ 20); [apply ap3_range|lia|lia|by apply frame_good].
  - set (desc2 := ldl_phys m _). pose proof (land3 desc2) as L.
    destruct (Z.land desc2 3) as [|[[]|[]|]|]; try lia; [by apply code_nonzero|..].
    + apply (v6_check_good env a _ _ _ _ _ 12); [apply ap3_range|lia|lia|by apply frame_good].
    + apply (v6_check_good env a _ _ _ _ _ 12); [apply ap3_range|lia|lia|by apply frame_good].
    + apply (v6_check_good env a _ _ _ _ _ 16); [apply ap3_range|lia|lia|by apply frame_good].
Qed.

Lemma lpae_fault_good a ft l : good a (lpae_fault ft l).
Proof. cbn [good lpae_fault]. rewrite <- Z.lor_assoc. by apply code_nonzero. Qed.

Lemma lpae_loop_good fuel : forall a l da ta t u, 0 <= a < 2 ^ 32 -> 1 <= l <= 3 -> 4 - l <= Z.of_nat fuel ->
  good a (lpae_loop m fuel a l da ta t u).
Proof.
  induction fuel as [|fuel IH]; intros a l da ta t u Ha Hl Hf; [lia|]. cbn [lpae_loop]. cbv zeta.
  set (dd := ldq_phys m _). destruct (_ || _); [apply lpae_fault_good|]. destruct (_ && _) eqn:Et.
  - apply andb_prop in Et as [_ Et]. apply Z.ltb_lt in Et.
    destruct (extract64_total dd 59 5) as [y ->]; [lia..|]. cbn [res_bind]. apply IH; [done|lia|lia].
  - assert (Z.shiftl 1 (39 - 9 * l) - 1 = Z.ones (39 - 9 * l)) as -> by (rewrite Z.ones_equiv, Z.shiftl_1_l; lia).
    unfold lpae_attrs. destruct (extract64_total dd 2 10) as [? ->]; [lia..|].
    destruct (extract64_total dd 52 12) as [? ->]; [lia..|]. destruct (extract32_total ta 0 2) as [? ->]; [lia..|].
    destruct (extract32_total ta 3 1) as [? ->]; [lia..|]. destruct (extract32_total ta 2 1) as [? ->]; [lia..|].
    cbn [res_bind]. clear Et. set (attrs := if negb _ then _ else _). clearbody attrs. unfold lpae_check.
    destruct (_ =? 0); [apply lpae_fault_good|].
    destruct (_ && _); [apply lpae_fault_good|]. destruct (_ && (t =? 2)); [apply lpae_fault_good|].
    destruct (_ && (t =? 1)); [apply lpae_fault_good|]. cbn [good].
    destruct (frame_good a dd 0xfffffff000 (39 - 9 * l) Ha) as [F1 F2]; [lia|done|lia|].
    split; [done|]. split; [done|]. exists (39 - 9 * l). split; [lia|]. apply Z.shiftl_1_l.
Qed.

Lemma lpae_good env a t u : 0 <= a < 2 ^ 32 -> good a (get_phys_addr_lpae m env a t u).
Proof.
  intros Ha. unfold get_phys_addr_lpae.
  destruct (field3 (u32 (c2_control env)) 0) as (t0 & -> & H0); [lia|].
  destruct (field3 (u32 (c2_control env)) 16) as (t1 & -> & H1); [lia|]. cbn [res_bind].
  assert (exists sel, lpae_select t0 t1 a = Ok sel) as [sel ->].
  { unfold lpae_select. destruct (Z.eqb_spec t0 0) as [|N0], (Z.eqb_spec t1 0) as [|N1].
    - by eexists.
    - destruct (extract32_total (u32 (Z.lnot a)) (32 - t1) t1) as [? ->]; [lia..|]. by eexists.
    - destruct (extract32_total a (32 - t0) t0) as [? ->]; [lia..|]. cbn [res_bind]. by destruct (_ =? 0); eexists.
    - destruct (extract32_total a (32 - t0) t0) as [? ->]; [lia..|]. cbn [res_bind]. destruct (_ =? 0); [by eexists|].
      destruct (extract32_total (u32 (Z.lnot a)) (32 - t1) t1) as [? ->]; [lia..|]. by eexists. }
  cbn [res_bind]. destruct sel as [sel|]; [|apply lpae_fault_good].
  set (tsz := if sel =? 0 then t0 else t1). assert (0 <= tsz <= 7) by (unfold tsz; by destruct (sel =? 0)).
  destruct (extract32_total (u32 (c2_control env)) (if sel =? 0 then 7 else 23) 1) as [epd ->];
    [by destruct (sel =? 0)|lia|by destruct (sel =? 0)|]. cbn [res_bind].
  destruct (negb (epd =? 0)); [apply lpae_fault_good|].
  assert (Z.shiftr 0xffffffff tsz = Z.ones (32 - tsz)) as ->.
  { change 0xffffffff with (Z.ones 32). rewrite Z.shiftr_div_pow2, Z.ones_div_pow2 by lia. done. }
  pose proof (land_range 32 a (Z.ones (32 - tsz)) ltac:(lia) Ha) as Hr.
  assert (forall x, good (Z.land a (Z.ones (32 - tsz))) x -> good a x) as G.
  { intros [[p prot size|c]|]; cbn [good]; [|done|done]. by rewrite land_low_mod by lia. }
  set (ttbr := if sel =? 0 then _ else _). destruct (extract64_total ttbr 0 40) as [da E]; [lia..|].
  destruct (1 <? tsz); rewrite E; cbn [res_bind]; apply G, lpae_loop_good; lia.
Qed.

(** A walk by tables ends and trips no assertion. *)
Lemma walk_good env a t u : env_ok env -> has_tables env -> 0 <= a < 2 ^ 32 -> good a (get_phys_addr m env a t u).
Proof.
  intros He Ht Ha. destruct (fcse_page env a He Ha) as (Hr & _ & Em).
  assert (forall va x, va mod 1024 = a mod 1024 -> good va x -> good a x) as G.
  { intros va [[p prot size|c]|] E; cbn [good]; [|done|done]. by rewrite E. }
  unfold get_phys_addr. set (va := if a <? _ then _ else _) in *. apply (G va); [done|].
  destruct (Z.eqb_spec (Z.land (c1_sys env) SCTLR_M) 0) as [|N].
  - cbn [good]. split; [lia|]. split; [done|]. by exists 10.
  - destruct Ht as [|Et]; [done|]. rewrite Et.
    destruct (extended_addresses_enabled env); [by apply lpae_good|].
    destruct (is_set _ _); [by apply v6_good|by apply v5_good].
Qed.
(** ** Frames *)

(** Where both translate, two walks agree on the address and the page size. *)
Definition same_frame (r r' : res walk) : Prop :=
  match r, r' with
  | Ok (Translated p _ size), Ok (Translated p' _ size') => p = p' /\ size = size'
  | _, _ => True
  end.

(** A fault, or a translation to [pa] by a page of [ps] bytes. *)
Definition framed (pa ps : Z) (r : res walk) : Prop :=
  match r with Ok (Translated p _ size) => p = pa /\ size = ps | _ => True end.

Lemma framed_same pa ps r r' : framed pa ps r -> framed pa ps r' -> same_frame r r'.
Proof. destruct r as [[]|], r' as [[]|]; cbn; intuition congruence. Qed.

Lemma lpae_check_framed d ps level attrs t u : framed d ps (lpae_check d ps level attrs t u).
Proof.
  unfold lpae_check, lpae_fault. cbv zeta.
  repeat match goal with |- framed _ _ (if ?b then _ else _) => destruct b end; done.
Qed.

Lemma v6_check_framed env d dp pa ap code ps xn pxn t u : framed pa ps (v6_check env d dp pa ap code ps xn pxn t u).
Proof.
  unfold v6_check. cbv zeta. repeat match goal with |- framed _ _ (if ?b then _ else _) => destruct b end; try done.
  destruct (check_ap _ _ _ _ _) as [q|]; [|done]. cbn [res_bind]. by destruct (q =? 0).
Qed.

Lemma lpae_loop_frame t u t' u' n : forall a level d attrs,
  same_frame (lpae_loop m n a level d attrs t u) (lpae_loop m n a level d attrs t' u').
Proof.
  induction n as [|n IH]; intros a level d attrs; [done|]. cbn [lpae_loop].
  destruct (_ || _); [done|]. destruct (_ && _).
  - destruct (extract64 _ _ _); [|done]. cbn [res_bind]. apply IH.
  - destruct (lpae_attrs _ _); [|done]. cbn [res_bind]. eapply framed_same; apply lpae_check_framed.
Qed.

(** The type of the access and the mode decide if a walk faults, and the
    protection, but not the frame. *)
Lemma walk_frame env a t u t' u' : same_frame (get_phys_addr m env a t u) (get_phys_addr m env a t' u').
Proof.
  unfold get_phys_addr. set (va := if a <? _ then _ else _). destruct (_ =? 0); [done|].
  destruct (arm_feature env ARM_FEATURE_MPU).
  { unfold get_phys_addr_mpu. destruct (mpu_find env va 8) as [[n|]|]; [|done|done]. cbn [res_bind].
    apply (framed_same va TARGET_PAGE_SIZE); cbv zeta; repeat (case_match; try done). }
  destruct (extended_addresses_enabled env).
  { unfold get_phys_addr_lpae. destruct (extract32 _ 0 3); [|done]. cbn [res_bind]. destruct (extract32 _ 16 3); [|done]. cbn [res_bind].
    destruct (lpae_select _ _ _) as [[x|]|]; [|done|done]. cbn [res_bind]. destruct (extract32 _ _ 1); [|done]. cbn [res_bind].
    destruct (negb _); [done|]. destruct (1 <? _); (destruct (extract64 _ _ _); [|done]); cbn [res_bind]; apply lpae_loop_frame. }
  destruct (is_set (c1_sys env) SCTLR_XP).
  - unfold get_phys_addr_v6. destruct (_ || _); [done|]. cbv zeta. destruct (_ || _); [done|].
    destruct (negb _); [destruct (is_set _ _)|]; repeat (case_match; try done); eapply framed_same; apply v6_check_framed.
  - assert (forall dp ap pa code ps t u, framed pa ps
      (let* prot := check_ap env ap dp t u in if prot =? 0 then Ok (Fault code) else Ok (Translated pa (Z.lor prot PAGE_EXEC) ps))) as C.
    { intros. destruct (check_ap _ _ _ _ _) as [q|]; [|done]. cbn [res_bind]. by destruct (q =? 0). }
    unfold get_phys_addr_v5. cbv zeta. repeat (case_match; try done); eapply framed_same; apply C.
Qed.
End Facts.
