(* ===== verification/Cputlb.v ===== *)
(** * The software TLB ([cputlb.c], [softmmu_template.h], [exec.c])

    Guest accesses go through a direct-mapped table of translations per MMU
    mode.  An entry has, for reads, writes and instruction fetches, the page it
    is for (or an invalid value) with flags in the low bits, and the distance
    from guest to host addresses; accesses that must not go to RAM directly use
    the value in [iotlb], a section number in the low bits and an offset.  The
    target is 32-bit ARM on a 64-bit host: [target_ulong] has 32 bits and
    [TARGET_PAGE_BITS] is 10.

    [machine] is what the table is filled from: the dispatch of the address
    space ([PhysMap]), the attributes of the memory regions, the dirty bitmap
    and the watchpoints.  The caches of translated code that a flush also drops
    are not part of the state. *)

From stdpp Require Import base list numbers.
From S2P Require Import Prelude Int128 PhysMap.
Import Int128.

Definition CPU_TLB_BITS : Z := 8.
Definition CPU_TLB_SIZE : Z := 256.
Definition NB_MMU_MODES : Z := 2.
Definition TARGET_PAGE_MASK : Z := 0xfffffc00.
Definition TLB_INVALID_MASK : Z := Z.shiftl 1 3.
Definition TLB_NOTDIRTY : Z := Z.shiftl 1 4.
Definition TLB_MMIO : Z := Z.shiftl 1 5.
Definition PAGE_READ : Z := 1.
Definition PAGE_WRITE : Z := 2.
Definition PAGE_EXEC : Z := 4.
Definition BP_MEM_READ : Z := 1.
Definition has (x bits : Z) : bool := negb (Z.land x bits =? 0).

Record CPUTLBEntry : Type := mkTE { addr_read : Z; addr_write : Z; addr_code : Z; addend : Z }.

Record CPUTLB : Type := mkTLB {
  tlb_table : list (list CPUTLBEntry); iotlb : list (list Z); tlb_flush_addr : Z; tlb_flush_mask : Z
}.

(** The regions behind the sections: [mr->ram], [memory_region_is_romd], the
    host pointer and the RAM address; whether a RAM page is clean; the
    watchpoints ([vaddr] and [flags]). *)
Record machine : Type := mkMachine {
  dispatch : AddressSpaceDispatch; region_size : Z -> Int128;
  is_ram : mref -> bool; is_romd : mref -> bool; ram_ptr : mref -> Z; ram_addr : mref -> Z;
  is_clean : Z -> bool; watchpoints : list (Z * Z)
}.

(** ** Flushing *)

(** [memset(entry, -1, sizeof)] *)
Definition no_entry : CPUTLBEntry := mkTE (2 ^ 32 - 1) (2 ^ 32 - 1) (2 ^ 32 - 1) (2 ^ 64 - 1).

Definition tlb_flush (t : CPUTLB) : CPUTLB :=
  mkTLB ((fun row : list CPUTLBEntry => (fun _ => no_entry) <$> row) <$> tlb_table t) (iotlb t) (2 ^ 32 - 1) 0.

Definition tlb_flush_entry (te : CPUTLBEntry) (addr : Z) : CPUTLBEntry :=
  let page x := Z.land x (Z.lor TARGET_PAGE_MASK TLB_INVALID_MASK) in
  if (addr =? page (addr_read te)) || (addr =? page (addr_write te)) || (addr =? page (addr_code te))
  then no_entry else te.

Definition tlb_index (addr : Z) : Z := Z.land (Z.shiftr addr TARGET_PAGE_BITS) (CPU_TLB_SIZE - 1).

(** [env->tlb_table[mmu_idx][i]] *)
Definition te_get (t : CPUTLB) (mmu_idx i : Z) : res CPUTLBEntry :=
  let* row := aget (tlb_table t) mmu_idx in aget row i.
Definition te_set (t : CPUTLB) (mmu_idx i : Z) (te : CPUTLBEntry) : res CPUTLB :=
  let* row := aget (tlb_table t) mmu_idx in
  let* row := aset row i te in
  let* tab := aset (tlb_table t) mmu_idx row in
  Ok (mkTLB tab (iotlb t) (tlb_flush_addr t) (tlb_flush_mask t)).

(** The entry [i] of every mode. *)
Definition each_mode (i : Z) (f : CPUTLBEntry -> CPUTLBEntry) (t : CPUTLB) : res CPUTLB :=
  for_loop (Z.to_nat NB_MMU_MODES) 0
    (fun mmu_idx t => let* te := te_get t mmu_idx i in te_set t mmu_idx i (f te)) t.

Definition tlb_flush_page (t : CPUTLB) (addr : Z) : res CPUTLB :=
  if Z.land addr (tlb_flush_mask t) =? tlb_flush_addr t then Ok (tlb_flush t) else
  let addr := Z.land addr TARGET_PAGE_MASK in
  each_mode (tlb_index addr) (fun te => tlb_flush_entry te addr) t.

(** ** Dirty tracking *)

Definition tlb_is_dirty_ram (te : CPUTLBEntry) : bool :=
  Z.land (addr_write te) (Z.lor (Z.lor TLB_INVALID_MASK TLB_MMIO) TLB_NOTDIRTY) =? 0.

Definition set_addr_write (te : CPUTLBEntry) (w : Z) : CPUTLBEntry :=
  mkTE (addr_read te) w (addr_code te) (addend te).

Definition tlb_reset_dirty_range (te : CPUTLBEntry) (start length : Z) : CPUTLBEntry :=
  if tlb_is_dirty_ram te then
    let addr := u64 (Z.land (addr_write te) TARGET_PAGE_MASK + addend te) in
    if u64 (addr - start) <? length then set_addr_write te (Z.lor (addr_write te) TLB_NOTDIRTY) else te
  else te.

(** One CPU of the loop. *)
Definition cpu_tlb_reset_dirty_all (t : CPUTLB) (start1 length : Z) : CPUTLB :=
  mkTLB ((fun row : list CPUTLBEntry => (fun te => tlb_reset_dirty_range te start1 length) <$> row) <$> tlb_table t) (iotlb t)
    (tlb_flush_addr t) (tlb_flush_mask t).

Definition tlb_set_dirty1 (te : CPUTLBEntry) (vaddr : Z) : CPUTLBEntry :=
  if addr_write te =? Z.lor vaddr TLB_NOTDIRTY then set_addr_write te vaddr else te.

Definition tlb_set_dirty (t : CPUTLB) (vaddr : Z) : res CPUTLB :=
  let vaddr := Z.land vaddr TARGET_PAGE_MASK in
  each_mode (tlb_index vaddr) (fun te => tlb_set_dirty1 te vaddr) t.

(** ** Filling *)

(** [while (((tlb_flush_addr ^ vaddr) & mask) != 0) mask <<= 1;] *)
Fixpoint widen (fuel : nat) (diff mask : Z) : res Z :=
  match fuel with
  | O => Err OutOfFuel
  | S fuel => if Z.land diff mask =? 0 then Ok mask else widen fuel diff (u32 (Z.shiftl mask 1))
  end.

Definition tlb_add_large_page (t : CPUTLB) (vaddr size : Z) : res CPUTLB :=
  let mask := u32 (Z.lnot (u32 (size - 1))) in
  if tlb_flush_addr t =? 2 ^ 32 - 1 then Ok (mkTLB (tlb_table t) (iotlb t) (Z.land vaddr mask) mask) else
  let* mask := widen 33 (Z.lxor (tlb_flush_addr t) vaddr) (Z.land mask (tlb_flush_mask t)) in
  Ok (mkTLB (tlb_table t) (iotlb t) (Z.land (tlb_flush_addr t) mask) mask).

(** No region of the dispatch is an IOMMU. *)
Definition address_space_translate_for_iotlb (mc : machine) (addr plen : Z) : res (Z * Z * Z) :=
  address_space_translate_internal (region_size mc) (dispatch mc) addr plen false.

(** The loop over the watchpoints. *)
Definition watched (mc : machine) (vaddr prot : Z) : bool :=
  existsb (fun wp => (vaddr =? Z.land wp.1 TARGET_PAGE_MASK) && (has prot PAGE_WRITE || has wp.2 BP_MEM_READ))
    (watchpoints mc).

(** The value for [iotlb] and the flags added to [*address]. *)
Definition memory_region_section_get_iotlb (mc : machine) (n : Z) (section : MemoryRegionSection)
    (vaddr paddr xlat prot address : Z) : Z * Z :=
  let mr := sec_mr section in
  let io :=
    if is_ram mc mr then
      Z.lor (u64 (page_base (ram_addr mc mr) + xlat))
        (if negb (sec_readonly section) then PHYS_SECTION_NOTDIRTY else PHYS_SECTION_ROM)
    else u64 (n + xlat) in
  if watched mc vaddr prot
  then (u64 (PHYS_SECTION_WATCH + paddr), Z.lor address TLB_MMIO)
  else (io, address).

(** The entry and the [iotlb] value for a page; the section is [sections[n]]. *)
Definition tlb_entry_for (mc : machine) (vaddr paddr prot n xlat : Z) (section : MemoryRegionSection) :
    CPUTLBEntry * Z :=
  let mr := sec_mr section in
  let direct := is_ram mc mr || is_romd mc mr in
  let address := if direct then vaddr else Z.lor vaddr TLB_MMIO in
  let base := if direct then u64 (ram_ptr mc mr + xlat) else 0 in
  let code_address := address in
  let (io, address) := memory_region_section_get_iotlb mc n section vaddr paddr xlat prot address in
  let w :=
    if (is_ram mc mr && sec_readonly section) || is_romd mc mr then Z.lor address TLB_MMIO
    else if is_ram mc mr && is_clean mc (u64 (ram_addr mc mr + xlat)) then Z.lor address TLB_NOTDIRTY
    else address in
  (mkTE (if has prot PAGE_READ then address else 2 ^ 32 - 1) (if has prot PAGE_WRITE then w else 2 ^ 32 - 1)
     (if has prot PAGE_EXEC then code_address else 2 ^ 32 - 1) (u64 (base - vaddr)), u64 (io - vaddr)).

Definition tlb_set_page (mc : machine) (t : CPUTLB) (vaddr paddr prot mmu_idx size : Z) : res CPUTLB :=
  let* _ := c_assert (TARGET_PAGE_SIZE <=? size) in
  let* t := if negb (size =? TARGET_PAGE_SIZE) then tlb_add_large_page t vaddr size else Ok t in
  let* (n, xlat, sz) := address_space_translate_for_iotlb mc paddr size in
  let* _ := c_assert (TARGET_PAGE_SIZE <=? sz) in
  let* section := aget (sections (map (dispatch mc))) n in
  let (te, io) := tlb_entry_for mc vaddr paddr prot n xlat section in
  let index := tlb_index vaddr in
  let* ios := aget (iotlb t) mmu_idx in
  let* ios := aset ios index io in
  let* ios := aset (iotlb t) mmu_idx ios in
  let* t := te_set t mmu_idx index te in
  Ok (mkTLB (tlb_table t) ios (tlb_flush_addr t) (tlb_flush_mask t)).
