(* ===== verification/CputlbFacts.v ===== *)
(** * The software TLB: large pages, entries and tables

    The area that [tlb_add_large_page] keeps contains every large page that was
    entered; an entry matches exactly the accesses that its protection allows
    to its page; updates of the table are local. *)

From stdpp Require Import base list numbers.
From S2P Require Import Prelude Int128 PhysMap Cputlb.
Import Int128.

(** ** Masks of high bits *)

Definition himask (j : Z) : Z := 2 ^ 32 - 2 ^ j.

Lemma himask_testbit j i : 0 <= j <= 32 -> 0 <= i -> Z.testbit (himask j) i = (j <=? i) && (i <? 32).
Proof.
  intros Hj Hi. assert (himask j = Z.shiftl (Z.ones (32 - j)) j) as ->.
  { unfold himask. rewrite Z.shiftl_mul_pow2, Z.ones_equiv, <- Z.sub_1_r by lia.
    rewrite Z.mul_sub_distr_r, <- Z.pow_add_r by lia. replace (32 - j + j) with 32 by lia. lia. }
  rewrite Z.shiftl_spec by lia. destruct (Z.leb_spec j i); cbn [andb].
  - rewrite ones_testbit by lia. zcases; done || lia.
  - apply Z.testbit_neg_r. lia.
Qed.

Lemma himask_land x j : 0 <= x < 2 ^ 32 -> 0 <= j <= 32 -> Z.land x (himask j) = x - x mod 2 ^ j.
Proof.
  intros Hx Hj. assert (x - x mod 2 ^ j = Z.shiftl (Z.shiftr x j) j) as ->.
  { rewrite Z.shiftl_mul_pow2, Z.shiftr_div_pow2 by lia. pose proof (Z.div_mod x (2 ^ j)). lia. }
  zbits. rewrite himask_testbit by lia. destruct (Z.leb_spec j i); cbn [andb].
  - rewrite Z.shiftr_spec by lia. replace (i - j + j) with i by lia.
    destruct (Z.ltb_spec i 32); [apply andb_true_r|by rewrite (testbit_high x 32) by lia].
  - by rewrite andb_false_r, Z.testbit_neg_r by lia.
Qed.

Lemma himask_and i j : 0 <= i <= 32 -> 0 <= j <= 32 -> Z.land (himask i) (himask j) = himask (Z.max i j).
Proof. intros. zbits. rewrite !himask_testbit by lia. zcases; done || lia. Qed.

Lemma himask_shift j : 0 <= j <= 32 -> u32 (Z.shiftl (himask j) 1) = himask (Z.min (j + 1) 32).
Proof.
  intros. zbits. rewrite (himask_testbit (Z.min _ _)) by lia. destruct (Z.ltb_spec i 32); cbn [andb].
  - destruct (Z.eq_dec i 0) as [->|]; [rewrite Z.testbit_neg_r by lia; zcases; done || lia|].
    rewrite himask_testbit by lia. zcases; done || lia.
  - zcases; done || lia.
Qed.

Lemma size_mask k : 0 <= k <= 32 -> u32 (Z.lnot (u32 (2 ^ k - 1))) = himask k.
Proof.
  intros. zbits. rewrite himask_testbit by lia. destruct (Z.ltb_spec i 32); cbn [andb]; [|by rewrite andb_false_r].
  replace (2 ^ k - 1) with (Z.ones k) by (rewrite Z.ones_equiv; lia). rewrite ones_testbit by lia. zcases; done || lia.
Qed.

Lemma page_mask_himask : TARGET_PAGE_MASK = himask 10.
Proof. done. Qed.

(** ** The area of the large pages *)

Lemma widen_spec fuel : forall diff j, 0 <= j <= 32 -> 33 - j <= Z.of_nat fuel ->
  exists j', j <= j' <= 32 /\ widen fuel diff (himask j) = Ok (himask j') /\ Z.land diff (himask j') = 0.
Proof.
  induction fuel as [|fuel IH]; intros diff j Hj Hf; [lia|]. cbn [widen].
  destruct (Z.eqb_spec (Z.land diff (himask j)) 0) as [E|N]; [exists j; split; [lia|done]|].
  assert (j <> 32) by (intros ->; apply N; unfold himask; rewrite Z.sub_diag; apply Z.land_0_r).
  rewrite himask_shift, Z.min_l by lia.
  destruct (IH diff (j + 1)) as (j' & Hj' & E & Z0); [lia|lia|]. exists j'. split; [lia|done].
Qed.

(** The flush area: none, or the addresses with the upper bits of
    [tlb_flush_addr]. *)
Definition flush_ok (t : CPUTLB) : Prop :=
  tlb_flush_addr t = 2 ^ 32 - 1 /\ tlb_flush_mask t = 0 \/
  exists j, 11 <= j <= 32 /\ tlb_flush_mask t = himask j /\ 0 <= tlb_flush_addr t < 2 ^ 32 /\ tlb_flush_addr t mod 2 ^ j = 0.

(** The page of [2^k] bytes around [vaddr] is small or inside the area. *)
Definition covered (t : CPUTLB) (vaddr k : Z) : Prop :=
  k = 10 \/ exists j, k <= j <= 32 /\ tlb_flush_mask t = himask j /\ 11 <= j /\
    tlb_flush_addr t = vaddr - vaddr mod 2 ^ j.

Lemma mod_mod_pow x i j : 0 <= i <= j -> (x mod 2 ^ j) mod 2 ^ i = x mod 2 ^ i.
Proof.
  intros H. replace (2 ^ j) with (2 ^ i * 2 ^ (j - i)) by (rewrite <- Z.pow_add_r by lia; f_equal; lia).
  rewrite Z.rem_mul_r by lia. rewrite Z.mul_comm, Z.mod_add, Z.mod_mod by lia. done.
Qed.

(** Rounding down to [2^i] and then to [2^j]. *)
Lemma round_round x i j : 0 <= i <= j -> let y := x - x mod 2 ^ i in y - y mod 2 ^ j = x - x mod 2 ^ j.
Proof.
  intros H y. unfold y.
  assert (x mod 2 ^ i = (x mod 2 ^ j) mod 2 ^ i) as -> by (by rewrite mod_mod_pow).
  set (r := x mod 2 ^ j). pose proof (Z.mod_pos_bound x (2 ^ j) ltac:(lia)) as Hr. fold r in Hr.
  pose proof (Z.mod_le r (2 ^ i) ltac:(lia) ltac:(lia)). pose proof (Z.mod_pos_bound r (2 ^ i) ltac:(lia)).
  assert ((x - r mod 2 ^ i) mod 2 ^ j = r - r mod 2 ^ i) as ->; [|lia].
  pose proof (Z.div_mod x (2 ^ j) ltac:(lia)) as D. fold r in D.
  replace (x - r mod 2 ^ i) with (r - r mod 2 ^ i + x / 2 ^ j * 2 ^ j) by lia.
  rewrite Z.mod_add by lia. apply Z.mod_small. lia.
Qed.

Lemma lxor_himask a b j : 0 <= a < 2 ^ 32 -> 0 <= b < 2 ^ 32 -> 0 <= j <= 32 ->
  Z.land (Z.lxor a b) (himask j) = 0 -> a - a mod 2 ^ j = b - b mod 2 ^ j.
Proof.
  intros Ha Hb Hj E. rewrite <- !himask_land by done. apply Z.lxor_eq. rewrite <- E.
  zbits. by destruct (Z.testbit a i), (Z.testbit b i), (Z.testbit (himask j) i).
Qed.

Lemma tlb_add_large_page_spec t vaddr k : flush_ok t -> 0 <= vaddr < 2 ^ 32 -> 11 <= k <= 30 ->
  exists t', tlb_add_large_page t vaddr (2 ^ k) = Ok t' /\ tlb_table t' = tlb_table t /\ iotlb t' = iotlb t /\
    flush_ok t' /\ covered t' vaddr k /\ forall v i, 10 <= i -> covered t v i -> covered t' v i.
Proof.
  intros Hf Hv Hk. unfold tlb_add_large_page. rewrite size_mask by lia. destruct Hf as [[Ea Em]|(j & Hj & Em & Ha & Hz)].
  - rewrite Ea, Z.eqb_refl. eexists. split; [done|]. cbn. rewrite himask_land by lia.
    split; [done|]. split; [done|]. split; [|split].
    + right. exists k. split; [lia|]. split; [done|].
      pose proof (Z.mod_pos_bound vaddr (2 ^ k) ltac:(lia)). pose proof (Z.mod_le vaddr (2 ^ k) ltac:(lia) ltac:(lia)).
      cbn. split; [lia|]. rewrite Zminus_mod, Z.mod_mod, Z.sub_diag by lia. done.
    + right. exists k. cbn. split; [lia|]. split; [done|]. split; [lia|done].
    + intros v i Hi [->|(j & _ & _ & Hj & Ev)]; [by left|]. exfalso. rewrite Ea in Ev.
      assert ((2 ^ 32 - 1) mod 2 = 1) as X by done. rewrite Ev in X.
      replace (2 ^ j) with (2 * 2 ^ (j - 1)) in X by (rewrite <- Z.pow_succ_r by lia; f_equal; lia).
      rewrite Zminus_mod, Z.rem_mul_r in X by lia. rewrite (Z.mul_comm 2), Z.mod_add, Z.mod_mod, Z.sub_diag in X by lia. done.
  - assert (tlb_flush_addr t <> 2 ^ 32 - 1) as Na.
    { intros E. rewrite E in Hz. apply Z.mod_divide in Hz as [q Hq]; [|lia].
      replace (2 ^ j) with (2 * 2 ^ (j - 1)) in Hq by (rewrite <- Z.pow_succ_r by lia; f_equal; lia). lia. }
    destruct (Z.eqb_spec (tlb_flush_addr t) (2 ^ 32 - 1)); [done|]. rewrite Em, himask_and by lia.
    destruct (widen_spec 33 (Z.lxor (tlb_flush_addr t) vaddr) (Z.max k j)) as (j' & Hj' & -> & E0); [lia|lia|].
    cbn [res_bind]. apply lxor_himask in E0; [|lia..]. rewrite himask_land by lia.
    pose proof (Z.mod_pos_bound (tlb_flush_addr t) (2 ^ j') ltac:(lia)).
    pose proof (Z.mod_le (tlb_flush_addr t) (2 ^ j') ltac:(lia) ltac:(lia)).
    eexists. split; [done|]. cbn. split; [done|]. split; [done|]. split; [|split].
    + right. exists j'. cbn. split; [lia|]. split; [done|]. split; [lia|].
      rewrite Zminus_mod, Z.mod_mod, Z.sub_diag by lia. done.
    + right. exists j'. cbn. split; [lia|]. split; [done|]. split; [lia|done].
    + intros v i Hi [->|(l & Hl & Em' & Hl' & Ev)]; [by left|]. right. exists j'. cbn.
      assert (l = j) as ->.
      { rewrite Em in Em'. unfold himask in Em'. apply (Z.pow_inj_r 2); lia. }
      split; [lia|]. split; [done|]. split; [lia|]. rewrite Ev. apply round_round. lia.
Qed.

(** ** Updates of the table *)

Definition rows {A} (l : list (list A)) : Prop := arr NB_MMU_MODES (arr CPU_TLB_SIZE (fun _ : A => True)) l.
Definition shape (t : CPUTLB) : Prop := rows (tlb_table t) /\ rows (iotlb t).

(** [io[mmu_idx][i]] *)
Definition io_get (t : CPUTLB) (mmu_idx i : Z) : res Z := let* row := aget (iotlb t) mmu_idx in aget row i.

Definition same_rest (t t' : CPUTLB) : Prop :=
  iotlb t' = iotlb t /\ tlb_flush_addr t' = tlb_flush_addr t /\ tlb_flush_mask t' = tlb_flush_mask t.

Lemma rows_get {A} (l : list (list A)) i j : rows l -> 0 <= i < 2 -> 0 <= j < 256 ->
  exists x, (let* row := aget l i in aget row j) = Ok x.
Proof.
  intros Hl Hi Hj. destruct (arr_get _ _ _ i Hl Hi) as (row & -> & Hr). cbn [res_bind].
  destruct (arr_get _ _ _ j Hr Hj) as (x & -> & _). by exists x.
Qed.

Lemma rows_set {A} (l : list (list A)) i j x : rows l -> 0 <= i < 2 -> 0 <= j < 256 ->
  exists row row' l', aget l i = Ok row /\ aset row j x = Ok row' /\ aset l i row' = Ok l' /\ rows l' /\
    forall i' j', (let* r := aget l' i' in aget r j') =
      if (i' =? i) && (j' =? j) then Ok x else let* r := aget l i' in aget r j'.
Proof.
  intros Hl Hi Hj. destruct (arr_get _ _ _ i Hl Hi) as (row & E & Hr).
  destruct (arr_set _ _ row j x Hr Hj I) as (row' & E' & Hr' & G').
  destruct (arr_set _ _ l i row' Hl Hi Hr') as (l' & E'' & Hl' & G''). exists row, row', l'.
  do 4 (split; [done|]). intros i' j'. rewrite G''. destruct (Z.eqb_spec i' i) as [->|]; cbn [andb res_bind]; [|done].
  rewrite G', E. by destruct (j' =? j).
Qed.

Lemma te_set_spec t i j te : shape t -> 0 <= i < 2 -> 0 <= j < 256 ->
  exists t', te_set t i j te = Ok t' /\ shape t' /\ same_rest t t' /\
    forall i' j', te_get t' i' j' = if (i' =? i) && (j' =? j) then Ok te else te_get t i' j'.
Proof.
  intros [Ht Hio] Hi Hj. destruct (rows_set _ i j te Ht Hi Hj) as (row & row' & l' & E1 & E2 & E3 & Hl & G).
  unfold te_set. rewrite E1. cbn [res_bind]. rewrite E2. cbn [res_bind]. rewrite E3. cbn [res_bind].
  eexists. split; [done|]. split; [by split|]. by split.
Qed.

Lemma each_mode_spec t j f : shape t -> 0 <= j < 256 ->
  exists t', each_mode j f t = Ok t' /\ shape t' /\ same_rest t t' /\
    forall i i' te, 0 <= i < 2 -> te_get t i i' = Ok te -> te_get t' i i' = Ok (if i' =? j then f te else te).
Proof.
  intros Hs Hj. unfold each_mode. change (Z.to_nat NB_MMU_MODES) with 2%nat. cbn [for_loop].
  destruct (rows_get _ 0 j (proj1 Hs)) as [te0 E0]; [lia|done|]. fold (te_get t 0 j) in E0. rewrite E0. cbn [res_bind].
  destruct (te_set_spec t 0 j (f te0) Hs) as (t1 & E1 & S1 & R1 & G1); [lia|done|]. rewrite E1. cbn [res_bind].
  change (0 + 1) with 1.
  destruct (rows_get _ 1 j (proj1 S1)) as [te1 E2]; [lia|done|]. fold (te_get t1 1 j) in E2. rewrite E2. cbn [res_bind].
  destruct (te_set_spec t1 1 j (f te1) S1) as (t2 & E3 & S2 & R2 & G2); [lia|done|]. rewrite E3. cbn [res_bind].
  exists t2. split; [done|]. split; [done|]. split.
  { destruct R1 as (? & ? & ?), R2 as (? & ? & ?). split; [congruence|]. split; congruence. }
  rewrite G1 in E2. cbn [Z.eqb Pos.eqb andb] in E2. intros i i' te Hi Ete. rewrite G2, G1.
  assert (i = 0 \/ i = 1) as [->| ->] by lia; cbn [Z.eqb Pos.eqb andb]; destruct (Z.eqb_spec i' j) as [->|]; congruence.
Qed.

Lemma tlb_index_range a : 0 <= tlb_index a < 256.
Proof.
  unfold tlb_index. change (CPU_TLB_SIZE - 1) with (Z.ones 8). rewrite Z.land_ones by lia. apply Z.mod_pos_bound. lia.
Qed.

Lemma tlb_index_mod a : tlb_index a = (a / 1024) mod 256.
Proof.
  unfold tlb_index. change (CPU_TLB_SIZE - 1) with (Z.ones 8). rewrite Z.land_ones, Z.shiftr_div_pow2 by (unfold TARGET_PAGE_BITS; lia).
  done.
Qed.
