(* ===== verification/SoftMmu.v ===== *)
(** * Guest loads and stores ([softmmu_template.h], [target-arm])

    A load or store of the guest looks up the TLB, lets [tlb_fill] translate
    the address on a miss (or raise an exception), and then goes to host memory
    or, for pages with flags, to the memory region of the [iotlb] entry.
    Accesses that cross a page are split.  The host is little-endian and so is
    the target ([helper_te_ld] is [helper_le_ld]).

    The world [W] has guest memory for the table walks ([PhysMem]) and, in the
    class [HostWorld], host memory by the byte and the I/O callbacks of the
    regions. *)

From stdpp Require Import base list numbers.
From S2P Require Import Prelude Int128 PhysMap ArmMmu ArmMmuFacts Cputlb.
Import Int128 ArmMmu.

Class HostWorld (W : Type) : Type := {
  host_byte : W -> Z -> Z;
  host_byte_range : forall w a, 0 <= host_byte w a < 256;
  host_put : W -> Z -> Z -> W;
  io_mem_read : W -> mref -> Z -> Z -> W * Z;
  io_mem_write : W -> mref -> Z -> Z -> Z -> W
}.

Definition MMU_USER_IDX : Z := 1.
Definition EXCP_PREFETCH_ABORT : Z := 3.
Definition EXCP_DATA_ABORT : Z := 4.

Record cpu : Type := mkCpu { env : CPUARMState; tlb : CPUTLB; exception_index : Z }.
Definition set_tlb (c : cpu) (t : CPUTLB) : cpu := mkCpu (env c) t (exception_index c).

(** A handler ends, or raises an exception and leaves by [longjmp]. *)
Inductive outcome (A : Type) : Type := Done (a : A) | Raised.
Arguments Done {A} a.
Arguments Raised {A}.

(** The fault status and address registers. *)
Definition insn_fault (env : CPUARMState) (ret address : Z) : CPUARMState :=
  mkEnv (features env) (c1_sys env) (ttbr0_el1 env) (ttbr1_el1 env) (c2_control env) (c2_mask env) (c2_base_mask env)
    (c3 env) ret (c5_data env) (c6_region env) address (c6_data env) (c7_par env) (c7_par_hi env) (c13_fcse env).
Definition data_fault (env : CPUARMState) (ret address : Z) : CPUARMState :=
  mkEnv (features env) (c1_sys env) (ttbr0_el1 env) (ttbr1_el1 env) (c2_control env) (c2_mask env) (c2_base_mask env)
    (c3 env) (c5_insn env) ret (c6_region env) (c6_insn env) address (c7_par env) (c7_par_hi env) (c13_fcse env).

Section Access.
Context {W : Type} `{PhysMem W} `{HostWorld W}.
Variable mc : machine.

Definition arm_cpu_handle_mmu_fault (w : W) (c : cpu) (address access_type mmu_idx : Z) : res (cpu * Z) :=
  let is_user := mmu_idx =? MMU_USER_IDX in
  let* r := get_phys_addr w (env c) address access_type is_user in
  match r with
  | Translated phys_addr prot page_size =>
      let phys_addr := Z.land phys_addr (u64 (Z.lnot 0x3ff)) in
      let address := Z.land address (u32 (Z.lnot 0x3ff)) in
      let* t := tlb_set_page mc (tlb c) address phys_addr prot mmu_idx page_size in
      Ok (set_tlb c t, 0)
  | Fault ret =>
      Ok (if access_type =? 2 then mkCpu (insn_fault (env c) ret address) (tlb c) EXCP_PREFETCH_ABORT
          else
            let ret := if (access_type =? 1) && arm_feature (env c) ARM_FEATURE_V6
                       then Z.lor ret (Z.shiftl 1 11) else ret in
            mkCpu (data_fault (env c) ret address) (tlb c) EXCP_DATA_ABORT, 1)
  end.

Definition tlb_fill (w : W) (c : cpu) (addr is_write mmu_idx : Z) : res (cpu * outcome unit) :=
  let* (c, ret) := arm_cpu_handle_mmu_fault w c addr is_write mmu_idx in
  Ok (c, if negb (ret =? 0) then Raised else Done tt).

(** [addr_read], [addr_write] or [addr_code]. *)
Definition tlb_addr (te : CPUTLBEntry) (access_type : Z) : Z :=
  if access_type =? 0 then addr_read te else if access_type =? 1 then addr_write te else addr_code te.

Definition tlb_hit (te : CPUTLBEntry) (addr access_type : Z) : bool :=
  Z.land addr TARGET_PAGE_MASK =? Z.land (tlb_addr te access_type) (Z.lor TARGET_PAGE_MASK TLB_INVALID_MASK).

(** If the TLB entry is for a different page, reload and try again. *)
Definition tlb_lookup (w : W) (c : cpu) (addr access_type mmu_idx : Z) : res (cpu * outcome CPUTLBEntry) :=
  let index := tlb_index addr in
  let* te := te_get (tlb c) mmu_idx index in
  if tlb_hit te addr access_type then Ok (c, Done te) else
  let* (c, o) := tlb_fill w c addr access_type mmu_idx in
  match o with
  | Raised => Ok (c, Raised)
  | Done _ => let* te := te_get (tlb c) mmu_idx index in Ok (c, Done te)
  end.

(** Where an access goes: host memory, or a section at an offset. *)
Inductive route : Type := Host (haddr : Z) | Io (section offset : Z).

(** [io_read]/[io_write]: the section in the low bits, the offset above. *)
Definition access_route (c : cpu) (te : CPUTLBEntry) (addr access_type mmu_idx : Z) : res route :=
  if negb (Z.land (tlb_addr te access_type) (TARGET_PAGE_SIZE - 1) =? 0) then
    let* ios := aget (iotlb (tlb c)) mmu_idx in
    let* ioaddr := aget ios (tlb_index addr) in
    Ok (Io (page_offset ioaddr) (u64 (page_base ioaddr + addr)))
  else Ok (Host (u64 (addr + addend te))).

(** [n] bytes of host memory, little-endian. *)
Fixpoint ld_le (n : nat) (w : W) (haddr : Z) : Z :=
  match n with O => 0 | S n => host_byte w haddr + 2 ^ 8 * ld_le n w (u64 (haddr + 1)) end.
Fixpoint st_le (n : nat) (w : W) (haddr val : Z) : W :=
  match n with O => w | S n => st_le n (host_put w haddr (u8 val)) (u64 (haddr + 1)) (Z.shiftr val 8) end.

(** [helper_le_ld] for [DATA_SIZE] bytes; the recursion is on aligned
    addresses, which are not split again. *)
Fixpoint helper_le_ld (fuel : nat) (size : Z) (w : W) (c : cpu) (addr access_type mmu_idx : Z) :
    res (W * cpu * outcome Z) :=
  match fuel with
  | O => Err OutOfFuel
  | S fuel =>
      let do_unaligned_access c :=
        let addr1 := Z.land addr (u32 (Z.lnot (size - 1))) in
        let addr2 := u32 (addr1 + size) in
        let* (w, c, o1) := helper_le_ld fuel size w c addr1 access_type mmu_idx in
        match o1 with
        | Raised => Ok (w, c, Raised)
        | Done res1 =>
            let* (w, c, o2) := helper_le_ld fuel size w c addr2 access_type mmu_idx in
            match o2 with
            | Raised => Ok (w, c, Raised)
            | Done res2 =>
                let shift := Z.land addr (size - 1) * 8 in
                Ok (w, c, Done (Z.lor (Z.shiftr res1 shift) (uwrap (size * 8) (Z.shiftl res2 (size * 8 - shift)))))
            end
        end in
      let* (c, o) := tlb_lookup w c addr access_type mmu_idx in
      match o with
      | Raised => Ok (w, c, Raised)
      | Done te =>
          let* r := access_route c te addr access_type mmu_idx in
          match r with
          | Io n offset =>
              if negb (Z.land addr (size - 1) =? 0) then do_unaligned_access c else
              let* s := aget (sections (map (dispatch mc))) n in
              let (w, v) := io_mem_read w (sec_mr s) offset size in
              Ok (w, c, Done (uwrap (size * 8) v))
          | Host haddr =>
              if (1 <? size) && (TARGET_PAGE_SIZE <=? Z.land addr (TARGET_PAGE_SIZE - 1) + size - 1)
              then do_unaligned_access c
              else Ok (w, c, Done (ld_le (Z.to_nat size) w haddr))
          end
      end
  end.

(** A store of one byte, [helper_ret_stb]. *)
Definition helper_ret_stb (w : W) (c : cpu) (addr val mmu_idx : Z) : res (W * cpu * outcome unit) :=
  let* (c, o) := tlb_lookup w c addr 1 mmu_idx in
  match o with
  | Raised => Ok (w, c, Raised)
  | Done te =>
      let* r := access_route c te addr 1 mmu_idx in
      match r with
      | Io n offset =>
          let* s := aget (sections (map (dispatch mc))) n in
          Ok (io_mem_write w (sec_mr s) offset val 1, c, Done tt)
      | Host haddr => Ok (st_le 1 w haddr val, c, Done tt)
      end
  end.

(** [for (i = DATA_SIZE - 1; i >= 0; i--)], [n] bytes left. *)
Fixpoint st_bytes (n : nat) (w : W) (c : cpu) (addr val mmu_idx : Z) : res (W * cpu * outcome unit) :=
  match n with
  | O => Ok (w, c, Done tt)
  | S n =>
      let i := Z.of_nat n in
      let* (w, c, o) := helper_ret_stb w c (u32 (addr + i)) (u8 (Z.shiftr val (i * 8))) mmu_idx in
      match o with Raised => Ok (w, c, Raised) | Done _ => st_bytes n w c addr val mmu_idx end
  end.

Definition helper_le_st (size : Z) (w : W) (c : cpu) (addr val mmu_idx : Z) : res (W * cpu * outcome unit) :=
  let* (c, o) := tlb_lookup w c addr 1 mmu_idx in
  match o with
  | Raised => Ok (w, c, Raised)
  | Done te =>
      let* r := access_route c te addr 1 mmu_idx in
      match r with
      | Io n offset =>
          if negb (Z.land addr (size - 1) =? 0) then st_bytes (Z.to_nat size) w c addr val mmu_idx else
          let* s := aget (sections (map (dispatch mc))) n in
          Ok (io_mem_write w (sec_mr s) offset val size, c, Done tt)
      | Host haddr =>
          if (1 <? size) && (TARGET_PAGE_SIZE <=? Z.land addr (TARGET_PAGE_SIZE - 1) + size - 1)
          then st_bytes (Z.to_nat size) w c addr val mmu_idx
          else Ok (st_le (Z.to_nat size) w haddr val, c, Done tt)
      end
  end.

(** ** Coprocessor writes that keep the TLB up to date *)

Definition dacr_write (c : cpu) (value : Z) : cpu :=
  let e := env c in
  mkCpu (mkEnv (features e) (c1_sys e) (ttbr0_el1 e) (ttbr1_el1 e) (c2_control e) (c2_mask e) (c2_base_mask e)
           (u32 value) (c5_insn e) (c5_data e) (c6_region e) (c6_insn e) (c6_data e) (c7_par e) (c7_par_hi e)
           (c13_fcse e)) (tlb_flush (tlb c)) (exception_index c).
Definition fcse_write (c : cpu) (value : Z) : cpu :=
  let e := env c in
  if negb (c13_fcse e =? value) then
    mkCpu (mkEnv (features e) (c1_sys e) (ttbr0_el1 e) (ttbr1_el1 e) (c2_control e) (c2_mask e) (c2_base_mask e)
             (c3 e) (c5_insn e) (c5_data e) (c6_region e) (c6_insn e) (c6_data e) (c7_par e) (c7_par_hi e)
             (u32 value)) (tlb_flush (tlb c)) (exception_index c)
  else c.
Definition tlbiall_write (c : cpu) : cpu := set_tlb c (tlb_flush (tlb c)).
Definition tlbimva_write (c : cpu) (value : Z) : res cpu :=
  let* t := tlb_flush_page (tlb c) (Z.land (u32 value) TARGET_PAGE_MASK) in Ok (set_tlb c t).
Definition tlbimvaa_write (c : cpu) (value : Z) : res cpu :=
  let* t := tlb_flush_page (tlb c) (Z.land (u32 value) TARGET_PAGE_MASK) in Ok (set_tlb c t).
End Access.
