(* ===== verification/SoftMmuFacts.v ===== *)
(** * The TLB is transparent

    Coherence: every entry is what a walk of the page tables gives for its
    page.  An access through a coherent TLB goes where a walk says, or raises
    the fault of the walk; filling, flushing and dirty tracking keep the TLB
    coherent. *)

From stdpp Require Import base list numbers.
From S2P Require Import Prelude Int128 PhysMap Dispatch ArmMmu ArmMmuFacts Cputlb CputlbFacts SoftMmu.
Import Int128 ArmMmu.

(** ** Entries *)

Lemma has_bit prot t : 0 <= t -> has prot (2 ^ t) = Z.testbit prot t.
Proof.
  intros Ht. unfold has. destruct (Z.testbit prot t) eqn:E.
  - destruct (Z.eqb_spec (Z.land prot (2 ^ t)) 0) as [Z0|]; [|done].
    apply (f_equal (fun v => Z.testbit v t)) in Z0. rewrite Z.land_spec, pow2_testbit, Z.eqb_refl, E, Z.testbit_0_l in Z0 by lia.
    done.
  - replace (Z.land prot (2 ^ t)) with 0; [done|]. symmetry. zbits.
    destruct (Z.eqb_spec i t) as [->|]; [by rewrite E|apply andb_false_r].
Qed.

Lemma aligned_land v : v mod 1024 = 0 -> Z.land v 1023 = 0.
Proof. intros E. change 1023 with (Z.ones 10). by rewrite Z.land_ones by lia. Qed.

Lemma aligned_page v : 0 <= v < 2 ^ 32 -> v mod 1024 = 0 -> Z.land v TARGET_PAGE_MASK = v.
Proof. intros Hv E. rewrite page_mask_himask, himask_land by lia. change (2 ^ 10) with 1024. lia. Qed.

Lemma page_of_mask a : page_of a = Z.land a TARGET_PAGE_MASK.
Proof. done. Qed.

(** The flags that an entry may carry. *)
Definition flag (f : Z) : Prop := f = 0 \/ f = 16 \/ f = 32 \/ f = 48.

Lemma flagged_hit v f : 0 <= v < 2 ^ 32 -> v mod 1024 = 0 -> flag f ->
  Z.land (Z.lor v f) (Z.lor TARGET_PAGE_MASK TLB_INVALID_MASK) = v /\ Z.land (Z.lor v f) (TARGET_PAGE_SIZE - 1) = f.
Proof.
  intros Hv E Hf. rewrite !Z.land_lor_distr_l. change (TARGET_PAGE_SIZE - 1) with 1023. rewrite (aligned_land v E).
  assert (Z.land v (Z.lor TARGET_PAGE_MASK TLB_INVALID_MASK) = v) as ->.
  { rewrite Z.land_lor_distr_r, aligned_page by done.
    change TLB_INVALID_MASK with (Z.land 1023 8). by rewrite Z.land_assoc, (aligned_land v E), Z.lor_0_r. }
  destruct Hf as [->|[->|[->| ->]]]; rewrite Z.lor_0_l; split; done || apply Z.lor_0_r.
Qed.

(** A section number and an offset, as an [iotlb] value holds them. *)
Lemma io_split base sec v addr : base mod 1024 = 0 -> 0 <= sec < 1024 -> v mod 1024 = 0 ->
  let io := u64 (base + sec - v) in
  page_offset io = sec /\ u64 (page_base io + addr) = u64 (base + (addr - v)).
Proof.
  intros Hb Hs Hv io.
  assert (io mod 1024 = sec) as E.
  { unfold io, uwrap. change (2 ^ 64) with (2 ^ 10 * 2 ^ 54). rewrite Z.rem_mul_r by lia. change (2 ^ 10) with 1024.
    rewrite (Z.mul_comm 1024), Z.mod_add, Z.mod_mod by lia. dlia. }
  split; [by rewrite page_offset_mod|]. rewrite page_base_val by (apply (uwrap_range 64); lia).
  replace (1024 * (io / 1024)) with (io - sec) by (rewrite <- E; dlia).
  destruct (uwrap_sub_multiple 64 (base + sec - v) ltac:(lia)) as [k Ek]. fold io in Ek. rewrite Ek.
  apply uwrap_eq_mod with (k := k); lia.
Qed.

(** What a store or load may find behind a page: host memory, or the callbacks
    of a section; a page of writable RAM is one or the other for writes,
    depending on whether it is dirty. *)
Definition allowed_routes (mc : machine) (t vaddr prot paddr off n xlat : Z) (s : MemoryRegionSection) : list route :=
  let mr := sec_mr s in
  let io := if watched mc vaddr prot then Io PHYS_SECTION_WATCH (u64 (paddr + off))
            else if is_ram mc mr then
              Io (if sec_readonly s then PHYS_SECTION_ROM else PHYS_SECTION_NOTDIRTY) (u64 (ram_addr mc mr + xlat + off))
            else Io n (u64 (xlat + off)) in
  let host := Host (u64 (ram_ptr mc mr + xlat + off)) in
  let direct := is_ram mc mr || is_romd mc mr in
  if t =? 2 then [if direct then host else io]
  else if watched mc vaddr prot then [io]
  else if t =? 0 then [if direct then host else io]
  else if negb (is_ram mc mr) || sec_readonly s || is_romd mc mr then [io] else [host; io].

(** The section of every page is found, is large enough, and has a page-aligned
    offset for it.  [tlb_set_page] takes this for granted: boards with devices
    that do not start on a page boundary break it ([unaligned_region_escapes]). *)
Record machine_ok (mc : machine) : Prop := {
  mo_page : forall p, 0 <= p < 2 ^ 40 -> p mod 1024 = 0 -> exists n xlat s,
    (forall size, 1024 <= size < 2 ^ 32 -> exists sz,
       address_space_translate_for_iotlb mc p size = Ok (n, xlat, sz) /\ 1024 <= sz) /\
    aget (sections (map (dispatch mc))) n = Ok s /\ 0 <= n < 1024 /\ 0 <= xlat < 2 ^ 64 /\ xlat mod 1024 = 0;
  mo_ram : forall mr, 0 <= ram_addr mc mr < 2 ^ 64 /\ ram_addr mc mr mod 1024 = 0
}.

Section Entry.
Variables (mc : machine) (vaddr paddr prot n xlat : Z) (s : MemoryRegionSection) (te : CPUTLBEntry) (io : Z).
Hypothesis Hmc : machine_ok mc.
Hypothesis Hv : 0 <= vaddr < 2 ^ 32 /\ vaddr mod 1024 = 0.
Hypothesis Hp : 0 <= paddr < 2 ^ 40 /\ paddr mod 1024 = 0.
Hypothesis Hn : 0 <= n < 1024.
Hypothesis Hx : 0 <= xlat < 2 ^ 64 /\ xlat mod 1024 = 0.
Hypothesis He : tlb_entry_for mc vaddr paddr prot n xlat s = (te, io).

Definition io_route (off : Z) : route :=
  if watched mc vaddr prot then Io PHYS_SECTION_WATCH (u64 (paddr + off))
  else if is_ram mc (sec_mr s) then
    Io (if sec_readonly s then PHYS_SECTION_ROM else PHYS_SECTION_NOTDIRTY) (u64 (ram_addr mc (sec_mr s) + xlat + off))
  else Io n (u64 (xlat + off)).

Lemma entry_io off : Io (page_offset io) (u64 (page_base io + (vaddr + off))) = io_route off.
Proof.
  pose proof He as X. unfold tlb_entry_for, memory_region_section_get_iotlb in X.
  unfold io_route. destruct (watched mc vaddr prot).
  - cbv beta iota zeta in X; injection X as _ <-. rewrite (uwrap_small 64 (PHYS_SECTION_WATCH + paddr)) by (unfold PHYS_SECTION_WATCH; lia).
    destruct (io_split paddr 3 vaddr (vaddr + off)) as [E1 E2]; [apply Hp|lia|apply Hv|].
    unfold PHYS_SECTION_WATCH. rewrite (Z.add_comm 3 paddr), E1, E2. do 2 f_equal. lia.
  - destruct (is_ram mc (sec_mr s)).
    + destruct (mo_ram mc Hmc (sec_mr s)) as [Hr Er]. set (sec := if negb _ then _ else _) in X.
      assert (0 <= sec < 1024 /\ sec = (if sec_readonly s then PHYS_SECTION_ROM else PHYS_SECTION_NOTDIRTY)) as [Hs <-]
        by (unfold sec; by destruct (sec_readonly s)).
      cbv beta iota zeta in X; injection X as _ <-. rewrite page_base_val by done. replace (1024 * (_ / 1024)) with (ram_addr mc (sec_mr s)) by dlia.
      set (b := u64 (ram_addr mc (sec_mr s) + xlat)).
      assert (b mod 1024 = 0) as Eb.
      { unfold b, uwrap. change (2 ^ 64) with (2 ^ 10 * 2 ^ 54). rewrite Z.rem_mul_r by lia. change (2 ^ 10) with 1024.
        rewrite (Z.mul_comm 1024), Z.mod_add, Z.mod_mod by lia. destruct Hx. dlia. }
      assert (Z.lor b sec = b + sec) as ->.
      { replace b with (Z.shiftl (b / 1024) 10) at 1 by (rewrite Z.shiftl_mul_pow2 by lia; change (2 ^ 10) with 1024; dlia).
        rewrite lor_concat by lia. change (2 ^ 10) with 1024. dlia. }
      destruct (io_split b sec vaddr (vaddr + off) Eb Hs) as [E1 E2]; [apply Hv|].
      rewrite E1, E2. f_equal. destruct (uwrap_sub_multiple 64 (ram_addr mc (sec_mr s) + xlat) ltac:(lia)) as [k Ek].
      fold b in Ek. apply uwrap_eq_mod with (k := k); lia.
    + cbv beta iota zeta in X; injection X as _ <-. rewrite (uwrap_small 64 (n + xlat)) by (destruct Hx; split; [lia|]; dlia).
      destruct (io_split xlat n vaddr (vaddr + off)) as [E1 E2]; [apply Hx|done|apply Hv|].
      rewrite (Z.add_comm n xlat), E1, E2. do 2 f_equal. lia.
Qed.

Lemma entry_host off : is_ram mc (sec_mr s) || is_romd mc (sec_mr s) = true ->
  Host (u64 (vaddr + off + addend te)) = Host (u64 (ram_ptr mc (sec_mr s) + xlat + off)).
Proof.
  intros D. pose proof He as X. unfold tlb_entry_for, memory_region_section_get_iotlb in X. rewrite D in X.
  assert (addend te = u64 (u64 (ram_ptr mc (sec_mr s) + xlat) - vaddr)) as ->
    by (destruct (watched mc vaddr prot); injection X as <- _; done).
  f_equal. destruct (uwrap_sub_multiple 64 (ram_ptr mc (sec_mr s) + xlat) ltac:(lia)) as [k ->].
  destruct (uwrap_sub_multiple 64 (ram_ptr mc (sec_mr s) + xlat + k * 2 ^ 64 - vaddr) ltac:(lia)) as [j ->].
  apply uwrap_eq_mod with (k := k + j); lia.
Qed.

Definition addr_route (f off : Z) : route :=
  if f =? 0 then Host (u64 (vaddr + off + addend te)) else Io (page_offset io) (u64 (page_base io + (vaddr + off))).

Definition read_flags : Z :=
  if watched mc vaddr prot then 32 else if is_ram mc (sec_mr s) || is_romd mc (sec_mr s) then 0 else 32.
Definition code_flags : Z := if is_ram mc (sec_mr s) || is_romd mc (sec_mr s) then 0 else 32.
Definition write_flags : Z :=
  if (is_ram mc (sec_mr s) && sec_readonly s) || is_romd mc (sec_mr s) then 32
  else if is_ram mc (sec_mr s) && is_clean mc (u64 (ram_addr mc (sec_mr s) + xlat)) then (if watched mc vaddr prot then 48 else 16)
  else read_flags.

Lemma entry_fields :
  addr_read te = (if Z.testbit prot 0 then Z.lor vaddr read_flags else 2 ^ 32 - 1) /\
  addr_write te = (if Z.testbit prot 1 then Z.lor vaddr write_flags else 2 ^ 32 - 1) /\
  addr_code te = (if Z.testbit prot 2 then Z.lor vaddr code_flags else 2 ^ 32 - 1).
Proof.
  pose proof He as X. unfold tlb_entry_for, memory_region_section_get_iotlb in X.
  rewrite <- !has_bit by lia. unfold write_flags, code_flags, read_flags.
  change TLB_MMIO with 32 in X. change TLB_NOTDIRTY with 16 in X.
  destruct (watched mc vaddr prot), (is_ram mc (sec_mr s)), (is_romd mc (sec_mr s)), (sec_readonly s),
    (is_clean mc _); cbn [andb orb] in *; injection X as <- _; cbn [addr_read addr_write addr_code];
    rewrite <- ?Z.lor_assoc, ?Z.lor_0_r; done.
Qed.

(** The address of an access, its flags, and where they lead; the flag of a
    clean page may have been set or reset since. *)
Lemma entry_access t off : 0 <= t <= 2 -> exists f, flag f /\
  tlb_addr te t = (if Z.testbit prot t then Z.lor vaddr f else 2 ^ 32 - 1) /\
  addr_route f off ∈ allowed_routes mc t vaddr prot paddr off n xlat s /\
  (t = 1 -> f < 32 -> forall g, addr_route g off ∈ allowed_routes mc t vaddr prot paddr off n xlat s).
Proof.
  intros Ht. unfold addr_route. rewrite entry_io.
  assert (Hh := entry_host off). unfold allowed_routes. fold (io_route off).
  destruct entry_fields as (Er & Ew & Ec).
  assert (t = 0 \/ t = 1 \/ t = 2) as [->|[->| ->]] by lia; unfold tlb_addr; cbn [Z.eqb Pos.eqb].
  - exists read_flags. split; [|split; [done|split; [|done]]]; unfold read_flags;
      destruct (watched _ _ _), (is_ram _ _), (is_romd _ _); cbn [orb Z.eqb Pos.eqb]; rewrite ?Hh by done;
      try apply list_elem_of_here; unfold flag; tauto.
  - exists write_flags. split; [|split; [done|split]].
    + unfold write_flags, read_flags. destruct (watched _ _ _), (is_ram _ _), (is_romd _ _), (sec_readonly s), (is_clean mc _);
        cbn [orb andb]; unfold flag; auto.
    + unfold write_flags, read_flags. destruct (watched _ _ _), (is_ram _ _), (is_romd _ _), (sec_readonly s), (is_clean mc _);
        cbn [orb andb negb Z.eqb Pos.eqb]; rewrite ?Hh by done; rewrite ?elem_of_cons; auto.
    + intros _ Hf g. revert Hf. unfold write_flags, read_flags.
      destruct (watched _ _ _), (is_ram _ _), (is_romd _ _), (sec_readonly s), (is_clean mc _);
        cbn [orb andb negb]; intros Hf; try (exfalso; cbn in Hf; lia); rewrite ?Hh by done; destruct (g =? 0);
        rewrite ?elem_of_cons; auto.
  - exists code_flags. split; [|split; [done|split; [|done]]]; unfold code_flags;
      destruct (is_ram _ _), (is_romd _ _); cbn [orb Z.eqb Pos.eqb]; rewrite ?Hh by done;
      try apply list_elem_of_here; unfold flag; tauto.
Qed.
End Entry.

(** ** Filling the table *)

Lemma tlb_set_page_spec mc t vaddr p prot idx k : machine_ok mc -> shape t -> flush_ok t ->
  0 <= vaddr < 2 ^ 32 -> 0 <= p < 2 ^ 40 /\ p mod 1024 = 0 -> 10 <= k <= 30 -> 0 <= idx < 2 ->
  exists t' n xlat s te io, tlb_set_page mc t vaddr p prot idx (2 ^ k) = Ok t' /\
    (exists sz, address_space_translate_for_iotlb mc p 1024 = Ok (n, xlat, sz)) /\
    aget (sections (map (dispatch mc))) n = Ok s /\ 0 <= n < 1024 /\ (0 <= xlat < 2 ^ 64 /\ xlat mod 1024 = 0) /\
    tlb_entry_for mc vaddr p prot n xlat s = (te, io) /\
    shape t' /\ flush_ok t' /\ covered t' vaddr k /\ (forall v i, 10 <= i -> covered t v i -> covered t' v i) /\
    (forall idx' i', te_get t' idx' i' = if (idx' =? idx) && (i' =? tlb_index vaddr) then Ok te else te_get t idx' i') /\
    (forall idx' i', io_get t' idx' i' = if (idx' =? idx) && (i' =? tlb_index vaddr) then Ok io else io_get t idx' i').
Proof.
  intros Hmc Hs Hf Hv [Hp Hp0] Hk Hi. unfold tlb_set_page.
  assert (1024 <= 2 ^ k < 2 ^ 32) as Hsz.
  { pose proof (Z.pow_le_mono_r 2 10 k ltac:(lia) ltac:(lia)). pose proof (Z.pow_lt_mono_r 2 k 32 ltac:(lia)). lia. }
  change PhysMap.TARGET_PAGE_SIZE with 1024. destruct (Z.leb_spec 1024 (2 ^ k)); [|lia]. cbn [c_assert res_bind].
  assert (exists t1, (if negb (2 ^ k =? 1024) then tlb_add_large_page t vaddr (2 ^ k) else Ok t) = Ok t1 /\
    shape t1 /\ flush_ok t1 /\ covered t1 vaddr k /\ (forall v i, 10 <= i -> covered t v i -> covered t1 v i) /\
    tlb_table t1 = tlb_table t /\ iotlb t1 = iotlb t) as (t1 & -> & S1 & F1 & C1 & M1 & T1 & I1).
  { destruct (Z.eqb_spec (2 ^ k) 1024) as [E|N]; cbn [negb].
    - exists t. do 3 (split; [done|]). split; [|done]. left. apply (Z.pow_inj_r 2); [lia|lia|lia|done].
    - destruct (tlb_add_large_page_spec t vaddr k Hf Hv) as (t1 & -> & T & Io & F & C & M).
      { split; [|lia]. destruct (Z.eq_dec k 10) as [->|]; [done|lia]. }
      exists t1. split; [done|]. split; [by unfold shape; rewrite T, Io|]. done. }
  cbn [res_bind]. destruct (mo_page mc Hmc p Hp Hp0) as (n & xlat & s & Htr & Es & Hn & Hx & Hx0).
  destruct (Htr (2 ^ k) Hsz) as (sz & -> & Hz). cbn [res_bind].
  destruct (Z.leb_spec 1024 sz); [|lia]. cbn [c_assert res_bind]. rewrite Es. cbn [res_bind].
  destruct (tlb_entry_for mc vaddr p prot n xlat s) as [te io] eqn:Ete.
  pose proof (tlb_index_range vaddr) as Hix.
  destruct (rows_set (iotlb t1) idx (tlb_index vaddr) io (proj2 S1) Hi Hix) as (r & r' & ios & -> & E2 & E3 & R & G).
  cbn [res_bind]. rewrite E2. cbn [res_bind]. rewrite E3. cbn [res_bind].
  destruct (te_set_spec t1 idx (tlb_index vaddr) te S1 Hi Hix) as (t2 & -> & S2 & (_ & A2 & K2) & G2). cbn [res_bind].
  eexists _, n, xlat, s, te, io. split; [done|]. split; [destruct (Htr 1024) as (sz' & ? & _); [lia|by exists sz']|].
  split; [done|]. split; [done|]. split; [done|]. split; [done|]. split; [by destruct S2|].
  unfold flush_ok, covered in *. cbn. rewrite A2, K2. split; [done|]. split; [done|]. split; [done|]. split.
  - intros i' j'. transitivity (te_get t2 i' j'); [done|]. rewrite G2. unfold te_get. by rewrite T1.
  - intros i' j'. unfold io_get. cbn. rewrite G. by rewrite I1.
Qed.

(** ** Coherence *)

(** Up to the flag of a clean page. *)
Definition dirty_eq (te0 te : CPUTLBEntry) : Prop :=
  addr_read te = addr_read te0 /\ addr_code te = addr_code te0 /\ addend te = addend te0 /\
  (addr_write te = addr_write te0 \/
   Z.land (addr_write te0) 40 = 0 /\ Z.lor (addr_write te) 16 = Z.lor (addr_write te0) 16).

Section Coherence.
Context {W : Type} `{PhysMem W}.
Variable mc : machine.

(** The entry [te], [io] of the mode [idx] is for the page [vaddr], which a
    walk for the access [t0] maps to [p] by a page of [2^k] bytes. *)
Record filled (w : W) (e : CPUARMState) (tl : CPUTLB) (idx i : Z) (te : CPUTLBEntry) (io vaddr t0 p prot k n xlat : Z)
    (s : MemoryRegionSection) (te0 : CPUTLBEntry) : Prop := {
  fi_vaddr : 0 <= vaddr < 2 ^ 32 /\ vaddr mod 1024 = 0;
  fi_index : tlb_index vaddr = i;
  fi_access : 0 <= t0 <= 2;
  fi_walk : get_phys_addr w e vaddr t0 (idx =? MMU_USER_IDX) = Ok (Translated p prot (2 ^ k));
  fi_size : 10 <= k <= 30;
  fi_paddr : 0 <= p < 2 ^ 40 /\ p mod 1024 = 0;
  fi_translate : exists sz, address_space_translate_for_iotlb mc p 1024 = Ok (n, xlat, sz);
  fi_section : aget (sections (map (dispatch mc))) n = Ok s;
  fi_n : 0 <= n < 1024;
  fi_xlat : 0 <= xlat < 2 ^ 64 /\ xlat mod 1024 = 0;
  fi_entry : tlb_entry_for mc vaddr p prot n xlat s = (te0, io);
  fi_dirty : dirty_eq te0 te;
  fi_covered : covered tl vaddr k
}.

Definition entry_ok (w : W) (e : CPUARMState) (tl : CPUTLB) (idx i : Z) (te : CPUTLBEntry) (io : Z) : Prop :=
  te = no_entry \/ exists vaddr t0 p prot k n xlat s te0, filled w e tl idx i te io vaddr t0 p prot k n xlat s te0.

Record coherent (w : W) (c : cpu) : Prop := {
  co_shape : shape (tlb c);
  co_flush : flush_ok (tlb c);
  co_entries : forall idx i te io, 0 <= idx < 2 -> 0 <= i < 256 ->
    te_get (tlb c) idx i = Ok te -> io_get (tlb c) idx i = Ok io -> entry_ok w (env c) (tlb c) idx i te io
}.

(** Where an access may go, by the page tables and the memory map. *)
Definition routes_to (t vaddr prot paddr off : Z) (r : route) : Prop :=
  exists n xlat sz s, address_space_translate_for_iotlb mc paddr 1024 = Ok (n, xlat, sz) /\
    aget (sections (map (dispatch mc))) n = Ok s /\ r ∈ allowed_routes mc t vaddr prot paddr off n xlat s.

Lemma set_bit_cases x y : Z.lor x 16 = Z.lor y 16 -> Z.land y 16 = 0 -> x = y \/ x = Z.lor y 16.
Proof.
  intros E Hy. destruct (Z.testbit x 4) eqn:B.
  - right. rewrite <- E. zbits. change 16 with (2 ^ 4). rewrite pow2_testbit by lia.
    destruct (Z.eqb_spec i 4) as [->|]; [by rewrite B|by rewrite orb_false_r].
  - left. zbits. assert (Z.testbit (Z.lor x 16) i = Z.testbit (Z.lor y 16) i) as Ei by (by rewrite E).
    rewrite !Z.lor_spec in Ei. change 16 with (2 ^ 4) in Ei. rewrite pow2_testbit in Ei by lia.
    destruct (Z.eqb_spec i 4) as [->|]; [|by rewrite !orb_false_r in Ei].
    rewrite B. apply (f_equal (fun v => Z.testbit v 4)) in Hy. rewrite Z.land_spec, Z.testbit_0_l in Hy.
    change (Z.testbit 16 4) with true in Hy. by rewrite andb_true_r in Hy.
Qed.

Lemma filled_access w e tl idx i te io vaddr t0 p prot k n xlat s te0 t off : machine_ok mc ->
  filled w e tl idx i te io vaddr t0 p prot k n xlat s te0 -> 0 <= t <= 2 ->
  exists g, flag g /\ tlb_addr te t = (if Z.testbit prot t then Z.lor vaddr g else 2 ^ 32 - 1) /\
    addr_route vaddr te io g off ∈ allowed_routes mc t vaddr prot p off n xlat s.
Proof.
  intros Hmc F Ht. destruct F as [Fv _ _ _ _ Fp _ _ Fn Fx Fe (Dr & Dc & Da & Dw) _].
  destruct (entry_access mc vaddr p prot n xlat s te0 io Hmc Fv Fp Fn Fx Fe t off Ht) as (f & Hf & Ef & Rf & Rd).
  assert (forall g, addr_route vaddr te io g off = addr_route vaddr te0 io g off) as Er
    by (intros g; unfold addr_route; by rewrite Da).
  assert (t <> 1 -> tlb_addr te t = tlb_addr te0 t) as Et.
  { intros N. unfold tlb_addr. assert (t = 0 \/ t = 2) as [->| ->] by lia; done. }
  destruct (Z.eq_dec t 1) as [->|N]; [|exists f; rewrite Et, Er by done; done].
  change (tlb_addr te0 1) with (addr_write te0) in Ef. change (tlb_addr te 1) with (addr_write te).
  destruct Dw as [Dw|[D40 D16]]; [exists f; rewrite Dw, Er; done|].
  destruct (Z.testbit prot 1); [|rewrite Ef in D40; done].
  assert (Z.land vaddr 1023 = 0) as V0 by (apply aligned_land; apply Fv).
  assert (forall x, Z.land 1023 x = x -> Z.land vaddr x = 0) as Vx by (intros x <-; by rewrite Z.land_assoc, V0).
  assert (f = 0 \/ f = 16) as F16.
  { rewrite Ef, Z.land_lor_distr_l, (Vx 40) in D40 by done. destruct Hf as [->|[->|[->| ->]]]; auto; done. }
  assert (addr_write te = vaddr \/ addr_write te = Z.lor vaddr 16) as Cw.
  { apply set_bit_cases; [|by apply Vx]. rewrite D16, Ef. destruct F16 as [->| ->]; [by rewrite Z.lor_0_r|].
    by rewrite <- Z.lor_assoc. }
  destruct Cw as [->| ->]; [exists 0|exists 16]; rewrite ?Z.lor_0_r, Er; (split; [unfold flag; auto|]; split; [done|]);
    apply Rd; lia.
Qed.

Lemma no_entry_hit a t : tlb_hit no_entry a t = false.
Proof.
  unfold tlb_hit. apply Z.eqb_neq. intros E. apply (f_equal (fun v => Z.testbit v 3)) in E.
  rewrite Z.land_spec in E. change (Z.testbit TARGET_PAGE_MASK 3) with false in E. rewrite andb_false_r in E.
  unfold tlb_addr in E. destruct (t =? 0), (t =? 1); done.
Qed.

Lemma filled_hit w e tl idx i te io vaddr t0 p prot k n xlat s te0 t a : machine_ok mc ->
  filled w e tl idx i te io vaddr t0 p prot k n xlat s te0 -> 0 <= t <= 2 ->
  tlb_hit te a t = (page_of a =? vaddr) && Z.testbit prot t.
Proof.
  intros Hmc F Ht. destruct (filled_access _ _ _ _ _ _ _ _ _ _ _ _ _ _ _ _ t 0 Hmc F Ht) as (g & Hg & Eg & _).
  unfold tlb_hit. rewrite Eg. destruct (fi_vaddr _ _ _ _ _ _ _ _ _ _ _ _ _ _ _ _ F) as [Fv F0].
  destruct (Z.testbit prot t).
  - destruct (flagged_hit vaddr g Fv F0 Hg) as [-> _]. by rewrite andb_true_r.
  - rewrite andb_false_r. apply (no_entry_hit a 0).
Qed.

(** ** Access *)

(** The result of an access through the TLB against that of a walk. *)
Definition served (w : W) (c : cpu) (te : CPUTLBEntry) (addr t idx : Z) (r : walk) : Prop :=
  match r with
  | Fault _ => False
  | Translated p prot _ => exists rt, access_route c te addr t idx = Ok rt /\
      routes_to t (page_of addr) prot (p - p mod 1024) (p mod 1024) rt
  end.

Lemma filled_served w c tl idx te io vaddr t0 p prot k n xlat s te0 t addr : machine_ok mc ->
  env_ok (env c) -> has_tables (env c) -> 0 <= addr < 2 ^ 32 -> 0 <= t <= 2 ->
  filled w (env c) tl idx (tlb_index addr) te io vaddr t0 p prot k n xlat s te0 ->
  io_get (tlb c) idx (tlb_index addr) = Ok io -> page_of addr = vaddr -> Z.testbit prot t = true ->
  exists r, get_phys_addr w (env c) addr t (idx =? MMU_USER_IDX) = Ok r /\ served w c te addr t idx r.
Proof.
  intros Hmc He Ht Ha Htt F Eio Ev Eb. pose proof F as [Fv _ Fa Fw _ [Fp Fp0] [sz Ftr] Fs _ _ _ _ _].
  destruct (walk_exact w (env c) vaddr (idx =? MMU_USER_IDX) Ht t0 p prot (2 ^ k) Fa Fw) as [_ X].
  specialize (X t Htt). rewrite Eb in X. rewrite (walk_page w (env c) addr) by done. rewrite Ev, X. cbn [at_offset relocate].
  eexists. split; [done|]. set (off := addr mod 1024). assert (0 <= off < 1024) by (apply Z.mod_pos_bound; lia).
  assert ((p + off) mod 1024 = off) as Eo by (rewrite <- Z.add_mod_idemp_l, Fp0 by lia; apply Z.mod_small; lia).
  assert (addr = vaddr + off) as Eaddr by (rewrite <- Ev, page_of_val by done; unfold off; lia).
  cbn [served]. rewrite Eo. replace (p + off - off) with p by lia.
  destruct (filled_access _ _ _ _ _ _ _ _ _ _ _ _ _ _ _ _ t off Hmc F Htt) as (g & Hg & Eg & Rg). rewrite Eb in Eg.
  exists (addr_route vaddr te io g off). split; [|exists n, xlat, sz, s; by rewrite Ev].
  unfold access_route. rewrite Eg. destruct (flagged_hit vaddr g (proj1 Fv) (proj2 Fv) Hg) as [_ E2].
  rewrite E2. unfold addr_route.
  destruct (g =? 0); cbn [negb]; [by rewrite Eaddr|]. unfold io_get in Eio.
  destruct (aget (iotlb (tlb c)) idx) as [row|]; [|done]. cbn [res_bind] in *. rewrite Eio. cbn [res_bind]. by rewrite Eaddr.
Qed.

(** The CPU after a fault: the status and address of the fault, with the bit
    for writes from ARMv6 on, and the exception. *)
Definition fault_cpu (c : cpu) (code addr t : Z) : cpu :=
  if t =? 2 then mkCpu (insn_fault (env c) code addr) (tlb c) EXCP_PREFETCH_ABORT
  else mkCpu (data_fault (env c) (if (t =? 1) && arm_feature (env c) ARM_FEATURE_V6 then Z.lor code 2048 else code) addr)
         (tlb c) EXCP_DATA_ABORT.

(** Walks by tables do not read the fault registers. *)
Lemma walk_fault_regs w c code addr t a t' u : has_tables (env c) ->
  get_phys_addr w (env (fault_cpu c code addr t)) a t' u = get_phys_addr w (env c) a t' u.
Proof.
  intros Ht. unfold get_phys_addr, fault_cpu. destruct Ht as [E|E].
  - destruct (t =? 2); cbn [env]; cbn; rewrite E; done.
  - destruct (t =? 2); cbn [env]; unfold insn_fault, data_fault; unfold arm_feature in *; cbn [features] in *; cbn [c1_sys];
      destruct (_ =? 0); try done; rewrite E; done.
Qed.

Lemma coherent_fault w c code addr t : has_tables (env c) -> coherent w c -> coherent w (fault_cpu c code addr t).
Proof.
  intros Ht [Cs Cf Ce]. assert (tlb (fault_cpu c code addr t) = tlb c) as Et by (unfold fault_cpu; by destruct (t =? 2)).
  split; rewrite Et; [done|done|]. intros idx i te io Hi Hj E1 E2.
  destruct (Ce idx i te io Hi Hj E1 E2) as [->|(v & t0 & p & prot & k & n & x & s & te0 & F)]; [by left|right].
  exists v, t0, p, prot, k, n, x, s, te0. destruct F. split; try done. by rewrite walk_fault_regs.
Qed.

Lemma tlb_index_page a : 0 <= a < 2 ^ 32 -> tlb_index (page_of a) = tlb_index a.
Proof. intros Ha. rewrite !tlb_index_mod, page_of_val by done. f_equal. dlia. Qed.

Lemma tlb_entry_ok_mono w e tl tl' idx i te io : (forall v k, 10 <= k -> covered tl v k -> covered tl' v k) ->
  entry_ok w e tl idx i te io -> entry_ok w e tl' idx i te io.
Proof.
  intros Mono [->|(v & t0 & p & prot & k & n & x & s & te0 & F)]; [by left|right].
  exists v, t0, p, prot, k, n, x, s, te0. destruct F. split; try done. apply Mono; [lia|done].
Qed.

(** A fill keeps the TLB coherent, and the new entry serves the access. *)
Lemma fill_spec w c addr t idx p prot size : machine_ok mc -> env_ok (env c) -> has_tables (env c) -> coherent w c ->
  0 <= addr < 2 ^ 32 -> 0 <= t <= 2 -> 0 <= idx < 2 ->
  get_phys_addr w (env c) addr t (idx =? MMU_USER_IDX) = Ok (Translated p prot size) ->
  exists tl te, tlb_set_page mc (tlb c) (page_of addr) (p - p mod 1024) prot idx size = Ok tl /\
    coherent w (set_tlb c tl) /\ te_get tl idx (tlb_index addr) = Ok te /\
    served w (set_tlb c tl) te addr t idx (Translated p prot size).
Proof.
  intros Hmc He Ht [Cs Cf Ce] Ha Htt Hi Ew.
  pose proof (walk_good w (env c) addr t (idx =? MMU_USER_IDX) He Ht Ha) as G. rewrite Ew in G.
  destruct G as (Gp & Gm & k & Hk & ->). pose proof (page_of_range addr Ha) as Hv.
  assert (page_of addr mod 1024 = 0) as Hv0 by (rewrite page_of_val by done; dlia).
  pose proof (walk_page w (env c) addr t (idx =? MMU_USER_IDX) He Ht Ha) as Wp. rewrite Ew in Wp.
  destruct (get_phys_addr w (env c) (page_of addr) t _) as [[q prot' sz'|]|] eqn:Eq; [|done|done].
  cbn [at_offset relocate] in Wp. injection Wp as Eqp <- <-. rewrite <- Gm in Eqp.
  assert (q = p - p mod 1024) as -> by lia. set (q := p - p mod 1024) in *.
  assert (0 <= q < 2 ^ 40 /\ q mod 1024 = 0) as Hq by (unfold q; split; dlia).
  destruct (tlb_set_page_spec mc (tlb c) (page_of addr) q prot idx k Hmc Cs Cf Hv Hq Hk Hi)
    as (tl & n & x & s & te & io & E & Htr & Es & Hn & Hx & Ete & S & F & C & Mono & Gt & Gi).
  exists tl, te. split; [done|].
  assert (filled w (env c) tl idx (tlb_index (page_of addr)) te io (page_of addr) t q prot k n x s te) as Fl
    by (split; try done; unfold dirty_eq; auto).
  assert (te_get tl idx (tlb_index addr) = Ok te) as Gte by (by rewrite Gt, tlb_index_page, !Z.eqb_refl).
  split; [|split; [done|]].
  - split; cbn [tlb set_tlb]; [done|done|]. intros idx' i' te' io' Hi' Hj' E1 E2. rewrite Gt in E1. rewrite Gi in E2.
    destruct (Z.eqb_spec idx' idx) as [->|]; [destruct (Z.eqb_spec i' (tlb_index (page_of addr))) as [->|]|]; cbn [andb] in *.
    + injection E1 as <-. injection E2 as <-. right. by eexists _, _, _, _, _, _, _, _, _.
    + by apply (tlb_entry_ok_mono _ _ (tlb c)); [apply Mono|apply Ce].
    + by apply (tlb_entry_ok_mono _ _ (tlb c)); [apply Mono|apply Ce].
  - rewrite tlb_index_page in Fl, Gi by done.
    destruct (walk_exact w (env c) addr (idx =? MMU_USER_IDX) Ht t p prot (2 ^ k) Htt Ew) as [Eb _].
    destruct (filled_served w (set_tlb c tl) tl idx te io (page_of addr) t q prot k n x s te t addr) as (r & Er & Sr); try done.
    + cbn [tlb set_tlb]. by rewrite Gi, !Z.eqb_refl.
    + cbn [env set_tlb] in Er. rewrite Ew in Er. injection Er as <-. done.
Qed.

(** What a lookup does, by the result of the walk. *)
Definition lookup_result (w : W) (c : cpu) (addr t idx : Z) (r : walk) (c' : cpu) (o : outcome CPUTLBEntry) : Prop :=
  match r, o with
  | Translated _ _ _, Done te => env c' = env c /\ served w c' te addr t idx r
  | Fault code, Raised => c' = fault_cpu c code addr t
  | _, _ => False
  end.

Lemma lookup_spec w c addr t idx : machine_ok mc -> env_ok (env c) -> has_tables (env c) -> coherent w c ->
  0 <= addr < 2 ^ 32 -> 0 <= t <= 2 -> 0 <= idx < 2 ->
  exists r c' o, get_phys_addr w (env c) addr t (idx =? MMU_USER_IDX) = Ok r /\
    tlb_lookup mc w c addr t idx = Ok (c', o) /\ coherent w c' /\ lookup_result w c addr t idx r c' o.
Proof.
  intros Hmc He Ht Hc Ha Htt Hi. pose proof (tlb_index_range addr) as Hx. pose proof Hc as [Cs Cf Ce].
  unfold tlb_lookup. destruct (rows_get _ idx (tlb_index addr) (proj1 Cs) Hi Hx) as [te Ete].
  destruct (rows_get _ idx (tlb_index addr) (proj2 Cs) Hi Hx) as [io Eio].
  fold (te_get (tlb c) idx (tlb_index addr)) in Ete. fold (io_get (tlb c) idx (tlb_index addr)) in Eio.
  rewrite Ete. cbn [res_bind]. destruct (tlb_hit te addr t) eqn:Eh.
  - destruct (Ce idx _ te io Hi Hx Ete Eio) as [->|(v & t0 & p & prot & k & n & x & s & te0 & F)];
      [by rewrite no_entry_hit in Eh|].
    rewrite (filled_hit _ _ _ _ _ _ _ _ _ _ _ _ _ _ _ _ t addr Hmc F Htt) in Eh. apply andb_prop in Eh as [Ev Eb].
    apply Z.eqb_eq in Ev.
    destruct (filled_served w c _ idx te io v t0 p prot k n x s te0 t addr Hmc He Ht Ha Htt F Eio Ev Eb) as (r & Er & Sr).
    exists r, c, (Done te). split; [done|]. split; [done|]. split; [done|]. by destruct r.
  - unfold tlb_fill, arm_cpu_handle_mmu_fault.
    pose proof (walk_good w (env c) addr t (idx =? MMU_USER_IDX) He Ht Ha) as G.
    destruct (get_phys_addr w (env c) addr t _) as [[p prot size|code]|] eqn:Ew; [| |done]; cbn [res_bind].
    + destruct G as (Gp & _). change (u64 (Z.lnot 1023)) with (u64 (Z.lnot (PhysMap.TARGET_PAGE_SIZE - 1))).
      fold (page_base p). rewrite page_base_val by lia. replace (1024 * (p / 1024)) with (p - p mod 1024) by dlia.
      change (Z.land addr (u32 (Z.lnot 1023))) with (page_of addr).
      destruct (fill_spec w c addr t idx p prot size Hmc He Ht Hc Ha Htt Hi Ew) as (tl & te' & -> & Hco & Gte & Sv).
      cbn [res_bind Z.eqb negb]. cbn [tlb set_tlb]. rewrite Gte. cbn [res_bind].
      eexists _, (set_tlb c tl), (Done te'). split; [done|]. split; [done|]. by split.
    + exists (Fault code), (fault_cpu c code addr t), Raised. split; [done|]. split; [|split; [by apply coherent_fault|done]].
      unfold fault_cpu. by destruct (t =? 2).
Qed.

(** ** Flushing *)

Lemma fmap_rows (f : CPUTLBEntry -> CPUTLBEntry) (l : list (list CPUTLBEntry)) : rows l ->
  rows ((fun row : list CPUTLBEntry => f <$> row) <$> l).
Proof.
  intros [E Hf]. split; [by rewrite length_fmap|]. apply Forall_fmap. revert Hf. apply Forall_impl.
  intros row [El _]. split; [by rewrite length_fmap|]. by apply Forall_true.
Qed.

Lemma flush_get t idx i te : te_get (tlb_flush t) idx i = Ok te -> te = no_entry.
Proof.
  unfold te_get, tlb_flush. cbn [tlb_table]. intros E. res_inv.
  repeat match goal with X : _ <$> _ !! _ = _ |- _ => rewrite list_lookup_fmap in X
                    | X : (_ <$> _) !! _ = Some _ |- _ => rewrite list_lookup_fmap in X end.
  destruct (tlb_table t !! Z.to_nat idx) as [row|]; [|done]. cbn in *. simplify_eq.
  match goal with X : (_ <$> row) !! _ = Some _ |- _ => rewrite list_lookup_fmap in X; destruct (row !! Z.to_nat i); by simplify_eq/= end.
Qed.

Lemma flush_coherent w c : shape (tlb c) -> coherent w (set_tlb c (tlb_flush (tlb c))).
Proof.
  intros [S1 S2]. split; cbn [tlb set_tlb].
  - split; [by apply fmap_rows|done].
  - by left.
  - intros idx i te io _ _ E _. left. by apply flush_get in E.
Qed.

Lemma flush_entry_cases te v : tlb_flush_entry te v = no_entry \/
  tlb_flush_entry te v = te /\ forall t, 0 <= t <= 2 -> Z.land (tlb_addr te t) (Z.lor TARGET_PAGE_MASK TLB_INVALID_MASK) <> v.
Proof.
  unfold tlb_flush_entry. destruct (_ || _) eqn:E; [by left|right]. split; [done|].
  intros t Ht Ev. apply orb_false_iff in E as [E E3]. apply orb_false_iff in E as [E1 E2].
  rewrite Z.eqb_neq in E1, E2, E3. unfold tlb_addr in Ev.
  assert (t = 0 \/ t = 1 \/ t = 2) as [->|[->| ->]] by lia; cbn [Z.eqb Pos.eqb] in Ev; by symmetry in Ev.
Qed.

(** The page tables changed at most for the pages around [addr], an address as
    loads and stores have it, before the process identifier is added. *)
Definition unchanged_elsewhere (w w' : W) (e : CPUARMState) (addr : Z) : Prop :=
  forall va t u p prot k, 0 <= va < 2 ^ 32 -> 0 <= k -> get_phys_addr w e va t u = Ok (Translated p prot (2 ^ k)) ->
    addr / 2 ^ k <> va / 2 ^ k -> get_phys_addr w' e va t u = Ok (Translated p prot (2 ^ k)).

(** An entry that a flush of the page of [addr] leaves in place is not for a
    page around [addr]. *)
Lemma unflushed w e tl idx i te io v t0 p prot k n x s te0 addr : machine_ok mc -> has_tables e ->
  filled w e tl idx i te io v t0 p prot k n x s te0 -> 0 <= addr < 2 ^ 32 ->
  Z.land addr (tlb_flush_mask tl) <> tlb_flush_addr tl ->
  (i = tlb_index addr -> forall t, 0 <= t <= 2 -> Z.land (tlb_addr te t) (Z.lor TARGET_PAGE_MASK TLB_INVALID_MASK) <> page_of addr) ->
  addr / 2 ^ k <> v / 2 ^ k.
Proof.
  intros Hmc Ht F Ha Nf Nk Eq. pose proof F as [[Fv F0] Fi Fa Fw Fk _ _ _ _ _ _ _ Fc]. destruct Fc as [->|(j & Hj & Em & _ & Ea)].
  - change (2 ^ 10) with 1024 in Eq. assert (page_of addr = v) as Ep by (rewrite page_of_val by done; dlia).
    destruct (walk_exact w e v (idx =? MMU_USER_IDX) Ht t0 p prot (2 ^ 10) Fa Fw) as [Eb _].
    pose proof (filled_hit _ _ _ _ _ _ _ _ _ _ _ _ _ _ _ _ t0 addr Hmc F Fa) as Hh. rewrite Ep, Z.eqb_refl, Eb in Hh.
    unfold tlb_hit in Hh. apply Z.eqb_eq in Hh. apply (Nk ltac:(rewrite <- Fi, <- Ep; by apply tlb_index_page) t0 Fa).
    by rewrite <- Hh.
  - apply Nf. rewrite Em, himask_land by lia. rewrite Ea.
    assert (forall y, y / 2 ^ j = y / 2 ^ k / 2 ^ (j - k)) as D.
    { intros y. rewrite Z.div_div by lia. rewrite <- Z.pow_add_r by lia. do 2 f_equal. lia. }
    pose proof (Z.div_mod addr (2 ^ j) ltac:(lia)) as E1. pose proof (Z.div_mod v (2 ^ j) ltac:(lia)) as E2.
    rewrite D, Eq, <- D in E1. lia.
Qed.

Lemma flush_page_coherent w w' c addr : machine_ok mc -> has_tables (env c) -> coherent w c -> 0 <= addr < 2 ^ 32 ->
  unchanged_elsewhere w w' (env c) addr ->
  exists t, tlb_flush_page (tlb c) addr = Ok t /\ coherent w' (set_tlb c t).
Proof.
  intros Hmc Ht [Cs Cf Ce] Ha Hu. unfold tlb_flush_page.
  destruct (Z.eqb_spec (Z.land addr (tlb_flush_mask (tlb c))) (tlb_flush_addr (tlb c))) as [|Nf].
  { eexists. split; [done|]. by apply flush_coherent. }
  rewrite <- page_of_mask, tlb_index_page by done.
  destruct (each_mode_spec (tlb c) (tlb_index addr) (fun te => tlb_flush_entry te (page_of addr)) Cs (tlb_index_range addr))
    as (t & -> & St & (R1 & R2 & R3) & G). exists t. split; [done|].
  assert (forall v k, covered (tlb c) v k -> covered t v k) as Cov by (intros v k; unfold covered; by rewrite R2, R3).
  split; cbn [tlb set_tlb env]; [done|unfold flush_ok; by rewrite R2, R3|].
  intros idx i te io Hi Hj E1 E2. unfold io_get in E2. rewrite R1 in E2. fold (io_get (tlb c) idx i) in E2.
  destruct (rows_get _ idx i (proj1 Cs) Hi Hj) as [te' Ete]. fold (te_get (tlb c) idx i) in Ete.
  rewrite (G idx i te' Hi Ete) in E1. injection E1 as <-.
  destruct (Ce idx i te' io Hi Hj Ete E2) as [->|(v & t0 & p & prot & k & n & x & s & te0 & F)].
  { left. destruct (_ =? _); [|done]. by destruct (flush_entry_cases no_entry (page_of addr)) as [E|[E _]]. }
  destruct (Z.eqb_spec i (tlb_index addr)) as [Ei|Ni]; [destruct (flush_entry_cases te' (page_of addr)) as [->|[-> Nk]]; [by left|]|];
    right; exists v, t0, p, prot, k, n, x, s, te0; pose proof F as [? ? ? Fw ? ? ? ? ? ? ? ? Fc];
    (split; try done; [|by apply Cov]); apply (Hu v t0 _ p prot k); [lia|lia|done| |lia|lia|done|].
  - by apply (unflushed w (env c) (tlb c) idx i te' io v t0 p prot k n x s te0 addr).
  - apply (unflushed w (env c) (tlb c) idx i te' io v t0 p prot k n x s te0 addr); try done.
Qed.

(** A flush of another page leaves an entry in place. *)
Lemma flush_other_page w c idx t te a addr : machine_ok mc -> coherent w c -> 0 <= idx < 2 -> 0 <= t <= 2 ->
  te_get (tlb c) idx (tlb_index a) = Ok te -> tlb_hit te a t = true -> page_of addr <> page_of a ->
  Z.land addr (tlb_flush_mask (tlb c)) <> tlb_flush_addr (tlb c) ->
  exists tl, tlb_flush_page (tlb c) addr = Ok tl /\ te_get tl idx (tlb_index a) = Ok te.
Proof.
  intros Hmc Hc Hi Ht Ete Hh Np Nf. pose proof Hc as [Cs _ Ce]. unfold tlb_flush_page.
  destruct (Z.eqb_spec (Z.land addr (tlb_flush_mask (tlb c))) (tlb_flush_addr (tlb c))) as [|_]; [done|]. rewrite <- page_of_mask.
  destruct (each_mode_spec (tlb c) (tlb_index (page_of addr)) (fun te => tlb_flush_entry te (page_of addr)) Cs (tlb_index_range _))
    as (tl & -> & _ & _ & G). exists tl. split; [done|]. rewrite (G idx _ te Hi Ete). f_equal.
  destruct (_ =? _); [|done]. destruct (rows_get _ idx (tlb_index a) (proj2 Cs) Hi (tlb_index_range a)) as [io Eio].
  destruct (Ce idx _ te io Hi (tlb_index_range a) Ete Eio) as [->|(v & t0 & p & prot & k & n & x & s & te0 & F)];
    [by rewrite no_entry_hit in Hh|].
  pose proof (filled_hit _ _ _ _ _ _ _ _ _ _ _ _ _ _ _ _ t a Hmc F Ht) as Ha. rewrite Hh in Ha.
  symmetry in Ha. apply andb_prop in Ha as [Ev%Z.eqb_eq _].
  assert (forall t', 0 <= t' <= 2 -> tlb_hit te addr t' = false) as M.
  { intros t' Ht'. rewrite (filled_hit _ _ _ _ _ _ _ _ _ _ _ _ _ _ _ _ t' addr Hmc F Ht').
    destruct (Z.eqb_spec (page_of addr) v); [congruence|done]. }
  pose proof (M 0 ltac:(lia)) as M0. pose proof (M 1 ltac:(lia)) as M1. pose proof (M 2 ltac:(lia)) as M2.
  unfold tlb_hit, tlb_addr in M0, M1, M2. cbn [Z.eqb Pos.eqb] in M0, M1, M2. rewrite <- page_of_mask in M0, M1, M2.
  unfold tlb_flush_entry. by rewrite M0, M1, M2.
Qed.

(** ** Dirty tracking *)

Lemma dirty_eq_reset te0 te start len : dirty_eq te0 te -> dirty_eq te0 (tlb_reset_dirty_range te start len).
Proof.
  intros D. unfold tlb_reset_dirty_range. destruct (tlb_is_dirty_ram te) eqn:Ed; [|done]. cbv zeta. destruct (_ <? len); [|done].
  destruct D as (Dr & Dc & Da & Dw). unfold dirty_eq. cbn [addr_read addr_code addend addr_write set_addr_write].
  do 3 (split; [done|]). right. change TLB_NOTDIRTY with 16. rewrite <- Z.lor_assoc. change (Z.lor 16 16) with 16.
  unfold tlb_is_dirty_ram in Ed. apply Z.eqb_eq in Ed.
  assert (Z.land (addr_write te) 40 = 0) as E40.
  { change 40 with (Z.land (Z.lor (Z.lor TLB_INVALID_MASK TLB_MMIO) TLB_NOTDIRTY) 40). by rewrite Z.land_assoc, Ed. }
  destruct Dw as [<-|[? ?]]; done.
Qed.

Lemma dirty_eq_set te0 te v : v mod 1024 = 0 -> dirty_eq te0 te -> dirty_eq te0 (tlb_set_dirty1 te v).
Proof.
  intros Hv D. unfold tlb_set_dirty1. destruct (Z.eqb_spec (addr_write te) (Z.lor v TLB_NOTDIRTY)) as [E|]; [|done].
  destruct D as (Dr & Dc & Da & Dw). unfold dirty_eq. cbn [addr_read addr_code addend addr_write set_addr_write].
  do 3 (split; [done|]). right. change TLB_NOTDIRTY with 16 in E.
  assert (Z.land v 40 = 0) as V40 by (change 40 with (Z.land 1023 40); by rewrite Z.land_assoc, aligned_land).
  assert (Z.lor (Z.lor v 16) 16 = Z.lor v 16) as E16 by (by rewrite <- Z.lor_assoc).
  destruct Dw as [Dw|[Dw D16]].
  - by rewrite <- Dw, E, Z.land_lor_distr_l, V40, E16.
  - split; [done|]. by rewrite <- D16, E, E16.
Qed.

Lemma reset_no_entry start len : tlb_reset_dirty_range no_entry start len = no_entry.
Proof. done. Qed.

Lemma set_no_entry v : v mod 1024 = 0 -> tlb_set_dirty1 no_entry v = no_entry.
Proof.
  intros Hv. unfold tlb_set_dirty1. destruct (Z.eqb_spec (addr_write no_entry) (Z.lor v TLB_NOTDIRTY)) as [E|]; [|done].
  apply (f_equal (fun x => Z.land x 8)) in E. rewrite Z.land_lor_distr_l in E.
  assert (Z.land v 8 = 0) as V8 by (change 8 with (Z.land 1023 8); by rewrite Z.land_assoc, aligned_land).
  by rewrite V8 in E.
Qed.

(** An update of the entries that only moves the flag of clean pages. *)
Lemma dirty_coherent w c t f : coherent w c -> shape t -> same_rest (tlb c) t -> f no_entry = no_entry ->
  (forall te0 te, dirty_eq te0 te -> dirty_eq te0 (f te)) ->
  (forall idx i te, 0 <= idx < 2 -> te_get (tlb c) idx i = Ok te ->
     te_get t idx i = Ok te \/ te_get t idx i = Ok (f te)) ->
  coherent w (set_tlb c t).
Proof.
  intros [Cs Cf Ce] St (R1 & R2 & R3) Fn Fd G.
  assert (forall v k, covered (tlb c) v k -> covered t v k) as Cov by (intros v k; unfold covered; by rewrite R2, R3).
  split; cbn [tlb set_tlb env]; [done|unfold flush_ok; by rewrite R2, R3|].
  intros idx i te io Hi Hj E1 E2. unfold io_get in E2. rewrite R1 in E2. fold (io_get (tlb c) idx i) in E2.
  destruct (rows_get _ idx i (proj1 Cs) Hi Hj) as [te' Ete]. fold (te_get (tlb c) idx i) in Ete.
  assert (te = te' \/ te = f te') as Et by (destruct (G idx i te' Hi Ete) as [X|X]; rewrite X in E1; injection E1 as <-; auto).
  destruct (Ce idx i te' io Hi Hj Ete E2) as [->|(v & t0 & p & prot & k & n & x & s & te0 & F)].
  { left. by destruct Et as [->| ->]. }
  right. exists v, t0, p, prot, k, n, x, s, te0. destruct F. split; try done; [|by apply Cov].
  destruct Et as [->| ->]; [done|by apply Fd].
Qed.

Lemma set_dirty_coherent w c vaddr : coherent w c -> 0 <= vaddr < 2 ^ 32 ->
  exists t, tlb_set_dirty (tlb c) vaddr = Ok t /\ coherent w (set_tlb c t).
Proof.
  intros Hc Hv. unfold tlb_set_dirty. rewrite <- page_of_mask.
  assert (page_of vaddr mod 1024 = 0) as Hp by (rewrite page_of_val by done; dlia).
  destruct (each_mode_spec (tlb c) (tlb_index (page_of vaddr)) (fun te => tlb_set_dirty1 te (page_of vaddr)) (co_shape _ _ Hc)
    (tlb_index_range _)) as (t & -> & St & R & G). exists t. split; [done|].
  apply (dirty_coherent w c t (fun te => tlb_set_dirty1 te (page_of vaddr))); try done.
  - by apply set_no_entry.
  - intros te0 te. by apply dirty_eq_set.
  - intros idx i te Hi E. rewrite (G idx i te Hi E). destruct (_ =? _); auto.
Qed.

Lemma reset_dirty_coherent w c start len : coherent w c -> coherent w (set_tlb c (cpu_tlb_reset_dirty_all (tlb c) start len)).
Proof.
  intros Hc. pose proof (co_shape _ _ Hc) as [S1 S2].
  apply (dirty_coherent w c _ (fun te => tlb_reset_dirty_range te start len)); try done.
  - split; [|done]. by apply fmap_rows.
  - intros te0 te. apply dirty_eq_reset.
  - intros idx i te Hi E. right. unfold te_get, cpu_tlb_reset_dirty_all in *. cbn [tlb_table].
    unfold aget in *. destruct (idx <? 0); [done|]. rewrite list_lookup_fmap.
    destruct (tlb_table (tlb c) !! Z.to_nat idx) as [row|]; [|done]. cbn [fmap option_fmap option_map res_bind] in *.
    destruct (i <? 0); [done|]. rewrite list_lookup_fmap. destruct (row !! Z.to_nat i); [|done].
    injection E as <-. done.
Qed.
End Coherence.
