(* ===== verification/SoftMmuRefine.v ===== *)
(** * Loads and stores through the TLB

    What a guest access does, byte by byte, by the page tables and the memory
    map alone, and that the helpers of [softmmu_template.h] do it. *)

From stdpp Require Import base list numbers.
From S2P Require Import Prelude Int128 PhysMap Dispatch ArmMmu ArmMmuFacts Cputlb CputlbFacts SoftMmu SoftMmuFacts.
Import Int128 ArmMmu.

Section Loads.
Context {W : Type} `{PhysMem W} `{HostWorld W}.
Variable mc : machine.

(** The host address of a guest virtual address that is backed by memory, by
    the page tables and the memory map alone. *)
Definition host_of (w : W) (e : CPUARMState) (a idx : Z) : option Z :=
  match get_phys_addr w e a 0 (idx =? MMU_USER_IDX) with
  | Ok (Translated p prot _) =>
      match address_space_translate_for_iotlb mc (p - p mod 1024) 1024 with
      | Ok (n, xlat, _) =>
          match aget (sections (map (dispatch mc))) n with
          | Ok s => if (is_ram mc (sec_mr s) || is_romd mc (sec_mr s)) && negb (watched mc (page_of a) prot)
                    then Some (u64 (ram_ptr mc (sec_mr s) + xlat + p mod 1024)) else None
          | _ => None
          end
      | _ => None
      end
  | _ => None
  end.

(** [n] bytes from [a] on, each translated on its own. *)
Fixpoint ref_load (n : nat) (w : W) (e : CPUARMState) (a idx : Z) : option Z :=
  match n with
  | O => Some 0
  | S n => h ← host_of w e a idx; v ← ref_load n w e (u32 (a + 1)) idx; Some (host_byte w h + 2 ^ 8 * v)
  end.

Hypothesis Hmc : machine_ok mc.

Lemma load_step w c a idx h : env_ok (env c) -> has_tables (env c) -> coherent mc w c -> 0 <= a < 2 ^ 32 ->
  0 <= idx < 2 -> host_of w (env c) a idx = Some h ->
  exists c' te, tlb_lookup mc w c a 0 idx = Ok (c', Done te) /\ env c' = env c /\ coherent mc w c' /\
    access_route c' te a 0 idx = Ok (Host h).
Proof.
  intros He Ht Hc Ha Hi Hh.
  destruct (lookup_spec mc w c a 0 idx Hmc He Ht Hc Ha ltac:(lia) Hi) as (r & c' & o & Ew & El & Hc' & L).
  unfold host_of in Hh. rewrite Ew in Hh. destruct r as [p prot size|]; [|done]. destruct o as [te|]; [|done].
  destruct L as [Ee (rt & Er & n & xlat & sz & s & Etr & Es & Hin)]. exists c', te. do 3 (split; [done|]).
  rewrite Etr, Es in Hh. unfold allowed_routes in Hin. cbn [Z.eqb] in Hin.
  destruct (is_ram mc (sec_mr s) || is_romd mc (sec_mr s)); [|done]. destruct (watched mc (page_of a) prot); [done|].
  cbn [andb negb] in Hh. injection Hh as <-. apply list_elem_of_singleton in Hin as ->. done.
Qed.

(** Bytes of one page are next to each other in host memory. *)
Lemma host_of_next w e a idx h i : env_ok e -> has_tables e -> 0 <= a < 2 ^ 32 -> host_of w e a idx = Some h ->
  0 <= a mod 1024 + i < 1024 -> host_of w e (a + i) idx = Some (u64 (h + i)).
Proof.
  intros He Ht Ha Hh Hp. assert (page_of (a + i) = page_of a /\ 0 <= a + i < 2 ^ 32 /\ (a + i) mod 1024 = a mod 1024 + i) as (Ep & Hr & Em).
  { assert (0 <= a + i < 2 ^ 32) by dlia. rewrite !page_of_val by done. split; [dlia|]. split; [done|dlia]. }
  unfold host_of in *. rewrite (walk_page w e a), (walk_page w e (a + i)), Ep, Em in * by done.
  pose proof (walk_good w e (page_of a) 0 (idx =? MMU_USER_IDX) He Ht (page_of_range a Ha)) as G.
  destruct (get_phys_addr w e (page_of a) 0 _) as [[p prot size|]|]; [|done|done]. cbn [at_offset relocate] in *.
  destruct G as (_ & Gm & _). assert (p mod 1024 = 0) as Gp by (rewrite Gm, page_of_val by done; dlia).
  assert (forall o, 0 <= o < 1024 -> (p + o) mod 1024 = o) as Mo.
  { intros o Ho. rewrite <- Z.add_mod_idemp_l, Gp by lia. apply Z.mod_small. lia. }
  pose proof (Z.mod_pos_bound a 1024 ltac:(lia)). rewrite !Mo in * by lia.
  replace (p + (a mod 1024 + i) - (a mod 1024 + i)) with (p + a mod 1024 - a mod 1024) by lia.
  destruct (address_space_translate_for_iotlb mc _ _) as [[[n xlat] sz]|]; [|done].
  destruct (aget _ n) as [s|]; [|done]. destruct (_ && _); [|done]. injection Hh as <-. f_equal.
  destruct (uwrap_sub_multiple 64 (ram_ptr mc (sec_mr s) + xlat + a mod 1024) ltac:(lia)) as [k ->].
  symmetry. apply uwrap_eq_mod with (k := k); lia.
Qed.

Lemma host_of_range w e a idx h : host_of w e a idx = Some h -> 0 <= h < 2 ^ 64.
Proof.
  unfold host_of. intros Hh. repeat (case_match; try done). injection Hh as <-. apply (uwrap_range 64). lia.
Qed.

(** The reference load inside a page. *)
Lemma ref_load_page n : forall w e a idx h, env_ok e -> has_tables e -> 0 <= a < 2 ^ 32 ->
  host_of w e a idx = Some h -> a mod 1024 + Z.of_nat n <= 1024 -> ref_load n w e a idx = Some (ld_le n w h).
Proof.
  induction n as [|n IH]; intros w e a idx h He Ht Ha Hh Hp; [done|]. cbn [ref_load ld_le]. rewrite Hh. cbn [mbind option_bind].
  destruct n as [|n]; [done|].
  assert (0 <= a + 1 < 2 ^ 32) as Ha1 by dlia. rewrite (uwrap_small 32 (a + 1)) by done.
  rewrite (IH w e (a + 1) idx (u64 (h + 1))); [done|done|done|done|apply host_of_next; try done; dlia|dlia].
Qed.

Lemma ld_le_range n : forall w h, 0 <= ld_le n w h < 2 ^ (8 * Z.of_nat n).
Proof.
  induction n as [|n IH]; intros w h; [done|]. cbn [ld_le]. pose proof (host_byte_range w h). specialize (IH w (u64 (h + 1))).
  replace (2 ^ (8 * Z.of_nat (S n))) with (2 ^ 8 * 2 ^ (8 * Z.of_nat n)) by (rewrite <- Z.pow_add_r by lia; f_equal; lia).
  lia.
Qed.

Lemma ld_le_app i : forall j w h, 0 <= h < 2 ^ 64 ->
  ld_le (i + j) w h = ld_le i w h + 2 ^ (8 * Z.of_nat i) * ld_le j w (u64 (h + Z.of_nat i)).
Proof.
  induction i as [|i IH]; intros j w h Hh.
  - cbn [Nat.add ld_le]. rewrite Z.add_0_r, uwrap_small by done. change (2 ^ (8 * Z.of_nat 0)) with 1. lia.
  - cbn [Nat.add ld_le]. rewrite IH by (apply (uwrap_range 64); lia).
    replace (u64 (u64 (h + 1) + Z.of_nat i)) with (u64 (h + Z.of_nat (S i))).
    + replace (2 ^ (8 * Z.of_nat (S i))) with (2 ^ 8 * 2 ^ (8 * Z.of_nat i)) by (rewrite <- Z.pow_add_r by lia; f_equal; lia).
      lia.
    + destruct (uwrap_sub_multiple 64 (h + 1) ltac:(lia)) as [k ->]. symmetry. apply uwrap_eq_mod with (k := k); lia.
Qed.

Lemma ref_load_app i : forall j w e a idx v, 0 <= a < 2 ^ 32 -> ref_load (i + j) w e a idx = Some v ->
  exists v1 v2, ref_load i w e a idx = Some v1 /\ ref_load j w e (u32 (a + Z.of_nat i)) idx = Some v2 /\
    v = v1 + 2 ^ (8 * Z.of_nat i) * v2.
Proof.
  induction i as [|i IH]; intros j w e a idx v Ha Hv.
  - exists 0, v. cbn [ref_load Nat.add] in *. rewrite Z.add_0_r, uwrap_small by done.
    change (2 ^ (8 * Z.of_nat 0)) with 1. split; [done|]. split; [done|lia].
  - cbn [ref_load Nat.add] in *. destruct (host_of w e a idx) as [h|]; [|done]. cbn [mbind option_bind] in *.
    destruct (ref_load (i + j) w e (u32 (a + 1)) idx) as [v'|] eqn:E; [|done]. injection Hv as <-.
    apply IH in E as (v1 & v2 & -> & E2 & ->); [|apply (uwrap_range 32); lia]. exists (host_byte w h + 2 ^ 8 * v1), v2.
    split; [done|]. split.
    + rewrite <- E2. f_equal. destruct (uwrap_sub_multiple 32 (a + 1) ltac:(lia)) as [k ->].
      symmetry. apply uwrap_eq_mod with (k := k); lia.
    + replace (2 ^ (8 * Z.of_nat (S i))) with (2 ^ 8 * 2 ^ (8 * Z.of_nat i)) by (rewrite <- Z.pow_add_r by lia; f_equal; lia).
      lia.
Qed.

(** A load that stays in a page. *)
Lemma load_in_page fuel size w c a idx h : env_ok (env c) -> has_tables (env c) -> coherent mc w c ->
  0 <= a < 2 ^ 32 -> 0 <= idx < 2 -> 0 < size -> host_of w (env c) a idx = Some h -> a mod 1024 + size <= 1024 ->
  exists c', helper_le_ld mc (S fuel) size w c a 0 idx = Ok (w, c', Done (ld_le (Z.to_nat size) w h)) /\
    env c' = env c /\ coherent mc w c'.
Proof.
  intros He Ht Hc Ha Hi Hs Hh Hp. destruct (load_step w c a idx h He Ht Hc Ha Hi Hh) as (c' & te & El & Ee & Hc' & Er).
  exists c'. split; [|done]. cbn [helper_le_ld]. rewrite El. cbn [res_bind]. rewrite Er. cbn [res_bind].
  change (TARGET_PAGE_SIZE - 1) with (Z.ones 10). rewrite Z.land_ones by lia. change (2 ^ 10) with 1024.
  change TARGET_PAGE_SIZE with 1024. destruct (Z.leb_spec 1024 (a mod 1024 + size - 1)); [lia|]. by rewrite andb_false_r.
Qed.

(** The two halves of a split load. *)
Lemma combine_halves size k w h1 h2 : 0 < k < size -> 0 <= h1 < 2 ^ 64 -> 0 <= h2 < 2 ^ 64 ->
  Z.lor (Z.shiftr (ld_le (Z.to_nat size) w h1) (k * 8))
    (uwrap (size * 8) (Z.shiftl (ld_le (Z.to_nat size) w h2) (size * 8 - k * 8))) =
  ld_le (Z.to_nat (size - k)) w (u64 (h1 + k)) + 2 ^ (8 * (size - k)) * ld_le (Z.to_nat k) w h2.
Proof.
  intros Hk H1 H2. replace (Z.to_nat size) with (Z.to_nat k + Z.to_nat (size - k))%nat by lia.
  rewrite !ld_le_app by done. rewrite !Z2Nat.id by lia.
  set (A := ld_le (Z.to_nat (size - k)) w (u64 (h1 + k))). set (B := ld_le (Z.to_nat k) w h2).
  pose proof (ld_le_range (Z.to_nat k) w h1) as R1. pose proof (ld_le_range (Z.to_nat (size - k)) w (u64 (h1 + k))) as RA.
  pose proof (ld_le_range (Z.to_nat k) w h2) as RB. fold A in RA. fold B in RB. rewrite !Z2Nat.id in * by lia.
  rewrite Z.shiftr_div_pow2 by lia. rewrite (Z.mul_comm k 8). rewrite (Z.mul_comm (2 ^ (8 * k)) A), Z.div_add by lia.
  rewrite Z.div_small by lia. rewrite Z.add_0_l. rewrite Z.shiftl_mul_pow2 by lia.
  set (C := ld_le (Z.to_nat (size - k)) w (u64 (h2 + k))). unfold uwrap.
  replace (size * 8 - 8 * k) with (8 * (size - k)) by lia.
  replace ((B + 2 ^ (8 * k) * C) * 2 ^ (8 * (size - k))) with (B * 2 ^ (8 * (size - k)) + C * 2 ^ (size * 8)).
  2: { replace (2 ^ (size * 8)) with (2 ^ (8 * k) * 2 ^ (8 * (size - k))) by (rewrite <- Z.pow_add_r by lia; f_equal; lia). lia. }
  rewrite Z.mod_add by lia. rewrite Z.mod_small.
  2: { replace (2 ^ (size * 8)) with (2 ^ (8 * k) * 2 ^ (8 * (size - k))) by (rewrite <- Z.pow_add_r by lia; f_equal; lia). nia. }
  rewrite Z.lor_comm, <- Z.shiftl_mul_pow2 by lia. rewrite lor_concat by lia. lia.
Qed.

(** Where a load that leaves its page is split. *)
Lemma split_point a b : 0 <= a < 2 ^ 32 -> 0 <= b <= 3 -> let size := 2 ^ b in 1024 < a mod 1024 + size ->
  let k := a mod size in 0 < k < size /\ Z.land a (u32 (Z.lnot (size - 1))) = a - k /\
  (a - k) mod 1024 = 1024 - size /\ u32 (a - k + size) mod 1024 = 0 /\ Z.land a (size - 1) = k /\
  u32 (a + (size - k)) = u32 (a - k + size).
Proof.
  intros Ha Hb size Hx k.
  assert (size = 1 \/ size = 2 \/ size = 4 \/ size = 8) as Hs.
  { unfold size. assert (b = 0 \/ b = 1 \/ b = 2 \/ b = 3) as [->|[->|[->| ->]]] by lia; auto. }
  assert (Z.land a (u32 (Z.lnot (size - 1))) = a - k) as E1.
  { replace (size - 1) with (u32 (2 ^ b - 1)) by (unfold size; destruct Hs as [?|[?|[?|?]]]; rewrite uwrap_small; lia).
    rewrite size_mask, himask_land by lia. done. }
  assert (Z.land a (size - 1) = k) as E2.
  { replace (size - 1) with (Z.ones b) by (rewrite Z.ones_equiv; unfold size; lia). by rewrite Z.land_ones by lia. }
  assert (u32 (a - k + size) mod 1024 = (a - k + size) mod 1024) as E3.
  { unfold uwrap. change (2 ^ 32) with (1024 * 2 ^ 22). rewrite Z.rem_mul_r by lia.
    rewrite (Z.mul_comm 1024), Z.mod_add, Z.mod_mod by lia. done. }
  rewrite E1, E2, E3. replace (a + (size - k)) with (a - k + size) by lia. clear E1 E2 E3. unfold k.
  destruct Hs as [Hs|[Hs|[Hs|Hs]]]; rewrite Hs in *; repeat split; dlia.
Qed.

Lemma load_split fuel size w c c0 c1 c2 a k idx te h r1 r2 : tlb_lookup mc w c a 0 idx = Ok (c0, Done te) ->
  access_route c0 te a 0 idx = Ok (Host h) -> 1 < size -> 1024 < a mod 1024 + size ->
  Z.land a (u32 (Z.lnot (size - 1))) = a - k -> Z.land a (size - 1) = k ->
  helper_le_ld mc fuel size w c0 (a - k) 0 idx = Ok (w, c1, Done r1) ->
  helper_le_ld mc fuel size w c1 (u32 (a - k + size)) 0 idx = Ok (w, c2, Done r2) ->
  helper_le_ld mc (S fuel) size w c a 0 idx =
    Ok (w, c2, Done (Z.lor (Z.shiftr r1 (k * 8)) (uwrap (size * 8) (Z.shiftl r2 (size * 8 - k * 8))))).
Proof.
  intros El Er Hs Hx E1 E2 L1 L2. cbn [helper_le_ld]. rewrite El. cbn [res_bind]. rewrite Er. cbn [res_bind].
  change (TARGET_PAGE_SIZE - 1) with (Z.ones 10). rewrite Z.land_ones by lia. change (2 ^ 10) with 1024.
  change TARGET_PAGE_SIZE with 1024. destruct (Z.leb_spec 1024 (a mod 1024 + size - 1)); [|lia].
  destruct (Z.ltb_spec 1 size); [|lia]. cbn [andb]. rewrite E1, E2, L1. cbn [res_bind]. rewrite L2. done.
Qed.

Lemma load_correct b w c a idx v : env_ok (env c) -> has_tables (env c) -> coherent mc w c ->
  0 <= a < 2 ^ 32 -> 0 <= idx < 2 -> 0 <= b <= 3 -> ref_load (Z.to_nat (2 ^ b)) w (env c) a idx = Some v ->
  exists c', helper_le_ld mc 2 (2 ^ b) w c a 0 idx = Ok (w, c', Done v) /\ env c' = env c /\ coherent mc w c'.
Proof.
  intros He Ht Hc Ha Hi Hb Hv. assert (0 < 2 ^ b) as Hs by lia. pose proof (Z.pow_le_mono_r 2 b 3 ltac:(lia) ltac:(lia)) as Hs8.
  assert (exists h, host_of w (env c) a idx = Some h) as [h Hh].
  { destruct (Z.to_nat (2 ^ b)) eqn:E; [lia|]. cbn in Hv. destruct (host_of w (env c) a idx); [by eexists|done]. }
  destruct (Z.leb_spec (a mod 1024 + 2 ^ b) 1024) as [Hin|Hout].
  { destruct (load_in_page 1 (2 ^ b) w c a idx h He Ht Hc Ha Hi Hs Hh Hin) as (c' & E & X).
    exists c'. rewrite (ref_load_page _ w (env c) a idx h) in Hv by (done || lia). injection Hv as <-. done. }
  destruct (split_point a b Ha Hb Hout) as (Hk & E1 & M1 & M2 & E2 & Eu). set (k := a mod 2 ^ b) in *. set (size := 2 ^ b) in *.
  assert (0 <= a - k < 2 ^ 32) as Ha1.
  { split; [|lia]. pose proof (Z.mod_le a size). unfold k. lia. }
  assert (0 <= u32 (a - k + size) < 2 ^ 32) as Ha2 by (apply (uwrap_range 32); lia).
  replace (Z.to_nat size) with (Z.to_nat (size - k) + Z.to_nat k)%nat in Hv by lia.
  apply ref_load_app in Hv as (v1 & v2 & V1 & V2 & ->); [|done]. rewrite Z2Nat.id in * by lia. rewrite Eu in V2.
  assert (exists h2, host_of w (env c) (u32 (a - k + size)) idx = Some h2) as [h2 Hh2].
  { destruct (Z.to_nat k) eqn:E; [lia|]. cbn in V2. destruct (host_of w (env c) (u32 (a - k + size)) idx); [by eexists|done]. }
  assert (a mod 1024 = 1024 - size + k) as Ea by dlia.
  assert (host_of w (env c) (a - k) idx = Some (u64 (h - k))) as Hh1.
  { pose proof (host_of_next w (env c) a idx h (- k) He Ht Ha Hh ltac:(lia)) as X. by rewrite !Z.add_opp_r in X. }
  pose proof (host_of_range _ _ _ _ _ Hh) as Rh. pose proof (host_of_range _ _ _ _ _ Hh2) as Rh2.
  rewrite (ref_load_page _ w (env c) a idx h) in V1 by (done || lia). injection V1 as <-.
  rewrite (ref_load_page _ w (env c) (u32 (a - k + size)) idx h2) in V2 by (done || lia). injection V2 as <-.
  destruct (load_step w c a idx h He Ht Hc Ha Hi Hh) as (c0 & te & El & Ee & Hc0 & Er).
  rewrite <- Ee in He, Ht, Hh1, Hh2.
  destruct (load_in_page 0 size w c0 (a - k) idx _ He Ht Hc0 Ha1 Hi Hs Hh1) as (c1 & L1 & Ee1 & Hc1); [lia|].
  rewrite <- Ee1 in He, Ht, Hh2.
  destruct (load_in_page 0 size w c1 (u32 (a - k + size)) idx _ He Ht Hc1 Ha2 Hi Hs Hh2) as (c2 & L2 & Ee2 & Hc2); [lia|].
  exists c2. split; [|split; [congruence|done]].
  rewrite (load_split 1 size w c c0 c1 c2 a k idx te h _ _ El Er ltac:(lia) ltac:(lia) E1 E2 L1 L2).
  do 3 f_equal. rewrite combine_halves by (done || apply (uwrap_range 64); lia).
  replace (u64 (u64 (h - k) + k)) with h; [done|].
  destruct (uwrap_sub_multiple 64 (h - k) ltac:(lia)) as [j ->]. rewrite <- (uwrap_small 64 h Rh) at 1.
  symmetry. apply uwrap_eq_mod with (k := j); lia.
Qed.
End Loads.

(** ** Stores *)

(** The RAM of the memory map: a page of the region [mr] at [x]. *)
Definition ram_page (mc : machine) (mr : mref) (x : Z) : Prop :=
  is_ram mc mr = true /\ exists p n sz s, address_space_translate_for_iotlb mc p 1024 = Ok (n, x, sz) /\
    aget (sections (map (dispatch mc))) n = Ok s /\ sec_mr s = mr.

(** What a store relies on: host memory is an array of bytes, and the callback
    for clean pages ([notdirty_mem_write]) stores to the RAM behind its address. *)
Class StoreLaws (W : Type) `{HostWorld W} (mc : machine) : Prop := {
  put_law (w : W) a v y : 0 <= v < 256 ->
    host_byte (host_put w a v) y = if y =? a then v else host_byte w y;
  notdirty_law (w : W) mr x off v n y : ram_page mc mr x -> 0 <= off -> off + Z.of_nat n <= 1024 ->
    n ∈ [1; 2; 4; 8]%nat -> 0 <= v < 2 ^ (8 * Z.of_nat n) ->
    host_byte (io_mem_write w io_mem_notdirty (u64 (ram_addr mc mr + x + off)) v (Z.of_nat n)) y =
    host_byte (st_le n w (u64 (ram_ptr mc mr + x + off)) v) y;
  notdirty_section : exists s,
    aget (sections (map (dispatch mc))) PHYS_SECTION_NOTDIRTY = Ok s /\ sec_mr s = io_mem_notdirty
}.

Section Stores.
Context {W : Type} `{PhysMem W} `{HostWorld W}.
Variable mc : machine.

(** The RAM that a store to a guest address goes to, as the region, its page
    and the offset in the page: the page may be written, has RAM that is not
    read-only, and no watchpoint. *)
Definition ram_of (w : W) (e : CPUARMState) (a idx : Z) : option (mref * Z * Z) :=
  match get_phys_addr w e a 1 (idx =? MMU_USER_IDX) with
  | Ok (Translated p prot _) =>
      match address_space_translate_for_iotlb mc (p - p mod 1024) 1024 with
      | Ok (n, xlat, _) =>
          match aget (sections (map (dispatch mc))) n with
          | Ok s => if is_ram mc (sec_mr s) && negb (sec_readonly s) && negb (is_romd mc (sec_mr s)) &&
                       negb (watched mc (page_of a) prot)
                    then Some (sec_mr s, xlat, p mod 1024) else None
          | _ => None
          end
      | _ => None
      end
  | _ => None
  end.

Definition store_host (w : W) (e : CPUARMState) (a idx : Z) : option Z :=
  (fun '(mr, x, off) => u64 (ram_ptr mc mr + x + off)) <$> ram_of w e a idx.

(** Two worlds with the same page tables. *)
Definition same_walks (w w' : W) : Prop :=
  forall e a t u, get_phys_addr w' e a t u = get_phys_addr w e a t u.

(** The worlds that stores to the host addresses [T] can lead to. *)
Inductive after (T : list Z) (w : W) : W -> Prop :=
| after_refl : after T w w
| after_put w' h v : after T w w' -> h ∈ T -> after T w (host_put w' h v)
| after_notdirty w' mr x v n : after T w w' ->
    (forall i, 0 <= i < n -> u64 (ram_ptr mc mr + x + i) ∈ T) ->
    after T w (io_mem_write w' io_mem_notdirty (u64 (ram_addr mc mr + x)) v n).

(** [w'] is [w] with the bytes of [val] at the host addresses [T], and nothing
    else changed. *)
Definition stores_le (T : list Z) (val : Z) (w w' : W) : Prop :=
  (forall i h, T !! i = Some h -> host_byte w' h = u8 (Z.shiftr val (8 * Z.of_nat i))) /\
  (forall y, y ∉ T -> host_byte w' y = host_byte w y).

Context `{!StoreLaws W mc}.
Hypothesis Hmc : machine_ok mc.

Lemma ram_of_walks w w' e a idx : same_walks w w' -> ram_of w' e a idx = ram_of w e a idx.
Proof. intros Hs. unfold ram_of. by rewrite Hs. Qed.

Lemma coherent_walks w w' c : same_walks w w' -> coherent mc w c -> coherent mc w' c.
Proof.
  intros Hs [Cs Cf Ce]. split; [done|done|]. intros idx i te io Hi Hx Ete Eio.
  destruct (Ce idx i te io Hi Hx Ete Eio) as [->|(v & t0 & p & prot & k & n & x & s & te0 & [])]; [by left|].
  right. exists v, t0, p, prot, k, n, x, s, te0. split; try done. by rewrite Hs.
Qed.

(** The TLB finds the RAM, directly or by the callback for clean pages. *)
Lemma store_step w c a idx mr x off : env_ok (env c) -> has_tables (env c) -> coherent mc w c -> 0 <= a < 2 ^ 32 ->
  0 <= idx < 2 -> ram_of w (env c) a idx = Some (mr, x, off) ->
  ram_page mc mr x /\ off = a mod 1024 /\
  exists c' te, tlb_lookup mc w c a 1 idx = Ok (c', Done te) /\ env c' = env c /\ coherent mc w c' /\
    (access_route c' te a 1 idx = Ok (Host (u64 (ram_ptr mc mr + x + off))) \/
     access_route c' te a 1 idx = Ok (Io PHYS_SECTION_NOTDIRTY (u64 (ram_addr mc mr + x + off)))).
Proof.
  intros He Ht Hc Ha Hi Hh.
  destruct (lookup_spec mc w c a 1 idx Hmc He Ht Hc Ha ltac:(lia) Hi) as (r & c' & o & Ew & El & Hc' & L).
  pose proof (walk_good w (env c) a 1 (idx =? MMU_USER_IDX) He Ht Ha) as G. unfold ram_of in Hh. rewrite Ew in Hh, G.
  destruct r as [p prot size|]; [|done]. destruct o as [te|]; [|done].
  destruct L as [Ee (rt & Er & n & xlat & sz & s & Etr & Es & Hin)].
  rewrite Etr, Es in Hh. unfold allowed_routes in Hin. cbn [Z.eqb] in Hin.
  destruct (is_ram mc (sec_mr s)) eqn:E1; [|done]. destruct (sec_readonly s); [done|].
  destruct (is_romd mc (sec_mr s)); [done|]. destruct (watched mc (page_of a) prot); [done|].
  cbn [andb negb orb] in Hh, Hin. injection Hh as <- <- <-. split; [split; [done|by eexists _, _, _, _]|].
  split; [by apply G|]. exists c', te. do 3 (split; [done|]).
  apply elem_of_cons in Hin as [->|Hin]; [by left|]. apply list_elem_of_singleton in Hin as ->. by right.
Qed.

(** Bytes of one page are next to each other. *)
Lemma ram_of_next w e a idx mr x off i : env_ok e -> has_tables e -> 0 <= a < 2 ^ 32 ->
  ram_of w e a idx = Some (mr, x, off) -> 0 <= a mod 1024 + i < 1024 ->
  ram_of w e (a + i) idx = Some (mr, x, off + i).
Proof.
  intros He Ht Ha Hh Hp. assert (page_of (a + i) = page_of a /\ 0 <= a + i < 2 ^ 32 /\ (a + i) mod 1024 = a mod 1024 + i) as (Ep & Hr & Em).
  { assert (0 <= a + i < 2 ^ 32) by dlia. rewrite !page_of_val by done. split; [dlia|]. split; [done|dlia]. }
  unfold ram_of in *. rewrite (walk_page w e a), (walk_page w e (a + i)), Ep, Em in * by done.
  pose proof (walk_good w e (page_of a) 1 (idx =? MMU_USER_IDX) He Ht (page_of_range a Ha)) as G.
  destruct (get_phys_addr w e (page_of a) 1 _) as [[p prot size|]|]; [|done|done]. cbn [at_offset relocate] in *.
  destruct G as (_ & Gm & _). assert (p mod 1024 = 0) as Gp by (rewrite Gm, page_of_val by done; dlia).
  assert (forall o, 0 <= o < 1024 -> (p + o) mod 1024 = o) as Mo.
  { intros o Ho. rewrite <- Z.add_mod_idemp_l, Gp by lia. apply Z.mod_small. lia. }
  pose proof (Z.mod_pos_bound a 1024 ltac:(lia)). rewrite !Mo in * by lia.
  replace (p + (a mod 1024 + i) - (a mod 1024 + i)) with (p + a mod 1024 - a mod 1024) by lia.
  destruct (address_space_translate_for_iotlb mc _ _) as [[[n xlat] sz]|]; [|done].
  destruct (aget _ n) as [s|]; [|done]. destruct (_ && _); [|done]. by injection Hh as <- <- <-.
Qed.

(** Stores to host memory. *)
Lemma st_le_stores n : forall w h v T, 0 <= h < 2 ^ 64 -> length T = n -> NoDup T ->
  (forall i, (i < n)%nat -> T !! i = Some (u64 (h + Z.of_nat i))) -> stores_le T v w (st_le n w h v).
Proof.
  induction n as [|n IH]; intros w h v T Hh Hl Hn HT; [destruct T; done|]. destruct T as [|h0 T]; [done|].
  pose proof (HT 0%nat ltac:(lia)) as E0. cbn in E0. rewrite Z.add_0_r, uwrap_small in E0 by done. injection E0 as ->.
  apply list.NoDup_cons in Hn as [Hh0 Hn]. injection Hl as Hl. cbn [st_le].
  destruct (IH (host_put w h (u8 v)) (u64 (h + 1)) (Z.shiftr v 8) T) as [I1 I2]; [apply (uwrap_range 64); lia|done|done| |].
  { intros i Hi. change (T !! i) with ((h :: T) !! S i). rewrite HT by lia. f_equal.
    destruct (uwrap_sub_multiple 64 (h + 1) ltac:(lia)) as [k ->]. symmetry. apply uwrap_eq_mod with (k := k); lia. }
  assert (forall y, y ∉ T -> host_byte (st_le n (host_put w h (u8 v)) (u64 (h + 1)) (Z.shiftr v 8)) y =
    if y =? h then u8 v else host_byte w y) as Y.
  { intros y Hy. rewrite I2 by done. rewrite put_law by (apply (uwrap_range 8); lia). done. }
  split.
  - intros [|i] g Eg; cbn in Eg.
    + injection Eg as <-. rewrite Y, Z.eqb_refl by done. by rewrite Z.shiftr_0_r.
    + rewrite (I1 i g Eg). f_equal. rewrite Z.shiftr_shiftr by lia. f_equal. lia.
  - intros y Hy. apply not_elem_of_cons in Hy as [N Hy]. rewrite Y by done. by rewrite (proj2 (Z.eqb_neq _ _) N).
Qed.

Lemma after_st_le n : forall T w0 w h v, after T w0 w ->
  (forall i, 0 <= i < Z.of_nat n -> u64 (h + i) ∈ T) -> 0 <= h < 2 ^ 64 -> after T w0 (st_le n w h v).
Proof.
  induction n as [|n IH]; intros T w0 w h v A HT Hh; [done|]. cbn [st_le]. apply IH; [| |apply (uwrap_range 64); lia].
  - apply after_put; [done|]. specialize (HT 0 ltac:(lia)). by rewrite Z.add_0_r, uwrap_small in HT.
  - intros i Hi. specialize (HT (i + 1) ltac:(lia)).
    replace (u64 (u64 (h + 1) + i)) with (u64 (h + (i + 1))); [done|].
    destruct (uwrap_sub_multiple 64 (h + 1) ltac:(lia)) as [k ->]. symmetry. apply uwrap_eq_mod with (k := k); lia.
Qed.

(** A store of [n] bytes inside a page, on either route. *)
Lemma store_routes n T U w0 w mr x off v : ram_page mc mr x -> 0 <= off -> off + Z.of_nat n <= 1024 ->
  n ∈ [1; 2; 4; 8]%nat -> 0 <= v < 2 ^ (8 * Z.of_nat n) -> after T w0 w -> U ⊆ T -> NoDup U -> length U = n ->
  (forall i, (i < n)%nat -> U !! i = Some (u64 (ram_ptr mc mr + x + off + Z.of_nat i))) ->
  forall w', w' = st_le n w (u64 (ram_ptr mc mr + x + off)) v \/
    w' = io_mem_write w io_mem_notdirty (u64 (ram_addr mc mr + x + off)) v (Z.of_nat n) ->
  after T w0 w' /\ stores_le U v w w'.
Proof.
  intros Hp Ho Hn1 Hn Hv A HU Nd Hl HT w' Hw'. set (h := ram_ptr mc mr + x + off) in *.
  assert (forall i, u64 (u64 h + i) = u64 (h + i)) as Uh.
  { intros i. destruct (uwrap_sub_multiple 64 h ltac:(lia)) as [k ->]. apply uwrap_eq_mod with (k := k); lia. }
  assert (forall i, 0 <= i < Z.of_nat n -> u64 (h + i) ∈ T) as HT2.
  { intros i Hi. apply HU, list_elem_of_lookup. exists (Z.to_nat i). rewrite HT by lia. by rewrite Z2Nat.id by lia. }
  assert (stores_le U v w (st_le n w (u64 h) v)) as Hs.
  { apply st_le_stores; try done; [apply (uwrap_range 64); lia|]. intros i Hi. by rewrite Uh, HT. }
  destruct Hw' as [->| ->].
  - split; [|done]. apply after_st_le; [done| |apply (uwrap_range 64); lia]. intros i Hi. rewrite Uh. auto.
  - split.
    + rewrite <- Z.add_assoc. apply after_notdirty; [done|]. intros i Hi. rewrite Z.add_assoc. by apply HT2.
    + destruct Hs as [S1 S2]. split.
      * intros i g Eg. rewrite notdirty_law by done. by apply S1.
      * intros y Hy. rewrite notdirty_law by done. by apply S2.
Qed.

(** Stores whose targets [T] hold no page tables. *)
Section Targets.
Variables (T : list Z) (w0 : W).
Hypothesis no_tables : forall w, after T w0 w -> same_walks w0 w.

Lemma after_coherent w w' c : after T w0 w -> after T w0 w' -> coherent mc w c -> coherent mc w' c.
Proof.
  intros A A'. apply coherent_walks. intros e a t u. by rewrite (no_tables w' A'), (no_tables w A).
Qed.

Lemma store_host_after w e a idx : after T w0 w -> store_host w e a idx = store_host w0 e a idx.
Proof. intros A. unfold store_host. by rewrite (ram_of_walks w0 w) by (by apply no_tables). Qed.

Lemma store_host_ram w e a idx h : after T w0 w -> store_host w0 e a idx = Some h ->
  exists mr x off, ram_of w e a idx = Some (mr, x, off) /\ h = u64 (ram_ptr mc mr + x + off).
Proof.
  intros A Eh. rewrite <- (store_host_after w) in Eh by done. unfold store_host in Eh.
  destruct (ram_of w e a idx) as [[[mr x] off]|]; [|done]. injection Eh as <-. by exists mr, x, off.
Qed.

Lemma stb_stores w c a idx h v : after T w0 w -> env_ok (env c) -> has_tables (env c) -> coherent mc w c ->
  0 <= a < 2 ^ 32 -> 0 <= idx < 2 -> store_host w0 (env c) a idx = Some h -> h ∈ T -> 0 <= v < 256 ->
  exists w' c', helper_ret_stb mc w c a v idx = Ok (w', c', Done tt) /\ env c' = env c /\ coherent mc w' c' /\
    after T w0 w' /\ stores_le [h] v w w'.
Proof.
  intros A He Ht Hc Ha Hi Hh HT Hv. destruct (store_host_ram w _ _ _ _ A Hh) as (mr & x & off & Er & Eh).
  destruct (store_step w c a idx mr x off He Ht Hc Ha Hi Er) as (Hp & Eo & c' & te & El & Ee & Hc' & Rt).
  pose proof (Z.mod_pos_bound a 1024 ltac:(lia)) as Ho. rewrite <- Eo in Ho.
  assert (forall w', w' = st_le 1 w h v \/ w' = io_mem_write w io_mem_notdirty (u64 (ram_addr mc mr + x + off)) v 1 ->
    after T w0 w' /\ stores_le [h] v w w') as St.
  { subst h. apply (store_routes 1); try done; try lia; [by left|by intros y ->%list_elem_of_singleton|apply NoDup_singleton|].
    intros i Hi1. assert (i = 0%nat) as -> by lia. by rewrite Z.add_0_r. }
  unfold helper_ret_stb. rewrite El. cbn [res_bind]. destruct Rt as [-> | ->]; cbn [res_bind].
  - rewrite <- Eh. destruct (St _ (or_introl eq_refl)) as [A' S]. eexists _, c'. split; [done|].
    split; [done|]. split; [by apply (after_coherent w)|done].
  - destruct notdirty_section as (s & -> & Em). cbn [res_bind]. rewrite Em.
    destruct (St _ (or_intror eq_refl)) as [A' S]. eexists _, c'. split; [done|].
    split; [done|]. split; [by apply (after_coherent w)|done].
Qed.

(** The targets of the bytes from [a] on. *)
Definition targets (e : CPUARMState) (a idx : Z) : Prop :=
  forall i h, T !! i = Some h -> store_host w0 e (u32 (a + Z.of_nat i)) idx = Some h.

Lemma st_bytes_stores n : forall w c a idx v, (n <= length T)%nat -> NoDup T -> targets (env c) a idx ->
  after T w0 w -> env_ok (env c) -> has_tables (env c) -> coherent mc w c -> 0 <= idx < 2 ->
  exists w' c', st_bytes mc n w c a v idx = Ok (w', c', Done tt) /\ env c' = env c /\ coherent mc w' c' /\
    after T w0 w' /\ stores_le (take n T) v w w'.
Proof.
  induction n as [|n IH]; intros w c a idx v Hn Nd HT A He Ht Hc Hi.
  { exists w, c. by split_and!. }
  destruct (lookup_lt_is_Some_2 T n ltac:(lia)) as [h Eh]. cbn [st_bytes].
  destruct (stb_stores w c (u32 (a + Z.of_nat n)) idx h (u8 (Z.shiftr v (Z.of_nat n * 8)))) as (w1 & c1 & E & Ee & Hc1 & A1 & S1 & S2);
    try done; [apply (uwrap_range 32); lia|by apply HT|by eapply list_elem_of_lookup_2|apply (uwrap_range 8); lia|].
  rewrite E. cbn [res_bind]. rewrite <- Ee in HT, He, Ht.
  destruct (IH w1 c1 a idx v ltac:(lia) Nd HT A1 He Ht Hc1 Hi) as (w' & c' & E' & Ee' & Hc' & A' & S1' & S2').
  exists w', c'. split; [done|]. split; [congruence|]. split; [done|]. split; [done|].
  assert (h ∉ take n T) as Nh.
  { intros (i & Ei)%list_elem_of_lookup. apply lookup_take_Some in Ei as [Ei Hin].
    pose proof (NoDup_lookup _ _ _ _ Nd Ei Eh). lia. }
  rewrite (take_S_r _ _ _ Eh). split.
  - intros i g Eg. apply lookup_app_Some in Eg as [Eg|[Hl Eg]]; [by apply S1'|].
    rewrite length_take, Nat.min_l in * by lia. apply list_lookup_singleton_Some in Eg as [Ei <-].
    assert (i = n) as -> by lia. rewrite S2', (S1 0%nat) by done. rewrite Z.shiftr_0_r.
    rewrite uwrap_idem by lia. f_equal. f_equal. lia.
  - intros y Hy. apply not_elem_of_app in Hy as [Hy1 Hy2]. by rewrite S2', S2.
Qed.

Lemma access_sizes b : 0 <= b <= 3 -> 2 ^ b = 1 \/ 2 ^ b = 2 \/ 2 ^ b = 4 \/ 2 ^ b = 8.
Proof. intros Hb. assert (b = 0 \/ b = 1 \/ b = 2 \/ b = 3) as [->|[->|[->| ->]]] by lia; auto. Qed.

(** A store of 1, 2, 4 or 8 bytes, on every path. *)
Lemma store_correct b w c a idx v : after T w0 w -> env_ok (env c) -> has_tables (env c) -> coherent mc w c ->
  0 <= a < 2 ^ 32 -> 0 <= idx < 2 -> 0 <= b <= 3 -> 0 <= v < 2 ^ (8 * 2 ^ b) ->
  NoDup T -> Z.of_nat (length T) = 2 ^ b -> targets (env c) a idx ->
  exists w' c', helper_le_st mc (2 ^ b) w c a v idx = Ok (w', c', Done tt) /\ env c' = env c /\
    coherent mc w' c' /\ after T w0 w' /\ stores_le T v w w'.
Proof.
  intros A He Ht Hc Ha Hi Hb Hv Nd Hl HT.
  destruct (lookup_lt_is_Some_2 T 0 ltac:(lia)) as [h Eh]. pose proof (HT _ _ Eh) as Hh. rewrite Z.add_0_r, uwrap_small in Hh by done.
  destruct (store_host_ram w _ _ _ _ A Hh) as (mr & x & off & Er & E0).
  destruct (store_step w c a idx mr x off He Ht Hc Ha Hi Er) as (Hp & Eo & c1 & te & El & Ee & Hc1 & Rt).
  assert (exists w' c', st_bytes mc (Z.to_nat (2 ^ b)) w c1 a v idx = Ok (w', c', Done tt) /\ env c' = env c /\
    coherent mc w' c' /\ after T w0 w' /\ stores_le T v w w') as Slow.
  { rewrite <- Ee in HT, He, Ht. replace (Z.to_nat (2 ^ b)) with (length T) by lia.
    destruct (st_bytes_stores (length T) w c1 a idx v) as (w' & c' & X); try done. rewrite take_ge in X by lia.
    rewrite <- Ee. by exists w', c'. }
  assert (a mod 1024 + 2 ^ b <= 1024 -> forall w', w' = st_le (Z.to_nat (2 ^ b)) w (u64 (ram_ptr mc mr + x + off)) v \/
    w' = io_mem_write w io_mem_notdirty (u64 (ram_addr mc mr + x + off)) v (2 ^ b) ->
    after T w0 w' /\ stores_le T v w w') as Fast.
  { intros Hin. replace (2 ^ b) with (Z.of_nat (length T)) by done. rewrite Nat2Z.id.
    apply store_routes; try done; [pose proof (Z.mod_pos_bound a 1024); lia|lia| |by rewrite Hl|].
    { rewrite !elem_of_cons. destruct (access_sizes b Hb) as [E|[E|[E|E]]]; rewrite E in Hl; lia. }
    intros i Hil. destruct (lookup_lt_is_Some_2 T i Hil) as [g Eg]. rewrite Eg. apply HT in Eg.
    assert (0 <= a + Z.of_nat i < 2 ^ 32) as Hai by dlia. rewrite uwrap_small in Eg by done.
    pose proof (ram_of_next w (env c) a idx mr x off (Z.of_nat i) He Ht Ha Er ltac:(pose proof (Z.mod_pos_bound a 1024); lia)) as En.
    rewrite <- (store_host_after w) in Eg by done. unfold store_host in Eg. rewrite En in Eg. injection Eg as <-. by rewrite Z.add_assoc. }
  unfold helper_le_st. rewrite El. cbn [res_bind].
  change (TARGET_PAGE_SIZE - 1) with (Z.ones 10). rewrite Z.land_ones by lia. change (2 ^ 10) with 1024. change TARGET_PAGE_SIZE with 1024.
  destruct Rt as [-> | ->]; cbn [res_bind].
  - destruct (Z.ltb_spec 1 (2 ^ b)); destruct (Z.leb_spec 1024 (a mod 1024 + 2 ^ b - 1)); cbn [andb]; try exact Slow.
    all: destruct (Fast ltac:(pose proof (Z.mod_pos_bound a 1024); lia) _ (or_introl eq_refl)) as [A' S].
    all: eexists _, c1; split; [done|]; split; [done|]; split; [by apply (after_coherent w)|done].
  - replace (2 ^ b - 1) with (Z.ones b) by (rewrite Z.ones_equiv; lia). rewrite Z.land_ones by lia.
    destruct (Z.eqb_spec (a mod 2 ^ b) 0) as [Al|]; cbn [negb]; [|exact Slow].
    destruct notdirty_section as (s & -> & Em). cbn [res_bind]. rewrite Em.
    assert (a mod 1024 + 2 ^ b <= 1024) as Hin.
    { destruct (access_sizes b Hb) as [E|[E|[E|E]]]; rewrite E in *; dlia. }
    destruct (Fast Hin _ (or_intror eq_refl)) as [A' S].
    eexists _, c1; split; [done|]; split; [done|]; split; [by apply (after_coherent w)|done].
Qed.
End Targets.

(** A store with a byte that may not be written stores nothing. *)
Lemma store_faults b w c a idx v i code : env_ok (env c) -> has_tables (env c) -> coherent mc w c ->
  0 <= a < 2 ^ 32 -> 0 <= idx < 2 -> 0 <= b <= 3 -> 0 <= i < 2 ^ b ->
  get_phys_addr w (env c) (u32 (a + i)) 1 (idx =? MMU_USER_IDX) = Ok (Fault code) ->
  exists c', helper_le_st mc (2 ^ b) w c a v idx = Ok (w, c', Raised) /\
    exists c1 code' a', (a' = a \/ a' = u32 (a + 2 ^ b - 1)) /\ env c1 = env c /\
    get_phys_addr w (env c) a' 1 (idx =? MMU_USER_IDX) = Ok (Fault code') /\ c' = fault_cpu c1 code' a' 1.
Proof.
  intros He Ht Hc Ha Hi Hb Hbi Hf.
  destruct (lookup_spec mc w c a 1 idx Hmc He Ht Hc Ha ltac:(lia) Hi) as (r & c1 & o & Ew & El & Hc1 & L).
  unfold helper_le_st. rewrite El. cbn [res_bind]. destruct r as [p prot size|code1]; destruct o as [te|]; try done.
  2: { exists c1. split; [done|]. exists c, code1, a. cbn in L. auto. }
  destruct L as [Ee (rt & Er & _)]. rewrite Er. cbn [res_bind].
  destruct (Z.leb_spec (a mod 1024 + i) 1023) as [Hin|Hout].
  { exfalso. assert (0 <= a + i < 2 ^ 32) as Hai by dlia. rewrite uwrap_small in Hf by done.
    rewrite (walk_page w (env c) (a + i)) in Hf by done. rewrite (walk_page w (env c) a) in Ew by done.
    replace (page_of (a + i)) with (page_of a) in Hf by (rewrite !page_of_val by done; dlia).
    destruct (get_phys_addr w (env c) (page_of a) 1 _) as [[]|]; done. }
  destruct (split_point a b Ha Hb ltac:(lia)) as (Hk & _ & _ & _ & E2 & _). set (z := u32 (a + 2 ^ b - 1)).
  assert (0 <= z < 2 ^ 32) as Hz by (apply (uwrap_range 32); lia).
  assert (0 <= u32 (a + i) < 2 ^ 32) as Hai by (apply (uwrap_range 32); lia).
  assert (get_phys_addr w (env c) z 1 (idx =? MMU_USER_IDX) = Ok (Fault code)) as Fz.
  { rewrite (walk_page w (env c) (u32 (a + i))) in Hf by done. rewrite (walk_page w (env c) z) by done.
    replace (page_of z) with (page_of (u32 (a + i))).
    - destruct (get_phys_addr w (env c) (page_of (u32 (a + i))) 1 _) as [[]|]; done.
    - rewrite !page_of_val by done. unfold z, uwrap in *.
      destruct (access_sizes b Hb) as [E|[E|[E|E]]]; rewrite E in *; dlia. }
  assert (exists c', st_bytes mc (Z.to_nat (2 ^ b)) w c1 a v idx = Ok (w, c', Raised) /\ c' = fault_cpu c1 code z 1) as (c' & Es & Ec').
  { rewrite <- Ee in He, Ht, Fz.
    destruct (lookup_spec mc w c1 z 1 idx Hmc He Ht Hc1 Hz ltac:(lia) Hi) as (r2 & c2 & o2 & Ew2 & El2 & _ & L2).
    rewrite Fz in Ew2. injection Ew2 as <-. destruct o2; [done|]. cbn in L2. exists c2. split; [|done].
    destruct (Z.to_nat (2 ^ b)) as [|n] eqn:En; [lia|]. cbn [st_bytes]. unfold helper_ret_stb.
    replace (u32 (a + Z.of_nat n)) with z by (unfold z; f_equal; lia). by rewrite El2. }
  exists c'. split; [|exists c1, code, z; auto].
  change (TARGET_PAGE_SIZE - 1) with (Z.ones 10). rewrite Z.land_ones by lia. change (2 ^ 10) with 1024. change TARGET_PAGE_SIZE with 1024.
  destruct rt as [g|n g].
  - destruct (Z.ltb_spec 1 (2 ^ b)); [|lia]. destruct (Z.leb_spec 1024 (a mod 1024 + 2 ^ b - 1)); [done|lia].
  - rewrite E2. destruct (Z.eqb_spec (a mod 2 ^ b) 0); [lia|done].
Qed.
End Stores.

(** ** The memory map of a board *)

(** Every section of the guest lies at a page-aligned distance from its region
    and inside it. *)
Definition aligned_map (rs : Z -> Int128) (d : AddressSpaceDispatch) : Prop :=
  forall n s id, aget (sections (map d)) n = Ok s -> sec_mr s = GuestMR id ->
    (offset_within_region s - offset_within_address_space s) mod 1024 = 0 /\
    wf (rs id) /\ val (sec_size s) <= val (rs id) <= 2 ^ 64.

(** The length that the translation leaves. *)
Lemma left_over R addr size : wf R -> 0 <= addr < 2 ^ 64 -> addr + 1024 <= val R <= 2 ^ 64 -> 1024 <= size < 2 ^ 32 ->
  exists sz, int128_get64 (int128_min (int128_sub R (int128_make64 addr)) (int128_make64 size)) = Ok sz /\ 1024 <= sz.
Proof.
  intros Hw Ha Hr Hs. rewrite !make64_of_Z by lia.
  assert (forall z, 0 <= z < 2 ^ 64 -> val (of_Z z) = z) as V by (intros z Hz; apply val_of_Z, in64; lia).
  assert (val (int128_sub R (of_Z addr)) = val R - addr) as Vs.
  { rewrite int128_sub_val, V by (done || apply of_Z_wf). apply swrap_small; lia. }
  unfold int128_min. match goal with |- context [if ?b then _ else _] => destruct b eqn:E end.
  - exists (val R - addr). rewrite get64_val; [by rewrite Vs; split; [|lia]|apply int128_sub_wf|].
    rewrite Vs. split; [lia|]. unfold int128_le, int128_lt in E. rewrite int128_ge_val, Vs, V in E by (apply int128_sub_wf || apply of_Z_wf || lia).
    lia.
  - exists size. rewrite get64_val by (apply of_Z_wf || rewrite V; lia). rewrite V by lia. split; [done|lia].
Qed.

Lemma board_pages mc : (forall p, 0 <= p < 2 ^ 64 -> p mod 1024 = 0 -> looks_up_page (dispatch mc) p 1024) ->
  aligned_map (region_size mc) (dispatch mc) ->
  (forall mr, 0 <= ram_addr mc mr < 2 ^ 64 /\ ram_addr mc mr mod 1024 = 0) -> machine_ok mc.
Proof.
  intros Pg Al Ram. split; [|done]. intros p Hp Hp0.
  destruct (Pg p ltac:(lia) Hp0) as (n & s & El & Es & Hn & Ps).
  exists n, (u64 (u64 (p - offset_within_address_space s) + offset_within_region s)), s.
  assert (forall size, 1024 <= size < 2 ^ 32 -> exists sz,
    int128_get64 (int128_min (int128_sub (mref_size (region_size mc) (sec_mr s))
      (int128_make64 (u64 (p - offset_within_address_space s)))) (int128_make64 size)) = Ok sz /\ 1024 <= sz) as L.
  { intros size Hs. destruct Ps as [|n s So Hin|n k].
    - cbn [sec_mr mref_size offset_within_address_space]. rewrite uwrap_small by lia.
      apply left_over; [split; cbn; lia|lia|change (val int128_2_64) with (2 ^ 64); lia|lia].
    - destruct (so_guest _ So) as [id Hid]. destruct (Al n s id Es Hid) as (_ & Wr & Hr). rewrite Hid. cbn [mref_size].
      pose proof (Hin p eq_refl) as I1. pose proof (Hin (p + 1023) ltac:(dlia)) as I2. unfold in_section in I1, I2.
      pose proof (so_start _ So). rewrite uwrap_small by lia. apply left_over; [done|lia|lia|done].
    - cbn [sec_mr mref_size offset_within_address_space]. rewrite Z.sub_diag, uwrap_small by lia.
      apply left_over; [by vm_compute|lia|change (val (int128_make64 PhysMap.TARGET_PAGE_SIZE)) with 1024; lia|lia]. }
  split.
  - intros size Hs. destruct (L size Hs) as (sz & Ez & Hz). exists sz. split; [|done].
    unfold address_space_translate_for_iotlb, address_space_translate_internal. rewrite El. cbn [res_bind].
    rewrite Es. cbn [res_bind]. rewrite Ez. done.
  - split; [done|]. split; [done|]. split; [apply (uwrap_range 64); lia|].
    assert ((offset_within_region s - offset_within_address_space s) mod 1024 = 0) as A.
    { destruct Ps as [|n s So Hin|n k]; cbn [offset_within_region offset_within_address_space].
      - done.
      - destruct (so_guest _ So) as [id Hid]. by destruct (Al n s id Es Hid).
      - rewrite Z.sub_0_l. dlia. }
    destruct (uwrap_sub_multiple 64 (p - offset_within_address_space s) ltac:(lia)) as [j ->].
    match goal with |- u64 ?x mod 1024 = 0 => destruct (uwrap_sub_multiple 64 x ltac:(lia)) as [i ->] end.
    change (2 ^ 64) with (1024 * 2 ^ 54). 
    replace (p - offset_within_address_space s + j * (1024 * 2 ^ 54) + offset_within_region s + i * (1024 * 2 ^ 54))
      with (p + (offset_within_region s - offset_within_address_space s) + (j * 2 ^ 54 + i * 2 ^ 54) * 1024) by lia.
    rewrite Z.mod_add by lia. rewrite Z.add_mod, Hp0, A by lia. done.
Qed.
