(* ===== verification/SoftMmuClaims.v ===== *)
(** * Guest accesses: claims

    The claims on address translation ([target-arm/helper.c]) and the software
    TLB ([cputlb.c], [softmmu_template.h]), an example board with page tables,
    and three defects that a guest or a board can reach. *)

From stdpp Require Import base list numbers.
From S2P Require Import Prelude Int128 FlatView FlatViewFacts FlatViewRefine Topology PhysMap Dispatch.
From S2P Require Import ArmMmu ArmMmuFacts Cputlb CputlbFacts SoftMmu SoftMmuFacts SoftMmuRefine.
Import Int128 ArmMmu.

(** ** An example *)

(** Page-table words by physical address, host memory by the byte, and the
    writes that went to callbacks. *)
Record world : Type := mkWorld { words : Z -> Z; host : Z -> Z; written : list (mref * Z * Z * Z) }.

#[export] Instance world_mem : PhysMem world := {
  ldl_phys := fun w a => u32 (words w a);
  ldq_phys := fun w a => 0
}.

Lemma world_byte_range (w : world) a : 0 <= u8 (host w a) < 256.
Proof. apply (uwrap_range 8). lia. Qed.

(** The callback for clean pages stores to the RAM block at 0. *)
Fixpoint put_bytes (n : nat) (f : Z -> Z) (h v : Z) : Z -> Z :=
  match n with O => f | S n => put_bytes n (fun x => if x =? h then u8 v else f x) (u64 (h + 1)) (Z.shiftr v 8) end.
Definition ram_block_host : Z := 0x7f0000000000.

#[export] Instance world_host : HostWorld world := {
  host_byte := fun w a => u8 (host w a);
  host_byte_range := world_byte_range;
  host_put := fun w a v => mkWorld (words w) (fun x => if x =? a then v else host w x) (written w);
  io_mem_read := fun w mr a size => (w, 0);
  io_mem_write := fun w mr a v size => mkWorld (words w)
    (match mr with io_mem_notdirty => put_bytes (Z.to_nat size) (host w) (u64 (ram_block_host + a)) v | _ => host w end)
    ((mr, a, v, size) :: written w)
}.

(** 16 KiB of RAM at 0 and a device of 8 KiB at [dev]. *)
Definition board (dev : Z) : MemoryRegion Z :=
  MR (sample_info 0 0 (2 ^ 64) false 0) None [sample_ram; MR (sample_info 1 dev 0x2000 true 0) None []].

Definition board_dispatch (dev : Z) : res AddressSpaceDispatch :=
  let* (_, d) := address_space_update (mr_map of_Z (board dev)) flatview_init in Ok d.

Definition board_machine (d : AddressSpaceDispatch) : machine :=
  mkMachine d (fun id => int128_make64 (if id =? 2 then 0x4000 else 0x2000)) (fun mr => bool_decide (mr = GuestMR 2))
    (fun _ => false) (fun _ => ram_block_host) (fun _ => 0) (fun _ => false) [].

Definition empty_tlb : CPUTLB :=
  mkTLB (replicate 2 (replicate 256 no_entry)) (replicate 2 (replicate 256 0)) (2 ^ 32 - 1) 0.

(** ARMv5 with the MMU on, the first-level table at [0x4000] and every domain
    a client; [fcse] is the process identifier. *)
Definition v5_env (fcse : Z) : CPUARMState :=
  mkEnv [] SCTLR_M 0x4000 0 0 0 0xffffc000 0x55555555 0 0 (repeat 0 8) 0 0 0 0 fcse.

(** The first megabyte is a section at [base] that anyone may read and write;
    so is the one at 32 MiB. *)
Definition section_tables (base : Z) : Z -> Z := fun a =>
  if (a =? 0x4000) || (a =? 0x4080) then Z.lor base 0xc02 else 0.
Definition example_world (base : Z) : world := mkWorld (section_tables base) (fun a => a) [].
Definition example_cpu (fcse : Z) : cpu := mkCpu (v5_env fcse) empty_tlb 0.

Definition or_blank (r : res AddressSpaceDispatch) : AddressSpaceDispatch :=
  match r with Ok d => d | Err _ => mkDispatch (mkEntry 0 0) (mkMap 0 0 0 0 [] []) [] end.
Definition example_dispatch : AddressSpaceDispatch := Eval vm_compute in or_blank (board_dispatch 0x8000).
Definition example_machine : machine := board_machine example_dispatch.

Lemma example_dispatch_built : or_blank (board_dispatch 0x8000) = example_dispatch.
Proof. vm_compute. reflexivity. Qed.

(** ** The example satisfies what the claims ask for *)

Definition sections_aligned (rs : Z -> Int128) (l : list MemoryRegionSection) : bool :=
  forallb (fun s => match sec_mr s with
    | GuestMR id => ((offset_within_region s - offset_within_address_space s) mod 1024 =? 0) &&
        (val (sec_size s) <=? val (rs id)) && (val (rs id) <=? 2 ^ 64)
    | _ => true
    end) l.

Lemma sections_aligned_map rs d : (forall id, wf (rs id)) -> sections_aligned rs (sections (map d)) = true -> aligned_map rs d.
Proof.
  intros Wf Hs n s id Es Hid. unfold sections_aligned in Hs. rewrite forallb_forall in Hs.
  assert (List.In s (sections (map d))) as Hin.
  { unfold aget in Es. destruct (n <? 0); [done|]. destruct (_ !! _) as [s'|] eqn:E; [|done]. injection Es as <-.
    apply list_elem_of_In. by eapply list_elem_of_lookup_2. }
  specialize (Hs s Hin). rewrite Hid in Hs. apply andb_prop in Hs as [Hs H3]. apply andb_prop in Hs as [H1 H2].
  apply Z.eqb_eq in H1. apply Z.leb_le in H2, H3. split; [done|]. split; [done|lia].
Qed.

(** What the board has at an address. *)
Definition board_map (dev : Z) : amap := fun a => target_dest <$> resolve (board dev) 0 false a.

Lemma board_dispatch_spec : exists d, board_dispatch 0x8000 = Ok d /\
  (forall a, 0 <= a < 2 ^ 64 -> looks_up d a (board_map 0x8000 a)) /\
  forall p, 0 <= p < 2 ^ 64 -> p mod 1024 = 0 -> looks_up_page d p 1024.
Proof.
  destruct (address_space_update_spec (board 0x8000) empty_view) as (v & Ev & X);
    [cbn; repeat split; lia|vm_compute; reflexivity|cbn; lia|].
  destruct X as (d & E & La & L).
  { assert (match generate_memory_topology (Some (mr_map of_Z (board 0x8000))) with
      | Ok w => Nat.leb (length (fv_ranges w)) 204 | Err _ => false end = true) as Hl by (vm_compute; reflexivity).
    rewrite Ev in Hl. cbn [fv_map fv_ranges] in Hl. rewrite length_fmap in Hl. apply Nat.leb_le in Hl. lia. }
  exists d. split; [|split; [exact La|exact L]]. unfold board_dispatch. change flatview_init with (fv_map of_Z empty_view). by rewrite E.
Qed.

Lemma example_aligned : aligned_map (region_size example_machine) (dispatch example_machine).
Proof.
  apply sections_aligned_map; [|vm_compute; reflexivity]. intros id. unfold example_machine. cbn [region_size board_machine].
  destruct (id =? 2); rewrite make64_of_Z by lia; apply of_Z_wf.
Qed.

Lemma example_machine_ok : machine_ok example_machine.
Proof.
  destruct board_dispatch_spec as (d & E & _ & L). pose proof example_aligned as A.
  pose proof example_dispatch_built as B. rewrite E in B. cbn [or_blank] in B.
  unfold example_machine in *. rewrite <- B in *.
  apply board_pages; [exact L|exact A|]. intros mr. cbn [ram_addr board_machine]. split; [lia|reflexivity].
Qed.

Lemma example_coherent base fcse : coherent example_machine (example_world base) (example_cpu fcse).
Proof.
  apply (flush_coherent example_machine (example_world base) (example_cpu fcse)).
  split; (split; [reflexivity|]); repeat constructor.
Qed.

Lemma v5_env_ok fcse : fcse = 0 \/ fcse = 0x02000000 -> env_ok (v5_env fcse) /\ has_tables (v5_env fcse).
Proof.
  intros F. split; [split|by right]; cbn [v5_env c2_mask c13_fcse c2_control ttbr0_el1 ttbr1_el1]; [done| |lia|lia].
  destruct F as [-> | ->]; split; lia || done.
Qed.

Lemma st_le_world n : forall (w : world) h v, words (st_le n w h v) = words w /\ host (st_le n w h v) = put_bytes n (host w) h v.
Proof.
  induction n as [|n IH]; intros w h v; [done|]. cbn [st_le put_bytes].
  destruct (IH (host_put w h (u8 v)) (u64 (h + 1)) (Z.shiftr v 8)) as [-> ->]. done.
Qed.

#[export] Instance example_stores : StoreLaws world example_machine.
Proof.
  split.
  - intros w a v y Hv. cbn. destruct (y =? a); [by rewrite uwrap_small|done].
  - intros w mr x off v n y _ _ _ _ _. destruct (st_le_world n w (u64 (ram_block_host + x + off)) v) as [_ E].
    change (ram_ptr example_machine mr) with ram_block_host. change (ram_addr example_machine mr) with 0.
    cbn [host_byte world_host io_mem_write host]. rewrite E, Nat2Z.id. do 2 f_equal.
    destruct (uwrap_sub_multiple 64 (0 + x + off) ltac:(lia)) as [k ->]. apply uwrap_eq_mod with (k := k); lia.
  - eexists. split; vm_compute; reflexivity.
Qed.

(** The tables of the example are not in host memory. *)
Lemma example_walks T (w w' : world) : after example_machine T w w' -> same_walks w w'.
Proof.
  intros A. assert (words w' = words w) as E by (induction A; done).
  intros e a t u. destruct w, w'. cbn in E. subst. reflexivity.
Qed.

(** What a lookup that succeeds leaves. *)
Lemma lookup_done mc (w : world) c a t idx c' te : tlb_lookup mc w c a t idx = Ok (c', Done te) ->
  env c' = env c /\ te_get (tlb c') idx (tlb_index a) = Ok te.
Proof.
  unfold tlb_lookup. destruct (te_get (tlb c) idx (tlb_index a)) as [te0|] eqn:E0; [|done]. cbn [res_bind].
  destruct (tlb_hit te0 a t); [by intros [= <- <-]|]. unfold tlb_fill, arm_cpu_handle_mmu_fault.
  destruct (get_phys_addr w (env c) a t _) as [[p prot size|code]|]; cbn [res_bind]; [| |done].
  - destruct (tlb_set_page _ _ _ _ _ _ _) as [tl|]; [|done]. cbn [res_bind Z.eqb negb].
    destruct (te_get (tlb (set_tlb c tl)) idx (tlb_index a)) as [te1|] eqn:E1; [|done]. by intros [= <- <-].
  - done.
Qed.

Lemma hit_lookup mc (w : world) c a t idx te : te_get (tlb c) idx (tlb_index a) = Ok te -> tlb_hit te a t = true ->
  tlb_lookup mc w c a t idx = Ok (c, Done te).
Proof. intros E Hh. unfold tlb_lookup. rewrite E. cbn [res_bind]. by rewrite Hh. Qed.

(** A lookup succeeds with an entry and a CPU of [P]. *)
Definition looks (r : res (cpu * outcome CPUTLBEntry)) (P : cpu -> CPUTLBEntry -> bool) : bool :=
  match r with Ok (c, Done te) => P c te | _ => false end.
Lemma looks_true r P : looks r P = true -> exists c te, r = Ok (c, Done te) /\ P c te = true.
Proof. destruct r as [[c [te|]]|]; try done. intros E. by exists c, te. Qed.

(** The tables without the section at 0. *)
Definition low_unmapped : world := mkWorld (fun a => if a =? 0x4080 then 0xc02 else 0) (fun a => a) [].

(** A walk of the example reads one word of the table. *)
Lemma v5_example_walk (w : world) va t u : 0 <= va < 2 ^ 32 -> words w (Z.lor 0x4000 (Z.land (Z.shiftr va 18) 0x3ffc)) ∈ [0; 0xc02] ->
  get_phys_addr w (v5_env 0) va t u =
    if words w (Z.lor 0x4000 (Z.land (Z.shiftr va 18) 0x3ffc)) =? 0 then Ok (Fault 5)
    else let* prot := check_ap (v5_env 0) 3 1 t u in
         if prot =? 0 then Ok (Fault 13) else Ok (Translated (Z.land va 0xfffff) (Z.lor prot PAGE_EXEC) (2 ^ 20)).
Proof.
  intros Hv Hd. unfold get_phys_addr.
  replace (if va <? 0x02000000 then u32 (va + c13_fcse (v5_env 0)) else va) with va
    by (cbn [v5_env c13_fcse]; destruct (_ <? _); rewrite ?Z.add_0_r, ?uwrap_small; done).
  cbn [v5_env]. change (Z.land (c1_sys _) SCTLR_M =? 0) with false. cbv match. change (arm_feature _ ARM_FEATURE_MPU) with false.
  change (extended_addresses_enabled _) with false. change (is_set (c1_sys _) SCTLR_XP) with false. cbv match.
  unfold get_phys_addr_v5. change (ldl_phys w) with (fun a => u32 (words w a)).
  replace (get_level1_table_address _ va) with (Z.lor 0x4000 (Z.land (Z.shiftr va 18) 0x3ffc)).
  2: { unfold get_level1_table_address. cbn [c2_mask is_set]. unfold is_set. by rewrite Z.land_0_r. }
  cbv beta. apply elem_of_cons in Hd as [->|Hd%list_elem_of_singleton]; [reflexivity|]. rewrite Hd. reflexivity.
Qed.

Lemma low_table_word va : 0 <= va < 2 ^ 32 -> Z.lor 0x4000 (Z.land (Z.shiftr va 18) 0x3ffc) = 0x4000 -> va < 2 ^ 20.
Proof.
  intros Hv E. apply (f_equal (fun x => Z.land x 0x3fff)) in E. rewrite Z.land_lor_distr_l, <- Z.land_assoc in E.
  change (Z.land 0x4000 0x3fff) with 0 in E. change (Z.land 0x3ffc 0x3fff) with 0x3ffc in E. rewrite Z.lor_0_l in E.
  rewrite Z.shiftr_div_pow2 in E by lia. set (y := va / 2 ^ 18) in *. assert (0 <= y < 2 ^ 14) as Hy by (unfold y; dlia).
  assert (Z.land y (Z.ones 14) = Z.land y (Z.ones 2)) as F.
  { change (Z.ones 14) with (Z.lor 0x3ffc (Z.ones 2)). by rewrite Z.land_lor_distr_r, E. }
  rewrite !Z.land_ones, (Z.mod_small y) in F by lia. assert (y < 4) by (rewrite F; apply Z.mod_pos_bound; lia). unfold y in *. dlia.
Qed.

Lemma low_unmapped_elsewhere : unchanged_elsewhere (example_world 0) low_unmapped (v5_env 0) (page_of 0x3000).
Proof.
  intros va t u p prot k Hv Hk Ew Nk. pose proof (low_table_word va Hv) as Lo.
  set (T := Z.lor 0x4000 (Z.land (Z.shiftr va 18) 0x3ffc)) in *.
  assert (words (example_world 0) T ∈ [0; 0xc02] /\ words low_unmapped T ∈ [0; 0xc02]) as [D1 D2].
  { cbn [words example_world low_unmapped]. unfold section_tables.
    split; destruct (_ =? 0x4080); rewrite ?orb_true_r, ?orb_false_r; try destruct (_ =? _); rewrite ?elem_of_cons; auto. }
  rewrite (v5_example_walk _ va t u Hv D1) in Ew. rewrite (v5_example_walk _ va t u Hv D2). fold T in Ew |- *.
  destruct (Z.eqb_spec T 0x4000) as [ET|NT].
  - exfalso. rewrite ET in Ew. change (words (example_world 0) 0x4000 =? 0) with false in Ew. cbv match in Ew.
    destruct (check_ap (v5_env 0) 3 1 t u) as [q|]; [|discriminate Ew]. cbn [res_bind] in Ew.
    destruct (q =? 0); [discriminate Ew|]. injection Ew as _ _ Ek. apply (Z.pow_inj_r 2) in Ek; [|lia..]. subst k. apply Nk.
    specialize (Lo ET). rewrite (Z.div_small va) by lia. reflexivity.
  - replace (words low_unmapped T) with (words (example_world 0) T); [done|].
    cbn [words example_world low_unmapped]. unfold section_tables. destruct (Z.eqb_spec T 0x4000); [done|]. by destruct (T =? 0x4080).
Qed.

(** ** Claims *)

(** C7: address translation by tables, for every format (ARMv5, ARMv6, LPAE)
    and with the MMU off; the protection unit is excluded ([has_tables]), and the
    process identifier is a multiple of the page size ([env_ok], which the
    architecture asks for and [fcse_write] does not enforce).  A walk is total:
    it gives a fault with a nonzero status, or a physical address below 2^40 and
    a page size that is a power of two of at least 1 KiB.  Addresses of the same
    1 KiB page have the same result up to the offset in the page.  The
    protection that is returned is exact: an access of another type at the same
    address has the same result if its bit is set, and faults if it is not. *)
Theorem mmu_walk_correct {M} `{PhysMem M} (m : M) env a t u : env_ok env -> has_tables env ->
  0 <= a < 2 ^ 32 -> 0 <= t <= 2 ->
  good a (get_phys_addr m env a t u) /\
  get_phys_addr m env a t u = at_offset (a mod 1024) (get_phys_addr m env (page_of a) t u) /\
  exact (fun t => get_phys_addr m env a t u).
Proof.
  intros He Ht Ha Htt. split; [by apply walk_good|]. split; [by apply walk_page|by apply walk_exact].
Qed.

Lemma mmu_walk_correct_witness :
  get_phys_addr (example_world 0x00300000) (v5_env 0) 0x12345 0 false =
    at_offset 0x345 (get_phys_addr (example_world 0x00300000) (v5_env 0) 0x12000 0 false) /\
  get_phys_addr (example_world 0x00300000) (v5_env 0) 0x12345 0 false = Ok (Translated 0x312345 7 0x100000).
Proof.
  split; [|by vm_compute].
  destruct (mmu_walk_correct (example_world 0x00300000) (v5_env 0) 0x12345 0 false) as (_ & E & _);
    [apply v5_env_ok; by left..|lia|lia|]. exact E.
Defined.

(** C3: the TLB is transparent.  The conditions: the memory map gives every
    page a section at a page-aligned offset ([machine_ok]), translation is by
    tables with an aligned process identifier ([has_tables], [env_ok]), and the
    TLB is coherent (each entry is what a walk gives for its page), which
    lookups keep.  Then a lookup for an access agrees with a walk of the page
    tables, whether it hits or fills: if the walk faults, the exception of the
    fault is raised, with its status and address in the registers; if it
    translates, the access goes where the memory map has the physical address
    (host memory for RAM, the callbacks of the section for devices, with the
    offset of the address), and the TLB stays coherent. *)
Theorem tlb_transparent {W} `{PhysMem W} `{HostWorld W} mc (w : W) c addr t idx :
  machine_ok mc -> env_ok (env c) -> has_tables (env c) -> coherent mc w c ->
  0 <= addr < 2 ^ 32 -> 0 <= t <= 2 -> 0 <= idx < 2 ->
  exists r c' o, get_phys_addr w (env c) addr t (idx =? MMU_USER_IDX) = Ok r /\
    tlb_lookup mc w c addr t idx = Ok (c', o) /\ coherent mc w c' /\ lookup_result mc w c addr t idx r c' o.
Proof. apply lookup_spec. Qed.

Lemma tlb_transparent_witness : exists r c' o,
  get_phys_addr (example_world 0) (v5_env 0) 0x8010 1 true = Ok r /\
  tlb_lookup example_machine (example_world 0) (example_cpu 0) 0x8010 1 1 = Ok (c', o) /\
  coherent example_machine (example_world 0) c' /\
  lookup_result example_machine (example_world 0) (example_cpu 0) 0x8010 1 1 r c' o.
Proof.
  exact (tlb_transparent example_machine (example_world 0) (example_cpu 0) 0x8010 1 1 example_machine_ok
    (proj1 (v5_env_ok 0 (or_introl eq_refl))) (proj2 (v5_env_ok 0 (or_introl eq_refl)))
    (example_coherent 0 0) ltac:(lia) ltac:(lia) ltac:(lia)).
Defined.

(** C5: loads through a coherent TLB, on a machine with page-aligned sections
    and translation by tables with an aligned process identifier ([coherent],
    [machine_ok], [has_tables], [env_ok]).  A load of 1, 2, 4 or 8 bytes whose
    addresses all lead to memory without watchpoints returns the bytes that the
    walk of each address leads to, in little-endian order, also when it crosses
    into another page (where it is made of two aligned loads); two levels of the
    recursion are enough. *)
Theorem softmmu_load_correct {W} `{PhysMem W} `{HostWorld W} mc b (w : W) c a idx v :
  machine_ok mc -> env_ok (env c) -> has_tables (env c) -> coherent mc w c ->
  0 <= a < 2 ^ 32 -> 0 <= idx < 2 -> 0 <= b <= 3 -> ref_load mc (Z.to_nat (2 ^ b)) w (env c) a idx = Some v ->
  exists c', helper_le_ld mc 2 (2 ^ b) w c a 0 idx = Ok (w, c', Done v) /\ env c' = env c /\ coherent mc w c'.
Proof. intros Hmc. by apply load_correct. Qed.

Lemma softmmu_load_correct_witness : exists c',
  helper_le_ld example_machine 2 (2 ^ 2) (example_world 0) (example_cpu 0) 0x3fe 0 0 =
    Ok (example_world 0, c', Done 0x0100fffe) /\ env c' = v5_env 0 /\ coherent example_machine (example_world 0) c'.
Proof.
  apply (softmmu_load_correct example_machine 2 (example_world 0) (example_cpu 0) 0x3fe 0 0x0100fffe);
    [exact example_machine_ok|apply v5_env_ok; by left|apply v5_env_ok; by left|apply example_coherent|lia..|].
  vm_compute. reflexivity.
Defined.

(** C6: stores through a coherent TLB, under the conditions of loads: page-aligned
    sections, translation by tables (not by the protection unit, whose walk
    ignores the access type) and an aligned process identifier; host memory is
    an array of bytes, and the callback for clean pages stores to the RAM behind
    its address ([StoreLaws]; [notdirty_mem_write] does, see [DirtyTracking]).
    A store of 1, 2, 4 or 8 bytes may cross into another page.  If every byte leads to RAM, at
    the distinct host addresses [T], which hold no page tables: the store
    returns, each byte of the value is at its address, in little-endian order,
    whether the page was clean or dirty, no other byte of host memory changed,
    and the TLB is coherent.  If the walk of a byte faults: the exception of a
    fault is raised, and nothing is stored, not even to the first page. *)
Theorem softmmu_store_correct {W} `{PhysMem W} `{HostWorld W} mc `{!StoreLaws W mc} b (w : W) c a idx v :
  machine_ok mc -> env_ok (env c) -> has_tables (env c) -> coherent mc w c ->
  0 <= a < 2 ^ 32 -> 0 <= idx < 2 -> 0 <= b <= 3 -> 0 <= v < 2 ^ (8 * 2 ^ b) ->
  (forall T, NoDup T -> Z.of_nat (length T) = 2 ^ b -> targets mc T w (env c) a idx ->
     (forall w', after mc T w w' -> same_walks w w') ->
     exists w' c', helper_le_st mc (2 ^ b) w c a v idx = Ok (w', c', Done tt) /\ env c' = env c /\
       coherent mc w' c' /\ stores_le T v w w') /\
  (forall i code, 0 <= i < 2 ^ b -> get_phys_addr w (env c) (u32 (a + i)) 1 (idx =? MMU_USER_IDX) = Ok (Fault code) ->
     exists c', helper_le_st mc (2 ^ b) w c a v idx = Ok (w, c', Raised) /\
       exists c1 code' a', (a' = a \/ a' = u32 (a + 2 ^ b - 1)) /\ env c1 = env c /\
         get_phys_addr w (env c) a' 1 (idx =? MMU_USER_IDX) = Ok (Fault code') /\ c' = fault_cpu c1 code' a' 1).
Proof.
  intros Hmc He Ht Hc Ha Hi Hb Hv. split.
  - intros T Nd Hl HT Hw.
    destruct (store_correct mc Hmc T w Hw b w c a idx v) as (w' & c' & E & Ee & Hc' & _ & S); try done; [constructor|].
    by exists w', c'.
  - intros i code Hbi Hf. by apply (store_faults mc Hmc b w c a idx v i code).
Qed.

Lemma softmmu_store_correct_witness :
  (exists w' c', helper_le_st example_machine (2 ^ 2) (example_world 0) (example_cpu 0) 0x3fe 0x12345678 0 = Ok (w', c', Done tt) /\
     host_byte w' (ram_block_host + 0x3ff) = 0x56 /\ host_byte w' (ram_block_host + 0x401) = 0x12 /\
     host_byte w' (ram_block_host + 0x402) = 0x02) /\
  (exists c', helper_le_st example_machine (2 ^ 2) (example_world 0) (example_cpu 0) 0xffffe 0x12345678 0 =
     Ok (example_world 0, c', Raised)).
Proof.
  split.
  - destruct (softmmu_store_correct example_machine 2 (example_world 0) (example_cpu 0) 0x3fe 0 0x12345678) as [S _];
      [exact example_machine_ok|apply v5_env_ok; by left|apply v5_env_ok; by left|apply example_coherent|lia..|].
    destruct (S [ram_block_host + 0x3fe; ram_block_host + 0x3ff; ram_block_host + 0x400; ram_block_host + 0x401])
      as (w' & c' & E & _ & _ & S1 & S2);
      [by apply (bool_decide_unpack _); vm_compute|reflexivity| |intros w' A; by apply (example_walks _ _ _ A)|].
    { intros [|[|[|[|i]]]] h Eh; [injection Eh as <-; vm_compute; reflexivity..|destruct i; discriminate Eh]. }
    exists w', c'. split; [exact E|]. rewrite (S1 1%nat) by done. rewrite (S1 3%nat) by done.
    rewrite S2 by (by apply (bool_decide_unpack _); vm_compute). split_and!; vm_compute; reflexivity.
  - destruct (softmmu_store_correct example_machine 2 (example_world 0) (example_cpu 0) 0xffffe 0 0x12345678) as [_ S];
      [exact example_machine_ok|apply v5_env_ok; by left|apply v5_env_ok; by left|apply example_coherent|lia..|].
    destruct (S 3 5) as (c' & E & _); [lia|vm_compute; reflexivity|]. by exists c'.
Defined.

(** C4: TLB maintenance on a machine with page-aligned sections and translation
    by tables.  The guest changes its tables from [w] to [w'].  If the changes
    concern only pages around one address, as loads and stores have it before
    the process identifier is added ([unchanged_elsewhere]), an invalidation by
    that address restores coherence, also when it lies in a large page.  After
    any change, an invalidation of everything or a write of the domain register
    restores it; a write of the process identifier, and setting and resetting
    the dirty flags, keep it. *)
Theorem tlb_maintenance_correct {W} `{PhysMem W} mc (w w' : W) c addr :
  machine_ok mc -> has_tables (env c) -> coherent mc w c -> 0 <= addr < 2 ^ 32 ->
  (unchanged_elsewhere w w' (env c) (page_of addr) ->
     exists c1, tlbimva_write c addr = Ok c1 /\ coherent mc w' c1) /\
  coherent mc w' (tlbiall_write c) /\
  (forall v, coherent mc w' (dacr_write c v)) /\
  (forall v, coherent mc w (fcse_write c v)) /\
  (exists t, tlb_set_dirty (tlb c) addr = Ok t /\ coherent mc w (set_tlb c t)) /\
  (forall start len, coherent mc w (set_tlb c (cpu_tlb_reset_dirty_all (tlb c) start len))).
Proof.
  intros Hmc Ht Hc Ha. pose proof (co_shape _ _ _ Hc) as Hs. split_and!.
  - intros Hu. unfold tlbimva_write. rewrite uwrap_small, <- page_of_mask by done.
    destruct (flush_page_coherent mc w w' c (page_of addr) Hmc Ht Hc (page_of_range addr Ha) Hu) as (t & -> & Ct).
    cbn [res_bind]. by eexists.
  - by apply flush_coherent.
  - intros v. by apply (flush_coherent mc w' (mkCpu _ (tlb c) (exception_index c))).
  - intros v. unfold fcse_write. destruct (negb _); [|done].
    by apply (flush_coherent mc w (mkCpu _ (tlb c) (exception_index c))).
  - by apply set_dirty_coherent.
  - intros. by apply reset_dirty_coherent.
Qed.

(** The guest takes the section at 0 away: the entry of its page is stale, and
    goes with an invalidation of another page of the section. *)
Lemma tlb_maintenance_correct_witness : exists c te c1,
  tlb_lookup example_machine (example_world 0) (example_cpu 0) 0x100 0 0 = Ok (c, Done te) /\
  tlb_lookup example_machine low_unmapped c 0x100 0 0 = Ok (c, Done te) /\
  get_phys_addr low_unmapped (env c) 0x100 0 false = Ok (Fault 5) /\
  tlbimva_write c 0x3000 = Ok c1 /\ coherent example_machine low_unmapped c1.
Proof.
  destruct (looks_true (tlb_lookup example_machine (example_world 0) (example_cpu 0) 0x100 0 0) (fun _ te => tlb_hit te 0x100 0))
    as (c & te & El & Hh); [vm_compute; reflexivity|].
  destruct (lookup_spec example_machine (example_world 0) (example_cpu 0) 0x100 0 0) as (x & c' & o & _ & El' & Hc & _);
    [exact example_machine_ok|apply v5_env_ok; by left|apply v5_env_ok; by left|apply example_coherent|lia..|].
  rewrite El in El'. injection El' as <- <-. destruct (lookup_done _ _ _ _ _ _ _ _ El) as [Ee G]. cbn [env example_cpu] in Ee.
  destruct (tlb_maintenance_correct example_machine (example_world 0) low_unmapped c 0x3000)
    as (E & _); [exact example_machine_ok|rewrite Ee; apply (v5_env_ok 0); by left|exact Hc|lia|].
  destruct E as (c1 & E1 & C1); [rewrite Ee; exact low_unmapped_elsewhere|].
  exists c, te, c1. split; [exact El|]. split; [by apply hit_lookup|]. rewrite Ee. split; [vm_compute; reflexivity|done].
Defined.

(** ** Defects *)

(** A protection unit with one region of 4 GiB that everyone may only read. *)
Definition mpu_cpu : cpu :=
  mkCpu (mkEnv [ARM_FEATURE_MPU] SCTLR_M 0 0 0x1 0 0 0 0x6 0x6 (0x3f :: repeat 0 7) 0 0 0 0 0) empty_tlb 0.

Definition world_after {A} (r : res (world * cpu * A)) : world :=
  match r with Ok (w, _, _) => w | Err _ => example_world 0 end.
Definition cpu_of {A} (r : res (world * cpu * A)) : cpu := match r with Ok (_, c, _) => c | Err _ => mpu_cpu end.

(** The tables without the section at 32 MiB. *)
Definition unmapped_world : world := mkWorld (fun a => if a =? 0x4000 then 0xc02 else 0) (fun a => a) [].

(** C8: the invalidations by address take a modified virtual address, but the
    TLB has the virtual addresses, before the process identifier is added.  For
    every process identifier (a nonzero multiple of 32 MiB) and every address
    below 32 MiB whose page a coherent TLB holds for an access: the guest
    invalidates the modified address, and the entry stays, unless the modified
    address happens to lie in the range that the TLB records for large pages.
    Whatever the tables are by then, the access still hits it, also where a walk
    faults. *)
Theorem tlbimva_ignores_fcse {W} `{PhysMem W} `{HostWorld W} mc (w w' : W) c te a t idx k :
  machine_ok mc -> coherent mc w c -> 0 <= a < 2 ^ 25 -> 0 <= t <= 2 -> 0 <= idx < 2 ->
  c13_fcse (env c) = k * 2 ^ 25 -> 0 < k < 128 ->
  te_get (tlb c) idx (tlb_index a) = Ok te -> tlb_hit te a t = true ->
  let mva := a + c13_fcse (env c) in
  Z.land mva TARGET_PAGE_MASK <> Z.land a TARGET_PAGE_MASK /\
  (Z.land (Z.land mva TARGET_PAGE_MASK) (tlb_flush_mask (tlb c)) <> tlb_flush_addr (tlb c) ->
   exists c', tlbimva_write c mva = Ok c' /\ env c' = env c /\ tlb_lookup mc w' c' a t idx = Ok (c', Done te)).
Proof.
  intros Hmc Hc Ha Ht Hi Ek Hk Ete Hh mva. assert (0 <= mva < 2 ^ 32) as Hm by (unfold mva; lia).
  assert (page_of mva <> page_of a) as Np by (rewrite !page_of_val by lia; unfold mva; rewrite Ek; dlia).
  split; [by rewrite <- !page_of_mask|]. intros Nf. unfold tlbimva_write. rewrite uwrap_small by done.
  destruct (flush_other_page mc w c idx t te a (Z.land mva TARGET_PAGE_MASK) Hmc Hc Hi Ht Ete Hh) as (tl & -> & G); [|done|].
  { rewrite <- page_of_mask, (page_of_val (page_of mva)), (page_of_val mva) by (done || by apply page_of_range).
    rewrite page_of_val in * by lia. dlia. }
  cbn [res_bind]. eexists. split; [done|]. split; [done|]. unfold tlb_lookup. cbn [tlb set_tlb]. rewrite G. cbn [res_bind].
  by rewrite Hh.
Qed.

(** A process at 32 MiB whose section is taken away: a load hits, a walk faults. *)
Lemma tlbimva_ignores_fcse_witness : exists c te c',
  tlb_lookup example_machine (example_world 0) (example_cpu 0x02000000) 0x100 0 0 = Ok (c, Done te) /\
  tlbimva_write c 0x02000100 = Ok c' /\
  tlb_lookup example_machine unmapped_world c' 0x100 0 0 = Ok (c', Done te) /\
  get_phys_addr unmapped_world (env c') 0x100 0 false = Ok (Fault 5).
Proof.
  destruct (looks_true (tlb_lookup example_machine (example_world 0) (example_cpu 0x02000000) 0x100 0 0)
    (fun c te => tlb_hit te 0x100 0 && negb (Z.land 0x02000000 (tlb_flush_mask (tlb c)) =? tlb_flush_addr (tlb c))))
    as (c & te & El & [Hh Nf]%andb_prop); [vm_compute; reflexivity|].
  destruct (lookup_spec example_machine (example_world 0) (example_cpu 0x02000000) 0x100 0 0) as (x & c' & o & _ & El' & Hc & _);
    [exact example_machine_ok|apply v5_env_ok; by right|apply v5_env_ok; by right|apply example_coherent|lia..|].
  rewrite El in El'. injection El' as <- <-. destruct (lookup_done _ _ _ _ _ _ _ _ El) as [Ee G]. cbn [env example_cpu] in Ee.
  destruct (tlbimva_ignores_fcse example_machine (example_world 0) unmapped_world c te 0x100 0 0 1) as [_ S];
    [exact example_machine_ok|exact Hc|lia|lia|lia|by rewrite Ee|lia|exact G|exact Hh|].
  rewrite Ee in S. destruct S as (c' & E1 & Ec & E2); [by destruct (Z.eqb_spec (Z.land 0x02000000 (tlb_flush_mask (tlb c))) (tlb_flush_addr (tlb c)))|].
  exists c, te, c'. rewrite Ec. split; [exact El|]. split; [exact E1|]. split; [exact E2|]. vm_compute. reflexivity.
Defined.

(** A process identifier with low bits splits a page: [fcse_write] takes any
    value, and with 0x100 the addresses 0xffc00 and 0xfff80 of one page are in
    different sections, so that a load of the second hits the entry of the first
    where a walk faults. *)
Theorem fcse_low_bits_split_pages : exists c te,
  c13_fcse (env (fcse_write (example_cpu 0) 0x100)) = 0x100 /\
  tlb_lookup example_machine (example_world 0) (fcse_write (example_cpu 0) 0x100) 0xffc00 0 0 = Ok (c, Done te) /\
  tlb_lookup example_machine (example_world 0) c 0xfff80 0 0 = Ok (c, Done te) /\
  get_phys_addr (example_world 0) (env c) 0xfff80 0 false = Ok (Fault 5).
Proof.
  destruct (looks_true (tlb_lookup example_machine (example_world 0) (fcse_write (example_cpu 0) 0x100) 0xffc00 0 0)
    (fun _ te => tlb_hit te 0xfff80 0)) as (c & te & El & Hh); [vm_compute; reflexivity|].
  destruct (lookup_done _ _ _ _ _ _ _ _ El) as [Ee G]. exists c, te. split; [reflexivity|]. split; [exact El|].
  split; [by apply hit_lookup|]. rewrite Ee. vm_compute. reflexivity.
Qed.

(** The walk of the protection unit ignores the access type.  A store to a
    region that is read-only for everyone gets the page with the protection to
    read, and the fill then goes on with the store: it reaches the RAM (by the
    callback for clean pages), and no exception is raised. *)
Theorem mpu_readonly_store : exists w c,
  get_phys_addr (example_world 0) (env mpu_cpu) 0x100 1 true = Ok (Translated 0x100 (Z.lor PAGE_READ PAGE_EXEC) 1024) /\
  helper_le_st example_machine 4 (example_world 0) mpu_cpu 0x100 0x12345678 1 = Ok (w, c, Done tt) /\
  written w = [(io_mem_notdirty, 0x100, 0x12345678, 4)] /\ exception_index c = 0.
Proof.
  pose (r := helper_le_st example_machine 4 (example_world 0) mpu_cpu 0x100 0x12345678 1).
  exists (world_after r), (cpu_of r). split_and!; vm_compute; reflexivity.
Qed.

(** A device that does not start on a page boundary breaks the [iotlb]
    entries of its whole pages.  The entry is the sum of a section number below
    1024 and an offset that should be page-aligned; with the device at 0x8200,
    its page at 0x8400 has the offset 0x200, and a load there indexes the
    section table out of bounds.  In the first, partial page the load works. *)
Theorem unaligned_region_escapes : exists d, board_dispatch 0x8200 = Ok d /\
  (exists w c, helper_le_ld (board_machine d) 2 4 (example_world 0) (example_cpu 0) 0x8204 0 0 = Ok (w, c, Done 0)) /\
  helper_le_ld (board_machine d) 2 4 (example_world 0) (example_cpu 0) 0x8404 0 0 = Err OutOfBounds.
Proof.
  exists (or_blank (board_dispatch 0x8200)). split; [vm_compute; reflexivity|]. split; [|vm_compute; reflexivity].
  pose (r := helper_le_ld (board_machine (or_blank (board_dispatch 0x8200))) 2 4 (example_world 0) (example_cpu 0) 0x8204 0 0).
  exists (world_after r), (cpu_of r). vm_compute. reflexivity.
Qed.
