(* ===== verification/RamList.v ===== *)
(** * RAM blocks and dirty bitmaps ([exec.c], [ram_addr.h])

    Guest RAM is a list of blocks, each a range of [ram_addr_t] with a host
    pointer; the list is sorted from the biggest block to the smallest, and the
    block that was used last is tried first.  Three bitmaps, one for each
    client, have a bit for every page of the RAM addresses.

    The host memory of a new block comes from [mmap]; its address is an
    argument of the allocation, and so is what [realloc] leaves in the words
    that it adds to a bitmap.  Xen and [-mem-path] are not part of the model. *)

From stdpp Require Import base list numbers.
From S2P Require Import Prelude Bitops Bitmap PhysMap.

Module RamList.

Definition RAM_ADDR_MAX : Z := 2 ^ 64 - 1.
Definition DIRTY_MEMORY_VGA : Z := 0.
Definition DIRTY_MEMORY_CODE : Z := 1.
Definition DIRTY_MEMORY_MIGRATION : Z := 2.
Definition DIRTY_MEMORY_NUM : Z := 3.

(** [prealloc] is the flag [RAM_PREALLOC_MASK]. *)
Record RAMBlock : Type := mkBlock { mr : Z; host : Z; offset : Z; length : Z; prealloc : bool }.

Record RAMList : Type := mkRam {
  dirty_memory : list (list Z); mru_block : option RAMBlock; blocks : list RAMBlock; version : Z
}.

Definition set_mru (rl : RAMList) (b : RAMBlock) : RAMList :=
  mkRam (dirty_memory rl) (Some b) (blocks rl) (version rl).
Definition set_dirty_memory (rl : RAMList) (d : list (list Z)) : RAMList :=
  mkRam d (mru_block rl) (blocks rl) (version rl).

(** ** Lookup *)

(** [addr - block->offset < block->length] *)
Definition in_block (addr : Z) (b : RAMBlock) : bool := u64 (addr - offset b) <? length b.

Definition qemu_get_ram_block (rl : RAMList) (addr : Z) : res (RAMBlock * RAMList) :=
  let found b := Ok (b, set_mru rl b) in
  let search :=
    match List.find (in_block addr) (blocks rl) with
    | Some b => found b
    | None => Err AssertFailed
    end in
  match mru_block rl with
  | Some b => if in_block addr b then found b else search
  | None => search
  end.

Definition qemu_get_ram_ptr (rl : RAMList) (addr : Z) : res (Z * RAMList) :=
  let* (b, rl) := qemu_get_ram_block rl addr in
  Ok (u64 (host b + (addr - offset b)), rl).

(** The pointer ([NULL] is 0) and the size that is left of the block. *)
Definition qemu_ram_ptr_length (rl : RAMList) (addr size : Z) : res (Z * Z) :=
  if size =? 0 then Ok (0, 0) else
  match List.find (in_block addr) (blocks rl) with
  | Some b =>
      let size := if length b <? u64 (addr - offset b + size) then u64 (length b - addr + offset b) else size in
      Ok (u64 (host b + (addr - offset b)), size)
  | None => Err AssertFailed
  end.

(** [block->host && host - block->host < block->length] *)
Definition holds_host (ptr : Z) (b : RAMBlock) : bool :=
  negb (host b =? 0) && (u64 (ptr - host b) <? length b).

(** The region and the RAM address of a host pointer. *)
Definition qemu_ram_addr_from_host (rl : RAMList) (ptr : Z) : option (Z * Z) :=
  let found b := Some (mr b, u64 (offset b + (ptr - host b))) in
  let search := match List.find (holds_host ptr) (blocks rl) with Some b => found b | None => None end in
  match mru_block rl with
  | Some b => if holds_host ptr b then found b else search
  | None => search
  end.

(** ** Dirty pages *)

(** The pages from [start] to the end of the range, rounded up. *)
Definition page_range (start length : Z) : Z * Z :=
  (Z.shiftr start TARGET_PAGE_BITS, Z.shiftr (TARGET_PAGE_ALIGN (u64 (start + length))) TARGET_PAGE_BITS).

Definition cpu_physical_memory_get_dirty (rl : RAMList) (start length client : Z) : res bool :=
  let* _ := c_assert (client <? DIRTY_MEMORY_NUM) in
  let (page, end_) := page_range start length in
  let* map := aget (dirty_memory rl) client in
  let* next := find_next_bit map end_ page in
  Ok (next <? end_).

Definition cpu_physical_memory_get_dirty_flag (rl : RAMList) (addr client : Z) : res bool :=
  cpu_physical_memory_get_dirty rl addr 1 client.

Definition cpu_physical_memory_is_clean (rl : RAMList) (addr : Z) : res bool :=
  let* vga := cpu_physical_memory_get_dirty_flag rl addr DIRTY_MEMORY_VGA in
  let* code := cpu_physical_memory_get_dirty_flag rl addr DIRTY_MEMORY_CODE in
  let* migration := cpu_physical_memory_get_dirty_flag rl addr DIRTY_MEMORY_MIGRATION in
  Ok (negb (vga && code && migration)).

(** One bitmap changed. *)
Definition with_map (rl : RAMList) (client : Z) (f : list Z -> res (list Z)) : res RAMList :=
  let* map := aget (dirty_memory rl) client in
  let* map := f map in
  let* maps := aset (dirty_memory rl) client map in
  Ok (set_dirty_memory rl maps).

Definition cpu_physical_memory_set_dirty_flag (rl : RAMList) (addr client : Z) : res RAMList :=
  let* _ := c_assert (client <? DIRTY_MEMORY_NUM) in
  with_map rl client (set_bit (Z.shiftr addr TARGET_PAGE_BITS)).

Definition cpu_physical_memory_set_dirty_range (rl : RAMList) (start length : Z) : res RAMList :=
  let (page, end_) := page_range start length in
  let set map := bitmap_set map page (end_ - page) in
  let* rl := with_map rl DIRTY_MEMORY_MIGRATION set in
  let* rl := with_map rl DIRTY_MEMORY_VGA set in
  with_map rl DIRTY_MEMORY_CODE set.

Definition cpu_physical_memory_clear_dirty_range (rl : RAMList) (start length client : Z) : res RAMList :=
  let* _ := c_assert (client <? DIRTY_MEMORY_NUM) in
  let (page, end_) := page_range start length in
  with_map rl client (fun map => bitmap_clear map page (end_ - page)).

(** ** Allocation *)

(** The start of the next block at or after [end_], or the end of the space. *)
Definition next_start (bs : list RAMBlock) (end_ : Z) : Z :=
  fold_left (fun next b => if end_ <=? offset b then Z.min next (offset b) else next) bs RAM_ADDR_MAX.

(** One block of the search for the smallest gap: [(offset, mingap)]. *)
Definition gap_step (bs : list RAMBlock) (size : Z) (best : Z * Z) (b : RAMBlock) : Z * Z :=
  let end_ := u64 (offset b + length b) in
  let gap := u64 (next_start bs end_ - end_) in
  if (size <=? gap) && (gap <? best.2) then (end_, gap) else best.

Definition find_ram_offset (bs : list RAMBlock) (size : Z) : res Z :=
  let* _ := c_assert (negb (size =? 0)) in
  match bs with
  | [] => Ok 0
  | _ =>
      let offset := (fold_left (gap_step bs size) bs (RAM_ADDR_MAX, RAM_ADDR_MAX)).1 in
      if offset =? RAM_ADDR_MAX then Err AssertFailed else Ok offset
  end.

Definition last_ram_offset (bs : list RAMBlock) : Z :=
  fold_left (fun last b => Z.max last (u64 (offset b + length b))) bs 0.

(** Before the first block that is smaller. *)
Fixpoint insert_block (b : RAMBlock) (bs : list RAMBlock) : list RAMBlock :=
  match bs with
  | [] => [b]
  | c :: bs => if length c <? length b then b :: c :: bs else c :: insert_block b bs
  end.

(** [n] words that [realloc] adds. *)
Definition fresh_words (garbage : Z -> Z) (n : Z) : list Z := (fun k => u64 (garbage k)) <$> seqZ 0 n.

(** Each bitmap grown; [garbage] by client and word. *)
Definition extend_maps (garbage : Z -> Z -> Z) (rl : RAMList) (old_ram_size new_ram_size : Z) : res RAMList :=
  for_loop (Z.to_nat DIRTY_MEMORY_NUM) 0
    (fun i rl => with_map rl i (fun map =>
       bitmap_zero_extend (fresh_words (garbage i) (BITS_TO_LONGS new_ram_size)) map old_ram_size new_ram_size)) rl.

(** [anon] is what [phys_mem_alloc] returns; without memory the process ends. *)
Definition qemu_ram_alloc_from_ptr (garbage : Z -> Z -> Z) (anon : Z) (rl : RAMList) (size host mr : Z) :
    res (Z * RAMList) :=
  let old_ram_size := Z.shiftr (last_ram_offset (blocks rl)) TARGET_PAGE_BITS in
  let size := TARGET_PAGE_ALIGN size in
  let* offset := find_ram_offset (blocks rl) size in
  let* new_block :=
    if negb (host =? 0) then Ok (mkBlock mr host offset size true)
    else let* _ := c_assert (negb (anon =? 0)) in Ok (mkBlock mr anon offset size false) in
  let rl := mkRam (dirty_memory rl) None (insert_block new_block (blocks rl)) (u32 (version rl + 1)) in
  let new_ram_size := Z.shiftr (last_ram_offset (blocks rl)) TARGET_PAGE_BITS in
  let* rl := if old_ram_size <? new_ram_size then extend_maps garbage rl old_ram_size new_ram_size else Ok rl in
  let* rl := cpu_physical_memory_set_dirty_range rl offset size in
  Ok (offset, rl).

Definition qemu_ram_alloc (garbage : Z -> Z -> Z) (anon : Z) (rl : RAMList) (size mr : Z) : res (Z * RAMList) :=
  qemu_ram_alloc_from_ptr garbage anon rl size 0 mr.

(** The first block with this offset goes. *)
Fixpoint remove_block (addr : Z) (bs : list RAMBlock) : option (list RAMBlock) :=
  match bs with
  | [] => None
  | b :: bs => if addr =? offset b then Some bs else cons b <$> remove_block addr bs
  end.

Definition qemu_ram_free_from_ptr (rl : RAMList) (addr : Z) : RAMList :=
  match remove_block addr (blocks rl) with
  | Some bs => mkRam (dirty_memory rl) None bs (u32 (version rl + 1))
  | None => rl
  end.

(** The memory of the block goes back to the host, unless it was preallocated. *)
Definition qemu_ram_free (rl : RAMList) (addr : Z) : RAMList * option (Z * Z) :=
  (qemu_ram_free_from_ptr rl addr,
   match List.find (fun b => addr =? offset b) (blocks rl) with
   | Some b => if prealloc b then None else Some (host b, length b)
   | None => None
   end).

End RamList.
