(* ===== verification/RamListFacts.v ===== *)
(** * RAM blocks: the invariant

    The blocks are page-aligned ranges that do not overlap, sorted by size; the
    block used last is one of them; the bitmaps reach over all the RAM
    addresses. *)

From stdpp Require Import base list numbers sorting.
From S2P Require Import Prelude Bitops Bitmap PhysMap Dispatch RamList.
Import RamList.

Definition end_of (b : RAMBlock) : Z := offset b + length b.
Definition apart (b c : RAMBlock) : Prop := end_of b <= offset c \/ end_of c <= offset b.

Record block_ok (b : RAMBlock) : Prop := {
  bo_start : 0 <= offset b;
  bo_size : 0 < length b;
  bo_end : end_of b <= RAM_ADDR_MAX;
  bo_aligned : offset b mod 1024 = 0 /\ length b mod 1024 = 0
}.

(** Enough bits for the pages of the blocks. *)
Definition map_ok (last : Z) (map : list Z) : Prop := words_ok map /\ last / 1024 <= 64 * Z.of_nat (List.length map).

Record blocks_ok (bs : list RAMBlock) : Prop := {
  bk_each : Forall block_ok bs;
  bk_apart : ForallOrdPairs apart bs;
  bk_sorted : StronglySorted (fun b c => length c <= length b) bs
}.

Record ram_ok (rl : RAMList) : Prop := {
  ro_blocks : blocks_ok (blocks rl);
  ro_mru : forall b, mru_block rl = Some b -> b ∈ blocks rl;
  ro_maps : arr DIRTY_MEMORY_NUM (map_ok (last_ram_offset (blocks rl))) (dirty_memory rl)
}.

(** ** Blocks *)

Lemma apart_sym b c : apart b c -> apart c b.
Proof. unfold apart. lia. Qed.

Lemma apart_in bs b c : ForallOrdPairs apart bs -> b ∈ bs -> c ∈ bs -> b = c \/ apart b c.
Proof.
  intros F Hb%list_elem_of_In Hc%list_elem_of_In.
  destruct (ForallOrdPairs_In F _ _ Hb Hc) as [|[|]]; [by left|by right|right; by apply apart_sym].
Qed.

Lemma in_block_val addr b : block_ok b -> 0 <= addr < 2 ^ 64 ->
  in_block addr b = (offset b <=? addr) && (addr <? end_of b).
Proof.
  intros [? ? He _] Ha. unfold in_block, end_of, RAM_ADDR_MAX in *.
  destruct (Z.leb_spec (offset b) addr); cbn [andb].
  - rewrite uwrap_small by lia. zcases; done || lia.
  - assert (u64 (addr - offset b) = addr - offset b + 2 ^ 64) as ->.
    { transitivity (u64 (addr - offset b + 2 ^ 64)); [|apply uwrap_small; lia].
      symmetry. apply uwrap_eq_mod with (k := 1); lia. }
    zcases; done || lia.
Qed.

(** At most one block has an address. *)
Lemma block_unique bs addr b c : blocks_ok bs -> 0 <= addr < 2 ^ 64 -> b ∈ bs -> c ∈ bs ->
  in_block addr b = true -> in_block addr c = true -> b = c.
Proof.
  intros [E A _] Ha Hb Hc Ib Ic. rewrite Forall_forall in E.
  rewrite in_block_val in Ib, Ic by auto. apply andb_prop in Ib as [? ?], Ic as [? ?].
  destruct (apart_in bs b c A Hb Hc) as [|[]]; [done|lia|lia].
Qed.

(** A search by a property that at most one element has. *)
Lemma find_unique {A} (f : A -> bool) l b : (forall c, c ∈ l -> f c = true -> c = b) -> b ∈ l -> f b = true ->
  List.find f l = Some b.
Proof.
  induction l as [|c l IH]; intros U Hb Hf; [by apply not_elem_of_nil in Hb|]. cbn [List.find].
  destruct (f c) eqn:Ec; [f_equal; apply U; [apply list_elem_of_here|done]|].
  apply elem_of_cons in Hb as [->|Hb]; [by rewrite Hf in Ec|].
  apply IH; [|done|done]. intros c' Hc'. apply U. by right.
Qed.

Lemma find_none_iff {A} (f : A -> bool) l : List.find f l = None <-> forall c, c ∈ l -> f c = false.
Proof.
  split.
  - intros E c Hc. apply (List.find_none _ _ E). by apply list_elem_of_In.
  - intros H. destruct (List.find f l) eqn:E; [|done]. apply List.find_some in E as [Hin Ef].
    rewrite H in Ef; [done|]. by apply list_elem_of_In.
Qed.

(** The block used last does not change what a search finds. *)
Lemma mru_search rl (f : RAMBlock -> bool) : ram_ok rl ->
  (forall b c, b ∈ blocks rl -> c ∈ blocks rl -> f b = true -> f c = true -> b = c) ->
  match mru_block rl with
  | Some b => if f b then Some b else List.find f (blocks rl)
  | None => List.find f (blocks rl)
  end = List.find f (blocks rl).
Proof.
  intros [_ M _] U. destruct (mru_block rl) as [b|]; [|done]. destruct (f b) eqn:E; [|done].
  symmetry. apply find_unique; auto.
Qed.

Lemma get_ram_block_find rl addr : ram_ok rl -> 0 <= addr < 2 ^ 64 ->
  qemu_get_ram_block rl addr =
    match List.find (in_block addr) (blocks rl) with Some b => Ok (b, set_mru rl b) | None => Err AssertFailed end.
Proof.
  intros R Ha. rewrite <- (mru_search rl (in_block addr) R) at 1 by (intros; by eapply block_unique; [apply ro_blocks| | | | |]).
  unfold qemu_get_ram_block. destruct (mru_block rl) as [b|]; [|done]. by destruct (in_block addr b).
Qed.

Lemma set_mru_ok rl b : ram_ok rl -> b ∈ blocks rl -> ram_ok (set_mru rl b).
Proof. intros [B M D] Hb. split; [done| |done]. cbn. intros c [= <-]. done. Qed.

(** ** The search for a gap *)

Lemma next_start_spec bs e : let n := next_start bs e in
  n <= RAM_ADDR_MAX /\ (forall b, b ∈ bs -> e <= offset b -> n <= offset b) /\
  (e <= RAM_ADDR_MAX -> e <= n).
Proof.
  unfold next_start. assert (forall m, let n := fold_left (fun next b => if e <=? offset b then Z.min next (offset b) else next) bs m in
    n <= m /\ (forall b, b ∈ bs -> e <= offset b -> n <= offset b) /\ (e <= m -> e <= n)) as G; [|apply G].
  induction bs as [|b bs IH]; intros m; cbn [fold_left].
  - split; [done|]. split; [|done]. intros b Hb. by apply not_elem_of_nil in Hb.
  - specialize (IH (if e <=? offset b then Z.min m (offset b) else m)) as (H1 & H2 & H3). cbv zeta.
    split; [destruct (e <=? offset b); lia|]. split; [|intros; apply H3; zcases; lia].
    intros c [->|Hc]%elem_of_cons He; [|by apply H2]. destruct (Z.leb_spec e (offset b)); lia.
Qed.

(** [r] is the end of a block, with a gap of [g] bytes behind it: the places
    that [find_ram_offset] looks at.  The space before the lowest block, which
    is there once a block at 0 has been freed, is not among them. *)
Definition gap_at (bs : list RAMBlock) (r g : Z) : Prop :=
  exists b, b ∈ bs /\ r = end_of b /\ g = next_start bs r - r.

(** What the search finds: the smallest gap behind a block that is large
    enough, if there is one. *)
Definition best_gap (bs scanned : list RAMBlock) (size : Z) (best : Z * Z) : Prop :=
  (best = (RAM_ADDR_MAX, RAM_ADDR_MAX) \/ gap_at bs best.1 best.2 /\ size <= best.2) /\
  forall b, b ∈ scanned -> let g := next_start bs (end_of b) - end_of b in size <= g -> best.2 <= g.

Lemma gap_step_spec bs size best b scanned : Forall block_ok bs -> b ∈ bs -> best_gap bs scanned size best ->
  best_gap bs (scanned ++ [b]) size (gap_step bs size best b).
Proof.
  intros F Hb [B M]. rewrite Forall_forall in F. destruct (F b Hb) as [? ? He _]. unfold gap_step.
  rewrite (uwrap_small 64 (offset b + length b)) by (unfold end_of, RAM_ADDR_MAX in *; lia). fold (end_of b).
  destruct (next_start_spec bs (end_of b)) as (N1 & _ & N3). specialize (N3 He).
  rewrite uwrap_small by (unfold RAM_ADDR_MAX, end_of in *; lia).
  destruct (Z.leb_spec size (next_start bs (end_of b) - end_of b)), (Z.ltb_spec (next_start bs (end_of b) - end_of b) best.2);
    cbn [andb]; split; cbn [fst snd]; try done; try (right; split; [by exists b|done]);
    intros c [Hc|Hc%list_elem_of_singleton]%elem_of_app; cbv zeta; intros Hs; try subst c; try (specialize (M c Hc Hs)); lia.
Qed.

Lemma gap_fold bs size : forall rest scanned best, Forall block_ok bs -> (forall b, b ∈ rest -> b ∈ bs) ->
  best_gap bs scanned size best -> best_gap bs (scanned ++ rest) size (fold_left (gap_step bs size) rest best).
Proof.
  induction rest as [|b rest IH]; intros scanned best F Hin B; cbn [fold_left]; [by rewrite app_nil_r|].
  replace (scanned ++ b :: rest) with ((scanned ++ [b]) ++ rest) by (by rewrite <- app_assoc).
  apply IH; [done|intros; apply Hin; by right|]. apply gap_step_spec; [done|apply Hin; by left|done].
Qed.

(** [size] bytes at [r] are free. *)
Definition free_at (bs : list RAMBlock) (r size : Z) : Prop :=
  0 <= r /\ r + size <= RAM_ADDR_MAX /\ forall c, c ∈ bs -> end_of c <= r \/ r + size <= offset c.

Lemma gap_free bs r g size : blocks_ok bs -> gap_at bs r g -> size <= g -> free_at bs r size.
Proof.
  intros [E A _] (b & Hb & -> & ->) Hs. rewrite Forall_forall in E. destruct (E b Hb) as [? ? He _].
  destruct (next_start_spec bs (end_of b)) as (N1 & N2 & _). split; [unfold end_of; lia|]. split; [lia|].
  intros c Hc. destruct (Z.leb_spec (end_of b) (offset c)) as [Hl|Hl]; [right; specialize (N2 c Hc Hl); lia|].
  left. destruct (apart_in bs b c A Hb Hc) as [->|[|]]; unfold end_of in *; [lia|lia|]. lia.
Qed.

(** The search succeeds exactly when there is a gap behind a block; it returns
    the smallest one. *)
Lemma find_ram_offset_spec bs size : blocks_ok bs -> bs <> [] -> 0 < size ->
  match find_ram_offset bs size with
  | Ok r => free_at bs r size /\ exists g, gap_at bs r g /\ forall r' g', gap_at bs r' g' -> size <= g' -> g <= g'
  | Err f => f = AssertFailed /\ forall r g, gap_at bs r g -> g < size
  end.
Proof.
  intros B Ne Hs. unfold find_ram_offset. replace (size =? 0) with false by (symmetry; apply Z.eqb_neq; lia).
  cbn [negb c_assert res_bind]. destruct bs as [|b0 bs0]; [done|]. set (bs := b0 :: bs0) in *.
  destruct (gap_fold bs size bs [] (RAM_ADDR_MAX, RAM_ADDR_MAX) (bk_each _ B) ltac:(done)) as [G M].
  { split; [by left|]. intros b Hb. by apply not_elem_of_nil in Hb. }
  rewrite app_nil_l in M. set (best := fold_left _ _ _) in *.
  assert (forall r g, gap_at bs r g -> size <= g -> best.2 <= g) as M' by (intros r g (b & Hb & -> & ->); by apply M).
  assert (forall r g, gap_at bs r g -> r < RAM_ADDR_MAX /\ g < RAM_ADDR_MAX \/ g <= 0) as Lt.
  { intros r g (b & Hb & -> & ->). pose proof (bk_each _ B) as E. rewrite Forall_forall in E. destruct (E b Hb).
    destruct (next_start_spec bs (end_of b)) as (N1 & _ & _). unfold end_of in *. lia. }
  destruct (Z.eqb_spec best.1 RAM_ADDR_MAX) as [Eb|Nb].
  - split; [done|]. intros r g Hg. destruct (Z.lt_decidable g size) as [|Hn]; [done|]. exfalso.
    specialize (M' r g Hg ltac:(lia)). destruct G as [G|[G G2]].
    + rewrite G in M'. cbn in M'. destruct (Lt _ _ Hg); lia.
    + destruct (Lt _ _ G); lia.
  - destruct G as [G|[G G2]]; [by rewrite G in Nb|]. split; [by eapply gap_free|]. by exists best.2.
Qed.

(** ** Insertion and removal *)

Lemma insert_block_perm b bs : insert_block b bs ≡ₚ b :: bs.
Proof.
  induction bs as [|c bs IH]; [done|]. cbn [insert_block]. destruct (_ <? _); [done|].
  rewrite IH. apply Permutation_swap.
Qed.

Lemma insert_block_sorted b bs : StronglySorted (fun b c => length c <= length b) bs ->
  StronglySorted (fun b c => length c <= length b) (insert_block b bs).
Proof.
  induction bs as [|c bs IH]; intros S; [by repeat constructor|]. cbn [insert_block].
  apply StronglySorted_inv in S as [S F]. destruct (Z.ltb_spec (length c) (length b)) as [|Hl].
  - constructor; [by constructor|]. constructor; [lia|]. eapply Forall_impl; [exact F|]. cbn. lia.
  - constructor; [by apply IH|]. rewrite insert_block_perm. constructor; [done|done].
Qed.

Lemma fop_cons_perm b bs bs' : bs' ≡ₚ b :: bs -> ForallOrdPairs apart bs -> Forall (apart b) bs -> ForallOrdPairs apart bs'.
Proof.
  intros P F Fb. assert (ForallOrdPairs apart (b :: bs)) as Q by (by constructor). symmetry in P. clear F Fb.
  induction P as [|x l l' P IH|x y l|l l' l'' P1 IH1 P2 IH2]; [done| | |auto].
  - inversion Q; subst. constructor; [by rewrite <- P|by apply IH].
  - inversion Q as [|? ? Fy Q']; subst. inversion Q' as [|? ? Fx Q'']; subst. apply Forall_cons in Fy as [Ryx Fy].
    constructor; [constructor; [by apply apart_sym|done]|by constructor].
Qed.

Lemma insert_block_ok b bs : blocks_ok bs -> block_ok b -> (forall c, c ∈ bs -> apart b c) -> blocks_ok (insert_block b bs).
Proof.
  intros [E A S] Hb Ab. split; [rewrite insert_block_perm; by constructor| |by apply insert_block_sorted].
  eapply fop_cons_perm; [apply insert_block_perm|done|]. by apply Forall_forall.
Qed.

Lemma remove_block_ok addr bs bs' : blocks_ok bs -> remove_block addr bs = Some bs' ->
  blocks_ok bs' /\ exists b, offset b = addr /\ bs ≡ₚ b :: bs'.
Proof.
  revert bs'. induction bs as [|c bs IH]; intros bs' [E A S] R; [done|]. cbn [remove_block] in R.
  apply Forall_cons in E as [Ec E]. inversion A as [|? ? Fc A']; subst. apply StronglySorted_inv in S as [S Fs].
  assert (blocks_ok bs) as B by done. destruct (Z.eqb_spec addr (offset c)) as [->|N].
  - injection R as <-. split; [done|]. by exists c.
  - destruct (remove_block addr bs) as [l|] eqn:El; [|done]. injection R as <-.
    destruct (IH l B eq_refl) as ([E2 A2 S2] & b & <- & P). split; [|exists b; split; [done|rewrite P; apply Permutation_swap]].
    rewrite P in E, Fc, Fs. apply Forall_cons in Fc as [_ Fc], Fs as [_ Fs].
    split; by constructor.
Qed.

(** ** Page ranges *)

Lemma last_ram_offset_spec bs : Forall block_ok bs -> let last := last_ram_offset bs in
  0 <= last <= RAM_ADDR_MAX /\ last mod 1024 = 0 /\ forall b, b ∈ bs -> end_of b <= last.
Proof.
  intros F. unfold last_ram_offset.
  assert (forall m, 0 <= m <= RAM_ADDR_MAX -> m mod 1024 = 0 ->
    let last := fold_left (fun last b => Z.max last (u64 (offset b + length b))) bs m in
    m <= last <= RAM_ADDR_MAX /\ last mod 1024 = 0 /\ forall b, b ∈ bs -> end_of b <= last) as G.
  { induction F as [|b bs [B1 B2 B3 [B4 B5]] F IH]; intros m Hm H0; cbn [fold_left].
    - split; [lia|]. split; [done|]. intros b Hb. by apply not_elem_of_nil in Hb.
    - unfold end_of, RAM_ADDR_MAX in *. rewrite uwrap_small by lia. cbv zeta.
      destruct (IH (Z.max m (offset b + length b))) as (I1 & I2 & I3); [lia|destruct (Z.max_spec m (offset b + length b)) as [[_ ->]|[_ ->]]; dlia|].
      split; [lia|]. split; [done|]. intros c [->|Hc]%elem_of_cons; [lia|by apply I3]. }
  apply G; [unfold RAM_ADDR_MAX; lia|done].
Qed.

Lemma last_ram_offset_perm bs bs' : bs ≡ₚ bs' -> last_ram_offset bs = last_ram_offset bs'.
Proof.
  unfold last_ram_offset. intros P. generalize 0. induction P as [|x l l' P IH|x y l|l l' l'' P1 IH1 P2 IH2]; intros m; cbn [fold_left];
    [done|apply IH| |by rewrite IH1].
  f_equal. lia.
Qed.

Lemma last_ram_offset_cons b bs : Forall block_ok (b :: bs) -> last_ram_offset (b :: bs) = Z.max (last_ram_offset bs) (end_of b).
Proof.
  intros F. assert (forall m, fold_left (fun last b => Z.max last (u64 (offset b + length b))) bs m = Z.max m (last_ram_offset bs) \/ m < 0) as G.
  { clear F. unfold last_ram_offset. induction bs as [|c bs IH]; intros m; cbn [fold_left]; [lia|].
    destruct (IH (Z.max m (u64 (offset c + length c)))) as [->|]; destruct (IH (Z.max 0 (u64 (offset c + length c)))) as [->|]; lia. }
  apply Forall_cons in F as [[? ? ? _] _]. unfold last_ram_offset at 1. cbn [fold_left].
  unfold end_of, RAM_ADDR_MAX in *. rewrite uwrap_small by lia. destruct (G (Z.max 0 (offset b + length b))); lia.
Qed.

Lemma align_val x : 0 <= x <= 2 ^ 64 - 1024 -> TARGET_PAGE_ALIGN x = 1024 * ((x + 1023) / 1024).
Proof.
  intros Hx. unfold TARGET_PAGE_ALIGN. change TARGET_PAGE_SIZE with 1024.
  replace (x + 1024 - 1) with (x + 1023) by lia. rewrite uwrap_small by lia. apply page_base_val. lia.
Qed.

Lemma page_range_val start len : 0 <= start -> 0 <= len -> start + len <= 2 ^ 64 - 1024 ->
  page_range start len = (start / 1024, (start + len + 1023) / 1024).
Proof.
  intros. unfold page_range. rewrite !shiftr_page. f_equal. rewrite uwrap_small by lia. rewrite align_val by lia. dlia.
Qed.

(** ** The bitmaps *)

(** Whether a page is dirty for a client. *)
Definition dirty (rl : RAMList) (client page : Z) : bool :=
  match dirty_memory rl !! Z.to_nat client with Some map => bit map page | None => false end.

Lemma client_cases c : 0 <= c < DIRTY_MEMORY_NUM -> c = 0 \/ c = 1 \/ c = 2.
Proof. unfold DIRTY_MEMORY_NUM. lia. Qed.

(** An update of one bitmap. *)
Lemma with_map_spec rl c f g last : 0 <= c < DIRTY_MEMORY_NUM -> arr DIRTY_MEMORY_NUM (map_ok last) (dirty_memory rl) ->
  (forall map, map_ok last map -> exists map', f map = Ok map' /\ map_ok last map' /\
     forall i, 0 <= i -> bit map' i = g i (bit map i)) ->
  exists ms, with_map rl c f = Ok (set_dirty_memory rl ms) /\ arr DIRTY_MEMORY_NUM (map_ok last) ms /\
    forall c' p, 0 <= c' -> 0 <= p ->
      dirty (set_dirty_memory rl ms) c' p = if c' =? c then g p (dirty rl c' p) else dirty rl c' p.
Proof.
  intros Hc A Hf. unfold with_map. destruct (arr_get _ _ _ c A Hc) as (map & E & M). rewrite E. cbn [res_bind].
  destruct (Hf map M) as (map' & -> & M' & B). cbn [res_bind].
  destruct (arr_set _ _ _ c map' A Hc M') as (ms & E2 & A2 & _). rewrite E2. exists ms. split; [done|]. split; [done|].
  intros c' p Hc' Hp. unfold dirty. cbn [dirty_memory set_dirty_memory].
  apply aset_Ok in E2 as (Hr & ->). apply aget_Ok in E as (_ & E).
  destruct (Z.eqb_spec c' c) as [->|N].
  - rewrite list_lookup_insert_eq, E by lia. by apply B.
  - by rewrite list_lookup_insert_ne by lia.
Qed.

Lemma ram_ok_dirty rl ms : ram_ok rl -> arr DIRTY_MEMORY_NUM (map_ok (last_ram_offset (blocks rl))) ms ->
  ram_ok (set_dirty_memory rl ms).
Proof. by intros [B M _] A. Qed.

Definition in_range (a b p : Z) : bool := (a <=? p) && (p <? b).

Lemma set_range_map last a b map : 0 <= a -> a <= b -> b <= last / 1024 -> map_ok last map ->
  exists map', bitmap_set map a (b - a) = Ok map' /\ map_ok last map' /\
    forall i, 0 <= i -> bit map' i = if in_range a b i then true else bit map i.
Proof.
  intros Ha Hab Hb [W L]. destruct (range_spec Z.lor true ltac:(intros; by apply set_op_ok) map a (b - a)) as (m & X & W' & E & B); try (done || lia).
  exists m. split; [exact X|]. split; [split; [done|by rewrite E]|]. intros i Hi. rewrite B by done.
  by replace (a + (b - a)) with b by lia.
Qed.

Lemma clear_range_map last a b map : 0 <= a -> a <= b -> b <= last / 1024 -> map_ok last map ->
  exists map', bitmap_clear map a (b - a) = Ok map' /\ map_ok last map' /\
    forall i, 0 <= i -> bit map' i = if in_range a b i then false else bit map i.
Proof.
  intros Ha Hab Hb [W L].
  destruct (range_spec (fun w mask => Z.land w (lnot64 mask)) false ltac:(intros; by apply clear_op_ok) map a (b - a))
    as (m & X & W' & E & B); try (done || lia).
  exists m. split; [exact X|]. split; [split; [done|by rewrite E]|]. intros i Hi. rewrite B by done.
  by replace (a + (b - a)) with b by lia.
Qed.

(** The pages of a range below [last]. *)
Lemma pages_below last start len : last mod 1024 = 0 -> last <= RAM_ADDR_MAX -> 0 <= start -> 0 <= len -> start + len <= last ->
  page_range start len = (start / 1024, (start + len + 1023) / 1024) /\ 0 <= start / 1024 <= (start + len + 1023) / 1024 /\
  (start + len + 1023) / 1024 <= last / 1024.
Proof.
  intros L0 Lm Hs Hl He. unfold RAM_ADDR_MAX in *. assert (last <= 2 ^ 64 - 1024) by dlia.
  split; [apply page_range_val; lia|]. split; [dlia|]. dlia.
Qed.

Section Dirty.
Variable rl : RAMList.
Hypothesis Hrl : ram_ok rl.
Abbreviation last := (last_ram_offset (blocks rl)).

Lemma last_bounds : 0 <= last <= RAM_ADDR_MAX /\ last mod 1024 = 0.
Proof. destruct (last_ram_offset_spec (blocks rl) (bk_each _ (ro_blocks _ Hrl))) as (? & ? & _). done. Qed.

Lemma get_dirty_spec start len c : 0 <= c < DIRTY_MEMORY_NUM -> 0 <= start -> 0 < len -> start + len <= last ->
  exists b, cpu_physical_memory_get_dirty rl start len c = Ok b /\
    (b = true <-> exists p, start / 1024 <= p <= (start + len - 1) / 1024 /\ dirty rl c p = true).
Proof.
  intros Hc Hs Hl He. destruct last_bounds as [Lb L0].
  destruct (pages_below last start len L0 ltac:(lia) Hs ltac:(lia) He) as (Ep & Hp & Hq).
  unfold cpu_physical_memory_get_dirty. rewrite Ep. destruct (Z.ltb_spec c DIRTY_MEMORY_NUM); [|lia]. cbn [c_assert res_bind].
  destruct (arr_get _ _ _ c (ro_maps _ Hrl) Hc) as (map & E & W & L). rewrite E. cbn [res_bind].
  unfold RAM_ADDR_MAX in Lb.
  destruct (find_next_bit_total map ((start + len + 1023) / 1024) (start / 1024) W) as (r & -> & S); [lia|dlia|dlia|].
  cbn [res_bind]. eexists. split; [done|]. unfold search_result in S.
  destruct (Z.leb_spec ((start + len + 1023) / 1024) (start / 1024)); [dlia|]. destruct S as (Hr & Sf & St).
  assert (forall p, dirty rl c p = bit map p) as Ed by (intros p; unfold dirty; apply aget_Ok in E as [_ ->]; done).
  destruct (Z.ltb_spec r ((start + len + 1023) / 1024)); split; try done.
  - intros _. exists r. rewrite Ed. split; [dlia|by apply St].
  - intros (p & Hpp & Dp). rewrite Ed, Sf in Dp; [done|dlia].
Qed.

Lemma is_clean_spec addr : 0 <= addr < last ->
  cpu_physical_memory_is_clean rl addr =
    Ok (negb (dirty rl DIRTY_MEMORY_VGA (addr / 1024) && dirty rl DIRTY_MEMORY_CODE (addr / 1024) &&
              dirty rl DIRTY_MEMORY_MIGRATION (addr / 1024))).
Proof.
  intros Ha. assert (forall c, 0 <= c < DIRTY_MEMORY_NUM -> cpu_physical_memory_get_dirty_flag rl addr c = Ok (dirty rl c (addr / 1024))) as G.
  { intros c Hc. destruct (get_dirty_spec addr 1 c Hc) as (b & E & B); [lia|lia|lia|]. unfold cpu_physical_memory_get_dirty_flag.
    rewrite E. f_equal. replace (addr + 1 - 1) with addr in B by lia. apply eq_true_iff_eq. rewrite B. split.
    - intros (p & Hp & D). by replace p with (addr / 1024) in D by lia.
    - intros D. exists (addr / 1024). split; [lia|done]. }
  unfold cpu_physical_memory_is_clean. rewrite !G by (unfold DIRTY_MEMORY_NUM, DIRTY_MEMORY_VGA, DIRTY_MEMORY_CODE, DIRTY_MEMORY_MIGRATION; lia).
  done.
Qed.

Lemma set_dirty_flag_spec addr c : 0 <= c < DIRTY_MEMORY_NUM -> 0 <= addr < last ->
  exists rl', cpu_physical_memory_set_dirty_flag rl addr c = Ok rl' /\ ram_ok rl' /\ blocks rl' = blocks rl /\
    forall c' p, 0 <= c' -> 0 <= p -> dirty rl' c' p = ((c' =? c) && (p =? addr / 1024)) || dirty rl c' p.
Proof.
  intros Hc Ha. unfold cpu_physical_memory_set_dirty_flag. destruct (Z.ltb_spec c DIRTY_MEMORY_NUM); [|lia]. cbn [c_assert res_bind].
  rewrite shiftr_page. destruct last_bounds as [Lb L0].
  destruct (with_map_spec rl c (set_bit (addr / 1024)) (fun i b => (i =? addr / 1024) || b) last Hc (ro_maps _ Hrl)) as (ms & E & A & D).
  - intros map [W L]. destruct (set_bit_spec map (addr / 1024) W) as (map' & -> & _ & W' & El & B); [dlia|].
    exists map'. split; [done|]. split; [split; [done|by rewrite El]|]. intros i Hi. rewrite B by done. by destruct (Z.eqb_spec i (addr / 1024)) as [->|].
  - rewrite E. eexists. split; [done|]. split; [by apply ram_ok_dirty|]. split; [done|]. intros c' p H1 H2. rewrite D by done.
    by destruct (c' =? c).
Qed.

Lemma clear_dirty_range_spec start len c : 0 <= c < DIRTY_MEMORY_NUM -> 0 <= start -> 0 <= len -> start + len <= last ->
  exists rl', cpu_physical_memory_clear_dirty_range rl start len c = Ok rl' /\ ram_ok rl' /\ blocks rl' = blocks rl /\
    mru_block rl' = mru_block rl /\
    forall c' p, 0 <= c' -> 0 <= p -> dirty rl' c' p =
      if (c' =? c) && in_range (start / 1024) ((start + len + 1023) / 1024) p then false else dirty rl c' p.
Proof.
  intros Hc Hs Hl He. destruct last_bounds as [Lb L0].
  destruct (pages_below last start len L0 ltac:(lia) Hs ltac:(lia) He) as (Ep & Hp & Hq).
  unfold cpu_physical_memory_clear_dirty_range. rewrite Ep. destruct (Z.ltb_spec c DIRTY_MEMORY_NUM); [|lia]. cbn [c_assert res_bind].
  set (b := (start + len + 1023) / 1024) in *.
  destruct (with_map_spec rl c (fun map => bitmap_clear map (start / 1024) (b - start / 1024))
    (fun i x => if in_range (start / 1024) b i then false else x) last Hc (ro_maps _ Hrl)) as (ms & E & A & D).
  - intros map M. apply clear_range_map; done || lia.
  - rewrite E. eexists. split; [done|]. split; [by apply ram_ok_dirty|]. split; [done|]. split; [done|]. intros c' p H1 H2. rewrite D by done.
    by destruct (c' =? c).
Qed.

Lemma set_dirty_range_spec start len : 0 <= start -> 0 <= len -> start + len <= last ->
  exists rl', cpu_physical_memory_set_dirty_range rl start len = Ok rl' /\ ram_ok rl' /\ blocks rl' = blocks rl /\
    mru_block rl' = mru_block rl /\ version rl' = version rl /\
    forall c p, 0 <= c < DIRTY_MEMORY_NUM -> 0 <= p ->
      dirty rl' c p = in_range (start / 1024) ((start + len + 1023) / 1024) p || dirty rl c p.
Proof.
  intros Hs Hl He. destruct last_bounds as [Lb L0].
  destruct (pages_below last start len L0 ltac:(lia) Hs ltac:(lia) He) as (Ep & Hp & Hq).
  unfold cpu_physical_memory_set_dirty_range. rewrite Ep. set (a := start / 1024) in *. set (b := (start + len + 1023) / 1024) in *.
  pose (g := fun i x => if in_range a b i then true else x).
  assert (forall map, map_ok last map -> exists map', bitmap_set map a (b - a) = Ok map' /\ map_ok last map' /\
    forall i, 0 <= i -> bit map' i = g i (bit map i)) as G by (intros map M; apply set_range_map; done || lia).
  destruct (with_map_spec rl DIRTY_MEMORY_MIGRATION _ g last ltac:(done) (ro_maps _ Hrl) G) as (ms1 & E1 & A1 & D1).
  rewrite E1. cbn [res_bind].
  destruct (with_map_spec (set_dirty_memory rl ms1) DIRTY_MEMORY_VGA _ g last ltac:(done) A1 G) as (ms2 & E2 & A2 & D2).
  rewrite E2. cbn [res_bind].
  destruct (with_map_spec (set_dirty_memory (set_dirty_memory rl ms1) ms2) DIRTY_MEMORY_CODE _ g last ltac:(done) A2 G) as (ms3 & E3 & A3 & D3).
  rewrite E3. eexists. split; [done|]. split; [by apply (ram_ok_dirty rl)|]. do 3 (split; [done|]).
  intros c p Hc Hpp. rewrite D3, D2, D1 by lia. unfold g.
  apply client_cases in Hc as [->|[->| ->]]; cbn [Z.eqb Pos.eqb DIRTY_MEMORY_MIGRATION DIRTY_MEMORY_VGA DIRTY_MEMORY_CODE];
    by destruct (in_range a b p).
Qed.
End Dirty.

(** ** Growing the bitmaps *)

Lemma fresh_words_spec garbage n : 0 <= n -> words_ok (fresh_words garbage n) /\ Z.of_nat (List.length (fresh_words garbage n)) = n.
Proof.
  intros Hn. unfold fresh_words. split; [|rewrite length_fmap, length_seqZ; lia].
  apply Forall_fmap, Forall_true. intros k. apply (uwrap_range 64). lia.
Qed.

Lemma zero_extend_spec fresh map old new : words_ok map -> words_ok fresh -> 0 <= old <= new -> old <= 64 * Z.of_nat (List.length map) ->
  Z.of_nat (List.length fresh) = BITS_TO_LONGS new ->
  exists map', bitmap_zero_extend fresh map old new = Ok map' /\ words_ok map' /\ new <= 64 * Z.of_nat (List.length map') /\
    forall i, 0 <= i < new -> bit map' i = (i <? old) && bit map i.
Proof.
  intros W Wf Ho Hm Hf. unfold bitmap_zero_extend, BITS_TO_LONGS in *. set (n := Z.to_nat ((new + 63) / 64)).
  set (ws := take n (map ++ fresh)).
  assert (List.length ws = n) as L by (unfold ws; rewrite length_take, length_app; lia).
  assert (words_ok ws) as Ww by (apply Forall_take, Forall_app; done).
  destruct (range_spec (fun w mask => Z.land w (lnot64 mask)) false ltac:(intros; by apply clear_op_ok) ws old (new - old))
    as (m & X & W' & E & B); [done|lia|lia|rewrite L; unfold n; dlia|].
  exists m. split; [exact X|]. split; [done|]. split; [rewrite E, L; unfold n; dlia|].
  intros i Hi. rewrite B by lia. destruct (Z.ltb_spec i old).
  - replace ((old <=? i) && (i <? old + (new - old))) with false by (symmetry; zcases; done || lia). cbn [andb].
    unfold bit, ws. rewrite lookup_take by (unfold n; dlia). rewrite decide_True by (unfold n; dlia).
    rewrite lookup_app_l; [done|]. dlia.
  - replace ((old <=? i) && (i <? old + (new - old))) with true by (symmetry; zcases; done || lia). done.
Qed.

Lemma extend_maps_spec garbage rl old new : arr DIRTY_MEMORY_NUM (map_ok old) (dirty_memory rl) ->
  0 <= old <= new ->
  exists ms, extend_maps garbage rl (old / 1024) (new / 1024) = Ok (set_dirty_memory rl ms) /\
    arr DIRTY_MEMORY_NUM (map_ok new) ms /\
    forall c p, 0 <= c < DIRTY_MEMORY_NUM -> 0 <= p < new / 1024 ->
      dirty (set_dirty_memory rl ms) c p = (p <? old / 1024) && dirty rl c p.
Proof.
  intros A Hon. unfold extend_maps.
  pose (I := fun i (r : RAMList) => exists ms, r = set_dirty_memory rl ms /\ Z.of_nat (List.length ms) = DIRTY_MEMORY_NUM /\
    forall c, 0 <= c < DIRTY_MEMORY_NUM -> exists m0 m, dirty_memory rl !! Z.to_nat c = Some m0 /\ ms !! Z.to_nat c = Some m /\
      if c <? i then map_ok new m /\ forall p, 0 <= p < new / 1024 -> bit m p = (p <? old / 1024) && bit m0 p else m = m0).
  assert (forall c, 0 <= c < DIRTY_MEMORY_NUM -> exists m0, dirty_memory rl !! Z.to_nat c = Some m0 /\ map_ok old m0) as Get.
  { intros c Hc. destruct (arr_get _ _ _ c A Hc) as (m0 & E & M). apply aget_Ok in E as [_ E]. by exists m0. }
  match goal with |- context [for_loop ?n 0 ?body rl] => destruct (for_loop_inv I body n 0 rl) as (r & E & ms & -> & Lm & Hms) end.
  - exists (dirty_memory rl). split; [by destruct rl|]. split; [apply A|]. intros c Hc. destruct (Get c Hc) as (m0 & E & _).
    exists m0, m0. do 2 (split; [done|]). destruct (Z.ltb_spec c 0); [lia|done].
  - intros i r Hi (ms & -> & Lm & Hms). change (0 + Z.of_nat (Z.to_nat DIRTY_MEMORY_NUM)) with DIRTY_MEMORY_NUM in Hi.
    destruct (Get i Hi) as (m0 & E0 & W & L). destruct (Hms i Hi) as (m0' & m & E0' & Em & Hm).
    rewrite Z.ltb_irrefl in Hm. subst m. rewrite E0 in E0'. injection E0' as <-.
    unfold with_map. cbn [dirty_memory set_dirty_memory]. replace (aget ms i) with (Ok m0) by (symmetry; apply aget_Ok; split; [lia|done]).
    cbn [res_bind]. destruct (fresh_words_spec (garbage i) (BITS_TO_LONGS (new / 1024))) as [Wf Lf]; [unfold BITS_TO_LONGS; dlia|].
    destruct (zero_extend_spec _ m0 (old / 1024) (new / 1024) W Wf ltac:(dlia) L Lf) as (m' & -> & W' & L' & B').
    cbn [res_bind]. rewrite aset_total by lia. cbn [res_bind]. eexists. split; [done|].
    exists (<[Z.to_nat i := m']> ms). split; [done|]. split; [by rewrite length_insert|]. intros c Hc.
    destruct (Z.eq_dec c i) as [->|N].
    + exists m0, m'. split; [done|]. split; [by rewrite list_lookup_insert_eq by lia|].
      destruct (Z.ltb_spec i (i + 1)); [|lia]. split; [done|]. done.
    + destruct (Hms c Hc) as (n0 & n & ? & ? & Hn). exists n0, n. split; [done|]. split; [by rewrite list_lookup_insert_ne by lia|].
      destruct (Z.ltb_spec c i), (Z.ltb_spec c (i + 1)); done || lia.
  - change (0 + Z.of_nat (Z.to_nat DIRTY_MEMORY_NUM)) with DIRTY_MEMORY_NUM in *. exists ms. split; [exact E|]. split.
    + split; [done|]. apply Forall_lookup_2. intros k m Ek. pose proof (lookup_lt_Some _ _ _ Ek).
      destruct (Hms (Z.of_nat k)) as (m0 & m' & _ & E2 & Hm); [lia|]. rewrite Nat2Z.id, Ek in E2. injection E2 as <-.
      destruct (Z.ltb_spec (Z.of_nat k) DIRTY_MEMORY_NUM); [apply Hm|lia].
    + intros c p Hc Hp. destruct (Hms c Hc) as (m0 & m' & E1 & E2 & Hm).
      destruct (Z.ltb_spec c DIRTY_MEMORY_NUM); [|lia]. unfold dirty. cbn [dirty_memory set_dirty_memory]. rewrite E1, E2.
      by apply Hm.
Qed.

(** ** Host pointers *)

(** The host areas of the blocks do not overlap. *)
Definition hosts_ok (bs : list RAMBlock) : Prop :=
  forall b c, b ∈ bs -> c ∈ bs -> 0 < host b /\ host b + length b <= 2 ^ 64 /\
    (b = c \/ host b + length b <= host c \/ host c + length c <= host b).

Lemma holds_host_val ptr b : 0 < host b -> 0 < length b -> host b + length b <= 2 ^ 64 -> 0 <= ptr < 2 ^ 64 ->
  holds_host ptr b = (host b <=? ptr) && (ptr <? host b + length b).
Proof.
  intros H0 Hl He Hp. unfold holds_host. replace (host b =? 0) with false by (symmetry; apply Z.eqb_neq; lia). cbn [negb andb].
  destruct (Z.leb_spec (host b) ptr); cbn [andb].
  - rewrite uwrap_small by lia. zcases; done || lia.
  - assert (u64 (ptr - host b) = ptr - host b + 2 ^ 64) as ->.
    { transitivity (u64 (ptr - host b + 2 ^ 64)); [|apply uwrap_small; lia].
      symmetry. apply uwrap_eq_mod with (k := 1); lia. }
    zcases; done || lia.
Qed.

Lemma from_host_spec rl b addr : ram_ok rl -> hosts_ok (blocks rl) -> b ∈ blocks rl -> offset b <= addr < end_of b ->
  qemu_ram_addr_from_host rl (host b + (addr - offset b)) = Some (mr b, addr).
Proof.
  intros R Ho Hb Ha. pose proof (bk_each _ (ro_blocks _ R)) as E. rewrite Forall_forall in E.
  set (ptr := host b + (addr - offset b)). destruct (Ho b b Hb Hb) as (H1 & H2 & _). unfold end_of in Ha.
  assert (forall c, c ∈ blocks rl -> holds_host ptr c = (host c <=? ptr) && (ptr <? host c + length c)) as V.
  { intros c Hc. destruct (Ho c c Hc Hc) as (? & ? & _). destruct (E c Hc). apply holds_host_val; unfold ptr; lia. }
  assert (forall c, c ∈ blocks rl -> holds_host ptr c = true -> c = b) as U.
  { intros c Hc Hh. rewrite V in Hh by done. destruct (Ho c b Hc Hb) as (_ & _ & [|[|]]); [done| |]; unfold ptr in *; lia. }
  assert (holds_host ptr b = true) as Hb' by (rewrite V by done; unfold ptr; zcases; done || lia).
  assert (List.find (holds_host ptr) (blocks rl) = Some b) as F by (apply find_unique; auto).
  destruct (E b Hb) as [? ? He _]. unfold end_of, RAM_ADDR_MAX in He.
  assert (u64 (offset b + (ptr - host b)) = addr) as Ea by (unfold ptr; rewrite uwrap_small; lia).
  unfold qemu_ram_addr_from_host. rewrite F, Ea. destruct (mru_block rl) as [c|] eqn:Em; [|done].
  destruct (holds_host ptr c) eqn:Eh; [|done]. rewrite (U c) by (done || by apply (ro_mru _ R)). by rewrite Ea.
Qed.

(** ** Allocation *)

Section Alloc.
Variables (garbage : Z -> Z -> Z) (rl : RAMList).
Hypothesis Hrl : ram_ok rl.
Abbreviation last := (last_ram_offset (blocks rl)).

(** A new block in a free range: the bitmaps grow to reach it, and its pages
    are dirty. *)
Lemma add_block_spec b : block_ok b -> free_at (blocks rl) (offset b) (length b) ->
  let bs := insert_block b (blocks rl) in
  let rl1 := mkRam (dirty_memory rl) None bs (u32 (version rl + 1)) in
  let last' := last_ram_offset bs in
  exists rl2 rl3, (if last / 1024 <? last' / 1024 then extend_maps garbage rl1 (last / 1024) (last' / 1024) else Ok rl1) = Ok rl2 /\
    cpu_physical_memory_set_dirty_range rl2 (offset b) (length b) = Ok rl3 /\ ram_ok rl3 /\ blocks rl3 = bs /\
    forall c p, 0 <= c < DIRTY_MEMORY_NUM -> 0 <= p < last' / 1024 ->
      dirty rl3 c p = in_range (offset b / 1024) (end_of b / 1024) p || ((p <? last / 1024) && dirty rl c p).
Proof.
  intros Hb (_ & _ & Fr) bs rl1 last'. destruct Hrl as [B M A].
  assert (blocks_ok bs) as Bs.
  { apply insert_block_ok; [done|done|]. intros c Hc. destruct (Fr c Hc); unfold apart, end_of in *; lia. }
  assert (last' = Z.max last (end_of b)) as El.
  { unfold last', bs. rewrite (last_ram_offset_perm _ _ (insert_block_perm _ _)). apply last_ram_offset_cons. constructor; [done|apply B]. }
  destruct (last_ram_offset_spec (blocks rl) (bk_each _ B)) as (L1 & L2 & _).
  destruct (last_ram_offset_spec bs (bk_each _ Bs)) as (L1' & L2' & _). fold last' in L1', L2'. fold last in L1, L2.
  assert (exists rl2, (if last / 1024 <? last' / 1024 then extend_maps garbage rl1 (last / 1024) (last' / 1024) else Ok rl1) = Ok rl2 /\
    ram_ok rl2 /\ blocks rl2 = bs /\ forall c p, 0 <= c < DIRTY_MEMORY_NUM -> 0 <= p < last' / 1024 ->
      dirty rl2 c p = (p <? last / 1024) && dirty rl c p) as (rl2 & -> & R2 & Eb & D2).
  { destruct (Z.ltb_spec (last / 1024) (last' / 1024)) as [|Ge].
    - destruct (extend_maps_spec garbage rl1 last last' A ltac:(lia)) as (ms & -> & A' & D). eexists. split; [done|].
      split; [by split|]. split; [done|]. intros. by rewrite D.
    - exists rl1. split; [done|]. split; [|split; [done|]].
      + split; [done|done|]. change (arr DIRTY_MEMORY_NUM (map_ok last') (dirty_memory rl)). replace last' with last by dlia. exact A.
      + intros c p Hc Hp. destruct (Z.ltb_spec p (last / 1024)); [done|lia]. }
  destruct Hb as [? ? ? [Al1 Al2]].
  destruct (set_dirty_range_spec rl2 R2 (offset b) (length b)) as (rl3 & E3 & R3 & Eb3 & _ & _ & D3); [lia|lia|rewrite Eb; fold last'; unfold end_of in *; lia|].
  exists rl2, rl3. do 3 (split; [done|]). split; [congruence|]. intros c p Hc Hp. rewrite D3 by lia. rewrite D2 by done.
  by replace ((offset b + length b + 1023) / 1024) with (end_of b / 1024) by (unfold end_of; dlia).
Qed.
End Alloc.

Lemma block_of rl b : ram_ok rl -> b ∈ blocks rl -> block_ok b.
Proof. intros R. pose proof (bk_each _ (ro_blocks _ R)) as E. rewrite Forall_forall in E. apply E. Qed.

(** ** Release *)

Lemma remove_block_some addr bs b : b ∈ bs -> offset b = addr -> exists bs', remove_block addr bs = Some bs'.
Proof.
  intros Hb <-. induction bs as [|c bs IH]; [by apply not_elem_of_nil in Hb|]. cbn [remove_block].
  destruct (Z.eqb_spec (offset b) (offset c)); [by eexists|].
  apply elem_of_cons in Hb as [->|Hb]; [done|]. destruct (IH Hb) as [bs' ->]. by eexists.
Qed.

Lemma ram_free_spec rl b : ram_ok rl -> b ∈ blocks rl -> let rl' := qemu_ram_free_from_ptr rl (offset b) in
  ram_ok rl' /\ blocks rl ≡ₚ b :: blocks rl' /\ dirty_memory rl' = dirty_memory rl.
Proof.
  intros R Hb rl'. unfold rl', qemu_ram_free_from_ptr.
  destruct (remove_block_some _ _ b Hb eq_refl) as [bs' E]. rewrite E. destruct R as [B M A].
  destruct (remove_block_ok _ _ _ B E) as (B' & c & Ec & P).
  assert (c = b) as ->.
  { pose proof (bk_each _ B) as F. rewrite Forall_forall in F. assert (c ∈ blocks rl) as Hc by (rewrite P; by left).
    destruct (F b Hb), (F c Hc). destruct (apart_in _ b c (bk_apart _ B) Hb Hc) as [|[|]]; unfold end_of in *; [done|lia|lia]. }
  split; [|done]. split; [done|done|]. cbn [blocks dirty_memory].
  assert (Forall block_ok (b :: bs')) as F by (rewrite <- P; apply B).
  rewrite (last_ram_offset_perm _ _ P), (last_ram_offset_cons b bs' F) in A. destruct A as [L A]. split; [done|].
  eapply Forall_impl; [exact A|]. intros map [W Hl]. split; [done|]. dlia.
Qed.

(** ** Claims *)

(** C25: allocation of RAM.  The size is rounded up to pages.  The new block is
    put at the end of an existing block, the one with the smallest gap behind it
    that is large enough, or at offset 0 in an empty list; the space before the
    lowest block is not considered.  It overlaps no block, is entered in the
    order of the sizes and is dirty for all clients, while the dirty bits of the
    other blocks stay; releasing it gives the old blocks back.  The allocation
    aborts exactly when no gap behind a block is large enough. *)
Theorem ram_alloc_correct garbage anon rl size host mr : ram_ok rl -> 0 < size <= 2 ^ 64 - 1024 -> host <> 0 \/ anon <> 0 ->
  let asize := 1024 * ((size + 1023) / 1024) in
  match qemu_ram_alloc_from_ptr garbage anon rl size host mr with
  | Ok (off, rl') =>
      free_at (blocks rl) off asize /\ ram_ok rl' /\
      blocks rl' ≡ₚ mkBlock mr (if host =? 0 then anon else host) off asize (negb (host =? 0)) :: blocks rl /\
      (blocks rl = [] /\ off = 0 \/
       exists g, gap_at (blocks rl) off g /\ forall r' g', gap_at (blocks rl) r' g' -> asize <= g' -> g <= g') /\
      (forall c p, 0 <= c < DIRTY_MEMORY_NUM -> 0 <= p < last_ram_offset (blocks rl') / 1024 ->
        dirty rl' c p = in_range (off / 1024) ((off + asize) / 1024) p ||
                        ((p <? last_ram_offset (blocks rl) / 1024) && dirty rl c p)) /\
      ram_ok (qemu_ram_free_from_ptr rl' off) /\ blocks (qemu_ram_free_from_ptr rl' off) ≡ₚ blocks rl
  | Err f => f = AssertFailed /\ blocks rl <> [] /\ forall r g, gap_at (blocks rl) r g -> g < asize
  end.
Proof.
  intros R Hs Hh asize. unfold qemu_ram_alloc_from_ptr. rewrite !shiftr_page, align_val by lia. fold asize.
  assert (0 < asize <= 2 ^ 64 - 1024) as Ha by (unfold asize; dlia).
  pose proof (ro_blocks _ R) as B.
  assert (match find_ram_offset (blocks rl) asize with
    | Ok r => free_at (blocks rl) r asize /\ r mod 1024 = 0 /\ (blocks rl = [] /\ r = 0 \/
        exists g, gap_at (blocks rl) r g /\ forall r' g', gap_at (blocks rl) r' g' -> asize <= g' -> g <= g')
    | Err f => f = AssertFailed /\ blocks rl <> [] /\ forall r g, gap_at (blocks rl) r g -> g < asize end) as F.
  { destruct (decide (blocks rl = [])) as [E|N].
    - rewrite E. unfold find_ram_offset. replace (asize =? 0) with false by (symmetry; apply Z.eqb_neq; lia). cbn [negb c_assert res_bind].
      split; [|split; [done|by left]]. split; [lia|]. split; [unfold RAM_ADDR_MAX; lia|]. intros c Hc. by apply not_elem_of_nil in Hc.
    - pose proof (find_ram_offset_spec (blocks rl) asize B N ltac:(lia)) as F. destruct (find_ram_offset _ _) as [r|f]; [|by destruct F].
      destruct F as [Fr (g & G & Gm)]. split; [done|]. split; [|right; by exists g].
      destruct G as (b & Hb & -> & _). pose proof (bk_each _ B) as E. rewrite Forall_forall in E. destruct (E b Hb) as [_ _ _ []].
      unfold end_of. dlia. }
  destruct (find_ram_offset (blocks rl) asize) as [off|f]; [|exact F]. cbn [res_bind]. destruct F as (Fr & Al & Best).
  pose (b := mkBlock mr (if host =? 0 then anon else host) off asize (negb (host =? 0))).
  match goal with |- context [res_bind ?x (fun new_block => _)] => assert (x = Ok b) as -> end.
  { unfold b. destruct (Z.eqb_spec host 0) as [->|]; [|done]. cbn [negb]. destruct (Z.eqb_spec anon 0); [lia|done]. }
  cbn [res_bind]. destruct (add_block_spec garbage rl R b) as (rl2 & rl3 & E2 & E3 & R3 & Eb & D).
  { destruct Fr as (? & ? & _). split; cbn; unfold end_of; cbn; [lia|lia|lia|]. split; [done|unfold asize; dlia]. }
  { done. }
  cbn [blocks]. rewrite shiftr_page, E2. cbn [res_bind]. change asize with (length b). change off with (offset b). rewrite E3. cbn [res_bind].
  split; [done|]. split; [done|]. split; [rewrite Eb; apply insert_block_perm|]. split; [exact Best|]. rewrite Eb. split; [exact D|].
  assert (b ∈ blocks rl3) as Hb by (rewrite Eb, insert_block_perm; by left).
  destruct (ram_free_spec rl3 b R3 Hb) as (R4 & P4 & _). split; [done|].
  rewrite Eb, insert_block_perm in P4. symmetry. by apply Permutation_cons_inv in P4.
Qed.

(** Two blocks of 64 KiB and 4 KiB with a free gap between them. *)
Definition sample_ram_list : RAMList :=
  mkRam (replicate 3 (replicate 2 0)) None
    [mkBlock 1 0x7f0000000000 0 0x10000 false; mkBlock 2 0x7f0000100000 0x14000 0x1000 false] 0.

Lemma sample_ram_list_ok : ram_ok sample_ram_list.
Proof.
  split; [split| |].
  - repeat constructor; cbn; unfold end_of, RAM_ADDR_MAX; cbn; lia.
  - repeat constructor. vm_compute. discriminate.
  - repeat constructor. vm_compute. discriminate.
  - done.
  - split; [done|]. repeat constructor; vm_compute; congruence.
Qed.

Lemma ram_alloc_correct_witness : exists rl', qemu_ram_alloc (fun _ _ => 7) 0x7f0000200000 sample_ram_list 0x800 3 = Ok (0x10000, rl') /\
  ram_ok rl'.
Proof.
  pose proof (ram_alloc_correct (fun _ _ => 7) 0x7f0000200000 sample_ram_list 0x800 0 3 sample_ram_list_ok ltac:(lia) ltac:(lia)) as H.
  cbv zeta in H. unfold qemu_ram_alloc. destruct (qemu_ram_alloc_from_ptr _ _ _ _ _ _) as [[off rl']|f] eqn:E.
  - exists rl'. destruct H as (_ & R & _). split; [|exact R]. vm_compute in E. injection E as <- <-. reflexivity.
  - vm_compute in E. discriminate E.
Defined.

(** Lookup of RAM addresses.  Whatever block was used last, the lookup of
    an address finds the one block that contains it and aborts exactly when
    there is none; the host pointer that [qemu_get_ram_ptr] computes leads back
    to the address with [qemu_ram_addr_from_host], as long as the host areas of
    the blocks do not overlap. *)
Theorem ram_ptr_roundtrip rl addr : ram_ok rl -> hosts_ok (blocks rl) -> 0 <= addr < 2 ^ 64 ->
  match qemu_get_ram_ptr rl addr with
  | Ok (ptr, rl') => exists b, b ∈ blocks rl /\ offset b <= addr < end_of b /\ ptr = host b + (addr - offset b) /\
      rl' = set_mru rl b /\ ram_ok rl' /\ qemu_ram_addr_from_host rl' ptr = Some (mr b, addr)
  | Err f => f = AssertFailed /\ forall b, b ∈ blocks rl -> ~ offset b <= addr < end_of b
  end.
Proof.
  intros R Ho Ha. unfold qemu_get_ram_ptr. rewrite get_ram_block_find by done.
  pose proof (bk_each _ (ro_blocks _ R)) as E. rewrite Forall_forall in E.
  destruct (List.find _ _) as [b|] eqn:F; cbn [res_bind].
  - apply List.find_some in F as [Hb%list_elem_of_In Hin]. rewrite in_block_val in Hin by auto. unfold end_of in *.
    assert (offset b <= addr < offset b + length b) as Hin' by (revert Hin; zcases; done || lia).
    destruct (Ho b b Hb Hb) as (H1 & H2 & _). assert (ram_ok (set_mru rl b)) as R' by (by apply set_mru_ok).
    exists b. split; [done|]. split; [done|]. rewrite uwrap_small by lia. split; [done|]. split; [done|]. split; [done|].
    apply from_host_spec; done.
  - split; [done|]. rewrite find_none_iff in F. intros b Hb Hin. specialize (F b Hb). rewrite in_block_val in F by auto.
    revert F. zcases; done || lia.
Qed.

Lemma ram_ptr_roundtrip_witness : exists rl', qemu_get_ram_ptr sample_ram_list 0x14010 = Ok (0x7f0000100010, rl') /\
  qemu_ram_addr_from_host rl' 0x7f0000100010 = Some (2, 0x14010).
Proof.
  pose proof (ram_ptr_roundtrip sample_ram_list 0x14010 sample_ram_list_ok) as H.
  destruct (qemu_get_ram_ptr sample_ram_list 0x14010) as [[ptr rl']|f] eqn:E; [|vm_compute in E; discriminate E].
  destruct H as (b & Hb & Hin & Ep & _ & _ & Eh); [|lia|].
  { intros b c Hb Hc. cbn in Hb, Hc. rewrite !elem_of_cons in Hb, Hc.
    destruct Hb as [->|[->|Hb%not_elem_of_nil]], Hc as [->|[->|Hc%not_elem_of_nil]]; cbn; try done; split_and!; lia || tauto || (right; lia). }
  vm_compute in E. injection E as <- <-. eexists. split; [reflexivity|]. vm_compute. reflexivity.
Defined.

(** The space before the lowest block is not used again: with one block from
    0x10000 to 0x20000, a block of 0x1000 bytes goes to 0x20000. *)
Theorem low_gap_ignored mr host resv : let b := mkBlock mr host 0x10000 0x10000 resv in
  free_at [b] 0 0x10000 /\ find_ram_offset [b] 0x1000 = Ok 0x20000.
Proof.
  split; [|reflexivity]. split; [lia|]. split; [unfold RAM_ADDR_MAX; lia|]. intros c ->%list_elem_of_singleton. right. cbn. lia.
Qed.
