(* ===== verification/DirtyTracking.v ===== *)
(** * Dirty tracking through the TLB ([exec.c], [cputlb.c])

    Migration, the display and the code cache rely on dirty bits: a page whose
    bit is clear must not be written without the bit being set.  Stores to a
    page that is dirty for all three clients go to host memory directly; for
    other pages the TLB entry has the flag [TLB_NOTDIRTY], which leads to the
    callback [notdirty_mem_write].  The invariant [tracked] says that no entry
    gives direct access to a page with a clear bit, and every operation on the
    bitmaps and the TLBs keeps it. *)

From stdpp Require Import base list numbers.
From S2P Require Import Prelude Int128 Bitops Bitmap PhysMap Dispatch RamList RamListFacts ArmMmu Cputlb CputlbFacts SoftMmu SoftMmuFacts.
Import RamList.

#[export] Instance RAMBlock_eq_dec : EqDecision RAMBlock.
Proof. solve_decision. Defined.

(** ** Operations *)

Definition tlb_reset_dirty_range_all (rl : RAMList) (tlbs : list CPUTLB) (start length : Z) : res (RAMList * list CPUTLB) :=
  let end_ := TARGET_PAGE_ALIGN (u64 (start + length)) in
  let start := page_base start in
  let* (block, rl) := qemu_get_ram_block rl start in
  let* (block', rl) := qemu_get_ram_block rl (u64 (end_ - 1)) in
  let* _ := c_assert (bool_decide (block = block')) in
  let start1 := u64 (host block + (start - offset block)) in
  Ok (rl, (fun t => cpu_tlb_reset_dirty_all t start1 length) <$> tlbs).

Definition cpu_physical_memory_reset_dirty (rl : RAMList) (tlbs : list CPUTLB) (start length client : Z) :
    res (RAMList * list CPUTLB) :=
  if length =? 0 then Ok (rl, tlbs) else
  let* rl := cpu_physical_memory_clear_dirty_range rl start length client in
  tlb_reset_dirty_range_all rl tlbs start length.

(** Writes to code are trapped from now on, and no longer. *)
Definition tlb_protect_code (rl : RAMList) (tlbs : list CPUTLB) (ram_addr : Z) : res (RAMList * list CPUTLB) :=
  cpu_physical_memory_reset_dirty rl tlbs ram_addr PhysMap.TARGET_PAGE_SIZE DIRTY_MEMORY_CODE.
Definition tlb_unprotect_code_phys (rl : RAMList) (ram_addr : Z) : res RAMList :=
  cpu_physical_memory_set_dirty_flag rl ram_addr DIRTY_MEMORY_CODE.

(** The code cache ([translate-all.c]): dropping the code of a range may set
    the bits for code of its pages and clears none. *)
Class CodeCache : Type := {
  tb_invalidate_phys_page : RAMList -> Z -> Z -> RAMList;
  tb_invalidate_ok : forall rl start len, ram_ok rl -> let rl' := tb_invalidate_phys_page rl start len in
    ram_ok rl' /\ blocks rl' = blocks rl /\
    forall c p, 0 <= c < DIRTY_MEMORY_NUM -> 0 <= p -> dirty rl c p = true -> dirty rl' c p = true
}.

Section Notdirty.
Context {W : Type} `{HostWorld W} `{CodeCache}.

(** [current_cpu] has the TLB [t]; [vaddr] is its [mem_io_vaddr]. *)
Definition notdirty_mem_write (w : W) (rl : RAMList) (t : CPUTLB) (vaddr ram_addr val size : Z) : res (W * RAMList * CPUTLB) :=
  let* code := cpu_physical_memory_get_dirty_flag rl ram_addr DIRTY_MEMORY_CODE in
  let rl := if negb code then tb_invalidate_phys_page rl ram_addr size else rl in
  let* _ := c_assert ((size =? 1) || (size =? 2) || (size =? 4)) in
  let* (ptr, rl) := qemu_get_ram_ptr rl ram_addr in
  let w := st_le (Z.to_nat size) w ptr val in
  let* rl := cpu_physical_memory_set_dirty_flag rl ram_addr DIRTY_MEMORY_MIGRATION in
  let* rl := cpu_physical_memory_set_dirty_flag rl ram_addr DIRTY_MEMORY_VGA in
  let* clean := cpu_physical_memory_is_clean rl ram_addr in
  let* t := if negb clean then tlb_set_dirty t vaddr else Ok t in
  Ok (w, rl, t).

(** Writes by devices. *)
Definition invalidate_and_set_dirty (rl : RAMList) (addr length : Z) : res RAMList :=
  let* clean := cpu_physical_memory_is_clean rl addr in
  if clean then
    let rl := tb_invalidate_phys_page rl addr length in
    let* rl := cpu_physical_memory_set_dirty_flag rl addr DIRTY_MEMORY_VGA in
    cpu_physical_memory_set_dirty_flag rl addr DIRTY_MEMORY_MIGRATION
  else Ok rl.
End Notdirty.

(** The table is filled with the bitmaps as they are. *)
Definition with_ram (mc : machine) (rl : RAMList) : machine :=
  mkMachine (dispatch mc) (region_size mc) (is_ram mc) (is_romd mc) (ram_ptr mc) (ram_addr mc)
    (fun addr => match cpu_physical_memory_is_clean rl addr with Ok b => b | Err _ => true end) (watchpoints mc).

(** ** The invariant *)

Definition page_dirty (rl : RAMList) (p : Z) : bool :=
  dirty rl DIRTY_MEMORY_VGA p && dirty rl DIRTY_MEMORY_CODE p && dirty rl DIRTY_MEMORY_MIGRATION p.

(** The host page of an entry. *)
Definition te_host (te : CPUTLBEntry) : Z := u64 (Z.land (addr_write te) TARGET_PAGE_MASK + addend te).

(** What an entry with direct access to RAM must satisfy. *)
Definition entry_tracked (rl : RAMList) (te : CPUTLBEntry) : Prop := tlb_is_dirty_ram te = true ->
  te_host te mod 1024 = 0 /\
  forall b off, b ∈ blocks rl -> 0 <= off < length b -> te_host te = host b + off ->
    page_dirty rl ((offset b + off) / 1024) = true.

Definition tracked (rl : RAMList) (t : CPUTLB) : Prop :=
  shape t /\ forall idx i te, 0 <= idx < 2 -> 0 <= i < 256 -> te_get t idx i = Ok te -> entry_tracked rl te.

(** Dirtier bitmaps over the same blocks. *)
Definition dirtier (rl rl' : RAMList) : Prop := blocks rl' = blocks rl /\
  forall c p, 0 <= c < DIRTY_MEMORY_NUM -> 0 <= p -> dirty rl c p = true -> dirty rl' c p = true.

Lemma page_dirty_mono rl rl' p : dirtier rl rl' -> 0 <= p -> page_dirty rl p = true -> page_dirty rl' p = true.
Proof.
  intros [_ D] Hp. unfold page_dirty. rewrite !andb_true_iff. intros [[H1 H2] H3].
  split; [split|]; apply D; done || (unfold DIRTY_MEMORY_NUM, DIRTY_MEMORY_VGA, DIRTY_MEMORY_CODE, DIRTY_MEMORY_MIGRATION; lia).
Qed.

Lemma entry_tracked_mono rl rl' te : ram_ok rl -> dirtier rl rl' -> entry_tracked rl te -> entry_tracked rl' te.
Proof.
  intros R D E Hd. destruct (E Hd) as [A P]. split; [done|]. destruct D as [Eb D]. rewrite Eb. intros b off Hb Ho Eh.
  destruct (block_of rl b R Hb).
  apply (page_dirty_mono rl); [done|dlia|]. by apply P.
Qed.

Lemma tracked_mono rl rl' t : ram_ok rl -> dirtier rl rl' -> tracked rl t -> tracked rl' t.
Proof. intros R D [S E]. split; [done|]. intros idx i te Hi Hj Et. eapply entry_tracked_mono; eauto. Qed.

Lemma no_entry_tracked rl : entry_tracked rl no_entry.
Proof. intros E. done. Qed.

(** ** Updates of the tables *)

Lemma tracked_entries rl t t' : tracked rl t -> shape t' ->
  (forall idx i te', 0 <= idx < 2 -> 0 <= i < 256 -> te_get t' idx i = Ok te' ->
     (exists te, te_get t idx i = Ok te /\ te' = te) \/ entry_tracked rl te') -> tracked rl t'.
Proof.
  intros [_ E] S H. split; [done|]. intros idx i te' Hi Hj Et. destruct (H idx i te' Hi Hj Et) as [(te & Ete & ->)|]; eauto.
Qed.

Lemma flush_tracked rl t : shape t -> tracked rl (tlb_flush t).
Proof.
  intros [S1 S2]. split; [split; [by apply fmap_rows|done]|]. intros idx i te _ _ Et.
  apply flush_get in Et as ->. apply no_entry_tracked.
Qed.

(** An update of one entry in each mode. *)
Lemma each_mode_tracked rl t j f : tracked rl t -> 0 <= j < 256 ->
  (forall idx te, 0 <= idx < 2 -> te_get t idx j = Ok te -> entry_tracked rl te -> entry_tracked rl (f te)) ->
  exists t', each_mode j f t = Ok t' /\ tracked rl t'.
Proof.
  intros [S E] Hj Hf. destruct (each_mode_spec t j f S Hj) as (t' & -> & S' & _ & G). exists t'. split; [done|].
  split; [done|]. intros idx i te Hi Hi' Et. destruct (rows_get _ idx i (proj1 S) Hi Hi') as [te0 E0].
  fold (te_get t idx i) in E0. rewrite (G idx i te0 Hi E0) in Et. injection Et as <-.
  destruct (Z.eqb_spec i j) as [->|]; eauto.
Qed.

Lemma flush_page_tracked rl t addr : tracked rl t -> exists t', tlb_flush_page t addr = Ok t' /\ tracked rl t'.
Proof.
  intros T. unfold tlb_flush_page. destruct (_ =? _); [eexists; split; [done|]; apply flush_tracked, T|].
  apply each_mode_tracked; [done|apply tlb_index_range|]. intros idx te _ _ Et. unfold tlb_flush_entry.
  destruct (_ || _); [apply no_entry_tracked|done].
Qed.

Lemma te_get_fmap f t idx i te' : te_get (mkTLB ((fun row : list CPUTLBEntry => f <$> row) <$> tlb_table t) (iotlb t) (tlb_flush_addr t) (tlb_flush_mask t)) idx i = Ok te' ->
  exists te, te_get t idx i = Ok te /\ te' = f te.
Proof.
  unfold te_get. cbn [tlb_table]. rewrite aget_fmap. destruct (aget (tlb_table t) idx) as [row|]; [|done]. cbn [res_map res_bind].
  rewrite aget_fmap. destruct (aget row i) as [te|]; [|done]. cbn [res_map]. intros [= <-]. by exists te.
Qed.

Lemma reset_all_shape t start len : shape t -> shape (cpu_tlb_reset_dirty_all t start len).
Proof. intros [S1 S2]. split; [by apply fmap_rows|done]. Qed.

(** What is left with direct access after a reset lies outside the range. *)
Lemma reset_range_direct te start len : tlb_is_dirty_ram (tlb_reset_dirty_range te start len) = true ->
  tlb_reset_dirty_range te start len = te /\ tlb_is_dirty_ram te = true /\ len <= u64 (te_host te - start).
Proof.
  unfold tlb_reset_dirty_range. destruct (tlb_is_dirty_ram te) eqn:D; [|by rewrite D].
  fold (te_host te). destruct (Z.ltb_spec (u64 (te_host te - start)) len); [|done].
  unfold tlb_is_dirty_ram. cbn [addr_write set_addr_write]. intros X%Z.eqb_eq. exfalso.
  apply (f_equal (fun v => Z.testbit v 4)) in X. rewrite Z.land_spec, Z.lor_spec in X.
  change (Z.testbit TLB_NOTDIRTY 4) with true in X. rewrite orb_true_r in X. done.
Qed.

(** ** The operations keep the invariant *)

(** The host areas are aligned to pages and do not overlap. *)
Definition hosts_aligned (rl : RAMList) : Prop :=
  hosts_ok (blocks rl) /\ forall b, b ∈ blocks rl -> host b mod 1024 = 0.

Lemma get_ram_block_in rl addr b : ram_ok rl -> b ∈ blocks rl -> offset b <= addr < end_of b ->
  qemu_get_ram_block rl addr = Ok (b, set_mru rl b).
Proof.
  intros R Hb Hin. destruct (block_of rl b R Hb) as [? ? He _]. unfold RAM_ADDR_MAX in He.
  assert (0 <= addr < 2 ^ 64) as Ha by lia. rewrite get_ram_block_find by done.
  rewrite (find_unique (in_block addr) (blocks rl) b); [done| |done|].
  - intros c Hc Ic. eapply block_unique; try done; [apply R|]. rewrite in_block_val by (done || by eapply block_of). zcases; done || lia.
  - rewrite in_block_val by (done || by eapply block_of). zcases; done || lia.
Qed.

Section Reset.
Variables (rl : RAMList) (tlbs : list CPUTLB) (start len client : Z) (b : RAMBlock).
Hypothesis Hrl : ram_ok rl.
Hypothesis Hhost : hosts_aligned rl.
Hypothesis Hc : 0 <= client < DIRTY_MEMORY_NUM.
Hypothesis Hb : b ∈ blocks rl.
Hypothesis Hin : offset b <= start /\ 0 < len /\ start + len <= end_of b.

(** The bits of the pages are cleared, and the TLBs lose the direct access to
    host addresses in a range of the same length. *)
Lemma reset_dirty_val : exists rl', cpu_physical_memory_reset_dirty rl tlbs start len client =
    Ok (rl', (fun t => cpu_tlb_reset_dirty_all t (host b + (1024 * (start / 1024) - offset b)) len) <$> tlbs) /\
  ram_ok rl' /\ blocks rl' = blocks rl /\
  forall c' p, 0 <= c' -> 0 <= p -> dirty rl' c' p =
    if (c' =? client) && in_range (start / 1024) ((start + len + 1023) / 1024) p then false else dirty rl c' p.
Proof.
  destruct (block_of rl b Hrl Hb) as [B1 B2 B3 [B4 B5]]. unfold end_of, RAM_ADDR_MAX in *.
  assert (offset b + length b <= 2 ^ 64 - 1024) as B3' by dlia.
  destruct (last_ram_offset_spec (blocks rl) (bk_each _ (ro_blocks _ Hrl))) as (_ & _ & L). specialize (L b Hb). unfold end_of in L.
  unfold cpu_physical_memory_reset_dirty. replace (len =? 0) with false by (symmetry; apply Z.eqb_neq; lia).
  destruct (clear_dirty_range_spec rl Hrl start len client Hc) as (rl1 & -> & R1 & E1 & _ & D1); [lia|lia|lia|]. cbn [res_bind].
  unfold tlb_reset_dirty_range_all. rewrite page_base_val, (uwrap_small 64 (start + len)), align_val by lia.
  rewrite (uwrap_small 64 (1024 * _ - 1)) by dlia. assert (b ∈ blocks rl1) as Hb1 by (by rewrite E1).
  rewrite (get_ram_block_in rl1 _ b R1 Hb1) by (unfold end_of; dlia). cbn [res_bind].
  assert (ram_ok (set_mru rl1 b)) as R2 by (by apply set_mru_ok).
  rewrite (get_ram_block_in (set_mru rl1 b) _ b R2 Hb1) by (unfold end_of; dlia). cbn [res_bind].
  rewrite bool_decide_eq_true_2 by done. cbn [c_assert res_bind]. destruct Hhost as [Ho _]. destruct (Ho b b Hb Hb) as (H1 & H2 & _).
  rewrite uwrap_small by dlia. eexists. split; [done|]. split; [by apply set_mru_ok|]. by split.
Qed.

(** With a page-aligned start that is enough. *)
Lemma reset_dirty_tracked : start mod 1024 = 0 -> Forall (tracked rl) tlbs ->
  exists rl' tlbs', cpu_physical_memory_reset_dirty rl tlbs start len client = Ok (rl', tlbs') /\
    ram_ok rl' /\ blocks rl' = blocks rl /\ Forall (tracked rl') tlbs' /\
    forall c' p, 0 <= c' -> 0 <= p -> dirty rl' c' p =
      if (c' =? client) && in_range (start / 1024) ((start + len + 1023) / 1024) p then false else dirty rl c' p.
Proof.
  intros Hs T. destruct reset_dirty_val as (rl' & -> & R' & Eb & D). eexists _, _. split; [done|]. split; [done|]. split; [done|].
  split; [|done]. apply Forall_fmap. revert T. apply Forall_impl. intros t [S E]. split; [by apply reset_all_shape|].
  intros idx i te' Hi Hj Et. apply te_get_fmap in Et as (te & Ete & ->). intros Hd.
  destruct (reset_range_direct te _ len Hd) as (-> & Hd' & Hout). destruct (E idx i te Hi Hj Ete Hd') as [Al P]. split; [done|].
  rewrite Eb. intros c off Hcc Hoff Eh. specialize (P c off Hcc Hoff Eh).
  destruct (block_of rl b Hrl Hb) as [B1 B2 B3 [B4 B5]]. destruct (block_of rl c Hrl Hcc) as [C1 C2 C3 [C4 C5]].
  destruct Hhost as [Ho Ha]. destruct (Ho b c Hb Hcc) as (H1 & H2 & Hbc). pose proof (Ha b Hb). pose proof (Ha c Hcc).
  destruct (Ho c c Hcc Hcc) as (H3 & H4 & _).
  unfold end_of, RAM_ADDR_MAX in *. set (p := (offset c + off) / 1024) in *.
  assert (0 <= p) as Hp0 by (unfold p; dlia).
  assert (in_range (start / 1024) ((start + len + 1023) / 1024) p = false) as Out.
  { apply not_true_is_false. intros Hr. unfold in_range in Hr. assert (start / 1024 <= p < (start + len + 1023) / 1024) as Hr' by lia.
    assert (off mod 1024 = 0) as Hoff0 by dlia. assert (offset c + off = 1024 * p) as Ep by (unfold p; dlia).
    destruct (apart_in (blocks rl) b c (bk_apart _ (ro_blocks _ Hrl)) Hb Hcc) as [<-|Ap].
    - replace (1024 * (start / 1024)) with start in Hout by dlia. rewrite Eh in Hout.
      replace (host b + off - (host b + (start - offset b))) with (offset b + off - start) in Hout by lia.
      rewrite uwrap_small in Hout by dlia. dlia.
    - unfold apart, end_of in Ap. dlia. }
  unfold page_dirty in *. rewrite !D by (done || (unfold DIRTY_MEMORY_VGA, DIRTY_MEMORY_CODE, DIRTY_MEMORY_MIGRATION; lia)).
  by rewrite Out, !andb_false_r.
Qed.
End Reset.

Lemma dirtier_refl rl : dirtier rl rl.
Proof. done. Qed.

Lemma dirtier_trans rl1 rl2 rl3 : dirtier rl1 rl2 -> dirtier rl2 rl3 -> dirtier rl1 rl3.
Proof. intros [E1 D1] [E2 D2]. split; [congruence|]. auto. Qed.

Lemma set_flag_dirtier rl addr c : ram_ok rl -> 0 <= c < DIRTY_MEMORY_NUM -> 0 <= addr < last_ram_offset (blocks rl) ->
  exists rl', cpu_physical_memory_set_dirty_flag rl addr c = Ok rl' /\ ram_ok rl' /\ dirtier rl rl' /\ dirty rl' c (addr / 1024) = true.
Proof.
  intros R Hc Ha. destruct (set_dirty_flag_spec rl R addr c Hc Ha) as (rl' & E & R' & Eb & D). exists rl'. split; [done|]. split; [done|].
  split; [split; [done|]|rewrite D by dlia; by rewrite !Z.eqb_refl].
  intros c' p Hc' Hp Hd. rewrite D, Hd by lia. apply orb_true_r.
Qed.

(** An entry whose host page is a page of [b] that is dirty for all clients. *)
Lemma entry_tracked_at rl te b off : hosts_aligned rl -> b ∈ blocks rl -> 0 <= off < length b -> off mod 1024 = 0 ->
  te_host te = host b + off -> page_dirty rl ((offset b + off) / 1024) = true -> entry_tracked rl te.
Proof.
  intros [Ho Ha] Hb Hoff H0 Eh Hd _. pose proof (Ha b Hb). split; [rewrite Eh; dlia|]. intros c off' Hc Hoff' Eh'.
  destruct (Ho c b Hc Hb) as (_ & _ & [->|[|]]); [|lia|lia]. by replace off' with off by lia.
Qed.

Section Write.
Context {W : Type} `{HostWorld W} `{CodeCache}.

(** The entries of the virtual page that are waiting for the callback, in
    either mode, lead to the RAM page that is written.  [tlb_set_dirty] makes
    all of them direct and does not check this; it holds for a coherent TLB,
    since the frame of a walk does not depend on the mode ([coherent_waits] in
    [DirtyClaims]), and where it fails a write can be lost ([two_frames_lose_writes]). *)
Definition waits_for (t : CPUTLB) (vaddr hpage : Z) : Prop := forall idx te, 0 <= idx < 2 ->
  te_get t idx (tlb_index (Z.land vaddr TARGET_PAGE_MASK)) = Ok te ->
  addr_write te = Z.lor (Z.land vaddr TARGET_PAGE_MASK) TLB_NOTDIRTY -> te_host te = hpage.

Lemma set_dirty_tracked rl t vaddr b off : hosts_aligned rl -> tracked rl t -> b ∈ blocks rl -> 0 <= off < length b -> off mod 1024 = 0 ->
  page_dirty rl ((offset b + off) / 1024) = true -> waits_for t vaddr (host b + off) ->
  exists t', tlb_set_dirty t vaddr = Ok t' /\ tracked rl t'.
Proof.
  intros Ha T Hb Hoff Hz Hd Hw. unfold tlb_set_dirty. apply each_mode_tracked; [done|apply tlb_index_range|].
  intros idx te Hi Et Ek. unfold tlb_set_dirty1. set (v := Z.land vaddr TARGET_PAGE_MASK) in *.
  destruct (Z.eqb_spec (addr_write te) (Z.lor v TLB_NOTDIRTY)) as [Ew|]; [|done].
  apply (entry_tracked_at rl _ b off); try done. rewrite <- (Hw idx te Hi Et Ew). unfold te_host. cbn [addr_write addend set_addr_write].
  rewrite Ew, Z.land_lor_distr_l. change (Z.land TLB_NOTDIRTY TARGET_PAGE_MASK) with 0. by rewrite Z.lor_0_r.
Qed.

Lemma notdirty_write_tracked (w : W) rl t vaddr addr val size b : ram_ok rl -> hosts_aligned rl -> tracked rl t ->
  b ∈ blocks rl -> offset b <= addr < end_of b -> size = 1 \/ size = 2 \/ size = 4 ->
  waits_for t vaddr (host b + (1024 * (addr / 1024) - offset b)) ->
  exists rl' t', notdirty_mem_write w rl t vaddr addr val size =
      Ok (st_le (Z.to_nat size) w (host b + (addr - offset b)) val, rl', t') /\
    ram_ok rl' /\ dirtier rl rl' /\ tracked rl' t' /\
    dirty rl' DIRTY_MEMORY_MIGRATION (addr / 1024) = true /\ dirty rl' DIRTY_MEMORY_VGA (addr / 1024) = true.
Proof.
  intros R Hh T Hb Hin Hs Hw. destruct (block_of rl b R Hb) as [B1 B2 B3 [B4 B5]].
  destruct (last_ram_offset_spec (blocks rl) (bk_each _ (ro_blocks _ R))) as (_ & _ & L). specialize (L b Hb).
  unfold notdirty_mem_write.
  destruct (get_dirty_spec rl R addr 1 DIRTY_MEMORY_CODE ltac:(done) ltac:(lia) ltac:(lia) ltac:(lia)) as (code & Ec & _).
  unfold cpu_physical_memory_get_dirty_flag. rewrite Ec. cbn [res_bind].
  set (rl1 := if negb code then _ else _).
  assert (ram_ok rl1 /\ dirtier rl rl1) as [R1 D1].
  { unfold rl1. destruct (negb code); [|done]. destruct (tb_invalidate_ok rl addr size R) as (? & ? & ?). done. }
  assert ((size =? 1) || (size =? 2) || (size =? 4) = true) as -> by (destruct Hs as [->|[->| ->]]; done). cbn [c_assert res_bind].
  unfold qemu_get_ram_ptr. assert (b ∈ blocks rl1) as Hb1 by (by rewrite (proj1 D1)).
  rewrite (get_ram_block_in rl1 addr b R1 Hb1 Hin). cbn [res_bind]. destruct Hh as [Ho Hal]. destruct (Ho b b Hb Hb) as (Hh1 & Hh2 & _).
  unfold end_of in *. rewrite uwrap_small by lia.
  assert (ram_ok (set_mru rl1 b)) as R2 by (by apply set_mru_ok).
  assert (addr < last_ram_offset (blocks rl1)) as Ha by (rewrite (proj1 D1); lia).
  destruct (set_flag_dirtier (set_mru rl1 b) addr DIRTY_MEMORY_MIGRATION R2 ltac:(done)) as (rl3 & -> & R3 & D3 & F3); [change (blocks (set_mru rl1 b)) with (blocks rl1); lia|]. cbn [res_bind].
  assert (addr < last_ram_offset (blocks rl3)) as Ha3 by (rewrite (proj1 D3); done).
  destruct (set_flag_dirtier rl3 addr DIRTY_MEMORY_VGA R3 ltac:(done)) as (rl4 & -> & R4 & D4 & F4); [lia|]. cbn [res_bind].
  assert (addr < last_ram_offset (blocks rl4)) as Ha4 by (rewrite (proj1 D4); done).
  rewrite is_clean_spec by (done || lia). cbn [res_bind]. rewrite negb_involutive. fold (page_dirty rl4 (addr / 1024)).
  assert (dirtier rl rl4) as D by (eapply dirtier_trans; [exact D1|]; eapply dirtier_trans; [exact D3|exact D4]).
  assert (tracked rl4 t) as T4 by (eapply tracked_mono; [exact R|exact D|done]).
  assert (dirty rl4 DIRTY_MEMORY_MIGRATION (addr / 1024) = true) as F4' by (apply D4; [done|dlia|done]).
  destruct (page_dirty rl4 (addr / 1024)) eqn:Pd.
  - destruct (set_dirty_tracked rl4 t vaddr b (1024 * (addr / 1024) - offset b)) as (t' & -> & T'); try done.
    + split; rewrite (proj1 D); done.
    + by rewrite (proj1 D).
    + dlia.
    + dlia.
    + by replace ((offset b + (1024 * (addr / 1024) - offset b)) / 1024) with (addr / 1024) by dlia.
    + cbn [res_bind]. by exists rl4, t'.
  - cbn [res_bind]. by exists rl4, t.
Qed.
End Write.

(** ** Filling *)

(** A RAM region lies in its block, and the pages of its sections in it. *)
Definition regions_backed (mc : machine) (rl : RAMList) : Prop := forall p size n xlat sz s,
  0 <= p < 2 ^ 40 -> p mod 1024 = 0 -> address_space_translate_for_iotlb mc p size = Ok (n, xlat, sz) ->
  aget (sections (PhysMap.map (dispatch mc))) n = Ok s -> is_ram mc (sec_mr s) = true ->
  exists b, b ∈ blocks rl /\ ram_addr mc (sec_mr s) = offset b /\ ram_ptr mc (sec_mr s) = host b /\
    0 <= xlat /\ xlat + 1024 <= length b /\ xlat mod 1024 = 0.

(** A dispatch whose RAM sections lie at page-aligned distances in one block. *)
Lemma backed_by_block mc rl b : (forall p, 0 <= p < 2 ^ 64 -> p mod 1024 = 0 -> looks_up_page (dispatch mc) p 1024) -> b ∈ blocks rl ->
  (forall n s, aget (sections (PhysMap.map (dispatch mc))) n = Ok s -> is_ram mc (sec_mr s) = true ->
     (exists id, sec_mr s = GuestMR id) /\ (offset_within_region s - offset_within_address_space s) mod 1024 = 0 /\
     0 <= offset_within_region s /\ offset_within_region s + Int128.val (sec_size s) <= length b /\
     ram_addr mc (sec_mr s) = offset b /\ ram_ptr mc (sec_mr s) = host b) ->
  length b < 2 ^ 64 -> regions_backed mc rl.
Proof.
  intros L Hb A Hlen p size n xlat sz s Hp Hp0 Et Es Hr. destruct (A n s Es Hr) as ([id Em] & A1 & A2 & A3 & A4 & A5).
  exists b. split; [done|]. split; [done|]. split; [done|].
  unfold address_space_translate_for_iotlb, address_space_translate_internal in Et.
  destruct (L p ltac:(lia) Hp0) as (n' & s' & El & Es' & _ & Ps). rewrite El in Et. cbn [res_bind] in Et.
  rewrite Es' in Et. cbn [res_bind] in Et. apply bind_Ok in Et as (sz' & _ & Et). injection Et as <- <- _.
  rewrite Es in Es'. injection Es' as <-. destruct Ps as [|m s So Hin|m k]; [done| |done].
  pose proof (Hin p eq_refl) as I1. pose proof (Hin (p + 1023) ltac:(dlia)) as I2. unfold in_section in I1, I2.
  pose proof (so_start _ So). rewrite (uwrap_small 64 (p - _)), uwrap_small by lia.
  split; [lia|]. split; [lia|]. replace (p - offset_within_address_space s + offset_within_region s)
    with (p + (offset_within_region s - offset_within_address_space s)) by lia.
  rewrite Z.add_mod, Hp0, A1 by lia. done.
Qed.

Lemma entry_direct mc vaddr paddr prot n xlat s te io : 0 <= vaddr < 2 ^ 32 -> vaddr mod 1024 = 0 ->
  tlb_entry_for mc vaddr paddr prot n xlat s = (te, io) -> tlb_is_dirty_ram te = true ->
  is_ram mc (sec_mr s) = true /\ is_clean mc (u64 (ram_addr mc (sec_mr s) + xlat)) = false /\
  te_host te = u64 (ram_ptr mc (sec_mr s) + xlat).
Proof.
  intros Hv H0 E D. destruct (entry_fields _ _ _ _ _ _ _ _ _ E) as (_ & Ew & _). unfold tlb_is_dirty_ram in D. rewrite Ew in D.
  change (Z.lor (Z.lor TLB_INVALID_MASK TLB_MMIO) TLB_NOTDIRTY) with 56 in D.
  destruct (Z.testbit prot 1); [|done].
  assert (Z.land vaddr 56 = 0) as V56 by (change 56 with (Z.land 1023 56); rewrite Z.land_assoc, aligned_land by done; done).
  rewrite Z.land_lor_distr_l, V56, Z.lor_0_l in D.
  assert (is_ram mc (sec_mr s) = true /\ is_clean mc (u64 (ram_addr mc (sec_mr s) + xlat)) = false /\ write_flags mc vaddr prot xlat s = 0)
    as (Hr & Hc & Hf).
  { unfold write_flags, read_flags in *. destruct (watched mc vaddr prot), (is_ram mc (sec_mr s)), (is_romd mc (sec_mr s)),
      (sec_readonly s), (is_clean mc _); cbn [andb orb] in *; done. }
  split; [done|]. split; [done|]. unfold te_host. rewrite Ew, Hf, Z.lor_0_r, aligned_page by done.
  assert (addend te = u64 (u64 (ram_ptr mc (sec_mr s) + xlat) - vaddr)) as ->.
  { unfold tlb_entry_for, memory_region_section_get_iotlb in E. rewrite Hr in E. cbn [orb andb] in E.
    destruct (watched mc vaddr prot); injection E as <- _; done. }
  destruct (uwrap_sub_multiple 64 (ram_ptr mc (sec_mr s) + xlat) ltac:(lia)) as [k Ek]. rewrite Ek.
  destruct (uwrap_sub_multiple 64 (ram_ptr mc (sec_mr s) + xlat + k * 2 ^ 64 - vaddr) ltac:(lia)) as [j ->].
  rewrite <- Ek. transitivity (u64 (u64 (ram_ptr mc (sec_mr s) + xlat))).
  - apply uwrap_eq_mod with (k := j); lia.
  - apply uwrap_idem. lia.
Qed.

Lemma set_page_tracked mc rl t vaddr paddr prot idx size t' : ram_ok rl -> hosts_aligned rl -> regions_backed mc rl -> tracked rl t ->
  0 <= vaddr < 2 ^ 32 -> vaddr mod 1024 = 0 -> 0 <= paddr < 2 ^ 40 -> paddr mod 1024 = 0 -> 0 <= idx < 2 ->
  tlb_set_page (with_ram mc rl) t vaddr paddr prot idx size = Ok t' -> tracked rl t'.
Proof.
  intros R Hh Bk [S T] Hv H0 Hp Hp0 Hi E. unfold tlb_set_page in E. apply bind_Ok in E as (? & _ & E). apply bind_Ok in E as (t1 & Et1 & E).
  assert (tlb_table t1 = tlb_table t /\ iotlb t1 = iotlb t) as [Tt Ti].
  { destruct (negb _); [|by injection Et1 as ->]. unfold tlb_add_large_page in Et1. destruct (_ =? _); [by injection Et1 as <-|].
    apply bind_Ok in Et1 as (? & _ & Et1). by injection Et1 as <-. }
  apply bind_Ok in E as ([[n xlat] sz] & Etr & E). apply bind_Ok in E as (? & _ & E). apply bind_Ok in E as (s & Es & E).
  destruct (tlb_entry_for _ vaddr paddr prot n xlat s) as [te io] eqn:Ete.
  pose proof (tlb_index_range vaddr) as Hx. assert (shape t1) as S1 by (unfold shape; by rewrite Tt, Ti).
  destruct (rows_set (iotlb t1) idx (tlb_index vaddr) io (proj2 S1) Hi Hx) as (r & r' & ios & E1 & E2 & E3 & Rw & _).
  rewrite E1 in E. cbn [res_bind] in E. rewrite E2 in E. cbn [res_bind] in E. rewrite E3 in E. cbn [res_bind] in E.
  destruct (te_set_spec t1 idx (tlb_index vaddr) te S1 Hi Hx) as (t2 & Et2 & S2 & _ & G2). rewrite Et2 in E. cbn [res_bind] in E.
  injection E as <-. split; [by destruct S2|]. intros idx' i' te' Hi' Hj' Eg. change (te_get t2 idx' i' = Ok te') in Eg.
  rewrite G2 in Eg. destruct (_ && _); [injection Eg as <-|unfold te_get in Eg; rewrite Tt in Eg; by eapply T].
  intros Hd. destruct (entry_direct _ _ _ _ _ _ _ _ _ Hv H0 Ete Hd) as (Hr & Hc & Eh).
  cbn [is_ram with_ram] in Hr. destruct (Bk paddr size n xlat sz s Hp Hp0 Etr Es Hr) as (b & Hb & Ea & Ep & X1 & X2 & X3).
  cbn [ram_ptr ram_addr with_ram is_clean] in Eh, Hc. rewrite Ep in Eh. rewrite Ea in Hc.
  destruct (block_of rl b R Hb) as [B1 B2 B3 [B4 B5]]. unfold end_of, RAM_ADDR_MAX in *.
  destruct (last_ram_offset_spec (blocks rl) (bk_each _ (ro_blocks _ R))) as (_ & _ & L). specialize (L b Hb). unfold end_of in L.
  rewrite uwrap_small in Hc by lia. rewrite is_clean_spec in Hc by (done || lia). apply negb_false_iff in Hc.
  destruct Hh as [Ho Hal]. destruct (Ho b b Hb Hb) as (Hh1 & Hh2 & _). rewrite uwrap_small in Eh by lia.
  apply (entry_tracked_at rl te b xlat); try done. lia.
Qed.

(** ** Runs *)

(** The bitmaps and the TLBs of all CPUs. *)
Record memory_state : Type := mkState { ram : RAMList; tlbs : list CPUTLB }.

Section Runs.
Context {W : Type} `{HostWorld W} `{CodeCache}.
Variable mc : machine.

(** What changes them: a CPU fills or flushes its TLB, a client clears dirty
    bits of a range inside one block (from a page boundary on), a bit is set, a
    device writes, a CPU writes to a page that is not dirty by an address whose
    entries in both modes lead to that page. *)
Inductive dstep : memory_state -> memory_state -> Prop :=
| ds_fill rl ts k t vaddr paddr prot idx size t' :
    ts !! k = Some t -> 0 <= vaddr < 2 ^ 32 -> vaddr mod 1024 = 0 -> 0 <= paddr < 2 ^ 40 -> paddr mod 1024 = 0 -> 0 <= idx < 2 ->
    tlb_set_page (with_ram mc rl) t vaddr paddr prot idx size = Ok t' ->
    dstep (mkState rl ts) (mkState rl (<[k := t']> ts))
| ds_flush rl ts k t : ts !! k = Some t -> dstep (mkState rl ts) (mkState rl (<[k := tlb_flush t]> ts))
| ds_flush_page rl ts k t addr t' : ts !! k = Some t -> tlb_flush_page t addr = Ok t' ->
    dstep (mkState rl ts) (mkState rl (<[k := t']> ts))
| ds_reset rl ts start len client b rl' ts' :
    0 <= client < DIRTY_MEMORY_NUM -> start mod 1024 = 0 ->
    b ∈ blocks rl -> offset b <= start /\ 0 < len /\ start + len <= end_of b ->
    cpu_physical_memory_reset_dirty rl ts start len client = Ok (rl', ts') ->
    dstep (mkState rl ts) (mkState rl' ts')
| ds_set_flag rl ts addr client rl' : 0 <= client < DIRTY_MEMORY_NUM -> 0 <= addr < last_ram_offset (blocks rl) ->
    cpu_physical_memory_set_dirty_flag rl addr client = Ok rl' -> dstep (mkState rl ts) (mkState rl' ts)
| ds_device rl ts addr len rl' : 0 <= addr < last_ram_offset (blocks rl) ->
    invalidate_and_set_dirty rl addr len = Ok rl' -> dstep (mkState rl ts) (mkState rl' ts)
| ds_write (w w' : W) rl ts k t vaddr addr val size b rl' t' :
    ts !! k = Some t -> b ∈ blocks rl -> offset b <= addr < end_of b -> size = 1 \/ size = 2 \/ size = 4 ->
    waits_for t vaddr (host b + (1024 * (addr / 1024) - offset b)) ->
    notdirty_mem_write w rl t vaddr addr val size = Ok (w', rl', t') ->
    dstep (mkState rl ts) (mkState rl' (<[k := t']> ts)).

Record sound (s : memory_state) : Prop := {
  sn_ram : ram_ok (ram s);
  sn_hosts : hosts_aligned (ram s);
  sn_backed : regions_backed mc (ram s);
  sn_tracked : Forall (tracked (ram s)) (tlbs s)
}.

Lemma hosts_aligned_blocks rl rl' : blocks rl' = blocks rl -> hosts_aligned rl -> hosts_aligned rl'.
Proof. intros E [Ho Ha]. split; by rewrite E. Qed.

Lemma backed_blocks rl rl' : blocks rl' = blocks rl -> regions_backed mc rl -> regions_backed mc rl'.
Proof. intros E B p size n xlat sz s Hp Hp0 Et Es Hr. rewrite E. by eapply B. Qed.

Lemma sound_dirtier rl rl' ts : sound (mkState rl ts) -> ram_ok rl' -> dirtier rl rl' -> sound (mkState rl' ts).
Proof.
  intros [R Hh Bk T] R' D. cbn [ram tlbs] in *.
  split; [done|by eapply hosts_aligned_blocks; [apply D|]|by eapply backed_blocks; [apply D|]|].
  revert T. apply Forall_impl. intros t. by apply tracked_mono.
Qed.

Lemma sound_tlb rl ts k t : sound (mkState rl ts) -> tracked rl t -> sound (mkState rl (<[k := t]> ts)).
Proof. intros [R Hh Bk T] Ht. split; try done. by apply Forall_insert. Qed.

Lemma sound_get rl ts k t : sound (mkState rl ts) -> ts !! k = Some t -> tracked rl t.
Proof. intros [_ _ _ T] E. by apply (Forall_lookup_1 _ _ _ _ T E). Qed.

Lemma device_write_marks rl addr len : ram_ok rl -> 0 <= addr < last_ram_offset (blocks rl) ->
  exists rl', invalidate_and_set_dirty rl addr len = Ok rl' /\ ram_ok rl' /\ dirtier rl rl' /\
    dirty rl' DIRTY_MEMORY_VGA (addr / 1024) = true /\ dirty rl' DIRTY_MEMORY_MIGRATION (addr / 1024) = true.
Proof.
  intros R Ha. unfold invalidate_and_set_dirty. rewrite is_clean_spec by done. cbn [res_bind].
  destruct (_ && _ && _) eqn:Ed; cbn [negb].
  - apply andb_prop in Ed as [[Hv Hc]%andb_prop Hm]. by exists rl.
  - destruct (tb_invalidate_ok rl addr len R) as (R1 & E1 & D1). set (rl1 := tb_invalidate_phys_page rl addr len) in *.
    destruct (set_flag_dirtier rl1 addr DIRTY_MEMORY_VGA R1 ltac:(done)) as (rl2 & -> & R2 & D2 & F2); [by rewrite E1|]. cbn [res_bind].
    destruct (set_flag_dirtier rl2 addr DIRTY_MEMORY_MIGRATION R2 ltac:(done)) as (rl3 & -> & R3 & D3 & F3); [by rewrite (proj1 D2), E1|].
    exists rl3. split; [done|]. split; [done|]. split; [|split; [apply D3; [done|dlia|done]|done]].
    eapply dirtier_trans; [split; [exact E1|exact D1]|]. by eapply dirtier_trans.
Qed.

Lemma step_sound s s' : sound s -> dstep s s' -> sound s'.
Proof.
  intros Hs St. destruct St as [rl ts k t va pa prot idx size t' Ek Hv Hv0 Hp Hp0 Hi E|rl ts k t Ek|rl ts k t addr t' Ek E|
    rl ts start len client b rl' ts' Hc Ha Hb Hin E|rl ts addr client rl' Hc Ha E|rl ts addr len rl' Ha E|
    w w' rl ts k t va addr val size b rl' t' Ek Hb Hin Hz Hw E];
    pose proof Hs as [R Hh Bk T]; cbn [ram tlbs] in *.
  - apply sound_tlb; [done|]. eapply (set_page_tracked mc rl t); try done. by eapply sound_get.
  - apply sound_tlb; [done|]. apply flush_tracked. by destruct (sound_get _ _ _ _ Hs Ek).
  - apply sound_tlb; [done|]. destruct (flush_page_tracked rl t addr) as (t2 & E2 & T2); [by eapply sound_get|]. congruence.
  - destruct (reset_dirty_tracked rl ts start len client b R Hh Hc Hb Hin Ha T) as (rl2 & ts2 & E2 & R2 & Eb & T2 & _).
    rewrite E2 in E. injection E as <- <-.
    split; [done|by eapply hosts_aligned_blocks|by eapply backed_blocks|done].
  - destruct (set_flag_dirtier rl addr client R Hc Ha) as (rl2 & E2 & R2 & D2 & _). rewrite E2 in E. injection E as <-.
    by apply (sound_dirtier rl).
  - destruct (device_write_marks rl addr len R Ha) as (rl2 & E2 & R2 & D2 & _). rewrite E2 in E. injection E as <-. by apply (sound_dirtier rl).
  - destruct (notdirty_write_tracked w rl t va addr val size b R Hh) as (rl2 & t2 & E2 & R2 & D2 & T2 & _); try done;
      [by eapply sound_get|]. rewrite E2 in E. injection E as _ <- <-.
    apply sound_tlb; [|done]. by apply (sound_dirtier rl).
Qed.

(** A store that goes to host memory directly. *)
Definition direct_store (s : memory_state) (b : RAMBlock) (off : Z) : Prop :=
  exists t idx i te addr, t ∈ tlbs s /\ 0 <= idx < 2 /\ 0 <= i < 256 /\ te_get t idx i = Ok te /\ 0 <= addr < 2 ^ 32 /\
    tlb_hit te addr 1 = true /\ Z.land (tlb_addr te 1) (TARGET_PAGE_SIZE - 1) = 0 /\
    b ∈ blocks (ram s) /\ 0 <= off < length b /\ u64 (addr + addend te) = host b + off.

Lemma direct_store_dirty s b off : sound s -> direct_store s b off -> page_dirty (ram s) ((offset b + off) / 1024) = true.
Proof.
  intros [R Hh Bk T] (t & idx & i & te & addr & Ht & Hi & Hj & Et & Ha & Hhit & Hflags & Hb & Ho & Eh).
  change (tlb_addr te 1) with (addr_write te) in *. unfold tlb_hit in Hhit. change (tlb_addr te 1) with (addr_write te) in Hhit.
  apply Z.eqb_eq in Hhit. change (TARGET_PAGE_SIZE - 1) with 1023 in Hflags.
  assert (forall x, Z.land 1023 x = x -> Z.land (addr_write te) x = 0) as Low by (intros x <-; by rewrite Z.land_assoc, Hflags).
  assert (tlb_is_dirty_ram te = true) as Hd by (unfold tlb_is_dirty_ram; rewrite Low by done; done).
  rewrite Z.land_lor_distr_r, (Low TLB_INVALID_MASK), Z.lor_0_r in Hhit by done.
  rewrite list_elem_of_lookup in Ht. destruct Ht as [k Ek]. destruct (sound_get (ram s) (tlbs s) k t) as [_ E]; [by destruct s|done|].
  destruct (E idx i te Hi Hj Et Hd) as [Al P]. destruct Hh as [Hho Hal]. destruct (Hho b b Hb Hb) as (H1 & H2 & _). pose proof (Hal b Hb) as Hb0.
  destruct (block_of _ b R Hb) as [B1 B2 B3 [B4 B5]].
  unfold te_host in *. rewrite <- Hhit in *. change TARGET_PAGE_MASK with 0xfffffc00 in *. fold (ArmMmuFacts.page_of addr) in *.
  rewrite ArmMmuFacts.page_of_val in * by done. pose proof (Z.mod_pos_bound addr 1024 ltac:(lia)) as Hm.
  assert (host b + off = u64 (addr - addr mod 1024 + addend te) + addr mod 1024) as Es.
  { rewrite <- Eh. pose proof (uwrap_range 64 (addr - addr mod 1024 + addend te) ltac:(lia)) as Ur.
    rewrite <- (uwrap_small 64 (u64 (addr - addr mod 1024 + addend te) + addr mod 1024)) by (change (2 ^ 64) with (1024 * 2 ^ 54) in *; dlia).
    destruct (uwrap_sub_multiple 64 (addr - addr mod 1024 + addend te) ltac:(lia)) as [j ->]. symmetry.
    apply uwrap_eq_mod with (k := j); lia. }
  replace ((offset b + off) / 1024) with ((offset b + (off - addr mod 1024)) / 1024) by dlia.
  apply P; [done|dlia|lia].
Qed.
End Runs.
