(* ===== verification/DirtyClaims.v ===== *)
(** * Dirty tracking: claims

    Soundness of dirty tracking over every run of the operations on the bitmaps
    and the TLBs, the unaligned reset and the mode-dependent frames that break
    it. *)

From stdpp Require Import base list numbers relations.
From S2P Require Import Prelude Int128 FlatView Topology PhysMap Dispatch RamList RamListFacts.
From S2P Require Import ArmMmu ArmMmuFacts Cputlb CputlbFacts SoftMmu SoftMmuFacts SoftMmuRefine SoftMmuClaims DirtyTracking.
Import RamList.

(** ** An example: the board of [SoftMmuClaims] with its RAM *)

Definition board_ram : RAMBlock := mkBlock 2 0x7f0000000000 0 0x4000 false.
Definition board_ram_list : RAMList := mkRam (replicate 3 [0xffff]) None [board_ram] 0.
Definition board_state : memory_state := mkState board_ram_list [empty_tlb].

(** No code is cached. *)
#[export] Instance no_code : CodeCache := {
  tb_invalidate_phys_page := fun rl _ _ => rl;
  tb_invalidate_ok := fun rl _ _ R => conj R (conj eq_refl (fun _ _ _ _ D => D))
}.

Lemma board_ram_list_ok : ram_ok board_ram_list.
Proof.
  split; [split| |].
  - repeat constructor; cbn; unfold end_of, RAM_ADDR_MAX; cbn; lia.
  - repeat constructor.
  - repeat constructor.
  - done.
  - split; [done|]. repeat constructor; vm_compute; congruence.
Qed.

Lemma board_hosts : hosts_aligned board_ram_list.
Proof.
  split.
  - intros b c Hb%list_elem_of_singleton Hc%list_elem_of_singleton. subst. cbn. split; [lia|]. split; [lia|by left].
  - intros b Hb%list_elem_of_singleton. by subst.
Qed.

(** The sections of RAM lie in the block. *)
Definition section_in_ram (mc : machine) (s : MemoryRegionSection) : bool :=
  negb (is_ram mc (sec_mr s)) || (bool_decide (sec_mr s = GuestMR 2) &&
    ((offset_within_region s - offset_within_address_space s) mod 1024 =? 0) &&
    (0 <=? offset_within_region s) && (offset_within_region s + Int128.val (sec_size s) <=? length board_ram) &&
    (ram_addr mc (sec_mr s) =? offset board_ram) && (ram_ptr mc (sec_mr s) =? host board_ram)).

Lemma board_backed : regions_backed example_machine board_ram_list.
Proof.
  destruct board_dispatch_spec as (d & E & _ & L).
  assert (forallb (section_in_ram example_machine) (sections (PhysMap.map (dispatch example_machine))) = true) as A by (vm_compute; reflexivity).
  assert (dispatch example_machine = d) as Ed by (pose proof example_dispatch_built as B; by rewrite E in B).
  generalize example_machine, A, Ed. clear A Ed. intros mc A Ed. rewrite forallb_forall in A.
  apply (backed_by_block mc board_ram_list board_ram); [by rewrite Ed|by left| |cbn [length board_ram]; lia].
  intros n s Es Hr. assert (section_in_ram mc s = true) as B.
  { apply A. apply aget_Ok in Es as [_ Es]. apply list_elem_of_In. by eapply list_elem_of_lookup_2. }
  unfold section_in_ram in B. rewrite Hr in B. cbn [negb orb] in B.
  rewrite !andb_true_iff, !Z.eqb_eq, !Z.leb_le, bool_decide_eq_true in B. destruct B as [[[[[B1 B2] B3] B4] B5] B6].
  split; [exists 2; assumption|]. split_and!; assumption.
Qed.

Lemma board_sound : sound example_machine board_state.
Proof.
  split; [apply board_ram_list_ok|apply board_hosts|apply board_backed|].
  constructor; [|constructor]. apply (flush_tracked board_ram_list empty_tlb).
  split; (split; [reflexivity|]); repeat constructor.
Qed.

(** ** Coherent TLBs *)

Lemma entry_addend mc v p prot n x s te io : tlb_entry_for mc v p prot n x s = (te, io) ->
  addend te = u64 ((if is_ram mc (sec_mr s) || is_romd mc (sec_mr s) then u64 (ram_ptr mc (sec_mr s) + x) else 0) - v).
Proof.
  unfold tlb_entry_for. cbv zeta. destruct (memory_region_section_get_iotlb _ _ _ _ _ _ _ _) as [i a]. by intros [= <- _].
Qed.

(** An entry that waits for the callback is for the page of the address. *)
Lemma waiting_filled {W} `{PhysMem W} mc (w : W) c idx te vaddr : machine_ok mc -> coherent mc w c -> 0 <= vaddr < 2 ^ 32 -> 0 <= idx < 2 ->
  te_get (tlb c) idx (tlb_index vaddr) = Ok te -> addr_write te = Z.lor (page_of vaddr) TLB_NOTDIRTY ->
  exists io t0 p prot k n x s te0, filled mc w (env c) (tlb c) idx (tlb_index vaddr) te io (page_of vaddr) t0 p prot k n x s te0.
Proof.
  intros Hmc Hc Hv Hi Ete Ew. pose proof Hc as [Cs _ Ce].
  destruct (rows_get _ idx (tlb_index vaddr) (proj2 Cs) Hi (tlb_index_range vaddr)) as [io Eio].
  assert (tlb_hit te vaddr 1 = true) as Hh.
  { unfold tlb_hit, tlb_addr. cbn [Z.eqb Pos.eqb]. rewrite Ew, Z.land_lor_distr_l, <- page_of_mask. apply Z.eqb_eq.
    change (Z.land TLB_NOTDIRTY (Z.lor TARGET_PAGE_MASK TLB_INVALID_MASK)) with 0. rewrite Z.lor_0_r, page_of_mask, <- Z.land_assoc.
    f_equal. }
  destruct (Ce idx _ te io Hi (tlb_index_range vaddr) Ete Eio) as [->|(v & t0 & p & prot & k & n & x & s & te0 & F)];
    [by rewrite no_entry_hit in Hh|].
  rewrite (filled_hit mc _ _ _ _ _ _ _ _ _ _ _ _ _ _ _ _ 1 vaddr Hmc F ltac:(lia)) in Hh.
  apply andb_prop in Hh as [<-%Z.eqb_eq _]. by eexists _, _, _, _, _, _, _, _, _.
Qed.

(** In a coherent TLB the modes agree: the entries that wait for the callback
    lead to one page, that of the access. *)
Lemma coherent_waits {W} `{PhysMem W} mc (w : W) c idx te vaddr : machine_ok mc -> coherent mc w c -> 0 <= vaddr < 2 ^ 32 -> 0 <= idx < 2 ->
  te_get (tlb c) idx (tlb_index vaddr) = Ok te -> addr_write te = Z.lor (page_of vaddr) TLB_NOTDIRTY ->
  waits_for (tlb c) vaddr (te_host te).
Proof.
  intros Hmc Hc Hv Hi Ete Ew idx' te' Hi'. rewrite <- page_of_mask, tlb_index_page by done. intros Ete' Ew'.
  destruct (waiting_filled mc w c idx te vaddr Hmc Hc Hv Hi Ete Ew) as (io & t0 & p & prot & k & n & x & s & te0 & F).
  destruct (waiting_filled mc w c idx' te' vaddr Hmc Hc Hv Hi' Ete' Ew') as (io' & t1 & p' & prot' & k' & n' & x' & s' & te1 & F').
  destruct F as [_ _ _ Wk _ _ [sz Tr] Sc _ _ En (_ & _ & Ad & _) _]. destruct F' as [_ _ _ Wk' _ _ [sz' Tr'] Sc' _ _ En' (_ & _ & Ad' & _) _].
  pose proof (walk_frame w (env c) (page_of vaddr) t0 (idx =? MMU_USER_IDX) t1 (idx' =? MMU_USER_IDX)) as Fr.
  rewrite Wk, Wk' in Fr. destruct Fr as [<- _]. rewrite Tr in Tr'. injection Tr' as <- <- _. rewrite Sc in Sc'. injection Sc' as <-.
  unfold te_host. rewrite Ew, Ew', Ad, Ad', (entry_addend _ _ _ _ _ _ _ _ _ En), (entry_addend _ _ _ _ _ _ _ _ _ En'). done.
Qed.

(** ** Claims *)


Definition tlb_of (r : res CPUTLB) : CPUTLB := match r with Ok t => t | Err _ => empty_tlb end.
Definition state_of (r : res (RAMList * list CPUTLB)) : memory_state :=
  match r with Ok (rl, ts) => mkState rl ts | Err _ => board_state end.

(** The page at 0x400 is entered in the TLB for kernel reads and writes. *)
Definition filled_state : memory_state :=
  mkState board_ram_list [tlb_of (tlb_set_page (with_ram example_machine board_ram_list) empty_tlb 0x400 0x400 7 0 1024)].


(** A reset that does not start on a page boundary loses writes.  The bits
    are cleared for all pages that the range touches, but the TLB is reset for
    a range of the same length from the rounded start: with the range 0x200 to
    0x600, the bit of the second page is clear, and stores to it still go to
    host memory directly. *)
Theorem unaligned_reset_loses_writes : exists rl ts,
  cpu_physical_memory_reset_dirty (ram filled_state) (tlbs filled_state) 0x200 0x400 DIRTY_MEMORY_MIGRATION = Ok (rl, ts) /\
  dirty rl DIRTY_MEMORY_MIGRATION 1 = false /\ direct_store (mkState rl ts) board_ram 0x400.
Proof.
  pose (r := cpu_physical_memory_reset_dirty (ram filled_state) (tlbs filled_state) 0x200 0x400 DIRTY_MEMORY_MIGRATION).
  exists (ram (state_of r)), (tlbs (state_of r)). split; [vm_compute; reflexivity|]. split; [vm_compute; reflexivity|].
  pose (t := default empty_tlb (tlbs (state_of r) !! 0%nat)).
  exists t, 0, 1, (mkTE 0x400 0x400 0x400 0x7f0000000000), 0x400. split; [|split_and!; try (vm_compute; congruence)].
  - apply list_elem_of_lookup. exists 0%nat. vm_compute. reflexivity.
  - by left.
Qed.

(** With different frames for the two modes a write is lost.  The kernel's entry
    of the virtual page 0 waits for the first page of RAM, the user's for the
    second; a write of the kernel makes both direct, and user stores then reach
    the second page, which migration has not seen dirty. *)
Definition clean_ram_list : RAMList := mkRam [[0xffff]; [0xffff]; [0]] None [board_ram] 0.
Definition two_frames : CPUTLB :=
  let t := tlb_of (tlb_set_page (with_ram example_machine clean_ram_list) empty_tlb 0 0 7 0 1024) in
  tlb_of (tlb_set_page (with_ram example_machine clean_ram_list) t 0 0x400 7 1 1024).

Theorem two_frames_lose_writes : exists w rl t,
  notdirty_mem_write (example_world 0) clean_ram_list two_frames 0 0 0x12 1 = Ok (w, rl, t) /\
  dirty rl DIRTY_MEMORY_MIGRATION 1 = false /\ direct_store (mkState rl [t]) board_ram 0x400.
Proof.
  pose (r := notdirty_mem_write (example_world 0) clean_ram_list two_frames 0 0 0x12 1).
  exists (match r with Ok (w, _, _) => w | Err _ => example_world 0 end), (match r with Ok (_, rl, _) => rl | Err _ => board_ram_list end),
    (match r with Ok (_, _, t) => t | Err _ => empty_tlb end).
  split; [vm_compute; reflexivity|]. split; [vm_compute; reflexivity|].
  exists (match r with Ok (_, _, t) => t | Err _ => empty_tlb end), 1, 0, (mkTE 0 0 0 0x7f0000000400), 0.
  split; [by left|]. split_and!; try (vm_compute; congruence). by left.
Qed.
