(* ===== verification/MemRegion.v ===== *)
(** * Accesses to a memory region ([memory.c])

    A device registers callbacks with the access sizes that it accepts and the
    sizes that it implements.  An access of the guest is checked, split into
    accesses of an implemented size, and its bytes are swapped when the device
    has the other endianness.  The target is little-endian.

    The callbacks act on the state [D] of the devices.  An access that is not
    valid goes to [unassigned_mem_read]/[unassigned_mem_write], which have no
    effect on a CPU without the hook [do_unassigned_access], like those of
    ARM. *)

From stdpp Require Import base list numbers.
From S2P Require Import Prelude HostUtils.

Module MemRegion.

Inductive device_endian : Type := DEVICE_NATIVE_ENDIAN | DEVICE_BIG_ENDIAN | DEVICE_LITTLE_ENDIAN.

Record MemoryRegionOps (D : Type) : Type := mkOps {
  read : option (D -> Z -> Z -> D * Z);
  write : option (D -> Z -> Z -> Z -> D);
  endianness : device_endian;
  valid_min_access_size : Z; valid_max_access_size : Z; valid_unaligned : bool;
  accepts : option (D -> Z -> Z -> bool -> bool);
  impl_min_access_size : Z; impl_max_access_size : Z; impl_unaligned : bool;
  old_mmio_read : list (D -> Z -> D * Z);
  old_mmio_write : list (D -> Z -> Z -> D)
}.
Arguments mkOps {D}.
Arguments read {D}. Arguments write {D}. Arguments endianness {D}.
Arguments valid_min_access_size {D}. Arguments valid_max_access_size {D}. Arguments valid_unaligned {D}.
Arguments accepts {D}. Arguments impl_min_access_size {D}. Arguments impl_max_access_size {D}.
Arguments impl_unaligned {D}. Arguments old_mmio_read {D}. Arguments old_mmio_write {D}.

(** The [n] low bytes in the other order. *)
Fixpoint bswap (n : nat) (v : Z) : Z :=
  match n with O => 0 | S n => v mod 2 ^ 8 * 2 ^ (8 * Z.of_nat n) + bswap n (v / 2 ^ 8) end.

Section Access.
Context {D : Type}.
Implicit Types (ops : MemoryRegionOps D) (d : D).

Definition memory_region_big_endian ops : bool :=
  match endianness ops with DEVICE_BIG_ENDIAN => true | _ => false end.
Definition memory_region_wrong_endianness ops : bool :=
  match endianness ops with DEVICE_BIG_ENDIAN => true | _ => false end.

Definition adjust_endianness ops (data size : Z) : res Z :=
  if memory_region_wrong_endianness ops then
    match size with
    | 1 => Ok data
    | 2 => Ok (bswap 2 data)
    | 4 => Ok (bswap 4 data)
    | 8 => Ok (bswap 8 data)
    | _ => Err AssertFailed
    end
  else Ok data.

(** The accessors: a callback at an address, with the part of the value at
    [shift].  A callback returns a 64-bit value. *)
Definition accessor : Type := D -> Z -> Z -> Z -> Z -> Z -> res (D * Z).

Definition merge (value tmp shift mask : Z) : res Z :=
  let* _ := c_shift 64 shift in Ok (Z.lor value (u64 (Z.shiftl (Z.land tmp mask) shift))).
Definition part (value shift mask : Z) : res Z :=
  let* _ := c_shift 64 shift in Ok (Z.land (Z.shiftr value shift) mask).

Definition memory_region_read_accessor (f : D -> Z -> Z -> D * Z) : accessor :=
  fun d addr value size shift mask =>
    let (d, tmp) := f d addr size in
    let* value := merge value (u64 tmp) shift mask in Ok (d, value).

Definition memory_region_oldmmio_read_accessor ops : accessor := fun d addr value size shift mask =>
  let* f := aget (old_mmio_read ops) (ctz32 size) in
  let (d, tmp) := f d addr in
  let* value := merge value (u64 tmp) shift mask in Ok (d, value).

Definition memory_region_write_accessor (f : D -> Z -> Z -> Z -> D) : accessor :=
  fun d addr value size shift mask =>
    let* tmp := part value shift mask in Ok (f d addr tmp size, value).

Definition memory_region_oldmmio_write_accessor ops : accessor := fun d addr value size shift mask =>
  let* f := aget (old_mmio_write ops) (ctz32 size) in
  let* tmp := part value shift mask in Ok (f d addr tmp, value).

(** [for (i = 0; i < size; i += access_size)] *)
Fixpoint access_loop (fuel : nat) (access : accessor) (d : D) (addr value size access_size mask : Z) (big : bool) (i : Z) :
    res (D * Z) :=
  if i <? size then
    match fuel with
    | O => Err OutOfFuel
    | S fuel =>
        let shift := if big then u32 ((size - access_size - i) * 8) else u32 (i * 8) in
        let* (d, value) := access d (u64 (addr + i)) value access_size shift mask in
        access_loop fuel access d addr value size access_size mask big (u32 (i + access_size))
    end
  else Ok (d, value).

(** [MAX(MIN(size, max), min)] with the defaults 1 and 4. *)
Definition clamp_size (size access_size_min access_size_max : Z) : Z :=
  let access_size_min := if access_size_min =? 0 then 1 else access_size_min in
  let access_size_max := if access_size_max =? 0 then 4 else access_size_max in
  Z.max (Z.min size access_size_max) access_size_min.

Definition access_with_adjusted_size (addr value size access_size_min access_size_max : Z) (access : accessor) ops d :
    res (D * Z) :=
  let access_size := clamp_size size access_size_min access_size_max in
  let* _ := c_shift 64 (u32 (64 - access_size * 8)) in
  let access_mask := Z.shiftr (2 ^ 64 - 1) (64 - access_size * 8) in
  access_loop (Z.to_nat size) access d addr value size access_size access_mask (memory_region_big_endian ops) 0.

Fixpoint accepts_loop (fuel : nat) (f : Z -> bool) (size access_size i : Z) : bool :=
  if i <? size then
    match fuel with
    | O => false
    | S fuel => f i && accepts_loop fuel f size access_size (i + access_size)
    end
  else true.

Definition memory_region_access_valid ops d (addr size : Z) (is_write : bool) : bool :=
  if negb (valid_unaligned ops) && negb (Z.land addr (size - 1) =? 0) then false else
  match accepts ops with
  | None => true
  | Some f =>
      let access_size := clamp_size size (valid_min_access_size ops) (valid_max_access_size ops) in
      accepts_loop (Z.to_nat size) (fun i => f d (u64 (addr + i)) access_size is_write) size access_size 0
  end.

Definition memory_region_dispatch_read1 ops d (addr size : Z) : res (D * Z) :=
  match read ops with
  | Some f => access_with_adjusted_size addr 0 size (impl_min_access_size ops) (impl_max_access_size ops)
                (memory_region_read_accessor f) ops d
  | None => access_with_adjusted_size addr 0 size 1 4 (memory_region_oldmmio_read_accessor ops) ops d
  end.

(** The devices, the value and whether the access was refused. *)
Definition memory_region_dispatch_read ops d (addr size : Z) : res (D * Z * bool) :=
  if negb (memory_region_access_valid ops d addr size false) then Ok (d, 0, true) else
  let* (d, v) := memory_region_dispatch_read1 ops d addr size in
  let* v := adjust_endianness ops v size in Ok (d, v, false).

Definition memory_region_dispatch_write ops d (addr data size : Z) : res (D * bool) :=
  if negb (memory_region_access_valid ops d addr size true) then Ok (d, true) else
  let* data := adjust_endianness ops data size in
  let* (d, _) :=
    match write ops with
    | Some f => access_with_adjusted_size addr data size (impl_min_access_size ops) (impl_max_access_size ops)
                  (memory_region_write_accessor f) ops d
    | None => access_with_adjusted_size addr data size 1 4 (memory_region_oldmmio_write_accessor ops) ops d
    end in
  Ok (d, false).

Definition io_mem_read ops d (addr size : Z) : res (D * Z * bool) := memory_region_dispatch_read ops d addr size.
Definition io_mem_write ops d (addr val size : Z) : res (D * bool) := memory_region_dispatch_write ops d addr val size.
End Access.

(** [unassigned_mem_ops] *)
Definition unassigned_mem_ops (D : Type) : MemoryRegionOps D :=
  mkOps None None DEVICE_NATIVE_ENDIAN 0 0 false (Some (fun _ _ _ _ => false)) 0 0 false [] [].

End MemRegion.
