(* ===== verification/MemRegionFacts.v ===== *)
(** * Accesses to a memory region: claims

    For a device that behaves as an array of bytes, whatever its endianness and
    the sizes that it implements, the guest reads and writes the bytes in
    little-endian order.  Two cases break this: a big-endian device that
    implements only larger accesses than the guest makes, and the bounds on the
    sizes, which are not checked. *)

From stdpp Require Import base list numbers.
From S2P Require Import Prelude HostUtils MemRegion.
Import MemRegion.

(** ** Values of bytes *)

(** [n] bytes from [a] on, the first one lowest or highest. *)
Fixpoint le_sum (g : Z -> Z) (a : Z) (n : nat) : Z :=
  match n with O => 0 | S n => g a + 2 ^ 8 * le_sum g (a + 1) n end.
Fixpoint be_sum (g : Z -> Z) (a : Z) (n : nat) : Z :=
  match n with O => 0 | S n => g a * 2 ^ (8 * Z.of_nat n) + be_sum g (a + 1) n end.

Definition is_byte (x : Z) : Prop := 0 <= x < 2 ^ 8.
Definition pw (n : nat) : Z := 2 ^ (8 * Z.of_nat n).

Lemma pw_S n : pw (S n) = 2 ^ 8 * pw n.
Proof. unfold pw. rewrite <- Z.pow_add_r by lia. f_equal. lia. Qed.

Lemma pw_add m n : pw (m + n) = pw m * pw n.
Proof. unfold pw. rewrite <- Z.pow_add_r by lia. f_equal. lia. Qed.

Lemma pw_pos n : 0 < pw n.
Proof. unfold pw. lia. Qed.

Section Bytes.
Variable g : Z -> Z.
Hypothesis Hg : forall x, is_byte (g x).

Lemma le_sum_range n : forall a, 0 <= le_sum g a n < pw n.
Proof.
  induction n as [|n IH]; intros a; [done|]. rewrite pw_S. cbn [le_sum]. specialize (IH (a + 1)). pose proof (Hg a) as B. unfold is_byte in B. lia.
Qed.

Lemma be_sum_range n : forall a, 0 <= be_sum g a n < pw n.
Proof.
  induction n as [|n IH]; intros a; [done|]. rewrite pw_S. cbn [be_sum]. fold (pw n). specialize (IH (a + 1)). pose proof (Hg a) as B. unfold is_byte in B. nia.
Qed.

Lemma le_sum_app m : forall n a, le_sum g a (m + n) = le_sum g a m + pw m * le_sum g (a + Z.of_nat m) n.
Proof.
  induction m as [|m IH]; intros n a; [cbn [Nat.add le_sum]; change (pw 0) with 1; rewrite Z.add_0_r; lia|].
  cbn [Nat.add le_sum]. rewrite IH, pw_S. replace (a + 1 + Z.of_nat m) with (a + Z.of_nat (S m)) by lia. lia.
Qed.

Lemma be_sum_app m : forall n a, be_sum g a (m + n) = be_sum g a m * pw n + be_sum g (a + Z.of_nat m) n.
Proof.
  induction m as [|m IH]; intros n a; [cbn [Nat.add be_sum]; rewrite Z.add_0_r; lia|].
  cbn [Nat.add be_sum]. rewrite IH. fold (pw (m + n)). fold (pw m). rewrite pw_add.
  replace (a + 1 + Z.of_nat m) with (a + Z.of_nat (S m)) by lia. lia.
Qed.

Lemma bswap_low n : forall v, bswap n (v mod pw n) = bswap n v.
Proof.
  induction n as [|n IH]; intros v; [done|]. cbn [bswap]. fold (pw n). rewrite pw_S. f_equal.
  - f_equal. rewrite Z.rem_mul_r by (pose proof (pw_pos n); lia). rewrite (Z.mul_comm (2 ^ 8)), Z.mod_add, Z.mod_mod by lia. done.
  - rewrite <- IH, <- (IH (v / 2 ^ 8)). f_equal. rewrite Z.rem_mul_r by (pose proof (pw_pos n); lia).
    rewrite (Z.mul_comm (2 ^ 8)), Z.div_add, (Z.div_small (v mod 2 ^ 8)), Z.add_0_l by (try apply Z.mod_pos_bound; lia).
    apply Z.mod_mod. pose proof (pw_pos n). lia.
Qed.

Lemma be_sum_snoc n a : be_sum g a (S n) = be_sum g a n * 2 ^ 8 + g (a + Z.of_nat n).
Proof. replace (S n) with (n + 1)%nat by lia. rewrite be_sum_app. cbn [be_sum]. change (pw 1) with (2 ^ 8). change (2 ^ (8 * Z.of_nat 0)) with 1. lia. Qed.

Lemma bswap_be n : forall a, bswap n (be_sum g a n) = le_sum g a n.
Proof.
  induction n as [|n IH]; intros a; [done|]. replace (S n) with (n + 1)%nat at 3 by lia. rewrite le_sum_app. cbn [le_sum].
  cbn [bswap]. fold (pw n). rewrite be_sum_snoc. pose proof (Hg (a + Z.of_nat n)) as B. unfold is_byte in B.
  rewrite (Z.add_comm (be_sum g a n * 2 ^ 8)), Z.mod_add, Z.mod_small, Z.div_add, Z.div_small, Z.add_0_l, IH by lia. lia.
Qed.

Lemma bswap_le n : forall a, bswap n (le_sum g a n) = be_sum g a n.
Proof.
  induction n as [|n IH]; intros a; [done|]. cbn [bswap le_sum be_sum]. fold (pw n). pose proof (Hg a) as B. unfold is_byte in B.
  rewrite (Z.mul_comm (2 ^ 8)), Z.mod_add, Z.mod_small, Z.div_add, Z.div_small, Z.add_0_l, IH by lia. done.
Qed.
End Bytes.

(** ** Splitting an access *)

Lemma mask_shiftr k : 0 <= k <= 8 -> Z.shiftr (2 ^ 64 - 1) (64 - k * 8) = Z.ones (k * 8).
Proof.
  intros Hk. change (2 ^ 64 - 1) with (Z.ones 64). rewrite Z.shiftr_div_pow2, Z.ones_div_pow2 by lia. f_equal. lia.
Qed.

Lemma shiftl_range v s w : 0 <= v < 2 ^ (w - s) -> 0 <= s <= w -> 0 <= Z.shiftl v s < 2 ^ w.
Proof.
  intros Hv Hs. rewrite Z.shiftl_mul_pow2 by lia. replace (2 ^ w) with (2 ^ (w - s) * 2 ^ s) by (rewrite <- Z.pow_add_r by lia; f_equal; lia). nia.
Qed.

Lemma merge_val value v s k : 0 <= s -> 0 <= k -> s + k * 8 <= 64 -> s < 64 -> 0 <= v < 2 ^ (k * 8) ->
  merge value v s (Z.ones (k * 8)) = Ok (Z.lor value (Z.shiftl v s)).
Proof.
  intros Hs Hk Hsk Hs64 Hv. unfold merge. rewrite c_shift_ok by lia. cbn [res_bind]. do 2 f_equal.
  rewrite Z.land_ones, Z.mod_small by lia. apply uwrap_small, shiftl_range; [|lia]. split; [lia|].
  pose proof (Z.pow_le_mono_r 2 (k * 8) (64 - s)). lia.
Qed.

(** Byte [k] of a value, and its position in a device's order. *)
Definition byte_of (v k : Z) : Z := Z.land (Z.shiftr v (8 * k)) 255.
Definition pos (big : bool) (size k : Z) : Z := if big then size - 1 - k else k.

Lemma byte_of_part value s asize k : 0 <= s -> 0 <= k < asize -> byte_of (Z.land (Z.shiftr value (s * 8)) (Z.ones (asize * 8))) k = byte_of value (s + k).
Proof.
  intros Hs Hk. unfold byte_of. change 255 with (Z.ones 8). zbits. destruct (Z.ltb_spec i 8); [|by rewrite !andb_false_r].
  destruct (Z.ltb_spec (i + 8 * k) (asize * 8)); [|lia]. rewrite !andb_true_r. f_equal. lia.
Qed.

Section Split.
Context {D : Type}.
Implicit Types d : D.
Variables (asize : nat) (addr size : Z).
Hypothesis Ha : (1 <= asize <= 8)%nat.
Hypothesis Hsize : 1 <= size <= 8.
Hypothesis Haddr : 0 <= addr /\ addr + size <= 2 ^ 64.
Abbreviation mask := (Z.ones (Z.of_nat asize * 8)).

(** A device whose reads of [asize] bytes give the bytes [g]. *)
Lemma read_loop_le g f d m : (forall x, is_byte (g x)) -> (forall a, f d a (Z.of_nat asize) = (d, le_sum g a asize)) -> forall fuel j,
  (m <= fuel + j)%nat -> (j <= m)%nat -> Z.of_nat (m * asize) = size ->
  access_loop fuel (memory_region_read_accessor f) d addr (le_sum g addr (j * asize)) size (Z.of_nat asize) mask false (Z.of_nat (j * asize)) =
    Ok (d, le_sum g addr (m * asize)).
Proof.
  intros Hg Hf. induction fuel as [|fuel IH]; intros j Hm Hj Es; cbn [access_loop].
  { assert (j = m) as -> by lia. by rewrite Es, Z.ltb_irrefl. }
  destruct (Nat.eq_dec j m) as [->|Nj]; [by rewrite Es, Z.ltb_irrefl|].
  assert (Z.of_nat (j * asize) + Z.of_nat asize <= size) as Hi by nia. destruct (Z.ltb_spec (Z.of_nat (j * asize)) size); [|lia].
  rewrite (uwrap_small 64), !(uwrap_small 32) by lia. unfold memory_region_read_accessor at 1. rewrite Hf.
  pose proof (le_sum_range g Hg asize (addr + Z.of_nat (j * asize))) as R. unfold pw in R.
  rewrite (uwrap_small 64 (le_sum _ _ _)) by (pose proof (Z.pow_le_mono_r 2 (8 * Z.of_nat asize) 64); lia).
  rewrite merge_val by (lia || (rewrite (Z.mul_comm _ 8); lia)). cbn [res_bind].
  rewrite Z.lor_comm, lor_concat; [|lia|pose proof (le_sum_range g Hg (j * asize) addr) as R2; unfold pw in R2; rewrite (Z.mul_comm _ 8); exact R2].
  replace (le_sum g (addr + Z.of_nat (j * asize)) asize * 2 ^ (Z.of_nat (j * asize) * 8) + le_sum g addr (j * asize))
    with (le_sum g addr (S j * asize)).
  - rewrite <- Nat2Z.inj_add. replace (j * asize + asize)%nat with (S j * asize)%nat by lia. apply IH; lia.
  - replace (S j * asize)%nat with (j * asize + asize)%nat by lia. rewrite le_sum_app. unfold pw. rewrite (Z.mul_comm 8). lia.
Qed.

Lemma read_loop_be g f d m : (forall x, is_byte (g x)) -> (forall a, f d a (Z.of_nat asize) = (d, be_sum g a asize)) -> forall fuel j,
  (m <= fuel + j)%nat -> (j <= m)%nat -> Z.of_nat (m * asize) = size ->
  access_loop fuel (memory_region_read_accessor f) d addr (Z.shiftl (be_sum g addr (j * asize)) ((size - Z.of_nat (j * asize)) * 8))
    size (Z.of_nat asize) mask true (Z.of_nat (j * asize)) = Ok (d, be_sum g addr (m * asize)).
Proof.
  intros Hg Hf. induction fuel as [|fuel IH]; intros j Hm Hj Es; cbn [access_loop].
  { assert (j = m) as -> by lia. by rewrite Es, Z.ltb_irrefl, Z.sub_diag, Z.shiftl_0_r. }
  destruct (Nat.eq_dec j m) as [->|Nj]; [by rewrite Es, Z.ltb_irrefl, Z.sub_diag, Z.shiftl_0_r|].
  assert (Z.of_nat (j * asize) + Z.of_nat asize <= size) as Hi by nia. destruct (Z.ltb_spec (Z.of_nat (j * asize)) size); [|lia].
  set (i := Z.of_nat (j * asize)) in *. rewrite (uwrap_small 64), !(uwrap_small 32) by lia.
  unfold memory_region_read_accessor at 1. rewrite Hf. set (v := be_sum g (addr + i) asize).
  pose proof (be_sum_range g Hg asize (addr + i)) as R. fold v in R. unfold pw in R.
  rewrite (uwrap_small 64 v) by (pose proof (Z.pow_le_mono_r 2 (8 * Z.of_nat asize) 64); lia).
  rewrite merge_val by (lia || (rewrite (Z.mul_comm _ 8); lia)). cbn [res_bind].
  set (s := (size - Z.of_nat asize - i) * 8).
  replace (Z.shiftl (be_sum g addr (j * asize)) ((size - i) * 8)) with
    (Z.shiftl (Z.shiftl (be_sum g addr (j * asize)) (8 * Z.of_nat asize)) s) by (rewrite Z.shiftl_shiftl by lia; f_equal; unfold s; lia).
  rewrite <- Z.shiftl_lor, lor_concat by lia. fold (pw asize).
  replace (be_sum g addr (j * asize) * pw asize + v) with (be_sum g addr (S j * asize)).
  - replace (i + Z.of_nat asize) with (Z.of_nat (S j * asize)) by lia.
    replace s with ((size - Z.of_nat (S j * asize)) * 8) by (unfold s; lia). apply IH; lia.
  - replace (S j * asize)%nat with (j * asize + asize)%nat by lia. apply be_sum_app.
Qed.

(** A device that stores bytes in its order. *)
Lemma write_loop (bytes : D -> Z -> Z) f big value m :
  (forall d a v x, 0 <= a -> bytes (f d a v (Z.of_nat asize)) x =
     if (a <=? x) && (x <? a + Z.of_nat asize) then byte_of v (pos big (Z.of_nat asize) (x - a)) else bytes d x) ->
  forall fuel j d, (m <= fuel + j)%nat -> (j <= m)%nat -> Z.of_nat (m * asize) = size ->
  exists d', access_loop fuel (memory_region_write_accessor f) d addr value size (Z.of_nat asize) mask big (Z.of_nat (j * asize)) = Ok (d', value) /\
    forall x, bytes d' x = if (addr + Z.of_nat (j * asize) <=? x) && (x <? addr + size) then byte_of value (pos big size (x - addr)) else bytes d x.
Proof.
  intros Hf. induction fuel as [|fuel IH]; intros j d Hm Hj Es; cbn [access_loop].
  { assert (j = m) as -> by lia. rewrite Es, Z.ltb_irrefl. exists d. split; [done|]. intros x. zcases; done || lia. }
  destruct (Nat.eq_dec j m) as [->|Nj].
  { rewrite Es, Z.ltb_irrefl. exists d. split; [done|]. intros x. zcases; done || lia. }
  assert (Z.of_nat (j * asize) + Z.of_nat asize <= size) as Hi by nia. destruct (Z.ltb_spec (Z.of_nat (j * asize)) size); [|lia].
  set (i := Z.of_nat (j * asize)) in *. rewrite (uwrap_small 64), !(uwrap_small 32) by lia.
  set (s := if big then size - Z.of_nat asize - i else i).
  assert ((if big then (size - Z.of_nat asize - i) * 8 else i * 8) = s * 8) as -> by (unfold s; by destruct big).
  assert (0 <= s /\ s < 8) as Hs by (unfold s; destruct big; lia).
  unfold memory_region_write_accessor at 1, part. rewrite c_shift_ok by lia. cbn [res_bind].
  set (v := Z.land (Z.shiftr value (s * 8)) mask). set (d1 := f d (addr + i) v (Z.of_nat asize)).
  replace (i + Z.of_nat asize) with (Z.of_nat (S j * asize)) by lia.
  destruct (IH (S j) d1) as (d' & E & B); [lia|lia|done|]. exists d'. split; [done|]. intros x. rewrite B. unfold d1. rewrite Hf by lia.
  replace (Z.of_nat (S j * asize)) with (i + Z.of_nat asize) by lia.
  destruct (Z.leb_spec (addr + (i + Z.of_nat asize)) x), (Z.ltb_spec x (addr + size)), (Z.leb_spec (addr + i) x), (Z.ltb_spec x (addr + i + Z.of_nat asize));
    cbn [andb]; try lia; try done.
  unfold v. rewrite byte_of_part by (unfold pos; destruct big; lia). f_equal. unfold s, pos. destruct big; lia.
Qed.
End Split.

Lemma byte_of_concat h l n j : 0 <= l < pw n -> 0 <= j -> byte_of (h * pw n + l) j = if j <? Z.of_nat n then byte_of l j else byte_of h (j - Z.of_nat n).
Proof.
  intros Hl Hj. unfold byte_of, pw in *. change 255 with (Z.ones 8).
  destruct (Z.ltb_spec j (Z.of_nat n)); zbits; (destruct (Z.ltb_spec i 8); [|by rewrite !andb_false_r]); rewrite !andb_true_r;
    rewrite concat_testbit by lia.
  - destruct (Z.ltb_spec (i + 8 * j) (8 * Z.of_nat n)); [done|lia].
  - destruct (Z.ltb_spec (i + 8 * j) (8 * Z.of_nat n)); [lia|f_equal; lia].
Qed.

Lemma bswap_range n : forall v, 0 <= bswap n v < pw n.
Proof.
  induction n as [|n IH]; intros v; [done|]. rewrite pw_S. cbn [bswap]. fold (pw n). specialize (IH (v / 2 ^ 8)).
  pose proof (Z.mod_pos_bound v (2 ^ 8) ltac:(lia)). nia.
Qed.

Lemma byte_of_bswap n : forall v k, 0 <= k < Z.of_nat n -> byte_of (bswap n v) (Z.of_nat n - 1 - k) = byte_of v k.
Proof.
  induction n as [|n IH]; intros v k Hk; [lia|]. cbn [bswap]. fold (pw n). rewrite byte_of_concat by (apply bswap_range || lia).
  destruct (Z.eq_dec k 0) as [->|].
  - destruct (Z.ltb_spec (Z.of_nat (S n) - 1 - 0) (Z.of_nat n)); [lia|]. unfold byte_of.
    replace (Z.of_nat (S n) - 1 - 0 - Z.of_nat n) with 0 by lia. rewrite Z.mul_0_r, !Z.shiftr_0_r. change 255 with (Z.ones 8).
    rewrite !Z.land_ones, Z.mod_mod by lia. done.
  - destruct (Z.ltb_spec (Z.of_nat (S n) - 1 - k) (Z.of_nat n)); [|lia].
    replace (Z.of_nat (S n) - 1 - k) with (Z.of_nat n - 1 - (k - 1)) by lia. rewrite IH by lia.
    unfold byte_of. rewrite <- Z.shiftr_div_pow2, Z.shiftr_shiftr by lia. do 2 f_equal. lia.
Qed.

(** ** A device of bytes *)

Section Device.
Context {D : Type} (ops : MemoryRegionOps D) (bytes : D -> Z -> Z).

(** The callbacks read and write the bytes in the order of the device. *)
Record byte_device : Prop := {
  bd_byte : forall d x, is_byte (bytes d x);
  bd_read : exists f, read ops = Some f /\ forall d a s, f d a s =
    (d, if memory_region_big_endian ops then be_sum (bytes d) a (Z.to_nat s) else le_sum (bytes d) a (Z.to_nat s));
  bd_write : exists f, write ops = Some f /\ forall d a v s x, 0 <= a -> bytes (f d a v s) x =
    if (a <=? x) && (x <? a + s) then byte_of v (pos (memory_region_big_endian ops) s (x - a)) else bytes d x
}.

Definition access_size (size : Z) : Prop := size = 1 \/ size = 2 \/ size = 4 \/ size = 8.

Variables (addr size : Z).
Hypothesis Hdev : byte_device.
Hypothesis Hsize : access_size size.
Hypothesis Haddr : 0 <= addr /\ addr + size <= 2 ^ 64.
Abbreviation asize := (clamp_size size (impl_min_access_size ops) (impl_max_access_size ops)).
Hypothesis Hasize : access_size asize /\ asize <= size.

(** The number of accesses. *)
Lemma parts : exists m n, size = Z.of_nat (m * n) /\ asize = Z.of_nat n /\ (1 <= n <= 8)%nat /\ (m <= Z.to_nat size)%nat.
Proof.
  destruct Hasize as [As Al]. exists (Z.to_nat (size / asize)), (Z.to_nat asize).
  remember asize as k eqn:Ek. clear Ek Hasize Hdev Haddr.
  destruct Hsize as [->|[->|[->| ->]]], As as [->|[->|[->| ->]]]; try (exfalso; lia); split_and!; (reflexivity || (vm_compute; lia)).
Qed.

Lemma split_start access d value : access_with_adjusted_size addr value size (impl_min_access_size ops) (impl_max_access_size ops) access ops d =
  access_loop (Z.to_nat size) access d addr value size asize (Z.ones (asize * 8)) (memory_region_big_endian ops) 0.
Proof.
  unfold access_with_adjusted_size. assert (1 <= asize <= 8) as Ha by (destruct Hasize as [[->|[->|[->| ->]]] _]; lia).
  rewrite uwrap_small, c_shift_ok, mask_shiftr by lia. done.
Qed.

Lemma adjust_val v : adjust_endianness ops v size =
  Ok (if memory_region_big_endian ops && negb (size =? 1) then bswap (Z.to_nat size) v else v).
Proof.
  unfold adjust_endianness, memory_region_wrong_endianness, memory_region_big_endian. destruct (endianness ops); try done.
  by destruct Hsize as [->|[->|[->| ->]]].
Qed.

Lemma dispatch_read_bytes d : memory_region_access_valid ops d addr size false = true ->
  memory_region_dispatch_read ops d addr size = Ok (d, le_sum (bytes d) addr (Z.to_nat size), false).
Proof.
  intros Hv. unfold memory_region_dispatch_read, memory_region_dispatch_read1. rewrite Hv. cbn [negb].
  destruct Hdev as [Hb (f & -> & Hf) _]. rewrite split_start. destruct parts as (m & n & Es & Ea & Hn & Hm). rewrite Ea.
  assert (Z.to_nat size = (m * n)%nat) as Et by lia.
  assert (1 <= size <= 8) as Hs8 by (destruct Hsize as [->|[->|[->| ->]]]; lia).
  destruct (memory_region_big_endian ops) eqn:Eb.
  - pose proof (read_loop_be n addr size Hn Hs8 Haddr (bytes d) f d m (Hb d) ltac:(intros a; by rewrite Hf, Nat2Z.id)
      (Z.to_nat size) 0 ltac:(lia) ltac:(lia) ltac:(lia)) as L. cbn [Nat.mul be_sum] in L. rewrite Z.shiftl_0_l in L. change (Z.of_nat 0) with 0 in L.
    rewrite L. cbn [res_bind]. rewrite adjust_val, Eb. cbn [andb res_bind]. rewrite Et, bswap_be by done.
    destruct (Z.eqb_spec size 1) as [E1|]; [|done]. cbn [negb]. replace (m * n)%nat with 1%nat by lia. cbn [be_sum le_sum].
    change (2 ^ (8 * Z.of_nat 0)) with 1. do 3 f_equal. lia.
  - pose proof (read_loop_le n addr size Hn Hs8 Haddr (bytes d) f d m (Hb d) ltac:(intros a; by rewrite Hf, Nat2Z.id)
      (Z.to_nat size) 0 ltac:(lia) ltac:(lia) ltac:(lia)) as L. cbn [Nat.mul le_sum] in L. change (Z.of_nat 0) with 0 in L.
    rewrite L. cbn [res_bind]. rewrite adjust_val, Eb. cbn [andb res_bind]. by rewrite Et.
Qed.

Lemma dispatch_write_bytes d data : memory_region_access_valid ops d addr size true = true ->
  exists d', memory_region_dispatch_write ops d addr data size = Ok (d', false) /\
    forall x, bytes d' x = if (addr <=? x) && (x <? addr + size) then byte_of data (x - addr) else bytes d x.
Proof.
  intros Hv. unfold memory_region_dispatch_write. rewrite Hv, adjust_val. cbn [negb res_bind].
  destruct Hdev as [Hb _ (f & -> & Hf)]. rewrite split_start. destruct parts as (m & n & Es & Ea & Hn & Hm). rewrite Ea.
  assert (1 <= size <= 8) as Hs8 by (destruct Hsize as [->|[->|[->| ->]]]; lia).
  set (value := if _ && _ then _ else _).
  destruct (write_loop n addr size Hn Hs8 Haddr bytes f (memory_region_big_endian ops) value m ltac:(intros; by apply Hf)
      (Z.to_nat size) 0 d ltac:(lia) ltac:(lia) ltac:(lia)) as (d' & E & B). cbn [Nat.mul] in E, B. change (Z.of_nat 0) with 0 in E, B.
  rewrite E. cbn [res_bind]. exists d'. split; [done|]. intros x. rewrite B, Z.add_0_r.
  destruct (Z.leb_spec addr x), (Z.ltb_spec x (addr + size)); try done. cbn [andb]. unfold value, pos.
  destruct (memory_region_big_endian ops); [|done]. cbn [andb]. destruct (Z.eqb_spec size 1) as [E1|]; cbn [negb].
  - f_equal. lia.
  - pose proof (byte_of_bswap (Z.to_nat size) data (x - addr) ltac:(lia)) as Y. rewrite Z2Nat.id in Y by lia. exact Y.
Qed.
End Device.

(** ** Claims *)

(** C24: accesses to a device of bytes.  For every access of 1, 2, 4 or 8 bytes
    that the device accepts, when the size that it is split into is not larger,
    a read returns the bytes in the little-endian order of the guest and a write
    stores them so and changes no other byte, whether the device is little- or
    big-endian and however the access is split.  An access that is not accepted
    reads zero, changes nothing and is reported. *)
Theorem region_access_correct {D} (ops : MemoryRegionOps D) bytes d addr size :
  byte_device ops bytes -> access_size size -> 0 <= addr /\ addr + size <= 2 ^ 64 ->
  (let asize := clamp_size size (impl_min_access_size ops) (impl_max_access_size ops) in access_size asize /\ asize <= size) ->
  memory_region_dispatch_read ops d addr size =
    (if memory_region_access_valid ops d addr size false then Ok (d, le_sum (bytes d) addr (Z.to_nat size), false) else Ok (d, 0, true)) /\
  forall data, exists d', memory_region_dispatch_write ops d addr data size = Ok (d', negb (memory_region_access_valid ops d addr size true)) /\
    forall x, bytes d' x = if memory_region_access_valid ops d addr size true && ((addr <=? x) && (x <? addr + size))
                           then byte_of data (x - addr) else bytes d x.
Proof.
  intros Hd Hs Ha Hz. split.
  - destruct (memory_region_access_valid ops d addr size false) eqn:V; [by apply dispatch_read_bytes|].
    unfold memory_region_dispatch_read. by rewrite V.
  - intros data. destruct (memory_region_access_valid ops d addr size true) eqn:V; [by apply dispatch_write_bytes|].
    unfold memory_region_dispatch_write. rewrite V. by exists d.
Qed.

(** A big-endian array of bytes that implements accesses of two bytes. *)
Definition sample_write (d : Z -> Z) (a v s : Z) : Z -> Z :=
  fun x => if (a <=? x) && (x <? a + s) then byte_of v (pos true s (x - a)) else d x.
Definition sample_ops (impl_min impl_max : Z) : MemoryRegionOps (Z -> Z) :=
  mkOps (Some (fun d a s => (d, be_sum (fun x => u8 (d x)) a (Z.to_nat s)))) (Some sample_write) DEVICE_BIG_ENDIAN
    0 0 false None impl_min impl_max false [] [].

Lemma sample_ops_bytes m n : byte_device (sample_ops m n) (fun d x => u8 (d x)).
Proof.
  split; [intros d x; apply (uwrap_range 8); lia|by eexists|]. exists sample_write. split; [done|]. intros d a v s x Ha.
  unfold sample_write. cbn [memory_region_big_endian endianness sample_ops]. destruct (_ && _); [|done].
  apply uwrap_small. unfold byte_of. change 255 with (Z.ones 8). rewrite Z.land_ones by lia. apply Z.mod_pos_bound. lia.
Qed.

Lemma region_access_correct_witness : exists d',
  memory_region_dispatch_write (sample_ops 0 2) (fun x => x) 0x10 0x44332211 4 = Ok (d', false) /\
  u8 (d' 0x10) = 0x11 /\ u8 (d' 0x13) = 0x44 /\ u8 (d' 0x14) = 0x14.
Proof.
  destruct (region_access_correct (sample_ops 0 2) (fun d x => u8 (d x)) (fun x => x) 0x10 4 (sample_ops_bytes 0 2)) as [_ H].
  - unfold access_size. lia.
  - lia.
  - split; [right; left; reflexivity|vm_compute; congruence].
  - destruct (H 0x44332211) as (d' & E & B). exists d'. split; [exact E|]. rewrite !B. vm_compute. done.
Defined.

(** Accesses that are smaller than what a device implements.  On a
    big-endian device a read shifts by a negative number of bits, which is
    undefined; on a little-endian one a write stores zeroes over the bytes
    behind the access. *)
Theorem narrow_access_broken {D} (ops : MemoryRegionOps D) bytes d addr size :
  byte_device ops bytes -> access_size size -> access_size (impl_min_access_size ops) -> size < impl_min_access_size ops ->
  0 <= addr /\ addr + impl_min_access_size ops <= 2 ^ 64 ->
  if memory_region_big_endian ops
  then memory_region_access_valid ops d addr size false = true -> memory_region_dispatch_read ops d addr size = Err UndefinedShift
  else memory_region_access_valid ops d addr size true = true -> forall data, 0 <= data < 2 ^ (8 * size) ->
    exists d', memory_region_dispatch_write ops d addr data size = Ok (d', false) /\
      forall x, addr + size <= x < addr + impl_min_access_size ops -> bytes d' x = 0.
Proof.
  intros [Hb (f & Ef & Hf) (g & Eg & Hw)] Hs Hm Hlt Ha. set (asize := impl_min_access_size ops) in *.
  assert (clamp_size size asize (impl_max_access_size ops) = asize) as Ec.
  { unfold clamp_size. destruct (Z.eqb_spec asize 0); destruct Hm as [|[|[|]]]; try lia; destruct (_ =? 0); lia. }
  assert (1 <= size < asize /\ asize <= 8) as [Hr H8] by (destruct Hs as [->|[->|[->| ->]]], Hm as [->|[->|[->| ->]]]; lia).
  assert (forall access v, access_with_adjusted_size addr v size asize (impl_max_access_size ops) access ops d =
    let* (d, value) := access d addr v asize (if memory_region_big_endian ops then u32 ((size - asize - 0) * 8) else u32 (0 * 8)) (Z.ones (asize * 8)) in
    Ok (d, value)) as Step.
  { intros access v. unfold access_with_adjusted_size. rewrite Ec, uwrap_small, c_shift_ok, mask_shiftr by lia. cbn [res_bind].
    destruct (Z.to_nat size) as [|n] eqn:En; [lia|]. cbn [access_loop]. destruct (Z.ltb_spec 0 size); [|lia].
    rewrite Z.add_0_r, (uwrap_small 64 addr) by lia. destruct (access _ _ _ _ _ _) as [[d1 v1]|]; [|done]. cbn [res_bind].
    rewrite (uwrap_small 32) by lia. destruct n; cbn [access_loop]; (destruct (Z.ltb_spec (0 + asize) size); [lia|done]). }
  destruct (memory_region_big_endian ops) eqn:Eb.
  - intros Hv. unfold memory_region_dispatch_read, memory_region_dispatch_read1. rewrite Hv, Ef. cbn [negb]. fold asize. rewrite Step.
    unfold memory_region_read_accessor. rewrite Hf. unfold merge, c_shift.
    assert (u32 ((size - asize - 0) * 8) = 2 ^ 32 + (size - asize) * 8) as ->.
    { transitivity (u32 (2 ^ 32 + (size - asize) * 8)); [apply uwrap_eq_mod with (k := -1); lia|apply uwrap_small; lia]. }
    destruct (Z.ltb_spec (2 ^ 32 + (size - asize) * 8) 64); [lia|]. by rewrite andb_false_r.
  - intros Hv data Hd. unfold memory_region_dispatch_write. rewrite Hv, Eg. cbn [negb]. unfold adjust_endianness.
    change (memory_region_wrong_endianness ops) with (memory_region_big_endian ops). rewrite Eb. cbn [res_bind]. fold asize. rewrite Step.
    unfold memory_region_write_accessor, part. rewrite c_shift_ok by done. cbn [res_bind]. eexists. split; [done|].
    intros x Hx. rewrite Hw by lia. destruct (Z.leb_spec addr x), (Z.ltb_spec x (addr + asize)); try lia. cbn [andb pos].
    change (u32 (0 * 8)) with 0. rewrite Z.shiftr_0_r.
    pose proof (Z.pow_le_mono_r 2 (8 * size) (asize * 8)). rewrite Z.land_ones, Z.mod_small by lia.
    unfold byte_of. rewrite Z.shiftr_div_pow2 by lia. rewrite Z.div_small; [done|].
    pose proof (Z.pow_le_mono_r 2 (8 * size) (8 * (x - addr))). lia.
Qed.

Lemma narrow_access_broken_witness :
  memory_region_dispatch_read (sample_ops 4 4) (fun x => x) 0x10 1 = Err UndefinedShift.
Proof.
  apply (narrow_access_broken (sample_ops 4 4) (fun d x => u8 (d x)) (fun x => x) 0x10 1 (sample_ops_bytes 4 4));
    [by left|by right; right; left|cbn; lia|cbn; lia|reflexivity].
Defined.
