(* ===== verification/PhysAccess.v ===== *)
(** * Physical memory accesses ([exec.c])

    Devices, the debugger and table walks access the address space by guest
    physical addresses: an address is translated to a region and an offset, RAM
    is copied, other regions are accessed through their callbacks.  Regions
    with an IOMMU are not part of the model, and the target is little-endian.

    The state has the devices, the RAM blocks with their bitmaps, host memory by
    the byte and the bounce buffer.  The callbacks of the regions act on the
    devices. *)

From stdpp Require Import base list numbers.
From S2P Require Import Prelude Int128 HostUtils PhysMap RamList RamListFacts MemRegion Cputlb DirtyTracking.
Import RamList MemRegion.

(** The address space: what the TLB uses of it, [mr->readonly] and [mr->ops]. *)
Record bus (D : Type) : Type := mkBus {
  mach : machine; readonly : mref -> bool; ops : mref -> MemoryRegionOps D
}.
Arguments mkBus {D}. Arguments mach {D}. Arguments readonly {D}. Arguments ops {D}.

Record BounceBuffer : Type := mkBounce { bb_mr : mref; bb_buffer : list Z; bb_addr : Z; bb_len : Z }.

Record system (D : Type) : Type := mkSys {
  dev : D; ram_list : RAMList; mem : Z -> Z; bounce : option BounceBuffer
}.
Arguments mkSys {D}. Arguments dev {D}. Arguments ram_list {D}. Arguments mem {D}. Arguments bounce {D}.

Definition set_dev {D} (s : system D) (d : D) : system D := mkSys d (ram_list s) (mem s) (bounce s).
Definition set_ram {D} (s : system D) (rl : RAMList) (m : Z -> Z) : system D := mkSys (dev s) rl m (bounce s).
Definition set_bounce {D} (s : system D) (bb : option BounceBuffer) : system D := mkSys (dev s) (ram_list s) (mem s) bb.

(** [memcpy] from and to host memory. *)
Definition load_bytes (m : Z -> Z) (ptr : Z) (n : nat) : list Z := (fun i => u8 (m (u64 (ptr + i)))) <$> seqZ 0 (Z.of_nat n).
Fixpoint store_bytes (m : Z -> Z) (ptr : Z) (buf : list Z) : Z -> Z :=
  match buf with
  | [] => m
  | x :: buf => store_bytes (fun a => if a =? ptr then x else m a) (u64 (ptr + 1)) buf
  end.

(** [ldl_p] and the like on a little-endian target, and their inverse. *)
Definition le_val (l : list Z) : Z := foldr (fun x v => x + 2 ^ 8 * v) 0 l.
Fixpoint le_bytes (n : nat) (v : Z) : list Z :=
  match n with O => [] | S n => v mod 2 ^ 8 :: le_bytes n (v / 2 ^ 8) end.

Section Access.
Context {D : Type} `{CodeCache} (b : bus D).
Implicit Types s : system D.

Definition memory_access_is_direct (mr : mref) (is_write : bool) : bool :=
  if is_ram (mach b) mr then negb (is_write && readonly b mr)
  else if is_romd (mach b) mr then negb is_write
  else false.

(** The region, the offset in it and the length. *)
Definition address_space_translate (addr plen : Z) (is_write : bool) : res (mref * Z * Z) :=
  let len := plen in
  let* (n, addr, _) := address_space_translate_internal (region_size (mach b)) (dispatch (mach b)) addr plen true in
  let* section := aget (sections (PhysMap.map (dispatch (mach b)))) n in
  let mr := sec_mr section in
  let len := if memory_access_is_direct mr is_write
             then Z.min (u64 (page_base addr + PhysMap.TARGET_PAGE_SIZE - addr)) len else len in
  Ok (mr, addr, len).

Definition qemu_fls (i : Z) : Z := 32 - clz32 i.

Definition memory_access_size (mr : mref) (l addr : Z) : Z :=
  let access_size_max := if valid_max_access_size (ops b mr) =? 0 then 4 else valid_max_access_size (ops b mr) in
  let access_size_max :=
    if negb (impl_unaligned (ops b mr)) then
      let align_size_max := u32 (Z.land addr (u64 (- addr))) in
      if negb (align_size_max =? 0) && (align_size_max <? access_size_max) then align_size_max else access_size_max
    else access_size_max in
  let l := if access_size_max <? l then access_size_max else l in
  if negb (Z.land l (l - 1) =? 0) then Z.shiftl 1 (qemu_fls l - 1) else l.

(** The sizes of the [switch]. *)
Definition io_size (l : Z) : bool := (l =? 8) || (l =? 4) || (l =? 2) || (l =? 1).

(** [address_space_rw] with [is_write]; the buffer has the bytes left. *)
Fixpoint rw_write (fuel : nat) s (addr : Z) (buf : list Z) : res (system D * bool) :=
  if (Z.of_nat (List.length buf)) <=? 0 then Ok (s, false) else
  match fuel with
  | O => Err OutOfFuel
  | S fuel =>
      let* (mr, addr1, l) := address_space_translate addr (Z.of_nat (List.length buf)) true in
      let* (s, l, error) :=
        if negb (memory_access_is_direct mr true) then
          let l := memory_access_size mr l addr1 in
          let* _ := c_assert (io_size l) in
          let* (d, error) := io_mem_write (ops b mr) (dev s) addr1 (le_val (take (Z.to_nat l) buf)) l in
          Ok (set_dev s d, l, error)
        else
          let addr1 := u64 (addr1 + ram_addr (mach b) mr) in
          let* (ptr, rl) := qemu_get_ram_ptr (ram_list s) addr1 in
          let m := store_bytes (mem s) ptr (take (Z.to_nat l) buf) in
          let* rl := invalidate_and_set_dirty rl addr1 l in
          Ok (set_ram s rl m, l, false) in
      let* (s, e) := rw_write fuel s (u64 (addr + l)) (drop (Z.to_nat l) buf) in
      Ok (s, error || e)
  end.

(** [address_space_rw] without [is_write]; the bytes read and the error. *)
Fixpoint rw_read (fuel : nat) s (addr len : Z) : res (system D * list Z * bool) :=
  if len <=? 0 then Ok (s, [], false) else
  match fuel with
  | O => Err OutOfFuel
  | S fuel =>
      let* (mr, addr1, l) := address_space_translate addr len false in
      let* (s, l, bytes, error) :=
        if negb (memory_access_is_direct mr false) then
          let l := memory_access_size mr l addr1 in
          let* _ := c_assert (io_size l) in
          let* (d, val, error) := io_mem_read (ops b mr) (dev s) addr1 l in
          Ok (set_dev s d, l, le_bytes (Z.to_nat l) val, error)
        else
          let* (ptr, rl) := qemu_get_ram_ptr (ram_list s) (u64 (ram_addr (mach b) mr + addr1)) in
          Ok (set_ram s rl (mem s), l, load_bytes (mem s) ptr (Z.to_nat l), false) in
      let* (s, rest, e) := rw_read fuel s (u64 (addr + l)) (len - l) in
      Ok (s, bytes ++ rest, error || e)
  end.

(** Every turn handles at least a byte. *)
Definition address_space_write s (addr : Z) (buf : list Z) : res (system D * bool) := rw_write (List.length buf) s addr buf.
Definition address_space_read s (addr len : Z) : res (system D * list Z * bool) := rw_read (Z.to_nat len) s addr len.

Fixpoint access_valid_loop (fuel : nat) s (addr len : Z) (is_write : bool) : res bool :=
  if len <=? 0 then Ok true else
  match fuel with
  | O => Err OutOfFuel
  | S fuel =>
      let* (mr, xlat, l) := address_space_translate addr len is_write in
      if negb (memory_access_is_direct mr is_write) then
        let l := memory_access_size mr l addr in
        if negb (memory_region_access_valid (ops b mr) (dev s) xlat l is_write) then Ok false
        else access_valid_loop fuel s (u64 (addr + l)) (len - l) is_write
      else access_valid_loop fuel s (u64 (addr + l)) (len - l) is_write
  end.
Definition address_space_access_valid s (addr len : Z) (is_write : bool) : res bool :=
  access_valid_loop (Z.to_nat len) s addr len is_write.

(** ROM loading ([WRITE_DATA]): writes to RAM and ROM, and nothing elsewhere. *)
Fixpoint cpu_physical_memory_write_rom_internal (fuel : nat) s (addr : Z) (buf : list Z) : res (system D) :=
  if (Z.of_nat (List.length buf)) <=? 0 then Ok s else
  match fuel with
  | O => Err OutOfFuel
  | S fuel =>
      let* (mr, addr1, l) := address_space_translate addr (Z.of_nat (List.length buf)) true in
      let* s :=
        if negb (is_ram (mach b) mr || is_romd (mach b) mr) then Ok s
        else
          let addr1 := u64 (addr1 + ram_addr (mach b) mr) in
          let* (ptr, rl) := qemu_get_ram_ptr (ram_list s) addr1 in
          let m := store_bytes (mem s) ptr (take (Z.to_nat l) buf) in
          let* rl := invalidate_and_set_dirty rl addr1 l in
          Ok (set_ram s rl m) in
      cpu_physical_memory_write_rom_internal fuel s (u64 (addr + l)) (drop (Z.to_nat l) buf)
  end.
Definition cpu_physical_memory_write_rom s (addr : Z) (buf : list Z) : res (system D) := cpu_physical_memory_write_rom_internal (List.length buf) s addr buf.

(** ** Words *)

(** The bodies of [lduw_phys_internal], [ldl_phys_internal] and
    [ldq_phys_internal], which differ in the size. *)
Definition ld_phys_internal (size : Z) s (addr : Z) (endian : device_endian) : res (system D * Z) :=
  let* (mr, addr1, l) := address_space_translate addr size false in
  if (l <? size) || negb (memory_access_is_direct mr false) then
    let* (d, val, _) := io_mem_read (ops b mr) (dev s) addr1 size in
    Ok (set_dev s d, match endian with DEVICE_BIG_ENDIAN => bswap (Z.to_nat size) val | _ => val end)
  else
    let* (ptr, rl) := qemu_get_ram_ptr (ram_list s) (u64 (page_base (ram_addr (mach b) mr) + addr1)) in
    let bytes := load_bytes (mem s) ptr (Z.to_nat size) in
    Ok (set_ram s rl (mem s), match endian with DEVICE_BIG_ENDIAN => le_val (rev bytes) | _ => le_val bytes end).

Definition lduw_phys s (addr : Z) : res (system D * Z) :=
  let* (s, val) := ld_phys_internal 2 s addr DEVICE_NATIVE_ENDIAN in Ok (s, u32 val).
Definition ldl_phys s (addr : Z) : res (system D * Z) :=
  let* (s, val) := ld_phys_internal 4 s addr DEVICE_NATIVE_ENDIAN in Ok (s, u32 val).
Definition ldq_phys s (addr : Z) : res (system D * Z) :=
  let* (s, val) := ld_phys_internal 8 s addr DEVICE_NATIVE_ENDIAN in Ok (s, u64 val).
Definition ldub_phys s (addr : Z) : res (system D * Z) :=
  let* (s, bytes, _) := address_space_read s addr 1 in
  let* val := aget bytes 0 in Ok (s, val).

(** The bodies of [stw_phys_internal] and [stl_phys_internal]. *)
Definition st_phys_internal (size : Z) s (addr val : Z) (endian : device_endian) : res (system D) :=
  let* (mr, addr1, l) := address_space_translate addr size true in
  if (l <? size) || negb (memory_access_is_direct mr true) then
    let val := match endian with DEVICE_BIG_ENDIAN => bswap (Z.to_nat size) val | _ => val end in
    let* (d, _) := io_mem_write (ops b mr) (dev s) addr1 val size in
    Ok (set_dev s d)
  else
    let addr1 := u64 (addr1 + page_base (ram_addr (mach b) mr)) in
    let* (ptr, rl) := qemu_get_ram_ptr (ram_list s) addr1 in
    let bytes := le_bytes (Z.to_nat size) val in
    let m := store_bytes (mem s) ptr match endian with DEVICE_BIG_ENDIAN => rev bytes | _ => bytes end in
    let* rl := invalidate_and_set_dirty rl addr1 size in
    Ok (set_ram s rl m).

Definition stw_phys s (addr val : Z) : res (system D) := st_phys_internal 2 s addr (u32 val) DEVICE_NATIVE_ENDIAN.
Definition stl_phys s (addr val : Z) : res (system D) := st_phys_internal 4 s addr (u32 val) DEVICE_NATIVE_ENDIAN.
Definition stb_phys s (addr val : Z) : res (system D) :=
  let* (s, _) := address_space_write s addr [u8 val] in Ok s.
Definition stq_phys s (addr val : Z) : res (system D) :=
  let* (s, _) := address_space_write s addr (le_bytes 8 val) in Ok s.

(** ** Mapping *)

Inductive pointer : Type := HostPtr (ptr : Z) | BouncePtr.

(** How far the region goes on: [(addr, len, done)]. *)
Fixpoint map_loop (fuel : nat) (mr : mref) (base addr len done : Z) (is_write : bool) : res Z :=
  if len =? 0 then Ok done else
  match fuel with
  | O => Err OutOfFuel
  | S fuel =>
      let* (this_mr, xlat, l) := address_space_translate addr len is_write in
      if negb (bool_decide (this_mr = mr)) || negb (xlat =? u64 (base + done)) then Ok done
      else map_loop fuel mr base (u64 (addr + l)) (len - l) (u64 (done + l)) is_write
  end.

(** The pointer and the length that is mapped, or [NULL]; [garbage] is what a
    new bounce buffer has in it. *)
Definition address_space_map (garbage : Z -> Z) s (addr len : Z) (is_write : bool) : res (system D * option (pointer * Z)) :=
  if len =? 0 then Ok (s, None) else
  let* (mr, xlat, l) := address_space_translate addr len is_write in
  if negb (memory_access_is_direct mr is_write) then
    match bounce s with
    | Some _ => Ok (s, None)
    | None =>
        let l := Z.min l PhysMap.TARGET_PAGE_SIZE in
        let fresh := (fun i => u8 (garbage i)) <$> seqZ 0 l in
        let* (s, buffer) := if negb is_write then let* (s, bytes, _) := address_space_read s addr l in Ok (s, bytes) else Ok (s, fresh) in
        Ok (set_bounce s (Some (mkBounce mr buffer addr l)), Some (BouncePtr, l))
    end
  else
    let* done := map_loop (Z.to_nat len) mr xlat (u64 (addr + l)) (len - l) l is_write in
    let* (ptr, plen) := qemu_ram_ptr_length (ram_list s) (u64 (ram_addr (mach b) mr + xlat)) done in
    Ok (s, Some (HostPtr ptr, plen)).

(** Every page of the mapping that was written is marked. *)
Fixpoint unmap_loop (fuel : nat) (rl : RAMList) (addr1 access_len : Z) : res RAMList :=
  if access_len =? 0 then Ok rl else
  match fuel with
  | O => Err OutOfFuel
  | S fuel =>
      let l := if access_len <? PhysMap.TARGET_PAGE_SIZE then access_len else PhysMap.TARGET_PAGE_SIZE in
      let* rl := invalidate_and_set_dirty rl addr1 l in
      unmap_loop fuel rl (u64 (addr1 + l)) (access_len - l)
  end.

Definition address_space_unmap s (buffer : pointer) (is_write : bool) (access_len : Z) : res (system D) :=
  match buffer with
  | HostPtr ptr =>
      match qemu_ram_addr_from_host (ram_list s) ptr with
      | None => Err AssertFailed
      | Some (_, addr1) =>
          let* rl := if is_write then unmap_loop (Z.to_nat access_len) (ram_list s) addr1 access_len else Ok (ram_list s) in
          Ok (set_ram s rl (mem s))
      end
  | BouncePtr =>
      match bounce s with
      | None => Err AssertFailed
      | Some bb =>
          let* s := if is_write then
                      let* (s, _) := address_space_write s (bb_addr bb) (take (Z.to_nat access_len) (bb_buffer bb)) in Ok s
                    else Ok s in
          Ok (set_bounce s None)
      end
  end.

(** Whether an address is neither RAM nor ROM. *)
Definition cpu_physical_memory_is_io (addr : Z) : res bool :=
  let* (mr, _, _) := address_space_translate addr 1 false in
  Ok (negb (is_ram (mach b) mr || is_romd (mach b) mr)).
End Access.
