(* ===== verification/PhysAccessFacts.v ===== *)
(** * Physical memory accesses to RAM

    On a memory map [f] whose RAM is mapped in whole pages, [address_space_rw]
    reads and writes the host bytes that the addresses lead to one by one.  [address_space_map] on RAM gives a host pointer to a
    prefix of the guest range, and [address_space_unmap] marks what was written
    through it. *)

From stdpp Require Import base list numbers sets.
From S2P Require Import Prelude Int128 HostUtils PhysMap Dispatch RamList RamListFacts MemRegion Cputlb DirtyTracking PhysAccess.
Import Int128 RamList MemRegion.

(** The length computation does not trip the assertion of [int128_get64]. *)
Lemma clip_total R addr size : wf R -> 0 <= addr < 2 ^ 64 -> addr <= val R <= 2 ^ 64 -> 0 <= size < 2 ^ 63 ->
  exists sz, int128_get64 (int128_min (int128_sub R (int128_make64 addr)) (int128_make64 size)) = Ok sz.
Proof.
  intros Hw Ha Hr Hs. rewrite !make64_of_Z by lia.
  assert (forall z, 0 <= z < 2 ^ 64 -> val (of_Z z) = z) as V by (intros z Hz; apply val_of_Z, in64; lia).
  assert (val (int128_sub R (of_Z addr)) = val R - addr) as Vs.
  { rewrite int128_sub_val, V by (done || apply of_Z_wf). apply swrap_small; lia. }
  unfold int128_min. match goal with |- context [if ?b then _ else _] => destruct b eqn:E end.
  - exists (val R - addr). rewrite get64_val; [by rewrite Vs|apply int128_sub_wf|].
    rewrite Vs. split; [lia|]. unfold int128_le, int128_lt in E. rewrite int128_ge_val, Vs, V in E by (apply int128_sub_wf || apply of_Z_wf || lia).
    lia.
  - exists size. rewrite get64_val by (apply of_Z_wf || rewrite V; lia). by rewrite V by lia.
Qed.

(** Bytes stored one by one. *)
Fixpoint store_at (m : Z -> Z) (hs buf : list Z) : Z -> Z :=
  match hs, buf with
  | h :: hs, x :: buf => store_at (fun a => if a =? h then x else m a) hs buf
  | _, _ => m
  end.

Lemma store_at_app hs1 : forall m hs2 buf1 buf2, List.length hs1 = List.length buf1 ->
  store_at m (hs1 ++ hs2) (buf1 ++ buf2) = store_at (store_at m hs1 buf1) hs2 buf2.
Proof. induction hs1 as [|h hs1 IH]; intros m hs2 [|x buf1] buf2 E; try done. cbn. apply IH. by injection E. Qed.

Lemma store_bytes_at buf : forall m ptr, 0 <= ptr -> ptr + Z.of_nat (List.length buf) <= 2 ^ 64 ->
  store_bytes m ptr buf = store_at m (seqZ ptr (Z.of_nat (List.length buf))) buf.
Proof.
  induction buf as [|x buf IH]; intros m ptr Hp Hl; [done|]. cbn [store_bytes List.length] in *.
  rewrite (seqZ_cons ptr) by lia. cbn [store_at].
  replace (Z.pred (Z.of_nat (S (List.length buf)))) with (Z.of_nat (List.length buf)) by lia. destruct buf as [|y buf]; [done|]. cbn [List.length] in *.
  rewrite uwrap_small by lia. replace (Z.succ ptr) with (ptr + 1) by lia. apply IH; cbn [List.length]; lia.
Qed.

Lemma load_bytes_at m ptr n : 0 <= ptr -> ptr + Z.of_nat n <= 2 ^ 64 -> load_bytes m ptr n = (fun h => u8 (m h)) <$> seqZ ptr (Z.of_nat n).
Proof.
  intros Hp Hl. unfold load_bytes. apply list_eq. intros i. rewrite !list_lookup_fmap.
  destruct (decide (i < n)%nat) as [Hi|Hi].
  - rewrite !lookup_seqZ_lt by lia. cbn. rewrite Z.add_0_l, (uwrap_small 64) by lia. done.
  - rewrite !lookup_seqZ_ge by lia. done.
Qed.

Section Ram.
Context {D : Type} `{CodeCache} (b : bus D) (f : amap).

(** The dispatch implements [f], sections lie in their regions, RAM addresses
    are page-aligned, and RAM is mapped in whole pages: the last is not checked
    by [address_space_translate], which runs over on other maps. *)
Record ram_map : Prop := {
  rm_lookup : forall a, 0 <= a < 2 ^ 64 -> looks_up (dispatch (mach b)) a (f a);
  rm_size : forall n s id, aget (sections (PhysMap.map (dispatch (mach b)))) n = Ok s -> sec_mr s = GuestMR id ->
    wf (region_size (mach b) id) /\ val (sec_size s) <= val (region_size (mach b) id) <= 2 ^ 64;
  rm_addr : forall mr, 0 <= ram_addr (mach b) mr < 2 ^ 64 /\ ram_addr (mach b) mr mod 1024 = 0;
  rm_pages : forall a mr off ro k, f a = Some (mr, off, ro) -> is_ram (mach b) mr || is_romd (mach b) mr = true ->
    0 <= k -> off mod 1024 + k < 1024 -> f (a + k) = Some (mr, off + k, ro)
}.

(** The host address behind a guest address for an access. *)
Definition backed (rl : RAMList) (w : bool) (a h : Z) : Prop := exists mr off ro blk,
  f a = Some (mr, off, ro) /\ memory_access_is_direct b mr w = true /\ blk ∈ blocks rl /\ 0 <= off /\
  offset blk <= ram_addr (mach b) mr + off < end_of blk /\ h = host blk + (ram_addr (mach b) mr + off - offset blk).

Hypothesis Hmap : ram_map.

Lemma translate_spec a len w mr off ro : 0 <= a < 2 ^ 64 -> 0 <= len < 2 ^ 63 -> f a = Some (mr, off, ro) ->
  address_space_translate b a len w = Ok (mr, off, if memory_access_is_direct b mr w then Z.min (1024 - off mod 1024) len else len).
Proof.
  intros Ha Hl Ef. destruct (rm_lookup Hmap a Ha) as (n & s & El & Es & Hd). rewrite Ef in Hd. destruct Hd as (So & Hin & Hd).
  unfold dest_of in Hd. injection Hd as Em Eo _. unfold address_space_translate, address_space_translate_internal.
  rewrite El. cbn [res_bind]. rewrite Es. cbn [res_bind]. unfold in_section in Hin. pose proof (so_start _ So).
  destruct (so_guest _ So) as [id Hid]. destruct (rm_size Hmap n s id Es Hid) as [Wr Hr].
  assert (0 <= a - offset_within_address_space s < val (sec_size s)) as Hin' by lia.
  rewrite (uwrap_small 64 (a - _)) by lia. rewrite Hid. cbn [mref_size].
  destruct (clip_total (region_size (mach b) id) (a - offset_within_address_space s) len) as [sz ->]; [done|lia|lia|lia|].
  cbn [res_bind]. rewrite Es. cbn [res_bind]. rewrite Eo, Em. do 2 f_equal. destruct (memory_access_is_direct b mr w); [|done].
  assert (0 <= off < 2 ^ 64) as Ho by (rewrite <- Eo; apply (uwrap_range 64); lia).
  rewrite page_base_val by done. change PhysMap.TARGET_PAGE_SIZE with 1024. rewrite uwrap_small by dlia. f_equal. dlia.
Qed.

Lemma direct_ram mr w : memory_access_is_direct b mr w = true -> is_ram (mach b) mr || is_romd (mach b) mr = true.
Proof. unfold memory_access_is_direct. destruct (is_ram _ mr), (is_romd _ mr); done. Qed.

Lemma backed_unique rl w a h h' : ram_ok rl -> backed rl w a h -> backed rl w a h' -> h = h'.
Proof.
  intros R (mr & off & ro & blk & E & _ & Hb & Ho & Hin & ->) (mr' & off' & ro' & blk' & E' & _ & Hb' & _ & Hin' & ->).
  rewrite E in E'. injection E' as <- <- <-. destruct (block_of rl blk R Hb) as [? ? He _]. unfold RAM_ADDR_MAX in He.
  rewrite (block_unique (blocks rl) (ram_addr (mach b) mr + off) blk blk'); try done; [apply R|lia|..];
    (rewrite in_block_val by (lia || by eapply block_of); zcases; done || lia).
Qed.

Lemma backed_next rl w a h mr off ro k : ram_ok rl -> backed rl w a h -> f a = Some (mr, off, ro) -> 0 <= k -> off mod 1024 + k < 1024 ->
  backed rl w (a + k) (h + k).
Proof.
  intros R (mr' & off' & ro' & blk & E & Hd & Hb & Ho & Hin & ->) E' Hk Hp. rewrite E in E'. injection E' as -> -> ->.
  exists mr, (off + k), ro, blk. split; [eapply (rm_pages Hmap); try done; by eapply direct_ram|]. split; [done|]. split; [done|]. split; [lia|].
  destruct (block_of rl blk R Hb) as [? ? He [A1 A2]]. destruct (rm_addr Hmap mr) as [_ Ar]. unfold end_of in *. split; [split; [lia|dlia]|lia].
Qed.

Lemma backed_ptr rl w a h : ram_ok rl -> hosts_ok (blocks rl) -> backed rl w a h -> exists mr off ro blk,
  f a = Some (mr, off, ro) /\ memory_access_is_direct b mr w = true /\ 0 <= off < 2 ^ 64 /\ blk ∈ blocks rl /\
  0 <= ram_addr (mach b) mr + off < last_ram_offset (blocks rl) /\ last_ram_offset (blocks rl) < 2 ^ 64 /\
  qemu_get_ram_ptr rl (ram_addr (mach b) mr + off) = Ok (h, set_mru rl blk) /\
  0 <= h /\ h + (1024 - off mod 1024) <= 2 ^ 64.
Proof.
  intros R Ho (mr & off & ro & blk & E & Hd & Hb & Ho0 & Hin & ->). exists mr, off, ro, blk. destruct (block_of rl blk R Hb) as [? ? He [A1 A2]].
  destruct (last_ram_offset_spec (blocks rl) (bk_each _ (ro_blocks _ R))) as (L1 & _ & L). specialize (L blk Hb).
  destruct (rm_addr Hmap mr) as [Ar0 Ar]. destruct (Ho blk blk Hb Hb) as (H1 & H2 & _). unfold end_of, RAM_ADDR_MAX in *.
  split; [done|]. split; [done|]. split; [lia|]. split; [done|]. split; [lia|]. split; [lia|]. split.
  - unfold qemu_get_ram_ptr. rewrite (get_ram_block_in rl _ blk R Hb) by (unfold end_of; lia). cbn [res_bind]. by rewrite uwrap_small by lia.
  - split; [lia|]. dlia.
Qed.

(** Consecutive guest addresses from [a] on lead to the host addresses [hs]. *)
Definition backs (rl : RAMList) (w : bool) (a : Z) (hs : list Z) : Prop :=
  0 <= a < 2 ^ 64 /\ a + Z.of_nat (List.length hs) <= 2 ^ 64 /\ Z.of_nat (List.length hs) < 2 ^ 31 /\
  forall i h, hs !! i = Some h -> backed rl w (a + Z.of_nat i) h.

Lemma backs_blocks rl rl' w a hs : blocks rl' = blocks rl -> backs rl w a hs -> backs rl' w a hs.
Proof.
  intros E (H1 & H2 & H3 & Hb). do 3 (split; [done|]). intros i h Hi. destruct (Hb i h Hi) as (mr & off & ro & blk & Hrest).
  exists mr, off, ro, blk. by rewrite E.
Qed.

Lemma backs_drop rl w a hs n : backs rl w a hs -> (n <= List.length hs)%nat -> backs rl w (u64 (a + Z.of_nat n)) (drop n hs).
Proof.
  intros (Ha & Hl & Hs & Hb) Hn. unfold backs. rewrite length_drop.
  destruct (decide (n = List.length hs)) as [->|Hne].
  - rewrite Nat.sub_diag, drop_all. split; [apply (uwrap_range 64); lia|]. split; [pose proof (uwrap_range 64 (a + Z.of_nat (List.length hs))); lia|].
    split; [lia|]. intros i h E. by rewrite lookup_nil in E.
  - rewrite uwrap_small by lia. split; [lia|]. split; [lia|]. split; [lia|]. intros i h E. rewrite lookup_drop in E.
    replace (a + Z.of_nat n + Z.of_nat i) with (a + Z.of_nat (n + i)) by lia. by apply Hb.
Qed.

(** The turn that starts at [a]: it ends at the end of the page or of the
    access, and the host addresses are consecutive. *)
Record turn (rl : RAMList) (w : bool) (a : Z) (hs : list Z) (mr : mref) (off : Z) (n : nat) (h : Z) (blk : RAMBlock) : Prop := {
  tn_translate : address_space_translate b a (Z.of_nat (List.length hs)) w = Ok (mr, off, Z.of_nat n);
  tn_direct : memory_access_is_direct b mr w = true;
  tn_map : exists ro, forall k, 0 <= k < Z.of_nat n -> f (a + k) = Some (mr, off + k, ro);
  tn_block : blk ∈ blocks rl;
  tn_ptr : qemu_get_ram_ptr rl (ram_addr (mach b) mr + off) = Ok (h, set_mru rl blk);
  tn_ram : 0 <= ram_addr (mach b) mr + off < last_ram_offset (blocks rl) /\ last_ram_offset (blocks rl) < 2 ^ 64;
  tn_page : ram_addr (mach b) mr mod 1024 = 0 /\ 0 <= off /\ off mod 1024 + Z.of_nat n <= 1024;
  tn_size : (0 < n <= List.length hs)%nat;
  tn_host : 0 <= h /\ h + Z.of_nat n <= 2 ^ 64;
  tn_take : take n hs = seqZ h (Z.of_nat n)
}.

Lemma backs_turn rl w a hs : ram_ok rl -> hosts_ok (blocks rl) -> backs rl w a hs -> hs <> [] ->
  exists mr off n h blk, turn rl w a hs mr off n h blk.
Proof.
  intros R Ho (Ha & Hl & Hs & Hb) Hne. destruct hs as [|h hs']; [done|]. set (hs := h :: hs') in *.
  assert (0 < List.length hs)%nat as Hpos by (unfold hs; cbn [List.length]; lia).
  pose proof (Hb 0%nat h eq_refl) as B0. replace (a + Z.of_nat 0) with a in B0 by lia.
  destruct (backed_ptr rl w a h R Ho B0) as (mr & off & ro & blk & Ef & Hd & Hoff & Hblk & Hr & Hlast & Ep & Hh0 & Hh).
  set (n := Z.to_nat (Z.min (1024 - off mod 1024) (Z.of_nat (List.length hs)))).
  assert (Z.of_nat n = Z.min (1024 - off mod 1024) (Z.of_nat (List.length hs))) as En by (unfold n; dlia).
  exists mr, off, n, h, blk. split; try done.
  - rewrite (translate_spec a _ w mr off ro) by (done || lia). by rewrite Hd, En.
  - exists ro. intros k Hk. apply (rm_pages Hmap); try done; [by eapply direct_ram|lia|lia].
  - destruct (rm_addr Hmap mr) as [_ Ar]. dlia.
  - dlia.
  - lia.
  - apply list_eq. intros i. destruct (decide (i < n)%nat) as [Hi|Hi].
    + rewrite lookup_take_lt, lookup_seqZ_lt by lia. destruct (lookup_lt_is_Some_2 hs i ltac:(lia)) as [h' Eh']. rewrite Eh'. f_equal.
      eapply (backed_unique rl w (a + Z.of_nat i)); [done|by apply Hb|]. eapply backed_next; try done; lia.
    + rewrite lookup_take_ge, lookup_seqZ_ge by lia. done.
Qed.

(** ** Reading *)

Lemma rw_read_ram fuel : forall s a hs, ram_ok (ram_list s) -> hosts_ok (blocks (ram_list s)) -> backs (ram_list s) false a hs ->
  (List.length hs <= fuel)%nat ->
  exists rl', rw_read b fuel s a (Z.of_nat (List.length hs)) = Ok (set_ram s rl' (mem s), (fun h => u8 (mem s h)) <$> hs, false) /\
    ram_ok rl' /\ blocks rl' = blocks (ram_list s) /\ dirty_memory rl' = dirty_memory (ram_list s).
Proof.
  induction fuel as [|fuel IH]; intros s a hs R Ho B Hf.
  - destruct hs; [|cbn in Hf; lia]. exists (ram_list s). by destruct s.
  - destruct (decide (hs = [])) as [->|Hne]; [exists (ram_list s); by destruct s|].
    destruct (backs_turn _ _ _ _ R Ho B Hne) as (mr & off & n & h & blk & [Et Hd _ Hblk Ep Hr Hp Hn Hh Ek]).
    cbn [rw_read]. destruct (Z.leb_spec (Z.of_nat (List.length hs)) 0) as [|_]; [lia|]. rewrite Et. cbn [res_bind]. rewrite Hd. cbn [negb].
    rewrite uwrap_small, Ep by lia. cbn [res_bind]. rewrite Nat2Z.id, load_bytes_at, <- Ek by lia.
    set (s1 := set_ram s (set_mru (ram_list s) blk) (mem s)).
    destruct (IH s1 (u64 (a + Z.of_nat n)) (drop n hs)) as (rl' & E & R' & Eb & Ed); [by apply set_mru_ok|done| |rewrite length_drop; lia|].
    { apply backs_drop; [|lia]. by apply (backs_blocks (ram_list s)). }
    rewrite length_drop in E. replace (Z.of_nat (List.length hs - n)) with (Z.of_nat (List.length hs) - Z.of_nat n) in E by lia.
    exists rl'. rewrite E. cbn [res_bind]. split; [|done]. rewrite <- fmap_app, take_drop. done.
Qed.

(** ** Writing *)

(** The page of RAM behind a guest address is to be redrawn and sent. *)
Definition marked (rl : RAMList) (a : Z) : Prop := forall mr off ro, f a = Some (mr, off, ro) ->
  let page := (ram_addr (mach b) mr + off) / 1024 in
  dirty rl DIRTY_MEMORY_VGA page = true /\ dirty rl DIRTY_MEMORY_MIGRATION page = true.

Lemma marked_mono rl rl' w a h : dirtier rl rl' -> backed rl w a h -> marked rl a -> marked rl' a.
Proof.
  intros [_ Hdt] (mr & off & ro & blk & E & _ & _ & Ho & _) M mr' off' ro' E'. rewrite E in E'. injection E' as <- <- <-.
  destruct (rm_addr Hmap mr) as [Ar _]. destruct (M _ _ _ E) as [Mv Mm]. split; apply Hdt; done || dlia.
Qed.

Lemma turn_marked rl w a hs mr off n h blk rl' : turn rl w a hs mr off n h blk ->
  let page := (ram_addr (mach b) mr + off) / 1024 in
  dirty rl' DIRTY_MEMORY_VGA page = true -> dirty rl' DIRTY_MEMORY_MIGRATION page = true ->
  forall k, (k < n)%nat -> marked rl' (a + Z.of_nat k).
Proof.
  intros [_ _ [ro Hf] _ _ _ (Pa & Po & Pn) _ _ _] page Dv Dm k Hk mr' off' ro' E. rewrite Hf in E by lia. injection E as <- <- <-.
  replace ((ram_addr (mach b) mr + (off + Z.of_nat k)) / 1024) with page by (unfold page; dlia). done.
Qed.

Lemma rw_write_ram fuel : forall s a hs buf, ram_ok (ram_list s) -> hosts_ok (blocks (ram_list s)) -> backs (ram_list s) true a hs ->
  List.length buf = List.length hs -> (List.length hs <= fuel)%nat ->
  exists rl', rw_write b fuel s a buf = Ok (set_ram s rl' (store_at (mem s) hs buf), false) /\
    ram_ok rl' /\ dirtier (ram_list s) rl' /\ forall i, (i < List.length hs)%nat -> marked rl' (a + Z.of_nat i).
Proof.
  induction fuel as [|fuel IH]; intros s a hs buf R Ho B El Hf.
  - destruct hs; [|cbn in Hf; lia]. destruct buf; [|done]. exists (ram_list s). split; [by destruct s|]. split; [done|]. split; [done|]. cbn. lia.
  - destruct (decide (hs = [])) as [->|Hne].
    { destruct buf; [|done]. exists (ram_list s). split; [by destruct s|]. split; [done|]. split; [done|]. cbn. lia. }
    destruct (backs_turn _ _ _ _ R Ho B Hne) as (mr & off & n & h & blk & T). pose proof T as [Et Hd _ Hblk Ep Hr Hp Hn Hh Ek].
    cbn [rw_write]. rewrite El. destruct (Z.leb_spec (Z.of_nat (List.length hs)) 0) as [|_]; [lia|]. rewrite Et. cbn [res_bind]. rewrite Hd. cbn [negb].
    replace (off + ram_addr (mach b) mr) with (ram_addr (mach b) mr + off) by lia. rewrite uwrap_small, Ep by lia. cbn [res_bind].
    rewrite Nat2Z.id. destruct (device_write_marks (set_mru (ram_list s) blk) (ram_addr (mach b) mr + off) (Z.of_nat n))
      as (rl1 & -> & R1 & D1 & Mv & Mm); [by apply set_mru_ok|apply Hr|]. cbn [res_bind].
    assert (List.length (take n buf) = n) as Eln by (rewrite length_take; lia).
    rewrite store_bytes_at, Eln, <- Ek by (rewrite ?Eln; lia). set (s1 := set_ram s rl1 _).
    destruct (IH s1 (u64 (a + Z.of_nat n)) (drop n hs) (drop n buf)) as (rl' & E & R' & D' & M'); [done|by cbn; rewrite (proj1 D1)| | | |].
    { apply backs_drop; [|lia]. by apply (backs_blocks (ram_list s)); [apply D1|]. }
    { rewrite !length_drop. lia. }
    { rewrite length_drop. lia. }
    exists rl'. rewrite Nat2Z.id, E. cbn [res_bind]. split.
    { unfold set_ram, s1. cbn [mem dev bounce set_ram]. rewrite <- store_at_app by (rewrite !length_take; lia). by rewrite !take_drop. }
    split; [done|]. split; [by eapply dirtier_trans; [|exact D']|]. intros i Hi. destruct (decide (i < n)%nat) as [Hin|Hin].
    + destruct B as (? & ? & ? & Hb). destruct (lookup_lt_is_Some_2 hs i Hi) as [hi Ehi].
      assert (backed rl1 true (a + Z.of_nat i) hi) as Bi by (destruct (Hb i hi Ehi) as (m0 & o0 & r0 & b0 & Hx); exists m0, o0, r0, b0; by rewrite (proj1 D1)).
      eapply marked_mono; [exact D'|exact Bi|]. by eapply turn_marked.
    + destruct B as (? & ? & ? & _). specialize (M' (i - n)%nat). rewrite length_drop in M'. rewrite uwrap_small in M' by lia.
      replace (a + Z.of_nat i) with (a + Z.of_nat n + Z.of_nat (i - n)) by lia. apply M'. lia.
Qed.
End Ram.

Lemma store_at_other hs : forall m buf x, x ∉ hs -> store_at m hs buf x = m x.
Proof.
  induction hs as [|h hs IH]; intros m [|y buf] x Hx; try done. cbn [store_at]. rewrite IH by set_solver.
  destruct (Z.eqb_spec x h); [set_solver|done].
Qed.

Lemma store_at_read hs : forall m buf, NoDup hs -> List.length buf = List.length hs -> store_at m hs buf <$> hs = buf.
Proof.
  induction hs as [|h hs IH]; intros m [|y buf] Nd El; try done. apply NoDup_cons in Nd as [Hh Nd]. cbn [store_at fmap list_fmap].
  rewrite store_at_other, Z.eqb_refl by done. f_equal. apply IH; [done|]. by injection El.
Qed.

(** ** Mapping guest memory *)

Section Map.
Context {D : Type} `{CodeCache} (b : bus D) (f : amap).
Hypothesis Hmap : ram_map b f.

(** The first [n] addresses from [a] on are consecutive in one region. *)
Definition run (a : Z) (mr : mref) (base : Z) (n : nat) : Prop :=
  forall i, (i < n)%nat -> exists ro, f (a + Z.of_nat i) = Some (mr, base + Z.of_nat i, ro).

Lemma run_ram rl w a hs mr base n : ram_ok rl -> backs b f rl w a hs -> run a mr base n -> (0 < n <= List.length hs)%nat ->
  0 <= ram_addr (mach b) mr + base /\ ram_addr (mach b) mr + base + Z.of_nat n <= last_ram_offset (blocks rl) < 2 ^ 64.
Proof.
  intros R (_ & _ & _ & Hb) Hr Hn.
  assert (forall i, (i < n)%nat -> 0 <= ram_addr (mach b) mr + (base + Z.of_nat i) < last_ram_offset (blocks rl)) as In.
  { intros i Hi. destruct (lookup_lt_is_Some_2 hs i ltac:(lia)) as [h Eh]. destruct (Hb i h Eh) as (mr' & off & ro & blk & E & _ & Hblk & Ho & Hin & _).
    destruct (Hr i Hi) as [ro' E']. rewrite E in E'. injection E' as -> -> ->. destruct (block_of rl blk R Hblk) as [? ? _ _].
    destruct (last_ram_offset_spec (blocks rl) (bk_each _ (ro_blocks _ R))) as (_ & _ & L). specialize (L blk Hblk). lia. }
  destruct (last_ram_offset_spec (blocks rl) (bk_each _ (ro_blocks _ R))) as (L1 & _). unfold RAM_ADDR_MAX in L1.
  pose proof (In 0%nat ltac:(lia)). pose proof (In (n - 1)%nat ltac:(lia)). lia.
Qed.

Lemma map_loop_spec fuel : forall rl w a hs mr base n, ram_ok rl -> hosts_ok (blocks rl) -> backs b f rl w a hs ->
  run a mr base n -> (0 < n <= List.length hs)%nat -> (List.length hs - n <= fuel)%nat ->
  exists n', map_loop b fuel mr base (u64 (a + Z.of_nat n)) (Z.of_nat (List.length hs) - Z.of_nat n) (Z.of_nat n) w = Ok (Z.of_nat n') /\
    (n <= n' <= List.length hs)%nat /\ run a mr base n'.
Proof.
  induction fuel as [|fuel IH]; intros rl w a hs mr base n R Ho B Hr Hn Hf.
  - exists n. assert (n = List.length hs) as -> by lia. cbn [map_loop]. rewrite Z.sub_diag. split; [done|]. split; [lia|done].
  - cbn [map_loop]. destruct (Z.eqb_spec (Z.of_nat (List.length hs) - Z.of_nat n) 0) as [Hz|Hz]; [exists n; split; [done|]; split; [lia|done]|].
    pose proof (backs_drop b f rl w a hs n B ltac:(lia)) as B'. destruct (run_ram rl w a hs mr base n R B Hr Hn) as [P0 P1].
    destruct (backs_turn b f Hmap rl w _ _ R Ho B') as (mr' & off & k & h & blk & [Et Hd [ro Hk] _ _ Hram _ Hsz _ _]).
    { intros En. apply (f_equal List.length) in En. rewrite length_drop in En. cbn in En. lia. }
    rewrite length_drop in Et, Hsz. rewrite Nat2Z.inj_sub in Et by lia. rewrite Et. cbn [res_bind].
    destruct (rm_addr b f Hmap mr) as [Hra _]. destruct (Hr 0%nat ltac:(lia)) as [ro0 E0].
    destruct B as (Ba1 & Ba2 & Ba3 & Bb). destruct (lookup_lt_is_Some_2 hs 0 ltac:(lia)) as [h0 Eh0].
    destruct (Bb 0%nat h0 Eh0) as (m1 & o1 & r1 & b1 & E1 & _ & _ & Ho1 & _). rewrite E0 in E1. injection E1 as <- <- <-.
    rewrite (uwrap_small 64 (base + Z.of_nat n)) by lia. destruct (negb (bool_decide (mr' = mr)) || _) eqn:C; [exists n; split; [done|]; split; [lia|done]|].
    apply orb_false_iff in C as [C1 C2]. apply negb_false_iff in C1, C2. apply bool_decide_eq_true in C1 as ->. apply Z.eqb_eq in C2 as ->.
    rewrite (uwrap_small 64 (a + Z.of_nat n)) in Hk |- * by lia.
    destruct (IH rl w a hs mr base (n + k)%nat) as (n' & E & Hn' & Hr'); [done|done|done| |lia|lia|].
    { intros i Hi. destruct (decide (i < n)%nat) as [|Hin]; [by apply Hr|]. exists ro.
      specialize (Hk (Z.of_nat i - Z.of_nat n) ltac:(lia)). replace (a + Z.of_nat n + (Z.of_nat i - Z.of_nat n)) with (a + Z.of_nat i) in Hk by lia.
      rewrite Hk. do 3 f_equal. lia. }
    exists n'. split; [|split; [lia|done]]. rewrite <- E. rewrite (uwrap_small 64 (Z.of_nat n + Z.of_nat k)) by lia. f_equal; [f_equal; lia|lia|lia].
Qed.

(** The bytes of a run that lie in the block of its first byte. *)
Lemma run_hosts rl w a hs mr base n blk k : ram_ok rl -> backs b f rl w a hs -> run a mr base n -> (n <= List.length hs)%nat ->
  blk ∈ blocks rl -> offset blk <= ram_addr (mach b) mr + base -> (k <= n)%nat ->
  ram_addr (mach b) mr + base + Z.of_nat k <= end_of blk ->
  take k hs = seqZ (host blk + (ram_addr (mach b) mr + base - offset blk)) (Z.of_nat k).
Proof.
  intros R B Hr Hn Hblk Hlo Hk He. apply list_eq. intros i. destruct (decide (i < k)%nat) as [Hi|Hi].
  - rewrite lookup_take_lt, lookup_seqZ_lt by lia. destruct B as (_ & _ & _ & Hb).
    destruct (lookup_lt_is_Some_2 hs i ltac:(lia)) as [h Eh]. rewrite Eh. f_equal. pose proof (Hb i h Eh) as Bi.
    eapply (backed_unique b f rl w (a + Z.of_nat i)); [done|done|]. destruct Bi as (mr' & off & ro & blk' & E & Hd & _ & Ho & _).
    destruct (Hr i ltac:(lia)) as [ro' E']. rewrite E in E'. injection E' as -> -> ->.
    exists mr, (base + Z.of_nat i), ro', blk. split; [done|]. split; [done|]. split; [done|]. split; [done|]. split; lia.
  - rewrite lookup_take_ge, lookup_seqZ_ge by lia. done.
Qed.

Lemma ram_ptr_length_in rl blk addr size : ram_ok rl -> hosts_ok (blocks rl) -> blk ∈ blocks rl -> offset blk <= addr < end_of blk ->
  0 < size -> addr + size < 2 ^ 64 ->
  qemu_ram_ptr_length rl addr size = Ok (host blk + (addr - offset blk), Z.min size (end_of blk - addr)).
Proof.
  intros R Ho Hb Hin Hs Ha. destruct (block_of rl blk R Hb) as [B1 B2 B3 B4]. destruct (Ho blk blk Hb Hb) as (H1 & H2 & _).
  unfold qemu_ram_ptr_length. destruct (Z.eqb_spec size 0); [lia|]. rewrite (find_unique (in_block addr) (blocks rl) blk); [| |done|].
  - unfold end_of in *. rewrite !(uwrap_small 64) by lia. do 2 f_equal. destruct (Z.ltb_spec (length blk) (addr - offset blk + size)); lia.
  - intros c Hc Ic. eapply block_unique; try done; [apply R|lia|]. rewrite in_block_val by (done || lia). zcases; done || lia.
  - rewrite in_block_val by (done || lia). zcases; done || lia.
Qed.

(** What [address_space_map] gives: a pointer to the first [n] bytes. *)
Lemma map_spec garbage s w a hs : ram_ok (ram_list s) -> hosts_ok (blocks (ram_list s)) -> backs b f (ram_list s) w a hs -> hs <> [] ->
  exists ptr n mr off ro blk, address_space_map b garbage s a (Z.of_nat (List.length hs)) w = Ok (s, Some (HostPtr ptr, Z.of_nat n)) /\
    (0 < n <= List.length hs)%nat /\ take n hs = seqZ ptr (Z.of_nat n) /\
    f a = Some (mr, off, ro) /\ run a mr off n /\ blk ∈ blocks (ram_list s) /\
    offset blk <= ram_addr (mach b) mr + off /\ ram_addr (mach b) mr + off + Z.of_nat n <= end_of blk /\
    ptr = host blk + (ram_addr (mach b) mr + off - offset blk).
Proof.
  intros R Ho B Hne. destruct (backs_turn b f Hmap _ _ _ _ R Ho B Hne) as (mr & off & n & h & blk0 & [Et Hd [ro Hk] _ _ Hram _ Hsz _ _]).
  assert (run a mr off n) as Hr by (intros i Hi; exists ro; apply Hk; lia). pose proof B as (Ba1 & Ba2 & Ba3 & Bb).
  destruct (lookup_lt_is_Some_2 hs 0 ltac:(lia)) as [h0 Eh0]. destruct (Bb 0%nat h0 Eh0) as (m1 & o1 & r1 & blk & E1 & _ & Hblk & Ho1 & Hin & _).
  pose proof (Hk 0 ltac:(lia)) as E0. rewrite Z.add_0_r in E0. replace (a + Z.of_nat 0) with a in E1 by lia. rewrite E0, Z.add_0_r in E1.
  injection E1 as <- <- <-. rewrite Z.add_0_r in E0.
  destruct (map_loop_spec (List.length hs) (ram_list s) w a hs mr off n R Ho B Hr Hsz ltac:(lia)) as (n' & El & Hn' & Hr').
  destruct (run_ram _ w a hs mr off n' R B Hr' ltac:(lia)) as [P0 P1].
  set (k := Z.min (Z.of_nat n') (end_of blk - (ram_addr (mach b) mr + off))).
  exists (host blk + (ram_addr (mach b) mr + off - offset blk)), (Z.to_nat k), mr, off, ro, blk. rewrite Z2Nat.id by lia.
  split.
  { unfold address_space_map. destruct (Z.eqb_spec (Z.of_nat (List.length hs)) 0); [lia|]. rewrite Et. cbn [res_bind]. rewrite Hd. cbn [negb].
    rewrite Nat2Z.id, El. cbn [res_bind]. rewrite uwrap_small by lia.
    rewrite (ram_ptr_length_in _ blk) by (done || lia). done. }
  split; [lia|]. split; [|split; [done|]; split; [intros i Hi; apply Hr'; lia|]; split; [done|]; split; [lia|]; split; [lia|done]].
  rewrite (run_hosts (ram_list s) w a hs mr off n' blk) by (done || lia). by rewrite Z2Nat.id by lia.
Qed.

(** ** Unmapping *)

Lemma unmap_loop_spec fuel : forall rl addr len, ram_ok rl -> 0 <= addr -> 0 <= len -> addr + len <= last_ram_offset (blocks rl) -> len <= Z.of_nat fuel ->
  exists rl', unmap_loop fuel rl addr len = Ok rl' /\ ram_ok rl' /\ dirtier rl rl' /\
    (addr mod 1024 = 0 -> forall k, 0 <= k < len ->
       dirty rl' DIRTY_MEMORY_VGA ((addr + k) / 1024) = true /\ dirty rl' DIRTY_MEMORY_MIGRATION ((addr + k) / 1024) = true).
Proof.
  induction fuel as [|fuel IH]; intros rl addr len R Ha Hl He Hf.
  - exists rl. cbn [unmap_loop]. destruct (Z.eqb_spec len 0); [|lia]. split; [done|]. split; [done|]. split; [done|]. lia.
  - cbn [unmap_loop]. destruct (Z.eqb_spec len 0) as [|Hz]; [exists rl; split; [done|]; split; [done|]; split; [done|]; lia|].
    destruct (device_write_marks rl addr (if len <? PhysMap.TARGET_PAGE_SIZE then len else PhysMap.TARGET_PAGE_SIZE) R ltac:(lia)) as (rl1 & -> & R1 & D1 & Mv & Mm).
    cbn [res_bind]. change PhysMap.TARGET_PAGE_SIZE with 1024. set (l := if len <? 1024 then len else 1024).
    assert (0 < l <= len /\ l <= 1024 /\ (l = len \/ l = 1024)) as Hll by (unfold l; destruct (Z.ltb_spec len 1024); lia).
    destruct (last_ram_offset_spec (blocks rl) (bk_each _ (ro_blocks _ R))) as (L1 & _). unfold RAM_ADDR_MAX in L1.
    rewrite uwrap_small by lia.
    destruct (IH rl1 (addr + l) (len - l) R1 ltac:(lia) ltac:(lia) ltac:(rewrite (proj1 D1); lia) ltac:(lia)) as (rl' & E & R' & D' & M').
    exists rl'. split; [done|]. split; [done|]. split; [by eapply dirtier_trans|]. intros Al k Hk.
    destruct (Z.ltb_spec k l).
    + replace ((addr + k) / 1024) with (addr / 1024) by dlia. split; apply D'; done || dlia.
    + replace (addr + k) with (addr + l + (k - l)) by lia. apply M'; [|lia]. dlia.
Qed.
End Map.
