(* ===== verification/PhysAccessClaims.v ===== *)
(** * Physical memory accesses: claims

    Reads, writes and mappings of RAM, the sizes of device accesses, and two
    defects: lengths that are not limited to the section, and pages that
    unmapping does not mark. *)

From stdpp Require Import base list numbers sets.
From S2P Require Import Prelude Int128 FlatView FlatViewFacts FlatViewRefine Topology HostUtils PhysMap Dispatch RamList RamListFacts.
From S2P Require Import MemRegion ArmMmu Cputlb SoftMmuRefine SoftMmuClaims DirtyTracking DirtyClaims PhysAccess PhysAccessFacts.
Import Int128 RamList MemRegion.

(** ** Lemmas *)

Lemma direct_read {D} (b : bus D) mr : memory_access_is_direct b mr true = true -> memory_access_is_direct b mr false = true.
Proof. unfold memory_access_is_direct. by destruct (is_ram (mach b) mr), (is_romd (mach b) mr). Qed.

Lemma backs_read {D} (b : bus D) f rl a hs : backs b f rl true a hs -> backs b f rl false a hs.
Proof.
  intros (H1 & H2 & H3 & Hb). do 3 (split; [done|]). intros i h E. destruct (Hb i h E) as (mr & off & ro & blk & E' & Hd & Hrest).
  exists mr, off, ro, blk. split; [done|]. split; [by apply direct_read|done].
Qed.

Lemma bytes_u8 buf : Forall (fun x => 0 <= x < 256) buf -> u8 <$> buf = buf.
Proof. induction 1 as [|x buf Hx F IH]; [done|]. rewrite fmap_cons, IH. by rewrite uwrap_small by lia. Qed.

(** [addr & -addr] by the last three bits. *)
Lemma land_low_bits x y i j : 0 <= i < 8 -> 0 <= j < 8 -> Z.land (8 * x + i) (8 * y + j) = 8 * Z.land x y + Z.land i j.
Proof.
  intros Hi Hj. assert (0 <= Z.land i j < 2 ^ 3) as Hl by (apply land_range; lia).
  apply Z.bits_inj'. intros n Hn. rewrite Z.land_spec. rewrite !(Z.mul_comm 8). change 8 with (2 ^ 3). rewrite !concat_testbit by (lia || done).
  destruct (n <? 3); by rewrite Z.land_spec.
Qed.

Lemma low_bit addr : 0 <= addr < 2 ^ 64 -> exists q, 0 <= q /\ Z.land addr (u64 (- addr)) = 8 * q + Z.land (addr mod 8) (8 - addr mod 8) /\
  (addr mod 8 <> 0 -> q = 0).
Proof.
  intros Ha. assert (addr = 8 * (addr / 8) + addr mod 8) as E by dlia. assert (0 <= addr mod 8 < 8) as Hr by dlia.
  revert E Hr. generalize (addr / 8), (addr mod 8). intros x r -> Hr. destruct (Z.eq_dec r 0) as [->|Hn].
  - exists (Z.land x (2 ^ 61 - x)). split; [apply Z.land_nonneg; lia|]. split; [|done].
    destruct (Z.eq_dec x 0) as [->|]; [done|].
    assert (u64 (- (8 * x + 0)) = 8 * (2 ^ 61 - x) + 0) as -> by (unfold u64, uwrap; rewrite <- (Z.mod_add _ 1) by lia; rewrite Z.mod_small; lia).
    rewrite land_low_bits by lia. done.
  - exists 0. split; [lia|]. split; [|done].
    assert (u64 (- (8 * x + r)) = 8 * (2 ^ 61 - 1 - x) + (8 - r)) as -> by (unfold u64, uwrap; rewrite <- (Z.mod_add _ 1) by lia; rewrite Z.mod_small; lia).
    rewrite land_low_bits by lia. f_equal. f_equal. change (2 ^ 61 - 1) with (Z.ones 61).
    replace (Z.ones 61 - x) with (Z.land (Z.ones 61) (Z.lnot x)); [zbits; destruct (Z.testbit x i), (i <? 61); done|].
    rewrite Z.land_comm, Z.land_ones by lia. unfold Z.lnot. change (Z.ones 61) with (2 ^ 61 - 1). rewrite <- (Z.mod_add _ 1) by lia. rewrite Z.mod_small; lia.
Qed.

(** ** Claims *)

(** C22: [address_space_rw] on RAM, for memory maps that have RAM in whole pages:
    if an address leads to RAM, so do the addresses behind it up to the end of
    the region's page ([ram_map]; on pages that RAM shares with a device an
    access can run over, see [accesses_overrun]).  Let all guest addresses of
    the range from [a] on lead to RAM that may be accessed, at the host
    addresses [hs], which differ.  A write of as many bytes succeeds, stores
    byte [i] at host address [i] of [hs] and nothing elsewhere, leaves the
    devices alone, keeps the RAM list consistent, clears no dirty bit and marks
    every page that it touches for the display and for migration.  A read after
    it gives the bytes that were written. *)
Theorem ram_rw_correct {D} `{CodeCache} (b : bus D) f s a hs buf :
  ram_map b f -> ram_ok (ram_list s) -> hosts_ok (blocks (ram_list s)) -> backs b f (ram_list s) true a hs ->
  NoDup hs -> List.length buf = List.length hs -> Forall (fun x => 0 <= x < 256) buf ->
  exists s' s'', address_space_write b s a buf = Ok (s', false) /\
    address_space_read b s' a (Z.of_nat (List.length buf)) = Ok (s'', buf, false) /\
    (forall i h, hs !! i = Some h -> buf !! i = Some (mem s' h)) /\ (forall x, x ∉ hs -> mem s' x = mem s x) /\
    dev s' = dev s /\ ram_ok (ram_list s') /\ dirtier (ram_list s) (ram_list s') /\
    (forall i, (i < List.length hs)%nat -> marked b f (ram_list s') (a + Z.of_nat i)) /\
    dev s'' = dev s' /\ mem s'' = mem s' /\ dirty_memory (ram_list s'') = dirty_memory (ram_list s').
Proof.
  intros Hm R Ho B Nd El Fb. unfold address_space_write, address_space_read.
  destruct (rw_write_ram b f Hm (List.length buf) s a hs buf R Ho B El ltac:(lia)) as (rl' & Ew & R' & D' & M').
  set (s' := set_ram s rl' (store_at (mem s) hs buf)) in *.
  destruct (rw_read_ram b f Hm (List.length hs) s' a hs) as (rl'' & Er & R'' & _ & Ed); [done|by cbn; rewrite (proj1 D')| |lia|].
  { apply backs_read. by apply (backs_blocks b f (ram_list s)); [apply D'|]. }
  pose proof (store_at_read hs (mem s) buf Nd El) as Eb.
  exists s', (set_ram s' rl'' (mem s')). rewrite El, Nat2Z.id, Er. split; [by rewrite El in Ew|]. split.
  { do 2 f_equal. f_equal. rewrite (list_fmap_compose (mem s') u8). cbn [mem s' set_ram]. rewrite Eb. by apply bytes_u8. }
  split; [|split; [intros x Hx; by apply store_at_other|done]].
  intros i h Ei. rewrite <- Eb, list_lookup_fmap, Ei. done.
Qed.

(** C23: [address_space_map] on RAM, for memory maps that have RAM in whole pages
    ([ram_map]), and a nonempty range whose addresses all lead to RAM, gives a
    pointer to a nonempty prefix of the range: its bytes are those that the
    guest addresses lead to, in order.  The state does not change.
    [address_space_unmap] after a write through the pointer finds the mapping
    again, clears no dirty bit, and if the mapping starts at a page marks every
    page of the written part. *)
Theorem map_correct {D} `{CodeCache} (b : bus D) f garbage s w a hs :
  ram_map b f -> ram_ok (ram_list s) -> hosts_ok (blocks (ram_list s)) -> backs b f (ram_list s) w a hs -> hs <> [] ->
  exists ptr n, address_space_map b garbage s a (Z.of_nat (List.length hs)) w = Ok (s, Some (HostPtr ptr, Z.of_nat n)) /\
    (0 < n <= List.length hs)%nat /\ take n hs = seqZ ptr (Z.of_nat n) /\
    forall len, (len <= n)%nat ->
      exists rl', address_space_unmap b s (HostPtr ptr) true (Z.of_nat len) = Ok (set_ram s rl' (mem s)) /\
        ram_ok rl' /\ dirtier (ram_list s) rl' /\
        ((forall mr off ro, f a = Some (mr, off, ro) -> off mod 1024 = 0) ->
         forall i, (i < len)%nat -> marked b f rl' (a + Z.of_nat i)).
Proof.
  intros Hm R Ho B Hne. destruct (map_spec b f Hm garbage s w a hs R Ho B Hne) as (ptr & n & mr & off & ro & blk & Em & Hn & Et & Ef & Hr & Hblk & Hlo & Hhi & Ep).
  exists ptr, n. split; [done|]. split; [done|]. split; [done|]. intros len Hl.
  destruct (rm_addr b f Hm mr) as [Ha0 Ha]. destruct (last_ram_offset_spec (blocks (ram_list s)) (bk_each _ (ro_blocks _ R))) as (_ & _ & L). specialize (L blk Hblk).
  destruct (block_of _ blk R Hblk) as [Hb0 _ _ _].
  destruct (unmap_loop_spec (Z.to_nat (Z.of_nat len)) (ram_list s) (ram_addr (mach b) mr + off) (Z.of_nat len) R) as (rl' & Eu & R' & D' & M'); [lia..|].
  exists rl'. unfold address_space_unmap. rewrite Ep, from_host_spec by (done || lia). rewrite Eu. split; [done|]. split; [done|]. split; [done|].
  intros Al i Hi mr' off' ro' E. destruct (Hr i ltac:(lia)) as [ro2 E2]. rewrite E2 in E. injection E as <- <- <-.
  specialize (Al _ _ _ Ef). rewrite Z.add_assoc. apply M'; [dlia|lia].
Qed.

(** The limit by alignment: the lowest bit of the address. *)
Definition align_limit (addr m : Z) : Z :=
  let align_size_max := u32 (Z.land addr (u64 (- addr))) in
  if negb (align_size_max =? 0) && (align_size_max <? m) then align_size_max else m.

Lemma align_limit_ok addr m : 0 <= addr < 2 ^ 64 -> In m [1; 2; 4; 8] ->
  In (align_limit addr m) [1; 2; 4; 8] /\ align_limit addr m <= m /\ addr mod align_limit addr m = 0.
Proof.
  intros Ha Hm. unfold align_limit. destruct (low_bit addr Ha) as (q & Hq & -> & Hq0). cbv zeta. destruct (Z.eq_dec (addr mod 8) 0) as [Hr|Hr].
  - rewrite Hr. change (Z.land 0 (8 - 0)) with 0. assert (u32 (8 * q + 0) mod 8 = 0) as Hu by (unfold u32, uwrap; dlia).
    assert (0 <= u32 (8 * q + 0)) as Hp by (apply (uwrap_range 32); lia). revert Hu Hp. generalize (u32 (8 * q + 0)). intros u Hu Hp.
    destruct (_ && _) eqn:E.
    { apply andb_prop in E as [E1 E2]. apply negb_true_iff, Z.eqb_neq in E1. apply Z.ltb_lt in E2. cbn in Hm. dlia. }
    split; [done|]. split; [lia|]. cbn in Hm. repeat destruct Hm as [<-|Hm]; try done; dlia.
  - rewrite (Hq0 Hr), Z.mul_0_r, Z.add_0_l. assert (In (addr mod 8) [1; 2; 3; 4; 5; 6; 7]) as Hin by (cbn; dlia).
    match goal with |- In ?x _ /\ _ => set (c := x) end. assert (In c [1; 2; 4; 8] /\ c <= m /\ (addr mod 8) mod c = 0) as (Hc & Hcm & Hr0).
    { unfold c. cbn [In] in Hin, Hm. clear - Hin Hm. generalize dependent (addr mod 8). intros r Hin.
      repeat destruct Hin as [<-|Hin]; try done; repeat destruct Hm as [<-|Hm]; try done; vm_compute; (split; [by auto|]; split; congruence). }
    split; [done|]. split; [done|]. clearbody c. clear - Hc Hr0. cbn in Hc. repeat destruct Hc as [<-|Hc]; try done; dlia.
Qed.

(** The power of two below what is left. *)
Lemma size_floor k : In k [1; 2; 3; 4; 5; 6; 7; 8] ->
  let n := if negb (Z.land k (k - 1) =? 0) then Z.shiftl 1 (qemu_fls k - 1) else k in In n [1; 2; 4; 8] /\ n <= k.
Proof. cbn [In]. intros Hk. repeat destruct Hk as [<-|Hk]; try done; vm_compute; (split; [by auto 6|congruence]). Qed.

Lemma pow2_divide addr n c : In n [1; 2; 4; 8] -> In c [1; 2; 4; 8] -> n <= c -> addr mod c = 0 -> addr mod n = 0.
Proof. cbn [In]. intros Hn Hc Hl E. repeat destruct Hn as [<-|Hn]; try done; repeat destruct Hc as [<-|Hc]; try done; dlia. Qed.

(** The size of a device access.  Whatever is left of the transfer, it is
    1, 2, 4 or 8 bytes, not more than is left nor than the device accepts, and
    the access is aligned unless the device takes unaligned ones; so the
    [switch] of [address_space_rw] never aborts and every turn makes progress. *)
Theorem access_size_legal {D} (b : bus D) mr l addr :
  0 < l < 2 ^ 31 -> 0 <= addr < 2 ^ 64 -> In (valid_max_access_size (ops b mr)) [0; 1; 2; 4; 8] ->
  let n := memory_access_size b mr l addr in
  io_size n = true /\ 0 < n <= l /\ (valid_max_access_size (ops b mr) <> 0 -> n <= valid_max_access_size (ops b mr)) /\
  (impl_unaligned (ops b mr) = false -> addr mod n = 0).
Proof.
  intros Hl Ha Hv n. set (v := valid_max_access_size (ops b mr)) in *. set (m := if v =? 0 then 4 else v).
  assert (In m [1; 2; 4; 8] /\ (v <> 0 -> m = v)) as [Hm Hvm] by (unfold m; cbn in Hv |- *; destruct (Z.eqb_spec v 0); lia).
  set (c := if negb (impl_unaligned (ops b mr)) then align_limit addr m else m).
  assert (In c [1; 2; 4; 8] /\ c <= m /\ (impl_unaligned (ops b mr) = false -> addr mod c = 0)) as (Hc & Hcm & Hca).
  { unfold c. destruct (align_limit_ok addr m Ha Hm) as (L1 & L2 & L3). by destruct (impl_unaligned (ops b mr)). }
  change n with (let k := if c <? l then c else l in if negb (Z.land k (k - 1) =? 0) then Z.shiftl 1 (qemu_fls k - 1) else k).
  clearbody c m. clear n. cbv zeta. set (k := if c <? l then c else l).
  assert (0 < k <= l /\ k <= c) as [Hkl Hkc] by (unfold k; cbn in Hc; destruct (Z.ltb_spec c l); lia).
  destruct (size_floor k) as [Hn Hnk]; [cbn in Hc |- *; lia|]. cbv zeta in Hn, Hnk. set (n := if negb _ then _ else k) in *. clearbody n.
  split; [cbn in Hn; unfold io_size; repeat destruct Hn as [<-|Hn]; done|]. split; [cbn in Hn; lia|]. split; [lia|].
  intros Hu. apply (pow2_divide addr n c Hn Hc); [lia|by apply Hca].
Qed.

(** ** The example board *)

Definition board_bus : bus unit := mkBus example_machine (fun _ => false) (fun _ => unassigned_mem_ops unit).
Definition board_system : system unit := mkSys tt board_ram_list (fun a => a) None.

Lemma board_map_val a : 0 <= a < 2 ^ 64 -> board_map 0x8000 a =
  if a <? 0x4000 then Some (GuestMR 2, a, false)
  else if (0x8000 <=? a) && (a <? 0xa000) then Some (GuestMR 1, a - 0x8000, false) else None.
Proof.
  intros Ha. unfold board_map. cbn [resolve board sample_ram sample_info mr_enabled mr_addr mr_size mr_readonly mr_terminates mr_id negb orb].
  rewrite !Z.add_0_l. destruct (Z.leb_spec 0 a); [|lia]. destruct (Z.ltb_spec a (2 ^ 64)); [|lia]. cbn [andb negb].
  destruct (Z.ltb_spec a 0x4000).
  - cbn. unfold target_dest. cbn. rewrite Z.sub_0_r, uwrap_small by lia. done.
  - cbn [andb negb]. change (0x8000 + 0x2000) with 0xa000. destruct (_ && _) eqn:E; cbn [negb]; [|done]. zify.
    unfold target_dest. cbn. rewrite uwrap_small by lia. done.
Qed.

Lemma board_ram_map : ram_map board_bus (board_map 0x8000).
Proof.
  destruct board_dispatch_spec as (d & E & La & _).
  assert (dispatch example_machine = d) as Ed by (pose proof example_dispatch_built as B; by rewrite E in B).
  split; cbn [mach board_bus].
  - rewrite Ed. exact La.
  - intros n s id Es Hid. destruct (example_aligned n s id Es Hid) as (_ & W & V). split; [exact W|exact V].
  - intros mr. cbn [example_machine board_machine ram_addr]. split; [lia|reflexivity].
  - clear d E La Ed. intros a mr off ro k Ef Hr Hk Hp. cbn [example_machine board_machine is_ram is_romd] in Hr. rewrite orb_false_r in Hr. apply bool_decide_eq_true in Hr as ->.
    assert (0 <= a < 2 ^ 64) as Ha.
    { unfold board_map in Ef. cbn [resolve board sample_info mr_enabled mr_addr mr_size negb] in Ef. rewrite !Z.add_0_l in Ef.
      destruct (_ && _) eqn:Er; [|done]. apply andb_prop in Er as [E1 E2]. apply Z.leb_le in E1. apply Z.ltb_lt in E2. lia. }
    rewrite board_map_val in Ef by done. destruct (Z.ltb_spec a 0x4000); [|destruct (_ && _); discriminate]. injection Ef as <- <-.
    rewrite board_map_val by dlia. destruct (Z.ltb_spec (a + k) 0x4000); [done|dlia].
Qed.

(** Four bytes across the first page boundary. *)
Lemma board_backs w : backs board_bus (board_map 0x8000) board_ram_list w 0x3fe (seqZ 0x7f00000003fe 4).
Proof.
  unfold backs. rewrite length_seqZ. split; [lia|]. split; [lia|]. split; [lia|]. intros i h E. apply lookup_seqZ in E as [-> Hi].
  exists (GuestMR 2), (0x3fe + Z.of_nat i), false, board_ram. rewrite board_map_val by lia.
  destruct (Z.ltb_spec (0x3fe + Z.of_nat i) 0x4000); [|lia]. split; [reflexivity|].
  split; [unfold memory_access_is_direct; cbn [mach board_bus readonly example_machine board_machine is_ram]; rewrite andb_false_r; reflexivity|].
  split; [by left|]. cbn [mach board_bus example_machine board_machine ram_addr]. unfold end_of. cbn [board_ram offset length host]. lia.
Qed.

Lemma ram_rw_correct_witness : exists s' s'', address_space_write board_bus board_system 0x3fe [1; 2; 3; 4] = Ok (s', false) /\
  address_space_read board_bus s' 0x3fe 4 = Ok (s'', [1; 2; 3; 4], false).
Proof.
  destruct (ram_rw_correct board_bus (board_map 0x8000) board_system 0x3fe (seqZ 0x7f00000003fe 4) [1; 2; 3; 4]) as (s' & s'' & Ew & Er & _);
    [exact board_ram_map|exact board_ram_list_ok|apply board_hosts|apply board_backs|apply NoDup_seqZ|reflexivity|repeat constructor; lia|].
  exists s', s''. split; [exact Ew|exact Er].
Defined.

Lemma map_correct_witness : exists ptr n,
  address_space_map board_bus (fun _ => 0) board_system 0x3fe 4 true = Ok (board_system, Some (HostPtr ptr, Z.of_nat n)) /\
  take n (seqZ 0x7f00000003fe 4) = seqZ ptr (Z.of_nat n).
Proof.
  destruct (map_correct board_bus (board_map 0x8000) (fun _ => 0) board_system true 0x3fe (seqZ 0x7f00000003fe 4)) as (ptr & n & Em & _ & Et & _);
    [exact board_ram_map|exact board_ram_list_ok|apply board_hosts|apply board_backs|intros E; apply (f_equal List.length) in E; discriminate|].
  exists ptr, n. split; [exact Em|exact Et].
Defined.

Lemma access_size_legal_witness : let n := memory_access_size board_bus (GuestMR 1) 7 0x8002 in
  In (valid_max_access_size (ops board_bus (GuestMR 1))) [0; 1; 2; 4; 8] /\ io_size n = true /\ 0 < n <= 7.
Proof.
  destruct (access_size_legal board_bus (GuestMR 1) 7 0x8002 ltac:(lia) ltac:(lia)) as (H1 & H2 & _); [by left|].
  split; [by left|]. split; [exact H1|exact H2].
Defined.

(** ** Two defects *)

(** The board with no page dirty. *)
Definition clean_system : system unit := mkSys tt (mkRam (replicate 3 [0]) None [board_ram] 0) (fun a => a) None.

(** C18: [address_space_unmap] steps by pages from the start of the mapping, and
    each step marks the page of its first byte only.  Four bytes that are mapped
    across a page boundary and written are on two pages; unmapping marks the
    first and leaves the second clean, so migration does not send it again. *)
Theorem unmap_misses_page :
  exists rl', address_space_map board_bus (fun _ => 0) clean_system 0x3fe 4 true = Ok (clean_system, Some (HostPtr 0x7f00000003fe, 4)) /\
    address_space_unmap board_bus clean_system (HostPtr 0x7f00000003fe) true 4 = Ok (set_ram clean_system rl' (mem clean_system)) /\
    board_map 0x8000 0x3fe = Some (GuestMR 2, 0x3fe, false) /\ board_map 0x8000 0x401 = Some (GuestMR 2, 0x401, false) /\
    dirty rl' DIRTY_MEMORY_MIGRATION (0x3fe / 1024) = true /\ dirty rl' DIRTY_MEMORY_MIGRATION (0x401 / 1024) = false.
Proof.
  exists (mkRam [[1]; [0]; [1]] None [board_ram] 0). split; [vm_compute; reflexivity|]. split; [vm_compute; reflexivity|].
  rewrite !board_map_val by lia. split; [reflexivity|]. split; [reflexivity|]. split; reflexivity.
Qed.

(** RAM with a device over part of a page, and a ROM followed by more RAM. *)
Definition rom_board : MemoryRegion Z :=
  MR (sample_info 0 0 (2 ^ 64) false 0) None
    [MR (sample_info 1 0x1040 0x20 true 0) None []; sample_ram;
     MR (sample_info 4 0x4000 0x400 true 0) None []; MR (sample_info 5 0x4400 0x400 true 0) None []].

Definition rom_bus : bus unit :=
  let d := or_blank (let* (_, d) := address_space_update (mr_map of_Z rom_board) flatview_init in Ok d) in
  mkBus (mkMachine d (fun id => int128_make64 (if id =? 2 then 0x4000 else if id =? 1 then 0x20 else 0x400))
           (fun mr => bool_decide (mr <> GuestMR 1)) (fun _ => false) (fun _ => 0)
           (fun mr => if bool_decide (mr = GuestMR 4) then 0x4000 else if bool_decide (mr = GuestMR 5) then 0x4400 else 0)
           (fun _ => false) [])
    (fun mr => bool_decide (mr = GuestMR 4)) (fun _ => unassigned_mem_ops unit).

Definition rom_block : RAMBlock := mkBlock 4 0x7f0000100000 0x4000 0x400 false.
Definition rom_system : system unit :=
  mkSys tt (mkRam (replicate 3 [0]) None
    [board_ram; rom_block; mkBlock 5 0x7f0000200000 0x4400 0x400 false] 0) (fun _ => 0) None.

(** C19: [address_space_translate] computes the length that is left of the region
    and then returns the length that was asked for, limited for RAM by the page
    alone.  A write of four bytes at 0x103e, where a device covers the RAM from
    0x1040 on, puts the last two into the RAM under the device; and loading
    eight bytes at the last four of a ROM puts four past the end of its host
    memory, and none into the RAM that follows it. *)
Theorem accesses_overrun :
  (target_dest <$> resolve rom_board 0 false 0x1040) = Some (GuestMR 1, 0, false) /\
  (target_dest <$> resolve rom_board 0 false 0x4400) = Some (GuestMR 5, 0, false) /\
  (exists s, address_space_write rom_bus rom_system 0x103e [1; 2; 3; 4] = Ok (s, false) /\
     mem s (host board_ram + 0x1040) = 3 /\ mem s (host board_ram + 0x1041) = 4) /\
  exists s, cpu_physical_memory_write_rom rom_bus rom_system 0x43fc [1; 2; 3; 4; 5; 6; 7; 8] = Ok s /\
    mem s (host rom_block + length rom_block) = 5 /\ mem s (host rom_block + length rom_block + 3) = 8 /\
    mem s 0x7f0000200000 = 0.
Proof.
  split; [reflexivity|]. split; [reflexivity|]. split.
  - assert (match address_space_write rom_bus rom_system 0x103e [1; 2; 3; 4] with
      | Ok (s, e) => (e, mem s (host board_ram + 0x1040), mem s (host board_ram + 0x1041)) | Err _ => (true, 0, 0) end = (false, 3, 4)) as E
      by (vm_compute; reflexivity).
    destruct (address_space_write _ _ _ _) as [[s e]|]; [|discriminate]. injection E as -> E1 E2. exists s. split; [reflexivity|]. split; assumption.
  - assert (match cpu_physical_memory_write_rom rom_bus rom_system 0x43fc [1; 2; 3; 4; 5; 6; 7; 8] with
      | Ok s => (mem s (host rom_block + length rom_block), mem s (host rom_block + length rom_block + 3), mem s 0x7f0000200000)
      | Err _ => (0, 0, 0) end = (5, 8, 0)) as E by (vm_compute; reflexivity).
    destruct (cpu_physical_memory_write_rom _ _ _ _) as [s|]; [|discriminate]. injection E as E1 E2 E3. exists s. split_and!; [reflexivity|assumption..].
Qed.
