(* ===== verification/Tcg.v ===== *)
(** * The intermediate code of the code generator ([tcg/tcg.h], [tcg/tcg-opc.h])

    A translation block is a list of operations on temporaries, globals first.
    The operations that exist for 32 and for 64 bits are one constructor with
    the type as its argument ([CASE_OP_32_64] in the sources).  The host has
    64-bit registers.

    The meaning of the operations is that of the interpreter
    ([tcg_qemu_tb_exec] in [tci.c]) and, for those that it does not have, has on
    32-bit hosts only, or leaves as TODO, that of [tcg/README]: an operation
    with undefined behaviour is a fault.  Every temporary has a register of 64
    bits.  The 32-bit operations write zero-extended results
    ([tci_write_reg32]); section 4.1 of the README leaves this open, but the
    optimizer relies on it ([extension_becomes_move]).  Calls and guest loads
    may leave anything above the low half of a 32-bit temporary.  The value of a
    discarded temporary is not used later; it becomes zero here.  Host memory,
    guest memory and helper functions are an interface. *)

From stdpp Require Import base list numbers.
From S2P Require Import Prelude MemRegion.
Import MemRegion.

Inductive TCGType : Type := TCG_TYPE_I32 | TCG_TYPE_I64.

#[export] Instance TCGType_eq_dec : EqDecision TCGType.
Proof. solve_decision. Defined.

Definition bits (ty : TCGType) : Z := match ty with TCG_TYPE_I32 => 32 | TCG_TYPE_I64 => 64 end.

Inductive TCGOpcode : Type :=
| INDEX_op_nop | INDEX_op_nop1 | INDEX_op_nop2 | INDEX_op_nop3 | INDEX_op_nopn
| INDEX_op_discard | INDEX_op_set_label | INDEX_op_call | INDEX_op_br
| INDEX_op_mov (ty : TCGType) | INDEX_op_movi (ty : TCGType) | INDEX_op_setcond (ty : TCGType) | INDEX_op_movcond (ty : TCGType)
| INDEX_op_ld8u (ty : TCGType) | INDEX_op_ld8s (ty : TCGType) | INDEX_op_ld16u (ty : TCGType) | INDEX_op_ld16s (ty : TCGType)
| INDEX_op_ld32u_i64 | INDEX_op_ld32s_i64 | INDEX_op_ld (ty : TCGType)
| INDEX_op_st8 (ty : TCGType) | INDEX_op_st16 (ty : TCGType) | INDEX_op_st32_i64 | INDEX_op_st (ty : TCGType)
| INDEX_op_add (ty : TCGType) | INDEX_op_sub (ty : TCGType) | INDEX_op_mul (ty : TCGType)
| INDEX_op_div (ty : TCGType) | INDEX_op_divu (ty : TCGType) | INDEX_op_rem (ty : TCGType) | INDEX_op_remu (ty : TCGType)
| INDEX_op_div2 (ty : TCGType) | INDEX_op_divu2 (ty : TCGType)
| INDEX_op_and (ty : TCGType) | INDEX_op_or (ty : TCGType) | INDEX_op_xor (ty : TCGType)
| INDEX_op_shl (ty : TCGType) | INDEX_op_shr (ty : TCGType) | INDEX_op_sar (ty : TCGType)
| INDEX_op_rotl (ty : TCGType) | INDEX_op_rotr (ty : TCGType) | INDEX_op_deposit (ty : TCGType)
| INDEX_op_brcond (ty : TCGType)
| INDEX_op_add2 (ty : TCGType) | INDEX_op_sub2 (ty : TCGType) | INDEX_op_mulu2 (ty : TCGType) | INDEX_op_muls2 (ty : TCGType)
| INDEX_op_muluh (ty : TCGType) | INDEX_op_mulsh (ty : TCGType)
| INDEX_op_brcond2_i32 | INDEX_op_setcond2_i32
| INDEX_op_ext8s (ty : TCGType) | INDEX_op_ext16s (ty : TCGType) | INDEX_op_ext8u (ty : TCGType) | INDEX_op_ext16u (ty : TCGType)
| INDEX_op_ext32s_i64 | INDEX_op_ext32u_i64
| INDEX_op_bswap16 (ty : TCGType) | INDEX_op_bswap32 (ty : TCGType) | INDEX_op_bswap64_i64
| INDEX_op_not (ty : TCGType) | INDEX_op_neg (ty : TCGType)
| INDEX_op_andc (ty : TCGType) | INDEX_op_orc (ty : TCGType) | INDEX_op_eqv (ty : TCGType)
| INDEX_op_nand (ty : TCGType) | INDEX_op_nor (ty : TCGType)
| INDEX_op_debug_insn_start | INDEX_op_exit_tb | INDEX_op_goto_tb
| INDEX_op_qemu_ld (ty : TCGType) | INDEX_op_qemu_st (ty : TCGType)
| INDEX_op_qemu_ld8u | INDEX_op_qemu_ld8s | INDEX_op_qemu_ld16u | INDEX_op_qemu_ld16s
| INDEX_op_qemu_ld32 | INDEX_op_qemu_ld32u | INDEX_op_qemu_ld32s | INDEX_op_qemu_ld64
| INDEX_op_qemu_st8 | INDEX_op_qemu_st16 | INDEX_op_qemu_st32 | INDEX_op_qemu_st64.

#[export] Instance TCGOpcode_eq_dec : EqDecision TCGOpcode.
Proof. solve_decision. Defined.

(** ** Operation descriptions *)

Definition TCG_OPF_BB_END : Z := 0x01.
Definition TCG_OPF_CALL_CLOBBER : Z := 0x02.
Definition TCG_OPF_SIDE_EFFECTS : Z := 0x04.
Definition TCG_OPF_64BIT : Z := 0x08.

Record TCGOpDef : Type := DEF { nb_oargs : nat; nb_iargs : nat; nb_cargs : nat; flags : Z }.
Definition nb_args (d : TCGOpDef) : nat := (nb_oargs d + nb_iargs d + nb_cargs d)%nat.
Definition has_flag (d : TCGOpDef) (f : Z) : bool := negb (Z.land (flags d) f =? 0).

(** [IMPL64] on the 64-bit variants. *)
Definition IMPL64 (ty : TCGType) : Z := match ty with TCG_TYPE_I32 => 0 | TCG_TYPE_I64 => TCG_OPF_64BIT end.
Definition IMPL_LDST : Z := Z.lor TCG_OPF_CALL_CLOBBER TCG_OPF_SIDE_EFFECTS.

(** The table, without the flag that tells the register allocator which
    operations the host lacks. *)
Definition tcg_op_defs (op : TCGOpcode) : TCGOpDef :=
  match op with
  | INDEX_op_nop => DEF 0 0 0 0
  | INDEX_op_nop1 => DEF 0 0 1 0
  | INDEX_op_nop2 => DEF 0 0 2 0
  | INDEX_op_nop3 => DEF 0 0 3 0
  | INDEX_op_nopn => DEF 0 0 1 0
  | INDEX_op_discard => DEF 1 0 0 0
  | INDEX_op_set_label => DEF 0 0 1 TCG_OPF_BB_END
  | INDEX_op_call => DEF 0 1 2 TCG_OPF_CALL_CLOBBER
  | INDEX_op_br => DEF 0 0 1 TCG_OPF_BB_END
  | INDEX_op_mov ty => DEF 1 1 0 (IMPL64 ty)
  | INDEX_op_movi ty => DEF 1 0 1 (IMPL64 ty)
  | INDEX_op_setcond ty => DEF 1 2 1 (IMPL64 ty)
  | INDEX_op_movcond ty => DEF 1 4 1 (IMPL64 ty)
  | INDEX_op_ld8u ty | INDEX_op_ld8s ty | INDEX_op_ld16u ty | INDEX_op_ld16s ty | INDEX_op_ld ty => DEF 1 1 1 (IMPL64 ty)
  | INDEX_op_ld32u_i64 | INDEX_op_ld32s_i64 => DEF 1 1 1 TCG_OPF_64BIT
  | INDEX_op_st8 ty | INDEX_op_st16 ty | INDEX_op_st ty => DEF 0 2 1 (IMPL64 ty)
  | INDEX_op_st32_i64 => DEF 0 2 1 TCG_OPF_64BIT
  | INDEX_op_add ty | INDEX_op_sub ty | INDEX_op_mul ty
  | INDEX_op_div ty | INDEX_op_divu ty | INDEX_op_rem ty | INDEX_op_remu ty => DEF 1 2 0 (IMPL64 ty)
  | INDEX_op_div2 ty | INDEX_op_divu2 ty => DEF 2 3 0 (IMPL64 ty)
  | INDEX_op_and ty | INDEX_op_or ty | INDEX_op_xor ty
  | INDEX_op_shl ty | INDEX_op_shr ty | INDEX_op_sar ty | INDEX_op_rotl ty | INDEX_op_rotr ty => DEF 1 2 0 (IMPL64 ty)
  | INDEX_op_deposit ty => DEF 1 2 2 (IMPL64 ty)
  | INDEX_op_brcond ty => DEF 0 2 2 (Z.lor TCG_OPF_BB_END (IMPL64 ty))
  | INDEX_op_add2 ty | INDEX_op_sub2 ty => DEF 2 4 0 (IMPL64 ty)
  | INDEX_op_mulu2 ty | INDEX_op_muls2 ty => DEF 2 2 0 (IMPL64 ty)
  | INDEX_op_muluh _ | INDEX_op_mulsh _ => DEF 1 2 0 0
  | INDEX_op_brcond2_i32 => DEF 0 4 2 TCG_OPF_BB_END
  | INDEX_op_setcond2_i32 => DEF 1 4 1 0
  | INDEX_op_ext8s ty | INDEX_op_ext16s ty | INDEX_op_ext8u ty | INDEX_op_ext16u ty
  | INDEX_op_bswap16 ty | INDEX_op_bswap32 ty | INDEX_op_not ty | INDEX_op_neg ty => DEF 1 1 0 (IMPL64 ty)
  | INDEX_op_ext32s_i64 | INDEX_op_ext32u_i64 | INDEX_op_bswap64_i64 => DEF 1 1 0 TCG_OPF_64BIT
  | INDEX_op_andc ty | INDEX_op_orc ty | INDEX_op_eqv ty | INDEX_op_nand ty | INDEX_op_nor ty => DEF 1 2 0 (IMPL64 ty)
  | INDEX_op_debug_insn_start => DEF 0 0 1 0
  | INDEX_op_exit_tb | INDEX_op_goto_tb => DEF 0 0 1 TCG_OPF_BB_END
  | INDEX_op_qemu_ld ty => DEF 1 1 2 (Z.lor IMPL_LDST (IMPL64 ty))
  | INDEX_op_qemu_st ty => DEF 0 2 2 (Z.lor IMPL_LDST (IMPL64 ty))
  | INDEX_op_qemu_ld8u | INDEX_op_qemu_ld8s | INDEX_op_qemu_ld16u | INDEX_op_qemu_ld16s
  | INDEX_op_qemu_ld32 | INDEX_op_qemu_ld32u | INDEX_op_qemu_ld32s | INDEX_op_qemu_ld64 => DEF 1 1 1 (Z.lor IMPL_LDST TCG_OPF_64BIT)
  | INDEX_op_qemu_st8 | INDEX_op_qemu_st16 | INDEX_op_qemu_st32 | INDEX_op_qemu_st64 => DEF 0 2 1 (Z.lor IMPL_LDST TCG_OPF_64BIT)
  end.

(** ** Conditions *)

Definition TCG_COND_EQ : Z := 8.
Definition TCG_COND_NE : Z := 9.
Definition TCG_COND_LT : Z := 2.
Definition TCG_COND_GE : Z := 3.
Definition TCG_COND_LE : Z := 10.
Definition TCG_COND_GT : Z := 11.
Definition TCG_COND_LTU : Z := 4.
Definition TCG_COND_GEU : Z := 5.
Definition TCG_COND_LEU : Z := 12.
Definition TCG_COND_GTU : Z := 13.

Definition tcg_invert_cond (c : Z) : Z := Z.lxor c 1.
Definition tcg_swap_cond (c : Z) : Z := if negb (Z.land c 6 =? 0) then Z.lxor c 9 else c.

(** [tci_compare32] and [tci_compare64]. *)
Definition tci_compare (w u0 u1 condition : Z) : res bool :=
  let i0 := swrap w u0 in
  let i1 := swrap w u1 in
  if condition =? TCG_COND_EQ then Ok (u0 =? u1)
  else if condition =? TCG_COND_NE then Ok (negb (u0 =? u1))
  else if condition =? TCG_COND_LT then Ok (i0 <? i1)
  else if condition =? TCG_COND_GE then Ok (i1 <=? i0)
  else if condition =? TCG_COND_LE then Ok (i0 <=? i1)
  else if condition =? TCG_COND_GT then Ok (i1 <? i0)
  else if condition =? TCG_COND_LTU then Ok (u0 <? u1)
  else if condition =? TCG_COND_GEU then Ok (u1 <=? u0)
  else if condition =? TCG_COND_LEU then Ok (u0 <=? u1)
  else if condition =? TCG_COND_GTU then Ok (u1 <? u0)
  else Err AssertFailed.

(** ** Contexts and code *)

Definition MO_SIZE : Z := 3.
Definition MO_SIGN : Z := 4.

Definition TCG_CALL_NO_READ_GLOBALS : Z := 0x0010.
Definition TCG_CALL_NO_WRITE_GLOBALS : Z := 0x0020.
Definition TCG_CALL_NO_SIDE_EFFECTS : Z := 0x0040.

(** What the passes use of [TCGContext], and of the host's configuration. *)
Record TCGContext : Type := mkCtx {
  nb_globals : Z; nb_temps : Z; temp_type : Z -> TCGType; temp_local : Z -> bool;
  TCG_TARGET_HAS_neg : TCGType -> bool; TCG_TARGET_HAS_not : TCGType -> bool
}.

(** An entry of [gen_opc_buf] with its part of [gen_opparam_buf]. *)
Record instr : Type := mkI { opc : TCGOpcode; args : list Z }.

Definition oargs (i : instr) : list Z := take (nb_oargs (tcg_op_defs (opc i))) (args i).
Definition iargs (i : instr) : list Z := take (nb_iargs (tcg_op_defs (opc i))) (drop (nb_oargs (tcg_op_defs (opc i))) (args i)).
Definition cargs (i : instr) : list Z := drop (nb_oargs (tcg_op_defs (opc i)) + nb_iargs (tcg_op_defs (opc i))) (args i).

(** ** Operations on values *)

Abbreviation uw ty v := (uwrap (bits ty) v).
Abbreviation sw ty v := (swrap (bits ty) v).

Definition shift_count (ty : TCGType) (n : Z) : res Z := let* _ := c_shift (bits ty) n in Ok n.

(** A signed division; an overflow is undefined like a zero divisor. *)
Definition signed_div (w a b : Z) : res unit :=
  if (b =? 0) || ((a =? - 2 ^ (w - 1)) && (b =? -1)) then Err DivisionByZero else Ok tt.

Definition deposit (w a b pos len : Z) : Z :=
  let m := uwrap w (Z.shiftl (Z.ones len) pos) in
  Z.lor (Z.land a (Z.lnot m)) (Z.land (Z.shiftl b pos) m).

(** Two words as one number, and back. *)
Definition pair_val (ty : TCGType) (lo hi : Z) : Z := hi * 2 ^ bits ty + lo.
Definition split_val (ty : TCGType) (v : Z) : list Z := [uw ty v; uw ty (Z.shiftr v (bits ty))].

Definition truth (t : bool) : Z := if t then 1 else 0.

(** How many bits of its inputs an operation reads. *)
Definition read_bits (op : TCGOpcode) : Z :=
  match op with
  | INDEX_op_mov ty | INDEX_op_movi ty | INDEX_op_setcond ty | INDEX_op_movcond ty
  | INDEX_op_add ty | INDEX_op_sub ty | INDEX_op_mul ty
  | INDEX_op_div ty | INDEX_op_divu ty | INDEX_op_rem ty | INDEX_op_remu ty | INDEX_op_div2 ty | INDEX_op_divu2 ty
  | INDEX_op_and ty | INDEX_op_or ty | INDEX_op_xor ty | INDEX_op_shl ty | INDEX_op_shr ty | INDEX_op_sar ty
  | INDEX_op_rotl ty | INDEX_op_rotr ty | INDEX_op_deposit ty | INDEX_op_brcond ty
  | INDEX_op_add2 ty | INDEX_op_sub2 ty | INDEX_op_mulu2 ty | INDEX_op_muls2 ty | INDEX_op_muluh ty | INDEX_op_mulsh ty
  | INDEX_op_not ty | INDEX_op_neg ty | INDEX_op_andc ty | INDEX_op_orc ty | INDEX_op_eqv ty | INDEX_op_nand ty | INDEX_op_nor ty => bits ty
  | INDEX_op_brcond2_i32 | INDEX_op_setcond2_i32 => 32
  | INDEX_op_ext8s _ | INDEX_op_ext8u _ => 8
  | INDEX_op_ext16s _ | INDEX_op_ext16u _ | INDEX_op_bswap16 _ => 16
  | INDEX_op_ext32s_i64 | INDEX_op_ext32u_i64 | INDEX_op_bswap32 _ => 32
  | _ => 64
  end.

Definition on1 {A} (l : list Z) (f : Z -> option A) : option A := match l with [a] => f a | _ => None end.
Definition on2 {A} (l : list Z) (f : Z -> Z -> option A) : option A := match l with [a; b] => f a b | _ => None end.
Definition on3 {A} (l : list Z) (f : Z -> Z -> Z -> option A) : option A := match l with [a; b; c] => f a b c | _ => None end.
Definition on4 {A} (l : list Z) (f : Z -> Z -> Z -> Z -> option A) : option A :=
  match l with [a; b; c; d] => f a b c d | _ => None end.

(** The outputs of an operation on the values that it reads; [None] if it is
    not one on values. *)
Definition eval (op : TCGOpcode) (ins cs : list Z) : option (res (list Z)) :=
  match op with
  | INDEX_op_mov ty => on1 ins (fun a => Some (Ok [a]))
  | INDEX_op_movi ty => on1 cs (fun v => Some (Ok [uw ty v]))
  | INDEX_op_setcond ty => on2 ins (fun a b =>
      on1 cs (fun c => Some (let* t := tci_compare (bits ty) a b c in Ok [truth t])))
  | INDEX_op_movcond ty => on4 ins (fun a b v1 v2 =>
      on1 cs (fun c => Some (let* t := tci_compare (bits ty) a b c in Ok [if (t : bool) then v1 else v2])))
  | INDEX_op_add ty => on2 ins (fun a b => Some (Ok [uw ty (a + b)]))
  | INDEX_op_sub ty => on2 ins (fun a b => Some (Ok [uw ty (a - b)]))
  | INDEX_op_mul ty => on2 ins (fun a b => Some (Ok [uw ty (a * b)]))
  | INDEX_op_div ty => on2 ins (fun a b =>
      Some (let* _ := signed_div (bits ty) (sw ty a) (sw ty b) in Ok [uw ty (Z.quot (sw ty a) (sw ty b))]))
  | INDEX_op_divu ty => on2 ins (fun a b => Some (let* q := c_div a b in Ok [q]))
  | INDEX_op_rem ty => on2 ins (fun a b =>
      Some (let* _ := signed_div (bits ty) (sw ty a) (sw ty b) in Ok [uw ty (Z.rem (sw ty a) (sw ty b))]))
  | INDEX_op_remu ty => on2 ins (fun a b => Some (let* q := c_mod a b in Ok [q]))
  | INDEX_op_div2 ty => on3 ins (fun lo hi d =>
      Some (let n := swrap (2 * bits ty) (pair_val ty lo hi) in
      let q := Z.quot n (sw ty d) in if (sw ty d =? 0) || negb (sw ty q =? q) then Err DivisionByZero else Ok [uw ty q; uw ty (Z.rem n (sw ty d))]))
  | INDEX_op_divu2 ty => on3 ins (fun lo hi d =>
      Some (let n := pair_val ty lo hi in if (d =? 0) || negb (n / d <? 2 ^ bits ty) then Err DivisionByZero else Ok [n / d; n mod d]))
  | INDEX_op_and ty => on2 ins (fun a b => Some (Ok [Z.land a b]))
  | INDEX_op_or ty => on2 ins (fun a b => Some (Ok [Z.lor a b]))
  | INDEX_op_xor ty => on2 ins (fun a b => Some (Ok [Z.lxor a b]))
  | INDEX_op_shl ty => on2 ins (fun a b => Some (let* n := shift_count ty b in Ok [uw ty (Z.shiftl a n)]))
  | INDEX_op_shr ty => on2 ins (fun a b => Some (let* n := shift_count ty b in Ok [Z.shiftr a n]))
  | INDEX_op_sar ty => on2 ins (fun a b => Some (let* n := shift_count ty b in Ok [uw ty (Z.shiftr (sw ty a) n)]))
  | INDEX_op_rotl ty => on2 ins (fun a b =>
      Some (let* n := shift_count ty b in Ok [Z.lor (uw ty (Z.shiftl a n)) (Z.shiftr a (bits ty - n))]))
  | INDEX_op_rotr ty => on2 ins (fun a b =>
      Some (let* n := shift_count ty b in Ok [Z.lor (Z.shiftr a n) (uw ty (Z.shiftl a (bits ty - n)))]))
  | INDEX_op_deposit ty => on2 ins (fun a b =>
      on2 cs (fun pos len => Some (Ok [deposit (bits ty) a b pos len])))
  | INDEX_op_add2 ty => on4 ins (fun al ah bl bh => Some (Ok (split_val ty (pair_val ty al ah + pair_val ty bl bh))))
  | INDEX_op_sub2 ty => on4 ins (fun al ah bl bh => Some (Ok (split_val ty (pair_val ty al ah - pair_val ty bl bh))))
  | INDEX_op_mulu2 ty => on2 ins (fun a b => Some (Ok (split_val ty (a * b))))
  | INDEX_op_muls2 ty => on2 ins (fun a b => Some (Ok (split_val ty (sw ty a * sw ty b))))
  | INDEX_op_muluh ty => on2 ins (fun a b => Some (Ok [uw ty (Z.shiftr (a * b) (bits ty))]))
  | INDEX_op_mulsh ty => on2 ins (fun a b => Some (Ok [uw ty (Z.shiftr (sw ty a * sw ty b) (bits ty))]))
  | INDEX_op_setcond2_i32 => on4 ins (fun al ah bl bh =>
      on1 cs (fun c => Some (let* t := tci_compare 64 (pair_val TCG_TYPE_I32 al ah) (pair_val TCG_TYPE_I32 bl bh) c in Ok [truth t])))
  | INDEX_op_ext8s ty => on1 ins (fun a => Some (Ok [uw ty (swrap 8 a)]))
  | INDEX_op_ext16s ty => on1 ins (fun a => Some (Ok [uw ty (swrap 16 a)]))
  | INDEX_op_ext32s_i64 => on1 ins (fun a => Some (Ok [uwrap 64 (swrap 32 a)]))
  | INDEX_op_ext8u _ | INDEX_op_ext16u _ | INDEX_op_ext32u_i64 => on1 ins (fun a => Some (Ok [a]))
  | INDEX_op_bswap16 _ => on1 ins (fun a => Some (Ok [bswap 2 a]))
  | INDEX_op_bswap32 _ => on1 ins (fun a => Some (Ok [bswap 4 a]))
  | INDEX_op_bswap64_i64 => on1 ins (fun a => Some (Ok [bswap 8 a]))
  | INDEX_op_not ty => on1 ins (fun a => Some (Ok [uw ty (Z.lnot a)]))
  | INDEX_op_neg ty => on1 ins (fun a => Some (Ok [uw ty (- a)]))
  | INDEX_op_andc ty => on2 ins (fun a b => Some (Ok [Z.land a (Z.lnot b)]))
  | INDEX_op_orc ty => on2 ins (fun a b => Some (Ok [uw ty (Z.lor a (Z.lnot b))]))
  | INDEX_op_eqv ty => on2 ins (fun a b => Some (Ok [uw ty (Z.lnot (Z.lxor a b))]))
  | INDEX_op_nand ty => on2 ins (fun a b => Some (Ok [uw ty (Z.lnot (Z.land a b))]))
  | INDEX_op_nor ty => on2 ins (fun a b => Some (Ok [uw ty (Z.lnot (Z.lor a b))]))
  | _ => None
  end.

(** ** Memory operations *)

(** Host loads and stores: the size, and for loads the sign. *)
Definition host_load (op : TCGOpcode) : option (TCGType * Z * bool) :=
  match op with
  | INDEX_op_ld8u ty => Some (ty, 8, false)
  | INDEX_op_ld8s ty => Some (ty, 8, true)
  | INDEX_op_ld16u ty => Some (ty, 16, false)
  | INDEX_op_ld16s ty => Some (ty, 16, true)
  | INDEX_op_ld32u_i64 => Some (TCG_TYPE_I64, 32, false)
  | INDEX_op_ld32s_i64 => Some (TCG_TYPE_I64, 32, true)
  | INDEX_op_ld ty => Some (ty, bits ty, false)
  | _ => None
  end.
Definition host_store (op : TCGOpcode) : option Z :=
  match op with
  | INDEX_op_st8 _ => Some 8
  | INDEX_op_st16 _ => Some 16
  | INDEX_op_st32_i64 => Some 32
  | INDEX_op_st ty => Some (bits ty)
  | _ => None
  end.

(** Guest loads and stores: the [TCGMemOp] and the MMU index. *)
Definition guest_load (op : TCGOpcode) (cs : list Z) : option (Z * Z) :=
  match op, cs with
  | INDEX_op_qemu_ld _, [mop; idx] => Some (mop, idx)
  | INDEX_op_qemu_ld8u, [idx] => Some (0, idx)
  | INDEX_op_qemu_ld8s, [idx] => Some (4, idx)
  | INDEX_op_qemu_ld16u, [idx] => Some (1, idx)
  | INDEX_op_qemu_ld16s, [idx] => Some (5, idx)
  | INDEX_op_qemu_ld32, [idx] | INDEX_op_qemu_ld32u, [idx] => Some (2, idx)
  | INDEX_op_qemu_ld32s, [idx] => Some (6, idx)
  | INDEX_op_qemu_ld64, [idx] => Some (3, idx)
  | _, _ => None
  end.
Definition guest_store (op : TCGOpcode) (cs : list Z) : option (Z * Z) :=
  match op, cs with
  | INDEX_op_qemu_st _, [mop; idx] => Some (mop, idx)
  | INDEX_op_qemu_st8, [idx] => Some (0, idx)
  | INDEX_op_qemu_st16, [idx] => Some (1, idx)
  | INDEX_op_qemu_st32, [idx] => Some (2, idx)
  | INDEX_op_qemu_st64, [idx] => Some (3, idx)
  | _, _ => None
  end.

Definition memop_bits (mop : Z) : Z := 8 * 2 ^ Z.land mop MO_SIZE.
Definition memop_signed (mop : Z) : bool := negb (Z.land mop MO_SIGN =? 0).

(** What the code acts on.  Guest accesses and helpers see the globals, helpers
    the flags that they are declared with; [None] is an exception, which leaves
    the block. *)
Class TcgWorld (W : Type) : Type := {
  w_host_ld : W -> Z -> Z -> Z;
  w_host_st : W -> Z -> Z -> Z -> W;
  w_guest_ld : W -> list Z -> Z -> Z -> Z -> W * option Z;
  w_guest_st : W -> list Z -> Z -> Z -> Z -> Z -> W * bool;
  w_helper : W -> Z -> list Z -> list Z -> W * option (list Z * list Z);
  w_linked : W -> Z -> bool
}.

(** ** Execution *)

(** The fields of the arguments of a call: number of outputs and inputs,
    outputs, inputs (the function last), flags and the total number. *)
Record call_args : Type := mkCall { c_outs : list Z; c_ins : list Z; c_flags : Z; c_tail : list Z }.
Definition decode_call (l : list Z) : call_args :=
  let nparam := nth 0 l 0 in
  let no := Z.to_nat (Z.shiftr nparam 16) in
  let ni := Z.to_nat (Z.land nparam 0xffff) in
  mkCall (take no (drop 1 l)) (take ni (drop (1 + no) l)) (nth (1 + no + ni) l 0) (drop (1 + no + ni) l).

Inductive outcome : Type := ExitTB (val : Z) | GotoTB (idx : Z) | Raised.
Inductive flow : Type := Next | Jump (label : Z) | Leave (o : outcome).

Definition env : Type := Z -> Z.
Definition upd (e : env) (t v : Z) : env := fun x => if x =? t then v else e x.
Fixpoint upds (e : env) (ts vs : list Z) : env :=
  match ts, vs with
  | t :: ts, v :: vs => upds (upd e t v) ts vs
  | _, _ => e
  end.

Section Exec.
Context {W : Type} `{TcgWorld W} (s : TCGContext).

(** The value of a temporary by its type. *)
Definition get (e : env) (t : Z) : Z := uw (temp_type s t) (e t).
Definition globals : list Z := seqZ 0 (nb_globals s).
(** An input of an operation. *)
Definition rd (op : TCGOpcode) (e : env) (t : Z) : Z := uwrap (read_bits op) (e t).

(** A helper sees the globals unless its flags exclude that, and writes them
    unless its flags exclude reading, writing or side effects. *)
Definition writes_globals (fl : Z) : bool :=
  Z.land fl (Z.lor (Z.lor TCG_CALL_NO_READ_GLOBALS TCG_CALL_NO_WRITE_GLOBALS) TCG_CALL_NO_SIDE_EFFECTS) =? 0.
Definition exec_call (w : W) (e : env) (l : list Z) : W * env * flow :=
  let c := decode_call l in
  let seen := if Z.land (c_flags c) TCG_CALL_NO_READ_GLOBALS =? 0 then get e <$> globals else [] in
  match w_helper w (c_flags c) seen (get e <$> c_ins c) with
  | (w, None) => (w, e, Leave Raised)
  | (w, Some (outs, gs)) =>
      let e := if writes_globals (c_flags c) then upds e globals (u64 <$> gs) else e in
      (w, upds e (c_outs c) (resize (length (c_outs c)) 0 (u64 <$> outs)), Next)
  end.

Definition exec_host_load (w : W) (e : env) (ty : TCGType) (n : Z) (sign : bool) (outs ins cs : list Z) : res (W * env * flow) :=
  match ins, cs with
  | [a], [off] =>
      let v := w_host_ld w (u64 (e a + off)) n in
      Ok (w, upds e outs [uw ty (if sign then swrap n v else uwrap n v)], Next)
  | _, _ => Err OutOfBounds
  end.
Definition exec_host_store (w : W) (e : env) (n : Z) (ins cs : list Z) : res (W * env * flow) :=
  match ins, cs with
  | [v; a], [off] => Ok (w_host_st w (u64 (e a + off)) n (uwrap n (e v)), e, Next)
  | _, _ => Err OutOfBounds
  end.
Definition exec_guest_load (w : W) (e : env) (mop idx : Z) (outs ins : list Z) : res (W * env * flow) :=
  match ins with
  | [a] =>
      match w_guest_ld w (get e <$> globals) (get e a) mop idx with
      | (w, None) => Ok (w, e, Leave Raised)
      | (w, Some v) =>
          let v := if memop_signed mop then u64 (swrap (memop_bits mop) v) else uwrap (memop_bits mop) v in
          Ok (w, upds e outs [v], Next)
      end
  | _ => Err OutOfBounds
  end.
Definition exec_guest_store (w : W) (e : env) (mop idx : Z) (ins : list Z) : res (W * env * flow) :=
  match ins with
  | [v; a] =>
      let '(w, ok) := w_guest_st w (get e <$> globals) (get e a) (uwrap (memop_bits mop) (get e v)) mop idx in
      Ok (w, e, if ok then Next else Leave Raised)
  | _ => Err OutOfBounds
  end.
Definition exec_eval (w : W) (e : env) (op : TCGOpcode) (outs ins cs : list Z) : res (W * env * flow) :=
  match eval op (rd op e <$> ins) cs with
  | Some r => let* vs := r in Ok (w, upds e outs vs, Next)
  | None => Err OutOfBounds
  end.
Definition exec_branch (w : W) (e : env) (cmp : Z -> res bool) (cs : list Z) : res (W * env * flow) :=
  match cs with
  | [c; l] => let* t := cmp c in Ok (w, e, if (t : bool) then Jump l else Next)
  | _ => Err OutOfBounds
  end.

Definition exec_data (w : W) (e : env) (op : TCGOpcode) (outs ins cs : list Z) : res (W * env * flow) :=
  match host_load op with Some (ty, n, sign) => exec_host_load w e ty n sign outs ins cs | None =>
  match host_store op with Some n => exec_host_store w e n ins cs | None =>
  match guest_load op cs with Some (mop, idx) => exec_guest_load w e mop idx outs ins | None =>
  match guest_store op cs with Some (mop, idx) => exec_guest_store w e mop idx ins | None =>
  exec_eval w e op outs ins cs
  end end end end.

Definition exec (w : W) (e : env) (i : instr) : res (W * env * flow) :=
  match opc i with
  | INDEX_op_nop | INDEX_op_nop1 | INDEX_op_nop2 | INDEX_op_nop3 | INDEX_op_nopn
  | INDEX_op_set_label | INDEX_op_debug_insn_start => Ok (w, e, Next)
  | INDEX_op_discard => Ok (w, upds e (oargs i) [0], Next)
  | INDEX_op_call => Ok (exec_call w e (args i))
  | INDEX_op_br => match cargs i with [l] => Ok (w, e, Jump l) | _ => Err OutOfBounds end
  | INDEX_op_brcond ty =>
      match iargs i with
      | [a; b] => exec_branch w e (tci_compare (bits ty) (rd (opc i) e a) (rd (opc i) e b)) (cargs i)
      | _ => Err OutOfBounds
      end
  | INDEX_op_brcond2_i32 =>
      match iargs i with
      | [al; ah; bl; bh] =>
          exec_branch w e (tci_compare 64 (pair_val TCG_TYPE_I32 (rd (opc i) e al) (rd (opc i) e ah))
            (pair_val TCG_TYPE_I32 (rd (opc i) e bl) (rd (opc i) e bh))) (cargs i)
      | _ => Err OutOfBounds
      end
  | INDEX_op_exit_tb => match cargs i with [v] => Ok (w, e, Leave (ExitTB v)) | _ => Err OutOfBounds end
  | INDEX_op_goto_tb => match cargs i with [v] => Ok (w, e, if w_linked w v then Leave (GotoTB v) else Next) | _ => Err OutOfBounds end
  | op => exec_data w e op (oargs i) (iargs i) (cargs i)
  end.

Fixpoint label_pos (code : list instr) (l : Z) : option nat :=
  match code with
  | [] => None
  | i :: code =>
      if bool_decide (opc i = INDEX_op_set_label) && bool_decide (args i = [l]) then Some 0%nat else S <$> label_pos code l
  end.

(** A run of the block from operation [pc] on. *)
Fixpoint run (fuel : nat) (code : list instr) (pc : nat) (w : W) (e : env) : res (W * env * outcome) :=
  match fuel with
  | O => Err OutOfFuel
  | S fuel =>
      match code !! pc with
      | None => Err OutOfBounds
      | Some i =>
          let* (w, e, fl) := exec w e i in
          match fl with
          | Next => run fuel code (S pc) w e
          | Jump l => match label_pos code l with Some pc => run fuel code pc w e | None => Err OutOfBounds end
          | Leave o => Ok (w, e, o)
          end
      end
  end.
End Exec.
