(* ===== verification/TcgOptimize.v ===== *)
(** * The optimizer ([tcg/optimize.c])

    One pass over a translation block propagates constants and copies, folds
    constant expressions and tracks the bits that are known to be zero.  The
    static array [temps] is a function of the index; copies are linked in
    circular lists through it. *)

From stdpp Require Import base list numbers.
From S2P Require Import Prelude HostUtils Bitops Tcg.

Inductive tcg_temp_state : Type := TCG_TEMP_UNDEF | TCG_TEMP_CONST | TCG_TEMP_COPY.

#[export] Instance tcg_temp_state_eq_dec : EqDecision tcg_temp_state.
Proof. solve_decision. Defined.

Record tcg_temp_info : Type := mkTI {
  state : tcg_temp_state; prev_copy : Z; next_copy : Z; val : Z; mask : Z
}.
Definition tinfo : Type := Z -> tcg_temp_info.

Definition put (ts : tinfo) (t : Z) (x : tcg_temp_info) : tinfo := fun i => if i =? t then x else ts i.
Definition set_state (x : tcg_temp_info) (st : tcg_temp_state) : tcg_temp_info := mkTI st (prev_copy x) (next_copy x) (val x) (mask x).
Definition set_prev (x : tcg_temp_info) (p : Z) : tcg_temp_info := mkTI (state x) p (next_copy x) (val x) (mask x).
Definition set_next (x : tcg_temp_info) (n : Z) : tcg_temp_info := mkTI (state x) (prev_copy x) n (val x) (mask x).
Definition set_val (x : tcg_temp_info) (v : Z) : tcg_temp_info := mkTI (state x) (prev_copy x) (next_copy x) v (mask x).
Definition set_mask (x : tcg_temp_info) (m : Z) : tcg_temp_info := mkTI (state x) (prev_copy x) (next_copy x) (val x) m.

Definition all_ones : Z := 2 ^ 64 - 1.
Definition is_copy (ts : tinfo) (t : Z) : bool := bool_decide (state (ts t) = TCG_TEMP_COPY).
Definition is_const (ts : tinfo) (t : Z) : bool := bool_decide (state (ts t) = TCG_TEMP_CONST).
Definition const_is (ts : tinfo) (t v : Z) : bool := is_const ts t && (val (ts t) =? v).

Definition reset_temp (ts : tinfo) (temp : Z) : tinfo :=
  let ts :=
    if is_copy ts temp then
      if prev_copy (ts temp) =? next_copy (ts temp) then
        let n := next_copy (ts temp) in put ts n (set_state (ts n) TCG_TEMP_UNDEF)
      else
        let n := next_copy (ts temp) in
        let ts := put ts n (set_prev (ts n) (prev_copy (ts temp))) in
        let p := prev_copy (ts temp) in
        put ts p (set_next (ts p) (next_copy (ts temp)))
    else ts in
  put ts temp (set_mask (set_state (ts temp) TCG_TEMP_UNDEF) all_ones).

Definition reset_all_temps (nb : Z) (ts : tinfo) : tinfo := fun i =>
  if (0 <=? i) && (i <? nb) then set_mask (set_state (ts i) TCG_TEMP_UNDEF) all_ones else ts i.

Definition op_bits (op : TCGOpcode) : Z := if has_flag (tcg_op_defs op) TCG_OPF_64BIT then 64 else 32.
Definition op_type (op : TCGOpcode) : TCGType := if op_bits op =? 64 then TCG_TYPE_I64 else TCG_TYPE_I32.
Definition op_to_movi (op : TCGOpcode) : TCGOpcode := INDEX_op_movi (op_type op).
Definition op_to_mov (op : TCGOpcode) : TCGOpcode := INDEX_op_mov (op_type op).

(** ** Copies *)

(** [for (i = first; i != temp; i = temps[i].next_copy) if (p(i)) return i;] *)
Fixpoint find_copy (fuel : nat) (ts : tinfo) (p : Z -> bool) (temp i : Z) : res (option Z) :=
  if i =? temp then Ok None else
  match fuel with
  | O => Err OutOfFuel
  | S fuel => if p i then Ok (Some i) else find_copy fuel ts p temp (next_copy (ts i))
  end.

Section Optimize.
Context (s : TCGContext).
Implicit Types ts : tinfo.

Definition search ts (p : Z -> bool) (temp : Z) : res (option Z) :=
  find_copy (Z.to_nat (nb_temps s)) ts p temp (next_copy (ts temp)).

Definition find_better_copy ts (temp : Z) : res Z :=
  if temp <? nb_globals s then Ok temp else
  let* g := search ts (fun i => i <? nb_globals s) temp in
  match g with
  | Some i => Ok i
  | None =>
      if negb (temp_local s temp) then
        let* l := search ts (temp_local s) temp in
        Ok match l with Some i => i | None => temp end
      else Ok temp
  end.

Definition temps_are_copies ts (arg1 arg2 : Z) : res bool :=
  if arg1 =? arg2 then Ok true
  else if negb (is_copy ts arg1) || negb (is_copy ts arg2) then Ok false
  else let* r := search ts (fun i => i =? arg2) arg1 in Ok match r with Some _ => true | None => false end.

(** The operation that replaces [op], with its arguments. *)
Definition tcg_opt_gen_mov ts (op : TCGOpcode) (dst src : Z) : res (tinfo * instr) :=
  let ts := reset_temp ts dst in
  let ts := put ts dst (set_mask (ts dst) (mask (ts src))) in
  let* _ := c_assert (negb (is_const ts src)) in
  let ts :=
    if bool_decide (temp_type s src = temp_type s dst) then
      let ts := if negb (is_copy ts src) then put ts src (set_prev (set_next (set_state (ts src) TCG_TEMP_COPY) src) src) else ts in
      let ts := put ts dst (set_prev (set_next (set_state (ts dst) TCG_TEMP_COPY) (next_copy (ts src))) src) in
      let n := next_copy (ts dst) in
      let ts := put ts n (set_prev (ts n) dst) in
      put ts src (set_next (ts src) dst)
    else ts in
  Ok (ts, mkI (op_to_mov op) [dst; src]).

Definition tcg_opt_gen_movi ts (op : TCGOpcode) (dst v : Z) : tinfo * instr :=
  let ts := reset_temp ts dst in
  (put ts dst (set_mask (set_val (set_state (ts dst) TCG_TEMP_CONST) v) v), mkI (op_to_movi op) [dst; v]).

(** A move, or nothing if the two are copies already. *)
Definition mov_or_nop ts (op : TCGOpcode) (dst src : Z) : res (tinfo * instr) :=
  let* c := temps_are_copies ts dst src in
  if (c : bool) then Ok (ts, mkI INDEX_op_nop []) else tcg_opt_gen_mov ts op dst src.

(** The same where the source may be a constant. *)
Definition mov_const_or_nop ts (op : TCGOpcode) (dst src : Z) : res (tinfo * instr) :=
  let* c := temps_are_copies ts dst src in
  if (c : bool) then Ok (ts, mkI INDEX_op_nop [])
  else if negb (is_const ts src) then tcg_opt_gen_mov ts op dst src
  else Ok (tcg_opt_gen_movi ts op dst (val (ts src))).

(** ** Constant folding *)

Definition do_constant_folding_2 (op : TCGOpcode) (x y : Z) : res Z :=
  match op with
  | INDEX_op_add _ => Ok (u64 (x + y))
  | INDEX_op_sub _ => Ok (u64 (x - y))
  | INDEX_op_mul _ => Ok (u64 (x * y))
  | INDEX_op_and _ => Ok (Z.land x y)
  | INDEX_op_or _ => Ok (Z.lor x y)
  | INDEX_op_xor _ => Ok (Z.lxor x y)
  | INDEX_op_shl ty => let* _ := c_shift (bits ty) (uw ty y) in Ok (uw ty (Z.shiftl (uw ty x) (uw ty y)))
  | INDEX_op_shr ty => let* _ := c_shift (bits ty) (uw ty y) in Ok (Z.shiftr (uw ty x) (uw ty y))
  | INDEX_op_sar ty => let* _ := c_shift (bits ty) (sw ty y) in Ok (u64 (Z.shiftr (sw ty x) (sw ty y)))
  | INDEX_op_rotr TCG_TYPE_I32 => ror32 (u32 x) (u32 y)
  | INDEX_op_rotr TCG_TYPE_I64 => ror64 x (u32 y)
  | INDEX_op_rotl TCG_TYPE_I32 => rol32 (u32 x) (u32 y)
  | INDEX_op_rotl TCG_TYPE_I64 => rol64 x (u32 y)
  | INDEX_op_not _ => Ok (u64 (Z.lnot x))
  | INDEX_op_neg _ => Ok (u64 (- x))
  | INDEX_op_andc _ => Ok (Z.land x (u64 (Z.lnot y)))
  | INDEX_op_orc _ => Ok (Z.lor x (u64 (Z.lnot y)))
  | INDEX_op_eqv _ => Ok (u64 (Z.lnot (Z.lxor x y)))
  | INDEX_op_nand _ => Ok (u64 (Z.lnot (Z.land x y)))
  | INDEX_op_nor _ => Ok (u64 (Z.lnot (Z.lor x y)))
  | INDEX_op_ext8s _ => Ok (u64 (swrap 8 x))
  | INDEX_op_ext16s _ => Ok (u64 (swrap 16 x))
  | INDEX_op_ext8u _ => Ok (uwrap 8 x)
  | INDEX_op_ext16u _ => Ok (uwrap 16 x)
  | INDEX_op_ext32s_i64 => Ok (u64 (swrap 32 x))
  | INDEX_op_ext32u_i64 => Ok (u32 x)
  | INDEX_op_muluh TCG_TYPE_I32 => Ok (Z.shiftr (u64 (u32 x * u32 y)) 32)
  | INDEX_op_mulsh TCG_TYPE_I32 => Ok (u64 (Z.shiftr (s64 (s32 x * s32 y)) 32))
  | INDEX_op_muluh TCG_TYPE_I64 => Ok (mulu64 x y).2
  | INDEX_op_mulsh TCG_TYPE_I64 => Ok (muls64 (s64 x) (s64 y)).2
  | INDEX_op_div ty =>
      let d := if sw ty y =? 0 then 1 else sw ty y in
      let* _ := signed_div (bits ty) (sw ty x) d in Ok (u64 (Z.quot (sw ty x) d))
  | INDEX_op_divu ty => let d := if uw ty y =? 0 then 1 else uw ty y in Ok (uw ty x / d)
  | INDEX_op_rem ty =>
      let d := if sw ty y =? 0 then 1 else sw ty y in
      let* _ := signed_div (bits ty) (sw ty x) d in Ok (u64 (Z.rem (sw ty x) d))
  | INDEX_op_remu ty => let d := if uw ty y =? 0 then 1 else uw ty y in Ok (uw ty x mod d)
  | _ => Err AssertFailed
  end.

Definition do_constant_folding (op : TCGOpcode) (x y : Z) : res Z :=
  let* r := do_constant_folding_2 op x y in
  Ok (if op_bits op =? 32 then Z.land r 0xffffffff else r).

(** [do_constant_folding_cond_32] and [do_constant_folding_cond_64]. *)
Definition do_constant_folding_cond_w (w x y c : Z) : res bool :=
  let x := uwrap w x in
  let y := uwrap w y in
  if c =? TCG_COND_EQ then Ok (x =? y)
  else if c =? TCG_COND_NE then Ok (negb (x =? y))
  else if c =? TCG_COND_LT then Ok (swrap w x <? swrap w y)
  else if c =? TCG_COND_GE then Ok (swrap w y <=? swrap w x)
  else if c =? TCG_COND_LE then Ok (swrap w x <=? swrap w y)
  else if c =? TCG_COND_GT then Ok (swrap w y <? swrap w x)
  else if c =? TCG_COND_LTU then Ok (x <? y)
  else if c =? TCG_COND_GEU then Ok (y <=? x)
  else if c =? TCG_COND_LEU then Ok (x <=? y)
  else if c =? TCG_COND_GTU then Ok (y <? x)
  else Err AssertFailed.

Definition do_constant_folding_cond_eq (c : Z) : res bool :=
  if (c =? TCG_COND_GT) || (c =? TCG_COND_LTU) || (c =? TCG_COND_LT) || (c =? TCG_COND_GTU) || (c =? TCG_COND_NE) then Ok false
  else if (c =? TCG_COND_GE) || (c =? TCG_COND_GEU) || (c =? TCG_COND_LE) || (c =? TCG_COND_LEU) || (c =? TCG_COND_EQ) then Ok true
  else Err AssertFailed.

(** A comparison with zero; the result is [None] for the 2 of the source. *)
Definition cond_zero (c : Z) : option bool :=
  if c =? TCG_COND_LTU then Some false else if c =? TCG_COND_GEU then Some true else None.

Definition do_constant_folding_cond ts (op : TCGOpcode) (x y c : Z) : res (option bool) :=
  if is_const ts x && is_const ts y then
    let* b := do_constant_folding_cond_w (op_bits op) (val (ts x)) (val (ts y)) c in Ok (Some b)
  else
    let* copies := temps_are_copies ts x y in
    if (copies : bool) then let* b := do_constant_folding_cond_eq c in Ok (Some b)
    else if const_is ts y 0 then Ok (cond_zero c)
    else Ok None.

Definition cond2_val ts (l h : Z) : Z := Z.lor (u64 (Z.shiftl (val (ts h)) 32)) (u32 (val (ts l))).

Definition do_constant_folding_cond2 ts (al ah bl bh c : Z) : res (option bool) :=
  let both := is_const ts bl && is_const ts bh in
  let b := cond2_val ts bl bh in
  if both && (is_const ts al && is_const ts ah) then
    let* r := do_constant_folding_cond_w 64 (cond2_val ts al ah) b c in Ok (Some r)
  else if both && (b =? 0) && bool_decide (is_Some (cond_zero c)) then Ok (cond_zero c)
  else
    let* c1 := temps_are_copies ts al bl in
    if negb c1 then Ok None else
    let* c2 := temps_are_copies ts ah bh in
    if negb c2 then Ok None else
    let* r := do_constant_folding_cond_eq c in Ok (Some r).

(** ** Operand order *)

Definition const_count ts (t : Z) : Z := if is_const ts t then 1 else 0.

Definition swap_commutative ts (dest p1 p2 : Z) : Z * Z * bool :=
  let sum := const_count ts p1 - const_count ts p2 in
  if (0 <? sum) || ((sum =? 0) && (dest =? p2)) then (p2, p1, true) else (p1, p2, false).

Definition swap_commutative2 ts (al ah bl bh : Z) : Z * Z * (Z * Z) * bool :=
  let sum := const_count ts al + const_count ts ah - const_count ts bl - const_count ts bh in
  if 0 <? sum then (bl, bh, (al, ah), true) else (al, ah, (bl, bh), false).

Definition commutative (op : TCGOpcode) : bool :=
  match op with
  | INDEX_op_add _ | INDEX_op_mul _ | INDEX_op_and _ | INDEX_op_or _ | INDEX_op_xor _ | INDEX_op_eqv _
  | INDEX_op_nand _ | INDEX_op_nor _ | INDEX_op_muluh _ | INDEX_op_mulsh _ => true
  | _ => false
  end.

(** "For commutative operations make constant second argument" *)
Definition canonicalize ts (op : TCGOpcode) (l : list Z) : list Z :=
  match op, l with
  | INDEX_op_brcond _, [a; b; c; lab] =>
      let '(a, b, sw) := swap_commutative ts all_ones a b in [a; b; if (sw : bool) then tcg_swap_cond c else c; lab]
  | INDEX_op_setcond _, [d; a; b; c] =>
      let '(a, b, sw) := swap_commutative ts d a b in [d; a; b; if (sw : bool) then tcg_swap_cond c else c]
  | INDEX_op_movcond _, [d; a; b; v1; v2; c] =>
      let '(a, b, sw) := swap_commutative ts all_ones a b in
      let c := if (sw : bool) then tcg_swap_cond c else c in
      let '(v2, v1, sw) := swap_commutative ts d v2 v1 in
      [d; a; b; v1; v2; if (sw : bool) then tcg_invert_cond c else c]
  | INDEX_op_add2 _, [rl; rh; al; ah; bl; bh] =>
      let '(al, bl, _) := swap_commutative ts rl al bl in
      let '(ah, bh, _) := swap_commutative ts rh ah bh in [rl; rh; al; ah; bl; bh]
  | INDEX_op_mulu2 _, [rl; rh; a; b] | INDEX_op_muls2 _, [rl; rh; a; b] =>
      let '(a, b, _) := swap_commutative ts rl a b in [rl; rh; a; b]
  | INDEX_op_brcond2_i32, [al; ah; bl; bh; c; lab] =>
      let '(al, ah, (bl, bh), sw) := swap_commutative2 ts al ah bl bh in
      [al; ah; bl; bh; if (sw : bool) then tcg_swap_cond c else c; lab]
  | INDEX_op_setcond2_i32, [d; al; ah; bl; bh; c] =>
      let '(al, ah, (bl, bh), sw) := swap_commutative2 ts al ah bl bh in
      [d; al; ah; bl; bh; if (sw : bool) then tcg_swap_cond c else c]
  | _, [d; a; b] => if commutative op then let '(a, b, _) := swap_commutative ts d a b in [d; a; b] else l
  | _, _ => l
  end.

(** ** Algebraic simplifications *)

(** [try_not] *)
Definition try_not ts (op : TCGOpcode) (d a : Z) : option (tinfo * instr) :=
  let ty := if has_flag (tcg_op_defs op) TCG_OPF_64BIT then TCG_TYPE_I64 else TCG_TYPE_I32 in
  if TCG_TARGET_HAS_not s ty then Some (reset_temp ts d, mkI (INDEX_op_not ty) [d; a]) else None.

(** "shift/rot r, 0, a => movi r, 0", "sub r, 0, a => neg r, a" and the
    operations that are a complement. *)
Definition simplify_unary ts (op : TCGOpcode) (l : list Z) : option (tinfo * instr) :=
  match op, l with
  | INDEX_op_shl _, [d; a; b] | INDEX_op_shr _, [d; a; b] | INDEX_op_sar _, [d; a; b]
  | INDEX_op_rotl _, [d; a; b] | INDEX_op_rotr _, [d; a; b] =>
      if const_is ts a 0 then Some (tcg_opt_gen_movi ts op d 0) else None
  | INDEX_op_sub ty, [d; a; b] =>
      if is_const ts b then None
      else if negb (TCG_TARGET_HAS_neg s ty) then None
      else if const_is ts a 0 then Some (reset_temp ts d, mkI (INDEX_op_neg ty) [d; b]) else None
  | INDEX_op_xor _, [d; a; b] | INDEX_op_nand _, [d; a; b] =>
      if negb (is_const ts a) && const_is ts b all_ones then try_not ts op d a else None
  | INDEX_op_nor _, [d; a; b] => if negb (is_const ts a) && const_is ts b 0 then try_not ts op d a else None
  | INDEX_op_andc _, [d; a; b] => if negb (is_const ts b) && const_is ts a all_ones then try_not ts op d b else None
  | INDEX_op_orc _, [d; a; b] | INDEX_op_eqv _, [d; a; b] =>
      if negb (is_const ts b) && const_is ts a 0 then try_not ts op d b else None
  | _, _ => None
  end.

(** "op r, a, const => mov r, a" *)
Definition mov_const (op : TCGOpcode) : option Z :=
  match op with
  | INDEX_op_add _ | INDEX_op_sub _ | INDEX_op_shl _ | INDEX_op_shr _ | INDEX_op_sar _
  | INDEX_op_rotl _ | INDEX_op_rotr _ | INDEX_op_or _ | INDEX_op_xor _ | INDEX_op_andc _ => Some 0
  | INDEX_op_and _ | INDEX_op_orc _ | INDEX_op_eqv _ => Some all_ones
  | _ => None
  end.

Definition simplify_mov ts (op : TCGOpcode) (l : list Z) : option (res (tinfo * instr)) :=
  match mov_const op, l with
  | Some v, [d; a; b] => if negb (is_const ts a) && const_is ts b v then Some (mov_or_nop ts op d a) else None
  | _, _ => None
  end.

(** ** Known zero bits *)

(** [and_const]: the mask of the result and the bits that are affected. *)
Definition and_const ts (a m : Z) : Z * Z := (Z.land (mask (ts a)) m, Z.land (mask (ts a)) (u64 (Z.lnot m))).

Definition known_zeros ts (op : TCGOpcode) (l : list Z) : res (Z * Z) :=
  match op, l with
  | INDEX_op_ext8s _, [d; a] => Ok (if negb (Z.land (mask (ts a)) 0x80 =? 0) then (all_ones, all_ones) else and_const ts a 0xff)
  | INDEX_op_ext8u _, [d; a] => Ok (and_const ts a 0xff)
  | INDEX_op_ext16s _, [d; a] => Ok (if negb (Z.land (mask (ts a)) 0x8000 =? 0) then (all_ones, all_ones) else and_const ts a 0xffff)
  | INDEX_op_ext16u _, [d; a] => Ok (and_const ts a 0xffff)
  | INDEX_op_ext32s_i64, [d; a] =>
      Ok (if negb (Z.land (mask (ts a)) 0x80000000 =? 0) then (all_ones, all_ones) else and_const ts a 0xffffffff)
  | INDEX_op_ext32u_i64, [d; a] => Ok (and_const ts a 0xffffffff)
  | INDEX_op_and _, [d; a; b] =>
      Ok (if is_const ts b then and_const ts a (mask (ts b)) else (Z.land (mask (ts a)) (mask (ts b)), all_ones))
  | INDEX_op_andc _, [d; a; b] =>
      Ok (if is_const ts b then and_const ts a (u64 (Z.lnot (mask (ts b)))) else (mask (ts a), all_ones))
  | INDEX_op_sar ty, [d; a; b] =>
      if is_const ts b then
        let* _ := c_shift (bits ty) (val (ts b)) in Ok (u64 (Z.shiftr (sw ty (mask (ts a))) (val (ts b))), all_ones)
      else Ok (all_ones, all_ones)
  | INDEX_op_shr ty, [d; a; b] =>
      if is_const ts b then
        let* _ := c_shift (bits ty) (val (ts b)) in Ok (Z.shiftr (uw ty (mask (ts a))) (val (ts b)), all_ones)
      else Ok (all_ones, all_ones)
  | INDEX_op_shl ty, [d; a; b] =>
      if is_const ts b then
        let* _ := c_shift 64 (val (ts b)) in Ok (u64 (Z.shiftl (mask (ts a)) (val (ts b))), all_ones)
      else Ok (all_ones, all_ones)
  | INDEX_op_neg _, [d; a] => Ok (u64 (- Z.land (mask (ts a)) (u64 (- mask (ts a)))), all_ones)
  | INDEX_op_deposit _, [d; a; b; pos; len] =>
      let* _ := c_shift 64 len in
      let tmp := Z.shiftl 1 len - 1 in
      let* _ := c_shift 64 pos in
      Ok (Z.lor (Z.land (mask (ts a)) (u64 (Z.lnot (u64 (Z.shiftl tmp pos))))) (u64 (Z.shiftl (Z.land (mask (ts b)) tmp) pos)), all_ones)
  | INDEX_op_or _, [d; a; b] | INDEX_op_xor _, [d; a; b] => Ok (Z.lor (mask (ts a)) (mask (ts b)), all_ones)
  | INDEX_op_setcond _, _ => Ok (1, all_ones)
  | INDEX_op_movcond _, [d; a; b; v1; v2; c] => Ok (Z.lor (mask (ts v1)) (mask (ts v2)), all_ones)
  | INDEX_op_ld8u _, _ | INDEX_op_qemu_ld8u, _ => Ok (0xff, all_ones)
  | INDEX_op_ld16u _, _ | INDEX_op_qemu_ld16u, _ => Ok (0xffff, all_ones)
  | INDEX_op_ld32u_i64, _ | INDEX_op_qemu_ld32u, _ => Ok (0xffffffff, all_ones)
  | INDEX_op_qemu_ld _, [d; a; mop; idx] =>
      Ok (if Z.land mop MO_SIGN =? 0 then u64 (u64 (Z.shiftl 2 (Z.shiftl 8 (Z.land mop MO_SIZE) - 1)) - 1) else all_ones, all_ones)
  | _, _ => Ok (all_ones, all_ones)
  end.

Definition result_mask (op : TCGOpcode) (m : Z) : Z :=
  if Z.land (flags (tcg_op_defs op)) (Z.lor TCG_OPF_CALL_CLOBBER TCG_OPF_64BIT) =? 0 then Z.land m 0xffffffff else m.

(** The two simplifications by masks. *)
Definition simplify_mask ts (op : TCGOpcode) (l : list Z) (m affected : Z) : res (option (tinfo * instr)) :=
  if m =? 0 then
    let* _ := c_assert (nb_oargs (tcg_op_defs op) =? 1)%nat in
    Ok (Some (tcg_opt_gen_movi ts op (nth 0 l 0) 0))
  else if affected =? 0 then
    let* _ := c_assert (nb_oargs (tcg_op_defs op) =? 1)%nat in
    let* r := mov_const_or_nop ts op (nth 0 l 0) (nth 1 l 0) in Ok (Some r)
  else Ok None.

(** "op r, a, 0 => movi r, 0", "op r, a, a => mov r, a" and "op r, a, a => movi r, 0" *)
Definition simplify_same ts (op : TCGOpcode) (l : list Z) : res (option (tinfo * instr)) :=
  match l with
  | [d; a; b] =>
      let zero := match op with
                  | INDEX_op_and _ | INDEX_op_mul _ | INDEX_op_muluh _ | INDEX_op_mulsh _ => const_is ts b 0
                  | _ => false
                  end in
      if (zero : bool) then Ok (Some (tcg_opt_gen_movi ts op d 0)) else
      match op with
      | INDEX_op_or _ | INDEX_op_and _ =>
          let* c := temps_are_copies ts a b in
          if (c : bool) then let* r := mov_or_nop ts op d a in Ok (Some r) else Ok None
      | INDEX_op_andc _ | INDEX_op_sub _ | INDEX_op_xor _ =>
          let* c := temps_are_copies ts a b in
          if (c : bool) then Ok (Some (tcg_opt_gen_movi ts op d 0)) else Ok None
      | _ => Ok None
      end
  | _ => Ok None
  end.

(** ** The pass *)

(** What an operation becomes: one operation, or two that also take the place
    of the [nop] after it. *)
Inductive emitted : Type := One (i : instr) | Two (i1 i2 : instr).

(** [do_default] *)
Fixpoint reset_outputs ts (outs : list Z) : tinfo :=
  match outs with [] => ts | t :: outs => reset_outputs (reset_temp ts t) outs end.
Definition do_default ts (i : instr) (m : Z) : tinfo * emitted :=
  let ts :=
    if has_flag (tcg_op_defs (opc i)) TCG_OPF_BB_END then reset_all_temps (nb_temps s) ts
    else match oargs i with
         | [] => ts
         | t :: outs => let ts := reset_temp ts t in reset_outputs (put ts t (set_mask (ts t) m)) outs
         end in
  (ts, One i).

Definition foldable_1 (op : TCGOpcode) : bool :=
  match op with
  | INDEX_op_not _ | INDEX_op_neg _ | INDEX_op_ext8s _ | INDEX_op_ext8u _ | INDEX_op_ext16s _ | INDEX_op_ext16u _
  | INDEX_op_ext32s_i64 | INDEX_op_ext32u_i64 => true
  | _ => false
  end.
Definition foldable_2 (op : TCGOpcode) : bool :=
  match op with
  | INDEX_op_add _ | INDEX_op_sub _ | INDEX_op_mul _ | INDEX_op_or _ | INDEX_op_and _ | INDEX_op_xor _
  | INDEX_op_shl _ | INDEX_op_shr _ | INDEX_op_sar _ | INDEX_op_rotl _ | INDEX_op_rotr _
  | INDEX_op_andc _ | INDEX_op_orc _ | INDEX_op_eqv _ | INDEX_op_nand _ | INDEX_op_nor _
  | INDEX_op_muluh _ | INDEX_op_mulsh _ | INDEX_op_div _ | INDEX_op_divu _ | INDEX_op_rem _ | INDEX_op_remu _ => true
  | _ => false
  end.

Definition one (r : tinfo * instr) : tinfo * emitted := (r.1, One r.2).

(** A branch whose condition is known. *)
Definition known_branch ts (taken : bool) (lab : Z) : tinfo * emitted :=
  if taken then (reset_all_temps (nb_temps s) ts, One (mkI INDEX_op_br [lab])) else (ts, One (mkI INDEX_op_nop [])).

(** The results of a double-word operation on constants. *)
Definition gen_movi2 ts (rl rh v : Z) : tinfo * emitted :=
  let '(ts, i1) := tcg_opt_gen_movi ts (INDEX_op_add TCG_TYPE_I32) rl (u32 v) in
  let '(ts, i2) := tcg_opt_gen_movi ts (INDEX_op_add TCG_TYPE_I32) rh (u32 (Z.shiftr v 32)) in
  (ts, Two i1 i2).

(** [LT] and [GE] against zero. *)
Definition sign_test ts (bl bh c : Z) : bool :=
  ((c =? TCG_COND_LT) || (c =? TCG_COND_GE)) && const_is ts bl 0 && const_is ts bh 0.

Definition reset_globals ts : tinfo := reset_outputs ts (seqZ 0 (nb_globals s)).

Definition opt_call ts (i : instr) : tinfo * emitted :=
  let c := decode_call (args i) in
  let ts := if Z.land (c_flags c) (Z.lor TCG_CALL_NO_READ_GLOBALS TCG_CALL_NO_WRITE_GLOBALS) =? 0 then reset_globals ts else ts in
  (reset_outputs ts (c_outs c), One i).

(** The last [switch]: copies, constants and the rest. *)
Definition propagate ts (i : instr) (m : Z) : res (tinfo * emitted) :=
  let op := opc i in
  match op, args i with
  | INDEX_op_mov _, [d; a] => let* r := mov_const_or_nop ts op d a in Ok (one r)
  | INDEX_op_movi _, [d; v] => Ok (one (tcg_opt_gen_movi ts op d v))
  | INDEX_op_deposit _, [d; a; b; pos; len] =>
      if is_const ts a && is_const ts b then
        let* _ := c_shift 64 len in
        let tmp := Z.shiftl 1 len - 1 in
        let* _ := c_shift 64 pos in
        Ok (one (tcg_opt_gen_movi ts op d
          (Z.lor (Z.land (val (ts a)) (u64 (Z.lnot (u64 (Z.shiftl tmp pos))))) (u64 (Z.shiftl (Z.land (val (ts b)) tmp) pos)))))
      else Ok (do_default ts i m)
  | INDEX_op_setcond _, [d; a; b; c] =>
      let* r := do_constant_folding_cond ts op a b c in
      Ok match r with
         | Some t => one (tcg_opt_gen_movi ts op d (if (t : bool) then 1 else 0))
         | None => do_default ts i m
         end
  | INDEX_op_brcond _, [a; b; c; lab] =>
      let* r := do_constant_folding_cond ts op a b c in
      Ok match r with Some t => known_branch ts t lab | None => do_default ts i m end
  | INDEX_op_movcond _, [d; a; b; v1; v2; c] =>
      let* r := do_constant_folding_cond ts op a b c in
      match r with
      | Some t => let* r := mov_const_or_nop ts op d (if (t : bool) then v1 else v2) in Ok (one r)
      | None => Ok (do_default ts i m)
      end
  | INDEX_op_add2 TCG_TYPE_I32, [rl; rh; al; ah; bl; bh] | INDEX_op_sub2 TCG_TYPE_I32, [rl; rh; al; ah; bl; bh] =>
      if is_const ts al && is_const ts ah && is_const ts bl && is_const ts bh then
        let a := Z.lor (u64 (Z.shiftl (u32 (val (ts ah))) 32)) (u32 (val (ts al))) in
        let b := Z.lor (u64 (Z.shiftl (u32 (val (ts bh))) 32)) (u32 (val (ts bl))) in
        Ok (gen_movi2 ts rl rh (u64 (if bool_decide (op = INDEX_op_add2 TCG_TYPE_I32) then a + b else a - b)))
      else Ok (do_default ts i m)
  | INDEX_op_mulu2 TCG_TYPE_I32, [rl; rh; a; b] =>
      if is_const ts a && is_const ts b then Ok (gen_movi2 ts rl rh (u64 (u32 (val (ts a)) * u32 (val (ts b)))))
      else Ok (do_default ts i m)
  | INDEX_op_brcond2_i32, [al; ah; bl; bh; c; lab] =>
      let* r := do_constant_folding_cond2 ts al ah bl bh c in
      Ok match r with
         | Some t => known_branch ts t lab
         | None =>
             if sign_test ts bl bh c
             then (reset_all_temps (nb_temps s) ts, One (mkI (INDEX_op_brcond TCG_TYPE_I32) [ah; bh; c; lab]))
             else do_default ts i m
         end
  | INDEX_op_setcond2_i32, [d; al; ah; bl; bh; c] =>
      let* r := do_constant_folding_cond2 ts al ah bl bh c in
      Ok match r with
         | Some t => one (tcg_opt_gen_movi ts op d (if (t : bool) then 1 else 0))
         | None =>
             if sign_test ts bl bh c
             then (reset_temp ts d, One (mkI (INDEX_op_setcond TCG_TYPE_I32) [d; ah; bh; c]))
             else do_default ts i m
         end
  | INDEX_op_call, _ => Ok (opt_call ts i)
  | _, [d; a] =>
      if foldable_1 op && is_const ts a then
        let* v := do_constant_folding op (val (ts a)) 0 in Ok (one (tcg_opt_gen_movi ts op d v))
      else Ok (do_default ts i m)
  | _, [d; a; b] =>
      if foldable_2 op && (is_const ts a && is_const ts b) then
        let* v := do_constant_folding op (val (ts a)) (val (ts b)) in Ok (one (tcg_opt_gen_movi ts op d v))
      else Ok (do_default ts i m)
  | _, _ => Ok (do_default ts i m)
  end.

(** Inputs are replaced by better copies. *)
Fixpoint better_copies ts (l : list Z) : res (list Z) :=
  match l with
  | [] => Ok []
  | t :: l =>
      let* t := if is_copy ts t then find_better_copy ts t else Ok t in
      let* l := better_copies ts l in Ok (t :: l)
  end.
Definition copy_inputs ts (no ni : nat) (l : list Z) : res (list Z) :=
  let* ins := better_copies ts (take ni (drop no l)) in Ok (take no l ++ ins ++ drop (no + ni) l).
Definition propagate_copies ts (i : instr) : res (list Z) :=
  match opc i with
  | INDEX_op_call =>
      let nparam := nth 0 (args i) 0 in
      copy_inputs ts (1 + Z.to_nat (Z.shiftr nparam 16)) (Z.to_nat (Z.land nparam 0xffff)) (args i)
  | op => copy_inputs ts (nb_oargs (tcg_op_defs op)) (nb_iargs (tcg_op_defs op)) (args i)
  end.

(** The body of the loop of [tcg_constant_folding]. *)
Definition optimize_op ts (i : instr) : res (tinfo * emitted) :=
  let op := opc i in
  let* l := propagate_copies ts i in
  let l := canonicalize ts op l in
  match simplify_unary ts op l with
  | Some r => Ok (one r)
  | None =>
      match simplify_mov ts op l with
      | Some r => let* r := r in Ok (one r)
      | None =>
          let* (m, affected) := known_zeros ts op l in
          let m := result_mask op m in
          let* r := simplify_mask ts op l m affected in
          match r with
          | Some r => Ok (one r)
          | None =>
              let* r := simplify_same ts op l in
              match r with
              | Some r => Ok (one r)
              | None => propagate ts (mkI op l) m
              end
          end
      end
  end.

Fixpoint optimize_ops ts (code : list instr) : res (list instr) :=
  match code with
  | [] => Ok []
  | i :: code =>
      let* (ts, out) := optimize_op ts i in
      match out with
      | One i => let* code := optimize_ops ts code in Ok (i :: code)
      | Two i1 i2 =>
          match code with
          | mkI INDEX_op_nop _ :: code => let* code := optimize_ops ts code in Ok (i1 :: i2 :: code)
          | _ => Err AssertFailed
          end
      end
  end.

(** [tcg_constant_folding] on what [temps] holds from the block before. *)
Definition tcg_optimize ts (code : list instr) : res (list instr) :=
  optimize_ops (reset_all_temps (nb_temps s) ts) code.
End Optimize.
