(* ===== verification/TcgFacts.v ===== *)
(** * Typed intermediate code

    Well-formed code, and that its meaning depends on the values of the
    temporaries at their types only. *)

From stdpp Require Import base list numbers sets.
From S2P Require Import Prelude MemRegion MemRegionFacts Tcg.
Import MemRegion.

(** ** Typing *)

(** The types of outputs and inputs; [None] stands for either type. *)
Definition sig (op : TCGOpcode) : list (option TCGType) * list (option TCGType) :=
  let I64 := Some TCG_TYPE_I64 in
  let I32 := Some TCG_TYPE_I32 in
  match op with
  | INDEX_op_discard => ([None], [])
  | INDEX_op_mov TCG_TYPE_I32 => ([I32], [None])
  | INDEX_op_mov TCG_TYPE_I64 => ([I64], [I64])
  | INDEX_op_movi ty => ([Some ty], [])
  | INDEX_op_movcond ty => ([Some ty], replicate 4 (Some ty))
  | INDEX_op_ld8u ty | INDEX_op_ld8s ty | INDEX_op_ld16u ty | INDEX_op_ld16s ty | INDEX_op_ld ty => ([Some ty], [I64])
  | INDEX_op_ld32u_i64 | INDEX_op_ld32s_i64 => ([I64], [I64])
  | INDEX_op_st8 ty | INDEX_op_st16 ty | INDEX_op_st ty => ([], [Some ty; I64])
  | INDEX_op_st32_i64 => ([], [I64; I64])
  | INDEX_op_setcond ty | INDEX_op_add ty | INDEX_op_sub ty | INDEX_op_mul ty
  | INDEX_op_div ty | INDEX_op_divu ty | INDEX_op_rem ty | INDEX_op_remu ty
  | INDEX_op_and ty | INDEX_op_or ty | INDEX_op_xor ty | INDEX_op_shl ty | INDEX_op_shr ty | INDEX_op_sar ty
  | INDEX_op_rotl ty | INDEX_op_rotr ty | INDEX_op_deposit ty | INDEX_op_muluh ty | INDEX_op_mulsh ty
  | INDEX_op_andc ty | INDEX_op_orc ty | INDEX_op_eqv ty | INDEX_op_nand ty | INDEX_op_nor ty => ([Some ty], [Some ty; Some ty])
  | INDEX_op_div2 ty | INDEX_op_divu2 ty => ([Some ty; Some ty], replicate 3 (Some ty))
  | INDEX_op_brcond ty => ([], [Some ty; Some ty])
  | INDEX_op_add2 ty | INDEX_op_sub2 ty => ([Some ty; Some ty], replicate 4 (Some ty))
  | INDEX_op_mulu2 ty | INDEX_op_muls2 ty => ([Some ty; Some ty], [Some ty; Some ty])
  | INDEX_op_brcond2_i32 => ([], replicate 4 I32)
  | INDEX_op_setcond2_i32 => ([I32], replicate 4 I32)
  | INDEX_op_ext8s ty | INDEX_op_ext16s ty | INDEX_op_ext8u ty | INDEX_op_ext16u ty
  | INDEX_op_bswap16 ty | INDEX_op_bswap32 ty | INDEX_op_not ty | INDEX_op_neg ty => ([Some ty], [Some ty])
  | INDEX_op_ext32s_i64 | INDEX_op_ext32u_i64 => ([I64], [None])
  | INDEX_op_bswap64_i64 => ([I64], [I64])
  | INDEX_op_qemu_ld ty => ([Some ty], [None])
  | INDEX_op_qemu_st ty => ([], [Some ty; None])
  | INDEX_op_qemu_ld8u | INDEX_op_qemu_ld8s | INDEX_op_qemu_ld16u | INDEX_op_qemu_ld16s
  | INDEX_op_qemu_ld32 | INDEX_op_qemu_ld32u | INDEX_op_qemu_ld32s | INDEX_op_qemu_ld64 => ([None], [None])
  | INDEX_op_qemu_st8 | INDEX_op_qemu_st16 | INDEX_op_qemu_st32 | INDEX_op_qemu_st64 => ([], [None; None])
  | _ => ([], [])
  end.

Definition conds : list Z :=
  [TCG_COND_EQ; TCG_COND_NE; TCG_COND_LT; TCG_COND_GE; TCG_COND_LE; TCG_COND_GT; TCG_COND_LTU; TCG_COND_GEU; TCG_COND_LEU; TCG_COND_GTU].

(** The constant arguments. *)
Definition consts_ok (op : TCGOpcode) (cs : list Z) : Prop :=
  match op, cs with
  | INDEX_op_movi _, [v] => 0 <= v < 2 ^ 64
  | INDEX_op_setcond _, [c] | INDEX_op_movcond _, [c] | INDEX_op_setcond2_i32, [c]
  | INDEX_op_brcond _, [c; _] | INDEX_op_brcond2_i32, [c; _] => c ∈ conds
  | INDEX_op_deposit ty, [pos; len] => 0 <= pos /\ 0 < len < 64 /\ pos + len <= bits ty
  | _, _ => True
  end.

Section Typing.
Context (s : TCGContext).

Definition valid (t : Z) : Prop := 0 <= t < nb_temps s.
Definition has_type (t : Z) (oty : option TCGType) : Prop :=
  valid t /\ match oty with Some ty => temp_type s t = ty | None => True end.

Definition wf_call (l : list Z) : Prop :=
  Forall valid (c_outs (decode_call l)) /\ Forall valid (c_ins (decode_call l)) /\
  exists no ni : nat, Z.of_nat ni < 65536 /\ nth 0 l 0 = Z.shiftl (Z.of_nat no) 16 + Z.of_nat ni /\ List.length l = (no + ni + 3)%nat.

Definition wf_instr (i : instr) : Prop :=
  match opc i with
  | INDEX_op_call => wf_call (args i)
  | op =>
      List.length (args i) = nb_args (tcg_op_defs op) /\
      Forall2 has_type (oargs i) (sig op).1 /\ Forall2 has_type (iargs i) (sig op).2 /\ consts_ok op (cargs i)
  end.

Definition wf_context : Prop := 0 <= nb_globals s <= nb_temps s.
End Typing.

(** ** Widths *)

Lemma bits_pos ty : 0 < bits ty <= 64.
Proof. destruct ty; cbn; lia. Qed.
#[export] Hint Resolve bits_pos : core.

Lemma uwrap_uwrap m n z : 0 <= m <= n -> uwrap m (uwrap n z) = uwrap m z.
Proof.
  intros H. apply Z.bits_inj'. intros i Hi. rewrite !uwrap_testbit by lia. destruct (Z.ltb_spec i m); [|done].
  destruct (Z.ltb_spec i n); [done|lia].
Qed.

Lemma uwrap_of_eq m n a b : 0 <= m <= n -> uwrap n a = uwrap n b -> uwrap m a = uwrap m b.
Proof. intros H E. by rewrite <- (uwrap_uwrap m n a), E, uwrap_uwrap. Qed.

Lemma swrap_of_eq w a b : 0 < w -> uwrap w a = uwrap w b -> swrap w a = swrap w b.
Proof.
  intros Hw E. apply swrap_eq_mod; [|lia]. unfold uwrap in E. pose proof (pow2_pos w ltac:(lia)).
  rewrite Zminus_mod, E, Z.sub_diag. apply Z.mod_0_l. lia.
Qed.

(** ** Values *)

Definition in_word (w v : Z) : Prop := 0 <= v < 2 ^ w.

Lemma in_word_uwrap w v : 0 <= w -> in_word w (uwrap w v).
Proof. apply uwrap_range. Qed.
Lemma in_word_mono w w' v : 0 <= w <= w' -> in_word w v -> in_word w' v.
Proof. unfold in_word. intros Hw Hv. pose proof (Z.pow_le_mono_r 2 w w'). lia. Qed.
Lemma in_word_ty ty v : in_word (bits ty) v -> in_word 64 v.
Proof. apply in_word_mono. destruct ty; cbn; lia. Qed.
Lemma in_word_shiftr w v n : 0 <= n -> in_word w v -> in_word w (Z.shiftr v n).
Proof.
  intros Hn [H0 H1]. rewrite Z.shiftr_div_pow2 by lia. pose proof (pow2_pos n Hn). split; [apply Z.div_pos; lia|].
  pose proof (Z.div_le_upper_bound v (2 ^ n) v ltac:(lia) ltac:(nia)). lia.
Qed.
Lemma in_word_land w a b : 0 <= w -> in_word w a -> in_word w (Z.land a b).
Proof. apply land_range. Qed.
Lemma in_word_lor w a b : 0 <= w -> in_word w a -> in_word w b -> in_word w (Z.lor a b).
Proof. apply lor_range. Qed.
Lemma in_word_lxor w a b : 0 <= w -> in_word w a -> in_word w b -> in_word w (Z.lxor a b).
Proof. apply lxor_range. Qed.
Lemma in_word_truth w t : 1 <= w -> in_word w (truth t).
Proof. intros Hw. pose proof (Z.pow_le_mono_r 2 1 w). destruct t; unfold in_word, truth; lia. Qed.
Lemma in_word_div w a b : in_word w a -> 0 <= b -> in_word w (a / b).
Proof.
  intros [H0 H1] Hb. destruct (Z.eq_dec b 0) as [->|]; [rewrite Z.div_0_r; unfold in_word; lia|].
  split; [apply Z.div_pos; lia|]. pose proof (Z.div_le_upper_bound a b a ltac:(lia) ltac:(nia)). lia.
Qed.
Lemma in_word_mod w a b : in_word w b -> 0 < b -> in_word w (a mod b).
Proof. intros [H0 H1] Hb. pose proof (Z.mod_pos_bound a b Hb). unfold in_word. lia. Qed.

Create HintDb words.
#[export] Hint Resolve in_word_uwrap in_word_shiftr in_word_land in_word_lor in_word_lxor in_word_truth in_word_div in_word_mod : words.
#[export] Hint Extern 1 (0 <= _) => lia : words.
#[export] Hint Extern 1 (1 <= _) => lia : words.

Lemma shift_count_Ok ty b n : shift_count ty b = Ok n -> n = b /\ 0 <= n < bits ty.
Proof.
  unfold shift_count, c_shift. destruct (_ && _) eqn:E; [|done]. cbn. intros [= <-]. apply andb_prop in E as [E1 E2].
  apply Z.leb_le in E1. apply Z.ltb_lt in E2. done.
Qed.

Definition out_word (v : Z) (oty : option TCGType) : Prop := in_word (match oty with Some ty => bits ty | None => 64 end) v.

(** The arguments of an operation by their number. *)
Ltac on_inv E :=
  repeat match type of E with
  | on1 ?l _ = _ => destruct l as [|? [|? ?]]; try discriminate E; cbn [on1] in E
  | on2 ?l _ = _ => destruct l as [|? [|? [|? ?]]]; try discriminate E; cbn [on2] in E
  | on3 ?l _ = _ => destruct l as [|? [|? [|? [|? ?]]]]; try discriminate E; cbn [on3] in E
  | on4 ?l _ = _ => destruct l as [|? [|? [|? [|? [|? ?]]]]]; try discriminate E; cbn [on4] in E
  end.

Lemma Ok_inj {A} (a b : A) : Ok a = Ok b -> a = b.
Proof. by intros [= ->]. Qed.

(** The steps of a computation on values that succeeds. *)
Ltac ok_inv E :=
  repeat match type of E with
  | Some _ = Some _ => apply Some_inj in E
  | res_bind _ _ = Ok _ => let x := fresh "x" in let H := fresh "Hx" in apply bind_Ok in E as (x & H & E);
      try match type of H with ?a = _ => is_var a; subst a end
  | (if ?b then _ else _) = Ok _ => let B := fresh "B" in destruct b eqn:B; try discriminate E
  | Ok _ = Ok _ => apply Ok_inj in E; try match type of E with ?a = ?b => first [is_var b; subst b | is_var a; subst a] end
  end.

Lemma c_div_Ok a b q : c_div a b = Ok q -> b <> 0 /\ q = a / b.
Proof. unfold c_div. destruct (Z.eqb_spec b 0); [done|]. by intros [= <-]. Qed.
Lemma c_mod_Ok a b q : c_mod a b = Ok q -> b <> 0 /\ q = a mod b.
Proof. unfold c_mod. destruct (Z.eqb_spec b 0); [done|]. by intros [= <-]. Qed.

Lemma in_word_deposit w a b pos len : 0 <= w -> in_word w a -> in_word w (deposit w a b pos len).
Proof.
  intros Hw Ha. unfold deposit. apply in_word_lor; [done|by apply in_word_land|]. rewrite Z.land_comm.
  apply in_word_land; [done|]. by apply in_word_uwrap.
Qed.
Lemma in_word_bswap n v : in_word (8 * Z.of_nat n) (bswap n v).
Proof. apply bswap_range. Qed.
#[export] Hint Resolve in_word_deposit : words.

(** The outputs of a value operation fit their types. *)
Lemma eval_range op ins cs vs : Forall (in_word (read_bits op)) ins -> eval op ins cs = Some (Ok vs) ->
  Forall2 out_word vs (sig op).1.
Proof.
  intros F E. unfold out_word.
  destruct op; try discriminate E; cbn [eval] in E; cbn [sig fst snd read_bits] in *;
    try match goal with ty : TCGType |- _ => pose proof (bits_pos ty) end;
    on_inv E; repeat match goal with F : Forall _ (_ :: _) |- _ => apply List.Forall_cons_iff in F as [? F] end; ok_inv E;
    repeat match goal with
    | H : shift_count _ _ = Ok _ |- _ => apply shift_count_Ok in H as [-> ?]
    | H : c_div _ _ = Ok _ |- _ => apply c_div_Ok in H as [? ->]
    | H : c_mod _ _ = Ok _ |- _ => apply c_mod_Ok in H as [? ->]
    end; unfold split_val; repeat first [apply List.Forall2_nil | apply List.Forall2_cons]; auto with words.
  - destruct ty; repeat first [apply List.Forall2_nil | apply List.Forall2_cons]; assumption.
  - by destruct x.
  - apply in_word_div; [done|]. by destruct H1.
  - apply in_word_mod; [done|]. destruct H1. lia.
  - unfold pair_val in *. destruct H0, H1, H2. cbn [negb orb] in B. apply orb_false_iff in B as [B1 B2]. apply negb_false_iff, Z.ltb_lt in B2.
    apply Z.eqb_neq in B1. split; [|lia]. apply Z.div_pos; [|lia]. pose proof (pow2_pos (bits ty)). nia.
  - apply orb_false_iff in B as [B1 B2]. apply Z.eqb_neq in B1. apply in_word_mod; [done|]. destruct H2. lia.
  - apply in_word_truth. cbn. lia.
  - apply (in_word_mono 8); [destruct ty; cbn; lia|done].
  - apply (in_word_mono 16); [destruct ty; cbn; lia|done].
  - apply (in_word_mono 32); [cbn; lia|done].
  - apply (in_word_mono 16); [destruct ty; cbn; lia|]. apply (in_word_bswap 2).
  - apply (in_word_mono 32); [destruct ty; cbn; lia|]. apply (in_word_bswap 4).
  - apply (in_word_bswap 8).
Qed.

(** ** Meaning by values *)

Definition wr (e : env) (ps : list (Z * Z)) : env := fold_left (fun e p => upd e p.1 p.2) ps e.

Lemma upds_wr ts : forall e vs, upds e ts vs = wr e (zip ts vs).
Proof. induction ts as [|t ts IH]; intros e [|v vs]; cbn [upds zip zip_with]; done || apply IH. Qed.

Lemma wr_app e ps qs : wr (wr e ps) qs = wr e (ps ++ qs).
Proof. unfold wr. by rewrite fold_left_app. Qed.

Lemma decode_call_eta l : decode_call l = mkCall (c_outs (decode_call l)) (c_ins (decode_call l)) (c_flags (decode_call l)) (c_tail (decode_call l)).
Proof. done. Qed.

Definition ins_of (i : instr) : list Z := match opc i with INDEX_op_call => c_ins (decode_call (args i)) | _ => iargs i end.
Definition same_shape (i j : instr) : Prop :=
  opc i = opc j /\ match opc i with
  | INDEX_op_call => c_outs (decode_call (args i)) = c_outs (decode_call (args j)) /\ c_flags (decode_call (args i)) = c_flags (decode_call (args j))
  | _ => oargs i = oargs j /\ cargs i = cargs j
  end.

Definition outs_of (i : instr) : list Z := match opc i with INDEX_op_call => c_outs (decode_call (args i)) | _ => oargs i end.

(** Calls that may write globals, and operations that see globals. *)
Definition clobbers (i : instr) : bool :=
  match opc i with
  | INDEX_op_call => Z.land (c_flags (decode_call (args i))) (Z.lor TCG_CALL_NO_READ_GLOBALS TCG_CALL_NO_WRITE_GLOBALS) =? 0
  | _ => false
  end.
Lemma writes_clobbers i : opc i = INDEX_op_call -> writes_globals (c_flags (decode_call (args i))) = true -> clobbers i = true.
Proof.
  intros Eo. unfold writes_globals, clobbers. rewrite Eo, !Z.eqb_eq. intros E. rewrite Z.land_lor_distr_r, Z.lor_eq_0_iff in E. tauto.
Qed.
Definition sees_globals (i : instr) : bool :=
  match opc i with
  | INDEX_op_call => Z.land (c_flags (decode_call (args i))) TCG_CALL_NO_READ_GLOBALS =? 0
  | op => has_flag (tcg_op_defs op) TCG_OPF_SIDE_EFFECTS
  end.

Section Meaning.
Context {W : Type} `{TcgWorld W} (s : TCGContext).

Definition sim (e e' : env) : Prop := forall t, valid s t -> get s e t = get s e' t.

(** Writes of words to temporaries. *)
Definition good_write (p : Z * Z) : Prop := valid s p.1 /\ in_word 64 p.2.

Lemma sim_refl e : sim e e.
Proof. by intros t _. Qed.
Lemma sim_trans e1 e2 e3 : sim e1 e2 -> sim e2 e3 -> sim e1 e3.
Proof. intros H1 H2 t Ht. by rewrite H1, H2. Qed.
Lemma sim_upd e e' t v v' : sim e e' -> uw (temp_type s t) v = uw (temp_type s t) v' -> sim (upd e t v) (upd e' t v').
Proof.
  intros Hs Hv x Hx. unfold get, upd. destruct (Z.eqb_spec x t) as [->|]; [exact Hv|]. by apply Hs.
Qed.
Lemma sim_wr ps : forall e e', sim e e' -> sim (wr e ps) (wr e' ps).
Proof. induction ps as [|p ps IH]; intros e e' Hs; [done|]. apply IH. by apply sim_upd. Qed.

(** How many bits of an input are read, at most. *)
Definition in_bits (oty : option TCGType) : Z := match oty with Some ty => bits ty | None => 32 end.
Definition value_op (op : TCGOpcode) : bool := forallb (fun oty => read_bits op <=? in_bits oty) (sig op).2.

Lemma rd_get op e t oty : has_type s t oty -> oty ∈ (sig op).2 -> value_op op = true -> 0 <= read_bits op ->
  rd op e t = uwrap (read_bits op) (get s e t).
Proof.
  intros [_ Ht] Hin Hv H0. unfold rd, get. unfold value_op in Hv. rewrite forallb_forall in Hv.
  specialize (Hv oty ltac:(by apply list_elem_of_In)). apply Z.leb_le in Hv. rewrite uwrap_uwrap; [done|].
  destruct oty as [ty|]; cbn [in_bits] in Hv; [subst; lia|]. destruct (temp_type s t); cbn; lia.
Qed.

Lemma rd_gets op e e' (l : list Z) : forall l' : list Z, (forall t, t ∈ l -> rd op e t = uwrap (read_bits op) (get s e t)) ->
  (forall t, t ∈ l' -> rd op e' t = uwrap (read_bits op) (get s e' t)) ->
  get s e <$> l = get s e' <$> l' -> rd op e <$> l = rd op e' <$> l'.
Proof.
  induction l as [|t l IH]; intros [|t' l'] H1 H2 E; try discriminate E; [done|]. cbn in E |- *. injection E as E0 E.
  f_equal; [rewrite H1, H2, E0 by (left || done); done|]. apply IH; [intros; apply H1; by right|intros; apply H2; by right|done].
Qed.

Lemma read_bits_nonneg op : 0 <= read_bits op.
Proof. destruct op; cbn; try lia; destruct ty; cbn; lia. Qed.

Lemma typed_rd op e l tys : Forall2 (has_type s) l tys -> (forall oty, oty ∈ tys -> oty ∈ (sig op).2) -> value_op op = true ->
  forall t, t ∈ l -> rd op e t = uwrap (read_bits op) (get s e t).
Proof.
  intros F Hs Hv. induction F as [|t oty l tys Ht F IH]; intros x Hx; [by apply not_elem_of_nil in Hx|].
  apply elem_of_cons in Hx as [->|Hx]; [eapply rd_get; [exact Ht|apply Hs; left|done|apply read_bits_nonneg]|].
  apply IH; [|done]. intros. apply Hs. by right.
Qed.

(** What a step writes: outputs and, in a call, globals; every output, if the
    next operation follows. *)
Definition covers (fl : flow) (outs : list Z) (ps : list (Z * Z)) : Prop := ps.*1 ⊆ outs /\ (fl = Next -> outs ⊆ ps.*1).
Definition effect (i : instr) (fl : flow) (ps : list (Z * Z)) : Prop :=
  (forall t, t ∈ ps.*1 -> t ∈ outs_of i \/ clobbers i = true /\ t ∈ globals s) /\ (fl = Next -> outs_of i ⊆ ps.*1).

(** A step with the same shape from the same values. *)
Definition same_step (w : W) (e e' : env) (i j : instr) : Prop := forall w1 e1 fl, exec s w e i = Ok (w1, e1, fl) ->
  exists ps, Forall good_write ps /\ effect i fl ps /\ e1 = wr e ps /\ exec s w e' j = Ok (w1, wr e' ps, fl).

Lemma covers_nil (fl : flow) (outs : list Z) : outs = [] \/ fl <> Next -> covers fl outs [].
Proof. intros [->|N]; split; set_solver. Qed.
Lemma covers_zip fl outs (vs : list Z) : length outs = length vs -> covers fl outs (zip outs vs).
Proof. intros L. unfold covers. rewrite fst_zip by lia. set_solver. Qed.
Lemma covers_effect i fl ps : opc i <> INDEX_op_call -> covers fl (oargs i) ps -> effect i fl ps.
Proof. intros N [H1 H2]. unfold effect, outs_of. destruct (opc i); try done; split; try done; intros t Ht; left; by apply H1. Qed.

Lemma good_zip ts vs : Forall (valid s) ts -> Forall (in_word 64) vs -> Forall good_write (zip ts vs).
Proof.
  intros F. revert vs. induction F as [|t ts Ht F IH]; intros vs Fv; [constructor|]. destruct Fv as [|v vs Hv Fv]; [constructor|].
  cbn [zip zip_with]. constructor; [by split|]. by apply IH.
Qed.

Lemma u64_words l : Forall (in_word 64) (u64 <$> l).
Proof. apply Forall_fmap, Forall_true. intros x. by apply in_word_uwrap. Qed.
Lemma returned_words n l : Forall (in_word 64) (resize n 0 (u64 <$> l)).
Proof. apply Forall_resize; [unfold in_word; lia|apply u64_words]. Qed.

Lemma globals_valid : wf_context s -> Forall (valid s) (globals s).
Proof.
  intros [H0 H1]. unfold globals. apply List.Forall_forall. intros t Ht%list_elem_of_In%elem_of_seqZ. unfold valid. lia.
Qed.

Lemma call_same w e e' i j : wf_context s -> opc i = INDEX_op_call -> wf_instr s i -> same_shape i j ->
  get s e <$> ins_of i = get s e' <$> ins_of j -> (sees_globals i = true -> get s e <$> globals s = get s e' <$> globals s) -> same_step w e e' i j.
Proof.
  intros C Eo Wi [Eo2 Sh] Ei Eg w1 e1 fl E. unfold wf_instr in Wi. unfold ins_of in Ei. unfold sees_globals in Eg. unfold exec, effect, outs_of, clobbers in *.
  rewrite <- Eo2 in Ei |- *. rewrite Eo in *. destruct Sh as [So Sf]. destruct Wi as (Fo & _ & _). apply Ok_inj in E. unfold exec_call in *. rewrite <- Ei, <- So, <- Sf.
  assert ((if Z.land (c_flags (decode_call (args i))) TCG_CALL_NO_READ_GLOBALS =? 0 then get s e' <$> globals s else []) =
    (if Z.land (c_flags (decode_call (args i))) TCG_CALL_NO_READ_GLOBALS =? 0 then get s e <$> globals s else [])) as ->
    by (destruct (_ =? 0); [by rewrite Eg|done]). clear Eg.
  destruct (w_helper _ _ _ _) as [w2 [[outs gs]|]]; apply pair_eq in E as [[<- <-]%pair_eq <-]; cycle 1.
  { exists []. split; [constructor|]. split; [split; [intros t Ht; by apply not_elem_of_nil in Ht|discriminate]|]. split; reflexivity. }
  set (rs := resize (length (c_outs (decode_call (args i)))) 0 (u64 <$> outs)).
  exists ((if writes_globals (c_flags (decode_call (args i))) then zip (globals s) (u64 <$> gs) else []) ++ zip (c_outs (decode_call (args i))) rs).
  destruct (covers_zip Next (c_outs (decode_call (args i))) rs) as [C1 C2]; [unfold rs; by rewrite length_resize|]. split; [|split].
  - apply Forall_app. split; [|apply good_zip; [done|apply returned_words]].
    destruct (writes_globals _); [|constructor]. apply good_zip; [by apply globals_valid|apply u64_words].
  - rewrite fmap_app. split; [|intros _ t Ht; apply elem_of_app; right; by apply C2]. intros t [Ht|Ht]%elem_of_app; [|left; by apply C1].
    destruct (writes_globals _) eqn:Wg; [|by apply not_elem_of_nil in Ht]. right. split; [apply writes_clobbers in Wg; [by unfold clobbers in Wg; rewrite Eo in Wg|done]|]. apply list_elem_of_fmap in Ht as ([x v] & -> & Hx). by apply elem_of_zip_l in Hx.
  - rewrite <- !wr_app, !upds_wr. by destruct (writes_globals _); rewrite ?upds_wr.
Qed.

Lemma has_types_valid l tys : Forall2 (has_type s) l tys -> Forall (valid s) l.
Proof. induction 1 as [|t oty l tys [Ht _] F IH]; constructor; done. Qed.

Lemma memop_bits_range mop : 0 <= memop_bits mop <= 64.
Proof.
  unfold memop_bits, MO_SIZE. change 3 with (Z.ones 2). rewrite Z.land_ones by lia.
  pose proof (Z.mod_pos_bound mop (2 ^ 2) ltac:(lia)). assert (2 ^ (mop mod 2 ^ 2) <= 2 ^ 3) by (apply Z.pow_le_mono_r; lia).
  pose proof (Z.pow_nonneg 2 (mop mod 2 ^ 2)). lia.
Qed.

Lemma out_words vs tys : Forall2 out_word vs tys -> Forall (in_word 64) vs.
Proof. induction 1 as [|v [ty|] vs tys Hw F IH]; constructor; try done. by eapply in_word_ty. Qed.

(** Operations that [exec] handles itself. *)
Definition control (op : TCGOpcode) : bool :=
  match op with
  | INDEX_op_nop | INDEX_op_nop1 | INDEX_op_nop2 | INDEX_op_nop3 | INDEX_op_nopn | INDEX_op_set_label | INDEX_op_debug_insn_start
  | INDEX_op_discard | INDEX_op_call | INDEX_op_br | INDEX_op_brcond _ | INDEX_op_brcond2_i32 | INDEX_op_exit_tb | INDEX_op_goto_tb => true
  | _ => false
  end.

Lemma exec_is_data w e i : control (opc i) = false -> exec s w e i = exec_data s w e (opc i) (oargs i) (iargs i) (cargs i).
Proof. unfold exec. destruct (opc i); done. Qed.

Lemma wf_data i : opc i <> INDEX_op_call -> wf_instr s i ->
  Forall2 (has_type s) (oargs i) (sig (opc i)).1 /\ Forall2 (has_type s) (iargs i) (sig (opc i)).2 /\
  consts_ok (opc i) (cargs i) /\ List.length (args i) = nb_args (tcg_op_defs (opc i)).
Proof. intros N Wi. unfold wf_instr in Wi. destruct (opc i); first [done | destruct Wi as (?&?&?&?); split_and!; assumption]. Qed.

Lemma branch_same (w : W) e e' cmp cs w1 e1 fl : exec_branch w e cmp cs = Ok (w1, e1, fl) ->
  exists ps, Forall good_write ps /\ covers fl [] ps /\ e1 = wr e ps /\ exec_branch w e' cmp cs = Ok (w1, wr e' ps, fl).
Proof.
  unfold exec_branch. destruct cs as [|c [|l [|? ?]]]; try done. intros E. apply bind_Ok in E as (t & -> & E). apply Ok_inj in E.
  injection E as <- <- <-. exists []. split; [done|]. split; [by apply covers_nil; left|done].
Qed.

Lemma data_same op w e e' outs ins ins' cs : Forall2 (has_type s) outs (sig op).1 ->
  Forall2 (has_type s) ins (sig op).2 -> Forall2 (has_type s) ins' (sig op).2 ->
  get s e <$> ins = get s e' <$> ins' -> (has_flag (tcg_op_defs op) TCG_OPF_SIDE_EFFECTS = true -> get s e <$> globals s = get s e' <$> globals s) ->
  forall w1 e1 fl, exec_data s w e op outs ins cs = Ok (w1, e1, fl) ->
  exists ps, Forall good_write ps /\ covers fl outs ps /\ e1 = wr e ps /\ exec_data s w e' op outs ins' cs = Ok (w1, wr e' ps, fl).
Proof.
  intros Fo Fi Fj Ei Eg w1 e1 fl E. pose proof (has_types_valid _ _ Fo) as Vo. pose proof (Forall2_length _ _ _ Fo) as Lo. unfold exec_data in *.
  destruct (host_load op) as [[[ty n] sign]|] eqn:Hl.
  { assert ((sig op).2 = [Some TCG_TYPE_I64]) as Hs by (destruct op; try discriminate Hl; by injection Hl). rewrite Hs in *.
    inversion Fi as [|a ? ? ? [_ Ta] Fi0]; subst. inversion Fi0; subst. inversion Fj as [|a' ? ? ? [_ Ta'] Fj0]; subst. inversion Fj0; subst.
    injection Ei as Ei. unfold get in Ei. rewrite Ta, Ta' in Ei. cbn [bits] in Ei. unfold exec_host_load in *. destruct cs as [|off [|? ?]]; try discriminate E.
    apply Ok_inj in E. injection E as <- <- <-. exists (zip outs [uw ty (if sign then swrap n (w_host_ld w (u64 (e a + off)) n) else uwrap n (w_host_ld w (u64 (e a + off)) n))]).
    split; [apply good_zip; [done|]; constructor; [|constructor]; by eapply in_word_ty, in_word_uwrap; destruct (bits_pos ty); lia|].
    split; [apply covers_zip; rewrite Lo; clear - Hl; destruct op; try discriminate Hl; reflexivity|]. rewrite !upds_wr. assert (u64 (e' a' + off) = u64 (e a + off)) as ->; [|done].
    unfold uwrap in *. by rewrite <- Z.add_mod_idemp_l, <- Ei, Z.add_mod_idemp_l. }
  destruct (host_store op) as [n|] eqn:Hs.
  { assert (exists ty, (sig op).2 = [Some ty; Some TCG_TYPE_I64] /\ 0 <= n <= bits ty) as (ty & Hg & Hn).
    { destruct op; try discriminate Hs; injection Hs as <-; eexists; (split; [reflexivity|]); try destruct ty; cbn; lia. }
    assert (outs = []) as -> by (destruct op; try discriminate Hs; by destruct outs).
    rewrite Hg in *. clear Hg Hl Hs.
    inversion Fi as [|v ? ? ? [_ Tv] Fi0]; subst. inversion Fi0 as [|a ? ? ? [_ Ta] Fi1]; subst. inversion Fi1; subst.
    inversion Fj as [|v' ? ? ? [_ Tv'] Fj0]; subst. inversion Fj0 as [|a' ? ? ? [_ Ta'] Fj1]; subst. inversion Fj1; subst.
    injection Ei as Ev Ea. unfold get in Ev, Ea. rewrite Ta, Ta' in Ea. rewrite Tv' in Ev. cbn [bits] in Ea.
    unfold exec_host_store in *. destruct cs as [|off [|? ?]]; try discriminate E.
    apply Ok_inj in E. injection E as <- <- <-. exists []. split; [constructor|]. split; [by apply covers_nil; left|]. split; [done|].
    rewrite (uwrap_of_eq n (bits (temp_type s v)) (e' v') (e v)) by done.
    assert (u64 (e' a' + off) = u64 (e a + off)) as ->; [|done].
    unfold uwrap in *. by rewrite <- Z.add_mod_idemp_l, <- Ea, Z.add_mod_idemp_l. }
  destruct (guest_load op cs) as [[mop idx]|] eqn:Gl.
  { unfold exec_guest_load in *. destruct ins as [|a [|? ?]]; try discriminate E. destruct ins' as [|a' [|? ?]]; try discriminate Ei.
    assert (has_flag (tcg_op_defs op) TCG_OPF_SIDE_EFFECTS = true /\ length (sig op).1 = 1%nat) as [Hse Ho] by (clear - Gl; destruct op; try discriminate Gl; try destruct ty; done).
    injection Ei as Ei. rewrite <- Eg, <- Ei by done. destruct (w_guest_ld _ _ _ _ _) as [w2 [v|]]; apply Ok_inj in E; injection E as <- <- <-.
    - eexists (zip outs [_]). rewrite !upds_wr. split; [|split; [apply covers_zip; by rewrite Lo|done]]. apply good_zip; [done|]. constructor; [|constructor].
      destruct (memop_signed mop); [by apply in_word_uwrap|]. apply (in_word_mono (memop_bits mop)); [|apply in_word_uwrap]; pose proof (memop_bits_range mop); lia.
    - exists []. split; [done|]. split; [by apply covers_nil; right|done]. }
  destruct (guest_store op cs) as [[mop idx]|] eqn:Gs.
  { unfold exec_guest_store in *. destruct ins as [|v [|a [|? ?]]]; try discriminate E. destruct ins' as [|v' [|a' [|? ?]]]; try discriminate Ei.
    assert (has_flag (tcg_op_defs op) TCG_OPF_SIDE_EFFECTS = true /\ outs = []) as [Hse ->]
      by (clear - Gs Lo; destruct op; try discriminate Gs; try destruct ty; destruct outs; done).
    injection Ei as Ev Ea. rewrite <- Eg, <- Ea, <- Ev by done. destruct (w_guest_st _ _ _ _ _ _) as [w2 ok]. apply Ok_inj in E; injection E as <- <- <-.
    exists []. split; [done|]. split; [by apply covers_nil; left|done]. }
  unfold exec_eval in *. destruct (eval op (rd op e <$> ins) cs) as [r|] eqn:Ev; [|discriminate E].
  assert (value_op op = true) as Hv by (clear - Ev; destruct op; try discriminate Ev; try destruct ty; reflexivity).
  rewrite <- (rd_gets op e e' ins ins'), Ev; [|by eapply typed_rd|by eapply typed_rd|done].
  apply bind_Ok in E as (vs & -> & E). apply Ok_inj in E. injection E as <- <- <-. exists (zip outs vs). rewrite !upds_wr. cbn [res_bind]; rewrite ?upds_wr.
  assert (Forall2 out_word vs (sig op).1) as Fv
    by (eapply eval_range; [|exact Ev]; apply Forall_fmap, Forall_true; intros x; apply in_word_uwrap, read_bits_nonneg).
  split; [apply good_zip; [done|by eapply out_words]|]. split; [apply covers_zip; rewrite Lo; symmetry; by eapply Forall2_length|split; reflexivity].
Qed.

(** Two operations that differ in their inputs only, which have the same
    values, do the same; globals matter to the operations that see them. *)
Lemma exec_step w e e' i j : wf_context s -> wf_instr s i -> wf_instr s j -> same_shape i j ->
  get s e <$> ins_of i = get s e' <$> ins_of j -> (sees_globals i = true -> get s e <$> globals s = get s e' <$> globals s) -> same_step w e e' i j.
Proof.
  intros C Wi Wj Sh Ei Eg. destruct (decide (opc i = INDEX_op_call)) as [Ec|Nc]; [by apply call_same|].
  destruct (wf_data _ Nc Wi) as (Fo & Fi & _). destruct Sh as [Eo Sh].
  assert (opc j <> INDEX_op_call) as Nj by congruence. destruct (wf_data _ Nj Wj) as (_ & Fj & _). rewrite <- Eo in Fj.
  assert (oargs i = oargs j /\ cargs i = cargs j) as [So Sc] by (destruct (opc i); done).
  assert (get s e <$> iargs i = get s e' <$> iargs j) as Ea by (unfold ins_of in Ei; rewrite <- Eo in Ei; destruct (opc i); done).
  assert (has_flag (tcg_op_defs (opc i)) TCG_OPF_SIDE_EFFECTS = true -> get s e <$> globals s = get s e' <$> globals s) as Ew
    by (unfold sees_globals in Eg; destruct (opc i); done).
  intros w1 e1 fl E. cut (exists ps, Forall good_write ps /\ covers fl (oargs i) ps /\ e1 = wr e ps /\ exec s w e' j = Ok (w1, wr e' ps, fl)).
  { intros (ps & F & Cv & R). exists ps. split; [done|]. split; [by apply covers_effect|done]. }
  destruct (control (opc i)) eqn:Hc; cycle 1.
  { rewrite exec_is_data in E |- * by congruence. rewrite <- Eo, <- So, <- Sc. exact (data_same _ _ _ _ _ _ _ _ Fo Fi Fj Ea Ew _ _ _ E). }
  assert (forall op, op = opc i -> value_op op = true -> rd op e <$> iargs i = rd op e' <$> iargs j) as Hr.
  { intros op -> Hv. apply rd_gets; [by eapply typed_rd|by eapply typed_rd|done]. }
  assert (opc i <> INDEX_op_discard -> oargs i = []) as No by (intros Nd; destruct (opc i); try discriminate Hc; try done; by inversion Fo).
  unfold exec in *. rewrite <- Eo, <- So, <- Sc.
  destruct (opc i) eqn:Op; try discriminate Hc; try done; clear Ei Eg Ew Wi Wj Hc; try rewrite No in * by done;
    try (apply Ok_inj in E; injection E as <- <- <-; exists []; split; [done|]; split; [by apply covers_nil; left|done]).
  - apply Ok_inj in E. injection E as <- <- <-. rewrite !upds_wr. eexists. split; [|split; [|done]]; [apply good_zip; [by eapply has_types_valid|]|].
    + constructor; [|constructor]. unfold in_word; lia.
    + apply covers_zip. by rewrite (Forall2_length _ _ _ Fo).
  - destruct (cargs i) as [|? [|? ?]]; try discriminate E. apply Ok_inj in E. injection E as <- <- <-. exists []. split; [done|]. split; [by apply covers_nil; left|done].
  - specialize (Hr _ eq_refl ltac:(by destruct ty)).
    destruct (iargs i) as [|a [|b [|? ?]]]; try discriminate E. destruct (iargs j) as [|a' [|b' [|? ?]]]; try discriminate Hr.
    injection Hr as Ha Hb. rewrite <- Ha, <- Hb. by apply branch_same.
  - specialize (Hr _ eq_refl ltac:(done)).
    destruct (iargs i) as [|a [|b [|c [|d [|? ?]]]]]; try discriminate E. destruct (iargs j) as [|a' [|b' [|c' [|d' [|? ?]]]]]; try discriminate Hr.
    injection Hr as Ha Hb Hcc Hd. rewrite <- Ha, <- Hb, <- Hcc, <- Hd. by apply branch_same.
  - destruct (cargs i) as [|? [|? ?]]; try discriminate E. apply Ok_inj in E. injection E as <- <- <-. exists []. split; [done|]. split; [by apply covers_nil; left|done].
  - destruct (cargs i) as [|? [|? ?]]; try discriminate E. apply Ok_inj in E. injection E as <- <- <-. exists []. split; [done|]. split; [by apply covers_nil; left|done].
Qed.

Lemma exec_same w e e' i j : wf_context s -> wf_instr s i -> wf_instr s j -> same_shape i j ->
  get s e <$> ins_of i = get s e' <$> ins_of j -> get s e <$> globals s = get s e' <$> globals s ->
  forall w1 e1 fl, exec s w e i = Ok (w1, e1, fl) -> exists ps, Forall good_write ps /\ e1 = wr e ps /\ exec s w e' j = Ok (w1, wr e' ps, fl).
Proof. intros C Wi Wj Sh Ei Eg w1 e1 fl E. destruct (exec_step w e e' i j C Wi Wj Sh Ei (fun _ => Eg) w1 e1 fl E) as (ps & F & _ & R). by exists ps. Qed.
End Meaning.

(** ** Runs *)

Lemma label_test l i : bool_decide (opc i = INDEX_op_set_label) && bool_decide (args i = [l]) = true -> i = mkI INDEX_op_set_label [l].
Proof. intros E. apply andb_prop in E as [E1%bool_decide_eq_true E2%bool_decide_eq_true]. destruct i. cbn in *. by subst. Qed.
Lemma label_test_no l i : opc i <> INDEX_op_set_label -> bool_decide (opc i = INDEX_op_set_label) && bool_decide (args i = [l]) = false.
Proof. intros N. by rewrite bool_decide_false. Qed.

Lemma lookup_rest (c : list instr) pc i rest : drop pc c = i :: rest -> c !! pc = Some i /\ drop (S pc) c = rest.
Proof.
  intros E. split; [rewrite <- (Nat.add_0_r pc), <- lookup_drop, E; done|]. replace (S pc) with (pc + 1)%nat by lia. by rewrite <- drop_drop, E.
Qed.

(** A single operation never runs out of fuel. *)
Lemma compare_no_fuel w a b c : tci_compare w a b c <> Err OutOfFuel.
Proof. unfold tci_compare. by repeat (destruct (_ =? _); [done|]). Qed.
Lemma eval_no_fuel op ins cs : eval op ins cs <> Some (Err OutOfFuel).
Proof.
  intros E. destruct op; try discriminate E; cbn [eval] in E; on_inv E; apply Some_inj in E; try discriminate E; unfold signed_div, shift_count, c_shift, c_div, c_mod in E.
  all: try match type of E with context [tci_compare ?w ?a ?b ?c] => pose proof (compare_no_fuel w a b c); destruct (tci_compare w a b c); cbn [res_bind] in E; congruence end.
  all: repeat match type of E with context [if ?b then _ else _] => destruct b; cbn [res_bind] in E; try discriminate E end.
Qed.

Lemma exec_no_fuel {W} `{TcgWorld W} s (w : W) e i : exec s w e i <> Err OutOfFuel.
Proof.
  intros E. destruct (control (opc i)) eqn:Hc.
  - unfold exec, exec_branch in E. destruct (opc i); try discriminate Hc; try discriminate E; repeat (case_match; try discriminate E);
      match type of E with context [tci_compare ?w ?a ?b ?c] => pose proof (compare_no_fuel w a b c); destruct (tci_compare w a b c); cbn [res_bind] in E; congruence end.
  - rewrite exec_is_data in E by done. unfold exec_data, exec_host_load, exec_host_store, exec_guest_load, exec_guest_store, exec_eval in E.
    destruct (eval (opc i) (rd (opc i) e <$> iargs i) (cargs i)) as [r|] eqn:Ev; [|repeat (case_match; try discriminate E)].
    destruct r as [|f]; [repeat (case_match; try discriminate E)|]. assert (f <> OutOfFuel) by (intros ->; by apply eval_no_fuel in Ev).
    repeat (case_match; try discriminate E). cbn [res_bind] in E. congruence.
Qed.
