(* ===== verification/TcgCopies.v ===== *)
(** * What the optimizer knows

    The invariant of [temps]: constants, circular lists of copies and masks of
    the bits that may be set agree with the registers.  Every update of the
    optimizer keeps it, and the walks along a list of copies end. *)

From stdpp Require Import base list numbers.
From S2P Require Import Prelude Tcg TcgOptimize TcgFacts.

(** ** Bits *)

(** Every bit of [v] is one of [m]. *)
Definition covers (m v : Z) : Prop := forall n, 0 <= n -> Z.testbit v n = true -> Z.testbit m n = true.

Lemma all_ones_is : all_ones = Z.ones 64.
Proof. reflexivity. Qed.

Lemma covers_refl m : covers m m.
Proof. by intros n _. Qed.
Lemma covers_trans a b c : covers a b -> covers b c -> covers a c.
Proof. intros H1 H2 n Hn Hc. auto. Qed.
Lemma covers_all v : in_word 64 v -> covers all_ones v.
Proof.
  intros Hv n Hn Hb. rewrite all_ones_is, ones_testbit by lia. destruct (Z.ltb_spec n 64); [done|].
  rewrite (testbit_high v 64) in Hb by (unfold in_word in Hv; lia). done.
Qed.
Lemma covers_uwrap w m v : 0 <= w -> covers m v -> covers m (uwrap w v).
Proof. intros Hw Hc n Hn Hb. rewrite uwrap_testbit in Hb by lia. destruct (n <? w); [auto|done]. Qed.
Lemma covers_zero v : 0 <= v -> covers 0 v -> v = 0.
Proof.
  intros Hv Hc. apply Z.bits_inj'. intros n Hn. rewrite Z.bits_0. destruct (Z.testbit v n) eqn:E; [|done].
  apply Hc in E; [|done]. by rewrite Z.bits_0 in E.
Qed.

(** ** The array *)

Lemma put_eq ts t x : put ts t x t = x.
Proof. unfold put. by rewrite Z.eqb_refl. Qed.
Lemma put_ne ts t x i : i <> t -> put ts t x i = ts i.
Proof. intros H. unfold put. by apply Z.eqb_neq in H as ->. Qed.

Section Copies.
Context (s : TCGContext).
Implicit Types (ts : tinfo) (e : env).

(** A member of a list of two copies or more. *)
Record node ts (t : Z) : Prop := mkNode {
  next_valid : valid s (next_copy (ts t));
  prev_valid : valid s (prev_copy (ts t));
  next_state : state (ts (next_copy (ts t))) = TCG_TEMP_COPY;
  prev_state : state (ts (prev_copy (ts t))) = TCG_TEMP_COPY;
  next_back : prev_copy (ts (next_copy (ts t))) = t;
  prev_back : next_copy (ts (prev_copy (ts t))) = t;
  next_other : next_copy (ts t) <> t;
  next_type : temp_type s (next_copy (ts t)) = temp_type s t
}.

Definition info_ok ts (t : Z) : Prop :=
  in_word 64 (mask (ts t)) /\
  match state (ts t) with
  | TCG_TEMP_UNDEF => True
  | TCG_TEMP_CONST => in_word 64 (val (ts t)) /\ mask (ts t) = val (ts t)
  | TCG_TEMP_COPY => node ts t
  end.
Definition linked ts : Prop := forall t, valid s t -> info_ok ts t.

(** The registers agree with what is known. *)
Definition agrees ts e (t : Z) : Prop :=
  in_word 64 (e t) /\ covers (mask (ts t)) (e t) /\
  match state (ts t) with
  | TCG_TEMP_UNDEF => True
  | TCG_TEMP_CONST => get s e t = uw (temp_type s t) (val (ts t))
  | TCG_TEMP_COPY => get s e (next_copy (ts t)) = get s e t
  end.
Definition inv ts e : Prop := linked ts /\ forall t, valid s t -> agrees ts e t.
Definition env_ok e : Prop := forall t, valid s t -> in_word 64 (e t).

(** Nothing is known. *)
Definition free ts (t : Z) : Prop := state (ts t) = TCG_TEMP_UNDEF /\ mask (ts t) = all_ones.

Lemma inv_env_ok ts e : inv ts e -> env_ok e.
Proof. intros [_ A] t Ht. by destruct (A t Ht). Qed.

Lemma linked_node ts t : linked ts -> valid s t -> state (ts t) = TCG_TEMP_COPY -> node ts t.
Proof. intros L Ht E. destruct (L t Ht) as [_ H]. by rewrite E in H. Qed.
Lemma prev_other ts t : node ts t -> prev_copy (ts t) <> t.
Proof. intros N E. apply (next_other _ _ N). rewrite <- (prev_back _ _ N) at 2. by rewrite E. Qed.
Lemma prev_type ts t : linked ts -> node ts t -> temp_type s (prev_copy (ts t)) = temp_type s t.
Proof.
  intros L N. pose proof (linked_node _ _ L (prev_valid _ _ N) (prev_state _ _ N)) as P.
  rewrite <- (next_type _ _ P). by rewrite (prev_back _ _ N).
Qed.

Lemma reset_all_inv ts e : env_ok e -> inv (reset_all_temps (nb_temps s) ts) e.
Proof.
  intros O. assert (forall t, valid s t -> reset_all_temps (nb_temps s) ts t = set_mask (set_state (ts t) TCG_TEMP_UNDEF) all_ones) as R.
  { intros t [H0 H1]. unfold reset_all_temps. apply Z.leb_le in H0 as ->. by apply Z.ltb_lt in H1 as ->. }
  split; intros t Ht.
  - unfold info_ok. rewrite R by done. cbn. split; [|done]. unfold in_word, all_ones. lia.
  - unfold agrees. rewrite R by done. cbn. split; [by apply O|]. split; [by apply covers_all, O|done].
Qed.

(** ** Removing a copy *)

(** [reset_temp] on a temporary in a list, as one update of the array. *)
Definition unlink ts (t : Z) : tinfo := fun x =>
  let n := next_copy (ts t) in
  let p := prev_copy (ts t) in
  if x =? t then set_mask (set_state (ts t) TCG_TEMP_UNDEF) all_ones
  else if p =? n then if x =? n then set_state (ts x) TCG_TEMP_UNDEF else ts x
  else if x =? n then set_prev (ts x) p
  else if x =? p then set_next (ts x) n
  else ts x.

Lemma reset_temp_copy ts t x : node ts t -> state (ts t) = TCG_TEMP_COPY -> reset_temp ts t x = unlink ts t x.
Proof.
  intros N E. pose proof (next_other _ _ N). pose proof (prev_other _ _ N). unfold reset_temp, unlink, is_copy.
  rewrite bool_decide_true by done. destruct (Z.eqb_spec (prev_copy (ts t)) (next_copy (ts t))) as [Ep|Np].
  - rewrite (put_ne _ _ _ t) by congruence. unfold put. destruct (Z.eqb_spec x t); [done|]. by destruct (Z.eqb_spec x (next_copy (ts t))) as [->|].
  - rewrite (put_ne _ (next_copy (ts t)) _ t), (put_ne _ (next_copy (ts t)) _ (prev_copy (ts t))) by congruence.
    rewrite (put_ne _ (prev_copy (ts t)) _ t), (put_ne _ (next_copy (ts t)) _ t) by congruence.
    unfold put. destruct (Z.eqb_spec x t); [done|].
    destruct (Z.eqb_spec x (next_copy (ts t))) as [->|]; destruct (Z.eqb_spec x (prev_copy (ts t))) as [->|] || idtac; try done.
    all: destruct (Z.eqb_spec (next_copy (ts t)) (prev_copy (ts t))); done || congruence.
Qed.

Lemma reset_temp_other ts t x : state (ts t) <> TCG_TEMP_COPY ->
  reset_temp ts t x = if x =? t then set_mask (set_state (ts t) TCG_TEMP_UNDEF) all_ones else ts x.
Proof. intros E. unfold reset_temp, is_copy. by rewrite bool_decide_false. Qed.

(** What a reset keeps of the other temporaries. *)
Lemma reset_temp_keeps ts t x : linked ts -> valid s t -> x <> t ->
  mask (reset_temp ts t x) = mask (ts x) /\ val (reset_temp ts t x) = val (ts x) /\
  (state (reset_temp ts t x) = state (ts x) \/ (state (ts x) = TCG_TEMP_COPY /\ state (reset_temp ts t x) = TCG_TEMP_UNDEF)).
Proof.
  intros L Ht Hx. destruct (decide (state (ts t) = TCG_TEMP_COPY)) as [E|E].
  - pose proof (linked_node _ _ L Ht E) as N. rewrite reset_temp_copy by done. unfold unlink. apply Z.eqb_neq in Hx as ->.
    destruct (_ =? _); destruct (Z.eqb_spec x (next_copy (ts t))) as [->|]; cbn; auto.
    + split_and!; [done|done|]. right. by rewrite (next_state _ _ N).
    + destruct (_ =? _); cbn; auto.
  - rewrite reset_temp_other by done. apply Z.eqb_neq in Hx as ->. auto.
Qed.
Lemma reset_temp_free ts t : linked ts -> valid s t -> free (reset_temp ts t) t.
Proof.
  intros L Ht. unfold free. destruct (decide (state (ts t) = TCG_TEMP_COPY)) as [E|E].
  - rewrite reset_temp_copy by (done || by apply linked_node). unfold unlink. by rewrite Z.eqb_refl.
  - rewrite reset_temp_other by done. by rewrite Z.eqb_refl.
Qed.

Lemma next_inj ts x y : node ts x -> node ts y -> next_copy (ts x) = next_copy (ts y) -> x = y.
Proof. intros Nx Ny E. by rewrite <- (next_back _ _ Nx), E, (next_back _ _ Ny). Qed.

Lemma unlink_node ts t x : linked ts -> node ts t -> state (ts t) = TCG_TEMP_COPY -> x <> t -> node ts x ->
  state (unlink ts t x) = TCG_TEMP_COPY -> node (unlink ts t) x.
Proof.
  intros L [] Et Hx [] Es. unfold unlink in Es. apply Z.eqb_neq in Hx as Hb. rewrite Hb in Es. clear Hb.
  assert (next_copy (ts x) = next_copy (ts t) -> False) by congruence. assert (prev_copy (ts x) = prev_copy (ts t) -> False) by congruence.
  assert (prev_copy (ts t) <> t) by congruence. assert (next_copy (ts x) = t -> x = prev_copy (ts t)) by congruence.
  assert (prev_copy (ts x) = t -> x = next_copy (ts t)) by congruence. assert (prev_copy (ts x) <> x) by congruence.
  pose proof (linked_node _ _ L prev_valid0 prev_state0) as [? ? ? ? ? ? ? Tp]. rewrite prev_back0 in Tp.
  destruct (Z.eqb_spec (prev_copy (ts t)) (next_copy (ts t))) as [Ep|Np].
  - destruct (Z.eqb_spec x (next_copy (ts t))) as [|Hn]; [done|].
    assert (forall y, y <> t -> y <> next_copy (ts t) -> unlink ts t y = ts y) as R.
    { intros y Hy Hy2. unfold unlink. rewrite Ep, Z.eqb_refl. apply Z.eqb_neq in Hy as ->. by apply Z.eqb_neq in Hy2 as ->. }
    constructor; rewrite ?(R x) by done; rewrite ?R by congruence; done.
  - assert (forall y, y <> t -> state (unlink ts t y) = state (ts y) /\ next_copy (unlink ts t y) = (if y =? prev_copy (ts t) then next_copy (ts t) else next_copy (ts y))
      /\ prev_copy (unlink ts t y) = (if y =? next_copy (ts t) then prev_copy (ts t) else prev_copy (ts y))) as R.
    { intros y Hy. unfold unlink. apply Z.eqb_neq in Hy as ->. apply Z.eqb_neq in Np as Npb. rewrite Npb.
      destruct (Z.eqb_spec y (next_copy (ts t))), (Z.eqb_spec y (prev_copy (ts t))); cbn; done || congruence. }
    destruct (R x Hx) as (_ & Rn & Rp). constructor; rewrite ?Rn, ?Rp;
      destruct (Z.eqb_spec x (next_copy (ts t))) as [Exn|], (Z.eqb_spec x (prev_copy (ts t))) as [Exp|]; try congruence; try done;
      match goal with
      | |- context [unlink ts t ?y] => destruct (R y) as (R1 & R2 & R3); [congruence|]; rewrite ?R1, ?R2, ?R3;
          destruct (Z.eqb_spec y (next_copy (ts t))), (Z.eqb_spec y (prev_copy (ts t))); congruence
      | _ => idtac
      end.
Qed.

Lemma reset_temp_linked ts t : linked ts -> valid s t -> linked (reset_temp ts t).
Proof.
  intros L Ht x Hx. destruct (L x Hx) as [M K]. destruct (decide (x = t)) as [->|Nx].
  { destruct (reset_temp_free _ _ L Ht) as [Fs Fm]. split; rewrite ?Fs, ?Fm; [unfold in_word, all_ones; lia|done]. }
  destruct (reset_temp_keeps ts t x L Ht Nx) as (Km & Kv & Ks). split; [by rewrite Km|].
  destruct Ks as [Ks|[_ Ks]]; [|by rewrite Ks]. rewrite Ks, Km, Kv. destruct (state (ts x)) eqn:Es; try done.
  destruct (decide (state (ts t) = TCG_TEMP_COPY)) as [E|E].
  - pose proof (linked_node _ _ L Ht E) as N. assert (forall y, reset_temp ts t y = unlink ts t y) as R by (intros; by apply reset_temp_copy).
    rewrite R in Ks. destruct (unlink_node ts t x L N E Nx K ltac:(congruence)). by constructor; rewrite !R.
  - assert (forall y, y <> t -> reset_temp ts t y = ts y) as R.
    { intros y Hy. rewrite reset_temp_other by done. by apply Z.eqb_neq in Hy as ->. }
    destruct K. constructor; rewrite ?(R x) by done; rewrite ?R by congruence; done.
Qed.

Lemma reset_temp_next ts t x : linked ts -> valid s t -> valid s x -> x <> t -> state (reset_temp ts t x) = TCG_TEMP_COPY ->
  state (ts x) = TCG_TEMP_COPY /\
  (next_copy (reset_temp ts t x) = next_copy (ts x) \/ (next_copy (ts x) = t /\ next_copy (reset_temp ts t x) = next_copy (ts t) /\ state (ts t) = TCG_TEMP_COPY)).
Proof.
  intros L Ht Hv Hx Es. destruct (reset_temp_keeps ts t x L Ht Hx) as (_ & _ & [Ks|[_ Ks]]); [|congruence]. split; [congruence|].
  destruct (decide (state (ts t) = TCG_TEMP_COPY)) as [E|E].
  - pose proof (linked_node _ _ L Ht E) as N. rewrite reset_temp_copy in * by done. unfold unlink in *. apply Z.eqb_neq in Hx as Hb. rewrite Hb in *.
    destruct (_ =? _); destruct (Z.eqb_spec x (next_copy (ts t))); cbn; auto. destruct (Z.eqb_spec x (prev_copy (ts t))) as [->|]; cbn; auto.
    right. split; [|done]. exact (prev_back _ _ N).
  - rewrite reset_temp_other by done. apply Z.eqb_neq in Hx as ->. auto.
Qed.

Lemma reset_temp_inv ts e t : inv ts e -> valid s t -> inv (reset_temp ts t) e.
Proof.
  intros [L A] Ht. split; [by apply reset_temp_linked|]. intros x Hx. destruct (A x Hx) as (H1 & H2 & H3). split; [done|].
  destruct (decide (x = t)) as [->|Nx].
  { destruct (reset_temp_free _ _ L Ht) as [Fs Fm]. rewrite Fs, Fm. split; [by apply covers_all|done]. }
  destruct (reset_temp_keeps ts t x L Ht Nx) as (Km & Kv & Ks). split; [by rewrite Km|].
  destruct Ks as [Ks|[_ Ks]]; [|by rewrite Ks]. rewrite Kv. destruct (state (reset_temp ts t x)) eqn:Es; rewrite <- Ks in H3; try done.
  destruct (reset_temp_next ts t x L Ht Hx Nx Es) as [_ [->|(E1 & -> & Ec)]]; [done|]. rewrite E1 in H3.
  destruct (A t Ht) as (_ & _ & H4). rewrite Ec in H4. by rewrite H4.
Qed.

(** ** Writes *)

Lemma get_upd_eq e t v : get s (upd e t v) t = uw (temp_type s t) v.
Proof. unfold get, upd. by rewrite Z.eqb_refl. Qed.
Lemma get_upd_ne e t v x : x <> t -> get s (upd e t v) x = get s e x.
Proof. intros H. unfold get, upd. by apply Z.eqb_neq in H as ->. Qed.
Lemma upd_eq e t v : upd e t v t = v.
Proof. unfold upd. by rewrite Z.eqb_refl. Qed.
Lemma upd_ne e t v x : x <> t -> upd e t v x = e x.
Proof. intros H. unfold upd. by apply Z.eqb_neq in H as ->. Qed.

(** A temporary of which no value is known may be written. *)
Lemma write_inv ts e t v : inv ts e -> valid s t -> state (ts t) = TCG_TEMP_UNDEF -> in_word 64 v -> covers (mask (ts t)) v -> inv ts (upd e t v).
Proof.
  intros [L A] Ht Es Hv Hc. split; [done|]. intros x Hx. destruct (A x Hx) as (H1 & H2 & H3). destruct (decide (x = t)) as [->|Nx].
  { unfold agrees. rewrite upd_eq, Es. done. }
  unfold agrees. rewrite upd_ne by done. split; [done|]. split; [done|]. destruct (state (ts x)) eqn:Ex; [done|by rewrite get_upd_ne|].
  pose proof (linked_node _ _ L Hx Ex) as N. rewrite !get_upd_ne; [done|done|].
  intros E. pose proof (next_state _ _ N). congruence.
Qed.

(** New knowledge of a temporary that is in no list. *)
Lemma put_inv ts e t x : inv ts e -> valid s t -> state (ts t) <> TCG_TEMP_COPY -> in_word 64 (mask x) -> covers (mask x) (e t) ->
  match state x with
  | TCG_TEMP_UNDEF => True
  | TCG_TEMP_CONST => in_word 64 (val x) /\ mask x = val x /\ get s e t = uw (temp_type s t) (val x)
  | TCG_TEMP_COPY => False
  end -> inv (put ts t x) e.
Proof.
  intros [L A] Ht Es Hm Hc Hx. split; intros y Hy; [destruct (L y Hy) as [M K]|destruct (A y Hy) as (H1 & H2 & H3)];
    (destruct (decide (y = t)) as [->|Ny]; [unfold info_ok, agrees; rewrite put_eq; destruct (state x); naive_solver|]).
  - unfold info_ok. rewrite put_ne by done. split; [done|]. destruct (state (ts y)) eqn:Ey; try done. destruct K.
    constructor; rewrite !(put_ne ts t x y) by done; rewrite ?put_ne; done || congruence.
  - unfold agrees. by rewrite put_ne.
Qed.

Lemma in_word_all_ones : in_word 64 all_ones.
Proof. unfold in_word, all_ones. lia. Qed.

(** An output with the bits of [m]. *)
Lemma reset_write_inv ts e t v : inv ts e -> valid s t -> in_word 64 v -> inv (reset_temp ts t) (upd e t v).
Proof.
  intros I Ht Hv. destruct (reset_temp_free ts t (proj1 I) Ht) as [Fs Fm]. apply write_inv; try done; [by apply reset_temp_inv|].
  rewrite Fm. by apply covers_all.
Qed.
Lemma masked_inv ts e t v m : inv ts e -> valid s t -> in_word 64 v -> in_word 64 m -> covers m v ->
  inv (put (reset_temp ts t) t (set_mask (reset_temp ts t t) m)) (upd e t v).
Proof.
  intros I Ht Hv Hm Hc. destruct (reset_temp_free ts t (proj1 I) Ht) as [Fs Fm].
  apply put_inv; [by apply reset_write_inv|done|congruence|done|by rewrite upd_eq|]. cbn. by rewrite Fs.
Qed.

Lemma gen_movi_inv ts e op t v : inv ts e -> valid s t -> in_word 64 v -> temp_type s t = op_type op ->
  inv (tcg_opt_gen_movi ts op t v).1 (upd e t (uw (op_type op) v)).
Proof.
  intros I Ht Hv Ty. destruct (reset_temp_free ts t (proj1 I) Ht) as [Fs Fm].
  assert (in_word 64 (uw (op_type op) v)) as Hw by (eapply in_word_ty, in_word_uwrap; destruct (bits_pos (op_type op)); lia).
  apply put_inv; [by apply reset_write_inv|done|congruence|done| |].
  - rewrite upd_eq. apply covers_uwrap; [destruct (bits_pos (op_type op)); lia|apply covers_refl].
  - cbn. split_and!; [done|done|]. rewrite get_upd_eq, Ty. apply uwrap_idem. destruct (bits_pos (op_type op)); lia.
Qed.

(** ** Adding a copy *)

Definition link ts (d src : Z) : tinfo :=
  let ts := if negb (is_copy ts src) then put ts src (set_prev (set_next (set_state (ts src) TCG_TEMP_COPY) src) src) else ts in
  let ts := put ts d (set_prev (set_next (set_state (ts d) TCG_TEMP_COPY) (next_copy (ts src))) src) in
  let n := next_copy (ts d) in
  let ts := put ts n (set_prev (ts n) d) in
  put ts src (set_next (ts src) d).

(** The member of the list that follows the new one. *)
Definition successor ts (src : Z) : Z := if is_copy ts src then next_copy (ts src) else src.

Lemma link_fields ts d src x : d <> src -> state (ts d) <> TCG_TEMP_COPY -> (is_copy ts src = true -> next_copy (ts src) <> src /\ next_copy (ts src) <> d) ->
  state (link ts d src x) = (if (x =? d) || (x =? src) then TCG_TEMP_COPY else state (ts x)) /\
  next_copy (link ts d src x) = (if x =? d then successor ts src else if x =? src then d else next_copy (ts x)) /\
  prev_copy (link ts d src x) = (if x =? d then src else if x =? successor ts src then d else prev_copy (ts x)) /\
  mask (link ts d src x) = mask (ts x) /\ val (link ts d src x) = val (ts x).
Proof.
  intros Hd Hs Hn. unfold link, successor. destruct (is_copy ts src) eqn:Ec; cbn [negb].
  - destruct (Hn eq_refl) as [N1 N2]. rewrite !put_eq. cbn [next_copy set_prev set_next].
    rewrite (put_ne _ d _ (next_copy (ts src))) by done. rewrite (put_ne _ (next_copy (ts src)) _ src), (put_ne _ d _ src) by congruence.
    unfold is_copy in Ec. apply bool_decide_eq_true in Ec. unfold put.
    repeat match goal with |- context [?a =? ?b] => destruct (Z.eqb_spec a b); cbn [orb state next_copy prev_copy mask val set_state set_next set_prev] end;
      subst; try (split_and!; congruence); congruence.
  - rewrite !put_eq. cbn [next_copy set_prev set_next]. rewrite (put_ne _ d _ src) by congruence. rewrite !put_eq. unfold put.
    repeat match goal with |- context [?a =? ?b] => destruct (Z.eqb_spec a b); cbn [orb state next_copy prev_copy mask val set_state set_next set_prev] end;
      subst; try (split_and!; congruence); congruence.
Qed.

Section Link.
Context (ts : tinfo) (d src : Z) (L : linked ts) (Vd : valid s d) (Vs : valid s src) (Hd : d <> src)
  (Ud : state (ts d) = TCG_TEMP_UNDEF) (Us : state (ts src) <> TCG_TEMP_CONST) (Ty : temp_type s src = temp_type s d).

Lemma successor_facts : valid s (successor ts src) /\ successor ts src <> d /\
  (is_copy ts src = true -> node ts src /\ next_copy (ts src) <> src /\ next_copy (ts src) <> d).
Proof.
  unfold successor, is_copy. destruct (bool_decide _) eqn:E; [|by split_and!]. apply bool_decide_eq_true in E.
  pose proof (linked_node _ _ L Vs E) as N. pose proof N as [? ? ? ? ? ? ? ?].
  split; [done|]. split; [congruence|]. intros _. split; [done|]. split; congruence.
Qed.

Lemma link_node x : valid s x -> state (link ts d src x) = TCG_TEMP_COPY -> node (link ts d src) x.
Proof.
  intros Hx Es. destruct successor_facts as (Sv & Sd & Sc).
  assert (state (ts d) <> TCG_TEMP_COPY) as Nd by congruence.
  pose proof (fun y => link_fields ts d src y Hd Nd (fun E => proj2 (Sc E))) as F.
  destruct (F x) as (Fs & Fn & Fp & _ & _). rewrite Fs in Es. unfold successor, is_copy in *.
  destruct (Z.eqb_spec x d) as [->|Nx]; [|destruct (Z.eqb_spec x src) as [->|Nx2]; [|pose proof (linked_node _ _ L Hx Es) as [? ? ? ? ? ? ? ?]]].
  all: destruct (bool_decide_reflect (state (ts src) = TCG_TEMP_COPY)) as [Ec|Ec];
    [destruct (Sc eq_refl) as [[? ? ? ? ? ? ? ?] [? ?]]|].
  all: constructor; rewrite ?Fn, ?Fp; 
    repeat match goal with
    | |- context [?a =? ?b] => destruct (Z.eqb_spec a b); cbn [orb]
    | |- context [link ts d src ?y] => destruct (F y) as (F1 & F2 & F3 & _ & _); rewrite ?F1, ?F2, ?F3; clear F1 F2 F3
    end; try congruence; intros; subst; congruence.
Qed.

Lemma link_inv e : inv ts e -> get s e d = get s e src -> inv (link ts d src) e.
Proof.
  intros [_ A] Eg. destruct successor_facts as (Sv & Sd & Sc). assert (state (ts d) <> TCG_TEMP_COPY) as Nd by congruence.
  pose proof (fun y => link_fields ts d src y Hd Nd (fun E => proj2 (Sc E))) as F.
  split; intros x Hx; destruct (F x) as (Fs & Fn & _ & Fm & Fv); [destruct (L x Hx) as [M K]|destruct (A x Hx) as (H1 & H2 & H3)].
  - split; [by rewrite Fm|]. rewrite Fm, Fv. pose proof (link_node x Hx) as N. destruct (state (link ts d src x)) eqn:Es; [done| |by apply N].
    symmetry in Fs. destruct (_ || _) in Fs; [done|]. by rewrite Fs in K.
  - split; [done|]. rewrite Fm. split; [done|]. rewrite Fs, Fn, Fv.
    destruct (Z.eqb_spec x d) as [->|Nx]; cbn [orb].
    + rewrite Eg. unfold successor. destruct (is_copy ts src) eqn:Ec; [|done]. destruct (A src Vs) as (_ & _ & H4).
      unfold is_copy in Ec. apply bool_decide_eq_true in Ec. by rewrite Ec in H4.
    + by destruct (Z.eqb_spec x src) as [->|].
Qed.
End Link.

Lemma gen_mov_link ts op d src : tcg_opt_gen_mov s ts op d src =
  let ts := reset_temp ts d in
  let ts := put ts d (set_mask (ts d) (mask (ts src))) in
  let* _ := c_assert (negb (is_const ts src)) in
  Ok (if bool_decide (temp_type s src = temp_type s d) then link ts d src else ts, mkI (op_to_mov op) [d; src]).
Proof. unfold tcg_opt_gen_mov, link. by destruct (bool_decide (temp_type s src = temp_type s d)). Qed.

Lemma gen_mov_inv ts e op d src : inv ts e -> valid s d -> valid s src -> d <> src -> is_const ts src = false -> temp_type s d = op_type op ->
  exists ts', tcg_opt_gen_mov s ts op d src = Ok (ts', mkI (op_to_mov op) [d; src]) /\ inv ts' (upd e d (uw (op_type op) (e src))).
Proof.
  intros I Vd Vs Hd Hc Ty. unfold is_const in Hc. apply bool_decide_eq_false in Hc.
  destruct (reset_temp_free ts d (proj1 I) Vd) as [Fs Fm]. destruct (reset_temp_keeps ts d src (proj1 I) Vd ltac:(congruence)) as (Km & Kv & Ks).
  destruct (proj2 I src Vs) as (Ws & Cs & _). rewrite gen_mov_link. cbn zeta.
  assert (in_word 64 (uw (op_type op) (e src))) as Hw by (eapply in_word_ty, in_word_uwrap; destruct (bits_pos (op_type op)); lia).
  set (ts2 := put (reset_temp ts d) d (set_mask (reset_temp ts d d) (mask (reset_temp ts d src)))).
  assert (inv ts2 (upd e d (uw (op_type op) (e src)))) as I2.
  { apply masked_inv; try done; rewrite Km; [apply (proj1 I src Vs)|]. apply covers_uwrap; [destruct (bits_pos (op_type op)); lia|done]. }
  assert (state (ts2 src) <> TCG_TEMP_CONST) as Us by (unfold ts2; rewrite put_ne by congruence; destruct Ks as [->|[_ ->]]; congruence).
  unfold is_const. rewrite bool_decide_false by done. cbn [negb c_assert res_bind]. eexists. split; [reflexivity|].
  destruct (bool_decide_reflect (temp_type s src = temp_type s d)) as [Et|Et]; [|done].
  apply link_inv; try done; [apply I2|unfold ts2; by rewrite put_eq|].
  rewrite get_upd_eq, get_upd_ne by congruence. unfold get. rewrite Et, Ty. apply uwrap_idem. destruct (bits_pos (op_type op)); lia.
Qed.
(** ** Walking a list of copies *)

Definition walk ts (k : nat) (t : Z) : Z := Nat.iter k (fun i => next_copy (ts i)) t.

Lemma walk_copies ts t k : linked ts -> valid s t -> state (ts t) = TCG_TEMP_COPY ->
  valid s (walk ts k t) /\ state (ts (walk ts k t)) = TCG_TEMP_COPY /\ temp_type s (walk ts k t) = temp_type s t.
Proof.
  intros L Ht Es. induction k as [|k (IV & IS & IT)]; [done|]. change (walk ts (S k) t) with (next_copy (ts (walk ts k t))).
  pose proof (linked_node _ _ L IV IS) as []. split_and!; congruence || apply next_valid0.
Qed.

Lemma walk_value ts e t k : inv ts e -> valid s t -> state (ts t) = TCG_TEMP_COPY -> get s e (walk ts k t) = get s e t.
Proof.
  intros [L A] Ht Es. induction k as [|k IH]; [done|]. change (walk ts (S k) t) with (next_copy (ts (walk ts k t))).
  destruct (walk_copies ts t k L Ht Es) as (IV & IS & _). destruct (A _ IV) as (_ & _ & G). rewrite IS in G. by rewrite G.
Qed.

Lemma walk_cancel ts t : linked ts -> valid s t -> state (ts t) = TCG_TEMP_COPY ->
  forall i j, walk ts i t = walk ts (i + j) t -> t = walk ts j t.
Proof.
  intros L Ht Es. induction i as [|i IH]; intros j E; [done|]. apply IH.
  destruct (walk_copies ts t i L Ht Es) as (V1 & S1 & _). destruct (walk_copies ts t (i + j) L Ht Es) as (V2 & S2 & _).
  apply (next_inj ts); [by apply linked_node|by apply linked_node|exact E].
Qed.

(** A walk is back after at most one turn per temporary. *)
Lemma walk_returns ts t : linked ts -> valid s t -> state (ts t) = TCG_TEMP_COPY ->
  exists k, (k < Z.to_nat (nb_temps s))%nat /\ walk ts (S k) t = t.
Proof.
  intros L Ht Es. set (nb := Z.to_nat (nb_temps s)).
  destruct (decide (Exists (fun k => walk ts k t = t) (seq 1 nb))) as [E|N].
  { apply List.Exists_exists in E as (k & Hk & E). apply in_seq in Hk. destruct k as [|k]; [lia|]. exists k. split; [lia|done]. }
  exfalso. assert (List.NoDup (List.map (fun k => walk ts k t) (seq 0 (S nb)))) as ND.
  { apply List.NoDup_map_NoDup_ForallPairs; [|apply List.seq_NoDup]. intros i j Hi Hj E. apply in_seq in Hi, Hj.
    assert (forall a b : nat, (a < b <= nb)%nat -> walk ts a t <> walk ts b t) as H.
    { intros a b Hab E'. apply N, List.Exists_exists. exists (b - a)%nat. split; [apply in_seq; lia|]. symmetry.
      apply (walk_cancel ts t L Ht Es a). by replace (a + (b - a))%nat with b by lia. }
    destruct (lt_eq_lt_dec i j) as [[Hl|]|Hl]; [|done|]; exfalso; [by apply (H i j); [lia|]|by apply (H j i); [lia|]]. }
  apply (List.NoDup_incl_length (l' := seqZ 0 (nb_temps s))) in ND.
  - rewrite List.length_map, List.length_seq, length_seqZ in ND. lia.
  - intros x Hx. apply List.in_map_iff in Hx as (k & <- & _). destruct (walk_copies ts t k L Ht Es) as (V & _).
    apply list_elem_of_In, elem_of_seqZ. unfold valid in V. lia.
Qed.

Lemma walk_S ts k i : walk ts (S k) i = walk ts k (next_copy (ts i)).
Proof. induction k as [|k IH]; [done|]. change (walk ts (S (S k)) i) with (next_copy (ts (walk ts (S k) i))). by rewrite IH. Qed.

Lemma find_copy_spec ts p t fuel : forall k i, (k <= fuel)%nat -> walk ts k i = t ->
  exists r, find_copy fuel ts p t i = Ok r /\ forall y, r = Some y -> p y = true /\ exists j, y = walk ts j i.
Proof.
  induction fuel as [|fuel IH]; intros k i Hk E; cbn [find_copy]; (destruct (Z.eqb_spec i t) as [|Hi]; [by eexists|]).
  { destruct k; [done|lia]. }
  destruct k as [|k]; [done|]. rewrite walk_S in E. destruct (p i) eqn:Hp.
  - eexists. split; [done|]. intros y [= <-]. split; [done|]. by exists O.
  - destruct (IH k (next_copy (ts i)) ltac:(lia) E) as (r & -> & H). eexists. split; [done|]. intros y Hy.
    destruct (H y Hy) as (Py & j & ->). split; [done|]. exists (S j). by rewrite walk_S.
Qed.

Lemma search_spec ts p t : linked ts -> valid s t -> state (ts t) = TCG_TEMP_COPY ->
  exists r, search s ts p t = Ok r /\ forall y, r = Some y -> p y = true /\ exists j, y = walk ts j t.
Proof.
  intros L Ht Es. destruct (walk_returns ts t L Ht Es) as (k & Hk & E). rewrite walk_S in E.
  destruct (find_copy_spec ts p t (Z.to_nat (nb_temps s)) k _ ltac:(lia) E) as (r & Hr & H). exists r. split; [done|].
  intros y Hy. destruct (H y Hy) as (Py & j & ->). split; [done|]. exists (S j). by rewrite walk_S.
Qed.

(** What the walks find has the type and the value of the temporary. *)
Definition alike ts (t y : Z) : Prop := valid s y /\ temp_type s y = temp_type s t /\ forall e, inv ts e -> get s e y = get s e t.

Lemma alike_refl ts t : valid s t -> alike ts t t.
Proof. done. Qed.
Lemma walk_alike ts t j : linked ts -> valid s t -> state (ts t) = TCG_TEMP_COPY -> alike ts t (walk ts j t).
Proof.
  intros L Ht Es. destruct (walk_copies ts t j L Ht Es) as (V & _ & T). split; [done|]. split; [done|].
  intros e I. by apply walk_value.
Qed.

Lemma better_copy_alike ts t : linked ts -> valid s t -> state (ts t) = TCG_TEMP_COPY ->
  exists y, find_better_copy s ts t = Ok y /\ alike ts t y /\ is_const ts y = false /\ (y = t \/ y < nb_globals s \/ temp_local s y = true).
Proof.
  intros L Ht Es. assert (forall j, alike ts t (walk ts j t) /\ is_const ts (walk ts j t) = false) as W.
  { intros j. split; [by apply walk_alike|]. destruct (walk_copies ts t j L Ht Es) as (_ & C & _). unfold is_const. by rewrite C. }
  pose proof (W 0%nat) as W0. change (walk ts 0 t) with t in W0. unfold find_better_copy.
  assert (alike ts t t /\ is_const ts t = false /\ (t = t \/ t < nb_globals s \/ temp_local s t = true)) as Same by (destruct W0; auto).
  destruct (_ <? _); [by eexists|].
  destruct (search_spec ts (fun i => i <? nb_globals s) t L Ht Es) as (r & -> & Hr). cbn [res_bind].
  destruct r as [y|]; [destruct (Hr y eq_refl) as (Py%Z.ltb_lt & j & ->); eexists; (split; [reflexivity|]); destruct (W j); auto|]. destruct (negb _); [|by eexists].
  destruct (search_spec ts (temp_local s) t L Ht Es) as (r & -> & Hr2). cbn [res_bind].
  destruct r as [y|]; [destruct (Hr2 y eq_refl) as (Py & j & ->); eexists; (split; [reflexivity|]); destruct (W j); auto|by eexists].
Qed.

Lemma temps_are_copies_spec ts a b : linked ts -> valid s a -> valid s b ->
  exists r, temps_are_copies s ts a b = Ok r /\ (r = true -> alike ts a b /\ (a <> b -> is_const ts a = false)).
Proof.
  intros L Va Vb. unfold temps_are_copies. destruct (Z.eqb_spec a b) as [->|Hne]; [eexists; split; [done|]; intros _; split; [by apply alike_refl|done]|].
  unfold is_copy. destruct (bool_decide_reflect (state (ts a) = TCG_TEMP_COPY)) as [Ea|]; [|by eexists].
  destruct (bool_decide_reflect (state (ts b) = TCG_TEMP_COPY)) as [Eb|]; [|by eexists]. cbn [negb orb].
  destruct (search_spec ts (fun i => i =? b) a L Va Ea) as (r & -> & Hr). cbn [res_bind]. eexists. split; [done|].
  destruct r as [y|]; [|done]. intros _. destruct (Hr y eq_refl) as (Py & j & ->). apply Z.eqb_eq in Py. subst b.
  split; [by apply walk_alike|]. intros _. unfold is_const. by rewrite Ea.
Qed.
End Copies.
