(* ===== verification/TcgKnown.v ===== *)
(** * Values that the optimizer computes

    Constant folding and comparisons agree with the meaning of the operations;
    the masks that the optimizer computes cover the results, and an operation
    that affects no bit is a move. *)

From stdpp Require Import base list numbers.
From S2P Require Import Prelude HostUtils Bitops MemRegion Tcg TcgOptimize TcgFacts TcgCopies.
Import MemRegion.

(** ** Words *)

Lemma bits_nonneg ty : 0 <= bits ty.
Proof. destruct (bits_pos ty). lia. Qed.
#[export] Hint Resolve bits_nonneg : words core.

Lemma bits_le_64 ty : bits ty <= 64.
Proof. destruct (bits_pos ty). lia. Qed.
#[export] Hint Resolve bits_le_64 : core.

Lemma swrap_uwrap_split w z : 0 < w -> swrap w z = (if Z.testbit z (w - 1) then -1 else 0) * 2 ^ w + uwrap w z.
Proof.
  intros Hw. assert (Hs : 2 ^ w = 2 * 2 ^ (w - 1)) by (rewrite <- Z.pow_succ_r by lia; f_equal; lia).
  rewrite Z.testbit_odd, Z.shiftr_div_pow2 by lia. unfold swrap, uwrap. set (h := 2 ^ (w - 1)) in *. assert (0 < h) by (apply pow2_pos; lia). rewrite Hs.
  pose proof (Z.div_mod z h ltac:(lia)). pose proof (Z.mod_pos_bound z h ltac:(lia)). set (q := z / h) in *. set (r := z mod h) in *.
  destruct (Z.odd q) eqn:Hq.
  - apply Z.odd_spec in Hq as [m Hm]. replace z with (r + h + m * (2 * h)) by lia.
    replace (r + h + m * (2 * h) + h) with (r + (m + 1) * (2 * h)) by lia. rewrite !Z.mod_add, !Z.mod_small by lia. lia.
  - rewrite <- Z.negb_even in Hq. apply negb_false_iff, Z.even_spec in Hq as [m Hm]. replace z with (r + m * (2 * h)) by lia.
    replace (r + m * (2 * h) + h) with (r + h + m * (2 * h)) by lia. rewrite !Z.mod_add, !Z.mod_small by lia. lia.
Qed.

Lemma swrap_testbit w z n : 0 < w -> 0 <= n -> Z.testbit (swrap w z) n = if n <? w then Z.testbit z n else Z.testbit z (w - 1).
Proof.
  intros Hw Hn. rewrite swrap_uwrap_split by done. rewrite concat_testbit by (lia || apply uwrap_range; lia).
  destruct (Z.ltb_spec n w); [rewrite uwrap_testbit by lia; by destruct (Z.ltb_spec n w); [|lia]|].
  destruct (Z.testbit z (w - 1)); [|apply Z.bits_0]. rewrite Z.bits_m1 by lia. done.
Qed.
#[export] Hint Rewrite swrap_testbit using lia : zbits.
#[export] Hint Rewrite all_ones_is : zbits.

Lemma uwrap_swrap w v z : 0 <= w <= v -> 0 < v -> uwrap w (swrap v z) = uwrap w z.
Proof. intros. zbits. destruct (Z.ltb_spec i w), (Z.ltb_spec i v); done || lia. Qed.
Lemma swrap_uwrap w v z : 0 < w <= v -> swrap w (uwrap v z) = swrap w z.
Proof. intros. apply swrap_of_eq; [lia|]. apply uwrap_uwrap. lia. Qed.

Lemma uwrap_add w a b : uwrap w (uwrap w a + uwrap w b) = uwrap w (a + b).
Proof. unfold uwrap. by rewrite <- Zplus_mod. Qed.
Lemma uwrap_sub w a b : uwrap w (uwrap w a - uwrap w b) = uwrap w (a - b).
Proof. unfold uwrap. by rewrite <- Zminus_mod. Qed.
Lemma uwrap_mul w a b : uwrap w (uwrap w a * uwrap w b) = uwrap w (a * b).
Proof. unfold uwrap. by rewrite <- Zmult_mod. Qed.
Lemma uwrap_opp w a : 0 <= w -> uwrap w (- uwrap w a) = uwrap w (- a).
Proof.
  intros Hw. destruct (uwrap_sub_multiple w a Hw) as [k ->]. apply (uwrap_eq_mod w _ _ (- k)); lia.
Qed.
Lemma in_word_land_r w a b : 0 <= w -> in_word w b -> in_word w (Z.land a b).
Proof. rewrite Z.land_comm. apply in_word_land. Qed.
Lemma in_word_small w v : in_word w v -> uwrap w v = v.
Proof. apply uwrap_small. Qed.
Lemma in_word_id v : in_word 64 v -> uwrap 64 v = v.
Proof. apply uwrap_small. Qed.
Lemma in_word_uw ty v : in_word 64 (uw ty v).
Proof. eapply in_word_ty, in_word_uwrap. done. Qed.
#[export] Hint Resolve in_word_uw : words.

Lemma c_shift_Ok w n u : c_shift w n = Ok u -> 0 <= n < w.
Proof. unfold c_shift. destruct (_ && _) eqn:E; [|done]. intros _. apply andb_prop in E as [E1%Z.leb_le E2%Z.ltb_lt]. lia. Qed.

Lemma signed_div_Ok w a b u : signed_div w a b = Ok u -> b <> 0.
Proof. unfold signed_div. destruct (Z.eqb_spec b 0); done. Qed.

(** The operations whose description has the flag of their type.  [muluh_i64]
    and [mulsh_i64] lack [IMPL64]: the optimizer takes them for 32-bit
    operations and cuts their results ([muluh_i64_truncated]). *)
Definition flag_ok (op : TCGOpcode) : bool :=
  match op with INDEX_op_muluh TCG_TYPE_I64 | INDEX_op_mulsh TCG_TYPE_I64 => false | _ => true end.

(** ** Constant folding *)

(** The two operands as an operation of the type reads them. *)
Definition folds (op : TCGOpcode) (x y : Z) : option (res (list Z)) :=
  if foldable_1 op then eval op [uwrap (read_bits op) x] [] else eval op [uwrap (read_bits op) x; uwrap (read_bits op) y] [].

Ltac bits_of ty := pose proof (bits_pos ty).
Ltac bitwise :=
  zbits; repeat match goal with |- context [?a <? ?b] => destruct (Z.ltb_spec a b); try lia end; rewrite ?andb_false_r, ?andb_true_r, ?orb_false_r, ?xorb_false_r;
  try reflexivity.


(** The typed operations are folded at their type. *)
Lemma op_type_sig op ty : flag_ok op = true -> (sig op).1 = [Some ty] -> op_type op = ty.
Proof.
  intros Hf E. destruct op; cbn in E; try discriminate E; repeat match goal with ty : TCGType |- _ => destruct ty end; try discriminate; reflexivity.
Qed.

Ltac words :=
  repeat match goal with
  | H : shift_count _ _ = Ok _ |- _ => apply shift_count_Ok in H as [-> ?]
  | H : c_div _ _ = Ok _ |- _ => apply c_div_Ok in H as [? ->]
  | H : c_mod _ _ = Ok _ |- _ => apply c_mod_Ok in H as [? ->]
  | H : c_shift _ _ = Ok _ |- _ => apply c_shift_Ok in H
  | H : signed_div _ _ _ = Ok _ |- _ => apply signed_div_Ok in H
  end.

Lemma divisor_word ty y : in_word 64 (if uw ty y =? 0 then 1 else uw ty y) /\ 0 < (if uw ty y =? 0 then 1 else uw ty y).
Proof. pose proof (uwrap_range (bits ty) y (bits_nonneg ty)). destruct (Z.eqb_spec (uw ty y) 0); (split; [|lia]); [unfold in_word; lia|auto with words]. Qed.

(** The folded value is a word, also where the operation is undefined. *)
Lemma fold_2_word op x y r0 : flag_ok op = true -> in_word 64 x -> in_word 64 y -> do_constant_folding_2 op x y = Ok r0 -> in_word 64 r0.
Proof.
  intros Hf Hx Hy E0. destruct op; try discriminate E0; try bits_of ty; cbn [do_constant_folding_2] in E0; ok_inv E0; words; auto with words.
  all: try discriminate Hf.
  all: try (unfold rol32, ror32, rol64, ror64 in E0; ok_inv E0; words; apply in_word_lor; auto with words;
    first [apply (in_word_uw TCG_TYPE_I32) | apply in_word_shiftr; [lia|apply (in_word_uw TCG_TYPE_I32)]]).
  - destruct (divisor_word ty y). apply in_word_div; [auto with words|lia].
  - destruct (divisor_word ty y). by apply in_word_mod.
  - apply (in_word_mono 8); [lia|by apply in_word_uwrap].
  - apply (in_word_mono 16); [lia|by apply in_word_uwrap].
  - apply (in_word_mono 32); [lia|by apply in_word_uwrap].
Qed.

Lemma fold_2_sound op x y r0 r : flag_ok op = true -> foldable_1 op || foldable_2 op = true -> in_word 64 x -> in_word 64 y ->
  do_constant_folding_2 op x y = Ok r0 -> folds op x y = Some (Ok r) -> exists v, r = [v] /\ uw (op_type op) v = uw (op_type op) r0.
Proof.
  intros Hf Hop Hx Hy E0 E. destruct op; try discriminate Hop; try (rewrite (op_type_sig _ ty Hf eq_refl); bits_of ty);
    cbn [do_constant_folding_2] in E0; unfold folds in E; cbn [foldable_1 eval on1 on2 read_bits] in E.
  all: try match type of E0 with context [match ?ty with TCG_TYPE_I32 => _ | _ => _ end] => destruct ty; try discriminate Hf; unfold ror32, rol32, ror64, rol64 in E0 end.
  all: ok_inv E; ok_inv E0; words; eexists; (split; [reflexivity|]).
  all: try (rewrite ?(uwrap_uwrap (bits ty) 64), ?(uwrap_idem (bits ty)), ?uwrap_add, ?uwrap_sub, ?uwrap_mul, ?uwrap_opp, ?swrap_uwrap by lia; reflexivity).
  all: try (bitwise; reflexivity).
  - rewrite !swrap_uwrap in * by lia. destruct (Z.eqb_spec (sw ty y) 0); [done|]. by rewrite (uwrap_uwrap (bits ty) 64), uwrap_idem by lia.
  - by destruct (Z.eqb_spec (uw ty y) 0).
  - rewrite !swrap_uwrap in * by lia. destruct (Z.eqb_spec (sw ty y) 0); [done|]. by rewrite (uwrap_uwrap (bits ty) 64), uwrap_idem by lia.
  - by destruct (Z.eqb_spec (uw ty y) 0).
  - rewrite !swrap_uwrap in * by lia. rewrite (uwrap_uwrap (bits ty) 64), uwrap_idem by lia. f_equal. f_equal.
    rewrite <- (uwrap_swrap (bits ty) (bits ty) y) by lia. rewrite uwrap_small; [done|]. pose proof (Z.pow_gt_lin_r 2 (bits ty)). lia.
  - cbn [bits] in *. rewrite (in_word_id x Hx), (in_word_id y Hy) in *. by rewrite (uwrap_small 32 y) in * by lia.
  - cbn [bits] in *. rewrite (in_word_id x Hx), (in_word_id y Hy) in *. by rewrite (uwrap_small 32 y) in * by lia.
  - cbn [bits]. rewrite uwrap_idem by lia. rewrite (uwrap_small 64); [done|]. pose proof (uwrap_range 32 x). pose proof (uwrap_range 32 y). nia.
  - cbn [bits]. rewrite !swrap_uwrap, (uwrap_uwrap 32 64), uwrap_idem by lia. rewrite (swrap_small 64); [done|lia|].
    pose proof (swrap_range 32 x). pose proof (swrap_range 32 y). nia.
Qed.

Lemma fold_word op x y v : flag_ok op = true -> in_word 64 x -> in_word 64 y -> do_constant_folding op x y = Ok v -> in_word 64 v.
Proof.
  intros Hf Hx Hy E. unfold do_constant_folding in E. ok_inv E. apply fold_2_word in Hx0; try done. destruct (_ =? 32); [by apply in_word_land|done].
Qed.

Lemma fold_sound op x y v r : flag_ok op = true -> foldable_1 op || foldable_2 op = true -> in_word 64 x -> in_word 64 y ->
  do_constant_folding op x y = Ok v -> folds op x y = Some (Ok r) -> exists u, r = [u] /\ uw (op_type op) u = uw (op_type op) v.
Proof.
  intros Hf Hop Hx Hy E0 E. unfold do_constant_folding in E0. ok_inv E0.
  destruct (fold_2_sound op x y _ r Hf Hop Hx Hy Hx0 E) as (u & -> & Hu). destruct (Z.eqb_spec (op_bits op) 32) as [B|]; [|by eauto].
  exists u. split; [done|]. unfold op_type in *. rewrite B in *. cbn [Z.eqb Pos.eqb bits] in *.
  rewrite Hu. change 4294967295 with (Z.ones 32). rewrite Z.land_ones by lia. unfold uwrap. by rewrite Z.mod_mod.
Qed.

(** ** Conditions *)

Lemma cond_w_compare w x y c : do_constant_folding_cond_w w x y c = tci_compare w (uwrap w x) (uwrap w y) c.
Proof. reflexivity. Qed.

(** A statement on every condition. *)
Ltac each_cond H :=
  repeat (apply elem_of_cons in H as [->|H]); [..|by apply not_elem_of_nil in H].

Lemma compare_total w a b c : c ∈ conds -> exists t, tci_compare w a b c = Ok t.
Proof. intros H. each_cond H; by eexists. Qed.

Lemma swap_cond_in c : c ∈ conds -> tcg_swap_cond c ∈ conds.
Proof. intros H. each_cond H; apply list_elem_of_In; cbn; tauto. Qed.
Lemma invert_cond_in c : c ∈ conds -> tcg_invert_cond c ∈ conds.
Proof. intros H. each_cond H; apply list_elem_of_In; cbn; tauto. Qed.

Lemma compare_swap w a b c : c ∈ conds -> tci_compare w a b (tcg_swap_cond c) = tci_compare w b a c.
Proof. intros H. each_cond H; try reflexivity; unfold tci_compare; cbn; by rewrite (Z.eqb_sym a b). Qed.

Lemma compare_invert w a b c : c ∈ conds -> tci_compare w a b (tcg_invert_cond c) = res_map negb (tci_compare w a b c).
Proof.
  intros H. each_cond H; unfold tci_compare; cbn; rewrite ?Z.leb_antisym, ?negb_involutive; reflexivity.
Qed.

Lemma compare_same w a c t : do_constant_folding_cond_eq c = Ok t -> tci_compare w a a c = Ok t.
Proof.
  unfold do_constant_folding_cond_eq. intros E.
  repeat match type of E with context [?x =? ?y] => destruct (Z.eqb_spec x y) as [->|]; cbn [orb] in E end;
    try discriminate E; injection E as <-; unfold tci_compare; cbn; rewrite ?Z.eqb_refl, ?Z.ltb_irrefl, ?Z.leb_refl; reflexivity.
Qed.
Lemma cond_eq_total c : c ∈ conds -> exists t, do_constant_folding_cond_eq c = Ok t.
Proof. intros H. each_cond H; by eexists. Qed.

Lemma compare_zero w a c t : 0 <= a -> cond_zero c = Some t -> tci_compare w a 0 c = Ok t.
Proof.
  intros Ha. unfold cond_zero. destruct (Z.eqb_spec c TCG_COND_LTU) as [->|]; [|destruct (Z.eqb_spec c TCG_COND_GEU) as [->|]; [|done]];
    intros [= <-]; unfold tci_compare; cbn; f_equal; lia.
Qed.

(** The sign of a double word is the sign of its high word. *)
Lemma compare_high lo hi c : in_word 32 lo -> in_word 32 hi -> c = TCG_COND_LT \/ c = TCG_COND_GE ->
  tci_compare 64 (pair_val TCG_TYPE_I32 lo hi) 0 c = tci_compare 32 hi 0 c.
Proof.
  intros Hl Hh Hc. assert ((swrap 64 (pair_val TCG_TYPE_I32 lo hi) <? 0) = (swrap 32 hi <? 0)) as E.
  { unfold pair_val, in_word, swrap in *. cbn [bits] in *. apply eq_true_iff_eq. rewrite !Z.ltb_lt. dlia. }
  destruct Hc as [-> | ->]; unfold tci_compare; cbn [TCG_COND_EQ TCG_COND_NE TCG_COND_LT TCG_COND_GE Z.eqb Pos.eqb]; change (swrap 64 0) with 0; change (swrap 32 0) with 0; [by rewrite E|]. by rewrite !Z.leb_antisym, E.
Qed.

(** ** Known zeros *)

(** ** Masks *)

Lemma covers_land m n x : covers m x -> covers n x -> covers (Z.land m n) x.
Proof. intros H1 H2 k Hk Hb. rewrite Z.land_spec, H1, H2; done. Qed.
Lemma covers_and m n x y : covers m x -> covers n y -> covers (Z.land m n) (Z.land x y).
Proof. intros H1 H2 k Hk Hb. rewrite Z.land_spec in *. apply andb_prop in Hb as [B1 B2]. by rewrite H1, H2. Qed.
Lemma covers_or m n x y : covers m x -> covers n y -> covers (Z.lor m n) (Z.lor x y).
Proof. intros H1 H2 k Hk Hb. rewrite Z.lor_spec in *. apply orb_prop in Hb as [B|B]; [rewrite H1 by done; done|rewrite H2 by done; apply orb_true_r]. Qed.
Lemma covers_xor m n x y : covers m x -> covers n y -> covers (Z.lor m n) (Z.lxor x y).
Proof.
  intros H1 H2 k Hk Hb. rewrite Z.lor_spec, Z.lxor_spec in *. destruct (Z.testbit x k) eqn:Bx; [by rewrite H1|]. cbn in Hb.
  rewrite H2 by done. apply orb_true_r.
Qed.
Lemma covers_eq m x : covers m x -> Z.land x m = x.
Proof. intros H. zbits. destruct (Z.testbit x i) eqn:B; [|done]. by rewrite H. Qed.
Lemma covers_ones n x : 0 <= n -> covers (Z.ones n) x -> uwrap n x = x.
Proof. intros Hn H. apply covers_eq in H. rewrite <- H at 2. by rewrite Z.land_ones. Qed.

(** No bit of [x] is outside of the mask. *)
Lemma unaffected M m x : in_word 64 x -> covers M x -> Z.land M (u64 (Z.lnot m)) = 0 -> covers m x.
Proof.
  intros Hx H E k Hk Hb. pose proof (f_equal (fun z => Z.testbit z k) E) as Ek. cbn beta in Ek. autorewrite with zbits in Ek.
  rewrite H in Ek by done. cbn [andb] in Ek. destruct (Z.ltb_spec k 64); [by destruct (Z.testbit m k)|].
  rewrite (testbit_high x 64) in Hb by (unfold in_word in Hx; lia). done.
Qed.

(** A sign bit that is known to be clear. *)
Lemma sign_clear n M x : 0 < n -> covers M x -> Z.land M (2 ^ (n - 1)) = 0 -> swrap n x = uwrap n x.
Proof.
  intros Hn H E. rewrite swrap_uwrap_split by done. pose proof (f_equal (fun z => Z.testbit z (n - 1)) E) as Ek. cbn beta in Ek.
  autorewrite with zbits in Ek. rewrite Z.eqb_refl, andb_true_r in Ek. destruct (Z.testbit x (n - 1)) eqn:B; [|lia].
  rewrite H in Ek by (done || lia). done.
Qed.

Lemma covers_sar ty M x n : 0 <= n -> covers M x -> covers (Z.shiftr (sw ty M) n) (Z.shiftr (sw ty x) n).
Proof.
  intros Hn H k Hk. bits_of ty. autorewrite with zbits; try lia. destruct (_ <? _); intros; apply H; done || lia.
Qed.
Lemma covers_shiftr M x n : 0 <= n -> covers M x -> covers (Z.shiftr M n) (Z.shiftr x n).
Proof. intros Hn H k Hk. autorewrite with zbits; try lia. apply H. lia. Qed.
Lemma covers_wrap w M x : 0 <= w -> covers M x -> covers (uwrap w M) (uwrap w x).
Proof. intros Hw H k Hk. rewrite !uwrap_testbit by lia. destruct (_ <? _); [by apply H|done]. Qed.
Lemma covers_shiftl M x n : covers M x -> covers (Z.shiftl M n) (Z.shiftl x n).
Proof.
  intros H k Hk. rewrite !Z.shiftl_spec by lia. destruct (Z.ltb_spec k n); [by rewrite Z.testbit_neg_r by lia|]. apply H. lia.
Qed.

(** The lowest bit that may be set, and every bit above it. *)
Lemma lowest_bit m k : 0 <= k -> Z.testbit m k = true -> (forall j, 0 <= j < k -> Z.testbit m j = false) -> Z.land m (- m) = 2 ^ k.
Proof.
  intros Hk Hb Hl. assert (m = (2 * (m / 2 ^ (k + 1)) + 1) * 2 ^ k) as E.
  { zbits. rewrite <- (Z.add_0_r (_ * 2 ^ k)), concat_testbit by (lia || pose proof (pow2_pos k); lia). rewrite Z.bits_0.
    destruct (Z.ltb_spec i k); [by apply Hl|]. destruct (decide (i = k)) as [->|].
    - rewrite Z.sub_diag, Hb. by rewrite Z.testbit_odd_0.
    - replace (i - k) with (Z.succ (i - k - 1)) by lia. rewrite Z.testbit_odd_succ, <- Z.shiftr_div_pow2, Z.shiftr_spec by lia. f_equal. lia. }
  set (q := m / 2 ^ (k + 1)) in *. clearbody q. subst m. replace (- ((2 * q + 1) * 2 ^ k)) with ((2 * Z.lnot q + 1) * 2 ^ k) by (unfold Z.lnot; lia).
  zbits. rewrite <- (Z.add_0_r (_ * 2 ^ k)), <- (Z.add_0_r ((2 * Z.lnot q + 1) * _)), !concat_testbit by (lia || pose proof (pow2_pos k); lia). rewrite Z.bits_0.
  destruct (Z.ltb_spec i k), (Z.eqb_spec i k); try lia; [subst; by rewrite Z.sub_diag, !Z.testbit_odd_0|].
  replace (i - k) with (Z.succ (i - k - 1)) by lia. rewrite !Z.testbit_odd_succ, Z.lnot_spec by lia. apply andb_negb_r.
Qed.

Lemma covers_neg ty M x : in_word 64 M -> covers M x -> covers (u64 (- Z.land M (u64 (- M)))) (uw ty (- x)).
Proof.
  intros HM H. destruct (decide (M = 0)) as [->|N0].
  { intros k Hk. assert (Z.land x 0 = x) as E by (by apply covers_eq). rewrite Z.land_0_r in E. subst x.
    rewrite uwrap_testbit by (bits_of ty; lia). change (-0) with 0. rewrite Z.bits_0. by destruct (_ <? _). }
  assert (0 < M) as Hp by (unfold in_word in HM; lia). destruct (ctz64_spec M ltac:(unfold in_word in HM; lia)) as (Hk & Kb & Kl).
  set (k := ctz64 M) in *. clearbody k.
  assert (Z.land M (u64 (- M)) = 2 ^ k) as ->.
  { rewrite <- (lowest_bit M k) by (done || lia).
    zbits. destruct (Z.ltb_spec i 64); [done|]. by rewrite (testbit_high M 64) by (unfold in_word in HM; lia). }
  assert (x = x / 2 ^ k * 2 ^ k) as Ex.
  { zbits. rewrite <- (Z.add_0_r (_ * 2 ^ k)), concat_testbit by (lia || pose proof (pow2_pos k); lia). rewrite Z.bits_0.
    destruct (Z.ltb_spec i k); [|rewrite <- Z.shiftr_div_pow2, Z.shiftr_spec by lia; f_equal; lia].
    destruct (Z.testbit x i) eqn:B; [|done]. rewrite <- (H i Hi B). apply Kl. lia. }
  intros n Hn. bits_of ty. rewrite !uwrap_testbit by lia. destruct (Z.ltb_spec n (bits ty)); [|done]. destruct (Z.ltb_spec n 64); [|lia].
  set (q := x / 2 ^ k) in Ex. clearbody q. subst x. replace (- (q * 2 ^ k)) with (- q * 2 ^ k + 0) by lia. replace (- 2 ^ k) with (-1 * 2 ^ k + 0) by lia.
  rewrite !concat_testbit by (lia || pose proof (pow2_pos k); lia). destruct (Z.ltb_spec n k); [done|]. intros _. apply Z.bits_m1. lia.
Qed.

(** ** Results *)

(** Operations on values. *)
Definition computing (op : TCGOpcode) : bool :=
  negb (control op) && bool_decide (host_load op = None) && bool_decide (host_store op = None) &&
  match op with
  | INDEX_op_qemu_ld _ | INDEX_op_qemu_st _
  | INDEX_op_qemu_ld8u | INDEX_op_qemu_ld8s | INDEX_op_qemu_ld16u | INDEX_op_qemu_ld16s
  | INDEX_op_qemu_ld32 | INDEX_op_qemu_ld32u | INDEX_op_qemu_ld32s | INDEX_op_qemu_ld64
  | INDEX_op_qemu_st8 | INDEX_op_qemu_st16 | INDEX_op_qemu_st32 | INDEX_op_qemu_st64 => false
  | _ => true
  end.

(** The arguments of well-formed code, one by one. *)
Ltac wf_shape Wi :=
  unfold wf_instr in Wi; cbn [opc args tcg_op_defs nb_args nb_oargs nb_iargs nb_cargs] in Wi;
  let Len := fresh "Len" in let Fo := fresh "Fo" in let Fi := fresh "Fi" in let C := fresh "C" in
  destruct Wi as (Len & Fo & Fi & C); cbn in Len;
  try match type of Len with List.length ?l = _ => repeat (destruct l as [|? l]; try discriminate Len) end; clear Len;
  cbv [oargs iargs cargs opc args tcg_op_defs nb_oargs nb_iargs nb_cargs take drop Nat.add] in Fo, Fi, C;
  cbn [sig fst snd replicate] in Fo, Fi; cbn [consts_ok] in C;
  repeat match goal with
  | F : Forall2 _ (_ :: _) (_ :: _) |- _ => apply List.Forall2_cons_iff in F as [? F]
  | F : Forall2 _ [] [] |- _ => clear F
  end;
  repeat match goal with H : has_type _ _ _ |- _ => destruct H as [? ?] end.

(** An operation on 32 bits, whose results are taken to be zero-extended. *)
Definition narrow (op : TCGOpcode) : bool := Z.land (flags (tcg_op_defs op)) (Z.lor TCG_OPF_CALL_CLOBBER TCG_OPF_64BIT) =? 0.
Definition fits (op : TCGOpcode) (v : Z) : Prop := in_word (if narrow op then 32 else 64) v.
Definition outputs_fit (op : TCGOpcode) (vs : list Z) : Prop := List.length vs = List.length (sig op).1 /\ Forall (fits op) vs.

Lemma fits_word op v : fits op v -> in_word 64 v.
Proof. unfold fits. destruct (narrow op); [|done]. apply in_word_mono. lia. Qed.

Lemma narrow_sig op oty : flag_ok op = true -> op <> INDEX_op_discard -> narrow op = true -> oty ∈ (sig op).1 -> oty = Some TCG_TYPE_I32.
Proof.
  intros Hf Nd Hn Hin. destruct op; try done; repeat match goal with ty : TCGType |- _ => destruct ty end; try discriminate;
    cbn in Hin; repeat (apply elem_of_cons in Hin as [->|Hin]; [reflexivity|]); by apply not_elem_of_nil in Hin.
Qed.

Lemma out_fits op vs : flag_ok op = true -> op <> INDEX_op_discard -> Forall2 out_word vs (sig op).1 -> outputs_fit op vs.
Proof.
  intros Hf Nd F. split; [by eapply List.Forall2_length|]. pose proof (fun oty => narrow_sig op oty Hf Nd) as N. unfold fits.
  induction F as [|v oty vs tys Hv F IH]; constructor; [|apply IH; intros; apply N; [done|by right]].
  destruct (narrow op); [rewrite (N oty eq_refl ltac:(left)) in Hv; exact Hv|]. destruct oty as [ty|]; [by eapply in_word_ty|done].
Qed.

Lemma covers_result op m v : covers m v -> fits op v -> covers (result_mask op m) v.
Proof.
  unfold fits, result_mask. fold (narrow op). destruct (narrow op); [|done]. intros Hc Hw. apply covers_land; [done|].
  change 4294967295 with (Z.ones 32). intros k Hk Hb. rewrite ones_testbit by lia. destruct (Z.ltb_spec k 32); [done|].
  rewrite (testbit_high v 32) in Hb by (unfold in_word in Hw; lia). done.
Qed.

Section Results.
Context {W : Type} `{TcgWorld W} (s : TCGContext).
Implicit Types (ts : tinfo) (e : env).

Lemma exec_computes w e i : computing (opc i) = true ->
  exec s w e i = exec_eval w e (opc i) (oargs i) (iargs i) (cargs i).
Proof.
  intros Hc. unfold computing in Hc. rewrite !andb_true_iff in Hc. destruct Hc as [[[Hc H1%bool_decide_eq_true] H2%bool_decide_eq_true] H3].
  rewrite exec_is_data by (by apply negb_true_iff). unfold exec_data. rewrite H1, H2.
  assert (guest_load (opc i) (cargs i) = None) as -> by (destruct (opc i); done).
  assert (guest_store (opc i) (cargs i) = None) as -> by (destruct (opc i); done). done.
Qed.

Lemma data_outputs op w e outs ins cs w1 e1 fl : flag_ok op = true -> op <> INDEX_op_discard -> exec_data s w e op outs ins cs = Ok (w1, e1, fl) ->
  match fl with
  | Next => exists vs, e1 = upds e outs vs /\ outputs_fit op vs
  | _ => e1 = e
  end.
Proof.
  intros Hf Nd. unfold exec_data. destruct (host_load op) as [[[ty n] sign]|] eqn:Hl.
  { unfold exec_host_load. intros E. destruct ins as [|a [|? ?]], cs as [|off [|? ?]]; try discriminate E. apply Ok_inj in E. injection E as <- <- <-.
    eexists. split; [reflexivity|]. apply out_fits; [done|done|]. assert ((sig op).1 = [Some ty]) as -> by (destruct op; try discriminate Hl; by injection Hl as <-).
    constructor; [|constructor]. by apply in_word_uwrap. }
  destruct (host_store op) as [n|] eqn:Hs.
  { unfold exec_host_store. intros E. destruct ins as [|v [|a [|? ?]]], cs as [|off [|? ?]]; try discriminate E. apply Ok_inj in E. injection E as <- <- <-.
    exists []. split; [by destruct outs|]. apply out_fits; [done|done|]. assert ((sig op).1 = []) as -> by (destruct op; try discriminate Hs; done). constructor. }
  destruct (guest_load op cs) as [[mop idx]|] eqn:Gl.
  { unfold exec_guest_load. intros E. destruct ins as [|a [|? ?]]; try discriminate E.
    destruct (w_guest_ld _ _ _ _ _) as [w2 [v|]]; apply Ok_inj in E; injection E as <- <- <-; [|done].
    eexists. split; [reflexivity|]. split; [destruct op; try discriminate Gl; done|]. constructor; [|constructor].
    assert (narrow op = false) as Hn by (destruct op; try discriminate Gl; by try destruct ty). unfold fits. rewrite Hn. destruct (memop_signed mop); [by apply in_word_uwrap|].
    apply (in_word_mono (memop_bits mop)); [|apply in_word_uwrap]; pose proof (memop_bits_range mop); lia. }
  destruct (guest_store op cs) as [[mop idx]|] eqn:Gs.
  { unfold exec_guest_store. intros E. destruct ins as [|v [|a [|? ?]]]; try discriminate E.
    destruct (w_guest_st _ _ _ _ _ _) as [w2 ok]; apply Ok_inj in E; injection E as <- <- <-. destruct ok; [|done].
    exists []. split; [by destruct outs|]. apply out_fits; [done|done|]. assert ((sig op).1 = []) as -> by (destruct op; try discriminate Gs; done). constructor. }
  unfold exec_eval. intros E. destruct (eval op (rd op e <$> ins) cs) as [r|] eqn:Ev; [|discriminate E]. ok_inv E. injection E as <- <- <-.
  eexists. split; [reflexivity|]. apply out_fits; [done|done|]. eapply eval_range; [|exact Ev]. apply Forall_fmap, Forall_true. intros y. apply in_word_uwrap, read_bits_nonneg.
Qed.

Lemma branch_outputs (w : W) e cmp outs cs w1 e1 fl (P : list Z -> Prop) : P [] -> exec_branch w e cmp cs = Ok (w1, e1, fl) ->
  match fl with Next => exists vs, e1 = upds e outs vs /\ P vs | _ => e1 = e end.
Proof.
  intros HP. unfold exec_branch. destruct cs as [|c [|l [|? ?]]]; try done. intros E. apply bind_Ok in E as (t & _ & E). apply Ok_inj in E.
  injection E as <- <- <-. destruct t; [done|]. exists []. by destruct outs.
Qed.

(** The writes of an operation other than a call are its outputs. *)
Lemma exec_outputs w e i w1 e1 fl : opc i <> INDEX_op_call -> flag_ok (opc i) = true -> exec s w e i = Ok (w1, e1, fl) ->
  match fl with
  | Next => exists vs, e1 = upds e (oargs i) vs /\ outputs_fit (opc i) vs
  | _ => e1 = e
  end.
Proof.
  intros Nc Hf E. destruct (control (opc i)) eqn:Hc; cycle 1.
  { rewrite exec_is_data in E by done. apply data_outputs in E; [exact E|done|]. intros Hd. by rewrite Hd in Hc. }
  unfold exec in E. unfold outputs_fit. destruct (opc i) eqn:Op; try discriminate Hc; try done.
  all: try (apply Ok_inj in E; injection E as <- <- <-; try (exists []; split; [by destruct (oargs i)|split; [done|constructor]])).
  - exists [0]. split; [done|]. split; [done|]. constructor; [|constructor]. cbv. split; [discriminate|reflexivity].
  - destruct (cargs i) as [|? [|? ?]]; try discriminate E. apply Ok_inj in E. by injection E as <- <- <-.
  - destruct (iargs i) as [|? [|? [|? ?]]]; try discriminate E. eapply branch_outputs; [|exact E]. by split.
  - destruct (iargs i) as [|? [|? [|? [|? [|? ?]]]]]; try discriminate E. eapply branch_outputs; [|exact E]. by split.
  - destruct (cargs i) as [|? [|? ?]]; try discriminate E. apply Ok_inj in E. by injection E as <- <- <-.
  - destruct (cargs i) as [|? [|? ?]]; try discriminate E. apply Ok_inj in E. injection E as <- <- <-.
    destruct (w_linked w z); [done|]. exists []. split; [by destruct (oargs i)|split; [done|constructor]].
Qed.
Lemma one_output w e i w1 e1 : opc i <> INDEX_op_call -> flag_ok (opc i) = true -> wf_instr s i -> nb_oargs (tcg_op_defs (opc i)) = 1%nat ->
  exec s w e i = Ok (w1, e1, Next) -> exists v, e1 = upd e (nth 0 (args i) 0) v /\ fits (opc i) v.
Proof.
  intros Nc Hf Wi H1 E. apply exec_outputs in E as (vs & -> & Lv & Fv); [|done|done]. destruct (wf_data _ _ Nc Wi) as (Fo & _ & _ & Len).
  unfold oargs in *. rewrite H1 in *. unfold nb_args in Len. rewrite H1 in Len. destruct (args i) as [|d l]; [done|]. cbn [take nth] in *.
  inversion Fo as [|? ? ? ? ? F0 Ed Et]; subst. inversion F0; subst. rewrite <- Et in Lv. destruct Fv as [|v vs Hv Fv]; [done|]. destruct Fv; [|done]. by exists v.
Qed.

(** What an operation on values returned. *)
Lemma exec_result w e i w1 e1 fl : computing (opc i) = true -> exec s w e i = Ok (w1, e1, fl) ->
  exists vs, eval (opc i) (rd (opc i) e <$> iargs i) (cargs i) = Some (Ok vs) /\ e1 = upds e (oargs i) vs /\ w1 = w /\ fl = Next.
Proof.
  intros Hc E. rewrite exec_computes in E by done. unfold exec_eval in E. destruct (eval _ _ _) as [r|]; [|discriminate E].
  ok_inv E. injection E as <- <- <-. by eexists.
Qed.

Ltac result E :=
  let vs := fresh "vs" in let Ev := fresh "Ev" in
  apply exec_result in E as (vs & Ev & -> & _ & _); [|reflexivity];
  cbv [oargs iargs cargs opc args tcg_op_defs nb_oargs nb_iargs nb_cargs take drop Nat.add] in *; cbn [fmap list_fmap eval on1 on2 on4] in Ev;
  unfold rd in Ev; cbn [read_bits] in Ev; ok_inv Ev; words; cbn [upds]; rewrite ?upd_eq.

Lemma load_result w e i w1 e1 ty n : host_load (opc i) = Some (ty, n, false) -> exec s w e i = Ok (w1, e1, Next) ->
  exists v, e1 = upds e (oargs i) [uw ty (uwrap n v)].
Proof.
  intros Hl E. rewrite exec_is_data in E by (destruct (opc i); done). unfold exec_data, exec_host_load in E. rewrite Hl in E.
  destruct (iargs i) as [|? [|? ?]], (cargs i) as [|? [|? ?]]; try discriminate E. apply Ok_inj in E. injection E as _ <-. by eexists.
Qed.
Lemma guest_result w e i w1 e1 mop idx : guest_load (opc i) (cargs i) = Some (mop, idx) -> memop_signed mop = false -> exec s w e i = Ok (w1, e1, Next) ->
  exists v, e1 = upds e (oargs i) [uwrap (memop_bits mop) v].
Proof.
  intros Hg Hs E. rewrite exec_is_data in E by (destruct (opc i); done). unfold exec_data, exec_guest_load in E. rewrite Hg in E.
  assert (host_load (opc i) = None) as Hl by (destruct (opc i); done). assert (host_store (opc i) = None) as Hs2 by (destruct (opc i); done).
  rewrite Hl, Hs2, Hs in E. destruct (iargs i) as [|? [|? ?]]; try discriminate E.
  destruct (w_guest_ld _ _ _ _ _) as [w2 [v|]]; apply Ok_inj in E; [|discriminate E]. injection E as _ <-. by eexists.
Qed.

Lemma covers_word n v : 0 <= n -> covers (Z.ones n) (uwrap n v).
Proof. intros Hn k Hk Hb. rewrite uwrap_testbit in Hb by lia. rewrite ones_testbit by lia. by destruct (k <? n). Qed.

Lemma memop_mask mop : Z.land mop MO_SIGN = 0 -> u64 (u64 (Z.shiftl 2 (Z.shiftl 8 (Z.land mop MO_SIZE) - 1)) - 1) = Z.ones (memop_bits mop).
Proof.
  intros _. unfold memop_bits, MO_SIZE. change 3 with (Z.ones 2). rewrite Z.land_ones by lia. pose proof (Z.mod_pos_bound mop (2 ^ 2) ltac:(lia)) as B.
  destruct (decide (mop mod 2 ^ 2 = 0)) as [->|]; [reflexivity|]. destruct (decide (mop mod 2 ^ 2 = 1)) as [->|]; [reflexivity|].
  destruct (decide (mop mod 2 ^ 2 = 2)) as [->|]; [reflexivity|]. assert (mop mod 2 ^ 2 = 3) as -> by lia. reflexivity.
Qed.

(** A constant, as it is read. *)
Lemma const_read ts e t : inv s ts e -> valid s t -> is_const ts t = true ->
  uw (temp_type s t) (e t) = uw (temp_type s t) (val (ts t)) /\ in_word 64 (val (ts t)) /\ mask (ts t) = val (ts t).
Proof.
  intros [L A] Ht Hc. unfold is_const in Hc. apply bool_decide_eq_true in Hc. destruct (L t Ht) as [_ K]. destruct (A t Ht) as (_ & _ & G).
  rewrite Hc in K, G. unfold get in G. by destruct K.
Qed.
(** A constant count is read as it is. *)
Lemma const_count_read ts e t ty w u : inv s ts e -> valid s t -> temp_type s t = ty -> is_const ts t = true -> w <= 64 -> c_shift w (val (ts t)) = Ok u ->
  uw ty (e t) = val (ts t) /\ 0 <= val (ts t) < 64.
Proof.
  intros I Ht <- Hc Hw Hs. apply c_shift_Ok in Hs. destruct (const_read ts e t I Ht Hc) as (-> & _ & _). split; [|lia].
  apply uwrap_small. destruct (temp_type s t); cbn [bits]; lia.
Qed.

Lemma covers_deposit ty M N x y pos len : 0 <= pos -> 0 < len < 64 -> pos + len <= bits ty -> covers M x -> covers N y ->
  covers (Z.lor (Z.land M (u64 (Z.lnot (u64 (Z.shiftl (Z.shiftl 1 len - 1) pos))))) (u64 (Z.shiftl (Z.land N (Z.shiftl 1 len - 1)) pos)))
    (deposit (bits ty) (uw ty x) (uw ty y) pos len).
Proof.
  intros Hp Hl Hb HM HN k Hk. bits_of ty. replace (Z.shiftl 1 len - 1) with (Z.ones len) by (rewrite Z.ones_equiv, Z.shiftl_mul_pow2 by lia; lia).
  unfold deposit. autorewrite with zbits; try lia. intros B. apply orb_true_iff. apply orb_prop in B as [B|B]; [left|right].
  - apply andb_prop in B as [B1 B2]. apply andb_prop in B1 as [B0 B1]. apply HM in B1; [|done]. rewrite B1. cbn [andb].
    autorewrite with zbits; try lia. destruct (Z.ltb_spec k 64); [|lia]. rewrite B0 in B2. exact B2.
  - apply andb_prop in B as [B1 B2]. apply andb_prop in B2 as [B2 B3]. destruct (Z.ltb_spec (k - pos) 0) as [|Hkp]; [by rewrite Z.testbit_neg_r in B3 by lia|].
    autorewrite with zbits in B1; try lia. apply andb_prop in B1 as [_ B1]. apply HN in B1; [|lia]. rewrite B1, B3. destruct (Z.ltb_spec k 64); [done|lia].
Qed.

(** A sign extension without the sign bit. *)
Lemma covers_ext n M x : 0 < n -> covers M x -> Z.land M (2 ^ (n - 1)) = 0 -> covers (Z.land M (Z.ones n)) (swrap n (uwrap n x)).
Proof.
  intros Hn Hc E. rewrite swrap_uwrap, (sign_clear n M) by (done || lia). apply covers_land; [by apply covers_uwrap; [lia|]|by apply covers_word; lia].
Qed.

Lemma known_zeros_covers ts w e op l m aff w1 e1 : inv s ts e -> flag_ok op = true -> wf_instr s (mkI op l) -> known_zeros ts op l = Ok (m, aff) ->
  nb_oargs (tcg_op_defs op) = 1%nat -> exec s w e (mkI op l) = Ok (w1, e1, Next) -> covers m (e1 (nth 0 l 0)).
Proof.
  intros I Hf Wi K H1 E. assert (op <> INDEX_op_call) as Nc by (by intros ->).
  assert (m = all_ones -> covers m (e1 (nth 0 l 0))) as Dflt.
  { intros ->. destruct (one_output _ _ (mkI op l) _ _ Nc Hf Wi H1 E) as (v & -> & Hv). cbn [args]. rewrite upd_eq. by eapply covers_all, fits_word. }
  assert (forall t, valid s t -> covers (mask (ts t)) (e t)) as C by (intros t Ht; by destruct (proj2 I t Ht) as (_ & ? & _)).
  assert (forall t, valid s t -> in_word 64 (mask (ts t))) as M by (intros t Ht; by destruct (proj1 I t Ht)).
  destruct op; try discriminate H1; try (cbn [known_zeros] in K; injection K as <- <-; by apply Dflt);
    try (wf_shape Wi; cbn [known_zeros nth] in *).
  all: try match goal with ty : TCGType |- _ => bits_of ty end.
  - injection K as <- <-. result E. destruct x; [apply covers_refl|]. intros k Hk. cbn. by rewrite Z.bits_0.
  - injection K as <- <-. result E. destruct x; intros k Hk Hb; rewrite Z.lor_spec, orb_true_iff; [left|right];
      (rewrite uwrap_testbit in Hb by lia; apply andb_prop in Hb as [_ Hb]; by apply C).
  - injection K as <- <-. apply (load_result _ _ _ _ _ ty 8) in E as [v ->]; [|done]. cbn [oargs opc args tcg_op_defs nb_oargs take upds]. rewrite upd_eq.
    apply covers_uwrap; [lia|]. by apply (covers_word 8).
  - injection K as <- <-. apply (load_result _ _ _ _ _ ty 16) in E as [v ->]; [|done]. cbn [oargs opc args tcg_op_defs nb_oargs take upds]. rewrite upd_eq.
    apply covers_uwrap; [lia|]. by apply (covers_word 16).
  - injection K as <- <-. apply (load_result _ _ _ _ _ TCG_TYPE_I64 32) in E as [v ->]; [|done]. cbn [oargs opc args tcg_op_defs nb_oargs take upds]. rewrite upd_eq.
    apply covers_uwrap; [done|]. by apply (covers_word 32).
  - result E. destruct (is_const ts z1); injection K as <- <-; apply covers_and; apply covers_uwrap; try lia; by apply C.
  - injection K as <- <-. result E. apply covers_or; apply covers_uwrap; try lia; by apply C.
  - injection K as <- <-. result E. apply covers_xor; apply covers_uwrap; try lia; by apply C.
  - destruct (is_const ts z1) eqn:Hc; [|injection K as <- <-; by apply Dflt]. ok_inv K. injection K as <- <-. result E.
    destruct (const_count_read ts e z1 ty 64 tt I ltac:(done) ltac:(done) Hc ltac:(lia) ltac:(by apply c_shift_ok)) as [-> ?].
    rewrite <- (uwrap_uwrap (bits ty) 64) by lia. apply covers_uwrap; [lia|]. apply covers_wrap, covers_shiftl, covers_uwrap; [lia..|by apply C].
  - destruct (is_const ts z1) eqn:Hc; [|injection K as <- <-; by apply Dflt]. ok_inv K. injection K as <- <-. result E.
    destruct (const_count_read ts e z1 ty (bits ty) tt I ltac:(done) ltac:(done) Hc ltac:(lia) ltac:(by apply c_shift_ok)) as [-> ?].
    apply covers_shiftr, covers_wrap; [lia..|by apply C].
  - destruct (is_const ts z1) eqn:Hc; [|injection K as <- <-; by apply Dflt]. ok_inv K. injection K as <- <-. result E.
    destruct (const_count_read ts e z1 ty (bits ty) tt I ltac:(done) ltac:(done) Hc ltac:(lia) ltac:(by apply c_shift_ok)) as [-> ?].
    rewrite <- (uwrap_uwrap (bits ty) 64) by lia. apply covers_uwrap; [lia|]. rewrite swrap_uwrap by lia. apply covers_wrap, covers_sar; [lia..|by apply C].
  - ok_inv K. injection K as <- <-. result E. destruct C0 as (? & ? & ?). apply covers_deposit; try done; by apply C.
  - destruct (Z.eqb_spec (Z.land (mask (ts z0)) 128) 0) as [E8|]; cbn [negb] in K; injection K as <- <-; [|by apply Dflt]. result E.
    apply covers_uwrap; [lia|]. by apply (covers_ext 8); [|apply C|].
  - destruct (Z.eqb_spec (Z.land (mask (ts z0)) 32768) 0) as [E8|]; cbn [negb] in K; injection K as <- <-; [|by apply Dflt]. result E.
    apply covers_uwrap; [lia|]. by apply (covers_ext 16); [|apply C|].
  - injection K as <- <-. result E. apply covers_land; [apply covers_uwrap; [done|by apply C]|by apply (covers_word 8)].
  - injection K as <- <-. result E. apply covers_land; [apply covers_uwrap; [done|by apply C]|by apply (covers_word 16)].
  - destruct (Z.eqb_spec (Z.land (mask (ts z0)) 2147483648) 0) as [E8|]; cbn [negb] in K; injection K as <- <-; [|by apply Dflt]. result E.
    apply covers_uwrap; [lia|]. by apply (covers_ext 32); [|apply C|].
  - injection K as <- <-. result E. apply covers_land; [apply covers_uwrap; [done|by apply C]|by apply (covers_word 32)].
  - injection K as <- <-. result E. rewrite <- (uwrap_opp (bits ty) (uw ty (e z0))), uwrap_idem, uwrap_opp by lia. apply covers_neg; [by apply M|by apply C].
  - result E. destruct (is_const ts z1) eqn:Hc; injection K as <- <-.
    + destruct (const_read ts e z1 I ltac:(done) Hc) as (Er & _ & Em). rewrite H4 in Er. rewrite Er, Em. intros k Hk.
      autorewrite with zbits; try lia. intros B. apply andb_prop in B as [B1 B2]. apply andb_prop in B1 as [B0 B1].
      rewrite (C z0 ltac:(done) k Hk B1). rewrite B0 in B2. apply Z.ltb_lt in B0. destruct (Z.ltb_spec k 64); [exact B2|lia].
    + intros k Hk. autorewrite with zbits; try lia. intros B. apply andb_prop in B as [B1 _]. apply andb_prop in B1 as [_ B1]. by apply (C z0).
  - apply Ok_inj in K. injection K as <- <-. destruct (Z.eqb_spec (Z.land z1 MO_SIGN) 0) as [E0|]; [|by apply Dflt]. rewrite memop_mask by done.
    apply (guest_result _ _ _ _ _ z1 z2) in E as [v ->]; [|done|unfold memop_signed; by rewrite E0].
    cbn [oargs opc args tcg_op_defs nb_oargs take upds]. rewrite upd_eq. apply covers_word. apply memop_bits_range.
  - injection K as <- <-. apply (guest_result _ _ _ _ _ 0 z1) in E as [v ->]; [|done|done]. cbn [oargs opc args tcg_op_defs nb_oargs take upds].
    rewrite upd_eq. by apply (covers_word 8).
  - injection K as <- <-. apply (guest_result _ _ _ _ _ 1 z1) in E as [v ->]; [|done|done]. cbn [oargs opc args tcg_op_defs nb_oargs take upds].
    rewrite upd_eq. by apply (covers_word 16).
  - injection K as <- <-. apply (guest_result _ _ _ _ _ 2 z1) in E as [v ->]; [|done|done]. cbn [oargs opc args tcg_op_defs nb_oargs take upds].
    rewrite upd_eq. by apply (covers_word 32).
Qed.
Lemma known_zeros_word ts op l m aff : linked s ts -> wf_instr s (mkI op l) -> known_zeros ts op l = Ok (m, aff) -> in_word 64 m /\ in_word 64 aff.
Proof.
  intros L Wi K. assert (forall t, valid s t -> in_word 64 (mask (ts t))) as M by (intros t Ht; by destruct (L t Ht)).
  pose proof in_word_all_ones as A1. assert (forall n, 0 <= n <= 64 -> in_word 64 (Z.ones n)) as On.
  { intros n Hn. rewrite Z.ones_equiv. unfold in_word. pose proof (Z.pow_le_mono_r 2 n 64). pose proof (pow2_pos n). lia. }
  destruct op; try (cbn [known_zeros] in K; injection K as <- <-; split; first [done | apply (On 0); lia | apply (On 1); lia | apply (On 8); lia | apply (On 16); lia | apply (On 32); lia]);
    (wf_shape Wi; cbn [known_zeros] in K; unfold and_const in K).
  all: repeat match type of K with
    | (if ?b then _ else _) = _ => destruct b
    | Ok (if ?b then _ else _) = _ => destruct b
    end.
  all: try (ok_inv K; injection K as <- <-; split; auto with words).
  - words. apply in_word_shiftr; [lia|]. auto with words.
  - destruct (_ =? 0); auto with words.
Qed.

Lemma typed ts e t ty v : inv s ts e -> valid s t -> temp_type s t = ty -> uw ty v = uw ty (e t) ->
  uw ty v = uw ty (e t) /\ (is_const ts t = true -> uw ty v = uw ty (val (ts t))).
Proof. intros I Ht <- E. split; [done|]. intros Hc. destruct (const_read ts e t I Ht Hc) as (Er & _ & _). by rewrite E. Qed.

(** An extension of a value that has no bit above the [n] low ones. *)
Lemma ext_same n M x : 0 < n -> in_word 64 x -> covers M x -> negb (Z.land M (2 ^ (n - 1)) =? 0) = false -> Z.land M (u64 (Z.lnot (Z.ones n))) = 0 ->
  swrap n (uwrap n x) = x.
Proof.
  intros Hn Hx Hc Hs Ha. apply negb_false_iff, Z.eqb_eq in Hs. rewrite swrap_uwrap, (sign_clear n M) by (done || lia).
  apply covers_ones; [lia|]. by eapply unaffected.
Qed.

(** A constant without bits above the low half is the register. *)
Lemma const_low ts e t : inv s ts e -> valid s t -> is_const ts t = true -> Z.land (mask (ts t)) (u64 (Z.lnot (Z.ones 32))) = 0 -> e t = val (ts t).
Proof.
  intros I Ht Hc Ha. destruct (const_read ts e t I Ht Hc) as (Er & Ew & Em). destruct (proj2 I t Ht) as (Hw & Cv & _).
  rewrite <- (covers_ones 32 (e t)), <- (covers_ones 32 (val (ts t))); try done.
  - apply (uwrap_of_eq 32 (bits (temp_type s t))); [destruct (temp_type s t); cbn; lia|done].
  - eapply unaffected; [done| |exact Ha]. rewrite Em. apply covers_refl.
  - by eapply unaffected.
Qed.

(** An operation that affects no bit is a move. *)
Lemma affects_nothing ts w e op l m w1 e1 : inv s ts e -> flag_ok op = true -> wf_instr s (mkI op l) -> known_zeros ts op l = Ok (m, 0) ->
  exec s w e (mkI op l) = Ok (w1, e1, Next) ->
  let d := nth 0 l 0 in let a := nth 1 l 0 in
  valid s d /\ valid s a /\ temp_type s d = op_type op /\ e1 = upd e d (e1 d) /\
  uw (op_type op) (e1 d) = uw (op_type op) (e a) /\ (is_const ts a = true -> uw (op_type op) (e1 d) = uw (op_type op) (val (ts a))).
Proof.
  intros I Hf Wi K E. assert (forall t, valid s t -> covers (mask (ts t)) (e t) /\ in_word 64 (e t)) as C by (intros t Ht; by destruct (proj2 I t Ht) as (? & ? & _)).
  destruct op; try (cbn [known_zeros] in K; discriminate K); (wf_shape Wi; cbn [known_zeros nth] in * ); unfold and_const in K.
  all: repeat match type of K with
    | (if ?b then _ else _) = _ => let B := fresh "B" in destruct b eqn:B
    | Ok (if ?b then _ else _) = _ => let B := fresh "B" in destruct b eqn:B
    end; try (ok_inv K; discriminate K).
  all: try match goal with ty : TCGType |- _ => bits_of ty end.
  all: try rewrite (op_type_sig _ _ Hf eq_refl). all: injection K as Km Ka; result E.
  all: do 3 (split; [done|]); (split; [reflexivity|]).
  - destruct (const_read ts e z1 I ltac:(done) B) as (Er & _ & Em). destruct (C z0 ltac:(done)) as [C1 C2]. pose proof (unaffected _ _ _ C2 C1 Ka) as Cu. rewrite Em in Cu.
    rewrite H3 in Er. apply typed; [done..|]. rewrite Er. rewrite <- (covers_eq _ _ Cu) at 2. bitwise.
  - destruct (C z0 ltac:(done)) as [C1 C2]. apply typed; [done..|]. rewrite uwrap_idem by done. f_equal. by eapply (ext_same 8).
  - destruct (C z0 ltac:(done)) as [C1 C2]. apply typed; [done..|]. rewrite uwrap_idem by done. f_equal. by eapply (ext_same 16).
  - destruct (C z0 ltac:(done)) as [C1 C2]. apply typed; [done..|]. f_equal. apply (covers_ones 8); [done|]. by eapply unaffected.
  - destruct (C z0 ltac:(done)) as [C1 C2]. apply typed; [done..|]. f_equal. apply (covers_ones 16); [done|]. by eapply unaffected.
  - destruct (C z0 ltac:(done)) as [C1 C2]. assert (u64 (s32 (u32 (e z0))) = e z0) as -> by (rewrite (ext_same 32 (mask (ts z0))) by done; by apply in_word_id).
    split; [done|]. intros Hc. f_equal. eapply const_low; done.
  - destruct (C z0 ltac:(done)) as [C1 C2]. assert (u32 (e z0) = e z0) as -> by (apply (covers_ones 32); [done|]; by eapply unaffected).
    split; [done|]. intros Hc. f_equal. eapply const_low; done.
  - destruct (const_read ts e z1 I ltac:(done) B) as (Er & _ & Em). destruct (C z0 ltac:(done)) as [C1 C2]. pose proof (unaffected _ _ _ C2 C1 Ka) as Cu. rewrite Em in Cu.
    rewrite H3 in Er. apply typed; [done..|]. rewrite Er. rewrite <- (covers_eq _ _ Cu) at 2. bitwise.
Qed.
End Results.
