(* ===== verification/TcgStep.v ===== *)
(** * Steps of the optimizer

    Each stage of the loop body replaces an operation by one that does the same
    on the registers, and leaves [temps] in agreement with them. *)

From stdpp Require Import base list numbers.
From S2P Require Import Prelude HostUtils Bitops MemRegion Tcg TcgOptimize TcgFacts TcgCopies TcgKnown.

Section Step.
Context {W : Type} `{TcgWorld W} (s : TCGContext).
Implicit Types (ts : tinfo) (e : env).

(** Operation [j] does on [e] what [i] does. *)
Definition refines e (i : instr) ts' (j : instr) : Prop := forall w w1 e1 fl, exec s w e i = Ok (w1, e1, fl) ->
  exists e1', exec s w e j = Ok (w1, e1', fl) /\ sim s e1 e1' /\ env_ok s e1' /\ (fl = Next -> inv s ts' e1').

(** Operation [i] only writes a value to [d]. *)
Definition yields e (i : instr) (d : Z) (P : Z -> Prop) : Prop := forall w w1 e1 fl, exec s w e i = Ok (w1, e1, fl) ->
  w1 = w /\ fl = Next /\ exists v, e1 = upd e d v /\ P v.

Lemma yields_eval e i d (P : Z -> Prop) : computing (opc i) = true -> oargs i = [d] ->
  (forall vs, eval (opc i) (rd (opc i) e <$> iargs i) (cargs i) = Some (Ok vs) -> exists v, vs = [v] /\ P v) -> yields e i d P.
Proof.
  intros Hc Ho Hv w w1 e1 fl E. apply exec_result in E as (vs & Ev & -> & -> & ->); [|done]. destruct (Hv vs Ev) as (v & -> & Pv).
  rewrite Ho. split; [done|]. split; [done|]. by exists v.
Qed.

Lemma exec_movi w e ty d v : exec s w e (mkI (INDEX_op_movi ty) [d; v]) = Ok (w, upd e d (uw ty v), Next).
Proof. reflexivity. Qed.
Lemma exec_mov w e ty d a : exec s w e (mkI (INDEX_op_mov ty) [d; a]) = Ok (w, upd e d (uw ty (e a)), Next).
Proof. reflexivity. Qed.
Lemma exec_nop (w : W) e : exec s w e (mkI INDEX_op_nop []) = Ok (w, e, Next).
Proof. reflexivity. Qed.

Lemma sim_upd_val e d v v' : uw (temp_type s d) v = uw (temp_type s d) v' -> sim s (upd e d v) (upd e d v').
Proof. intros E. by apply sim_upd; [apply sim_refl|]. Qed.

(** A constant result. *)
Lemma movi_refines ts e op i d v : inv s ts e -> valid s d -> temp_type s d = op_type op -> in_word 64 v ->
  yields e i d (fun r => uw (op_type op) r = uw (op_type op) v) ->
  refines e i (tcg_opt_gen_movi ts op d v).1 (tcg_opt_gen_movi ts op d v).2.
Proof.
  intros I Vd Ty Hv Y w w1 e1 fl E. destruct (Y _ _ _ _ E) as (-> & -> & r & -> & Hr). cbn [tcg_opt_gen_movi snd]. unfold op_to_movi.
  pose proof (gen_movi_inv s ts e op d v I Vd Hv Ty) as I1. eexists. split; [apply exec_movi|]. split.
  - apply sim_upd_val. rewrite Ty, Hr. by rewrite uwrap_idem.
  - split; [by eapply inv_env_ok|done].
Qed.

(** The result is an operand. *)
Definition moves ts e op (a v : Z) : Prop :=
  uw (op_type op) v = uw (op_type op) (e a) /\ (is_const ts a = true -> uw (op_type op) v = uw (op_type op) (val (ts a))).

Lemma nop_refines ts e op i d a : inv s ts e -> temp_type s d = op_type op -> alike s ts d a -> yields e i d (moves ts e op a) ->
  refines e i ts (mkI INDEX_op_nop []).
Proof.
  intros I Ty (Va & Ta & Ga) Y w w1 e1 fl E. destruct (Y _ _ _ _ E) as (-> & -> & r & -> & Hr & _). exists e. split; [apply exec_nop|].
  split; [|split; [by eapply inv_env_ok|done]]. intros t Ht. destruct (decide (t = d)) as [->|Nt]; [|by apply get_upd_ne].
  rewrite get_upd_eq. rewrite <- Ga by done. unfold get. by rewrite Ta, Ty.
Qed.

Lemma mov_refines ts e op i d a ts' j : inv s ts e -> valid s d -> valid s a -> temp_type s d = op_type op -> d <> a ->
  is_const ts a = false -> yields e i d (moves ts e op a) -> tcg_opt_gen_mov s ts op d a = Ok (ts', j) -> refines e i ts' j.
Proof.
  intros I Vd Va Ty Hd Hc Y G w w1 e1 fl E. destruct (Y _ _ _ _ E) as (-> & -> & r & -> & Hr & _).
  destruct (gen_mov_inv s ts e op d a I Vd Va Hd Hc Ty) as (ts2 & G2 & I2). rewrite G2 in G. apply Ok_inj in G. injection G as <- <-.
  eexists. split; [apply exec_mov|]. split.
  - apply sim_upd_val. rewrite Ty, Hr. by rewrite uwrap_idem.
  - split; [by eapply inv_env_ok|done].
Qed.

Lemma gen_mov_not_const ts op d a r : linked s ts -> valid s d -> d <> a -> tcg_opt_gen_mov s ts op d a = Ok r -> is_const ts a = false.
Proof.
  intros L Vd Hd G. rewrite gen_mov_link in G. cbn zeta in G. ok_inv G. apply c_assert_Ok, negb_true_iff in Hx. unfold is_const in *.
  rewrite put_ne in Hx by congruence. destruct (reset_temp_keeps s ts d a L Vd ltac:(congruence)) as (_ & _ & Ks).
  apply bool_decide_eq_false in Hx. apply bool_decide_eq_false. intros Ec. destruct Ks as [Ks|[Ks _]]; congruence.
Qed.

Lemma mov_or_nop_refines ts e op i d a ts' j : inv s ts e -> valid s d -> valid s a -> temp_type s d = op_type op ->
  yields e i d (moves ts e op a) -> mov_or_nop s ts op d a = Ok (ts', j) -> refines e i ts' j.
Proof.
  intros I Vd Va Ty Y G. unfold mov_or_nop in G. destruct (temps_are_copies_spec s ts d a (proj1 I) Vd Va) as (c & Ec & Hc). rewrite Ec in G. cbn [res_bind] in G.
  destruct c; [apply Ok_inj in G; injection G as <- <-; by eapply nop_refines; [..|apply Hc|]|].
  assert (d <> a) as Hd by (intros ->; unfold temps_are_copies in Ec; by rewrite Z.eqb_refl in Ec).
  pose proof (gen_mov_not_const ts op d a _ (proj1 I) Vd Hd G). by eapply (mov_refines ts e op i d a).
Qed.

Lemma mov_const_refines ts e op i d a ts' j : inv s ts e -> valid s d -> valid s a -> temp_type s d = op_type op ->
  yields e i d (moves ts e op a) -> mov_const_or_nop s ts op d a = Ok (ts', j) -> refines e i ts' j.
Proof.
  intros I Vd Va Ty Y G. unfold mov_const_or_nop in G. destruct (temps_are_copies_spec s ts d a (proj1 I) Vd Va) as (c & Ec & Hc). rewrite Ec in G. cbn [res_bind] in G.
  destruct c; [apply Ok_inj in G; injection G as <- <-; by eapply nop_refines; [..|apply Hc|]|].
  assert (d <> a) as Hd by (intros ->; unfold temps_are_copies in Ec; by rewrite Z.eqb_refl in Ec).
  destruct (is_const ts a) eqn:Ek; cbn [negb] in G; [|by eapply (mov_refines ts e op i d a)].
  apply Ok_inj in G. destruct (const_read s ts e a I Va Ek) as (_ & Hw & _). pose proof (movi_refines ts e op i d (val (ts a)) I Vd Ty Hw) as R. rewrite G in R.
  apply R. intros w w1 e1 fl E. destruct (Y _ _ _ _ E) as (-> & -> & r & -> & _ & Hr). split; [done|]. split; [done|]. exists r. auto.
Qed.

(** Another operation with the same result. *)
Lemma unary_refines ts e i d j r' : inv s ts e -> valid s d -> (forall w, exec s w e j = Ok (w, upd e d r', Next)) -> in_word 64 r' ->
  yields e i d (fun r => uw (temp_type s d) r = uw (temp_type s d) r') -> refines e i (reset_temp ts d) j.
Proof.
  intros I Vd Ej Hw Y w w1 e1 fl E. destruct (Y _ _ _ _ E) as (-> & -> & r & -> & Hr). eexists. split; [apply Ej|].
  pose proof (reset_write_inv s ts e d r' I Vd Hw) as I1. split; [by apply sim_upd_val|]. split; [by eapply inv_env_ok|done].
Qed.

(** ** Simplifications of one operation *)

Lemma const_is_zero ts t v : const_is ts t v = true -> is_const ts t = true /\ val (ts t) = v.
Proof. unfold const_is. intros E. apply andb_prop in E as [E1 E2%Z.eqb_eq]. done. Qed.

(** The value of a constant operand. *)
Lemma const_operand ts e t ty v : inv s ts e -> valid s t -> temp_type s t = ty -> const_is ts t v = true -> uw ty (e t) = uw ty v.
Proof. intros I Ht <- Hc. apply const_is_zero in Hc as [Hc <-]. by destruct (const_read s ts e t I Ht Hc). Qed.

Lemma uw_all_ones ty : uw ty all_ones = Z.ones (bits ty).
Proof. by destruct ty. Qed.
Lemma uw_zero ty : uw ty 0 = 0.
Proof. by destruct ty. Qed.

Lemma try_not_refines ts e op ty i d a ts' j : op_type op = ty -> inv s ts e -> valid s d -> temp_type s d = ty -> try_not s ts op d a = Some (ts', j) ->
  yields e i d (fun r => uw ty r = uw ty (Z.lnot (e a))) -> refines e i ts' j.
Proof.
  intros Eo I Vd Td E Y. unfold try_not in E. assert ((if has_flag (tcg_op_defs op) TCG_OPF_64BIT then TCG_TYPE_I64 else TCG_TYPE_I32) = ty) as Et.
  { rewrite <- Eo. unfold op_type, op_bits. by destruct (has_flag _ _). }
  rewrite Et in E. destruct (TCG_TARGET_HAS_not s ty); [|discriminate E]. injection E as <- <-.
  apply (unary_refines _ _ _ _ _ (uw ty (Z.lnot (uw ty (e a))))); [done|done|reflexivity|apply in_word_uw|].
  intros w w1 e1 fl Ex. destruct (Y _ _ _ _ Ex) as (-> & -> & r & -> & Hr). split; [done|]. split; [done|]. exists r. split; [done|].
  rewrite Td, Hr. bits_of ty. bitwise.
Qed.

Ltac yield :=
  apply yields_eval; [reflexivity|reflexivity|]; intros ?vs ?Ev;
  cbv [oargs iargs cargs opc args tcg_op_defs nb_oargs nb_iargs nb_cargs take drop Nat.add] in *; cbn [fmap list_fmap eval on1 on2 on3 on4] in *;
  unfold rd in *; cbn [read_bits] in *; ok_inv Ev; words; eexists; (split; [reflexivity|]).

Lemma simplify_unary_refines ts e op l r : inv s ts e -> flag_ok op = true -> wf_instr s (mkI op l) -> simplify_unary s ts op l = Some r ->
  refines e (mkI op l) r.1 r.2.
Proof.
  intros I Hf Wi E. destruct op; try discriminate E; wf_shape Wi; cbn [simplify_unary] in E; pose proof (op_type_sig _ ty Hf eq_refl) as To; bits_of ty.
  all: repeat match type of E with (if ?b then _ else _) = _ => let B := fresh "B" in destruct b eqn:B; try discriminate E end.
  all: repeat match goal with B : _ && _ = true |- _ => apply andb_prop in B as [? B] end.
  all: match goal with B : const_is _ ?t ?v = true |- _ => pose proof (const_operand ts e t ty v I ltac:(done) ltac:(done) B) as Ek end.
  all: rewrite ?uw_zero, ?uw_all_ones in Ek.
  all: try (destruct r as [ts' j]; cbn [fst snd]; eapply try_not_refines; [exact To|exact I| | |exact E|]; [done|done|]; yield; rewrite Ek; bitwise; fail).
  all: try (injection E as <-; apply movi_refines; [done|done|congruence|done|]; rewrite To; yield; rewrite Ek; replace (sw ty 0) with 0 by (by destruct ty);
    rewrite ?Z.shiftl_0_l, ?Z.shiftr_0_l, ?Z.lor_0_l, ?uw_zero, ?uwrap_idem by lia; try reflexivity).
  - injection E as <-. eapply (unary_refines _ _ _ _ _ (uw ty (- uw ty (e z1)))); [done|done|reflexivity|apply in_word_uw|].
    yield. rewrite Ek. match goal with E : temp_type s z = ty |- _ => rewrite E end. by rewrite Z.sub_0_l.
Qed.

Lemma moves_typed ts e op t v : inv s ts e -> valid s t -> temp_type s t = op_type op -> uw (op_type op) v = uw (op_type op) (e t) -> moves ts e op t v.
Proof. intros I Vt Ty Hv. by apply (typed s). Qed.

Lemma simplify_mov_refines ts e op l ts' j : inv s ts e -> flag_ok op = true -> wf_instr s (mkI op l) -> simplify_mov s ts op l = Some (Ok (ts', j)) ->
  refines e (mkI op l) ts' j.
Proof.
  intros I Hf Wi E. unfold simplify_mov in E. destruct op; try discriminate E; wf_shape Wi; cbn [mov_const] in E; pose proof (op_type_sig _ ty Hf eq_refl) as To; bits_of ty.
  all: match type of E with (if ?b then _ else _) = _ => destruct b eqn:B; try discriminate E end; apply andb_prop in B as [_ B]; injection E as E.
  all: match type of B with const_is _ ?t ?v = true => pose proof (const_operand ts e t ty v I ltac:(done) ltac:(done) B) as Ek end.
  all: rewrite ?uw_zero, ?uw_all_ones in Ek.
  all: eapply mov_or_nop_refines; [exact I|..|exact E]; [done|done|congruence|]; yield; apply moves_typed; [done|done|congruence|]; rewrite To, Ek.
  all: rewrite ?Z.add_0_r, ?Z.sub_0_r, ?Z.shiftl_0_r, ?Z.shiftr_0_r, ?Z.lor_0_r, ?Z.lxor_0_r, ?uwrap_idem, ?swrap_uwrap, ?uwrap_swrap by lia; try reflexivity.
  all: try (bitwise; reflexivity).
  - bitwise. rewrite (Z.testbit_neg_r _ (i - bits ty)) by lia. apply orb_false_r.
  - bitwise. by destruct (Z.testbit (e z0) i).
Qed.

Lemma simplify_same_refines ts e op l ts' j : inv s ts e -> flag_ok op = true -> wf_instr s (mkI op l) -> simplify_same s ts op l = Ok (Some (ts', j)) ->
  refines e (mkI op l) ts' j.
Proof.
  intros I Hf Wi E. destruct op; try (unfold simplify_same in E; repeat (destruct l as [|? l]; try discriminate E); discriminate E);
    wf_shape Wi; cbn [simplify_same] in E; pose proof (op_type_sig _ ty Hf eq_refl) as To; bits_of ty.
  all: match type of E with (if const_is _ ?t 0 then _ else _) = _ => destruct (const_is ts t 0) eqn:B;
    [apply Ok_inj in E; injection E as <- <-; pose proof (const_operand ts e t ty 0 I ltac:(done) ltac:(done) B) as Ek; rewrite uw_zero in Ek;
     apply movi_refines; [done|done|congruence|done|]; rewrite To; yield; rewrite Ek;
     try (replace (sw ty 0) with 0 by (by destruct ty)); rewrite ?Z.land_0_r, ?Z.mul_0_r, ?Z.shiftr_0_l, ?uwrap_idem by lia; done|] | _ => idtac end.
  all: try discriminate E.
  all: destruct (temps_are_copies_spec s ts z0 z1 (proj1 I) ltac:(done) ltac:(done)) as (c & Ec & Hc); rewrite Ec in E; cbn [res_bind] in E;
    destruct c; try discriminate E; destruct (Hc eq_refl) as [(_ & _ & Eg) _]; specialize (Eg e I); unfold get in Eg;
    repeat match goal with E : temp_type _ _ = _ |- _ => rewrite E in Eg end.
  all: try (apply Ok_inj in E; injection E as <- <-; apply movi_refines; [done|done|congruence|done|]; rewrite To; yield; rewrite Eg;
    rewrite ?Z.sub_diag, ?Z.lxor_nilpotent, ?Z.land_lnot_diag, ?uwrap_idem by lia; done).
  all: apply bind_Ok in E as ([ts2 j2] & E & Er); apply Ok_inj in Er; injection Er as -> ->.
  all: eapply mov_or_nop_refines; [exact I|..|exact E]; [done|done|congruence|]; yield; apply moves_typed; [done|done|congruence|]; rewrite To, Eg;
    by rewrite ?Z.land_diag, ?Z.lor_diag, uwrap_idem by lia.
Qed.

(** ** Simplification by masks *)

Lemma known_zeros_typed ts op l m aff : flag_ok op = true -> wf_instr s (mkI op l) -> known_zeros ts op l = Ok (m, aff) -> nb_oargs (tcg_op_defs op) = 1%nat ->
  result_mask op m = 0 \/ aff = 0 -> computing op = true /\ valid s (nth 0 l 0) /\ temp_type s (nth 0 l 0) = op_type op /\ valid s (nth 1 l 0).
Proof.
  intros Hf Wi K H1 Z0. destruct op; try discriminate H1;
    try (cbn [known_zeros] in K; injection K as <- <-; exfalso; repeat match goal with ty : TCGType |- _ => destruct ty end; destruct Z0; discriminate);
    (wf_shape Wi; cbn [known_zeros nth] in * ); try (split; [reflexivity|]; split; [done|]; rewrite (op_type_sig _ _ Hf eq_refl); done).
  all: exfalso; injection K as <- <-; try (repeat match goal with ty : TCGType |- _ => destruct ty end; destruct Z0; discriminate).
  destruct Z0 as [Z0|]; [|discriminate]. assert (result_mask (INDEX_op_qemu_ld ty) all_ones <> 0) by (by destruct ty).
  destruct (Z.eqb_spec (Z.land z1 MO_SIGN) 0) as [E0|]; [|done]. rewrite memop_mask in Z0 by done. unfold result_mask in Z0.
  replace (_ =? 0) with false in Z0 by (by destruct ty). pose proof (memop_bits_range z1). unfold memop_bits in *.
  assert (0 < 2 ^ Z.land z1 MO_SIZE) by (apply pow2_pos; apply Z.land_nonneg; right; done). rewrite Z.ones_equiv in Z0.
  assert (2 ^ 1 <= 2 ^ (8 * 2 ^ Z.land z1 MO_SIZE)) by (apply Z.pow_le_mono_r; lia). lia.
Qed.

Lemma simplify_mask_refines ts e op l m aff ts' j : inv s ts e -> flag_ok op = true -> wf_instr s (mkI op l) -> known_zeros ts op l = Ok (m, aff) ->
  simplify_mask s ts op l (result_mask op m) aff = Ok (Some (ts', j)) -> refines e (mkI op l) ts' j.
Proof.
  intros I Hf Wi K E. unfold simplify_mask in E.
  destruct (Z.eqb_spec (result_mask op m) 0) as [Em|Nm]; [|destruct (Z.eqb_spec aff 0) as [->|]; [|discriminate E]];
    apply bind_Ok in E as (u & H1%c_assert_Ok%Nat.eqb_eq & E); destruct (known_zeros_typed ts op l m _ Hf Wi K H1 ltac:(auto)) as (Hc & Vd & Td & Va).
  - apply Ok_inj in E. injection E as <- <-. apply movi_refines; [done|done|done|done|]. intros w w1 e1 fl E.
    pose proof (exec_result s w e (mkI op l) w1 e1 fl Hc E) as (_ & _ & _ & -> & ->). split; [done|]. split; [done|].
    destruct (one_output s w e (mkI op l) w e1 ltac:(cbn; by intros ->) Hf Wi H1 E) as (v & Ev & Fv). exists v. split; [done|].
    assert (covers (result_mask op m) v) as Cv.
    { apply covers_result; [|done]. pose proof (known_zeros_covers s ts w e op l m aff w e1 I Hf Wi K H1 E) as C. by rewrite Ev, upd_eq in C. }
    rewrite Em in Cv. apply covers_zero in Cv as ->; [done|]. apply fits_word in Fv. unfold in_word in Fv. lia.
  - apply bind_Ok in E as ([ts2 j2] & E & Er). apply Ok_inj in Er. injection Er as -> ->.
    eapply mov_const_refines; [exact I|..|exact E]; [done..|]. intros w w1 e1 fl Ex. pose proof (exec_result s w e (mkI op l) w1 e1 fl Hc Ex) as (_ & _ & _ & -> & ->). split; [done|]. split; [done|].
    destruct (affects_nothing s ts w e op l m w e1 I Hf Wi K Ex) as (_ & _ & _ & E1 & M1 & M2). exists (e1 (nth 0 l 0)). done.
Qed.

(** ** Operations that stay *)

Lemma resets_inv outs : forall ts e vs, inv s ts e -> Forall (valid s) outs -> Forall (in_word 64) vs -> inv s (reset_outputs ts outs) (upds e outs vs).
Proof.
  induction outs as [|d outs IH]; intros ts e vs I Fo Fv; [done|]. apply List.Forall_cons_iff in Fo as [Vd Fo].
  destruct Fv as [|v vs Hv Fv]; cbn [reset_outputs upds].
  - specialize (IH (reset_temp ts d) e [] (reset_temp_inv s ts e d I Vd) Fo ltac:(constructor)). by destruct outs.
  - apply IH; [by apply reset_write_inv|done|done].
Qed.

Lemma upds_env_ok outs : forall e vs, env_ok s e -> Forall (in_word 64) vs -> env_ok s (upds e outs vs).
Proof.
  induction outs as [|d outs IH]; intros e vs O F; [done|]. destruct F as [|v vs Hv F]; [done|]. cbn [upds]. apply IH; [|done].
  intros t Ht. unfold upd. destruct (t =? d); [done|by apply O].
Qed.

(** The first output is covered by the mask. *)
Lemma first_covered ts w e op l m aff w1 d outs v vs : inv s ts e -> op <> INDEX_op_call -> flag_ok op = true -> wf_instr s (mkI op l) ->
  known_zeros ts op l = Ok (m, aff) -> oargs (mkI op l) = d :: outs -> outputs_fit op (v :: vs) ->
  exec s w e (mkI op l) = Ok (w1, upds e (d :: outs) (v :: vs), Next) -> covers (result_mask op m) v.
Proof.
  intros I Nc Hf Wi K Ho [Lv Fv] E. apply List.Forall_cons_iff in Fv as [Hv _]. apply covers_result; [|done].
  destruct (decide (nb_oargs (tcg_op_defs op) = 1%nat)) as [H1|H2].
  - pose proof (known_zeros_covers s ts w e op l m aff _ _ I Hf Wi K H1 E) as C. unfold oargs in Ho. cbn [opc args] in Ho. rewrite H1 in Ho.
    destruct l as [|d' l]; [discriminate Ho|]. cbn [take] in Ho. injection Ho as -> <-. rewrite take_0 in C. cbn [upds nth] in C. by rewrite upd_eq in C.
  - assert (m = all_ones) as ->; [|by eapply covers_all, fits_word]. destruct op; try done; cbn [known_zeros] in K; by injection K as <- <-.
Qed.

Lemma default_refines ts e op l m aff ts' out : inv s ts e -> op <> INDEX_op_call -> flag_ok op = true -> wf_instr s (mkI op l) ->
  known_zeros ts op l = Ok (m, aff) -> do_default s ts (mkI op l) (result_mask op m) = (ts', out) -> out = One (mkI op l) /\ refines e (mkI op l) ts' (mkI op l).
Proof.
  intros I Nc Hf Wi K D. unfold do_default in D. injection D as <- <-. split; [done|]. intros w w1 e1 fl E. exists e1. split; [done|]. split; [apply sim_refl|].
  pose proof (exec_outputs s w e (mkI op l) _ _ _ Nc Hf E) as X. cbn [opc] in X. destruct (wf_data s (mkI op l) Nc Wi) as (Fo & _). apply has_types_valid in Fo.
  pose proof (inv_env_ok s _ _ I) as O. destruct fl; try (subst e1; split; [done|discriminate]). destruct X as (vs & -> & Fv).
  assert (Forall (in_word 64) vs) as Fw by (destruct Fv as [_ Fv]; eapply List.Forall_impl; [apply fits_word|exact Fv]).
  split; [by apply upds_env_ok|]. intros _. cbn [opc]. destruct (has_flag _ _); [by apply reset_all_inv, upds_env_ok|].
  destruct (oargs (mkI op l)) as [|d outs] eqn:Ho; [done|]. apply List.Forall_cons_iff in Fo as [Vd Fo]. destruct vs as [|v vs].
  { exfalso. destruct Fv as [Lv _]. destruct (wf_data s (mkI op l) Nc Wi) as (F2 & _). rewrite Ho in F2. inversion F2 as [|? ? ? ? ? ? E1 E2]. cbn [opc] in E2. by rewrite <- E2 in Lv. }
  pose proof (first_covered ts w e op l m aff w1 d outs v vs I Nc Hf Wi K Ho Fv E) as Cv. cbn [upds]. apply List.Forall_cons_iff in Fw as [Hv Fw].
  apply resets_inv; [|done|done]. apply masked_inv; try done. unfold result_mask.
  destruct (known_zeros_word s ts op l m aff (proj1 I) Wi K) as [Mw _]. destruct (_ =? 0); [by apply in_word_land|done].
Qed.

(** Calls. *)
Lemma call_refines ts e l ts' out : wf_context s -> inv s ts e -> wf_instr s (mkI INDEX_op_call l) -> opt_call s ts (mkI INDEX_op_call l) = (ts', out) ->
  out = One (mkI INDEX_op_call l) /\ refines e (mkI INDEX_op_call l) ts' (mkI INDEX_op_call l).
Proof.
  intros C I (Fo & _ & _) D. unfold opt_call in D. cbn [args] in *. apply pair_eq in D as [<- <-]. split; [done|]. intros w w1 e1 fl E.
  exists e1. split; [done|]. split; [apply sim_refl|]. apply Ok_inj in E. unfold exec_call in E. cbn [args] in E. pose proof (inv_env_ok s _ _ I) as O.
  destruct (w_helper _ _ _ _) as [w2 [[outs gs]|]]; apply pair_eq in E as [[<- <-]%pair_eq <-]; [|split; [done|discriminate]].
  set (fl := c_flags (decode_call l)) in *. set (e1 := if writes_globals fl then upds e (globals s) (u64 <$> gs) else e).
  assert (env_ok s e1) as O1 by (unfold e1; destruct (writes_globals fl); [apply upds_env_ok, u64_words; done|done]).
  split; [apply upds_env_ok, returned_words; done|]. intros _. apply resets_inv; [|done|apply returned_words]. unfold e1.
  pose proof (writes_clobbers (mkI INDEX_op_call l) eq_refl) as Wc. unfold clobbers in Wc. cbn [opc args] in Wc. fold fl in Wc. destruct (writes_globals fl).
  - rewrite Wc by done. apply resets_inv; [done|by apply globals_valid|apply u64_words].
  - destruct (_ =? 0); [|done]. pose proof (resets_inv (globals s) ts e [] I (globals_valid s C) ltac:(constructor)) as R.
    assert (forall ds, upds e ds [] = e) as U by (by intros []). rewrite U in R. exact R.
Qed.
End Step.
