(* ===== verification/TcgPropagate.v ===== *)
(** * The last stage of the loop body

    Copies, constants and comparisons whose result is known. *)

From stdpp Require Import base list numbers.
From S2P Require Import Prelude HostUtils Bitops MemRegion Tcg TcgOptimize TcgFacts TcgCopies TcgKnown TcgStep.

Section Propagate.
Context {W : Type} `{TcgWorld W} (s : TCGContext).
Implicit Types (ts : tinfo) (e : env).

(** ** Comparisons *)

Lemma op_bits_type op : op_bits op = bits (op_type op).
Proof. unfold op_type, op_bits. by destruct (has_flag _ _). Qed.

Lemma const_typed ts e t ty : inv s ts e -> valid s t -> temp_type s t = ty -> is_const ts t = true -> uw ty (e t) = uw ty (val (ts t)).
Proof. intros I Vt <- Hc. by destruct (const_read s ts e t I Vt Hc). Qed.

Lemma copies_typed ts e a b ty : inv s ts e -> valid s a -> valid s b -> temp_type s a = ty -> temp_type s b = ty ->
  temps_are_copies s ts a b = Ok true -> uw ty (e b) = uw ty (e a).
Proof.
  intros I Va Vb Ta Tb Ec. destruct (temps_are_copies_spec s ts a b (proj1 I) Va Vb) as (r & Er & Hr). rewrite Ec in Er. apply Ok_inj in Er. subst r.
  destruct (Hr eq_refl) as [(_ & _ & G) _]. specialize (G e I). unfold get in G. by rewrite Ta, Tb in G.
Qed.

Lemma cond_sound ts e op ty a b c t : inv s ts e -> valid s a -> valid s b -> temp_type s a = ty -> temp_type s b = ty -> op_type op = ty ->
  do_constant_folding_cond s ts op a b c = Ok (Some t) -> tci_compare (bits ty) (uw ty (e a)) (uw ty (e b)) c = Ok t.
Proof.
  intros I Va Vb Ta Tb To E. unfold do_constant_folding_cond in E. destruct (is_const ts a && is_const ts b) eqn:B.
  { apply andb_prop in B as [Ba Bb]. rewrite (const_typed ts e a ty), (const_typed ts e b ty) by done. ok_inv E. subst t.
    by rewrite cond_w_compare, op_bits_type, To in Hx. }
  apply bind_Ok in E as (cp & Ec & E). destruct cp.
  { ok_inv E. subst t. rewrite (copies_typed ts e a b ty) by done. by apply compare_same. }
  destruct (const_is ts b 0) eqn:B0; [|discriminate E]. apply Ok_inj in E. rewrite (const_operand s ts e b ty 0), uw_zero by done.
  apply compare_zero; [|done]. by apply uwrap_range.
Qed.

Lemma pair_lor l h : in_word 32 l -> Z.lor (Z.shiftl h 32) l = pair_val TCG_TYPE_I32 l h.
Proof. intros Hl. apply lor_concat; [lia|exact Hl]. Qed.

Lemma cond2_pair ts l h : cond2_val ts l h = pair_val TCG_TYPE_I32 (u32 (val (ts l))) (u32 (val (ts h))).
Proof.
  unfold cond2_val. rewrite <- pair_lor by (apply in_word_uwrap; lia). f_equal. zbits.
  destruct (Z.ltb_spec i 32); [rewrite !(Z.testbit_neg_r _ (i - 32)) by lia; apply andb_false_r|]. rewrite uwrap_testbit by lia.
  destruct (Z.ltb_spec i 64), (Z.ltb_spec (i - 32) 32); try lia; done.
Qed.

Lemma pair_const l h : Z.lor (u64 (Z.shiftl (u32 h) 32)) (u32 l) = pair_val TCG_TYPE_I32 (u32 l) (u32 h).
Proof.
  rewrite in_word_id; [apply pair_lor; apply in_word_uwrap; lia|]. rewrite Z.shiftl_mul_pow2 by lia. pose proof (uwrap_range 32 h ltac:(lia)). unfold in_word. lia.
Qed.

Lemma pair_range l h : in_word 32 l -> in_word 32 h -> in_word 64 (pair_val TCG_TYPE_I32 l h).
Proof. unfold in_word, pair_val. cbn [bits]. lia. Qed.

Section Pair.
Context (ts : tinfo) (e : env) (I : inv s ts e) (al ah bl bh : Z)
  (T : Forall (fun t => valid s t /\ temp_type s t = TCG_TYPE_I32) [al; ah; bl; bh]).

Lemma const_pair l h : valid s l /\ temp_type s l = TCG_TYPE_I32 -> valid s h /\ temp_type s h = TCG_TYPE_I32 -> is_const ts l = true -> is_const ts h = true ->
  pair_val TCG_TYPE_I32 (u32 (e l)) (u32 (e h)) = cond2_val ts l h.
Proof.
  intros [Vl Tl] [Vh Th] Cl Ch. rewrite cond2_pair. f_equal; [exact (const_typed ts e l TCG_TYPE_I32 I Vl Tl Cl)|exact (const_typed ts e h TCG_TYPE_I32 I Vh Th Ch)].
Qed.

Lemma copies_pair c t :
  (let* c1 := temps_are_copies s ts al bl in if negb c1 then Ok None else
   let* c2 := temps_are_copies s ts ah bh in if negb c2 then Ok None else
   let* r := do_constant_folding_cond_eq c in Ok (Some r)) = Ok (Some t) ->
  tci_compare 64 (pair_val TCG_TYPE_I32 (u32 (e al)) (u32 (e ah))) (pair_val TCG_TYPE_I32 (u32 (e bl)) (u32 (e bh))) c = Ok t.
Proof.
  pose proof T as T0. repeat match type of T0 with Forall _ (_ :: _) => apply List.Forall_cons_iff in T0 as [[? ?] T0] end. intros E.
  apply bind_Ok in E as (c1 & E1 & E). destruct c1; [|discriminate E]. apply bind_Ok in E as (c2 & E2 & E). destruct c2; [|discriminate E]. ok_inv E. subst t.
  assert (u32 (e bl) = u32 (e al)) as -> by (by apply (copies_typed ts e al bl TCG_TYPE_I32)).
  assert (u32 (e bh) = u32 (e ah)) as -> by (by apply (copies_typed ts e ah bh TCG_TYPE_I32)). by apply compare_same.
Qed.

Lemma cond2_sound c t : do_constant_folding_cond2 s ts al ah bl bh c = Ok (Some t) ->
  tci_compare 64 (pair_val TCG_TYPE_I32 (u32 (e al)) (u32 (e ah))) (pair_val TCG_TYPE_I32 (u32 (e bl)) (u32 (e bh))) c = Ok t.
Proof.
  pose proof T as T0. repeat match type of T0 with Forall _ (_ :: _) => apply List.Forall_cons_iff in T0 as [? T0] end. intros E.
  unfold do_constant_folding_cond2 in E. destruct (is_const ts bl && is_const ts bh) eqn:B; cbn [andb] in E.
  - apply andb_prop in B as [Bl Bh]. destruct (is_const ts al && is_const ts ah) eqn:A.
    { apply andb_prop in A as [Al Ah]. rewrite (const_pair al ah), (const_pair bl bh) by done. ok_inv E. subst t. rewrite cond_w_compare in Hx.
      by rewrite !in_word_id in Hx by (rewrite cond2_pair; apply pair_range; apply in_word_uwrap; lia). }
    destruct ((cond2_val ts bl bh =? 0) && bool_decide (is_Some (cond_zero c))) eqn:Z0.
    { apply andb_prop in Z0 as [Z0%Z.eqb_eq _]. apply Ok_inj in E. rewrite (const_pair bl bh), Z0 by done. apply compare_zero; [|done].
      apply pair_range; apply in_word_uwrap; lia. }
    by apply copies_pair.
  - by apply copies_pair.
Qed.

(** Comparison of the sign with zero. *)
Lemma sign_test_sound c : sign_test ts bl bh c = true ->
  tci_compare 64 (pair_val TCG_TYPE_I32 (u32 (e al)) (u32 (e ah))) (pair_val TCG_TYPE_I32 (u32 (e bl)) (u32 (e bh))) c = tci_compare 32 (u32 (e ah)) (u32 (e bh)) c.
Proof.
  pose proof T as T0. repeat match type of T0 with Forall _ (_ :: _) => apply List.Forall_cons_iff in T0 as [[? ?] T0] end. unfold sign_test. rewrite !andb_true_iff, orb_true_iff, !Z.eqb_eq.
  intros [[Hc Hl] Hh]. assert (u32 (e bl) = 0) as -> by (by apply (const_operand s ts e bl TCG_TYPE_I32 0)).
  assert (u32 (e bh) = 0) as -> by (by apply (const_operand s ts e bh TCG_TYPE_I32 0)).
  apply compare_high; [apply in_word_uwrap; lia..|done].
Qed.
End Pair.

(** ** Outcomes *)

(** What replaces [i] does what [i] and the [nop] after it do. *)
Definition out_refines e (i : instr) ts' (out : emitted) : Prop :=
  match out with
  | One j => refines s e i ts' j
  | Two j1 j2 => forall w w1 e1 fl, exec s w e i = Ok (w1, e1, fl) ->
      w1 = w /\ fl = Next /\ exists e1' e2', exec s w e j1 = Ok (w, e1', Next) /\ exec s w e1' j2 = Ok (w, e2', Next) /\ sim s e1 e2' /\ inv s ts' e2'
  end.

Lemma known_branch_refines ts e i cmp c lab t : inv s ts e -> (forall w, exec s w e i = exec_branch w e cmp [c; lab]) -> cmp c = Ok t ->
  out_refines e i (known_branch s ts t lab).1 (known_branch s ts t lab).2.
Proof.
  intros I Ei Ec. pose proof (inv_env_ok s _ _ I). destruct t; intros w w1 e1 fl E; rewrite Ei in E; unfold exec_branch in E; rewrite Ec in E; cbn [res_bind] in E;
    apply Ok_inj in E; injection E as <- <- <-; exists e; (split; [reflexivity|]; split; [apply sim_refl|]; done).
Qed.

(** Another branch with the same condition. *)
Lemma branch_refines ts e i j cmp cmp' c lab : inv s ts e -> (forall w, exec s w e i = exec_branch w e cmp [c; lab]) ->
  (forall w, exec s w e j = exec_branch w e cmp' [c; lab]) -> cmp c = cmp' c -> refines s e i (reset_all_temps (nb_temps s) ts) j.
Proof.
  intros I Ei Ej Ec w w1 e1 fl E. pose proof (inv_env_ok s _ _ I). rewrite Ei in E. rewrite Ej. unfold exec_branch in *. rewrite <- Ec.
  destruct (cmp c) as [t|]; [|discriminate E]. cbn [res_bind] in *. apply Ok_inj in E. injection E as <- <- <-. exists e. split; [done|]. split; [apply sim_refl|].
  split; [done|]. intros _. by apply reset_all_inv.
Qed.

Lemma op_type_add32 : op_type (INDEX_op_add TCG_TYPE_I32) = TCG_TYPE_I32.
Proof. reflexivity. Qed.

Lemma movi2_refines ts e i rl rh v : inv s ts e -> valid s rl -> valid s rh -> temp_type s rl = TCG_TYPE_I32 -> temp_type s rh = TCG_TYPE_I32 ->
  (forall w w1 e1 fl, exec s w e i = Ok (w1, e1, fl) -> w1 = w /\ fl = Next /\ e1 = upds e [rl; rh] (split_val TCG_TYPE_I32 v)) ->
  out_refines e i (gen_movi2 ts rl rh (u64 v)).1 (gen_movi2 ts rl rh (u64 v)).2.
Proof.
  intros I Vl Vh Tl Th Y. assert (u32 (u64 v) = u32 v) as E1 by (apply uwrap_uwrap; lia).
  assert (u32 (Z.shiftr (u64 v) 32) = u32 (Z.shiftr v 32)) as E2 by (zbits; destruct (Z.ltb_spec i0 32), (Z.ltb_spec (i0 + 32) 64); done || lia).
  unfold gen_movi2. rewrite E1, E2. cbn [tcg_opt_gen_movi fst snd out_refines]. intros w w1 e1 fl E. destruct (Y _ _ _ _ E) as (-> & -> & ->).
  split; [done|]. split; [done|].
  pose proof (gen_movi_inv s ts e (INDEX_op_add TCG_TYPE_I32) rl (u32 v) I Vl (in_word_uw TCG_TYPE_I32 v) Tl) as I1.
  pose proof (gen_movi_inv s _ _ (INDEX_op_add TCG_TYPE_I32) rh (u32 (Z.shiftr v 32)) I1 Vh (in_word_uw TCG_TYPE_I32 _) Th) as I2.
  eexists _, _. split; [reflexivity|]. split; [reflexivity|]. split; [|exact I2]. unfold split_val. cbn [upds bits].
  apply sim_upd; [apply sim_upd; [apply sim_refl|]|]; rewrite ?Tl, ?Th; cbn [bits]; by rewrite op_type_add32, !uwrap_idem by (cbn; lia).
Qed.

(** ** The cases *)

Ltac yield :=
  apply yields_eval; [reflexivity|reflexivity|]; intros ?vs ?Ev;
  cbv [oargs iargs cargs opc args tcg_op_defs nb_oargs nb_iargs nb_cargs take drop Nat.add] in *; cbn [fmap list_fmap eval on1 on2 on3 on4] in *;
  unfold rd in *; cbn [read_bits] in *; ok_inv Ev; words; try (eexists; (split; [reflexivity|])).

Section Cases.
Context (ts : tinfo) (e : env) (I : inv s ts e).

Lemma mov_case ty l m ts' out : wf_instr s (mkI (INDEX_op_mov ty) l) -> propagate s ts (mkI (INDEX_op_mov ty) l) m = Ok (ts', out) ->
  out_refines e (mkI (INDEX_op_mov ty) l) ts' out.
Proof.
  intros Wi E. assert (op_type (INDEX_op_mov ty) = ty) as To by (by destruct ty). assert (exists d a, l = [d; a] /\ valid s d /\ valid s a /\ temp_type s d = ty /\ bits ty <= bits (temp_type s a)) as (d & a & -> & Vd & Va & Td & Ta).
  { destruct ty; wf_shape Wi; eexists _, _; (split; [reflexivity|]); (split; [done|]); (split; [done|]); (split; [done|]); [destruct (temp_type s z0); cbn; lia|].
    match goal with E : temp_type s z0 = _ |- _ => rewrite E end. done. }
  clear Wi. cbn [propagate opc args] in E. apply bind_Ok in E as ([ts2 j] & E & Er). apply Ok_inj in Er. injection Er as <- <-. cbn [fst snd out_refines].
  eapply (mov_const_refines s); [exact I|..|exact E]; [done|done|congruence|]. yield. unfold moves. rewrite To, uwrap_idem by done. split; [done|].
  intros Hc. destruct (const_read s ts e a I Va Hc) as (Er & _ & _). apply (uwrap_of_eq _ (bits (temp_type s a))); [|done]. by destruct (bits_pos ty).
Qed.

Lemma movi_case ty l m ts' out : wf_instr s (mkI (INDEX_op_movi ty) l) -> propagate s ts (mkI (INDEX_op_movi ty) l) m = Ok (ts', out) ->
  out_refines e (mkI (INDEX_op_movi ty) l) ts' out.
Proof.
  intros Wi E. assert (op_type (INDEX_op_movi ty) = ty) as To by (by destruct ty). wf_shape Wi. cbn [propagate opc args] in E. apply Ok_inj in E. injection E as <- <-.
  apply (movi_refines s); [done|done|congruence|done|]. rewrite To. yield. by rewrite uwrap_idem.
Qed.

Lemma truth_word t : in_word 64 (truth t).
Proof. by apply in_word_truth. Qed.

Lemma setcond_case ty l m ts' out : wf_instr s (mkI (INDEX_op_setcond ty) l) -> propagate s ts (mkI (INDEX_op_setcond ty) l) m = Ok (ts', out) ->
  (ts', out) = do_default s ts (mkI (INDEX_op_setcond ty) l) m \/ out_refines e (mkI (INDEX_op_setcond ty) l) ts' out.
Proof.
  intros Wi E. assert (op_type (INDEX_op_setcond ty) = ty) as To by (by destruct ty). wf_shape Wi. cbn [propagate opc args] in E.
  apply bind_Ok in E as (r & Ec & E). apply Ok_inj in E. destruct r as [t|]; [right|by left]. injection E as <- <-.
  apply (movi_refines s); [done|done|congruence|apply (truth_word t)|]. rewrite To. eapply (cond_sound ts e _ ty) in Ec; [|done..]. yield.
  rewrite Ec in Hx. injection Hx as <-. done.
Qed.

Lemma brcond_case ty l m ts' out : wf_instr s (mkI (INDEX_op_brcond ty) l) -> propagate s ts (mkI (INDEX_op_brcond ty) l) m = Ok (ts', out) ->
  (ts', out) = do_default s ts (mkI (INDEX_op_brcond ty) l) m \/ out_refines e (mkI (INDEX_op_brcond ty) l) ts' out.
Proof.
  intros Wi E. assert (op_type (INDEX_op_brcond ty) = ty) as To by (by destruct ty). wf_shape Wi. cbn [propagate opc args] in E.
  apply bind_Ok in E as (r & Ec & E). apply Ok_inj in E. destruct r as [t|]; [right|by left]. pose proof (f_equal fst E) as E1. pose proof (f_equal snd E) as E2. cbn [fst snd] in E1, E2. subst ts' out.
  eapply known_branch_refines; [exact I|reflexivity|]. by apply (cond_sound ts e (INDEX_op_brcond ty)).
Qed.

Lemma movcond_case ty l m ts' out : wf_instr s (mkI (INDEX_op_movcond ty) l) -> propagate s ts (mkI (INDEX_op_movcond ty) l) m = Ok (ts', out) ->
  (ts', out) = do_default s ts (mkI (INDEX_op_movcond ty) l) m \/ out_refines e (mkI (INDEX_op_movcond ty) l) ts' out.
Proof.
  intros Wi E. assert (op_type (INDEX_op_movcond ty) = ty) as To by (by destruct ty). wf_shape Wi. cbn [propagate opc args] in E.
  apply bind_Ok in E as (r & Ec & E). destruct r as [t|]; [right|left; by apply Ok_inj in E].
  apply bind_Ok in E as ([ts2 j] & E & Er). apply Ok_inj in Er. injection Er as <- <-. cbn [fst snd out_refines].
  eapply (cond_sound ts e _ ty) in Ec; [|done..].
  eapply (mov_const_refines s); [exact I|..|exact E]; [done|by destruct t|congruence|]. yield. rewrite Ec in Hx. injection Hx as <-.
  apply (moves_typed s); [done|by destruct t|destruct t; congruence|]. rewrite To. by destruct t; rewrite uwrap_idem.
Qed.

Lemma deposit_fold ty x y pos len : 0 <= pos -> 0 < len < 64 -> pos + len <= bits ty ->
  uw ty (deposit (bits ty) (uw ty x) (uw ty y) pos len) =
  uw ty (Z.lor (Z.land x (u64 (Z.lnot (u64 (Z.shiftl (Z.shiftl 1 len - 1) pos))))) (u64 (Z.shiftl (Z.land y (Z.shiftl 1 len - 1)) pos))).
Proof.
  intros Hp Hl Hb. bits_of ty. replace (Z.shiftl 1 len - 1) with (Z.ones len) by (rewrite Z.ones_equiv, Z.shiftl_mul_pow2 by lia; lia).
  unfold deposit. zbits. destruct (Z.ltb_spec i (bits ty)); [|done]. destruct (Z.ltb_spec i 64); [|lia]. cbn [andb]. autorewrite with zbits; try lia.
  rewrite !(uwrap_testbit 64 _ i) by lia. autorewrite with zbits; try lia.
  destruct (Z.ltb_spec i 64); [|lia]. cbn [andb]. destruct (Z.ltb_spec (i - pos) 0).
  - rewrite !(Z.testbit_neg_r _ (i - pos)) by lia. by rewrite !andb_false_r, !orb_false_r.
  - f_equal. rewrite uwrap_testbit by lia. by destruct (Z.ltb_spec (i - pos) (bits ty)); [|lia].
Qed.

Lemma deposit_case ty l m ts' out : wf_instr s (mkI (INDEX_op_deposit ty) l) -> propagate s ts (mkI (INDEX_op_deposit ty) l) m = Ok (ts', out) ->
  (ts', out) = do_default s ts (mkI (INDEX_op_deposit ty) l) m \/ out_refines e (mkI (INDEX_op_deposit ty) l) ts' out.
Proof.
  intros Wi E. assert (op_type (INDEX_op_deposit ty) = ty) as To by (by destruct ty). wf_shape Wi. cbn [propagate opc args] in E.
  destruct (is_const ts z0 && is_const ts z1) eqn:B; [|left; by apply Ok_inj in E]. right. apply andb_prop in B as [Ba Bb].
  apply bind_Ok in E as (? & _ & E). apply bind_Ok in E as (? & _ & E). apply Ok_inj in E. injection E as <- <-. destruct C as (? & ? & ?).
  destruct (const_read s ts e z0 I ltac:(done) Ba) as (_ & Wa & _).
  apply (movi_refines s); [done|done|congruence|apply in_word_lor; auto with words|]. rewrite To. yield.
  rewrite (const_typed ts e z0 ty), (const_typed ts e z1 ty) by done. by apply deposit_fold.
Qed.

Lemma double_case op l m ts' out : op = INDEX_op_add2 TCG_TYPE_I32 \/ op = INDEX_op_sub2 TCG_TYPE_I32 \/ op = INDEX_op_mulu2 TCG_TYPE_I32 ->
  wf_instr s (mkI op l) -> propagate s ts (mkI op l) m = Ok (ts', out) ->
  (ts', out) = do_default s ts (mkI op l) m \/ out_refines e (mkI op l) ts' out.
Proof.
  intros Ho Wi E. destruct Ho as [->|[->| ->]]; wf_shape Wi; cbn [propagate opc args] in E;
    match type of E with (if ?b then _ else _) = _ => destruct b eqn:B; [right|left; by apply Ok_inj in E] end;
    repeat match goal with B : _ && _ = true |- _ => apply andb_prop in B as [B ?] end.
  all: apply Ok_inj in E; pose proof (f_equal fst E) as E1; pose proof (f_equal snd E) as E2; cbn [fst snd] in E1, E2; subst ts' out.
  all: rewrite ?bool_decide_true, ?bool_decide_false by done. all: apply movi2_refines; [done..|].
  all: intros w w1 e1 fl Ex; apply exec_result in Ex as (vs & Ev & -> & -> & ->); [|reflexivity]; split; [done|]; split; [done|].
  all: cbv [oargs iargs cargs opc args tcg_op_defs nb_oargs nb_iargs nb_cargs take drop Nat.add] in *; cbn [fmap list_fmap eval on1 on2 on3 on4] in *;
    unfold rd in *; cbn [read_bits] in *; ok_inv Ev; f_equal.
  all: repeat match goal with B : is_const _ ?t = true |- _ => pose proof (const_typed ts e t TCG_TYPE_I32 I ltac:(done) ltac:(done) B) as ->; clear B end.
  all: by rewrite ?pair_const.
Qed.

Lemma pair_T al ah bl bh : valid s al -> valid s ah -> valid s bl -> valid s bh -> temp_type s al = TCG_TYPE_I32 -> temp_type s ah = TCG_TYPE_I32 ->
  temp_type s bl = TCG_TYPE_I32 -> temp_type s bh = TCG_TYPE_I32 -> Forall (fun t => valid s t /\ temp_type s t = TCG_TYPE_I32) [al; ah; bl; bh].
Proof. intros. repeat (apply List.Forall_cons; [done|]). apply List.Forall_nil. Qed.

Lemma brcond2_case l m ts' out : wf_instr s (mkI INDEX_op_brcond2_i32 l) -> propagate s ts (mkI INDEX_op_brcond2_i32 l) m = Ok (ts', out) ->
  (ts', out) = do_default s ts (mkI INDEX_op_brcond2_i32 l) m \/ out_refines e (mkI INDEX_op_brcond2_i32 l) ts' out.
Proof.
  intros Wi E. wf_shape Wi. cbn [propagate opc args] in E. apply bind_Ok in E as (r & Ec & E). apply Ok_inj in E.
  assert (Forall (fun t => valid s t /\ temp_type s t = TCG_TYPE_I32) [z; z0; z1; z2]) as T by (by apply pair_T). destruct r as [t|].
  - right. pose proof (f_equal fst E) as E1. pose proof (f_equal snd E) as E2. cbn [fst snd] in E1, E2. subst ts' out.
    eapply known_branch_refines; [exact I|reflexivity|]. by apply (cond2_sound ts).
  - destruct (sign_test ts z1 z2 z3) eqn:St; [right|by left]. injection E as <- <-. cbn [out_refines].
    eapply branch_refines; [exact I|reflexivity|reflexivity|]. by apply (sign_test_sound ts).
Qed.

Lemma setcond2_case l m ts' out : wf_instr s (mkI INDEX_op_setcond2_i32 l) -> propagate s ts (mkI INDEX_op_setcond2_i32 l) m = Ok (ts', out) ->
  (ts', out) = do_default s ts (mkI INDEX_op_setcond2_i32 l) m \/ out_refines e (mkI INDEX_op_setcond2_i32 l) ts' out.
Proof.
  intros Wi E. wf_shape Wi. cbn [propagate opc args] in E. apply bind_Ok in E as (r & Ec & E). apply Ok_inj in E.
  assert (Forall (fun t => valid s t /\ temp_type s t = TCG_TYPE_I32) [z0; z1; z2; z3]) as T by (by apply pair_T). destruct r as [t|].
  - right. injection E as <- <-. apply (movi_refines s); [done|done|done|apply (truth_word t)|]. apply (cond2_sound ts e I z0 z1 z2 z3 T) in Ec. yield.
    rewrite Ec in Hx. by injection Hx as <-.
  - destruct (sign_test ts z2 z3 z4) eqn:St; [right|by left]. injection E as <- <-. cbn [out_refines].
    pose proof (sign_test_sound ts e I z0 z1 z2 z3 T z4 St) as Es. destruct (compare_total 32 (u32 (e z1)) (u32 (e z3)) z4 C) as [t Et].
    apply (unary_refines s _ _ _ _ _ (truth t)); [done|done| |apply truth_word|].
    + intros w. rewrite exec_computes by reflexivity. unfold exec_eval. cbn [opc]. change (eval _ _ _) with (Some (let* t := tci_compare 32 (u32 (e z1)) (u32 (e z3)) z4 in Ok [truth t])).
      by rewrite Et.
    + yield. rewrite Es, Et in Hx. by injection Hx as <-.
Qed.

Lemma fold_step op i d x y v : opc i = op -> computing op = true -> flag_ok op = true -> foldable_1 op || foldable_2 op = true -> oargs i = [d] -> cargs i = [] ->
  rd op e <$> iargs i = (if foldable_1 op then [uwrap (read_bits op) x] else [uwrap (read_bits op) x; uwrap (read_bits op) y]) ->
  in_word 64 x -> in_word 64 y -> do_constant_folding op x y = Ok v -> valid s d -> temp_type s d = op_type op ->
  refines s e i (tcg_opt_gen_movi ts op d v).1 (tcg_opt_gen_movi ts op d v).2.
Proof.
  intros <- Hc Hf Hop Ho Hcs Hr Hx Hy Ev Vd Td. assert (forall vs, eval (opc i) (rd (opc i) e <$> iargs i) (cargs i) = Some (Ok vs) -> folds (opc i) x y = Some (Ok vs)) as K.
  { intros vs. rewrite Hr, Hcs. unfold folds. by destruct (foldable_1 (opc i)). }
  apply (movi_refines s); [done|done|done|exact (fold_word (opc i) x y v Hf Hx Hy Ev)|]. apply yields_eval; [done|done|]. intros vs E.
  exact (fold_sound (opc i) x y v vs Hf Hop Hx Hy Ev (K vs E)).
Qed.

(** A constant read by an operation of at most its width. *)
Lemma const_rd op t : valid s t -> read_bits op <= bits (temp_type s t) -> is_const ts t = true -> rd op e t = uwrap (read_bits op) (val (ts t)).
Proof.
  intros Vt Hb Hc. destruct (const_read s ts e t I Vt Hc) as (Er & _ & _). unfold rd. apply (uwrap_of_eq _ (bits (temp_type s t))); [|done].
  split; [apply read_bits_nonneg|done].
Qed.
Lemma const_word t : valid s t -> is_const ts t = true -> in_word 64 (val (ts t)).
Proof. intros Vt Hc. by destruct (const_read s ts e t I Vt Hc) as (_ & ? & _). Qed.

Lemma fold1_case op l m ts' out : foldable_1 op = true -> wf_instr s (mkI op l) -> propagate s ts (mkI op l) m = Ok (ts', out) ->
  (ts', out) = do_default s ts (mkI op l) m \/ out_refines e (mkI op l) ts' out.
Proof.
  intros Hop Wi E. assert (flag_ok op = true) as Hf by (by destruct op).
  destruct op; try discriminate Hop; wf_shape Wi; cbn [propagate opc args foldable_1 andb] in E; (destruct (is_const ts z0) eqn:B; [right|left; by apply Ok_inj in E]);
    apply bind_Ok in E as (v & Ev & E); apply Ok_inj in E; injection E as <- <-;
    (eapply (fold_step _ _ z (val (ts z0)) 0); [reflexivity|reflexivity|done|reflexivity|reflexivity|reflexivity| |by apply const_word|unfold in_word; lia|exact Ev|done|by rewrite (op_type_sig _ _ Hf eq_refl)]);
    cbv [iargs opc args tcg_op_defs nb_oargs nb_iargs take drop]; cbn [fmap list_fmap foldable_1]; (f_equal; apply const_rd; [done| |done]).
  all: match goal with |- _ <= bits (temp_type _ ?t) => try match goal with E : temp_type _ t = _ |- _ => rewrite E end end;
    cbn [read_bits]; 
    repeat match goal with |- context [bits (temp_type ?s ?t)] => destruct (temp_type s t) | |- context [bits ?ty] => is_var ty; destruct ty end; cbn [bits]; lia.
Qed.

Lemma fold2_case op l m ts' out : foldable_2 op = true -> flag_ok op = true -> wf_instr s (mkI op l) -> propagate s ts (mkI op l) m = Ok (ts', out) ->
  (ts', out) = do_default s ts (mkI op l) m \/ out_refines e (mkI op l) ts' out.
Proof.
  intros Hop Hf Wi E.
  destruct op; try discriminate Hop; wf_shape Wi; cbn [propagate opc args foldable_2 andb] in E; (destruct (is_const ts z0 && is_const ts z1) eqn:B; [right|left; by apply Ok_inj in E]);
    apply andb_prop in B as [B1 B2]; apply bind_Ok in E as (v & Ev & E); apply Ok_inj in E; injection E as <- <-;
    (eapply (fold_step _ _ z (val (ts z0)) (val (ts z1))); [reflexivity|reflexivity|done|reflexivity|reflexivity|reflexivity| |by apply const_word|by apply const_word|exact Ev|done|by rewrite (op_type_sig _ _ Hf eq_refl)]);
    cbv [iargs opc args tcg_op_defs nb_oargs nb_iargs take drop]; cbn [fmap list_fmap foldable_1]; (f_equal; [|f_equal]; (apply const_rd; [done| |done])).
  all: match goal with E : temp_type _ ?t = _ |- _ <= bits (temp_type _ ?t) => rewrite E end; done.
Qed.
End Cases.

(** The other operations stay. *)
Definition special (op : TCGOpcode) : bool :=
  foldable_1 op || foldable_2 op ||
  match op with
  | INDEX_op_call | INDEX_op_mov _ | INDEX_op_movi _ | INDEX_op_deposit _ | INDEX_op_setcond _ | INDEX_op_brcond _ | INDEX_op_movcond _
  | INDEX_op_add2 TCG_TYPE_I32 | INDEX_op_sub2 TCG_TYPE_I32 | INDEX_op_mulu2 TCG_TYPE_I32 | INDEX_op_brcond2_i32 | INDEX_op_setcond2_i32 => true
  | _ => false
  end.

Lemma propagate_default ts op l m : special op = false -> propagate s ts (mkI op l) m = Ok (do_default s ts (mkI op l) m).
Proof.
  intros Hs. destruct op; try discriminate Hs; try (destruct ty; try discriminate Hs);
    destruct l as [|? [|? [|? [|? ?]]]]; reflexivity.
Qed.

Lemma propagate_refines ts e op l m aff ts' out : wf_context s -> inv s ts e -> flag_ok op = true -> wf_instr s (mkI op l) ->
  known_zeros ts op l = Ok (m, aff) -> propagate s ts (mkI op l) (result_mask op m) = Ok (ts', out) -> out_refines e (mkI op l) ts' out.
Proof.
  intros C I Hf Wi K E. destruct (decide (op = INDEX_op_call)) as [->|Nc].
  { cbn [propagate opc] in E. apply Ok_inj in E. by destruct (call_refines s ts e l ts' out C I Wi E) as [-> R]. }
  assert ((ts', out) = do_default s ts (mkI op l) (result_mask op m) \/ out_refines e (mkI op l) ts' out) as [D|]; [|by destruct (default_refines s ts e op l m aff ts' out I Nc Hf Wi K (eq_sym D)) as [-> R]|done].
  destruct (special op) eqn:Sp; [|rewrite propagate_default in E by done; left; by apply Ok_inj in E].
  destruct (foldable_1 op) eqn:F1; [by eapply fold1_case|]. destruct (foldable_2 op) eqn:F2; [by eapply fold2_case|]. unfold special in Sp. rewrite F1, F2 in Sp.
  destruct op; try discriminate Sp; try done; try (destruct ty; try discriminate Sp).
  all: first [eapply setcond_case; eassumption | eapply brcond_case; eassumption | eapply movcond_case; eassumption | eapply deposit_case; eassumption
    | eapply brcond2_case; eassumption | eapply setcond2_case; eassumption | right; eapply mov_case; eassumption | right; eapply movi_case; eassumption
    | eapply double_case; [exact I|auto|eassumption..]].
Qed.
End Propagate.
