(* ===== verification/TcgBlock.v ===== *)
(** * The optimizer on a translation block

    The loop body as a whole, and runs of a block. *)

From stdpp Require Import base list numbers.
From S2P Require Import Prelude HostUtils Bitops MemRegion Tcg TcgOptimize TcgFacts TcgCopies TcgKnown TcgStep TcgPropagate.

Section Body.
Context {W : Type} `{TcgWorld W} (s : TCGContext).
Implicit Types (ts : tinfo) (e : env).

(** ** Operand order *)

Lemma swap_cases ts d a b : (exists sw, swap_commutative ts d a b = (a, b, sw) /\ sw = false) \/ (exists sw, swap_commutative ts d a b = (b, a, sw) /\ sw = true).
Proof. unfold swap_commutative. destruct (_ || _); [right|left]; by eexists. Qed.
Lemma swap2_cases ts al ah bl bh : swap_commutative2 ts al ah bl bh = (al, ah, (bl, bh), false) \/ swap_commutative2 ts al ah bl bh = (bl, bh, (al, ah), true).
Proof. unfold swap_commutative2. destruct (_ <? _); auto. Qed.

Lemma commutative_eval op a b : commutative op = true -> eval op [a; b] [] = eval op [b; a] [].
Proof.
  intros Hc. destruct op; try discriminate Hc; cbn [eval on2];
    rewrite ?(Z.add_comm a), ?(Z.mul_comm a), ?(Z.land_comm a), ?(Z.lor_comm a), ?(Z.lxor_comm a), ?(Z.mul_comm (sw ty a)); reflexivity.
Qed.

(** A list of arguments that fits an operation. *)
Ltac wf_build :=
  unfold wf_instr; cbn [opc]; split; [reflexivity|];
  cbv [oargs iargs cargs opc args tcg_op_defs nb_oargs nb_iargs nb_cargs take drop Nat.add]; cbn [sig fst snd replicate consts_ok];
  (split; [repeat first [apply List.Forall2_nil | apply List.Forall2_cons; [split; assumption|]]|]);
  (split; [repeat first [apply List.Forall2_nil | apply List.Forall2_cons; [split; assumption|]]|]); auto using swap_cond_in, invert_cond_in.

Ltac same_eval :=
  rewrite !exec_computes by reflexivity; unfold exec_eval;
  cbv [oargs iargs cargs opc args tcg_op_defs nb_oargs nb_iargs nb_cargs take drop Nat.add]; cbn [fmap list_fmap].

(** Code with the same meaning and typing. *)
Definition same_code e (i j : instr) : Prop := wf_instr s j /\ forall w, exec s w e j = exec s w e i.

Lemma canonicalize_commutative ts e op l : commutative op = true -> wf_instr s (mkI op l) -> same_code e (mkI op l) (mkI op (canonicalize ts op l)).
Proof.
  intros Hc Wi. assert (exists d a b, l = [d; a; b]) as (d & a & b & El) by (destruct op; try discriminate Hc; wf_shape Wi; by eexists _, _, _). subst l.
  assert (canonicalize ts op [d; a; b] = let '(a, b, _) := swap_commutative ts d a b in [d; a; b]) as -> by (destruct op; try discriminate Hc; reflexivity).
  destruct (swap_cases ts d a b) as [(? & -> & _)|(? & -> & _)]; [done|]. destruct op; try discriminate Hc; wf_shape Wi; (split; [wf_build|]); intros w;
    same_eval; by rewrite commutative_eval.
Qed.

Lemma canonicalize_compare ts e ty l op : op = INDEX_op_brcond ty \/ op = INDEX_op_setcond ty \/ op = INDEX_op_movcond ty -> wf_instr s (mkI op l) ->
  same_code e (mkI op l) (mkI op (canonicalize ts op l)).
Proof.
  intros Ho Wi. destruct Ho as [->|[->| ->]]; wf_shape Wi; cbn [canonicalize].
  - destruct (swap_cases ts all_ones z z0) as [(? & -> & ->)|(? & -> & ->)]; (split; [wf_build|]); intros w; [done|].
    unfold exec. cbn [opc]. cbv [iargs cargs opc args tcg_op_defs nb_oargs nb_iargs nb_cargs take drop Nat.add]. unfold exec_branch. by rewrite compare_swap.
  - destruct (swap_cases ts z z0 z1) as [(? & -> & ->)|(? & -> & ->)]; (split; [wf_build|]); intros w; [done|].
    same_eval. cbn [eval on2 on1]. by rewrite compare_swap.
  - assert (forall a b c, c ∈ conds -> eval (INDEX_op_movcond ty) [a; b; rd (INDEX_op_movcond ty) e z3; rd (INDEX_op_movcond ty) e z2] [tcg_invert_cond c] =
      eval (INDEX_op_movcond ty) [a; b; rd (INDEX_op_movcond ty) e z2; rd (INDEX_op_movcond ty) e z3] [c]) as Inv.
    { intros a b c Hc. cbn [eval on4 on1]. rewrite compare_invert by done. destruct (compare_total (bits ty) a b c Hc) as [t ->]. by destruct t. }
    destruct (swap_cases ts all_ones z0 z1) as [(? & -> & ->)|(? & -> & ->)], (swap_cases ts z z3 z2) as [(? & -> & ->)|(? & -> & ->)];
      (split; [wf_build|]); intros w; try done; same_eval; rewrite ?Inv by auto using swap_cond_in; try done; cbn [eval on4 on1]; by rewrite compare_swap.
Qed.

Lemma add2_low ty al ah bl bh : eval (INDEX_op_add2 ty) [bl; ah; al; bh] [] = eval (INDEX_op_add2 ty) [al; ah; bl; bh] [].
Proof. cbn [eval on4]. unfold pair_val. do 3 f_equal. lia. Qed.
Lemma add2_high ty al ah bl bh : eval (INDEX_op_add2 ty) [al; bh; bl; ah] [] = eval (INDEX_op_add2 ty) [al; ah; bl; bh] [].
Proof. cbn [eval on4]. unfold pair_val. do 3 f_equal. lia. Qed.

Lemma canonicalize_double ts e ty l op : op = INDEX_op_add2 ty \/ op = INDEX_op_mulu2 ty \/ op = INDEX_op_muls2 ty -> wf_instr s (mkI op l) ->
  same_code e (mkI op l) (mkI op (canonicalize ts op l)).
Proof.
  intros Ho Wi. destruct Ho as [->|[->| ->]]; wf_shape Wi; cbn [canonicalize].
  - destruct (swap_cases ts z z1 z3) as [(? & -> & _)|(? & -> & _)], (swap_cases ts z0 z2 z4) as [(? & -> & _)|(? & -> & _)];
      (split; [wf_build|]); intros w; try done; same_eval.
    + by rewrite add2_high.
    + by rewrite add2_low.
    + by rewrite add2_low, add2_high.
  - destruct (swap_cases ts z z1 z2) as [(? & -> & _)|(? & -> & _)]; (split; [wf_build|]); intros w; [done|].
    same_eval. cbn [eval on2]. by rewrite Z.mul_comm.
  - destruct (swap_cases ts z z1 z2) as [(? & -> & _)|(? & -> & _)]; (split; [wf_build|]); intros w; [done|].
    same_eval. cbn [eval on2]. by rewrite Z.mul_comm.
Qed.

Lemma canonicalize_compare2 ts e l op : op = INDEX_op_brcond2_i32 \/ op = INDEX_op_setcond2_i32 -> wf_instr s (mkI op l) ->
  same_code e (mkI op l) (mkI op (canonicalize ts op l)).
Proof.
  intros Ho Wi. destruct Ho as [-> | ->]; wf_shape Wi; cbn [canonicalize].
  - destruct (swap2_cases ts z z0 z1 z2) as [-> | ->]; (split; [wf_build|]); intros w; [done|].
    unfold exec. cbn [opc]. cbv [iargs cargs opc args tcg_op_defs nb_oargs nb_iargs nb_cargs take drop Nat.add]. unfold exec_branch. by rewrite compare_swap.
  - destruct (swap2_cases ts z0 z1 z2 z3) as [-> | ->]; (split; [wf_build|]); intros w; [done|].
    same_eval. cbn [eval on4 on1]. by rewrite compare_swap.
Qed.

Lemma canonicalize_same ts e op l : wf_instr s (mkI op l) -> same_code e (mkI op l) (mkI op (canonicalize ts op l)).
Proof.
  intros Wi. destruct (commutative op) eqn:Hc; [by apply canonicalize_commutative|].
  destruct op; try discriminate Hc; try (apply canonicalize_compare with (ty := ty); auto; fail); try (apply canonicalize_double with (ty := ty); auto; fail);
    try (apply canonicalize_compare2; auto; fail).
  all: match goal with |- same_code _ ?i (mkI _ (canonicalize _ ?op ?l)) => assert (canonicalize ts op l = l) as ->; [|by split] end.
  all: cbn [canonicalize commutative]; destruct l as [|? [|? [|? [|? ?]]]]; reflexivity.
Qed.

(** ** Copies of the inputs *)

(** An input is kept, or it is replaced by a global or local member of its list. *)
Definition better ts (t y : Z) : Prop := alike s ts t y /\ (y = t \/ is_const ts y = false /\ (y < nb_globals s \/ temp_local s y = true)).

Lemma better_copies_spec ts l : linked s ts -> Forall (valid s) l -> exists l', better_copies s ts l = Ok l' /\ Forall2 (better ts) l l'.
Proof.
  intros L F. induction F as [|t l Vt F (l' & IH & F2)]; [by exists []; split; [|constructor]|]. cbn [better_copies].
  assert (exists y, (if is_copy ts t then find_better_copy s ts t else Ok t) = Ok y /\ better ts t y) as (y & -> & A).
  { unfold is_copy. destruct (bool_decide_reflect (state (ts t) = TCG_TEMP_COPY)) as [Ec|]; [|exists t; split; [done|split; [by apply alike_refl|by left]]].
    destruct (better_copy_alike s ts t L Vt Ec) as (y & Ey & A & Nc & Hy). exists y. split; [done|]. split; [done|]. destruct Hy as [->|Hy]; [by left|by right]. }
  cbn [res_bind]. rewrite IH. cbn [res_bind]. eexists. split; [done|]. by constructor.
Qed.

Lemma better_gets ts e l l' : inv s ts e -> Forall2 (better ts) l l' -> get s e <$> l' = get s e <$> l.
Proof. intros I F. induction F as [|t y l l' [(_ & _ & G) _] F IH]; [done|]. cbn. by rewrite (G e I), IH. Qed.
Lemma better_types ts l l' tys : Forall2 (better ts) l l' -> Forall2 (has_type s) l tys -> Forall2 (has_type s) l' tys.
Proof.
  intros F. revert tys. induction F as [|t y l l' [(V & T & _) _] F IH]; intros tys Ft; inversion Ft as [|? oty ? ? [_ Ht] Ft0]; subst; constructor; [|by apply IH].
  split; [done|]. destruct oty; [by rewrite T|done].
Qed.
Lemma better_valid ts l l' : Forall2 (better ts) l l' -> Forall (valid s) l'.
Proof. induction 1 as [|t y l l' [(V & _) _] F IH]; by constructor. Qed.

Lemma replace_parts {A} (l x : list A) (no ni : nat) : (no + ni <= List.length l)%nat -> List.length x = ni ->
  take no (take no l ++ x ++ drop (no + ni) l) = take no l /\ take ni (drop no (take no l ++ x ++ drop (no + ni) l)) = x /\
  drop (no + ni) (take no l ++ x ++ drop (no + ni) l) = drop (no + ni) l /\ List.length (take no l ++ x ++ drop (no + ni) l) = List.length l.
Proof.
  intros Hl Hx. assert (List.length (take no l) = no) as Ht by (rewrite length_take; lia). repeat split.
  - by rewrite take_app_length'.
  - rewrite drop_app_length' by done. by rewrite take_app_length'.
  - rewrite app_assoc, drop_app_length'; [done|]. rewrite length_app. lia.
  - rewrite !length_app, length_drop. lia.
Qed.

Lemma propagate_copies_data ts i : linked s ts -> wf_instr s i -> opc i <> INDEX_op_call ->
  exists l, propagate_copies s ts i = Ok l /\ wf_instr s (mkI (opc i) l) /\ same_shape i (mkI (opc i) l) /\ Forall2 (better ts) (ins_of i) (ins_of (mkI (opc i) l)).
Proof.
  intros L Wi Nc. destruct (wf_data s i Nc Wi) as (Fo & Fi & C & Len).
  assert (propagate_copies s ts i = copy_inputs s ts (nb_oargs (tcg_op_defs (opc i))) (nb_iargs (tcg_op_defs (opc i))) (args i)) as -> by (unfold propagate_copies; by destruct (opc i)).
  destruct (better_copies_spec ts (iargs i) L (has_types_valid s _ _ Fi)) as (x & Ex & Fx). unfold copy_inputs. fold (iargs i). rewrite Ex. cbn [res_bind].
  assert (List.length x = nb_iargs (tcg_op_defs (opc i))) as Lx.
  { rewrite <- (List.Forall2_length Fx). unfold iargs. rewrite length_take, length_drop, Len. unfold nb_args. lia. }
  destruct (replace_parts (args i) x (nb_oargs (tcg_op_defs (opc i))) (nb_iargs (tcg_op_defs (opc i)))) as (P1 & P2 & P3 & P4); [rewrite Len; unfold nb_args; lia|done|].
  set (l := take _ _ ++ _) in *. exists l.
  assert (oargs (mkI (opc i) l) = oargs i) as Eo by exact P1. assert (iargs (mkI (opc i) l) = x) as Ei by exact P2. assert (cargs (mkI (opc i) l) = cargs i) as Ec by exact P3.
  split; [done|]. split; [|split].
  - assert (List.length l = nb_args (tcg_op_defs (opc i)) /\ Forall2 (has_type s) (oargs (mkI (opc i) l)) (sig (opc i)).1 /\
      Forall2 (has_type s) (iargs (mkI (opc i) l)) (sig (opc i)).2 /\ consts_ok (opc i) (cargs (mkI (opc i) l))) as G.
    { rewrite Eo, Ei, Ec, P4. split; [done|]. split; [done|]. split; [by eapply better_types|done]. }
    unfold wf_instr. cbn [opc args]. destruct (opc i); exact G || done.
  - split; [done|]. cbn [opc]. rewrite Eo, Ec. destruct (opc i); done.
  - unfold ins_of. cbn [opc]. rewrite Ei. destruct (opc i); done.
Qed.

(** The numbers of outputs and inputs of a call. *)
Definition call_no (l : list Z) : nat := Z.to_nat (Z.shiftr (nth 0 l 0) 16).
Definition call_ni (l : list Z) : nat := Z.to_nat (Z.land (nth 0 l 0) 0xffff).

Lemma wf_call_length l : wf_call s l -> List.length l = (call_no l + call_ni l + 3)%nat.
Proof.
  intros (_ & _ & no & ni & Hn & E & Len). unfold call_no, call_ni. rewrite E. change 65535 with (Z.ones 16).
  rewrite Z.land_ones, Z.shiftr_div_pow2, Z.shiftl_mul_pow2 by lia. rewrite Z.div_add_l by lia.
  rewrite (Z.add_comm (_ * _)), Z.mod_add by lia. rewrite Z.div_small, Z.mod_small by lia. rewrite Len. lia.
Qed.

Lemma call_parts l x : wf_call s l -> List.length x = call_ni l ->
  let l' := take (1 + call_no l) l ++ x ++ drop (1 + call_no l + call_ni l) l in
  c_outs (decode_call l') = c_outs (decode_call l) /\ c_ins (decode_call l') = x /\ c_flags (decode_call l') = c_flags (decode_call l) /\
  nth 0 l' 0 = nth 0 l 0 /\ List.length l' = List.length l.
Proof.
  intros Wl Lx l'. pose proof (wf_call_length l Wl) as Len.
  destruct (replace_parts l x (1 + call_no l) (call_ni l) ltac:(lia) Lx) as (P1 & P2 & P3 & P4). fold l' in P1, P2, P3, P4.
  assert (nth 0 l' 0 = nth 0 l 0) as E0 by (unfold l'; destruct l as [|p l]; [done|reflexivity]).
  unfold decode_call. cbn [c_outs c_ins c_flags]. rewrite E0. fold (call_no l) (call_ni l). split_and!; [|exact P2| |done|done].
  - pose proof (f_equal (drop 1) P1) as P. rewrite <- !firstn_skipn_comm in P. exact P.
  - pose proof (f_equal (fun z => nth 0 z 0) P3) as P. cbn beta in P. rewrite !nth_skipn in P. by rewrite !Nat.add_0_r in P.
Qed.

Lemma propagate_copies_call ts l : linked s ts -> wf_instr s (mkI INDEX_op_call l) ->
  exists l', propagate_copies s ts (mkI INDEX_op_call l) = Ok l' /\ wf_instr s (mkI INDEX_op_call l') /\ same_shape (mkI INDEX_op_call l) (mkI INDEX_op_call l') /\
    Forall2 (better ts) (ins_of (mkI INDEX_op_call l)) (ins_of (mkI INDEX_op_call l')).
Proof.
  intros L Wl. cbn in Wl. pose proof Wl as (Vo & Vi & no & ni & Hn & E0 & Ln). destruct (better_copies_spec ts _ L Vi) as (x & Ex & Fx).
  unfold propagate_copies, copy_inputs. cbn [opc args]. fold (call_no l) (call_ni l). change (take (call_ni l) (drop (1 + call_no l) l)) with (c_ins (decode_call l)).
  rewrite Ex. cbn [res_bind]. eexists. split; [reflexivity|].
  assert (List.length x = call_ni l) as Lx.
  { rewrite <- (List.Forall2_length Fx). unfold decode_call. cbn [c_ins]. fold (call_no l) (call_ni l). rewrite length_take, length_drop, (wf_call_length l Wl). lia. }
  destruct (call_parts l x Wl Lx) as (P1 & P2 & P3 & P4 & P5). set (l' := take _ _ ++ _) in *. unfold wf_instr, same_shape, ins_of. cbn [opc args]. split_and!; try congruence.
  - unfold wf_call. rewrite P1, P2. split; [done|]. split; [by eapply better_valid|]. exists no, ni. by rewrite P4, P5.
Qed.

Lemma propagate_copies_spec ts i : linked s ts -> wf_instr s i ->
  exists l, propagate_copies s ts i = Ok l /\ wf_instr s (mkI (opc i) l) /\ same_shape i (mkI (opc i) l) /\ Forall2 (better ts) (ins_of i) (ins_of (mkI (opc i) l)).
Proof.
  intros L Wi. destruct (decide (opc i = INDEX_op_call)) as [Ec|]; [|by apply propagate_copies_data]. destruct i as [op l]. cbn [opc] in *. subst op.
  by apply propagate_copies_call.
Qed.

(** ** The loop body *)

(** What replaces [i], run on [e'], does what [i] does on [e]. *)
Definition simulates e e' (i : instr) ts' (out : emitted) : Prop :=
  match out with
  | One j => forall w w1 e1 fl, exec s w e i = Ok (w1, e1, fl) ->
      exists e1', exec s w e' j = Ok (w1, e1', fl) /\ sim s e1 e1' /\ env_ok s e1' /\ (fl = Next -> inv s ts' e1')
  | Two j1 j2 => forall w w1 e1 fl, exec s w e i = Ok (w1, e1, fl) ->
      w1 = w /\ fl = Next /\ exists e1' e2', exec s w e' j1 = Ok (w, e1', Next) /\ exec s w e1' j2 = Ok (w, e2', Next) /\ sim s e1 e2' /\ inv s ts' e2'
  end.

Lemma sim_gets e e' l : sim s e e' -> Forall (valid s) l -> get s e <$> l = get s e' <$> l.
Proof. intros S F. induction F as [|t l Vt F IH]; [done|]. cbn. by rewrite (S t Vt), IH. Qed.
Lemma ins_valid i : wf_instr s i -> Forall (valid s) (ins_of i).
Proof.
  intros Wi. destruct (decide (opc i = INDEX_op_call)) as [Ec|Nc].
  - unfold wf_instr in Wi. unfold ins_of. rewrite Ec in *. by destruct Wi as (_ & ? & _).
  - destruct (wf_data s i Nc Wi) as (_ & Fi & _). unfold ins_of. apply has_types_valid in Fi. by destruct (opc i).
Qed.

Lemma simulates_of ts e e' i j ts' out : wf_context s -> inv s ts e' -> sim s e e' -> wf_instr s i -> wf_instr s j -> same_shape i j ->
  Forall2 (better ts) (ins_of i) (ins_of j) -> out_refines s e' j ts' out -> simulates e e' i ts' out.
Proof.
  intros C I S Wi Wj Sh B R.
  assert (forall w w1 e1 fl, exec s w e i = Ok (w1, e1, fl) -> exists e2, exec s w e' j = Ok (w1, e2, fl) /\ sim s e1 e2) as K.
  { intros w w1 e1 fl E. destruct (exec_same s w e e' i j C Wi Wj Sh) with (w1 := w1) (e1 := e1) (fl := fl) as (ps & _ & -> & E2); [|by apply sim_gets, globals_valid|done|].
    - rewrite (better_gets ts e' _ _ I B). by apply sim_gets, ins_valid.
    - eexists. split; [exact E2|]. by apply sim_wr. }
  destruct out as [j1|j1 j2]; cbn [simulates out_refines] in *; intros w w1 e1 fl E; destruct (K _ _ _ _ E) as (e2 & E2 & S2).
  - destruct (R _ _ _ _ E2) as (e3 & E3 & S3 & O3 & I3). exists e3. split; [done|]. split; [by eapply sim_trans|done].
  - destruct (R _ _ _ _ E2) as (-> & -> & e3 & e4 & E3 & E4 & S4 & I4). split; [done|]. split; [done|]. exists e3, e4. split_and!; try done. by eapply sim_trans.
Qed.

Lemma body_refines ts e op l ts' out : wf_context s -> inv s ts e -> flag_ok op = true -> wf_instr s (mkI op l) ->
  match simplify_unary s ts op l with
  | Some r => Ok (one r)
  | None =>
      match simplify_mov s ts op l with
      | Some r => let* r := r in Ok (one r)
      | None =>
          let* (m, affected) := known_zeros ts op l in
          let m := result_mask op m in
          let* r := simplify_mask s ts op l m affected in
          match r with
          | Some r => Ok (one r)
          | None =>
              let* r := simplify_same s ts op l in
              match r with
              | Some r => Ok (one r)
              | None => propagate s ts (mkI op l) m
              end
          end
      end
  end = Ok (ts', out) -> out_refines s e (mkI op l) ts' out.
Proof.
  intros C I Hf Wi E. destruct (simplify_unary s ts op l) as [r|] eqn:E1.
  { apply Ok_inj in E. injection E as <- <-. by eapply (simplify_unary_refines s). }
  destruct (simplify_mov s ts op l) as [r|] eqn:E2.
  { apply bind_Ok in E as ([ts2 j] & -> & E). apply Ok_inj in E. injection E as <- <-. by eapply (simplify_mov_refines s). }
  apply bind_Ok in E as ([m aff] & K & E). cbn zeta in E. apply bind_Ok in E as (r & E3 & E).
  destruct r as [[ts2 j]|]; [apply Ok_inj in E; injection E as <- <-; by eapply (simplify_mask_refines s)|].
  apply bind_Ok in E as (r & E4 & E). destruct r as [[ts2 j]|]; [apply Ok_inj in E; injection E as <- <-; by eapply (simplify_same_refines s)|].
  by eapply propagate_refines.
Qed.

Lemma optimize_op_simulates ts e e' i ts' out : wf_context s -> inv s ts e' -> sim s e e' -> flag_ok (opc i) = true -> wf_instr s i ->
  optimize_op s ts i = Ok (ts', out) -> simulates e e' i ts' out.
Proof.
  intros C I S Hf Wi E. unfold optimize_op in E. destruct (propagate_copies_spec ts i (proj1 I) Wi) as (l & El & Wl & Sh & B). rewrite El in E. cbn [res_bind] in E.
  cbn zeta in E. destruct (canonicalize_same ts e' (opc i) l Wl) as [Wc Ec]. apply body_refines with (e := e') in E; try done.
  eapply simulates_of; [done|done|done|done|exact Wl|done|done|].
  destruct out; cbn [out_refines] in *; intros w w1 e1 fl Ex; rewrite <- Ec in Ex; by apply E in Ex.
Qed.

(** ** Labels *)

Definition not_label (out : emitted) : Prop :=
  match out with One j => opc j <> INDEX_op_set_label | Two j1 j2 => opc j1 <> INDEX_op_set_label /\ opc j2 <> INDEX_op_set_label end.

Lemma optimize_op_label ts i : wf_instr s i -> opc i = INDEX_op_set_label -> optimize_op s ts i = Ok (reset_all_temps (nb_temps s) ts, One i).
Proof. intros Wi Eo. destruct i as [op l]. cbn [opc] in Eo. subst op. wf_shape Wi. reflexivity. Qed.

Lemma gen_mov_label ts op d a r : tcg_opt_gen_mov s ts op d a = Ok r -> opc r.2 <> INDEX_op_set_label.
Proof. rewrite gen_mov_link. cbn zeta. intros E. apply bind_Ok in E as (_ & _ & E). apply Ok_inj in E. by subst r. Qed.
Lemma mov_or_nop_label ts op d a r : mov_or_nop s ts op d a = Ok r -> opc r.2 <> INDEX_op_set_label.
Proof. intros E. apply bind_Ok in E as (c & _ & E). destruct c; [by apply Ok_inj in E; subst r|by eapply gen_mov_label]. Qed.
Lemma mov_const_label ts op d a r : mov_const_or_nop s ts op d a = Ok r -> opc r.2 <> INDEX_op_set_label.
Proof.
  intros E. apply bind_Ok in E as (c & _ & E). destruct c; [by apply Ok_inj in E; subst r|]. destruct (negb _); [by eapply gen_mov_label|].
  by apply Ok_inj in E; subst r.
Qed.

Lemma simplify_unary_label ts op l r : simplify_unary s ts op l = Some r -> opc r.2 <> INDEX_op_set_label.
Proof.
  intros E. destruct op; try discriminate E; destruct l as [|? [|? [|? [|? ?]]]]; try discriminate E; cbn [simplify_unary] in E; unfold try_not in E;
    repeat match type of E with (if ?b then _ else _) = _ => destruct b; try discriminate E end; by injection E as <-.
Qed.

Lemma propagate_label ts op l m ts' out : op <> INDEX_op_set_label -> wf_instr s (mkI op l) -> propagate s ts (mkI op l) m = Ok (ts', out) -> not_label out.
Proof.
  intros No Wi E. assert (not_label (One (mkI op l))) as D by done. destruct (special op) eqn:Sp; [|rewrite propagate_default in E by done; apply Ok_inj in E; by injection E as <- <-].
  destruct op; try discriminate Sp; try done; try (cbn in E; apply Ok_inj in E; by injection E as <- <-);
    try (destruct ty; try discriminate Sp); wf_shape Wi; cbn [propagate opc args foldable_1 foldable_2 andb] in E.
  all: repeat first
    [ match type of E with res_bind _ _ = Ok _ => apply bind_Ok in E as (? & ? & E) end
    | match type of E with (if ?b then _ else _) = Ok _ => destruct b end
    | match type of E with match ?r with Some _ => _ | None => _ end = Ok _ => destruct r end
    | match type of E with Ok (match ?r with Some _ => _ | None => _ end) = Ok _ => destruct r end
    | match type of E with Ok (if ?b then _ else _) = Ok _ => destruct b end
    | match type of E with Ok (known_branch _ _ ?t _) = Ok _ => is_var t; destruct t end ];
    apply Ok_inj in E; injection E as <- <-; cbn [not_label snd one gen_movi2 tcg_opt_gen_movi known_branch]; try done; try (by eapply mov_const_label).
Qed.

Lemma optimize_op_not_label ts i ts' out : linked s ts -> wf_instr s i -> opc i <> INDEX_op_set_label -> optimize_op s ts i = Ok (ts', out) -> not_label out.
Proof.
  intros L Wi No E. unfold optimize_op in E. destruct (propagate_copies_spec ts i L Wi) as (l & El & Wl & _ & _). rewrite El in E. cbn [res_bind] in E.
  cbn zeta in E. destruct (canonicalize_same ts (fun _ => 0) (opc i) l Wl) as [Wc _]. set (l2 := canonicalize ts (opc i) l) in *. clearbody l2.
  destruct (simplify_unary s ts (opc i) l2) as [r|] eqn:E1; [apply Ok_inj in E; injection E as <- <-; by eapply simplify_unary_label|].
  destruct (simplify_mov s ts (opc i) l2) as [r|] eqn:E2.
  { apply bind_Ok in E as (r2 & -> & E). apply Ok_inj in E. injection E as <- <-. unfold simplify_mov in E2.
    destruct (mov_const _), l2 as [|? [|? [|? [|? ?]]]]; try discriminate E2. destruct (_ && _); [|discriminate E2]. injection E2 as E2. by eapply mov_or_nop_label. }
  apply bind_Ok in E as ([m aff] & K & E). cbn zeta in E. apply bind_Ok in E as (r & E3 & E). destruct r as [r|].
  { apply Ok_inj in E. injection E as <- <-. unfold simplify_mask in E3. destruct (_ =? 0).
    - apply bind_Ok in E3 as (_ & _ & E3). apply Ok_inj in E3. by injection E3 as <-.
    - destruct (_ =? 0); [|discriminate E3]. apply bind_Ok in E3 as (_ & _ & E3). apply bind_Ok in E3 as (r2 & E3 & E4). apply Ok_inj in E4. injection E4 as <-. by eapply mov_const_label. }
  apply bind_Ok in E as (r & E4 & E). destruct r as [r|]; [|by eapply propagate_label]. apply Ok_inj in E. injection E as <- <-.
  unfold simplify_same in E4. destruct l2 as [|d [|a [|b [|? ?]]]]; try discriminate E4.
  match type of E4 with (if ?b then _ else _) = _ => destruct b; [apply Ok_inj in E4; by injection E4 as <-|] end.
  destruct (opc i); try discriminate E4; apply bind_Ok in E4 as (c & _ & E4); destruct c; try discriminate E4;
    try (apply Ok_inj in E4; by injection E4 as <-); apply bind_Ok in E4 as (r2 & E4 & E5); apply Ok_inj in E5; injection E5 as <-; by eapply mov_or_nop_label.
Qed.
End Body.
