(* ===== verification/TcgTotal.v ===== *)
(** * The optimizer ends

    The loop body keeps the lists of copies linked, so that every walk ends,
    and no assertion fails. *)

From stdpp Require Import base list numbers.
From S2P Require Import Prelude HostUtils Bitops MemRegion Tcg TcgOptimize TcgFacts TcgCopies TcgKnown TcgStep TcgPropagate TcgBlock.

(** The faults of arithmetic on constants: a count that is too large, a
    quotient that overflows. *)
Definition arithmetic (f : fault) : Prop := f = UndefinedShift \/ f = DivisionByZero.

(** A world in which nothing happens: typing does not depend on the world. *)
#[local] Instance idle : TcgWorld unit := {|
  w_host_ld := fun _ _ _ => 0; w_host_st := fun w _ _ _ => w; w_guest_ld := fun w _ _ _ _ => (w, None); w_guest_st := fun w _ _ _ _ _ => (w, false);
  w_helper := fun w _ _ _ => (w, None); w_linked := fun _ _ => false
|}.

Section Total.
Context (s : TCGContext).
Implicit Types (ts : tinfo) (e : env).

(** ** Updates without registers *)

(** Registers that agree with linked lists exist. *)
Lemma linked_env ts : linked s ts -> exists e, inv s ts e.
Proof.
  intros L. exists (fun t => if is_const ts t then uw (temp_type s t) (val (ts t)) else 0). split; [done|]. intros t Vt. destruct (L t Vt) as [M K].
  unfold agrees, get, is_const. destruct (state (ts t)) eqn:Es.
  - rewrite bool_decide_false by done. split; [unfold in_word; lia|]. split; [intros n Hn; by rewrite Z.bits_0|done].
  - rewrite bool_decide_true by done. destruct K as [Wv Em]. split; [apply in_word_uw|]. split; [rewrite Em; apply covers_uwrap, covers_refl; done|]. by rewrite uwrap_idem.
  - rewrite (bool_decide_false (TCG_TEMP_COPY = _)) by done. rewrite (next_state s ts t K), bool_decide_false by done.
    split; [unfold in_word; lia|]. split; [intros n Hn; by rewrite Z.bits_0|]. by rewrite !uw_zero.
Qed.

Lemma gen_movi_linked ts op t v : linked s ts -> valid s t -> in_word 64 v -> linked s (tcg_opt_gen_movi ts op t v).1.
Proof.
  intros L Vt Hv. destruct (linked_env ts L) as [e I].
  exact (proj1 (gen_movi_inv s ts e (INDEX_op_movi (temp_type s t)) t v I Vt Hv ltac:(by destruct (temp_type s t)))).
Qed.

Lemma gen_mov_linked ts op d a : linked s ts -> valid s d -> valid s a -> d <> a -> is_const ts a = false ->
  exists ts' j, tcg_opt_gen_mov s ts op d a = Ok (ts', j) /\ linked s ts'.
Proof.
  intros L Vd Va Hd Hc. destruct (linked_env ts L) as [e I].
  destruct (gen_mov_inv s ts e (INDEX_op_mov (temp_type s d)) d a I Vd Va Hd Hc ltac:(by destruct (temp_type s d))) as (ts' & G & [L' _]).
  rewrite gen_mov_link in *. cbn zeta in *. destruct (c_assert _); [|discriminate G]. cbn [res_bind] in *. apply Ok_inj in G. injection G as <-. by eexists _, _.
Qed.

Lemma masked_linked ts t m : linked s ts -> valid s t -> in_word 64 m -> linked s (put (reset_temp ts t) t (set_mask (reset_temp ts t t) m)).
Proof.
  intros L Vt Hm. destruct (linked_env ts L) as [e I]. refine (proj1 (masked_inv s ts e t 0 m I Vt _ Hm _)); [unfold in_word; lia|].
  intros n Hn. by rewrite Z.bits_0.
Qed.
Lemma resets_linked ts l : linked s ts -> Forall (valid s) l -> linked s (reset_outputs ts l).
Proof. intros L F. destruct (linked_env ts L) as [e I]. exact (proj1 (resets_inv s l ts e [] I F (List.Forall_nil _))). Qed.
Lemma reset_all_linked ts : linked s (reset_all_temps (nb_temps s) ts).
Proof. refine (proj1 (reset_all_inv s ts (fun _ => 0) _)). intros t _. unfold in_word. lia. Qed.

(** ** Stages *)

(** A result with linked lists, or a fault of [F]. *)
Definition settles {A} (F : fault -> Prop) (r : res (tinfo * A)) : Prop := match r with Ok x => linked s x.1 | Err f => F f end.

Section Stages.
Context (F : fault -> Prop) (HF : forall f, arithmetic f -> F f).

Lemma settles_bind {A B} (r : res (tinfo * A)) (k : tinfo * A -> res (tinfo * B)) : settles F r -> (forall x, linked s x.1 -> settles F (k x)) -> settles F (let* x := r in k x).
Proof. intros Hr Hk. destruct r as [x|f]; [by apply Hk|done]. Qed.
Lemma settles_one r : settles F r -> settles F (let* r := r in Ok (one r)).
Proof. intros Hr. by apply settles_bind. Qed.

Lemma c_shift_cases w n : c_shift w n = Ok tt \/ c_shift w n = Err UndefinedShift.
Proof. unfold c_shift. destruct (_ && _); auto. Qed.

Lemma mov_or_nop_settles ts op d a : linked s ts -> valid s d -> valid s a -> is_const ts a = false \/ F AssertFailed -> settles F (mov_or_nop s ts op d a).
Proof.
  intros L Vd Va Hc. unfold mov_or_nop. destruct (temps_are_copies_spec s ts d a L Vd Va) as (c & Ec & _). rewrite Ec. cbn [res_bind]. destruct c; [done|].
  assert (d <> a) as Hd by (intros ->; unfold temps_are_copies in Ec; by rewrite Z.eqb_refl in Ec). destruct (is_const ts a) eqn:Ek.
  - destruct Hc as [|Hc]; [done|]. destruct (tcg_opt_gen_mov s ts op d a) as [r|f] eqn:E; [pose proof (gen_mov_not_const s ts op d a r L Vd Hd E); congruence|].
    rewrite gen_mov_link in E. cbn zeta in E. unfold c_assert in E. destruct (negb _); [discriminate E|]. by injection E as <-.
  - destruct (gen_mov_linked ts op d a L Vd Va Hd Ek) as (ts' & j & -> & L'). done.
Qed.

Lemma mov_const_settles ts op d a : linked s ts -> valid s d -> valid s a -> settles F (mov_const_or_nop s ts op d a).
Proof.
  intros L Vd Va. unfold mov_const_or_nop. destruct (temps_are_copies_spec s ts d a L Vd Va) as (c & Ec & _). rewrite Ec. cbn [res_bind]. destruct c; [done|].
  assert (d <> a) as Hd by (intros ->; unfold temps_are_copies in Ec; by rewrite Z.eqb_refl in Ec). destruct (is_const ts a) eqn:Ek; cbn [negb].
  - apply gen_movi_linked; [done|done|]. destruct (L a Va) as [_ K]. unfold is_const in Ek. apply bool_decide_eq_true in Ek. rewrite Ek in K. by destruct K.
  - destruct (gen_mov_linked ts op d a L Vd Va Hd Ek) as (ts' & j & -> & L'). done.
Qed.

Lemma simplify_unary_settles ts op l r : linked s ts -> wf_instr s (mkI op l) -> simplify_unary s ts op l = Some r -> linked s r.1.
Proof.
  intros L Wi E. destruct op; try discriminate E; wf_shape Wi; cbn [simplify_unary] in E; unfold try_not in E;
    repeat match type of E with (if ?b then _ else _) = _ => destruct b; try discriminate E end; injection E as <-;
    first [by apply reset_temp_linked | apply gen_movi_linked; [done|done|unfold in_word; lia]].
Qed.

Lemma simplify_mov_settles ts op l r : linked s ts -> wf_instr s (mkI op l) -> simplify_mov s ts op l = Some r -> settles F r.
Proof.
  intros L Wi E. unfold simplify_mov in E. destruct op; try discriminate E; wf_shape Wi; cbn [mov_const] in E;
    match type of E with (if ?b then _ else _) = _ => destruct b eqn:B; try discriminate E end; injection E as <-;
    apply andb_prop in B as [B _]; apply negb_true_iff in B; apply mov_or_nop_settles; auto.
Qed.

Lemma known_zeros_faults ts op l f : wf_instr s (mkI op l) -> known_zeros ts op l = Err f -> F f.
Proof.
  intros Wi E. destruct op; try discriminate E; wf_shape Wi; cbn [known_zeros] in E; try discriminate E.
  1, 2, 3: destruct (is_const _ _); [|discriminate E];
    match type of E with res_bind ?c _ = _ => destruct c as [|f'] eqn:Es; [discriminate E|]; injection E as <-; apply HF; left; unfold c_shift in Es; destruct (_ && _); congruence end.
  destruct C as (? & ? & ?). bits_of ty. rewrite !c_shift_ok in E by lia. discriminate E.
Qed.

Lemma known_zeros_one ts op l m aff : wf_instr s (mkI op l) -> known_zeros ts op l = Ok (m, aff) -> result_mask op m = 0 \/ aff = 0 -> nb_oargs (tcg_op_defs op) = 1%nat.
Proof.
  intros Wi K Z0. destruct op; try reflexivity; exfalso; cbn [known_zeros] in K; injection K as <- <-; try (destruct ty); destruct Z0; discriminate.
Qed.

Lemma simplify_mask_settles ts op l m aff : flag_ok op = true -> linked s ts -> wf_instr s (mkI op l) -> known_zeros ts op l = Ok (m, aff) ->
  match simplify_mask s ts op l (result_mask op m) aff with Ok (Some r) => linked s r.1 | Ok None => aff <> 0 | Err f => F f end.
Proof.
  intros Hf L Wi K. unfold simplify_mask. destruct (Z.eqb_spec (result_mask op m) 0) as [Em|]; [|destruct (Z.eqb_spec aff 0) as [->|]; [|done]];
    (pose proof (known_zeros_one ts op l m _ Wi K ltac:(auto)) as H1; destruct (known_zeros_typed s ts op l m _ Hf Wi K H1 ltac:(auto)) as (_ & Vd & _ & Va));
    rewrite H1; cbn [Nat.eqb c_assert res_bind].
  - apply gen_movi_linked; [done|done|unfold in_word; lia].
  - pose proof (mov_const_settles ts op (nth 0 l 0) (nth 1 l 0) L Vd Va) as S. by destruct (mov_const_or_nop _ _ _ _ _).
Qed.

(** A bitwise OR of a constant with itself is the one operation that the
    source asserts away. *)
Definition or_ok ts (op : TCGOpcode) (l : list Z) : Prop := match op, l with INDEX_op_or _, [_; a; b] => a = b -> is_const ts a = false | _, _ => True end.

Lemma simplify_same_settles ts op l m aff : linked s ts -> wf_instr s (mkI op l) -> known_zeros ts op l = Ok (m, aff) -> aff <> 0 -> or_ok ts op l \/ F AssertFailed ->
  match simplify_same s ts op l with Ok (Some r) => linked s r.1 | Ok None => True | Err f => F f end.
Proof.
  intros L Wi K Ha Ho. destruct op; try (unfold simplify_same; by destruct l as [|? [|? [|? [|? ?]]]]); wf_shape Wi; cbn [simplify_same].
  all: try (destruct (const_is _ _ _); [apply gen_movi_linked; [done|done|unfold in_word; lia]|]); try done.
  all: destruct (temps_are_copies_spec s ts z0 z1 L ltac:(done) ltac:(done)) as (c & -> & Hc); cbn [res_bind]; destruct c; try done; try (apply gen_movi_linked; [done|done|unfold in_word; lia]).
  - destruct (Hc eq_refl) as [_ Hn]. pose proof (mov_or_nop_settles ts (INDEX_op_and ty) z z0 L ltac:(done) ltac:(done)) as S. destruct (mov_or_nop _ _ _ _ _); [apply S|apply S]; left.
    all: destruct (decide (z0 = z1)) as [->|]; [|by apply Hn]; destruct (is_const ts z1) eqn:Ek; [|done]; exfalso; apply Ha; cbn [known_zeros] in K; rewrite Ek in K;
      injection K as _ <-; destruct (L z1 ltac:(done)) as [Mw _]; zbits; destruct (Z.testbit (mask (ts z1)) i) eqn:B; [|done]; by rewrite andb_false_r.
  - destruct (Hc eq_refl) as [_ Hn]. cbn [or_ok] in Ho. pose proof (mov_or_nop_settles ts (INDEX_op_or ty) z z0 L ltac:(done) ltac:(done)) as S.
    assert (is_const ts z0 = false \/ F AssertFailed) as A by (destruct Ho as [Ho|]; [left; destruct (decide (z0 = z1)); auto|by right]).
    specialize (S A). by destruct (mov_or_nop _ _ _ _ _).
Qed.

Lemma shift_faults w n f : c_shift w n = Err f -> arithmetic f.
Proof. unfold c_shift. destruct (_ && _); [done|]. intros [= <-]. by left. Qed.

Lemma fold_faults op x y f : foldable_1 op || foldable_2 op = true -> do_constant_folding op x y = Err f -> arithmetic f.
Proof.
  intros Hop E. unfold do_constant_folding in E. destruct (do_constant_folding_2 op x y) as [|g] eqn:E2; [discriminate E|]. injection E as <-.
  destruct op; try discriminate Hop; try destruct ty; cbn [do_constant_folding_2] in E2; unfold rol32, ror32, rol64, ror64, signed_div in E2; try discriminate E2.
  all: repeat match type of E2 with res_bind (c_shift ?w ?n) _ = _ => let Es := fresh "Es" in destruct (c_shift w n) eqn:Es; cbn [res_bind] in E2; [|injection E2 as <-; by eapply shift_faults] end; try discriminate E2.
  all: match type of E2 with res_bind (if ?b then _ else _) _ = _ => destruct b; [|discriminate E2] end; injection E2 as <-; by right.
Qed.

Lemma cond_total ts op a b c : linked s ts -> valid s a -> valid s b -> c ∈ conds -> exists r, do_constant_folding_cond s ts op a b c = Ok r.
Proof.
  intros L Va Vb Hc. unfold do_constant_folding_cond. destruct (_ && _).
  { rewrite cond_w_compare. destruct (compare_total (op_bits op) (uwrap (op_bits op) (val (ts a))) (uwrap (op_bits op) (val (ts b))) c Hc) as [t ->]. by eexists. }
  destruct (temps_are_copies_spec s ts a b L Va Vb) as (cp & -> & _). cbn [res_bind]. destruct cp; [|destruct (const_is _ _ _); by eexists].
  destruct (cond_eq_total c Hc) as [t ->]. by eexists.
Qed.

Lemma cond2_total ts al ah bl bh c : linked s ts -> valid s al -> valid s ah -> valid s bl -> valid s bh -> c ∈ conds -> exists r, do_constant_folding_cond2 s ts al ah bl bh c = Ok r.
Proof.
  intros L Val Vah Vbl Vbh Hc. unfold do_constant_folding_cond2. destruct (_ && (is_const ts al && _)).
  { rewrite cond_w_compare. destruct (compare_total 64 (u64 (cond2_val ts al ah)) (u64 (cond2_val ts bl bh)) c Hc) as [t ->]. by eexists. }
  destruct (_ && bool_decide _); [by eexists|]. destruct (temps_are_copies_spec s ts al bl L Val Vbl) as (c1 & -> & _). cbn [res_bind]. destruct c1; [|by eexists].
  destruct (temps_are_copies_spec s ts ah bh L Vah Vbh) as (c2 & -> & _). cbn [res_bind negb]. destruct c2; [|by eexists].
  destruct (cond_eq_total c Hc) as [t ->]. by eexists.
Qed.

Lemma const_val_word ts t : linked s ts -> valid s t -> is_const ts t = true -> in_word 64 (val (ts t)).
Proof. intros L Vt Hc. destruct (L t Vt) as [_ K]. unfold is_const in Hc. apply bool_decide_eq_true in Hc. rewrite Hc in K. by destruct K. Qed.

Lemma default_settles ts op l m : linked s ts -> op <> INDEX_op_call -> wf_instr s (mkI op l) -> in_word 64 m -> linked s (do_default s ts (mkI op l) m).1.
Proof.
  intros L Nc Wi Hm. unfold do_default. cbn [fst opc]. destruct (has_flag _ _); [apply reset_all_linked|]. destruct (wf_data s (mkI op l) Nc Wi) as (Fo & _).
  apply has_types_valid in Fo. destruct (oargs _) as [|d outs]; [done|]. apply List.Forall_cons_iff in Fo as [Vd Fo]. apply resets_linked; [|done]. by apply masked_linked.
Qed.

Lemma known_branch_linked ts t lab : linked s ts -> linked s (known_branch s ts t lab).1.
Proof. intros L. destruct t; [apply reset_all_linked|done]. Qed.

Lemma movi2_linked ts rl rh v : linked s ts -> valid s rl -> valid s rh -> linked s (gen_movi2 ts rl rh v).1.
Proof.
  intros L Vl Vh. unfold gen_movi2. pose proof (gen_movi_linked ts (INDEX_op_add TCG_TYPE_I32) rl (u32 v) L Vl (in_word_uw TCG_TYPE_I32 v)) as L1.
  exact (gen_movi_linked _ (INDEX_op_add TCG_TYPE_I32) rh _ L1 Vh (in_word_uw TCG_TYPE_I32 (Z.shiftr v 32))).
Qed.

Lemma call_settles ts l : wf_context s -> linked s ts -> wf_instr s (mkI INDEX_op_call l) -> linked s (opt_call s ts (mkI INDEX_op_call l)).1.
Proof.
  intros C L (Fo & _). unfold opt_call. cbn [fst args]. apply resets_linked; [|done]. destruct (_ =? 0); [|done]. apply resets_linked; [done|by apply globals_valid].
Qed.

Lemma fold_settles ts op d x y : linked s ts -> valid s d -> flag_ok op = true -> foldable_1 op || foldable_2 op = true -> in_word 64 x -> in_word 64 y ->
  settles F (let* v := do_constant_folding op x y in Ok (one (tcg_opt_gen_movi ts op d v))).
Proof.
  intros L Vd Hf Hop Hx Hy. destruct (do_constant_folding op x y) as [v|f] eqn:E; [|apply HF; by eapply fold_faults].
  apply gen_movi_linked; [done|done|]. exact (fold_word op x y v Hf Hx Hy E).
Qed.

Lemma folds_settle ts op l m : linked s ts -> flag_ok op = true -> foldable_1 op || foldable_2 op = true -> wf_instr s (mkI op l) ->
  linked s (do_default s ts (mkI op l) m).1 -> settles F (propagate s ts (mkI op l) m).
Proof.
  intros L Hf Hop Wi D. destruct op; try discriminate Hop; wf_shape Wi; cbn [propagate opc args foldable_1 foldable_2 andb];
    match goal with
    | |- context [is_const ?ts ?a && is_const ?ts ?b] => destruct (is_const ts a) eqn:Ea, (is_const ts b) eqn:Eb; cbn [andb]; try exact D
    | |- context [is_const ?ts ?a] => destruct (is_const ts a) eqn:Ea; try exact D
    end; apply fold_settles; try done; try (by apply const_val_word); unfold in_word; lia.
Qed.

Lemma propagate_settles ts op l m : wf_context s -> linked s ts -> flag_ok op = true -> wf_instr s (mkI op l) -> in_word 64 m -> settles F (propagate s ts (mkI op l) m).
Proof.
  intros C L Hf Wi Hm. destruct (decide (op = INDEX_op_call)) as [->|Nc]; [by apply call_settles|].
  pose proof (default_settles ts op l m L Nc Wi Hm) as D. destruct (special op) eqn:Sp; [|by rewrite propagate_default].
  unfold special in Sp. destruct (foldable_1 op || foldable_2 op) eqn:Hop; [by apply folds_settle|].
  destruct op; try discriminate Sp; try discriminate Hop; try done; try (destruct ty; discriminate Sp); clear Hop Hf Nc.
  - assert (valid s (nth 0 l 0) /\ valid s (nth 1 l 0) /\ exists d a, l = [d; a]) as (Vd & Va & d & a & ->) by (destruct ty; wf_shape Wi; eauto). by apply settles_one, mov_const_settles.
  - wf_shape Wi. by apply gen_movi_linked.
  - wf_shape Wi. cbn [propagate opc args]. destruct (cond_total ts (INDEX_op_setcond ty) z0 z1 z2 L) as [[t|] ->]; try done. apply gen_movi_linked; [done|done|apply (truth_word t)].
  - wf_shape Wi. cbn [propagate opc args]. destruct (cond_total ts (INDEX_op_movcond ty) z0 z1 z4 L) as [[t|] ->]; try done. apply settles_one, mov_const_settles; try done. by destruct t.
  - wf_shape Wi. cbn [propagate opc args]. destruct (is_const ts z0) eqn:Ea, (is_const ts z1) eqn:Eb; try exact D. destruct C0 as (? & ? & ?). bits_of ty.
    cbn [andb]. rewrite !c_shift_ok by lia. apply gen_movi_linked; [done|done|]. apply in_word_lor; auto with words. apply in_word_land; [lia|by apply const_val_word].
  - wf_shape Wi. cbn [propagate opc args]. destruct (cond_total ts (INDEX_op_brcond ty) z z0 z1 L) as [[t|] ->]; try done. by apply known_branch_linked.
  - destruct ty; [|discriminate Sp]. wf_shape Wi. cbn [propagate opc args]. destruct (_ && _); [|exact D]. by apply movi2_linked.
  - destruct ty; [|discriminate Sp]. wf_shape Wi. cbn [propagate opc args]. destruct (_ && _); [|exact D]. by apply movi2_linked.
  - destruct ty; [|discriminate Sp]. wf_shape Wi. cbn [propagate opc args]. destruct (_ && _); [|exact D]. by apply movi2_linked.
  - wf_shape Wi. cbn [propagate opc args]. destruct (cond2_total ts z z0 z1 z2 z3 L) as [[t|] ->]; try done; cbn [res_bind]; [by apply known_branch_linked|].
    destruct (sign_test _ _ _ _); [apply reset_all_linked|exact D].
  - wf_shape Wi. cbn [propagate opc args]. destruct (cond2_total ts z0 z1 z2 z3 z4 L) as [[t|] ->]; try done; cbn [res_bind]; [apply gen_movi_linked; [done|done|apply (truth_word t)]|].
    destruct (sign_test _ _ _ _); [by apply reset_temp_linked|exact D].
Qed.

(** The operands of an OR differ in the code, as [tcg_gen_or_i32] sees to. *)
Definition or_distinct (i : instr) : Prop := match opc i, args i with INDEX_op_or _, [_; a; b] => a <> b | _, _ => True end.

Lemma or_distinct_ok ts i l : wf_instr s i -> or_distinct i -> wf_instr s (mkI (opc i) l) -> Forall2 (better s ts) (ins_of i) (ins_of (mkI (opc i) l)) ->
  or_ok ts (opc i) (canonicalize ts (opc i) l).
Proof.
  intros Wi Hd Wl B. destruct i as [op l0]. cbn [opc] in *. destruct op; try done. wf_shape Wi. wf_shape Wl. unfold or_distinct in Hd. cbn [opc args] in Hd.
  cbv [ins_of iargs opc args tcg_op_defs nb_oargs nb_iargs take drop] in B. apply List.Forall2_cons_iff in B as [[_ Ba] B]. apply List.Forall2_cons_iff in B as [[_ Bb] _].
  cbn [canonicalize commutative]. destruct (swap_cases ts z2 z3 z4) as [(? & -> & _)|(? & -> & _)]; cbn [or_ok]; intros <-; destruct Ba as [->|[? _]], Bb as [->|[? _]]; done.
Qed.

Lemma optimize_op_settles ts i : wf_context s -> linked s ts -> flag_ok (opc i) = true -> wf_instr s i -> or_distinct i \/ F AssertFailed -> settles F (optimize_op s ts i).
Proof.
  intros C L Hf Wi Hd. unfold optimize_op. destruct (propagate_copies_spec s ts i L Wi) as (l & -> & Wl & _ & B). cbn [res_bind]. cbn zeta.
  assert (or_ok ts (opc i) (canonicalize ts (opc i) l) \/ F AssertFailed) as Ho by (destruct Hd; [left; by apply or_distinct_ok|by right]).
  assert (wf_instr s (mkI (opc i) (canonicalize ts (opc i) l))) as Wc by (exact (proj1 (canonicalize_same (W := unit) s ts (fun _ => 0) (opc i) l Wl))).
  set (l2 := canonicalize ts (opc i) l) in *. clearbody l2. destruct (simplify_unary s ts (opc i) l2) as [r|] eqn:E1; [by eapply simplify_unary_settles|].
  destruct (simplify_mov s ts (opc i) l2) as [r|] eqn:E2; [by eapply settles_one, simplify_mov_settles|].
  destruct (known_zeros ts (opc i) l2) as [[m aff]|f] eqn:K; cbn [res_bind]; [|by eapply known_zeros_faults].
  pose proof (simplify_mask_settles ts (opc i) l2 m aff Hf L Wc K) as S. destruct (simplify_mask _ _ _ _ _ _) as [[r|]|f]; cbn [res_bind]; [done| |done].
  pose proof (simplify_same_settles ts (opc i) l2 m aff L Wc K S Ho) as S2. destruct (simplify_same _ _ _ _) as [[r|]|f]; cbn [res_bind]; [done| |done].
  apply propagate_settles; try done. destruct (known_zeros_word s ts (opc i) l2 m aff L Wc K) as [Mw _]. unfold result_mask. destruct (_ =? 0); [by apply in_word_land|done].
Qed.
End Stages.

Lemma optimize_op_linked ts i ts' out : wf_context s -> linked s ts -> flag_ok (opc i) = true -> wf_instr s i -> optimize_op s ts i = Ok (ts', out) -> linked s ts'.
Proof. intros C L Hf Wi E. pose proof (optimize_op_settles (fun _ => True) ltac:(done) ts i C L Hf Wi ltac:(by right)) as S. by rewrite E in S. Qed.
End Total.
