(* ===== verification/TcgTyping.v ===== *)
(** * Typed code does not go wrong

    A run of well-typed, closed code only stops at undefined arithmetic. *)

From stdpp Require Import base list numbers.
From S2P Require Import Prelude MemRegion Tcg TcgOptimize TcgFacts TcgCopies TcgKnown TcgTotal.

(** The labels that an operation may jump to. *)
Definition targets (i : instr) : list Z :=
  match opc i with INDEX_op_br => cargs i | INDEX_op_brcond _ | INDEX_op_brcond2_i32 => drop 1 (cargs i) | _ => [] end.
Definition leaves (i : instr) : bool := match opc i with INDEX_op_br | INDEX_op_exit_tb => true | _ => false end.

(** Every target is in the block, and the block does not end in the middle. *)
Definition closed (code : list instr) : Prop :=
  Forall (fun i => Forall (fun l => is_Some (label_pos code l)) (targets i)) code /\ exists pre i, code = pre ++ [i] /\ leaves i = true.

Lemma label_pos_lt code l pc : label_pos code l = Some pc -> (pc < List.length code)%nat.
Proof.
  revert pc. induction code as [|i code IH]; intros pc; [done|]. cbn [label_pos List.length]. destruct (_ && _); [intros [= <-]; lia|].
  destruct (label_pos code l) as [k|]; [|done]. intros [= <-]. specialize (IH k eq_refl). lia.
Qed.

(** Results of an operation on values with the right number of operands. *)
Lemma eval_safe op ins cs : computing op = true -> List.length ins = nb_iargs (tcg_op_defs op) -> List.length cs = nb_cargs (tcg_op_defs op) -> consts_ok op cs ->
  exists r, eval op ins cs = Some r /\ forall f, r = Err f -> arithmetic f.
Proof.
  intros Hc Li Lc Hk. destruct op; try discriminate Hc; cbn in Li, Lc; repeat (destruct ins as [|? ins]; try discriminate Li); repeat (destruct cs as [|? cs]; try discriminate Lc);
    cbn [eval on1 on2 on3 on4 consts_ok] in *; eexists; (split; [reflexivity|]); intros f E; try discriminate E;
    unfold signed_div, shift_count, c_div, c_mod in E.
  all: try match type of E with context [tci_compare ?w ?a ?b ?c] => destruct (compare_total w a b c Hk) as [? Ec]; rewrite Ec in E; discriminate E end.
  all: try match type of E with context [c_shift ?w ?n] => destruct (c_shift w n) eqn:Es; [discriminate E|]; injection E as <-; by eapply shift_faults end.
  all: match type of E with context [if ?b then _ else _] => destruct b; [|discriminate E] end; injection E as <-; by right.
Qed.

Section Safe.
Context {W : Type} `{TcgWorld W} (s : TCGContext) (C : wf_context s).

Lemma writes_env_ok ps : forall e, Forall (good_write s) ps -> env_ok s e -> env_ok s (wr e ps).
Proof.
  induction ps as [|[t v] ps IH]; intros e F O; [done|]. apply List.Forall_cons_iff in F as [[_ Hv] F]. apply IH; [done|]. intros x Hx. unfold upd. cbn [fst snd] in *.
  destruct (x =? t); [done|by apply O].
Qed.

Lemma exec_faults (w : W) e i f : wf_instr s i -> exec s w e i = Err f -> arithmetic f.
Proof.
  intros Wi E. destruct i as [op l]. destruct (computing op) eqn:Hc.
  - assert (op <> INDEX_op_call) as Nc by (by intros ->). destruct (wf_data s (mkI op l) Nc Wi) as (_ & _ & Hk & Len). cbn [opc args] in *. unfold nb_args in Len.
    rewrite exec_computes in E by done. unfold exec_eval in E. cbn [opc] in E.
    destruct (eval_safe op (rd op e <$> iargs (mkI op l)) (cargs (mkI op l)) Hc) as (r & Er & Hr); [..|done|].
    + rewrite length_fmap. unfold iargs. cbn [opc args]. rewrite length_take, length_drop. lia.
    + unfold cargs. cbn [opc args]. rewrite length_drop. lia.
    + rewrite Er in E. destruct r; [discriminate E|]. cbn in E. injection E as <-. by apply Hr.
  - destruct op; try discriminate Hc; try discriminate E; wf_shape Wi.
    all: try (cbn in E; discriminate E).
    all: try (cbn in E; first [destruct (w_guest_ld _ _ _ _ _) as [? [?|]] | destruct (w_guest_st _ _ _ _ _ _)]; discriminate E).
    + destruct (compare_total (bits ty) (rd (INDEX_op_brcond ty) e z) (rd (INDEX_op_brcond ty) e z0) z1 C0) as [t Ec].
      change (exec_branch w e (tci_compare (bits ty) (rd (INDEX_op_brcond ty) e z) (rd (INDEX_op_brcond ty) e z0)) [z1; z2] = Err f) in E.
      unfold exec_branch in E. rewrite Ec in E. discriminate E.
    + change (exec_branch w e (tci_compare 64 (pair_val TCG_TYPE_I32 (rd INDEX_op_brcond2_i32 e z) (rd INDEX_op_brcond2_i32 e z0))
        (pair_val TCG_TYPE_I32 (rd INDEX_op_brcond2_i32 e z1) (rd INDEX_op_brcond2_i32 e z2))) [z3; z4] = Err f) in E. unfold exec_branch in E.
      match type of E with context [tci_compare ?w ?a ?b ?c] => destruct (compare_total w a b c C0) as [t Ec] end. rewrite Ec in E. discriminate E.
Qed.

Lemma exec_flow (w w1 : W) e e1 i fl : wf_instr s i -> exec s w e i = Ok (w1, e1, fl) ->
  match fl with Next => leaves i = false | Jump l => l ∈ targets i | Leave _ => True end.
Proof.
  intros Wi E. destruct fl as [|l|o]; [| |done].
  - destruct i as [op l]. destruct op; try reflexivity; wf_shape Wi; discriminate E.
  - unfold targets. destruct (control (opc i)) eqn:Hc.
    + unfold exec, exec_branch in E. destruct (opc i); try discriminate Hc; try discriminate E;
        repeat (case_match; try discriminate E); simplify_eq; try (ok_inv E; injection E as <- <- El; try destruct x; try discriminate El; injection El as <-); try (left).
      unfold exec_call in E. destruct (w_helper _ _ _ _) as [? [[? ?]|]]; discriminate E.
    + rewrite exec_is_data in E by done. unfold exec_data, exec_host_load, exec_host_store, exec_guest_load, exec_guest_store, exec_eval in E.
      repeat (case_match; try discriminate E); simplify_eq; ok_inv E; discriminate E.
Qed.

Lemma exec_env_ok (w w1 : W) e e1 i fl : wf_instr s i -> env_ok s e -> exec s w e i = Ok (w1, e1, fl) -> env_ok s e1.
Proof.
  intros Wi O E. destruct (exec_same s w e e i i C Wi Wi) with (w1 := w1) (e1 := e1) (fl := fl) as (ps & F & -> & _); try done; [|by apply writes_env_ok].
  split; [done|]. by destruct (opc i).
Qed.

Lemma run_safe code fuel : Forall (wf_instr s) code -> closed code -> forall pc (w : W) e, (pc < List.length code)%nat -> env_ok s e ->
  match run s fuel code pc w e with Ok (_, e1, _) => env_ok s e1 | Err f => f = OutOfFuel \/ arithmetic f end.
Proof.
  intros Wc [Hl (pre & last & Ec & Hlast)]. induction fuel as [|fuel IH]; intros pc w e Hp O; [by left|]. cbn [run].
  destruct (lookup_lt_is_Some_2 code pc Hp) as [i Ei]. rewrite Ei. pose proof (list_elem_of_lookup_2 _ _ _ Ei) as Hi. apply list_elem_of_In in Hi.
  rewrite List.Forall_forall in Wc, Hl. pose proof (Wc i Hi) as Wi. pose proof (Hl i Hi) as Ti. destruct (exec s w e i) as [[[w1 e1] fl]|f] eqn:E; cbn [res_bind]; [|right; by eapply exec_faults].
  pose proof (exec_env_ok _ _ _ _ _ _ Wi O E) as O1. pose proof (exec_flow _ _ _ _ _ _ Wi E) as Fl. destruct fl as [|l|o]; [| |done].
  - apply IH; [|done]. assert (pc <> List.length pre) as Np; [|rewrite Ec, length_app in *; cbn in *; lia].
    intros ->. rewrite Ec, list_lookup_middle in Ei by done. injection Ei as <-. congruence.
  - rewrite List.Forall_forall in Ti. destruct (Ti l ltac:(by apply list_elem_of_In)) as [pc2 P]. rewrite P. apply IH; [by eapply label_pos_lt|done].
Qed.

(** Well-typed code is safe: a run of closed code from its start ends with
    registers of 64 bits, is still going, or has reached a shift or a division
    without defined behaviour; it never misses a label, runs off the end, or
    meets an operation with the wrong number of operands or an unknown
    condition. *)
Theorem typed_code_safe code fuel (w : W) e : Forall (wf_instr s) code -> closed code -> env_ok s e ->
  match run s fuel code 0 w e with Ok (_, e1, _) => env_ok s e1 | Err f => f = OutOfFuel \/ arithmetic f end.
Proof.
  intros Wc Hc O. apply run_safe; try done. destruct Hc as [_ (pre & last & -> & _)]. rewrite length_app. cbn. lia.
Qed.
End Safe.

(** ** An example *)

(** Temporaries of one type on a host with every operation. *)
Definition uniform (ty : TCGType) : TCGContext := mkCtx 1 8 (fun _ => ty) (fun _ => false) (fun _ => true) (fun _ => true).

(** A world that logs stores. *)
#[export] Instance store_log : TcgWorld (list (Z * Z)) := {|
  w_host_ld := fun _ _ _ => 0; w_host_st := fun w a _ v => (a, v) :: w; w_guest_ld := fun w _ a _ _ => (w, Some a); w_guest_st := fun w _ a v _ _ => ((a, v) :: w, true);
  w_helper := fun w _ gs _ => (w, Some ([], gs)); w_linked := fun _ _ => false
|}.

(** A constant and a copy, a branch that is always taken over dead code, a mask
    of known zeros and a store. *)
Definition example_code : list instr := [
  mkI (INDEX_op_movi TCG_TYPE_I64) [1; 5];
  mkI (INDEX_op_mov TCG_TYPE_I64) [2; 1];
  mkI (INDEX_op_add TCG_TYPE_I64) [3; 2; 0];
  mkI (INDEX_op_mov TCG_TYPE_I64) [4; 3];
  mkI (INDEX_op_brcond TCG_TYPE_I64) [4; 3; TCG_COND_EQ; 7];
  mkI INDEX_op_exit_tb [1];
  mkI INDEX_op_set_label [7];
  mkI (INDEX_op_ext8u TCG_TYPE_I64) [5; 3];
  mkI (INDEX_op_ext16u TCG_TYPE_I64) [6; 5];
  mkI (INDEX_op_sub TCG_TYPE_I64) [7; 5; 6];
  mkI (INDEX_op_st TCG_TYPE_I64) [6; 0; 16];
  mkI INDEX_op_exit_tb [0] ].

(** Typing of concrete code, by evaluation. *)
Ltac typecheck :=
  repeat first [apply List.Forall_nil | apply List.Forall_cons | apply List.Forall2_nil | apply List.Forall2_cons | split | reflexivity | exact I | lia
    | match goal with |- consts_ok _ _ => apply list_elem_of_In; cbn; tauto end].

Lemma typed_code_witness :
  match run (uniform TCG_TYPE_I64) 20 example_code 0 [] (fun _ => 300) with Ok (w, _, o) => w = [(316, 49)] /\ o = ExitTB 0 | Err _ => False end /\
  match run (uniform TCG_TYPE_I64) 20 example_code 0 [] (fun _ => 300) with Ok (_, e1, _) => env_ok (uniform TCG_TYPE_I64) e1 | Err f => f = OutOfFuel \/ arithmetic f end.
Proof.
  split; [vm_compute; split; reflexivity|]. apply (typed_code_safe (uniform TCG_TYPE_I64)); [split; cbn; lia|unfold example_code; typecheck| |intros t _; unfold in_word; lia].
  split; [unfold example_code; repeat first [apply List.Forall_nil | apply List.Forall_cons]; eexists; vm_compute; reflexivity|].
  exists (take 11 example_code), (mkI INDEX_op_exit_tb [0]). split; reflexivity.
Defined.
