(* ===== verification/TcgOptimizeClaims.v ===== *)
(** * Correctness of the optimizer

    An optimized translation block does what the block does: the same effects
    in the same order, the same exit, and the same values in every temporary
    and global at its type.  On well-formed code the pass ends, and only the
    undefined behaviour of the host's arithmetic can stop it. *)

From stdpp Require Import base list numbers.
From S2P Require Import Prelude HostUtils Bitops MemRegion Tcg TcgOptimize TcgFacts TcgCopies TcgKnown TcgStep TcgPropagate TcgBlock TcgTotal TcgTyping.

Section Runs.
Context {W : Type} `{TcgWorld W} (s : TCGContext).
Implicit Types (ts : tinfo) (e : env).

(** ** Code and its optimized form *)

Inductive optimized : tinfo -> list instr -> list instr -> Prop :=
| optimized_nil ts : optimized ts [] []
| optimized_one ts i ts' j code code' : optimize_op s ts i = Ok (ts', One j) -> optimized ts' code code' -> optimized ts (i :: code) (j :: code')
| optimized_two ts i ts' j1 j2 l code code' : optimize_op s ts i = Ok (ts', Two j1 j2) -> optimized ts' code code' ->
    optimized ts (i :: mkI INDEX_op_nop l :: code) (j1 :: j2 :: code').

Lemma optimize_ops_optimized n : forall ts code code', (List.length code <= n)%nat -> optimize_ops s ts code = Ok code' -> optimized ts code code'.
Proof.
  induction n as [|n IH]; intros ts [|i code] code' Hn E; cbn [optimize_ops length] in *; try lia; try (apply Ok_inj in E; subst; constructor).
  apply bind_Ok in E as ([ts' out] & E1 & E). destruct out as [j|j1 j2].
  - apply bind_Ok in E as (rest & E2 & E). apply Ok_inj in E. subst code'. eapply optimized_one; [exact E1|]. apply IH; [lia|done].
  - destruct code as [|[op l] code]; [discriminate E|]. destruct op; try discriminate E. apply bind_Ok in E as (rest & E2 & E). apply Ok_inj in E. subst code'.
    eapply optimized_two; [exact E1|]. cbn [length] in Hn. apply IH; [lia|done].
Qed.

Definition wf_code (code : list instr) : Prop := Forall (fun i => wf_instr s i /\ flag_ok (opc i) = true) code.

(** Positions of labels are kept, and the rest of the code from a label on is
    optimized on its own. *)
Lemma optimized_labels ts code code' l : wf_context s -> linked s ts -> wf_code code -> optimized ts code code' -> label_pos code' l = label_pos code l.
Proof.
  intros C L Wc O. revert L Wc. induction O as [ts|ts i ts' j code code' E O IH|ts i ts' j1 j2 nl code code' E O IH]; intros L Wc; [done|..];
    apply List.Forall_cons_iff in Wc as [[Wi Hf] Wc]; pose proof (optimize_op_linked s ts i _ _ C L Hf Wi E) as L'; cbn [label_pos].
  - destruct (decide (opc i = INDEX_op_set_label)) as [El|Nl].
    + rewrite (optimize_op_label s ts i Wi El) in E. apply Ok_inj in E. injection E as <- <-. by rewrite IH.
    + pose proof (optimize_op_not_label s ts i _ _ L Wi Nl E) as Nj. cbn [not_label] in Nj. rewrite !label_test_no by done. by rewrite IH.
  - apply List.Forall_cons_iff in Wc as [_ Wc]. destruct (decide (opc i = INDEX_op_set_label)) as [El|Nl]; [by rewrite (optimize_op_label s ts i Wi El) in E|].
    destruct (optimize_op_not_label s ts i _ _ L Wi Nl E) as [N1 N2]. rewrite !label_test_no by done. by rewrite IH.
Qed.

(** The code from a label on, with its optimized form. *)
Lemma optimized_from_label ts code code' l pc : wf_context s -> linked s ts -> wf_code code -> optimized ts code code' -> label_pos code l = Some pc ->
  exists ts', linked s ts' /\ optimized ts' (drop pc code) (drop pc code') /\ exists rest, drop pc code = mkI INDEX_op_set_label [l] :: rest.
Proof.
  intros C L Wc O. revert pc L Wc. induction O as [ts|ts i ts' j code code' E O IH|ts i ts' j1 j2 nl code code' E O IH]; intros pc L Wc P; [discriminate P|..];
    apply List.Forall_cons_iff in Wc as [[Wi Hf] Wc]; pose proof (optimize_op_linked s ts i _ _ C L Hf Wi E) as L'; cbn [label_pos] in P; destruct (_ && _) eqn:Lt.
  - injection P as <-. exists ts. split; [done|]. split; [by eapply optimized_one|]. rewrite (label_test _ _ Lt). by eexists.
  - destruct (label_pos code l) as [k|]; [|discriminate P]. injection P as <-. by apply IH.
  - apply label_test in Lt. subst i. by rewrite (optimize_op_label s ts _ Wi eq_refl) in E.
  - cbn [opc] in P. rewrite bool_decide_false in P by done. cbn [andb] in P. apply List.Forall_cons_iff in Wc as [_ Wc].
    destruct (label_pos code l) as [k|]; [|discriminate P]. injection P as <-. by apply IH.
Qed.

(** ** Runs *)

(** The result of a run of the optimized code, given that of the code: the same
    but for the registers, which agree at their types; code that does not end
    does not end; faults of the code are not constrained. *)
Definition matches (r r' : res (W * env * outcome)) : Prop :=
  match r with
  | Ok (w, e, o) => exists e', r' = Ok (w, e', o) /\ sim s e e'
  | Err OutOfFuel => r' = Err OutOfFuel
  | Err _ => True
  end.

Section Block.
Context (C : wf_context s) (code code' : list instr) (ts0 : tinfo) (L0 : linked s ts0) (Wc : wf_code code) (O0 : optimized ts0 code code').

Lemma wf_at pc i rest : drop pc code = i :: rest -> wf_instr s i /\ flag_ok (opc i) = true.
Proof. intros E. apply lookup_rest in E as [E _]. unfold wf_code in Wc. rewrite List.Forall_forall in Wc. apply Wc, list_elem_of_In. by eapply list_elem_of_lookup_2. Qed.

Lemma run_matches n : forall fuel ts pc (w : W) e e', (fuel <= n)%nat -> optimized ts (drop pc code) (drop pc code') -> linked s ts -> sim s e e' -> env_ok s e' ->
  (inv s ts e' \/ exists l rest, drop pc code = mkI INDEX_op_set_label [l] :: rest) ->
  matches (run s fuel code pc w e) (run s fuel code' pc w e').
Proof.
  induction n as [|n IH]; intros fuel ts pc w e e' Hn O L S Oe I; (destruct fuel as [|fuel]; [done|]); [lia|]. cbn [run].
  assert (forall l w e e', sim s e e' -> env_ok s e' ->
    matches (match label_pos code l with Some pc => run s fuel code pc w e | None => Err OutOfBounds end)
      (match label_pos code' l with Some pc => run s fuel code' pc w e' | None => Err OutOfBounds end)) as Jmp.
  { intros l w2 e2 e2' S2 Oe2. rewrite (optimized_labels ts0 code code' l C L0 Wc O0). destruct (label_pos code l) as [pc2|] eqn:P; [|done].
    destruct (optimized_from_label ts0 code code' l pc2 C L0 Wc O0 P) as (ts2 & L2 & O2 & rest & R). apply (IH fuel ts2); try done; [lia|]. right. eauto. }
  inversion O as [ts1 E1 E2|ts1 i ts' j c c' E O' E1 E2 E3|ts1 i ts' j1 j2 nl c c' E O' E1 E2 E3]; subst ts1; symmetry in E2.
  - assert (code !! pc = None) as -> by (rewrite <- (Nat.add_0_r pc), <- lookup_drop, E2; done). done.
  - symmetry in E3. destruct (lookup_rest _ _ _ _ E2) as [-> R1]. destruct (lookup_rest _ _ _ _ E3) as [-> R2].
    destruct (wf_at _ _ _ E2) as [Wi Hf]. pose proof (optimize_op_linked s ts i _ _ C L Hf Wi E) as L'. rewrite <- R1, <- R2 in O'.
    assert (simulates s e e' i ts' (One j)) as Sm.
    { destruct I as [I|(l & rest & Er)]; [by eapply optimize_op_simulates|]. rewrite E2 in Er. injection Er as -> _.
      rewrite (optimize_op_label s ts _ Wi eq_refl) in E. apply Ok_inj in E. injection E as <- <-. intros w1 w2 e1 fl Ex. injection Ex as <- <- <-.
      exists e'. split; [done|]. split; [done|]. split; [done|]. intros _. by apply reset_all_inv. }
    destruct (exec s w e i) as [[[w1 e1] fl]|f] eqn:Ex; cbn [res_bind]; [|destruct f; try done; by apply exec_no_fuel in Ex].
    destruct (Sm _ _ _ _ Ex) as (e1' & -> & S1 & O1 & I1). cbn [res_bind]. destruct fl as [|l|o]; [|by apply Jmp|by eexists].
    apply (IH fuel ts'); auto; lia.
  - symmetry in E3. destruct (lookup_rest _ _ _ _ E2) as [-> R1]. destruct (lookup_rest _ _ _ _ E3) as [-> R2].
    destruct (wf_at _ _ _ E2) as [Wi Hf]. pose proof (optimize_op_linked s ts i _ _ C L Hf Wi E) as L'.
    destruct I as [I|(l & rest & Er)]; [|rewrite E2 in Er; injection Er as -> _; by rewrite (optimize_op_label s ts _ Wi eq_refl) in E].
    pose proof (optimize_op_simulates s ts e e' i ts' _ C I S Hf Wi E) as Sm.
    destruct (exec s w e i) as [[[w1 e1] fl]|f] eqn:Ex; cbn [res_bind]; [|destruct f; try done; by apply exec_no_fuel in Ex].
    destruct (Sm _ _ _ _ Ex) as (-> & -> & e1' & e2' & -> & X2 & S2 & I2). cbn [res_bind]. destruct fuel as [|fuel]; [done|]. cbn [run].
    destruct (lookup_rest _ _ _ _ R1) as [-> R3]. destruct (lookup_rest _ _ _ _ R2) as [-> R4]. rewrite X2. cbn [exec opc res_bind].
    apply (IH fuel ts'); auto; [lia|by rewrite R3, R4|]. by eapply inv_env_ok.
Qed.
End Block.

(** ** The pass *)

(** The operations that may become two moves. *)
Definition doubles (op : TCGOpcode) : bool :=
  match op with INDEX_op_add2 TCG_TYPE_I32 | INDEX_op_sub2 TCG_TYPE_I32 | INDEX_op_mulu2 TCG_TYPE_I32 => true | _ => false end.

(** Each has a [nop] after it ("Allow the optimizer room"). *)
Fixpoint padded (code : list instr) : Prop :=
  match code with
  | [] => True
  | i :: code => (doubles (opc i) = true -> exists l rest, code = mkI INDEX_op_nop l :: rest) /\ padded code
  end.

Lemma propagate_two ts op l m ts' j1 j2 : propagate s ts (mkI op l) m = Ok (ts', Two j1 j2) -> doubles op = true.
Proof.
  intros E. destruct (special op) eqn:Sp; [|rewrite propagate_default in E by done; discriminate E].
  destruct op; try discriminate Sp; try discriminate E; try (destruct ty; try discriminate Sp); try reflexivity; exfalso; unfold propagate in E; cbn [opc args foldable_1 foldable_2 andb] in E.
  all: repeat first
    [ match type of E with context [match ?l with [] => _ | _ :: _ => _ end] => destruct l as [|? l]; try discriminate E end
    | match type of E with res_bind _ _ = Ok _ => apply bind_Ok in E as (? & ? & E) end
    | match type of E with (if ?b then _ else _) = Ok _ => destruct b end
    | match type of E with match ?r with Some _ => _ | None => _ end = Ok _ => destruct r end
    | match type of E with Ok (match ?r with Some _ => _ | None => _ end) = Ok _ => destruct r end
    | match type of E with Ok (if ?b then _ else _) = Ok _ => destruct b end
    | match type of E with Ok (known_branch _ _ ?t _) = Ok _ => is_var t; destruct t end ];
    discriminate E.
Qed.

Lemma optimize_op_two ts i ts' j1 j2 : optimize_op s ts i = Ok (ts', Two j1 j2) -> doubles (opc i) = true.
Proof.
  unfold optimize_op. intros E. apply bind_Ok in E as (l & _ & E). cbn zeta in E. destruct (simplify_unary _ _ _ _); [discriminate E|].
  destruct (simplify_mov _ _ _ _); [apply bind_Ok in E as (? & _ & E); discriminate E|]. apply bind_Ok in E as ([m aff] & _ & E). apply bind_Ok in E as (r & _ & E).
  destruct r; [discriminate E|]. apply bind_Ok in E as (r & _ & E). destruct r; [discriminate E|]. by eapply propagate_two.
Qed.

Lemma optimize_ops_settle n : forall ts code, (List.length code <= n)%nat -> wf_context s -> linked s ts -> wf_code code -> Forall or_distinct code -> padded code ->
  match optimize_ops s ts code with Ok code' => List.length code' = List.length code | Err f => arithmetic f end.
Proof.
  induction n as [|n IH]; intros ts [|i code] Hn C L Wc Fd P; cbn [optimize_ops List.length] in *; try lia; try done.
  apply List.Forall_cons_iff in Wc as [[Wi Hf] Wc]. apply List.Forall_cons_iff in Fd as [Di Fd]. destruct P as [Pi P].
  pose proof (optimize_op_settles s arithmetic ltac:(done) ts i C L Hf Wi ltac:(by left)) as S. destruct (optimize_op s ts i) as [[ts' out]|f] eqn:E; [|done].
  cbn [settles fst res_bind] in *. destruct out as [j|j1 j2].
  - specialize (IH ts' code ltac:(lia) C S Wc Fd P). destruct (optimize_ops s ts' code); [cbn; by rewrite IH|done].
  - apply optimize_op_two in E. destruct (Pi E) as (l & rest & ->). cbn [padded List.length] in *. apply List.Forall_cons_iff in Wc as [_ Wc]. apply List.Forall_cons_iff in Fd as [_ Fd].
    destruct P as [_ P]. specialize (IH ts' rest ltac:(lia) C S Wc Fd P). destruct (optimize_ops s ts' rest); [cbn; by rewrite IH|done].
Qed.

(** C9: Optimized code refines the code, on a 64-bit host whose 32-bit operations
    zero-extend their results, as the interpreter does, and for operations with
    the arguments and types of their descriptions other than [muluh_i64] and
    [mulsh_i64] ([wf_code]).  If the pass returns: whatever the world, the
    registers and the number of steps, a run of the block that leaves it leaves
    the optimized block after as many steps with the same effects, by the same
    exit, and with the same value in every temporary and global; and a run that
    has not ended has not ended. *)
Theorem tcg_optimize_correct ts code code' fuel (w : W) e : wf_context s -> wf_code code -> tcg_optimize s ts code = Ok code' -> env_ok s e ->
  matches (run s fuel code 0 w e) (run s fuel code' 0 w e).
Proof.
  intros C Wc E O. unfold tcg_optimize in E. apply (optimize_ops_optimized (List.length code)) in E; [|done].
  apply (run_matches C code code' _ (reset_all_linked s ts) Wc E fuel fuel (reset_all_temps (nb_temps s) ts)); try done; [apply reset_all_linked|].
  left. by apply reset_all_inv.
Qed.

(** C10: The pass ends.  On code of operations with the arguments and types of
    their descriptions (other than [muluh_i64] and [mulsh_i64]), without an OR
    of a temporary with itself and with a [nop] behind every double-word
    operation, it returns a block of the same length, or stops at an operation
    on constants that is undefined in C: a shift by the width or more, a
    rotation by 0 or by more than the width (its expression has such a shift),
    or a division by zero or with an overflow.  No walk along copies runs
    forever and no assertion fails. *)
Theorem tcg_optimize_total ts code : wf_context s -> wf_code code -> Forall or_distinct code -> padded code ->
  match tcg_optimize s ts code with Ok code' => List.length code' = List.length code | Err f => arithmetic f end.
Proof. intros C Wc Fd P. apply (optimize_ops_settle (List.length code)); try done. apply reset_all_linked. Qed.
End Runs.

(** ** The example, optimized *)

Definition blank : tinfo := fun _ => mkTI TCG_TEMP_UNDEF 0 0 0 0.

Definition example_optimized : list instr := [
  mkI (INDEX_op_movi TCG_TYPE_I64) [1; 5];
  mkI (INDEX_op_movi TCG_TYPE_I64) [2; 5];
  mkI (INDEX_op_add TCG_TYPE_I64) [3; 0; 2];
  mkI (INDEX_op_mov TCG_TYPE_I64) [4; 3];
  mkI INDEX_op_br [7];
  mkI INDEX_op_exit_tb [1];
  mkI INDEX_op_set_label [7];
  mkI (INDEX_op_ext8u TCG_TYPE_I64) [5; 3];
  mkI (INDEX_op_mov TCG_TYPE_I64) [6; 5];
  mkI (INDEX_op_movi TCG_TYPE_I64) [7; 0];
  mkI (INDEX_op_st TCG_TYPE_I64) [6; 0; 16];
  mkI INDEX_op_exit_tb [0] ].

Lemma example_wf : wf_code (uniform TCG_TYPE_I64) example_code.
Proof. unfold wf_code, example_code. typecheck. Qed.

(** The theorem at the example, from a start where global 0 is 300: both blocks
    store 49. *)
Lemma tcg_optimize_witness :
  tcg_optimize (uniform TCG_TYPE_I64) blank example_code = Ok example_optimized /\
  matches (uniform TCG_TYPE_I64) (run (uniform TCG_TYPE_I64) 20 example_code 0 [] (fun _ => 300))
    (run (uniform TCG_TYPE_I64) 20 example_optimized 0 [] (fun _ => 300)) /\
  (fun r => match r with Ok (w, _, o) => Some (w, o) | Err _ => None end) (run (uniform TCG_TYPE_I64) 20 example_optimized 0 [] (fun _ => 300)) =
    Some ([(316, 49)], ExitTB 0).
Proof.
  split; [vm_compute; reflexivity|]. split; [|vm_compute; reflexivity]. apply (tcg_optimize_correct (uniform TCG_TYPE_I64) blank); [split; cbn; lia|exact example_wf|vm_compute; reflexivity|].
  intros t _. unfold in_word. lia.
Defined.

Lemma tcg_optimize_total_witness : match tcg_optimize (uniform TCG_TYPE_I64) blank example_code with Ok code' => List.length code' = 12%nat | Err f => arithmetic f end.
Proof.
  apply (tcg_optimize_total (uniform TCG_TYPE_I64) blank example_code); [split; cbn; lia|exact example_wf| |].
  - unfold example_code. repeat first [apply List.Forall_nil | apply List.Forall_cons; [exact I|]].
  - cbn. repeat split; intros E; discriminate E.
Defined.

(** ** Where the optimizer fails *)

(** The high half of a 64-bit product of constants is cut to 32 bits: the
    operation lacks the flag of 64-bit operations, so that the folded result is
    masked, while the operation itself returns the whole high half. *)
Theorem muluh_i64_truncated x y : in_word 64 x -> in_word 64 y ->
  do_constant_folding (INDEX_op_muluh TCG_TYPE_I64) x y = Ok (u32 (Z.shiftr (x * y) 64)) /\
  eval (INDEX_op_muluh TCG_TYPE_I64) [x; y] [] = Some (Ok [Z.shiftr (x * y) 64]).
Proof.
  intros Hx Hy. assert (in_word 64 (Z.shiftr (x * y) 64)) as Hw.
  { rewrite Z.shiftr_div_pow2 by lia. unfold in_word in *. split; [apply Z.div_pos; nia|]. apply Z.div_lt_upper_bound; nia. }
  split; [|cbn [eval on2 bits]; by rewrite (uwrap_small 64)].
  unfold do_constant_folding. cbn [do_constant_folding_2 res_bind]. change (op_bits _ =? 32) with true. cbv iota. change 4294967295 with (Z.ones 32).
  rewrite Z.land_ones by lia. unfold mulu64. cbn [snd]. rewrite (uwrap_small 128) by (unfold in_word in *; nia). by rewrite (uwrap_small 64).
Qed.

(** The product of two times the sign bit: the high half is bit 62 alone, and is
    folded to zero. *)
Lemma muluh_i64_truncated_witness :
  do_constant_folding (INDEX_op_muluh TCG_TYPE_I64) (2 ^ 63) (2 ^ 63) = Ok 0 /\ eval (INDEX_op_muluh TCG_TYPE_I64) [2 ^ 63; 2 ^ 63] [] = Some (Ok [2 ^ 62]).
Proof. apply (muluh_i64_truncated (2 ^ 63) (2 ^ 63)); unfold in_word; lia. Defined.

(** A division of the least number by -1 behind a jump. *)
Definition dead_division (ty : TCGType) : list instr := [
  mkI INDEX_op_br [0];
  mkI (INDEX_op_movi ty) [1; 2 ^ (bits ty - 1)];
  mkI (INDEX_op_movi ty) [2; 2 ^ bits ty - 1];
  mkI (INDEX_op_div ty) [3; 1; 2];
  mkI INDEX_op_set_label [0];
  mkI INDEX_op_exit_tb [0] ].

(** A division that is never executed stops the optimizer: the divisor is
    tested for zero, but the quotient of the least number and -1 overflows on
    the host. *)
Theorem dead_division_stops_optimizer {W} `{TcgWorld W} ty ts (w : W) e :
  run (uniform ty) 3 (dead_division ty) 0 w e = Ok (w, e, ExitTB 0) /\ tcg_optimize (uniform ty) ts (dead_division ty) = Err DivisionByZero.
Proof. destruct ty; split; reflexivity. Qed.

(** An OR of a constant with itself. *)
Theorem or_same_constant_aborts ts :
  tcg_optimize (uniform TCG_TYPE_I64) ts [mkI (INDEX_op_movi TCG_TYPE_I64) [1; 1]; mkI (INDEX_op_or TCG_TYPE_I64) [2; 1; 1]] = Err AssertFailed.
Proof. reflexivity. Qed.

(** A rotation of a constant by zero shifts by the width of the word. *)
Theorem rotate_by_zero_is_undefined x : do_constant_folding (INDEX_op_rotl TCG_TYPE_I32) x 0 = Err UndefinedShift.
Proof. reflexivity. Qed.

(** The upper half of a 32-bit temporary is read: a zero extension of the result
    of a 32-bit operation becomes a 64-bit move. *)
Definition mixed : TCGContext := mkCtx 1 4 (fun t => if t =? 3 then TCG_TYPE_I64 else TCG_TYPE_I32) (fun _ => false) (fun _ => true) (fun _ => true).
Theorem extension_becomes_move ts :
  tcg_optimize mixed ts [mkI (INDEX_op_add TCG_TYPE_I32) [2; 0; 1]; mkI INDEX_op_ext32u_i64 [3; 2]] =
    Ok [mkI (INDEX_op_add TCG_TYPE_I32) [2; 0; 1]; mkI (INDEX_op_mov TCG_TYPE_I64) [3; 2]].
Proof. reflexivity. Qed.
