(* ===== verification/TcgLiveness.v ===== *)
(** * Liveness analysis

    [tcg_liveness_analysis] of tcg/tcg.c: a walk from the end of the code to its
    start that removes operations whose outputs are dead, narrows double-word
    operations of which one half is dead, and tells the register allocator for
    each argument whether it is dead after the operation ([op_dead_args]) and
    whether it must be stored ([op_sync_args]).  An operation carries its
    arguments, so the pointer into the argument buffer is implicit. *)

From stdpp Require Import base list numbers.
From S2P Require Import Prelude Tcg.

(** [dead_temps] and [mem_temps] *)
Record liveness : Type := mkLive { dead_temps : Z -> bool; mem_temps : Z -> bool }.

(** An operation with its [op_dead_args] and [op_sync_args]; [None] where the
    analysis leaves them unset. *)
Record entry : Type := mkEntry { e_instr : instr; e_args : option (Z * Z) }.

Definition TCG_CALL_DUMMY_ARG : Z := 2 ^ 64 - 1.

(** [tcg_set_nop] on the arguments [l] *)
Definition tcg_set_nop (l : list Z) : instr :=
  match l with
  | [] => mkI INDEX_op_nop []
  | _ => let n := Z.of_nat (length l) in mkI INDEX_op_nopn (<[(length l - 1)%nat := n]> (<[0%nat := n]> l))
  end.

Section Liveness.
Context (s : TCGContext) (TCG_TARGET_HAS_muluh TCG_TARGET_HAS_mulsh : TCGType -> bool).
Implicit Types la : liveness.

Definition is_global (t : Z) : bool := (0 <=? t) && (t <? nb_globals s).

Definition tcg_la_func_end : liveness := mkLive (fun _ => true) is_global.
Definition tcg_la_bb_end : liveness := mkLive (fun _ => true) (fun t => is_global t || temp_local s t).

(** The assignments to the two arrays. *)
Definition set_bool (a : Z -> bool) (t : Z) (b : bool) : Z -> bool := fun x => if x =? t then b else a x.
Definition set_dead la (t : Z) : liveness := mkLive (set_bool (dead_temps la) t true) (set_bool (mem_temps la) t false).
Definition set_live la (t : Z) : liveness := mkLive (set_bool (dead_temps la) t false) (mem_temps la).
Definition sync_globals la : liveness := mkLive (dead_temps la) (fun t => is_global t || mem_temps la t).
Definition kill_globals la : liveness := mkLive (fun t => is_global t || dead_temps la t) (mem_temps la).

(** Neither the register nor the memory of the temporary is needed. *)
Definition unneeded la (t : Z) : bool := dead_temps la t && negb (mem_temps la t).

Definition set_bit (w x k : Z) : Z := uwrap w (Z.lor x (Z.shiftl 1 k)).

(** The loop over output arguments, from argument [k] on. *)
Fixpoint output_args la (k : Z) (outs : list Z) (dead_args sync_args : Z) : liveness * (Z * Z) :=
  match outs with
  | [] => (la, (dead_args, sync_args))
  | t :: outs =>
      let dead_args := if dead_temps la t then set_bit 16 dead_args k else dead_args in
      let sync_args := if mem_temps la t then set_bit 8 sync_args k else sync_args in
      output_args (set_dead la t) (k + 1) outs dead_args sync_args
  end.

(** The loop over input arguments; a call may have dummies among them. *)
Fixpoint input_args la (dummies : bool) (k : Z) (ins : list Z) (dead_args : Z) : liveness * Z :=
  match ins with
  | [] => (la, dead_args)
  | t :: ins =>
      if dummies && (t =? TCG_CALL_DUMMY_ARG) then input_args la dummies (k + 1) ins dead_args else
      let dead_args := if dead_temps la t then set_bit 16 dead_args k else dead_args in
      input_args (set_live la t) dummies (k + 1) ins dead_args
  end.

(** [do_not_remove_call] *)
Definition keep_call la (i : instr) : liveness * entry :=
  let c := decode_call (args i) in
  let '(la, (dead_args, sync_args)) := output_args la 0 (c_outs c) 0 0 in
  let la := if Z.land (c_flags c) TCG_CALL_NO_READ_GLOBALS =? 0 then sync_globals la else la in
  let la := if Z.land (c_flags c) (Z.lor TCG_CALL_NO_WRITE_GLOBALS TCG_CALL_NO_READ_GLOBALS) =? 0 then kill_globals la else la in
  let '(la, dead_args) := input_args la true (Z.of_nat (length (c_outs c))) (c_ins c) dead_args in
  (la, mkEntry i (Some (dead_args, sync_args))).

Definition call_op la (i : instr) : liveness * entry :=
  let c := decode_call (args i) in
  if negb (Z.land (c_flags c) TCG_CALL_NO_SIDE_EFFECTS =? 0) && forallb (unneeded la) (c_outs c)
  then (la, mkEntry (tcg_set_nop (args i)) None)
  else keep_call la i.

(** [do_not_remove], for an operation with the flags [fl] *)
Definition do_not_remove la (fl : Z) (i : instr) (outs ins : list Z) : liveness * entry :=
  let '(la, (dead_args, sync_args)) := output_args la 0 outs 0 0 in
  let la :=
    if negb (Z.land fl TCG_OPF_BB_END =? 0) then tcg_la_bb_end
    else if negb (Z.land fl TCG_OPF_SIDE_EFFECTS =? 0) then sync_globals la
    else la in
  let '(la, dead_args) := input_args la false (Z.of_nat (length outs)) ins dead_args in
  (la, mkEntry i (Some (dead_args, sync_args))).

(** [do_remove] *)
Definition do_remove la (i : instr) : liveness * entry := (la, mkEntry (tcg_set_nop (args i)) None).

Definition default_op la (i : instr) : liveness * entry :=
  let def := tcg_op_defs (opc i) in
  if negb (has_flag def TCG_OPF_SIDE_EFFECTS) && negb (nb_oargs def =? 0)%nat && forallb (unneeded la) (oargs i)
  then do_remove la i
  else do_not_remove la (flags def) i (oargs i) (iargs i).

(** A narrowed operation, with what the [nop] behind it becomes. *)
Definition narrowed la (fl : Z) (i : instr) (outs ins rest_args : list Z) (rest : list entry) : res (liveness * list entry) :=
  match rest with
  | mkEntry (mkI INDEX_op_nop _) a :: rest =>
      let '(la, x) := do_not_remove la fl i outs ins in Ok (la, x :: mkEntry (tcg_set_nop rest_args) a :: rest)
  | _ => Err AssertFailed
  end.

(** [do_addsub2] *)
Definition do_addsub2 la (op_new : TCGOpcode) (i : instr) (rest : list entry) : res (liveness * list entry) :=
  let fl := flags (tcg_op_defs (opc i)) in
  match args i with
  | [rl; rh; al; ah; bl; bh] =>
      if unneeded la rh then
        if unneeded la rl then let '(la, x) := do_remove la i in Ok (la, x :: rest)
        else narrowed la fl (mkI op_new [rl; al; bl]) [rl] [al; bl] [ah; bl; bh] rest
      else let '(la, x) := do_not_remove la fl i [rl; rh] [al; ah; bl; bh] in Ok (la, x :: rest)
  | _ => Err OutOfBounds
  end.

(** [do_mul2] *)
Definition do_mul2 la (op_new op_new2 : TCGOpcode) (have_op_new2 : bool) (i : instr) (rest : list entry) : res (liveness * list entry) :=
  let fl := flags (tcg_op_defs (opc i)) in
  match args i with
  | [rl; rh; a; b] =>
      if unneeded la rh then
        if unneeded la rl then let '(la, x) := do_remove la i in Ok (la, x :: rest)
        else narrowed la fl (mkI op_new [rl; a; b]) [rl] [a; b] [b] rest
      else if have_op_new2 && unneeded la rl then narrowed la fl (mkI op_new2 [rh; a; b]) [rh] [a; b] [b] rest
      else let '(la, x) := do_not_remove la fl i [rl; rh] [a; b] in Ok (la, x :: rest)
  | _ => Err OutOfBounds
  end.

(** The body of the loop: the arrays after the operation, and the operations
    behind it as they are by now. *)
Definition liveness_op la (i : instr) (rest : list entry) : res (liveness * list entry) :=
  let one (r : liveness * entry) := Ok (r.1, r.2 :: rest) in
  match opc i with
  | INDEX_op_call => one (call_op la i)
  | INDEX_op_debug_insn_start | INDEX_op_nopn => one (la, mkEntry i None)
  | INDEX_op_discard => match args i with [t] => one (set_dead la t, mkEntry i None) | _ => Err OutOfBounds end
  | INDEX_op_add2 ty => do_addsub2 la (INDEX_op_add ty) i rest
  | INDEX_op_sub2 ty => do_addsub2 la (INDEX_op_sub ty) i rest
  | INDEX_op_mulu2 ty => do_mul2 la (INDEX_op_mul ty) (INDEX_op_muluh ty) (TCG_TARGET_HAS_muluh ty) i rest
  | INDEX_op_muls2 ty => do_mul2 la (INDEX_op_mul ty) (INDEX_op_mulsh ty) (TCG_TARGET_HAS_mulsh ty) i rest
  | _ => one (default_op la i)
  end.

Fixpoint liveness_ops (code : list instr) : res (liveness * list entry) :=
  match code with
  | [] => Ok (tcg_la_func_end, [])
  | i :: code => let* (la, rest) := liveness_ops code in liveness_op la i rest
  end.

Definition tcg_liveness_analysis (code : list instr) : res (list entry) :=
  let* (_, out) := liveness_ops code in Ok out.
End Liveness.
