(* ===== verification/TcgLivenessFacts.v ===== *)
(** * Liveness: what is needed, and what each rewriting keeps

    Two register files agree on the temporaries that are needed at a point; an
    operation and what the analysis makes of it lead from agreement on what is
    needed before it to agreement on what is needed after it. *)

From stdpp Require Import base list numbers sets.
From S2P Require Import Prelude Tcg TcgFacts TcgLiveness.

(** What the flags of helpers promise: a helper that does not read globals does
    not raise exceptions (an exception shows the globals), and one without side
    effects returns and leaves the world as it is. *)
Class LawfulHelpers (W : Type) `{TcgWorld W} : Prop := {
  helper_returns : forall w fl gs ins, Z.land fl TCG_CALL_NO_READ_GLOBALS <> 0 -> (w_helper w fl gs ins).2 <> None;
  helper_pure : forall w fl gs ins, Z.land fl TCG_CALL_NO_SIDE_EFFECTS <> 0 -> exists outs gs', w_helper w fl gs ins = (w, Some (outs, gs'))
}.

(** [TCG_MAX_TEMPS] of tcg.h *)
Definition TCG_MAX_TEMPS : Z := 512.

Definition ends_block (i : instr) : bool := has_flag (tcg_op_defs (opc i)) TCG_OPF_BB_END.

(** ** Steps by registers *)

Section Shape.
Context {W : Type} `{TcgWorld W} (s : TCGContext).

(** Operations with as many arguments as their description says, of any type:
    the optimizer leaves 64-bit moves of 32-bit temporaries. *)
Definition shaped (i : instr) : Prop :=
  match opc i with
  | INDEX_op_call => wf_call s (args i)
  | op => List.length (args i) = nb_args (tcg_op_defs op) /\ Forall (valid s) (oargs i) /\ Forall (valid s) (iargs i)
  end.

Lemma wf_shaped i : wf_instr s i -> shaped i.
Proof.
  intros Wi. destruct (decide (opc i = INDEX_op_call)) as [Ec|Nc]; [unfold wf_instr, shaped in *; by rewrite Ec in *|].
  destruct (wf_data s i Nc Wi) as (Fo & Fi & _ & L). apply has_types_valid in Fo, Fi. unfold shaped. by destruct (opc i).
Qed.

Lemma shaped_data i : opc i <> INDEX_op_call -> shaped i ->
  length (oargs i) = nb_oargs (tcg_op_defs (opc i)) /\ Forall (valid s) (oargs i) /\ Forall (valid s) (iargs i).
Proof.
  intros N Si. assert (List.length (args i) = nb_args (tcg_op_defs (opc i)) /\ Forall (valid s) (oargs i) /\ Forall (valid s) (iargs i)) as (L & F)
    by (unfold shaped in Si; destruct (opc i); done). split; [|done]. unfold oargs. rewrite length_take, L. unfold nb_args. lia.
Qed.

Lemma shaped_ins_valid i : shaped i -> Forall (valid s) (ins_of i).
Proof.
  intros Si. destruct (decide (opc i = INDEX_op_call)) as [Ec|Nc].
  - unfold shaped, ins_of in *. rewrite Ec in *. by destruct Si as (_ & ? & _).
  - destruct (shaped_data i Nc Si) as (_ & _ & Fi). unfold ins_of. by destruct (opc i).
Qed.

Lemma sig_outs op : op <> INDEX_op_call -> length (sig op).1 = nb_oargs (tcg_op_defs op).
Proof. destruct op; try done; by destruct ty. Qed.

Lemma gets_raw e e' (l : list Z) : e <$> l = e' <$> l -> get s e <$> l = get s e' <$> l.
Proof. induction l as [|t l IH]; intros El; [done|]. injection El as Et El. cbn. f_equal; [unfold get; by rewrite Et|by apply IH]. Qed.

(** A data operation on register files that agree on its inputs. *)
Lemma data_raw op (w : W) e e' outs ins cs : op <> INDEX_op_call -> length outs = nb_oargs (tcg_op_defs op) -> e <$> ins = e' <$> ins ->
  (has_flag (tcg_op_defs op) TCG_OPF_SIDE_EFFECTS = true -> e <$> globals s = e' <$> globals s) ->
  forall w1 e1 fl, exec_data s w e op outs ins cs = Ok (w1, e1, fl) ->
  exists ps, covers fl outs ps /\ e1 = wr e ps /\ exec_data s w e' op outs ins cs = Ok (w1, wr e' ps, fl).
Proof.
  intros Nc Lo Ei Eg w1 e1 fl E. assert (forall f : Z -> Z -> Z, (fun t => f t (e t)) <$> ins = (fun t => f t (e' t)) <$> ins) as Ef.
  { intros f. clear - Ei. induction ins as [|t ins IH]; [done|]. injection Ei as Et Ei. cbn. by rewrite Et, IH. }
  pose proof (Ef (fun t v => uw (temp_type s t) v)) as Eget. assert (rd op e <$> ins = rd op e' <$> ins) as Erd by exact (Ef (fun _ v => uwrap (read_bits op) v)). clear Ef.
  assert (has_flag (tcg_op_defs op) TCG_OPF_SIDE_EFFECTS = true -> get s e <$> globals s = get s e' <$> globals s) as Eg' by auto using gets_raw.
  unfold exec_data in *. destruct (host_load op) as [[[ty n] sign]|] eqn:Hl.
  { unfold exec_host_load in *. destruct ins as [|a [|? ?]]; try discriminate E. destruct cs as [|off [|? ?]]; try discriminate E. injection Ei as Ea. rewrite <- Ea.
    apply Ok_inj in E. apply pair_eq in E as [[<- <-]%pair_eq <-]. rewrite !upds_wr. exists (zip outs [uw ty (if sign then swrap n (w_host_ld w (u64 (e a + off)) n) else uwrap n (w_host_ld w (u64 (e a + off)) n))]). split; [apply covers_zip; rewrite Lo; clear - Hl; destruct op; try discriminate Hl; reflexivity|done]. }
  destruct (host_store op) as [n|] eqn:Hs.
  { assert (outs = []) as -> by (destruct op; try discriminate Hs; by destruct outs). unfold exec_host_store in *. destruct ins as [|v [|a [|? ?]]]; try discriminate E. destruct cs as [|off [|? ?]]; try discriminate E.
    injection Ei as Ev Ea. rewrite <- Ea, <- Ev. apply Ok_inj in E. apply pair_eq in E as [[<- <-]%pair_eq <-]. exists []. split; [by apply covers_nil; left|done]. }
  destruct (guest_load op cs) as [[mop idx]|] eqn:Gl.
  { assert (has_flag (tcg_op_defs op) TCG_OPF_SIDE_EFFECTS = true /\ nb_oargs (tcg_op_defs op) = 1%nat) as [Hf Ho] by (clear - Gl; destruct op; try discriminate Gl; try destruct ty; done).
    unfold exec_guest_load in *. destruct ins as [|a [|? ?]]; try discriminate E. injection Eget as Ea. rewrite <- Eg' by done. assert (get s e' a = get s e a) as -> by done.
    destruct (w_guest_ld _ _ _ _ _) as [w2 [v|]]; apply Ok_inj in E; apply pair_eq in E as [[<- <-]%pair_eq <-].
    - rewrite !upds_wr. eexists (zip outs [_]). split; [apply covers_zip; by rewrite Lo|done].
    - exists []. split; [by apply covers_nil; right|done]. }
  destruct (guest_store op cs) as [[mop idx]|] eqn:Gs.
  { assert (has_flag (tcg_op_defs op) TCG_OPF_SIDE_EFFECTS = true /\ outs = []) as [Hf ->] by (clear - Gs Lo; destruct op; try discriminate Gs; try destruct ty; destruct outs; done).
    unfold exec_guest_store in *. destruct ins as [|v [|a [|? ?]]]; try discriminate E. injection Eget as Ev Ea. rewrite <- Eg' by done.
    assert (get s e' a = get s e a /\ get s e' v = get s e v) as [-> ->] by done.
    destruct (w_guest_st _ _ _ _ _ _) as [w2 ok]. apply Ok_inj in E. apply pair_eq in E as [[<- <-]%pair_eq <-]. exists []. split; [by apply covers_nil; left|done]. }
  unfold exec_eval in *. rewrite <- Erd. destruct (eval op (rd op e <$> ins) cs) as [r|] eqn:Ev; [|discriminate E]. apply bind_Ok in E as (vs & -> & E).
  apply Ok_inj in E. apply pair_eq in E as [[<- <-]%pair_eq <-]. cbn [res_bind]. rewrite !upds_wr. exists (zip outs vs). split; [|done]. apply covers_zip. rewrite Lo, <- sig_outs by done. symmetry. eapply Forall2_length, eval_range; [|exact Ev].
  apply Forall_fmap, Forall_true. intros x. apply in_word_uwrap, read_bits_nonneg.
Qed.

Lemma branch_raw (w : W) e e' cmp cmp' cs : (forall c, cmp c = cmp' c) -> forall w1 e1 fl, exec_branch w e cmp cs = Ok (w1, e1, fl) ->
  exists ps, covers fl [] ps /\ e1 = wr e ps /\ exec_branch w e' cmp' cs = Ok (w1, wr e' ps, fl).
Proof.
  intros Ec w1 e1 fl E. unfold exec_branch in *. destruct cs as [|c [|l [|? ?]]]; try discriminate E. rewrite <- Ec. apply bind_Ok in E as (t & -> & E). apply Ok_inj in E.
  apply pair_eq in E as [[<- <-]%pair_eq <-]. exists []. split; [by apply covers_nil; left|done].
Qed.

(** A step depends on the registers of its inputs and, where it shows them, of
    the globals. *)
Lemma exec_raw (w : W) e e' i : wf_context s -> shaped i -> e <$> ins_of i = e' <$> ins_of i -> (sees_globals i = true -> e <$> globals s = e' <$> globals s) ->
  forall w1 e1 fl, exec s w e i = Ok (w1, e1, fl) -> exists ps, effect s i fl ps /\ e1 = wr e ps /\ exec s w e' i = Ok (w1, wr e' ps, fl).
Proof.
  intros C Si Ei Eg w1 e1 fl E. destruct (decide (opc i = INDEX_op_call)) as [Ec|Nc].
  { destruct (call_same s w e e' i i C Ec) with (w1 := w1) (e1 := e1) (fl := fl) as (ps & _ & R); [unfold wf_instr, shaped in *; by rewrite Ec in *|..]; try done; [|by apply gets_raw|intros F; apply gets_raw; auto|by exists ps].
    split; [done|]. by rewrite Ec. }
  destruct (shaped_data i Nc Si) as (Lo & _ & _).
  assert (e <$> iargs i = e' <$> iargs i) as Ea by (unfold ins_of in Ei; destruct (opc i); done).
  assert (has_flag (tcg_op_defs (opc i)) TCG_OPF_SIDE_EFFECTS = true -> e <$> globals s = e' <$> globals s) as Ew by (unfold sees_globals in Eg; destruct (opc i); done).
  cut (exists ps, covers fl (oargs i) ps /\ e1 = wr e ps /\ exec s w e' i = Ok (w1, wr e' ps, fl)).
  { intros (ps & Cv & R). exists ps. split; [by apply covers_effect|done]. }
  destruct (control (opc i)) eqn:Hc; cycle 1; [rewrite exec_is_data in E |- * by done; by eapply data_raw|].
  assert (opc i <> INDEX_op_discard -> oargs i = []) as No by (intros Nd; destruct (opc i); try discriminate Hc; try done; by destruct (oargs i)).
  unfold exec in *. destruct (opc i) eqn:Op; try discriminate Hc; try done; clear Ei Eg Ew Hc; try rewrite No in * by done;
    try (apply Ok_inj in E; apply pair_eq in E as [[<- <-]%pair_eq <-]; exists []; split; [by apply covers_nil; left|done]).
  - apply Ok_inj in E. apply pair_eq in E as [[<- <-]%pair_eq <-]. rewrite !upds_wr. exists (zip (oargs i) [0]). split; [by apply covers_zip|done].
  - destruct (cargs i) as [|? [|? ?]]; try discriminate E. apply Ok_inj in E. apply pair_eq in E as [[<- <-]%pair_eq <-]. exists []. split; [by apply covers_nil; left|done].
  - destruct (iargs i) as [|a [|b [|? ?]]]; try discriminate E. injection Ea as E1 E2. eapply branch_raw; [|exact E]. intros c. unfold rd. by rewrite E1, E2.
  - destruct (iargs i) as [|a [|b [|a2 [|b2 [|? ?]]]]]; try discriminate E. injection Ea as E1 E2 E3 E4. eapply branch_raw; [|exact E]. intros c. unfold rd. by rewrite E1, E2, E3, E4.
  - destruct (cargs i) as [|? [|? ?]]; try discriminate E. apply Ok_inj in E. apply pair_eq in E as [[<- <-]%pair_eq <-]. exists []. split; [by apply covers_nil; left|done].
  - destruct (cargs i) as [|? [|? ?]]; try discriminate E. apply Ok_inj in E. apply pair_eq in E as [[<- <-]%pair_eq <-]. exists []. split; [by apply covers_nil; left|done].
Qed.
End Shape.

(** ** The arrays *)

Lemma set_bool_spec a t b x : set_bool a t b x = if x =? t then b else a x.
Proof. done. Qed.

Lemma output_args_spec outs : forall la k d y x,
  dead_temps (output_args la k outs d y).1 x = bool_decide (x ∈ outs) || dead_temps la x /\
  mem_temps (output_args la k outs d y).1 x = negb (bool_decide (x ∈ outs)) && mem_temps la x.
Proof.
  induction outs as [|t outs IH]; intros la k d y x; cbn [output_args fst]; [done|]. destruct (IH (set_dead la t) (k + 1)
    (if dead_temps la t then set_bit 16 d k else d) (if mem_temps la t then set_bit 8 y k else y) x) as [-> ->].
  cbn [set_dead dead_temps mem_temps]. rewrite !set_bool_spec. destruct (Z.eqb_spec x t) as [->|N].
  - rewrite (bool_decide_true (t ∈ t :: outs)) by left. cbn. by rewrite orb_true_r, andb_false_r.
  - by rewrite (bool_decide_ext (x ∈ t :: outs) (x ∈ outs)) by set_solver.
Qed.

Lemma input_args_spec dummies ins : (dummies = true -> (TCG_CALL_DUMMY_ARG ∉ ins)) -> forall la k d x,
  dead_temps (input_args la dummies k ins d).1 x = negb (bool_decide (x ∈ ins)) && dead_temps la x /\
  mem_temps (input_args la dummies k ins d).1 x = mem_temps la x.
Proof.
  intros Hd la k d x. revert Hd la k d. induction ins as [|t ins IH]; intros Hd la k d; cbn [input_args fst]; [done|].
  assert (dummies && (t =? TCG_CALL_DUMMY_ARG) = false) as ->.
  { destruct dummies; [|done]. apply Z.eqb_neq. intros ->. apply Hd; [done|left]. }
  destruct (IH ltac:(intros E; specialize (Hd E); set_solver) (set_live la t) (k + 1) (if dead_temps la t then set_bit 16 d k else d)) as [-> ->].
  cbn [set_live dead_temps mem_temps]. rewrite set_bool_spec. split; [|done]. destruct (Z.eqb_spec x t) as [->|N].
  - rewrite (bool_decide_true (t ∈ t :: ins)) by left. cbn. by rewrite andb_false_r.
  - by rewrite (bool_decide_ext (x ∈ t :: ins) (x ∈ ins)) by set_solver.
Qed.

Section Need.
Context (s : TCGContext).
Implicit Types la : liveness.

(** The register or the memory of the temporary is needed. *)
Definition needed la (t : Z) : Prop := unneeded la t = false.
Definition block_live (t : Z) : Prop := is_global s t = true \/ temp_local s t = true.

Lemma needed_alt la t : needed la t <-> dead_temps la t = false \/ mem_temps la t = true.
Proof. unfold needed, unneeded. destruct (dead_temps la t), (mem_temps la t); cbn; intuition congruence. Qed.

Lemma needed_func_end t : needed (tcg_la_func_end s) t <-> is_global s t = true.
Proof. rewrite needed_alt. cbn. intuition congruence. Qed.
Lemma needed_bb_end t : needed (tcg_la_bb_end s) t <-> block_live t.
Proof. rewrite needed_alt. cbn. unfold block_live. rewrite orb_true_iff. intuition congruence. Qed.

Lemma needed_inputs la dummies k ins d t : (dummies = true -> (TCG_CALL_DUMMY_ARG ∉ ins)) ->
  needed (input_args la dummies k ins d).1 t <-> t ∈ ins \/ needed la t.
Proof.
  intros Hd. rewrite !needed_alt. destruct (input_args_spec dummies ins Hd la k d t) as [-> ->].
  destruct (bool_decide (t ∈ ins)) eqn:E; [apply bool_decide_eq_true in E|apply bool_decide_eq_false in E]; cbn; intuition congruence.
Qed.

Lemma needed_outputs la k outs d y t : needed (output_args la k outs d y).1 t <-> (t ∉ outs) /\ needed la t.
Proof.
  rewrite !needed_alt. destruct (output_args_spec outs la k d y t) as [-> ->].
  destruct (bool_decide (t ∈ outs)) eqn:E; [apply bool_decide_eq_true in E|apply bool_decide_eq_false in E]; cbn; intuition congruence.
Qed.

Lemma needed_sync la t : needed (sync_globals s la) t <-> is_global s t = true \/ needed la t.
Proof. rewrite !needed_alt. cbn. rewrite orb_true_iff. intuition congruence. Qed.
Lemma needed_kill la t : needed (kill_globals s la) t <-> needed la t /\ (is_global s t = true -> mem_temps la t = true).
Proof. rewrite !needed_alt. cbn. rewrite orb_false_iff. destruct (is_global s t), (mem_temps la t); intuition congruence. Qed.
Lemma needed_dead la x t : needed (set_dead la x) t <-> t <> x /\ needed la t.
Proof. rewrite !needed_alt. cbn. rewrite !set_bool_spec. destruct (Z.eqb_spec t x); intuition congruence. Qed.

(** What an operation that is kept needs. *)
Lemma do_not_remove_needs la fl i outs ins t :
  needed (do_not_remove s la fl i outs ins).1 t <->
  t ∈ ins \/ if negb (Z.land fl TCG_OPF_BB_END =? 0) then block_live t
             else negb (Z.land fl TCG_OPF_SIDE_EFFECTS =? 0) = true /\ is_global s t = true \/ (t ∉ outs) /\ needed la t.
Proof.
  unfold do_not_remove. pose proof (needed_outputs la 0 outs 0 0 t) as Ho. destruct (output_args la 0 outs 0 0) as [la1 [da sa]]. cbn [fst] in Ho.
  set (la2 := if negb _ then _ else _). pose proof (needed_inputs la2 false (Z.of_nat (length outs)) ins da t ltac:(done)) as Hi.
  destruct (input_args la2 _ _ _ _) as [la3 da3]. cbn [fst] in *. rewrite Hi. unfold la2.
  destruct (negb (Z.land fl TCG_OPF_BB_END =? 0)); [by rewrite needed_bb_end|].
  destruct (negb (Z.land fl TCG_OPF_SIDE_EFFECTS =? 0)); rewrite ?needed_sync, Ho; intuition congruence.
Qed.

Lemma no_read_no_write fl : Z.land fl (Z.lor TCG_CALL_NO_READ_GLOBALS TCG_CALL_NO_WRITE_GLOBALS) = 0 -> Z.land fl TCG_CALL_NO_READ_GLOBALS = 0.
Proof. rewrite Z.land_lor_distr_r, Z.lor_eq_0_iff. tauto. Qed.

Lemma keep_call_needs la i t : opc i = INDEX_op_call -> (TCG_CALL_DUMMY_ARG ∉ ins_of i) ->
  needed (keep_call s la i).1 t <-> t ∈ ins_of i \/ sees_globals i = true /\ is_global s t = true \/ (t ∉ outs_of i) /\ needed la t.
Proof.
  intros Eo Hd. unfold keep_call, ins_of, sees_globals, outs_of in *. rewrite Eo in *. pose proof (needed_outputs la 0 (c_outs (decode_call (args i))) 0 0 t) as Ho.
  destruct (output_args la 0 _ 0 0) as [la1 [da sa]]. cbn [fst] in Ho. set (la2 := if Z.land _ TCG_CALL_NO_READ_GLOBALS =? 0 then _ else _). set (la3 := if _ =? 0 then kill_globals _ _ else _).
  pose proof (needed_inputs la3 true (Z.of_nat (length (c_outs (decode_call (args i))))) (c_ins (decode_call (args i))) da t ltac:(done)) as Hi.
  destruct (input_args la3 _ _ _ _) as [la4 da4]. cbn [fst] in *. rewrite Hi. unfold la3. rewrite Z.lor_comm.
  destruct (Z.eqb_spec (Z.land (c_flags (decode_call (args i))) (Z.lor TCG_CALL_NO_READ_GLOBALS TCG_CALL_NO_WRITE_GLOBALS)) 0) as [E|E].
  - apply no_read_no_write in E. rewrite needed_kill. unfold la2. rewrite E. cbn [Z.eqb]. rewrite needed_sync, Ho. cbn [sync_globals mem_temps]. rewrite orb_true_iff. intuition congruence.
  - unfold la2. destruct (_ =? 0); rewrite ?needed_sync, Ho; intuition congruence.
Qed.
End Need.

(** ** Agreement *)

Lemma wr_out ps : forall e t, t ∉ ps.*1 -> wr e ps t = e t.
Proof.
  induction ps as [|[x v] ps IH]; intros e t N; [done|]. cbn [fmap list_fmap fst] in N. change (wr (upd e x v) ps t = e t). rewrite IH by set_solver.
  unfold upd. destruct (Z.eqb_spec t x); [set_solver|done].
Qed.
Lemma wr_in ps : forall e e' t, t ∈ ps.*1 -> wr e ps t = wr e' ps t.
Proof.
  induction ps as [|[x v] ps IH]; intros e e' t Ht; [by apply not_elem_of_nil in Ht|]. change (wr (upd e x v) ps t = wr (upd e' x v) ps t).
  destruct (decide (t ∈ ps.*1)) as [Hp|Np]; [by apply IH|]. cbn [fmap list_fmap fst] in Ht. rewrite !wr_out by done.
  assert (t = x) as -> by set_solver. unfold upd. by rewrite Z.eqb_refl.
Qed.

Section Agree.
Context {W : Type} `{TcgWorld W} (s : TCGContext).
Implicit Types (la : liveness) (e : env).

Definition agree (P : Z -> Prop) e e' : Prop := forall t, valid s t -> P t -> e t = e' t.

Lemma agree_mono (P Q : Z -> Prop) e e' : (forall t, valid s t -> Q t -> P t) -> agree P e e' -> agree Q e e'.
Proof. intros HPQ A t Vt Ht. apply A; auto. Qed.

(** The same writes on both sides. *)
Lemma agree_wr (P Q : Z -> Prop) e e' ps : (forall t, valid s t -> Q t -> t ∈ ps.*1 \/ P t) -> agree P e e' -> agree Q (wr e ps) (wr e' ps).
Proof.
  intros HPQ A t Vt Ht. destruct (decide (t ∈ ps.*1)) as [Hp|Np]; [by rewrite (wr_in ps e e' t Hp)|].
  rewrite !wr_out by done. destruct (HPQ t Vt Ht) as [Hp|Hp]; [done|]. by apply A.
Qed.

(** Writes on one side to what is not needed. *)
Lemma agree_wr_l (P : Z -> Prop) e e' ps : (forall t, t ∈ ps.*1 -> ~ P t) -> agree P e e' -> agree P (wr e ps) e'.
Proof.
  intros HP A t Vt Ht. rewrite wr_out; [by apply A|]. intros Hp. by apply (HP t).
Qed.

Lemma agree_gets (P : Z -> Prop) e e' l : Forall (valid s) l -> Forall P l -> agree P e e' -> e <$> l = e' <$> l.
Proof.
  intros V F A. revert F. induction V as [|t l Vt V IH]; intros F; [done|]. apply List.Forall_cons_iff in F as [Ft F]. cbn. by rewrite (A t), IH.
Qed.

Lemma is_global_spec t : valid s t -> is_global s t = true <-> t ∈ globals s.
Proof. intros [H0 _]. unfold is_global, globals. rewrite elem_of_seqZ, andb_true_iff, Z.leb_le, Z.ltb_lt. lia. Qed.
Lemma in_globals t : t ∈ globals s -> is_global s t = true.
Proof. unfold globals. rewrite elem_of_seqZ. unfold is_global. rewrite andb_true_iff, Z.leb_le, Z.ltb_lt. lia. Qed.

(** ** Steps *)

(** What must agree where an operation leads. *)
Definition after (la : liveness) (fl : flow) : Z -> Prop :=
  match fl with Next => needed la | Jump _ => block_live s | Leave _ => fun t => is_global s t = true end.

(** [i], with [la'] before it and [la] after it, and what it becomes. *)
Definition transfers (la' : liveness) (i j : instr) (la : liveness) : Prop := forall (w : W) e e' w1 e1 fl,
  agree (needed la') e e' -> exec s w e i = Ok (w1, e1, fl) -> exists e1', exec s w e' j = Ok (w1, e1', fl) /\ agree (after la fl) e1 e1'.

Definition quiet (j : instr) : Prop := opc j = INDEX_op_nop \/ opc j = INDEX_op_nopn.

Lemma quiet_nop l : quiet (tcg_set_nop l).
Proof. unfold tcg_set_nop. destruct l; [by left|by right]. Qed.
Lemma exec_quiet (w : W) e j : quiet j -> exec s w e j = Ok (w, e, Next).
Proof. unfold exec. by intros [-> | ->]. Qed.

Lemma transfers_quiet la' i j k la : quiet j -> quiet k -> transfers la' i j la -> transfers la' i k la.
Proof.
  intros Qj Qk T w e e' w1 e1 fl A E. destruct (T w e e' w1 e1 fl A E) as (e1' & X & A1). rewrite exec_quiet in X |- * by done. eauto.
Qed.

(** Where operations lead. *)
Lemma exec_jump (w w1 : W) e e1 i l : exec s w e i = Ok (w1, e1, Jump l) -> ends_block i = true.
Proof.
  intros E. unfold ends_block. destruct (control (opc i)) eqn:Hc.
  - unfold exec, exec_call in E. destruct (opc i); try discriminate Hc; try discriminate E; try reflexivity; [|by destruct ty].
    repeat (case_match; try discriminate E).
  - rewrite exec_is_data in E by done. unfold exec_data, exec_host_load, exec_host_store, exec_guest_load, exec_guest_store, exec_eval in E.
    repeat (case_match; try discriminate E); simplify_eq; ok_inv E; discriminate E.
Qed.

Lemma guest_ops_flags op cs : is_Some (guest_load op cs) \/ is_Some (guest_store op cs) -> has_flag (tcg_op_defs op) TCG_OPF_SIDE_EFFECTS = true.
Proof. intros [[x E]|[x E]]; destruct op; try discriminate E; try reflexivity; by destruct ty. Qed.

Lemma exec_leave `{!LawfulHelpers W} (w w1 : W) e e1 i o : exec s w e i = Ok (w1, e1, Leave o) -> ends_block i = true \/ sees_globals i = true.
Proof.
  intros E. unfold ends_block. destruct (decide (opc i = INDEX_op_call)) as [Ec|Nc].
  { right. unfold sees_globals, exec in *. rewrite Ec in *. apply Ok_inj in E. unfold exec_call in E.
    destruct (Z.eqb_spec (Z.land (c_flags (decode_call (args i))) TCG_CALL_NO_READ_GLOBALS) 0) as [|N]; [done|exfalso].
    pose proof (helper_returns w _ [] (get s e <$> c_ins (decode_call (args i))) N) as R. destruct (w_helper _ _ _ _) as [? [[? ?]|]]; [discriminate E|done]. }
  destruct (control (opc i)) eqn:Hc.
  - left. unfold exec, exec_branch in E. destruct (opc i); try discriminate Hc; try discriminate E; try reflexivity; [done|by destruct ty].
  - right. assert (sees_globals i = has_flag (tcg_op_defs (opc i)) TCG_OPF_SIDE_EFFECTS) as -> by (unfold sees_globals; destruct (opc i); done).
    rewrite exec_is_data in E by done. unfold exec_data, exec_host_load, exec_host_store, exec_eval in E.
    destruct (guest_load (opc i) (cargs i)) eqn:G1; [apply (guest_ops_flags _ (cargs i)); by eauto|].
    destruct (guest_store (opc i) (cargs i)) eqn:G2; [apply (guest_ops_flags _ (cargs i)); by eauto|].
    repeat (case_match; try discriminate E); simplify_eq; ok_inv E; discriminate E.
Qed.

(** An operation that stays needs its inputs, what it shows to the outside, and
    what is needed after it and it does not write. *)
Definition needs_of (la' la : liveness) (i : instr) : Prop := forall t, valid s t ->
  (t ∈ ins_of i -> needed la' t) /\ (sees_globals i = true -> is_global s t = true -> needed la' t) /\
  (ends_block i = true -> block_live s t -> needed la' t) /\ (needed la t -> t ∈ outs_of i \/ needed la' t).

Lemma kept_transfers `{!LawfulHelpers W} la' la i : wf_context s -> shaped s i -> needs_of la' la i -> transfers la' i i la.
Proof.
  intros C Si N w e e' w1 e1 fl A E. pose proof (shaped_ins_valid s i Si) as Vi. pose proof (globals_valid s C) as Vg.
  destruct (exec_raw s w e e' i C Si) with (w1 := w1) (e1 := e1) (fl := fl) as (ps & [_ Cv] & -> & X); try done.
  - apply (agree_gets (needed la')); try done. rewrite List.Forall_forall in Vi |- *. intros t Ht. destruct (N t (Vi t Ht)) as (N1 & _). by apply N1, list_elem_of_In.
  - intros Sg. apply (agree_gets (needed la')); try done. rewrite List.Forall_forall in Vg |- *. intros t Ht. destruct (N t (Vg t Ht)) as (_ & N2 & _). by apply N2, in_globals, list_elem_of_In.
  - exists (wr e' ps). split; [done|]. destruct fl as [|l|o]; cbn [after]; apply (agree_wr (needed la')); try done; intros t Vt Ht; destruct (N t Vt) as (_ & N2 & N3 & N4).
    + destruct (N4 Ht); [left; by apply Cv|by right].
    + right. apply N3; [by eapply exec_jump|done].
    + right. destruct (exec_leave _ _ _ _ _ _ E); [apply N3; [done|by left]|by apply N2].
Qed.
End Agree.
