(* ===== verification/TcgLivenessClaims.v ===== *)
(** * Correctness of the liveness analysis

    The code that the analysis leaves does what the code did, as far as the
    globals, the world and the exit are concerned. *)

From stdpp Require Import base list numbers sets.
From S2P Require Import Prelude Tcg TcgFacts TcgTyping TcgLiveness TcgLivenessFacts.

Section Ops.
Context {W : Type} `{TcgWorld W} `{!LawfulHelpers W} (s : TCGContext) (C : wf_context s) (Max : nb_temps s <= TCG_MAX_TEMPS).
Implicit Types (la : liveness) (e : env).

(** ** Removed operations *)

Lemma exec_silent (w w1 : W) e e1 fl i : opc i <> INDEX_op_call -> has_flag (tcg_op_defs (opc i)) TCG_OPF_SIDE_EFFECTS = false ->
  nb_oargs (tcg_op_defs (opc i)) <> 0%nat -> exec s w e i = Ok (w1, e1, fl) -> w1 = w /\ fl = Next.
Proof.
  intros Nc Ns No E. destruct (control (opc i)) eqn:Hc.
  - unfold exec in E. destruct (opc i); try discriminate Hc; try done. by injection E as <- _ <-.
  - rewrite exec_is_data in E by done. unfold exec_data, exec_host_load, exec_eval in E.
    destruct (host_load (opc i)) as [[[ty n] sg]|] eqn:Hl; [repeat (case_match; try discriminate E); by injection E as <- _ <-|].
    destruct (host_store (opc i)) eqn:Hs; [exfalso; clear - Hs No; destruct (opc i); done|].
    destruct (guest_load (opc i) (cargs i)) eqn:G1; [rewrite (guest_ops_flags _ (cargs i)) in Ns by eauto; done|].
    destruct (guest_store (opc i) (cargs i)) eqn:G2; [rewrite (guest_ops_flags _ (cargs i)) in Ns by eauto; done|].
    destruct (eval _ _ _); [|discriminate E]. apply bind_Ok in E as (vs & _ & E). by injection E as <- _ <-.
Qed.

Lemma exec_writes (w w1 : W) e e1 fl i : shaped s i -> exec s w e i = Ok (w1, e1, fl) ->
  exists ps, effect s i fl ps /\ e1 = wr e ps.
Proof.
  intros Wi E. destruct (exec_raw s w e e i C Wi) with (w1 := w1) (e1 := e1) (fl := fl) as (ps & F & -> & _); eauto.
Qed.

Lemma removed_transfers la i l : shaped s i -> opc i <> INDEX_op_call -> has_flag (tcg_op_defs (opc i)) TCG_OPF_SIDE_EFFECTS = false ->
  nb_oargs (tcg_op_defs (opc i)) <> 0%nat -> forallb (unneeded la) (oargs i) = true -> transfers s la i (tcg_set_nop l) la (W := W).
Proof.
  intros Wi Nc Ns No Hu w e e' w1 e1 fl A E. destruct (exec_silent w w1 e e1 fl i Nc Ns No E) as [-> ->]. exists e'.
  rewrite exec_quiet by apply quiet_nop. split; [done|]. destruct (exec_writes _ _ _ _ _ _ Wi E) as (ps & [F _] & ->). cbn [after].
  apply agree_wr_l; [|done]. intros t Ht. rewrite forallb_forall in Hu. destruct (F t Ht) as [Ho|[Hc _]].
  - unfold needed. rewrite Hu; [done|]. apply list_elem_of_In. unfold outs_of in Ho. by destruct (opc i).
  - unfold clobbers in Hc. by destruct (opc i).
Qed.

Lemma removed_call_transfers la i l : shaped s i -> opc i = INDEX_op_call -> Z.land (c_flags (decode_call (args i))) TCG_CALL_NO_SIDE_EFFECTS <> 0 ->
  forallb (unneeded la) (c_outs (decode_call (args i))) = true -> transfers s la i (tcg_set_nop l) la (W := W).
Proof.
  intros Wi Ec Hs Hu w e e' w1 e1 fl A E. unfold exec in E. rewrite Ec in E. apply Ok_inj in E. unfold exec_call in E.
  set (seen := if Z.land (c_flags (decode_call (args i))) TCG_CALL_NO_READ_GLOBALS =? 0 then _ else _) in E.
  destruct (helper_pure w _ seen (get s e <$> c_ins (decode_call (args i))) Hs) as (outs & gs & Ho). rewrite Ho in E. apply pair_eq in E as [[<- <-]%pair_eq <-].
  assert (writes_globals (c_flags (decode_call (args i))) = false) as ->.
  { apply Z.eqb_neq. rewrite Z.land_lor_distr_r, Z.lor_eq_0_iff. tauto. }
  exists e'. rewrite exec_quiet by apply quiet_nop. split; [done|]. cbn [after]. rewrite upds_wr. apply agree_wr_l; [|done].
  intros t Ht. rewrite forallb_forall in Hu. unfold needed. rewrite Hu; [done|]. apply list_elem_of_In.
  apply list_elem_of_fmap in Ht as ([x v] & -> & Hx). by apply elem_of_zip_l in Hx.
Qed.

(** ** Narrowed operations *)

(** An operation on pairs that becomes one on the half in [x]. *)
Lemma half_agrees la' la e e' x y vx vy : needed la x -> unneeded la y = true -> (forall t, needed la t -> t = x \/ needed la' t) ->
  agree s (needed la') e e' -> agree s (needed la) (upd (upd e x vx) y vy) (upd e' x vx) /\ agree s (needed la) (upd (upd e y vy) x vx) (upd e' x vx).
Proof.
  intros Nx Uy N A. assert (x <> y) as D by (intros ->; unfold needed in Nx; congruence).
  split; intros t Vt Ht; unfold upd; destruct (Z.eqb_spec t x) as [Ex|Nt], (Z.eqb_spec t y) as [Ey|]; try done; try (exfalso; unfold needed in Ht; congruence);
    destruct (N t Ht) as [|Ht']; try done; by apply A.
Qed.

Lemma rd_agree la' op op' e e' t : agree s (needed la') e e' -> needed la' t -> valid s t -> read_bits op = read_bits op' -> rd op e t = rd op' e' t.
Proof. intros A Nt Vt R. unfold rd. by rewrite R, (A t). Qed.

Lemma low_half ty al ah bl bh : uw ty (pair_val ty al ah + pair_val ty bl bh) = uw ty (al + bl).
Proof.
  unfold pair_val, uwrap. replace (ah * 2 ^ bits ty + al + (bh * 2 ^ bits ty + bl)) with (al + bl + (ah + bh) * 2 ^ bits ty) by ring.
  apply Z.mod_add. destruct ty; cbn; lia.
Qed.
Lemma low_half_sub ty al ah bl bh : uw ty (pair_val ty al ah - pair_val ty bl bh) = uw ty (al - bl).
Proof.
  unfold pair_val, uwrap. replace (ah * 2 ^ bits ty + al - (bh * 2 ^ bits ty + bl)) with (al - bl + (ah - bh) * 2 ^ bits ty) by ring.
  apply Z.mod_add. destruct ty; cbn; lia.
Qed.

Lemma addsub2_transfers la' la op op_new ty rl rh al ah bl bh :
  op = INDEX_op_add2 ty /\ op_new = INDEX_op_add ty \/ op = INDEX_op_sub2 ty /\ op_new = INDEX_op_sub ty ->
  shaped s (mkI op [rl; rh; al; ah; bl; bh]) -> needed la rl -> unneeded la rh = true -> needed la' al -> needed la' bl ->
  (forall t, needed la t -> t = rl \/ needed la' t) -> transfers s la' (mkI op [rl; rh; al; ah; bl; bh]) (mkI op_new [rl; al; bl]) la (W := W).
Proof.
  intros Ops Wi Nl Uh Na Nb N w e e' w1 e1 fl A E.
  assert (Forall (valid s) [al; ah; bl; bh]) as Fi by (destruct Ops as [[-> _]|[-> _]]; by destruct Wi as (_ & _ & ?)).
  apply List.Forall_cons_iff in Fi as [Va Fi]. apply List.Forall_cons_iff in Fi as [_ Fi]. apply List.Forall_cons_iff in Fi as [Vb _]. clear Wi.
  destruct Ops as [[-> ->]|[-> ->]]; injection E as <- <- <-; eexists; (split; [reflexivity|]); cbn [after upds oargs take tcg_op_defs opc nb_oargs args split_val].
  - rewrite low_half, !(rd_agree la' (INDEX_op_add2 ty) (INDEX_op_add ty) e e') by done. by apply (half_agrees la').
  - rewrite low_half_sub, !(rd_agree la' (INDEX_op_sub2 ty) (INDEX_op_sub ty) e e') by done. by apply (half_agrees la').
Qed.

Lemma low_product ty a b : uw ty (sw ty a * sw ty b) = uw ty (a * b).
Proof.
  destruct (bits_pos ty) as [Hb _]. destruct (swrap_sub_multiple (bits ty) a Hb) as [k ->]. destruct (swrap_sub_multiple (bits ty) b Hb) as [m ->].
  unfold uwrap. replace ((a + k * 2 ^ bits ty) * (b + m * 2 ^ bits ty)) with (a * b + (a * m + k * b + k * m * 2 ^ bits ty) * 2 ^ bits ty) by ring.
  apply Z.mod_add. destruct ty; cbn; lia.
Qed.

(** Both ways of narrowing a product. *)
Lemma mul2_transfers la' la op op_new op_new2 ty rl rh a b :
  op = INDEX_op_mulu2 ty /\ op_new = INDEX_op_mul ty /\ op_new2 = INDEX_op_muluh ty \/ op = INDEX_op_muls2 ty /\ op_new = INDEX_op_mul ty /\ op_new2 = INDEX_op_mulsh ty ->
  shaped s (mkI op [rl; rh; a; b]) -> needed la' a -> needed la' b ->
  (needed la rl -> unneeded la rh = true -> (forall t, needed la t -> t = rl \/ needed la' t) ->
   transfers s la' (mkI op [rl; rh; a; b]) (mkI op_new [rl; a; b]) la (W := W)) /\
  (needed la rh -> unneeded la rl = true -> (forall t, needed la t -> t = rh \/ needed la' t) ->
   transfers s la' (mkI op [rl; rh; a; b]) (mkI op_new2 [rh; a; b]) la (W := W)).
Proof.
  intros Ops Wi Na Nb.
  assert (Forall (valid s) [a; b]) as Fi by (destruct Ops as [(-> & _)|(-> & _)]; by destruct Wi as (_ & _ & ?)).
  apply List.Forall_cons_iff in Fi as [Va Fi]. apply List.Forall_cons_iff in Fi as [Vb _]. clear Wi.
  split; intros N1 U N w e e' w1 e1 fl A E;
    (destruct Ops as [(-> & -> & ->)|(-> & -> & ->)]; injection E as <- <- <-; eexists; (split; [reflexivity|]); cbn [after upds oargs take tcg_op_defs opc nb_oargs args split_val]).
  - rewrite !(rd_agree la' (INDEX_op_mulu2 ty) (INDEX_op_mul ty) e e') by done. by apply (half_agrees la').
  - rewrite low_product, !(rd_agree la' (INDEX_op_muls2 ty) (INDEX_op_mul ty) e e') by done. by apply (half_agrees la').
  - rewrite !(rd_agree la' (INDEX_op_mulu2 ty) (INDEX_op_muluh ty) e e') by done. by apply (half_agrees la').
  - rewrite !(rd_agree la' (INDEX_op_muls2 ty) (INDEX_op_mulsh ty) e e') by done. by apply (half_agrees la').
Qed.

(** ** Code *)

(** A temporary that is not local is read only after it has been written in the
    same basic block: [D] holds those that have been written so far. *)
Fixpoint block_local (D : list Z) (code : list instr) : bool :=
  match code with
  | [] => true
  | i :: code =>
      forallb (fun t => is_global s t || temp_local s t || bool_decide (t ∈ D)) (ins_of i) &&
      block_local (if ends_block i then [] else outs_of i ++ D) code
  end.

Definition within (D : list Z) la : Prop := forall t, valid s t -> needed la t -> block_live s t \/ t ∈ D.

Lemma block_local_cons D i code : block_local D (i :: code) = true ->
  (forall t, t ∈ ins_of i -> block_live s t \/ t ∈ D) /\ block_local (if ends_block i then [] else outs_of i ++ D) code = true.
Proof.
  cbn [block_local]. rewrite andb_true_iff, forallb_forall. intros [Hi Hc]. split; [|done]. intros t Ht. specialize (Hi t ltac:(by apply list_elem_of_In)).
  rewrite !orb_true_iff in Hi. unfold block_live. destruct Hi as [Hi|Hi%bool_decide_eq_true]; tauto.
Qed.

(** Labels stay, with what is live at the start of a block before them. *)
Definition label_kept la' (i j : instr) : Prop :=
  (opc i = INDEX_op_set_label -> i = j /\ forall t, valid s t -> needed la' t -> block_live s t) /\ (opc i <> INDEX_op_set_label -> opc j <> INDEX_op_set_label).

(** What the analysis does to an operation, with [la] after it and [la'] before
    it, where [D] has been written in the block. *)
Definition passes (D : list Z) la' (i j : instr) la : Prop :=
  within (if ends_block i then [] else outs_of i ++ D) la -> (forall t, t ∈ ins_of i -> block_live s t \/ t ∈ D) ->
  transfers s la' i j la (W := W) /\ label_kept la' i j /\ within D la'.

Lemma plain_views i : opc i <> INDEX_op_call -> ins_of i = iargs i /\ outs_of i = oargs i /\ clobbers i = false /\ sees_globals i = has_flag (tcg_op_defs (opc i)) TCG_OPF_SIDE_EFFECTS.
Proof. intros N. unfold ins_of, outs_of, clobbers, sees_globals. destruct (opc i); done. Qed.

Lemma kept_passes D la i : shaped s i -> opc i <> INDEX_op_call ->
  passes D (do_not_remove s la (flags (tcg_op_defs (opc i))) i (oargs i) (iargs i)).1 i i la.
Proof.
  intros Wi Nc Hw Hi. destruct (plain_views i Nc) as (Ei & Eo & _ & Eg). pose proof (do_not_remove_needs s la (flags (tcg_op_defs (opc i))) i (oargs i) (iargs i)) as N.
  fold (has_flag (tcg_op_defs (opc i)) TCG_OPF_BB_END) in N. fold (has_flag (tcg_op_defs (opc i)) TCG_OPF_SIDE_EFFECTS) in N. fold (ends_block i) in N.
  set (la' := (do_not_remove _ _ _ _ _ _).1) in *. clearbody la'. rewrite <- Ei, <- Eo, <- Eg in N. split; [|split].
  - apply kept_transfers; try done. intros t Vt. specialize (N t). specialize (Hw t Vt). destruct (ends_block i); unfold block_live in *.
    + split_and!; try (intros; apply N; tauto). intros Ht. right. apply N. destruct (Hw Ht) as [?|?%not_elem_of_nil]; tauto.
    + split_and!; try (intros; first [discriminate|apply N; tauto]). intros Ht. destruct (decide (t ∈ outs_of i)); [by left|]. right. apply N. tauto.
  - split; [|done]. intros El. split; [done|]. intros t Vt Ht. apply N in Ht. assert (ends_block i = true) as Hb by (unfold ends_block; by rewrite El). rewrite Hb in Ht.
    destruct Ht as [Ht|Ht]; [|done]. unfold ins_of in Ht. rewrite El in Ht. unfold iargs in Ht. rewrite El in Ht. by apply not_elem_of_nil in Ht.
  - intros t Vt Ht. apply N in Ht. destruct Ht as [Ht|Ht]; [by apply Hi|]. destruct (ends_block i); [by left|]. destruct Ht as [[_ Ht]|[No Ht]]; [by left; left|].
    destruct (Hw t Vt Ht) as [?|[?|?]%elem_of_app]; tauto.
Qed.

Lemma ins_no_dummy i : shaped s i -> TCG_CALL_DUMMY_ARG ∉ ins_of i.
Proof.
  intros Wi Hd. pose proof (shaped_ins_valid s i Wi) as V. rewrite List.Forall_forall in V. specialize (V _ ltac:(by apply list_elem_of_In)). destruct V as [_ V].
  unfold TCG_CALL_DUMMY_ARG, TCG_MAX_TEMPS in *. lia.
Qed.

Lemma call_passes D la i : shaped s i -> opc i = INDEX_op_call -> passes D (call_op s la i).1 i (e_instr (call_op s la i).2) la.
Proof.
  intros Wi Ec Hw Hi. assert (ends_block i = false) as Eb by (unfold ends_block; by rewrite Ec). rewrite Eb in Hw. unfold call_op. destruct (_ && _) eqn:Hr; cbn [fst snd e_instr].
  - apply andb_prop in Hr as [Hs Hu]. apply negb_true_iff, Z.eqb_neq in Hs. split; [by apply removed_call_transfers|]. split.
    + split; [congruence|]. intros _. destruct (quiet_nop (args i)) as [-> | ->]; done.
    + intros t Vt Ht. destruct (Hw t Vt Ht) as [?|[Ho|?]%elem_of_app]; [tauto| |tauto]. exfalso. unfold outs_of in Ho. rewrite Ec in Ho.
      rewrite forallb_forall in Hu. unfold needed in Ht. rewrite Hu in Ht; [done|]. by apply list_elem_of_In.
  - assert (e_instr (keep_call s la i).2 = i) as ->.
    { unfold keep_call. destruct (output_args _ _ _ _ _) as [? [? ?]]. by destruct (input_args _ _ _ _ _). }
    pose proof (fun t => keep_call_needs s la i t Ec (ins_no_dummy i Wi)) as N. set (la' := (keep_call s la i).1) in *. clearbody la'. split; [|split].
    + apply kept_transfers; try done. intros t Vt. specialize (N t). rewrite Eb. split_and!; try (intros; first [discriminate|apply N; tauto]).
      intros Ht. destruct (decide (t ∈ outs_of i)); [by left|]. right. apply N. tauto.
    + split; [congruence|done].
    + intros t Vt Ht. apply N in Ht. destruct Ht as [Ht|[[_ Ht]|[No Ht]]]; [by apply Hi|by left; left|]. destruct (Hw t Vt Ht) as [?|[?|?]%elem_of_app]; tauto.
Qed.

Lemma removed_passes D la i : shaped s i -> opc i <> INDEX_op_call -> opc i <> INDEX_op_set_label -> has_flag (tcg_op_defs (opc i)) TCG_OPF_SIDE_EFFECTS = false ->
  nb_oargs (tcg_op_defs (opc i)) <> 0%nat -> ends_block i = false -> forallb (unneeded la) (oargs i) = true -> passes D la i (tcg_set_nop (args i)) la.
Proof.
  intros Wi Nc Nl Ns No Eb Hu Hw Hi. rewrite Eb in Hw. split; [by apply removed_transfers|]. split.
  - split; [done|]. intros _. destruct (quiet_nop (args i)) as [-> | ->]; done.
  - intros t Vt Ht. destruct (Hw t Vt Ht) as [?|[Ho|?]%elem_of_app]; [tauto| |tauto]. exfalso. destruct (plain_views i Nc) as (_ & Eo & _). rewrite Eo in Ho.
    rewrite forallb_forall in Hu. unfold needed in Ht. rewrite Hu in Ht; [done|]. by apply list_elem_of_In.
Qed.

Lemma writer_in_block op : nb_oargs (tcg_op_defs op) <> 0%nat -> has_flag (tcg_op_defs op) TCG_OPF_BB_END = false.
Proof. destruct op; try done; by destruct ty. Qed.

Lemma default_passes D la i : shaped s i -> opc i <> INDEX_op_call -> passes D (default_op s la i).1 i (e_instr (default_op s la i).2) la.
Proof.
  intros Wi Nc. unfold default_op. destruct (_ && _) eqn:Hr.
  - apply andb_prop in Hr as [[Hs%negb_true_iff Ho%negb_true_iff]%andb_prop Hu]. apply Nat.eqb_neq in Ho. cbn [do_remove fst snd e_instr].
    apply removed_passes; try done; [by intros El; rewrite El in Ho|by apply writer_in_block].
  - assert (e_instr (do_not_remove s la (flags (tcg_op_defs (opc i))) i (oargs i) (iargs i)).2 = i) as ->; [|by apply kept_passes].
    unfold do_not_remove. destruct (output_args _ _ _ _ _) as [? [? ?]]. by destruct (input_args _ _ _ _ _).
Qed.

(** What a narrowed operation needs. *)
Lemma narrowed_needs la ty fl j x ins t : fl = IMPL64 ty ->
  needed (do_not_remove s la fl j [x] ins).1 t <-> t ∈ ins \/ t <> x /\ needed la t.
Proof.
  intros ->. rewrite do_not_remove_needs. assert (forall f, f = TCG_OPF_BB_END \/ f = TCG_OPF_SIDE_EFFECTS -> (Z.land (IMPL64 ty) f =? 0) = true) as F
    by (intros f [-> | ->]; by destruct ty). rewrite !F by tauto. cbn [negb]. rewrite list_elem_of_singleton. intuition congruence.
Qed.

Lemma narrowed_passes D la la' i j x : shaped s i -> opc i <> INDEX_op_call -> opc i <> INDEX_op_set_label -> opc j <> INDEX_op_set_label ->
  nb_oargs (tcg_op_defs (opc i)) <> 0%nat -> x ∈ oargs i -> (forall t, t ∈ oargs i -> t <> x -> unneeded la t = true) ->
  (forall t, needed la' t -> t ∈ iargs i \/ t <> x /\ needed la t) -> transfers s la' i j la (W := W) -> passes D la' i j la.
Proof.
  intros Wi Nc Nl Nj No Hx Hu N T Hw Hi. destruct (plain_views i Nc) as (Ei & Eo & _). assert (ends_block i = false) as Eb by by apply writer_in_block. rewrite Eb, Eo in Hw. rewrite Ei in Hi.
  split; [done|]. split; [split; done|]. intros t Vt Ht. destruct (N t Ht) as [?|[D1 Ht']]; [by apply Hi|].
  destruct (Hw t Vt Ht') as [?|[Ho|?]%elem_of_app]; [tauto| |tauto]. exfalso. unfold needed in Ht'. rewrite (Hu t) in Ht' by done. discriminate.
Qed.

Inductive lives : liveness -> list instr -> list instr -> Prop :=
| lives_nil : lives (tcg_la_func_end s) [] []
| lives_cons la la' i j c c' : lives la c c' -> transfers s la' i j la (W := W) -> label_kept la' i j -> lives la' (i :: c) (j :: c').

Lemma lives_passes D la' i j la c c' : passes D la' i j la -> within (if ends_block i then [] else outs_of i ++ D) la -> (forall t, t ∈ ins_of i -> block_live s t \/ t ∈ D) ->
  lives la c c' -> lives la' (i :: c) (j :: c') /\ within D la'.
Proof. intros P Hw Hi L. destruct (P Hw Hi) as (T & K & Wi). split; [by eapply lives_cons|done]. Qed.

(** The [nop] behind a narrowed operation. *)
Lemma lives_nop la c l j c' : quiet j -> lives la c (mkI INDEX_op_nop l :: c') -> lives la c (j :: c').
Proof.
  intros Q L. inversion L as [|la1 la2 i j1 c1 c2 L1 T [K1 K2]]; subst. eapply lives_cons; [exact L1|..].
  - eapply transfers_quiet; [|exact Q|exact T]. by left.
  - split; [intros El; by destruct (K1 El) as [-> _]|]. intros _. destruct Q as [-> | ->]; done.
Qed.

Section Narrowing.
Context (D : list Z) (la : liveness) (c : list instr) (rest : list entry).

Lemma narrowed_lives ty i j x ins ra la' out : (forall la', la' = (do_not_remove s la (flags (tcg_op_defs (opc i))) j [x] ins).1 -> passes D la' i j la) ->
  flags (tcg_op_defs (opc i)) = IMPL64 ty -> within (if ends_block i then [] else outs_of i ++ D) la -> (forall t, t ∈ ins_of i -> block_live s t \/ t ∈ D) ->
  lives la c (e_instr <$> rest) -> narrowed s la (flags (tcg_op_defs (opc i))) j [x] ins ra rest = Ok (la', out) ->
  lives la' (i :: c) (e_instr <$> out) /\ within D la'.
Proof.
  intros P Ef Hw Hi L E. unfold narrowed in E. destruct rest as [|[[op l] a] rest']; [discriminate E|]. destruct op; try discriminate E.
  destruct (do_not_remove _ _ _ _ _ _) as [la1 x1] eqn:Ed. apply Ok_inj in E. apply pair_eq in E as [<- <-]. cbn [fmap list_fmap e_instr].
  assert (e_instr x1 = j) as -> by (unfold do_not_remove in Ed; destruct (output_args _ _ _ _ _) as [? [? ?]], (input_args _ _ _ _ _); by injection Ed as _ <-).
  apply (lives_passes D la1 i j la); try done; [by apply P|]. eapply lives_nop; [apply quiet_nop|exact L].
Qed.

Lemma plain_lives i x la' out : passes D x.1 i (e_instr x.2) la -> within (if ends_block i then [] else outs_of i ++ D) la -> (forall t, t ∈ ins_of i -> block_live s t \/ t ∈ D) ->
  lives la c (e_instr <$> rest) -> (let '(la0, y) := x in Ok (la0, y :: rest)) = Ok (la', out) -> lives la' (i :: c) (e_instr <$> out) /\ within D la'.
Proof. destruct x as [la0 y]. intros P Hw Hi L E. apply Ok_inj, pair_eq in E as [<- <-]. by apply (lives_passes D la0 i _ la). Qed.

Lemma kept_lives i la' out : shaped s i -> opc i <> INDEX_op_call -> within (if ends_block i then [] else outs_of i ++ D) la -> (forall t, t ∈ ins_of i -> block_live s t \/ t ∈ D) ->
  lives la c (e_instr <$> rest) -> (let '(la0, y) := do_not_remove s la (flags (tcg_op_defs (opc i))) i (oargs i) (iargs i) in Ok (la0, y :: rest)) = Ok (la', out) ->
  lives la' (i :: c) (e_instr <$> out) /\ within D la'.
Proof.
  intros Wi Nc Hw Hi L E. eapply plain_lives; [|done..|exact E]. pose proof (kept_passes D la i Wi Nc) as P.
  assert (e_instr (do_not_remove s la (flags (tcg_op_defs (opc i))) i (oargs i) (iargs i)).2 = i) as ->; [|done].
  unfold do_not_remove. destruct (output_args _ _ _ _ _) as [? [? ?]]. by destruct (input_args _ _ _ _ _).
Qed.

Lemma addsub2_lives op op_new ty l la' out :
  op = INDEX_op_add2 ty /\ op_new = INDEX_op_add ty \/ op = INDEX_op_sub2 ty /\ op_new = INDEX_op_sub ty ->
  shaped s (mkI op l) -> within (if ends_block (mkI op l) then [] else outs_of (mkI op l) ++ D) la -> (forall t, t ∈ ins_of (mkI op l) -> block_live s t \/ t ∈ D) ->
  lives la c (e_instr <$> rest) -> do_addsub2 s la op_new (mkI op l) rest = Ok (la', out) -> lives la' (mkI op l :: c) (e_instr <$> out) /\ within D la'.
Proof.
  intros Ops Wi Hw Hi L E. unfold do_addsub2 in E. cbn [args] in E. destruct l as [|rl [|rh [|al [|ah [|bl [|bh [|? ?]]]]]]]; try discriminate E.
  assert (op <> INDEX_op_call /\ op <> INDEX_op_set_label /\ op_new <> INDEX_op_set_label /\ tcg_op_defs op = DEF 2 4 0 (IMPL64 ty)) as (Nc & Nl & Nn & Ed)
    by (destruct Ops as [[-> ->]|[-> ->]]; done).
  set (i := mkI op _) in *. assert (oargs i = [rl; rh] /\ iargs i = [al; ah; bl; bh]) as [Eo Ei] by (unfold oargs, iargs; cbn [opc args i]; by rewrite Ed).
  assert (nb_oargs (tcg_op_defs op) <> 0%nat) as No by by rewrite Ed.
  destruct (unneeded la rh) eqn:Uh; [destruct (unneeded la rl) eqn:Ul|].
  - apply (plain_lives i (do_remove la i)); try done. apply removed_passes; try done; [cbn [opc i]; rewrite Ed; by destruct ty|by apply writer_in_block|]. rewrite Eo. cbn. by rewrite Ul, Uh.
  - eapply (narrowed_lives ty); [|cbn [opc i]; by rewrite Ed|done..|exact E]. intros la1 ->. cbn [opc i]. rewrite Ed. cbn [flags].
    pose proof (fun t => narrowed_needs la ty (IMPL64 ty) (mkI op_new [rl; al; bl]) rl [al; bl] t eq_refl) as N. set (la1 := (do_not_remove _ _ _ _ _ _).1) in *. clearbody la1.
    apply (narrowed_passes _ _ _ _ _ rl); try done; [rewrite Eo; left|rewrite Eo; intros t [->|[->|[]%not_elem_of_nil]%elem_of_cons]%elem_of_cons Nt; done|rewrite Ei; intros t Ht%N; set_solver|].
    apply (addsub2_transfers la1 la op op_new ty); try done; [apply N; set_solver|apply N; set_solver|]. intros t Ht. destruct (decide (t = rl)); [by left|]. right. apply N. tauto.
  - rewrite <- Eo, <- Ei in E. by eapply kept_lives.
Qed.

Lemma mul2_lives op op_new op_new2 have ty l la' out :
  op = INDEX_op_mulu2 ty /\ op_new = INDEX_op_mul ty /\ op_new2 = INDEX_op_muluh ty \/ op = INDEX_op_muls2 ty /\ op_new = INDEX_op_mul ty /\ op_new2 = INDEX_op_mulsh ty ->
  shaped s (mkI op l) -> within (if ends_block (mkI op l) then [] else outs_of (mkI op l) ++ D) la -> (forall t, t ∈ ins_of (mkI op l) -> block_live s t \/ t ∈ D) ->
  lives la c (e_instr <$> rest) -> do_mul2 s la op_new op_new2 have (mkI op l) rest = Ok (la', out) -> lives la' (mkI op l :: c) (e_instr <$> out) /\ within D la'.
Proof.
  intros Ops Wi Hw Hi L E. unfold do_mul2 in E. cbn [args] in E. destruct l as [|rl [|rh [|a [|b [|? ?]]]]]; try discriminate E.
  assert (op <> INDEX_op_call /\ op <> INDEX_op_set_label /\ op_new <> INDEX_op_set_label /\ op_new2 <> INDEX_op_set_label /\ tcg_op_defs op = DEF 2 2 0 (IMPL64 ty)) as (Nc & Nl & Nn & Nn2 & Ed)
    by (destruct Ops as [(-> & -> & ->)|(-> & -> & ->)]; done).
  set (i := mkI op _) in *. assert (oargs i = [rl; rh] /\ iargs i = [a; b]) as [Eo Ei] by (unfold oargs, iargs; cbn [opc args i]; by rewrite Ed).
  assert (nb_oargs (tcg_op_defs op) <> 0%nat) as No by by rewrite Ed.
  assert (forall x y j, [x; y] ≡ₚ [rl; rh] -> opc j <> INDEX_op_set_label -> needed la x -> unneeded la y = true ->
    (forall la1, needed la1 a -> needed la1 b -> (forall t, needed la t -> t = x \/ needed la1 t) -> transfers s la1 i j la (W := W)) ->
    narrowed s la (flags (tcg_op_defs (opc i))) j [x] [a; b] [b] rest = Ok (la', out) -> lives la' (i :: c) (e_instr <$> out) /\ within D la') as Half.
  { intros x y j Hp Nj Nx Uy T E1. eapply (narrowed_lives ty); [|cbn [opc i]; by rewrite Ed|done..|exact E1]. intros la1 ->. cbn [opc i]. rewrite Ed. cbn [flags].
    pose proof (fun t => narrowed_needs la ty (IMPL64 ty) j x [a; b] t eq_refl) as N. set (la1 := (do_not_remove _ _ _ _ _ _).1) in *. clearbody la1.
    apply (narrowed_passes _ _ _ _ _ x); try done; [rewrite Eo, <- Hp; left| |rewrite Ei; intros t Ht%N; done|].
    - intros t. rewrite Eo, <- Hp. intros [->|[->|[]%not_elem_of_nil]%elem_of_cons]%elem_of_cons Nt; done.
    - apply T; [apply N; set_solver|apply N; set_solver|]. intros t Ht. destruct (decide (t = x)); [by left|]. right. apply N. tauto. }
  destruct (unneeded la rh) eqn:Uh; [destruct (unneeded la rl) eqn:Ul|destruct (have && unneeded la rl) eqn:Ul].
  - apply (plain_lives i (do_remove la i)); try done. apply removed_passes; try done; [cbn [opc i]; rewrite Ed; by destruct ty|by apply writer_in_block|]. rewrite Eo. cbn. by rewrite Ul, Uh.
  - apply (Half rl rh (mkI op_new [rl; a; b])); try done. intros la1 Na Nb N. by apply (mul2_transfers la1 la op op_new op_new2 ty).
  - apply andb_prop in Ul as [_ Ul]. apply (Half rh rl (mkI op_new2 [rh; a; b])); try done; [by apply Permutation_swap|]. intros la1 Na Nb N. by apply (mul2_transfers la1 la op op_new op_new2 ty).
  - rewrite <- Eo, <- Ei in E. by eapply kept_lives.
Qed.
End Narrowing.

(** ** The analysis *)

Section Analysis.
Context (HAS_muluh HAS_mulsh : TCGType -> bool).

Lemma discard_passes D la t : shaped s (mkI INDEX_op_discard [t]) -> passes D (set_dead la t) (mkI INDEX_op_discard [t]) (mkI INDEX_op_discard [t]) la.
Proof.
  intros Wi Hw Hi. split; [|split; [split; done|]].
  - apply kept_transfers; try done. intros x Vx. split; [intros []%not_elem_of_nil|]. split; [discriminate|]. split; [discriminate|]. intros Hx.
    destruct (decide (x = t)) as [->|]; [left; left|]. right. by apply needed_dead.
  - intros x Vx [Nx Hx]%needed_dead. destruct (Hw x Vx Hx) as [?|Ho]; [tauto|]. change (x ∈ t :: D) in Ho. set_solver.
Qed.

Lemma idle_passes D la i : shaped s i -> i.(opc) = INDEX_op_debug_insn_start \/ opc i = INDEX_op_nopn -> passes D la i i la.
Proof.
  intros Wi Eo Hw Hi. assert (ins_of i = [] /\ outs_of i = [] /\ sees_globals i = false /\ ends_block i = false) as (E1 & E2 & E3 & E4)
    by (unfold ins_of, outs_of, sees_globals, ends_block, iargs, oargs; destruct Eo as [-> | ->]; done). rewrite E4, E2 in Hw. split; [|split; [split; [|done]|done]].
  - apply kept_transfers; try done. intros t Vt. rewrite E1, E2, E3, E4. split; [intros []%not_elem_of_nil|]. split; [discriminate|]. split; [discriminate|]. by right.
  - intros El. destruct Eo; congruence.
Qed.

Lemma liveness_op_lives D la i c rest la' out : shaped s i -> within (if ends_block i then [] else outs_of i ++ D) la -> (forall t, t ∈ ins_of i -> block_live s t \/ t ∈ D) ->
  lives la c (e_instr <$> rest) -> liveness_op s HAS_muluh HAS_mulsh la i rest = Ok (la', out) -> lives la' (i :: c) (e_instr <$> out) /\ within D la'.
Proof.
  intros Wi Hw Hi L E. unfold liveness_op in E.
  assert (forall x, passes D x.1 i (e_instr x.2) la -> Ok (x.1, x.2 :: rest) = Ok (la', out) -> lives la' (i :: c) (e_instr <$> out) /\ within D la') as One.
  { intros x P E1. apply Ok_inj, pair_eq in E1 as [<- <-]. by apply (lives_passes D x.1 i _ la). }
  destruct i as [op l]. cbn [opc args] in E. destruct op;
    try (match goal with |- lives _ (?i :: _) _ /\ _ => apply (One (default_op s la i)) end; [by apply default_passes|exact E]).
  - apply (One (la, mkEntry (mkI INDEX_op_nopn l) None)); [|exact E]. apply idle_passes; [done|by right].
  - destruct l as [|t [|? ?]]; try discriminate E. apply (One (set_dead la t, mkEntry (mkI INDEX_op_discard [t]) None)); [|exact E]. by apply discard_passes.
  - apply (One (call_op s la (mkI INDEX_op_call l))); [|exact E]. by apply call_passes.
  - apply (addsub2_lives D la c rest _ (INDEX_op_add ty) ty); tauto.
  - apply (addsub2_lives D la c rest _ (INDEX_op_sub ty) ty); tauto.
  - apply (mul2_lives D la c rest _ (INDEX_op_mul ty) (INDEX_op_muluh ty) (HAS_muluh ty) ty); tauto.
  - apply (mul2_lives D la c rest _ (INDEX_op_mul ty) (INDEX_op_mulsh ty) (HAS_mulsh ty) ty); tauto.
  - apply (One (la, mkEntry (mkI INDEX_op_debug_insn_start l) None)); [|exact E]. apply idle_passes; [done|by left].
Qed.

Lemma liveness_ops_lives code : forall D la out, Forall (shaped s) code -> block_local D code = true -> liveness_ops s HAS_muluh HAS_mulsh code = Ok (la, out) ->
  lives la code (e_instr <$> out) /\ within D la.
Proof.
  induction code as [|i code IH]; intros D la out F B E; cbn [liveness_ops] in E.
  - apply Ok_inj, pair_eq in E as [<- <-]. split; [constructor|]. intros t _ Ht%needed_func_end. by left; left.
  - apply bind_Ok in E as ([la1 rest] & E1 & E). apply List.Forall_cons_iff in F as [Wi F]. destruct (block_local_cons _ _ _ B) as [Hi B1].
    destruct (IH _ _ _ F B1 E1) as [L Hw]. by eapply liveness_op_lives.
Qed.

(** ** Runs *)

Lemma lives_labels la c c' l : lives la c c' -> label_pos c' l = label_pos c l.
Proof.
  induction 1 as [|la la' i j c c' L IH T [K1 K2]]; [done|]. cbn [label_pos]. destruct (decide (opc i = INDEX_op_set_label)) as [El|Nl].
  - destruct (K1 El) as [<- _]. by rewrite IH.
  - rewrite !label_test_no by auto. by rewrite IH.
Qed.

Lemma lives_from_label la c c' l pc : lives la c c' -> label_pos c l = Some pc ->
  exists la', lives la' (drop pc c) (drop pc c') /\ forall t, valid s t -> needed la' t -> block_live s t.
Proof.
  intros L. revert pc. induction L as [|la la' i j c c' L IH T K]; intros pc P; [discriminate P|]. cbn [label_pos] in P. destruct (_ && _) eqn:Lt.
  - injection P as <-. exists la'. split; [by eapply lives_cons|]. destruct K as [K _]. apply label_test in Lt. subst i. by apply K.
  - destruct (label_pos c l) as [k|]; [|discriminate P]. injection P as <-. by apply IH.
Qed.

(** The result of a run of the code that the analysis leaves, given that of the
    code. *)
Definition same_result (r r' : res (W * env * outcome)) : Prop :=
  match r with
  | Ok (w, e, o) => exists e', r' = Ok (w, e', o) /\ agree s (fun t => is_global s t = true) e e'
  | Err OutOfFuel => r' = Err OutOfFuel
  | Err _ => True
  end.

Lemma run_lives la0 code code' : lives la0 code code' -> forall fuel la pc (w : W) e e',
  lives la (drop pc code) (drop pc code') -> agree s (needed la) e e' -> same_result (run s fuel code pc w e) (run s fuel code' pc w e').
Proof.
  intros L0. induction fuel as [|fuel IH]; intros la pc w e e' L A; [done|]. cbn [run]. remember (drop pc code) as c eqn:Ec. remember (drop pc code') as c' eqn:Ec'.
  destruct L as [|la la' i j c c' L T K].
  - assert (code !! pc = None) as -> by (rewrite <- (Nat.add_0_r pc), <- lookup_drop, <- Ec; done). done.
  - symmetry in Ec, Ec'. destruct (lookup_rest _ _ _ _ Ec) as [-> R1]. destruct (lookup_rest _ _ _ _ Ec') as [-> R2].
    destruct (exec s w e i) as [[[w1 e1] fl]|f] eqn:Ex; cbn [res_bind]; [|destruct f; try done; by apply exec_no_fuel in Ex].
    destruct (T _ _ _ _ _ _ A Ex) as (e1' & -> & A1). cbn [res_bind]. destruct fl as [|l|o]; cbn [after] in A1; [|rewrite (lives_labels _ _ _ l L0)|by eexists].
    + apply (IH la); [by rewrite R1, R2|done].
    + destruct (label_pos code l) as [pc2|] eqn:P; [|done]. destruct (lives_from_label _ _ _ _ _ L0 P) as (la2 & L2 & B). apply (IH la2); [done|]. by eapply agree_mono.
Qed.

(** ** Totality *)

(** The operations that may be narrowed have a [nop] behind them. *)
Definition narrows (op : TCGOpcode) : bool :=
  match op with INDEX_op_add2 _ | INDEX_op_sub2 _ | INDEX_op_mulu2 _ | INDEX_op_muls2 _ => true | _ => false end.
Fixpoint roomy (code : list instr) : Prop :=
  match code with
  | [] => True
  | i :: code => (narrows (opc i) = true -> exists l rest, code = mkI INDEX_op_nop l :: rest) /\ roomy code
  end.

Lemma liveness_op_nop la l rest : exists la' a, liveness_op s HAS_muluh HAS_mulsh la (mkI INDEX_op_nop l) rest = Ok (la', mkEntry (mkI INDEX_op_nop l) a :: rest).
Proof. by do 2 eexists. Qed.

Lemma narrowed_total la fl j x ins ra l a rest : exists r, narrowed s la fl j x ins ra (mkEntry (mkI INDEX_op_nop l) a :: rest) = Ok r /\ length r.2 = S (S (length rest)).
Proof. unfold narrowed. destruct (do_not_remove _ _ _ _ _ _). by eexists. Qed.

Lemma liveness_op_total la i rest : shaped s i -> (narrows (opc i) = true -> exists l a rest', rest = mkEntry (mkI INDEX_op_nop l) a :: rest') ->
  exists r, liveness_op s HAS_muluh HAS_mulsh la i rest = Ok r /\ length r.2 = S (length rest).
Proof.
  intros Wi Hn. destruct i as [op l]. unfold liveness_op. cbn [opc args]. destruct op; try (by eexists).
  - destruct Wi as (Hl & _). cbn in Hl. destruct l as [|? [|? ?]]; try discriminate Hl. by eexists.
  - destruct (Hn eq_refl) as (nl & a & rest' & ->). destruct Wi as (Hl & _). cbn in Hl. do 7 (destruct l as [|? l]; try discriminate Hl).
    unfold do_addsub2. cbn [args]. repeat case_match; try apply narrowed_total; by eexists.
  - destruct (Hn eq_refl) as (nl & a & rest' & ->). destruct Wi as (Hl & _). cbn in Hl. do 7 (destruct l as [|? l]; try discriminate Hl).
    unfold do_addsub2. cbn [args]. repeat case_match; try apply narrowed_total; by eexists.
  - destruct (Hn eq_refl) as (nl & a & rest' & ->). destruct Wi as (Hl & _). cbn in Hl. do 5 (destruct l as [|? l]; try discriminate Hl).
    unfold do_mul2. cbn [args]. repeat case_match; try apply narrowed_total; by eexists.
  - destruct (Hn eq_refl) as (nl & a & rest' & ->). destruct Wi as (Hl & _). cbn in Hl. do 5 (destruct l as [|? l]; try discriminate Hl).
    unfold do_mul2. cbn [args]. repeat case_match; try apply narrowed_total; by eexists.
Qed.

Lemma liveness_ops_total code : Forall (shaped s) code -> roomy code ->
  exists la out, liveness_ops s HAS_muluh HAS_mulsh code = Ok (la, out) /\ length out = length code /\
  forall l rest, code = mkI INDEX_op_nop l :: rest -> exists a out', out = mkEntry (mkI INDEX_op_nop l) a :: out'.
Proof.
  induction code as [|i code IH]; intros F R; cbn [liveness_ops]; [by do 2 eexists|]. apply List.Forall_cons_iff in F as [Wi F]. destruct R as [Ri R].
  destruct (IH F R) as (la & out & -> & Len & Nop). cbn [res_bind]. destruct (liveness_op_total la i out Wi) as ([la' out'] & E & Len').
  { intros Hn. destruct (Ri Hn) as (l & rest & ->). destruct (Nop l rest eq_refl) as (a & out' & ->). eauto. }
  exists la', out'. split; [done|]. split; [cbn in *; by rewrite Len', Len|]. intros l rest Ec. injection Ec as -> ->.
  destruct (liveness_op_nop la l out) as (la2 & a & E2). rewrite E2 in E. apply Ok_inj, pair_eq in E as [_ <-]. eauto.
Qed.

(** C11: The code that the liveness analysis leaves refines the code.  The
    analysis ends without a failed assertion on code of the right shape that reads a
    temporary only after writing it in the same basic block (or that is global
    or local) and has a [nop] behind every double-word operation; a run that
    leaves the block leaves the result after as many steps with the same
    effects, by the same exit and with the same globals, and a run that does
    not end does not end. *)
Theorem tcg_liveness_correct code : Forall (shaped s) code -> block_local [] code = true -> roomy code ->
  exists out, tcg_liveness_analysis s HAS_muluh HAS_mulsh code = Ok out /\ length out = length code /\
  forall fuel (w : W) e, same_result (run s fuel code 0 w e) (run s fuel (e_instr <$> out) 0 w e).
Proof.
  intros F B R. destruct (liveness_ops_total code F R) as (la & out & E & Len & _). exists out. unfold tcg_liveness_analysis. rewrite E. split; [done|]. split; [done|].
  destruct (liveness_ops_lives code [] la out F B E) as [L _]. intros fuel w e. by apply (run_lives la code _ L fuel la).
Qed.
End Analysis.
End Ops.

(** ** An example *)

(** Two globals, a local temporary and others; the helpers of the log return
    nothing and change nothing. *)
Definition live_context : TCGContext := mkCtx 2 12 (fun _ => TCG_TYPE_I64) (fun t => t =? 2) (fun _ => true) (fun _ => true).
#[export] Instance store_log_lawful : LawfulHelpers (list (Z * Z)).
Proof. split; intros; [done|]. by do 2 eexists. Qed.

(** A dead sum, a product of which the high half is used, a double-word sum of
    which the low half is used, a call without side effects whose result is
    not used, and a branch that a local temporary survives. *)
Definition live_example : list instr := [
  mkI (INDEX_op_mov TCG_TYPE_I64) [3; 0];
  mkI (INDEX_op_add TCG_TYPE_I64) [4; 3; 1];
  mkI (INDEX_op_mulu2 TCG_TYPE_I64) [5; 6; 0; 1];
  mkI INDEX_op_nop [];
  mkI (INDEX_op_add2 TCG_TYPE_I64) [7; 8; 0; 1; 3; 6];
  mkI INDEX_op_nop [];
  mkI (INDEX_op_mov TCG_TYPE_I64) [2; 7];
  mkI (INDEX_op_movi TCG_TYPE_I64) [9; 77];
  mkI INDEX_op_call [0x10001; 10; 9; TCG_CALL_NO_SIDE_EFFECTS; 5];
  mkI (INDEX_op_st TCG_TYPE_I64) [6; 0; 8];
  mkI (INDEX_op_brcond TCG_TYPE_I64) [0; 1; TCG_COND_EQ; 4];
  mkI INDEX_op_exit_tb [1];
  mkI INDEX_op_set_label [4];
  mkI (INDEX_op_st TCG_TYPE_I64) [2; 0; 16];
  mkI INDEX_op_exit_tb [0] ].

(** What is left of it. *)
Definition live_result : list instr := [
  mkI (INDEX_op_mov TCG_TYPE_I64) [3; 0];
  mkI INDEX_op_nopn [3; 3; 3];
  mkI (INDEX_op_muluh TCG_TYPE_I64) [6; 0; 1];
  mkI INDEX_op_nopn [1];
  mkI (INDEX_op_add TCG_TYPE_I64) [7; 0; 3];
  mkI INDEX_op_nopn [3; 3; 3];
  mkI (INDEX_op_mov TCG_TYPE_I64) [2; 7];
  mkI INDEX_op_nopn [2; 2];
  mkI INDEX_op_nopn [5; 10; 9; TCG_CALL_NO_SIDE_EFFECTS; 5];
  mkI (INDEX_op_st TCG_TYPE_I64) [6; 0; 8];
  mkI (INDEX_op_brcond TCG_TYPE_I64) [0; 1; TCG_COND_EQ; 4];
  mkI INDEX_op_exit_tb [1];
  mkI INDEX_op_set_label [4];
  mkI (INDEX_op_st TCG_TYPE_I64) [2; 0; 16];
  mkI INDEX_op_exit_tb [0] ].

Lemma live_example_wf : Forall (wf_instr live_context) live_example.
Proof.
  unfold live_example. repeat apply List.Forall_cons; try (by typecheck). split; [typecheck|]. split; [typecheck|]. exists 1%nat, 1%nat. split; [lia|]. split; reflexivity.
Qed.

Lemma live_example_shaped : Forall (shaped live_context) live_example.
Proof. eapply List.Forall_impl; [apply wf_shaped|exact live_example_wf]. Qed.

Lemma live_example_roomy : roomy live_example.
Proof. cbn. repeat split; try discriminate; intros _; eauto. Qed.

Definition effects (r : res (list (Z * Z) * env * outcome)) : option (list (Z * Z) * outcome) := match r with Ok (w, _, o) => Some (w, o) | Err _ => None end.

(** The theorem at the example, whose result is as above; from globals that are
    both 2^40, both blocks store 2^16 and 2^41. *)
Lemma tcg_liveness_witness : exists out, tcg_liveness_analysis live_context (fun _ => true) (fun _ => true) live_example = Ok out /\ e_instr <$> out = live_result /\
  same_result live_context (run live_context 20 live_example 0 [] (fun _ => 2 ^ 40)) (run live_context 20 (e_instr <$> out) 0 [] (fun _ => 2 ^ 40)) /\
  effects (run live_context 20 live_result 0 [] (fun _ => 2 ^ 40)) = Some ([(2 ^ 40 + 16, 2 ^ 41); (2 ^ 40 + 8, 2 ^ 16)], ExitTB 0).
Proof.
  destruct (tcg_liveness_correct live_context ltac:(split; cbn; lia) ltac:(cbn; unfold TCG_MAX_TEMPS; lia) (fun _ => true) (fun _ => true) live_example) as (out & E & _ & S).
  - exact live_example_shaped.
  - vm_compute. reflexivity.
  - exact live_example_roomy.
  - exists out. split; [exact E|]. split; [|split; [apply S|vm_compute; reflexivity]]. vm_compute in E. injection E as <-. reflexivity.
Defined.
