(* ===== verification/TcgLivenessExact.v ===== *)
(** * What liveness tells the register allocator

    [op_dead_args] and [op_sync_args] against a reference: whether a later
    operation of the basic block reads the register of a temporary, and whether
    its memory is looked at before it is written again. *)

From stdpp Require Import base list numbers sets.
From S2P Require Import Prelude Tcg TcgFacts TcgTyping TcgLiveness TcgLivenessFacts TcgLivenessClaims.

(** ** Bits *)

Lemma set_bit_testbit w x k m : 0 <= k -> 0 <= m < w -> Z.testbit (set_bit w x k) m = Z.testbit x m || (m =? k).
Proof.
  intros Hk Hm. unfold set_bit. rewrite uwrap_testbit by lia. destruct (Z.ltb_spec m w); [|lia]. cbn [andb]. rewrite Z.lor_spec, Z.shiftl_spec by lia. f_equal.
  destruct (Z.eqb_spec m k) as [->|N]; [by rewrite Z.sub_diag|].
  destruct (Z.lt_ge_cases (m - k) 0); [by apply Z.testbit_neg_r|]. apply Z.bits_above_log2; [lia|]. cbn. lia.
Qed.

Definition mark (b : bool) (w x k : Z) : Z := if b then set_bit w x k else x.
Lemma mark_testbit b w x k m : 0 <= k -> 0 <= m < w -> Z.testbit (mark b w x k) m = Z.testbit x m || (m =? k) && b.
Proof. intros Hk Hm. destruct b; cbn [mark]; rewrite ?set_bit_testbit, ?andb_true_r, ?andb_false_r, ?orb_false_r by lia; done. Qed.

Lemma output_args_cons la k t outs d y :
  output_args la k (t :: outs) d y = output_args (set_dead la t) (k + 1) outs (mark (dead_temps la t) 16 d k) (mark (mem_temps la t) 8 y k).
Proof. done. Qed.

(** Bits of arguments outside the loop. *)
Lemma output_args_other outs : forall la k d y m, 0 <= k -> 0 <= m -> m < k \/ k + Z.of_nat (length outs) <= m ->
  (m < 16 -> Z.testbit (output_args la k outs d y).2.1 m = Z.testbit d m) /\ (m < 8 -> Z.testbit (output_args la k outs d y).2.2 m = Z.testbit y m).
Proof.
  induction outs as [|t outs IH]; intros la k d y m Hk Hm Ho; [done|]. rewrite output_args_cons. cbn [length] in Ho.
  destruct (IH (set_dead la t) (k + 1) (mark (dead_temps la t) 16 d k) (mark (mem_temps la t) 8 y k) m) as [H1 H2]; [lia..|].
  split; intros Hw; [rewrite H1|rewrite H2]; try lia; rewrite mark_testbit by lia; assert ((m =? k) = false) as -> by (apply Z.eqb_neq; lia); cbn [andb]; apply orb_false_r.
Qed.

Lemma output_args_bit outs : forall la k d y n t, 0 <= k -> outs !! n = Some t -> t ∉ take n outs ->
  (k + Z.of_nat n < 16 -> Z.testbit d (k + Z.of_nat n) = false -> Z.testbit (output_args la k outs d y).2.1 (k + Z.of_nat n) = dead_temps la t) /\
  (k + Z.of_nat n < 8 -> Z.testbit y (k + Z.of_nat n) = false -> Z.testbit (output_args la k outs d y).2.2 (k + Z.of_nat n) = mem_temps la t).
Proof.
  induction outs as [|x outs IH]; intros la k d y [|n] t Hk E N; try discriminate E; rewrite output_args_cons.
  - injection E as ->. rewrite Z.add_0_r. destruct (output_args_other outs (set_dead la t) (k + 1) (mark (dead_temps la t) 16 d k) (mark (mem_temps la t) 8 y k) k) as [H1 H2]; [lia..|].
    split; intros Hw Hd; [rewrite H1|rewrite H2]; try lia; by rewrite mark_testbit, Hd, Z.eqb_refl by lia.
  - cbn [lookup list_lookup take] in *. replace (k + Z.of_nat (S n)) with (k + 1 + Z.of_nat n) by lia.
    destruct (IH (set_dead la x) (k + 1) (mark (dead_temps la x) 16 d k) (mark (mem_temps la x) 8 y k) n t ltac:(lia) E ltac:(set_solver)) as [H1 H2].
    assert (forall b w v, 0 <= k + 1 + Z.of_nat n < w -> Z.testbit (mark b w v k) (k + 1 + Z.of_nat n) = Z.testbit v (k + 1 + Z.of_nat n)) as Hm.
    { intros b w v Hw. rewrite mark_testbit by lia. assert ((k + 1 + Z.of_nat n =? k) = false) as -> by (apply Z.eqb_neq; lia). apply orb_false_r. }
    assert ((t =? x) = false) as Et by (apply Z.eqb_neq; set_solver).
    split; intros Hw Hd; [rewrite H1|rewrite H2]; try lia; rewrite ?Hm by lia; try done; cbn; by rewrite set_bool_spec, Et.
Qed.

Lemma input_args_cons la dummies k t ins d : (dummies = true -> (TCG_CALL_DUMMY_ARG ∉ t :: ins)) ->
  input_args la dummies k (t :: ins) d = input_args (set_live la t) dummies (k + 1) ins (mark (dead_temps la t) 16 d k).
Proof.
  intros Hd. cbn [input_args]. assert (dummies && (t =? TCG_CALL_DUMMY_ARG) = false) as ->; [|done].
  destruct dummies; [|done]. apply Z.eqb_neq. intros ->. apply Hd; [done|left].
Qed.

Lemma input_args_other dummies ins : (dummies = true -> (TCG_CALL_DUMMY_ARG ∉ ins)) -> forall la k d m, 0 <= m < 16 -> m < k ->
  Z.testbit (input_args la dummies k ins d).2 m = Z.testbit d m.
Proof.
  induction ins as [|x ins IH]; intros Hd la k d m Hm Hk; [done|]. rewrite input_args_cons by done. rewrite IH by (lia || intros E; specialize (Hd E); set_solver).
  rewrite mark_testbit by lia. assert ((m =? k) = false) as -> by (apply Z.eqb_neq; lia). apply orb_false_r.
Qed.

Lemma input_args_bit dummies ins : (dummies = true -> (TCG_CALL_DUMMY_ARG ∉ ins)) -> forall la k d n t, 0 <= k -> ins !! n = Some t -> k + Z.of_nat n < 16 ->
  Z.testbit d (k + Z.of_nat n) = false -> Z.testbit (input_args la dummies k ins d).2 (k + Z.of_nat n) = negb (bool_decide (t ∈ take n ins)) && dead_temps la t.
Proof.
  intros Hd. induction ins as [|x ins IH]; intros la k d [|n] t Hk E Hw Hb; try discriminate E; rewrite input_args_cons by done.
  - injection E as ->. rewrite Z.add_0_r in *. rewrite input_args_other by (lia || intros E; specialize (Hd E); set_solver). by rewrite mark_testbit, Hb, Z.eqb_refl by lia.
  - cbn [lookup list_lookup take] in *. replace (k + Z.of_nat (S n)) with (k + 1 + Z.of_nat n) in * by lia.
    rewrite (IH ltac:(intros E1; specialize (Hd E1); set_solver) (set_live la x) (k + 1) (mark (dead_temps la x) 16 d k) n t) by
      (lia || done || (rewrite mark_testbit by lia; rewrite Hb; assert ((k + 1 + Z.of_nat n =? k) = false) as -> by (apply Z.eqb_neq; lia); done)).
    cbn [set_live dead_temps]. rewrite set_bool_spec. destruct (Z.eqb_spec t x) as [->|N].
    + rewrite (bool_decide_true (x ∈ x :: _)) by left. by rewrite andb_false_r.
    + by rewrite (bool_decide_ext (t ∈ x :: take n ins) (t ∈ take n ins)) by set_solver.
Qed.

(** ** The reference *)

Section Exact.
Context (s : TCGContext).
Implicit Types la : liveness.

(** The register of [t] still holds its value after the operation. *)
Definition survives (i : instr) (t : Z) : bool :=
  negb (ends_block i) && negb (bool_decide (t ∈ outs_of i)) && negb (clobbers i && is_global s t).

(** A later operation of the basic block reads the register of [t]. *)
Fixpoint used (code : list instr) (t : Z) : bool :=
  match code with [] => false | i :: code => bool_decide (t ∈ ins_of i) || survives i t && used code t end.

(** The memory of [t] is looked at before [t] is written again. *)
Fixpoint stored (code : list instr) (t : Z) : bool :=
  match code with
  | [] => is_global s t
  | i :: code =>
      if ends_block i then is_global s t || temp_local s t
      else sees_globals i && is_global s t || negb (bool_decide (t ∈ outs_of i)) && stored code t
  end.

(** The bits of an operation with the code behind it: an output is dead or
    stored as the code behind says; an input is dead if it is the first
    occurrence of its temporary and the register is not used any more. *)
Definition args_exact (i : instr) (rest : list instr) (dead_args sync_args : Z) : Prop :=
  (forall k t, outs_of i !! k = Some t -> t ∉ take k (outs_of i) ->
     (Z.of_nat k < 16 -> Z.testbit dead_args (Z.of_nat k) = negb (used rest t)) /\
     (Z.of_nat k < 8 -> Z.testbit sync_args (Z.of_nat k) = stored rest t)) /\
  (forall k t, ins_of i !! k = Some t -> Z.of_nat (length (outs_of i) + k) < 16 ->
     Z.testbit dead_args (Z.of_nat (length (outs_of i) + k)) = negb (bool_decide (t ∈ take k (ins_of i))) && negb (survives i t && used rest t)).

Fixpoint exact (out : list entry) : Prop :=
  match out with
  | [] => True
  | x :: out => match e_args x with Some (d, y) => args_exact (e_instr x) (e_instr <$> out) d y | None => True end /\ exact out
  end.

(** The arrays, and the entries made so far. *)
Definition tracks la (code : list instr) : Prop := forall t, dead_temps la t = negb (used code t) /\ mem_temps la t = stored code t.

(** Outputs, then what the operation does to the arrays as a whole, then inputs. *)
Lemma loops_exact la (mid : liveness -> liveness) i rest dummies : (dummies = true -> (TCG_CALL_DUMMY_ARG ∉ ins_of i)) -> tracks la rest ->
  (forall la0 t, dead_temps (mid la0) t = ends_block i || clobbers i && is_global s t || dead_temps la0 t) ->
  (forall la0 t, mem_temps (mid la0) t = if ends_block i then is_global s t || temp_local s t else sees_globals i && is_global s t || mem_temps la0 t) ->
  let '(la1, (d, y)) := output_args la 0 (outs_of i) 0 0 in
  let '(la2, d2) := input_args (mid la1) dummies (Z.of_nat (length (outs_of i))) (ins_of i) d in
  tracks la2 (i :: rest) /\ args_exact i rest d2 y.
Proof.
  intros Hd T Md Mm. pose proof (output_args_spec (outs_of i) la 0 0 0) as Ho. pose proof (output_args_other (outs_of i) la 0 0 0) as Oo. pose proof (output_args_bit (outs_of i) la 0 0 0) as Ob.
  destruct (output_args la 0 (outs_of i) 0 0) as [la1 [d y]]. cbn [fst snd] in *. pose proof (input_args_spec dummies (ins_of i) Hd (mid la1) (Z.of_nat (length (outs_of i))) d) as Hi.
  pose proof (input_args_bit dummies (ins_of i) Hd (mid la1) (Z.of_nat (length (outs_of i))) d) as Ib. pose proof (input_args_other dummies (ins_of i) Hd (mid la1) (Z.of_nat (length (outs_of i))) d) as Io.
  destruct (input_args (mid la1) _ _ _ _) as [la2 d2]. cbn [fst snd] in *.
  assert (forall t, dead_temps (mid la1) t = negb (survives i t && used rest t)) as Dm.
  { intros t. rewrite Md. destruct (Ho t) as [-> _]. destruct (T t) as [-> _]. unfold survives.
    destruct (ends_block i), (bool_decide _), (clobbers i && _), (used rest t); done. }
  split.
  - intros t. destruct (Hi t) as [-> ->]. rewrite Dm, Mm. destruct (Ho t) as [_ ->]. destruct (T t) as [_ ->]. cbn [used stored]. split; [by rewrite negb_orb|done].
  - split.
    + intros k t Ek Nk. destruct (Ob k t ltac:(lia) Ek Nk) as [O1 O2]. destruct (T t) as [T1 T2]. rewrite T1, T2 in *. apply lookup_lt_Some in Ek.
      split; intros Hw; [rewrite Io by lia; rewrite <- O1|rewrite <- O2]; try rewrite Z.add_0_l; try done; apply Z.testbit_0_l.
    + intros k t Ek Hw. rewrite Nat2Z.inj_add in *. rewrite (Ib k t) by (lia || done || (destruct (Oo (Z.of_nat (length (outs_of i)) + Z.of_nat k)) as [O1 _]; [lia..|]; rewrite O1 by lia; apply Z.testbit_0_l)).
      by rewrite Dm.
Qed.

Lemma kept_exact la fl i outs ins rest : opc i <> INDEX_op_call -> outs_of i = outs -> ins_of i = ins ->
  negb (Z.land fl TCG_OPF_BB_END =? 0) = ends_block i -> negb (Z.land fl TCG_OPF_SIDE_EFFECTS =? 0) = sees_globals i -> tracks la rest ->
  let r := do_not_remove s la fl i outs ins in
  tracks r.1 (i :: rest) /\ e_instr r.2 = i /\ match e_args r.2 with Some (d, y) => args_exact i rest d y | None => True end.
Proof.
  intros Nc <- <- Eb Es T. destruct (plain_views i Nc) as (_ & _ & Ec & _). unfold do_not_remove. rewrite Eb, Es.
  pose proof (loops_exact la (fun la1 => if ends_block i then tcg_la_bb_end s else if sees_globals i then sync_globals s la1 else la1) i rest false) as L.
  destruct (output_args _ _ _ _ _) as [la1 [d y]]. cbv beta in L. destruct (input_args _ _ _ _ _) as [la2 d2]. cbn [fst snd e_instr e_args]. split_and!; try done; apply L; try done.
  all: intros la0 t; rewrite ?Ec; destruct (ends_block i), (sees_globals i); done.
Qed.

Lemma call_exact la i rest : opc i = INDEX_op_call -> (TCG_CALL_DUMMY_ARG ∉ ins_of i) -> tracks la rest ->
  let r := keep_call s la i in
  tracks r.1 (i :: rest) /\ e_instr r.2 = i /\ match e_args r.2 with Some (d, y) => args_exact i rest d y | None => True end.
Proof.
  intros Ec Hd T. unfold keep_call. assert (ends_block i = false) as Eb by (unfold ends_block; by rewrite Ec).
  assert (outs_of i = c_outs (decode_call (args i)) /\ ins_of i = c_ins (decode_call (args i))) as [Eo Ei] by (unfold outs_of, ins_of; by rewrite Ec). rewrite <- Eo, <- Ei.
  assert (clobbers i = (Z.land (c_flags (decode_call (args i))) (Z.lor TCG_CALL_NO_WRITE_GLOBALS TCG_CALL_NO_READ_GLOBALS) =? 0)) as <- by (unfold clobbers; rewrite Ec; by rewrite Z.lor_comm).
  assert (sees_globals i = (Z.land (c_flags (decode_call (args i))) TCG_CALL_NO_READ_GLOBALS =? 0)) as <- by (unfold sees_globals; by rewrite Ec).
  pose proof (loops_exact la (fun la1 => let la1 := if sees_globals i then sync_globals s la1 else la1 in if clobbers i then kill_globals s la1 else la1) i rest true) as L.
  destruct (output_args _ _ _ _ _) as [la1 [d y]]. cbv beta zeta in L. destruct (input_args _ _ _ _ _) as [la2 d2]. cbn [fst snd e_instr e_args]. split_and!; try done; apply L; try done.
  all: intros la0 t; rewrite ?Eb; destruct (clobbers i), (sees_globals i); done.
Qed.

Lemma quiet_views j : quiet j -> ins_of j = [] /\ outs_of j = [] /\ ends_block j = false /\ clobbers j = false /\ sees_globals j = false.
Proof. unfold ins_of, outs_of, ends_block, clobbers, sees_globals, iargs, oargs. by intros [-> | ->]. Qed.
Lemma quiet_used j rest t : quiet j -> used (j :: rest) t = used rest t /\ stored (j :: rest) t = stored rest t.
Proof. intros Q. destruct (quiet_views j Q) as (E1 & E2 & E3 & E4 & E5). cbn [used stored]. unfold survives. by rewrite E1, E2, E3, E4, E5. Qed.
Lemma quiet_tracks la j rest : quiet j -> tracks la rest -> tracks la (j :: rest).
Proof. intros Q T t. destruct (quiet_used j rest t Q) as [-> ->]. apply T. Qed.
Lemma quiet_exact j rest d y : quiet j -> args_exact j rest d y.
Proof. intros Q. destruct (quiet_views j Q) as (E1 & E2 & _). unfold args_exact. by rewrite E1, E2. Qed.

Definition sound (la : liveness) (out : list entry) : Prop := tracks la (e_instr <$> out) /\ exact out.

Lemma sound_nop la l a j rest : quiet j -> sound la (mkEntry (mkI INDEX_op_nop l) a :: rest) -> sound la (mkEntry j a :: rest).
Proof.
  intros Q [T [_ X]]. cbn [fmap list_fmap e_instr] in T. split; [|split; [|done]].
  - intros t. cbn [fmap list_fmap e_instr]. destruct (quiet_used j (e_instr <$> rest) t Q) as [-> ->].
    destruct (quiet_used (mkI INDEX_op_nop l) (e_instr <$> rest) t ltac:(by left)) as [<- <-]. apply T.
  - cbn [e_args e_instr]. destruct a as [[d y]|]; [|done]. by apply quiet_exact.
Qed.

Lemma sound_cons la out x : tracks x.1 (e_instr x.2 :: (e_instr <$> out)) -> match e_args x.2 with Some (d, y) => args_exact (e_instr x.2) (e_instr <$> out) d y | None => True end ->
  sound la out -> sound x.1 (x.2 :: out).
Proof. intros T A [_ X]. by split. Qed.

Lemma sound_kept la fl i outs ins out : opc i <> INDEX_op_call -> outs_of i = outs -> ins_of i = ins ->
  negb (Z.land fl TCG_OPF_BB_END =? 0) = ends_block i -> negb (Z.land fl TCG_OPF_SIDE_EFFECTS =? 0) = sees_globals i -> sound la out ->
  sound (do_not_remove s la fl i outs ins).1 ((do_not_remove s la fl i outs ins).2 :: out).
Proof.
  intros Nc Eo Ei Eb Es So. destruct (kept_exact la fl i outs ins (e_instr <$> out) Nc Eo Ei Eb Es (proj1 So)) as (T & E & A). apply (sound_cons la); [by rewrite E|by rewrite E|done].
Qed.

(** ** The analysis *)

Context (C : wf_context s) (Max : nb_temps s <= TCG_MAX_TEMPS) (HAS_muluh HAS_mulsh : TCGType -> bool).

Lemma sound_removed la l out : sound la out -> sound la (mkEntry (tcg_set_nop l) None :: out).
Proof. intros [T X]. split; [apply quiet_tracks; [apply quiet_nop|done]|done]. Qed.

Lemma sound_narrowed la ty j x ins ra out r : opc j <> INDEX_op_call -> outs_of j = [x] -> ins_of j = ins -> ends_block j = false -> sees_globals j = false -> sound la out ->
  narrowed s la (IMPL64 ty) j [x] ins ra out = Ok r -> sound r.1 r.2.
Proof.
  intros Nc Eo Ei Eb Es So E. unfold narrowed in E. destruct out as [|[[op l] a] out]; [discriminate E|]. destruct op; try discriminate E.
  pose proof (sound_kept la (IMPL64 ty) j [x] ins (mkEntry (tcg_set_nop ra) a :: out) Nc Eo Ei) as K. destruct (do_not_remove _ _ _ _ _ _) as [la1 y]. apply Ok_inj in E. subst r. apply K.
  - rewrite Eb. by destruct ty.
  - rewrite Es. by destruct ty.
  - eapply sound_nop; [apply quiet_nop|exact So].
Qed.

Lemma sound_default la i out : opc i <> INDEX_op_call -> sound la out -> sound (default_op s la i).1 ((default_op s la i).2 :: out).
Proof.
  intros Nc So. destruct (plain_views i Nc) as (Ei & Eo & _ & Eg). unfold default_op. destruct (_ && _); [by apply sound_removed|]. by apply sound_kept.
Qed.

Lemma sound_addsub2 la op op_new ty l out r : op = INDEX_op_add2 ty /\ op_new = INDEX_op_add ty \/ op = INDEX_op_sub2 ty /\ op_new = INDEX_op_sub ty -> sound la out ->
  do_addsub2 s la op_new (mkI op l) out = Ok r -> sound r.1 r.2.
Proof.
  intros Ops So E. unfold do_addsub2 in E. cbn [args opc] in E. destruct l as [|rl [|rh [|al [|ah [|bl [|bh [|? ?]]]]]]]; try discriminate E.
  destruct (unneeded la rh); [destruct (unneeded la rl)|].
  - apply Ok_inj in E. subst r. by apply sound_removed.
  - assert (flags (tcg_op_defs op) = IMPL64 ty) as Ef by (destruct Ops as [[-> _]|[-> _]]; done). rewrite Ef in E. eapply sound_narrowed; [..|exact So|exact E];
      destruct Ops as [[_ ->]|[_ ->]]; try done; by destruct ty.
  - pose proof (sound_kept la (flags (tcg_op_defs op)) (mkI op [rl; rh; al; ah; bl; bh]) [rl; rh] [al; ah; bl; bh] out) as K.
    destruct (do_not_remove _ _ _ _ _ _) as [la1 y]. apply Ok_inj in E. subst r. apply K; try done; destruct Ops as [[-> _]|[-> _]]; done.
Qed.

Lemma sound_mul2 la op op_new op_new2 have ty l out r :
  op = INDEX_op_mulu2 ty /\ op_new = INDEX_op_mul ty /\ op_new2 = INDEX_op_muluh ty \/ op = INDEX_op_muls2 ty /\ op_new = INDEX_op_mul ty /\ op_new2 = INDEX_op_mulsh ty -> sound la out ->
  do_mul2 s la op_new op_new2 have (mkI op l) out = Ok r -> sound r.1 r.2.
Proof.
  intros Ops So E. unfold do_mul2 in E. cbn [args opc] in E. destruct l as [|rl [|rh [|a [|b [|? ?]]]]]; try discriminate E.
  assert (flags (tcg_op_defs op) = IMPL64 ty) as Ef by (destruct Ops as [(-> & _)|(-> & _)]; done). rewrite Ef in E.
  destruct (unneeded la rh); [destruct (unneeded la rl)|destruct (have && unneeded la rl)].
  - apply Ok_inj in E. subst r. by apply sound_removed.
  - eapply sound_narrowed; [..|exact So|exact E]; destruct Ops as [(_ & -> & ->)|(_ & -> & ->)]; try done; by destruct ty.
  - eapply sound_narrowed; [..|exact So|exact E]; destruct Ops as [(_ & -> & ->)|(_ & -> & ->)]; try done; by destruct ty.
  - pose proof (sound_kept la (IMPL64 ty) (mkI op [rl; rh; a; b]) [rl; rh] [a; b] out) as K.
    destruct (do_not_remove _ _ _ _ _ _) as [la1 y]. apply Ok_inj in E. subst r. apply K; try done; destruct Ops as [(-> & _)|(-> & _)]; try done; by destruct ty.
Qed.

Lemma sound_op la i out r : shaped s i -> sound la out -> liveness_op s HAS_muluh HAS_mulsh la i out = Ok r -> sound r.1 r.2.
Proof.
  intros Wi So E. unfold liveness_op in E. destruct (opc i) eqn:Eo; destruct i as [op l]; cbn [opc args] in *; subst op;
    try (apply Ok_inj in E; subst r; apply sound_default; [done|exact So]).
  - apply Ok_inj in E. subst r. split; [apply quiet_tracks; [by right|apply So]|split; [done|apply So]].
  - destruct l as [|t [|? ?]]; try discriminate E. apply Ok_inj in E. subst r. split; [|split; [done|apply So]]. intros x. cbn [fst snd fmap list_fmap e_instr used stored set_dead dead_temps mem_temps].
    destruct So as [T _]. destruct (T x) as [T1 T2]. unfold survives. change (outs_of (mkI INDEX_op_discard [t])) with [t]. change (ins_of (mkI INDEX_op_discard [t])) with (@nil Z). rewrite !set_bool_spec, T1, T2.
    rewrite (bool_decide_ext (x ∈ [t]) (x = t)) by apply list_elem_of_singleton. destruct (Z.eqb_spec x t) as [->|N]; [by rewrite (bool_decide_true (t = t))|]. by rewrite (bool_decide_false (x = t)).
  - apply Ok_inj in E. subst r. cbn [fst snd]. unfold call_op. destruct (_ && _); [by apply sound_removed|].
    destruct (call_exact la (mkI INDEX_op_call l) (e_instr <$> out) eq_refl (ins_no_dummy s Max _ Wi) (proj1 So)) as (T & Ee & A). apply (sound_cons la); [by rewrite Ee|by rewrite Ee|done].
  - by eapply (sound_addsub2 la _ (INDEX_op_add ty) ty); [left| |].
  - by eapply (sound_addsub2 la _ (INDEX_op_sub ty) ty); [right| |].
  - by eapply (sound_mul2 la _ (INDEX_op_mul ty) (INDEX_op_muluh ty) _ ty); [left| |].
  - by eapply (sound_mul2 la _ (INDEX_op_mul ty) (INDEX_op_mulsh ty) _ ty); [right| |].
  - apply Ok_inj in E. subst r. split; [|split; [done|apply So]]. intros t. destruct So as [T _]. apply T.
Qed.

Lemma sound_ops code : forall la out, Forall (shaped s) code -> liveness_ops s HAS_muluh HAS_mulsh code = Ok (la, out) -> sound la out.
Proof.
  induction code as [|i code IH]; intros la out F E; cbn [liveness_ops] in E; [apply Ok_inj, pair_eq in E as [<- <-]; by split|].
  apply bind_Ok in E as ([la1 rest] & E1 & E). apply List.Forall_cons_iff in F as [Wi F]. exact (sound_op la1 i rest (la, out) Wi (IH _ _ F E1) E).
Qed.

Lemma exact_lookup out : forall n x d y, exact out -> out !! n = Some x -> e_args x = Some (d, y) -> args_exact (e_instr x) (drop (S n) (e_instr <$> out)) d y.
Proof.
  induction out as [|z out IH]; intros [|n] x d y X E A; try discriminate E; destruct X as [Xz X].
  - injection E as ->. by rewrite A in Xz.
  - by apply (IH n x).
Qed.

(** C12: The bits that the analysis hands to the register allocator are exact.
    For every operation of the result that has them: an output is marked dead
    unless a later operation of the basic block reads it before it is written
    again, and marked for storing if its memory is looked at first; an input is
    marked dead at its first occurrence unless its register is read later or
    holds the value beyond the operation. *)
Theorem liveness_args_exact code out n x d y : Forall (shaped s) code -> tcg_liveness_analysis s HAS_muluh HAS_mulsh code = Ok out ->
  out !! n = Some x -> e_args x = Some (d, y) -> args_exact (e_instr x) (drop (S n) (e_instr <$> out)) d y.
Proof.
  intros F E. unfold tcg_liveness_analysis in E. apply bind_Ok in E as ([la out1] & E & E1). apply Ok_inj in E1. subst out1. apply exact_lookup. by eapply sound_ops.
Qed.
End Exact.

(** In the example, the double-word sum has become a sum whose second input
    dies. *)
Lemma liveness_args_witness : exists out x, tcg_liveness_analysis live_context (fun _ => true) (fun _ => true) live_example = Ok out /\ out !! 4%nat = Some x /\
  e_instr x = mkI (INDEX_op_add TCG_TYPE_I64) [7; 0; 3] /\ e_args x = Some (4, 0) /\ args_exact live_context (e_instr x) (drop 5 (e_instr <$> out)) 4 0.
Proof.
  pose proof (liveness_args_exact live_context ltac:(cbn; unfold TCG_MAX_TEMPS; lia) (fun _ => true) (fun _ => true) live_example) as X.
  do 2 eexists. split; [vm_compute; reflexivity|]. split; [reflexivity|]. split; [reflexivity|]. split; [reflexivity|].
  apply (X _ 4%nat); [exact live_example_shaped|vm_compute; reflexivity|reflexivity|reflexivity].
Defined.
