(* ===== verification/TcgPipeline.v ===== *)
(** * The passes one after the other

    The optimizer leaves code that the liveness analysis may work on: of the
    right shape, with every temporary written in its basic block before it is
    read, and with room behind double-word operations.  Hence the two passes,
    as [tcg_gen_code_common] runs them, keep what a block does. *)

From stdpp Require Import base list numbers sets.
From S2P Require Import Prelude Tcg TcgOptimize TcgFacts TcgCopies TcgKnown TcgStep TcgPropagate TcgBlock TcgTotal TcgTyping TcgOptimizeClaims TcgLiveness TcgLivenessFacts TcgLivenessClaims.

Section Tidy.
Context (s : TCGContext).
Implicit Types ts : tinfo.

(** ** Copies *)

Lemma put_state ts x v t : state (put ts x v t) = if t =? x then state v else state (ts t).
Proof. unfold put. by destruct (t =? x). Qed.

Lemma put_keep ts x v t : state v = state (ts x) -> state (put ts x v t) = state (ts t).
Proof. intros E. rewrite put_state. by destruct (Z.eqb_spec t x) as [->|]. Qed.

Lemma is_copy_spec ts t : is_copy ts t = true <-> state (ts t) = TCG_TEMP_COPY.
Proof. apply bool_decide_eq_true. Qed.

Lemma reset_copies ts d t : is_copy (reset_temp ts d) t = true -> is_copy ts t = true.
Proof.
  rewrite !is_copy_spec. unfold reset_temp. cbv zeta. rewrite put_state. destruct (t =? d); [done|]. destruct (is_copy ts d); [|done]. destruct (_ =? _).
  - rewrite put_state. by destruct (t =? _).
  - by rewrite !put_keep.
Qed.

Lemma reset_outputs_copies outs : forall ts t, is_copy (reset_outputs ts outs) t = true -> is_copy ts t = true.
Proof. induction outs as [|d outs IH]; intros ts t Ht; [done|]. by apply IH, reset_copies in Ht. Qed.

Lemma masked_copies ts d m t : is_copy (put ts d (set_mask (ts d) m)) t = true -> is_copy ts t = true.
Proof. rewrite !is_copy_spec, put_state. by destruct (Z.eqb_spec t d) as [->|]. Qed.

Lemma movi_copies ts op d v t : is_copy (tcg_opt_gen_movi ts op d v).1 t = true -> is_copy ts t = true.
Proof. unfold tcg_opt_gen_movi. cbn [fst]. rewrite is_copy_spec, put_state. destruct (t =? d); [done|]. rewrite <- is_copy_spec. apply reset_copies. Qed.

Lemma link_copies ts d a t : is_copy (link ts d a) t = true -> is_copy ts t = true \/ t = d \/ t = a.
Proof.
  rewrite !is_copy_spec. unfold link. cbv zeta. destruct (Z.eqb_spec t d) as [->|Nd]; [tauto|]. destruct (Z.eqb_spec t a) as [->|Na]; [tauto|]. intros E. left. revert E.
  rewrite !put_keep by done. rewrite put_state. destruct (Z.eqb_spec t d); [done|]. destruct (is_copy ts a); [done|]. cbn [negb]. rewrite put_state. by destruct (Z.eqb_spec t a).
Qed.

Lemma mov_copies ts op d a r : tcg_opt_gen_mov s ts op d a = Ok r -> r.2 = mkI (op_to_mov op) [d; a] /\ forall t, is_copy r.1 t = true -> is_copy ts t = true \/ t = d \/ t = a.
Proof.
  rewrite gen_mov_link. cbv zeta. intros E. apply bind_Ok in E as (_ & _ & E). apply Ok_inj in E. subst r. split; [done|]. intros t. cbn [fst].
  destruct (bool_decide _); [intros [Ht|Ht]%link_copies; [|tauto]|intros Ht]; left; eapply reset_copies, masked_copies; exact Ht.
Qed.

Lemma reset_all_copies ts t : valid s t -> is_copy (reset_all_temps (nb_temps s) ts) t = false.
Proof.
  intros [H0 H1]. unfold is_copy, reset_all_temps. assert ((0 <=? t) && (t <? nb_temps s) = true) as -> by (apply andb_true_intro; split; [by apply Z.leb_le|by apply Z.ltb_lt]).
  by apply bool_decide_false.
Qed.

Lemma copies_result ts d a : temps_are_copies s ts d a = Ok true -> d = a \/ is_copy ts d = true.
Proof.
  unfold temps_are_copies. destruct (Z.eqb_spec d a) as [->|]; [by left|]. destruct (negb (is_copy ts d)) eqn:Ed; cbn [orb]; [done|]. right. by apply negb_false_iff.
Qed.

(** ** What an operation becomes *)

(** The inputs are among the inputs; what was written is written, or is in a
    list of copies, or was read; members of lists of copies were members before
    or occur in the operation. *)
Definition tidy ts (i : instr) ts' (j : instr) : Prop :=
  shaped s j /\ ins_of j ⊆ ins_of i /\ (ends_block j = true -> ends_block i = true) /\ (narrows (opc j) = true -> opc j = opc i) /\
  (ends_block i = false -> forall d, d ∈ outs_of i -> d ∈ outs_of j \/ is_copy ts d = true \/ d ∈ ins_of i) /\
  (forall t, valid s t -> is_copy ts' t = true -> ends_block j = false /\ (is_copy ts t = true \/ t ∈ outs_of j \/ t ∈ ins_of j)).

(** A move of a constant. *)
Definition plain (j : instr) : Prop := shaped s j /\ ins_of j = [] /\ ends_block j = false /\ narrows (opc j) = false.

Definition all_tidy ts (i : instr) ts' (out : emitted) : Prop :=
  match out with
  | One j => tidy ts i ts' j
  | Two j1 j2 => plain j1 /\ plain j2 /\ ends_block i = false /\ (forall d, d ∈ outs_of i -> d ∈ outs_of j1 \/ d ∈ outs_of j2) /\ forall t, is_copy ts' t = true -> is_copy ts t = true
  end.

(** Operations with one output. *)
Definition writes1 (i : instr) (d : Z) : Prop := outs_of i = [d] /\ ends_block i = false /\ valid s d /\ Forall (valid s) (ins_of i).

Lemma writes1_of op l : wf_instr s (mkI op l) -> op <> INDEX_op_call -> nb_oargs (tcg_op_defs op) = 1%nat -> writes1 (mkI op l) (nth 0 l 0).
Proof.
  intros Wi Nc N1. destruct (shaped_data s (mkI op l) Nc (wf_shaped s _ Wi)) as (Lo & Vo & Vi). destruct (plain_views (mkI op l) Nc) as (Ei & Eo & _).
  assert (oargs (mkI op l) = [nth 0 l 0]) as Eq.
  { clear - Lo N1. unfold oargs in *. cbn [opc args] in *. rewrite N1 in Lo |- *. by destruct l. }
  unfold writes1. rewrite Ei, Eo, Eq in *. split; [done|]. split; [apply writer_in_block; cbn [opc]; by rewrite N1|]. split; [by apply List.Forall_cons_iff in Vo as [? _]|done].
Qed.

Lemma op_to_movi_shape op d v : valid s d -> let j := mkI (op_to_movi op) [d; v] in shaped s j /\ outs_of j = [d] /\ ins_of j = [] /\ ends_block j = false /\ narrows (opc j) = false.
Proof. intros Vd. unfold op_to_movi, shaped, ends_block. destruct (op_type op); cbn; split_and!; try done; repeat first [done|apply List.Forall_nil|apply List.Forall_cons]. Qed.
Lemma op_to_mov_shape op d a : valid s d -> valid s a -> let j := mkI (op_to_mov op) [d; a] in shaped s j /\ outs_of j = [d] /\ ins_of j = [a] /\ ends_block j = false /\ narrows (opc j) = false.
Proof. intros Vd Va. unfold op_to_mov, shaped, ends_block. destruct (op_type op); cbn; split_and!; try done; repeat first [done|apply List.Forall_nil|apply List.Forall_cons]. Qed.

Lemma tidy_movi ts i op d v : writes1 i d -> tidy ts i (tcg_opt_gen_movi ts op d v).1 (tcg_opt_gen_movi ts op d v).2.
Proof.
  intros (Eo & Eb & Vd & Vi). destruct (op_to_movi_shape op d v Vd) as (S & Oj & Ij & Bj & Nj). cbn [tcg_opt_gen_movi snd]. unfold tidy. rewrite Eo, Oj, Ij, Bj, Nj. split_and!; try done; [set_solver|set_solver|].
  intros t Vt Ht. split; [done|]. left. by eapply (movi_copies ts op d v).
Qed.

Lemma tidy_mov ts i op d a r : writes1 i d -> a ∈ ins_of i -> tcg_opt_gen_mov s ts op d a = Ok r -> tidy ts i r.1 r.2.
Proof.
  intros (Eo & Eb & Vd & Vi) Ha E. assert (valid s a) as Va by (rewrite List.Forall_forall in Vi; by apply Vi, list_elem_of_In).
  destruct (op_to_mov_shape op d a Vd Va) as (S & Oj & Ij & Bj & Nj). destruct (mov_copies ts op d a r E) as [-> Hc]. unfold tidy. rewrite Eo, Oj, Ij, Bj, Nj. split_and!; try done; [set_solver|set_solver|].
  intros t Vt Ht. split; [done|]. destruct (Hc t Ht) as [?|[->| ->]]; set_solver.
Qed.

Lemma tidy_nop ts i d a : writes1 i d -> a ∈ ins_of i -> temps_are_copies s ts d a = Ok true -> tidy ts i ts (mkI INDEX_op_nop []).
Proof.
  intros (Eo & Eb & Vd & Vi) Ha E. unfold tidy. rewrite Eo. change (ins_of (mkI INDEX_op_nop [])) with (@nil Z). change (outs_of (mkI INDEX_op_nop [])) with (@nil Z). split_and!; try done; [set_solver| |by auto].
  intros _ x Hx. apply list_elem_of_singleton in Hx as ->. destruct (copies_result ts d a E) as [->|]; tauto.
Qed.

Lemma tidy_mov_or_nop ts i op d a r : writes1 i d -> a ∈ ins_of i -> mov_or_nop s ts op d a = Ok r -> tidy ts i r.1 r.2.
Proof.
  intros H1 Ha E. unfold mov_or_nop in E. apply bind_Ok in E as (c & Ec & E). destruct c; [|by eapply tidy_mov]. apply Ok_inj in E. subst r. by eapply tidy_nop.
Qed.
Lemma tidy_mov_const ts i op d a r : writes1 i d -> a ∈ ins_of i -> mov_const_or_nop s ts op d a = Ok r -> tidy ts i r.1 r.2.
Proof.
  intros H1 Ha E. unfold mov_const_or_nop in E. apply bind_Ok in E as (c & Ec & E). destruct c; [apply Ok_inj in E; subst r; by eapply tidy_nop|].
  destruct (negb _); [by eapply tidy_mov|]. apply Ok_inj in E. subst r. by apply tidy_movi.
Qed.

(** An operation with the same output and some of the inputs. *)
Lemma tidy_reset ts i j d : writes1 i d -> shaped s j -> outs_of j = [d] -> ins_of j ⊆ ins_of i -> ends_block j = false -> narrows (opc j) = false -> tidy ts i (reset_temp ts d) j.
Proof.
  intros (Eo & Eb & Vd & Vi) S Oj Ij Bj Nj. unfold tidy. rewrite Eo, Oj, Bj, Nj. split_and!; try done; [set_solver|]. intros t Vt Ht%reset_copies. auto.
Qed.

(** ** The stages *)

Ltac one_output := match goal with |- writes1 (mkI ?op ?l) _ => apply (writes1_of op l); [assumption|discriminate|reflexivity] end.
Ltac is_input := cbv [ins_of iargs opc args tcg_op_defs nb_oargs nb_iargs take drop]; set_solver.

Lemma unary_tidy ts op l r : wf_instr s (mkI op l) -> simplify_unary s ts op l = Some r -> tidy ts (mkI op l) r.1 r.2.
Proof.
  intros Wi E. pose proof Wi as Wk. destruct op; try discriminate E; wf_shape Wi; cbn [simplify_unary] in E; unfold try_not in E;
    repeat match type of E with (if ?b then _ else _) = _ => destruct b; try discriminate E end; injection E as <-;
    first [apply (tidy_movi ts _ _ z 0); one_output | apply (tidy_reset ts _ _ z); [one_output|..]];
    try (by destruct (op_type _)); try (by unfold op_type, ends_block; destruct ty).
  all: try (unfold shaped; repeat match goal with |- context [op_type ?o] => destruct (op_type o) end; cbn; split_and!; repeat first [done|apply List.Forall_nil|apply List.Forall_cons]).
  all: try (repeat match goal with |- context [op_type ?o] => destruct (op_type o) end; is_input).
Qed.

Lemma mov_tidy ts op l r x : wf_instr s (mkI op l) -> simplify_mov s ts op l = Some r -> r = Ok x -> tidy ts (mkI op l) x.1 x.2.
Proof.
  intros Wi E Er. pose proof Wi as Wk. unfold simplify_mov in E. destruct op; try discriminate E; wf_shape Wi; cbn [mov_const] in E;
    (match type of E with (if ?b then _ else _) = _ => destruct b; try discriminate E end); apply Some_inj in E; subst r;
    (eapply tidy_mov_or_nop; [one_output| |exact Er]; is_input).
Qed.

Lemma zeros_input ts op l m : known_zeros ts op l = Ok (m, 0) -> nb_iargs (tcg_op_defs op) <> 0%nat.
Proof.
  intros K. destruct op; try discriminate; cbn [known_zeros] in K; discriminate K.
Qed.

Lemma mask_tidy ts op l m aff r : wf_instr s (mkI op l) -> known_zeros ts op l = Ok (m, aff) -> simplify_mask s ts op l (result_mask op m) aff = Ok (Some r) -> tidy ts (mkI op l) r.1 r.2.
Proof.
  intros Wi K E. unfold simplify_mask in E. destruct (Z.eqb_spec (result_mask op m) 0) as [Em|]; [|destruct (Z.eqb_spec aff 0) as [->|]; [|discriminate E]];
    pose proof (known_zeros_one s ts op l m _ Wi K ltac:(auto)) as N1; assert (op <> INDEX_op_call) as Nc by (by intros ->);
    pose proof (writes1_of op l Wi Nc N1) as H1; apply bind_Ok in E as (_ & _ & E).
  - apply Ok_inj, Some_inj in E. subst r. by apply tidy_movi.
  - apply bind_Ok in E as (x & Ex & E). apply Ok_inj, Some_inj in E. subst r. eapply tidy_mov_const; [exact H1| |exact Ex].
    pose proof (zeros_input ts op l m K) as Ni. destruct (plain_views (mkI op l) Nc) as (Ei & _). rewrite Ei. destruct (wf_data s (mkI op l) Nc Wi) as (_ & _ & _ & Len). cbn [opc args] in Len.
    unfold iargs. cbn [opc args]. rewrite N1. unfold nb_args in Len. rewrite N1 in Len. destruct l as [|d [|a l]]; cbn in Len; try lia. cbn [drop nth]. destruct (nb_iargs _); [done|]. left.
Qed.

Lemma same_tidy ts op l r : wf_instr s (mkI op l) -> simplify_same s ts op l = Ok (Some r) -> tidy ts (mkI op l) r.1 r.2.
Proof.
  intros Wi E. pose proof Wi as Wk. unfold simplify_same in E. destruct l as [|d [|a [|b [|? ?]]]]; try discriminate E. destruct op; try discriminate E; wf_shape Wi.
  all: try (match type of E with (if ?b then _ else _) = _ => destruct b; [apply Ok_inj, Some_inj in E; subst r; apply (tidy_movi ts _ _ d 0); one_output|] end).
  all: try discriminate E.
  all: apply bind_Ok in E as (c & _ & E); destruct c; try discriminate E.
  all: first [apply bind_Ok in E as (x & Ex & E); apply Ok_inj, Some_inj in E; subst r; (eapply tidy_mov_or_nop; [one_output| |exact Ex]; is_input)
    | apply Ok_inj, Some_inj in E; subst r; apply (tidy_movi ts _ _ d 0); one_output].
Qed.

Lemma default_tidy ts op l m : op <> INDEX_op_call -> wf_instr s (mkI op l) -> all_tidy ts (mkI op l) (do_default s ts (mkI op l) m).1 (do_default s ts (mkI op l) m).2.
Proof.
  intros Nc Wi. unfold do_default. cbn [fst snd all_tidy]. split; [by apply wf_shaped|]. split_and!; try done; [by auto|]. intros t Vt Ht. cbn [opc] in *.
  destruct (has_flag (tcg_op_defs op) TCG_OPF_BB_END) eqn:Eb; [by rewrite reset_all_copies in Ht|]. split; [exact Eb|]. left.
  destruct (oargs (mkI op l)); [done|]. by apply reset_outputs_copies, masked_copies, reset_copies in Ht.
Qed.

Lemma call_tidy ts l : wf_instr s (mkI INDEX_op_call l) -> all_tidy ts (mkI INDEX_op_call l) (opt_call s ts (mkI INDEX_op_call l)).1 (opt_call s ts (mkI INDEX_op_call l)).2.
Proof.
  intros Wi. unfold opt_call. cbn [fst snd all_tidy]. split; [by apply wf_shaped|]. split_and!; try done; [by auto|]. intros t Vt Ht. split; [done|]. left.
  apply reset_outputs_copies in Ht. destruct (_ =? 0); [by apply reset_outputs_copies in Ht|done].
Qed.

Lemma branch_tidy ts i t lab : ends_block i = true -> all_tidy ts i (known_branch s ts t lab).1 (known_branch s ts t lab).2.
Proof.
  intros Eb. destruct t; cbn [known_branch fst snd all_tidy]; (split; [by unfold shaped; split_and!|]); (split; [apply list_subseteq_nil|]); split_and!; try done; try (intros; congruence).
  - intros t Vt Ht. by rewrite reset_all_copies in Ht.
  - auto.
Qed.

Lemma movi2_tidy ts i rl rh v : outs_of i = [rl; rh] -> ends_block i = false -> valid s rl -> valid s rh -> all_tidy ts i (gen_movi2 ts rl rh v).1 (gen_movi2 ts rl rh v).2.
Proof.
  intros Eo Eb Vl Vh. unfold gen_movi2. cbn [fst snd all_tidy tcg_opt_gen_movi].
  destruct (op_to_movi_shape (INDEX_op_add TCG_TYPE_I32) rl (u32 v) Vl) as (S1 & O1 & I1 & B1 & N1). destruct (op_to_movi_shape (INDEX_op_add TCG_TYPE_I32) rh (u32 (Z.shiftr v 32)) Vh) as (S2 & O2 & I2 & B2 & N2).
  split; [done|]. split; [done|]. split; [done|]. split; [intros d; rewrite Eo; cbn; set_solver|].
  intros t Ht. eapply (movi_copies ts (INDEX_op_add TCG_TYPE_I32) rl (u32 v)), (movi_copies _ (INDEX_op_add TCG_TYPE_I32) rh (u32 (Z.shiftr v 32))). exact Ht.
Qed.

Lemma propagate_tidy ts op l m r : wf_instr s (mkI op l) -> propagate s ts (mkI op l) m = Ok r -> all_tidy ts (mkI op l) r.1 r.2.
Proof.
  intros Wi E. pose proof Wi as Wk. destruct (decide (op = INDEX_op_call)) as [->|Nc]; [apply Ok_inj in E; subst r; by apply call_tidy|].
  pose proof (default_tidy ts op l m Nc Wi) as D. destruct (special op) eqn:Sp; [|rewrite propagate_default in E by done; apply Ok_inj in E; by subst r].
  destruct op; try discriminate Sp; try done; try (destruct ty; try discriminate Sp); wf_shape Wi; cbn [propagate opc args foldable_1 foldable_2 andb] in E.
  all: repeat first
    [ match type of E with res_bind _ _ = Ok _ => apply bind_Ok in E as (? & ? & E) end
    | match type of E with (if ?b then _ else _) = Ok _ => destruct b end
    | match type of E with match ?r with Some _ => _ | None => _ end = Ok _ => destruct r end
    | match type of E with Ok (match ?r with Some _ => _ | None => _ end) = Ok _ => destruct r end
    | match type of E with Ok (if ?b then _ else _) = Ok _ => destruct b end ];
    apply Ok_inj in E; subst r.
  all: try match goal with
    | |- all_tidy _ _ (do_default _ _ _ _).1 _ => exact D
    | |- all_tidy _ _ (known_branch _ _ _ _).1 _ => apply branch_tidy; reflexivity
    | |- all_tidy _ _ (gen_movi2 _ _ _ _).1 _ => apply movi2_tidy; [reflexivity|reflexivity|assumption|assumption]
    | |- all_tidy _ _ (one (tcg_opt_gen_movi _ ?o ?d ?v)).1 _ => apply (tidy_movi ts _ o d v); one_output
    end.
  all: try (match goal with E : mov_const_or_nop _ _ _ _ _ = Ok _ |- _ => (eapply (tidy_mov_const ts); [one_output| |exact E]; repeat case_match; is_input) end).
  - cbn [fst snd all_tidy]. split; [unfold shaped; split_and!; repeat first [done|apply List.Forall_nil|apply List.Forall_cons]|]. split_and!; try done; [is_input|]. intros t Vt Ht. by rewrite reset_all_copies in Ht.
  - apply (tidy_reset ts _ _ z); [one_output| |done|is_input|done|done]. unfold shaped. split_and!; repeat first [done|apply List.Forall_nil|apply List.Forall_cons].
Qed.

(** ** The loop body *)

Ltac operands := cbv [ins_of outs_of iargs oargs opc args tcg_op_defs nb_oargs nb_iargs take drop].

Lemma canonicalize_views ts op l : wf_instr s (mkI op l) ->
  outs_of (mkI op (canonicalize ts op l)) = outs_of (mkI op l) /\ ins_of (mkI op (canonicalize ts op l)) ⊆ ins_of (mkI op l).
Proof.
  intros Wi. destruct (commutative op) eqn:Hc.
  { assert (exists d a b, l = [d; a; b]) as (d & a & b & El) by (destruct op; try discriminate Hc; wf_shape Wi; by eexists _, _, _). subst l.
    assert (canonicalize ts op [d; a; b] = let '(a, b, _) := swap_commutative ts d a b in [d; a; b]) as -> by (destruct op; try discriminate Hc; reflexivity).
    destruct (swap_cases ts d a b) as [(? & -> & _)|(? & -> & _)]; [done|]. destruct op; try discriminate Hc; operands; (split; [done|set_solver]). }
  destruct op; try discriminate Hc; try (wf_shape Wi; cbn [canonicalize commutative]; split; reflexivity);
    try (destruct l as [|? [|? [|? [|? ?]]]]; split; reflexivity); wf_shape Wi; cbn [canonicalize].
  all: repeat match goal with
    | |- context [swap_commutative ?ts ?d ?a ?b] => destruct (swap_cases ts d a b) as [(? & -> & _)|(? & -> & _)]
    | |- context [swap_commutative2 ?ts ?a ?b ?c ?d] => destruct (swap2_cases ts a b c d) as [-> | ->]
    end; operands; (split; [done|set_solver]).
Qed.

Lemma body_tidy ts op l r : wf_instr s (mkI op l) ->
  match simplify_unary s ts op l with
  | Some r => Ok (one r)
  | None =>
      match simplify_mov s ts op l with
      | Some r => let* r := r in Ok (one r)
      | None =>
          let* (m, affected) := known_zeros ts op l in
          let m := result_mask op m in
          let* r := simplify_mask s ts op l m affected in
          match r with
          | Some r => Ok (one r)
          | None =>
              let* r := simplify_same s ts op l in
              match r with
              | Some r => Ok (one r)
              | None => propagate s ts (mkI op l) m
              end
          end
      end
  end = Ok r -> all_tidy ts (mkI op l) r.1 r.2.
Proof.
  intros Wi E. destruct (simplify_unary s ts op l) as [x|] eqn:E1; [apply Ok_inj in E; subst r; by apply unary_tidy|].
  destruct (simplify_mov s ts op l) as [x|] eqn:E2; [apply bind_Ok in E as (y & Ex & E); apply Ok_inj in E; subst r; by eapply mov_tidy|].
  apply bind_Ok in E as ([m aff] & K & E). cbn zeta in E. apply bind_Ok in E as (x & E3 & E). destruct x as [x|]; [apply Ok_inj in E; subst r; by eapply mask_tidy|].
  apply bind_Ok in E as (x & E4 & E). destruct x as [x|]; [apply Ok_inj in E; subst r; by apply same_tidy|]. by eapply propagate_tidy.
Qed.

Lemma same_shape_outs i j : same_shape i j -> outs_of i = outs_of j.
Proof. intros [Eo Sh]. unfold outs_of. rewrite <- Eo. by destruct (opc i), Sh. Qed.

Lemma better_inputs ts l l' t : Forall2 (better s ts) l l' -> t ∈ l' -> t ∈ l \/ block_live s t.
Proof.
  induction 1 as [|x y l l' [(Vy & _) Hy] F IH]; [intros []%not_elem_of_nil|]. intros [->|Ht]%elem_of_cons; [|destruct (IH Ht); [left; by right|by right]].
  destruct Hy as [->|(_ & [Hg|Hl])]; [left; left|right; left|right; by right]. unfold is_global. destruct Vy as [V0 _]. apply andb_true_intro. split; [by apply Z.leb_le|by apply Z.ltb_lt].
Qed.

Lemma optimize_op_tidy ts i r : linked s ts -> wf_instr s i -> optimize_op s ts i = Ok r ->
  exists k, opc k = opc i /\ outs_of k = outs_of i /\ (forall t, t ∈ ins_of k -> t ∈ ins_of i \/ block_live s t) /\ all_tidy ts k r.1 r.2.
Proof.
  intros L Wi E. unfold optimize_op in E. destruct (propagate_copies_spec s ts i L Wi) as (l & El & Wl & Sh & B). rewrite El in E. cbn [res_bind] in E. cbn zeta in E.
  destruct (canonicalize_views ts (opc i) l Wl) as [Co Ci]. destruct (canonicalize_same (W := list (Z * Z)) s ts (fun _ => 0) (opc i) l Wl) as [Wc _].
  exists (mkI (opc i) (canonicalize ts (opc i) l)). split; [done|]. split; [rewrite Co; symmetry; by apply same_shape_outs|]. split; [|by apply body_tidy].
  intros t Ht%Ci. by eapply better_inputs.
Qed.

(** ** Code *)

Lemma block_local_intro D j code : (forall t, t ∈ ins_of j -> block_live s t \/ t ∈ D) -> block_local s (if ends_block j then [] else outs_of j ++ D) code = true -> block_local s D (j :: code) = true.
Proof.
  intros Hi Hc. cbn [block_local]. apply andb_true_intro. split; [|done]. apply forallb_forall. intros t Ht%list_elem_of_In. rewrite !orb_true_iff, bool_decide_eq_true.
  destruct (Hi t Ht) as [[?|?]|?]; tauto.
Qed.

Lemma outs_valid i : wf_instr s i -> Forall (valid s) (outs_of i).
Proof.
  intros Wi. destruct (decide (opc i = INDEX_op_call)) as [Ec|Nc].
  - unfold wf_instr in Wi. unfold outs_of. rewrite Ec in *. by destruct Wi as (? & _).
  - destruct (wf_data s i Nc Wi) as (Fo & _). apply has_types_valid in Fo. by destruct (plain_views i Nc) as (_ & -> & _).
Qed.

Definition covered (D D' : list Z) ts : Prop :=
  (forall t, t ∈ D -> block_live s t \/ t ∈ D') /\ (forall t, valid s t -> is_copy ts t = true -> block_live s t \/ t ∈ D').

Lemma optimized_tidy ts code code' : optimized s ts code code' -> wf_context s -> linked s ts -> wf_code s code -> forall D D', block_local s D code = true -> covered D D' ts ->
  Forall (shaped s) code' /\ block_local s D' code' = true.
Proof.
  induction 1 as [ts|ts i ts' j code code' E O IH|ts i ts' j1 j2 nl code code' E O IH]; intros C L Wc D D' B [CD CC]; [done|..];
    apply List.Forall_cons_iff in Wc as [[Wi Hf] Wc]; pose proof (optimize_op_linked s ts i _ _ C L Hf Wi E) as L'; destruct (block_local_cons s _ _ _ B) as [Hi B1];
    destruct (optimize_op_tidy ts i _ L Wi E) as (k & Ek & Ok' & Ik & T); assert (ends_block k = ends_block i) as Eb by (unfold ends_block; by rewrite Ek); cbn [fst snd all_tidy] in T;
    assert (forall t, t ∈ ins_of k -> block_live s t \/ t ∈ D') as Hk by (intros t Ht; destruct (Ik t Ht) as [Ht'|]; [|tauto]; destruct (Hi t Ht') as [|HD]; [tauto|by apply CD]).
  - destruct T as (Sj & Ij & Bj & _ & Oj & Cj). rewrite Eb, Ok' in Oj. rewrite Eb in Bj.
    assert (forall t, t ∈ ins_of j -> block_live s t \/ t ∈ D') as Hj by (intros t Ht; by apply Hk, Ij).
    destruct (IH C L' Wc (if ends_block i then [] else outs_of i ++ D) (if ends_block j then [] else outs_of j ++ D') B1) as [Fs Bl].
    + split.
      * destruct (ends_block i) eqn:Ei; [intros t []%not_elem_of_nil|]. destruct (ends_block j) eqn:Ej; [by specialize (Bj eq_refl)|].
        pose proof (outs_valid i Wi) as Vo. rewrite List.Forall_forall in Vo. intros t [Ht|Ht]%elem_of_app; [|destruct (CD t Ht); [tauto|right; apply elem_of_app; tauto]].
        destruct (Oj eq_refl t Ht) as [Ho|[Hc|Hc]]; [right; apply elem_of_app; tauto|destruct (CC t (Vo t ltac:(by apply list_elem_of_In)) Hc)|destruct (Hk t Hc)]; try tauto; right; apply elem_of_app; tauto.
      * intros t Vt Ht. destruct (Cj t Vt Ht) as [-> [Hc|[Ho|Hn]]]; [destruct (CC t Vt Hc)| |destruct (Hj t Hn)]; try tauto; right; apply elem_of_app; tauto.
    + split; [by constructor|]. by apply block_local_intro.
  - destruct T as ((S1 & I1 & B1' & _) & (S2 & I2 & B2' & _) & Ek2 & Oj & Cj). rewrite Ok' in Oj. rewrite Eb in Ek2. rewrite Ek2 in B1. apply List.Forall_cons_iff in Wc as [_ Wc].
    destruct (block_local_cons s _ _ _ B1) as [_ B2]. cbn [ends_block opc] in B2.
    destruct (IH C L' Wc (outs_of i ++ D) (outs_of j2 ++ outs_of j1 ++ D') B2) as [Fs Bl].
    + split.
      * intros t [Ht|Ht]%elem_of_app; [right; destruct (Oj t Ht); rewrite !elem_of_app; tauto|]. destruct (CD t Ht); [tauto|]. right. rewrite !elem_of_app. tauto.
      * intros t Vt Ht. destruct (CC t Vt (Cj t Ht)); [tauto|]. right. rewrite !elem_of_app. tauto.
    + split; [by repeat constructor|]. apply block_local_intro; [rewrite I1; intros t []%not_elem_of_nil|]. rewrite B1'. apply block_local_intro; [rewrite I2; intros t []%not_elem_of_nil|]. by rewrite B2'.
Qed.

Lemma optimize_op_nop ts : optimize_op s ts (mkI INDEX_op_nop []) = Ok (ts, One (mkI INDEX_op_nop [])).
Proof. reflexivity. Qed.

Lemma optimized_roomy ts code code' : optimized s ts code code' -> wf_context s -> linked s ts -> wf_code s code -> roomy code -> roomy code'.
Proof.
  induction 1 as [ts|ts i ts' j code code' E O IH|ts i ts' j1 j2 nl code code' E O IH]; intros C L Wc R; [done|..];
    apply List.Forall_cons_iff in Wc as [[Wi Hf] Wc]; pose proof (optimize_op_linked s ts i _ _ C L Hf Wi E) as L'; destruct R as [Ri R];
    destruct (optimize_op_tidy ts i _ L Wi E) as (k & Ek & _ & _ & T); cbn [fst snd all_tidy] in T.
  - split; [|by apply IH]. intros Hn. destruct T as (_ & _ & _ & Nj & _). destruct Ri as (l & rest & ->); [by rewrite <- Ek, <- Nj|].
    apply List.Forall_cons_iff in Wc as [[Wn _] _]. wf_shape Wn. inversion O as [|? ? ts2 ? ? ? E2|? ? ? ? ? ? ? ? E2]; subst; rewrite optimize_op_nop in E2; [|discriminate E2].
    apply Ok_inj in E2. injection E2 as _ <-. by eexists _, _.
  - destruct T as ((_ & _ & _ & N1) & (_ & _ & _ & N2) & _). apply List.Forall_cons_iff in Wc as [_ Wc]. destruct R as [_ R]. cbn [roomy]. rewrite N1, N2. split; [done|]. split; [done|]. by apply IH.
Qed.

Lemma roomy_padded code : roomy code -> padded code.
Proof.
  induction code as [|i code IH]; [done|]. intros [Hi R]. split; [|by apply IH]. intros Hd. apply Hi. by destruct (opc i).
Qed.

(** ** The two passes *)

Context {W : Type} `{TcgWorld W} `{!LawfulHelpers W} (HAS_muluh HAS_mulsh : TCGType -> bool).

(** The passes of [tcg_gen_code_common] before register allocation. *)
Definition tcg_passes ts (code : list instr) : res (list entry) :=
  let* code := tcg_optimize s ts code in tcg_liveness_analysis s HAS_muluh HAS_mulsh code.

(** The result of a run after the passes, given that of the code: the same
    world, the same exit and the same globals. *)
Definition same_outcome (r r' : res (W * env * outcome)) : Prop :=
  match r with
  | Ok (w, e, o) => exists e', r' = Ok (w, e', o) /\ forall t, t ∈ globals s -> get s e t = get s e' t
  | Err OutOfFuel => r' = Err OutOfFuel
  | Err _ => True
  end.

Lemma outcome_trans r1 r2 r3 : wf_context s -> matches s r1 r2 -> same_result s r2 r3 -> same_outcome r1 r3.
Proof.
  intros C M R. destruct r1 as [[[w e] o]|f]; cbn [matches same_outcome] in *.
  - destruct M as (e2 & -> & S). destruct R as (e3 & -> & A). exists e3. split; [done|]. intros t Ht. pose proof (globals_valid s C) as V. rewrite List.Forall_forall in V.
    specialize (V t ltac:(by apply list_elem_of_In)). rewrite (S t V). unfold get. f_equal. apply A; [done|by apply in_globals].
  - destruct f; try done. by subst r2.
Qed.

(** C1: Optimizing a translation block and removing what is dead keeps what the
    block does, on a 64-bit host whose 32-bit operations zero-extend their
    results, as the interpreter does.  The code: operations with the arguments
    and types of their descriptions, other than [muluh_i64] and [mulsh_i64]
    (whose results the optimizer cuts to 32 bits); temporaries that are not
    local are written in their basic block before they are read; double-word
    operations have a [nop] behind them; no OR of a temporary with itself.  Then
    the passes end (or stop at undefined arithmetic on constants) with as many
    operations, and every run of the result has the effects, the exit and the
    globals of the run of the code, after as many steps. *)
Theorem tcg_passes_correct ts code : wf_context s -> nb_temps s <= TCG_MAX_TEMPS -> wf_code s code -> block_local s [] code = true -> roomy code -> Forall or_distinct code ->
  match tcg_passes ts code with
  | Ok out => length out = length code /\ forall fuel (w : W) e, env_ok s e -> same_outcome (run s fuel code 0 w e) (run s fuel (e_instr <$> out) 0 w e)
  | Err f => arithmetic f
  end.
Proof.
  intros C Max Wc B R Fd. unfold tcg_passes, tcg_optimize, tcg_liveness_analysis. pose proof (reset_all_linked s ts) as L. set (ts0 := reset_all_temps (nb_temps s) ts) in *.
  pose proof (optimize_ops_settle s (List.length code) ts0 code ltac:(done) C L Wc Fd (roomy_padded code R)) as S. destruct (optimize_ops s ts0 code) as [code'|f] eqn:E; [|done]. cbn [res_bind].
  apply (optimize_ops_optimized s (List.length code)) in E; [|done].
  destruct (optimized_tidy ts0 code code' E C L Wc [] [] B) as [Fs B']; [split; [intros t []%not_elem_of_nil|intros t Vt Ht; unfold ts0 in Ht; by rewrite (reset_all_copies ts t Vt) in Ht]|].
  destruct (liveness_ops_total s HAS_muluh HAS_mulsh code' Fs (optimized_roomy ts0 code code' E C L Wc R)) as (la & out & El & Len & _). rewrite El. cbn [res_bind]. split; [congruence|].
  destruct (liveness_ops_lives s C Max HAS_muluh HAS_mulsh code' [] la out Fs B' El) as [Lv _]. intros fuel w e O. eapply outcome_trans; [done| |by apply (run_lives s la code' _ Lv fuel la)].
  apply (run_matches s C code code' ts0 L Wc E fuel fuel ts0); try done. left. by apply reset_all_inv.
Qed.
End Tidy.

(** ** The example through both passes *)

(** The constant and the branch are folded, the branch that is never taken is
    gone, the sums that were copies or dead are [nopn]. *)
Lemma tcg_passes_witness : exists out, tcg_passes live_context (fun _ => true) (fun _ => true) blank live_example = Ok out /\
  (forall fuel e, env_ok live_context e -> same_outcome live_context (run live_context fuel live_example 0 [] e) (run live_context fuel (e_instr <$> out) 0 [] e)) /\
  effects (run live_context 20 (e_instr <$> out) 0 [] (fun _ => 2 ^ 40)) = Some ([(2 ^ 40 + 16, 2 ^ 41); (2 ^ 40 + 8, 2 ^ 16)], ExitTB 0).
Proof.
  pose proof (tcg_passes_correct live_context (fun _ => true) (fun _ => true) blank live_example ltac:(split; cbn; lia) ltac:(cbn; unfold TCG_MAX_TEMPS; lia)) as T.
  destruct (tcg_passes live_context (fun _ => true) (fun _ => true) blank live_example) as [out|f] eqn:E; [|vm_compute in E; discriminate E].
  exists out. split; [reflexivity|]. split; [|vm_compute in E; injection E as <-; vm_compute; reflexivity]. intros fuel e O. apply T; [|vm_compute; reflexivity| | |done].
  - apply List.Forall_and; [exact live_example_wf|]. unfold live_example. repeat first [apply List.Forall_nil | apply List.Forall_cons; [reflexivity|]].
  - exact live_example_roomy.
  - unfold live_example. repeat first [apply List.Forall_nil | apply List.Forall_cons; [exact I|]].
Defined.
