(* ===== verification/Qdict.v ===== *)
(** * Dictionaries of the QMP data model

    [qobject/qdict.c]: a hash table of 512 chains, keyed by C strings.  The
    table is polymorphic in what it stores; [JsonData] ties the knot.  A
    pointer to an entry is the key of that entry, which is unique in its
    table.  Every operation refines the operation of a finite map. *)

From stdpp Require Import base numbers gmap list.
From S2P Require Import Prelude.

(** A C string: its bytes, without the terminator. *)
Abbreviation cstring := (list Z).

Definition QDICT_BUCKET_MAX : Z := 512.

Record QDict (V : Type) : Type := mkQDict {
  size : Z;
  table : list (list (cstring * V)) }.
Arguments mkQDict {V} size table.
Arguments size {V} q.
Arguments table {V} q.

(** [value = value + (name[i] << (i*5 % 24))], from index [i] on. *)
Fixpoint tdb_hash_loop (name : cstring) (i value : Z) : Z :=
  match name with
  | [] => value
  | c :: name' =>
      tdb_hash_loop name' (u32 (i + 1)) (u32 (value + Z.shiftl c (u32 (i * 5) mod 24)))
  end.

Definition tdb_hash (name : cstring) : Z :=
  let value := tdb_hash_loop name 0 (u32 (0x238F13AF * Z.of_nat (length name))) in
  u32 (1103515243 * value + 12345).

Definition bucket_of (key : cstring) : nat := Z.to_nat (tdb_hash key mod QDICT_BUCKET_MAX).

(** [strstart] of [util/cutils.c]: what follows the prefix. *)
Fixpoint strstart (str val : cstring) {struct val} : option cstring :=
  match val with
  | [] => Some str
  | q :: val' =>
      match str with
      | p :: str' => if p =? q then strstart str' val' else None
      | [] => None
      end
  end.

Section operations.
Context {V : Type}.
Implicit Types (d : QDict V) (key : cstring) (v : V).

Definition qdict_new : QDict V := mkQDict 0 (replicate (Z.to_nat QDICT_BUCKET_MAX) []).

(** The chain at an index of the table; the callers reduce the index. *)
Definition chain d (bucket : nat) : list (cstring * V) := default [] (table d !! bucket).

(** The place of the entry in its chain, and the entry. *)
Definition qdict_find d key (bucket : nat) : option (nat * (cstring * V)) :=
  list_find (fun e => e.1 = key) (chain d bucket).

Definition qdict_put_obj d key v : QDict V :=
  let bucket := bucket_of key in
  match qdict_find d key bucket with
  | Some (i, _) =>
      mkQDict (size d) (<[bucket := <[i := (key, v)]> (chain d bucket)]> (table d))
  | None =>
      mkQDict (u64 (size d + 1)) (<[bucket := (key, v) :: chain d bucket]> (table d))
  end.

Definition qdict_get d key : option V :=
  match qdict_find d key (bucket_of key) with
  | Some (_, (_, v)) => Some v
  | None => None
  end.

Definition qdict_haskey d key : bool :=
  match qdict_find d key (bucket_of key) with Some _ => true | None => false end.

Definition qdict_size d : Z := size d.

(** [iter] is called for every entry, chain by chain. *)
Definition qdict_iter {S} (iter : cstring -> V -> S -> S) d (opaque : S) : S :=
  fold_left (fun s c => fold_left (fun s e => iter e.1 e.2 s) c s) (table d) opaque.

(** The scan of the chains for one that is not empty. *)
Fixpoint first_entry (chains : list (list (cstring * V))) : option cstring :=
  match chains with
  | [] => None
  | [] :: chains' => first_entry chains'
  | (e :: _) :: _ => Some e.1
  end.

Definition qdict_next_entry d (first_bucket : nat) : option cstring :=
  first_entry (drop first_bucket (table d)).

Definition qdict_first d : option cstring := qdict_next_entry d 0.

Definition qdict_next d (entry : cstring) : option cstring :=
  match qdict_find d entry (bucket_of entry) with
  | None => None
  | Some (i, _) =>
      match chain d (bucket_of entry) !! S i with
      | Some e => Some e.1
      | None => qdict_next_entry d (S (bucket_of entry))
      end
  end.

Definition qdict_clone_shallow (src : QDict V) : QDict V :=
  fold_left (fun dest c => fold_left (fun dest e => qdict_put_obj dest e.1 e.2) c dest)
    (table src) qdict_new.

Definition qdict_del d key : QDict V :=
  let bucket := bucket_of key in
  match qdict_find d key bucket with
  | Some (i, _) =>
      mkQDict (u64 (size d - 1)) (<[bucket := delete i (chain d bucket)]> (table d))
  | None => d
  end.

(** The walk of [qdict_extract_subqdict]: the successor of an entry is read
    before the entry leaves the dictionary. *)
Fixpoint extract_loop (fuel : nat) (src dst : QDict V) (start : cstring)
    (entry : option cstring) : res (QDict V * QDict V) :=
  match entry with
  | None => Ok (src, dst)
  | Some k =>
      match fuel with
      | O => Err OutOfFuel
      | S fuel' =>
          let next := qdict_next src k in
          match strstart k start, qdict_get src k with
          | Some p, Some v =>
              extract_loop fuel' (qdict_del src k) (qdict_put_obj dst p v) start next
          | _, _ => extract_loop fuel' src dst start next
          end
      end
  end.

Definition qdict_extract_subqdict (fuel : nat) (src : QDict V) (start : cstring)
    : res (QDict V * QDict V) :=
  extract_loop fuel src qdict_new start (qdict_first src).

Fixpoint prefixed_loop (fuel : nat) (src : QDict V) (start : cstring)
    (entry : option cstring) : res bool :=
  match entry with
  | None => Ok false
  | Some k =>
      match fuel with
      | O => Err OutOfFuel
      | S fuel' =>
          match strstart k start with
          | Some _ => Ok true
          | None => prefixed_loop fuel' src start (qdict_next src k)
          end
      end
  end.

Definition qdict_has_prefixed_entries (fuel : nat) (src : QDict V) (start : cstring) : res bool :=
  prefixed_loop fuel src start (qdict_first src).
End operations.
