(* ===== verification/QdictFacts.v ===== *)
(** * Dictionaries: the hash table refines a finite map

    The invariant of the table of [Qdict] (every key in its own chain, once),
    and the effect of each operation on the finite map that the table stands
    for.  The exact layout of a table that is filled entry by entry is what
    the round trip through JSON text needs. *)

From stdpp Require Import base numbers gmap list.
From S2P Require Import Prelude Qdict.

Lemma bucket_of_lt key : (bucket_of key < 512)%nat.
Proof.
  unfold bucket_of, QDICT_BUCKET_MAX.
  pose proof (Z.mod_pos_bound (tdb_hash key) 512 eq_refl). lia.
Qed.

Section facts.
Context {V : Type}.
Implicit Types (d : QDict V) (key : cstring) (v : V) (c : list (cstring * V)).

(** The entries in the order of [qdict_iter], and the map they stand for. *)
Definition entries d : list (cstring * V) := concat (table d).
Definition to_map d : gmap cstring V := list_to_map (entries d).

Definition chain_ok (b : nat) c : Prop :=
  NoDup c.*1 /\ forall e, e ∈ c -> bucket_of e.1 = b.

Record qdict_ok d : Prop := {
  ok_length : length (table d) = 512%nat;
  ok_chain : forall b c, table d !! b = Some c -> chain_ok b c;
  ok_size : size d = u64 (Z.of_nat (length (entries d))) }.

Lemma chain_lookup d b : qdict_ok d -> (b < 512)%nat -> table d !! b = Some (chain d b).
Proof.
  intros Hok Hb. unfold chain. destruct (table d !! b) eqn:E; [done|].
  apply lookup_ge_None in E. pose proof (ok_length d Hok). lia.
Qed.

Lemma chain_bucket d key : qdict_ok d -> table d !! bucket_of key = Some (chain d (bucket_of key)).
Proof. intros. apply chain_lookup; [done|apply bucket_of_lt]. Qed.

Lemma chain_ok_at d key : qdict_ok d -> chain_ok (bucket_of key) (chain d (bucket_of key)).
Proof. intros Hok. eapply ok_chain, chain_bucket; done. Qed.

Lemma find_assoc c key :
  (list_to_map c : gmap cstring V) !! key = (fun p => p.2.2) <$> list_find (fun e => e.1 = key) c.
Proof.
  induction c as [|[k v] c IH]; [done|]. cbn.
  destruct (decide (k = key)) as [->|Hne].
  - by rewrite lookup_insert_eq.
  - rewrite lookup_insert_ne, IH by done. by destruct (list_find _ c) as [[? ?]|].
Qed.

Lemma entries_NoDup d : qdict_ok d -> NoDup (entries d).*1.
Proof.
  intros [_ Hc _]. unfold entries.
  assert (forall (t : list (list (cstring * V))) base,
    (forall b c, t !! b = Some c -> chain_ok (base + b) c) ->
    NoDup (concat t).*1 /\ forall e, e ∈ concat t -> (base <= bucket_of e.1)%nat) as H.
  { clear. induction t as [|c t IH]; intros base Ht; cbn.
    { split; [constructor|]. intros e He. by apply not_elem_of_nil in He. }
    destruct (Ht 0%nat c eq_refl) as [Hnd Hb].
    destruct (IH (S base)) as [IHn IHb].
    { intros b c' Hb'. replace (S base + b)%nat with (base + S b)%nat by lia. by apply Ht. }
    rewrite fmap_app. split.
    - apply NoDup_app. split_and!; [done| |done].
      intros k [e [-> He]]%list_elem_of_fmap [e' [E He']]%list_elem_of_fmap.
      apply Hb in He. apply IHb in He'. rewrite E in He. lia.
    - intros e [He|He]%elem_of_app; [apply Hb in He; lia|apply IHb in He; lia]. }
  by apply (H _ 0%nat).
Qed.

Lemma elem_of_entries d e : qdict_ok d -> e ∈ entries d <-> e ∈ chain d (bucket_of e.1).
Proof.
  intros Hok. unfold entries. rewrite list_elem_of_In, in_concat. split.
  - intros (c & Hc & He). apply list_elem_of_In in Hc, He.
    apply list_elem_of_lookup_1 in Hc as [b Hc].
    destruct (ok_chain d Hok b c Hc) as [_ Hb]. rewrite <- (Hb e He) in Hc.
    unfold chain. by rewrite Hc.
  - intros He. exists (chain d (bucket_of e.1)). split; apply list_elem_of_In; [|done].
    eapply list_elem_of_lookup_2, chain_bucket; done.
Qed.

Lemma to_map_chain d key : qdict_ok d ->
  to_map d !! key = (list_to_map (chain d (bucket_of key)) : gmap cstring V) !! key.
Proof.
  intros Hok. apply option_eq. intros v. unfold to_map.
  rewrite <- !elem_of_list_to_map; [apply elem_of_entries; done|by apply chain_ok_at|by apply entries_NoDup].
Qed.

Lemma qdict_get_map d key : qdict_ok d -> qdict_get d key = to_map d !! key.
Proof.
  intros Hok. rewrite to_map_chain, find_assoc by done. unfold qdict_get, qdict_find.
  by destruct (list_find _ _) as [[? [? ?]]|].
Qed.

Lemma qdict_haskey_map d key : qdict_ok d ->
  qdict_haskey d key = bool_decide (is_Some (to_map d !! key)).
Proof.
  intros Hok. rewrite to_map_chain, find_assoc by done. unfold qdict_haskey, qdict_find.
  destruct (list_find _ _) as [[? [? ?]]|]; symmetry; [apply bool_decide_eq_true_2; eauto|].
  apply bool_decide_eq_false_2. by intros [? ?].
Qed.

(** Replacing one chain. *)
Definition with_chain d (b : nat) c (n : Z) : QDict V := mkQDict n (<[b := c]> (table d)).

Lemma chain_with_chain d b c n b' : qdict_ok d -> (b < 512)%nat ->
  chain (with_chain d b c n) b' = if decide (b' = b) then c else chain d b'.
Proof.
  intros Hok Hb. unfold chain, with_chain; cbn. destruct (decide (b' = b)) as [->|Hne].
  - rewrite list_lookup_insert_eq; [done|]. by rewrite (ok_length d Hok).
  - by rewrite list_lookup_insert_ne by done.
Qed.

Lemma length_concat_insert (t : list (list (cstring * V))) b c c' : t !! b = Some c ->
  (length (concat (<[b := c']> t)) + length c = length (concat t) + length c')%nat.
Proof.
  revert b. induction t as [|x t IH]; intros [|b] Hb; try done.
  - injection Hb as ->. cbn. rewrite !length_app. lia.
  - specialize (IH b Hb). change (<[S b := c']> (x :: t)) with (x :: <[b := c']> t).
    cbn [concat]. rewrite !length_app. lia.
Qed.

Lemma with_chain_ok d b c n : qdict_ok d -> (b < 512)%nat -> chain_ok b c ->
  n = u64 (size d + Z.of_nat (length c) - Z.of_nat (length (chain d b))) ->
  qdict_ok (with_chain d b c n).
Proof.
  intros Hok Hb Hc ->. pose proof (ok_length d Hok) as Hlen. constructor.
  - unfold with_chain; cbn. by rewrite length_insert.
  - intros b' c'. unfold with_chain; cbn. intros [(-> & -> & _)|[Hne Hl]]%list_lookup_insert_Some; [done|].
    by apply (ok_chain d Hok).
  - pose proof (length_concat_insert (table d) b (chain d b) c (chain_lookup d b Hok Hb)) as Hl.
    rewrite (ok_size d Hok). unfold entries, with_chain; cbn.
    apply uwrap_eq_mod with (k := - (Z.of_nat (length (concat (table d))) / 2 ^ 64)); [lia|].
    unfold entries, uwrap. rewrite Z.mod_eq by lia. lia.
Qed.

Lemma to_map_with_chain d b c n key : qdict_ok d -> qdict_ok (with_chain d b c n) -> (b < 512)%nat ->
  to_map (with_chain d b c n) !! key =
  if decide (bucket_of key = b) then (list_to_map c : gmap cstring V) !! key else to_map d !! key.
Proof.
  intros Hok Hok' Hb. rewrite !to_map_chain, chain_with_chain by done.
  by destruct (decide _).
Qed.

Lemma list_to_map_not_bucket b c key : chain_ok b c -> bucket_of key <> b ->
  (list_to_map c : gmap cstring V) !! key = None.
Proof.
  intros [_ Hc] Hne. apply not_elem_of_list_to_map_1.
  intros [e [-> He]]%list_elem_of_fmap. by apply Hne, Hc.
Qed.

Lemma put_present d key v i e : qdict_ok d ->
  qdict_find d key (bucket_of key) = Some (i, e) ->
  let c := <[i := (key, v)]> (chain d (bucket_of key)) in
  chain_ok (bucket_of key) c /\
  (list_to_map c : gmap cstring V) = <[key := v]> (list_to_map (chain d (bucket_of key))).
Proof.
  intros Hok (Hi & Hk & _)%list_find_Some c. destruct e as [k w]. cbn in Hk. subst k.
  destruct (chain_ok_at d key Hok) as [Hnd Hbk].
  assert (Hfst : c.*1 = (chain d (bucket_of key)).*1).
  { unfold c. rewrite list_fmap_insert. cbn. apply list_insert_id.
    by rewrite list_lookup_fmap, Hi. }
  assert (Hnd' : NoDup c.*1) by by rewrite Hfst.
  split; [split; [done|]|].
  - intros e He. apply (list_elem_of_fmap_2 fst) in He. rewrite Hfst in He.
    apply list_elem_of_fmap in He as [e' [-> He]]. by apply Hbk.
  - apply map_eq. intros k. destruct (decide (key = k)) as [->|Hne].
    + rewrite lookup_insert_eq. apply elem_of_list_to_map_1; [done|].
      apply list_elem_of_lookup. exists i. unfold c. rewrite list_lookup_insert_eq; [done|].
      by eapply lookup_lt_Some.
    + rewrite lookup_insert_ne by done. apply option_eq. intros x.
      rewrite <- !elem_of_list_to_map by done. unfold c.
      rewrite !list_elem_of_lookup. split; intros [j Hj].
      * apply list_lookup_insert_Some in Hj as [(_ & [= -> _] & _)|[_ Hj]]; [done|eauto].
      * exists j. rewrite list_lookup_insert_ne; [done|]. intros ->. congruence.
Qed.

Lemma put_absent d key v : qdict_ok d -> qdict_find d key (bucket_of key) = None ->
  chain_ok (bucket_of key) ((key, v) :: chain d (bucket_of key)).
Proof.
  intros Hok E%list_find_None. rewrite Forall_forall in E.
  destruct (chain_ok_at d key Hok) as [Hnd Hbk]. split; cbn.
  - constructor; [|done]. intros [e [Ek He]]%list_elem_of_fmap. apply (E e He). by symmetry.
  - intros e [->|He]%elem_of_cons; [done|by apply Hbk].
Qed.

(** A chain that gets [key] mapped to [v], in a table that stays well formed. *)
Lemma to_map_put_chain d key v c n : qdict_ok d ->
  qdict_ok (with_chain d (bucket_of key) c n) ->
  (list_to_map c : gmap cstring V) = <[key := v]> (list_to_map (chain d (bucket_of key))) ->
  to_map (with_chain d (bucket_of key) c n) = <[key := v]> (to_map d).
Proof.
  intros Hok Hok' Hc. apply map_eq. intros k.
  rewrite to_map_with_chain, Hc by first [done|apply bucket_of_lt].
  destruct (decide (key = k)) as [->|Hne].
  - by rewrite decide_True, !lookup_insert_eq.
  - rewrite !lookup_insert_ne by done. destruct (decide _) as [Hk|]; [|done].
    by rewrite to_map_chain, Hk.
Qed.

Lemma qdict_put_ok d key v : qdict_ok d ->
  qdict_ok (qdict_put_obj d key v) /\ to_map (qdict_put_obj d key v) = <[key := v]> (to_map d).
Proof.
  intros Hok. pose proof (bucket_of_lt key) as Hb. unfold qdict_put_obj.
  destruct (qdict_find _ _ _) as [[i e]|] eqn:E.
  - destruct (put_present d key v i e Hok E) as [Hc Hm].
    assert (Hok' : qdict_ok (with_chain d (bucket_of key)
      (<[i := (key, v)]> (chain d (bucket_of key))) (size d))).
    { apply with_chain_ok; [done..|]. rewrite length_insert, (ok_size d Hok).
      rewrite Z.add_simpl_r. by rewrite uwrap_idem. }
    split; [exact Hok'|]. by apply to_map_put_chain.
  - assert (Hok' : qdict_ok (with_chain d (bucket_of key)
      ((key, v) :: chain d (bucket_of key)) (u64 (size d + 1)))).
    { apply with_chain_ok; [done..|by apply put_absent|]. cbn [length]. f_equal. lia. }
    split; [exact Hok'|]. by apply to_map_put_chain.
Qed.

Lemma del_chain d key i e : qdict_ok d ->
  qdict_find d key (bucket_of key) = Some (i, e) ->
  let c := delete i (chain d (bucket_of key)) in
  chain_ok (bucket_of key) c /\
  (list_to_map c : gmap cstring V) = delete key (list_to_map (chain d (bucket_of key))) /\
  length (chain d (bucket_of key)) = S (length c).
Proof.
  intros Hok (Hi & Hk & _)%list_find_Some c. destruct e as [k w]. cbn in Hk. subst k.
  destruct (chain_ok_at d key Hok) as [Hnd Hbk].
  pose proof (delete_Permutation _ _ _ Hi) as Hp.
  pose proof (fmap_Permutation fst _ _ Hp) as Hp1.
  assert (Hnd' : NoDup (key :: c.*1)) by exact (proj1 (NoDup_Permutation_proper _ _ Hp1) Hnd).
  apply NoDup_cons in Hnd' as [Hkey Hndc]. split_and!.
  - split; [done|]. intros e He. apply Hbk. rewrite Hp. by right.
  - apply map_eq. intros k. rewrite (list_to_map_proper _ _ Hnd Hp). cbn.
    rewrite delete_insert_id; [done|]. by apply not_elem_of_list_to_map_1.
  - by rewrite Hp.
Qed.

Lemma qdict_del_ok d key : qdict_ok d ->
  qdict_ok (qdict_del d key) /\ to_map (qdict_del d key) = delete key (to_map d).
Proof.
  intros Hok. pose proof (bucket_of_lt key) as Hb. unfold qdict_del.
  destruct (qdict_find _ _ _) as [[i e]|] eqn:E.
  - destruct (del_chain d key i e Hok E) as (Hc & Hm & Hl).
    assert (Hok' : qdict_ok (with_chain d (bucket_of key)
      (delete i (chain d (bucket_of key))) (u64 (size d - 1)))).
    { apply with_chain_ok; [done..|]. f_equal. lia. }
    split; [exact Hok'|]. apply map_eq. intros k.
    change (mkQDict _ _) with (with_chain d (bucket_of key)
      (delete i (chain d (bucket_of key))) (u64 (size d - 1))).
    rewrite to_map_with_chain, Hm by done. destruct (decide (key = k)) as [->|Hne].
    + by rewrite decide_True, !lookup_delete_eq.
    + rewrite !lookup_delete_ne by done. destruct (decide _) as [Hk|]; [|done].
      by rewrite to_map_chain, Hk.
  - split; [done|]. symmetry. apply delete_id.
    rewrite to_map_chain, find_assoc by done. unfold qdict_find in E. by rewrite E.
Qed.

Lemma qdict_new_ok : qdict_ok (qdict_new (V := V)) /\ to_map (qdict_new (V := V)) = ∅.
Proof.
  assert (He : entries (qdict_new (V := V)) = []) by (vm_compute; done).
  split; [|unfold to_map; by rewrite He].
  constructor; [done| |by rewrite He].
  intros b c [-> _]%lookup_replicate. split; [constructor|]. intros e He'. by apply not_elem_of_nil in He'.
Qed.

Lemma qdict_size_map d : qdict_ok d -> qdict_size d = u64 (Z.of_nat (base.size (to_map d))).
Proof.
  intros Hok. unfold qdict_size. rewrite (ok_size d Hok). do 2 f_equal.
  unfold to_map. rewrite map_size_list_to_map; [done|by apply entries_NoDup].
Qed.

Lemma qdict_iter_entries {S} (iter : cstring -> V -> S -> S) d s :
  qdict_iter iter d s = fold_left (fun s e => iter e.1 e.2 s) (entries d) s.
Proof.
  unfold qdict_iter, entries. generalize (table d). intros t. revert s.
  induction t as [|c t IH]; intros s; [done|]. cbn. by rewrite fold_left_app, IH.
Qed.

(** ** The iteration with [qdict_first] and [qdict_next] *)

Lemma first_entry_concat (t : list (list (cstring * V))) :
  first_entry t = fst <$> head (concat t).
Proof. by induction t as [|[|e c] t IH]. Qed.

Lemma qdict_first_entry d : qdict_first d = (entries d).*1 !! 0%nat.
Proof.
  unfold qdict_first, qdict_next_entry, entries. rewrite drop_0, first_entry_concat.
  by destruct (concat (table d)).
Qed.

Lemma concat_split (t : list (list (cstring * V))) b c : t !! b = Some c ->
  concat t = concat (take b t) ++ c ++ concat (drop (S b) t).
Proof.
  intros Hb. transitivity (concat (take b t ++ c :: drop (S b) t)).
  - by rewrite take_drop_middle.
  - by rewrite concat_app.
Qed.

Lemma concat_lookup_offset (t : list (list (cstring * V))) b c i : t !! b = Some c ->
  (i < length c)%nat ->
  concat t !! (length (concat (take b t)) + i)%nat = c !! i.
Proof.
  intros Hb Hi. rewrite (concat_split t b c Hb).
  rewrite lookup_app_r by lia. rewrite Nat.add_comm, Nat.add_sub.
  by rewrite lookup_app_l.
Qed.

Lemma entry_place d j e : qdict_ok d -> entries d !! j = Some e ->
  exists i, qdict_find d e.1 (bucket_of e.1) = Some (i, e) /\
    j = (length (concat (take (bucket_of e.1) (table d))) + i)%nat /\
    chain d (bucket_of e.1) !! i = Some e.
Proof.
  intros Hok Hj.
  assert (He : e ∈ chain d (bucket_of e.1)) by (apply elem_of_entries; [done|by eapply list_elem_of_lookup_2]).
  destruct (chain_ok_at d e.1 Hok) as [Hnd _].
  destruct (list_find_elem_of (fun e' => e'.1 = e.1) _ e He eq_refl) as [[i e'] Hf].
  pose proof Hf as (Hi & Hk & _)%list_find_Some.
  assert (e' = e) as ->.
  { apply list_elem_of_lookup in He as [i' Hi'].
    assert (i = i') as ->; [|congruence].
    eapply NoDup_lookup; [exact Hnd|rewrite list_lookup_fmap, Hi; cbn; by rewrite Hk|].
    by rewrite list_lookup_fmap, Hi'. }
  exists i. split_and!; [done| |done].
  eapply NoDup_lookup; [apply entries_NoDup, Hok|by rewrite list_lookup_fmap, Hj|].
  rewrite list_lookup_fmap. unfold entries.
  erewrite concat_lookup_offset; [by rewrite Hi|by apply chain_bucket|by eapply lookup_lt_Some].
Qed.

Lemma qdict_next_lookup d j e : qdict_ok d -> entries d !! j = Some e ->
  qdict_next d e.1 = (entries d).*1 !! S j.
Proof.
  intros Hok Hj. destruct (entry_place d j e Hok Hj) as (i & Hf & Hji & Hi).
  pose proof (chain_bucket d e.1 Hok) as Hb.
  unfold qdict_next. rewrite Hf, list_lookup_fmap, Hji, plus_n_Sm. unfold entries.
  destruct (chain d (bucket_of e.1) !! S i) as [e'|] eqn:Hn.
  - erewrite concat_lookup_offset; [by rewrite Hn|done|by eapply lookup_lt_Some].
  - apply lookup_ge_None in Hn. pose proof (lookup_lt_Some _ _ _ Hi) as Hlt.
    unfold qdict_next_entry. rewrite first_entry_concat.
    rewrite (concat_split _ _ _ Hb).
    rewrite !lookup_app_r by lia.
    replace (_ - _ - _)%nat with 0%nat by lia.
    by destruct (concat (drop _ _)).
Qed.

(** ** Filling a table entry by entry *)

Definition put_all (es : list (cstring * V)) d : QDict V :=
  fold_left (fun d e => qdict_put_obj d e.1 e.2) es d.

Lemma put_all_ok es d : qdict_ok d ->
  qdict_ok (put_all es d) /\ to_map (put_all es d) = list_to_map (reverse es) ∪ to_map d.
Proof.
  revert d. induction es as [|[k v] es IH]; intros d Hok.
  - split; [done|]. cbn. by rewrite map_empty_union.
  - change (put_all _ d) with (put_all es (qdict_put_obj d k v)).
    destruct (qdict_put_ok d k v Hok) as [Hok' Hm]. destruct (IH _ Hok') as [Hok'' Hm'].
    split; [done|]. rewrite Hm', Hm, reverse_cons, list_to_map_app. cbn.
    by rewrite insert_empty, <- (assoc_L (∪)), insert_union_singleton_l.
Qed.

Lemma put_all_layout es d b : qdict_ok d -> (b < 512)%nat -> NoDup es.*1 ->
  (forall e, e ∈ es -> to_map d !! e.1 = None) ->
  chain (put_all es d) b = reverse (filter (fun e => bucket_of e.1 = b) es) ++ chain d b.
Proof.
  intros Hok Hb. revert d Hok. induction es as [|[k v] es IH]; intros d Hok Hnd Hnew; [done|].
  apply NoDup_cons in Hnd as [Hk Hnd].
  change (put_all _ d) with (put_all es (qdict_put_obj d k v)).
  destruct (qdict_put_ok d k v Hok) as [Hok' Hm].
  assert (Hnone : qdict_find d k (bucket_of k) = None).
  { specialize (Hnew (k, v) (list_elem_of_here _ _)). cbn in Hnew.
    rewrite to_map_chain, find_assoc in Hnew by done. unfold qdict_find.
    by destruct (list_find _ _) as [[? ?]|]. }
  rewrite IH; [|done..|].
  - unfold qdict_put_obj. rewrite Hnone.
    change (mkQDict _ _) with (with_chain d (bucket_of k) ((k, v) :: chain d (bucket_of k)) (u64 (size d + 1))).
    rewrite chain_with_chain by first [done|apply bucket_of_lt]. rewrite filter_cons. cbn.
    destruct (decide (b = bucket_of k)) as [->|Hne].
    + rewrite decide_True, reverse_cons by done. by rewrite <- (assoc_L (++)).
    + by rewrite decide_False by congruence.
  - intros e He. rewrite Hm, lookup_insert_ne; [apply Hnew; by right|].
    intros ->. apply Hk. exact (list_elem_of_fmap_2 fst es e He).
Qed.
End facts.
