(* ===== verification/QdictClaims.v ===== *)
(** * Dictionaries: the theorems

    The refinement of a finite map by the hash table, and the extraction of
    the entries of a prefix while the table is walked. *)

From stdpp Require Import base numbers gmap list.
From S2P Require Import Prelude Qdict QdictFacts.

Section claims.
Context {V : Type}.
Implicit Types (d src dst : QDict V).

Lemma clone_put_all d : qdict_clone_shallow d = put_all (entries d) qdict_new.
Proof.
  unfold qdict_clone_shallow, put_all, entries. generalize (qdict_new (V := V)).
  induction (table d) as [|c t IH]; intros d0; [done|]. cbn. by rewrite fold_left_app, IH.
Qed.

Lemma list_to_map_reverse (es : list (cstring * V)) : NoDup es.*1 ->
  (list_to_map (reverse es) : gmap cstring V) = list_to_map es.
Proof.
  intros H. apply list_to_map_proper; [|apply reverse_Permutation].
  by rewrite fmap_reverse, reverse_Permutation.
Qed.

Lemma clone_map d : qdict_ok d ->
  qdict_ok (qdict_clone_shallow d) /\ to_map (qdict_clone_shallow d) = to_map d.
Proof.
  intros Hok. rewrite clone_put_all. destruct (qdict_new_ok (V := V)) as [Hn He].
  destruct (put_all_ok (entries d) qdict_new Hn) as [H1 ->]. split; [done|].
  rewrite He, map_union_empty. apply list_to_map_reverse. by apply entries_NoDup.
Qed.

(** ** Deleting while walking *)

Lemma delete_app_r {A} (a b : list A) i : delete (length a + i)%nat (a ++ b) = a ++ delete i b.
Proof. induction a as [|x a IH]; cbn; [done|]. by f_equal. Qed.

Lemma delete_app_l {A} (a b : list A) i : (i < length a)%nat -> delete i (a ++ b) = delete i a ++ b.
Proof. revert i. induction a as [|x a IH]; intros [|i] Hi; cbn in *; try lia; [done|]. f_equal. apply IH. lia. Qed.

Lemma concat_delete (t : list (list (cstring * V))) : forall b c i, t !! b = Some c -> (i < length c)%nat ->
  concat (<[b := delete i c]> t) = delete (length (concat (take b t)) + i)%nat (concat t).
Proof.
  induction t as [|c' t IH]; intros [|b] c i Hb Hi; try done.
  - injection Hb as ->. cbn. by rewrite delete_app_l.
  - change (<[S b := delete i c]> (c' :: t)) with (c' :: <[b := delete i c]> t).
    cbn [concat take]. rewrite length_app, <- Nat.add_assoc, delete_app_r. f_equal. by apply IH.
Qed.

(** An entry leaves the others in their order. *)
Lemma entries_del d pre e suf : qdict_ok d -> entries d = pre ++ e :: suf ->
  entries (qdict_del d e.1) = pre ++ suf.
Proof.
  intros Hok He. assert (Hj : entries d !! length pre = Some e) by by rewrite He, list_lookup_middle.
  destruct (entry_place d _ e Hok Hj) as (i & Hf & Hji & Hi). unfold qdict_del. rewrite Hf.
  change (entries (mkQDict _ _)) with (concat (<[bucket_of e.1 := delete i (chain d (bucket_of e.1))]> (table d))).
  rewrite concat_delete by (by apply chain_bucket || by eapply lookup_lt_Some). rewrite <- Hji.
  change (concat (table d)) with (entries d). rewrite He.
  rewrite <- (Nat.add_0_r (length pre)), delete_app_r. done.
Qed.

(** What [strstart] leaves of a key is the rest of the key. *)
Lemma strstart_spec str val p : strstart str val = Some p <-> str = val ++ p.
Proof.
  revert str. induction val as [|q val IH]; intros str; cbn.
  { split; [by intros [= ->]|by intros ->]. }
  destruct str as [|c str]; [done|]. destruct (Z.eqb_spec c q) as [->|Hne].
  - rewrite IH. split; [by intros ->|by intros [= ->]].
  - split; [done|]. by intros [= -> _].
Qed.

(** The entries that are taken out, under their new keys. *)
Definition taken (start : cstring) (es : list (cstring * V)) : list (cstring * V) :=
  omap (fun e => (fun p => (p, e.2)) <$> strstart e.1 start) es.
Definition kept (start : cstring) (es : list (cstring * V)) : list (cstring * V) :=
  filter (fun e => strstart e.1 start = None) es.

Lemma head_next d pre e suf : qdict_ok d -> entries d = pre ++ e :: suf ->
  qdict_next d e.1 = suf.*1 !! 0%nat /\ qdict_get d e.1 = Some e.2.
Proof.
  intros Hok He. assert (Hj : entries d !! length pre = Some e) by by rewrite He, list_lookup_middle.
  split.
  - rewrite (qdict_next_lookup d _ e Hok Hj), He, !list_lookup_fmap.
    rewrite (lookup_app_r pre) by lia. by replace (S (length pre) - length pre)%nat with 1%nat by lia.
  - rewrite qdict_get_map by done. apply elem_of_list_to_map; [by apply entries_NoDup|].
    destruct e. by eapply list_elem_of_lookup_2.
Qed.

Lemma extract_loop_run start suf : forall pre src dst fuel, qdict_ok src ->
  entries src = pre ++ suf -> (length suf <= fuel)%nat ->
  exists src', extract_loop fuel src dst start (suf.*1 !! 0%nat) = Ok (src', put_all (taken start suf) dst) /\
    qdict_ok src' /\ entries src' = pre ++ kept start suf.
Proof.
  induction suf as [|e suf IH]; intros pre src dst fuel Hok He Hf.
  { exists src. destruct fuel; (split; [done|]); by rewrite He. }
  destruct fuel as [|fuel]; [cbn in Hf; lia|]. cbn in Hf. destruct (head_next src pre e suf Hok He) as [Hn Hg].
  unfold taken, kept. cbn [fmap list_fmap lookup list_lookup extract_loop omap list_omap]. rewrite Hn, Hg.
  rewrite filter_cons. destruct (strstart e.1 start) as [p|] eqn:Es; cbn [fmap option_fmap option_map].
  - rewrite decide_False by done. apply (IH pre (qdict_del src e.1)); [by apply qdict_del_ok|by apply entries_del|lia].
  - rewrite decide_True by done. destruct (IH (pre ++ [e]) src dst fuel Hok) as (src' & E & Hok' & He'); [|lia|].
    { by rewrite He, <- app_assoc. }
    exists src'. split; [exact E|]. split; [done|]. rewrite He'. by rewrite <- app_assoc.
Qed.

Lemma extract_run src start fuel : qdict_ok src -> (length (entries src) <= fuel)%nat ->
  exists src', qdict_extract_subqdict fuel src start = Ok (src', put_all (taken start (entries src)) qdict_new) /\
    qdict_ok src' /\ entries src' = kept start (entries src).
Proof.
  intros Hok Hf. unfold qdict_extract_subqdict. rewrite qdict_first_entry.
  by apply (extract_loop_run start (entries src) []).
Qed.

Lemma elem_of_taken start es k v : (k, v) ∈ taken start es <-> (start ++ k, v) ∈ es.
Proof.
  unfold taken. rewrite list_elem_of_omap. split.
  - intros ([k' v'] & He & E). apply fmap_Some in E as (p & Hp & [= -> ->]). cbn in *.
    apply strstart_spec in Hp as ->. done.
  - intros He. exists (start ++ k, v). split; [done|]. cbn. by rewrite (proj2 (strstart_spec _ _ k) eq_refl).
Qed.

Lemma taken_NoDup start es : NoDup es.*1 -> NoDup (taken start es).*1.
Proof.
  induction es as [|e es IH]; intros H; [constructor|]. apply NoDup_cons in H as [He Hes]. specialize (IH Hes).
  unfold taken. cbn [omap list_omap]. destruct (strstart e.1 start) as [p|] eqn:Es; cbn; [|done].
  constructor; [|done]. intros ([k v] & E & Hk)%list_elem_of_fmap. cbn in E. subst k.
  apply elem_of_taken in Hk. apply He. apply strstart_spec in Es. rewrite Es.
  by apply (list_elem_of_fmap_2 fst) in Hk.
Qed.
End claims.

(** C17: on a well-formed table every operation is the operation of a finite
    map: lookups and tests, insertion and deletion, which keep the table well
    formed, the size, a walk with a callback, which sees every entry of the
    map once, a walk with first and next, which goes the same way, and a copy,
    which has the same entries. *)
Theorem qdict_refines_map {V} (d : QDict V) : qdict_ok d ->
  (forall k, qdict_get d k = to_map d !! k /\ qdict_haskey d k = bool_decide (is_Some (to_map d !! k))) /\
  (forall k v, qdict_ok (qdict_put_obj d k v) /\ to_map (qdict_put_obj d k v) = <[k := v]> (to_map d)) /\
  (forall k, qdict_ok (qdict_del d k) /\ to_map (qdict_del d k) = delete k (to_map d)) /\
  qdict_size d = u64 (Z.of_nat (base.size (to_map d))) /\
  (exists es, es ≡ₚ map_to_list (to_map d) /\
    (forall S (iter : cstring -> V -> S -> S) s, qdict_iter iter d s = fold_left (fun s e => iter e.1 e.2 s) es s) /\
    qdict_first d = es.*1 !! 0%nat /\ (forall j e, es !! j = Some e -> qdict_next d e.1 = es.*1 !! S j)) /\
  qdict_ok (qdict_clone_shallow d) /\ to_map (qdict_clone_shallow d) = to_map d.
Proof.
  intros Hok. split_and!.
  - intros k. split; [by apply qdict_get_map|by apply qdict_haskey_map].
  - intros k v. by apply qdict_put_ok.
  - intros k. by apply qdict_del_ok.
  - by apply qdict_size_map.
  - exists (entries d). split_and!.
    + symmetry. apply map_to_list_to_map. by apply entries_NoDup.
    + intros. apply qdict_iter_entries.
    + apply qdict_first_entry.
    + intros j e. by apply qdict_next_lookup.
  - by apply clone_map.
  - by apply clone_map.
Qed.

Lemma qdict_refines_map_witness :
  qdict_get (qdict_put_obj qdict_new [1; 2] true) [1; 2] = to_map (qdict_put_obj qdict_new [1; 2] true) !! [1; 2].
Proof.
  apply (qdict_refines_map (qdict_put_obj qdict_new [1; 2] true)).
  apply qdict_put_ok, qdict_new_ok.
Defined.

(** Taking the entries of a prefix out of a dictionary ends, although
    entries are deleted while it is walked; the entries with the prefix are
    found without it in the new dictionary and the others stay. *)
Theorem qdict_extract_correct {V} (src : QDict V) (start : cstring) (fuel : nat) :
  qdict_ok src -> (length (entries src) <= fuel)%nat ->
  exists src' dst, qdict_extract_subqdict fuel src start = Ok (src', dst) /\ qdict_ok src' /\ qdict_ok dst /\
    (forall k, to_map dst !! k = to_map src !! (start ++ k)) /\
    (forall k, to_map src' !! k = match strstart k start with Some _ => None | None => to_map src !! k end).
Proof.
  intros Hok Hf. destruct (extract_run src start fuel Hok Hf) as (src' & E & Hok' & He).
  destruct (qdict_new_ok (V := V)) as [Hn Hempty].
  destruct (put_all_ok (taken start (entries src)) qdict_new Hn) as [Hdst Hm].
  exists src', (put_all (taken start (entries src)) qdict_new). split_and!; try done.
  - intros k. rewrite Hm, Hempty, map_union_empty.
    rewrite list_to_map_reverse by (by apply taken_NoDup, entries_NoDup). apply option_eq. intros v.
    unfold to_map. rewrite <- !elem_of_list_to_map by first [by apply entries_NoDup|by apply taken_NoDup, entries_NoDup].
    apply elem_of_taken.
  - intros k. apply option_eq. intros v. unfold to_map at 1. rewrite <- elem_of_list_to_map by by apply entries_NoDup.
    rewrite He. unfold kept. rewrite list_elem_of_filter. cbn.
    destruct (strstart k start); [naive_solver|].
    unfold to_map. rewrite <- elem_of_list_to_map by by apply entries_NoDup. naive_solver.
Qed.

Lemma qdict_extract_witness : exists src' dst,
  qdict_extract_subqdict 1 (qdict_put_obj qdict_new [1; 2] true) [1] = Ok (src', dst) /\ to_map dst !! [2] = Some true.
Proof.
  destruct (qdict_extract_correct (qdict_put_obj qdict_new [1; 2] true) [1] 1) as (src' & dst & E & _ & _ & H & _);
    [apply qdict_put_ok, qdict_new_ok|by vm_compute|]. exists src', dst. split; [done|]. rewrite H. by vm_compute.
Defined.
