(* ===== verification/JsonLexer.v ===== *)
(** * JSON: the lexer and the message splitter

    [qobject/json-lexer.c] and [qobject/json-streamer.c].  The lexer is the
    table of the source, fed one byte at a time; it hands every token to the
    function that it was given, here one that acts on a state [S] and may
    fault.  The splitter counts braces and brackets and hands the tokens of a
    whole message on. *)

From Stdlib Require Import Ascii String List.
From stdpp Require Import base numbers list.
From S2P Require Import Prelude Qdict.

(** ** Characters *)

Definition chr (a : ascii) : Z := Z.of_N (N_of_ascii a).
Fixpoint str (s : string) : cstring :=
  match s with EmptyString => [] | String a s' => chr a :: str s' end.
Coercion chr : ascii >-> Z.

Definition c_tab : Z := 9.
Definition c_newline : Z := 10.
Definition c_return : Z := 13.
Definition c_dquote : Z := 34.
Definition c_quote : Z := 39.
Definition c_backslash : Z := 92.

Definition between (lo hi c : Z) : bool := (lo <=? c) && (c <=? hi).
Definition is_digit (c : Z) : bool := between "0"%char "9"%char c.
(** The C library's [isxdigit]. *)
Definition isxdigit (c : Z) : bool :=
  is_digit c || between "a"%char "f"%char c || between "A"%char "F"%char c.
Definition is_white (c : Z) : bool :=
  (c =? " "%char) || (c =? c_tab) || (c =? c_return) || (c =? c_newline).

(** ** The states of the lexer and the kinds of token

    One type, as both are entries of the table. *)

Inductive json_code : Type :=
| IN_ERROR
| IN_DQ_UCODE3 | IN_DQ_UCODE2 | IN_DQ_UCODE1 | IN_DQ_UCODE0 | IN_DQ_STRING_ESCAPE | IN_DQ_STRING
| IN_SQ_UCODE3 | IN_SQ_UCODE2 | IN_SQ_UCODE1 | IN_SQ_UCODE0 | IN_SQ_STRING_ESCAPE | IN_SQ_STRING
| IN_ZERO | IN_DIGITS | IN_DIGIT | IN_EXP_E | IN_MANTISSA | IN_MANTISSA_DIGITS
| IN_NONZERO_NUMBER | IN_NEG_NONZERO_NUMBER | IN_KEYWORD
| IN_ESCAPE | IN_ESCAPE_L | IN_ESCAPE_LL | IN_ESCAPE_I | IN_ESCAPE_I6 | IN_ESCAPE_I64
| IN_WHITESPACE | IN_START
| JSON_OPERATOR | JSON_INTEGER | JSON_FLOAT | JSON_KEYWORD | JSON_STRING | JSON_ESCAPE
| JSON_SKIP | JSON_ERROR.

#[export] Instance json_code_eq_dec : EqDecision json_code.
Proof. solve_decision. Defined.

Definition MAX_TOKEN_SIZE : Z := 2 ^ 26.

(** [TERMINAL(state)]: the entries 0 to 0x7F. *)
Definition TERMINAL (state : json_code) (c : Z) : json_code :=
  if between 0 0x7F c then state else IN_ERROR.

Definition on_xdigit (state : json_code) (c : Z) : json_code :=
  if isxdigit c then state else IN_ERROR.

(** The entries of a string state: [body] for the bytes of the string,
    [escape] for a backslash, and the end at [quote]. *)
Definition string_row (body escape : json_code) (quote c : Z) : json_code :=
  if c =? quote then JSON_STRING
  else if c =? c_backslash then escape
  else if between 1 0xBF c || between 0xC2 0xF4 c then body
  else IN_ERROR.

(** The row of the table for a state; the codes of tokens have no row. *)
Definition json_lexer (state : json_code) (c : Z) : res json_code :=
  match state with
  | IN_ERROR => Ok IN_ERROR
  | IN_DQ_UCODE3 => Ok (on_xdigit IN_DQ_STRING c)
  | IN_DQ_UCODE2 => Ok (on_xdigit IN_DQ_UCODE3 c)
  | IN_DQ_UCODE1 => Ok (on_xdigit IN_DQ_UCODE2 c)
  | IN_DQ_UCODE0 => Ok (on_xdigit IN_DQ_UCODE1 c)
  | IN_DQ_STRING_ESCAPE => Ok
      (if (c =? "b"%char) || (c =? "f"%char) || (c =? "n"%char) || (c =? "r"%char)
          || (c =? "t"%char) || (c =? "/"%char) || (c =? c_backslash) || (c =? c_quote)
          || (c =? c_dquote) then IN_DQ_STRING
       else if c =? "u"%char then IN_DQ_UCODE0 else IN_ERROR)
  | IN_DQ_STRING => Ok (string_row IN_DQ_STRING IN_DQ_STRING_ESCAPE c_dquote c)
  | IN_SQ_UCODE3 => Ok (on_xdigit IN_SQ_STRING c)
  | IN_SQ_UCODE2 => Ok (on_xdigit IN_SQ_UCODE3 c)
  | IN_SQ_UCODE1 => Ok (on_xdigit IN_SQ_UCODE2 c)
  | IN_SQ_UCODE0 => Ok (on_xdigit IN_SQ_UCODE1 c)
  | IN_SQ_STRING_ESCAPE => Ok
      (if (c =? "b"%char) || (c =? "f"%char) || (c =? "n"%char) || (c =? "r"%char)
          || (c =? "t"%char) then IN_SQ_STRING
       else if (c =? "/"%char) || (c =? c_backslash) then IN_DQ_STRING
       else if (c =? c_quote) || (c =? c_dquote) then IN_SQ_STRING
       else if c =? "u"%char then IN_SQ_UCODE0 else IN_ERROR)
  | IN_SQ_STRING => Ok (string_row IN_SQ_STRING IN_SQ_STRING_ESCAPE c_quote c)
  | IN_ZERO => Ok
      (if is_digit c then IN_ERROR
       else if c =? "."%char then IN_MANTISSA else TERMINAL JSON_INTEGER c)
  | IN_DIGITS => Ok (if is_digit c then IN_DIGITS else TERMINAL JSON_FLOAT c)
  | IN_DIGIT => Ok (if is_digit c then IN_DIGITS else IN_ERROR)
  | IN_EXP_E => Ok
      (if (c =? "-"%char) || (c =? "+"%char) then IN_DIGIT
       else if is_digit c then IN_DIGITS else IN_ERROR)
  | IN_MANTISSA_DIGITS => Ok
      (if is_digit c then IN_MANTISSA_DIGITS
       else if (c =? "e"%char) || (c =? "E"%char) then IN_EXP_E else TERMINAL JSON_FLOAT c)
  | IN_MANTISSA => Ok (if is_digit c then IN_MANTISSA_DIGITS else IN_ERROR)
  | IN_NONZERO_NUMBER => Ok
      (if is_digit c then IN_NONZERO_NUMBER
       else if (c =? "e"%char) || (c =? "E"%char) then IN_EXP_E
       else if c =? "."%char then IN_MANTISSA else TERMINAL JSON_INTEGER c)
  | IN_NEG_NONZERO_NUMBER => Ok
      (if c =? "0"%char then IN_ZERO
       else if between "1"%char "9"%char c then IN_NONZERO_NUMBER else IN_ERROR)
  | IN_KEYWORD => Ok (if between "a"%char "z"%char c then IN_KEYWORD else TERMINAL JSON_KEYWORD c)
  | IN_WHITESPACE => Ok (if is_white c then IN_WHITESPACE else TERMINAL JSON_SKIP c)
  | IN_ESCAPE_LL => Ok (if c =? "d"%char then JSON_ESCAPE else IN_ERROR)
  | IN_ESCAPE_L => Ok
      (if c =? "d"%char then JSON_ESCAPE else if c =? "l"%char then IN_ESCAPE_LL else IN_ERROR)
  | IN_ESCAPE_I64 => Ok (if c =? "d"%char then JSON_ESCAPE else IN_ERROR)
  | IN_ESCAPE_I6 => Ok (if c =? "4"%char then IN_ESCAPE_I64 else IN_ERROR)
  | IN_ESCAPE_I => Ok (if c =? "6"%char then IN_ESCAPE_I6 else IN_ERROR)
  | IN_ESCAPE => Ok
      (if (c =? "d"%char) || (c =? "i"%char) || (c =? "p"%char) || (c =? "s"%char)
          || (c =? "f"%char) then JSON_ESCAPE
       else if c =? "l"%char then IN_ESCAPE_L
       else if c =? "I"%char then IN_ESCAPE_I else IN_ERROR)
  | IN_START => Ok
      (if c =? c_dquote then IN_DQ_STRING
       else if c =? c_quote then IN_SQ_STRING
       else if c =? "0"%char then IN_ZERO
       else if between "1"%char "9"%char c then IN_NONZERO_NUMBER
       else if c =? "-"%char then IN_NEG_NONZERO_NUMBER
       else if (c =? "{"%char) || (c =? "}"%char) || (c =? "["%char) || (c =? "]"%char)
               || (c =? ","%char) || (c =? ":"%char) then JSON_OPERATOR
       else if between "a"%char "z"%char c then IN_KEYWORD
       else if c =? "%"%char then IN_ESCAPE
       else if is_white c then IN_WHITESPACE else IN_ERROR)
  | _ => Err OutOfBounds
  end.

(** ** The lexer *)

Record JSONLexer : Type := mkLexer { state : json_code; token : cstring; x : Z; y : Z }.

Definition json_lexer_init : JSONLexer := mkLexer IN_START [] 0 0.

(** The states of the table: what [lexer->state] may hold. *)
Definition is_row (c : json_code) : bool :=
  match json_lexer c 0 with Ok _ => true | Err _ => false end.

Section lexer.
Context {S : Type}.
(** [lexer->emit]: the token, its kind, and where it ends. *)
Context (emit : cstring -> json_code -> Z -> Z -> S -> res S).

(** The [do] loop; the flag says that the function returned inside it. *)
Fixpoint feed_loop (fuel : nat) (lx : JSONLexer) (ch : Z) (flush : bool) (s : S)
    : res (JSONLexer * S * bool) :=
  match fuel with
  | O => Err OutOfFuel
  | Datatypes.S fuel' =>
      let* new_state := json_lexer (state lx) ch in
      let* terminal := json_lexer (state lx) 0 in
      let char_consumed := negb (bool_decide (terminal = new_state)) in
      let tok := if char_consumed then token lx ++ [ch] else token lx in
      let next lx' s' :=
        if negb char_consumed && negb flush then feed_loop fuel' lx' ch flush s'
        else Ok (lx', s', false) in
      match new_state with
      | JSON_OPERATOR | JSON_ESCAPE | JSON_INTEGER | JSON_FLOAT | JSON_KEYWORD | JSON_STRING =>
          let* s' := emit tok new_state (x lx) (y lx) s in
          next (mkLexer IN_START [] (x lx) (y lx)) s'
      | JSON_SKIP => next (mkLexer IN_START [] (x lx) (y lx)) s
      | IN_ERROR =>
          let* s' := emit tok JSON_ERROR (x lx) (y lx) s in
          Ok (mkLexer IN_START [] (x lx) (y lx), s', true)
      | _ => next (mkLexer new_state tok (x lx) (y lx)) s
      end
  end.

(** A lookahead is followed by one more step. *)
Definition feed_fuel : nat := 2.

Definition json_lexer_feed_char (lx : JSONLexer) (ch : Z) (flush : bool) (s : S)
    : res (JSONLexer * S) :=
  let lx0 :=
    if ch =? c_newline then mkLexer (state lx) (token lx) 0 (s32 (y lx + 1))
    else mkLexer (state lx) (token lx) (s32 (x lx + 1)) (y lx) in
  let* (lx1, s1, returned) := feed_loop feed_fuel lx0 ch flush s in
  if returned : bool then Ok (lx1, s1)
  else if MAX_TOKEN_SIZE <? Z.of_nat (length (token lx1)) then
    let* s2 := emit (token lx1) (state lx1) (x lx1) (y lx1) s1 in
    Ok (mkLexer IN_START [] (x lx1) (y lx1), s2)
  else Ok (lx1, s1).

Fixpoint json_lexer_feed (lx : JSONLexer) (buffer : list Z) (s : S) : res (JSONLexer * S) :=
  match buffer with
  | [] => Ok (lx, s)
  | ch :: buffer' =>
      let* (lx', s') := json_lexer_feed_char lx ch false s in
      json_lexer_feed lx' buffer' s'
  end.

Definition json_lexer_flush (lx : JSONLexer) (s : S) : res (JSONLexer * S) :=
  if bool_decide (state lx = IN_START) then Ok (lx, s)
  else json_lexer_feed_char lx 0 true s.
End lexer.

(** ** The message splitter *)

Definition MAX_NESTING : Z := 2 ^ 10.

(** The dictionary of a token: its kind, its text and where it ends. *)
Record JSONToken : Type := mkToken { t_type : json_code; t_token : cstring; t_x : Z; t_y : Z }.

Record JSONMessageParser : Type := mkMessageParser {
  brace_count : Z;
  bracket_count : Z;
  tokens : list JSONToken;
  token_size : Z }.

Definition message_parser_new : JSONMessageParser := mkMessageParser 0 0 [] 0.

(** The new counts of braces and brackets. *)
Definition count_token (tok : cstring) (type : json_code) (brace bracket : Z) : Z * Z :=
  if bool_decide (type = JSON_OPERATOR) then
    match tok with
    | c :: _ =>
        if c =? "{"%char then (s32 (brace + 1), bracket)
        else if c =? "}"%char then (s32 (brace - 1), bracket)
        else if c =? "["%char then (brace, s32 (bracket + 1))
        else if c =? "]"%char then (brace, s32 (bracket - 1))
        else (brace, bracket)
    | [] => (brace, bracket)
    end
  else (brace, bracket).

Section streamer.
Context {S : Type}.
(** [parser->emit]: the tokens of a message, or NULL after a lexical error. *)
Context (emit : option (list JSONToken) -> S -> res S).

Definition json_message_process_token (tok : cstring) (type : json_code) (x y : Z)
    (ps : JSONMessageParser * S) : res (JSONMessageParser * S) :=
  let '(p, s) := ps in
  let '(brace, bracket) := count_token tok type (brace_count p) (bracket_count p) in
  let toks := tokens p ++ [mkToken type tok x y] in
  let tsize := u64 (token_size p + Z.of_nat (length tok)) in
  let out_emit ts := let* s' := emit ts s in Ok (message_parser_new, s') in
  if bool_decide (type = JSON_ERROR) then out_emit None
  else if (brace <? 0) || (bracket <? 0) || ((brace =? 0) && (bracket =? 0)) then
    out_emit (Some toks)
  else if (MAX_TOKEN_SIZE <? tsize) || (MAX_NESTING <? u64 bracket) || (MAX_NESTING <? u64 brace)
  then out_emit (Some toks)
  else Ok (mkMessageParser brace bracket toks tsize, s).

Definition json_message_parser_init (s : S) : JSONLexer * (JSONMessageParser * S) :=
  (json_lexer_init, (message_parser_new, s)).

Definition json_message_parser_feed (mp : JSONLexer * (JSONMessageParser * S)) (buffer : list Z)
    : res (JSONLexer * (JSONMessageParser * S)) :=
  json_lexer_feed json_message_process_token mp.1 buffer mp.2.

Definition json_message_parser_flush (mp : JSONLexer * (JSONMessageParser * S))
    : res (JSONLexer * (JSONMessageParser * S)) :=
  json_lexer_flush json_message_process_token mp.1 mp.2.
End streamer.
