(* ===== verification/Json.v ===== *)
(** * JSON: values and their text

    The values of [qobject/], [mod_utf8_codepoint] of [util/unicode.c] and the
    printer of [qobject/qjson.c].  The type of [double] and its text ([printf]
    with [%f]) are parameters; reference counts are not kept. *)

From Stdlib Require Import Ascii String List.
From stdpp Require Import base numbers list.
From S2P Require Import Prelude Qdict JsonLexer.

(** ** Values *)

Unset Elimination Schemes.
Inductive QObject (F : Type) : Type :=
| QINT (value : Z)
| QSTRING (s : cstring)
| QDICT (d : QDict (QObject F))
| QLIST (l : list (QObject F))
| QFLOAT (value : F)
| QBOOL (value : Z)
| QERROR.
Set Elimination Schemes.
Arguments QINT {F} value.
Arguments QSTRING {F} s.
Arguments QDICT {F} d.
Arguments QLIST {F} l.
Arguments QFLOAT {F} value.
Arguments QBOOL {F} value.
Arguments QERROR {F}.

(** ** Unicode *)

Definition min_cp (len : Z) : Z :=
  match len with
  | 2 => 0x80 | 3 => 0x800 | 4 => 0x10000 | 5 => 0x200000 | _ => 0x4000000
  end.

(** The number of leading one bits, and the mask of the bit behind them. *)
Fixpoint lead_ones (fuel : nat) (byte mask len : Z) : Z * Z :=
  match fuel with
  | O => (len, mask)
  | S fuel' =>
      if Z.land byte mask =? 0 then (len, mask)
      else lead_ones fuel' byte (Z.shiftr mask 1) (len + 1)
  end.

(** The loop over the continuation bytes: [todo] of them are expected, and
    [n] more bytes may be read.  The flag says that one was missing. *)
Fixpoint continuation (todo : nat) (n : Z) (cp : Z) (p : cstring) : Z * cstring * bool :=
  match todo with
  | O => (cp, p, false)
  | S todo' =>
      let byte := if 0 <? n then match p with [] => 0 | b :: _ => b end else 0 in
      if negb (Z.land byte 0xC0 =? 0x80) then (-1, p, true)
      else continuation todo' (n - 1) (Z.lor (Z.shiftl cp 6) (Z.land byte 0x3F)) (tail p)
  end.

(** The codepoint, or -1, and what is behind the sequence. *)
Definition mod_utf8_codepoint (s : cstring) (n : Z) : Z * cstring :=
  match s with
  | [] => (-1, s)
  | byte :: p =>
      if n =? 0 then (-1, s)
      else if byte <? 0x80 then (byte, p)
      else if 0xFE <=? byte then (-1, p)
      else if Z.land byte 0x40 =? 0 then (-1, p)
      else
        let '(len, mask) := lead_ones 8 byte 0x80 0 in
        let '(cp, p', missing) := continuation (Z.to_nat (len - 1)) (n - 1) (Z.land byte (mask - 1)) p in
        if missing : bool then (-1, p')
        else if 0x10FFFF <? cp then (-1, p')
        else if ((0xFDD0 <=? cp) && (cp <=? 0xFDEF)) || (Z.land cp 0xFFFE =? 0xFFFE) then (-1, p')
        else if (0xD800 <=? cp) && (cp <=? 0xDFFF) then (-1, p')
        else if (cp <? min_cp len) && negb ((cp =? 0) && (len =? 2)) then (-1, p')
        else (cp, p')
  end.

(** The text that [wchar_to_utf8] leaves in its buffer, up to the terminator. *)
Definition wchar_to_utf8 (wchar : Z) : cstring :=
  if wchar <=? 0x007F then
    let b := Z.land wchar 0x7F in if b =? 0 then [] else [b]
  else if wchar <=? 0x07FF then
    [Z.lor 0xC0 (Z.land (Z.shiftr wchar 6) 0x1F); Z.lor 0x80 (Z.land wchar 0x3F)]
  else
    [Z.lor 0xE0 (Z.land (Z.shiftr wchar 12) 0x0F);
     Z.lor 0x80 (Z.land (Z.shiftr wchar 6) 0x3F);
     Z.lor 0x80 (Z.land wchar 0x3F)].

(** ** Numbers: the C library's decimal text *)

Fixpoint digits_rev (fuel : nat) (n : Z) : cstring :=
  match fuel with
  | O => []
  | S fuel' => (n mod 10 + "0"%char) :: (if n <? 10 then [] else digits_rev fuel' (n / 10))
  end.

Definition print_nonneg (n : Z) : cstring := rev (digits_rev (S (Z.to_nat (Z.log2 n))) n).

(** [snprintf] with [PRId64]. *)
Definition print_int (z : Z) : cstring :=
  if z <? 0 then (chr "-") :: print_nonneg (- z) else print_nonneg z.

Definition hex_digit (d : Z) : Z := if d <? 10 then d + "0"%char else d - 10 + "A"%char.

(** [snprintf] with [%04X], of a value of 16 bits. *)
Definition hex4 (v : Z) : cstring :=
  [hex_digit (Z.land (Z.shiftr v 12) 15); hex_digit (Z.land (Z.shiftr v 8) 15);
   hex_digit (Z.land (Z.shiftr v 4) 15); hex_digit (Z.land v 15)].

Fixpoint digits_value (s : cstring) (acc : Z) : Z :=
  match s with
  | c :: s' => if is_digit c then digits_value s' (acc * 10 + (c - "0"%char)) else acc
  | [] => acc
  end.

Fixpoint skip_space (s : cstring) : cstring :=
  match s with
  | c :: s' => if is_white c || between 11 12 c then skip_space s' else s
  | [] => []
  end.

(** [strtoll] in base ten: the value, and whether [errno] is [ERANGE]. *)
Definition strtoll (s : cstring) : Z * bool :=
  let s := skip_space s in
  let '(neg, ds) :=
    match s with
    | c :: s' => if c =? "-"%char then (true, s') else if c =? "+"%char then (false, s') else (false, s)
    | [] => (false, [])
    end in
  let v := if neg : bool then - digits_value ds 0 else digits_value ds 0 in
  if v <? - 2 ^ 63 then (- 2 ^ 63, true)
  else if 2 ^ 63 - 1 <? v then (2 ^ 63 - 1, true)
  else (v, false).

(** ** The printer *)

Fixpoint indentation (j : nat) (s : cstring) : cstring :=
  match j with O => s | S j' => indentation j' (s ++ str "    ") end.

(** One pass of the loop over the characters of a string. *)
Definition print_codepoint (cp : Z) : cstring :=
  if cp =? c_dquote then [c_backslash; c_dquote]
  else if cp =? c_backslash then [c_backslash; c_backslash]
  else if cp =? 8 then [c_backslash; chr "b"]
  else if cp =? 12 then [c_backslash; chr "f"]
  else if cp =? c_newline then [c_backslash; chr "n"]
  else if cp =? c_return then [c_backslash; chr "r"]
  else if cp =? c_tab then [c_backslash; chr "t"]
  else
    let cp := if cp <? 0 then 0xFFFD else cp in
    if 0xFFFF <? cp then
      [c_backslash; chr "u"] ++ hex4 (0xD800 + Z.shiftr (cp - 0x10000) 10) ++
      [c_backslash; chr "u"] ++ hex4 (0xDC00 + Z.land (cp - 0x10000) 0x3FF)
    else if (cp <? 0x20) || (0x7F <=? cp) then [c_backslash; chr "u"] ++ hex4 cp
    else [cp].

(** Every pass reads at least one byte: the length of the string is fuel
    enough. *)
Fixpoint print_chars (fuel : nat) (ptr : cstring) (s : cstring) : cstring :=
  match fuel, ptr with
  | S fuel', _ :: _ =>
      let '(cp, e) := mod_utf8_codepoint ptr 6 in
      print_chars fuel' e (s ++ print_codepoint cp)
  | _, _ => s
  end.

Definition print_string (v s : cstring) : cstring :=
  print_chars (length v) v (s ++ [c_dquote]) ++ [c_dquote].

(** The zeros at the end of the text of a [double] are cut off, and then a
    point; the argument is reversed. *)
Fixpoint trim_zeros (r : cstring) : cstring :=
  match r with c :: r' => if c =? "0"%char then trim_zeros r' else r | [] => [] end.

Definition trim_float (buffer : cstring) : cstring :=
  match trim_zeros (rev buffer) with
  | c :: r => if c =? "."%char then rev r else rev (c :: r)
  | [] => []
  end.

Section printer.
Context {F : Type} (fmt_f : F -> cstring).
Implicit Types (obj : QObject F).

Record ToJsonIterState : Type := mkIter { it_indent : nat; it_pretty : bool; it_count : Z; it_str : cstring }.

(** What both iterators put in front of an element. *)
Definition iter_begin (s : ToJsonIterState) : cstring :=
  let t := if it_count s =? 0 then it_str s else it_str s ++ str ", " in
  if it_pretty s then indentation (it_indent s) (t ++ [c_newline]) else t.

Definition to_json_dict_iter (to_json : QObject F -> cstring -> bool -> nat -> cstring)
    (key : cstring) obj (s : ToJsonIterState) : ToJsonIterState :=
  let t := print_string key (iter_begin s) ++ str ": " in
  mkIter (it_indent s) (it_pretty s) (it_count s + 1) (to_json obj t (it_pretty s) (it_indent s)).

Definition to_json_list_iter (to_json : QObject F -> cstring -> bool -> nat -> cstring)
    obj (s : ToJsonIterState) : ToJsonIterState :=
  mkIter (it_indent s) (it_pretty s) (it_count s + 1)
    (to_json obj (iter_begin s) (it_pretty s) (it_indent s)).

(** What follows the last element. *)
Definition iter_end (pretty : bool) (indent : nat) (s : cstring) : cstring :=
  if pretty then indentation indent (s ++ [c_newline]) else s.

Fixpoint to_json obj (s : cstring) (pretty : bool) (indent : nat) : cstring :=
  match obj with
  | QINT v => s ++ print_int v
  | QSTRING v => print_string v s
  | QDICT d =>
      let it := qdict_iter (to_json_dict_iter to_json) d
                  (mkIter (S indent) pretty 0 (s ++ str "{")) in
      iter_end pretty indent (it_str it) ++ str "}"
  | QLIST l =>
      let it := fold_left (fun it o => to_json_list_iter to_json o it) l
                  (mkIter (S indent) pretty 0 (s ++ str "[")) in
      iter_end pretty indent (it_str it) ++ str "]"
  | QFLOAT v => s ++ trim_float (fmt_f v)
  | QBOOL v => s ++ (if negb (v =? 0) then str "true" else str "false")
  | QERROR => s
  end.

Definition qobject_to_json obj : cstring := to_json obj [] false 0.
Definition qobject_to_json_pretty obj : cstring := to_json obj [] true 0.
End printer.
