(* ===== verification/JsonParser.v ===== *)
(** * JSON: the parser

    The recursive-descent parser of [qobject/json-parser.c] and the entry
    points of [qobject/qjson.c] that run lexer, splitter and parser.  A
    context holds the tokens of a message and the position of the next one;
    [goto out] restores the position.  The arguments of [qobject_from_jsonf]
    are a list that is never restored.  A failed [g_assert] is a fault. *)

From Stdlib Require Import Ascii String List.
From stdpp Require Import base numbers list.
From S2P Require Import Prelude Qdict JsonLexer Json.

(** What [parse_error] is told. *)
Inductive parse_message : Type :=
| PrematureEOI | KeyNotString | MissingColon | MissingValue | ExpectedSeparatorInDict
| ExpectingValue | ExpectedSeparatorInList | InvalidKeyword (keyword : cstring)
| InvalidHexEscape | InvalidEscape.

(** The bytes of a buffer up to its terminator. *)
Fixpoint c_str (s : list Z) : cstring :=
  match s with [] => [] | c :: s' => if c =? 0 then [] else c :: c_str s' end.

Definition token_get_value (t : JSONToken) : cstring := c_str (t_token t).
Definition token_get_type (t : JSONToken) : json_code := t_type t.

Definition token_is_operator (t : JSONToken) (op : Z) : bool :=
  if bool_decide (token_get_type t = JSON_OPERATOR)
  then bool_decide (token_get_value t = [op]) else false.

Definition token_is_keyword (t : JSONToken) (value : cstring) : bool :=
  if bool_decide (token_get_type t = JSON_KEYWORD)
  then bool_decide (token_get_value t = value) else false.

Definition token_is_escape (t : JSONToken) (value : cstring) : bool :=
  if bool_decide (token_get_type t = JSON_ESCAPE)
  then bool_decide (token_get_value t = value) else false.

Definition hex2decimal (ch : Z) : Z :=
  if is_digit ch then ch - "0"%char
  else if between "a"%char "f"%char ch then 10 + (ch - "a"%char)
  else if between "A"%char "F"%char ch then 10 + (ch - "A"%char)
  else -1.

(** [unicode_char |= hex2decimal(ptr[i]) << ((3 - i) * 4)], four times. *)
Definition hex4_value (a b c d : Z) : Z :=
  u16 (Z.lor (Z.lor (Z.lor (Z.shiftl (hex2decimal a) 12) (Z.shiftl (hex2decimal b) 8))
    (Z.shiftl (hex2decimal c) 4)) (hex2decimal d)).

(** The loop of [qstring_from_escaped_str]: [acc] is the string so far. *)
Fixpoint unescape (quote : Z) (ptr acc : cstring) : parse_message + cstring :=
  match ptr with
  | [] => inr acc
  | c :: ptr1 =>
      if c =? quote then inr acc
      else if c =? c_backslash then
        match ptr1 with
        | [] => inl InvalidEscape
        | e :: ptr2 =>
            if e =? c_dquote then unescape quote ptr2 (acc ++ [c_dquote])
            else if e =? c_quote then unescape quote ptr2 (acc ++ [c_quote])
            else if e =? c_backslash then unescape quote ptr2 (acc ++ [c_backslash])
            else if e =? "/"%char then unescape quote ptr2 (acc ++ [chr "/"])
            else if e =? "b"%char then unescape quote ptr2 (acc ++ [8])
            else if e =? "f"%char then unescape quote ptr2 (acc ++ [12])
            else if e =? "n"%char then unescape quote ptr2 (acc ++ [c_newline])
            else if e =? "r"%char then unescape quote ptr2 (acc ++ [c_return])
            else if e =? "t"%char then unescape quote ptr2 (acc ++ [c_tab])
            else if e =? "u"%char then
              match ptr2 with
              | h0 :: h1 :: h2 :: h3 :: ptr3 =>
                  if isxdigit h0 && isxdigit h1 && isxdigit h2 && isxdigit h3
                  then unescape quote ptr3 (acc ++ wchar_to_utf8 (hex4_value h0 h1 h2 h3))
                  else inl InvalidHexEscape
              | _ => inl InvalidHexEscape
              end
            else inl InvalidEscape
        end
      else unescape quote ptr1 (acc ++ [c])
  end.

Section parser.
Context {F : Type} (strtod : cstring -> F).

(** The arguments that [va_arg] may fetch. *)
Inductive va_argument : Type :=
| VaQObject (obj : option (QObject F))
| VaInt (i : Z)
| VaLong (i : Z)
| VaLongLong (i : Z)
| VaString (s : cstring)
| VaDouble (f : F).

Record JSONParserContext : Type := mkContext {
  err : option parse_message;
  buf : list JSONToken;
  pos : nat;
  ap : option (list va_argument) }.

Definition M (A : Type) : Type := JSONParserContext -> res (A * JSONParserContext).
Definition ret {A} (a : A) : M A := fun c => Ok (a, c).
Definition bind {A B} (m : M A) (k : A -> M B) : M B :=
  fun c => let* (a, c') := m c in k a c'.
Local Notation "'let!' x ':=' m 'in' k" := (bind m (fun x => k))
  (at level 10, x binder, m at level 100, k at level 200).

Definition parse_error (msg : parse_message) : M unit :=
  fun c => Ok (tt, mkContext (Some msg) (buf c) (pos c) (ap c)).

Definition parser_context_peek_token : M JSONToken :=
  fun c => match buf c !! pos c with Some t => Ok (t, c) | None => Err AssertFailed end.

Definition parser_context_pop_token : M JSONToken :=
  fun c => match buf c !! pos c with
           | Some t => Ok (t, mkContext (err c) (buf c) (S (pos c)) (ap c))
           | None => Err AssertFailed
           end.

Definition parser_context_save : M nat := fun c => Ok (pos c, c).
Definition parser_context_restore (saved : nat) : M unit :=
  fun c => Ok (tt, mkContext (err c) (buf c) saved (ap c)).

(** [goto out] with and without a message. *)
Definition out {A} (saved : nat) : M (option A) :=
  let! _ := parser_context_restore saved in ret None.
Definition fail {A} (saved : nat) (msg : parse_message) : M (option A) :=
  let! _ := parse_error msg in out saved.

Definition qstring_from_escaped_str (t : JSONToken) : M (option cstring) :=
  match token_get_value t with
  | [] => fun c => Err OutOfBounds
  | q :: ptr =>
      match unescape (if q =? c_dquote then c_dquote else c_quote) ptr [] with
      | inr s => ret (Some s)
      | inl msg => let! _ := parse_error msg in ret None
      end
  end.

Section rules.
(** The rule for a value, one level down. *)
Context (parse_value : M (option (QObject F))).

(** [None] for the result -1; the dictionary is changed by success only. *)
Definition parse_pair (dict : QDict (QObject F)) : M (option (QDict (QObject F))) :=
  let! saved := parser_context_save in
  let! _ := parser_context_peek_token in
  let! key := parse_value in
  match key with
  | Some (QSTRING k) =>
      let! token := parser_context_pop_token in
      if negb (token_is_operator token ":"%char) then fail saved MissingColon else
      let! value := parse_value in
      match value with
      | None => fail saved MissingValue
      | Some v => ret (Some (qdict_put_obj dict (c_str k) v))
      end
  | _ => fail saved KeyNotString
  end.

(** The [while] loop of [parse_object], at the token behind a pair. *)
Fixpoint object_loop (fuel : nat) (saved : nat) (dict : QDict (QObject F)) (token : JSONToken)
    : M (option (QObject F)) :=
  match fuel with
  | O => fun c => Err OutOfFuel
  | S fuel' =>
      if token_is_operator token "}"%char then ret (Some (QDICT dict))
      else if negb (token_is_operator token ","%char) then fail saved ExpectedSeparatorInDict
      else
        let! r := parse_pair dict in
        match r with
        | None => out saved
        | Some dict' =>
            let! token' := parser_context_pop_token in
            object_loop fuel' saved dict' token'
        end
  end.

Definition parse_object (fuel : nat) : M (option (QObject F)) :=
  let! saved := parser_context_save in
  let! token := parser_context_pop_token in
  if negb (token_is_operator token "{"%char) then out saved else
  let! peek := parser_context_peek_token in
  if negb (token_is_operator peek "}"%char) then
    let! r := parse_pair qdict_new in
    match r with
    | None => out saved
    | Some dict =>
        let! token := parser_context_pop_token in
        object_loop fuel saved dict token
    end
  else
    let! _ := parser_context_pop_token in
    ret (Some (QDICT qdict_new)).

(** The [while] loop of [parse_array], at the token behind an element. *)
Fixpoint array_loop (fuel : nat) (saved : nat) (list : list (QObject F)) (token : JSONToken)
    : M (option (QObject F)) :=
  match fuel with
  | O => fun c => Err OutOfFuel
  | S fuel' =>
      if token_is_operator token "]"%char then ret (Some (QLIST list))
      else if negb (token_is_operator token ","%char) then fail saved ExpectedSeparatorInList
      else
        let! obj := parse_value in
        match obj with
        | None => fail saved ExpectingValue
        | Some o =>
            let! token' := parser_context_pop_token in
            array_loop fuel' saved (list ++ [o]) token'
        end
  end.

Definition parse_array (fuel : nat) : M (option (QObject F)) :=
  let! saved := parser_context_save in
  let! token := parser_context_pop_token in
  if negb (token_is_operator token "["%char) then out saved else
  let! peek := parser_context_peek_token in
  if negb (token_is_operator peek "]"%char) then
    let! obj := parse_value in
    match obj with
    | None => fail saved ExpectingValue
    | Some o =>
        let! token := parser_context_pop_token in
        array_loop fuel saved [o] token
    end
  else
    let! _ := parser_context_pop_token in
    ret (Some (QLIST [])).
End rules.

Definition parse_keyword : M (option (QObject F)) :=
  let! saved := parser_context_save in
  let! token := parser_context_pop_token in
  if negb (bool_decide (token_get_type token = JSON_KEYWORD)) then out saved
  else if token_is_keyword token (str "true") then ret (Some (QBOOL 1))
  else if token_is_keyword token (str "false") then ret (Some (QBOOL 0))
  else fail saved (InvalidKeyword (token_get_value token)).

(** The next argument, of the type that [get] accepts. *)
Definition va_arg {A} (get : va_argument -> option A) : M A :=
  fun c => match ap c with
           | Some (a :: args) =>
               match get a with
               | Some v => Ok (v, mkContext (err c) (buf c) (pos c) (Some args))
               | None => Err OutOfBounds
               end
           | _ => Err OutOfBounds
           end.

Definition va_int (a : va_argument) : option Z := match a with VaInt i => Some i | _ => None end.
Definition va_long (a : va_argument) : option Z := match a with VaLong i => Some i | _ => None end.
Definition va_longlong (a : va_argument) : option Z :=
  match a with VaLongLong i => Some i | _ => None end.
Definition va_string (a : va_argument) : option cstring :=
  match a with VaString s => Some s | _ => None end.
Definition va_double (a : va_argument) : option F :=
  match a with VaDouble f => Some f | _ => None end.
Definition va_qobject (a : va_argument) : option (option (QObject F)) :=
  match a with VaQObject o => Some o | _ => None end.

Definition parse_escape : M (option (QObject F)) :=
  let! saved := parser_context_save in
  fun c => match ap c with
  | None => out saved c
  | Some _ =>
      (let! token := parser_context_pop_token in
       if token_is_escape token (str "%p") then va_arg va_qobject
       else if token_is_escape token (str "%i") then let! i := va_arg va_int in ret (Some (QBOOL i))
       else if token_is_escape token (str "%d") then let! i := va_arg va_int in ret (Some (QINT i))
       else if token_is_escape token (str "%ld") then let! i := va_arg va_long in ret (Some (QINT i))
       else if token_is_escape token (str "%lld") || token_is_escape token (str "%I64d")
       then let! i := va_arg va_longlong in ret (Some (QINT i))
       else if token_is_escape token (str "%s") then let! s := va_arg va_string in ret (Some (QSTRING s))
       else if token_is_escape token (str "%f") then let! f := va_arg va_double in ret (Some (QFLOAT f))
       else out saved) c
  end.

Definition parse_literal : M (option (QObject F)) :=
  let! saved := parser_context_save in
  let! token := parser_context_pop_token in
  match token_get_type token with
  | JSON_STRING => let! s := qstring_from_escaped_str token in ret (QSTRING <$> s)
  | JSON_INTEGER =>
      let '(value, erange) := strtoll (token_get_value token) in
      if erange : bool then ret (Some (QFLOAT (strtod (token_get_value token))))
      else ret (Some (QINT value))
  | JSON_FLOAT => ret (Some (QFLOAT (strtod (token_get_value token))))
  | _ => out saved
  end.

(** The next rule when the one before found nothing. *)
Definition or_else (m k : M (option (QObject F))) : M (option (QObject F)) :=
  let! obj := m in match obj with Some _ => ret obj | None => k end.

Fixpoint parse_value (fuel : nat) : M (option (QObject F)) :=
  match fuel with
  | O => fun c => Err OutOfFuel
  | S fuel' => fun c =>
      or_else (parse_object (parse_value fuel') fuel')
      (or_else (parse_array (parse_value fuel') fuel')
      (or_else parse_escape
      (or_else parse_keyword parse_literal))) c
  end.

Definition parser_context_new (toks : option (list JSONToken)) (args : option (list va_argument))
    : option JSONParserContext :=
  match toks with
  | None | Some [] => None
  | Some ts => Some (mkContext None ts 0 args)
  end.

(** The result, the error, and the arguments that are left.  Every token is
    read once on every level, so their number bounds depth and loops. *)
Definition json_parser_parse_err (toks : option (list JSONToken)) (args : option (list va_argument))
    : res (option (QObject F) * option parse_message * option (list va_argument)) :=
  match parser_context_new toks args with
  | None => Ok (None, None, args)
  | Some c =>
      let* (result, c') := parse_value (S (length (buf c))) c in
      Ok (result, err c', ap c')
  end.

(** ** The entry points of [qjson.c] *)

Record JSONParsingState : Type := mkParsing { ps_ap : option (list va_argument); ps_result : option (QObject F) }.

Definition parse_json (toks : option (list JSONToken)) (s : JSONParsingState) : res JSONParsingState :=
  let* (result, _, args) := json_parser_parse_err toks (ps_ap s) in
  Ok (mkParsing args result).

Definition qobject_from_jsonv (string : cstring) (args : option (list va_argument))
    : res (option (QObject F)) :=
  let mp := json_message_parser_init (mkParsing args None) in
  let* mp := json_message_parser_feed parse_json mp string in
  let* mp := json_message_parser_flush parse_json mp in
  Ok (ps_result mp.2.2).

Definition qobject_from_json (string : cstring) : res (option (QObject F)) :=
  qobject_from_jsonv string None.

Definition qobject_from_jsonf (string : cstring) (args : list va_argument) : res (QObject F) :=
  let* obj := qobject_from_jsonv string (Some args) in
  match obj with Some o => Ok o | None => Err AssertFailed end.
End parser.
