(* ===== verification/JsonText.v ===== *)
(** * JSON: characters and numbers in text

    The decoder [mod_utf8_codepoint] accepts exactly the encodings of valid
    codepoints; what the printer writes for a character or for an integer is
    what the parser reads back. *)

From Stdlib Require Import Ascii String List.
From stdpp Require Import base numbers list.
From S2P Require Import Prelude Qdict JsonLexer Json JsonParser.

(** A decidable property of all numbers of [k] bits behind [base], by
    evaluation. *)
Fixpoint all_bits (P : Z -> bool) (k : nat) (base : Z) : bool :=
  match k with
  | O => P base
  | S k' => all_bits P k' (2 * base) && all_bits P k' (2 * base + 1)
  end.

Lemma all_bits_ok P k : forall base, all_bits P k base = true ->
  forall z, base * 2 ^ Z.of_nat k <= z < (base + 1) * 2 ^ Z.of_nat k -> P z = true.
Proof.
  induction k as [|k IH]; intros base H z Hz; cbn in H.
  - replace z with base by lia. done.
  - apply andb_prop in H as [H0 H1]. rewrite Nat2Z.inj_succ, Z.pow_succ_r in Hz by lia.
    destruct (Z_lt_le_dec z ((2 * base + 1) * 2 ^ Z.of_nat k)).
    + apply (IH (2 * base)); [done|]. lia.
    + apply (IH (2 * base + 1)); [done|]. lia.
Qed.

Lemma below (P : Z -> Prop) {D : forall z, Decision (P z)} (k : nat) :
  all_bits (fun z => bool_decide (P z)) k 0 = true -> forall z, 0 <= z < 2 ^ Z.of_nat k -> P z.
Proof. intros H z Hz. apply (bool_decide_eq_true (P z)), (all_bits_ok _ k 0 H). lia. Qed.

(** ** UTF-8 *)

Definition utf8 (cp : Z) : cstring :=
  if cp <? 0x80 then [cp]
  else if cp <? 0x800 then [0xC0 + cp / 64; 0x80 + cp mod 64]
  else if cp <? 0x10000 then [0xE0 + cp / 4096; 0x80 + cp / 64 mod 64; 0x80 + cp mod 64]
  else [0xF0 + cp / 262144; 0x80 + cp / 4096 mod 64; 0x80 + cp / 64 mod 64; 0x80 + cp mod 64].

(** Modified UTF-8: the codepoint 0 is not a zero byte. *)
Definition mod_utf8 (cp : Z) : cstring := if cp =? 0 then [0xC0; 0x80] else utf8 cp.

Definition noncharacter (cp : Z) : Prop := 0xFDD0 <= cp <= 0xFDEF \/ 0xFFFE <= cp mod 0x10000.
Definition surrogate (cp : Z) : Prop := 0xD800 <= cp <= 0xDFFF.
Definition valid_cp (cp : Z) : Prop :=
  0 <= cp <= 0x10FFFF /\ ~ noncharacter cp /\ ~ surrogate cp.

Definition is_byte (b : Z) : Prop := 0 < b < 256.
Definition is_cont (b : Z) : Prop := 0x80 <= b < 0xC0.

Definition byte_class (b : Z) : Z * Z * Z :=
  if b <? 0xE0 then (2, 0x20, b - 0xC0)
  else if b <? 0xF0 then (3, 0x10, b - 0xE0)
  else if b <? 0xF8 then (4, 0x08, b - 0xF0)
  else if b <? 0xFC then (5, 0x04, b - 0xF8)
  else (6, 0x02, b - 0xFC).

Lemma lead_ones_class b : 0xC0 <= b < 0xFE ->
  (lead_ones 8 b 0x80 0, Z.land b ((lead_ones 8 b 0x80 0).2 - 1)) = byte_class b.
Proof.
  intros Hb. refine (below (fun b => 0xC0 <= b < 0xFE ->
    (lead_ones 8 b 0x80 0, Z.land b ((lead_ones 8 b 0x80 0).2 - 1)) = byte_class b) 8 _ b _ Hb);
    [by vm_compute|cbn; lia].
Qed.

Lemma cont_check b : 0 <= b < 256 ->
  (Z.land b 0xC0 =? 0x80) = ((0x80 <=? b) && (b <? 0xC0)) /\ Z.land b 0x3F = b mod 64 /\
  (Z.land b 0x40 =? 0) = (b mod 128 <? 64).
Proof.
  apply (below (fun b => (Z.land b 0xC0 =? 0x80) = ((0x80 <=? b) && (b <? 0xC0)) /\
    Z.land b 0x3F = b mod 64 /\ (Z.land b 0x40 =? 0) = (b mod 128 <? 64)) 8).
  by vm_compute.
Qed.

Lemma land_FFFE cp : 0 <= cp -> (Z.land cp 0xFFFE =? 0xFFFE) = (0xFFFE <=? cp mod 0x10000).
Proof.
  intros Hcp. assert (Z.land cp 0xFFFE = Z.shiftl (Z.land (Z.shiftr cp 1) (Z.ones 15)) 1) as ->.
  { apply Z.bits_inj'. intros n Hn. rewrite Z.land_spec.
    destruct (Z.eq_dec n 0) as [->|]; [by rewrite Z.shiftl_spec_low, andb_false_r by lia|].
    rewrite Z.shiftl_spec, Z.land_spec, Z.shiftr_spec, Z.sub_add by lia. f_equal.
    change 0xFFFE with (Z.shiftl (Z.ones 15) 1). by rewrite Z.shiftl_spec. }
  rewrite Z.shiftl_mul_pow2, Z.land_ones, Z.shiftr_div_pow2 by lia.
  change (2 ^ 1) with 2. change (2 ^ 15) with 32768.
  apply eq_true_iff_eq. rewrite Z.eqb_eq, Z.leb_le. dlia.
Qed.

(** The value of continuation bytes behind the bits [cp]. *)
Fixpoint cont_value (bs : list Z) (cp : Z) : Z :=
  match bs with [] => cp | b :: bs' => cont_value bs' (cp * 64 + (b - 0x80)) end.

Lemma cont_step cp b : 0 <= cp -> is_cont b ->
  Z.lor (Z.shiftl cp 6) (Z.land b 0x3F) = cp * 64 + (b - 0x80).
Proof.
  intros Hcp Hb. unfold is_cont in Hb. destruct (cont_check b ltac:(lia)) as (_ & -> & _).
  rewrite lor_concat by dlia. change (2 ^ 6) with 64. dlia.
Qed.

Lemma continuation_complete bs r : forall n cp, 0 <= cp -> Forall is_cont bs ->
  Z.of_nat (length bs) <= n ->
  continuation (length bs) n cp (bs ++ r) = (cont_value bs cp, r, false).
Proof.
  induction bs as [|b bs IH]; intros n cp Hcp Hbs Hn; [done|].
  apply Forall_cons in Hbs as [Hb Hbs]. cbn [length continuation app] in *.
  rewrite (proj2 (Z.ltb_lt 0 n)) by lia.
  unfold is_cont in Hb. destruct (cont_check b ltac:(lia)) as (-> & _ & _).
  rewrite (proj2 (Z.leb_le 0x80 b)), (proj2 (Z.ltb_lt b 0xC0)) by lia. cbn [andb negb tail].
  rewrite cont_step by done. rewrite IH by (done || lia). done.
Qed.

Lemma continuation_sound todo : forall n cp p cp' p', 0 <= cp -> Forall is_byte p ->
  continuation todo n cp p = (cp', p', false) ->
  exists bs, p = bs ++ p' /\ length bs = todo /\ Forall is_cont bs /\ cp' = cont_value bs cp.
Proof.
  induction todo as [|todo IH]; intros n cp p cp' p' Hcp Hp H; cbn in H.
  { injection H as <- <-. by exists []. }
  destruct (0 <? n); [|done].
  destruct p as [|b p]; [done|]. apply Forall_cons in Hp as [Hb Hp]. unfold is_byte in Hb.
  destruct (cont_check b ltac:(lia)) as (E & _ & _). rewrite E in H.
  destruct ((0x80 <=? b) && (b <? 0xC0)) eqn:Hc; [|done]. cbn [negb tail] in H.
  assert (is_cont b) by (unfold is_cont; lia). rewrite cont_step in H by done.
  apply IH in H as (bs & -> & Hl & Hbs & ->); [|unfold is_cont in *; lia|done].
  exists (b :: bs). cbn. split_and!; [done|lia|by constructor|done].
Qed.

(** What the decoder does with a sequence of [len] bytes that is complete. *)
Definition check_cp (len cp : Z) : Z :=
  if 0x10FFFF <? cp then -1
  else if ((0xFDD0 <=? cp) && (cp <=? 0xFDEF)) || (0xFFFE <=? cp mod 0x10000) then -1
  else if (0xD800 <=? cp) && (cp <=? 0xDFFF) then -1
  else if (cp <? min_cp len) && negb ((cp =? 0) && (len =? 2)) then -1
  else cp.

Lemma cont_value_nonneg bs : forall cp, 0 <= cp -> Forall is_cont bs -> 0 <= cont_value bs cp.
Proof.
  induction bs as [|b bs IH]; intros cp Hcp Hbs; [done|]. apply Forall_cons in Hbs as [Hb Hbs].
  apply IH; [|done]. unfold is_cont in Hb. lia.
Qed.

Lemma multibyte b p : 0xC0 <= b < 0xFE -> exists len mask bits,
  byte_class b = (len, mask, bits) /\ 2 <= len <= 6 /\ 0 <= bits /\
  mod_utf8_codepoint (b :: p) 6 =
  (let '(cp, p', missing) := continuation (Z.to_nat (len - 1)) 5 bits p in
   if missing : bool then (-1, p') else
   if 0x10FFFF <? cp then (-1, p')
   else if ((0xFDD0 <=? cp) && (cp <=? 0xFDEF)) || (Z.land cp 0xFFFE =? 0xFFFE) then (-1, p')
   else if (0xD800 <=? cp) && (cp <=? 0xDFFF) then (-1, p')
   else if (cp <? min_cp len) && negb ((cp =? 0) && (len =? 2)) then (-1, p')
   else (cp, p')).
Proof.
  intros Hb. pose proof (lead_ones_class b Hb) as Hc.
  destruct (lead_ones 8 b 0x80 0) as [len mask] eqn:El. cbn [snd] in Hc.
  exists len, mask, (Z.land b (mask - 1)). split; [done|].
  assert (Hr : 2 <= len <= 6).
  { revert Hc. unfold byte_class. zcases; intros [= -> -> ?]; lia. }
  split; [done|]. split.
  { revert Hc. unfold byte_class. zcases; intros [= -> -> ->]; lia. }
  cbn [mod_utf8_codepoint]. change (6 =? 0) with false.
  destruct (cont_check b ltac:(lia)) as (_ & _ & ->).
  rewrite (proj2 (Z.ltb_ge b 0x80)), (proj2 (Z.leb_gt 0xFE b)), (proj2 (Z.ltb_ge (b mod 128) 64)) by dlia.
  by rewrite El.
Qed.

Lemma multibyte_complete b bs r len mask bits : 0xC0 <= b < 0xFE ->
  byte_class b = (len, mask, bits) -> Forall is_cont bs -> Z.of_nat (length bs) = len - 1 ->
  mod_utf8_codepoint (b :: bs ++ r) 6 = (check_cp len (cont_value bs bits), r).
Proof.
  intros Hb Hc Hbs Hl.
  destruct (multibyte b (bs ++ r) Hb) as (len' & mask' & bits' & Hc' & Hr & Hbits & ->).
  rewrite Hc in Hc'. injection Hc' as <- <- <-.
  replace (Z.to_nat (len - 1)) with (length bs) by lia.
  rewrite continuation_complete by (done || lia).
  rewrite land_FFFE by (by apply cont_value_nonneg). unfold check_cp. by repeat case_match.
Qed.

Lemma mod_utf8_decode cp r : valid_cp cp ->
  mod_utf8_codepoint (mod_utf8 cp ++ r) 6 = (cp, r).
Proof.
  intros (Hcp & Hn & Hs). unfold noncharacter, surrogate in *. unfold mod_utf8.
  destruct (Z.eqb_spec cp 0) as [->|H0]; [by vm_compute|]. unfold utf8.
  destruct (Z.ltb_spec cp 0x80).
  { cbn. by rewrite (proj2 (Z.ltb_lt cp 0x80)). }
  destruct (Z.ltb_spec cp 0x800); [|destruct (Z.ltb_spec cp 0x10000)]; cbn [app].
  all: lazymatch goal with
  | |- mod_utf8_codepoint (?b :: ?c1 :: ?c2 :: ?c3 :: ?t) _ = _ =>
      change (c1 :: c2 :: c3 :: t) with ([c1; c2; c3] ++ t)
  | |- mod_utf8_codepoint (?b :: ?c1 :: ?c2 :: ?t) _ = _ => change (c1 :: c2 :: t) with ([c1; c2] ++ t)
  | |- mod_utf8_codepoint (?b :: ?c1 :: ?t) _ = _ => change (c1 :: t) with ([c1] ++ t) end.
  all: erewrite multibyte_complete; [| dlia | unfold byte_class; zcases; first [exfalso; dlia|reflexivity]
    | rewrite ?Forall_cons, ?Forall_nil; unfold is_cont; split_and?; first [done|dlia] | cbn; lia].
  all: f_equal; cbn [cont_value].
  all: match goal with |- check_cp ?l ?v = _ => replace v with cp by dlia end.
  all: unfold check_cp, min_cp; zcases; lia.
Qed.

Lemma check_cp_ok len v cp : 0 <= v -> check_cp len v = cp -> 0 <= cp ->
  v = cp /\ valid_cp cp /\ (min_cp len <= cp \/ cp = 0 /\ len = 2).
Proof.
  intros Hv. unfold check_cp, valid_cp, noncharacter, surrogate. zcases; intros; subst; lia.
Qed.

(** The bytes of a sequence of every length, from its value. *)
Lemma encode_bytes b bs len mask bits cp : 0xC0 <= b < 0xFE -> byte_class b = (len, mask, bits) ->
  Forall is_cont bs -> length bs = Z.to_nat (len - 1) -> cont_value bs bits = cp ->
  0 <= cp <= 0x10FFFF -> (min_cp len <= cp \/ cp = 0 /\ len = 2) -> b :: bs = mod_utf8 cp.
Proof.
  intros Hb Hc Hbs Hl Hv Hcp Hmin. revert Hc. unfold byte_class.
  destruct (Z.ltb_spec b 0xE0); [|destruct (Z.ltb_spec b 0xF0); [|destruct (Z.ltb_spec b 0xF8);
    [|destruct (Z.ltb_spec b 0xFC)]]]; intros [= <- <- <-]; cbn in Hl, Hmin;
    destruct bs as [|b1 [|b2 [|b3 [|b4 [|b5 [|]]]]]]; try discriminate Hl;
    rewrite ?Forall_cons in Hbs; unfold is_cont in Hbs; cbn [cont_value] in Hv;
    unfold mod_utf8, utf8; zcases; try lia; repeat f_equal; dlia.
Qed.

Lemma decode_sound s cp r : Forall is_byte s -> mod_utf8_codepoint s 6 = (cp, r) -> 0 <= cp ->
  valid_cp cp /\ s = mod_utf8 cp ++ r.
Proof.
  intros Hs H Hcp. destruct s as [|b p]; [injection H; lia|].
  apply Forall_cons in Hs as [Hb Hp]. unfold is_byte in Hb.
  destruct (Z_lt_le_dec b 0x80) as [Hlo|Hhi].
  { cbn in H. rewrite (proj2 (Z.ltb_lt b 0x80)) in H by done. injection H as -> ->.
    split; [unfold valid_cp, noncharacter, surrogate; rewrite Z.mod_small; lia|].
    unfold mod_utf8, utf8. rewrite (proj2 (Z.eqb_neq cp 0)), (proj2 (Z.ltb_lt cp 0x80)) by lia. done. }
  destruct (decide (0xC0 <= b < 0xFE)) as [Hm|Hm].
  2: { exfalso. cbn [mod_utf8_codepoint] in H. change (6 =? 0) with false in H.
       destruct (cont_check b ltac:(lia)) as (_ & _ & E). rewrite E in H.
       rewrite (proj2 (Z.ltb_ge b 0x80)) in H by lia.
       destruct (Z.leb_spec 0xFE b); [injection H; lia|].
       rewrite (proj2 (Z.ltb_lt (b mod 128) 64)) in H by dlia. injection H; lia. }
  destruct (multibyte b p Hm) as (len & mask & bits & Hc & Hlen & Hbits & E). rewrite E in H. clear E.
  destruct (continuation (Z.to_nat (len - 1)) 5 bits p) as [[v p'] [|]] eqn:Hk; [injection H; lia|].
  apply continuation_sound in Hk as (bs & -> & Hl & Hbs & ->); [|done..].
  assert (Hnn : 0 <= cont_value bs bits) by by apply cont_value_nonneg.
  rewrite land_FFFE in H by done.
  assert (Hck : check_cp len (cont_value bs bits) = cp /\ p' = r).
  { unfold check_cp. by repeat case_match; injection H as <- <-. }
  destruct Hck as [Hck ->]. apply check_cp_ok in Hck as (Hv & Hok & Hmin); [|done..].
  split; [done|]. change (b :: bs ++ r) with ((b :: bs) ++ r). f_equal.
  eapply encode_bytes; try done. apply Hok.
Qed.

(** The decoder and the encoding of modified UTF-8 agree. *)
Lemma decode_iff s cp r : Forall is_byte s -> 0 <= cp ->
  mod_utf8_codepoint s 6 = (cp, r) <-> valid_cp cp /\ s = mod_utf8 cp ++ r.
Proof.
  intros Hs Hcp. split; [by intros; apply decode_sound|].
  intros [Hv ->]. by apply mod_utf8_decode.
Qed.

Lemma continuation_suffix todo : forall n c p c' p' m, 0 <= c -> continuation todo n c p = (c', p', m) ->
  (exists pre, p = pre ++ p') /\ (m = false -> 0 <= c').
Proof.
  induction todo as [|todo IH]; intros n c p c' p' m Hc H; cbn in H.
  { injection H as <- <- <-. split; [by exists []|done]. }
  destruct (negb _) eqn:E in H; [injection H as <- <- <-; split; [by exists []|done]|].
  apply IH in H as [[pre Hp] Hc'].
  - split; [|done]. destruct p as [|b p]; cbn in Hp; [|exists (b :: pre); cbn; by rewrite <- Hp].
    destruct (0 <? n); cbn in E; discriminate E.
  - apply Z.lor_nonneg. split; [by apply Z.shiftl_nonneg|apply Z.land_nonneg; lia].
Qed.

(** Every call reads at least one byte. *)
Lemma decode_progress s cp r : Forall is_byte s -> s <> [] -> mod_utf8_codepoint s 6 = (cp, r) ->
  (exists pre, s = pre ++ r /\ pre <> []) /\ -1 <= cp <= 0x10FFFF.
Proof.
  intros Hs Hne H.
  destruct s as [|b p]; [done|]. apply Forall_cons in Hs as [Hb Hp]. unfold is_byte in Hb.
  cbn [mod_utf8_codepoint] in H. change (6 =? 0) with false in H.
  destruct (Z.ltb_spec b 0x80).
  { injection H as <- <-. split; [by exists [b]|lia]. }
  destruct (0xFE <=? b); [injection H as <- <-; split; [by exists [b]|lia]|].
  destruct (Z.land b 0x40 =? 0); [injection H as <- <-; split; [by exists [b]|lia]|].
  destruct (lead_ones 8 b 0x80 0) as [len mask] eqn:El.
  destruct (continuation _ _ _ p) as [[c p'] m] eqn:Ek.
  apply continuation_suffix in Ek as [[pre ->] Hc]; [|apply Z.land_nonneg; lia].
  assert (Hpre : exists pre', b :: pre ++ p' = pre' ++ p' /\ pre' <> []) by by exists (b :: pre).
  destruct m; [injection H as <- <-; split; [done|lia]|]. specialize (Hc eq_refl).
  destruct (Z.ltb_spec 0x10FFFF c); [injection H as <- <-; split; [done|lia]|].
  repeat case_match; injection H as <- <-; split; done || lia.
Qed.

(** ** Strings *)

(** The characters of a string as the printer sees them; -1 is an invalid
    sequence. *)
Fixpoint codepoints_fuel (fuel : nat) (s : cstring) : list Z :=
  match fuel, s with
  | S fuel', _ :: _ => let '(cp, r) := mod_utf8_codepoint s 6 in cp :: codepoints_fuel fuel' r
  | _, _ => []
  end.
Definition codepoints (s : cstring) : list Z := codepoints_fuel (length s) s.

Lemma codepoints_more s : Forall is_byte s ->
  forall fuel, (length s <= fuel)%nat -> codepoints_fuel fuel s = codepoints s.
Proof.
  unfold codepoints. induction s as [s IH] using (induction_ltof1 _ (@length Z)). unfold ltof in IH.
  intros Hs fuel Hf. destruct s as [|b p]; [by destruct fuel|].
  destruct fuel as [|fuel]; [cbn in Hf; lia|]. cbn [length codepoints_fuel].
  destruct (mod_utf8_codepoint (b :: p) 6) as [cp r] eqn:E.
  apply decode_progress in E as [[pre [Hpre Hne]] _]; [|done..].
  rewrite Hpre in Hs. apply Forall_app in Hs as [_ Hr].
  assert (length r <= length p)%nat.
  { apply (f_equal length) in Hpre. rewrite length_app in Hpre. destruct pre; [done|]. cbn in *. lia. }
  cbn in Hf. f_equal. transitivity (codepoints_fuel (length r) r); [|symmetry]; apply IH; cbn; done || lia.
Qed.

Lemma codepoints_cons s cp r : Forall is_byte s -> s <> [] -> mod_utf8_codepoint s 6 = (cp, r) ->
  codepoints s = cp :: codepoints r /\ Forall is_byte r /\ (length r < length s)%nat.
Proof.
  intros Hs Hne E. pose proof E as E'. apply decode_progress in E' as [[pre [Hpre Hpne]] _]; [|done..].
  assert (Hr : Forall is_byte r) by (rewrite Hpre in Hs; by apply Forall_app in Hs as [_ ?]).
  assert (length r < length s)%nat.
  { rewrite Hpre, length_app. destruct pre; [done|]. cbn. lia. }
  split; [|done]. destruct s as [|b p]; [done|].
  unfold codepoints at 1. cbn [length codepoints_fuel]. rewrite E. f_equal.
  apply codepoints_more; [done|]. cbn in *. lia.
Qed.

Lemma print_chars_text s : Forall is_byte s -> forall fuel t, (length s <= fuel)%nat ->
  print_chars fuel s t = t ++ concat (map print_codepoint (codepoints s)).
Proof.
  induction s as [s IH] using (induction_ltof1 _ (@length Z)). unfold ltof in IH.
  intros Hs fuel t Hf. destruct s as [|b p]; [destruct fuel; cbn; by rewrite app_nil_r|].
  destruct fuel as [|fuel]; [cbn in Hf; lia|]. cbn [print_chars].
  destruct (mod_utf8_codepoint (b :: p) 6) as [cp r] eqn:E.
  apply codepoints_cons in E as (-> & Hr & Hlt); [|done..].
  cbn in Hf, Hlt. rewrite IH by (cbn; done || lia). cbn. by rewrite app_assoc.
Qed.

Lemma print_string_text s t : Forall is_byte s ->
  print_string s t = t ++ [c_dquote] ++ concat (map print_codepoint (codepoints s)) ++ [c_dquote].
Proof.
  intros Hs. unfold print_string. rewrite print_chars_text by done. by rewrite <- !app_assoc.
Qed.

(** What the parser reads for a character of the printer. *)
Definition read_back (cp : Z) : cstring :=
  if cp <? 0 then utf8 0xFFFD
  else if cp =? 0 then []
  else if cp <=? 0xFFFF then utf8 cp
  else utf8 (0xD800 + (cp - 0x10000) / 1024) ++ utf8 (0xDC00 + (cp - 0x10000) mod 1024).

Lemma hex_digit_read d : 0 <= d < 16 ->
  isxdigit (hex_digit d) = true /\ hex2decimal (hex_digit d) = d.
Proof.
  apply (below (fun d => isxdigit (hex_digit d) = true /\ hex2decimal (hex_digit d) = d) 4).
  by vm_compute.
Qed.

Lemma nibbles a b c d : 0 <= a < 16 -> 0 <= b < 16 -> 0 <= c < 16 -> 0 <= d < 16 ->
  Z.lor (Z.lor (Z.lor (Z.shiftl a 12) (Z.shiftl b 8)) (Z.shiftl c 4)) d =
  a * 4096 + b * 256 + c * 16 + d.
Proof.
  intros. rewrite (Z.shiftl_mul_pow2 b), (Z.shiftl_mul_pow2 c) by lia. rewrite lor_concat by lia.
  replace (a * 2 ^ 12 + b * 2 ^ 8) with (Z.shiftl (a * 16 + b) 8) by (rewrite Z.shiftl_mul_pow2; lia).
  rewrite lor_concat by lia.
  replace ((a * 16 + b) * 2 ^ 8 + c * 2 ^ 4) with (Z.shiftl ((a * 16 + b) * 16 + c) 4)
    by (rewrite Z.shiftl_mul_pow2; lia).
  rewrite lor_concat by lia. lia.
Qed.

Lemma land_mod v k w : 0 <= k -> 0 <= w -> Z.land (Z.shiftr v k) (Z.ones w) = v / 2 ^ k mod 2 ^ w.
Proof. intros. by rewrite Z.land_ones, Z.shiftr_div_pow2. Qed.

Lemma hex4_digits v : 0 <= v < 65536 ->
  hex4 v = [hex_digit (v / 4096); hex_digit (v / 256 mod 16); hex_digit (v / 16 mod 16); hex_digit (v mod 16)].
Proof.
  intros Hv. unfold hex4. change 15 with (Z.ones 4). rewrite !land_mod, Z.land_ones by lia.
  repeat f_equal. change (v / 4096 mod 16 = v / 4096). dlia.
Qed.

Lemma hex4_read v : 0 <= v < 65536 -> exists a b c d, hex4 v = [a; b; c; d] /\
  isxdigit a && isxdigit b && isxdigit c && isxdigit d = true /\ hex4_value a b c d = v.
Proof.
  intros Hv. rewrite hex4_digits by done. do 4 eexists. split; [reflexivity|].
  destruct (hex_digit_read (v / 4096) ltac:(dlia)) as [-> E1].
  destruct (hex_digit_read (v / 256 mod 16) ltac:(dlia)) as [-> E2].
  destruct (hex_digit_read (v / 16 mod 16) ltac:(dlia)) as [-> E3].
  destruct (hex_digit_read (v mod 16) ltac:(dlia)) as [-> E4].
  split; [done|]. unfold hex4_value. rewrite E1, E2, E3, E4, nibbles by dlia.
  rewrite uwrap_small; [|change (2 ^ 16) with 65536]; dlia.
Qed.

Lemma lor_tag x : (0 <= x < 32 -> Z.lor 0xC0 x = 0xC0 + x) /\ (0 <= x < 64 -> Z.lor 0x80 x = 0x80 + x) /\
  (0 <= x < 16 -> Z.lor 0xE0 x = 0xE0 + x).
Proof.
  split_and!; intros Hx.
  - apply (below (fun x => Z.lor 0xC0 x = 0xC0 + x) 5); [by vm_compute|done].
  - apply (below (fun x => Z.lor 0x80 x = 0x80 + x) 6); [by vm_compute|done].
  - apply (below (fun x => Z.lor 0xE0 x = 0xE0 + x) 4); [by vm_compute|done].
Qed.

Lemma wchar_utf8 v : 0 <= v < 65536 -> wchar_to_utf8 v = if v =? 0 then [] else utf8 v.
Proof.
  intros Hv. unfold wchar_to_utf8, utf8. change 0x3F with (Z.ones 6). change 0x1F with (Z.ones 5).
  change 0x0F with (Z.ones 4). change (Z.land v 0x7F) with (Z.land v (Z.ones 7)). rewrite !land_mod, !Z.land_ones by lia.
  change (2 ^ 7) with 128. change (2 ^ 6) with 64. change (2 ^ 5) with 32. change (2 ^ 4) with 16.
  change (2 ^ 12) with 4096.
  rewrite (proj1 (lor_tag (v / 64 mod 32))), !(proj1 (proj2 (lor_tag _))), (proj2 (proj2 (lor_tag (v / 4096 mod 16)))) by dlia.
  zcases; try lia; try (exfalso; dlia); repeat f_equal; dlia.
Qed.

(** The escape of a 16-bit unit is read back as the bytes of the unit. *)
Lemma unescape_u v r acc : 0 <= v < 65536 ->
  unescape c_dquote ([c_backslash; chr "u"] ++ hex4 v ++ r) acc =
  unescape c_dquote r (acc ++ if v =? 0 then [] else utf8 v).
Proof.
  intros Hv. destruct (hex4_read v Hv) as (a & b & c & d & -> & Hx & Hval).
  rewrite <- (wchar_utf8 v Hv), <- Hval. cbn -[isxdigit hex4_value wchar_to_utf8]. by rewrite Hx.
Qed.

Lemma unescape_plain cp r acc : cp <> c_dquote -> cp <> c_backslash ->
  unescape c_dquote ([cp] ++ r) acc = unescape c_dquote r (acc ++ [cp]).
Proof.
  intros H1 H2. cbn [app unescape]. by rewrite (proj2 (Z.eqb_neq cp _) H1), (proj2 (Z.eqb_neq cp _) H2).
Qed.

Ltac eq_case a b := destruct (Z.eqb_spec a b) as [->|]; [try reflexivity|].

Lemma unescape_print cp r acc : -1 <= cp <= 0x10FFFF ->
  unescape c_dquote (print_codepoint cp ++ r) acc = unescape c_dquote r (acc ++ read_back cp).
Proof.
  intros Hcp. unfold print_codepoint, read_back.
  eq_case cp c_dquote. eq_case cp c_backslash. eq_case cp 8. eq_case cp 12.
  eq_case cp c_newline. eq_case cp c_return. eq_case cp c_tab.
  destruct (Z.ltb_spec cp 0) as [Hneg|Hneg].
  { cbn -[hex4 unescape app utf8]. rewrite <- app_assoc. by rewrite unescape_u. }
  destruct (Z.ltb_spec 0xFFFF cp) as [Hbig|Hbig].
  - rewrite (proj2 (Z.eqb_neq cp 0)), (proj2 (Z.leb_gt cp 0xFFFF)) by lia.
    change 0x3FF with (Z.ones 10). rewrite Z.land_ones, Z.shiftr_div_pow2 by lia.
    change (2 ^ 10) with 1024. rewrite <- !app_assoc.
    rewrite unescape_u by dlia. rewrite <- ?app_assoc, unescape_u by dlia.
    rewrite !(proj2 (Z.eqb_neq _ 0)) by dlia. by rewrite app_assoc.
  - rewrite (proj2 (Z.leb_le cp 0xFFFF)) by lia.
    destruct (Z.ltb_spec cp 0x20); cbn [orb].
    { rewrite <- app_assoc, unescape_u by lia. done. }
    destruct (Z.leb_spec 0x7F cp).
    { rewrite <- app_assoc, unescape_u by lia. done. }
    rewrite unescape_plain by done. rewrite (proj2 (Z.eqb_neq cp 0)) by lia.
    unfold utf8. by rewrite (proj2 (Z.ltb_lt cp 0x80)) by lia.
Qed.

Lemma codepoints_range s : Forall is_byte s -> Forall (fun cp => -1 <= cp <= 0x10FFFF) (codepoints s).
Proof.
  induction s as [s IH] using (induction_ltof1 _ (@length Z)). unfold ltof in IH. intros Hs.
  destruct s as [|b p]; [constructor|].
  destruct (mod_utf8_codepoint (b :: p) 6) as [cp r] eqn:E.
  pose proof (decode_progress _ _ _ Hs ltac:(done) E) as [_ Hcp].
  apply codepoints_cons in E as (-> & Hr & Hlt); [|done..]. constructor; [done|by apply IH].
Qed.

Lemma unescape_chars cps r acc : Forall (fun cp => -1 <= cp <= 0x10FFFF) cps ->
  unescape c_dquote (concat (map print_codepoint cps) ++ r) acc =
  unescape c_dquote r (acc ++ concat (map read_back cps)).
Proof.
  revert acc. induction cps as [|cp cps IH]; intros acc H; cbn [map concat].
  - by rewrite app_nil_r.
  - apply Forall_cons in H as [H1 H2]. rewrite <- app_assoc, unescape_print, IH by done.
    by rewrite <- app_assoc.
Qed.

(** The text of a string is read back character by character. *)
Lemma unescape_string s : Forall is_byte s ->
  unescape c_dquote (concat (map print_codepoint (codepoints s)) ++ [c_dquote]) [] =
  inr (concat (map read_back (codepoints s))).
Proof. intros Hs. rewrite unescape_chars by by apply codepoints_range. done. Qed.

(** Strings that survive: valid characters below [U+10000] other than 0. *)
Definition clean (s : cstring) : Prop :=
  Forall is_byte s /\ Forall (fun cp => 0 < cp <= 0xFFFF) (codepoints s).

Lemma read_back_clean s : clean s -> concat (map read_back (codepoints s)) = s.
Proof.
  induction s as [s IH] using (induction_ltof1 _ (@length Z)). unfold ltof in IH. intros [Hs Hc].
  destruct s as [|b p]; [done|].
  destruct (mod_utf8_codepoint (b :: p) 6) as [cp r] eqn:E.
  pose proof E as E'. apply codepoints_cons in E' as (E1 & Hr & Hlt); [|done..]. rewrite E1 in *.
  apply Forall_cons in Hc as [Hcp Hc]. apply decode_sound in E as [_ Hsp]; [|done|lia].
  cbn [map concat]. rewrite (IH r) by (done || by split).
  rewrite Hsp. f_equal. unfold read_back, mod_utf8.
  rewrite (proj2 (Z.ltb_ge cp 0)), (proj2 (Z.eqb_neq cp 0)), (proj2 (Z.leb_le cp 0xFFFF)) by lia. done.
Qed.

(** The text of a character is printable. *)
Definition printable (c : Z) : Prop := 0x20 <= c < 0x7F.

Lemma hex4_printable v : 0 <= v < 65536 -> Forall printable (hex4 v).
Proof.
  intros Hv. rewrite hex4_digits by done.
  assert (forall d, 0 <= d < 16 -> printable (hex_digit d)) as H.
  { apply (below (fun d => 0x20 <= hex_digit d < 0x7F) 4). by vm_compute. }
  repeat apply Forall_cons_2; try apply Forall_nil_2; apply H; dlia.
Qed.

Lemma print_codepoint_printable cp : -1 <= cp <= 0x10FFFF -> Forall printable (print_codepoint cp).
Proof.
  intros Hcp. unfold print_codepoint.
  assert (forall a b, printable a -> printable b -> Forall printable [a; b]) as H2
    by (intros; by repeat apply Forall_cons_2; try apply Forall_nil_2).
  repeat (case_match; [apply H2; split; done|]).
  assert (Hu : Forall printable [c_backslash; chr "u"]) by (apply H2; split; done).
  set (cp' := if cp <? 0 then 0xFFFD else cp).
  assert (Hcp' : 0 <= cp' <= 0x10FFFF) by (unfold cp'; zcases; lia).
  destruct (Z.ltb_spec 0xFFFF cp').
  - change 0x3FF with (Z.ones 10). rewrite Z.land_ones, Z.shiftr_div_pow2 by lia.
    change (2 ^ 10) with 1024. rewrite !Forall_app. split_and!; try done; apply hex4_printable; dlia.
  - destruct ((cp' <? 0x20) || (0x7F <=? cp')) eqn:E.
    + apply Forall_app. split; [done|]. apply hex4_printable. lia.
    + apply Forall_cons_2; [unfold printable; lia|by apply Forall_nil_2].
Qed.

(** ** Integers *)

Lemma digits_value_app a b acc : Forall (fun c => is_digit c = true) a ->
  digits_value (a ++ b) acc = digits_value b (digits_value a acc).
Proof.
  revert acc. induction a as [|c a IH]; intros acc H; [done|].
  apply Forall_cons in H as [Hc Ha]. cbn [app digits_value]. rewrite Hc. by apply IH.
Qed.

Lemma is_digit_mod n : is_digit (n mod 10 + "0"%char) = true.
Proof.
  unfold is_digit, between. change (chr "0") with 48. change (chr "9") with 57.
  pose proof (Z.mod_pos_bound n 10 eq_refl). lia.
Qed.

Lemma digits_rev_ok fuel : forall n, 0 <= n < 10 ^ Z.of_nat fuel -> (0 < fuel)%nat ->
  Forall (fun c => is_digit c = true) (digits_rev fuel n) /\
  digits_value (rev (digits_rev fuel n)) 0 = n /\
  (exists ds d, digits_rev fuel n = ds ++ [d + "0"%char] /\ 0 <= d < 10 /\ (d = 0 -> ds = [] /\ n = 0)).
Proof.
  induction fuel as [|fuel IH]; intros n Hn Hf; [lia|]. cbn [digits_rev].
  destruct (Z.ltb_spec n 10) as [Hlt|Hge].
  - assert (Hm : n mod 10 = n) by (apply Z.mod_small; lia).
    split_and!; [apply Forall_cons_2; [apply is_digit_mod|by apply Forall_nil_2]| |].
    + cbn [rev app digits_value]. rewrite is_digit_mod. lia.
    + exists [], n. rewrite Hm. split_and!; [done|lia..|]. intros ->. done.
  - rewrite Nat2Z.inj_succ, Z.pow_succ_r in Hn by lia.
    assert (Hf' : (0 < fuel)%nat) by (destruct fuel; [cbn in Hn|]; lia).
    assert (Hn' : 0 <= n / 10 < 10 ^ Z.of_nat fuel).
    { split; [apply Z.div_pos; lia|]. apply Z.div_lt_upper_bound; lia. }
    destruct (IH (n / 10) Hn' Hf') as (Hd & Hv & ds & d & E & Hd' & H0). split_and!.
    + apply Forall_cons_2; [apply is_digit_mod|done].
    + cbn [rev]. rewrite digits_value_app by by apply Forall_rev. rewrite Hv.
      cbn [digits_value]. rewrite is_digit_mod. dlia.
    + rewrite E. exists (n mod 10 + "0"%char :: ds), d. split_and!; [done|lia..|].
      intros Hz. destruct (H0 Hz) as [_ Hz']. dlia.
Qed.

Lemma digits_fuel n : 0 <= n -> n < 10 ^ Z.of_nat (S (Z.to_nat (Z.log2 n))).
Proof.
  intros Hn. destruct (Z.eq_dec n 0) as [->|]; [by vm_compute|].
  pose proof (Z.log2_nonneg n). pose proof (Z.log2_spec n ltac:(lia)) as [_ Hlog].
  rewrite Nat2Z.inj_succ, Z2Nat.id by done.
  eapply Z.lt_le_trans; [exact Hlog|]. apply Z.pow_le_mono_l. lia.
Qed.

(** A number begins with a digit that is zero for zero only. *)
Lemma print_nonneg_ok n : 0 <= n ->
  Forall (fun c => is_digit c = true) (print_nonneg n) /\ digits_value (print_nonneg n) 0 = n /\
  (exists d ds, print_nonneg n = (d + "0"%char) :: ds /\ 0 <= d < 10 /\ (d = 0 -> ds = [] /\ n = 0)).
Proof.
  intros Hn. unfold print_nonneg.
  destruct (digits_rev_ok (S (Z.to_nat (Z.log2 n))) n) as (Hd & Hv & ds & d & E & Hr & H0);
    [split; [done|by apply digits_fuel]|lia|].
  split_and!; [by apply Forall_rev|done|]. exists d, (rev ds). rewrite E, rev_app_distr. split_and!; [done|lia..|].
  intros Hz. destruct (H0 Hz) as [-> ->]. done.
Qed.

Lemma strtoll_print z : - 2 ^ 63 <= z < 2 ^ 63 -> strtoll (print_int z) = (z, false).
Proof.
  intros Hz. unfold print_int.
  assert (Hend : forall v, v = z -> (if v <? - 2 ^ 63 then (- 2 ^ 63, true)
    else if 2 ^ 63 - 1 <? v then (2 ^ 63 - 1, true) else (v, false)) = (z, false)).
  { intros v ->. by rewrite (proj2 (Z.ltb_ge z (- 2 ^ 63))), (proj2 (Z.ltb_ge (2 ^ 63 - 1) z)) by lia. }
  destruct (Z.ltb_spec z 0).
  - destruct (print_nonneg_ok (- z)) as (_ & Hv & _); [lia|].
    unfold strtoll. change (skip_space (chr "-" :: print_nonneg (- z))) with (chr "-" :: print_nonneg (- z)).
    cbv beta iota zeta. rewrite Z.eqb_refl. rewrite Hv. apply Hend. lia.
  - destruct (print_nonneg_ok z) as (Hd & Hv & d & ds & E & Hr & _); [lia|].
    assert (Hsp : skip_space (print_nonneg z) = print_nonneg z).
    { rewrite E. cbn [skip_space]. unfold is_white, between, c_tab, c_return, c_newline.
      change (chr "0") with 48. change (chr " ") with 32. case_match; [|done]. lia. }
    unfold strtoll. rewrite Hsp. rewrite E at 1.
    change (chr "0") with 48. change (chr "-") with 45. change (chr "+") with 43.
    rewrite (proj2 (Z.eqb_neq (d + 48) 45)), (proj2 (Z.eqb_neq (d + 48) 43)) by lia.
    rewrite Hv. by apply Hend.
Qed.
