(* ===== verification/JsonSound.v ===== *)
(** * JSON: what the parser finds, and when its assertion fails

    The converse of the completeness proof of [JsonGrammar]: a value that the
    parser returns is derived by the grammar from the tokens that it read; a
    failed assertion means that the tokens end inside an object or an array.
    Both by induction on the fuel, which is shown to be enough. *)

From Stdlib Require Import Ascii String List.
From stdpp Require Import base numbers list.
From S2P Require Import Prelude Qdict JsonLexer Json JsonParser JsonGrammar.

(** ** Open braces and brackets *)

Definition brace_delta (t : JSONToken) : Z :=
  match t_type t, t_token t with
  | JSON_OPERATOR, c :: _ => if c =? "{"%char then 1 else if c =? "}"%char then -1 else 0
  | _, _ => 0
  end.

Definition bracket_delta (t : JSONToken) : Z :=
  match t_type t, t_token t with
  | JSON_OPERATOR, c :: _ => if c =? "["%char then 1 else if c =? "]"%char then -1 else 0
  | _, _ => 0
  end.

Fixpoint braces (ts : list JSONToken) : Z :=
  match ts with [] => 0 | t :: ts' => brace_delta t + braces ts' end.
Fixpoint brackets (ts : list JSONToken) : Z :=
  match ts with [] => 0 | t :: ts' => bracket_delta t + brackets ts' end.

Lemma braces_app a b : braces (a ++ b) = braces a + braces b.
Proof. induction a as [|t a IH]; cbn; [done|]. rewrite IH. lia. Qed.
Lemma brackets_app a b : brackets (a ++ b) = brackets a + brackets b.
Proof. induction a as [|t a IH]; cbn; [done|]. rewrite IH. lia. Qed.

Lemma c_str_head s a r : c_str s = a :: r -> exists s', s = a :: s' /\ a <> 0.
Proof. destruct s as [|c s]; cbn; [done|]. destruct (Z.eqb_spec c 0); [done|]. intros [= -> _]. by eauto. Qed.

Lemma op_delta t a : token_is_operator t a = true ->
  brace_delta t = (if a =? "{"%char then 1 else if a =? "}"%char then -1 else 0) /\
  bracket_delta t = (if a =? "["%char then 1 else if a =? "]"%char then -1 else 0).
Proof.
  intros [Ht (s & Hs & _)%c_str_head]%is_op_type. unfold brace_delta, bracket_delta.
  by rewrite Ht, Hs.
Qed.

Lemma no_op_delta t : t_type t <> JSON_OPERATOR -> brace_delta t = 0 /\ bracket_delta t = 0.
Proof. intros H. unfold brace_delta, bracket_delta. by destruct (t_type t). Qed.

(** The text of a string token begins with its quote. *)
Definition good_token (t : JSONToken) : Prop :=
  t_type t = JSON_STRING -> exists c s, t_token t = c :: s /\ c <> 0.

Lemma good_token_value t : good_token t -> t_type t = JSON_STRING -> exists c s, token_get_value t = c :: s.
Proof.
  intros Hg Ht. destruct (Hg Ht) as (c & s & E & Hc). unfold token_get_value. rewrite E. cbn.
  rewrite (proj2 (Z.eqb_neq c 0) Hc). eauto.
Qed.

(** Nothing is closed that is not open. *)
Definition unclosed (ts : list JSONToken) : Prop := 0 <= braces ts /\ 0 <= brackets ts.
(** The end is inside an object or an array, or there is nothing at all. *)
Definition stuck (ts : list JSONToken) : Prop :=
  ts = [] \/ unclosed ts /\ 0 < braces ts + brackets ts.

Lemma stuck_unclosed ts : stuck ts -> unclosed ts.
Proof. intros [->|[H _]]; [by split|done]. Qed.

Section sound.
Context {F : Type} (strtod : cstring -> F).
Abbreviation is_op t a := (token_is_operator t (chr a) = true).
Abbreviation ctx e b p := (mkContext (F := F) e b p None).
Abbreviation value_of := (value_of strtod).
Abbreviation pairs_of := (pairs_of strtod).
Abbreviation elems_of := (elems_of strtod).

Ltac eval_rhs E :=
  match type of E with _ = ?r => let v := eval vm_compute in r in change r with v in E end.
Ltac deltas := repeat match goal with
  | H : token_is_operator ?t (chr ?a) = true |- _ =>
      let E1 := fresh in let E2 := fresh in
      destruct (op_delta t (chr a) H) as [E1 E2]; eval_rhs E1; eval_rhs E2; clear H
  end.

Lemma grammar_balanced :
  (forall ts q, value_of ts q -> braces ts = 0 /\ brackets ts = 0) /\
  (forall d ts d', pairs_of d ts d' -> braces ts = -1 /\ brackets ts = 0) /\
  (forall l ts l', elems_of l ts l' -> braces ts = 0 /\ brackets ts = -1).
Proof.
  apply grammar_ind; intros; repeat match goal with H : _ /\ _ |- _ => destruct H end; deltas;
    rewrite ?braces_app, ?brackets_app; cbn [braces brackets];
    rewrite ?braces_app, ?brackets_app; cbn [braces brackets]; try lia.
  match goal with H : scalar_of _ _ _ |- _ => apply scalar_not_op, no_op_delta in H end. lia.
Qed.

Lemma value_balanced ts q : value_of ts q -> braces ts = 0 /\ brackets ts = 0.
Proof. apply grammar_balanced. Qed.

(** ** The results of the rules *)

(** A result of [parse_value] at the tokens [b] from [p] on. *)
Definition value_result (e : option parse_message) b p (r : res (option (QObject F) * JSONParserContext)) : Prop :=
  match r with
  | Ok (Some q, c) => exists ts rest,
      drop p b = ts ++ rest /\ value_of ts q /\ c = ctx e b (p + length ts)%nat
  | Ok (None, c) => exists e' p', c = ctx e' b p'
  | Err f => f = AssertFailed /\ stuck (drop p b)
  end.

Definition value_ok (fuel : nat) : Prop := forall e b p, Forall good_token b ->
  (length (drop p b) < fuel)%nat -> value_result e b p (parse_value strtod fuel (ctx e b p)).

(** [parse_pair] restores the position when it fails. *)
Definition pair_result d (e : option parse_message) b p (r : res (option (QDict (QObject F)) * JSONParserContext)) : Prop :=
  match r with
  | Ok (Some d', c) => exists kt k colon vt v rest,
      drop p b = kt ++ colon :: vt ++ rest /\ value_of kt (QSTRING k) /\ is_op colon ":" /\
      value_of vt v /\ d' = qdict_put_obj d (c_str k) v /\ c = ctx e b (p + length (kt ++ colon :: vt))%nat
  | Ok (None, c) => exists e', c = ctx e' b p
  | Err f => f = AssertFailed /\ unclosed (drop p b)
  end.

Lemma pair_sound fuel d e b p : value_ok fuel -> Forall good_token b ->
  (length (drop p b) < fuel)%nat ->
  pair_result d e b p (parse_pair (parse_value strtod fuel) d (ctx e b p)).
Proof.
  intros IH Hb Hf. unfold parse_pair, bind at 1 2. cbn [parser_context_save res_bind].
  destruct (drop p b) as [|t r] eqn:Hd.
  { rewrite peek_end by done. cbn. split; [done|]. rewrite Hd. by split. }
  erewrite peek_run by done. cbn [res_bind]. unfold bind at 1.
  specialize (IH e b p Hb) as Hk. rewrite Hd in Hk. specialize (Hk Hf).
  destruct (parse_value strtod fuel (ctx e b p)) as [[[q|] c]|f]; cbn [value_result res_bind] in *.
  - destruct Hk as (kt & rest & Hkt & Hv & ->). rewrite Hd in Hkt.
    destruct q as [| k | | | | |]; try (unfold fail, bind, out, ret; cbn; eauto; done).
    assert (Hrest : drop (p + length kt) b = rest) by (apply drop_advance; by rewrite Hd).
    destruct (value_balanced _ _ Hv) as [Hb1 Hb2].
    unfold bind at 1. destruct rest as [|colon rest].
    { rewrite pop_end by done. cbn. split; [done|]. unfold unclosed.
      rewrite Hd, Hkt, braces_app, brackets_app. cbn. lia. }
    erewrite pop_run by done. cbn [res_bind]. apply drop_token in Hrest as [_ Hrest].
    destruct (token_is_operator colon _) eqn:Hc; [|unfold fail, bind, out, ret; cbn; eauto; done].
    cbn [negb]. unfold bind at 1.
    specialize (IH e b (S (p + length kt)) Hb) as Hvv. rewrite Hrest in Hvv.
    assert (Hlen : (length rest < fuel)%nat).
    { apply (f_equal length) in Hkt. rewrite length_app in Hkt. cbn in *. lia. }
    specialize (Hvv Hlen).
    destruct (parse_value strtod fuel (ctx e b _)) as [[[v|] c]|f]; cbn [value_result res_bind] in *.
    + destruct Hvv as (vt & rest' & Hvt & Hv' & ->). cbn. exists kt, k, colon, vt, v, rest'.
      split_and!; try done.
      * by rewrite Hd, Hkt, <- Hvt, Hrest.
      * f_equal. rewrite length_app. cbn. lia.
    + destruct Hvv as (e' & p' & ->). unfold fail, bind, out, ret. cbn. eauto.
    + destruct Hvv as [-> Hs%stuck_unclosed]. split; [done|]. unfold unclosed in *.
      rewrite Hd, Hkt, braces_app, brackets_app. cbn.
      deltas. rewrite Hrest in Hs. lia.
  - destruct Hk as (e' & p' & ->). unfold fail, bind, out, ret. cbn. eauto.
  - destruct Hk as [-> Hs%stuck_unclosed]. split; [done|]. by rewrite Hd in *.
Qed.

(** A result of the rest of an object or array, up to its end. *)
Definition tail_result (ends : list JSONToken -> QObject F -> Prop) saved (e : option parse_message) b p
    (r : res (option (QObject F) * JSONParserContext)) : Prop :=
  match r with
  | Ok (Some q, c) => exists ts rest,
      drop p b = ts ++ rest /\ ends ts q /\ c = ctx e b (p + length ts)%nat
  | Ok (None, c) => exists e', c = ctx e' b saved
  | Err f => f = AssertFailed /\ unclosed (drop p b)
  end.

Definition ends_dict d ts (q : QObject F) : Prop := exists d', pairs_of d ts d' /\ q = QDICT d'.
Definition ends_list l ts (q : QObject F) : Prop := exists l', elems_of l ts l' /\ q = QLIST l'.

(** The rest of an object behind one pair and a comma. *)
Lemma tail_more pre comma saved e b p r (ends ends' : list JSONToken -> QObject F -> Prop) rest :
  drop p b = pre ++ comma :: rest -> is_op comma "," -> braces pre = 0 -> brackets pre = 0 ->
  (forall ts q, ends ts q -> ends' (pre ++ comma :: ts) q) ->
  tail_result ends saved e b (S (p + length pre)) r -> tail_result ends' saved e b p r.
Proof.
  intros Hd Hc H1 H2 Hends Hr.
  assert (Hrest : drop (S (p + length pre)) b = rest).
  { apply drop_advance in Hd. by apply drop_token in Hd as [_ ?]. }
  unfold tail_result in *. rewrite Hrest in Hr. destruct r as [[[q|] c]|f].
  - destruct Hr as (ts & rest' & -> & Hq & ->). exists (pre ++ comma :: ts), rest'.
    split_and!; [by rewrite Hd, <- app_assoc|by apply Hends|]. f_equal. rewrite length_app. cbn. lia.
  - done.
  - destruct Hr as [-> Hu]. split; [done|]. unfold unclosed in *. deltas.
    rewrite Hd, braces_app, brackets_app. cbn. lia.
Qed.

Lemma fail_result {A} saved msg e b p :
  fail (A := A) saved msg (ctx e b p) = Ok (None, ctx (Some msg) b saved).
Proof. done. Qed.

Lemma pairs_tail_sound fuel : value_ok fuel -> forall n d saved e b p, Forall good_token b ->
  (length (drop p b) < fuel)%nat -> (length (drop p b) <= n)%nat ->
  tail_result (ends_dict d) saved e b p (pairs_tail (parse_value strtod fuel) n saved d (ctx e b p)).
Proof.
  intros IH. induction n as [n IHn] using lt_wf_ind. intros d saved e b p Hb Hf Hn.
  pose proof (pair_sound fuel d e b p IH Hb Hf) as Hp. unfold pairs_tail, bind at 1.
  destruct (parse_pair _ d _) as [[[d1|] c]|f]; cbn [pair_result res_bind] in *.
  2: { destruct Hp as (e' & ->). cbn. eauto. }
  2: { done. }
  destruct Hp as (kt & k & colon & vt & v & rest & Hd & Hk & Hc & Hv & -> & ->).
  destruct (value_balanced _ _ Hk), (value_balanced _ _ Hv).
  assert (braces (kt ++ colon :: vt) = 0 /\ brackets (kt ++ colon :: vt) = 0) as [Hpre1 Hpre2].
  { pose proof Hc. deltas. rewrite braces_app, brackets_app. cbn. lia. }
  rewrite app_comm_cons, app_assoc in Hd. pose proof (drop_advance _ _ _ _ Hd) as Hrest.
  unfold bind. destruct rest as [|t rest].
  { rewrite pop_end by done. cbn. split; [done|]. unfold unclosed. rewrite Hd, app_nil_r. lia. }
  erewrite pop_run by done. cbn [res_bind]. pose proof Hd as Hl. apply (f_equal length) in Hl.
  rewrite !length_app in Hl. cbn [length] in Hl.
  destruct n as [|n]; [lia|]. cbn [object_loop]. apply drop_token in Hrest as [_ Hrest].
  destruct (token_is_operator t "}"%char) eqn:Ecl.
  { cbn. exists (kt ++ colon :: vt ++ [t]), rest. split_and!.
    - rewrite Hd, <- !app_assoc. cbn. by rewrite <- app_assoc.
    - eexists. split; [by eapply pairs_last|done].
    - f_equal. rewrite !length_app. cbn. rewrite length_app. cbn. lia. }
  destruct (token_is_operator t ","%char) eqn:Eco; cbn [negb]; [|rewrite fail_result; cbn; eauto].
  fold (pairs_tail (parse_value strtod fuel) n saved (qdict_put_obj d (c_str k) v)).
  eapply (tail_more (kt ++ colon :: vt)); [done..| |apply IHn; [lia|done|rewrite Hrest; lia..]].
  intros ts q (d' & Hts & ->). exists d'. split; [|done].
  rewrite <- app_assoc. cbn. by eapply pairs_more.
Qed.

Lemma elems_tail_sound fuel : value_ok fuel -> forall n l saved e b p, Forall good_token b ->
  (length (drop p b) < fuel)%nat -> (length (drop p b) <= n)%nat ->
  tail_result (ends_list l) saved e b p (elems_tail (parse_value strtod fuel) n saved l (ctx e b p)).
Proof.
  intros IH. induction n as [n IHn] using lt_wf_ind. intros l saved e b p Hb Hf Hn.
  pose proof (IH e b p Hb Hf) as Hp. unfold elems_tail, bind at 1.
  destruct (parse_value _ _ _) as [[[v|] c]|f]; cbn [value_result res_bind] in *.
  2: { destruct Hp as (e' & p' & ->). rewrite fail_result. cbn. eauto. }
  2: { destruct Hp as [-> Hs]. split; [done|by apply stuck_unclosed]. }
  destruct Hp as (vt & rest & Hd & Hv & ->). destruct (value_balanced _ _ Hv).
  pose proof (drop_advance _ _ _ _ Hd) as Hrest. unfold bind. destruct rest as [|t rest].
  { rewrite pop_end by done. cbn. split; [done|]. unfold unclosed. rewrite Hd, app_nil_r. lia. }
  erewrite pop_run by done. cbn [res_bind]. pose proof Hd as Hl. apply (f_equal length) in Hl.
  rewrite !length_app in Hl. cbn [length] in Hl.
  destruct n as [|n]; [lia|]. cbn [array_loop]. apply drop_token in Hrest as [_ Hrest].
  destruct (token_is_operator t "]"%char) eqn:Ecl.
  { cbn. exists (vt ++ [t]), rest. split_and!.
    - by rewrite Hd, <- !app_assoc.
    - eexists. split; [by eapply elems_last|done].
    - f_equal. rewrite !length_app. cbn. lia. }
  destruct (token_is_operator t ","%char) eqn:Eco; cbn [negb]; [|rewrite fail_result; cbn; eauto].
  fold (elems_tail (parse_value strtod fuel) n saved (l ++ [v])).
  eapply (tail_more vt); [done..| |apply IHn; [lia|done|rewrite Hrest; lia..]].
  intros ts q (l' & Hts & ->). exists l'. split; [|done]. by eapply elems_more.
Qed.

(** ** The rule for a value *)

(** What is behind an opening token, as a value. *)
Lemma tail_value o rest ends e b p r : drop p b = o :: rest ->
  (is_op o "{" \/ is_op o "[") -> (forall ts q, ends ts q -> value_of (o :: ts) q) ->
  tail_result ends p e b (S p) r ->
  value_result e b p r /\ (forall c, r = Ok (None, c) -> exists e', c = ctx e' b p).
Proof.
  intros Hd Ho Hends Hr. pose proof Hd as [_ Hrest]%drop_token. unfold tail_result, value_result in *.
  rewrite Hrest in Hr. destruct r as [[[q|] c]|f].
  - destruct Hr as (ts & rest' & -> & Hq & ->). split; [|done]. exists (o :: ts), rest'.
    split_and!; [done|by apply Hends|]. f_equal. cbn. lia.
  - destruct Hr as (e' & ->). split; [eauto|]. intros c [= <-]. eauto.
  - destruct Hr as [-> Hu]. split; [|done]. split; [done|]. right. rewrite Hd. unfold unclosed in *. cbn.
    destruct Ho; deltas; lia.
Qed.

Lemma object_sound fuel e b p o rest : value_ok fuel -> Forall good_token b -> drop p b = o :: rest ->
  (length rest < fuel)%nat -> is_op o "{" ->
  let r := parse_object (parse_value strtod fuel) fuel (ctx e b p) in
  value_result e b p r /\ (forall c, r = Ok (None, c) -> exists e', c = ctx e' b p).
Proof.
  intros IH Hb Hd Hf Ho. cbn zeta. erewrite object_open by done. pose proof Hd as [_ Hrest]%drop_token.
  destruct rest as [|t rest].
  { split; [|done]. cbn. split; [done|]. right. rewrite Hd. unfold unclosed. cbn. deltas. lia. }
  destruct (token_is_operator t _) eqn:Et.
  - split; [|done]. cbn. exists [o; t], rest. split_and!; [done|by constructor|]. f_equal. cbn. lia.
  - eapply (tail_value o); [done|by left| |apply pairs_tail_sound; rewrite ?Hrest; done || lia].
    intros ts q (d' & Hts & ->). by apply value_dict.
Qed.

Lemma array_sound fuel e b p o rest : value_ok fuel -> Forall good_token b -> drop p b = o :: rest ->
  (length rest < fuel)%nat -> is_op o "[" ->
  let r := parse_array (parse_value strtod fuel) fuel (ctx e b p) in
  value_result e b p r /\ (forall c, r = Ok (None, c) -> exists e', c = ctx e' b p).
Proof.
  intros IH Hb Hd Hf Ho. cbn zeta. erewrite array_open by done. pose proof Hd as [_ Hrest]%drop_token.
  destruct rest as [|t rest].
  { split; [|done]. cbn. split; [done|]. right. rewrite Hd. unfold unclosed. cbn. deltas. lia. }
  destruct (token_is_operator t _) eqn:Et.
  - split; [|done]. cbn. exists [o; t], rest. split_and!; [done|by constructor|]. f_equal. cbn. lia.
  - eapply (tail_value o); [done|by right| |apply elems_tail_sound; rewrite ?Hrest; done || lia].
    intros ts q (d' & Hts & ->). by apply value_list.
Qed.

Lemma or_else_value m k e b p : value_result e b p (m (ctx e b p)) ->
  (forall c, m (ctx e b p) = Ok (None, c) -> value_result e b p (k c)) ->
  value_result e b p (or_else m k (ctx e b p)).
Proof.
  intros Hm Hk. unfold or_else, bind. destruct (m (ctx e b p)) as [[[q|] c]|f]; [done| |done].
  cbn [res_bind]. by apply Hk.
Qed.

Lemma scalar_sound e b p t rest : drop p b = t :: rest -> good_token t -> t_type t <> JSON_OPERATOR ->
  value_result e b p (or_else parse_keyword (parse_literal strtod) (ctx e b p)).
Proof.
  intros Hd Hg Ht. unfold or_else, bind at 1.
  destruct (decide (t_type t = JSON_KEYWORD)) as [Hkw|Hkw].
  - unfold parse_keyword, bind at 1 2. cbn [parser_context_save res_bind].
    erewrite pop_run by done. cbn [res_bind]. unfold token_is_keyword, token_get_type.
    rewrite Hkw. rewrite bool_decide_eq_true_2 by done. cbn [negb].
    assert (Hs : forall q, scalar_of strtod t q ->
      value_result e b p (Ok (Some q, ctx e b (S p)))).
    { intros q Hq. exists [t], rest. split_and!; [done|by constructor|]. f_equal. cbn. lia. }
    case_bool_decide as E1; [cbn; apply Hs; unfold scalar_of, token_get_type; rewrite Hkw; by left|].
    case_bool_decide as E2; [cbn; apply Hs; unfold scalar_of, token_get_type; rewrite Hkw; by right|].
    rewrite fail_result. cbn [res_bind].
    erewrite no_literal by (done || by left). cbn. eauto.
  - erewrite not_keyword by done. cbn [res_bind].
    unfold parse_literal, bind at 1 2. cbn [parser_context_save res_bind].
    erewrite pop_run by done. cbn [res_bind].
    assert (Hs : forall q, scalar_of strtod t q ->
      value_result e b p (Ok (Some q, ctx e b (S p)))).
    { intros q Hq. exists [t], rest. split_and!; [done|by constructor|]. f_equal. cbn. lia. }
    unfold token_get_type. destruct (t_type t) eqn:Et; try done; try (cbn; eauto; done).
    + specialize (Hs (if (strtoll (token_get_value t)).2 then QFLOAT (strtod (token_get_value t))
           else QINT (strtoll (token_get_value t)).1)).
      unfold scalar_of, token_get_type in Hs. rewrite Et in Hs. specialize (Hs eq_refl).
      by destruct (strtoll (token_get_value t)) as [v [|]].
    + apply Hs. unfold scalar_of, token_get_type. by rewrite Et.
    + destruct (good_token_value t Hg Et) as (c & s & Ev).
      unfold qstring_from_escaped_str, bind. rewrite Ev.
      destruct (unescape _ s []) as [msg|s'] eqn:Eu; [cbn; eauto|].
      apply Hs. unfold scalar_of, token_get_type. rewrite Et. by eauto 10.
Qed.

(** The other rules find nothing at an opening token. *)
Lemma nothing_else e b p o rest : drop p b = o :: rest -> t_type o = JSON_OPERATOR ->
  or_else parse_escape (or_else parse_keyword (parse_literal strtod)) (ctx e b p) = Ok (None, ctx e b p).
Proof.
  intros Hd Ho. unfold or_else at 1, bind at 1. rewrite no_arguments. cbn [res_bind].
  unfold or_else, bind at 1. erewrite not_keyword by (done || by rewrite Ho). cbn [res_bind].
  erewrite no_literal by (done || by right). done.
Qed.

Lemma value_sound fuel : value_ok fuel.
Proof.
  induction fuel as [|fuel IH]; intros e b p Hb Hf; [lia|].
  destruct (drop p b) as [|t rest] eqn:Hd.
  { cbn [parse_value]. unfold or_else at 1, bind at 1, parse_object, bind at 1 2.
    cbn [parser_context_save res_bind]. rewrite pop_end by done. cbn. split; [done|]. rewrite Hd. by left. }
  assert (Hg : good_token t).
  { eapply Forall_lookup_1; [exact Hb|]. by apply drop_token in Hd as [? _]. }
  destruct (decide (t_type t = JSON_OPERATOR)) as [Ho|Ho].
  2: { erewrite value_no_op by done. by eapply scalar_sound. }
  cbn [parse_value length] in *.
  destruct (token_is_operator t "{"%char) eqn:Eb.
  { destruct (object_sound fuel e b p t rest) as [Hv Hn]; [done || lia..|].
    apply or_else_value; [exact Hv|]. intros c Hc. destruct (Hn c Hc) as (e' & ->).
    unfold or_else at 1, bind at 1. erewrite not_array by (done || by eapply is_op_unique). cbn [res_bind].
    erewrite nothing_else by done. cbn. eauto. }
  unfold or_else at 1, bind at 1. erewrite not_object by done. cbn [res_bind].
  destruct (token_is_operator t "["%char) eqn:Ek.
  { destruct (array_sound fuel e b p t rest) as [Hv Hn]; [done || lia..|].
    apply or_else_value; [exact Hv|]. intros c Hc. destruct (Hn c Hc) as (e' & ->).
    erewrite nothing_else by done. cbn. eauto. }
  unfold or_else at 1, bind at 1. erewrite not_array by done. cbn [res_bind].
  erewrite nothing_else by done. cbn. eauto.
Qed.

(** ** The parser *)

Lemma parse_cases ts : Forall good_token ts -> ts <> [] ->
  match json_parser_parse_err strtod (Some ts) None with
  | Ok (Some q, e, args) => e = None /\ args = None /\ exists vt rest, ts = vt ++ rest /\ value_of vt q
  | Ok (None, e, args) => args = None
  | Err f => f = AssertFailed /\ stuck ts
  end.
Proof.
  intros Hg Hne. unfold json_parser_parse_err, parser_context_new.
  destruct ts as [|t ts']; [done|]. set (ts := t :: ts') in *. cbn [buf].
  pose proof (value_sound (S (length ts)) None ts 0%nat Hg) as H. rewrite drop_0 in H.
  specialize (H ltac:(lia)). unfold value_result in H. rewrite drop_0 in H.
  destruct (parse_value strtod (S (length ts)) (ctx None ts 0%nat)) as [[[q|] c]|f]; cbn [res_bind].
  - destruct H as (vt & rest & Hts & Hv & ->). cbn. split_and!; [done..|]. by exists vt, rest.
  - destruct H as (e' & p' & ->). done.
  - done.
Qed.

Lemma parse_complete ts vt rest q : ts = vt ++ rest -> value_of vt q ->
  json_parser_parse_err strtod (Some ts) None = Ok (Some q, None, None).
Proof.
  intros Hts Hv. unfold json_parser_parse_err, parser_context_new.
  pose proof (value_nonempty _ _ _ Hv) as Hne.
  assert (Hl : (length vt <= length ts)%nat) by (rewrite Hts, length_app; lia).
  destruct ts as [|t ts'] eqn:E; [by destruct vt|]. rewrite <- E in *. cbn [buf].
  erewrite (proj1 (grammar_complete strtod) _ _ Hv); [done| |lia]. by rewrite drop_0.
Qed.
End sound.
