(* ===== verification/JsonLex.v ===== *)
(** * JSON: facts about the lexer and the message splitter

    The lexer run with a function that only collects the tokens determines
    every other run.  Its loop ends after two passes, its table is never read
    outside, and what it hands on is described: operators are the byte that
    was fed, strings begin with their quote, and no byte is counted twice.  What
    the splitter keeps between tokens is bounded, whatever is fed; and the
    messages that it hands on because they are complete never make the assertion
    of the parser fail. *)

From Stdlib Require Import Ascii String List.
From stdpp Require Import base numbers list.
From S2P Require Import Prelude Qdict JsonLexer Json JsonParser JsonGrammar JsonSound.

(** A token as it is handed on. *)
Abbreviation event := (cstring * json_code * Z * Z)%type.

Definition collect (tok : cstring) (type : json_code) (x y : Z) (s : list event) : res (list event) :=
  Ok (s ++ [(tok, type, x, y)]).

Section natural.
Context {S : Type} (emit : cstring -> json_code -> Z -> Z -> S -> res S).

Fixpoint emit_all (evs : list event) (s : S) : res S :=
  match evs with
  | [] => Ok s
  | (tok, type, x, y) :: evs' => let* s' := emit tok type x y s in emit_all evs' s'
  end.

Lemma emit_all_app a b s : emit_all (a ++ b) s = let* s' := emit_all a s in emit_all b s'.
Proof.
  revert s. induction a as [|[[[tok type] x] y] a IH]; intros s; [done|]. cbn.
  destruct (emit tok type x y s); cbn; [apply IH|done].
Qed.
End natural.

(** A computation on collected tokens, and on any other state. *)
Definition natural {A} (m : forall S, (cstring -> json_code -> Z -> Z -> S -> res S) -> S -> res (A * S)) : Prop :=
  forall pre a all, m (list event) collect pre = Ok (a, all) -> exists evs, all = pre ++ evs /\
    forall S (emit : cstring -> json_code -> Z -> Z -> S -> res S) s,
      m S emit s = let* s' := emit_all emit evs s in Ok (a, s').

Lemma natural_ret {A} (a : A) : natural (fun S emit s => Ok (a, s)).
Proof. intros pre a' all [= <- <-]. exists []. split; [by rewrite app_nil_r|done]. Qed.

Lemma natural_emit {A} tok type x y (a : A) :
  natural (fun S emit s => let* s' := emit tok type x y s in Ok (a, s')).
Proof.
  intros pre a' all [= <- <-]. exists [(tok, type, x, y)]. split; [done|]. intros S emit s. cbn.
  by destruct (emit tok type x y s).
Qed.

Lemma natural_bind {A B} (m : forall S, _ -> S -> res (A * S)) (k : A -> forall S, _ -> S -> res (B * S)) :
  natural m -> (forall a, natural (k a)) ->
  natural (fun S emit s => let* (a, s') := m S emit s in k a S emit s').
Proof.
  intros Hm Hk pre b all H. apply bind_Ok in H as ([a mid] & H1 & H2).
  apply Hm in H1 as (e1 & -> & H1). apply Hk in H2 as (e2 & -> & H2).
  exists (e1 ++ e2). split; [by rewrite app_assoc|]. intros S emit s. rewrite H1, emit_all_app.
  destruct (emit_all emit e1 s) as [s1|f]; cbn; [apply H2|done].
Qed.

Lemma natural_err {A} f : natural (fun S emit s => Err f : res (A * S)).
Proof. intros pre a all [=]. Qed.

Lemma natural_ext {A} (m m' : forall S, _ -> S -> res (A * S)) :
  (forall S emit s, m S emit s = m' S emit s) -> natural m -> natural m'.
Proof.
  intros E H pre a all Ha. rewrite <- E in Ha. apply H in Ha as (evs & -> & Ha).
  exists evs. split; [done|]. intros S emit s. by rewrite <- E.
Qed.

(** ** The lexer is natural *)

Definition loop_at fuel lx ch flush : forall S, (cstring -> json_code -> Z -> Z -> S -> res S) -> S -> res (JSONLexer * bool * S) :=
  fun S emit s => let* (lx', s', r) := feed_loop emit fuel lx ch flush s in Ok (lx', r, s').

Lemma natural_seq {B} tok type x y (k : forall S, _ -> S -> res (B * S)) : natural k ->
  natural (fun S emit s => let* s' := emit tok type x y s in k S emit s').
Proof.
  intros Hk. eapply natural_ext; [|apply (natural_bind _ (fun _ : unit => k) (natural_emit tok type x y tt)); done].
  intros S emit s. cbn. by destruct (emit tok type x y s).
Qed.

Lemma loop_natural fuel : forall lx ch flush, natural (loop_at fuel lx ch flush).
Proof.
  induction fuel as [|fuel IH]; intros lx ch flush.
  { apply (natural_err OutOfFuel). }
  unfold loop_at. cbn [feed_loop].
  destruct (json_lexer (state lx) ch) as [new|f]; [|apply (natural_err f)].
  destruct (json_lexer (state lx) 0) as [term|f]; [|apply (natural_err f)]. cbn [res_bind].
  set (cons := negb (bool_decide (term = new))).
  set (tok := if cons then token lx ++ [ch] else token lx).
  assert (Hnext : forall lx', natural (fun S emit s =>
    let* (lx1, s1, r) := (if negb cons && negb flush then feed_loop emit fuel lx' ch flush s
                          else Ok (lx', s, false)) in Ok (lx1, r, s1))).
  { intros lx'. destruct (negb cons && negb flush); [apply (IH lx' ch flush)|].
    apply (natural_ret (lx', false)). }
  assert (Hemit : forall type lx', natural (fun S emit s =>
    let* (lx1, s1, r) := (let* s' := emit tok type (x lx) (y lx) s in
      if negb cons && negb flush then feed_loop emit fuel lx' ch flush s'
      else Ok (lx', s', false)) in Ok (lx1, r, s1))).
  { intros type lx'. eapply natural_ext; [|apply (natural_seq tok type (x lx) (y lx) _ (Hnext lx'))].
    intros S emit s. cbn. by destruct (emit tok type (x lx) (y lx) s). }
  destruct new; try (apply Hnext); try (apply Hemit).
  eapply natural_ext; [|apply (natural_emit tok JSON_ERROR (x lx) (y lx) (mkLexer IN_START [] (x lx) (y lx), true))].
  intros S emit s. cbn. by destruct (emit tok _ (x lx) (y lx) s).
Qed.

Definition char_at lx ch flush : forall S, (cstring -> json_code -> Z -> Z -> S -> res S) -> S -> res (JSONLexer * S) :=
  fun S emit s => json_lexer_feed_char emit lx ch flush s.

Lemma char_natural lx ch flush : natural (char_at lx ch flush).
Proof.
  unfold char_at, json_lexer_feed_char.
  set (lx0 := if ch =? c_newline then _ else _).
  eapply natural_ext; [|apply (natural_bind _ (fun (lr : JSONLexer * bool) S emit s =>
    if lr.2 then Ok (lr.1, s)
    else if MAX_TOKEN_SIZE <? Z.of_nat (length (token lr.1)) then
      let* s2 := emit (token lr.1) (state lr.1) (x lr.1) (y lr.1) s in
      Ok (mkLexer IN_START [] (x lr.1) (y lr.1), s2)
    else Ok (lr.1, s)) (loop_natural feed_fuel lx0 ch flush))].
  - intros S emit s. unfold loop_at. by destruct (feed_loop emit feed_fuel lx0 ch flush s) as [[[? ?] ?]|].
  - intros [lx1 r]. cbn. destruct r; [apply natural_ret|].
    destruct (_ <? _); [apply natural_emit|apply natural_ret].
Qed.

Lemma feed_natural buffer : forall lx, natural (fun S emit s => json_lexer_feed emit lx buffer s).
Proof.
  induction buffer as [|ch buffer IH]; intros lx; cbn [json_lexer_feed]; [apply natural_ret|].
  apply (natural_bind (char_at lx ch false) (fun lx' S emit s => json_lexer_feed emit lx' buffer s)); [apply char_natural|done].
Qed.

Lemma flush_natural lx : natural (fun S emit s => json_lexer_flush emit lx s).
Proof.
  unfold json_lexer_flush. destruct (bool_decide _); [apply natural_ret|apply char_natural].
Qed.

(** ** The table *)

Definition string_state (c : json_code) : bool :=
  match c with
  | IN_DQ_UCODE3 | IN_DQ_UCODE2 | IN_DQ_UCODE1 | IN_DQ_UCODE0 | IN_DQ_STRING_ESCAPE | IN_DQ_STRING
  | IN_SQ_UCODE3 | IN_SQ_UCODE2 | IN_SQ_UCODE1 | IN_SQ_UCODE0 | IN_SQ_STRING_ESCAPE | IN_SQ_STRING => true
  | _ => false
  end.

(** What an entry of the table may be. *)
Record entry_ok (st : json_code) (ch : Z) (new : json_code) : Prop := {
  entry_error : new <> JSON_ERROR;
  entry_start : new <> IN_START;
  entry_string : new = JSON_STRING -> string_state st = true;
  entry_operator : new = JSON_OPERATOR -> st = IN_START;
  entry_to_string : string_state new = true -> string_state st = true \/ st = IN_START /\ ch <> 0 }.

Lemma table_row st ch : is_row st = true -> exists new, json_lexer st ch = Ok new /\ entry_ok st ch new.
Proof.
  destruct st; try done; intros _; (eexists; split; [reflexivity|]);
    unfold on_xdigit, string_row, TERMINAL; repeat case_match; constructor; try done; intros; try by left.
  all: right; split; [done|]; intros ->; done.
Qed.

Lemma table_zero st : is_row st = true -> exists t, json_lexer st 0 = Ok t /\
  (t = IN_ERROR \/ t = JSON_INTEGER \/ t = JSON_FLOAT \/ t = JSON_KEYWORD \/ t = JSON_SKIP) /\
  (st = IN_START -> t = IN_ERROR).
Proof. destruct st; try done; intros _; eexists; (split; [reflexivity|]); split; auto 10; done. Qed.

(** ** The state of the lexer *)

Definition starts_nonzero (tok : cstring) : Prop := exists c s, tok = c :: s /\ c <> 0.

Record lexer_ok (lx : JSONLexer) : Prop := {
  lexer_row : is_row (state lx) = true;
  lexer_no_error : state lx <> IN_ERROR;
  lexer_start : state lx = IN_START -> token lx = [];
  lexer_string : string_state (state lx) = true -> starts_nonzero (token lx);
  lexer_length : Z.of_nat (length (token lx)) <= MAX_TOKEN_SIZE }.

Lemma lexer_ok_start x y : lexer_ok (mkLexer IN_START [] x y).
Proof. by constructor. Qed.

(** A token that is handed on while [ch] is fed. *)
Definition event_ok (ch : Z) (ev : event) : Prop :=
  let '(tok, type, _, _) := ev in
  (type = JSON_STRING -> starts_nonzero tok) /\ (type = JSON_OPERATOR -> tok = [ch]).

Definition ev_length (ev : event) : nat := length ev.1.1.1.
Definition ev_type (ev : event) : json_code := ev.1.1.2.
Definition ev_sum (evs : list event) : nat := list_sum (map ev_length evs).
Definition operators (evs : list event) : list event := List.filter (fun ev => bool_decide (ev_type ev = JSON_OPERATOR)) evs.

(** What feeding one byte does: the tokens handed on are described, at most
    one of them is an operator, and the bytes of the tokens come from the
    input. *)
Record char_ok (lx : JSONLexer) (ch : Z) (lx' : JSONLexer) (evs : list event) : Prop := {
  char_lexer : lexer_ok lx';
  char_events : Forall (event_ok ch) evs;
  char_operators : (length (operators evs) <= 1)%nat;
  char_bytes : (ev_sum evs + length (token lx') <= length (token lx) + 1)%nat }.

(** The same for the loop, whose token may still be too long. *)
Record loop_ok (lx : JSONLexer) (ch : Z) (lx' : JSONLexer) (evs : list event) (returned : bool) : Prop := {
  loop_row : is_row (state lx') = true;
  loop_no_error : state lx' <> IN_ERROR;
  loop_start : state lx' = IN_START -> token lx' = [];
  loop_string : string_state (state lx') = true -> starts_nonzero (token lx');
  loop_events : Forall (event_ok ch) evs;
  loop_operators : (length (operators evs) <= 1)%nat;
  loop_bytes : (ev_sum evs + length (token lx') <= length (token lx) + 1)%nat;
  loop_returned : returned = true -> token lx' = [] }.

(** One token is handed on and the lexer starts again. *)
Lemma loop_emitted lx ch tok type x' y' r : (type = JSON_STRING -> starts_nonzero tok) ->
  (type = JSON_OPERATOR -> tok = [ch]) -> (length tok <= length (token lx) + 1)%nat ->
  loop_ok lx ch (mkLexer IN_START [] x' y') [(tok, type, x', y')] r.
Proof.
  intros Hs Ho Hl. constructor; try done.
  - by apply Forall_cons_2; [|apply Forall_nil_2].
  - unfold operators. cbn. case_bool_decide; cbn; lia.
  - unfold ev_sum, ev_length. cbn. lia.
Qed.

(** A byte that is consumed, or that is an error. *)
Lemma loop_consume fuel lx ch flush pre new : lexer_ok lx -> entry_ok (state lx) ch new ->
  json_lexer (state lx) ch = Ok new ->
  (json_lexer (state lx) 0 <> Ok new \/ new = IN_ERROR) ->
  exists lx' evs r, feed_loop collect (S fuel) lx ch flush pre = Ok (lx', pre ++ evs, r) /\
    loop_ok lx ch lx' evs r /\ (length evs <= 1)%nat.
Proof.
  intros Hlx He Hn Hc. destruct (table_zero _ (lexer_row _ Hlx)) as (t & Ht & Htz & _).
  cbn [feed_loop]. rewrite Hn, Ht. cbn [res_bind].
  destruct (decide (new = IN_ERROR)) as [->|Hne].
  { do 3 eexists. split; [reflexivity|]. split; [|done]. apply loop_emitted; [done..|].
    destruct (negb _); rewrite ?length_app; cbn; lia. }
  destruct Hc as [Hc|]; [|done]. rewrite Ht in Hc.
  rewrite (bool_decide_eq_false_2 (t = new)) by congruence. cbn [negb andb].
  assert (Hstep : is_row new = true ->
    loop_ok lx ch (mkLexer new (token lx ++ [ch]) (x lx) (y lx)) [] false).
  { intros Hrow. constructor; cbn; try done.
    - intros ->. by destruct (entry_start _ _ _ He).
    - intros Hs. destruct (entry_to_string _ _ _ He Hs) as [Hs'|[Hst Hch]].
      + destruct (lexer_string _ Hlx Hs') as (c & s & -> & ?). exists c, (s ++ [ch]). done.
      + rewrite (lexer_start _ Hlx Hst). by exists ch, [].
    - lia.
    - rewrite length_app. cbn. lia. }
  assert (Hemit : loop_ok lx ch (mkLexer IN_START [] (x lx) (y lx)) [(token lx ++ [ch], new, x lx, y lx)] false).
  { apply loop_emitted; [| |rewrite length_app; cbn; lia].
    - intros ->. destruct (lexer_string _ Hlx (entry_string _ _ _ He eq_refl)) as (c & s & -> & ?).
      exists c, (s ++ [ch]). done.
    - intros ->. by rewrite (lexer_start _ Hlx (entry_operator _ _ _ He eq_refl)). }
  assert (Hskip : loop_ok lx ch (mkLexer IN_START [] (x lx) (y lx)) [] false).
  { constructor; cbn; try done; lia. }
  destruct new; try done; try (by destruct (entry_error _ _ _ He)).
  all: first
    [ exists (mkLexer IN_START [] (x lx) (y lx)), [], false; rewrite app_nil_r;
      split; [reflexivity|]; split; [exact Hskip|cbn; lia]
    | eexists _, [], false; rewrite app_nil_r; split; [reflexivity|]; split; [by apply Hstep|cbn; lia]
    | eexists _, [_], false; split; [reflexivity|]; split; [exact Hemit|cbn; lia] ].
Qed.

(** A lookahead: a token or white space ends in front of the byte. *)
Lemma loop_lookahead lx ch flush pre new : lexer_ok lx -> json_lexer (state lx) ch = Ok new ->
  json_lexer (state lx) 0 = Ok new -> new <> IN_ERROR ->
  exists evs0, (length (operators evs0) = 0)%nat /\ Forall (event_ok ch) evs0 /\
    (ev_sum evs0 <= length (token lx))%nat /\
    feed_loop collect 2 lx ch flush pre =
    if flush then Ok (mkLexer IN_START [] (x lx) (y lx), pre ++ evs0, false)
    else feed_loop collect 1 (mkLexer IN_START [] (x lx) (y lx)) ch flush (pre ++ evs0).
Proof.
  intros Hlx Hn Ht Hne. destruct (table_zero _ (lexer_row _ Hlx)) as (t & Ht' & Htz & _).
  rewrite Ht in Ht'. injection Ht' as <-. remember 1%nat as one.
  cbn [feed_loop]. rewrite Hn, Ht. cbn [res_bind]. rewrite bool_decide_eq_true_2 by done. cbn [negb andb].
  destruct Htz as [->|[->|[->|[->| ->]]]]; [done|..].
  4: exists []; split_and!; [done|by apply Forall_nil_2|cbn; lia|]; rewrite app_nil_r; by destruct flush.
  all: match type of Ht with _ = Ok ?c => exists [(token lx, c, x lx, y lx)] end;
    split_and!; [done| | |by destruct flush].
  all: first [by apply Forall_cons_2; [|apply Forall_nil_2]|unfold ev_sum, ev_length; cbn; lia].
Qed.

Lemma loop_total lx ch flush pre : lexer_ok lx ->
  exists lx' evs r, feed_loop collect feed_fuel lx ch flush pre = Ok (lx', pre ++ evs, r) /\
    loop_ok lx ch lx' evs r.
Proof.
  intros Hlx. destruct (table_row (state lx) ch (lexer_row _ Hlx)) as (new & Hn & He).
  destruct (table_zero _ (lexer_row _ Hlx)) as (t & Ht & _).
  destruct (decide (t = new /\ new <> IN_ERROR)) as [[-> Hne]|Hc].
  2: { edestruct (loop_consume 1 lx ch flush pre new) as (lx' & evs & r & E & Hl & _); eauto.
       destruct (decide (new = IN_ERROR)); [by right|left]. rewrite Ht. intros [= ->]. by apply Hc. }
  destruct (loop_lookahead lx ch flush pre new Hlx Hn Ht Hne) as (evs0 & Hop & Hev & Hsum & E).
  unfold feed_fuel. rewrite E. destruct flush.
  { do 3 eexists. split; [done|]. constructor; try done; cbn; lia. }
  pose proof (lexer_ok_start (x lx) (y lx)) as Hs.
  destruct (table_row IN_START ch eq_refl) as (new' & Hn' & He').
  edestruct (loop_consume 0 (mkLexer IN_START [] (x lx) (y lx)) ch false (pre ++ evs0) new')
    as (lx' & evs & r & E' & [] & Hlen); [done..| |].
  { cbn. destruct (decide (new' = IN_ERROR)); [by right|left]. by intros [= <-]. }
  exists lx', (evs0 ++ evs), r. rewrite E', app_assoc. split; [done|].
  constructor; try done.
  - by apply Forall_app.
  - unfold operators in *. rewrite List.filter_app, length_app. lia.
  - unfold ev_sum in *. rewrite map_app, list_sum_app. cbn in loop_bytes0. lia.
Qed.

Lemma char_total lx ch flush pre : lexer_ok lx ->
  exists lx' evs, json_lexer_feed_char collect lx ch flush pre = Ok (lx', pre ++ evs) /\
    char_ok lx ch lx' evs.
Proof.
  intros Hlx. unfold json_lexer_feed_char.
  set (lx0 := if ch =? c_newline then _ else _).
  assert (Hst : state lx0 = state lx) by (unfold lx0; by case_match).
  assert (Htk : token lx0 = token lx) by (unfold lx0; by case_match).
  assert (Hlx0 : lexer_ok lx0).
  { destruct Hlx. constructor; rewrite ?Hst, ?Htk; done. }
  destruct (loop_total lx0 ch flush pre Hlx0) as (lx1 & evs & r & E & []). rewrite E. cbn [res_bind].
  rewrite Htk in loop_bytes0.
  assert (Hr : Z.of_nat (length (token lx1)) <= MAX_TOKEN_SIZE -> char_ok lx ch lx1 evs) by (intros; constructor; [by constructor|done..]).
  destruct r.
  { exists lx1, evs. split; [done|]. apply Hr. rewrite loop_returned0 by done. done. }
  destruct (Z.ltb_spec MAX_TOKEN_SIZE (Z.of_nat (length (token lx1)))); [|by eauto].
  exists (mkLexer IN_START [] (x lx1) (y lx1)), (evs ++ [(token lx1, state lx1, x lx1, y lx1)]).
  cbn. rewrite app_assoc. split; [done|]. constructor; [by apply lexer_ok_start|..].
  - apply Forall_app. split; [done|]. apply Forall_cons_2; [|by apply Forall_nil_2].
    split; intros Hs; rewrite Hs in loop_row0; done.
  - unfold operators in *. rewrite List.filter_app, length_app. cbn.
    rewrite bool_decide_eq_false_2; [cbn; lia|]. cbn. intros Hs. by rewrite Hs in loop_row0.
  - unfold ev_sum, ev_length in *. rewrite map_app, list_sum_app. cbn. lia.
Qed.

(** ** A buffer *)

Definition event_good (ev : event) : Prop := exists ch, event_ok ch ev.
Definition count (c : Z) (buffer : list Z) : nat := length (List.filter (Z.eqb c) buffer).
(** The operators [c] among the tokens. *)
Definition is_operator (c : Z) (ev : event) : bool :=
  bool_decide (ev_type ev = JSON_OPERATOR) && bool_decide (ev.1.1.1 = [c]).
Definition opens (c : Z) (evs : list event) : nat := length (List.filter (is_operator c) evs).

Definition size_ok (ev : event) : Prop := Z.of_nat (ev_length ev) < 2 ^ 32.

Record run_ok (lx : JSONLexer) (buffer : list Z) (lx' : JSONLexer) (evs : list event) : Prop := {
  run_lexer : lexer_ok lx';
  run_events : Forall event_good evs;
  run_sizes : Forall size_ok evs;
  run_bytes : (ev_sum evs + length (token lx') <= length (token lx) + length buffer)%nat;
  run_opens : forall c, (opens c evs <= count c buffer)%nat }.

Lemma opens_operators c ch evs : Forall (event_ok ch) evs ->
  (opens c evs <= if Z.eqb c ch then length (operators evs) else 0)%nat.
Proof.
  intros H. induction evs as [|[[[tok type] x] y] evs IH]; [cbn; by case_match|].
  apply Forall_cons in H as [[_ Ho] Hevs]. specialize (IH Hevs).
  unfold opens, operators in *. cbn [List.filter]. unfold is_operator at 1.
  change (ev_type (tok, type, x, y)) with type. change ((tok, type, x, y).1.1.1) with tok.
  case_bool_decide as Et; cbn [andb]; [|done]. rewrite (Ho Et).
  destruct (Z.eqb_spec c ch) as [->|Hne]; case_bool_decide; cbn [length]; try lia. congruence.
Qed.

Lemma ev_sum_le evs ev : ev ∈ evs -> (ev_length ev <= ev_sum evs)%nat.
Proof.
  unfold ev_sum. induction 1 as [ev evs|ev ev' evs _ IH]; cbn [map].
  - change (list_sum (ev_length ev :: ?l)) with (ev_length ev + list_sum l)%nat. lia.
  - change (list_sum (ev_length ev' :: ?l)) with (ev_length ev' + list_sum l)%nat. lia.
Qed.

Lemma char_run lx ch lx' evs : lexer_ok lx -> char_ok lx ch lx' evs -> run_ok lx [ch] lx' evs.
Proof.
  intros Hlx []. constructor; [done| | |done|].
  - eapply Forall_impl; [done|]. intros ev Hev. by exists ch.
  - apply Forall_forall. intros ev Hev%ev_sum_le. unfold size_ok.
    pose proof (lexer_length _ Hlx). unfold MAX_TOKEN_SIZE in *. lia.
  - intros c. etransitivity; [by apply (opens_operators c ch)|]. unfold count. cbn. case_match; cbn; lia.
Qed.

Lemma run_nil lx : lexer_ok lx -> run_ok lx [] lx [].
Proof. intros. constructor; [done|by apply Forall_nil_2..|cbn; lia|cbn; lia]. Qed.

Lemma run_app lx1 b1 lx2 e1 b2 lx3 e2 : run_ok lx1 b1 lx2 e1 -> run_ok lx2 b2 lx3 e2 ->
  run_ok lx1 (b1 ++ b2) lx3 (e1 ++ e2).
Proof.
  intros [] []. constructor; [done|by apply Forall_app..| |].
  - unfold ev_sum in *. rewrite map_app, list_sum_app, length_app. lia.
  - intros c. specialize (run_opens0 c). specialize (run_opens1 c).
    unfold opens, count in *. rewrite !List.filter_app, !length_app. lia.
Qed.

Lemma feed_total buffer : forall lx pre, lexer_ok lx ->
  exists lx' evs, json_lexer_feed collect lx buffer pre = Ok (lx', pre ++ evs) /\ run_ok lx buffer lx' evs.
Proof.
  induction buffer as [|ch buffer IH]; intros lx pre Hlx; cbn [json_lexer_feed].
  { exists lx, []. rewrite app_nil_r. split; [done|by apply run_nil]. }
  destruct (char_total lx ch false pre Hlx) as (lx1 & e1 & -> & Hc). cbn [res_bind].
  pose proof (char_run _ _ _ _ Hlx Hc) as Hr.
  destruct (IH lx1 (pre ++ e1) (run_lexer _ _ _ _ Hr)) as (lx2 & e2 & -> & Hr2).
  exists lx2, (e1 ++ e2). rewrite app_assoc. split; [done|]. by apply (run_app lx [ch] lx1 e1 buffer).
Qed.

(** The whole run over a buffer: feeding it and flushing. *)
Definition lex_all {S} (emit : cstring -> json_code -> Z -> Z -> S -> res S) (lx : JSONLexer)
    (buffer : list Z) (s : S) : res (JSONLexer * S) :=
  let* (lx', s') := json_lexer_feed emit lx buffer s in json_lexer_flush emit lx' s'.

Lemma lex_all_total buffer lx : lexer_ok lx ->
  exists lx' evs, run_ok lx (buffer ++ [0]) lx' evs /\
    forall S (emit : cstring -> json_code -> Z -> Z -> S -> res S) s,
      lex_all emit lx buffer s = let* s' := emit_all emit evs s in Ok (lx', s').
Proof.
  intros Hlx. destruct (feed_total buffer lx [] Hlx) as (lx1 & e1 & E1 & Hr).
  assert (exists lx2 e2, json_lexer_flush collect lx1 e1 = Ok (lx2, e1 ++ e2) /\ run_ok lx1 [0] lx2 e2)
    as (lx2 & e2 & E2 & Hr2).
  { pose proof (run_lexer _ _ _ _ Hr) as Hlx1. unfold json_lexer_flush. case_bool_decide.
    - exists lx1, []. rewrite app_nil_r. split; [done|].
      destruct (run_nil lx1 Hlx1). constructor; [done..| |]; [cbn in *; lia|].
      intros c. cbn. lia.
    - destruct (char_total lx1 0 true e1 Hlx1) as (lx2 & e2 & -> & Hc). exists lx2, e2.
      split; [done|by apply char_run]. }
  assert (Hn : natural (fun S emit s => lex_all emit lx buffer s)).
  { apply (natural_bind (fun S emit s => json_lexer_feed emit lx buffer s)
      (fun lx' S emit s => json_lexer_flush emit lx' s)); [apply feed_natural|apply flush_natural]. }
  destruct (Hn [] lx2 (e1 ++ e2)) as (evs & E & Hevs).
  { unfold lex_all. rewrite E1. done. }
  cbn in E. subst evs. exists lx2, (e1 ++ e2). split; [by eapply run_app|exact Hevs].
Qed.

(** ** The message splitter *)

Fixpoint sizes (ts : list JSONToken) : Z :=
  match ts with [] => 0 | t :: ts' => Z.of_nat (length (t_token t)) + sizes ts' end.

Lemma sizes_app a b : sizes (a ++ b) = sizes a + sizes b.
Proof. induction a as [|t a IH]; cbn; [done|]. rewrite IH. lia. Qed.

Lemma sizes_nonneg ts : 0 <= sizes ts.
Proof. induction ts as [|t ts IH]; cbn; lia. Qed.

(** The state between tokens: the counts are those of the tokens, an open
    brace or bracket keeps a message from being complete, and nothing is over
    a limit. *)
Record stream_ok (p : JSONMessageParser) : Prop := {
  stream_braces : brace_count p = braces (tokens p);
  stream_brackets : bracket_count p = brackets (tokens p);
  stream_size : token_size p = sizes (tokens p);
  stream_range : 0 <= brace_count p <= MAX_NESTING /\ 0 <= bracket_count p <= MAX_NESTING;
  stream_max : token_size p <= MAX_TOKEN_SIZE;
  stream_open : tokens p = [] \/ 0 < brace_count p + bracket_count p;
  stream_good : Forall good_token (tokens p) }.

Lemma stream_new : stream_ok message_parser_new.
Proof. constructor; cbn; try done. by left. Qed.

Definition over_limit (ts : list JSONToken) : Prop :=
  MAX_NESTING < braces ts \/ MAX_NESTING < brackets ts \/ MAX_TOKEN_SIZE < sizes ts.

Lemma delta_range t : -1 <= brace_delta t <= 1 /\ -1 <= bracket_delta t <= 1.
Proof. unfold brace_delta, bracket_delta. repeat case_match; lia. Qed.

Lemma count_token_delta tok type x y brace bracket : 0 <= brace <= MAX_NESTING -> 0 <= bracket <= MAX_NESTING ->
  count_token tok type brace bracket =
  (brace + brace_delta (mkToken type tok x y), bracket + bracket_delta (mkToken type tok x y)).
Proof.
  unfold MAX_NESTING. intros H1 H2. unfold count_token, brace_delta, bracket_delta. cbn.
  case_bool_decide as Ht; [subst type|destruct type; try done; f_equal; lia].
  destruct tok as [|c tok]; [f_equal; lia|].
  repeat case_match; rewrite ?swrap_small by lia; try (f_equal; lia).
  all: repeat match goal with H : (_ =? _) = true |- _ => apply Z.eqb_eq in H end; subst; done.
Qed.

(** A message that closes what it opened, or more, is no end in the middle. *)
Lemma complete_not_stuck ts : ts <> [] -> braces ts < 0 \/ brackets ts < 0 \/ (braces ts = 0 /\ brackets ts = 0) ->
  ~ stuck ts.
Proof. intros Hne Hc [->|[[H1 H2] H3]]; [done|lia]. Qed.

Section process.
Context {S : Type} (emit : option (list JSONToken) -> S -> res S).

Abbreviation process := (json_message_process_token emit).
Definition hand_on (ts : option (list JSONToken)) (s : S) : res (JSONMessageParser * S) :=
  let* s' := emit ts s in Ok (message_parser_new, s').

Inductive processed (p : JSONMessageParser) (t : JSONToken) (s : S) : res (JSONMessageParser * S) -> Prop :=
| processed_error : t_type t = JSON_ERROR -> processed p t s (hand_on None s)
| processed_complete : Forall good_token (tokens p ++ [t]) -> ~ stuck (tokens p ++ [t]) ->
    processed p t s (hand_on (Some (tokens p ++ [t])) s)
| processed_over : Forall good_token (tokens p ++ [t]) -> over_limit (tokens p ++ [t]) ->
    processed p t s (hand_on (Some (tokens p ++ [t])) s)
| processed_kept p' : tokens p' = tokens p ++ [t] -> stream_ok p' -> processed p t s (Ok (p', s)).

Lemma process_cases p tok type x y s : stream_ok p -> (type = JSON_STRING -> starts_nonzero tok) ->
  Z.of_nat (length tok) < 2 ^ 32 ->
  processed p (mkToken type tok x y) s (process tok type x y (p, s)).
Proof.
  intros Hp Hg Hlen. destruct (stream_range _ Hp) as [Hb Hk]. unfold json_message_process_token.
  rewrite (count_token_delta tok type x y) by done.
  set (t := mkToken type tok x y). set (toks := tokens p ++ [t]).
  assert (Hgood : Forall good_token toks).
  { apply Forall_app. split; [apply Hp|]. apply Forall_cons_2; [exact Hg|by apply Forall_nil_2]. }
  assert (E1 : brace_count p + brace_delta t = braces toks).
  { unfold toks. rewrite braces_app, (stream_braces _ Hp). cbn. lia. }
  assert (E2 : bracket_count p + bracket_delta t = brackets toks).
  { unfold toks. rewrite brackets_app, (stream_brackets _ Hp). cbn. lia. }
  assert (E3 : u64 (token_size p + Z.of_nat (length tok)) = sizes toks).
  { unfold toks. rewrite sizes_app, (stream_size _ Hp). cbn. rewrite Z.add_0_r. apply uwrap_small.
    pose proof (sizes_nonneg (tokens p)). pose proof (stream_max _ Hp). rewrite (stream_size _ Hp) in *.
    unfold MAX_TOKEN_SIZE in *. lia. }
  pose proof (delta_range t). rewrite E1, E2, E3. case_bool_decide; [by apply processed_error|].
  destruct ((braces toks <? 0) || (brackets toks <? 0) || ((braces toks =? 0) && (brackets toks =? 0))) eqn:Ec.
  { apply processed_complete; [done|]. apply complete_not_stuck; [by destruct (tokens p)|]. unfold toks, t in *. lia. }
  rewrite (uwrap_small 64 (brackets toks)), (uwrap_small 64 (braces toks)) by (unfold MAX_NESTING in *; lia).
  destruct ((MAX_TOKEN_SIZE <? sizes toks) || (MAX_NESTING <? brackets toks) || (MAX_NESTING <? braces toks)) eqn:Eo.
  { apply processed_over; [done|]. unfold over_limit, toks, t in *. lia. }
  apply processed_kept; [done|]. constructor; cbn; try done; lia.
Qed.

(** ** The bounds *)

Lemma process_ok p tok type x y s p' s' : stream_ok p -> event_good (tok, type, x, y) ->
  size_ok (tok, type, x, y) -> process tok type x y (p, s) = Ok (p', s') -> stream_ok p'.
Proof.
  intros Hp [ch [Hg _]] Hl H. unfold size_ok, ev_length in Hl. cbn in Hl. destruct (process_cases p tok type x y s Hp Hg Hl) as [| | |p1].
  1-3: unfold hand_on in H; apply bind_Ok in H as (? & _ & [= <- _]); apply stream_new.
  by injection H as <- _.
Qed.

Lemma process_all_ok evs : forall p s p' s', stream_ok p -> Forall event_good evs -> Forall size_ok evs ->
  emit_all process evs (p, s) = Ok (p', s') -> stream_ok p'.
Proof.
  induction evs as [|[[[tok type] x] y] evs IH]; intros p s p' s' Hp Hg Hl H; cbn in H.
  { by injection H as <- <-. }
  apply Forall_cons in Hg as [Hg Hgs], Hl as [Hl Hls]. apply bind_Ok in H as ([p1 s1] & H1 & H2).
  eapply IH; [|done..|exact H2]. eapply process_ok; [| | |exact H1]; done.
Qed.
End process.

(** ** No fault *)

Section parse.
Context {F : Type} (strtod : cstring -> F).

Abbreviation process := (json_message_process_token (parse_json strtod)).

(** A message that is not an end in the middle is parsed without a fault. *)
Lemma parse_json_ok ts s : Forall good_token ts -> ~ stuck ts -> ps_ap s = None ->
  exists s', parse_json strtod (Some ts) s = Ok s' /\ ps_ap s' = None.
Proof.
  intros Hg Hs Hap. unfold parse_json. rewrite Hap.
  assert (Hne : ts <> []) by (intros ->; apply Hs; by left).
  pose proof (parse_cases strtod ts Hg Hne) as Hc.
  destruct (json_parser_parse_err strtod (Some ts) None) as [[[[q|] e] args]|f]; cbn.
  - destruct Hc as (_ & -> & _). eauto.
  - subst args. eauto.
  - destruct Hc as [_ Hc]. done.
Qed.

Lemma brace_delta_opens tok type x y : event_good (tok, type, x, y) ->
  brace_delta (mkToken type tok x y) <= Z.of_nat (opens "{"%char [(tok, type, x, y)]) /\
  bracket_delta (mkToken type tok x y) <= Z.of_nat (opens "["%char [(tok, type, x, y)]).
Proof.
  intros [ch [_ Ho]]. unfold brace_delta, bracket_delta, opens, is_operator. cbn.
  destruct (decide (type = JSON_OPERATOR)) as [->|Hne].
  - rewrite (Ho eq_refl). cbn. split; repeat (case_bool_decide || case_match); cbn; try lia;
      repeat match goal with H : (_ =? _) = true |- _ => apply Z.eqb_eq in H; subst end; done.
  - rewrite bool_decide_eq_false_2 by done. cbn. by destruct type.
Qed.

Lemma processed_no_fault p t s r : processed (parse_json strtod) p t s r -> stream_ok p -> ps_ap s = None ->
  ~ over_limit (tokens p ++ [t]) ->
  exists p' s', r = Ok (p', s') /\ ps_ap s' = None /\ stream_ok p' /\
    (p' = message_parser_new \/ tokens p' = tokens p ++ [t]).
Proof.
  intros Hr Hp Hap Hov. destruct Hr as [_|Hg Hs|Hg Ho|p' Ht Hok].
  - unfold hand_on, parse_json. rewrite Hap. cbn. eexists _, _.
    split_and!; [reflexivity|done|apply stream_new|by left].
  - unfold hand_on. destruct (parse_json_ok _ s Hg Hs Hap) as (s' & -> & Hap'). cbn.
    eexists _, _. split_and!; [reflexivity|done|apply stream_new|by left].
  - done.
  - eexists _, _. split_and!; [reflexivity|done|done|by right].
Qed.

Lemma process_all_no_fault evs : forall p s, stream_ok p -> ps_ap s = None ->
  Forall event_good evs -> Forall size_ok evs ->
  brace_count p + Z.of_nat (opens "{"%char evs) <= MAX_NESTING ->
  bracket_count p + Z.of_nat (opens "["%char evs) <= MAX_NESTING ->
  token_size p + Z.of_nat (ev_sum evs) <= MAX_TOKEN_SIZE ->
  exists p' s', emit_all process evs (p, s) = Ok (p', s').
Proof.
  induction evs as [|[[[tok type] x] y] evs IH]; intros p s Hp Hap Hg Hl Hb Hk Hn; [by eexists _, _|].
  apply Forall_cons in Hg as [Hg Hgs], Hl as [Hl Hls].
  destruct (brace_delta_opens tok type x y Hg) as [Hd1 Hd2].
  assert (Hsplit : forall c, opens c ((tok, type, x, y) :: evs) = (opens c [(tok, type, x, y)] + opens c evs)%nat).
  { intros c. unfold opens. rewrite <- length_app, <- List.filter_app. done. }
  rewrite Hsplit in Hb, Hk.
  change (ev_sum ((tok, type, x, y) :: evs)) with (length tok + ev_sum evs)%nat in Hn.
  set (t := mkToken type tok x y) in *.
  assert (Htot : braces (tokens p ++ [t]) = brace_count p + brace_delta t /\
    brackets (tokens p ++ [t]) = bracket_count p + bracket_delta t /\
    sizes (tokens p ++ [t]) = token_size p + Z.of_nat (length tok)).
  { rewrite braces_app, brackets_app, sizes_app, (stream_braces _ Hp), (stream_brackets _ Hp), (stream_size _ Hp).
    cbn. lia. }
  destruct (processed_no_fault p t s _ (process_cases _ p tok type x y s Hp
    ltac:(by destruct Hg as [? [? _]]) Hl) Hp Hap) as (p' & s' & E & Hap' & Hp' & Hor).
  { unfold over_limit. lia. }
  cbn [emit_all]. rewrite E. cbn [res_bind].
  assert (Hle : brace_count p' <= brace_count p + Z.of_nat (opens "{"%char [(tok, type, x, y)]) /\
    bracket_count p' <= bracket_count p + Z.of_nat (opens "["%char [(tok, type, x, y)]) /\
    token_size p' <= token_size p + Z.of_nat (length tok)).
  { destruct (stream_range _ Hp). pose proof (sizes_nonneg (tokens p)). rewrite (stream_size p Hp) in *.
    destruct Hor as [->|Ht]; [cbn; lia|].
    rewrite (stream_braces _ Hp'), (stream_brackets _ Hp'), (stream_size _ Hp'), Ht. lia. }
  apply IH; try done; lia.
Qed.
End parse.
