(* ===== verification/JsonPrint.v ===== *)
(** * JSON: what the printer writes

    The text of a value, of [Json.to_json], as an equation: the printer
    appends to its string, and the text of an object or array is the texts of
    its members between brackets, with white space and commas.  The tokens
    that this text should be cut into, and the value that they should give. *)

From Stdlib Require Import Ascii String List.
From stdpp Require Import base numbers gmap list.
From S2P Require Import Prelude Qdict QdictFacts JsonLexer Json JsonParser JsonText.

(** Induction on values, through lists and tables. *)
Lemma QObject_ind {F} (P : QObject F -> Prop) :
  (forall v, P (QINT v)) -> (forall s, P (QSTRING s)) ->
  (forall d, Forall (fun e => P e.2) (entries d) -> P (QDICT d)) ->
  (forall l, Forall P l -> P (QLIST l)) ->
  (forall v, P (QFLOAT v)) -> (forall v, P (QBOOL v)) -> P QERROR ->
  forall q, P q.
Proof.
  intros Hi Hs Hd Hl Hf Hb He. fix IH 1. intros [v|s|d|l|v|v|].
  - apply Hi.
  - apply Hs.
  - apply Hd. destruct d as [n t]. unfold entries. cbn.
    induction t as [|c t IHt]; cbn; [by apply Forall_nil_2|]. apply Forall_app. split; [|exact IHt].
    induction c as [|[k q] c IHc]; [by apply Forall_nil_2|]. apply Forall_cons_2; [apply IH|exact IHc].
  - apply Hl. induction l as [|q l IHl]; [by apply Forall_nil_2|]. apply Forall_cons_2; [apply IH|exact IHl].
  - apply Hf.
  - apply Hb.
  - apply He.
Qed.

(** ** The printer appends *)

Definition spaces (j : nat) : cstring := concat (replicate j (str "    ")).

Lemma indentation_app j s : indentation j s = s ++ spaces j.
Proof.
  revert s. induction j as [|j IH]; intros s; cbn; [by rewrite app_nil_r|].
  rewrite IH. by rewrite <- app_assoc.
Qed.

(** The white space in front of a member or of the end. *)
Definition gap (pretty : bool) (indent : nat) : cstring :=
  if pretty then c_newline :: spaces indent else [].

Lemma iter_end_gap pretty indent s : iter_end pretty indent s = s ++ gap pretty indent.
Proof. unfold iter_end, gap. destruct pretty; [|by rewrite app_nil_r]. rewrite indentation_app. by rewrite <- app_assoc. Qed.

Lemma iter_begin_gap s : iter_begin s =
  it_str s ++ (if it_count s =? 0 then [] else str ", ") ++ gap (it_pretty s) (it_indent s).
Proof.
  unfold iter_begin, gap. destruct (it_count s =? 0), (it_pretty s);
    rewrite ?indentation_app, <- ?app_assoc, ?app_nil_r; done.
Qed.

Lemma print_chars_app fuel : forall p s, print_chars fuel p s = s ++ print_chars fuel p [].
Proof.
  induction fuel as [|fuel IH]; intros p s; [cbn; by rewrite app_nil_r|].
  destruct p as [|b p]; [cbn; by rewrite app_nil_r|]. cbn [print_chars].
  destruct (mod_utf8_codepoint (b :: p) 6) as [cp r]. rewrite IH, (IH r ([] ++ _)). by rewrite <- app_assoc.
Qed.

Lemma print_string_app v s : print_string v s = s ++ print_string v [].
Proof. unfold print_string. rewrite print_chars_app, (print_chars_app _ _ ([] ++ _)). by rewrite <- !app_assoc. Qed.

(** Members behind the first one, and all members. *)
Definition more_text (sep : cstring) (items : list cstring) : cstring :=
  concat (map (fun i => str ", " ++ sep ++ i) items).
Definition items_text (sep : cstring) (items : list cstring) : cstring :=
  match items with [] => [] | i :: items' => sep ++ i ++ more_text sep items' end.

Lemma iterate_text {A} (iter : A -> ToJsonIterState -> ToJsonIterState) (text : A -> cstring) pretty indent l :
  Forall (fun a => forall n s, iter a (mkIter indent pretty n s) =
    mkIter indent pretty (n + 1) (iter_begin (mkIter indent pretty n s) ++ text a)) l ->
  forall n s, 0 <= n -> it_str (fold_left (fun it a => iter a it) l (mkIter indent pretty n s)) =
    s ++ (if n =? 0 then items_text (gap pretty indent) (map text l)
          else more_text (gap pretty indent) (map text l)).
Proof.
  intros Hl. induction l as [|a l IH]; intros n s Hn; cbn [fold_left map].
  { cbn. case_match; by rewrite app_nil_r. }
  apply Forall_cons in Hl as [Ha Hl]. rewrite Ha, IH by (done || lia).
  rewrite (proj2 (Z.eqb_neq (n + 1) 0)) by lia. rewrite iter_begin_gap. cbn [it_str it_count it_pretty it_indent].
  destruct (Z.eqb_spec n 0); cbn [items_text]; unfold more_text; cbn [map concat];
    rewrite <- ?app_assoc; done.
Qed.

Section text.
Context {F : Type} (fmt_f : F -> cstring).
Abbreviation to_json := (to_json fmt_f).

Lemma dict_fold (f : (cstring * QObject F) -> ToJsonIterState -> ToJsonIterState) d s :
  qdict_iter (fun k o => f (k, o)) d s = fold_left (fun it e => f e it) (entries d) s.
Proof.
  rewrite qdict_iter_entries. revert s. generalize (entries d) as es.
  induction es as [|[k o] es IH]; intros s; [done|]. cbn. apply IH.
Qed.

Definition member_text pretty indent (e : cstring * QObject F) : cstring :=
  print_string e.1 [] ++ str ": " ++ to_json e.2 [] pretty indent.

Lemma dict_text d s pretty indent :
  Forall (fun e => forall s, to_json e.2 s pretty (S indent) = s ++ to_json e.2 [] pretty (S indent)) (entries d) ->
  to_json (QDICT d) s pretty indent =
  s ++ str "{" ++ items_text (gap pretty (S indent)) (map (member_text pretty (S indent)) (entries d)) ++
  gap pretty indent ++ str "}".
Proof.
  intros H. cbn [Json.to_json].
  rewrite (dict_fold (fun e => to_json_dict_iter to_json e.1 e.2)), iter_end_gap.
  rewrite (iterate_text _ (member_text pretty (S indent))); [cbn [Z.eqb]; by rewrite <- !app_assoc| |done].
  eapply Forall_impl; [exact H|]. intros [k o] Ho n s'. cbn in Ho. unfold to_json_dict_iter, member_text. cbn [fst snd it_pretty it_indent it_count].
  rewrite Ho, print_string_app. by rewrite <- !app_assoc.
Qed.

Lemma list_text l s pretty indent :
  Forall (fun o => forall s, to_json o s pretty (S indent) = s ++ to_json o [] pretty (S indent)) l ->
  to_json (QLIST l) s pretty indent =
  s ++ str "[" ++ items_text (gap pretty (S indent)) (map (fun o => to_json o [] pretty (S indent)) l) ++
  gap pretty indent ++ str "]".
Proof.
  intros H. cbn [Json.to_json]. rewrite iter_end_gap.
  rewrite (iterate_text (to_json_list_iter to_json) (fun o => to_json o [] pretty (S indent)));
    [cbn [Z.eqb]; by rewrite <- !app_assoc| |done].
  eapply Forall_impl; [exact H|]. intros o Ho n s'. cbn in Ho. unfold to_json_list_iter. by rewrite Ho.
Qed.

Lemma to_json_app q : forall s pretty indent, to_json q s pretty indent = s ++ to_json q [] pretty indent.
Proof.
  induction q as [v|v|d IH|l IH|v|v|] using QObject_ind; intros s pretty indent; try done.
  - apply print_string_app.
  - rewrite !dict_text; [done|..]; (eapply Forall_impl; [exact IH|]; by intros).
  - rewrite !list_text; [done|..]; (eapply Forall_impl; [exact IH|]; by intros).
  - cbn. by rewrite app_nil_r.
Qed.
End text.

(** A filter that keeps everything, or nothing. *)
Lemma filter_keep {A} (P : A -> Prop) `{forall x, Decision (P x)} (l : list A) :
  (forall x, x ∈ l -> P x) -> filter P l = l.
Proof.
  intros Hl. induction l as [|a l IH]; [done|]. rewrite filter_cons_True by (apply Hl; left).
  rewrite IH; [done|]. intros x Hx. apply Hl. by right.
Qed.

Lemma filter_drop {A} (P : A -> Prop) `{forall x, Decision (P x)} (l : list A) :
  (forall x, x ∈ l -> ~ P x) -> filter P l = [].
Proof.
  intros Hl. induction l as [|a l IH]; [done|]. rewrite filter_cons_False by (apply Hl; left).
  apply IH. intros x Hx. apply Hl. by right.
Qed.

(** ** The values that survive the round trip *)

Section values.
Context {F : Type}.

(** A value that can be read back: no [double], integers of 64 bits,
    strings that survive, flags 0 or 1, and tables in order. *)
Fixpoint printable_value (q : QObject F) : Prop :=
  match q with
  | QINT v => - 2 ^ 63 <= v < 2 ^ 63
  | QSTRING s => clean s
  | QDICT d =>
      qdict_ok d /\
      (fix all t := match t with
         | [] => True
         | c :: t' => (fix chain c := match c with
              | [] => True
              | e :: c' => (clean e.1 /\ printable_value e.2) /\ chain c'
              end) c /\ all t'
         end) (table d)
  | QLIST l => (fix all l := match l with [] => True | o :: l' => printable_value o /\ all l' end) l
  | QFLOAT _ | QERROR => False
  | QBOOL v => v = 0 \/ v = 1
  end.

Lemma printable_dict d : printable_value (QDICT d) <->
  qdict_ok d /\ Forall (fun e => clean e.1 /\ printable_value e.2) (entries d).
Proof.
  cbn. apply and_iff_compat_l. unfold entries. induction (table d) as [|c t IH]; cbn; [by rewrite Forall_nil|].
  rewrite Forall_app, IH. apply and_iff_compat_r. induction c as [|e c IHc]; [by rewrite Forall_nil|].
  by rewrite Forall_cons, IHc.
Qed.

Lemma printable_list l : printable_value (QLIST l) <-> Forall printable_value l.
Proof.
  cbn. induction l as [|o l IH]; [by rewrite Forall_nil|]. by rewrite Forall_cons, IH.
Qed.

(** How deep objects and arrays are nested. *)
Fixpoint depth (q : QObject F) : Z :=
  match q with
  | QDICT d => 1 + fold_right (fun c m => fold_right (fun e m => Z.max (depth e.2) m) m c) 0 (table d)
  | QLIST l => 1 + fold_right (fun o m => Z.max (depth o) m) 0 l
  | _ => 0
  end.

Lemma depth_fold (l : list (QObject F)) o m : o ∈ l -> depth o <= fold_right (fun o m => Z.max (depth o) m) m l.
Proof. induction 1; cbn; lia. Qed.

Lemma depth_dict_pos d : 1 <= depth (QDICT d).
Proof.
  cbn. enough (0 <= fold_right (fun c m => fold_right (fun e m => Z.max (depth e.2) m) m c) 0 (table d)) by lia.
  induction (table d) as [|c t IH]; cbn; [lia|]. induction c; cbn; lia.
Qed.

Lemma depth_list_pos l : 1 <= depth (QLIST l).
Proof.
  cbn. enough (0 <= fold_right (fun o m => Z.max (depth o) m) 0 l) by lia. induction l; cbn; lia.
Qed.

Lemma json_depth_nonneg q : 0 <= depth q.
Proof.
  destruct q as [v|s|d|l|v|v|]; try (cbn; lia).
  - pose proof (depth_dict_pos d). lia.
  - pose proof (depth_list_pos l). lia.
Qed.

Lemma depth_list l o : o ∈ l -> depth o < depth (QLIST l).
Proof. intros H. cbn. pose proof (depth_fold l o 0 H). lia. Qed.

Lemma depth_dict d e : e ∈ entries d -> depth e.2 < depth (QDICT d).
Proof.
  intros H. cbn.
  enough (depth e.2 <= fold_right (fun c m => fold_right (fun e m => Z.max (depth e.2) m) m c) 0 (table d)) by lia.
  unfold entries in H. induction (table d) as [|c t IH]; cbn in *; [by apply not_elem_of_nil in H|].
  apply elem_of_app in H as [H|H].
  - clear IH. induction H; cbn; lia.
  - specialize (IH H). clear H. induction c; cbn; lia.
Qed.

(** The value that is read back: every chain of a table is built from its
    head, so its order is reversed. *)
Fixpoint reload (q : QObject F) : QObject F :=
  match q with
  | QDICT d => QDICT (mkQDict (size d)
      (map (fun c => rev (map (fun e => (e.1, reload e.2)) c)) (table d)))
  | QLIST l => QLIST (map reload l)
  | _ => q
  end.

(** The same value up to the order of the entries in a chain. *)
Unset Elimination Schemes.
Inductive same_value : QObject F -> QObject F -> Prop :=
| same_int v : same_value (QINT v) (QINT v)
| same_string s : same_value (QSTRING s) (QSTRING s)
| same_dict d d' : qdict_size d = qdict_size d' ->
    (forall k, option_Forall2 same_value (qdict_get d k) (qdict_get d' k)) ->
    same_value (QDICT d) (QDICT d')
| same_list l l' : Forall2 same_value l l' -> same_value (QLIST l) (QLIST l')
| same_float v : same_value (QFLOAT v) (QFLOAT v)
| same_bool v : same_value (QBOOL v) (QBOOL v)
| same_error : same_value QERROR QERROR.
Set Elimination Schemes.

Definition reload_dict (d : QDict (QObject F)) : QDict (QObject F) :=
  mkQDict (size d) (map (fun c => rev (map (fun e => (e.1, reload e.2)) c)) (table d)).

(** Reversed chains hold the same entries. *)
Lemma reload_entries d : entries (reload_dict d) ≡ₚ map (fun e => (e.1, reload e.2)) (entries d).
Proof.
  unfold entries, reload_dict. cbn. induction (table d) as [|c t IH]; cbn; [done|].
  rewrite map_app, IH. f_equiv. symmetry. apply Permutation_rev.
Qed.

Lemma reload_ok d : qdict_ok d -> qdict_ok (reload_dict d).
Proof.
  intros [Hl Hc Hs]. constructor.
  - cbn. by rewrite length_map.
  - intros b c. cbn. intros (c0 & -> & Hb)%list_lookup_fmap_Some. destruct (Hc b c0 Hb) as [Hn Hk].
    assert (Hfst : (rev (map (fun e => (e.1, reload e.2)) c0)).*1 ≡ₚ c0.*1).
    { transitivity ((map (fun e => (e.1, reload e.2)) c0).*1).
      - apply fmap_Permutation. symmetry. apply Permutation_rev.
      - apply eq_subrelation; [apply _|]. clear. induction c0 as [|e c IH]; cbn; [done|]. by rewrite IH. }
    split.
    + by rewrite Hfst.
    + intros e He. apply list_elem_of_In, in_rev, in_map_iff in He as (e0 & <- & He).
      apply (Hk e0). by apply list_elem_of_In.
  - cbn [size reload_dict]. rewrite Hs. do 2 f_equal.
    etransitivity; [|symmetry; apply Permutation_length, reload_entries]. by rewrite length_map.
Qed.

Abbreviation reload_entry := (fun e : cstring * QObject F => (e.1, reload e.2)).

Lemma filter_concat_bucket (t : list (list (cstring * QObject F))) b base :
  (forall i c, t !! i = Some c -> forall e, e ∈ c -> bucket_of e.1 = (base + i)%nat) ->
  filter (fun e => bucket_of e.1 = (base + b)%nat) (map reload_entry (concat t)) =
  map reload_entry (default [] (t !! b)).
Proof.
  revert b base. induction t as [|c t IH]; intros b base Ht; [done|]. cbn [concat].
  rewrite map_app, filter_app.
  assert (Hc : filter (fun e => bucket_of e.1 = (base + b)%nat) (map reload_entry c) =
    if decide (b = 0%nat) then map reload_entry c else []).
  { assert (Hall : forall e, e ∈ map reload_entry c -> bucket_of e.1 = base).
    { intros e He. apply list_elem_of_In, in_map_iff in He as (e0 & <- & He). cbn.
      rewrite (Ht 0%nat c eq_refl e0) by by apply list_elem_of_In. lia. }
    destruct (decide (b = 0%nat)) as [->|Hb].
    - apply filter_keep. intros e He. rewrite (Hall e He). lia.
    - apply filter_drop. intros e He. rewrite (Hall e He). lia. }
  rewrite Hc. destruct b as [|b].
  - cbn. rewrite (filter_drop); [by rewrite app_nil_r|].
    intros e He. apply list_elem_of_In, in_map_iff in He as (e0 & <- & He). cbn.
    apply in_concat in He as (c' & Hc' & He). apply list_elem_of_In in Hc', He.
    apply list_elem_of_lookup_1 in Hc' as [i Hi]. rewrite (Ht (S i) c' Hi e0 He). lia.
  - cbn. replace (base + S b)%nat with (S base + b)%nat by lia. apply IH.
    intros i c' Hi e He. rewrite (Ht (S i) c' Hi e He). lia.
Qed.

(** Filling a table with the entries of another, in the order in which they
    are printed, reverses the chains and does nothing else. *)
Lemma put_all_reload d : qdict_ok d -> put_all (map reload_entry (entries d)) qdict_new = reload_dict d.
Proof.
  intros Hok. destruct (qdict_new_ok (V := QObject F)) as [Hnew Hempty].
  destruct (put_all_ok (map reload_entry (entries d)) qdict_new Hnew) as [Hp Hm].
  assert (Hnd : NoDup (map reload_entry (entries d)).*1).
  { replace ((map reload_entry (entries d)).*1) with (entries d).*1; [by apply entries_NoDup|].
    clear. induction (entries d) as [|e es IH]; cbn; [done|]. by rewrite IH. }
  pose proof (reload_ok d Hok) as Hr.
  assert (Ht : table (put_all (map reload_entry (entries d)) qdict_new) = table (reload_dict d)).
  { apply list_eq. intros b. destruct (decide (b < 512)%nat) as [Hb|Hb].
    - rewrite !chain_lookup by done. f_equal.
      rewrite put_all_layout; [|done..|by intros; rewrite Hempty].
      pose proof (filter_concat_bucket (table d) b 0
        (fun i c Hi e He => proj2 (ok_chain d Hok i c Hi) e He)) as Hf.
      cbn [Nat.add] in Hf. unfold entries. rewrite Hf.
      assert (chain (qdict_new (V := QObject F)) b = []) as ->.
      { unfold chain, qdict_new. cbn -[replicate]. by rewrite lookup_replicate_2. }
      rewrite app_nil_r. unfold chain, reload_dict. cbn.
      change (map ?f (table d) !! b) with ((f <$> table d) !! b). rewrite list_lookup_fmap.
      rewrite (chain_lookup d b Hok Hb). cbn. unfold reverse. by rewrite <- rev_alt.
    - rewrite !lookup_ge_None_2; [done|rewrite (ok_length _ Hr); lia|rewrite (ok_length _ Hp); lia]. }
  assert (Hs : size (put_all (map reload_entry (entries d)) qdict_new) = size (reload_dict d)).
  { rewrite (ok_size _ Hp), (ok_size _ Hr). unfold entries at 1 3. by rewrite Ht. }
  destruct (put_all _ _), (reload_dict d). cbn in Ht, Hs. by subst.
Qed.

Lemma reload_get d k : qdict_ok d -> qdict_get (reload_dict d) k = reload <$> qdict_get d k.
Proof.
  intros Hok. rewrite !qdict_get_map by (done || by apply reload_ok).
  unfold to_map. rewrite (list_to_map_proper _ _ (entries_NoDup _ (reload_ok d Hok)) (reload_entries d)).
  rewrite <- lookup_fmap, <- list_to_map_fmap. do 2 f_equal.
Qed.

Lemma reload_same q : printable_value q -> same_value q (reload q).
Proof.
  induction q as [v|v|d IH|l IH|v|v|] using QObject_ind; intros Hq; try by constructor.
  - apply printable_dict in Hq as [Hok Hq]. change (reload (QDICT d)) with (QDICT (reload_dict d)).
    constructor; [done|]. intros k. rewrite reload_get by done.
    destruct (qdict_get d k) as [o|] eqn:E; cbn; constructor.
    rewrite qdict_get_map in E by done.
    apply elem_of_list_to_map in E; [|by apply entries_NoDup].
    rewrite Forall_forall in IH, Hq. by apply (IH (k, o)), Hq.
  - apply printable_list in Hq. cbn. constructor.
    induction l as [|o l IHl]; cbn; constructor; apply Forall_cons in IH as [? ?], Hq as [? ?]; auto.
Qed.

Lemma reload_involutive q : reload (reload q) = q.
Proof.
  induction q as [v|v|d IH|l IH|v|v|] using QObject_ind; try done; cbn.
  - f_equal. destruct d as [n t]. unfold entries in IH. cbn in *. f_equal.
    induction t as [|c t IHt]; cbn in *; [done|]. apply Forall_app in IH as [Hc Ht].
    rewrite IHt by done. f_equal. rewrite map_rev, rev_involutive, map_map. clear IHt Ht.
    induction c as [|[k o] c IHc]; cbn; [done|]. apply Forall_cons in Hc as [Ho Hc]. cbn in Ho.
    f_equal; [by rewrite Ho|by apply IHc].
  - f_equal. rewrite map_map. induction l as [|o l IHl]; cbn; [done|].
    apply Forall_cons in IH as [Ho Hl]. by rewrite Ho, IHl.
Qed.
End values.
