(* ===== verification/JsonScan.v ===== *)
(** * JSON: the lexer reads what the printer writes

    How the lexer of [JsonLexer] cuts a text into tokens, as a relation
    between states that composes; the tokens of strings, integers, keywords,
    white space, and of members between brackets. *)

From Stdlib Require Import Ascii String List.
From stdpp Require Import base numbers list.
From S2P Require Import Prelude Qdict JsonLexer Json JsonParser JsonText JsonLex JsonPrint.

(** A token without its place. *)
Definition T (type : json_code) (tok : cstring) : JSONToken := mkToken type tok 0 0.
Definition op (a : ascii) : JSONToken := T JSON_OPERATOR [chr a].
Definition ev_token (ev : event) : JSONToken := T ev.1.1.2 ev.1.1.1.

(** Feeding [text] leads from one state to another and hands on [ts]. *)
Definition runs (st : json_code) (tok text : cstring) (st' : json_code) (tok' : cstring)
    (ts : list JSONToken) : Prop :=
  forall x y pre, exists x' y' evs, map ev_token evs = ts /\
    json_lexer_feed collect (mkLexer st tok x y) text pre = Ok (mkLexer st' tok' x' y', pre ++ evs).

Lemma feed_app {S} (emit : cstring -> json_code -> Z -> Z -> S -> res S) a b : forall lx s,
  json_lexer_feed emit lx (a ++ b) s =
  let* (lx', s') := json_lexer_feed emit lx a s in json_lexer_feed emit lx' b s'.
Proof.
  induction a as [|c a IH]; intros lx s; [done|]. cbn.
  destruct (json_lexer_feed_char emit lx c false s) as [[lx' s']|f]; cbn; [apply IH|done].
Qed.

Lemma runs_app st tok a st1 tok1 t1 b st2 tok2 t2 : runs st tok a st1 tok1 t1 -> runs st1 tok1 b st2 tok2 t2 ->
  runs st tok (a ++ b) st2 tok2 (t1 ++ t2).
Proof.
  intros H1 H2 x y pre. destruct (H1 x y pre) as (x1 & y1 & e1 & <- & E1).
  destruct (H2 x1 y1 (pre ++ e1)) as (x2 & y2 & e2 & <- & E2).
  exists x2, y2, (e1 ++ e2). split; [by rewrite map_app|]. rewrite feed_app, E1. cbn.
  by rewrite E2, app_assoc.
Qed.

Lemma runs_nil st tok : runs st tok [] st tok [].
Proof. intros x y pre. exists x, y, []. split; [done|]. cbn. by rewrite app_nil_r. Qed.

(** ** Single bytes *)

Definition bump (ch x y : Z) : Z * Z := if ch =? c_newline then (0, s32 (y + 1)) else (s32 (x + 1), y).

Lemma feed_char_bump {S} (emit : cstring -> json_code -> Z -> Z -> S -> res S) st tok x y ch flush s :
  json_lexer_feed_char emit (mkLexer st tok x y) ch flush s =
  let* (lx1, s1, returned) :=
    feed_loop emit feed_fuel (mkLexer st tok (bump ch x y).1 (bump ch x y).2) ch flush s in
  if returned : bool then Ok (lx1, s1)
  else if MAX_TOKEN_SIZE <? Z.of_nat (length (token lx1)) then
    let* s2 := emit (token lx1) (state lx1) (JsonLexer.x lx1) (JsonLexer.y lx1) s1 in
    Ok (mkLexer IN_START [] (JsonLexer.x lx1) (JsonLexer.y lx1), s2)
  else Ok (lx1, s1).
Proof. unfold json_lexer_feed_char, bump. cbn [state token JsonLexer.x JsonLexer.y]. by destruct (ch =? c_newline). Qed.

(** The kinds of token that are handed on. *)
Definition emitting (c : json_code) : bool :=
  match c with
  | JSON_OPERATOR | JSON_ESCAPE | JSON_INTEGER | JSON_FLOAT | JSON_KEYWORD | JSON_STRING => true
  | _ => false
  end.

Lemma step_consume st tok c new : json_lexer st c = Ok new -> is_row new = true -> new <> IN_ERROR ->
  json_lexer st 0 <> Ok new -> is_row st = true -> Z.of_nat (length tok) < MAX_TOKEN_SIZE ->
  runs st tok [c] new (tok ++ [c]) [].
Proof.
  intros Hn Hr He Hz Hst Hl x y pre. eexists _, _, []. split; [done|]. rewrite app_nil_r.
  cbn [json_lexer_feed]. rewrite feed_char_bump. unfold feed_fuel. remember 1%nat as one. cbn [feed_loop state].
  destruct (table_zero st Hst) as (t & Ht & _). rewrite Hn, Ht. rewrite Ht in Hz. cbn [res_bind].
  rewrite bool_decide_eq_false_2 by congruence. cbn [negb andb token JsonLexer.x JsonLexer.y].
  assert (Hlen : (MAX_TOKEN_SIZE <? Z.of_nat (length (tok ++ [c]))) = false).
  { apply Z.ltb_ge. rewrite length_app. cbn. lia. }
  destruct new; try done; cbn [res_bind token state JsonLexer.x JsonLexer.y]; rewrite Hlen; done.
Qed.

Lemma step_emit st tok c code : json_lexer st c = Ok code -> emitting code = true ->
  json_lexer st 0 <> Ok code -> is_row st = true ->
  runs st tok [c] IN_START [] [T code (tok ++ [c])].
Proof.
  intros Hn Hr Hz Hst x y pre. eexists _, _, [(tok ++ [c], code, _, _)]. split; [done|].
  cbn [json_lexer_feed]. rewrite feed_char_bump. unfold feed_fuel. remember 1%nat as one. cbn [feed_loop state].
  destruct (table_zero st Hst) as (t & Ht & _). rewrite Hn, Ht. rewrite Ht in Hz. cbn [res_bind].
  rewrite bool_decide_eq_false_2 by congruence. cbn [negb andb token JsonLexer.x JsonLexer.y].
  destruct code; try done; reflexivity.
Qed.

(** The loop at the start takes one pass. *)
Lemma start_once {S} (emit : cstring -> json_code -> Z -> Z -> S -> res S) n m x y c flush s :
  feed_loop emit (Datatypes.S n) (mkLexer IN_START [] x y) c flush s =
  feed_loop emit (Datatypes.S m) (mkLexer IN_START [] x y) c flush s.
Proof.
  cbn [feed_loop state]. destruct (table_row IN_START c eq_refl) as (new & Hn & He).
  rewrite Hn. change (json_lexer IN_START 0) with (Ok IN_ERROR). cbn [res_bind].
  destruct (decide (new = IN_ERROR)) as [->|Hne]; [done|].
  rewrite bool_decide_eq_false_2 by congruence. cbn [negb andb]. done.
Qed.

(** The token in front of a lookahead, or none for white space. *)
Definition ahead (code : json_code) (tok : cstring) : list JSONToken :=
  if emitting code then [T code tok] else [].

Lemma step_look st tok c text code st' tok' ts : json_lexer st c = Ok code -> json_lexer st 0 = Ok code ->
  emitting code = true \/ code = JSON_SKIP ->
  runs IN_START [] (c :: text) st' tok' ts -> runs st tok (c :: text) st' tok' (ahead code tok ++ ts).
Proof.
  intros Hn Hz Hc Hr x y pre. destruct (bump c x y) as [x1 y1] eqn:Eb.
  set (ev := if emitting code then [(tok, code, x1, y1)] else []).
  destruct (Hr x y (pre ++ ev)) as (x' & y' & evs & <- & E). exists x', y', (ev ++ evs). split.
  { rewrite map_app. unfold ev, ahead. by destruct (emitting code). }
  rewrite app_assoc, <- E. cbn [json_lexer_feed]. f_equal. rewrite !feed_char_bump, Eb. cbn [fst snd].
  f_equal. unfold feed_fuel. rewrite (start_once collect 1 0).
  replace (feed_loop collect 2 (mkLexer st tok x1 y1) c false pre) with
    (feed_loop collect 1 (mkLexer IN_START [] x1 y1) c false (pre ++ ev)); [done|].
  symmetry. remember 1%nat as one. cbn [feed_loop state]. rewrite Hn, Hz. cbn [res_bind].
  rewrite bool_decide_eq_true_2 by done. cbn [negb andb token JsonLexer.x JsonLexer.y]. unfold ev.
  destruct Hc as [Hc| ->]; [|cbn [emitting]; by rewrite app_nil_r]. destruct code; done.
Qed.

(** ** Strings *)

(** Text inside a string that stays inside. *)
Definition inside (text : cstring) : Prop := forall tok,
  Z.of_nat (length tok + length text) <= MAX_TOKEN_SIZE ->
  runs IN_DQ_STRING tok text IN_DQ_STRING (tok ++ text) [].

(** A step to a state of a string. *)
Lemma consume st tok c new : json_lexer st c = Ok new -> is_row new = true -> new <> IN_ERROR ->
  string_state st = true -> Z.of_nat (length tok) < MAX_TOKEN_SIZE ->
  runs st tok [c] new (tok ++ [c]) [].
Proof.
  intros Hn Hr He Hs Hl. assert (Hz : json_lexer st 0 = Ok IN_ERROR) by by destruct st.
  apply step_consume; try done; [congruence|by destruct st].
Qed.

Lemma inside_nil : inside [].
Proof. intros tok _. rewrite app_nil_r. apply runs_nil. Qed.

Lemma inside_app a b : inside a -> inside b -> inside (a ++ b).
Proof.
  intros Ha Hb tok Hl. rewrite length_app in Hl. rewrite (app_assoc tok). change (@nil JSONToken) with (@nil JSONToken ++ []).
  eapply runs_app; [apply Ha; lia|apply Hb; rewrite length_app; lia].
Qed.

Lemma inside_concat l : Forall inside l -> inside (concat l).
Proof. induction 1; cbn; [apply inside_nil|by apply inside_app]. Qed.

Lemma inside_plain c : printable c -> c <> c_dquote -> c <> c_backslash -> inside [c].
Proof.
  intros Hc H1 H2 tok Hl. cbn [length] in Hl. apply consume; try done; [|lia]. cbn. f_equal.
  unfold string_row, between, printable in *. zcases; lia || done.
Qed.

Lemma runs_two st tok a b st1 st2 : runs st tok [a] st1 (tok ++ [a]) [] ->
  runs st1 (tok ++ [a]) b st2 ((tok ++ [a]) ++ b) [] -> runs st tok (a :: b) st2 (tok ++ a :: b) [].
Proof.
  intros H1 H2. change (a :: b) with ([a] ++ b). change (@nil JSONToken) with (@nil JSONToken ++ []).
  rewrite (app_assoc tok). by eapply runs_app.
Qed.

Lemma inside_escape e : json_lexer IN_DQ_STRING_ESCAPE e = Ok IN_DQ_STRING -> inside [c_backslash; e].
Proof.
  intros He tok Hl. cbn [length] in Hl. eapply runs_two; [apply (consume _ _ _ IN_DQ_STRING_ESCAPE); try done; lia|].
  apply consume; try done. rewrite length_app. cbn. lia.
Qed.

Lemma inside_u v : 0 <= v < 65536 -> inside ([c_backslash; chr "u"] ++ hex4 v).
Proof.
  intros Hv tok Hl. destruct (hex4_read v Hv) as (a & b & c & d & E & Hx & _). rewrite E in *. clear E.
  apply andb_prop in Hx as [[[Ha Hb]%andb_prop Hc]%andb_prop Hd]. cbn [app length] in *.
  assert (Hk : forall st new w z, json_lexer st z = Ok new -> is_row new = true -> new <> IN_ERROR -> string_state st = true ->
    (length w < length tok + 6)%nat -> runs st w [z] new (w ++ [z]) []).
  { intros. apply consume; try done. lia. }
  assert (Hxd : forall st new z, json_lexer st z = Ok (on_xdigit new z) -> isxdigit z = true -> json_lexer st z = Ok new).
  { intros st new z E Hz. rewrite E. unfold on_xdigit. by rewrite Hz. }
  eapply runs_two; [apply (Hk _ IN_DQ_STRING_ESCAPE); [reflexivity|done..|lia]|].
  eapply runs_two; [apply (Hk _ IN_DQ_UCODE0); [reflexivity|done..|rewrite ?length_app; cbn; lia]|].
  eapply runs_two; [apply (Hk _ IN_DQ_UCODE1); [by apply Hxd|done..|rewrite ?length_app; cbn; lia]|].
  eapply runs_two; [apply (Hk _ IN_DQ_UCODE2); [by apply Hxd|done..|rewrite ?length_app; cbn; lia]|].
  eapply runs_two; [apply (Hk _ IN_DQ_UCODE3); [by apply Hxd|done..|rewrite ?length_app; cbn; lia]|].
  apply (Hk _ IN_DQ_STRING); [by apply Hxd|done..|rewrite ?length_app; cbn; lia].
Qed.

Lemma inside_codepoint cp : -1 <= cp <= 0x10FFFF -> inside (print_codepoint cp).
Proof.
  intros Hcp. unfold print_codepoint.
  repeat (case_match; [by apply inside_escape|]).
  set (cp' := if cp <? 0 then 0xFFFD else cp).
  assert (Hcp' : 0 <= cp' <= 0x10FFFF /\ cp' <> c_dquote /\ cp' <> c_backslash).
  { unfold cp', c_dquote, c_backslash in *. zcases; lia. }
  destruct (Z.ltb_spec 0xFFFF cp').
  - change 0x3FF with (Z.ones 10). rewrite Z.land_ones, Z.shiftr_div_pow2 by lia.
    change (2 ^ 10) with 1024. rewrite app_assoc. apply inside_app; apply inside_u; dlia.
  - destruct ((cp' <? 0x20) || (0x7F <=? cp')) eqn:E.
    + apply inside_u. lia.
    + apply inside_plain; [unfold printable|..]; lia.
Qed.

(** The text of a string is one token. *)
Lemma runs_string s : Forall is_byte s -> Z.of_nat (length (print_string s [])) <= MAX_TOKEN_SIZE ->
  runs IN_START [] (print_string s []) IN_START [] [T JSON_STRING (print_string s [])].
Proof.
  intros Hs. rewrite print_string_text by done. cbn [app]. intros Hl.
  set (body := concat (map print_codepoint (codepoints s))) in *.
  cbn [length] in Hl. rewrite length_app in Hl. cbn [length] in Hl.
  change (c_dquote :: body ++ [c_dquote]) with ([c_dquote] ++ body ++ [c_dquote]) at 1.
  change [T JSON_STRING (c_dquote :: body ++ [c_dquote])] with ([] ++ [T JSON_STRING (c_dquote :: body ++ [c_dquote])]).
  eapply runs_app; [apply (step_consume IN_START [] c_dquote IN_DQ_STRING); done|].
  change [T JSON_STRING (c_dquote :: body ++ [c_dquote])] with ([] ++ [T JSON_STRING (([c_dquote] ++ body) ++ [c_dquote])]).
  eapply runs_app; [|by apply (step_emit IN_DQ_STRING ([c_dquote] ++ body) c_dquote JSON_STRING)].
  assert (Hin : inside body).
  { apply inside_concat. apply Forall_map. eapply Forall_impl; [by apply codepoints_range|].
    intros cp Hcp. by apply inside_codepoint. }
  apply Hin. cbn. lia.
Qed.

(** ** Tokens that end in front of another byte *)

(** What may follow a value. *)
Definition enders : list Z := [chr ","; chr ":"; chr "}"; chr "]"; chr " "; c_newline].

(** A state that hands on a token of kind [code] when something follows. *)
Definition pending (st : json_code) (code : json_code) : Prop :=
  Forall (fun c => json_lexer st c = Ok code) enders /\ json_lexer st 0 = Ok code /\
  emitting code = true /\ st <> IN_START.

Lemma pending_zero : pending IN_ZERO JSON_INTEGER.
Proof. split_and!; try done. repeat (apply Forall_cons_2; [done|]). by apply Forall_nil_2. Qed.
Lemma pending_number : pending IN_NONZERO_NUMBER JSON_INTEGER.
Proof. split_and!; try done. repeat (apply Forall_cons_2; [done|]). by apply Forall_nil_2. Qed.
Lemma pending_keyword : pending IN_KEYWORD JSON_KEYWORD.
Proof. split_and!; try done. repeat (apply Forall_cons_2; [done|]). by apply Forall_nil_2. Qed.

Lemma digit_number c : is_digit c = true -> json_lexer IN_NONZERO_NUMBER c = Ok IN_NONZERO_NUMBER.
Proof. intros H. cbn. by rewrite H. Qed.

(** Steps that stay in a state. *)
Lemma runs_stay st ds : Forall (fun c => json_lexer st c = Ok st) ds -> is_row st = true -> st <> IN_ERROR ->
  json_lexer st 0 <> Ok st -> forall tok, Z.of_nat (length tok + length ds) <= MAX_TOKEN_SIZE ->
  runs st tok ds st (tok ++ ds) [].
Proof.
  intros Hds Hr He Hz. induction Hds as [|c ds Hc Hds IH]; intros tok Hl; [rewrite app_nil_r; apply runs_nil|].
  cbn [length] in Hl. eapply runs_two; [apply step_consume; try done; lia|].
  apply IH. rewrite length_app. cbn. lia.
Qed.

(** The digits of a number, behind what may come in front of it. *)
Lemma runs_digits st tok n : 0 <= n ->
  (forall d, 0 < d < 10 -> json_lexer st (d + "0"%char) = Ok IN_NONZERO_NUMBER) ->
  json_lexer st "0"%char = Ok IN_ZERO -> json_lexer st 0 = Ok IN_ERROR -> is_row st = true ->
  Z.of_nat (length tok + length (print_nonneg n)) <= MAX_TOKEN_SIZE ->
  exists st', pending st' JSON_INTEGER /\ runs st tok (print_nonneg n) st' (tok ++ print_nonneg n) [].
Proof.
  intros Hn Hd H0 Hz Hr Hl. destruct (print_nonneg_ok n Hn) as (Hall & _ & d & ds & E & Hrange & Hd0).
  rewrite E in *. cbn [length] in Hl. apply Forall_cons in Hall as [_ Hall].
  destruct (Z.eq_dec d 0) as [->|Hne].
  - destruct (Hd0 eq_refl) as [-> ->]. exists IN_ZERO. split; [apply pending_zero|].
    apply step_consume; try done; [rewrite Hz; done|lia].
  - exists IN_NONZERO_NUMBER. split; [apply pending_number|].
    eapply runs_two; [apply step_consume; [apply Hd; lia|done|done|by rewrite Hz|done|lia]|].
    apply runs_stay; try done; [|rewrite length_app; cbn; lia].
    eapply Forall_impl; [exact Hall|]. intros c Hc. by apply digit_number.
Qed.

Lemma runs_int v : Z.of_nat (length (print_int v)) <= MAX_TOKEN_SIZE ->
  exists st, pending st JSON_INTEGER /\ runs IN_START [] (print_int v) st (print_int v) [].
Proof.
  assert (Hdigit : forall d, 0 < d < 10 -> d = 1 \/ d = 2 \/ d = 3 \/ d = 4 \/ d = 5 \/ d = 6 \/ d = 7 \/ d = 8 \/ d = 9) by lia.
  unfold print_int. destruct (Z.ltb_spec v 0); intros Hl; cbn [length] in Hl.
  - destruct (runs_digits IN_NEG_NONZERO_NUMBER [chr "-"] (- v)) as (st & Hp & Hr); try done; [lia| |].
    { intros d Hd%Hdigit. repeat destruct Hd as [->|Hd]; subst; done. }
    exists st. split; [done|]. change (chr "-" :: print_nonneg (- v)) with ([] ++ chr "-" :: print_nonneg (- v)) at 2.
    eapply runs_two; [apply (step_consume IN_START [] _ IN_NEG_NONZERO_NUMBER); done|exact Hr].
  - destruct (runs_digits IN_START [] v) as (st & Hp & Hr); try done; [|by exists st].
    intros d Hd%Hdigit. repeat destruct Hd as [->|Hd]; subst; done.
Qed.

Lemma runs_keyword c s : between "a"%char "z"%char c = true -> Forall (fun c => between "a"%char "z"%char c = true) s ->
  json_lexer IN_START c = Ok IN_KEYWORD -> Z.of_nat (length (c :: s)) <= MAX_TOKEN_SIZE ->
  runs IN_START [] (c :: s) IN_KEYWORD (c :: s) [].
Proof.
  intros Hc Hs Hk Hl. cbn [length] in Hl. change (c :: s) with ([] ++ c :: s) at 2.
  eapply runs_two; [by apply step_consume|]. apply runs_stay; try done.
  eapply Forall_impl; [exact Hs|]. intros c' Hc'. cbn. by rewrite Hc'.
Qed.

(** ** Values in front of what may follow them *)

Definition lexed (text : cstring) (ts : list JSONToken) : Prop := forall c rest st tok ts',
  c ∈ enders -> runs IN_START [] (c :: rest) st tok ts' ->
  runs IN_START [] (text ++ c :: rest) st tok (ts ++ ts').

(** The whole run over a text, with the flush at its end. *)
Definition finishes (text : cstring) (ts : list JSONToken) : Prop := forall x y, exists lx evs,
  map ev_token evs = ts /\ lex_all collect (mkLexer IN_START [] x y) text [] = Ok (lx, evs).

Lemma settled_lexed text ts : runs IN_START [] text IN_START [] ts -> lexed text ts /\ finishes text ts.
Proof.
  intros Hr. split.
  - intros c rest st tok ts' _ H. by eapply runs_app.
  - intros x y. destruct (Hr x y []) as (x' & y' & evs & <- & E). eexists _, evs. split; [done|].
    unfold lex_all. rewrite E. done.
Qed.

Lemma pending_lexed text st code : pending st code -> runs IN_START [] text st text [] -> is_row st = true ->
  lexed text [T code text] /\ finishes text [T code text].
Proof.
  intros (Hp & Hz & He & Hne) Hr Hrow. split.
  - intros c rest st' tok ts' Hc H. rewrite Forall_forall in Hp.
    change ([T code text] ++ ts') with ([] ++ [T code text] ++ ts'). eapply runs_app; [exact Hr|].
    replace [T code text] with (ahead code text) by (unfold ahead; by rewrite He).
    apply step_look; [by apply Hp|done|by left|done].
  - intros x y. destruct (Hr x y []) as (x' & y' & evs & Hevs & E).
    apply map_eq_nil in Hevs. subst evs. eexists _, [(text, code, _, _)]. split; [done|].
    unfold lex_all. rewrite E. cbn [res_bind]. unfold json_lexer_flush. cbn [state].
    rewrite bool_decide_eq_false_2 by done. rewrite feed_char_bump. unfold feed_fuel. remember 1%nat as one.
    cbn [feed_loop state]. rewrite Hz. cbn [res_bind]. rewrite bool_decide_eq_true_2 by done.
    cbn [negb andb token JsonLexer.x JsonLexer.y]. destruct code; done.
Qed.

(** ** White space *)

Definition white (c : Z) : Prop := c = chr " " \/ c = c_newline.
(** A byte that begins a token, or an end. *)
Definition solid (c : Z) : Prop := 0 <= c <= 0x7F /\ is_white c = false.

Lemma white_row c : white c -> json_lexer IN_START c = Ok IN_WHITESPACE /\ json_lexer IN_WHITESPACE c = Ok IN_WHITESPACE.
Proof. by intros [->| ->]. Qed.

Lemma runs_white ws c rest st tok ts : Forall white ws -> solid c ->
  Z.of_nat (length ws) <= MAX_TOKEN_SIZE ->
  runs IN_START [] (c :: rest) st tok ts -> runs IN_START [] (ws ++ c :: rest) st tok ts.
Proof.
  intros Hws Hc Hl Hr. destruct ws as [|w ws]; [done|]. cbn [length] in Hl.
  assert (Hrun : runs IN_START [] (w :: ws) IN_WHITESPACE (w :: ws) []).
  { apply Forall_cons in Hws as [Hw Hws]. change (w :: ws) with ([] ++ w :: ws) at 2.
    eapply runs_two; [apply (step_consume _ _ _ IN_WHITESPACE); [by apply white_row|done..]|].
    apply runs_stay; try done. eapply Forall_impl; [exact Hws|]. intros c' Hc'. by apply white_row. }
  change ts with ([] ++ ts). eapply runs_app; [exact Hrun|].
  apply (step_look _ _ _ _ JSON_SKIP); [|done|by right|exact Hr].
  destruct Hc as [Hc Hw]. cbn. rewrite Hw. unfold TERMINAL, between.
  by rewrite (proj2 (Z.leb_le 0 c)), (proj2 (Z.leb_le c 0x7F)) by lia.
Qed.

Lemma spaces_white j : Forall white (spaces j).
Proof.
  induction j as [|j IH]; [by apply Forall_nil_2|]. cbn.
  repeat (apply Forall_cons_2; [by left|]). exact IH.
Qed.

Lemma gap_white pretty indent : Forall white (gap pretty indent).
Proof. destruct pretty; [|by apply Forall_nil_2]. apply Forall_cons_2; [by right|apply spaces_white]. Qed.

(** ** Members between brackets *)

(** Members behind the first one, and all members. *)
Definition more_tokens (tss : list (list JSONToken)) : list JSONToken :=
  concat (map (fun ts => op "," :: ts) tss).
Definition join_tokens (tss : list (list JSONToken)) : list JSONToken :=
  match tss with [] => [] | ts :: tss' => ts ++ more_tokens tss' end.

(** The text of a member: it begins with a token and is cut as it should. *)
Definition member (i : cstring * list JSONToken) : Prop :=
  lexed i.1 i.2 /\ exists c rest, i.1 = c :: rest /\ solid c.

Lemma runs_op a : json_lexer IN_START (chr a) = Ok JSON_OPERATOR -> runs IN_START [] [chr a] IN_START [] [op a].
Proof. intros H. by apply (step_emit IN_START [] (chr a) JSON_OPERATOR). Qed.

Section members.
Context (sep egap : cstring) (close : ascii).
Hypothesis sep_white : Forall white sep.
Hypothesis sep_length : Z.of_nat (S (length sep)) <= MAX_TOKEN_SIZE.
Hypothesis egap_white : Forall white egap.
Hypothesis egap_length : Z.of_nat (length egap) <= MAX_TOKEN_SIZE.
Hypothesis close_op : close = "}"%char \/ close = "]"%char.

Lemma close_facts : json_lexer IN_START (chr close) = Ok JSON_OPERATOR /\ solid (chr close) /\ chr close ∈ enders.
Proof.
  destruct close_op as [->| ->]; (split_and!; [done|by split|]).
  - do 2 apply list_elem_of_further. apply list_elem_of_here.
  - do 3 apply list_elem_of_further. apply list_elem_of_here.
Qed.

Lemma runs_close : runs IN_START [] (egap ++ [chr close]) IN_START [] [op close].
Proof. destruct close_facts as (H1 & H2 & _). apply runs_white; try done. by apply runs_op. Qed.

(** What follows a member begins with an end. *)
Lemma rest_ends texts : exists c rest, more_text sep texts ++ egap ++ [chr close] = c :: rest /\ c ∈ enders.
Proof.
  destruct texts as [|t texts]; cbn.
  - destruct egap as [|w ws]; cbn; [by eexists _, _; split; [done|apply close_facts]|].
    apply Forall_cons in egap_white as [[->| ->] _]; eexists _, _; (split; [done|]).
    + do 4 apply list_elem_of_further. apply list_elem_of_here.
    + do 5 apply list_elem_of_further. apply list_elem_of_here.
  - eexists _, _. split; [done|]. apply list_elem_of_here.
Qed.

(** A member, and what follows it. *)
Lemma runs_member ws i texts st tok ts : member i -> Forall white ws -> Z.of_nat (length ws) <= MAX_TOKEN_SIZE ->
  runs IN_START [] (more_text sep texts ++ egap ++ [chr close]) st tok ts ->
  runs IN_START [] (ws ++ i.1 ++ more_text sep texts ++ egap ++ [chr close]) st tok (i.2 ++ ts).
Proof.
  intros [Hi (c & rest & Ei & Hc)] Hws Hl Hr.
  destruct (rest_ends texts) as (c' & rest' & E & Hc'). rewrite E in *.
  assert (H : runs IN_START [] (i.1 ++ c' :: rest') st tok (i.2 ++ ts)) by by apply Hi.
  rewrite Ei in *. by apply runs_white.
Qed.

Lemma runs_more items : Forall member items ->
  runs IN_START [] (more_text sep (map fst items) ++ egap ++ [chr close]) IN_START []
    (more_tokens (map snd items) ++ [op close]).
Proof.
  induction 1 as [|i items Hi Hitems IH]; [apply runs_close|].
  cbn [map more_text more_tokens concat]. rewrite <- !app_assoc.
  change (str ", ") with ([chr ","] ++ [chr " "]). rewrite <- app_assoc.
  change ((op "," :: i.2) ++ ?t) with ([op ","] ++ i.2 ++ t).
  eapply runs_app; [by apply runs_op|]. rewrite (app_assoc [chr " "]).
  apply runs_member; [done|apply Forall_cons_2; [by left|done]|done|exact IH].
Qed.

Lemma runs_container (open : ascii) items : json_lexer IN_START (chr open) = Ok JSON_OPERATOR -> Forall member items ->
  runs IN_START [] ([chr open] ++ items_text sep (map fst items) ++ egap ++ [chr close]) IN_START []
    (op open :: join_tokens (map snd items) ++ [op close]).
Proof.
  intros Ho Hitems. change (op open :: ?l) with ([op open] ++ l). eapply runs_app; [by apply runs_op|].
  destruct Hitems as [|i items Hi Hitems]; [apply runs_close|]. cbn [map items_text join_tokens].
  rewrite <- !app_assoc. apply runs_member; [done|done|lia|by apply runs_more].
Qed.
End members.

(** The name of a member of an object, in front of its value. *)
Lemma pair_member k v : Forall is_byte k -> Z.of_nat (length (print_string k [])) <= MAX_TOKEN_SIZE -> member v ->
  member (print_string k [] ++ str ": " ++ v.1, T JSON_STRING (print_string k []) :: op ":" :: v.2).
Proof.
  intros Hk Hl [Hv (c & rest & Ev & Hc)]. split; cbn [fst snd].
  - intros c' rest' st tok ts' Hc' Hr. rewrite <- !app_assoc.
    change ((T JSON_STRING (print_string k []) :: op ":" :: v.2) ++ ts') with
      ([T JSON_STRING (print_string k [])] ++ [op ":"] ++ v.2 ++ ts').
    eapply runs_app; [by apply runs_string|]. change (str ": ") with ([chr ":"] ++ [chr " "]).
    rewrite <- app_assoc. eapply runs_app; [by apply runs_op|].
    assert (H : runs IN_START [] (v.1 ++ c' :: rest') st tok (v.2 ++ ts')) by by apply Hv.
    rewrite Ev in *. apply runs_white; try done. apply Forall_cons_2; [by left|by apply Forall_nil_2].
  - rewrite print_string_text by done. eexists _, _. split; [reflexivity|]. by split.
Qed.
