(* ===== verification/JsonRound.v ===== *)
(** * JSON: from a value to text and back

    The tokens of a printed value, that the lexer finds them, that the
    splitter keeps them together, and that the grammar derives the value from
    them. *)

From Stdlib Require Import Ascii String List.
From stdpp Require Import base numbers gmap list.
From S2P Require Import Prelude Qdict QdictFacts JsonLexer Json JsonParser JsonText JsonGrammar JsonSound JsonLex JsonPrint JsonScan.

(** ** Tokens without their place *)

Definition strip (t : JSONToken) : JSONToken := T (t_type t) (t_token t).

Lemma strip_operator t a : token_is_operator (strip t) a = token_is_operator t a.
Proof. done. Qed.

Lemma strip_counts ts : braces (map strip ts) = braces ts /\ brackets (map strip ts) = brackets ts /\
  sizes (map strip ts) = sizes ts.
Proof. induction ts as [|t ts (IH1 & IH2 & IH3)]; [done|]. cbn. rewrite IH1, IH2, IH3. done. Qed.

Section strip.
Context {F : Type} (strtod : cstring -> F).

Lemma strip_scalar t q : scalar_of strtod (strip t) q <-> scalar_of strtod t q.
Proof. done. Qed.

Ltac split_strip := repeat match goal with
  | H : map strip _ = _ ++ _ |- _ => apply map_eq_app in H as (? & ? & -> & ? & ?)
  | H : map strip _ = _ :: _ |- _ => apply map_eq_cons in H as (? & ? & -> & <- & ?)
  | H : map strip _ = [] |- _ => apply map_eq_nil in H as ->
  end.

Lemma grammar_strip :
  (forall us q, value_of strtod us q -> forall ts, map strip ts = us -> value_of strtod ts q) /\
  (forall d us d', pairs_of strtod d us d' -> forall ts, map strip ts = us -> pairs_of strtod d ts d') /\
  (forall l us l', elems_of strtod l us l' -> forall ts, map strip ts = us -> elems_of strtod l ts l').
Proof.
  apply grammar_ind; intros; split_strip.
  - by apply value_scalar.
  - by apply value_empty_dict.
  - apply value_dict; [done|]. auto.
  - by apply value_empty_list.
  - apply value_list; [done|]. auto.
  - apply pairs_last; auto.
  - eapply pairs_more; auto.
  - apply elems_last; auto.
  - eapply elems_more; auto.
Qed.
End strip.

(** ** The tokens of a value *)

Section tokens.
Context {F : Type}.

Definition string_token (s : cstring) : JSONToken := T JSON_STRING (print_string s []).

Fixpoint tokens_of (q : QObject F) : list JSONToken :=
  match q with
  | QINT v => [T JSON_INTEGER (print_int v)]
  | QSTRING s => [string_token s]
  | QDICT d => op "{" :: join_tokens (concat (map (fun c =>
        map (fun e => string_token e.1 :: op ":" :: tokens_of e.2) c) (table d))) ++ [op "}"]
  | QLIST l => op "[" :: join_tokens (map tokens_of l) ++ [op "]"]
  | QBOOL v => [T JSON_KEYWORD (if negb (v =? 0) then str "true" else str "false")]
  | QFLOAT _ | QERROR => []
  end.

Definition pair_tokens (e : cstring * QObject F) : list JSONToken :=
  string_token e.1 :: op ":" :: tokens_of e.2.

Lemma tokens_of_dict d : tokens_of (QDICT d) = op "{" :: join_tokens (map pair_tokens (entries d)) ++ [op "}"].
Proof. cbn. unfold entries. by rewrite concat_map. Qed.

(** ** Nesting *)

(** Nothing is closed that was not open, nor nested deeper than [D]. *)
Record flat (D : Z) (ts : list JSONToken) : Prop := {
  flat_braces : braces ts = 0;
  flat_brackets : brackets ts = 0;
  flat_prefix : forall pre suf, ts = pre ++ suf ->
    0 <= braces pre /\ 0 <= brackets pre /\ braces pre + brackets pre <= D }.

(** A single value: open from its first token to its last. *)
Definition nested (D : Z) (ts : list JSONToken) : Prop :=
  flat D ts /\ ts <> [] /\ forall pre suf, ts = pre ++ suf -> pre <> [] -> suf <> [] ->
    0 < braces pre + brackets pre.

Lemma flat_nil D : 0 <= D -> flat D [].
Proof.
  intros HD. constructor; [done..|]. intros pre suf E. symmetry in E. apply app_nil in E as [-> _]. cbn. lia.
Qed.

Lemma flat_one D t : 0 <= D -> brace_delta t = 0 -> bracket_delta t = 0 -> flat D [t].
Proof.
  intros HD H1 H2. constructor; [cbn; lia..|]. intros pre suf E.
  destruct pre as [|t' pre]; [cbn; lia|]. injection E as <- E. symmetry in E. apply app_nil in E as [-> _].
  cbn. lia.
Qed.

Lemma flat_app D a b : flat D a -> flat D b -> flat D (a ++ b).
Proof.
  intros Ha Hb. constructor.
  - rewrite braces_app. destruct Ha, Hb. lia.
  - rewrite brackets_app. destruct Ha, Hb. lia.
  - intros pre suf E. apply app_eq_inv in E as [(k & -> & ->)|(k & -> & ->)].
    + by apply (flat_prefix D _ Ha pre k).
    + rewrite braces_app, brackets_app. destruct Ha as [-> -> _]. destruct (flat_prefix D _ Hb k suf eq_refl). lia.
Qed.

Lemma flat_mono D D' ts : D <= D' -> flat D ts -> flat D' ts.
Proof. intros HD [H1 H2 H3]. constructor; [done..|]. intros pre suf E. specialize (H3 pre suf E). lia. Qed.

Lemma flat_concat D tss : 0 <= D -> Forall (flat D) tss -> flat D (concat tss).
Proof. intros HD. induction 1; cbn; [by apply flat_nil|by apply flat_app]. Qed.

Lemma flat_join D tss : 0 <= D -> Forall (flat D) tss -> flat D (join_tokens tss).
Proof.
  intros HD. destruct 1 as [|ts tss Hts Htss]; [by apply flat_nil|]. cbn. apply flat_app; [done|].
  apply flat_concat; [done|]. apply Forall_map. eapply Forall_impl; [exact Htss|]. intros ts' Hts'.
  apply (flat_app D [op ","]); [by apply flat_one|done].
Qed.

Lemma nested_one t : brace_delta t = 0 -> bracket_delta t = 0 -> nested 0 [t].
Proof.
  intros H1 H2. split; [by apply flat_one|]. split; [done|]. intros pre suf E Hp Hs.
  destruct pre as [|? [|? ?]]; [done| |]; destruct suf; try done; by injection E.
Qed.

Lemma nested_container D o c ts : flat D ts ->
  (brace_delta o = 1 /\ bracket_delta o = 0 /\ brace_delta c = -1 /\ bracket_delta c = 0) \/
  (brace_delta o = 0 /\ bracket_delta o = 1 /\ brace_delta c = 0 /\ bracket_delta c = -1) ->
  nested (D + 1) (o :: ts ++ [c]).
Proof.
  intros Hts Hoc. destruct (flat_prefix D ts Hts [] ts eq_refl) as (_ & _ & HD). cbn in HD.
  assert (Hpre : forall pre suf, o :: ts ++ [c] = pre ++ suf -> suf <> [] -> pre <> [] ->
    0 <= braces pre /\ 0 <= brackets pre /\ 0 < braces pre + brackets pre <= D + 1).
  { intros [|o' pre] suf E Hs Hp; [done|]. injection E as <- E.
    destruct (exists_last Hs) as (suf' & c' & ->). rewrite app_assoc in E. apply app_inj_2 in E as [E _]; [|done].
    cbn. destruct (flat_prefix D ts Hts pre suf' E) as (H1 & H2 & H3). lia. }
  assert (Htot : braces (o :: ts ++ [c]) = 0 /\ brackets (o :: ts ++ [c]) = 0).
  { cbn. rewrite braces_app, brackets_app. cbn. destruct Hts. lia. }
  destruct Htot as [Hb Hk].
  split; [|split; [done|intros pre suf E Hp Hs; by destruct (Hpre pre suf E Hs Hp) as (_ & _ & ? & _)]].
  constructor; [done..|]. intros pre suf E.
  destruct (decide (pre = [])) as [->|Hp]; [cbn; lia|].
  destruct (decide (suf = [])) as [->|Hs]; [|destruct (Hpre pre suf E Hs Hp); lia].
  rewrite app_nil_r in E. subst pre. lia.
Qed.
End tokens.

Section round.
Context {F : Type} (fmt_f : F -> cstring) (strtod : cstring -> F).
Abbreviation text q pretty indent := (to_json fmt_f q [] pretty indent).

Lemma tokens_nested (q : QObject F) : printable_value q -> nested (depth q) (tokens_of q).
Proof.
  induction q as [v|v|d IH|l IH|v|v|] using QObject_ind; intros Hq; try done; try by apply nested_one.
  - apply printable_dict in Hq as [_ Hq]. rewrite tokens_of_dict. pose proof (depth_dict_pos d).
    replace (depth (QDICT d)) with ((depth (QDICT d) - 1) + 1) by lia.
    apply nested_container; [|by left]. apply flat_join; [lia|].
    apply Forall_map, Forall_forall. intros e He. rewrite Forall_forall in IH, Hq.
    apply (flat_app _ [_; _]); [apply (flat_app _ [_] [_]); apply flat_one; done || lia|].
    eapply flat_mono; [|apply IH; [done|by apply Hq]]. pose proof (depth_dict d e He). lia.
  - apply printable_list in Hq. pose proof (depth_list_pos l).
    replace (depth (QLIST l)) with ((depth (QLIST l) - 1) + 1) by lia.
    apply nested_container; [|by right]. apply flat_join; [lia|].
    apply Forall_map, Forall_forall. intros o Ho. rewrite Forall_forall in IH, Hq.
    eapply flat_mono; [|apply IH; [done|by apply Hq]]. pose proof (depth_list l o Ho). lia.
Qed.

(** ** The grammar derives the value *)

Lemma c_str_id s : Forall is_byte s -> c_str s = s.
Proof.
  induction 1 as [|c s Hc Hs IH]; cbn; [done|]. unfold is_byte in Hc.
  rewrite (proj2 (Z.eqb_neq c 0)), IH by lia. done.
Qed.

Lemma printable_bytes s : Forall printable s -> Forall is_byte s.
Proof. intros H. eapply Forall_impl; [exact H|]. unfold printable, is_byte. lia. Qed.

Lemma print_string_bytes s : Forall is_byte s -> Forall is_byte (print_string s []).
Proof.
  intros Hs. rewrite print_string_text by done. cbn [app].
  apply Forall_cons_2; [done|]. apply Forall_app. split; [|by apply Forall_cons_2; [|apply Forall_nil_2]].
  apply printable_bytes, Forall_concat, Forall_map. eapply Forall_impl; [by apply codepoints_range|].
  intros cp Hcp. by apply print_codepoint_printable.
Qed.

Lemma string_value s : clean s -> value_of strtod [string_token s] (QSTRING s).
Proof.
  intros [Hs Hc]. apply value_scalar. unfold scalar_of, string_token. cbn [token_get_type t_type T].
  unfold token_get_value. cbn [t_token]. rewrite c_str_id by by apply print_string_bytes.
  rewrite print_string_text by done. eexists _, _, s. split; [reflexivity|]. split; [|done].
  change (c_dquote =? c_dquote) with true. cbv iota. rewrite unescape_string by done.
  by rewrite read_back_clean.
Qed.

Lemma int_bytes v : Forall is_byte (print_int v).
Proof.
  assert (H : forall n, 0 <= n -> Forall is_byte (print_nonneg n)).
  { intros n Hn. destruct (print_nonneg_ok n Hn) as [Hd _]. eapply Forall_impl; [exact Hd|].
    intros c Hc. unfold is_digit, between in Hc. change (chr "0") with 48 in Hc. change (chr "9") with 57 in Hc.
    unfold is_byte. lia. }
  unfold print_int. destruct (Z.ltb_spec v 0); [apply Forall_cons_2; [done|]|]; apply H; lia.
Qed.

Lemma pairs_derive es : forall d e, Forall (fun e => clean e.1 /\ value_of strtod (tokens_of e.2) (reload e.2)) (e :: es) ->
  pairs_of strtod d (join_tokens (map pair_tokens (e :: es)) ++ [op "}"])
    (put_all (map (fun e => (e.1, reload e.2)) (e :: es)) d).
Proof.
  induction es as [|e' es IH]; intros d e H; apply Forall_cons in H as [[Hk Hv] H].
  - cbn [map join_tokens more_tokens concat]. rewrite app_nil_r. unfold pair_tokens.
    cbn [put_all fold_left fst snd]. rewrite <- (c_str_id e.1) at 2 by apply Hk.
    apply (pairs_last strtod d [string_token e.1]); [by apply string_value|done|done|done].
  - specialize (IH (qdict_put_obj d e.1 (reload e.2)) e' H).
    cbn [map join_tokens more_tokens concat] in *. unfold pair_tokens at 1. rewrite <- !app_assoc in *.
    cbn [app]. rewrite <- ?app_assoc. cbn [app].
    apply (pairs_more strtod d [string_token e.1] e.1 (op ":") (tokens_of e.2) (reload e.2) (op ","));
      [by apply string_value|done|done|done|].
    rewrite c_str_id by apply Hk. exact IH.
Qed.

Lemma elems_derive l : forall acc o, Forall (fun o => value_of strtod (tokens_of o) (reload o)) (o :: l) ->
  elems_of strtod acc (join_tokens (map tokens_of (o :: l)) ++ [op "]"]) (acc ++ map reload (o :: l)).
Proof.
  induction l as [|o' l IH]; intros acc o H; apply Forall_cons in H as [Ho H].
  - cbn [map join_tokens more_tokens concat]. rewrite app_nil_r. by apply elems_last.
  - specialize (IH (acc ++ [reload o]) o' H).
    cbn [map join_tokens more_tokens concat] in *. rewrite <- !app_assoc in *. cbn [app] in *.
    by eapply elems_more.
Qed.

Lemma tokens_value (q : QObject F) : printable_value q -> value_of strtod (tokens_of q) (reload q).
Proof.
  induction q as [v|v|d IH|l IH|v|v|] using QObject_ind; intros Hq; try done.
  - apply value_scalar. unfold scalar_of. cbn [token_get_type t_type T]. unfold token_get_value. cbn [t_token T].
    rewrite c_str_id by apply int_bytes. by rewrite strtoll_print.
  - by apply string_value.
  - apply printable_dict in Hq as [Hok Hq]. rewrite tokens_of_dict. change (reload (QDICT d)) with (QDICT (reload_dict d)).
    rewrite <- (put_all_reload d Hok).
    assert (H : Forall (fun e => clean e.1 /\ value_of strtod (tokens_of e.2) (reload e.2)) (entries d)).
    { apply Forall_forall. intros e He. rewrite Forall_forall in IH, Hq. destruct (Hq e He). by split; [|apply IH]. }
    destruct (entries d) as [|e es]; [by apply value_empty_dict|].
    apply value_dict; [done|]. by apply pairs_derive.
  - apply printable_list in Hq. cbn [tokens_of reload].
    assert (H : Forall (fun o => value_of strtod (tokens_of o) (reload o)) l).
    { apply Forall_forall. intros o Ho. rewrite Forall_forall in IH, Hq. by apply IH, Hq. }
    destruct l as [|o l]; [by apply value_empty_list|].
    apply value_list; [done|]. by apply (elems_derive l []).
  - apply value_scalar. destruct Hq as [-> | ->]; cbn; [right|left]; done.
Qed.

(** ** The lexer finds the tokens *)

Lemma more_text_length sep items i : i ∈ items -> (length i <= length (more_text sep items))%nat.
Proof.
  unfold more_text. induction 1; cbn [map concat]; rewrite !length_app; lia.
Qed.

Lemma items_text_length sep items i : i ∈ items ->
  (length i <= length (items_text sep items))%nat /\ (length sep <= length (items_text sep items))%nat.
Proof.
  intros Hi. destruct items as [|j items]; [by apply not_elem_of_nil in Hi|].
  cbn [items_text]. rewrite !length_app. split; [|lia].
  apply elem_of_cons in Hi as [->|Hi]; [lia|]. pose proof (more_text_length sep items i Hi). lia.
Qed.

(** An object or array whose members are cut as they should. *)
Lemma container_scanned (o c : ascii) sep egap items : Forall white sep -> Forall white egap ->
  (c = "}"%char \/ c = "]"%char) -> json_lexer IN_START (chr o) = Ok JSON_OPERATOR -> solid (chr o) ->
  let t := [chr o] ++ items_text sep (map fst items) ++ egap ++ [chr c] in
  Z.of_nat (length t) <= MAX_TOKEN_SIZE ->
  (forall i, i ∈ items -> Z.of_nat (length i.1) <= MAX_TOKEN_SIZE -> member i) ->
  let ts := op o :: join_tokens (map snd items) ++ [op c] in
  member (t, ts) /\ finishes t ts.
Proof.
  intros Hsep Hegap Hc Ho Hso t Hl Hitems ts. unfold t in Hl. rewrite !length_app in Hl. cbn [length] in Hl.
  assert (Hr : runs IN_START [] t IN_START [] ts).
  { destruct items as [|i items].
    - apply (runs_container [] egap c); try done; try lia; by apply Forall_nil_2.
    - destruct (items_text_length sep (map fst (i :: items)) i.1 (list_elem_of_here _ _)) as [_ Hs].
      apply runs_container; try done; try lia. apply Forall_forall. intros j Hj. apply Hitems; [done|].
      destruct (items_text_length sep (map fst (i :: items)) j.1 (list_elem_of_fmap_2 fst _ _ Hj)) as [Hj' _]. lia. }
  destruct (settled_lexed t ts Hr) as [H1 H2]. split; [|done]. split; [done|]. eexists _, _. split; [reflexivity|done].
Qed.

Lemma scanned (q : QObject F) : forall pretty indent, printable_value q ->
  Z.of_nat (length (text q pretty indent)) <= MAX_TOKEN_SIZE ->
  member (text q pretty indent, tokens_of q) /\ finishes (text q pretty indent) (tokens_of q).
Proof.
  induction q as [v|v|d IH|l IH|v|v|] using QObject_ind; intros pretty indent Hq Hl; try done.
  - cbn [to_json tokens_of app] in *. destruct (runs_int v Hl) as (st & Hp & Hr).
    assert (is_row st = true) by (destruct Hp as (_ & Hz & _); unfold is_row; by rewrite Hz).
    destruct (pending_lexed _ _ _ Hp Hr) as [H1 H2]; [done|]. split; [|done]. split; [done|].
    cbn [fst]. unfold print_int. destruct (Z.ltb_spec v 0); [by eexists _, _; split; [reflexivity|]; split|].
    destruct (print_nonneg_ok v) as (_ & _ & d & ds & -> & Hd & _); [lia|]. eexists _, _. split; [reflexivity|].
    change (chr "0") with 48. split; [lia|]. unfold is_white, c_tab, c_return, c_newline. change (chr " ") with 32. lia.
  - cbn [to_json tokens_of] in *. destruct Hq as [Hb Hc].
    destruct (settled_lexed _ _ (runs_string v Hb Hl)) as [H1 H2]. split; [|done]. split; [done|].
    cbn [fst]. rewrite print_string_text by done. eexists _, _. split; [reflexivity|]. by split.
  - apply printable_dict in Hq as [Hok Hq]. rewrite tokens_of_dict.
    rewrite dict_text in * by (apply Forall_forall; intros; apply to_json_app). cbn [app] in Hl |- *.
    pose proof (container_scanned "{" "}" (gap pretty (S indent)) (gap pretty indent)
      (map (fun e => (member_text fmt_f pretty (S indent) e, pair_tokens e)) (entries d))) as Hcs.
    rewrite !map_map in Hcs. cbn [fst snd] in Hcs.
    apply Hcs; clear Hcs; [apply gap_white|apply gap_white|by left|done|by split|exact Hl|].
    intros i Hi Hil. apply list_elem_of_In, in_map_iff in Hi as (e & <- & He%list_elem_of_In).
    cbn [fst] in Hil. unfold member_text in Hil |- *. rewrite !length_app in Hil.
    rewrite Forall_forall in IH, Hq. destruct (Hq e He) as [[Hk _] Hv].
    apply (pair_member e.1 (text e.2 pretty (S indent), tokens_of e.2)); [done|lia|].
    apply IH; [done|done|lia].
  - apply printable_list in Hq. cbn [tokens_of].
    rewrite list_text in * by (apply Forall_forall; intros; apply to_json_app). cbn [app] in Hl |- *.
    pose proof (container_scanned "[" "]" (gap pretty (S indent)) (gap pretty indent)
      (map (fun o => (text o pretty (S indent), tokens_of o)) l)) as Hcs.
    rewrite !map_map in Hcs. cbn [fst snd] in Hcs.
    apply Hcs; clear Hcs; [apply gap_white|apply gap_white|by right|done|by split|exact Hl|].
    intros i Hi Hil. apply list_elem_of_In, in_map_iff in Hi as (o & <- & Ho%list_elem_of_In).
    rewrite Forall_forall in IH, Hq. apply IH; [done|by apply Hq|done].
  - cbn [to_json tokens_of app] in *.
    assert (Hr : runs IN_START [] (if negb (v =? 0) then str "true" else str "false") IN_KEYWORD
      (if negb (v =? 0) then str "true" else str "false") []).
    { destruct (negb (v =? 0)); apply runs_keyword; try done; repeat (apply Forall_cons_2; [done|]); by apply Forall_nil_2. }
    destruct (pending_lexed _ _ _ pending_keyword Hr) as [H1 H2]; [done|]. split; [|done]. split; [done|].
    cbn [fst]. destruct (negb (v =? 0)); eexists _, _; (split; [reflexivity|]); by split.
Qed.
End round.

(** ** The splitter keeps the tokens together *)

Lemma split_value {S} (emit : option (list JSONToken) -> S -> res S) D ts s : nested D ts -> D <= MAX_NESTING ->
  sizes ts <= MAX_TOKEN_SIZE -> Forall (fun t => t_type t <> JSON_ERROR) ts ->
  forall evs p, evs <> [] -> stream_ok p -> map strip (tokens p) ++ map ev_token evs = ts ->
  Forall event_good evs -> Forall size_ok evs ->
  exists toks, map strip toks = ts /\
    emit_all (json_message_process_token emit) evs (p, s) = hand_on emit (Some toks) s.
Proof.
  intros [Hflat [Hne Hopen]] HD Hsz Hty. induction evs as [|[[[tok type] x] y] evs IH]; [done|].
  intros p _ Hp Ets Hg Hl. apply Forall_cons in Hg as [Hg Hgs], Hl as [Hl Hls].
  set (t := mkToken type tok x y). set (toks := tokens p ++ [t]).
  assert (Est : map strip toks ++ map ev_token evs = ts).
  { unfold toks. rewrite map_app, <- app_assoc. exact Ets. }
  destruct (strip_counts toks) as (Eb & Ek & Es).
  destruct (flat_prefix _ _ Hflat (map strip toks) (map ev_token evs)) as (H1 & H2 & H3); [done|].
  rewrite Eb in H1, H3. rewrite Ek in H2, H3.
  assert (Hsz' : sizes toks <= MAX_TOKEN_SIZE).
  { rewrite <- Es. pose proof (sizes_nonneg (map ev_token evs)). rewrite <- Est, sizes_app in Hsz. lia. }
  assert (Hstep : emit_all (json_message_process_token emit) ((tok, type, x, y) :: evs) (p, s) =
    let* ps := json_message_process_token emit tok type x y (p, s) in
    emit_all (json_message_process_token emit) evs ps) by done.
  rewrite Hstep. clear Hstep. destruct Hg as [ch [Hg1 Hg2]].
  destruct (process_cases emit p tok type x y s Hp Hg1 Hl) as [He|Hgood Hns|Hgood Ho|p' Ht Hp'].
  - exfalso. rewrite Forall_forall in Hty. apply (Hty (strip t)); [|done].
    rewrite <- Ets. apply elem_of_app. right. apply list_elem_of_here.
  - destruct evs as [|ev evs].
    + exists toks. rewrite app_nil_r in Est. split; [done|]. cbn. unfold hand_on. by destruct (emit _ s).
    + exfalso. apply Hns. right. fold t toks. split; [by split|]. rewrite <- Eb, <- Ek.
      eapply Hopen; [symmetry; exact Est| |done]. unfold toks. by destruct (tokens p).
  - exfalso. unfold over_limit in Ho. fold t toks in Ho. lia.
  - cbn [res_bind]. destruct evs as [|ev evs].
    + exfalso. rewrite app_nil_r in Est. destruct (stream_open _ Hp') as [Hnil|Hpos].
      * rewrite Hnil in Ht. by destruct (tokens p).
      * rewrite (stream_braces _ Hp'), (stream_brackets _ Hp'), Ht in Hpos. fold t toks in Hpos.
        rewrite <- Eb, <- Ek, Est, (flat_braces _ _ Hflat), (flat_brackets _ _ Hflat) in Hpos. lia.
    + apply IH; try done. rewrite Ht. exact Est.
Qed.

Lemma tokens_no_error {F} (q : QObject F) : Forall (fun t => t_type t <> JSON_ERROR) (tokens_of q).
Proof.
  assert (Hjoin : forall tss, Forall (Forall (fun t => t_type t <> JSON_ERROR)) tss ->
    Forall (fun t => t_type t <> JSON_ERROR) (join_tokens tss)).
  { intros tss H. destruct H as [|ts tss Hts Htss]; [by apply Forall_nil_2|]. cbn. apply Forall_app. split; [done|].
    unfold more_tokens. apply Forall_concat, Forall_map. eapply Forall_impl; [exact Htss|].
    intros ts' Hts'. by apply Forall_cons_2. }
  induction q as [v|v|d IH|l IH|v|v|] using QObject_ind; try (apply Forall_cons_2; [done|by apply Forall_nil_2]);
    try by apply Forall_nil_2.
  - rewrite tokens_of_dict. apply Forall_cons_2; [done|]. apply Forall_app.
    split; [|apply Forall_cons_2; [done|by apply Forall_nil_2]].
    apply Hjoin, Forall_map. eapply Forall_impl; [exact IH|]. intros e He. by repeat (apply Forall_cons_2; [done|]).
  - apply Forall_cons_2; [done|]. apply Forall_app. split; [|apply Forall_cons_2; [done|by apply Forall_nil_2]].
    by apply Hjoin, Forall_map.
Qed.

(** ** The round trip *)

Lemma collect_all evs : forall pre, emit_all collect evs pre = Ok (pre ++ evs).
Proof.
  induction evs as [|[[[tok type] x] y] evs IH]; intros pre; cbn; [by rewrite app_nil_r|].
  rewrite IH. by rewrite <- app_assoc.
Qed.

Lemma sizes_events evs : sizes (map ev_token evs) = Z.of_nat (ev_sum evs).
Proof.
  induction evs as [|[[[tok type] x] y] evs IH]; [done|]. cbn [map sizes]. rewrite IH.
  change (ev_sum ((tok, type, x, y) :: evs)) with (length tok + ev_sum evs)%nat. cbn. lia.
Qed.

Lemma print_parse {F} (fmt_f : F -> cstring) (strtod : cstring -> F) q pretty : printable_value q ->
  depth q <= MAX_NESTING -> Z.of_nat (length (to_json fmt_f q [] pretty 0)) < MAX_TOKEN_SIZE ->
  qobject_from_json strtod (to_json fmt_f q [] pretty 0) = Ok (Some (reload q)).
Proof.
  intros Hq Hd Hl. set (text := to_json fmt_f q [] pretty 0) in *.
  destruct (scanned fmt_f q pretty 0 Hq) as [_ Hfin]; [unfold text in Hl; lia|]. fold text in Hfin.
  destruct (Hfin 0 0) as (lx & evs & Hevs & Elex).
  destruct (lex_all_total text json_lexer_init (lexer_ok_start 0 0)) as (lx' & evs' & [_ Hgood Hsize Hbytes _] & Hall).
  change (mkLexer IN_START [] 0 0) with json_lexer_init in Elex.
  rewrite (Hall _ collect []), collect_all in Elex. cbn in Elex. injection Elex as -> ->.
  pose proof (tokens_nested q Hq) as Hnest.
  destruct (split_value (parse_json strtod) (depth q) (tokens_of q) (mkParsing None None) Hnest Hd) with (evs := evs) (p := message_parser_new)
    as (toks & Etoks & Esplit); try done.
  { rewrite <- Hevs, sizes_events. rewrite length_app in Hbytes. cbn in Hbytes. lia. }
  { apply tokens_no_error. }
  { intros ->. destruct Hnest as (_ & Hne & _). by rewrite <- Hevs in Hne. }
  { apply stream_new. }
  unfold qobject_from_json, qobject_from_jsonv, json_message_parser_feed, json_message_parser_flush.
  cbn [json_message_parser_init fst snd].
  pose proof (Hall _ (json_message_process_token (parse_json strtod)) (message_parser_new, mkParsing None None)) as Hrun.
  assert (Hpj : parse_json strtod (Some toks) (mkParsing None None) = Ok (mkParsing None (Some (reload q)))).
  { unfold parse_json. cbn [ps_ap]. rewrite (parse_complete strtod toks toks [] (reload q)); [done|by rewrite app_nil_r|].
    by eapply (proj1 (grammar_strip strtod)); [apply tokens_value|]. }
  unfold lex_all in Hrun. rewrite Esplit in Hrun. unfold hand_on in Hrun. rewrite Hpj in Hrun. cbn [res_bind] in Hrun.
  destruct (json_lexer_feed _ json_lexer_init text _) as [[lx1 s1]|f]; [|discriminate Hrun]. cbn [res_bind fst snd] in *.
  by rewrite Hrun.
Qed.
