(* ===== verification/JsonClaims.v ===== *)
(** * JSON: the theorems

    Round trip, safety of the entry points on every input, the grammar that
    the parser decides, the bounds of the splitter, and characters. *)

From Stdlib Require Import Ascii String List.
From stdpp Require Import base numbers gmap list.
From S2P Require Import Prelude Qdict QdictFacts JsonLexer Json JsonParser JsonText JsonGrammar JsonSound JsonLex JsonPrint JsonScan JsonRound.

(** ** Round trip *)

(** C13: a value without doubles, whose strings are valid UTF-8 of characters
    below U+10000 other than 0, nested at most 1024 deep and printed, pretty
    or not, in less than 64 MiB, is read back by lexer, splitter and parser as
    the same value: the chains of its hash tables are reversed and nothing
    else changes, so that a second round trip gives the value itself. *)
Theorem json_roundtrip {F} (fmt_f : F -> cstring) (strtod : cstring -> F) (q : QObject F) (pretty : bool) :
  printable_value q -> depth q <= MAX_NESTING ->
  Z.of_nat (length (to_json fmt_f q [] pretty 0)) < MAX_TOKEN_SIZE ->
  qobject_from_json strtod (to_json fmt_f q [] pretty 0) = Ok (Some (reload q)) /\
  same_value q (reload q) /\ reload (reload q) = q.
Proof.
  intros Hq Hd Hl. split_and!; [by apply print_parse|by apply reload_same|apply reload_involutive].
Qed.

(** A decidable property of the elements of a list, by evaluation. *)
Lemma Forall_eval {A} (P : A -> Prop) `{forall x, Decision (P x)} (l : list A) :
  forallb (fun x => bool_decide (P x)) l = true -> Forall P l.
Proof.
  rewrite forallb_forall. intros Hl. apply Forall_forall. intros x Hx.
  apply (bool_decide_eq_true (P x)), Hl. by apply list_elem_of_In.
Qed.

Definition sample_dict : QDict (QObject unit) :=
  qdict_put_obj (qdict_put_obj qdict_new (str "on") (QBOOL 1)) (str "n") (QINT (-5)).
Definition sample : QObject unit := QLIST [QDICT sample_dict; QSTRING [0x41; 0xC3; 0xA9]].

Lemma sample_printable : printable_value sample.
Proof.
  assert (Hc : forall s, forallb (fun b => bool_decide (0 < b < 256)) s = true ->
    forallb (fun cp => bool_decide (0 < cp <= 0xFFFF)) (codepoints s) = true -> clean s).
  { intros s H1 H2. split; [by apply (Forall_eval (fun b => 0 < b < 256))|].
    by apply (Forall_eval (fun cp => 0 < cp <= 0xFFFF)). }
  apply printable_list. apply Forall_cons_2; [|apply Forall_cons_2; [|by apply Forall_nil_2]].
  - apply printable_dict. split.
    { do 2 apply qdict_put_ok. apply qdict_new_ok. }
    replace (entries sample_dict) with [(str "on", QBOOL (F := unit) 1); (str "n", QINT (-5))] by by vm_compute.
    apply Forall_cons_2; [|apply Forall_cons_2; [|by apply Forall_nil_2]].
    + split; [by apply Hc; vm_compute|by right].
    + split; [by apply Hc; vm_compute|cbn; lia].
  - cbn. by apply Hc; vm_compute.
Qed.

Lemma json_roundtrip_witness :
  qobject_from_json (fun _ => tt) (to_json (fun _ => []) sample [] true 0) = Ok (Some (reload sample)).
Proof. apply (json_roundtrip (fun _ => []) (fun _ => tt) sample true sample_printable); by vm_compute. Defined.

(** ** Safety *)

Lemma count_app c a b : count c (a ++ b) = (count c a + count c b)%nat.
Proof. unfold count. by rewrite List.filter_app, length_app. Qed.

(** C14: on any bytes, with at most 1024 opening braces, at most 1024 opening
    brackets and less than 64 MiB, the entry point returns: the loops of the
    lexer and of the parser end, its table and its tokens are read inside
    their bounds, and no assertion fails.  One bracket more and the assertion
    of the parser fails. *)
Theorem json_input_safe {F} (strtod : cstring -> F) :
  (forall s, Z.of_nat (count (chr "{") s) <= MAX_NESTING -> Z.of_nat (count (chr "[") s) <= MAX_NESTING ->
    Z.of_nat (length s) < MAX_TOKEN_SIZE -> exists r, qobject_from_json strtod s = Ok r) /\
  qobject_from_json strtod (replicate 1025 (chr "[")) = Err AssertFailed.
Proof.
  split; [|by vm_compute]. intros s Hb Hk Hl.
  destruct (lex_all_total s json_lexer_init (lexer_ok_start 0 0)) as (lx' & evs & [_ Hgood Hsize Hbytes Hopens] & Hall).
  rewrite length_app in Hbytes. cbn in Hbytes.
  pose proof (Hopens (chr "{")) as Ho1. pose proof (Hopens (chr "[")) as Ho2. rewrite count_app in Ho1, Ho2.
  change (count _ [0]) with 0%nat in Ho1, Ho2.
  destruct (process_all_no_fault strtod evs message_parser_new (mkParsing None None) stream_new eq_refl Hgood Hsize)
    as (p' & s' & E); [cbn; lia..|].
  specialize (Hall _ (json_message_process_token (parse_json strtod)) (message_parser_new, mkParsing None None)).
  unfold lex_all in Hall. rewrite E in Hall.
  unfold qobject_from_json, qobject_from_jsonv, json_message_parser_feed, json_message_parser_flush.
  cbn [json_message_parser_init fst snd] in *.
  destruct (json_lexer_feed _ json_lexer_init s _) as [[lx1 s1]|f]; [|discriminate Hall].
  cbn [res_bind fst snd] in *. rewrite Hall. cbn. eauto.
Qed.

Lemma json_input_safe_witness : exists r, qobject_from_json (fun _ => tt) (str "[1, {") = Ok r.
Proof. apply (proj1 (json_input_safe (fun _ => tt))); by vm_compute. Defined.

(** ** Grammar *)

(** C15: on tokens of the lexer the parser returns a value exactly when they
    begin with tokens that the grammar derives it from; it then reports no
    error.  When it returns no value no prefix has one, and it fails to
    return only on tokens that end inside an object or an array. *)
Theorem json_parser_decides {F} (strtod : cstring -> F) (ts : list JSONToken) :
  Forall good_token ts -> ts <> [] ->
  (forall q, (exists e args, json_parser_parse_err strtod (Some ts) None = Ok (Some q, e, args)) <->
    exists vt rest, ts = vt ++ rest /\ value_of strtod vt q) /\
  (forall q e args, json_parser_parse_err strtod (Some ts) None = Ok (Some q, e, args) -> e = None) /\
  (forall f, json_parser_parse_err strtod (Some ts) None = Err f -> f = AssertFailed /\ stuck ts).
Proof.
  intros Hg Hne. pose proof (parse_cases strtod ts Hg Hne) as Hc. split_and!.
  - intros q. split.
    + intros (e & args & E). rewrite E in Hc. by destruct Hc as (_ & _ & ?).
    + intros (vt & rest & E & Hv). exists None, None. by eapply parse_complete.
  - intros q e args E. rewrite E in Hc. by destruct Hc as (? & _).
  - intros f E. by rewrite E in Hc.
Qed.

Definition sample_tokens : list JSONToken := [op "["; T JSON_INTEGER (str "7"); op "]"].

Lemma json_parser_decides_witness : exists e args,
  json_parser_parse_err (fun _ => tt) (Some sample_tokens) None = Ok (Some (QLIST [QINT 7]), e, args).
Proof.
  apply (json_parser_decides (fun _ => tt) sample_tokens); [repeat (apply Forall_cons_2; [done|]); by apply Forall_nil_2|done|].
  exists sample_tokens, []. split; [done|]. apply value_list; [done|].
  apply (elems_last _ [] [T JSON_INTEGER (str "7")]); [by apply value_scalar|done].
Defined.

(** ** Bounds *)

(** With a receiver that always returns, the splitter does. *)
Lemma process_total {S} (emit : option (list JSONToken) -> S -> res S) evs : (forall ts s, exists s', emit ts s = Ok s') ->
  forall ps, exists ps', emit_all (json_message_process_token emit) evs ps = Ok ps'.
Proof.
  intros He. induction evs as [|[[[tok type] x] y] evs IH]; intros [p s]; [by eexists|]. cbn [emit_all].
  assert (exists ps1, json_message_process_token emit tok type x y (p, s) = Ok ps1) as [ps1 ->]; [|apply IH].
  unfold json_message_process_token. destruct (count_token _ _ _ _) as [brace bracket]. cbv zeta.
  repeat (destruct (_ : bool)); try (by eexists); match goal with |- context [emit ?t s] => destruct (He t s) as [s' ->] end; by eexists.
Qed.

(** C16: What lexer and splitter keep between bytes is bounded, whatever is fed
    and however it is cut into buffers: a token of at most 64 MiB, tokens of at
    most 64 MiB in total, and at most 1024 open braces and brackets, which are
    counted as the tokens have them.  Feeding returns if the receiver of the
    messages does. *)
Theorem message_parser_bounded {S} (emit : option (list JSONToken) -> S -> res S) (s : S) (buffers : list (list Z)) :
  let fed := foldl (fun r b => let* mp := r in json_message_parser_feed emit mp b) (Ok (json_message_parser_init s)) buffers in
  (forall mp, fed = Ok mp -> Z.of_nat (length (token mp.1)) <= MAX_TOKEN_SIZE /\ stream_ok mp.2.1) /\
  ((forall ts s, exists s', emit ts s = Ok s') -> exists mp, fed = Ok mp).
Proof.
  intros fed. enough ((forall mp, fed = Ok mp -> lexer_ok mp.1 /\ stream_ok mp.2.1) /\
    ((forall ts s, exists s', emit ts s = Ok s') -> exists mp, fed = Ok mp)) as [H1 H2].
  { split; [|exact H2]. intros mp E. destruct (H1 mp E) as [Hlx Hp]. split; [apply Hlx|done]. }
  subst fed. induction buffers as [|b buffers [IH1 IH2]] using rev_ind.
  { split; [|by eexists]. intros mp [= <-]. split; [apply lexer_ok_start|apply stream_new]. }
  rewrite foldl_app. cbn [foldl]. split.
  - intros mp H. apply bind_Ok in H as (mp0 & H0 & H1). destruct (IH1 _ H0) as [Hlx Hp].
    destruct (feed_total b mp0.1 [] Hlx) as (lx' & evs & E & [Hlx' Hgood Hsize _ _]).
    destruct (feed_natural b mp0.1 [] lx' _ E) as (evs' & E' & Hn). cbn in E'. subst evs'.
    unfold json_message_parser_feed in H1. destruct mp0 as [lx0 [p0 s0]]. cbn [fst snd] in *. rewrite Hn in H1.
    apply bind_Ok in H1 as ([p1 s1] & H1 & [= <-]). split; [done|]. by eapply process_all_ok.
  - intros He. destruct (IH2 He) as [mp0 H0]. rewrite H0. cbn [res_bind]. destruct (IH1 _ H0) as [Hlx _].
    destruct (feed_total b mp0.1 [] Hlx) as (lx' & evs & E & _).
    destruct (feed_natural b mp0.1 [] lx' _ E) as (evs' & E' & Hn). cbn in E'. subst evs'.
    unfold json_message_parser_feed. rewrite Hn. destruct (process_total emit evs He mp0.2) as [ps' ->]. by eexists.
Qed.

Lemma message_parser_bounded_witness : exists mp,
  foldl (fun r b => let* mp := r in json_message_parser_feed (fun _ (n : nat) => Ok (Datatypes.S n)) mp b)
    (Ok (json_message_parser_init 0%nat)) [str "[1, "; str "{'a"] = Ok mp /\ stream_ok mp.2.1.
Proof.
  destruct (message_parser_bounded (fun _ (n : nat) => Ok (Datatypes.S n)) 0%nat [str "[1, "; str "{'a"]) as [B R].
  destruct R as [mp E]; [intros _ n; by exists (Datatypes.S n)|]. exists mp. split; [exact E|]. by apply (B mp).
Defined.

(** ** Characters *)

(** The decoder of modified UTF-8 returns a codepoint exactly for its
    encoding, when it is a valid codepoint; it always reads something, and
    returns -1 otherwise. *)
Theorem mod_utf8_codepoint_exact (s : cstring) :
  Forall is_byte s -> s <> [] ->
  (forall cp r, 0 <= cp -> mod_utf8_codepoint s 6 = (cp, r) <-> valid_cp cp /\ s = mod_utf8 cp ++ r) /\
  (exists cp pre r, mod_utf8_codepoint s 6 = (cp, r) /\ s = pre ++ r /\ pre <> [] /\ -1 <= cp <= 0x10FFFF).
Proof.
  intros Hs Hne. split; [intros; by apply decode_iff|].
  destruct (mod_utf8_codepoint s 6) as [cp r] eqn:E.
  destruct (decode_progress s cp r Hs Hne E) as [(pre & Hpre & Hn) Hr]. by exists cp, pre, r.
Qed.

Lemma mod_utf8_codepoint_exact_witness : mod_utf8_codepoint [0xE2; 0x82; 0xAC; 0x21] 6 = (0x20AC, [0x21]).
Proof.
  apply (mod_utf8_codepoint_exact [0xE2; 0x82; 0xAC; 0x21]); [by apply (Forall_eval (fun b => 0 < b < 256))|done|done|].
  split; [|done]. unfold valid_cp, noncharacter, surrogate. vm_compute. intuition congruence.
Defined.

(** ** Where text and value part *)

(** A character beyond U+FFFF is printed as a pair of surrogates, each of
    which is read back as a character of its own. *)
Lemma beyond_bmp_changes (fmt_f : unit -> cstring) (strtod : cstring -> unit) :
  let s := [0xF0; 0x9F; 0x98; 0x80] in
  Forall is_byte s /\ codepoints s = [0x1F600] /\
  qobject_from_json strtod (qobject_to_json fmt_f (QSTRING s)) =
  Ok (Some (QSTRING [0xED; 0xA0; 0xBD; 0xED; 0xB8; 0x80])).
Proof. split; [by apply (Forall_eval (fun b => 0 < b < 256))|]. by vm_compute. Qed.

(** The character 0 of a string is lost. *)
Lemma zero_character_lost (fmt_f : unit -> cstring) (strtod : cstring -> unit) :
  qobject_from_json strtod (qobject_to_json fmt_f (QSTRING [0x41; 0xC0; 0x80])) = Ok (Some (QSTRING [0x41])).
Proof. by vm_compute. Qed.

(** An escaped backslash or slash in a string in single quotes is an error. *)
Lemma single_quoted_escape_rejected (strtod : cstring -> unit) :
  qobject_from_json strtod ([c_quote; c_backslash; chr "/"; c_quote]) = Ok None /\
  qobject_from_json strtod ([c_quote; c_backslash; c_backslash; c_quote]) = Ok None /\
  qobject_from_json strtod ([c_quote; c_backslash; chr "n"; c_quote]) = Ok (Some (QSTRING [c_newline])).
Proof. by vm_compute. Qed.

(** An object argument that is NULL makes the parser read on behind its
    place. *)
Lemma null_argument_aborts (strtod : cstring -> unit) :
  qobject_from_jsonf strtod (str "%p") [VaQObject None] = Err AssertFailed.
Proof. by vm_compute. Qed.
