(* ===== verification/Iov.v ===== *)
(** * Scatter-gather vectors

    The model of [util/iov.c] and of [QEMUIOVector] ([include/qemu-common.h]).
    An array of [struct iovec] with its element count is the list of its
    elements.  Host memory is a finite map from addresses to bytes, and an
    access to an address outside it is a fault.  [iov_send_recv] changes the
    array it is given and undoes the changes, so there the array is an array
    with an index into it, and [sendmsg]/[recvmsg] are operations of an
    interface [Socket]; [qsort], whose order of equal elements is not
    specified, is a parameter too.  Only the POSIX branch of [do_send_recv] is
    modelled, and [iov_hexdump], which prints, is not. *)

From Stdlib Require Import ZArith Lia.
From stdpp Require Import base numbers gmap list.
From S2P Require Import Prelude.

(** ** Host memory *)

Abbreviation mem := (gmap Z Z).

Definition mem_get (m : mem) (a : Z) : res Z :=
  match m !! a with Some b => Ok b | None => Err OutOfBounds end.

Definition mem_put (m : mem) (a b : Z) : res mem :=
  match m !! a with Some _ => Ok (<[a := b]> m) | None => Err OutOfBounds end.

(** [memcpy(dst, buf, len)] into memory; [src] is the bytes at [buf]. *)
Fixpoint mem_store (m : mem) (a : Z) (src : list Z) : res mem :=
  match src with
  | [] => Ok m
  | b :: src => let* m := mem_put m a b in mem_store m (a + 1) src
  end.

(** [memcpy(buf, src, len)] out of memory: the [len] bytes read. *)
Fixpoint mem_load (m : mem) (a : Z) (len : nat) : res (list Z) :=
  match len with
  | O => Ok []
  | S len => let* b := mem_get m a in
             let* l := mem_load m (a + 1) len in Ok (b :: l)
  end.

(** The [len] bytes at [buf + s], and [buf] with bytes replaced from [d] on. *)
Definition buf_get (buf : list Z) (s len : Z) : res (list Z) :=
  if s + len <=? Z.of_nat (length buf)
  then Ok (take (Z.to_nat len) (drop (Z.to_nat s) buf)) else Err OutOfBounds.

Definition buf_put (buf : list Z) (d : Z) (l : list Z) : res (list Z) :=
  if d + Z.of_nat (length l) <=? Z.of_nat (length buf)
  then Ok (take (Z.to_nat d) buf ++ l ++ drop (Z.to_nat d + length l) buf)
  else Err OutOfBounds.

(** ** Vectors *)

Record iovec : Type := mk_iovec { iov_base : Z; iov_len : Z }.

#[export] Instance iovec_eq_dec : EqDecision iovec.
Proof. solve_decision. Defined.

(** The loop that [iov_from_buf], [iov_to_buf] and [iov_memset] share: [copy]
    handles [len] bytes at an address for the bytes [done] of the buffer, on
    the state that the function changes. *)
Section Walk.
Context {S : Type} (copy : S -> Z -> Z -> Z -> res S).

Fixpoint iov_walk (s : S) (iov : list iovec) (offset done bytes : Z) : res (S * Z * Z) :=
  match iov with
  | [] => Ok (s, offset, done)
  | v :: iov =>
      if negb (offset =? 0) || (done <? bytes) then
        if offset <? iov_len v then
          let len := Z.min (iov_len v - offset) (bytes - done) in
          let* s := copy s (iov_base v + offset) done len in
          iov_walk s iov 0 (done + len) bytes
        else iov_walk s iov (offset - iov_len v) done bytes
      else Ok (s, offset, done)
  end.

Definition iov_walk_all (s : S) (iov : list iovec) (offset bytes : Z) : res (S * Z) :=
  let* (s, offset, done) := iov_walk s iov offset 0 bytes in
  let* _ := c_assert (offset =? 0) in
  Ok (s, done).

End Walk.

Definition iov_from_buf (m : mem) (iov : list iovec) (offset : Z) (buf : list Z)
    (bytes : Z) : res (mem * Z) :=
  iov_walk_all (fun m a done len => let* l := buf_get buf done len in mem_store m a l)
    m iov offset bytes.

Definition iov_to_buf (m : mem) (iov : list iovec) (offset : Z) (buf : list Z)
    (bytes : Z) : res (list Z * Z) :=
  iov_walk_all (fun buf a done len => let* l := mem_load m a (Z.to_nat len) in buf_put buf done l)
    buf iov offset bytes.

Definition iov_memset (m : mem) (iov : list iovec) (offset fillc bytes : Z) : res (mem * Z) :=
  iov_walk_all (fun m a done len => mem_store m a (replicate (Z.to_nat len) (u8 fillc)))
    m iov offset bytes.

Fixpoint iov_size_from (len : Z) (iov : list iovec) : Z :=
  match iov with
  | [] => len
  | v :: iov => iov_size_from (u64 (len + iov_len v)) iov
  end.

Definition iov_size (iov : list iovec) : Z := iov_size_from 0 iov.

(** [room] is what is left of [dst_iov_cnt]; the result is the elements of
    [dst_iov] that are filled, hence its count. *)
Fixpoint iov_copy_loop (room : Z) (iov : list iovec) (offset bytes : Z) : list iovec * Z :=
  match iov with
  | [] => ([], offset)
  | v :: iov =>
      if (0 <? room) && negb (bytes =? 0) then
        if iov_len v <=? offset then iov_copy_loop room iov (offset - iov_len v) bytes
        else
          let len := Z.min bytes (iov_len v - offset) in
          let (l, offset') := iov_copy_loop (room - 1) iov 0 (bytes - len) in
          (mk_iovec (iov_base v + offset) len :: l, offset')
      else ([], offset)
  end.

Definition iov_copy (dst_iov_cnt : Z) (iov : list iovec) (offset bytes : Z) :
    res (list iovec) :=
  let (dst_iov, offset) := iov_copy_loop dst_iov_cnt iov offset bytes in
  let* _ := c_assert (offset =? 0) in
  Ok dst_iov.

(** [*iov] with [*iov_cnt] elements, and the bytes discarded. *)
Fixpoint discard_front_loop (iov : list iovec) (bytes total : Z) : list iovec * Z :=
  match iov with
  | [] => ([], total)
  | cur :: rest =>
      if bytes <? iov_len cur
      then (mk_iovec (iov_base cur + bytes) (iov_len cur - bytes) :: rest, total + bytes)
      else discard_front_loop rest (bytes - iov_len cur) (total + iov_len cur)
  end.

Definition iov_discard_front (iov : list iovec) (bytes : Z) : list iovec * Z :=
  discard_front_loop iov bytes 0.

(** The loop runs from the last element down: over the reversed list. *)
Fixpoint discard_back_loop (rev_iov : list iovec) (bytes total : Z) : list iovec * Z :=
  match rev_iov with
  | [] => ([], total)
  | cur :: rest =>
      if bytes <? iov_len cur
      then (mk_iovec (iov_base cur) (iov_len cur - bytes) :: rest, total + bytes)
      else discard_back_loop rest (bytes - iov_len cur) (total + iov_len cur)
  end.

Definition iov_discard_back (iov : list iovec) (bytes : Z) : list iovec * Z :=
  let (rev_iov, total) := discard_back_loop (reverse iov) bytes 0 in
  (reverse rev_iov, total).

(** ** Sending and receiving *)

Inductive errno : Type := EINTR | EAGAIN | EOther.

(** What a system call returns: a count, or -1 with [errno]. *)
Inductive sysres : Type := Sys (n : Z) | Fail (e : errno).

(** [sendmsg] and [recvmsg] on a socket: [W] is everything outside the
    process. *)
Class Socket (W : Type) := {
  sendmsg : W -> mem -> list iovec -> W * sysres;
  recvmsg : W -> mem -> list iovec -> W * mem * sysres
}.

Section SendRecv.
Context {W : Type} `{!Socket W}.

Fixpoint do_send_recv (fuel : nat) (w : W) (m : mem) (iov : list iovec) (do_send : bool) :
    res (W * mem * sysres) :=
  match fuel with
  | O => Err OutOfFuel
  | S fuel =>
      let '(w, m, ret) :=
        if do_send then let (w, ret) := sendmsg w m iov in (w, m, ret)
        else recvmsg w m iov in
      match ret with
      | Fail EINTR => do_send_recv fuel w m iov do_send
      | _ => Ok (w, m, ret)
      end
  end.

(** [for (niov = 0; niov < iov_cnt && offset >= iov[niov].iov_len; ++niov)];
    the elements from the current one on, the result is [niov] and what is left
    of the offset. *)
Fixpoint skip_full (iov : list iovec) (niov offset : Z) : Z * Z :=
  match iov with
  | [] => (niov, offset)
  | v :: iov => if iov_len v <=? offset then skip_full iov (niov + 1) (offset - iov_len v)
                else (niov, offset)
  end.

Definition move_base (v : iovec) (d : Z) : iovec := mk_iovec (iov_base v + d) (iov_len v - d).
Definition put_len (v : iovec) (len : Z) : iovec := mk_iovec (iov_base v) len.

(** The elements [iov[0..n-1]] from index [pos] of the array. *)
Definition elems (arr : list iovec) (pos n : Z) : list iovec :=
  take (Z.to_nat n) (drop (Z.to_nat pos) arr).

(** Shorten [iov[niov]] to [tail] bytes around the call. *)
Definition send_part (fuel : nat) (w : W) (m : mem) (arr : list iovec) (pos niov tail : Z)
    (iov_cnt : Z) (do_send : bool) : res (W * mem * list iovec * sysres) :=
  if tail =? 0 then
    let* (w, m, ret) := do_send_recv fuel w m (elems arr pos niov) do_send in
    Ok (w, m, arr, ret)
  else
    let* _ := c_assert (niov <? iov_cnt) in
    let* v := aget arr (pos + niov) in
    let* _ := c_assert (tail <? iov_len v) in
    let orig_len := iov_len v in
    let* arr := aset arr (pos + niov) (put_len v tail) in
    let niov := niov + 1 in
    let* (w, m, ret) := do_send_recv fuel w m (elems arr pos niov) do_send in
    let* v := aget arr (pos + (niov - 1)) in
    let* arr := aset arr (pos + (niov - 1)) (put_len v orig_len) in
    Ok (w, m, arr, ret).

(** [iov[0].iov_base += d; iov[0].iov_len -= d] when [d] is not zero. *)
Definition adjust_first (arr : list iovec) (pos offset d : Z) : res (list iovec) :=
  if offset =? 0 then Ok arr
  else let* v := aget arr pos in aset arr pos (move_base v d).

(** One turn; the array from index [pos] on is what [iov] points to. *)
Fixpoint send_recv_loop (turns fuel : nat) (w : W) (m : mem) (arr : list iovec)
    (pos iov_cnt offset bytes total : Z) (do_send : bool) : res (W * mem * list iovec * Z) :=
  match turns with
  | O => Err OutOfFuel
  | S turns =>
      if 0 <? bytes then
        let (niov, offset) := skip_full (elems arr pos iov_cnt) 0 offset in
        let* _ := c_assert (niov <? iov_cnt) in
        let pos := pos + niov in
        let iov_cnt := iov_cnt - niov in
        let* arr := adjust_first arr pos offset offset in
        let (niov, tail) := skip_full (elems arr pos iov_cnt) 0 bytes in
        let* (w, m, arr, ret) := send_part fuel w m arr pos niov tail iov_cnt do_send in
        let* arr := adjust_first arr pos offset (- offset) in
        match ret with
        | Fail EINTR => Err AssertFailed
        | Fail EAGAIN => Ok (w, m, arr, if 0 <? total then total else -1)
        | Fail EOther => Ok (w, m, arr, -1)
        | Sys ret =>
            if (ret =? 0) && negb do_send then Ok (w, m, arr, total)
            else send_recv_loop turns fuel w m arr pos iov_cnt (u64 (offset + ret))
                   (u64 (bytes - ret)) (s64 (total + ret)) do_send
        end
      else Ok (w, m, arr, total)
  end.

Definition iov_send_recv (turns fuel : nat) (w : W) (m : mem) (iov : list iovec)
    (offset bytes : Z) (do_send : bool) : res (W * mem * list iovec * Z) :=
  send_recv_loop turns fuel w m iov 0 (Z.of_nat (length iov)) offset bytes 0 do_send.

End SendRecv.

(** ** Growing vectors *)

(** [iov] has the [niov] elements in use; [nalloc] is -1 for an array that the
    vector does not own. *)
Record QEMUIOVector : Type := mk_qiov {
  iov : list iovec;
  nalloc : Z;
  size : Z
}.

Definition niov (q : QEMUIOVector) : Z := Z.of_nat (length (iov q)).

Definition qemu_iovec_init (alloc_hint : Z) : QEMUIOVector := mk_qiov [] alloc_hint 0.

Definition qemu_iovec_init_external (v : list iovec) : QEMUIOVector :=
  mk_qiov v (-1) (iov_size_from 0 v).

Definition qemu_iovec_add (q : QEMUIOVector) (base len : Z) : res QEMUIOVector :=
  let* _ := c_assert (negb (nalloc q =? -1)) in
  let nalloc' := if niov q =? nalloc q then s32 (2 * nalloc q + 1) else nalloc q in
  if niov q <? nalloc'
  then Ok (mk_qiov (iov q ++ [mk_iovec base len]) nalloc' (u64 (size q + len)))
  else Err OutOfBounds.

Fixpoint concat_loop (dst : QEMUIOVector) (src : list iovec) (soffset done sbytes : Z) :
    res (QEMUIOVector * Z) :=
  match src with
  | [] => Ok (dst, soffset)
  | v :: src =>
      if done <? sbytes then
        if soffset <? iov_len v then
          let len := Z.min (iov_len v - soffset) (sbytes - done) in
          let* dst := qemu_iovec_add dst (iov_base v + soffset) len in
          concat_loop dst src 0 (done + len) sbytes
        else concat_loop dst src (soffset - iov_len v) done sbytes
      else Ok (dst, soffset)
  end.

Definition qemu_iovec_concat_iov (dst : QEMUIOVector) (src_iov : list iovec)
    (soffset sbytes : Z) : res QEMUIOVector :=
  if sbytes =? 0 then Ok dst
  else
    let* _ := c_assert (negb (nalloc dst =? -1)) in
    let* (dst, soffset) := concat_loop dst src_iov soffset 0 sbytes in
    let* _ := c_assert (soffset =? 0) in
    Ok dst.

Definition qemu_iovec_concat (dst src : QEMUIOVector) (soffset sbytes : Z) : res QEMUIOVector :=
  qemu_iovec_concat_iov dst (iov src) soffset sbytes.

Definition qemu_iovec_reset (q : QEMUIOVector) : res QEMUIOVector :=
  let* _ := c_assert (negb (nalloc q =? -1)) in
  Ok (mk_qiov [] (nalloc q) 0).

Definition qemu_iovec_destroy (q : QEMUIOVector) : res QEMUIOVector :=
  let* _ := c_assert (negb (nalloc q =? -1)) in
  let* q := qemu_iovec_reset q in
  Ok (mk_qiov [] 0 (size q)).

Definition qemu_iovec_to_buf (m : mem) (q : QEMUIOVector) (offset : Z) (buf : list Z)
    (bytes : Z) : res (list Z * Z) := iov_to_buf m (iov q) offset buf bytes.

Definition qemu_iovec_from_buf (m : mem) (q : QEMUIOVector) (offset : Z) (buf : list Z)
    (bytes : Z) : res (mem * Z) := iov_from_buf m (iov q) offset buf bytes.

Definition qemu_iovec_memset (m : mem) (q : QEMUIOVector) (offset fillc bytes : Z) :
    res (mem * Z) := iov_memset m (iov q) offset fillc bytes.

(** [while (len < iov_len && *p++ == *q++) len++], with [n] bytes to go. *)
Fixpoint same_bytes (n : nat) (m : mem) (p q : Z) : res Z :=
  match n with
  | O => Ok 0
  | S n =>
      let* x := mem_get m p in
      let* y := mem_get m q in
      if x =? y then let* len := same_bytes n m (p + 1) (q + 1) in Ok (len + 1)
      else Ok 0
  end.

Fixpoint compare_loop (m : mem) (a b : list iovec) (offset : Z) : res Z :=
  match a, b with
  | va :: a, vb :: b =>
      let* _ := c_assert (iov_len va =? iov_len vb) in
      let* len := same_bytes (Z.to_nat (iov_len va)) m (iov_base va) (iov_base vb) in
      let offset := offset + len in
      if negb (len =? iov_len va) then Ok offset else compare_loop m a b offset
  | _, _ => Ok (-1)
  end.

Definition qemu_iovec_compare (m : mem) (a b : QEMUIOVector) : res Z :=
  let* _ := c_assert (niov a =? niov b) in
  compare_loop m (iov a) (iov b) 0.

(** ** Cloning *)

Record IOVectorSortElem : Type := mk_elem {
  src_index : Z;
  src_iov : iovec;
  dest_base : Z
}.

Definition sortelem_cmp_src_base (a b : IOVectorSortElem) : Z :=
  if iov_base (src_iov a) <? iov_base (src_iov b) then -1
  else if iov_base (src_iov b) <? iov_base (src_iov a) then 1 else 0.

Definition sortelem_cmp_src_index (a b : IOVectorSortElem) : Z := src_index a - src_index b.

(** [sortelems[i].src_index = i; sortelems[i].src_iov = &src->iov[i]]. *)
Fixpoint number_elems (i : Z) (v : list iovec) : list IOVectorSortElem :=
  match v with
  | [] => []
  | x :: v => mk_elem i x 0 :: number_elems (i + 1) v
  end.

Fixpoint place_elems (l : list IOVectorSortElem) (buf last_end : Z) : list IOVectorSortElem :=
  match l with
  | [] => []
  | e :: l =>
      let cur := src_iov e in
      let rewind := if negb (last_end =? 0) && (iov_base cur <? last_end)
                    then last_end - iov_base cur else 0 in
      mk_elem (src_index e) cur (buf - rewind)
        :: place_elems l (buf + (iov_len cur - Z.min rewind (iov_len cur)))
             (Z.max (iov_base cur + iov_len cur) last_end)
  end.

(** The last loop runs over the sorted elements and the source together. *)
Fixpoint add_elems (dest : QEMUIOVector) (l : list IOVectorSortElem) (src : list iovec) :
    res QEMUIOVector :=
  match l, src with
  | e :: l, v :: src =>
      let* dest := qemu_iovec_add dest (dest_base e) (iov_len v) in
      add_elems dest l src
  | _, _ => Ok dest
  end.

Section Clone.
Context (qsort : (IOVectorSortElem -> IOVectorSortElem -> Z) ->
                 list IOVectorSortElem -> list IOVectorSortElem).

Definition qemu_iovec_clone (dest src : QEMUIOVector) (buf : Z) : res QEMUIOVector :=
  let sortelems := qsort sortelem_cmp_src_base (number_elems 0 (iov src)) in
  let sortelems := place_elems sortelems buf 0 in
  let sortelems := qsort sortelem_cmp_src_index sortelems in
  add_elems dest sortelems (iov src).

End Clone.
