(* ===== verification/IovFacts.v ===== *)
(** * Scatter-gather vectors as sequences of addresses

    A vector stands for the sequence [flat] of the addresses of its bytes.  The
    operations on vectors are operations on this sequence: copying in and out
    are accesses to a slice of it, copies of vectors, discards and
    concatenations take slices. *)

From Stdlib Require Import ZArith Lia.
From stdpp Require Import base numbers gmap list.
From S2P Require Import Prelude Iov.

Abbreviation len l := (Z.of_nat (length l)).

(** ** Addresses and slices *)

Definition addrs (v : iovec) : list Z := seqZ (iov_base v) (iov_len v).
Definition flat (v : list iovec) : list Z := concat (addrs <$> v).

(** Lengths are of type [size_t]. *)
Definition iov_ok (v : list iovec) : Prop := Forall (fun x => 0 <= iov_len x) v.

(** [n] elements from position [off] on. *)
Definition slice {A} (off n : Z) (l : list A) : list A :=
  take (Z.to_nat n) (drop (Z.to_nat off) l).

Lemma slice_length {A} off n (l : list A) : 0 <= off -> 0 <= n ->
  len (slice off n l) = Z.max 0 (Z.min n (len l - off)).
Proof. intros. unfold slice. rewrite length_take, length_drop. lia. Qed.

Lemma slice_none {A} off n (l : list A) : len l <= off -> slice off n l = [].
Proof. intros. unfold slice. rewrite drop_ge by lia. apply take_nil. Qed.

Lemma slice_zero {A} off n (l : list A) : n <= 0 -> slice off n l = [].
Proof. intros. unfold slice. by replace (Z.to_nat n) with 0%nat by lia. Qed.

(** A slice of a concatenation. *)
Lemma slice_app_r {A} off n (l k : list A) : len l <= off ->
  slice off n (l ++ k) = slice (off - len l) n k.
Proof.
  intros. unfold slice. rewrite drop_app_ge by lia. do 2 f_equal. lia.
Qed.

Lemma slice_app_l {A} off n (l k : list A) : 0 <= off <= len l -> 0 <= n ->
  slice off n (l ++ k) = slice off n l ++ slice 0 (n - (len l - off)) k.
Proof.
  intros. unfold slice. rewrite drop_app_le by lia. rewrite take_app, length_drop.
  f_equal. rewrite drop_0. f_equal. lia.
Qed.

Lemma slice_seqZ a off n m : 0 <= off -> 0 <= n ->
  slice off n (seqZ a m) = seqZ (a + off) (Z.min n (m - off)).
Proof.
  intros. destruct (Z.leb_spec m off).
  - rewrite slice_none by (rewrite length_seqZ; lia). by rewrite seqZ_nil by lia.
  - unfold slice. replace m with (off + (m - off)) at 1 by lia.
    rewrite seqZ_app by lia. rewrite drop_app_length' by (rewrite length_seqZ; lia).
    destruct (Z.leb_spec n (m - off)).
    + replace (m - off) with (n + (m - off - n)) at 1 by lia. rewrite seqZ_app by lia.
      rewrite take_app_length' by (rewrite length_seqZ; lia). f_equal. lia.
    + rewrite take_ge by (rewrite length_seqZ; lia). f_equal. lia.
Qed.

Lemma flat_cons v l : flat (v :: l) = addrs v ++ flat l.
Proof. done. Qed.

Lemma iov_flat_app l k : flat (l ++ k) = flat l ++ flat k.
Proof. unfold flat. by rewrite fmap_app, concat_app. Qed.

Lemma addrs_length v : 0 <= iov_len v -> len (addrs v) = iov_len v.
Proof. intros. unfold addrs. rewrite length_seqZ. lia. Qed.

Lemma iov_ok_cons v l : iov_ok (v :: l) -> 0 <= iov_len v /\ iov_ok l.
Proof. unfold iov_ok. by rewrite Forall_cons. Qed.

(** The slice of a vector, with its first element split off. *)
Lemma slice_flat_skip v l off n : 0 <= iov_len v <= off ->
  slice off n (flat (v :: l)) = slice (off - iov_len v) n (flat l).
Proof. intros. rewrite flat_cons, slice_app_r, addrs_length; rewrite ?addrs_length; lia || done. Qed.

Lemma slice_flat_take v l off n : 0 <= off < iov_len v -> 0 <= n ->
  slice off n (flat (v :: l)) =
  seqZ (iov_base v + off) (Z.min n (iov_len v - off)) ++
  slice 0 (n - Z.min n (iov_len v - off)) (flat l).
Proof.
  intros. rewrite flat_cons, slice_app_l by (rewrite ?addrs_length; lia).
  unfold addrs at 1. rewrite slice_seqZ by lia. f_equal.
  rewrite addrs_length by lia.
  destruct (Z.leb_spec n (iov_len v - off)).
  - rewrite !slice_zero by lia. done.
  - f_equal. lia.
Qed.

(** ** Memory *)

Definition mapped (m : mem) (l : list Z) : Prop := Forall (fun a => is_Some (m !! a)) l.

Definition contents (m : mem) (l : list Z) : list Z := (fun a => default 0 (m !! a)) <$> l.

Fixpoint writes (m : mem) (l : list Z) (bs : list Z) : mem :=
  match l, bs with
  | a :: l, b :: bs => writes (<[a := b]> m) l bs
  | _, _ => m
  end.

Lemma mapped_insert m a b l : mapped m l -> mapped (<[a := b]> m) l.
Proof.
  intros Hm. eapply Forall_impl; [exact Hm|]. intros x Hx. cbn beta in *.
  destruct (decide (a = x)) as [->|].
  - by rewrite lookup_insert_eq.
  - by rewrite lookup_insert_ne.
Qed.

Lemma mapped_writes l : forall m bs k, mapped m k -> mapped (writes m l bs) k.
Proof.
  induction l as [|a l IH]; intros m [|b bs] k Hk; cbn; try done.
  apply IH, mapped_insert, Hk.
Qed.

Lemma writes_other l : forall m bs a, a ∉ l -> writes m l bs !! a = m !! a.
Proof.
  induction l as [|x l IH]; intros m [|b bs] a Ha; cbn; try done.
  apply not_elem_of_cons in Ha as [Hx Hl]. rewrite IH by done.
  by rewrite lookup_insert_ne.
Qed.

Lemma contents_writes_other m l bs k : (forall a, a ∈ k -> a ∉ l) ->
  contents (writes m l bs) k = contents m k.
Proof.
  intros Hd. unfold contents. apply list_fmap_ext. intros i a Ha.
  rewrite writes_other; [done|]. apply Hd. by eapply list_elem_of_lookup_2.
Qed.

Lemma contents_writes l : forall m bs, NoDup l -> length bs = length l ->
  contents (writes m l bs) l = bs.
Proof.
  induction l as [|a l IH]; intros m [|b bs] Hn Hl; try done.
  apply NoDup_cons in Hn as [Ha Hn]. cbn. f_equal.
  - by rewrite writes_other, lookup_insert_eq.
  - apply IH; [done|]. by injection Hl.
Qed.

Lemma writes_app l : forall m bs l' bs', length bs = length l ->
  writes m (l ++ l') (bs ++ bs') = writes (writes m l bs) l' bs'.
Proof.
  induction l as [|a l IH]; intros m [|b bs] l' bs' Hl; try done.
  cbn. apply IH. by injection Hl.
Qed.

Lemma mem_store_spec bs : forall m a, mapped m (seqZ a (len bs)) ->
  mem_store m a bs = Ok (writes m (seqZ a (len bs)) bs).
Proof.
  induction bs as [|b bs IH]; intros m a Hm; [done|].
  rewrite seqZ_cons in Hm |- * by (cbn; lia).
  apply Forall_cons in Hm as [Ha Hm]. cbn [writes mem_store]. unfold mem_put.
  destruct Ha as [x ->]. cbn [res_bind].
  replace (Z.pred (len (b :: bs))) with (len bs) in * by (cbn; lia).
  rewrite Z.add_1_r. by apply IH, mapped_insert.
Qed.

Lemma mem_load_spec n : forall m a, mapped m (seqZ a (Z.of_nat n)) ->
  mem_load m a n = Ok (contents m (seqZ a (Z.of_nat n))).
Proof.
  induction n as [|n IH]; intros m a Hm; [done|].
  rewrite seqZ_cons in Hm |- * by lia. apply Forall_cons in Hm as [[x Hx] Hm].
  cbn. unfold mem_get. rewrite Hx. cbn.
  replace (Z.pred (Z.of_nat (S n))) with (Z.of_nat n) in * by lia.
  rewrite Z.add_1_r. by rewrite IH.
Qed.

Lemma mapped_app m l k : mapped m (l ++ k) <-> mapped m l /\ mapped m k.
Proof. apply Forall_app. Qed.

(** ** The shared loop *)

Section WalkFacts.
Context {S : Type} (copy : S -> Z -> Z -> Z -> res S) (I : S -> Z -> Prop) (T : list Z).

Local Ltac same_offset :=
  match goal with |- Ok (_, ?x, _) = Ok (_, ?y, _) => by replace y with x by lia end.

(** [copy] handles one more piece of the target [T]. *)
Definition copies : Prop := forall s a done n,
  0 <= done -> 0 <= n -> done + n <= len T -> slice done n T = seqZ a n -> I s done ->
  exists s', copy s a done n = Ok s' /\ I s' (done + n).

Lemma iov_walk_spec (Hc : copies) iov : forall s pre offset done bytes,
  iov_ok iov -> 0 <= offset -> 0 <= done <= bytes -> len pre = done ->
  T = pre ++ slice offset (bytes - done) (flat iov) -> I s done ->
  exists s', iov_walk copy s iov offset done bytes =
    Ok (s', Z.max 0 (offset - len (flat iov)), len T) /\ I s' (len T).
Proof.
  induction iov as [|v iov IH]; intros s pre offset done bytes Hok Ho Hd Hp HT HI.
  { assert (len T = done) as E
      by (rewrite HT, length_app, slice_none by (cbn; lia); cbn; lia).
    exists s. cbn [iov_walk]. rewrite E. split; [|done]. cbn. same_offset. }
  apply iov_ok_cons in Hok as [Hv Hok].
  assert (len (flat (v :: iov)) = iov_len v + len (flat iov)) as El
    by (rewrite flat_cons, length_app, Nat2Z.inj_add, addrs_length; lia).
  cbn [iov_walk]. destruct (negb (offset =? 0) || (done <? bytes)) eqn:Eg.
  2:{ assert (len T = done) as E
        by (rewrite HT, slice_zero, app_nil_r by lia; lia).
      exists s. rewrite E. split; [|done]. same_offset. }
  destruct (Z.ltb_spec offset (iov_len v)).
  - set (n := Z.min (iov_len v - offset) (bytes - done)).
    assert (0 <= n <= bytes - done) as Hb by lia.
    rewrite slice_flat_take in HT by lia.
    rewrite (Z.min_comm (bytes - done)) in HT. fold n in HT.
    assert (len (seqZ (iov_base v + offset) n) = n) as Hn by (rewrite length_seqZ; lia).
    destruct (Hc s (iov_base v + offset) done n) as (s' & -> & HI');
      try done; try lia.
    + rewrite HT, !length_app. lia.
    + rewrite HT. unfold slice. rewrite drop_app_length' by lia.
      by rewrite take_app_length' by lia.
    + cbn [res_bind]. rewrite app_assoc in HT.
      replace (bytes - done - n) with (bytes - (done + n)) in HT by lia.
      destruct (IH s' (pre ++ seqZ (iov_base v + offset) n) 0 (done + n) bytes Hok ltac:(lia) ltac:(lia)
        ltac:(rewrite length_app; lia) HT HI') as (s2 & -> & H2).
      exists s2. split; [|done]. same_offset.
  - rewrite slice_flat_skip in HT by lia.
    destruct (IH s pre (offset - iov_len v) done bytes Hok ltac:(lia) Hd Hp HT HI)
      as (s2 & -> & H2).
    exists s2. split; [|done]. same_offset.
Qed.

End WalkFacts.

(** With [T] the slice that is asked for, the loop handles all of it, and the
    assertion behind it fails exactly for an offset beyond the end. *)
Lemma iov_walk_all_spec {S} (copy : S -> Z -> Z -> Z -> res S) (I : S -> Z -> Prop)
    s iov offset bytes :
  iov_ok iov -> 0 <= offset -> 0 <= bytes ->
  copies copy I (slice offset bytes (flat iov)) -> I s 0 ->
  if offset <=? len (flat iov)
  then exists s', iov_walk_all copy s iov offset bytes =
         Ok (s', len (slice offset bytes (flat iov))) /\
       I s' (len (slice offset bytes (flat iov)))
  else iov_walk_all copy s iov offset bytes = Err AssertFailed.
Proof.
  intros Hok Ho Hb Hc HI.
  destruct (iov_walk_spec copy I _ Hc iov s [] offset 0 bytes) as (s' & E & HI');
    try done; try lia.
  { cbn. by rewrite Z.sub_0_r. }
  unfold iov_walk_all. rewrite E. cbn. zcases; cbn; try lia; eauto.
Qed.

(** ** Copying in, copying out, filling *)

Lemma iov_contents_length m l : length (contents m l) = length l.
Proof. apply length_fmap. Qed.

Lemma contents_app m l k : contents m (l ++ k) = contents m l ++ contents m k.
Proof. apply fmap_app. Qed.

Lemma take_slice {A} d n (l : list A) : 0 <= d -> 0 <= n ->
  take (Z.to_nat (d + n)) l = take (Z.to_nat d) l ++ slice d n l.
Proof.
  intros. unfold slice. rewrite <- (take_drop (Z.to_nat d) l) at 1.
  rewrite take_app, length_take. rewrite take_take.
  destruct (decide (Z.to_nat d <= length l)%nat).
  - f_equal; f_equal; lia.
  - rewrite !(take_ge l) by lia. rewrite drop_ge by lia. by rewrite !take_nil.
Qed.

Lemma mapped_slice m d n l : mapped m l -> mapped m (slice d n l).
Proof. intros H. by apply Forall_take, Forall_drop. Qed.

(** Storing the next piece of [bs] extends what is written of [T]. *)
Lemma store_piece m T bs a d n : mapped m T -> length bs = length T ->
  0 <= d -> 0 <= n -> d + n <= len T -> slice d n T = seqZ a n ->
  mem_store (writes m (take (Z.to_nat d) T) (take (Z.to_nat d) bs)) a (slice d n bs) =
  Ok (writes m (take (Z.to_nat (d + n)) T) (take (Z.to_nat (d + n)) bs)).
Proof.
  intros Hm Hl Hd Hn Hb E.
  assert (len (slice d n bs) = n) as Hs by (rewrite slice_length; lia).
  rewrite mem_store_spec; rewrite Hs, <- E.
  - rewrite !take_slice by done. rewrite writes_app; [done|]. rewrite !length_take. lia.
  - apply mapped_writes, mapped_slice, Hm.
Qed.

Lemma copies_from m buf T : mapped m T -> len T <= len buf ->
  copies (fun m a done len => let* l := buf_get buf done len in mem_store m a l)
    (fun m' k => m' = writes m (take (Z.to_nat k) T) (take (Z.to_nat k) (take (length T) buf))) T.
Proof.
  intros Hm Hl s a d n Hd Hn Hb E ->. eexists. split; [|done].
  unfold buf_get. zcases; [|lia]. cbn [res_bind].
  replace (take (Z.to_nat n) (drop (Z.to_nat d) buf)) with (slice d n (take (length T) buf)).
  - apply store_piece; try done. rewrite length_take. lia.
  - unfold slice. rewrite skipn_firstn_comm, take_take. f_equal. lia.
Qed.

Lemma copies_fill m c T : mapped m T ->
  copies (fun m a done len => mem_store m a (replicate (Z.to_nat len) c))
    (fun m' k => m' = writes m (take (Z.to_nat k) T) (take (Z.to_nat k) (replicate (length T) c))) T.
Proof.
  intros Hm s a d n Hd Hn Hb E ->. eexists. split; [|done].
  replace (replicate (Z.to_nat n) c) with (slice d n (replicate (length T) c)).
  - apply store_piece; try done. apply length_replicate.
  - unfold slice. rewrite drop_replicate, take_replicate. f_equal. lia.
Qed.

Lemma copies_to m buf T : mapped m T -> len T <= len buf ->
  copies (fun buf a done len => let* l := mem_load m a (Z.to_nat len) in buf_put buf done l)
    (fun b k => b = contents m (take (Z.to_nat k) T) ++ drop (Z.to_nat k) buf) T.
Proof.
  intros Hm Hl s a d n Hd Hn Hb E ->. eexists. split; [|done].
  assert (mapped m (seqZ a n)) as Hp by (rewrite <- E; by apply mapped_slice).
  rewrite mem_load_spec; rewrite Z2Nat.id by lia; [|done]. cbn [res_bind].
  rewrite <- E. unfold buf_put.
  assert (length (contents m (take (Z.to_nat d) T)) = Z.to_nat d) as Hc
    by (rewrite iov_contents_length, length_take; lia).
  assert (len (contents m (slice d n T)) = n) as Hs
    by (rewrite iov_contents_length, slice_length; lia).
  rewrite length_app, length_drop, Hc. zcases; [|lia].
  rewrite take_app_length' by done. rewrite drop_app_ge by lia.
  rewrite take_slice, contents_app, drop_drop, app_assoc by done.
  do 3 f_equal. lia.
Qed.

Section CopySpecs.
Context (m : mem) (iov : list iovec) (offset bytes : Z).
Let T := slice offset bytes (flat iov).
Context (Hok : iov_ok iov) (Ho : 0 <= offset) (Hb : 0 <= bytes) (Hm : mapped m T).

Lemma iov_from_buf_spec buf : len T <= len buf ->
  iov_from_buf m iov offset buf bytes =
  if offset <=? len (flat iov)
  then Ok (writes m T (take (length T) buf), len T) else Err AssertFailed.
Proof.
  intros Hl.
  pose proof (iov_walk_all_spec _ _ m iov offset bytes Hok Ho Hb
    (copies_from m buf _ Hm Hl) eq_refl) as H. unfold iov_from_buf.
  destruct (offset <=? len (flat iov)); [|done]. destruct H as (s & -> & ->).
  fold T. do 2 f_equal. by rewrite !take_ge by (rewrite ?length_take; lia).
Qed.

Lemma iov_memset_spec fillc :
  iov_memset m iov offset fillc bytes =
  if offset <=? len (flat iov)
  then Ok (writes m T (replicate (length T) (u8 fillc)), len T) else Err AssertFailed.
Proof.
  pose proof (iov_walk_all_spec _ _ m iov offset bytes Hok Ho Hb
    (copies_fill m (u8 fillc) _ Hm) eq_refl) as H. unfold iov_memset.
  destruct (offset <=? len (flat iov)); [|done]. destruct H as (s & -> & ->).
  fold T. do 2 f_equal. by rewrite !take_ge by (rewrite ?length_replicate; lia).
Qed.

Lemma iov_to_buf_spec buf : len T <= len buf ->
  iov_to_buf m iov offset buf bytes =
  if offset <=? len (flat iov)
  then Ok (contents m T ++ drop (length T) buf, len T) else Err AssertFailed.
Proof.
  intros Hl.
  pose proof (iov_walk_all_spec _ _ buf iov offset bytes Hok Ho Hb
    (copies_to m buf _ Hm Hl) eq_refl) as H. unfold iov_to_buf.
  destruct (offset <=? len (flat iov)); [|done]. destruct H as (s & -> & ->).
  fold T. by rewrite Nat2Z.id, firstn_all.
Qed.

End CopySpecs.

(** Writing a slice of a sequence without repetitions replaces the slice of its
    contents. *)
Lemma contents_slice_writes m off n l bs : NoDup l -> 0 <= off -> 0 <= n ->
  length bs = length (slice off n l) ->
  contents (writes m (slice off n l) bs) l =
  take (Z.to_nat off) (contents m l) ++ bs ++ drop (Z.to_nat off + length bs) (contents m l).
Proof.
  intros Hn Ho Hb Hl.
  assert (l = take (Z.to_nat off) l ++ slice off n l ++ drop (Z.to_nat off + length bs) l) as E.
  { rewrite <- (take_drop (Z.to_nat off) l) at 1. f_equal. rewrite <- drop_drop.
    rewrite Hl. unfold slice. rewrite length_take.
    rewrite <- (take_drop (Z.to_nat n) (drop (Z.to_nat off) l)) at 1. f_equal.
    destruct (decide (Z.to_nat n <= length (drop (Z.to_nat off) l))%nat).
    - f_equal. lia.
    - rewrite !drop_ge; [done|lia|lia]. }
  rewrite E in Hn. apply NoDup_app in Hn as (_ & H1 & Hn).
  apply NoDup_app in Hn as (H2 & H3 & _).
  rewrite E at 2. rewrite !contents_app. f_equal; [|f_equal].
  - unfold contents at 2. rewrite <- fmap_take. apply contents_writes_other.
    intros a Ha Hin. apply (H1 a Ha). apply elem_of_app. by left.
  - by apply contents_writes.
  - unfold contents at 2. rewrite <- fmap_drop. apply contents_writes_other.
    intros a Ha Hin. by apply (H3 a Hin).
Qed.

(** ** Slices of vectors *)

Lemma flat_length_cons v l : 0 <= iov_len v -> len (flat (v :: l)) = iov_len v + len (flat l).
Proof. intros. rewrite flat_cons, length_app, Nat2Z.inj_add, addrs_length; lia. Qed.

Lemma addrs_split v off n : 0 <= off -> 0 <= n ->
  off + n = iov_len v ->
  addrs v = seqZ (iov_base v) off ++ seqZ (iov_base v + off) n.
Proof. intros ? ? E. unfold addrs. rewrite <- E. by rewrite seqZ_app. Qed.

(** The elements that [iov_copy] fills are a slice, all of it when there is room
    left. *)
Lemma iov_copy_loop_spec iov : forall room offset bytes,
  iov_ok iov -> 0 <= offset -> 0 <= bytes -> 0 <= room ->
  let r := iov_copy_loop room iov offset bytes in
  let T := slice offset bytes (flat iov) in
  iov_ok r.1 /\ len r.1 <= room /\ flat r.1 `prefix_of` T /\
  (len r.1 < room -> flat r.1 = T) /\
  r.2 = if (bytes =? 0) || (room =? 0) then offset else Z.max 0 (offset - len (flat iov)).
Proof.
  induction iov as [|v iov IH]; intros room offset bytes Hok Ho Hb Hr; cbn zeta.
  { cbn [iov_copy_loop fst snd]. rewrite slice_none by (cbn; lia).
    split_and!; try done. cbn. zcases; lia. }
  apply iov_ok_cons in Hok as [Hv Hok]. cbn [iov_copy_loop].
  destruct ((0 <? room) && negb (bytes =? 0)) eqn:Eg; cbn [fst snd].
  2:{ split_and!; [by apply Forall_nil|cbn; lia|apply prefix_nil| |].
      - cbn. intros. by rewrite slice_zero by lia.
      - by replace ((bytes =? 0) || (room =? 0)) with true by lia. }
  replace ((bytes =? 0) || (room =? 0)) with false by lia.
  rewrite flat_length_cons by lia. destruct (Z.leb_spec (iov_len v) offset).
  - rewrite slice_flat_skip by lia.
    destruct (IH room (offset - iov_len v) bytes) as (A & B & C & D & E); try done; try lia.
    split_and!; try done. rewrite E.
    replace ((bytes =? 0) || (room =? 0)) with false by lia. lia.
  - rewrite slice_flat_take by lia. set (n := Z.min bytes (iov_len v - offset)).
    specialize (IH (room - 1) 0 (bytes - n) Hok ltac:(lia) ltac:(lia) ltac:(lia)).
    destruct (iov_copy_loop (room - 1) iov 0 (bytes - n)) as [l off'].
    cbn [fst snd] in *. destruct IH as (A & B & C & D & E).
    split_and!.
    + apply Forall_cons_2; [cbn; lia|done].
    + cbn. lia.
    + rewrite flat_cons. by apply prefix_app.
    + intros Hl. rewrite flat_cons. f_equal. apply D. cbn in Hl. lia.
    + rewrite E. zcases; lia.
Qed.

Lemma discard_front_spec iov : forall bytes total, iov_ok iov -> 0 <= bytes ->
  let r := discard_front_loop iov bytes total in
  iov_ok r.1 /\ flat r.1 = drop (Z.to_nat bytes) (flat iov) /\
  r.2 = total + Z.min bytes (len (flat iov)).
Proof.
  induction iov as [|v iov IH]; intros bytes total Hok Hb; cbn zeta.
  { cbn. rewrite drop_nil. split_and!; [done|done|lia]. }
  apply iov_ok_cons in Hok as [Hv Hok]. cbn [discard_front_loop].
  pose proof (addrs_length v Hv).
  rewrite flat_length_cons by done. rewrite (flat_cons v iov).
  destruct (Z.ltb_spec bytes (iov_len v)); cbn [fst snd].
  - split_and!; [apply Forall_cons_2; [cbn; lia|done]| |lia].
    rewrite flat_cons, drop_app_le by lia.
    rewrite (addrs_split v bytes (iov_len v - bytes)) by lia.
    rewrite drop_app_length' by (rewrite length_seqZ; lia). done.
  - destruct (IH (bytes - iov_len v) (total + iov_len v) Hok ltac:(lia)) as (A & B & C).
    split_and!; [done| |lia]. rewrite B, drop_app_ge by lia.
    f_equal. lia.
Qed.

Lemma discard_back_spec riov : forall bytes total, iov_ok riov -> 0 <= bytes ->
  let r := discard_back_loop riov bytes total in
  let l := flat (reverse riov) in
  iov_ok r.1 /\ flat (reverse r.1) = take (Z.to_nat (len l - bytes)) l /\
  r.2 = total + Z.min bytes (len l).
Proof.
  induction riov as [|v riov IH]; intros bytes total Hok Hb; cbn zeta.
  { cbn. rewrite take_nil. split_and!; [done|done|lia]. }
  apply iov_ok_cons in Hok as [Hv Hok]. cbn [discard_back_loop].
  rewrite reverse_cons, iov_flat_app, length_app, (flat_cons v []). cbn [flat fmap list_fmap concat].
  change (flat []) with (@nil Z). rewrite app_nil_r. pose proof (addrs_length v Hv).
  destruct (Z.ltb_spec bytes (iov_len v)); cbn [fst snd].
  - split_and!; [apply Forall_cons_2; [cbn; lia|done]| |lia].
    rewrite reverse_cons, iov_flat_app, flat_cons. change (flat []) with (@nil Z). rewrite app_nil_r.
    rewrite take_app_ge by lia. f_equal.
    trans (take (Z.to_nat (iov_len v - bytes)) (addrs v)); [|f_equal; lia].
    rewrite (addrs_split v (iov_len v - bytes) bytes) by lia.
    rewrite take_app_length' by (rewrite length_seqZ; lia). done.
  - destruct (IH (bytes - iov_len v) (total + iov_len v) Hok ltac:(lia)) as (A & B & C).
    split_and!; [done| |lia]. rewrite B, take_app_le by lia. f_equal. lia.
Qed.

(** ** Growing vectors *)

(** The size is the number of bytes, and a vector that owns its array has room
    for its elements; [2^30] elements are where doubling leaves [int]. *)
Definition qiov_ok (q : QEMUIOVector) : Prop :=
  iov_ok (iov q) /\ size q = u64 (len (flat (iov q))) /\
  (nalloc q = -1 \/ niov q <= nalloc q < 2 ^ 31).

Lemma u64_add k n : u64 (u64 k + n) = u64 (k + n).
Proof. unfold uwrap. by rewrite Zplus_mod_idemp_l. Qed.

Lemma iov_size_from_spec v : forall k, iov_ok v ->
  iov_size_from (u64 k) v = u64 (k + len (flat v)).
Proof.
  induction v as [|x v IH]; intros k Hok; cbn [iov_size_from].
  - f_equal. cbn. lia.
  - apply iov_ok_cons in Hok as [Hx Hok]. rewrite u64_add, IH by done.
    rewrite flat_length_cons by done. f_equal. lia.
Qed.

Lemma flat_snoc v base n : 0 <= n -> len (flat (v ++ [mk_iovec base n])) = len (flat v) + n.
Proof.
  intros. rewrite iov_flat_app, length_app, Nat2Z.inj_add, flat_length_cons; cbn; lia.
Qed.

Lemma qemu_iovec_add_spec q base n : qiov_ok q -> nalloc q <> -1 -> 0 <= n ->
  niov q < 2 ^ 30 ->
  exists q', qemu_iovec_add q base n = Ok q' /\ iov q' = iov q ++ [mk_iovec base n] /\
    qiov_ok q' /\ nalloc q' <> -1.
Proof.
  intros (Hok & Hs & Ha) Hn Hl Hc. unfold qemu_iovec_add.
  replace (nalloc q =? -1) with false by lia. cbn [negb c_assert res_bind].
  assert (0 <= niov q) by (unfold niov; lia).
  set (na := if niov q =? nalloc q then _ else _).
  assert (niov q < na < 2 ^ 31) as Hna
    by (unfold na; zcases; rewrite ?(swrap_small 32) by lia; lia).
  clearbody na. zcases; [|lia].
  eexists; split_and!; [done|done| |cbn; lia].
  split_and!; unfold niov; cbn [iov size nalloc].
  - apply Forall_app. split; [done|]. by apply Forall_singleton.
  - by rewrite Hs, u64_add, flat_snoc.
  - right. rewrite length_app. cbn. unfold niov in Hna. lia.
Qed.

Lemma concat_loop_spec src : forall dst soffset done sbytes,
  iov_ok src -> qiov_ok dst -> nalloc dst <> -1 -> 0 <= soffset -> 0 <= done <= sbytes ->
  niov dst + len src < 2 ^ 30 ->
  exists dst' off', concat_loop dst src soffset done sbytes = Ok (dst', off') /\
    flat (iov dst') = flat (iov dst) ++ slice soffset (sbytes - done) (flat src) /\
    qiov_ok dst' /\ nalloc dst' <> -1 /\
    off' = if done =? sbytes then soffset else Z.max 0 (soffset - len (flat src)).
Proof.
  induction src as [|v src IH]; intros dst soffset done sbytes Hok Hq Hn Ho Hd Hc;
    cbn [concat_loop].
  { exists dst, soffset. rewrite slice_none by (cbn; lia). rewrite app_nil_r.
    split_and!; try done. cbn. zcases; lia. }
  apply iov_ok_cons in Hok as [Hv Hok]. rewrite flat_length_cons by done. cbn in Hc.
  destruct (Z.ltb_spec done sbytes).
  2:{ exists dst, soffset. rewrite slice_zero, app_nil_r by lia. split_and!; try done.
      by replace (done =? sbytes) with true by lia. }
  replace (done =? sbytes) with false by lia.
  destruct (Z.ltb_spec soffset (iov_len v)).
  - set (n := Z.min (iov_len v - soffset) (sbytes - done)).
    assert (0 < n <= sbytes - done) by lia.
    destruct (qemu_iovec_add_spec dst (iov_base v + soffset) n Hq Hn ltac:(lia) ltac:(lia))
      as (q & -> & Eq & Hq' & Hn'). cbn [res_bind].
    destruct (IH q 0 (done + n) sbytes Hok Hq' Hn' ltac:(lia) ltac:(lia))
      as (d & off & -> & Ed & Hd' & Hnd & Eo).
    { unfold niov. rewrite Eq, length_app. cbn. unfold niov in Hc. lia. }
    exists d, off. split_and!; try done.
    + rewrite Ed, Eq, iov_flat_app, flat_cons. change (flat []) with (@nil Z).
      rewrite app_nil_r, <- app_assoc. f_equal.
      rewrite slice_flat_take by lia. rewrite (Z.min_comm (sbytes - done)). fold n.
      f_equal. f_equal. lia.
    + rewrite Eo. zcases; lia.
  - destruct (IH dst (soffset - iov_len v) done sbytes Hok Hq Hn ltac:(lia) ltac:(lia) ltac:(lia))
      as (d & off & -> & Ed & Hd' & Hnd & Eo).
    exists d, off. split_and!; try done.
    + by rewrite Ed, slice_flat_skip by lia.
    + rewrite Eo. zcases; lia.
Qed.

(** ** Comparing *)

(** The position of the first difference, -1 when there is none. *)
Fixpoint first_mismatch (i : Z) (l k : list Z) : Z :=
  match l, k with
  | x :: l, y :: k => if x =? y then first_mismatch (i + 1) l k else i
  | _, _ => -1
  end.

Lemma same_bytes_spec n : forall m p q i l k,
  mapped m (seqZ p (Z.of_nat n)) -> mapped m (seqZ q (Z.of_nat n)) ->
  exists c, same_bytes n m p q = Ok c /\ 0 <= c <= Z.of_nat n /\
    first_mismatch i (contents m (seqZ p (Z.of_nat n)) ++ l) (contents m (seqZ q (Z.of_nat n)) ++ k) =
    if c =? Z.of_nat n then first_mismatch (i + c) l k else i + c.
Proof.
  induction n as [|n IH]; intros m p q i l k Hp Hq.
  { exists 0. cbn. rewrite Z.add_0_r. split_and!; [done|lia|lia|done]. }
  rewrite (seqZ_cons p) in Hp |- * by lia. rewrite (seqZ_cons q) in Hq |- * by lia.
  apply Forall_cons in Hp as [[x Hx] Hp]. apply Forall_cons in Hq as [[y Hy] Hq].
  replace (Z.pred (Z.of_nat (S n))) with (Z.of_nat n) in * by lia.
  cbn [same_bytes contents fmap list_fmap app first_mismatch]. unfold mem_get.
  rewrite Hx, Hy. cbn [res_bind default from_option id]. destruct (Z.eqb_spec x y).
  - rewrite (Z.add_1_r p), (Z.add_1_r q).
    destruct (IH m (Z.succ p) (Z.succ q) (i + 1) l k Hp Hq) as (c & E & Hc & Ec).
    rewrite E. cbn [res_bind]. exists (c + 1). split_and!; try done; try lia.
    unfold contents in Ec. rewrite Ec.
    zcases; try lia. by replace (i + 1 + c) with (i + (c + 1)) by lia.
  - exists 0. split_and!; [done|lia|lia|]. zcases; lia.
Qed.

Lemma compare_loop_spec m a : forall b i, iov_ok a ->
  iov_len <$> a = iov_len <$> b -> mapped m (flat a) -> mapped m (flat b) ->
  compare_loop m a b i = Ok (first_mismatch i (contents m (flat a)) (contents m (flat b))).
Proof.
  induction a as [|va a IH]; intros [|vb b] i Hok El Ha Hb; try done.
  apply iov_ok_cons in Hok as [Hv Hok]. injection El as Ev El.
  rewrite flat_cons in Ha, Hb. apply mapped_app in Ha as [Ha1 Ha], Hb as [Hb1 Hb].
  cbn [compare_loop]. rewrite Ev, Z.eqb_refl. cbn [c_assert res_bind].
  unfold addrs in Ha1, Hb1. rewrite Ev in Ha1, Hv.
  destruct (same_bytes_spec (Z.to_nat (iov_len vb)) m (iov_base va) (iov_base vb) i
    (contents m (flat a)) (contents m (flat b))) as (c & -> & Hc & Ec);
    rewrite ?Z2Nat.id in * by done; try done.
  cbn [res_bind]. rewrite !flat_cons, !contents_app. unfold addrs. rewrite Ev, Ec.
  destruct (c =? iov_len vb); cbn [negb]; [|done]. by apply IH.
Qed.

Lemma first_mismatch_spec l : forall k i, length l = length k -> 0 <= i ->
  let r := first_mismatch i l k in
  (r = -1 <-> l = k) /\
  (r <> -1 -> i <= r < i + len l /\ take (Z.to_nat (r - i)) l = take (Z.to_nat (r - i)) k /\
     l !! Z.to_nat (r - i) <> k !! Z.to_nat (r - i)).
Proof.
  induction l as [|x l IH]; intros [|y k] i Hl Hi; try done.
  cbn [first_mismatch]. destruct (Z.eqb_spec x y) as [->|Hne]; cbn zeta.
  - destruct (IH k (i + 1) ltac:(by injection Hl) ltac:(lia)) as [A B].
    split; [rewrite A; naive_solver|]. intros Hr. destruct (B Hr) as (Hb & C & D).
    replace (Z.to_nat (first_mismatch (i + 1) l k - i)) with
      (S (Z.to_nat (first_mismatch (i + 1) l k - (i + 1)))) by lia.
    split_and!; cbn [length]; [lia|lia|cbn; by f_equal|done].
  - split; [split; [lia|congruence]|]. intros _. rewrite Z.sub_diag.
    split_and!; cbn [length]; [lia|lia|done|cbn; by intros [=]].
Qed.
