(* ===== verification/IovClone.v ===== *)
(** * Cloning a scatter-gather vector

    [qemu_iovec_clone] lays the bytes of a vector out in a new buffer.  The
    elements are placed by increasing address, an element that overlaps its
    predecessors is placed over them: the clone's addresses are the image of the
    source's under one increasing function. *)

From Stdlib Require Import ZArith Lia.
From stdpp Require Import base numbers gmap sorting list.
From S2P Require Import Prelude Iov IovFacts.

(** ** Sorting *)

(** What C promises of [qsort]: for a comparison that orders the elements, a
    permutation in order. *)
Definition cmp_order {A} (cmp : A -> A -> Z) : Prop :=
  (forall x y, cmp x y <= 0 \/ cmp y x <= 0) /\
  (forall x y z, cmp x y <= 0 -> cmp y z <= 0 -> cmp x z <= 0).

Definition qsort_ok {A} (qsort : (A -> A -> Z) -> list A -> list A) : Prop :=
  forall cmp l, cmp_order cmp ->
  qsort cmp l ≡ₚ l /\ Sorted (fun x y => cmp x y <= 0) (qsort cmp l).

Lemma qsort_strongly {A} (qsort : (A -> A -> Z) -> list A -> list A) cmp l :
  qsort_ok qsort -> cmp_order cmp ->
  qsort cmp l ≡ₚ l /\ StronglySorted (fun x y => cmp x y <= 0) (qsort cmp l).
Proof.
  intros Hq Ho. destruct (Hq cmp l Ho) as [Hp Hs]. split; [done|].
  apply Sorted_StronglySorted; [|done]. intros x y z. apply Ho.
Qed.

Lemma strongly_impl {A} (R R' : A -> A -> Prop) l :
  (forall x y, R x y -> R' x y) -> StronglySorted R l -> StronglySorted R' l.
Proof.
  intros HR. induction 1 as [|x l Hs IH Hf]; constructor; [done|].
  eapply Forall_impl; [exact Hf|]. auto.
Qed.

Lemma src_base_order : cmp_order sortelem_cmp_src_base.
Proof.
  unfold sortelem_cmp_src_base.
  split; [intros x y|intros x y z]; zcases; intros; try lia.
Qed.

Lemma src_base_le x y :
  sortelem_cmp_src_base x y <= 0 <-> iov_base (src_iov x) <= iov_base (src_iov y).
Proof. unfold sortelem_cmp_src_base. zcases; lia. Qed.

Lemma src_index_order : cmp_order sortelem_cmp_src_index.
Proof. unfold sortelem_cmp_src_index. split; intros; lia. Qed.

(** ** Placing *)

Definition covers (e : IOVectorSortElem) (a : Z) : Prop :=
  iov_base (src_iov e) <= a < iov_base (src_iov e) + iov_len (src_iov e).

(** Where the byte at address [a] of an element goes. *)
Definition daddr (e : IOVectorSortElem) (a : Z) : Z := dest_base e + (a - iov_base (src_iov e)).

(** Bytes keep their order, and a byte that two elements share stays shared. *)
Definition keeps_order (P : list IOVectorSortElem) : Prop :=
  forall e1 e2 a b, e1 ∈ P -> e2 ∈ P -> covers e1 a -> covers e2 b ->
  (a < b -> daddr e1 a < daddr e2 b) /\ (a = b -> daddr e1 a = daddr e2 b).

(** While elements are placed: [start] is where the group of overlapping
    elements at the end starts; from there on addresses are moved by
    [buf - last_end], the addresses below are placed below. *)
Record placing (buf0 : Z) (P : list IOVectorSortElem) (start buf last_end : Z) : Prop := {
  pl_low : buf0 <= start + (buf - last_end);
  pl_start : start <= last_end;
  pl_elem e a : e ∈ P -> covers e a ->
    a < last_end /\ buf0 <= daddr e a < buf /\
    (start <= a -> daddr e a = a + (buf - last_end)) /\
    (a < start -> daddr e a < start + (buf - last_end));
  pl_order : keeps_order P
}.

(** A new element that lies behind [start] and is moved by the same distance. *)
Lemma placing_add buf0 P start buf last_end e buf' last_end' :
  placing buf0 P start buf last_end ->
  start <= iov_base (src_iov e) ->
  dest_base e = iov_base (src_iov e) + (buf - last_end) ->
  buf' - last_end' = buf - last_end -> last_end <= last_end' ->
  iov_base (src_iov e) + iov_len (src_iov e) <= last_end' ->
  placing buf0 (P ++ [e]) start buf' last_end'.
Proof.
  intros [Hlow Hst Hel Hor] Hb Hd E Hl He.
  assert (forall a, covers e a -> daddr e a = a + (buf - last_end)) as Hnew
    by (intros a _; unfold daddr; lia).
  split; rewrite ?E; try lia.
  - intros x a Hx Ha. apply elem_of_app in Hx as [Hx|Hx%list_elem_of_singleton].
    + destruct (Hel x a Hx Ha) as (H1 & H2 & H3 & H4). split_and!; try done; lia.
    + subst x. specialize (Hnew a Ha). unfold covers in Ha. split_and!; lia.
  - intros e1 e2 a b H1 H2 Ha Hc.
    apply elem_of_app in H1 as [H1|H1%list_elem_of_singleton];
      apply elem_of_app in H2 as [H2|H2%list_elem_of_singleton].
    + by apply Hor.
    + subst e2. rewrite (Hnew b Hc). unfold covers in Hc.
      destruct (Hel e1 a H1 Ha) as (_ & _ & H3 & H4).
      destruct (Z.le_gt_cases start a); [rewrite H3 by done|specialize (H4 H)]; lia.
    + subst e1. rewrite (Hnew a Ha). unfold covers in Ha.
      destruct (Hel e2 b H2 Hc) as (_ & _ & H3 & H4).
      split; intros; rewrite H3 by lia; lia.
    + subst. rewrite !Hnew by done. lia.
Qed.

(** A new group: what is placed lies below its start. *)
Lemma placing_group buf0 P start buf last_end c :
  placing buf0 P start buf last_end -> last_end <= c ->
  placing buf0 P c buf c.
Proof.
  intros [Hlow Hst Hel Hor] Hc. split; try lia; [|done].
  intros e a He Ha. destruct (Hel e a He Ha) as (H1 & H2 & _ & _). split_and!; lia.
Qed.

Lemma place_spec buf0 l : forall P start buf last_end,
  placing buf0 P start buf last_end -> 0 <= last_end ->
  Forall (fun e => 0 <= iov_len (src_iov e) /\ 0 <= iov_base (src_iov e)) l ->
  StronglySorted (fun x y => iov_base (src_iov x) <= iov_base (src_iov y)) l ->
  Forall (fun e => start <= iov_base (src_iov e)) l ->
  exists start' buf' last_end',
    placing buf0 (P ++ place_elems l buf last_end) start' buf' last_end' /\
    buf' <= buf + len (flat (src_iov <$> l)).
Proof.
  induction l as [|e l IH]; intros P start buf last_end Hp Hl Hok Hs Hb.
  { exists start, buf, last_end. cbn. rewrite app_nil_r. split; [done|lia]. }
  apply Forall_cons in Hok as [[Hlen Hbase] Hok]. apply Forall_cons in Hb as [Hb Hb'].
  apply StronglySorted_cons in Hs as [Hmin Hs].
  rewrite fmap_cons, flat_length_cons by done.
  cbn [place_elems]. set (c := src_iov e) in *.
  destruct (negb (last_end =? 0) && (iov_base c <? last_end)) eqn:Eo.
  - set (e' := mk_elem (src_index e) c (buf - (last_end - iov_base c))).
    set (buf' := buf + (iov_len c - Z.min (last_end - iov_base c) (iov_len c))).
    set (le := Z.max (iov_base c + iov_len c) last_end).
    destruct (IH (P ++ [e']) start buf' le) as (s' & b' & l' & Hp' & Hle); try done; try lia.
    { apply (placing_add buf0 P start buf last_end); cbn; try done; lia. }
    exists s', b', l'. rewrite <- app_assoc in Hp'. split; [done|lia].
  - rewrite Z.sub_0_r, Z.min_l, Z.sub_0_r by lia.
    replace (Z.max (iov_base c + iov_len c) last_end) with (iov_base c + iov_len c) by lia.
    set (e' := mk_elem (src_index e) c buf).
    destruct (IH (P ++ [e']) (iov_base c) (buf + iov_len c) (iov_base c + iov_len c))
      as (s' & b' & l' & Hp' & Hle); try done; try lia.
    { apply (placing_add buf0 P (iov_base c) buf (iov_base c)); cbn; try done; try lia.
      apply (placing_group buf0 P start buf last_end); [done|lia]. }
    exists s', b', l'. rewrite <- app_assoc in Hp'. split; [done|lia].
Qed.

(** ** The order of the source *)

Definition key (e : IOVectorSortElem) : Z * iovec := (src_index e, src_iov e).

Lemma place_keys l : forall buf le, key <$> place_elems l buf le = key <$> l.
Proof.
  induction l as [|e l IH]; intros buf le; [done|]. cbn [place_elems].
  rewrite !fmap_cons, IH. done.
Qed.

Lemma number_lookup v : forall i e, e ∈ number_elems i v ->
  i <= src_index e /\ v !! Z.to_nat (src_index e - i) = Some (src_iov e).
Proof.
  induction v as [|x v IH]; intros i e He; cbn in He; [by apply elem_of_nil in He|].
  apply elem_of_cons in He as [->|He]; cbn.
  - by rewrite Z.sub_diag.
  - apply IH in He as [H1 H2]. split; [lia|].
    by replace (Z.to_nat (src_index e - i)) with (S (Z.to_nat (src_index e - (i + 1)))) by lia.
Qed.

Lemma number_sorted v : forall i,
  StronglySorted (fun a b => a.1 <= b.1) (key <$> number_elems i v).
Proof.
  induction v as [|x v IH]; intros i; cbn; [constructor|].
  apply StronglySorted_cons. split; [|apply IH].
  apply Forall_forall. intros k Hk. apply list_elem_of_fmap in Hk as (e & -> & He).
  apply number_lookup in He as [He _]. cbn. lia.
Qed.

Lemma number_src v : forall i, src_iov <$> number_elems i v = v.
Proof. induction v as [|x v IH]; intros i; cbn; [done|]. by rewrite IH. Qed.

(** Sorting by index restores the order of the source. *)
Lemma index_restores v l :
  key <$> l ≡ₚ key <$> number_elems 0 v ->
  StronglySorted (fun x y => sortelem_cmp_src_index x y <= 0) l ->
  src_iov <$> l = v.
Proof.
  intros Hp Hs.
  assert (key <$> l = key <$> number_elems 0 v) as E.
  { apply (StronglySorted_unique_strong (fun a b => a.1 <= b.1)); [| |apply number_sorted|done].
    - intros k1 k2 H1 H2 L1 L2. rewrite Hp in H1.
      apply list_elem_of_fmap in H1 as (e1 & -> & H1), H2 as (e2 & -> & H2).
      apply number_lookup in H1 as [_ H1], H2 as [_ H2].
      unfold key in *. cbn in L1, L2. assert (src_index e1 = src_index e2) as E by lia.
      rewrite E in *. congruence.
    - clear Hp. induction Hs as [|e l Hs IH Hf]; cbn; constructor; [done|].
      apply Forall_forall. intros k Hk. apply list_elem_of_fmap in Hk as (x & -> & Hx).
      rewrite Forall_forall in Hf. specialize (Hf x Hx).
      unfold sortelem_cmp_src_index in Hf. cbn. lia. }
  rewrite <- (number_src v 0).
  transitivity (snd <$> (key <$> l)); [by rewrite <- list_fmap_compose|].
  rewrite E. by rewrite <- list_fmap_compose.
Qed.

(** ** Addresses of the clone *)

(** The image of an address: through an element that covers it. *)
Fixpoint move (P : list IOVectorSortElem) (a : Z) : Z :=
  match P with
  | [] => a
  | e :: P => if (iov_base (src_iov e) <=? a) && (a <? iov_base (src_iov e) + iov_len (src_iov e))
              then daddr e a else move P a
  end.

Lemma move_eq P e a : keeps_order P -> e ∈ P -> covers e a -> move P a = daddr e a.
Proof.
  intros Hk He Hc.
  assert (exists e', e' ∈ P /\ covers e' a /\ move P a = daddr e' a) as (e' & He' & Hc' & ->).
  { clear Hk. induction P as [|x P IH]; [by apply elem_of_nil in He|]. cbn [move].
    destruct ((iov_base (src_iov x) <=? a) && _) eqn:E.
    - exists x. unfold covers. split_and!; [by apply list_elem_of_here|lia|lia|done].
    - apply elem_of_cons in He as [->|He]; [unfold covers in Hc; lia|].
      destruct (IH He) as (e' & H1 & H2 & H3). exists e'.
      split_and!; [by apply list_elem_of_further|done..]. }
  by apply (Hk e' e a a).
Qed.

Definition clone_of (e : IOVectorSortElem) : iovec := mk_iovec (dest_base e) (iov_len (src_iov e)).

Lemma clone_addrs P e : keeps_order P -> e ∈ P ->
  addrs (clone_of e) = move P <$> addrs (src_iov e).
Proof.
  intros Hk He. apply list_eq. intros i. unfold addrs, clone_of. cbn [iov_base iov_len].
  rewrite list_lookup_fmap. destruct (decide (Z.of_nat i < iov_len (src_iov e))).
  - rewrite !lookup_seqZ_lt by lia. cbn. f_equal.
    rewrite (move_eq P e); [|done|done|unfold covers; lia]. unfold daddr. lia.
  - by rewrite !lookup_seqZ_ge by lia.
Qed.

Lemma clone_flat P l : keeps_order P -> (forall e, e ∈ l -> e ∈ P) ->
  flat (clone_of <$> l) = move P <$> flat (src_iov <$> l).
Proof.
  intros Hk Hl. induction l as [|e l IH]; [done|].
  rewrite !fmap_cons, !flat_cons, fmap_app. f_equal.
  - apply clone_addrs; [done|]. apply Hl, list_elem_of_here.
  - apply IH. intros x Hx. by apply Hl, list_elem_of_further.
Qed.

Lemma elem_flat v a : a ∈ flat v <-> exists x, x ∈ v /\ iov_base x <= a < iov_base x + iov_len x.
Proof.
  induction v as [|y v IH]; [split; [by intros ?%elem_of_nil|by intros (? & ?%elem_of_nil & _)]|].
  rewrite flat_cons, elem_of_app, IH. unfold addrs. rewrite elem_of_seqZ.
  setoid_rewrite elem_of_cons. naive_solver.
Qed.

(** ** Building the clone *)

Lemma add_elems_spec l : forall dest src, src_iov <$> l = src -> iov_ok src ->
  qiov_ok dest -> nalloc dest <> -1 -> niov dest + len src < 2 ^ 30 ->
  exists dest', add_elems dest l src = Ok dest' /\
    iov dest' = iov dest ++ (clone_of <$> l) /\ qiov_ok dest' /\ nalloc dest' <> -1.
Proof.
  induction l as [|e l IH]; intros dest src <- Hok Hq Hn Hc.
  { exists dest. cbn. by rewrite app_nil_r. }
  rewrite fmap_cons in *. apply iov_ok_cons in Hok as [Hv Hok]. cbn [length] in Hc.
  destruct (qemu_iovec_add_spec dest (dest_base e) (iov_len (src_iov e)) Hq Hn Hv ltac:(lia))
    as (q & E & Ei & Hq' & Hn').
  cbn [add_elems]. rewrite E. cbn [res_bind].
  destruct (IH q _ eq_refl Hok Hq' Hn') as (d & -> & Ed & Hd & Hnd).
  { unfold niov in *. rewrite Ei, length_app. cbn. lia. }
  exists d. split_and!; try done. by rewrite Ed, Ei, <- app_assoc.
Qed.

Section CloneSpec.
Context (qsort : (IOVectorSortElem -> IOVectorSortElem -> Z) ->
                 list IOVectorSortElem -> list IOVectorSortElem)
        (Hqsort : qsort_ok qsort).

(** The elements in the order of the source, and their places. *)
Lemma sorted_places v buf :
  iov_ok v -> Forall (fun x => 0 <= iov_base x) v ->
  let l := qsort sortelem_cmp_src_index
             (place_elems (qsort sortelem_cmp_src_base (number_elems 0 v)) buf 0) in
  src_iov <$> l = v /\ keeps_order l /\
  forall e a, e ∈ l -> covers e a -> buf <= daddr e a < buf + len (flat v).
Proof.
  intros Hok Hbase.
  set (s := qsort sortelem_cmp_src_base _).
  destruct (qsort_strongly qsort _ (number_elems 0 v) Hqsort src_base_order) as [Hp1 Hs1].
  fold s in Hp1, Hs1.
  destruct (qsort_strongly qsort _ (place_elems s buf 0) Hqsort src_index_order) as [Hp2 Hs2].
  intros l. fold l in Hp2, Hs2.
  assert (src_iov <$> s ≡ₚ v) as Hv by (rewrite Hp1; by rewrite number_src).
  assert (Forall (fun e => 0 <= iov_len (src_iov e) /\ 0 <= iov_base (src_iov e)) s) as Hf.
  { apply Forall_forall. intros e He. unfold iov_ok in Hok. rewrite Forall_forall in Hok, Hbase.
    assert (src_iov e ∈ v) by (rewrite <- Hv; by apply list_elem_of_fmap_2). auto. }
  destruct (place_spec buf s [] 0 buf 0) as (s' & b' & l' & Hpl & Hle); try done.
  { split; try lia; intros ? ?; [by intros ?%elem_of_nil|intros ? ? ?%elem_of_nil; done]. }
  { eapply strongly_impl; [|exact Hs1]. intros x y. apply src_base_le. }
  { eapply Forall_impl; [exact Hf|]. by intros x [_ ?]. }
  assert (len (flat (src_iov <$> s)) = len (flat v)) as Hlen.
  { f_equal. unfold flat. apply Permutation_length. by rewrite Hv. }
  cbn [app] in Hpl. split_and!.
  - apply index_restores; [|done]. rewrite Hp2, place_keys, Hp1. done.
  - intros e1 e2 a b. rewrite !Hp2. apply Hpl.
  - intros e a. rewrite Hp2. intros He Ha.
    destruct (pl_elem _ _ _ _ _ Hpl e a He Ha) as (_ & ? & _). lia.
Qed.

Lemma clone_spec dest src buf :
  qiov_ok dest -> nalloc dest <> -1 -> niov dest + niov src < 2 ^ 30 ->
  iov_ok (iov src) -> Forall (fun x => 0 <= iov_base x) (iov src) ->
  exists dest' clone f, qemu_iovec_clone qsort dest src buf = Ok dest' /\
    iov dest' = iov dest ++ clone /\ qiov_ok dest' /\
    iov_len <$> clone = iov_len <$> iov src /\
    flat clone = f <$> flat (iov src) /\
    (forall a b, a ∈ flat (iov src) -> b ∈ flat (iov src) -> a < b -> f a < f b) /\
    (forall a, a ∈ flat (iov src) -> buf <= f a < buf + len (flat (iov src))).
Proof.
  intros Hq Hn Hc Hok Hb. destruct (sorted_places (iov src) buf Hok Hb) as (El & Hk & Hr).
  unfold qemu_iovec_clone. set (l := qsort sortelem_cmp_src_index _) in *.
  destruct (add_elems_spec l dest (iov src) El Hok Hq Hn Hc) as (d & -> & Ed & Hd & _).
  assert (forall a, a ∈ flat (iov src) -> exists e, e ∈ l /\ covers e a) as Hcov.
  { intros a Ha. apply elem_flat in Ha as (x & Hx & Hx'). rewrite <- El in Hx.
    apply list_elem_of_fmap in Hx as (e & -> & He). by exists e. }
  exists d, (clone_of <$> l), (move l). split_and!; try done.
  - rewrite <- El, <- !list_fmap_compose. done.
  - rewrite (clone_flat l l), El by done. done.
  - intros a b (e1 & H1 & C1)%Hcov (e2 & H2 & C2)%Hcov Hlt.
    rewrite (move_eq l e1), (move_eq l e2) by done. by apply Hk.
  - intros a (e & He & C)%Hcov. rewrite (move_eq l e) by done. by apply Hr.
Qed.

End CloneSpec.
