(* ===== verification/IovSend.v ===== *)
(** * Sending and receiving a slice of a vector

    [iov_send_recv] narrows the array it is given to the slice that is left,
    makes the system call, and undoes the change, until the slice is
    transferred.  The theorems hold for any socket with the documented
    behaviour of [sendmsg] and [recvmsg]. *)

From Stdlib Require Import ZArith Lia.
From stdpp Require Import base numbers gmap list.
From S2P Require Import Prelude Iov IovFacts.

(** ** Sockets *)

(** A socket has a stream of bytes that it accepted, a stream that it has for
    the process, and a number of signals that are still to come. *)
Class SocketLaws (W : Type) `{!Socket W} := {
  sent : W -> list Z;
  incoming : W -> list Z;
  signals : W -> nat;
  sendmsg_law w m iov : iov_ok iov -> mapped m (flat iov) ->
    let (w', r) := sendmsg w m iov in
    incoming w' = incoming w /\ (signals w' <= signals w)%nat /\
    match r with
    | Sys k => 0 <= k <= len (flat iov) /\ (0 < len (flat iov) -> 0 < k) /\
               sent w' = sent w ++ take (Z.to_nat k) (contents m (flat iov))
    | Fail e => sent w' = sent w /\ (e = EINTR -> (signals w' < signals w)%nat)
    end;
  recvmsg_law w m iov : iov_ok iov -> mapped m (flat iov) ->
    let '(w', m', r) := recvmsg w m iov in
    sent w' = sent w /\ (signals w' <= signals w)%nat /\
    match r with
    | Sys k => 0 <= k <= len (flat iov) /\ k <= len (incoming w) /\
               m' = writes m (take (Z.to_nat k) (flat iov)) (take (Z.to_nat k) (incoming w)) /\
               incoming w' = drop (Z.to_nat k) (incoming w)
    | Fail e => m' = m /\ incoming w' = incoming w /\ (e = EINTR -> (signals w' < signals w)%nat)
    end
}.

Section Transfer.
Context {W : Type} `{!Socket W} `{!SocketLaws W}.

(** The bytes at the first [k] addresses of [T] have been transferred. *)
Definition xfer (do_send : bool) (w : W) (m : mem) (T : list Z) (k : Z) (w' : W) (m' : mem) : Prop :=
  (signals w' <= signals w)%nat /\ 0 <= k <= len T /\
  if do_send
  then m' = m /\ incoming w' = incoming w /\ sent w' = sent w ++ take (Z.to_nat k) (contents m T)
  else sent w' = sent w /\ k <= len (incoming w) /\
       m' = writes m (take (Z.to_nat k) T) (take (Z.to_nat k) (incoming w)) /\
       incoming w' = drop (Z.to_nat k) (incoming w).

Lemma xfer_mapped b w m T k w' m' l : xfer b w m T k w' m' -> mapped m l -> mapped m' l.
Proof.
  intros (_ & _ & H) Hm. destruct b.
  - by destruct H as (-> & _).
  - destruct H as (_ & _ & -> & _). by apply mapped_writes.
Qed.

Lemma xfer_none b w m T : xfer b w m T 0 w m.
Proof.
  split_and!; [done|lia|lia|]. destruct b; cbn; rewrite ?app_nil_r, ?drop_0; [done|].
  split_and!; try done. lia.
Qed.

Lemma xfer_trans b w m T k w1 m1 j w2 m2 :
  xfer b w m T k w1 m1 -> xfer b w1 m1 (drop (Z.to_nat k) T) j w2 m2 ->
  xfer b w m T (k + j) w2 m2.
Proof.
  intros (S1 & K1 & H1) (S2 & K2 & H2). rewrite length_drop in K2.
  split_and!; [lia|lia|lia|]. destruct b.
  - destruct H1 as (-> & I1 & T1), H2 as (-> & I2 & T2).
    split_and!; [done|congruence|]. rewrite T2, T1, <- app_assoc. f_equal.
    rewrite take_slice by lia. unfold slice. f_equal. f_equal.
    unfold contents. by rewrite fmap_drop.
  - destruct H1 as (T1 & L1 & -> & I1), H2 as (T2 & L2 & -> & I2).
    rewrite I1 in *. rewrite length_drop in L2. split_and!; [congruence|lia| |].
    + rewrite !take_slice by lia. rewrite writes_app; [done|]. rewrite !length_take. lia.
    + rewrite I2, drop_drop. f_equal. lia.
Qed.

(** A transfer of a prefix is a transfer. *)
Lemma xfer_prefix b w m T n k w' m' :
  xfer b w m (take (Z.to_nat n) T) k w' m' -> xfer b w m T k w' m'.
Proof.
  intros (S1 & K1 & H1). rewrite length_take in K1. split_and!; [done|lia|lia|].
  destruct b.
  - destruct H1 as (-> & I1 & T1). split_and!; try done. rewrite T1. f_equal.
    unfold contents. rewrite <- !fmap_take, take_take. do 2 f_equal. lia.
  - destruct H1 as (T1 & L1 & -> & I1). split_and!; try done.
    rewrite take_take. do 2 f_equal. lia.
Qed.

Lemma do_send_recv_spec b iov fuel : forall w m,
  iov_ok iov -> mapped m (flat iov) -> (signals w < fuel)%nat ->
  exists w' m' ret, do_send_recv fuel w m iov b = Ok (w', m', ret) /\
  match ret with
  | Sys k => xfer b w m (flat iov) k w' m' /\ (b = true -> 0 < len (flat iov) -> 0 < k)
  | Fail e => xfer b w m (flat iov) 0 w' m' /\ e <> EINTR
  end.
Proof.
  induction fuel as [|fuel IH]; intros w m Hok Hm Hf; [lia|]. cbn [do_send_recv].
  destruct b.
  - pose proof (sendmsg_law w m iov Hok Hm) as L. destruct (sendmsg w m iov) as [w1 r].
    destruct L as (I1 & S1 & L). destruct r as [k|e].
    + destruct L as (K & P & T1). exists w1, m, (Sys k). by split_and!.
    + destruct L as (T1 & Le).
      assert (xfer true w m (flat iov) 0 w1 m) as Hx
        by (split_and!; try done; try lia; cbn; by rewrite app_nil_r).
      destruct e; [|by exists w1, m, (Fail EAGAIN)|by exists w1, m, (Fail EOther)].
      destruct (IH w1 m Hok Hm) as (w2 & m2 & r & -> & Hr); [specialize (Le eq_refl); lia|].
      exists w2, m2, r. split; [done|]. destruct r as [k|e].
      * destruct Hr as [Hr Hp]. split; [|done]. by apply (xfer_trans _ _ _ _ 0 w1 m k).
      * destruct Hr as [Hr Hp]. split; [|done]. by apply (xfer_trans _ _ _ _ 0 w1 m 0).
  - pose proof (recvmsg_law w m iov Hok Hm) as L. destruct (recvmsg w m iov) as [[w1 m1] r].
    destruct L as (T1 & S1 & L). destruct r as [k|e].
    + destruct L as (K & P & -> & I1). eexists w1, _, (Sys k). split; [done|]. by split_and!.
    + destruct L as (-> & I1 & Le).
      assert (xfer false w m (flat iov) 0 w1 m) as Hx
        by (split_and!; try done; try lia; cbn; by rewrite ?drop_0).
      destruct e; [|by exists w1, m, (Fail EAGAIN)|by exists w1, m, (Fail EOther)].
      destruct (IH w1 m Hok Hm) as (w2 & m2 & r & -> & Hr); [specialize (Le eq_refl); lia|].
      exists w2, m2, r. split; [done|]. destruct r as [k|e].
      * destruct Hr as [Hr Hp]. split; [|done]. by apply (xfer_trans _ _ _ _ 0 w1 m k).
      * destruct Hr as [Hr Hp]. split; [|done]. by apply (xfer_trans _ _ _ _ 0 w1 m 0).
Qed.

(** ** Narrowing the array *)

(** The elements skipped are full, the offset left lies in the next one. *)
Lemma skip_full_spec l : forall n off, iov_ok l -> 0 <= off ->
  exists l1 l2 off', l = l1 ++ l2 /\ skip_full l n off = (n + len l1, off') /\
    off = len (flat l1) + off' /\ 0 <= off' /\
    match l2 with [] => True | v :: _ => off' < iov_len v end.
Proof.
  induction l as [|v l IH]; intros n off Hok Ho; cbn [skip_full].
  { exists [], [], off. cbn. split_and!; [done|f_equal; lia|lia|lia|done]. }
  apply iov_ok_cons in Hok as [Hv Hok]. destruct (Z.leb_spec (iov_len v) off).
  - destruct (IH (n + 1) (off - iov_len v) Hok ltac:(lia)) as (l1 & l2 & o & -> & -> & E & Ho' & Hl).
    exists (v :: l1), l2, o. rewrite flat_length_cons by done. cbn [length].
    split_and!; [done|f_equal; lia|lia|lia|done].
  - exists [], (v :: l), off. cbn [length flat]. split_and!; [done|f_equal; lia|cbn; lia|lia|done].
Qed.

Lemma elems_app A V n : elems (A ++ V) (len A) n = take (Z.to_nat n) V.
Proof. unfold elems. by rewrite Nat2Z.id, drop_app_length. Qed.

Lemma aget_app A v (V : list iovec) : aget (A ++ v :: V) (len A) = Ok v.
Proof. apply aget_Ok. split; [lia|]. rewrite Nat2Z.id. by rewrite list_lookup_middle. Qed.

Lemma aset_app A v x (V : list iovec) : aset (A ++ v :: V) (len A) x = Ok (A ++ x :: V).
Proof.
  apply aset_Ok. rewrite length_app. cbn. split; [lia|].
  by rewrite Nat2Z.id, insert_app_r_alt, Nat.sub_diag by lia.
Qed.

Lemma adjust_first_spec A v V off d : (off = 0 -> d = 0) ->
  adjust_first (A ++ v :: V) (len A) off d = Ok (A ++ move_base v d :: V).
Proof.
  intros Hd. unfold adjust_first. destruct (Z.eqb_spec off 0) as [E|E].
  - rewrite Hd by done. unfold move_base. rewrite Z.add_0_r, Z.sub_0_r. by destruct v.
  - rewrite aget_app. cbn [res_bind]. apply aset_app.
Qed.

(** The system call sees the first [bytes] bytes, and the array is restored. *)
Lemma send_part_spec b A V bytes fuel w m :
  iov_ok V -> 0 < bytes <= len (flat V) ->
  let (niov, tail) := skip_full V 0 bytes in
  exists L, iov_ok L /\ flat L = take (Z.to_nat bytes) (flat V) /\
    send_part fuel w m (A ++ V) (len A) niov tail (len V) b =
    let* (w, m, ret) := do_send_recv fuel w m L b in Ok (w, m, A ++ V, ret).
Proof.
  intros Hok Hb.
  destruct (skip_full_spec V 0 bytes Hok ltac:(lia)) as (L1 & L2 & t & -> & -> & E & Ht & Hl).
  rewrite Z.add_0_l. apply Forall_app in Hok as [Hok1 Hok2].
  rewrite iov_flat_app in *. rewrite length_app in Hb. unfold send_part.
  destruct (Z.eqb_spec t 0) as [->|Hne].
  { exists L1. split_and!; [done|by rewrite take_app_length' by lia|].
    by rewrite elems_app, Nat2Z.id, take_app_length. }
  destruct L2 as [|u L3]; [cbn in Hb; lia|]. cbn beta iota in Hl.
  apply iov_ok_cons in Hok2 as [Hu Hok2].
  exists (L1 ++ [put_len u t]). split_and!.
  - apply Forall_app. split; [done|]. by apply Forall_singleton.
  - rewrite iov_flat_app, take_app_ge by lia. f_equal.
    rewrite flat_cons. change (flat []) with (@nil Z). rewrite app_nil_r.
    rewrite flat_cons, take_app_le by (pose proof (addrs_length u Hu); lia).
    replace (Z.to_nat bytes - length (flat L1))%nat with (Z.to_nat t) by lia.
    rewrite (addrs_split u t (iov_len u - t)) by lia.
    rewrite take_app_length' by (rewrite length_seqZ; lia). done.
  - assert ((len L1 <? len (L1 ++ u :: L3)) = true) as ->.
    { apply Z.ltb_lt. rewrite length_app, length_cons. lia. }
    cbn [c_assert res_bind]. rewrite app_assoc. rewrite <- Nat2Z.inj_add, <- length_app.
    rewrite aget_app. cbn [res_bind]. replace (t <? iov_len u) with true by lia.
    cbn [c_assert res_bind]. rewrite aset_app. cbn [res_bind].
    rewrite <- app_assoc, elems_app.
    rewrite (app_assoc L1 [_] L3 : L1 ++ put_len u t :: L3 = _).
    rewrite take_app_length' by (rewrite length_app, length_cons, length_nil; lia).
    destruct (do_send_recv fuel w m (L1 ++ [put_len u t]) b) as [[[w1 m1] r]|f]; [|done].
    cbn [res_bind]. rewrite <- app_assoc. cbn [app]. rewrite app_assoc.
    replace (len A + (len L1 + 1 - 1)) with (len (A ++ L1)) by (rewrite length_app; lia).
    rewrite aget_app. cbn [res_bind]. rewrite aset_app. cbn [res_bind].
    unfold put_len. cbn. by destruct u.
Qed.

(** ** The loop *)

(** What a turn leaves: the slice behind the bytes that were transferred. *)
Lemma slice_after R1 V off ret bytes : 0 <= off -> 0 <= ret ->
  slice (off + ret) (bytes - ret) (flat V) =
  drop (Z.to_nat ret) (slice (len (flat R1) + off) bytes (flat (R1 ++ V))).
Proof.
  intros. rewrite iov_flat_app, slice_app_r by lia. unfold slice.
  rewrite skipn_firstn_comm, drop_drop. f_equal; [lia|f_equal; lia].
Qed.

Lemma narrowed_flat v R off : 0 <= off < iov_len v ->
  flat (move_base v off :: R) = drop (Z.to_nat off) (flat (v :: R)).
Proof.
  intros. rewrite !flat_cons. rewrite drop_app_le by (pose proof (addrs_length v); lia).
  f_equal. rewrite (addrs_split v off (iov_len v - off)) by lia.
  by rewrite drop_app_length' by (rewrite length_seqZ; lia).
Qed.

(** The narrowed vector starts with the slice that is left. *)
Lemma narrowed_slice R1 v R2 off bytes :
  let T := slice (len (flat R1) + off) bytes (flat (R1 ++ v :: R2)) in
  iov_ok (v :: R2) -> 0 <= off < iov_len v -> 0 < bytes ->
  len (flat R1) + off + bytes <= Z.of_nat (length (flat R1) + length (flat (v :: R2))) ->
  iov_ok (move_base v off :: R2) /\ 0 < bytes <= len (flat (move_base v off :: R2)) /\
  take (Z.to_nat bytes) (flat (move_base v off :: R2)) = T /\ len T = bytes.
Proof.
  intros T Hok Hoff Hb Hl. apply iov_ok_cons in Hok as [Hv Hok].
  rewrite narrowed_flat by done.
  assert (take (Z.to_nat bytes) (drop (Z.to_nat off) (flat (v :: R2))) = T) as E.
  { unfold T. rewrite iov_flat_app, slice_app_r by lia. unfold slice. do 2 f_equal. lia. }
  split_and!; try done.
  - apply Forall_cons_2; [cbn; lia|done].
  - rewrite length_drop. lia.
  - rewrite <- E, length_take, length_drop. lia.
Qed.

(** How the call ended: the count of all bytes, or -1 for an error. *)
Definition outcome (do_send : bool) (total k bytes ret : Z) : Prop :=
  (ret = total + k /\ (do_send = true -> k = bytes \/ 0 < ret)) \/ (ret = -1 /\ k < bytes).

Lemma send_recv_loop_spec b turns fuel : forall w m P R offset bytes total,
  iov_ok R -> mapped m (flat R) -> (signals w < fuel)%nat -> bytes < Z.of_nat turns ->
  0 <= offset -> 0 <= bytes -> offset + bytes <= len (flat R) < 2 ^ 63 ->
  0 <= total -> total + bytes < 2 ^ 63 ->
  exists w' m' k ret,
    send_recv_loop turns fuel w m (P ++ R) (len P) (len R) offset bytes total b =
      Ok (w', m', P ++ R, ret) /\
    xfer b w m (slice offset bytes (flat R)) k w' m' /\ outcome b total k bytes ret.
Proof.
  induction turns as [|turns IH];
    intros w m P R offset bytes total Hok Hm Hf Ht Ho Hb Hl Htot Hmax; [lia|].
  cbn [send_recv_loop]. destruct (Z.ltb_spec 0 bytes).
  2:{ exists w, m, 0, total. split_and!; [done|apply xfer_none|left; split; lia]. }
  rewrite elems_app, Nat2Z.id, firstn_all.
  destruct (skip_full_spec R 0 offset Hok Ho) as (R1 & V & off & -> & -> & E & Hoff & Hv).
  rewrite Z.add_0_l. apply Forall_app in Hok as [Hok1 HokV].
  rewrite iov_flat_app, length_app in Hl. destruct V as [|v R2]; [cbn in Hl; lia|]. cbn beta iota in Hv.
  assert ((len R1 <? len (R1 ++ v :: R2)) = true) as ->
    by (apply Z.ltb_lt; rewrite length_app, length_cons; lia).
  cbn [c_assert res_bind].
  replace (len (R1 ++ v :: R2) - len R1) with (len (v :: R2)) by (rewrite length_app; lia).
  rewrite <- Nat2Z.inj_add, <- length_app. rewrite (app_assoc P). set (A := P ++ R1) in *.
  rewrite adjust_first_spec by done. cbn [res_bind].
  replace (len (v :: R2)) with (len (move_base v off :: R2)) by done.
  rewrite elems_app, Nat2Z.id, firstn_all.
  set (V := move_base v off :: R2). set (T := slice offset bytes (flat (R1 ++ v :: R2))).
  destruct (narrowed_slice R1 v R2 off bytes) as (HokN & HbV & EV & HlT); try done; try lia.
  rewrite <- E in EV, HlT. fold T in EV, HlT. fold V in HokN, HbV, EV.
  pose proof (send_part_spec b A V bytes fuel w m HokN HbV) as Hs.
  destruct (skip_full V 0 bytes) as [niov tail]. destruct Hs as (L & HokL & EL & ->).
  assert (flat L = T) as ET by congruence.
  assert (mapped m T) as HmT by (by apply mapped_slice).
  destruct (do_send_recv_spec b L fuel w m HokL) as (w1 & m1 & r & -> & Hr);
    [by rewrite ET|done|].
  rewrite ET in Hr. cbn [res_bind]. unfold V. rewrite adjust_first_spec by lia.
  replace (move_base (move_base v off) (- off)) with v
    by (destruct v; unfold move_base; cbn; f_equal; lia).
  cbn [res_bind]. destruct r as [k|e].
  2:{ destruct Hr as [Hx He]. destruct e; [done| |].
      all: eexists w1, m1, 0, _; split_and!; [done|done|].
      - unfold outcome. zcases; [left; split; [lia|by right]|right; lia].
      - right. lia. }
  destruct Hr as [Hx Hp]. pose proof Hx as (Hsig & Hk & _). rewrite HlT in Hk, Hp.
  destruct ((k =? 0) && negb b) eqn:Ez.
  { exists w1, m1, k, total. split_and!; try done.
    left. destruct b; [lia|]. split; [lia|done]. }
  assert (0 < k) as Hk0 by (destruct b; cbn in Ez; [apply Hp; [done|lia]|lia]).
  rewrite !uwrap_small, swrap_small by lia.
  change (len (move_base v off :: R2)) with (len (v :: R2)).
  assert (mapped m1 (flat (v :: R2))) as Hm1.
  { eapply xfer_mapped; [exact Hx|]. rewrite iov_flat_app in Hm. by apply mapped_app in Hm as [_ ?]. }
  destruct (IH w1 m1 A (v :: R2) (off + k) (bytes - k) (total + k)) as
    (w2 & m2 & j & ret & -> & Hx2 & Hout); try done; try lia.
  rewrite (slice_after R1) in Hx2 by lia. rewrite <- E in Hx2. fold T in Hx2.
  exists w2, m2, (k + j), ret. split_and!; [done|by eapply xfer_trans|].
  destruct Hout as [[-> Hd]|[-> Hd]]; [left|right; lia].
  split; [lia|]. intros Hbt. destruct (Hd Hbt); [left|right]; lia.
Qed.

End Transfer.
