(* ===== verification/IovClaims.v ===== *)
(** * Scatter-gather vectors: what they promise

    Copying in and out, slices, clones and transfers, with witnesses. *)

From Stdlib Require Import ZArith Lia.
From stdpp Require Import base numbers gmap sorting list.
From S2P Require Import Prelude Iov IovFacts IovClone IovSend.

Lemma slice_sublist {A} off n (l : list A) : slice off n l `sublist_of` l.
Proof. unfold slice. etrans; [apply sublist_take|apply sublist_drop]. Qed.

Lemma slice_writes_back m off n l bs : NoDup l -> length bs = length (slice off n l) ->
  contents (writes m (slice off n l) bs) (slice off n l) = bs.
Proof.
  intros Hn Hl. apply contents_writes; [|done].
  exact (sublist_NoDup _ _ Hn (slice_sublist _ _ _)).
Qed.

(** C20: Bytes copied into a vector of disjoint elements at an offset inside it
    replace the bytes of the concatenation of its elements from that offset on,
    up to the end of the vector; nothing outside the vector changes; copying the
    same slice out gives the bytes back, behind them the buffer is untouched.
    Both return the number of bytes copied, [min(bytes, size - offset)], and an
    offset beyond the end fails the assertion. *)
Theorem iov_buffer_roundtrip m iov offset buf back bytes :
  let size := len (flat iov) in
  let n := Z.max 0 (Z.min bytes (size - offset)) in
  iov_ok iov -> NoDup (flat iov) -> mapped m (flat iov) -> 0 <= offset -> 0 <= bytes ->
  n <= len buf -> n <= len back ->
  if offset <=? size then
    exists m', iov_from_buf m iov offset buf bytes = Ok (m', n) /\
      contents m' (flat iov) =
        take (Z.to_nat offset) (contents m (flat iov)) ++ take (Z.to_nat n) buf ++
        drop (Z.to_nat offset + Z.to_nat n) (contents m (flat iov)) /\
      (forall a, a ∉ flat iov -> m' !! a = m !! a) /\
      iov_to_buf m' iov offset back bytes =
        Ok (take (Z.to_nat n) buf ++ drop (Z.to_nat n) back, n)
  else iov_from_buf m iov offset buf bytes = Err AssertFailed /\
       iov_to_buf m iov offset back bytes = Err AssertFailed.
Proof.
  intros size n Hok Hn Hm Ho Hb Hl Hl'. set (T := slice offset bytes (flat iov)).
  assert (len T = n) as HT by (unfold T; by rewrite slice_length).
  assert (mapped m T) as HmT by by apply mapped_slice.
  pose proof (iov_from_buf_spec m iov offset bytes Hok Ho Hb HmT buf ltac:(fold T; lia)) as Ef.
  destruct (Z.leb_spec offset size) as [Hin|Hout]; fold T size in Ef.
  - replace (offset <=? size) with true in Ef by lia. rewrite HT in Ef.
    set (m' := writes m T (take (length T) buf)) in Ef.
    pose proof (iov_to_buf_spec m' iov offset bytes Hok Ho Hb
      (mapped_writes _ _ _ _ HmT) back ltac:(fold T; lia)) as Et. fold T size in Et.
    replace (offset <=? size) with true in Et by lia.
    assert (length (take (length T) buf) = length T) as Hbs by (rewrite length_take; lia).
    assert (Z.to_nat n = length T) as -> by lia.
    exists m'. split_and!; [done| | |].
    + pose proof (contents_slice_writes m offset bytes (flat iov) _ Hn Ho Hb Hbs) as E.
      by rewrite Hbs in E.
    + intros a Ha. apply writes_other. intros Hin'. apply Ha.
      exact (elem_of_sublist _ _ _ Hin' (slice_sublist _ _ _)).
    + rewrite Et, HT. do 3 f_equal. exact (slice_writes_back m offset bytes _ _ Hn Hbs).
  - replace (offset <=? size) with false in Ef by lia.
    pose proof (iov_to_buf_spec m iov offset bytes Hok Ho Hb HmT back ltac:(fold T; lia)) as Et.
    fold T size in Et. replace (offset <=? size) with false in Et by lia. done.
Qed.

(** The bytes 1..40 at addresses 100..139. *)
Definition sample_mem : mem := list_to_map (zip (seqZ 100 40) (seqZ 1 40)).
Definition sample_iov : list iovec := [mk_iovec 100 3; mk_iovec 120 0; mk_iovec 110 4].

Local Ltac by_computation := apply (bool_decide_unpack _); vm_compute; exact I.

Lemma iov_buffer_roundtrip_witness :
  exists m', iov_from_buf sample_mem sample_iov 2 [91; 92; 93; 94] 4 = Ok (m', 4) /\
    contents m' (flat sample_iov) = [1; 2; 91; 92; 93; 94; 14] /\
    iov_to_buf m' sample_iov 2 [0; 0; 0; 0; 7] 4 = Ok ([91; 92; 93; 94; 7], 4).
Proof.
  pose proof (iov_buffer_roundtrip sample_mem sample_iov 2 [91; 92; 93; 94] [0; 0; 0; 0; 7] 4) as H.
  cbn zeta in H.
  destruct H as (m' & Ef & Ec & _ & Et); try (unfold mapped, iov_ok; by_computation); try (cbn; lia).
  exists m'. split_and!; [exact Ef| |exact Et]. rewrite Ec. by vm_compute.
Defined.

(** The operations that rearrange vectors without touching data are slices
    of the sequence of addresses.  [iov_copy] gives a prefix of the slice, all
    of it when the destination has elements left; it aborts for an offset beyond
    the end, and also for a positive offset with nothing to copy.  Discarding
    from the front or back drops addresses there and returns how many;
    [qemu_iovec_concat_iov] appends the slice and keeps size and capacity
    right, with the same assertion, but none when nothing is to be copied. *)
Theorem iov_slices_correct iov dst cnt offset bytes :
  iov_ok iov -> qiov_ok dst -> nalloc dst <> -1 -> niov dst + len iov < 2 ^ 30 ->
  0 <= offset -> 0 <= bytes -> 0 <= cnt ->
  let T := slice offset bytes (flat iov) in
  (if (offset =? 0) || ((offset <=? len (flat iov)) && (0 <? bytes) && (0 <? cnt))
   then exists l, iov_copy cnt iov offset bytes = Ok l /\ len l <= cnt /\
        flat l `prefix_of` T /\ (len l < cnt -> flat l = T)
   else iov_copy cnt iov offset bytes = Err AssertFailed) /\
  (let (l, total) := iov_discard_front iov bytes in
   flat l = drop (Z.to_nat bytes) (flat iov) /\ total = Z.min bytes (len (flat iov))) /\
  (let (l, total) := iov_discard_back iov bytes in
   flat l = take (Z.to_nat (len (flat iov) - bytes)) (flat iov) /\
   total = Z.min bytes (len (flat iov))) /\
  (if (bytes =? 0) || (offset <=? len (flat iov))
   then exists q, qemu_iovec_concat_iov dst iov offset bytes = Ok q /\ qiov_ok q /\
        flat (Iov.iov q) = flat (Iov.iov dst) ++ T
   else qemu_iovec_concat_iov dst iov offset bytes = Err AssertFailed).
Proof.
  intros Hok Hq Hn Hc Ho Hb Hcnt T. split_and!.
  - destruct (iov_copy_loop_spec iov cnt offset bytes Hok Ho Hb Hcnt) as (_ & A & B & C & D).
    fold T in B, C. unfold iov_copy. destruct (iov_copy_loop cnt iov offset bytes) as [l o].
    cbn [fst snd] in *.
    destruct ((offset =? 0) || _) eqn:E.
    + assert (o = 0) as -> by (subst o; zcases; lia). exists l. by split_and!.
    + assert ((o =? 0) = false) as -> by (apply Z.eqb_neq; subst o; zcases; lia). done.
  - pose proof (discard_front_spec iov bytes 0 Hok Hb) as H. unfold iov_discard_front.
    destruct (discard_front_loop iov bytes 0). cbn in H. naive_solver.
  - assert (iov_ok (reverse iov)) as Hr by (by apply Forall_reverse).
    pose proof (discard_back_spec (reverse iov) bytes 0 Hr Hb) as H. unfold iov_discard_back.
    destruct (discard_back_loop (reverse iov) bytes 0). cbn [fst snd] in H.
    rewrite reverse_involutive in H. naive_solver.
  - unfold qemu_iovec_concat_iov. destruct (Z.eqb_spec bytes 0) as [->|Hne]; cbn [orb].
    { exists dst. unfold T. rewrite slice_zero, app_nil_r by lia. done. }
    replace (nalloc dst =? -1) with false by lia. cbn [negb c_assert res_bind].
    destruct (concat_loop_spec iov dst offset 0 bytes) as (q & o & -> & Eq & Hq' & _ & ->);
      try done; try lia. cbn [res_bind]. rewrite Z.sub_0_r in Eq. fold T in Eq.
    replace (0 =? bytes) with false by lia.
    destruct (Z.leb_spec offset (len (flat iov))).
    + replace (Z.max 0 _ =? 0) with true by lia. cbn. eauto.
    + by replace (Z.max 0 _ =? 0) with false by lia.
Qed.

Lemma iov_slices_correct_witness :
  exists l q, iov_copy 5 sample_iov 2 4 = Ok l /\ flat l = [102; 110; 111; 112] /\
    qemu_iovec_concat_iov (qemu_iovec_init 0) sample_iov 2 4 = Ok q /\
    flat (Iov.iov q) = [102; 110; 111; 112] /\
    flat (fst (iov_discard_front sample_iov 4)) = [111; 112; 113].
Proof.
  destruct (iov_slices_correct sample_iov (qemu_iovec_init 0) 5 2 4)
    as (Hcopy & Hfront & _ & Hcat);
    [apply (bool_decide_unpack _); vm_compute; exact I| |by vm_compute..|].
  { split_and!; [by apply Forall_nil|done|by right]. }
  cbn in Hcopy, Hcat. destruct Hcopy as (l & El & _ & _ & Hl), Hcat as (q & Eq & _ & Hq).
  exists l, q. split_and!; [exact El|apply Hl| exact Eq|exact Hq|].
  - injection El as <-. cbn. lia.
  - by destruct Hfront as [Hf _].
Defined.

(** C18: A clone has the structure of its source - the same lengths in the same
    order - and its addresses are the source's under one increasing function
    into a buffer as long as the source: bytes that elements share stay shared,
    bytes that differ stay apart and in order.  This holds for any [qsort].
    Comparing the two afterwards returns -1 exactly when each byte of the clone
    is the byte that it stands for. *)
Theorem iov_clone_preserves_overlap qsort src hint buf :
  qsort_ok qsort -> iov_ok (Iov.iov src) -> Forall (fun x => 0 <= iov_base x) (Iov.iov src) ->
  0 <= hint < 2 ^ 31 -> niov src < 2 ^ 30 ->
  exists dest f, qemu_iovec_clone qsort (qemu_iovec_init hint) src buf = Ok dest /\
    qiov_ok dest /\ iov_len <$> Iov.iov dest = iov_len <$> Iov.iov src /\
    flat (Iov.iov dest) = f <$> flat (Iov.iov src) /\
    (forall a b, a ∈ flat (Iov.iov src) -> b ∈ flat (Iov.iov src) -> a < b -> f a < f b) /\
    (forall a, a ∈ flat (Iov.iov src) -> buf <= f a < buf + len (flat (Iov.iov src))) /\
    forall m, mapped m (flat (Iov.iov src)) -> mapped m (flat (Iov.iov dest)) ->
      exists r, qemu_iovec_compare m src dest = Ok r /\
        (r = -1 <-> Forall (fun a => m !! f a = m !! a) (flat (Iov.iov src))).
Proof.
  intros Hs Hok Hb Hh Hc.
  destruct (clone_spec qsort Hs (qemu_iovec_init hint) src buf)
    as (d & c & f & E & Ei & Hd & El & Ef & Hm & Hr); try done; cbn [qemu_iovec_init nalloc]; try lia.
  { split_and!; [by apply Forall_nil|done|right].
    unfold niov. cbn [qemu_iovec_init iov nalloc length]. lia. }
  cbn [qemu_iovec_init iov app] in Ei. subst c. exists d, f. split_and!; try done.
  intros m H1 H2. eexists. unfold qemu_iovec_compare, niov.
  assert (length (Iov.iov src) = length (Iov.iov d)) as Hlen
    by (rewrite <- (length_fmap iov_len (Iov.iov d)), El; by rewrite length_fmap).
  rewrite Hlen, Z.eqb_refl. cbn [c_assert res_bind].
  rewrite compare_loop_spec by done. split; [done|].
  destruct (first_mismatch_spec (contents m (flat (Iov.iov src))) (contents m (flat (Iov.iov d))) 0)
    as [-> _]; [rewrite !iov_contents_length, Ef; by rewrite length_fmap|lia|].
  rewrite Ef in *. unfold contents. clear -H1 H2.
  induction (flat (Iov.iov src)) as [|a l IH]; [done|].
  apply Forall_cons in H1 as [[x Hx] H1], H2 as [[y Hy] H2].
  rewrite !fmap_cons, Forall_cons, Hx, Hy, <- (IH H1 H2). cbn [default from_option].
  split; [by intros [= -> ->]|by intros [[= ->] ->]].
Qed.

(** The merge sort of a comparison function is such a [qsort]. *)
Definition sample_qsort {A} (cmp : A -> A -> Z) : list A -> list A :=
  merge_sort (H := fun x y => Z_le_dec (cmp x y) 0) (fun x y => cmp x y <= 0).

Lemma sample_qsort_ok {A} : qsort_ok (@sample_qsort A).
Proof.
  intros cmp l [Ht _]. split; [apply merge_sort_Permutation|].
  apply Sorted_merge_sort. exact Ht.
Qed.

Definition overlapping : QEMUIOVector :=
  qemu_iovec_init_external [mk_iovec 110 6; mk_iovec 104 4; mk_iovec 113 8; mk_iovec 113 1].

Lemma iov_clone_preserves_overlap_witness :
  exists dest, qemu_iovec_clone sample_qsort (qemu_iovec_init 0) overlapping 500 = Ok dest /\
    qiov_ok dest /\
    Iov.iov dest = [mk_iovec 504 6; mk_iovec 500 4; mk_iovec 507 8; mk_iovec 507 1].
Proof.
  destruct (iov_clone_preserves_overlap sample_qsort overlapping 0 500) as (d & f & E & Hd & _);
    [apply sample_qsort_ok|unfold iov_ok; by_computation|by_computation|lia|by vm_compute|].
  exists d. split_and!; [exact E|exact Hd|]. vm_compute in E. by injection E as <-.
Defined.

(** C19: [iov_send_recv] transfers a slice that lies in the vector over any
    socket that behaves as [sendmsg] and [recvmsg] are documented to.  It
    returns after at most one turn per byte, no assertion fails, and the array
    of elements, which it narrows for the system calls, is as before.  What it
    transferred is a prefix of the slice, in order and nothing else: the bytes
    at its addresses were sent, or the bytes received are stored there.  It
    returns the length of that prefix, all of it for a send that was not cut
    short, or -1 after an error - then also when bytes were transferred before
    it. *)
Theorem iov_send_recv_correct (W : Type) (S : Socket W) (L : SocketLaws W)
    (w : W) m v offset bytes do_send :
  iov_ok v -> mapped m (flat v) -> 0 <= offset -> 0 <= bytes ->
  offset + bytes <= len (flat v) < 2 ^ 63 ->
  exists w' m' k ret,
    iov_send_recv (Z.to_nat bytes + 1) (signals w + 1) w m v offset bytes do_send =
      Ok (w', m', v, ret) /\ 0 <= k <= bytes /\
    ((ret = k /\ (do_send = true -> k = bytes \/ 0 < k)) \/ (ret = -1 /\ k < bytes)) /\
    if do_send
    then m' = m /\ sent w' = sent w ++ contents m (slice offset k (flat v))
    else m' = writes m (slice offset k (flat v)) (take (Z.to_nat k) (incoming w)) /\
         k <= len (incoming w) /\ incoming w' = drop (Z.to_nat k) (incoming w) /\
         (NoDup (flat v) -> contents m' (slice offset k (flat v)) = take (Z.to_nat k) (incoming w)).
Proof.
  intros Hok Hm Ho Hb Hl.
  destruct (send_recv_loop_spec do_send (Z.to_nat bytes + 1) (signals w + 1) w m [] v offset bytes 0)
    as (w' & m' & k & ret & E & (_ & Hk & Hx) & Hout); try done; try lia.
  assert (len (slice offset bytes (flat v)) = bytes) as HT by (rewrite slice_length; lia).
  rewrite HT in Hk.
  assert (take (Z.to_nat k) (slice offset bytes (flat v)) = slice offset k (flat v)) as Ek.
  { unfold slice. rewrite take_take. f_equal. lia. }
  exists w', m', k, ret. split_and!; [exact E|lia|lia| |].
  - destruct Hout as [[-> Hd]|[-> Hd]]; [left|right; lia]. split; [lia|]. intros Hs.
    destruct (Hd Hs); [left|right]; lia.
  - destruct do_send.
    + destruct Hx as (-> & _ & Hx). split; [done|]. rewrite Hx. f_equal.
      rewrite <- Ek. unfold contents. by rewrite fmap_take.
    + destruct Hx as (_ & Hlen & -> & Hi). rewrite Ek. split_and!; try done. intros Hn.
      apply slice_writes_back; [done|]. rewrite length_take.
      enough (len (slice offset k (flat v)) = k) by lia. rewrite slice_length; lia.
Qed.

(** A socket that takes and gives at most three bytes at a time, and is
    interrupted first. *)
Record narrow_socket : Type := mk_narrow { out : list Z; inp : list Z; sig : nat }.

#[local] Instance narrow_ops : Socket narrow_socket := {|
  sendmsg w m v :=
    match sig w with
    | S n => (mk_narrow (out w) (inp w) n, Fail EINTR)
    | O => let k := Z.min 3 (len (flat v)) in
           (mk_narrow (out w ++ take (Z.to_nat k) (contents m (flat v))) (inp w) 0, Sys k)
    end;
  recvmsg w m v :=
    match sig w with
    | S n => (mk_narrow (out w) (inp w) n, m, Fail EINTR)
    | O => let k := Z.min 3 (Z.min (len (flat v)) (len (inp w))) in
           (mk_narrow (out w) (drop (Z.to_nat k) (inp w)) 0,
            writes m (take (Z.to_nat k) (flat v)) (take (Z.to_nat k) (inp w)), Sys k)
    end |}.

#[local] Instance narrow_laws : SocketLaws narrow_socket.
Proof.
  refine {| sent := out; incoming := inp; signals := sig |};
    intros [o i [|n]] m v _ _; cbn [sendmsg recvmsg narrow_ops sig out inp];
    cbn zeta; split_and!; try done; lia.
Defined.

Lemma iov_send_recv_correct_witness :
  exists w' k ret,
    iov_send_recv 6 2 (mk_narrow [9] [] 1) sample_mem sample_iov 1 5 true =
      Ok (w', sample_mem, sample_iov, ret) /\
    out w' = 9 :: contents sample_mem (slice 1 k (flat sample_iov)) /\ 0 < ret.
Proof.
  destruct (iov_send_recv_correct narrow_socket _ _ (mk_narrow [9] [] 1) sample_mem sample_iov 1 5 true)
    as (w' & m' & k & ret & E & Hk & Hr & -> & Hs);
    try (unfold mapped, iov_ok; by_computation).
  exists w', k, ret. split_and!; [exact E|exact Hs|].
  vm_compute in E. by injection E as _ <-.
Defined.
