(* ===== verification/Ptimer.v ===== *)
(** * Countdown timers ([hw/core/ptimer.c])

    A countdown timer counts [delta] periods of [period] plus
    [period_frac / 2^32] nanoseconds down, then schedules a bottom half and, if
    it is periodic, starts over from [limit].  The count is not stored while the
    timer runs: it is computed from the time that is left.

    [timer] is the expiry that the QEMU timer was last armed for, [None] when it
    is not pending; [scheduled] says whether the bottom half is scheduled, and
    [bh] whether there is one.  [now] is the virtual clock.  The theorems are
    about 64.32 fixed-point periods: the count against exact division, the times
    of the ticks, and the limit on the rate. *)

From Stdlib Require Import ZArith Lia.
From stdpp Require Import base numbers list.
From S2P Require Import Prelude HostUtils.

Module Ptimer.

Record ptimer_state : Type := mk_ptimer {
  enabled : Z;
  limit : Z;
  delta : Z;
  period_frac : Z;
  period : Z;
  last_event : Z;
  next_event : Z;
  bh : bool;
  scheduled : bool;
  timer : option Z
}.

Definition put_enabled (s : ptimer_state) (v : Z) : ptimer_state :=
  mk_ptimer v (limit s) (delta s) (period_frac s) (period s) (last_event s) (next_event s)
    (bh s) (scheduled s) (timer s).
Definition put_limit (s : ptimer_state) (v : Z) : ptimer_state :=
  mk_ptimer (enabled s) v (delta s) (period_frac s) (period s) (last_event s) (next_event s)
    (bh s) (scheduled s) (timer s).
Definition put_delta (s : ptimer_state) (v : Z) : ptimer_state :=
  mk_ptimer (enabled s) (limit s) v (period_frac s) (period s) (last_event s) (next_event s)
    (bh s) (scheduled s) (timer s).
Definition put_period (s : ptimer_state) (p frac : Z) : ptimer_state :=
  mk_ptimer (enabled s) (limit s) (delta s) frac p (last_event s) (next_event s)
    (bh s) (scheduled s) (timer s).
Definition put_events (s : ptimer_state) (l n : Z) : ptimer_state :=
  mk_ptimer (enabled s) (limit s) (delta s) (period_frac s) (period s) l n
    (bh s) (scheduled s) (timer s).
Definition put_scheduled (s : ptimer_state) (v : bool) : ptimer_state :=
  mk_ptimer (enabled s) (limit s) (delta s) (period_frac s) (period s) (last_event s)
    (next_event s) (bh s) v (timer s).
Definition put_timer (s : ptimer_state) (v : option Z) : ptimer_state :=
  mk_ptimer (enabled s) (limit s) (delta s) (period_frac s) (period s) (last_event s)
    (next_event s) (bh s) (scheduled s) v.

Definition ptimer_trigger (s : ptimer_state) : ptimer_state :=
  if bh s then put_scheduled s true else s.

(** [timer_mod] of a timer in nanoseconds: a negative expiry becomes zero. *)
Definition arm (s : ptimer_state) (expire : Z) : ptimer_state := put_timer s (Some (Z.max expire 0)).

Definition ptimer_reload (s : ptimer_state) : ptimer_state :=
  let s := if delta s =? 0 then put_delta (ptimer_trigger s) (limit s) else s in
  if (delta s =? 0) || (period s =? 0) then put_enabled s 0
  else
    let s := put_events s (next_event s)
               (s64 (u64 (next_event s + u64 (delta s * u64 (period s))))) in
    let s := if negb (period_frac s =? 0)
             then put_events s (last_event s)
                    (s64 (u64 (next_event s + Z.shiftr (u64 (period_frac s * delta s)) 32)))
             else s in
    arm s (next_event s).

Definition ptimer_tick (s : ptimer_state) : ptimer_state :=
  let s := put_delta (ptimer_trigger s) 0 in
  if enabled s =? 2 then put_enabled s 0 else ptimer_reload s.

(** The scaled division of the time that is left by the period. *)
Definition scaled_count (rem div period_frac : Z) : res Z :=
  let clz1 := clz64 rem in
  let clz2 := clz64 div in
  let shift := if clz1 <? clz2 then clz1 else clz2 in
  let* _ := c_shift 64 shift in
  let rem := u64 (Z.shiftl rem shift) in
  let div := u64 (Z.shiftl div shift) in
  let div :=
    if 32 <=? shift then Z.lor div (u64 (Z.shiftl period_frac (shift - 32)))
    else
      let div := if negb (shift =? 0) then Z.lor div (Z.shiftr period_frac (32 - shift)) else div in
      if negb (u32 (Z.shiftl period_frac shift) =? 0) then u64 (div + 1) else div in
  c_div rem div.

Definition ptimer_get_count (now : Z) (s : ptimer_state) : res Z :=
  if negb (enabled s =? 0) then
    if (0 <? s64 (now - next_event s)) || (period s =? 0) then Ok 0
    else scaled_count (u64 (next_event s - now)) (u64 (period s)) (period_frac s)
  else Ok (delta s).

Definition restart (now : Z) (s : ptimer_state) : ptimer_state :=
  ptimer_reload (put_events s (last_event s) now).

Definition ptimer_set_count (now count : Z) (s : ptimer_state) : ptimer_state :=
  let s := put_delta s count in
  if negb (enabled s =? 0) then restart now s else s.

Definition ptimer_run (now : Z) (oneshot : bool) (s : ptimer_state) : ptimer_state :=
  if negb (enabled s =? 0) then s
  else if period s =? 0 then s
  else restart now (put_enabled s (if oneshot then 2 else 1)).

Definition ptimer_stop (now : Z) (s : ptimer_state) : res ptimer_state :=
  if enabled s =? 0 then Ok s
  else
    let* count := ptimer_get_count now s in
    Ok (put_enabled (put_timer (put_delta s count) None) 0).

Definition ptimer_set_period (now p : Z) (s : ptimer_state) : ptimer_state :=
  let s := put_period s p 0 in
  if negb (enabled s =? 0) then restart now s else s.

Definition ptimer_set_freq (now freq : Z) (s : ptimer_state) : res ptimer_state :=
  let* p := c_div 1000000000 freq in
  let* frac := c_div (Z.shiftl 1000000000 32) freq in
  let s := put_period s p (u32 frac) in
  Ok (if negb (enabled s =? 0) then restart now s else s).

Definition ptimer_set_limit (now lim : Z) (reload : bool) (s : ptimer_state) : ptimer_state :=
  let lim := if (u64 (lim * u64 (period s)) <? 10000) && negb (period s =? 0)
             then u64 (10000 ÷ period s) else lim in
  let s := put_limit s lim in
  let s := if reload then put_delta s lim else s in
  if negb (enabled s =? 0) && reload then restart now s else s.

Definition ptimer_init (has_bh : bool) : ptimer_state :=
  mk_ptimer 0 0 0 0 0 0 0 has_bh false None.

(** ** The count *)

(** The period in units of [2^-32] nanoseconds. *)
Definition fixed (p frac : Z) : Z := p * 2 ^ 32 + frac.

(** How many whole periods fit into [rem] nanoseconds. *)
Definition exact_count (rem p frac : Z) : Z := rem * 2 ^ 32 / fixed p frac.

Lemma clz_scaled x : 0 < x < 2 ^ 64 ->
  0 <= clz64 x < 64 /\ 2 ^ 63 <= x * 2 ^ clz64 x < 2 ^ 64.
Proof.
  intros Hx. unfold clz64. destruct (Z.eqb_spec x 0); [lia|]. unfold builtin_clz.
  pose proof (Z.log2_spec x ltac:(lia)) as [H1 H2].
  pose proof (Z.log2_nonneg x). assert (Z.log2 x < 64) by (apply Z.log2_lt_pow2; lia).
  split; [lia|].
  assert (2 ^ 64 = 2 ^ (Z.succ (Z.log2 x)) * 2 ^ (64 - 1 - Z.log2 x)) as E1
    by (rewrite <- Z.pow_add_r by lia; f_equal; lia).
  assert (2 ^ 63 = 2 ^ (Z.log2 x) * 2 ^ (64 - 1 - Z.log2 x)) as E2
    by (rewrite <- Z.pow_add_r by lia; f_equal; lia).
  assert (0 < 2 ^ (64 - 1 - Z.log2 x)) by lia. nia.
Qed.

(** The shift that both operands allow, and one of them needs. *)
Lemma shift_spec rem p : 0 <= rem < 2 ^ 64 -> 0 < p < 2 ^ 64 ->
  let s := if clz64 rem <? clz64 p then clz64 rem else clz64 p in
  0 <= s < 64 /\ 0 <= rem * 2 ^ s < 2 ^ 64 /\ 0 < p * 2 ^ s < 2 ^ 64 /\
  (rem = 0 \/ 2 ^ 63 <= rem * 2 ^ s \/ 2 ^ 63 <= p * 2 ^ s).
Proof.
  intros Hr Hp. destruct (clz_scaled p Hp) as [C2 B2].
  destruct (Z.eq_dec rem 0) as [->|Hne].
  { change (clz64 0) with 64. destruct (Z.ltb_spec 64 (clz64 p)); [lia|]. cbn zeta.
    assert (0 < 2 ^ clz64 p) by lia. split_and!; lia. }
  destruct (clz_scaled rem ltac:(lia)) as [C1 B1].
  destruct (Z.ltb_spec (clz64 rem) (clz64 p)); cbn zeta.
  - assert (2 ^ clz64 p = 2 ^ clz64 rem * 2 ^ (clz64 p - clz64 rem)) as E
      by (rewrite <- Z.pow_add_r by lia; f_equal; lia).
    assert (1 <= 2 ^ (clz64 p - clz64 rem)) by lia. assert (0 < 2 ^ clz64 rem) by lia.
    split_and!; try lia; nia.
  - assert (2 ^ clz64 rem = 2 ^ clz64 p * 2 ^ (clz64 rem - clz64 p)) as E
      by (rewrite <- Z.pow_add_r by lia; f_equal; lia).
    assert (1 <= 2 ^ (clz64 rem - clz64 p)) by lia. assert (0 < 2 ^ clz64 p) by lia.
    split_and!; try lia; nia.
Qed.

(** The divisor: exact for a shift of 32 and more, else rounded up to whole
    units of [2^(32 - s)]. *)
Definition divisor (s p frac : Z) : Z :=
  if 32 <=? s then fixed p frac * 2 ^ (s - 32)
  else p * 2 ^ s + frac / 2 ^ (32 - s) + b2z (negb (frac mod 2 ^ (32 - s) =? 0)).

Lemma scaled_count_eq rem p frac :
  0 <= rem < 2 ^ 64 -> 0 < p < 2 ^ 64 -> 0 <= frac < 2 ^ 32 -> (frac = 0 \/ p < 2 ^ 31) ->
  let s := if clz64 rem <? clz64 p then clz64 rem else clz64 p in
  0 < divisor s p frac /\ scaled_count rem p frac = Ok (rem * 2 ^ s / divisor s p frac).
Proof.
  intros Hr Hp Hf Hs. destruct (shift_spec rem p Hr Hp) as (Hs0 & B1 & B2 & _).
  unfold scaled_count. set (s := if _ <? _ then _ else _) in *. cbn zeta.
  rewrite c_shift_ok by done. cbn [res_bind].
  rewrite (uwrap_small 64 (Z.shiftl rem s)) by (rewrite Z.shiftl_mul_pow2; lia).
  rewrite (uwrap_small 64 (Z.shiftl p s)) by (rewrite Z.shiftl_mul_pow2; lia).
  unfold divisor. destruct (Z.leb_spec 32 s).
  - assert (2 ^ s = 2 ^ 32 * 2 ^ (s - 32)) as E
      by (rewrite <- Z.pow_add_r by lia; f_equal; lia).
    assert (0 < 2 ^ (s - 32)) by lia.
    assert (frac * 2 ^ (s - 32) < 2 ^ s) by nia.
    assert (2 ^ s < 2 ^ 64) by (apply Z.pow_lt_mono_r; lia).
    rewrite (uwrap_small 64 (Z.shiftl frac _)) by (rewrite Z.shiftl_mul_pow2; lia).
    rewrite (Z.shiftl_mul_pow2 frac) by lia. rewrite lor_concat by lia.
    assert (p * 2 ^ s + frac * 2 ^ (s - 32) = fixed p frac * 2 ^ (s - 32)) as ->
      by (unfold fixed; rewrite E; lia).
    rewrite Z.shiftl_mul_pow2 by lia. unfold c_div.
    assert (0 < fixed p frac * 2 ^ (s - 32)) by (unfold fixed; nia).
    split; [done|]. zcases; [lia|done].
  - assert (2 ^ 32 = 2 ^ (32 - s) * 2 ^ s) as E
      by (rewrite <- Z.pow_add_r by lia; f_equal; lia).
    assert (0 < 2 ^ s) by lia. assert (0 < 2 ^ (32 - s)) by lia.
    assert (0 <= frac / 2 ^ (32 - s) < 2 ^ s) as Hq by (split; [apply Z.div_pos; lia|apply Z.div_lt_upper_bound; lia]).
    assert ((if negb (s =? 0) then Z.lor (Z.shiftl p s) (Z.shiftr frac (32 - s)) else Z.shiftl p s)
            = p * 2 ^ s + frac / 2 ^ (32 - s)) as ->.
    { rewrite Z.shiftr_div_pow2 by lia. destruct (Z.eqb_spec s 0) as [->|]; cbn [negb].
      - rewrite Z.shiftl_mul_pow2 by lia. cbn in Hq |- *. lia.
      - by rewrite lor_concat by lia. }
    rewrite (Z.shiftl_mul_pow2 frac) by lia. unfold uwrap at 1. rewrite E at 1.
    rewrite Z.mul_mod_distr_r by lia.
    replace (frac mod 2 ^ (32 - s) * 2 ^ s =? 0) with (frac mod 2 ^ (32 - s) =? 0)
      by (zcases; nia).
    rewrite Z.shiftl_mul_pow2 by lia.
    assert (p * 2 ^ s + frac / 2 ^ (32 - s) + b2z (negb (frac mod 2 ^ (32 - s) =? 0)) < 2 ^ 64) as Hd.
    { destruct Hs as [->|Hs]; [rewrite Z.div_0_l, Z.mod_0_l by lia; cbn; lia|].
      assert (2 ^ s < 2 ^ 32) by (apply Z.pow_lt_mono_r; lia).
      destruct (negb _); cbn [b2z]; nia. }
    destruct (negb (frac mod _ =? 0)); cbn [b2z] in *; rewrite ?uwrap_small by lia; unfold c_div.
    all: (split; [nia|]; zcases; [nia|f_equal; f_equal; lia]).
Qed.

(** Rounding the divisor up by [K] units makes the quotient at most two too
    small for 32-bit counts, one for 31-bit counts. *)
Lemma rounded_quotient A D K div :
  0 <= A -> 0 < D -> 0 < K -> 0 < div -> (div - 1) * K < D <= div * K ->
  (A = 0 \/ 2 ^ 63 <= A \/ 2 ^ 63 * K <= D) ->
  let e := A * K / D in let c := A / div in
  c <= e /\ (e < 2 ^ 32 -> e <= c + 2) /\ (e < 2 ^ 31 -> e <= c + 1).
Proof.
  intros HA HD HK Hd [Hlo Hhi] Hn e c.
  assert (c * div <= A < (c + 1) * div) as [Hc1 Hc2] by (unfold c; dlia).
  assert (e * D <= A * K < (e + 1) * D) as [He1 He2] by (unfold e; dlia).
  assert (0 <= c) by (apply Z.div_pos; lia).
  assert (c * D <= A * K) as H1.
  { transitivity (c * (div * K)); [apply Z.mul_le_mono_nonneg_l; lia|].
    rewrite Z.mul_assoc. apply Z.mul_le_mono_nonneg_r; lia. }
  assert (A * K < (c + 1) * (D + K)) as H2.
  { apply Z.lt_le_trans with ((c + 1) * div * K); [apply Z.mul_lt_mono_pos_r; lia|].
    rewrite <- Z.mul_assoc. apply Z.mul_le_mono_nonneg_l; lia. }
  split; [unfold e; apply Z.div_le_lower_bound; lia|].
  assert (forall k, (c + 1) * K <= k * D -> e <= c + k) as Hfin.
  { intros k Hb. apply Z.lt_succ_r. unfold e. apply Z.div_lt_upper_bound; [done|]. lia. }
  destruct Hn as [->|Hn].
  { subst e c. rewrite Z.mul_0_l, !Z.div_0_l by lia. lia. }
  assert (forall b, 0 <= b <= 32 -> c < 2 ^ b -> 2 ^ (63 - b) * K <= D) as Hbig.
  { intros b Hb Hc. assert (1 <= 2 ^ b) by lia.
    assert (2 ^ 63 = 2 ^ (63 - b) * 2 ^ b) as E by (rewrite <- Z.pow_add_r by lia; f_equal; lia).
    destruct Hn as [Hn|Hn].
    - assert (2 ^ (63 - b) <= div - 1) as Hdiv.
      { apply Z.lt_le_pred. apply (Z.mul_lt_mono_pos_r (2 ^ b)); [lia|].
        apply Z.le_lt_trans with A; [lia|]. apply Z.lt_le_trans with ((c + 1) * div); [done|].
        rewrite Z.mul_comm. apply Z.mul_le_mono_nonneg_l; lia. }
      apply Z.le_trans with ((div - 1) * K); [apply Z.mul_le_mono_nonneg_r|]; lia.
    - apply Z.le_trans with (2 ^ 63 * K); [apply Z.mul_le_mono_nonneg_r|]; lia || nia. }
  assert (c <= e) by (unfold e; apply Z.div_le_lower_bound; lia).
  split; intros He; apply Hfin.
  - specialize (Hbig 32 ltac:(lia) ltac:(lia)). cbn in Hbig.
    apply Z.le_trans with (2 ^ 32 * K); [apply Z.mul_le_mono_nonneg_r|]; lia.
  - specialize (Hbig 31 ltac:(lia) ltac:(lia)). cbn in Hbig.
    apply Z.le_trans with (2 ^ 31 * K); [apply Z.mul_le_mono_nonneg_r|]; lia.
Qed.

Lemma scaled_count_bounds rem p frac :
  0 <= rem < 2 ^ 64 -> 0 < p < 2 ^ 64 -> 0 <= frac < 2 ^ 32 -> (frac = 0 \/ p < 2 ^ 31) ->
  let e := exact_count rem p frac in
  exists c, scaled_count rem p frac = Ok c /\ 0 <= c <= e /\
    (rem < 2 ^ 32 /\ p < 2 ^ 32 -> c = e) /\
    (e < 2 ^ 32 -> e <= c + 2) /\ (e < 2 ^ 31 -> e <= c + 1).
Proof.
  intros Hr Hp Hf Hs e. destruct (shift_spec rem p Hr Hp) as (Hs0 & B1 & B2 & Hn).
  destruct (scaled_count_eq rem p frac Hr Hp Hf Hs) as [Hdiv ->].
  assert (rem < 2 ^ 32 /\ p < 2 ^ 32 ->
          32 <= if clz64 rem <? clz64 p then clz64 rem else clz64 p) as Hsmall.
  { intros [H1 H2]. assert (forall x, 0 <= x < 2 ^ 32 -> 32 <= clz64 x) as Hc.
    { intros x Hx. unfold clz64, builtin_clz. destruct (Z.eqb_spec x 0); [lia|].
      assert (Z.log2 x < 32) by (apply Z.log2_lt_pow2; lia). lia. }
    pose proof (Hc rem ltac:(lia)). pose proof (Hc p ltac:(lia)). zcases; lia. }
  set (s := if _ <? _ then _ else _) in *. cbn zeta in *.
  eexists. split; [done|]. assert (0 < fixed p frac) as HD by (unfold fixed; lia).
  unfold divisor in *. destruct (Z.leb_spec 32 s).
  - assert (2 ^ s = 2 ^ 32 * 2 ^ (s - 32)) as E
      by (rewrite <- Z.pow_add_r by lia; f_equal; lia).
    assert (rem * 2 ^ s / (fixed p frac * 2 ^ (s - 32)) = e) as ->.
    { rewrite E, Z.mul_assoc. apply Z.div_mul_cancel_r; lia. }
    assert (0 <= e) by (apply Z.div_pos; lia). lia.
  - set (K := 2 ^ (32 - s)) in *. assert (0 < K) by (unfold K; lia).
    assert (2 ^ 32 = 2 ^ s * K) as E
      by (unfold K; rewrite <- Z.pow_add_r by lia; f_equal; lia).
    set (div := p * 2 ^ s + frac / K + b2z (negb (frac mod K =? 0))) in *.
    assert ((div - 1) * K < fixed p frac <= div * K) as Hb.
    { unfold div, fixed. rewrite E. pose proof (Z.div_mod frac K ltac:(lia)).
      pose proof (Z.mod_pos_bound frac K ltac:(lia)).
      destruct (Z.eqb_spec (frac mod K) 0); cbn [negb b2z]; nia. }
    destruct (rounded_quotient (rem * 2 ^ s) (fixed p frac) K div) as (H1 & H2 & H3);
      try done; try lia.
    { destruct Hn as [->|[Hn|Hn]]; [left; lia|right; left; lia|right; right].
      unfold fixed. rewrite E. nia. }
    assert (rem * 2 ^ s * K / fixed p frac = e) as Ee
      by (unfold e, exact_count; rewrite E; f_equal; lia).
    rewrite Ee in *. split_and!; try done; [apply Z.div_pos; lia|lia].
Qed.

(** ** Invariant *)

(** The values fit their types; a period with a fraction comes from a
    frequency, hence is at most a second. *)
Record ptimer_ok (s : ptimer_state) : Prop := {
  ok_enabled : 0 <= enabled s <= 2;
  ok_limit : 0 <= limit s < 2 ^ 64;
  ok_delta : 0 <= delta s < 2 ^ 64;
  ok_frac : 0 <= period_frac s < 2 ^ 32;
  ok_period : 0 <= period s < 2 ^ 63;
  ok_pair : period_frac s = 0 \/ period s <= 1000000000;
  ok_next : - 2 ^ 63 <= next_event s < 2 ^ 63;
  ok_last : - 2 ^ 63 <= last_event s < 2 ^ 63
}.

Lemma trigger_ok s : ptimer_ok s -> ptimer_ok (ptimer_trigger s).
Proof. intros []. unfold ptimer_trigger. destruct (bh s); [split; cbn|]; done. Qed.

Local Ltac fields := split; cbn; try done; try lia.

Lemma put_delta_ok s v : ptimer_ok s -> 0 <= v < 2 ^ 64 -> ptimer_ok (put_delta s v).
Proof. intros []. fields. Qed.

Lemma put_enabled_ok s v : ptimer_ok s -> 0 <= v <= 2 -> ptimer_ok (put_enabled s v).
Proof. intros []. fields. Qed.

Lemma put_events_ok s l n : ptimer_ok s -> - 2 ^ 63 <= l < 2 ^ 63 -> - 2 ^ 63 <= n < 2 ^ 63 ->
  ptimer_ok (put_events s l n).
Proof. intros []. fields. Qed.

Lemma put_timer_ok s v : ptimer_ok s -> ptimer_ok (put_timer s v).
Proof. intros []. fields. Qed.

Lemma put_limit_ok s v : ptimer_ok s -> 0 <= v < 2 ^ 64 -> ptimer_ok (put_limit s v).
Proof. intros []. fields. Qed.

Lemma put_period_ok s p f : ptimer_ok s -> 0 <= p < 2 ^ 63 -> 0 <= f < 2 ^ 32 ->
  (f = 0 \/ p <= 1000000000) -> ptimer_ok (put_period s p f).
Proof. intros []. fields. Qed.

Lemma s64_ok z : - 2 ^ 63 <= s64 z < 2 ^ 63.
Proof. apply (swrap_range 64). lia. Qed.

Create HintDb ptimer.
#[local] Hint Resolve trigger_ok put_delta_ok put_enabled_ok put_events_ok put_timer_ok
  put_limit_ok put_period_ok s64_ok ok_limit ok_next ok_last : ptimer.

Lemma ptimer_reload_ok s : ptimer_ok s -> ptimer_ok (ptimer_reload s).
Proof.
  intros Hs. unfold ptimer_reload.
  assert (ptimer_ok (if delta s =? 0 then put_delta (ptimer_trigger s) (limit s) else s)) as H
    by (destruct (delta s =? 0); auto with ptimer).
  cbn zeta. set (s1 := if delta s =? 0 then _ else s) in *. clearbody s1.
  destruct (_ || _); [apply put_enabled_ok; [done|lia]|].
  unfold arm. destruct (negb (period_frac _ =? 0)); auto 6 with ptimer.
Qed.

Lemma ptimer_restart_ok now s : ptimer_ok s -> - 2 ^ 63 <= now < 2 ^ 63 -> ptimer_ok (restart now s).
Proof. intros. apply ptimer_reload_ok. auto with ptimer. Qed.

Lemma get_count_ok now s : ptimer_ok s -> exists c, ptimer_get_count now s = Ok c /\ 0 <= c < 2 ^ 64.
Proof.
  intros Hs. destruct Hs. unfold ptimer_get_count.
  destruct (Z.eqb_spec (enabled s) 0); cbn [negb]; [by exists (delta s)|].
  destruct (_ || _) eqn:E; [exists 0; split; [done|lia]|].
  rewrite (uwrap_small 64 (period s)) by lia.
  pose proof (uwrap_range 64 (next_event s - now) ltac:(lia)) as Hr.
  destruct (scaled_count_bounds (u64 (next_event s - now)) (period s) (period_frac s))
    as (c & -> & Hc & _); try done; try lia.
  exists c. split; [done|]. split; [lia|].
  enough (exact_count (u64 (next_event s - now)) (period s) (period_frac s) < 2 ^ 64) by lia.
  apply Z.div_lt_upper_bound; unfold fixed; nia.
Qed.

(** Every operation keeps the invariant; only a frequency of zero faults. *)
Lemma operations_ok now s count p freq (oneshot reload : bool) :
  ptimer_ok s -> - 2 ^ 63 <= now < 2 ^ 63 -> 0 <= count < 2 ^ 64 -> 0 <= p < 2 ^ 63 ->
  0 < freq < 2 ^ 32 ->
  ptimer_ok (ptimer_tick s) /\ ptimer_ok (ptimer_set_count now count s) /\
  ptimer_ok (ptimer_run now oneshot s) /\ ptimer_ok (ptimer_set_period now p s) /\
  ptimer_ok (ptimer_set_limit now count reload s) /\
  (exists s', ptimer_stop now s = Ok s' /\ ptimer_ok s') /\
  (exists s', ptimer_set_freq now freq s = Ok s' /\ ptimer_ok s').
Proof.
  intros Hs Hn Hc Hp Hf. split_and!.
  - unfold ptimer_tick. assert (ptimer_ok (put_delta (ptimer_trigger s) 0)) by auto with ptimer lia.
    destruct (enabled _ =? 2); [apply put_enabled_ok; [done|lia]|by apply ptimer_reload_ok].
  - unfold ptimer_set_count. destruct (negb _); auto using ptimer_restart_ok with ptimer.
  - unfold ptimer_run. destruct (negb _); [done|]. destruct (period s =? 0); [done|].
    apply ptimer_restart_ok; [|done]. apply put_enabled_ok; [done|]. destruct oneshot; lia.
  - unfold ptimer_set_period.
    assert (ptimer_ok (put_period s p 0)) by (apply put_period_ok; auto; lia).
    destruct (negb _); auto using ptimer_restart_ok.
  - unfold ptimer_set_limit. cbn zeta. set (l := if (u64 _ <? 10000) && _ then _ else count).
    assert (0 <= l < 2 ^ 64) as Hl
      by (unfold l; destruct (_ && _); [apply (uwrap_range 64); lia|done]).
    clearbody l.
    assert (ptimer_ok (if reload then put_delta (put_limit s l) l else put_limit s l))
      by (destruct reload; auto with ptimer).
    destruct (_ && _); auto using ptimer_restart_ok.
  - unfold ptimer_stop. destruct (enabled s =? 0); [by exists s|].
    destruct (get_count_ok now s Hs) as (c & -> & Hc'). eexists. split; [done|].
    apply put_enabled_ok; auto with ptimer; lia.
  - unfold ptimer_set_freq, c_div. replace (freq =? 0) with false by lia. cbn [res_bind].
    eexists. split; [done|].
    assert (ptimer_ok (put_period s (1000000000 / freq) (u32 (Z.shiftl 1000000000 32 / freq)))).
    { assert (0 <= 1000000000 / freq <= 1000000000) by (split; [apply Z.div_pos; lia|apply Z.div_le_upper_bound; nia]).
      apply put_period_ok; auto; [lia|apply (uwrap_range 32); lia|lia]. }
    destruct (negb _); auto using ptimer_restart_ok.
Qed.

(** ** The times of the ticks *)

(** The length of a countdown from [d]: [d] periods, rounded down. *)
Definition span (s : ptimer_state) (d : Z) : Z := d * fixed (period s) (period_frac s) / 2 ^ 32.

Lemma span_split s d : 0 <= d -> span s d = d * period s + period_frac s * d / 2 ^ 32.
Proof.
  intros. unfold span, fixed.
  replace (d * (period s * 2 ^ 32 + period_frac s)) with (period_frac s * d + d * period s * 2 ^ 32)
    by lia.
  rewrite Z.div_add by lia. lia.
Qed.

(** A reload that starts a countdown from [d] periods. *)
Lemma reload_spec s d : ptimer_ok s -> 0 < period s ->
  d = (if delta s =? 0 then limit s else delta s) -> 0 < d < 2 ^ 32 ->
  0 <= next_event s -> next_event s + span s d < 2 ^ 63 ->
  let s' := ptimer_reload s in
  enabled s' = enabled s /\ delta s' = d /\ limit s' = limit s /\ period s' = period s /\
  period_frac s' = period_frac s /\ bh s' = bh s /\
  last_event s' = next_event s /\ next_event s' = next_event s + span s d /\
  timer s' = Some (next_event s').
Proof.
  intros Hs Hp Hd Hr Hn Hl. destruct Hs.
  pose proof (span_split s d ltac:(lia)) as E.
  assert (0 <= period_frac s * d / 2 ^ 32) by (apply Z.div_pos; nia).
  assert (0 <= d * period s) by nia.
  unfold ptimer_reload. set (s1 := if delta s =? 0 then _ else s). cbn zeta.
  assert (delta s1 = d /\ limit s1 = limit s /\ period s1 = period s /\ enabled s1 = enabled s /\
    period_frac s1 = period_frac s /\ next_event s1 = next_event s /\ bh s1 = bh s)
    as (E1 & E2 & E3 & E4 & E5 & E6 & E7).
  { unfold s1, ptimer_trigger. destruct (delta s =? 0) eqn:Ed; destruct (bh s) eqn:Eb; cbn; auto 10. }
  rewrite E1, E3. replace ((d =? 0) || (period s =? 0)) with false by lia.
  cbn [put_events period_frac delta next_event last_event period].
  rewrite E5, E6, E1. rewrite (uwrap_small 64 (period s)) by lia.
  rewrite (uwrap_small 64 (d * period s)) by lia.
  rewrite (uwrap_small 64 (next_event s + _)), swrap_small by lia.
  assert (period_frac s * d < 2 ^ 64) by nia.
  rewrite (uwrap_small 64 (period_frac s * d)) by nia. rewrite Z.shiftr_div_pow2 by lia.
  destruct (Z.eqb_spec (period_frac s) 0) as [Ef|Ef]; cbn [negb].
  - rewrite Ef in E. change (0 * d / 2 ^ 32) with 0 in E.
    cbn. split_and!; try done; try lia. f_equal. lia.
  - cbn. rewrite (uwrap_small 64 (_ + _ + _)), swrap_small by lia.
    split_and!; try done; try lia. f_equal. lia.
Qed.

Fixpoint ticks (n : nat) (s : ptimer_state) : ptimer_state :=
  match n with O => s | S n => ticks n (ptimer_tick s) end.

(** A periodic timer that is running. *)
Definition running (s : ptimer_state) : Prop :=
  ptimer_ok s /\ enabled s = 1 /\ 0 < period s /\ 0 < limit s < 2 ^ 32 /\
  timer s = Some (next_event s) /\ 0 <= next_event s.

Lemma tick_ok s : ptimer_ok s -> ptimer_ok (ptimer_tick s).
Proof.
  intros Hs. by destruct (operations_ok 0 s 0 0 1 false false Hs ltac:(lia) ltac:(lia) ltac:(lia)
    ltac:(lia)) as [? _].
Qed.

Lemma span_nonneg s : running s -> 0 <= span s (limit s).
Proof.
  intros (Hs & _ & Hp & Hl & _). rewrite span_split by lia. destruct Hs.
  assert (0 <= period_frac s * limit s / 2 ^ 32) by (apply Z.div_pos; nia). nia.
Qed.

Lemma tick_running s : running s -> next_event s + span s (limit s) < 2 ^ 63 ->
  let s' := ptimer_tick s in
  running s' /\ next_event s' = next_event s + span s (limit s) /\ limit s' = limit s /\
  (forall d, span s' d = span s d) /\ bh s' = bh s.
Proof.
  intros Hrun Hb. pose proof (span_nonneg s Hrun).
  destruct Hrun as (Hs & He & Hp & Hl & Ht & Hn). pose proof (tick_ok s Hs) as Hok.
  unfold ptimer_tick in *. cbn zeta in *.
  set (s0 := put_delta (ptimer_trigger s) 0) in *.
  assert (enabled s0 = 1 /\ limit s0 = limit s /\ period s0 = period s /\ delta s0 = 0 /\
    period_frac s0 = period_frac s /\ next_event s0 = next_event s /\ bh s0 = bh s)
    as (E1 & E2 & E3 & E4 & E5 & E6 & E7)
    by (unfold s0, ptimer_trigger; destruct (bh s) eqn:Eb; cbn; auto 10).
  rewrite E1 in *. change (1 =? 2) with false in *. cbn iota in *.
  assert (forall d, span s0 d = span s d) as Es by (intros; unfold span; by rewrite E3, E5).
  destruct (reload_spec s0 (limit s)) as (R1 & R2 & R3 & R4 & R5 & R6 & R7 & R8 & R9);
    rewrite ?E2, ?E3, ?E4, ?E6, ?Es; try done; try lia.
  { unfold s0. auto with ptimer lia. }
  rewrite E6, Es in R8. split_and!; try congruence; try lia.
  - split_and!; try done; try congruence; lia.
  - intros d. unfold span. congruence.
Qed.

(** ** What the timer promises *)

(** C30: While a timer runs and has not expired, its count never faults and
    never exceeds the number of whole periods that are left, by exact 64.32
    fixed-point division; it is that number when the time left and the period
    are below 2^32 nanoseconds, at most one less for counts below 2^31 and at
    most two less for 32-bit counts. *)
Theorem ptimer_count_accurate now s :
  ptimer_ok s -> enabled s <> 0 -> 0 < period s -> 0 <= now <= next_event s ->
  let rem := next_event s - now in
  let e := exact_count rem (period s) (period_frac s) in
  exists c, ptimer_get_count now s = Ok c /\ 0 <= c <= e /\
    (rem < 2 ^ 32 /\ period s < 2 ^ 32 -> c = e) /\
    (e < 2 ^ 32 -> e <= c + 2) /\ (e < 2 ^ 31 -> e <= c + 1).
Proof.
  intros Hs He Hp Hn rem e. destruct Hs. unfold ptimer_get_count.
  replace (enabled s =? 0) with false by lia. cbn [negb].
  rewrite (swrap_small 64) by lia. replace (period s =? 0) with false by lia.
  replace (0 <? now - next_event s) with false by lia. cbn [orb].
  rewrite !uwrap_small by lia. apply scaled_count_bounds; lia.
Qed.

Definition sample_timer : ptimer_state :=
  match ptimer_set_freq 0 7372800 (ptimer_init true) with
  | Ok s => ptimer_run 0 false (ptimer_set_limit 0 (2 ^ 32 - 1) true s)
  | Err _ => ptimer_init true
  end.

Lemma sample_timer_ok : ptimer_ok sample_timer.
Proof.
  split; vm_compute; try (split; discriminate || reflexivity || (intros H; discriminate)).
  right. intros H. discriminate.
Qed.

Lemma ptimer_count_accurate_witness :
  exists c, ptimer_get_count (next_event sample_timer - 2 ^ 38) sample_timer = Ok c /\ c <= 2026619832.
Proof.
  destruct (ptimer_count_accurate (next_event sample_timer - 2 ^ 38) sample_timer) as (c & E & Hc & _).
  - apply sample_timer_ok.
  - by vm_compute.
  - by vm_compute.
  - vm_compute. split; intros H; discriminate.
  - exists c. split; [exact E|]. vm_compute in E. injection E as <-. by vm_compute.
Defined.

(** The scale of the division depends on the time that is left, and with it the
    error: a counter of 32 bits at 7.3728 MHz reads one more a nanosecond later. *)
Theorem count_goes_backwards :
  exists now a b, 0 <= now < next_event sample_timer /\
    ptimer_get_count now sample_timer = Ok a /\
    ptimer_get_count (now + 1) sample_timer = Ok b /\ a < b.
Proof.
  exists (next_event sample_timer - 2 ^ 38), 2026619831, 2026619832.
  split_and!; by vm_compute.
Qed.

Lemma reload_scheduled s : scheduled s = true -> scheduled (ptimer_reload s) = true.
Proof.
  intros Hs. unfold ptimer_reload, ptimer_trigger. cbn zeta.
  destruct (delta s =? 0), (bh s); cbn; destruct (_ || _), (period_frac s =? 0); done.
Qed.

Lemma tick_scheduled s : bh s = true -> scheduled (ptimer_tick s) = true.
Proof.
  intros Hb. unfold ptimer_tick, ptimer_trigger. rewrite Hb. cbn zeta.
  destruct (enabled _ =? 2); [done|]. by apply reload_scheduled.
Qed.

(** A periodic timer does not drift: whatever the clock shows when its
    callback runs, the [n]th tick is armed for [n] countdowns of the limit after
    the first, each of the limit times the period rounded down to a nanosecond,
    and every tick schedules the bottom half. *)
Theorem ptimer_ticks_on_time n s :
  running s -> next_event s + Z.of_nat n * span s (limit s) < 2 ^ 63 ->
  let s' := ticks n s in
  running s' /\ timer s' = Some (next_event s + Z.of_nat n * span s (limit s)) /\
  ((0 < n)%nat -> bh s = true -> scheduled s' = true).
Proof.
  revert s. induction n as [|n IH]; intros s Hr Hb.
  { cbn [ticks]. split_and!; [done| |lia]. destruct Hr as (_ & _ & _ & _ & -> & _).
    f_equal. lia. }
  assert (0 <= span s (limit s)) as Hpos by by apply span_nonneg.
  destruct (tick_running s Hr ltac:(nia)) as (R1 & R2 & R3 & R4 & R5).
  destruct (IH (ptimer_tick s) R1) as (I1 & I2 & I3).
  { rewrite R2, R3, R4. lia. }
  cbn [ticks]. split_and!; [done| |].
  - rewrite I2, R2, R3, R4. f_equal. lia.
  - intros _ Hbh. destruct n; [by apply tick_scheduled|]. apply I3; [lia|]. by rewrite R5.
Qed.

Lemma ptimer_ticks_on_time_witness :
  timer (ticks 3 sample_timer) = Some (4 * next_event sample_timer).
Proof.
  destruct (ptimer_ticks_on_time 3 sample_timer) as (_ & -> & _).
  - split; [apply sample_timer_ok|]. vm_compute. split_and!; try done; intros H; discriminate.
  - by vm_compute.
  - by vm_compute.
Defined.

(** ** The limit on the rate *)

(** With a period of at most ten microseconds, a new limit keeps countdowns
    longer than five. *)
Theorem limit_bounds_rate now lim reload s :
  ptimer_ok s -> 0 < period s <= 10000 -> 0 <= lim -> lim * period s < 2 ^ 64 ->
  5000 < limit (ptimer_set_limit now lim reload s) * period s.
Proof.
  intros Hs Hp Hl Hm. unfold ptimer_set_limit. cbn zeta.
  rewrite (uwrap_small 64 (period s)), (uwrap_small 64 (lim * period s)) by nia.
  set (l := if (_ <? 10000) && _ then _ else lim).
  assert (5000 < l * period s) as Hb.
  { unfold l. replace (period s =? 0) with false by lia. zcases; [|lia].
    rewrite Z.quot_div_nonneg by lia.
    assert (10000 - period s < 10000 / period s * period s <= 10000) by dlia.
    assert (0 <= 10000 / period s <= 10000)
      by (split; [apply Z.div_pos; lia|apply Z.div_le_upper_bound; nia]).
    rewrite uwrap_small by lia. destruct (Z.le_gt_cases (period s) 5000); [lia|].
    assert (10000 / period s = 1) as -> by dlia. lia. }
  clearbody l. destruct reload; [|by rewrite andb_false_r].
  destruct (negb _); [|done]. cbn [andb]. unfold restart, ptimer_reload, ptimer_trigger.
  cbn zeta. cbn. destruct (l =? 0), (bh s); cbn; destruct (_ || _), (period_frac s =? 0); done.
Qed.

(** The product with the period is taken modulo 2^64: a limit of 2^63 at two
    nanoseconds counts as none, and is replaced by 5000. *)
Example large_limit_replaced :
  limit (ptimer_set_limit 0 (2 ^ 63) true (ptimer_set_period 0 2 (ptimer_init true))) = 5000.
Proof. by vm_compute. Qed.

(** Above 1 GHz the period is zero nanoseconds, and the timer never runs. *)
Example fast_timer_never_runs :
  exists s, ptimer_set_freq 0 2000000000 (ptimer_init true) = Ok s /\
    ptimer_run 0 false (ptimer_set_limit 0 100 true s) = ptimer_set_limit 0 100 true s /\
    enabled (ptimer_set_limit 0 100 true s) = 0.
Proof. eexists. split; [vm_compute; reflexivity|]. split; vm_compute; reflexivity. Qed.

End Ptimer.
