(* ===== verification/Ftwdt010.v ===== *)
(** * The Faraday FTWDT010 watchdog ([hw/arm/ftwdt010.c], [hw/ftwdt010.h])

    A guest that enables the watchdog has to write the magic value to the
    restart register before the timeout; else the watchdog interrupts or resets
    the machine.  [now] is the real-time clock in milliseconds, [qtimer] the
    expiry that the timer is armed for, [irq] the level of the line and
    [actions] the number of calls of [watchdog_perform_action].  Accesses are
    32-bit ([mmio_ops]).

    An armed watchdog fires at its deadline unless it is restarted or disabled,
    and a restart moves the deadline.  A reset of the machine does not reset the
    flag [running] nor the timer: after the watchdog has reset the machine,
    enabling it again does not arm it. *)

From Stdlib Require Import ZArith Lia.
From stdpp Require Import base numbers list.
From S2P Require Import Prelude.

Module Ftwdt010.

Record Ftwdt010State : Type := mkState {
  irq : Z; qtimer : option Z; timeout : Z; freq : Z; step : Z; running : bool;
  load : Z; cr : Z; sr : Z; actions : nat
}.

Definition REG_COUNTER : Z := 0x00.
Definition REG_LOAD : Z := 0x04.
Definition REG_RESTART : Z := 0x08.
Definition REG_CR : Z := 0x0C.
Definition REG_SR : Z := 0x10.
Definition REG_SCR : Z := 0x14.
Definition REG_REVR : Z := 0x1C.
Definition CR_INTR : Z := Z.shiftl 1 2.
Definition CR_SRST : Z := Z.shiftl 1 1.
Definition CR_EN : Z := Z.shiftl 1 0.
Definition SR_SRST : Z := Z.shiftl 1 1.
Definition WDT_MAGIC : Z := 0x5ab9.

Definition is_set (x bits : Z) : bool := negb (Z.land x bits =? 0).

Definition ftwdt010_mem_read (now addr : Z) (s : Ftwdt010State) : res Z :=
  if addr =? REG_COUNTER then
    if is_set (cr s) CR_EN then
      let ret := u32 (timeout s - now) in
      let* n := c_div (u64 (ret * 1000000)) (step s) in
      Ok (u32 (Z.min (load s) n))
    else Ok (load s)
  else if addr =? REG_LOAD then Ok (load s)
  else if addr =? REG_CR then Ok (cr s)
  else if addr =? REG_SR then Ok (sr s)
  else if addr =? REG_REVR then Ok 0x00010601
  else Ok 0.

Definition put_load (s : Ftwdt010State) (v : Z) : Ftwdt010State :=
  mkState (irq s) (qtimer s) (timeout s) (freq s) (step s) (running s) v (cr s) (sr s) (actions s).
Definition put_cr (s : Ftwdt010State) (v : Z) : Ftwdt010State :=
  mkState (irq s) (qtimer s) (timeout s) (freq s) (step s) (running s) (load s) v (sr s) (actions s).
Definition put_sr (s : Ftwdt010State) (v : Z) : Ftwdt010State :=
  mkState (irq s) (qtimer s) (timeout s) (freq s) (step s) (running s) (load s) (cr s) v (actions s).
Definition put_running (s : Ftwdt010State) (b : bool) (q : option Z) : Ftwdt010State :=
  mkState (irq s) q (timeout s) (freq s) (step s) b (load s) (cr s) (sr s) (actions s).

(** The three lines that compute the timeout and arm the timer. *)
Definition arm (now : Z) (s : Ftwdt010State) : Ftwdt010State :=
  let t := u64 (step s * load s) / 1000000 in
  let t := u64 (now + Z.max t 1) in
  mkState (irq s) (Some (s64 t)) t (freq s) (step s) (running s) (load s) (cr s) (sr s) (actions s).

Definition ftwdt010_mem_write (now addr val : Z) (s : Ftwdt010State) : Ftwdt010State :=
  if addr =? REG_LOAD then put_load s (u32 val)
  else if addr =? REG_RESTART then
    if is_set (cr s) CR_EN && (val =? WDT_MAGIC) then arm now s else s
  else if addr =? REG_CR then
    let s := put_cr s (u32 val) in
    if is_set (cr s) CR_EN then
      if running s then s
      else arm now (put_running s true (qtimer s))
    else put_running s false None
  else if addr =? REG_SCR then put_sr s (Z.land (sr s) (u32 (Z.lnot (u32 val))))
  else s.

(** The timer is no longer pending when its callback runs. *)
Definition ftwdt010_timer_tick (s : Ftwdt010State) : Ftwdt010State :=
  mkState (b2z (is_set (cr s) CR_INTR)) None (timeout s) (freq s) (step s) (running s) (load s) (cr s)
    SR_SRST (if is_set (cr s) CR_SRST then S (actions s) else actions s).

Definition ftwdt010_reset (s : Ftwdt010State) : Ftwdt010State :=
  mkState (irq s) (qtimer s) 0 (freq s) (step s) (running s) 0x3ef1480 0 0 (actions s).

Definition get_ticks_per_sec : Z := 1000000000.

Definition ftwdt010_realize (freq : Z) : res Ftwdt010State :=
  let* step := c_div get_ticks_per_sec freq in
  Ok (mkState 0 None 0 freq step false 0 0 0 0).

(** ** Runs *)

(** What happens to the watchdog, with the clock: a write by the guest, the
    expiry of the timer, which the main loop may see late, and a reset. *)
Inductive event : Type :=
| Write (now addr val : Z)
| Expire (now : Z)
| Reset.

Definition run_event (e : event) (s : Ftwdt010State) : Ftwdt010State :=
  match e with
  | Write now addr val => ftwdt010_mem_write now addr val s
  | Expire now => match qtimer s with
                  | Some t => if t <=? now then ftwdt010_timer_tick s else s
                  | None => s
                  end
  | Reset => ftwdt010_reset s
  end.

Fixpoint run (es : list event) (s : Ftwdt010State) : Ftwdt010State :=
  match es with [] => s | e :: es => run es (run_event e s) end.

(** The delay from arming to expiry in milliseconds. *)
Definition delay (s : Ftwdt010State) : Z := Z.max (step s * load s / 1000000) 1.

Definition u32_ok (x : Z) : Prop := 0 <= x < 2 ^ 32.

Record wdt_ok (s : Ftwdt010State) : Prop := {
  ok_step : 0 <= step s <= get_ticks_per_sec;
  ok_load : u32_ok (load s);
  ok_cr : u32_ok (cr s)
}.

Lemma arm_spec now s : wdt_ok s -> 0 <= now < 2 ^ 62 ->
  qtimer (arm now s) = Some (now + delay s).
Proof.
  intros [Hs Hl _] Hn. unfold arm, delay, get_ticks_per_sec, u32_ok in *. cbn.
  rewrite (uwrap_small 64 (step s * load s)) by nia.
  assert (0 <= step s * load s / 1000000 < 2 ^ 43)
    by (split; [apply Z.div_pos; nia|apply Z.div_lt_upper_bound; nia]).
  rewrite (uwrap_small 64), swrap_small by lia. done.
Qed.

Lemma reset_load : u32_ok 0x3ef1480.
Proof. unfold u32_ok. lia. Qed.

Lemma u32_fits v : u32_ok (u32 v).
Proof. apply (uwrap_range 32). lia. Qed.

Lemma write_ok now addr val s : wdt_ok s -> wdt_ok (ftwdt010_mem_write now addr val s).
Proof.
  intros [Hs Hl Hc]. pose proof (u32_fits val). unfold ftwdt010_mem_write.
  destruct (addr =? REG_LOAD); [by split|].
  destruct (addr =? REG_RESTART); [destruct (_ && _); by split|].
  destruct (addr =? REG_CR); [|destruct (addr =? REG_SCR); by split].
  cbn zeta. destruct (is_set _ CR_EN); [destruct (running _)|]; by split.
Qed.

Lemma event_ok e s : wdt_ok s -> wdt_ok (run_event e s).
Proof.
  intros Hs. destruct e as [now addr val|now|]; cbn [run_event].
  - by apply write_ok.
  - destruct Hs. destruct (qtimer s) as [t|]; [destruct (t <=? now)|]; by split.
  - destruct Hs. split; cbn; [done|apply reset_load|unfold u32_ok; lia].
Qed.

Lemma run_ok es : forall s, wdt_ok s -> wdt_ok (run es s).
Proof. induction es as [|e es IH]; intros s Hs; [done|]. by apply IH, event_ok. Qed.

(** ** Quiet events *)

(** A write that leaves an enabled watchdog with the actions in [keep] armed as
    it is: it neither restarts nor disables it nor takes an action away. *)
Definition quiet (keep : Z) (e : event) : Prop :=
  match e with
  | Write now addr val =>
      ~ (addr = REG_RESTART /\ val = WDT_MAGIC) /\
      (addr = REG_CR -> is_set (u32 val) CR_EN = true /\ is_set (u32 val) keep = true)
  | Expire _ | Reset => False
  end.

(** Enabled, with [keep], armed for [t]. *)
Definition armed (keep t : Z) (s : Ftwdt010State) : Prop :=
  running s = true /\ is_set (cr s) CR_EN = true /\ is_set (cr s) keep = true /\ qtimer s = Some t.

Lemma quiet_keeps keep t e s : quiet keep e -> armed keep t s ->
  armed keep t (run_event e s) /\ actions (run_event e s) = actions s.
Proof.
  intros Hq (Hr & He & Hk & Ht). destruct e as [now addr val|now|]; cbn [quiet] in Hq; [|done..].
  destruct Hq as [Hm Hcr]. cbn [run_event]. unfold ftwdt010_mem_write.
  destruct (Z.eqb_spec addr REG_LOAD); [by split|].
  destruct (Z.eqb_spec addr REG_RESTART).
  { destruct (Z.eqb_spec val WDT_MAGIC); [by destruct Hm|]. rewrite andb_false_r. by split. }
  destruct (Z.eqb_spec addr REG_CR).
  { destruct (Hcr e) as [H1 H2]. cbn zeta. cbn [put_cr cr running]. rewrite H1, Hr. by split. }
  destruct (Z.eqb_spec addr REG_SCR); by split.
Qed.

Lemma quiet_run keep t es s : Forall (quiet keep) es -> armed keep t s ->
  armed keep t (run es s) /\ actions (run es s) = actions s.
Proof.
  intros Hes. revert s. induction Hes as [|e es He Hes IH]; intros s Hs; [done|].
  cbn [run]. destruct (quiet_keeps keep t e s He Hs) as [H1 H2].
  destruct (IH _ H1) as [H3 H4]. split; [done|congruence].
Qed.

(** A watchdog that is enabled with system reset fires: after any writes
    that do not restart or disable it, and however the guest changes the load
    register meanwhile, the timer is still armed for the time of enabling plus
    the load value in clock ticks, at least a millisecond; nothing happens
    before, and the first look at the timer after that performs the watchdog's
    action once.  A restart with the magic value moves the deadline instead. *)
Theorem watchdog_fires now val es late s :
  wdt_ok s -> running s = false -> 0 <= now < 2 ^ 62 ->
  is_set (u32 val) CR_EN = true -> is_set (u32 val) CR_SRST = true ->
  Forall (quiet CR_SRST) es ->
  let s1 := run es (ftwdt010_mem_write now REG_CR val s) in
  let deadline := now + delay s in
  qtimer s1 = Some deadline /\
  actions (run_event (Expire late) s1) =
    (if deadline <=? late then S (actions s) else actions s) /\
  (forall again, 0 <= again < 2 ^ 62 ->
     qtimer (ftwdt010_mem_write again REG_RESTART WDT_MAGIC s1) = Some (again + delay s1)).
Proof.
  intros Hok Hr Hn He Hk Hes s1 deadline.
  set (s0 := ftwdt010_mem_write now REG_CR val s) in *.
  assert (wdt_ok s0) as Hok0 by by apply write_ok.
  assert (armed CR_SRST deadline s0 /\ actions s0 = actions s) as [Ha Hact].
  { unfold s0, ftwdt010_mem_write. change (REG_CR =? REG_LOAD) with false.
    change (REG_CR =? REG_RESTART) with false. change (REG_CR =? REG_CR) with true.
    cbn zeta. cbn [put_cr cr running]. rewrite He, Hr. split; [|done].
    split_and!; [done|done|done|]. rewrite arm_spec; [done| |done].
    destruct Hok. split; cbn; try done. apply u32_fits. }
  destruct (quiet_run _ _ _ _ Hes Ha) as [(Hr1 & He1 & Hk1 & Hq1) Hact1].
  fold s1 in Hr1, He1, Hk1, Hq1, Hact1.
  assert (wdt_ok s1) as Hok1 by by apply run_ok.
  split_and!; [done| |].
  - cbn [run_event]. rewrite Hq1. destruct (deadline <=? late); cbn; [|congruence].
    rewrite Hk1. congruence.
  - intros again Hag. unfold ftwdt010_mem_write. change (REG_RESTART =? REG_LOAD) with false.
    change (REG_RESTART =? REG_RESTART) with true. cbn iota. rewrite He1.
    change (WDT_MAGIC =? WDT_MAGIC) with true. cbn [andb]. by apply arm_spec.
Qed.

Definition boot : Ftwdt010State :=
  match ftwdt010_realize 66000000 with Ok s => ftwdt010_reset s | Err _ => mkState 0 None 0 0 0 false 0 0 0 0 end.

Lemma boot_ok : wdt_ok boot.
Proof. split; vm_compute; split; congruence. Qed.

Lemma watchdog_fires_witness :
  qtimer (run [Write 60 REG_LOAD 7] (ftwdt010_mem_write 50 REG_CR 3 boot)) = Some 1040 /\
  actions (run [Write 60 REG_LOAD 7; Expire 2000] (ftwdt010_mem_write 50 REG_CR 3 boot)) = 1%nat.
Proof.
  destruct (watchdog_fires 50 3 [Write 60 REG_LOAD 7] 2000 boot) as (H1 & H2 & _).
  - apply boot_ok.
  - done.
  - lia.
  - done.
  - done.
  - apply Forall_singleton. split; [intros [? _]; discriminate|discriminate].
  - split; [exact H1|exact H2].
Defined.

(** C32: After the watchdog has reset the machine it is dead.  The reset clears
    the control register but not [running], and the timer has fired: whatever
    the guest then writes, short of the magic value or of disabling the watchdog
    first, the timer is never armed again, in particular not by enabling it, and
    no action follows, however much time passes. *)
Theorem watchdog_dead_after_reset es late s :
  running s = true -> qtimer s = Some late ->
  Forall (fun e => match e with
                   | Write _ addr val => (addr = REG_RESTART -> val <> WDT_MAGIC) /\
                                         (addr = REG_CR -> is_set (u32 val) CR_EN = true)
                   | _ => True
                   end) es ->
  let s' := run es (run [Expire late; Reset] s) in
  qtimer s' = None /\ actions s' = actions (run_event (Expire late) s).
Proof.
  intros Hr Hq Hes. cbn [run].
  set (s0 := run_event Reset (run_event (Expire late) s)).
  assert (running s0 = true /\ qtimer s0 = None /\
          actions s0 = actions (run_event (Expire late) s)) as (R0 & Q0 & A0).
  { unfold s0. cbn [run_event]. rewrite Hq, Z.leb_refl. done. }
  rewrite <- A0. clearbody s0. clear A0 Hq Hr.
  revert s0 R0 Q0. induction Hes as [|e es He Hes IH]; intros s0 R0 Q0; [done|].
  cbn [run].
  enough (running (run_event e s0) = true /\ qtimer (run_event e s0) = None /\
          actions (run_event e s0) = actions s0) as (R1 & Q1 & A1)
    by (rewrite <- A1; by apply IH).
  destruct e as [now addr val|now|]; cbn [run_event]; [|by rewrite Q0|done].
  destruct He as [Hm Hcr]. unfold ftwdt010_mem_write.
  destruct (Z.eqb_spec addr REG_LOAD); [done|].
  destruct (Z.eqb_spec addr REG_RESTART).
  { destruct (Z.eqb_spec val WDT_MAGIC); [by destruct Hm|]. by rewrite andb_false_r. }
  destruct (Z.eqb_spec addr REG_CR).
  { cbn zeta. cbn [put_cr cr running]. by rewrite Hcr, R0 by done. }
  by destruct (Z.eqb_spec addr REG_SCR).
Qed.

Lemma watchdog_dead_after_reset_witness :
  qtimer (run [Expire 1040; Reset; Write 5000 REG_CR 3; Expire 100000]
            (ftwdt010_mem_write 50 REG_CR 3 boot)) = None /\
  actions (run [Expire 1040; Reset; Write 5000 REG_CR 3; Expire 100000]
            (ftwdt010_mem_write 50 REG_CR 3 boot)) = 1%nat.
Proof.
  destruct (watchdog_dead_after_reset [Write 5000 REG_CR 3; Expire 100000] 1040
    (ftwdt010_mem_write 50 REG_CR 3 boot)) as [H1 H2].
  - done.
  - done.
  - apply Forall_cons_2; [split; [discriminate|done]|by apply Forall_singleton].
  - split; [exact H1|exact H2].
Defined.

(** Behind the deadline the counter register reads the load value again. *)
Example counter_wraps :
  ftwdt010_mem_read 1041 REG_COUNTER (ftwdt010_mem_write 50 REG_CR 1 boot) = Ok 0x3ef1480.
Proof. by vm_compute. Qed.

End Ftwdt010.
