(* ===== verification/Ftrtc011.v ===== *)
(** * The Faraday FTRTC011 real-time clock ([hw/arm/ftrtc011.c], [hw/ftrtc011.h])

    The guest loads a date of seconds, minutes, hours and days; the registers
    are brought up to date from the host's clock when they are read and when the
    timer ticks.  [now] is the real-time clock in nanoseconds, [qtimer] the
    expiry that the timer is armed for, [level] the alarm level line, [pulses]
    the lines that were pulsed, newest first.  Accesses are 32-bit ([mmio_ops]).

    The clock keeps time: between loading and reading, whatever was read and
    however late the timer ticked, exactly the whole seconds of the host's clock
    have passed.  The alarm compares for equality when the timer happens to
    tick, so that a tick that is late can miss it. *)

From Stdlib Require Import ZArith Lia.
From stdpp Require Import base numbers list.
From S2P Require Import Prelude Bitops.

Module Ftrtc011.

Inductive line : Type :=
| IRQ_ALARM_LEVEL | IRQ_ALARM_EDGE | IRQ_SEC | IRQ_MIN | IRQ_HOUR | IRQ_DAY.

Record Ftrtc011State : Type := mkState {
  level : bool; pulses : list line; qtimer : option Z; rtc_base : Z; rtc_start : Z; regs : list Z
}.

Definition REG_SEC : Z := 0x00.
Definition REG_MIN : Z := 0x04.
Definition REG_HOUR : Z := 0x08.
Definition REG_DAY : Z := 0x0C.
Definition REG_ALARM_SEC : Z := 0x10.
Definition REG_ALARM_MIN : Z := 0x14.
Definition REG_ALARM_HOUR : Z := 0x18.
Definition REG_CR : Z := 0x20.
Definition REG_WSEC : Z := 0x24.
Definition REG_WMIN : Z := 0x28.
Definition REG_WHOUR : Z := 0x2C.
Definition REG_WDAY : Z := 0x30.
Definition REG_ISR : Z := 0x34.
Definition REG_REVR : Z := 0x3C.
Definition REG_CURRENT : Z := 0x44.
Definition CR_LOAD : Z := Z.shiftl 1 6.
Definition CR_INTR_ALARM : Z := Z.shiftl 1 5.
Definition CR_INTR_DAY : Z := Z.shiftl 1 4.
Definition CR_INTR_HOUR : Z := Z.shiftl 1 3.
Definition CR_INTR_MIN : Z := Z.shiftl 1 2.
Definition CR_INTR_SEC : Z := Z.shiftl 1 1.
Definition CR_INTR_MASK : Z :=
  Z.lor (Z.lor (Z.lor (Z.lor CR_INTR_SEC CR_INTR_MIN) CR_INTR_HOUR) CR_INTR_DAY) CR_INTR_ALARM.
Definition CR_EN : Z := Z.shiftl 1 0.
Definition ISR_ALARM : Z := Z.shiftl 1 4.
Definition ISR_DAY : Z := Z.shiftl 1 3.
Definition ISR_HOUR : Z := Z.shiftl 1 2.
Definition ISR_MIN : Z := Z.shiftl 1 1.
Definition ISR_SEC : Z := Z.shiftl 1 0.
Definition CFG_REGSIZE : Z := 0x3c / 4.

Definition is_set (x bits : Z) : bool := negb (Z.land x bits =? 0).

(** [RTC_REG32(s, off)], read and written. *)
Definition rtc_reg (s : Ftrtc011State) (off : Z) : res Z := aget (regs s) (off / 4).
Definition put_reg (s : Ftrtc011State) (off v : Z) : res Ftrtc011State :=
  let* r := aset (regs s) (off / 4) v in
  Ok (mkState (level s) (pulses s) (qtimer s) (rtc_base s) (rtc_start s) r).
Definition or_reg (s : Ftrtc011State) (off v : Z) : res Ftrtc011State :=
  let* x := rtc_reg s off in put_reg s off (Z.lor x v).

Definition put_lines (s : Ftrtc011State) (l : bool) (p : list line) : Ftrtc011State :=
  mkState l (p ++ pulses s) (qtimer s) (rtc_base s) (rtc_start s) (regs s).
Definition put_qtimer (s : Ftrtc011State) (q : option Z) : Ftrtc011State :=
  mkState (level s) (pulses s) q (rtc_base s) (rtc_start s) (regs s).
Definition put_base (s : Ftrtc011State) (base start : Z) : Ftrtc011State :=
  mkState (level s) (pulses s) (qtimer s) base start (regs s).

Definition pulse_if (mask bit : Z) (l : line) : list line := if is_set mask bit then [l] else [].

Definition ftrtc011_update_irq (s : Ftrtc011State) : res Ftrtc011State :=
  let* cr := rtc_reg s REG_CR in
  let* isr := rtc_reg s REG_ISR in
  let* en := extract32 cr 1 5 in
  let mask := Z.land en isr in
  Ok (put_lines s (is_set mask ISR_ALARM)
        (if mask =? 0 then []
         else pulse_if mask ISR_ALARM IRQ_ALARM_EDGE ++ pulse_if mask ISR_DAY IRQ_DAY ++
              pulse_if mask ISR_HOUR IRQ_HOUR ++ pulse_if mask ISR_MIN IRQ_MIN ++
              pulse_if mask ISR_SEC IRQ_SEC)).

Definition get_ticks_per_sec : Z := 1000000000.

Definition ftrtc011_timer_rebase (now : Z) (s : Ftrtc011State) : res Ftrtc011State :=
  let* sec := rtc_reg s REG_SEC in
  let* min := rtc_reg s REG_MIN in
  let* hr := rtc_reg s REG_HOUR in
  let* day := rtc_reg s REG_DAY in
  let elapsed := sec + 60 * min + 3600 * hr + 86400 * day in
  Ok (put_base s elapsed (now - Z.rem now get_ticks_per_sec)).

(** [if (reg != v && (cr & en)) isr |= bit]. *)
Definition note_change (s : Ftrtc011State) (off v en bit : Z) : res Ftrtc011State :=
  let* r := rtc_reg s off in
  let* cr := rtc_reg s REG_CR in
  if negb (r =? v) && is_set cr en then or_reg s REG_ISR bit else Ok s.

(** [sec | (min << 8) | (hour << 16)] of three registers. *)
Definition time_of_day (s : Ftrtc011State) (sec min hour : Z) : res Z :=
  let* a := rtc_reg s sec in
  let* b := rtc_reg s min in
  let* c := rtc_reg s hour in
  Ok (Z.lor (Z.lor a (u32 (Z.shiftl b 8))) (u32 (Z.shiftl c 16))).

Definition ftrtc011_timer_update (now : Z) (s : Ftrtc011State) : res Ftrtc011State :=
  let* cr := rtc_reg s REG_CR in
  if negb (is_set cr CR_EN) then Ok s
  else
    let* s := if rtc_start s =? 0 then ftrtc011_timer_rebase now s else Ok s in
    let elapsed := rtc_base s + (now - rtc_start s) ÷ 1000000000 in
    let day := u32 (elapsed ÷ 86400) in
    let elapsed := Z.rem elapsed 86400 in
    let hr := u8 (elapsed ÷ 3600) in
    let elapsed := Z.rem elapsed 3600 in
    let min := u8 (elapsed ÷ 60) in
    let elapsed := Z.rem elapsed 60 in
    let sec := u8 elapsed in
    let* s := note_change s REG_SEC sec CR_INTR_SEC ISR_SEC in
    let* s := note_change s REG_MIN min CR_INTR_MIN ISR_MIN in
    let* s := note_change s REG_HOUR hr CR_INTR_HOUR ISR_HOUR in
    let* s := note_change s REG_DAY day CR_INTR_DAY ISR_DAY in
    let* s := put_reg s REG_SEC (u8 sec) in
    let* s := put_reg s REG_MIN (u8 min) in
    let* s := put_reg s REG_HOUR (u8 hr) in
    let* s := put_reg s REG_DAY (u16 day) in
    let* s :=
      if is_set cr CR_INTR_ALARM then
        let* t := time_of_day s REG_SEC REG_MIN REG_HOUR in
        let* a := time_of_day s REG_ALARM_SEC REG_ALARM_MIN REG_ALARM_HOUR in
        if t =? a then or_reg s REG_ISR ISR_ALARM else Ok s
      else Ok s in
    ftrtc011_update_irq s.

Definition ftrtc011_timer_resche (now : Z) (s : Ftrtc011State) : res Ftrtc011State :=
  let* cr := rtc_reg s REG_CR in
  let timeout := if is_set cr CR_EN && is_set cr CR_INTR_MASK
                 then s64 (now + get_ticks_per_sec) else 0 in
  Ok (if 0 <? timeout then put_qtimer s (Some timeout) else s).

Definition ftrtc011_mem_read (now addr : Z) (s : Ftrtc011State) : res (Ftrtc011State * Z) :=
  if (REG_SEC <=? addr) && (addr <=? REG_DAY) then
    let* s := ftrtc011_timer_update now s in
    let* v := aget (regs s) (addr / 4) in Ok (s, v)
  else if (REG_ALARM_SEC <=? addr) && (addr <=? REG_ISR) then
    let* v := aget (regs s) (addr / 4) in Ok (s, v)
  else if addr =? REG_REVR then Ok (s, 0x00010000)
  else if addr =? REG_CURRENT then
    let* s := ftrtc011_timer_update now s in
    let* day := rtc_reg s REG_DAY in
    let* hr := rtc_reg s REG_HOUR in
    let* min := rtc_reg s REG_MIN in
    let* sec := rtc_reg s REG_SEC in
    Ok (s, Z.lor (Z.lor (Z.lor (u32 (Z.shiftl day 17)) (u32 (Z.shiftl hr 12)))
             (u32 (Z.shiftl min 6))) sec)
  else Ok (s, 0).

(** Copy the registers that the guest writes into the clock. *)
Definition load_date (s : Ftrtc011State) : res Ftrtc011State :=
  let* v := rtc_reg s REG_WSEC in
  let* s := put_reg s REG_SEC v in
  let* v := rtc_reg s REG_WMIN in
  let* s := put_reg s REG_MIN v in
  let* v := rtc_reg s REG_WHOUR in
  let* s := put_reg s REG_HOUR v in
  let* v := rtc_reg s REG_WDAY in
  put_reg s REG_DAY v.

Definition write_cr (now val : Z) (s : Ftrtc011State) : res Ftrtc011State :=
  let* (s, val) :=
    if is_set val CR_EN then
      if is_set val CR_LOAD then
        let* s := load_date s in
        let* s := ftrtc011_timer_rebase now s in
        Ok (s, Z.ldiff val CR_LOAD)
      else
        let* cr := rtc_reg s REG_CR in
        if negb (is_set cr CR_EN)
        then let* s := ftrtc011_timer_rebase now s in Ok (s, val)
        else Ok (s, val)
    else Ok (put_qtimer s None, val) in
  let* s := put_reg s REG_CR (u32 val) in
  ftrtc011_timer_resche now s.

(** The check of the registers behind the switch only logs. *)
Definition ftrtc011_mem_write (now addr val : Z) (s : Ftrtc011State) : res Ftrtc011State :=
  if ((REG_ALARM_SEC <=? addr) && (addr <=? REG_ALARM_HOUR)) ||
     ((REG_WSEC <=? addr) && (addr <=? REG_WHOUR)) then put_reg s addr (Z.land (u32 val) 0xff)
  else if addr =? REG_WDAY then put_reg s addr (Z.land (u32 val) 0xffff)
  else if addr =? REG_CR then write_cr now val s
  else if addr =? REG_ISR then
    let* isr := rtc_reg s REG_ISR in
    let* s := put_reg s REG_ISR (Z.ldiff isr (u32 val)) in
    ftrtc011_update_irq s
  else Ok s.

Definition ftrtc011_timer_tick (now : Z) (s : Ftrtc011State) : res Ftrtc011State :=
  let* s := ftrtc011_timer_update now s in
  ftrtc011_timer_resche now s.

Definition ftrtc011_reset (s : Ftrtc011State) : res Ftrtc011State :=
  ftrtc011_update_irq
    (mkState (level s) (pulses s) None (rtc_base s) (rtc_start s) (replicate (Z.to_nat CFG_REGSIZE) 0)).

(** The words of the stream of a migration. *)
Definition ftrtc011_save (s : Ftrtc011State) : res (list Z) :=
  for_loop (Z.to_nat CFG_REGSIZE) 0 (fun i f => let* v := aget (regs s) i in Ok (f ++ [v])) [].

Definition ftrtc011_load (f : list Z) (s : Ftrtc011State) : res Ftrtc011State :=
  let* r := for_loop (Z.to_nat CFG_REGSIZE) 0 (fun i r => let* v := aget f i in aset r i v) (regs s) in
  Ok (mkState (level s) (pulses s) (qtimer s) (rtc_base s) (rtc_start s) r).

Definition ftrtc011_realize : Ftrtc011State :=
  mkState false [] None 0 0 (replicate (Z.to_nat CFG_REGSIZE) 0).

(** ** Registers *)

Definition wf (s : Ftrtc011State) : Prop := length (regs s) = 15%nat.

Definition reg (s : Ftrtc011State) (off : Z) : Z := default 0 (regs s !! Z.to_nat (off / 4)).

Definition setr (s : Ftrtc011State) (off v : Z) : Ftrtc011State :=
  mkState (level s) (pulses s) (qtimer s) (rtc_base s) (rtc_start s)
    (<[Z.to_nat (off / 4) := v]> (regs s)).

Definition in_regs (off : Z) : Prop := 0 <= off < 60.

Lemma index_in off : in_regs off -> 0 <= off / 4 < 15.
Proof. unfold in_regs. intros. dlia. Qed.

Lemma aget_reg s off : wf s -> in_regs off -> aget (regs s) (off / 4) = Ok (reg s off).
Proof.
  intros Hw Ho%index_in. apply aget_Ok. split; [lia|]. unfold reg.
  destruct (lookup_lt_is_Some_2 (regs s) (Z.to_nat (off / 4))) as [x ->]; [|done].
  unfold wf in Hw. lia.
Qed.

Lemma rtc_reg_eq s off : wf s -> in_regs off -> rtc_reg s off = Ok (reg s off).
Proof. apply aget_reg. Qed.

Lemma put_reg_eq s off v : wf s -> in_regs off -> put_reg s off v = Ok (setr s off v).
Proof.
  intros Hw Ho%index_in. unfold put_reg, aset, wf in *.
  replace ((0 <=? off / 4) && (off / 4 <? Z.of_nat (length (regs s)))) with true by lia. done.
Qed.

Lemma wf_setr s off v : wf s -> wf (setr s off v).
Proof. unfold wf. cbn. by rewrite length_insert. Qed.

Lemma reg_setr s off v off' : wf s -> in_regs off -> in_regs off' ->
  reg (setr s off v) off' = if off / 4 =? off' / 4 then v else reg s off'.
Proof.
  intros Hw Ho%index_in Ho'%index_in. unfold reg, wf in *. cbn.
  destruct (Z.eqb_spec (off / 4) (off' / 4)) as [->|Hne].
  - by rewrite list_lookup_insert_eq by lia.
  - by rewrite list_lookup_insert_ne by lia.
Qed.

Lemma or_reg_eq s off v : wf s -> in_regs off ->
  or_reg s off v = Ok (setr s off (Z.lor (reg s off) v)).
Proof. intros. unfold or_reg. rewrite rtc_reg_eq by done. cbn. by apply put_reg_eq. Qed.

Lemma setr_id s off : wf s -> in_regs off -> setr s off (reg s off) = s.
Proof.
  intros Hw Ho%index_in. unfold setr, reg, wf in *. destruct s as [l p q b st r]. cbn in *. f_equal.
  destruct (lookup_lt_is_Some_2 r (Z.to_nat (off / 4))) as [x Hx]; [lia|].
  rewrite Hx. cbn. by apply list_insert_id.
Qed.

Lemma note_change_eq s off v en bit : wf s -> in_regs off ->
  exists i, note_change s off v en bit = Ok (setr s REG_ISR i).
Proof.
  intros Hw Ho. assert (in_regs REG_CR /\ in_regs REG_ISR) as [Hc Hi]
    by (unfold in_regs, REG_CR, REG_ISR; lia).
  unfold note_change. rewrite !rtc_reg_eq by done. cbn [res_bind].
  destruct (_ && _); eexists; [by apply or_reg_eq|]. by rewrite setr_id.
Qed.

Lemma update_irq_eq s : wf s -> exists l p, ftrtc011_update_irq s = Ok (put_lines s l p).
Proof.
  intros Hw. assert (in_regs REG_CR /\ in_regs REG_ISR) as [Hc Hi]
    by (unfold in_regs, REG_CR, REG_ISR; lia).
  unfold ftrtc011_update_irq. rewrite !rtc_reg_eq by done. cbn [res_bind].
  unfold extract32. change (c_assert _) with (Ok tt). cbn [res_bind]. eauto.
Qed.

(** ** Migration *)

(** Saving and loading carry the registers over. *)
Lemma save_load s s' : wf s -> wf s' ->
  exists f, ftrtc011_save s = Ok f /\ length f = 15%nat /\
    ftrtc011_load f s' =
      Ok (mkState (level s') (pulses s') (qtimer s') (rtc_base s') (rtc_start s') (regs s)).
Proof.
  destruct s as [l p q b st r], s' as [l' p' q' b' st' r']. unfold wf. cbn [regs]. intros Hr Hr'.
  do 15 (destruct r as [|? r]; [discriminate|]). destruct r; [|discriminate].
  do 15 (destruct r' as [|? r']; [discriminate|]). destruct r'; [|discriminate].
  eexists. split; [reflexivity|]. split; reflexivity.
Qed.

(** ** The date *)

(** [x] fields of a number of seconds; the day register has 16 bits. *)
Definition sec_of (x : Z) : Z := x mod 60.
Definition min_of (x : Z) : Z := x / 60 mod 60.
Definition hour_of (x : Z) : Z := x / 3600 mod 24.
Definition day_of (x : Z) : Z := x / 86400 mod 2 ^ 16.

(** The clock runs: at [now] it is [seconds] after the date of day zero. *)
Definition elapsed (s : Ftrtc011State) (now : Z) : Z :=
  rtc_base s + (now - rtc_start s) / 1000000000.

Definition enabled (s : Ftrtc011State) : Prop :=
  wf s /\ is_set (reg s REG_CR) CR_EN = true /\ rtc_start s <> 0.

(** Nothing but the clock registers and the interrupt status has changed. *)
Record same_clock (s s' : Ftrtc011State) : Prop := {
  same_base : rtc_base s' = rtc_base s;
  same_start : rtc_start s' = rtc_start s;
  same_cr : reg s' REG_CR = reg s REG_CR;
  same_wf : wf s'
}.

Ltac in_range := unfold in_regs, REG_SEC, REG_MIN, REG_HOUR, REG_DAY, REG_ALARM_SEC, REG_ALARM_MIN,
  REG_ALARM_HOUR, REG_CR, REG_WSEC, REG_WMIN, REG_WHOUR, REG_WDAY, REG_ISR; lia.

(** Reads of a register behind writes of others. *)
Ltac regs_simpl :=
  repeat first
    [ rewrite reg_setr by (repeat apply wf_setr; done || in_range)
    | progress change (REG_SEC / 4) with 0 | progress change (REG_MIN / 4) with 1
    | progress change (REG_HOUR / 4) with 2 | progress change (REG_DAY / 4) with 3
    | progress change (REG_ALARM_SEC / 4) with 4 | progress change (REG_ALARM_MIN / 4) with 5
    | progress change (REG_ALARM_HOUR / 4) with 6 | progress change (REG_CR / 4) with 8
    | progress change (REG_WSEC / 4) with 9 | progress change (REG_WMIN / 4) with 10
    | progress change (REG_WHOUR / 4) with 11 | progress change (REG_WDAY / 4) with 12
    | progress change (REG_ISR / 4) with 13
    | progress cbn [Z.eqb Pos.eqb] ].

Lemma alarm_eq s cr : wf s ->
  exists i, (if is_set cr CR_INTR_ALARM then
        let* t := time_of_day s REG_SEC REG_MIN REG_HOUR in
        let* a := time_of_day s REG_ALARM_SEC REG_ALARM_MIN REG_ALARM_HOUR in
        if t =? a then or_reg s REG_ISR ISR_ALARM else Ok s
      else Ok s) = Ok (setr s REG_ISR i).
Proof.
  intros Hw.
  assert (exists i, Ok s = Ok (setr s REG_ISR i)) as Hid
    by (exists (reg s REG_ISR); rewrite setr_id by (done || in_range); done).
  destruct (is_set _ _); [|done].
  unfold time_of_day. rewrite !rtc_reg_eq by (done || in_range). cbn [res_bind].
  destruct (_ =? _); [|done]. eexists. apply or_reg_eq; [done|in_range].
Qed.

(** The fields that the update computes. *)
Lemma split_date T : 0 <= T ->
  u8 (Z.rem T 86400 ÷ 3600) = hour_of T /\
  u8 (Z.rem (Z.rem T 86400) 3600 ÷ 60) = min_of T /\
  u8 (Z.rem (Z.rem (Z.rem T 86400) 3600) 60) = sec_of T /\
  u8 (hour_of T) = hour_of T /\ u8 (min_of T) = min_of T /\ u8 (sec_of T) = sec_of T /\
  u16 (u32 (T ÷ 86400)) = day_of T.
Proof.
  intros HT. rewrite !(Z.rem_mod_nonneg T), (Z.quot_div_nonneg T) by lia.
  assert (0 <= T mod 86400 < 86400) by dlia. assert (0 <= T mod 86400 mod 3600 < 3600) by dlia.
  rewrite !(Z.rem_mod_nonneg (T mod 86400)), !(Z.quot_div_nonneg (T mod 86400)) by lia.
  rewrite !(Z.rem_mod_nonneg (T mod 86400 mod 3600)), !(Z.quot_div_nonneg (T mod 86400 mod 3600)) by lia.
  assert (T mod 86400 / 3600 = hour_of T) as -> by (unfold hour_of; dlia).
  assert (T mod 86400 mod 3600 / 60 = min_of T) as -> by (unfold min_of; dlia).
  assert (T mod 86400 mod 3600 mod 60 = sec_of T) as -> by (unfold sec_of; dlia).
  assert (0 <= hour_of T < 24 /\ 0 <= min_of T < 60 /\ 0 <= sec_of T < 60) as (B1 & B2 & B3)
    by (unfold hour_of, min_of, sec_of; split_and!; dlia).
  rewrite !(uwrap_small 8) by lia. split_and!; try done.
  unfold day_of, uwrap. apply Z.mod_mod_divide. by exists (2 ^ 16).
Qed.

Lemma update_spec now s : enabled s -> 0 <= rtc_base s -> rtc_start s <= now ->
  exists s', ftrtc011_timer_update now s = Ok s' /\ same_clock s s' /\ qtimer s' = qtimer s /\
    reg s' REG_SEC = sec_of (elapsed s now) /\ reg s' REG_MIN = min_of (elapsed s now) /\
    reg s' REG_HOUR = hour_of (elapsed s now) /\ reg s' REG_DAY = day_of (elapsed s now).
Proof.
  intros (Hw & He & Hs) Hb Hn. unfold ftrtc011_timer_update.
  rewrite rtc_reg_eq by (done || in_range). cbn [res_bind]. rewrite He. cbn [negb].
  replace (rtc_start s =? 0) with false by lia. cbn [res_bind].
  assert (0 <= (now - rtc_start s) / 1000000000) by (apply Z.div_pos; lia).
  rewrite Z.quot_div_nonneg by lia. fold (elapsed s now).
  set (T := elapsed s now). assert (0 <= T) as HT by (unfold T, elapsed; lia).
  destruct (split_date T HT) as (-> & -> & -> & Eh & Em & Es & Ed). cbn zeta. rewrite Eh, Em, Es.
  destruct (note_change_eq s REG_SEC (sec_of T) CR_INTR_SEC ISR_SEC Hw ltac:(in_range)) as [i1 ->].
  cbn [res_bind]. set (s1 := setr s REG_ISR i1). assert (wf s1) as W1 by by apply wf_setr.
  destruct (note_change_eq s1 REG_MIN (min_of T) CR_INTR_MIN ISR_MIN W1 ltac:(in_range)) as [i2 ->].
  cbn [res_bind]. set (s2 := setr s1 REG_ISR i2). assert (wf s2) as W2 by by apply wf_setr.
  destruct (note_change_eq s2 REG_HOUR (hour_of T) CR_INTR_HOUR ISR_HOUR W2 ltac:(in_range)) as [i3 ->].
  cbn [res_bind]. set (s3 := setr s2 REG_ISR i3). assert (wf s3) as W3 by by apply wf_setr.
  destruct (note_change_eq s3 REG_DAY (u32 (T ÷ 86400)) CR_INTR_DAY ISR_DAY W3 ltac:(in_range))
    as [i4 ->].
  cbn [res_bind]. set (s4 := setr s3 REG_ISR i4). assert (wf s4) as W4 by by apply wf_setr.
  repeat (rewrite put_reg_eq by (repeat apply wf_setr; done || in_range); cbn [res_bind]).
  set (s5 := setr _ REG_DAY _). assert (wf s5) as W5 by (repeat apply wf_setr; done).
  destruct (alarm_eq s5 (reg s REG_CR) W5) as [i6 ->]. cbn [res_bind].
  destruct (update_irq_eq (setr s5 REG_ISR i6)) as (l & p & ->); [by apply wf_setr|].
  eexists. split; [done|].
  assert (forall off, reg (put_lines (setr s5 REG_ISR i6) l p) off = reg (setr s5 REG_ISR i6) off) as Hl
    by done.
  split_and!; try done.
  - split; try done; [|by apply wf_setr]. rewrite Hl. unfold s5, s4, s3, s2, s1. by regs_simpl.
  - rewrite Hl. unfold s5. by regs_simpl.
  - rewrite Hl. unfold s5. by regs_simpl.
  - rewrite Hl. unfold s5. by regs_simpl.
  - rewrite Hl. unfold s5. regs_simpl. done.
Qed.

(** ** Runs *)

(** What the guest and the timer do to a running clock: reads, writes of
    registers other than the control register, ticks. *)
Inductive event : Type :=
| Read (now addr : Z)
| Write (now addr val : Z)
| Tick (now : Z).

Definition time_of (e : event) : Z :=
  match e with Read now _ | Write now _ _ | Tick now => now end.

Definition leaves_cr (e : event) : Prop :=
  match e with Write _ addr _ => addr <> REG_CR /\ in_regs addr /\ addr mod 4 = 0 | _ => True end.

Definition run_event (e : event) (s : Ftrtc011State) : res Ftrtc011State :=
  match e with
  | Read now addr => let* (s, _) := ftrtc011_mem_read now addr s in Ok s
  | Write now addr val => ftrtc011_mem_write now addr val s
  | Tick now => ftrtc011_timer_tick now s
  end.

Fixpoint run (es : list event) (s : Ftrtc011State) : res Ftrtc011State :=
  match es with [] => Ok s | e :: es => let* s := run_event e s in run es s end.

Lemma same_clock_refl s : wf s -> same_clock s s.
Proof. by split. Qed.

Lemma same_clock_trans s1 s2 s3 : same_clock s1 s2 -> same_clock s2 s3 -> same_clock s1 s3.
Proof. intros [] []. split; congruence || done. Qed.

Lemma same_enabled s s' : same_clock s s' -> enabled s -> enabled s'.
Proof. intros [] (Hw & He & Hs). split_and!; congruence. Qed.

(** A write to a register that is not the control register keeps the clock. *)
Lemma setr_same s off v : wf s -> in_regs off -> off / 4 <> 8 -> same_clock s (setr s off v).
Proof.
  intros Hw Ho Hne. split; try done; [|by apply wf_setr].
  rewrite reg_setr by (done || in_range). change (REG_CR / 4) with 8.
  by destruct (Z.eqb_spec (off / 4) 8).
Qed.

Lemma read_spec now addr s : enabled s -> 0 <= rtc_base s -> rtc_start s <= now ->
  exists s' v, ftrtc011_mem_read now addr s = Ok (s', v) /\ same_clock s s'.
Proof.
  intros He Hb Hn. pose proof He as (Hw & _). unfold ftrtc011_mem_read.
  destruct (update_spec now s He Hb Hn) as (s' & E & Hs & _).
  destruct ((REG_SEC <=? addr) && (addr <=? REG_DAY)) eqn:E1.
  { rewrite E. cbn [res_bind]. rewrite aget_reg; [eauto|apply Hs|].
    unfold in_regs, REG_SEC, REG_DAY in *. lia. }
  destruct ((REG_ALARM_SEC <=? addr) && (addr <=? REG_ISR)) eqn:E2.
  { rewrite aget_reg; [|done|unfold in_regs, REG_ALARM_SEC, REG_ISR in *; lia].
    eauto using same_clock_refl. }
  destruct (addr =? REG_REVR); [eauto using same_clock_refl|].
  destruct (addr =? REG_CURRENT); [|eauto using same_clock_refl].
  rewrite E. cbn [res_bind]. rewrite !rtc_reg_eq by (apply Hs || in_range). cbn. eauto.
Qed.

Lemma write_spec now addr val s : wf s -> addr <> REG_CR -> in_regs addr -> addr mod 4 = 0 ->
  exists s', ftrtc011_mem_write now addr val s = Ok s' /\ same_clock s s'.
Proof.
  intros Hw Hne Hi Ha. unfold ftrtc011_mem_write.
  assert (addr / 4 <> 8) as H8 by (unfold REG_CR in Hne; dlia).
  destruct (_ || _); [rewrite put_reg_eq by done; eauto using setr_same|].
  destruct (addr =? REG_WDAY); [rewrite put_reg_eq by done; eauto using setr_same|].
  destruct (Z.eqb_spec addr REG_CR); [done|].
  destruct (Z.eqb_spec addr REG_ISR) as [->|]; [|eauto using same_clock_refl].
  rewrite rtc_reg_eq by (done || in_range). cbn [res_bind].
  rewrite put_reg_eq by (done || in_range). cbn [res_bind].
  destruct (update_irq_eq (setr s REG_ISR (Z.ldiff (reg s REG_ISR) (u32 val)))) as (l & p & ->);
    [by apply wf_setr|].
  eexists. split; [done|].
  destruct (setr_same s REG_ISR (Z.ldiff (reg s REG_ISR) (u32 val)) Hw Hi H8).
  by split.
Qed.

Lemma resche_spec now s : wf s -> exists s', ftrtc011_timer_resche now s = Ok s' /\ same_clock s s'.
Proof.
  intros Hw. unfold ftrtc011_timer_resche. rewrite rtc_reg_eq by (done || in_range). cbn [res_bind].
  eexists. split; [done|]. destruct (0 <? _); by split.
Qed.

Lemma event_spec e s : leaves_cr e -> enabled s -> 0 <= rtc_base s -> rtc_start s <= time_of e ->
  exists s', run_event e s = Ok s' /\ same_clock s s'.
Proof.
  intros Hl He Hb Hn. pose proof He as (Hw & _). destruct e as [now addr|now addr val|now]; cbn in *.
  - destruct (read_spec now addr s He Hb Hn) as (s' & v & -> & Hs). cbn. eauto.
  - destruct Hl as (H1 & H2 & H3). by apply write_spec.
  - unfold ftrtc011_timer_tick. destruct (update_spec now s He Hb Hn) as (s1 & -> & H1 & _).
    cbn [res_bind]. destruct (resche_spec now s1 (same_wf _ _ H1)) as (s2 & -> & H2).
    eauto using same_clock_trans.
Qed.

Lemma run_spec es : forall s, Forall leaves_cr es -> enabled s -> 0 <= rtc_base s ->
  Forall (fun e => rtc_start s <= time_of e) es ->
  exists s', run es s = Ok s' /\ same_clock s s'.
Proof.
  induction es as [|e es IH]; intros s Hl He Hb Ht; cbn [run].
  { exists s. split; [done|]. apply same_clock_refl, He. }
  apply Forall_cons in Hl as [Hl1 Hl], Ht as [Ht1 Ht].
  destruct (event_spec e s Hl1 He Hb Ht1) as (s1 & -> & H1). cbn [res_bind].
  destruct (IH s1 Hl (same_enabled _ _ H1 He)) as (s2 & -> & H2).
  - by rewrite (same_base _ _ H1).
  - by rewrite (same_start _ _ H1).
  - eauto using same_clock_trans.
Qed.

(** Loading a date and enabling the clock. *)
Definition loaded (s : Ftrtc011State) : Z :=
  reg s REG_WSEC + 60 * reg s REG_WMIN + 3600 * reg s REG_WHOUR + 86400 * reg s REG_WDAY.

Lemma load_date_spec s : wf s ->
  exists s', load_date s = Ok s' /\ wf s' /\ reg s' REG_SEC = reg s REG_WSEC /\
    reg s' REG_MIN = reg s REG_WMIN /\ reg s' REG_HOUR = reg s REG_WHOUR /\
    reg s' REG_DAY = reg s REG_WDAY.
Proof.
  intros Hw. unfold load_date.
  repeat (first [rewrite rtc_reg_eq by (repeat apply wf_setr; done || in_range)
                |rewrite put_reg_eq by (repeat apply wf_setr; done || in_range)]; cbn [res_bind]).
  eexists. split; [done|]. split; [by repeat apply wf_setr|]. by regs_simpl.
Qed.

Lemma enable_bit v : is_set v CR_EN = true -> is_set (u32 (Z.ldiff v CR_LOAD)) CR_EN = true.
Proof.
  unfold is_set. change CR_EN with 1. rewrite !(Z.land_comm _ 1).
  intros H. assert (Z.testbit v 0 = true) as Hb.
  { destruct (Z.testbit v 0) eqn:E; [done|]. exfalso.
    assert (Z.land 1 v = 0) as E0; [|by rewrite E0 in H].
    apply Z.bits_inj'. intros i Hi. rewrite Z.land_spec, Z.bits_0, one_testbit.
    destruct (Z.eqb_spec i 0) as [->|]; [by rewrite E|done]. }
  apply negb_true_iff, Z.eqb_neq. intros E.
  assert (Z.testbit (Z.land 1 (u32 (Z.ldiff v CR_LOAD))) 0 = true) as Hc; [|by rewrite E in Hc].
  by rewrite Z.land_spec, uwrap_testbit, Z.ldiff_spec, Hb by lia.
Qed.

Lemma write_cr_spec now val s : wf s -> 1000000000 <= now ->
  is_set val CR_EN = true -> is_set val CR_LOAD = true ->
  exists s', ftrtc011_mem_write now REG_CR val s = Ok s' /\ enabled s' /\
    rtc_base s' = loaded s /\ rtc_start s' = now - now mod 1000000000.
Proof.
  intros Hw Hn He Hl. unfold ftrtc011_mem_write.
  change ((REG_ALARM_SEC <=? REG_CR) && (REG_CR <=? REG_ALARM_HOUR) ||
          (REG_WSEC <=? REG_CR) && (REG_CR <=? REG_WHOUR)) with false.
  change (REG_CR =? REG_WDAY) with false. change (REG_CR =? REG_CR) with true. cbn iota.
  unfold write_cr. rewrite He, Hl.
  destruct (load_date_spec s Hw) as (s1 & -> & W1 & E1 & E2 & E3 & E4). cbn [res_bind].
  unfold ftrtc011_timer_rebase. rewrite !rtc_reg_eq by (done || in_range). cbn [res_bind].
  rewrite E1, E2, E3, E4. fold (loaded s). set (s2 := put_base s1 _ _).
  assert (wf s2) as W2 by done.
  rewrite put_reg_eq by (done || in_range). cbn [res_bind].
  set (s3 := setr s2 REG_CR _). assert (wf s3) as W3 by by apply wf_setr.
  destruct (resche_spec now s3 W3) as (s4 & -> & Hs). eexists. split; [done|].
  rewrite (same_base _ _ Hs), (same_start _ _ Hs). unfold s3, s2. cbn [setr put_base rtc_base rtc_start].
  rewrite Z.rem_mod_nonneg by (unfold get_ticks_per_sec; lia).
  split_and!; try done.
  apply (same_enabled _ _ Hs). split_and!; [done| |].
  - unfold s3. rewrite reg_setr by (done || in_range). rewrite Z.eqb_refl. by apply enable_bit.
  - unfold s3, s2. cbn [setr put_base rtc_start].
    rewrite Z.rem_mod_nonneg by (unfold get_ticks_per_sec; lia). unfold get_ticks_per_sec. dlia.
Qed.

(** The packed register: the fields do not overlap. *)
Lemma packed d h m c : 0 <= d < 2 ^ 15 -> 0 <= h < 24 -> 0 <= m < 60 -> 0 <= c < 60 ->
  Z.lor (Z.lor (Z.lor (u32 (Z.shiftl d 17)) (u32 (Z.shiftl h 12))) (u32 (Z.shiftl m 6))) c =
  d * 2 ^ 17 + h * 2 ^ 12 + m * 2 ^ 6 + c.
Proof.
  intros. rewrite !(uwrap_small 32) by (rewrite Z.shiftl_mul_pow2; lia).
  rewrite <- !Z.lor_assoc. rewrite (lor_concat m) by lia. rewrite (lor_concat h) by lia.
  rewrite (lor_concat d) by lia. lia.
Qed.

(** C33: The clock keeps time, that of the real-time clock of the host, which the
    device reads (tests/ftrtc011-test.c steps the virtual clock and expects the
    date to follow that one).  After a date has been loaded and the clock
    enabled at [t0], a second or more after the origin of the host's clock, and
    after any reads, ticks and writes of registers other than the control
    register at any later times - none of which faults - the date read at [t] is
    the loaded one plus the whole seconds that the host's clock has advanced
    between [t0] and [t]: nothing is lost or counted twice.  The packed register
    shows it for the first 2^15 days. *)
Theorem rtc_keeps_time t0 val es t s :
  wf s -> 0 <= loaded s -> 1000000000 <= t0 <= t ->
  is_set val CR_EN = true -> is_set val CR_LOAD = true ->
  Forall leaves_cr es -> Forall (fun e => t0 <= time_of e) es ->
  let T := loaded s + (t / 1000000000 - t0 / 1000000000) in
  exists s1 s2 s3 v, ftrtc011_mem_write t0 REG_CR val s = Ok s1 /\ run es s1 = Ok s2 /\
    ftrtc011_mem_read t REG_CURRENT s2 = Ok (s3, v) /\
    reg s3 REG_SEC = sec_of T /\ reg s3 REG_MIN = min_of T /\ reg s3 REG_HOUR = hour_of T /\
    reg s3 REG_DAY = day_of T /\
    (T < 86400 * 2 ^ 15 ->
     v = T / 86400 * 2 ^ 17 + hour_of T * 2 ^ 12 + min_of T * 2 ^ 6 + sec_of T).
Proof.
  intros Hw Hl Ht He Hld Hes Hts T.
  destruct (write_cr_spec t0 val s Hw ltac:(lia) He Hld) as (s1 & E1 & Hen & Hb & Hst).
  assert (rtc_start s1 <= t0) by (rewrite Hst; dlia).
  destruct (run_spec es s1 Hes Hen) as (s2 & E2 & Hs); [lia| |].
  { eapply Forall_impl; [exact Hts|]. intros e. cbn. lia. }
  pose proof (same_base _ _ Hs) as Hb2. pose proof (same_start _ _ Hs) as Hst2.
  destruct (update_spec t s2 (same_enabled _ _ Hs Hen)) as (s3 & E3 & H3 & _ & R1 & R2 & R3 & R4);
    [lia|lia|].
  assert (elapsed s2 t = T) as ET.
  { unfold elapsed, T. rewrite Hb2, Hst2, Hb, Hst. dlia. }
  rewrite ET in *.
  eexists s1, s2, s3, _. split; [done|]. split; [done|]. split.
  { unfold ftrtc011_mem_read. rewrite E3. cbn [res_bind].
    rewrite !rtc_reg_eq by (apply H3 || in_range). cbn [res_bind]. reflexivity. }
  split_and!; try done. intros Hday. rewrite R1, R2, R3, R4.
  assert (0 <= T) by (unfold T; dlia).
  assert (0 <= T / 86400 < 2 ^ 15) as Hd by dlia.
  assert (day_of T = T / 86400) as -> by (unfold day_of; apply Z.mod_small; lia).
  apply packed; [done|..]; unfold hour_of, min_of, sec_of; dlia.
Qed.

(** The registers as the guest writes them: 1 day, 23:59:58, alarm at 0:00:10. *)
Definition sample_regs : Ftrtc011State :=
  match run [Write 0 REG_WSEC 58; Write 0 REG_WMIN 59; Write 0 REG_WHOUR 23; Write 0 REG_WDAY 1;
             Write 0 REG_ALARM_SEC 10] ftrtc011_realize with
  | Ok s => s
  | Err _ => ftrtc011_realize
  end.

Lemma rtc_keeps_time_witness :
  exists s1 s2 s3 v, ftrtc011_mem_write 5500000000 REG_CR 0x41 sample_regs = Ok s1 /\
    run [Read 6000000000 REG_SEC; Tick 7900000000] s1 = Ok s2 /\
    ftrtc011_mem_read 8000000000 REG_CURRENT s2 = Ok (s3, v) /\ v = 2 * 2 ^ 17 + 1.
Proof.
  destruct (rtc_keeps_time 5500000000 0x41 [Read 6000000000 REG_SEC; Tick 7900000000]
    8000000000 sample_regs) as (s1 & s2 & s3 & v & E1 & E2 & E3 & _ & _ & _ & _ & Hv).
  - done.
  - by vm_compute.
  - lia.
  - done.
  - done.
  - by repeat apply Forall_cons_2.
  - repeat apply Forall_cons_2; [cbn; lia..|done].
  - exists s1, s2, s3, v. split_and!; [exact E1|exact E2|exact E3|].
    rewrite Hv; by vm_compute.
Defined.

(** The timer is armed a second after its callback ran, and the alarm is
    compared for equality there: ticks at .95 of each second and one callback
    that runs 60 ms late skip the second of the alarm. *)
Theorem alarm_missed :
  exists s1 s2, ftrtc011_mem_write 100950000000 REG_CR 0x61 sample_regs = Ok s1 /\
    run (Tick <$> [101950000000; 102950000000; 103950000000; 104950000000; 105950000000;
                   106950000000; 107950000000; 108950000000; 109950000000; 110950000000;
                   111950000000; 113010000000; 114010000000]) s1 = Ok s2 /\
    reg s2 REG_SEC = 12 /\ reg s2 REG_ISR = 0 /\ level s2 = false /\ pulses s2 = [].
Proof. eexists _, _. split; [vm_compute; reflexivity|]. split; [vm_compute; reflexivity|]. by vm_compute. Qed.

(** The timer is not migrated, and loading does not arm it: a clock with the
    alarm enabled keeps its date but does not tick in the new process. *)
Example migrated_clock_does_not_tick :
  exists s1 f s2 s3 v, ftrtc011_mem_write 100000000000 REG_CR 0x61 sample_regs = Ok s1 /\
    qtimer s1 = Some 101000000000 /\ ftrtc011_save s1 = Ok f /\
    ftrtc011_load f ftrtc011_realize = Ok s2 /\
    ftrtc011_mem_read 7000000000 REG_CURRENT s2 = Ok (s3, v) /\
    v = 1 * 2 ^ 17 + 23 * 2 ^ 12 + 59 * 2 ^ 6 + 58 /\ qtimer s3 = None.
Proof.
  eexists _, _, _, _, _. split; [vm_compute; reflexivity|]. split; [vm_compute; reflexivity|].
  split; [vm_compute; reflexivity|]. split; [vm_compute; reflexivity|].
  split; [vm_compute; reflexivity|]. by vm_compute.
Qed.

End Ftrtc011.
